(* ===== verification/_CoqProject ===== *)
-Q . S2P
Prelude.v
MonoTime.v
Crc.v
Transfer.v
CanFrame.v
BitField.v
Frame.v
LinkedList.v
PoolAllocator.v
PoolClient.v
TransferBuffer.v
PoolMap.v
PoolMultiset.v
TransferReceiver.v
TransferListener.v
OutgoingTransferRegistry.v
CanTxQueue.v
CanIO.v
Dispatcher.v
AcceptanceFilter.v
TransferSender.v
BitStream.v
ScalarCodec.v
Message.v
BitSet.v
NodeIDSelector.v
NodeDiscoverer.v
Allocation.v
StorageMarshaller.v
CentralizedServer.v
RaftLog.v
ClusterManager.v
RaftCore.v
RaftElection.v
DistributedServer.v
Stm32Timings.v
Stm32RxQueue.v
Stm32Can.v
Stm32Driver.v
Array.v
ArrayCodec.v
SquareMatrix.v
DataTypes.v
Timers.v
Scheduler.v
SocketCan.v
LinuxClock.v
TimeSync.v
Services.v
DataTypeRegistry.v
NodeStatusMonitor.v
NodeInfoRetriever.v
FirmwareUpdateTrigger.v
NodeServices.v
DeviceServices.v
LpcDriver.v
HeapPool.v
FileBackend.v
Stm32Clock.v
