(* ===== verification/Prelude.v ===== *)
(** * libuavcan: the transport layer of a UAVCAN node, modelled and verified

    libuavcan (sources under [src/libuavcan]) is the C++ implementation of the UAVCAN
    protocol for embedded nodes on a CAN bus. This development is a shallow embedding of
    its transport layer and of the data structures below it: every C++ function becomes an
    executable function on explicit state, every class a [Record], and the properties that
    make the code correct are theorems about these functions.

    ** The program and the files that model it

    - [Prelude]: machine integers as [Z] with their wrap-around ([wrap], [swrap]), the error
      codes of [error.hpp], shared list and bit lemmas, tactics and hint databases.
    - [MonoTime] ([time.hpp]): durations (signed 64 bit) and points in time (unsigned).
    - [Crc] ([transport/crc.hpp], [uc_crc.cpp], [uc_data_type.cpp]): the transfer CRC in its
      table-driven and bitwise builds and the data type signature CRC.
    - [Transfer] ([transport/transfer.hpp], [data_type.hpp]): transfer types, priorities,
      transfer IDs, node IDs, data type IDs.
    - [CanFrame] ([driver/can.hpp], [uc_can.cpp]): CAN frames and bus arbitration.
    - [BitField], [Frame] ([transport/frame.hpp], [uc_frame.cpp]): UAVCAN frames and their
      encoding in CAN frames.
    - [LinkedList] ([util/linked_list.hpp]): the intrusive list on a heap of next pointers.
    - [PoolAllocator] ([dynamic_memory.hpp], [uc_dynamic_memory.cpp]): the block pool and the
      quota wrapper; the classes [IPoolAllocator], [PoolLaws], [PoolCapacity], [PoolRefill]
      are the interface every other component is proved against.
    - [PoolClient]: the discipline of components sharing one pool (what each owns, what a
      step of one leaves to the others), with products and lists of clients.
    - [TransferBuffer] ([transport/transfer_buffer.hpp], [uc_transfer_buffer.cpp]): buffers
      made of pool blocks and their manager.
    - [PoolMap] ([util/map.hpp]): the map container on the pool.
    - [TransferReceiver], [TransferListener]: reassembly of transfers and delivery to the
      application ([uc_transfer_receiver.cpp], [uc_transfer_listener.cpp]).
    - [OutgoingTransferRegistry]: transfer IDs of outgoing transfers.
    - [CanTxQueue], [CanIO] ([transport/can_io.hpp], [uc_can_io.cpp]): the transmission
      queues and the input/output manager over redundant interfaces.
    - [Dispatcher] ([uc_dispatcher.cpp]): routing of received frames to listeners.
    - [TransferSender] ([uc_transfer_sender.cpp]): splitting payloads into frames.
    - [PoolMultiset] ([util/multiset.hpp]): the unordered container on the pool.
    - [BitStream], [ScalarCodec] ([marshal/bit_stream.hpp], [uc_bit_array_copy.cpp],
      [marshal/scalar_codec.hpp], [marshal/integer_spec.hpp]): the encoding of integer fields
      into transfer buffers.
    - [Timers], [Scheduler] ([node/scheduler.hpp], [uc_scheduler.cpp], [node/timer.hpp], [uc_timer.cpp]):
      timers and the main loop of a node.
    - [Array], [ArrayCodec], [SquareMatrix], [DataTypes] ([marshal/array.hpp], the template of the
      DSDL compiler): arrays, packed matrices, and the structures and unions generated from them.
      [RawLaws] is what an element type promises to the types built from it.
    - [AcceptanceFilter] ([transport/can_acceptance_filter_configurator.hpp]): hardware filters.
    - [StorageMarshaller], [RaftLog], [ClusterManager], [RaftCore]
      ([protocol/dynamic_node_id_server/storage_marshaller.hpp],
      [protocol/dynamic_node_id_server/distributed/]): one server of the Raft cluster that allocates
      node IDs. [RaftElection]: a cluster of them with its network and crashes.
    - [BitSet], [NodeIDSelector], [NodeDiscoverer], [Allocation], [CentralizedServer],
      [DistributedServer] ([protocol/dynamic_node_id_client.hpp], [protocol/dynamic_node_id_server/]):
      the client that asks for a node ID and the two servers that give it one.
    - [Stm32Timings], [Stm32RxQueue], [Stm32Can], [Stm32Driver]
      ([libuavcan_drivers/stm32/driver/]): the CAN driver for STM32 microcontrollers, an instance of
      the class the input/output manager is proved against; [Stm32Clock] its clock.
    - [Services] ([node/generic_publisher.hpp], [node/generic_subscriber.hpp], [node/service_client.hpp],
      [node/service_server.hpp]): publishers, subscribers, service clients and servers.
    - [DataTypeRegistry] ([node/global_data_type_registry.hpp], [uc_global_data_type_registry.cpp]): the data types of the application.
    - [NodeStatusMonitor], [NodeInfoRetriever] ([protocol/node_status_monitor.hpp], [protocol/node_info_retriever.hpp]): the
      network monitor, and the class derived from it that asks every new node for its description.
    - [FirmwareUpdateTrigger] ([protocol/firmware_update_trigger.hpp]): asks nodes to update their firmware.
    - [NodeServices] ([protocol/node_status_provider.hpp], [protocol/panic_broadcaster.hpp], [protocol/panic_listener.hpp],
      [protocol/restart_request_server.hpp], [protocol/logger.hpp]), [DeviceServices] ([protocol/param_server.hpp], [protocol/file_server.hpp],
      [protocol/data_type_info_provider.hpp], [protocol/transport_stats_provider.hpp]): the standard services of a node.
    - [TimeSync] ([protocol/global_time_sync_master.hpp], [protocol/global_time_sync_slave.hpp]): network-wide time.
    - [SocketCan], [LinuxClock] ([libuavcan_drivers/linux/include/uavcan_linux/]): the CAN driver and the
      clock for Linux, the clock an instance of what time synchronisation asks of one.
    - [LpcDriver] ([libuavcan_drivers/lpc11c24/driver/src/]): the CAN driver and the clock for the LPC11C24 microcontroller.
    - [HeapPool] ([helpers/heap_based_pool_allocator.hpp]): the pool that grows in the heap, an instance of the laws the clients of a pool are proved against.
    - [FileBackend] ([libuavcan_drivers/posix/include/uavcan_posix/basic_file_server_backend.hpp]): the files of a file server.
    - [Message] ([node/generic_publisher.hpp], [node/generic_subscriber.hpp]): the whole path of a message, from field values to field values.

    ** State, pointers and parameters

    Objects in pool memory are identified by their block address (a [Z], 0 is the null
    pointer); a linked list of such objects is the list of its address/object pairs, which
    the theorem on the intrusive list justifies. The uninitialised contents of memory are
    arguments ([junk], [mem]), so no theorem depends on them. The size of types
    ([sizeof_Entry], ...) and the amount of slots in a map group are section variables, since
    they depend on the platform. The CAN driver and the system clock are the class
    [CanPlatform]; what the code relies on of them is stated in [ClockAdvances] (the clock
    reaches every deadline) and [DriverFrames] (received frames have byte payloads), and the
    module [Sim] is an instance, as is the STM32 driver. Assertions ([UAVCAN_ASSERT]) have no effect in the model.

    Loops without a structural bound ([send], [receive], [spin]) take fuel; the theorems
    show that with the fuel [ClockAdvances] gives they return. All other recursion is
    structural or has fuel computed from the data, shown to be enough where it matters.

    ** What is proved

    - End to end: the frames a sender makes for a payload, encoded to CAN frames, decoded and
      given to a listener, make it deliver that payload once.
    - Frames: encode/decode round trips in both directions; priorities order the bus.
    - CRC: the two builds agree; every burst confined to two adjacent bytes is detected.
    - Memory: the pool never hands out a block twice or loses one; every component gives back
      what it took, touches only what it owns, and all components of a dispatcher share the
      pool without interference.
    - Containers: the block buffer refines a contiguous one, the map a finite map, the
      intrusive list a list.
    - Receiving: transfers are reassembled byte for byte; arbitrary frames are harmless;
      repeated frames are ignored; a listener delivers exactly when the CRC matches.
    - Sending: consecutive transfer IDs per destination; a frame goes exactly once to each
      selected interface (sent or queued or counted as rejected); queues keep bus priority.
    - Routing: every listener of a frame's data type gets it, and no other.
    - Messages: encoding and decoding of integer fields on machines of either byte order,
      reported lack of space, and the path of a message through all layers.
    - Main loop: timers are run on schedule, without drift, and the loop ends at its deadline.
    - Data types: whatever the nesting of structures, unions and arrays, encoding and decoding are
      inverse and decoding is total and safe on any data; packed matrices are recovered.
    - Filters: the hardware filters let through every frame the node wants.
    - Node IDs: a client gets its node ID in three rounds; two clients never get the same one from
      a centralized server; the log of a distributed server has each node ID once. What the servers need of the storage is
      in the classes [StorageLaws] (its documentation), [ReadableStorage] and [ReliableStorage]; examples on [FailingReads]
      show what a failed read does.
    - STM32 driver: bit timings solve their equation whenever that is possible, the ring buffer is
      a bounded queue, frames cross the bus unchanged, every interleaving of calls and interrupts
      keeps the driver well-formed. UTC is corrected without rounding loss, the clock is monotonic.
    - Services: every call gets one result, a response or a timeout, whatever the order of events.
    - Data type registry: it refines a finite map from names to descriptors, with unique IDs.
    - Network monitor: it shows of every node its last message or that it timed out, and reports every change; the
      round robin of the node info retriever is fair.
    - Standard services: pending firmware updates are asked for in a fair order; panics are detected exactly; node status,
      parameters, files and data types are reported as the application gave them.
    - Time: a slave takes over the clock of the master of lowest node ID after two messages and keeps it.
    - Linux driver: every frame given to it is accounted for by the calls made to the socket, in the order of bus priority.
    - LPC11C24: received frames are queued or counted as lost, and transmission follows a simple specification, whatever the
      order of calls and callbacks; the controller itself is not modelled, only what the driver tells it ([HwCommand]). The
      clock is monotonic although its timer overflows.
    - Files: every request gets the bytes of the file whatever the descriptor cache holds, or an error if the host refused
      a call, and no descriptor is leaked.
    - Heap pool: its counters are exact, the hard limit is kept, shrinking gives back exactly what is not in use.
    - Raft: the state of a server survives crashes, a cluster has at most one leader per term,
      accepted entries make the logs agree, commitment needs a quorum.

    ** What is not modelled

    Debug printing ([toString], [UAVCAN_TRACE]), locking of the pool, the platform drivers
    but for the CAN drivers and clocks of STM32, LPC11C24 and Linux, floating point fields, the generated tables of data types, the
    classes [Node] and [SubNode], the DSDL compiler itself, the Linux tools. *)

From stdpp Require Export prelude.
From Stdlib Require Export ZArith Lia.

Declare Scope uav_scope.
Delimit Scope uav_scope with uav.

Create HintDb uav discriminated.
Create HintDb uav_bits discriminated.

Local Open Scope Z_scope.

(** ** Machine integers

    A [w]-bit unsigned integer is a [Z] in [0 .. 2^w - 1]; the conversions of
    the C++ code ([uint8_t(x)] and friends) are [wrap w]; conversions to a
    signed type are [swrap w]. *)

Definition wrap (w x : Z) : Z := x mod 2 ^ w.
Definition swrap (w x : Z) : Z := (x + 2 ^ (w - 1)) mod 2 ^ w - 2 ^ (w - 1).

Arguments wrap : simpl never.
Arguments swrap : simpl never.

Abbreviation u8 := (wrap 8).
Abbreviation u16 := (wrap 16).
Abbreviation u32 := (wrap 32).
Abbreviation u64 := (wrap 64).
Abbreviation i64 := (swrap 64).

(** The range predicate of a [w]-bit unsigned integer. *)
Definition in_width (w x : Z) : Prop := 0 <= x < 2 ^ w.

Abbreviation is_u8 := (in_width 8).
Abbreviation is_u16 := (in_width 16).
Abbreviation is_u32 := (in_width 32).
Abbreviation is_u64 := (in_width 64).

(** A byte buffer. *)
Abbreviation bytes := (Forall is_u8).

#[global] Instance in_width_dec w x : Decision (in_width w x).
Proof. unfold in_width. apply _. Defined.

Lemma wrap_range w x : 0 <= w -> in_width w (wrap w x).
Proof. intros Hw. apply Z.mod_pos_bound. lia. Qed.

Lemma wrap_small w x : in_width w x -> wrap w x = x.
Proof. apply Z.mod_small. Qed.

Lemma swrap_range w x : 0 < w -> - 2 ^ (w - 1) <= swrap w x < 2 ^ (w - 1).
Proof.
  intros Hw. unfold swrap.
  pose proof (Z.mod_pos_bound (x + 2 ^ (w - 1)) (2 ^ w) ltac:(lia)).
  replace (2 ^ w) with (2 * 2 ^ (w - 1)) in *; [lia|].
  rewrite <-Z.pow_succ_r by lia. f_equal. lia.
Qed.

Lemma swrap_small w x :
  0 < w -> - 2 ^ (w - 1) <= x < 2 ^ (w - 1) -> swrap w x = x.
Proof.
  intros Hw Hx. unfold swrap. rewrite Z.mod_small; [lia|].
  replace (2 ^ w) with (2 * 2 ^ (w - 1)); [lia|].
  rewrite <-Z.pow_succ_r by lia. f_equal. lia.
Qed.

Lemma wrap_swrap w x : 0 < w -> wrap w (swrap w x) = wrap w x.
Proof.
  intros Hw. unfold wrap, swrap.
  rewrite Zminus_mod_idemp_l. f_equal. lia.
Qed.

(** Masking with [(1 << w) - 1] is the conversion to [w] bits. *)
Lemma land_ones_wrap w x : 0 <= w -> Z.land x (Z.ones w) = wrap w x.
Proof. apply Z.land_ones. Qed.

(** ** Bits above the width *)

Lemma in_width_testbit w x i :
  in_width w x -> w <= i -> Z.testbit x i = false.
Proof.
  intros Hx Hi. destruct (decide (0 <= w)) as [Hw|Hw].
  - rewrite <-(Z.mod_small x (2 ^ w)) by done. by apply Z.mod_pow2_bits_high.
  - unfold in_width in Hx. rewrite Z.pow_neg_r in Hx by lia. lia.
Qed.

Lemma in_width_intro w x :
  0 <= w -> 0 <= x -> (forall i, w <= i -> Z.testbit x i = false) -> in_width w x.
Proof.
  intros Hw Hx Hb. split; [done|].
  destruct (decide (x = 0)) as [->|]; [lia|].
  apply Z.log2_lt_pow2; [lia|].
  destruct (decide (Z.log2 x < w)) as [|Hge]; [done|].
  pose proof (Z.bit_log2 x ltac:(lia)) as Hl.
  rewrite Hb in Hl by lia. done.
Qed.

Lemma in_width_mono w w' x : 0 <= w <= w' -> in_width w x -> in_width w' x.
Proof.
  intros Hw [? ?]. split; [done|].
  pose proof (Z.pow_le_mono_r 2 w w'). lia.
Qed.

Lemma in_width_lor w x y : 0 <= w -> in_width w x -> in_width w y -> in_width w (Z.lor x y).
Proof.
  intros Hw Hx Hy. apply in_width_intro; [done|apply Z.lor_nonneg; split; [apply Hx|apply Hy]|].
  intros i Hi. rewrite Z.lor_spec, !(in_width_testbit w) by done. done.
Qed.

Lemma in_width_lxor w x y : 0 <= w -> in_width w x -> in_width w y -> in_width w (Z.lxor x y).
Proof.
  intros Hw Hx Hy. apply in_width_intro; [done|apply Z.lxor_nonneg; destruct Hx, Hy; lia|].
  intros i Hi. rewrite Z.lxor_spec, !(in_width_testbit w) by done. done.
Qed.

Lemma in_width_land w x y : 0 <= w -> in_width w x -> 0 <= y -> in_width w (Z.land x y).
Proof.
  intros Hw Hx Hy. apply in_width_intro; [done|apply Z.land_nonneg; destruct Hx; lia|].
  intros i Hi. rewrite Z.land_spec, (in_width_testbit w x) by done. done.
Qed.

Lemma in_width_shiftr w x n : 0 <= w -> 0 <= n -> in_width w x -> in_width w (Z.shiftr x n).
Proof.
  intros Hw Hn Hx. apply in_width_intro; [done|apply Z.shiftr_nonneg; apply Hx|].
  intros i Hi. rewrite Z.shiftr_spec by lia. apply (in_width_testbit w); [done|lia].
Qed.

Lemma in_width_wrap_testbit w x i :
  0 <= w -> Z.testbit (wrap w x) i = (i <? w) && Z.testbit x i.
Proof.
  intros Hw. unfold wrap. destruct (Z.ltb_spec i w).
  - destruct (decide (0 <= i)).
    + by rewrite Z.mod_pow2_bits_low.
    + by rewrite !Z.testbit_neg_r by lia.
  - by rewrite Z.mod_pow2_bits_high by lia.
Qed.

#[export] Hint Resolve wrap_range : uav.

(** ** Error codes

    [libuavcan/include/uavcan/error.hpp]; functions return them negated. *)

Definition ErrFailure : Z := 1.
Definition ErrInvalidParam : Z := 2.
Definition ErrMemory : Z := 3.
Definition ErrDriver : Z := 4.
Definition ErrUnknownDataType : Z := 5.
Definition ErrInvalidMarshalData : Z := 6.
Definition ErrInvalidTransferListener : Z := 7.
Definition ErrNotInited : Z := 8.
Definition ErrRecursiveCall : Z := 9.
Definition ErrLogic : Z := 10.
Definition ErrPassiveMode : Z := 11.
Definition ErrTransferTooLong : Z := 12.
Definition ErrInvalidConfiguration : Z := 13.
