(* ===== verification/MonoTime.v ===== *)
(** * MonoTime: points in time and durations

    Models [libuavcan/include/uavcan/time.hpp]: [DurationBase] (a signed 64-bit
    count of microseconds) and [TimeBase] (an unsigned 64-bit count of
    microseconds). Both are [Z]s kept in range by the explicit conversions of
    the source; signed overflow of the intermediate sums is two's complement. *)

From S2P Require Import Prelude.
Local Open Scope Z_scope.

(** [DurationBase<D>]; a duration is its [usec_] field. *)
Module Duration.

Definition getInfinite : Z := 2 ^ 63 - 1.
Definition fromUSec (us : Z) : Z := us.
Definition fromMSec (ms : Z) : Z := fromUSec (i64 (ms * 1000)).
Definition toUSec (d : Z) : Z := d.
Definition toMSec (d : Z) : Z := Z.quot d 1000.
Definition getAbs (d : Z) : Z := fromUSec (if d <? 0 then i64 (- d) else d).
Definition isNegative (d : Z) : bool := d <? 0.
Definition plus (d r : Z) : Z := fromUSec (i64 (d + r)).
Definition minus (d r : Z) : Z := fromUSec (i64 (d - r)).
Definition opp (d : Z) : Z := fromUSec (i64 (- d)).
Definition scale (d k : Z) : Z := fromUSec (i64 (d * k)).

(** The range of the [int64_t] field. *)
Definition wf (d : Z) : Prop := - 2 ^ 63 <= d < 2 ^ 63.

End Duration.

(** [TimeBase<T, D>]; a point in time is its [usec_] field. *)
Module MTime.

Definition getMax : Z := 2 ^ 64 - 1.
Definition fromUSec (us : Z) : Z := us.
Definition isZero (t : Z) : bool := t =? 0.

(** [T operator+(const D& r) const] *)
Definition plus (t r : Z) : Z :=
  if Duration.isNegative r then
    if t <? u64 (Duration.toUSec (Duration.getAbs r)) then fromUSec 0
    else fromUSec (u64 (i64 (i64 t + Duration.toUSec r)))
  else
    if u64 (i64 (i64 t + Duration.toUSec r)) <? t then fromUSec getMax
    else fromUSec (u64 (i64 (i64 t + Duration.toUSec r))).

(** [T operator-(const D& r) const] *)
Definition minus_dur (t r : Z) : Z := plus t (Duration.opp r).

(** [D operator-(const T& r) const] *)
Definition minus (t r : Z) : Z :=
  Duration.fromUSec (if r <? t then i64 (u64 (t - r)) else i64 (- i64 (u64 (r - t)))).

Abbreviation wf := is_u64.

End MTime.

(** ** Lemmas *)

Lemma u64_i64_plus t r : u64 (i64 (i64 t + r)) = (t + r) mod 2 ^ 64.
Proof.
  rewrite wrap_swrap by lia. unfold wrap, swrap.
  rewrite <-Zplus_mod_idemp_l, Zminus_mod_idemp_l, Zplus_mod_idemp_l. f_equal. lia.
Qed.

Lemma u64_abs r :
  Duration.wf r -> r < 0 -> u64 (Duration.toUSec (Duration.getAbs r)) = - r.
Proof.
  intros [? ?] Hneg. unfold Duration.toUSec, Duration.getAbs, Duration.fromUSec.
  destruct (Z.ltb_spec r 0); [|lia].
  rewrite wrap_swrap by lia. unfold wrap. apply Z.mod_small. lia.
Qed.

(** The saturating sum [+] computes. *)
Definition sat_plus (t r : Z) : Z := Z.max 0 (Z.min MTime.getMax (t + r)).

Lemma time_plus_sat t r :
  MTime.wf t -> Duration.wf r -> MTime.plus t r = sat_plus t r.
Proof.
  unfold Duration.wf, in_width, sat_plus. intros [Ht Ht'] [Hr1 Hr2].
  unfold MTime.plus, Duration.isNegative, MTime.fromUSec, MTime.getMax.
  rewrite !u64_i64_plus. change (Duration.toUSec r) with r.
  destruct (Z.ltb_spec r 0) as [Hneg|Hpos].
  - rewrite u64_abs by done. destruct (Z.ltb_spec t (- r)); [lia|].
    rewrite Z.mod_small by lia. lia.
  - destruct (decide (t + r < 2 ^ 64)) as [Hlt|Hge].
    + rewrite Z.mod_small by lia. destruct (Z.ltb_spec (t + r) t); lia.
    + assert ((t + r) mod 2 ^ 64 = t + r - 2 ^ 64) as ->.
      { symmetry. apply (Z.mod_unique _ _ 1); lia. }
      destruct (Z.ltb_spec (t + r - 2 ^ 64) t); lia.
Qed.

(** Adding a duration to a point in time is exact where the result fits 64
    bits and saturates at zero and at [getMax()] otherwise, so a deadline never
    wraps around: a later start or a longer delay never gives an earlier
    deadline. *)
Theorem time_plus_saturates t t' r r' :
  MTime.wf t -> MTime.wf t' -> Duration.wf r -> Duration.wf r' -> t <= t' -> r <= r' ->
  MTime.wf (MTime.plus t r) /\
  MTime.plus t r = Z.max 0 (Z.min MTime.getMax (t + r)) /\
  MTime.plus t r <= MTime.plus t' r'.
Proof.
  intros ?????. rewrite !time_plus_sat by done.
  unfold sat_plus, in_width, MTime.getMax. lia.
Qed.

Lemma time_plus_saturates_witness :
  MTime.plus (2 ^ 64 - 10) 100 = Z.max 0 (Z.min MTime.getMax (2 ^ 64 - 10 + 100)) /\
  MTime.plus 5 (-7) = Z.max 0 (Z.min MTime.getMax (5 + -7)).
Proof.
  split.
  - apply (time_plus_saturates (2 ^ 64 - 10) (2 ^ 64 - 10) 100 100);
      unfold in_width, Duration.wf; lia.
  - apply (time_plus_saturates 5 5 (-7) (-7)); unfold in_width, Duration.wf; lia.
Defined.

(** Away from the limits of the 64-bit range, [+] is the sum. *)
Lemma time_plus_exact t r :
  MTime.wf t -> Duration.wf r -> 0 <= t + r < 2 ^ 64 -> MTime.plus t r = t + r.
Proof.
  intros Ht Hr Hs. rewrite time_plus_sat by done. unfold sat_plus, MTime.getMax. lia.
Qed.

(** The difference of two points in time is exact when it fits the signed
    64-bit duration. *)
Lemma time_minus_exact t r :
  MTime.wf t -> MTime.wf r -> Duration.wf (t - r) -> MTime.minus t r = t - r.
Proof.
  intros [? ?] [? ?] [? ?]. unfold MTime.minus, Duration.fromUSec.
  destruct (Z.ltb_spec r t).
  - rewrite wrap_small by (split; lia). apply swrap_small; lia.
  - destruct (decide (r - t = 2 ^ 63)) as [E|E].
    + rewrite E. assert (i64 (- i64 (u64 (2 ^ 63))) = - 2 ^ 63) as -> by reflexivity. lia.
    + rewrite wrap_small by (split; lia). rewrite (swrap_small 64 (r - t)) by lia.
      rewrite swrap_small; lia.
Qed.
