(* ===== verification/Crc.v ===== *)
(** * Crc: the transfer CRC and the data type signature

    Models [TransferCRC] ([libuavcan/include/uavcan/transport/crc.hpp],
    [src/transport/uc_crc.cpp]) in both of its build variants, the table-driven
    one and the bitwise one of [UAVCAN_TINY], and [DataTypeSignatureCRC] with
    [DataTypeSignature] ([include/uavcan/data_type.hpp], [src/uc_data_type.cpp]).
    A checksum object is its only field. *)

From S2P Require Import Prelude.
Local Open Scope Z_scope.

(** [TransferCRC::Table]. *)
Definition Table : list Z :=
  [
    0x0000; 0x1021; 0x2042; 0x3063; 0x4084; 0x50a5; 0x60c6; 0x70e7;
    0x8108; 0x9129; 0xa14a; 0xb16b; 0xc18c; 0xd1ad; 0xe1ce; 0xf1ef;
    0x1231; 0x0210; 0x3273; 0x2252; 0x52b5; 0x4294; 0x72f7; 0x62d6;
    0x9339; 0x8318; 0xb37b; 0xa35a; 0xd3bd; 0xc39c; 0xf3ff; 0xe3de;
    0x2462; 0x3443; 0x0420; 0x1401; 0x64e6; 0x74c7; 0x44a4; 0x5485;
    0xa56a; 0xb54b; 0x8528; 0x9509; 0xe5ee; 0xf5cf; 0xc5ac; 0xd58d;
    0x3653; 0x2672; 0x1611; 0x0630; 0x76d7; 0x66f6; 0x5695; 0x46b4;
    0xb75b; 0xa77a; 0x9719; 0x8738; 0xf7df; 0xe7fe; 0xd79d; 0xc7bc;
    0x48c4; 0x58e5; 0x6886; 0x78a7; 0x0840; 0x1861; 0x2802; 0x3823;
    0xc9cc; 0xd9ed; 0xe98e; 0xf9af; 0x8948; 0x9969; 0xa90a; 0xb92b;
    0x5af5; 0x4ad4; 0x7ab7; 0x6a96; 0x1a71; 0x0a50; 0x3a33; 0x2a12;
    0xdbfd; 0xcbdc; 0xfbbf; 0xeb9e; 0x9b79; 0x8b58; 0xbb3b; 0xab1a;
    0x6ca6; 0x7c87; 0x4ce4; 0x5cc5; 0x2c22; 0x3c03; 0x0c60; 0x1c41;
    0xedae; 0xfd8f; 0xcdec; 0xddcd; 0xad2a; 0xbd0b; 0x8d68; 0x9d49;
    0x7e97; 0x6eb6; 0x5ed5; 0x4ef4; 0x3e13; 0x2e32; 0x1e51; 0x0e70;
    0xff9f; 0xefbe; 0xdfdd; 0xcffc; 0xbf1b; 0xaf3a; 0x9f59; 0x8f78;
    0x9188; 0x81a9; 0xb1ca; 0xa1eb; 0xd10c; 0xc12d; 0xf14e; 0xe16f;
    0x1080; 0x00a1; 0x30c2; 0x20e3; 0x5004; 0x4025; 0x7046; 0x6067;
    0x83b9; 0x9398; 0xa3fb; 0xb3da; 0xc33d; 0xd31c; 0xe37f; 0xf35e;
    0x02b1; 0x1290; 0x22f3; 0x32d2; 0x4235; 0x5214; 0x6277; 0x7256;
    0xb5ea; 0xa5cb; 0x95a8; 0x8589; 0xf56e; 0xe54f; 0xd52c; 0xc50d;
    0x34e2; 0x24c3; 0x14a0; 0x0481; 0x7466; 0x6447; 0x5424; 0x4405;
    0xa7db; 0xb7fa; 0x8799; 0x97b8; 0xe75f; 0xf77e; 0xc71d; 0xd73c;
    0x26d3; 0x36f2; 0x0691; 0x16b0; 0x6657; 0x7676; 0x4615; 0x5634;
    0xd94c; 0xc96d; 0xf90e; 0xe92f; 0x99c8; 0x89e9; 0xb98a; 0xa9ab;
    0x5844; 0x4865; 0x7806; 0x6827; 0x18c0; 0x08e1; 0x3882; 0x28a3;
    0xcb7d; 0xdb5c; 0xeb3f; 0xfb1e; 0x8bf9; 0x9bd8; 0xabbb; 0xbb9a;
    0x4a75; 0x5a54; 0x6a37; 0x7a16; 0x0af1; 0x1ad0; 0x2ab3; 0x3a92;
    0xfd2e; 0xed0f; 0xdd6c; 0xcd4d; 0xbdaa; 0xad8b; 0x9de8; 0x8dc9;
    0x7c26; 0x6c07; 0x5c64; 0x4c45; 0x3ca2; 0x2c83; 0x1ce0; 0x0cc1;
    0xef1f; 0xff3e; 0xcf5d; 0xdf7c; 0xaf9b; 0xbfba; 0x8fd9; 0x9ff8;
    0x6e17; 0x7e36; 0x4e55; 0x5e74; 0x2e93; 0x3eb2; 0x0ed1; 0x1ef0
  ].

(** [TransferCRC::TransferCRC()]. *)
Definition TransferCRC_init : Z := 0xFFFF.

(** [TransferCRC::add(uint8_t)], the table-driven build. *)
Definition add (value byte : Z) : Z :=
  let idx := Z.land (u16 (Z.lxor (Z.shiftr value 8) byte)) 0xFF in
  u16 (Z.land (u16 (Z.lxor (Z.shiftl value 8) (nth (Z.to_nat idx) Table 0))) 0xFFFF).

(** One pass of the loop of [TransferCRC::add], the [UAVCAN_TINY] build. *)
Definition tiny_step (value : Z) : Z :=
  if Z.land value 0x8000 =? 0 then u16 (Z.shiftl value 1)
  else u16 (Z.lxor (u16 (Z.shiftl value 1)) 0x1021).

(** [TransferCRC::add(uint8_t)], the [UAVCAN_TINY] build. *)
Definition tiny_add (value byte : Z) : Z :=
  Nat.iter 8 tiny_step (Z.lxor value (u16 (Z.shiftl (u16 byte) 8))).

(** [TransferCRC::add(const uint8_t*, unsigned)]. *)
Fixpoint add_bytes (value : Z) (bs : list Z) : Z :=
  match bs with
  | [] => value
  | b :: bs => add_bytes (add value b) bs
  end.

(** ** [DataTypeSignatureCRC] and [DataTypeSignature] *)

Definition SignaturePoly : Z := 0x42F0E1EBA9EA3693.

(** [DataTypeSignatureCRC::DataTypeSignatureCRC()]. *)
Definition SignatureCRC_init : Z := 0xFFFFFFFFFFFFFFFF.

(** [DataTypeSignatureCRC::extend]. *)
Definition SignatureCRC_extend (crc : Z) : Z := Z.lxor crc 0xFFFFFFFFFFFFFFFF.

Definition signature_step (crc : Z) : Z :=
  if Z.land crc (Z.shiftl 1 63) =? 0 then u64 (Z.shiftl crc 1)
  else Z.lxor (u64 (Z.shiftl crc 1)) SignaturePoly.

(** [DataTypeSignatureCRC::add(uint8_t)]. *)
Definition SignatureCRC_add (crc byte : Z) : Z :=
  Nat.iter 8 signature_step (Z.lxor crc (u64 (Z.shiftl byte 56))).

(** [DataTypeSignatureCRC::add(const uint8_t*, unsigned)]. *)
Fixpoint SignatureCRC_add_bytes (crc : Z) (bs : list Z) : Z :=
  match bs with
  | [] => crc
  | b :: bs => SignatureCRC_add_bytes (SignatureCRC_add crc b) bs
  end.

(** [DataTypeSignatureCRC::get]. *)
Definition SignatureCRC_get (crc : Z) : Z := Z.lxor crc 0xFFFFFFFFFFFFFFFF.

(** The eight bytes of a 64-bit value, least significant first: the argument
    sequence [(x >> i) & 0xFF] for [i = 0, 8, .., 56]. *)
Definition le_bytes64 (x : Z) : list Z :=
  map (fun i => Z.land (Z.shiftr x (8 * Z.of_nat i)) 0xFF) (seq 0 8).

(** [DataTypeSignature::mixin64]. *)
Definition mixin64 (value x : Z) : Z :=
  SignatureCRC_get (SignatureCRC_add_bytes (SignatureCRC_extend value) (le_bytes64 x)).

(** [DataTypeSignature::extend]. *)
Definition Signature_extend (value dts : Z) : Z := mixin64 (mixin64 value dts) value.

(** [DataTypeSignature::toTransferCRC]. *)
Definition toTransferCRC (value : Z) : Z := add_bytes TransferCRC_init (le_bytes64 value).

(** ** The bitwise step is linear and invertible *)

Definition step16 := Nat.iter 8 tiny_step.

Lemma tiny_step_bits v :
  tiny_step v = Z.lxor (u16 (Z.shiftl v 1)) (if Z.testbit v 15 then 0x1021 else 0).
Proof.
  unfold tiny_step.
  assert (Hb : Z.land v 0x8000 = if Z.testbit v 15 then 2 ^ 15 else 0).
  { apply Z.bits_inj'. intros i Hi. rewrite Z.land_spec.
    change 0x8000 with (2 ^ 15). rewrite Z.pow2_bits_eqb by lia.
    destruct (Z.eqb_spec 15 i) as [<-|Hne].
    - destruct (Z.testbit v 15); [|done]. by rewrite Z.pow2_bits_eqb, Z.eqb_refl by lia.
    - rewrite andb_false_r. destruct (Z.testbit v 15); [|by rewrite Z.bits_0].
      symmetry. rewrite Z.pow2_bits_eqb by lia. by apply Z.eqb_neq. }
  rewrite Hb. destruct (Z.testbit v 15); simpl.
  - apply wrap_small. apply in_width_lxor; [lia|auto with uav|by split].
    apply wrap_range; lia.
  - by rewrite Z.lxor_0_r.
Qed.

Lemma tiny_step_range v : is_u16 (tiny_step v).
Proof.
  unfold tiny_step. case_match; apply wrap_range; lia.
Qed.

Lemma tiny_step_lxor a b : tiny_step (Z.lxor a b) = Z.lxor (tiny_step a) (tiny_step b).
Proof.
  rewrite !tiny_step_bits, Z.shiftl_lxor, Z.lxor_spec.
  assert (u16 (Z.lxor (a ≪ 1) (b ≪ 1)) = Z.lxor (u16 (a ≪ 1)) (u16 (b ≪ 1))) as ->.
  { apply Z.bits_inj'. intros i Hi. rewrite Z.lxor_spec, !in_width_wrap_testbit, Z.lxor_spec by lia.
    by destruct (i <? 16). }
  destruct (Z.testbit a 15), (Z.testbit b 15); simpl;
    rewrite ?Z.lxor_0_r; rewrite <-?Z.lxor_assoc.
  - rewrite (Z.lxor_assoc (u16 (a ≪ 1))), (Z.lxor_comm 0x1021), !Z.lxor_assoc.
    by rewrite Z.lxor_nilpotent, Z.lxor_0_r.
  - by rewrite !Z.lxor_assoc, (Z.lxor_comm 0x1021).
  - done.
  - done.
Qed.

Lemma tiny_step_zero v : is_u16 v -> tiny_step v = 0 -> v = 0.
Proof.
  intros Hv H0. rewrite tiny_step_bits in H0. apply Z.lxor_eq in H0.
  apply Z.bits_inj'. intros i Hi. rewrite Z.bits_0.
  destruct (Z.testbit v 15) eqn:H15.
  - apply (f_equal (fun x => Z.testbit x 0)) in H0.
    rewrite in_width_wrap_testbit, Z.shiftl_spec in H0 by lia.
    by rewrite Z.testbit_neg_r in H0 by lia.
  - destruct (decide (i < 15)).
    + apply (f_equal (fun x => Z.testbit x (i + 1))) in H0.
      rewrite in_width_wrap_testbit, Z.shiftl_spec, Z.bits_0 in H0 by lia.
      replace (i + 1 - 1) with i in H0 by lia.
      by destruct (Z.ltb_spec (i + 1) 16); [|lia].
    + destruct (decide (i = 15)) as [->|]; [done|].
      apply (in_width_testbit 16); [done|lia].
Qed.

Lemma iter_step_range n v : is_u16 v -> is_u16 (Nat.iter n tiny_step v).
Proof. intros Hv. induction n as [|n IH]; [done|]. apply tiny_step_range. Qed.

Lemma iter_step_lxor n a b :
  Nat.iter n tiny_step (Z.lxor a b) = Z.lxor (Nat.iter n tiny_step a) (Nat.iter n tiny_step b).
Proof. induction n as [|n IH]; [done|]. simpl. by rewrite IH, tiny_step_lxor. Qed.

Lemma iter_step_inj n a b :
  is_u16 a -> is_u16 b -> Nat.iter n tiny_step a = Nat.iter n tiny_step b -> a = b.
Proof.
  intros Ha Hb Heq. apply Z.lxor_eq.
  assert (Hx : is_u16 (Z.lxor a b)) by (by apply in_width_lxor).
  assert (H0 : Nat.iter n tiny_step (Z.lxor a b) = 0)
    by (by rewrite iter_step_lxor, Heq, Z.lxor_nilpotent).
  clear Heq. induction n as [|n IH]; [done|].
  apply IH, tiny_step_zero; [by apply iter_step_range|done].
Qed.

Lemma step16_inj a b : is_u16 a -> is_u16 b -> step16 a = step16 b -> a = b.
Proof. apply iter_step_inj. Qed.

(** ** Enumeration over the byte range *)

Lemma forall_byte (P : Z -> bool) :
  forallb (fun n => P (Z.of_nat n)) (seq 0 256) = true -> forall b, is_u8 b -> P b = true.
Proof.
  intros Hall b [? ?]. rewrite forallb_forall in Hall.
  specialize (Hall (Z.to_nat b)). rewrite Z2Nat.id in Hall by done.
  apply Hall, in_seq. lia.
Qed.

Lemma step8_high b :
  is_u8 b -> step16 (Z.shiftl b 8) = nth (Z.to_nat b) Table 0.
Proof.
  intros Hb. apply Z.eqb_eq. revert b Hb.
  apply (forall_byte (fun b => step16 (Z.shiftl b 8) =? nth (Z.to_nat b) Table 0)).
  vm_compute. reflexivity.
Qed.

Lemma step8_low b : is_u8 b -> step16 b = Z.shiftl b 8.
Proof.
  intros Hb. apply Z.eqb_eq. revert b Hb.
  apply (forall_byte (fun b => step16 b =? Z.shiftl b 8)).
  vm_compute. reflexivity.
Qed.

Lemma Table_range i : is_u16 (nth i Table 0).
Proof.
  assert (H : Forall is_u16 Table).
  { apply Forall_forall. intros x Hx. apply (bool_decide_unpack (is_u16 x)).
    rewrite list_elem_of_In in Hx.
    assert (Hall : forallb (fun x => bool_decide (is_u16 x)) Table = true) by (vm_compute; done).
    rewrite forallb_forall in Hall. rewrite (Hall x Hx). exact I. }
  destruct (decide (i < length Table)%nat) as [Hi|Hi].
  - rewrite Forall_forall in H. apply H. rewrite list_elem_of_In. by apply nth_In.
  - rewrite nth_overflow by lia. by split.
Qed.

(** A 16-bit value is its high byte shifted, xored with its low byte. *)
Lemma split16 v :
  is_u16 v -> v = Z.lxor (Z.shiftl (Z.shiftr v 8) 8) (Z.land v 0xFF).
Proof.
  intros Hv. apply Z.bits_inj'. intros i Hi.
  rewrite Z.lxor_spec, Z.shiftl_spec, Z.land_spec by lia.
  change 0xFF with (Z.ones 8). rewrite Z.testbit_ones_nonneg by lia.
  destruct (Z.ltb_spec i 8).
  - by rewrite (Z.testbit_neg_r _ (i - 8)), andb_true_r by lia.
  - rewrite Z.shiftr_spec, andb_false_r, xorb_false_r by lia. f_equal. lia.
Qed.

Lemma high_byte v : is_u16 v -> is_u8 (Z.shiftr v 8).
Proof.
  intros [? ?]. rewrite Z.shiftr_div_pow2 by lia. split.
  - apply Z.div_pos; lia.
  - apply Z.div_lt_upper_bound; lia.
Qed.

Lemma low_byte v : is_u8 (Z.land v 0xFF).
Proof. change 0xFF with (Z.ones 8). rewrite Z.land_ones by lia. by apply Z.mod_pos_bound. Qed.

Lemma shiftl8_range b : is_u8 b -> is_u16 (Z.shiftl b 8).
Proof. intros [? ?]. rewrite Z.shiftl_mul_pow2 by lia. split; lia. Qed.

Lemma lxor_high_range v b : is_u16 v -> is_u8 b -> is_u16 (Z.lxor v (Z.shiftl b 8)).
Proof. intros Hv Hb. apply in_width_lxor; [lia|done|by apply shiftl8_range]. Qed.

Lemma tiny_add_eq v b :
  is_u8 b -> tiny_add v b = step16 (Z.lxor v (Z.shiftl b 8)).
Proof.
  intros Hb. unfold tiny_add, step16.
  rewrite (wrap_small 16 b) by (eapply in_width_mono; [|done]; lia).
  by rewrite wrap_small by (by apply shiftl8_range).
Qed.

(** The table-driven update is the eightfold bitwise step. *)
Lemma add_step16 v b :
  is_u16 v -> is_u8 b -> add v b = step16 (Z.lxor v (Z.shiftl b 8)).
Proof.
  intros Hv Hb.
  assert (Hh : is_u8 (Z.lxor (v ≫ 8) b)) by (apply in_width_lxor; [lia|by apply high_byte|done]).
  assert (Heq : Z.lxor v (b ≪ 8) =
    Z.lxor (Z.shiftl (Z.lxor (v ≫ 8) b) 8) (Z.land v 0xFF)).
  { rewrite (split16 v Hv) at 1. rewrite Z.shiftl_lxor, !Z.lxor_assoc. f_equal. apply Z.lxor_comm. }
  rewrite Heq. unfold step16. rewrite iter_step_lxor. fold step16.
  rewrite step8_high, step8_low by (done || apply low_byte).
  unfold add. pose proof (Table_range (Z.to_nat (Z.lxor (v ≫ 8) b))) as Ht.
  rewrite (wrap_small 16 (Z.lxor (v ≫ 8) b)) by (eapply in_width_mono; [|done]; lia).
  change 0xFF with (Z.ones 8) at 1. rewrite Z.land_ones by lia. rewrite (Z.mod_small _ (2 ^ 8)) by done.
  change 0xFFFF with (Z.ones 16). rewrite Z.land_ones by lia.
  rewrite Z.mod_small by (apply wrap_range; lia). rewrite wrap_small by (apply wrap_range; lia).
  revert Ht. generalize (nth (Z.to_nat (Z.lxor (v ≫ 8) b)) Table 0). intros t Ht.
  apply Z.bits_inj'. intros i Hi. rewrite in_width_wrap_testbit, !Z.lxor_spec, Z.shiftl_spec by lia.
  rewrite Z.shiftl_spec, Z.land_spec by lia.
  destruct (Z.ltb_spec i 16); simpl.
  - rewrite xorb_comm. f_equal. destruct (decide (8 <= i)).
    + change 0xFF with (Z.ones 8). rewrite Z.testbit_ones_nonneg by lia.
      destruct (Z.ltb_spec (i - 8) 8); [|lia]. by rewrite andb_true_r.
    + by rewrite !Z.testbit_neg_r by lia.
  - rewrite (in_width_testbit 16 t i) by done. simpl.
    change 0xFF with (Z.ones 8). rewrite Z.testbit_ones_nonneg by lia.
    destruct (Z.ltb_spec (i - 8) 8); [lia|]. by rewrite andb_false_r.
Qed.

Lemma add_range v b : is_u16 (add v b).
Proof. unfold add. apply wrap_range. lia. Qed.

(** C40: the table-driven [TransferCRC::add] and the bitwise one of the
    [UAVCAN_TINY] build compute the same checksum, from any 16-bit state and for
    any byte sequence. *)
Theorem transfer_crc_builds_agree v bs :
  is_u16 v -> bytes bs -> add_bytes v bs = foldl tiny_add v bs.
Proof.
  intros Hv Hbs. revert v Hv. induction Hbs as [|b bs Hb _ IH]; intros v Hv; [done|].
  simpl. rewrite tiny_add_eq, <-add_step16 by done. apply IH, add_range.
Qed.

Lemma transfer_crc_builds_agree_witness :
  add_bytes 0xFFFF [0x31; 0x32; 0x33; 0x34; 0x35; 0x36; 0x37; 0x38; 0x39] = 0x29B1.
Proof.
  rewrite (transfer_crc_builds_agree 0xFFFF); [reflexivity|by split|].
  repeat constructor; done.
Defined.

(** ** Error detection *)

Lemma add_bytes_app v xs ys : add_bytes v (xs ++ ys) = add_bytes (add_bytes v xs) ys.
Proof. revert v. induction xs as [|x xs IH]; intros v; [done|]. apply IH. Qed.

Lemma add_bytes_range v bs : is_u16 v -> is_u16 (add_bytes v bs).
Proof.
  revert v. induction bs as [|b bs IH]; intros v Hv; [done|]. apply IH, add_range.
Qed.

#[export] Hint Resolve add_bytes_range add_range : uav.

Lemma add_bytes_inj v v' bs :
  is_u16 v -> is_u16 v' -> bytes bs -> add_bytes v bs = add_bytes v' bs -> v = v'.
Proof.
  intros Hv Hv' Hbs. revert v v' Hv Hv'.
  induction Hbs as [|b bs Hb _ IH]; intros v v' Hv Hv' Heq; [done|].
  apply IH in Heq; [|apply add_range..].
  rewrite !add_step16 in Heq by done.
  apply step16_inj in Heq; [|by apply lxor_high_range..].
  apply (f_equal (fun x => Z.lxor x (Z.shiftl b 8))) in Heq.
  by rewrite !Z.lxor_assoc, Z.lxor_nilpotent, !Z.lxor_0_r in Heq.
Qed.

(** Two bytes at once: sixteen steps over the state xored with the pair. *)
Lemma add_two v b c :
  is_u16 v -> is_u8 b -> is_u8 c ->
  add_bytes v [b; c] = Nat.iter 16 tiny_step (Z.lxor v (Z.lxor (Z.shiftl b 8) c)).
Proof.
  intros Hv Hb Hc. simpl add_bytes. rewrite !add_step16 by (done || apply add_range).
  rewrite <-(step8_low c) by done. unfold step16. rewrite <-iter_step_lxor.
  rewrite <-Nat.iter_add. simpl Nat.add. by rewrite Z.lxor_assoc.
Qed.

Lemma pair_inj b c b' c' :
  is_u8 b -> is_u8 c -> is_u8 b' -> is_u8 c' ->
  Z.lxor (Z.shiftl b 8) c = Z.lxor (Z.shiftl b' 8) c' -> b = b' /\ c = c'.
Proof.
  intros Hb Hc Hb' Hc' Heq.
  assert (Hbit : forall i, 0 <= i ->
    xorb (Z.testbit b (i - 8)) (Z.testbit c i) = xorb (Z.testbit b' (i - 8)) (Z.testbit c' i)).
  { intros i Hi. apply (f_equal (fun x => Z.testbit x i)) in Heq.
    by rewrite !Z.lxor_spec, !Z.shiftl_spec in Heq by lia. }
  split; apply Z.bits_inj'; intros i Hi.
  - specialize (Hbit (i + 8) ltac:(lia)). replace (i + 8 - 8) with i in Hbit by lia.
    rewrite (in_width_testbit 8 c), (in_width_testbit 8 c'), !xorb_false_r in Hbit; done || lia.
  - destruct (decide (i < 8)).
    + specialize (Hbit i Hi). by rewrite !(Z.testbit_neg_r _ (i - 8)) in Hbit by lia.
    + by rewrite !(in_width_testbit 8) by (done || lia).
Qed.

Lemma burst_inj v m m' :
  is_u16 v -> bytes m -> bytes m' -> length m = length m' -> (length m <= 2)%nat ->
  add_bytes v m = add_bytes v m' -> m = m'.
Proof.
  intros Hv Hm Hm' Hlen Hle Heq.
  assert (Hz : is_u8 0) by by split.
  destruct m as [|b [|c [|]]], m' as [|b' [|c' [|]]]; simpl in Hlen, Hle; try lia.
  - done.
  - inversion_clear Hm; inversion_clear Hm'. simpl in Heq.
    rewrite !add_step16 in Heq by done.
    apply step16_inj in Heq; [|by apply lxor_high_range..].
    apply (f_equal (fun x => Z.lxor v x)) in Heq.
    rewrite <-!Z.lxor_assoc, Z.lxor_nilpotent, !Z.lxor_0_l in Heq.
    destruct (pair_inj b 0 b' 0) as [-> _]; [done..|by rewrite !Z.lxor_0_r|done].
  - inversion_clear Hm as [|? ? Hb Hm1]; inversion_clear Hm1 as [|? ? Hc _].
    inversion_clear Hm' as [|? ? Hb' Hm1]; inversion_clear Hm1 as [|? ? Hc' _].
    rewrite !add_two in Heq by done.
    assert (Hr : forall x y, is_u8 x -> is_u8 y -> is_u16 (Z.lxor (Z.shiftl x 8) y)).
    { intros x y Hx Hy. apply in_width_lxor; [lia|by apply shiftl8_range|].
      eapply in_width_mono; [|done]; lia. }
    apply (iter_step_inj 16) in Heq; [|apply in_width_lxor; [lia|done|by apply Hr]..].
    apply (f_equal (fun x => Z.lxor v x)) in Heq.
    rewrite <-!Z.lxor_assoc, Z.lxor_nilpotent, !Z.lxor_0_l in Heq.
    by destruct (pair_inj b c b' c') as [-> ->].
Qed.

(** The transfer CRC detects every error burst confined to two adjacent
    bytes: two payloads of the same length that differ only in a window of at most
    two bytes never have the same checksum. *)
Theorem transfer_crc_detects_bursts v pre m m' post :
  is_u16 v -> bytes pre -> bytes m -> bytes m' -> bytes post ->
  length m = length m' -> (length m <= 2)%nat -> m <> m' ->
  add_bytes v (pre ++ m ++ post) <> add_bytes v (pre ++ m' ++ post).
Proof.
  intros Hv Hpre Hm Hm' Hpost Hlen Hle Hne Heq. apply Hne.
  rewrite !add_bytes_app in Heq.
  apply add_bytes_inj in Heq; [|by auto using add_bytes_range..].
  by apply (burst_inj (add_bytes v pre)); [apply add_bytes_range|..].
Qed.

Lemma transfer_crc_detects_bursts_witness :
  add_bytes 0xFFFF ([1; 2] ++ [3; 4] ++ [5]) <> add_bytes 0xFFFF ([1; 2] ++ [3; 0xFB] ++ [5]).
Proof.
  apply (transfer_crc_detects_bursts 0xFFFF [1; 2] [3; 4] [3; 0xFB] [5]);
    (by split) || (repeat constructor; done) || done.
Defined.

(** The checksums have the check values their documentation gives:
    CRC-16-CCITT of the digits 1 to 9 is 0x29B1, and CRC-64-WE of them is
    0x62EC59E3F1A4F00A. *)
Theorem crc_check_values :
  let digits := [0x31; 0x32; 0x33; 0x34; 0x35; 0x36; 0x37; 0x38; 0x39] in
  add_bytes TransferCRC_init digits = 0x29B1 /\
  SignatureCRC_get (SignatureCRC_add_bytes SignatureCRC_init digits) = 0x62EC59E3F1A4F00A.
Proof. vm_compute. done. Qed.
