(* ===== verification/Transfer.v ===== *)
(** * Transfer: the identifiers of a transfer

    Models [libuavcan/include/uavcan/transport/transfer.hpp],
    [src/transport/uc_transfer.cpp] and the identifier part of
    [include/uavcan/data_type.hpp]: transfer types, priorities, transfer IDs,
    node IDs and data type IDs. Each of the small value classes is its
    [value_] field. *)

From S2P Require Import Prelude.
Local Open Scope Z_scope.

Inductive TransferType :=
  | TransferTypeServiceResponse
  | TransferTypeServiceRequest
  | TransferTypeMessageBroadcast
  | NumTransferTypes.

#[global] Instance TransferType_eq_dec : EqDecision TransferType.
Proof. solve_decision. Defined.

(** The enumerators' numeric values. *)
Definition TransferType_val (tt : TransferType) : Z :=
  match tt with
  | TransferTypeServiceResponse => 0
  | TransferTypeServiceRequest => 1
  | TransferTypeMessageBroadcast => 2
  | NumTransferTypes => 3
  end.

Inductive DataTypeKind := DataTypeKindService | DataTypeKindMessage | NumDataTypeKinds.

#[global] Instance DataTypeKind_eq_dec : EqDecision DataTypeKind.
Proof. solve_decision. Defined.

(** [getDataTypeKindForTransferType]. *)
Definition getDataTypeKindForTransferType (tt : TransferType) : DataTypeKind :=
  if bool_decide (tt = TransferTypeServiceResponse \/ tt = TransferTypeServiceRequest)
  then DataTypeKindService
  else if bool_decide (tt = TransferTypeMessageBroadcast) then DataTypeKindMessage
  else DataTypeKindService.

Module TransferPriority.

Definition BitLen : Z := 5.
Definition NumericallyMax : Z := Z.shiftl 1 BitLen - 1.
Definition NumericallyMin : Z := 0.
Definition Invalid : Z := 0xFF.
Definition Default : Z := Z.shiftl 1 BitLen / 2.
Definition MiddleLower : Z := Z.shiftl 1 BitLen / 2 + Z.shiftl 1 BitLen / 4.
Definition OneHigherThanLowest : Z := NumericallyMax - 1.
Definition OneLowerThanHighest : Z := NumericallyMin + 1.
Definition Lowest : Z := NumericallyMax.
Definition isValid (v : Z) : bool := v <? Z.shiftl 1 BitLen.
(** [fromPercent<Percent>()]. *)
Definition fromPercent (percent : Z) : Z := ((100 - percent) * NumericallyMax) / 100.

End TransferPriority.

Module TransferID.

Definition BitLen : Z := 5.
Definition Max : Z := Z.shiftl 1 BitLen - 1.
Definition Half : Z := Z.shiftl 1 BitLen / 2.
Definition default : Z := 0.
(** [TransferID(uint8_t)]. *)
Definition make (value : Z) : Z := Z.land value Max.
Definition increment (v : Z) : Z := Z.land (v + 1) Max.

(** [int TransferID::computeForwardDistance(TransferID rhs) const]. *)
Definition computeForwardDistance (v rhs : Z) : Z :=
  let d := rhs - v in
  if d <? 0 then d + Z.shiftl 1 BitLen else d.

(** The range of the [value_] field. *)
Definition wf (v : Z) : Prop := 0 <= v <= Max.

End TransferID.

Module NodeID.

Definition ValueBroadcast : Z := 0.
Definition ValueInvalid : Z := 0xFF.
Definition BitLen : Z := 7.
Definition Max : Z := Z.shiftl 1 BitLen - 1.
Definition MaxRecommendedForRegularNodes : Z := Max - 2.
Definition Broadcast : Z := ValueBroadcast.
Definition default : Z := ValueInvalid.
Definition isValid (v : Z) : bool := v <=? Max.
Definition isBroadcast (v : Z) : bool := v =? ValueBroadcast.
Definition isUnicast (v : Z) : bool := (v <=? Max) && negb (v =? ValueBroadcast).

End NodeID.

Module DataTypeID.

Definition MaxServiceDataTypeIDValue : Z := 255.
Definition MaxMessageDataTypeIDValue : Z := 65535.
Definition default : Z := 0xFFFFFFFF.
Definition make (id : Z) : Z := id.

(** [DataTypeID::getMaxValueForDataTypeKind]. *)
Definition getMaxValueForDataTypeKind (k : DataTypeKind) : Z :=
  match k with
  | DataTypeKindService => MaxServiceDataTypeIDValue
  | DataTypeKindMessage => MaxMessageDataTypeIDValue
  | NumDataTypeKinds => 0
  end.

Definition get (v : Z) : Z := u16 v.

Definition isValidForDataTypeKind (v : Z) (k : DataTypeKind) : bool :=
  v <=? get (getMaxValueForDataTypeKind k).

End DataTypeID.

(** ** Lemmas *)

Lemma increment_mod v : TransferID.increment v = (v + 1) mod 32.
Proof.
  unfold TransferID.increment. change TransferID.Max with (Z.ones 5).
  by rewrite Z.land_ones by lia.
Qed.

Lemma increment_wf v : TransferID.wf (TransferID.increment v).
Proof.
  rewrite increment_mod. unfold TransferID.wf, TransferID.Max, TransferID.BitLen.
  pose proof (Z.mod_pos_bound (v + 1) 32 ltac:(lia)). vm_compute (Z.shiftl 1 5). lia.
Qed.

Lemma tid_wf_iff v : TransferID.wf v <-> 0 <= v < 32.
Proof. unfold TransferID.wf. change TransferID.Max with 31. lia. Qed.

Lemma tid_make_id v : TransferID.wf v -> TransferID.make v = v.
Proof.
  rewrite tid_wf_iff. intros Hv. unfold TransferID.make. change TransferID.Max with (Z.ones 5).
  rewrite Z.land_ones by lia. by apply Z.mod_small.
Qed.

Lemma tid_make_wf v : TransferID.wf (TransferID.make v).
Proof.
  rewrite tid_wf_iff. unfold TransferID.make. change TransferID.Max with (Z.ones 5).
  rewrite Z.land_ones by lia. by apply Z.mod_pos_bound.
Qed.

Lemma iter_increment n v : TransferID.wf v ->
  Nat.iter n TransferID.increment v = (v + Z.of_nat n) mod 32.
Proof.
  rewrite tid_wf_iff. intros Hv. induction n as [|n IH].
  - rewrite Z.add_0_r, Z.mod_small; [done|lia].
  - simpl. rewrite increment_mod, IH, Zplus_mod_idemp_l. f_equal. lia.
Qed.

Lemma forward_distance_mod v rhs :
  TransferID.wf v -> TransferID.wf rhs ->
  TransferID.computeForwardDistance v rhs = (rhs - v) mod 32.
Proof.
  rewrite !tid_wf_iff. intros Hv Hr. unfold TransferID.computeForwardDistance, TransferID.BitLen.
  change (Z.shiftl 1 5) with 32. destruct (Z.ltb_spec (rhs - v) 0).
  - apply (Z.mod_unique _ _ (-1)); lia.
  - rewrite Z.mod_small; lia.
Qed.

(** [computeForwardDistance] is the amount of [increment()] calls to reach
    the other value: that many calls reach it, and no smaller number does. *)
Theorem forward_distance_counts_increments v rhs :
  TransferID.wf v -> TransferID.wf rhs ->
  0 <= TransferID.computeForwardDistance v rhs < 32 /\
  Nat.iter (Z.to_nat (TransferID.computeForwardDistance v rhs)) TransferID.increment v = rhs /\
  forall n, (n < Z.to_nat (TransferID.computeForwardDistance v rhs))%nat ->
    Nat.iter n TransferID.increment v <> rhs.
Proof.
  intros Hv Hr. rewrite forward_distance_mod by done.
  pose proof (Z.mod_pos_bound (rhs - v) 32 ltac:(lia)) as Hd. split; [done|].
  rewrite tid_wf_iff in *. split.
  - rewrite iter_increment by (by apply tid_wf_iff). rewrite Z2Nat.id by lia.
    rewrite Zplus_mod_idemp_r. replace (v + (rhs - v)) with rhs by lia. by apply Z.mod_small.
  - intros n Hn Heq. rewrite iter_increment in Heq by (by apply tid_wf_iff).
    assert (Hnn : (rhs - v) mod 32 = Z.of_nat n mod 32).
    { rewrite <-Heq. rewrite Zminus_mod_idemp_l. f_equal. lia. }
    rewrite (Z.mod_small (Z.of_nat n)) in Hnn by lia. lia.
Qed.

Lemma forward_distance_counts_increments_witness :
  TransferID.computeForwardDistance 30 2 = 4 /\
  Nat.iter 4 TransferID.increment 30 = 2.
Proof.
  split; [reflexivity|].
  apply (forward_distance_counts_increments 30 2); rewrite tid_wf_iff; lia.
Defined.

Lemma unicast_valid v : NodeID.isUnicast v = true -> NodeID.isValid v = true.
Proof. unfold NodeID.isUnicast, NodeID.isValid. lia. Qed.

Lemma unicast_not_broadcast v : NodeID.isUnicast v = true -> NodeID.isBroadcast v = false.
Proof. unfold NodeID.isUnicast, NodeID.isBroadcast. lia. Qed.
