(* ===== verification/CanFrame.v ===== *)
(** * CanFrame: raw CAN frames and their arbitration order

    Models [CanFrame] and [CanFilterConfig] of
    [libuavcan/include/uavcan/driver/can.hpp] and [src/driver/uc_can.cpp].
    [data] is the array of [MaxDataLen] bytes; [dlc] says how many of them are
    meaningful. *)

From S2P Require Import Prelude.
Local Open Scope Z_scope.

Definition MaxCanIfaces : Z := 3.

Definition MaskStdID : Z := 0x7FF.
Definition MaskExtID : Z := 0x1FFFFFFF.
Definition FlagEFF : Z := Z.shiftl 1 31.
Definition FlagRTR : Z := Z.shiftl 1 30.
Definition FlagERR : Z := Z.shiftl 1 29.
Definition MaxDataLen : nat := 8.

Record CanFrame := mkCanFrame {
  can_id : Z;
  can_data : list Z;
  can_dlc : Z
}.

#[global] Instance CanFrame_eq_dec : EqDecision CanFrame.
Proof. solve_decision. Defined.

(** [CanFrame::CanFrame()]. *)
Definition CanFrame_default : CanFrame := mkCanFrame 0 (replicate MaxDataLen 0) 0.

(** [copy(first, last, dst)] onto the start of an array. *)
Definition copy_onto (src dst : list Z) : list Z := src ++ drop (length src) dst.

(** [CanFrame::CanFrame(uint32_t, const uint8_t*, uint8_t)]; the bytes past
    [dlc] of the array are not initialised by the code and come from [mem]. *)
Definition CanFrame_make (id : Z) (data : list Z) (data_len : Z) (mem : list Z) : CanFrame :=
  let dlc := if Z.of_nat MaxDataLen <? data_len then Z.of_nat MaxDataLen else data_len in
  mkCanFrame id (copy_onto (take (Z.to_nat dlc) data) mem) dlc.

(** The meaningful bytes. *)
Definition can_payload (f : CanFrame) : list Z := take (Z.to_nat (can_dlc f)) (can_data f).

(** [CanFrame::operator==]. *)
Definition CanFrame_eqb (a b : CanFrame) : bool :=
  (can_id a =? can_id b) && (can_dlc a =? can_dlc b) &&
  bool_decide (can_payload a = take (Z.to_nat (can_dlc a)) (can_data b)).

Definition flag_set (id flag : Z) : bool := negb (Z.land id flag =? 0).

Definition isExtended (f : CanFrame) : bool := flag_set (can_id f) FlagEFF.
Definition isRemoteTransmissionRequest (f : CanFrame) : bool := flag_set (can_id f) FlagRTR.
Definition isErrorFrame (f : CanFrame) : bool := flag_set (can_id f) FlagERR.

(** [CanFrame::priorityHigherThan]. *)
Definition priorityHigherThan (self rhs : CanFrame) : bool :=
  let clean_id := Z.land (can_id self) MaskExtID in
  let rhs_clean_id := Z.land (can_id rhs) MaskExtID in
  let ext := flag_set (can_id self) FlagEFF in
  let rhs_ext := flag_set (can_id rhs) FlagEFF in
  if negb (eqb ext rhs_ext) then
    let arb11 := if ext then Z.shiftr clean_id 18 else clean_id in
    let rhs_arb11 := if rhs_ext then Z.shiftr rhs_clean_id 18 else rhs_clean_id in
    if negb (arb11 =? rhs_arb11) then arb11 <? rhs_arb11 else rhs_ext
  else
    let rtr := flag_set (can_id self) FlagRTR in
    let rhs_rtr := flag_set (can_id rhs) FlagRTR in
    if (clean_id =? rhs_clean_id) && negb (eqb rtr rhs_rtr) then rhs_rtr
    else clean_id <? rhs_clean_id.

(** [CanFrame::priorityLowerThan]. *)
Definition priorityLowerThan (self rhs : CanFrame) : bool := priorityHigherThan rhs self.

Record CanFilterConfig := mkCanFilterConfig { filter_id : Z; filter_mask : Z }.

#[global] Instance CanFilterConfig_eq_dec : EqDecision CanFilterConfig.
Proof. solve_decision. Defined.

(** What a driver hands over: a 32-bit identifier with flags, eight bytes of
    data, at most eight of them meaningful, and an 11-bit identifier in a
    standard frame. *)
Record CanFrame_wf (f : CanFrame) : Prop := {
  cwf_id : is_u32 (can_id f);
  cwf_data : length (can_data f) = MaxDataLen;
  cwf_bytes : bytes (can_data f);
  cwf_dlc : 0 <= can_dlc f <= 8;
  cwf_std : isExtended f = false -> Z.land (can_id f) MaskExtID <= MaskStdID
}.

(** ** The specification of arbitration

    The identifier bits in the order they are sent: the 11 base bits, the RTR
    bit of a standard frame or the recessive SRR bit of an extended one, IDE,
    the 18 extension bits, RTR. A dominant bit is 0, so the smaller number wins
    the bus. *)
Definition arbitration_field (f : CanFrame) : Z :=
  let id := Z.land (can_id f) MaskExtID in
  let rtr := Z.b2z (isRemoteTransmissionRequest f) in
  if isExtended f then
    Z.shiftr id 18 * 2 ^ 21 + 2 ^ 20 + 2 ^ 19 + id mod 2 ^ 18 * 2 + rtr
  else id * 2 ^ 21 + rtr * 2 ^ 20.

Lemma clean_id_range f : 0 <= Z.land (can_id f) MaskExtID < 2 ^ 29.
Proof.
  change MaskExtID with (Z.ones 29). rewrite Z.land_ones by lia. by apply Z.mod_pos_bound.
Qed.

Lemma priority_arbitration a b :
  CanFrame_wf a -> CanFrame_wf b ->
  priorityHigherThan a b = (arbitration_field a <? arbitration_field b).
Proof.
  intros Ha Hb.
  pose proof (clean_id_range a) as Ra. pose proof (clean_id_range b) as Rb.
  pose proof (cwf_std a Ha) as Sa. pose proof (cwf_std b Hb) as Sb.
  unfold priorityHigherThan, arbitration_field.
  fold (isExtended a) (isExtended b) (isRemoteTransmissionRequest a) (isRemoteTransmissionRequest b).
  rewrite !Z.shiftr_div_pow2 by lia.
  generalize dependent (Z.land (can_id a) MaskExtID). intros x Rx Sx.
  generalize dependent (Z.land (can_id b) MaskExtID). intros y Ry Sy.
  pose proof (Z.div_mod x (2 ^ 18) ltac:(lia)). pose proof (Z.mod_pos_bound x (2 ^ 18) ltac:(lia)).
  pose proof (Z.div_mod y (2 ^ 18) ltac:(lia)). pose proof (Z.mod_pos_bound y (2 ^ 18) ltac:(lia)).
  unfold MaskStdID in *.
  destruct (isExtended a) eqn:Ea, (isExtended b) eqn:Eb; simpl;
    destruct (isRemoteTransmissionRequest a), (isRemoteTransmissionRequest b);
    change (Z.b2z true) with 1; change (Z.b2z false) with 0;
    repeat case_match; try (specialize (Sx eq_refl)); try (specialize (Sy eq_refl)); lia.
Qed.

(** The order [priorityHigherThan] keeps the transmission queue in is the
    arbitration order of the bus: a frame has the higher priority exactly when
    its arbitration bits are the smaller number; it is a strict weak order. *)
Theorem priority_is_bus_arbitration a b c :
  CanFrame_wf a -> CanFrame_wf b -> CanFrame_wf c ->
  priorityHigherThan a b = (arbitration_field a <? arbitration_field b) /\
  priorityHigherThan a a = false /\
  (priorityHigherThan a b = true -> priorityHigherThan b c = true ->
   priorityHigherThan a c = true) /\
  (priorityHigherThan a b = false -> priorityHigherThan b c = false ->
   priorityHigherThan a c = false).
Proof. intros Ha Hb Hc. rewrite !priority_arbitration by done. lia. Qed.

Lemma priority_is_bus_arbitration_witness :
  let std := mkCanFrame 0x123 (replicate 8 0) 0 in
  let ext := mkCanFrame (0x80000000 + 0x123 * 2 ^ 18) (replicate 8 0) 0 in
  priorityHigherThan std ext = (arbitration_field std <? arbitration_field ext).
Proof.
  intros std ext. refine (proj1 (priority_is_bus_arbitration std ext ext _ _ _)).
  - split; try (vm_compute; done). apply Forall_replicate. done.
  - split; try (vm_compute; done). apply Forall_replicate. done.
  - split; try (vm_compute; done). apply Forall_replicate. done.
Defined.
