(* ===== verification/BitField.v ===== *)
(** * BitField: packing and unpacking fields of an identifier

    Models [bitunpack] and [bitpack] of [libuavcan/src/transport/uc_frame.cpp]
    and carries the algebra of fields the frame codec is proved with: a field
    read back is the field written, disjoint fields do not disturb each other,
    and adjacent fields put together are one wider field. *)

From S2P Require Import Prelude.
Local Open Scope Z_scope.

(** [bitunpack<OFFSET, WIDTH>]. *)
Definition bitunpack (offset width val : Z) : Z :=
  Z.land (Z.shiftr val offset) (Z.shiftl 1 width - 1).

(** [bitpack<OFFSET, WIDTH>]. *)
Definition bitpack (offset width field : Z) : Z :=
  u32 (Z.shiftl (Z.land field (Z.shiftl 1 width - 1)) offset).

(** The bits [offset .. offset + width - 1] of [val], in place. *)
Definition bitfield (offset width val : Z) : Z :=
  Z.shiftl (bitunpack offset width val) offset.

Arguments bitunpack : simpl never.
Arguments bitpack : simpl never.

Lemma shiftl_ones w : 0 <= w -> Z.shiftl 1 w - 1 = Z.ones w.
Proof. intros Hw. rewrite Z.ones_equiv, Z.shiftl_1_l. lia. Qed.

Lemma bitunpack_spec o w v i : 0 <= o -> 0 <= w -> 0 <= i ->
  Z.testbit (bitunpack o w v) i = (i <? w) && Z.testbit v (i + o).
Proof.
  intros. unfold bitunpack. rewrite shiftl_ones, Z.land_spec, Z.shiftr_spec by lia.
  rewrite Z.testbit_ones_nonneg by lia. apply andb_comm.
Qed.

Lemma bitpack_spec o w f i : 0 <= o -> 0 <= w -> 0 <= i ->
  Z.testbit (bitpack o w f) i =
  (i <? 32) && ((o <=? i) && ((i - o <? w) && Z.testbit f (i - o))).
Proof.
  intros. unfold bitpack. rewrite in_width_wrap_testbit, Z.shiftl_spec by lia. f_equal.
  destruct (Z.leb_spec o i).
  - rewrite shiftl_ones, Z.land_spec, Z.testbit_ones_nonneg by lia. simpl. apply andb_comm.
  - by rewrite Z.testbit_neg_r by lia.
Qed.

Lemma bitunpack_range o w v : 0 <= o -> 0 <= w -> in_width w (bitunpack o w v).
Proof.
  intros. unfold bitunpack. rewrite shiftl_ones, Z.land_ones by lia.
  apply Z.mod_pos_bound. lia.
Qed.

Lemma bitpack_nonneg o w f : 0 <= bitpack o w f.
Proof. apply (wrap_range 32). lia. Qed.

Lemma bitpack_width o w f n :
  0 <= o -> 0 <= w -> o + w <= n -> in_width n (bitpack o w f).
Proof.
  intros. apply in_width_intro; [lia|apply bitpack_nonneg|]. intros i Hi.
  rewrite bitpack_spec by lia. destruct (Z.ltb_spec (i - o) w); [lia|].
  by rewrite andb_false_l, !andb_false_r.
Qed.

Lemma bitunpack_lor o w x y :
  0 <= o -> 0 <= w -> bitunpack o w (Z.lor x y) = Z.lor (bitunpack o w x) (bitunpack o w y).
Proof.
  intros. apply Z.bits_inj'. intros i Hi.
  rewrite Z.lor_spec, !bitunpack_spec, Z.lor_spec by lia. by destruct (i <? w).
Qed.

Lemma bitunpack_0 o w : 0 <= o -> 0 <= w -> bitunpack o w 0 = 0.
Proof. intros. unfold bitunpack. by rewrite Z.shiftr_0_l, Z.land_0_l. Qed.

(** Reading a field of a value masked to at least that many bits. *)
Lemma bitunpack_mask o w n v :
  0 <= o -> 0 <= w -> o + w <= n -> bitunpack o w (Z.land v (Z.ones n)) = bitunpack o w v.
Proof.
  intros. apply Z.bits_inj'. intros i Hi. rewrite !bitunpack_spec, Z.land_spec by lia.
  destruct (Z.ltb_spec i w); [|done]. simpl. rewrite Z.testbit_ones_nonneg by lia.
  destruct (Z.ltb_spec (i + o) n); [|lia]. by rewrite andb_true_r.
Qed.

Lemma bitunpack_bitpack_same o w f :
  0 <= o -> 0 <= w -> o + w <= 32 -> in_width w f -> bitunpack o w (bitpack o w f) = f.
Proof.
  intros Ho Hw Hsum Hf. apply Z.bits_inj'. intros i Hi. rewrite bitunpack_spec by lia.
  destruct (Z.ltb_spec i w); simpl.
  - rewrite bitpack_spec by lia. replace (i + o - o) with i by lia.
    destruct (Z.ltb_spec (i + o) 32), (Z.leb_spec o (i + o)), (Z.ltb_spec i w); lia || done.
  - symmetry. by apply (in_width_testbit w).
Qed.

Lemma bitunpack_bitpack_disjoint o w o' w' f :
  0 <= o -> 0 <= w -> 0 <= o' -> 0 <= w' -> o + w <= o' \/ o' + w' <= o ->
  bitunpack o w (bitpack o' w' f) = 0.
Proof.
  intros Ho Hw Ho' Hw' Hd. apply Z.bits_inj'. intros i Hi.
  rewrite Z.bits_0, bitunpack_spec by lia. destruct (Z.ltb_spec i w); [|done]. simpl.
  rewrite bitpack_spec by lia.
  destruct (Z.leb_spec o' (i + o)), (Z.ltb_spec (i + o - o') w'); simpl;
    rewrite ?andb_false_r; lia || done.
Qed.

(** A field put back where it was read from. *)
Lemma bitpack_bitunpack o w v :
  0 <= o -> 0 <= w -> o + w <= 32 -> bitpack o w (bitunpack o w v) = bitfield o w v.
Proof.
  intros Ho Hw Hs. apply Z.bits_inj'. intros i Hi. unfold bitfield.
  rewrite bitpack_spec, Z.shiftl_spec by lia.
  destruct (decide (i < o)).
  - rewrite (Z.testbit_neg_r (bitunpack o w v)) by lia. by rewrite !andb_false_r.
  - rewrite bitunpack_spec by lia.
    destruct (Z.ltb_spec i 32), (Z.leb_spec o i), (Z.ltb_spec (i - o) w); lia || done.
Qed.

Lemma bitfield_spec o w v i : 0 <= o -> 0 <= w -> 0 <= i ->
  Z.testbit (bitfield o w v) i = (o <=? i) && (i <? o + w) && Z.testbit v i.
Proof.
  intros. unfold bitfield. rewrite Z.shiftl_spec by lia. destruct (Z.leb_spec o i).
  - rewrite bitunpack_spec by lia. replace (i - o + o) with i by lia.
    by destruct (Z.ltb_spec (i - o) w), (Z.ltb_spec i (o + w)); lia || done.
  - by rewrite Z.testbit_neg_r by lia.
Qed.

(** Adjacent fields make one wider field. *)
Lemma bitfield_join o w w' v :
  0 <= o -> 0 <= w -> 0 <= w' ->
  Z.lor (bitfield o w v) (bitfield (o + w) w' v) = bitfield o (w + w') v.
Proof.
  intros. apply Z.bits_inj'. intros i Hi. rewrite Z.lor_spec, !bitfield_spec by lia.
  destruct (Z.leb_spec o i), (Z.ltb_spec i (o + w)), (Z.leb_spec (o + w) i),
    (Z.ltb_spec i (o + w + w')), (Z.ltb_spec i (o + (w + w'))); simpl;
    rewrite ?orb_false_r; lia || done.
Qed.

Lemma bitfield_all w v : 0 <= w -> bitfield 0 w v = wrap w v.
Proof.
  intros. apply Z.bits_inj'. intros i Hi.
  rewrite bitfield_spec, in_width_wrap_testbit by lia.
  by destruct (Z.leb_spec 0 i); [|lia].
Qed.
