(* ===== verification/Frame.v ===== *)
(** * Frame: the transport frame and its CAN encoding

    Models [Frame] and [RxFrame] of
    [libuavcan/include/uavcan/transport/frame.hpp] and
    [src/transport/uc_frame.cpp], and [CanRxFrame] of
    [include/uavcan/transport/can_io.hpp]. The methods that change the object
    take it as their first argument and return it next to their result. *)

From S2P Require Import Prelude MonoTime Crc Transfer CanFrame BitField.
Local Open Scope Z_scope.

Definition PayloadCapacity : Z := 7.

Record Frame := mkFrame {
  payload_ : list Z;
  transfer_priority_ : Z;
  transfer_type_ : TransferType;
  data_type_id_ : Z;
  payload_len_ : Z;
  src_node_id_ : Z;
  dst_node_id_ : Z;
  transfer_id_ : Z;
  start_of_transfer_ : bool;
  end_of_transfer_ : bool;
  toggle_ : bool
}.

(** [Frame::Frame()]; the payload array is not initialised and comes from
    [mem]. *)
Definition Frame_default (mem : list Z) : Frame :=
  mkFrame mem TransferPriority.Invalid NumTransferTypes DataTypeID.default 0
    NodeID.default NodeID.default TransferID.default false false false.

(** [Frame::Frame(DataTypeID, TransferType, NodeID, NodeID, TransferID)]. *)
Definition Frame_make (mem : list Z) (dtid : Z) (ttype : TransferType) (src dst tid : Z) : Frame :=
  mkFrame mem TransferPriority.Default ttype dtid 0 src dst tid false false false.

Definition setPriority (f : Frame) (p : Z) : Frame :=
  mkFrame (payload_ f) p (transfer_type_ f) (data_type_id_ f) (payload_len_ f)
    (src_node_id_ f) (dst_node_id_ f) (transfer_id_ f)
    (start_of_transfer_ f) (end_of_transfer_ f) (toggle_ f).

Definition setStartOfTransfer (f : Frame) (x : bool) : Frame :=
  mkFrame (payload_ f) (transfer_priority_ f) (transfer_type_ f) (data_type_id_ f)
    (payload_len_ f) (src_node_id_ f) (dst_node_id_ f) (transfer_id_ f)
    x (end_of_transfer_ f) (toggle_ f).

Definition setEndOfTransfer (f : Frame) (x : bool) : Frame :=
  mkFrame (payload_ f) (transfer_priority_ f) (transfer_type_ f) (data_type_id_ f)
    (payload_len_ f) (src_node_id_ f) (dst_node_id_ f) (transfer_id_ f)
    (start_of_transfer_ f) x (toggle_ f).

Definition flipToggle (f : Frame) : Frame :=
  mkFrame (payload_ f) (transfer_priority_ f) (transfer_type_ f) (data_type_id_ f)
    (payload_len_ f) (src_node_id_ f) (dst_node_id_ f) (transfer_id_ f)
    (start_of_transfer_ f) (end_of_transfer_ f) (negb (toggle_ f)).

Definition getPayloadCapacity (f : Frame) : Z := PayloadCapacity.

(** [uint8_t Frame::setPayload(const uint8_t* data, unsigned len)]; [data] is
    the readable memory behind the pointer. *)
Definition setPayload (f : Frame) (data : list Z) (len : Z) : Z * Frame :=
  let len := Z.min (getPayloadCapacity f) len in
  (u8 len,
   mkFrame (copy_onto (take (Z.to_nat len) data) (payload_ f))
     (transfer_priority_ f) (transfer_type_ f) (data_type_id_ f) len
     (src_node_id_ f) (dst_node_id_ f) (transfer_id_ f)
     (start_of_transfer_ f) (end_of_transfer_ f) (toggle_ f)).

(** The meaningful bytes behind [getPayloadPtr()] / [getPayloadLen()]. *)
Definition frame_payload (f : Frame) : list Z := take (Z.to_nat (payload_len_ f)) (payload_ f).

(** [bool Frame::isValid() const]. *)
Definition Frame_isValid (f : Frame) : bool :=
  if start_of_transfer_ f && toggle_ f then false
  else if negb (NodeID.isValid (src_node_id_ f)) || negb (NodeID.isValid (dst_node_id_ f)) then false
  else if NodeID.isUnicast (src_node_id_ f) && (src_node_id_ f =? dst_node_id_ f) then false
  else if TransferType_val NumTransferTypes <=? TransferType_val (transfer_type_ f) then false
  else if negb (eqb (bool_decide (transfer_type_ f = TransferTypeMessageBroadcast))
                    (NodeID.isBroadcast (dst_node_id_ f))) then false
  else if NodeID.isBroadcast (src_node_id_ f) &&
          (negb (start_of_transfer_ f) || negb (end_of_transfer_ f) ||
           negb (bool_decide (transfer_type_ f = TransferTypeMessageBroadcast))) then false
  else if getPayloadCapacity f <? payload_len_ f then false
  else if negb (DataTypeID.isValidForDataTypeKind (data_type_id_ f)
                  (getDataTypeKindForTransferType (transfer_type_ f))) then false
  else if negb (TransferPriority.isValid (transfer_priority_ f)) then false
  else true.

(** [bool Frame::parse(const CanFrame& can_frame)]. *)
Definition Frame_parse (self : Frame) (c : CanFrame) : bool * Frame :=
  if isErrorFrame c || isRemoteTransmissionRequest c || negb (isExtended c) then (false, self)
  else if Z.of_nat MaxDataLen <? can_dlc c then (false, self)
  else if can_dlc c <? 1 then (false, self)
  else
    let id := Z.land (can_id c) MaskExtID in
    let prio := u8 (bitunpack 24 5 id) in
    let src := u8 (bitunpack 0 7 id) in
    let service_not_message := negb (bitunpack 7 1 id =? 0) in
    let '(ttype, dst, dtid) :=
      if service_not_message then
        let request_not_response := negb (bitunpack 15 1 id =? 0) in
        (if request_not_response then TransferTypeServiceRequest else TransferTypeServiceResponse,
         u8 (bitunpack 8 7 id), DataTypeID.make (u16 (bitunpack 16 8 id)))
      else
        let dtid := DataTypeID.make (u16 (bitunpack 8 16 id)) in
        (TransferTypeMessageBroadcast, NodeID.Broadcast,
         if NodeID.isBroadcast src then DataTypeID.make (u16 (Z.land (DataTypeID.get dtid) 3))
         else dtid) in
    let len := u8 (can_dlc c - 1) in
    let payload := copy_onto (take (Z.to_nat len) (can_data c)) (payload_ self) in
    let tail := nth (Z.to_nat (can_dlc c - 1)) (can_data c) 0 in
    let f := mkFrame payload prio ttype dtid len src dst
               (TransferID.make (Z.land tail TransferID.Max))
               (negb (Z.land tail (Z.shiftl 1 7) =? 0))
               (negb (Z.land tail (Z.shiftl 1 6) =? 0))
               (negb (Z.land tail (Z.shiftl 1 5) =? 0)) in
    (Frame_isValid f, f).

(** The tail byte of a frame. *)
Definition tail_byte (f : Frame) : Z :=
  let tail := transfer_id_ f in
  let tail := if start_of_transfer_ f then Z.lor tail (Z.shiftl 1 7) else tail in
  let tail := if end_of_transfer_ f then Z.lor tail (Z.shiftl 1 6) else tail in
  if toggle_ f then Z.lor tail (Z.shiftl 1 5) else tail.

(** [bool Frame::compile(CanFrame& out_can_frame) const]. *)
Definition Frame_compile (f : Frame) (out : CanFrame) : bool * CanFrame :=
  if negb (Frame_isValid f) then (false, out)
  else
    let id := Z.lor (Z.lor FlagEFF (bitpack 0 7 (src_node_id_ f)))
                    (bitpack 24 5 (transfer_priority_ f)) in
    let id :=
      if bool_decide (transfer_type_ f = TransferTypeMessageBroadcast) then
        Z.lor id (Z.lor (bitpack 7 1 0) (bitpack 8 16 (DataTypeID.get (data_type_id_ f))))
      else
        let request_not_response := bool_decide (transfer_type_ f = TransferTypeServiceRequest) in
        Z.lor id (Z.lor (Z.lor (Z.lor (bitpack 7 1 1) (bitpack 8 7 (dst_node_id_ f)))
                               (bitpack 15 1 (if request_not_response then 1 else 0)))
                        (bitpack 16 8 (DataTypeID.get (data_type_id_ f)))) in
    let dlc := u8 (payload_len_ f) in
    let data := copy_onto (frame_payload f) (can_data out) in
    let data := <[Z.to_nat dlc := tail_byte f]> data in
    let dlc := u8 (dlc + 1) in
    let id :=
      if NodeID.isBroadcast (src_node_id_ f) then
        let crc := add_bytes TransferCRC_init (take (Z.to_nat dlc) data) in
        Z.lor id (bitpack 10 14 (Z.land crc (Z.shiftl 1 14 - 1)))
      else id in
    (true, mkCanFrame id data dlc).

(** [bool Frame::operator==(const Frame& rhs) const]. *)
Definition Frame_eqb (a b : Frame) : bool :=
  (transfer_priority_ a =? transfer_priority_ b) &&
  bool_decide (transfer_type_ a = transfer_type_ b) &&
  (data_type_id_ a =? data_type_id_ b) &&
  (src_node_id_ a =? src_node_id_ b) &&
  (dst_node_id_ a =? dst_node_id_ b) &&
  (transfer_id_ a =? transfer_id_ b) &&
  eqb (toggle_ a) (toggle_ b) &&
  eqb (start_of_transfer_ a) (start_of_transfer_ b) &&
  eqb (end_of_transfer_ a) (end_of_transfer_ b) &&
  (payload_len_ a =? payload_len_ b) &&
  bool_decide (frame_payload a = take (Z.to_nat (payload_len_ a)) (payload_ b)).

(** [CanRxFrame]. *)
Record CanRxFrame := mkCanRxFrame {
  crx_frame : CanFrame;
  crx_ts_mono : Z;
  crx_ts_utc : Z;
  crx_iface_index : Z
}.

(** [RxFrame]. *)
Record RxFrame := mkRxFrame {
  rx_frame : Frame;
  ts_mono_ : Z;
  ts_utc_ : Z;
  iface_index_ : Z
}.

(** [RxFrame::RxFrame()]. *)
Definition RxFrame_default (mem : list Z) : RxFrame := mkRxFrame (Frame_default mem) 0 0 0.

(** [bool RxFrame::parse(const CanRxFrame& can_frame)]. *)
Definition RxFrame_parse (self : RxFrame) (c : CanRxFrame) : bool * RxFrame :=
  let '(ok, f) := Frame_parse (rx_frame self) (crx_frame c) in
  if negb ok then (false, mkRxFrame f (ts_mono_ self) (ts_utc_ self) (iface_index_ self))
  else if MTime.isZero (crx_ts_mono c) then
    (false, mkRxFrame f (ts_mono_ self) (ts_utc_ self) (iface_index_ self))
  else (true, mkRxFrame f (crx_ts_mono c) (crx_ts_utc c) (crx_iface_index c)).

(** The widths of the fields. *)
Record Frame_wf (f : Frame) : Prop := {
  fwf_payload : length (payload_ f) = Z.to_nat PayloadCapacity;
  fwf_bytes : bytes (payload_ f);
  fwf_prio : is_u8 (transfer_priority_ f);
  fwf_dtid : is_u32 (data_type_id_ f);
  fwf_len : is_u8 (payload_len_ f);
  fwf_src : is_u8 (src_node_id_ f);
  fwf_dst : is_u8 (dst_node_id_ f);
  fwf_tid : TransferID.wf (transfer_id_ f)
}.

(** ** Lemmas: validity *)

(** What [isValid()] accepts, field by field. *)
Record Frame_valid (f : Frame) : Prop := {
  fv_toggle : start_of_transfer_ f = true -> toggle_ f = false;
  fv_src : src_node_id_ f <= NodeID.Max;
  fv_dst : dst_node_id_ f <= NodeID.Max;
  fv_self : NodeID.isUnicast (src_node_id_ f) = true -> src_node_id_ f <> dst_node_id_ f;
  fv_type : transfer_type_ f <> NumTransferTypes;
  fv_bcast : transfer_type_ f = TransferTypeMessageBroadcast <-> dst_node_id_ f = 0;
  fv_anon : src_node_id_ f = 0 ->
    start_of_transfer_ f = true /\ end_of_transfer_ f = true /\
    transfer_type_ f = TransferTypeMessageBroadcast;
  fv_len : payload_len_ f <= PayloadCapacity;
  fv_dtid : data_type_id_ f <=
    (if bool_decide (transfer_type_ f = TransferTypeMessageBroadcast) then 65535 else 255);
  fv_prio : transfer_priority_ f < 32
}.

Lemma if_false_negb (b c : bool) : (if b then false else c) = negb b && c.
Proof. by destruct b. Qed.

Lemma dtid_limit f :
  transfer_type_ f <> NumTransferTypes ->
  DataTypeID.isValidForDataTypeKind (data_type_id_ f)
    (getDataTypeKindForTransferType (transfer_type_ f)) =
  (data_type_id_ f <=?
    (if bool_decide (transfer_type_ f = TransferTypeMessageBroadcast) then 65535 else 255)).
Proof. by destruct (transfer_type_ f). Qed.

Lemma Frame_isValid_spec f : Frame_isValid f = true <-> Frame_valid f.
Proof.
  unfold Frame_isValid, NodeID.isValid, NodeID.isBroadcast, getPayloadCapacity,
    TransferPriority.isValid. change NodeID.ValueBroadcast with 0.
  change (Z.shiftl 1 TransferPriority.BitLen) with 32.
  rewrite !if_false_negb, !andb_true_iff, !negb_involutive.
  split.
  - intros (H1 & H2 & H3 & H4 & H5 & H6 & H7 & H8 & H9 & _).
    assert (Hty : transfer_type_ f <> NumTransferTypes) by (intros E; by rewrite E in H4).
    rewrite dtid_limit in H8 by done.
    rewrite !negb_orb, !negb_involutive, andb_true_iff in H2.
    apply eqb_prop in H5. rewrite negb_andb in H3.
    split; try lia; try done.
    + intros Hs. rewrite Hs in H1. by apply negb_true_iff in H1.
    + intros Hu. rewrite Hu in H3. simpl in H3. lia.
    + symmetry in H5. split; intros E.
      * rewrite bool_decide_true in H5 by done. lia.
      * destruct (decide (transfer_type_ f = TransferTypeMessageBroadcast)); [done|].
        rewrite bool_decide_false in H5 by done. lia.
    + intros E. rewrite E in H6. simpl in H6.
      rewrite !negb_orb, !negb_involutive in H6.
      apply andb_true_iff in H6 as [H6 Hm]. apply andb_true_iff in H6 as [? ?].
      by apply bool_decide_eq_true_1 in Hm.
  - intros [H1 H2 H3 H4 H5 H6 H7 H8 H9 H10]. rewrite dtid_limit by done.
    split_and!; try lia.
    + destruct (start_of_transfer_ f); [by rewrite H1|done].
    + destruct (NodeID.isUnicast (src_node_id_ f)); [|done]. specialize (H4 eq_refl). lia.
    + by destruct (transfer_type_ f).
    + apply eqb_true_iff. destruct (decide (dst_node_id_ f = 0)) as [E|E].
      * rewrite bool_decide_true by tauto. lia.
      * rewrite bool_decide_false by tauto. lia.
    + destruct (Z.eqb_spec (src_node_id_ f) 0) as [E|E]; [|done].
      destruct (H7 E) as (-> & -> & ->). done.
Qed.

Lemma Frame_valid_bcast f : Frame_valid f -> dst_node_id_ f = 0 ->
  transfer_type_ f = TransferTypeMessageBroadcast.
Proof. intros H. apply H. Qed.

(** ** Lemmas: the tail byte *)

Lemma tail_byte_fields_all :
  forallb (fun tid => forallb (fun s => forallb (fun e => forallb (fun t =>
    let tail := tail_byte (mkFrame [] 0 NumTransferTypes 0 0 0 0 (Z.of_nat tid) s e t) in
    (Z.land tail TransferID.Max =? Z.of_nat tid) &&
    eqb (negb (Z.land tail (Z.shiftl 1 7) =? 0)) s &&
    eqb (negb (Z.land tail (Z.shiftl 1 6) =? 0)) e &&
    eqb (negb (Z.land tail (Z.shiftl 1 5) =? 0)) t &&
    (0 <=? tail) && (tail <? 256))
    [true; false]) [true; false]) [true; false]) (seq 0 32) = true.
Proof. vm_compute. reflexivity. Qed.

Lemma tail_byte_fields f :
  TransferID.wf (transfer_id_ f) ->
  let tail := tail_byte f in
  is_u8 tail /\
  Z.land tail TransferID.Max = transfer_id_ f /\
  negb (Z.land tail (Z.shiftl 1 7) =? 0) = start_of_transfer_ f /\
  negb (Z.land tail (Z.shiftl 1 6) =? 0) = end_of_transfer_ f /\
  negb (Z.land tail (Z.shiftl 1 5) =? 0) = toggle_ f.
Proof.
  rewrite tid_wf_iff. intros Ht.
  pose proof tail_byte_fields_all as H. rewrite forallb_forall in H.
  specialize (H (Z.to_nat (transfer_id_ f)) ltac:(apply in_seq; lia)).
  rewrite forallb_forall in H.
  specialize (H (start_of_transfer_ f) ltac:(destruct (start_of_transfer_ f); simpl; tauto)).
  rewrite forallb_forall in H.
  specialize (H (end_of_transfer_ f) ltac:(destruct (end_of_transfer_ f); simpl; tauto)).
  rewrite forallb_forall in H.
  specialize (H (toggle_ f) ltac:(destruct (toggle_ f); simpl; tauto)).
  cbv zeta in H. rewrite Z2Nat.id in H by lia.
  change (tail_byte (mkFrame _ _ _ _ _ _ _ _ _ _ _)) with (tail_byte f) in H.
  rewrite !andb_true_iff, !eqb_true_iff in H. unfold in_width. cbv zeta.
  destruct H as (((((H1 & ?) & ?) & ?) & H2) & H3). split_and!; lia || done.
Qed.

(** ** Lemmas: the identifier *)

(** The identifier [compile()] builds before the discriminator. *)
Definition compile_id (f : Frame) : Z :=
  let id := Z.lor (Z.lor FlagEFF (bitpack 0 7 (src_node_id_ f)))
                  (bitpack 24 5 (transfer_priority_ f)) in
  if bool_decide (transfer_type_ f = TransferTypeMessageBroadcast) then
    Z.lor id (Z.lor (bitpack 7 1 0) (bitpack 8 16 (DataTypeID.get (data_type_id_ f))))
  else
    Z.lor id (Z.lor (Z.lor (Z.lor (bitpack 7 1 1) (bitpack 8 7 (dst_node_id_ f)))
      (bitpack 15 1 (if bool_decide (transfer_type_ f = TransferTypeServiceRequest) then 1 else 0)))
      (bitpack 16 8 (DataTypeID.get (data_type_id_ f)))).

(** The data array [compile()] builds. *)
Definition compile_data (f : Frame) (mem : list Z) : list Z :=
  <[Z.to_nat (payload_len_ f) := tail_byte f]> (copy_onto (frame_payload f) mem).

(** The discriminator bits of an anonymous frame. *)
Definition discriminator (f : Frame) (mem : list Z) : Z :=
  if NodeID.isBroadcast (src_node_id_ f) then
    bitpack 10 14 (Z.land (add_bytes TransferCRC_init
      (take (Z.to_nat (payload_len_ f + 1)) (compile_data f mem))) (Z.shiftl 1 14 - 1))
  else 0.

Lemma Frame_compile_eq f out :
  Frame_wf f -> Frame_valid f ->
  Frame_compile f out =
  (true, mkCanFrame (Z.lor (compile_id f) (discriminator f (can_data out)))
           (compile_data f (can_data out)) (payload_len_ f + 1)).
Proof.
  intros Hwf Hv. unfold Frame_compile.
  rewrite (proj2 (Frame_isValid_spec f) Hv). simpl negb. cbv iota.
  pose proof (fv_len f Hv) as Hl. unfold PayloadCapacity in Hl.
  destruct (fwf_len f Hwf) as [Hl0 _].
  assert (u8 (payload_len_ f) = payload_len_ f) as -> by (apply wrap_small; split; lia).
  assert (u8 (payload_len_ f + 1) = payload_len_ f + 1) as -> by (apply wrap_small; split; lia).
  unfold discriminator, compile_id, compile_data.
  destruct (NodeID.isBroadcast (src_node_id_ f)); [done|]. by rewrite Z.lor_0_r.
Qed.

Lemma bitunpack_eff o w : 0 <= o -> 0 <= w -> o + w <= 31 -> bitunpack o w FlagEFF = 0.
Proof.
  intros. apply Z.bits_inj'. intros i Hi. rewrite bitunpack_spec, Z.bits_0 by lia.
  destruct (Z.ltb_spec i w); [|done]. change FlagEFF with (2 ^ 31).
  rewrite Z.pow2_bits_false by lia. done.
Qed.

Ltac unpack_field :=
  repeat (rewrite bitunpack_lor by lia);
  repeat first
    [ rewrite bitunpack_eff by lia
    | rewrite bitunpack_bitpack_disjoint by lia
    | rewrite bitunpack_bitpack_same by (first [lia | done | unfold in_width in *; lia]) ];
  rewrite ?Z.lor_0_l, ?Z.lor_0_r.

Lemma dtid_get_small v : 0 <= v <= 65535 -> DataTypeID.get v = v.
Proof. intros. unfold DataTypeID.get. apply wrap_small. split; lia. Qed.

Lemma bitunpack_low2 v : Z.land (bitunpack 8 16 v) 3 = bitunpack 8 2 v.
Proof.
  apply Z.bits_inj'. intros i Hi. change 3 with (Z.ones 2).
  rewrite Z.land_spec, !bitunpack_spec, Z.testbit_ones_nonneg by lia.
  destruct (Z.ltb_spec i 16), (Z.ltb_spec i 2); simpl; rewrite ?andb_true_r, ?andb_false_r;
    lia || done.
Qed.

Lemma bitunpack_wide_field o w w' f :
  0 <= o -> 0 <= w <= w' -> o + w' <= 32 -> in_width w f ->
  bitunpack o w (bitpack o w' f) = f.
Proof.
  intros Ho Hw Hs Hf. apply Z.bits_inj'. intros i Hi. rewrite bitunpack_spec by lia.
  destruct (Z.ltb_spec i w); simpl.
  - rewrite bitpack_spec by lia. replace (i + o - o) with i by lia.
    destruct (Z.ltb_spec (i + o) 32), (Z.leb_spec o (i + o)), (Z.ltb_spec i w'); lia || done.
  - symmetry. by apply (in_width_testbit w).
Qed.

Section compiled.
Context (f : Frame) (Hwf : Frame_wf f) (Hv : Frame_valid f).

Lemma compile_ranges :
  in_width 7 (src_node_id_ f) /\ in_width 7 (dst_node_id_ f) /\
  in_width 5 (transfer_priority_ f) /\ in_width 16 (data_type_id_ f) /\
  DataTypeID.get (data_type_id_ f) = data_type_id_ f /\
  (transfer_type_ f <> TransferTypeMessageBroadcast -> in_width 8 (data_type_id_ f)) /\
  0 <= payload_len_ f <= 7.
Proof.
  destruct Hwf as [_ _ [Hp _] [Hd _] [Hl _] [Hs _] [Ht _] _].
  pose proof (fv_src f Hv) as Vs. pose proof (fv_dst f Hv) as Vd.
  pose proof (fv_prio f Hv). pose proof (fv_dtid f Hv) as Vt. pose proof (fv_len f Hv) as Vl.
  unfold PayloadCapacity in Vl. change NodeID.Max with 127 in *.
  assert (data_type_id_ f <= 65535) by (case_bool_decide; lia).
  unfold in_width. split_and!; try lia.
  - apply dtid_get_small. lia.
  - intros Hne. rewrite bool_decide_false in Vt by done. lia.
Qed.

(** The identifier fields [parse()] reads back. *)
Lemma compile_id_fields x :
  let id := Z.lor (compile_id f) (bitpack 10 14 x) in
  bitunpack 0 7 (compile_id f) = src_node_id_ f /\
  bitunpack 0 7 id = src_node_id_ f /\
  bitunpack 24 5 (compile_id f) = transfer_priority_ f /\
  bitunpack 24 5 id = transfer_priority_ f /\
  bitunpack 7 1 (compile_id f) =
    (if bool_decide (transfer_type_ f = TransferTypeMessageBroadcast) then 0 else 1) /\
  bitunpack 7 1 id =
    (if bool_decide (transfer_type_ f = TransferTypeMessageBroadcast) then 0 else 1).
Proof.
  destruct compile_ranges as (Hs & Hd & Hp & Ht & Hg & _ & _).
  cbv zeta. unfold compile_id. rewrite Hg. case_bool_decide; split_and!; unpack_field; done.
Qed.

Lemma compile_id_message :
  transfer_type_ f = TransferTypeMessageBroadcast ->
  bitunpack 8 16 (compile_id f) = data_type_id_ f.
Proof.
  intros Hm. destruct compile_ranges as (Hs & Hd & Hp & Ht & Hg & _ & _).
  unfold compile_id. rewrite bool_decide_true, Hg by done. unpack_field. done.
Qed.

Lemma compile_id_anonymous x :
  transfer_type_ f = TransferTypeMessageBroadcast -> data_type_id_ f <= 3 ->
  Z.land (bitunpack 8 16 (Z.lor (compile_id f) (bitpack 10 14 x))) 3 = data_type_id_ f.
Proof.
  intros Hm Hd. destruct compile_ranges as (Hs & _ & Hp & Ht & Hg & _ & _).
  rewrite bitunpack_low2. unfold compile_id. rewrite bool_decide_true, Hg by done. unpack_field.
  rewrite (bitunpack_bitpack_disjoint 8 2 10 14), Z.lor_0_r by lia.
  apply bitunpack_wide_field; try lia. unfold in_width in *. lia.
Qed.

Lemma compile_id_service :
  transfer_type_ f <> TransferTypeMessageBroadcast ->
  bitunpack 8 7 (compile_id f) = dst_node_id_ f /\
  bitunpack 16 8 (compile_id f) = data_type_id_ f /\
  bitunpack 15 1 (compile_id f) =
    (if bool_decide (transfer_type_ f = TransferTypeServiceRequest) then 1 else 0).
Proof.
  intros Hm. destruct compile_ranges as (Hs & Hd & Hp & Ht & Hg & Hg8 & _).
  specialize (Hg8 Hm). unfold compile_id. rewrite bool_decide_false, Hg by done.
  split_and!; unpack_field; try done. by case_bool_decide; unpack_field.
Qed.

End compiled.

(** ** Lemmas: the flags and the data *)

Lemma flag_testbit id n : 0 <= n -> flag_set id (Z.shiftl 1 n) = Z.testbit id n.
Proof.
  intros Hn. unfold flag_set. rewrite Z.shiftl_1_l.
  destruct (Z.testbit id n) eqn:E.
  - apply negb_true_iff, Z.eqb_neq. intros H0.
    assert (Z.testbit (Z.land id (2 ^ n)) n = false) as Hb by (rewrite H0; apply Z.bits_0).
    rewrite Z.land_spec, E, Z.pow2_bits_true in Hb by lia. done.
  - apply negb_false_iff, Z.eqb_eq, Z.bits_inj'. intros i Hi.
    rewrite Z.land_spec, Z.pow2_bits_eqb, Z.bits_0 by lia.
    destruct (Z.eqb_spec n i) as [<-|]; [by rewrite E|apply andb_false_r].
Qed.

Lemma compile_id_flags f x i : 29 <= i ->
  Z.testbit (Z.lor (compile_id f) (bitpack 10 14 x)) i = (i =? 31) /\
  Z.testbit (compile_id f) i = (i =? 31).
Proof.
  intros Hi.
  assert (forall o w v, 0 <= o -> 0 <= w -> o + w <= 29 -> Z.testbit (bitpack o w v) i = false) as Hp.
  { intros. apply (in_width_testbit 29); [|lia]. by apply bitpack_width. }
  unfold compile_id. change FlagEFF with (2 ^ 31).
  case_bool_decide; rewrite !Z.lor_spec, !Hp, !Z.pow2_bits_eqb by lia;
    rewrite !orb_false_r; split; lia.
Qed.

Lemma lookup_nth_default (l : list Z) i x : l !! i = Some x -> nth i l 0 = x.
Proof. intros. by erewrite nth_lookup_Some. Qed.

Lemma length_copy_onto src dst :
  (length src <= length dst)%nat -> length (copy_onto src dst) = length dst.
Proof. intros. unfold copy_onto. rewrite length_app, length_drop. lia. Qed.

Lemma take_copy_onto src dst : take (length src) (copy_onto src dst) = src.
Proof. unfold copy_onto. by rewrite take_app_length. Qed.

Section compiled_data.
Context (f : Frame) (Hwf : Frame_wf f) (Hv : Frame_valid f).

Lemma length_frame_payload : length (frame_payload f) = Z.to_nat (payload_len_ f).
Proof.
  unfold frame_payload. rewrite length_take, (fwf_payload f Hwf).
  pose proof (fv_len f Hv). lia.
Qed.

Context (mem : list Z) (Hmem : length mem = MaxDataLen).

Lemma length_compile_data : length (compile_data f mem) = MaxDataLen.
Proof.
  unfold compile_data. rewrite length_insert, length_copy_onto; [done|].
  rewrite length_frame_payload, Hmem. destruct (compile_ranges f Hwf Hv) as (_&_&_&_&_&_&?).
  unfold MaxDataLen. lia.
Qed.

Lemma compile_data_payload :
  take (Z.to_nat (payload_len_ f)) (compile_data f mem) = frame_payload f.
Proof.
  unfold compile_data. rewrite take_insert_ge by lia.
  rewrite <-length_frame_payload. apply take_copy_onto.
Qed.

Lemma compile_data_tail :
  nth (Z.to_nat (payload_len_ f)) (compile_data f mem) 0 = tail_byte f.
Proof.
  apply lookup_nth_default. unfold compile_data. apply list_lookup_insert_eq.
  destruct (compile_ranges f Hwf Hv) as (_&_&_&_&_&_&?).
  rewrite length_copy_onto, Hmem; [unfold MaxDataLen; lia|].
  rewrite length_frame_payload, Hmem. unfold MaxDataLen. lia.
Qed.

End compiled_data.

Lemma discriminator_field f mem : exists x, discriminator f mem = bitpack 10 14 x /\
  (NodeID.isBroadcast (src_node_id_ f) = false -> discriminator f mem = 0).
Proof.
  unfold discriminator. destruct (NodeID.isBroadcast (src_node_id_ f)); [by eexists|].
  by exists 0.
Qed.

Lemma compile_not_flagged f mem i :
  29 <= i -> Z.testbit (Z.lor (compile_id f) (discriminator f mem)) i = (i =? 31).
Proof.
  intros Hi. destruct (discriminator_field f mem) as (x & -> & _). by apply compile_id_flags.
Qed.

Lemma compiled_flags f out c :
  Frame_wf f -> Frame_valid f -> Frame_compile f out = (true, c) ->
  isErrorFrame c = false /\ isRemoteTransmissionRequest c = false /\ isExtended c = true /\
  1 <= can_dlc c <= 8.
Proof.
  intros Hwf Hv. rewrite Frame_compile_eq by done. intros [= <-].
  unfold isErrorFrame, isRemoteTransmissionRequest, isExtended, FlagERR, FlagRTR, FlagEFF. simpl.
  rewrite !flag_testbit, !compile_not_flagged by lia.
  destruct (compile_ranges f Hwf Hv) as (_&_&_&_&_&_&?). split_and!; lia || done.
Qed.

Lemma u8_small x : 0 <= x < 256 -> u8 x = x.
Proof. intros. by apply wrap_small. Qed.

Lemma u16_small x : 0 <= x < 65536 -> u16 x = x.
Proof. intros. by apply wrap_small. Qed.

(** The fields [parse()] reads from the identifier of a compiled frame. *)
Definition parsed_address (id : Z) : TransferType * Z * Z :=
  if negb (bitunpack 7 1 id =? 0) then
    (if negb (bitunpack 15 1 id =? 0) then TransferTypeServiceRequest
     else TransferTypeServiceResponse,
     u8 (bitunpack 8 7 id), u16 (bitunpack 16 8 id))
  else
    (TransferTypeMessageBroadcast, NodeID.Broadcast,
     if NodeID.isBroadcast (u8 (bitunpack 0 7 id)) then u16 (Z.land (u16 (u16 (bitunpack 8 16 id))) 3)
     else u16 (bitunpack 8 16 id)).

Lemma parsed_address_compiled f mem :
  Frame_wf f -> Frame_valid f -> src_node_id_ f <> 0 \/ data_type_id_ f <= 3 ->
  let id := Z.land (Z.lor (compile_id f) (discriminator f mem)) MaskExtID in
  parsed_address id = (transfer_type_ f, dst_node_id_ f, data_type_id_ f).
Proof.
  intros Hwf Hv Hanon. destruct (compile_ranges f Hwf Hv) as (Hs & Hd & Hp & Ht & Hg & Ht8 & _).
  cbv zeta. unfold parsed_address. change MaskExtID with (Z.ones 29).
  rewrite !bitunpack_mask by lia.
  destruct (discriminator_field f mem) as (x & Hx & Hx0).
  pose proof (compile_id_fields f Hwf Hv x) as (F1 & F2 & F3 & F4 & F5 & F6).
  rewrite Hx, F2, F6. unfold in_width in *.
  assert (u8 (src_node_id_ f) = src_node_id_ f) as -> by (apply u8_small; lia).
  case_bool_decide as Hm; cbv beta iota delta [negb Z.eqb].
  - destruct (fv_bcast f Hv) as [Hb _]. rewrite Hm, (Hb Hm). f_equal.
    destruct (NodeID.isBroadcast (src_node_id_ f)) eqn:Eb.
    + unfold NodeID.isBroadcast in Eb. change NodeID.ValueBroadcast with 0 in Eb.
      destruct Hanon as [|Hle]; [lia|].
      pose proof (bitunpack_range 8 16 (Z.lor (compile_id f) (bitpack 10 14 x)) ltac:(lia) ltac:(lia))
        as Hr. unfold in_width in Hr.
      do 2 (rewrite (u16_small (bitunpack _ _ _)) by done). rewrite compile_id_anonymous by done.
      apply u16_small. lia.
    + rewrite <-Hx, Hx0, Z.lor_0_r, compile_id_message by done. apply u16_small. lia.
  - assert (NodeID.isBroadcast (src_node_id_ f) = false) as Eb.
    { destruct (NodeID.isBroadcast (src_node_id_ f)) eqn:Eb; [|done].
      unfold NodeID.isBroadcast in Eb. change NodeID.ValueBroadcast with 0 in Eb.
      destruct (fv_anon f Hv) as (_ & _ & ?); [lia|done]. }
    rewrite <-Hx, (Hx0 Eb), Z.lor_0_r.
    destruct (compile_id_service f Hwf Hv Hm) as (-> & -> & ->).
    pose proof (fv_type f Hv). specialize (Ht8 Hm).
    rewrite u8_small, u16_small by lia. by destruct (transfer_type_ f).
Qed.

(** The frame [parse()] fills in before it validates it. *)
Definition parsed_frame (self : Frame) (c : CanFrame) : Frame :=
  let id := Z.land (can_id c) MaskExtID in
  let '(ttype, dst, dtid) := parsed_address id in
  let len := u8 (can_dlc c - 1) in
  let tail := nth (Z.to_nat (can_dlc c - 1)) (can_data c) 0 in
  mkFrame (copy_onto (take (Z.to_nat len) (can_data c)) (payload_ self))
    (u8 (bitunpack 24 5 id)) ttype dtid len (u8 (bitunpack 0 7 id)) dst
    (TransferID.make (Z.land tail TransferID.Max))
    (negb (Z.land tail (Z.shiftl 1 7) =? 0))
    (negb (Z.land tail (Z.shiftl 1 6) =? 0))
    (negb (Z.land tail (Z.shiftl 1 5) =? 0)).

(** What [parse()] requires of the CAN frame before it looks at the fields. *)
Definition acceptable (c : CanFrame) : bool :=
  negb (isErrorFrame c) && negb (isRemoteTransmissionRequest c) && isExtended c &&
  (1 <=? can_dlc c) && (can_dlc c <=? 8).

Lemma Frame_parse_eq self c :
  Frame_parse self c =
  if acceptable c then (Frame_isValid (parsed_frame self c), parsed_frame self c)
  else (false, self).
Proof.
  unfold Frame_parse, acceptable, parsed_frame, parsed_address.
  destruct (isErrorFrame c); [done|]. destruct (isRemoteTransmissionRequest c); [done|].
  destruct (isExtended c); [|done]. cbn [orb negb andb].
  change (Z.of_nat MaxDataLen) with 8.
  destruct (Z.ltb_spec 8 (can_dlc c)), (Z.leb_spec (can_dlc c) 8),
    (Z.ltb_spec (can_dlc c) 1), (Z.leb_spec 1 (can_dlc c)); try lia; try done.
  cbn [andb]. by destruct (negb (bitunpack 7 1 _ =? 0)).
Qed.

(** Two frames the code's [==] takes for equal: the same fields and the same
    meaningful payload. *)
Lemma Frame_eqb_spec a b :
  Frame_eqb a b = true <->
  transfer_priority_ a = transfer_priority_ b /\ transfer_type_ a = transfer_type_ b /\
  data_type_id_ a = data_type_id_ b /\ src_node_id_ a = src_node_id_ b /\
  dst_node_id_ a = dst_node_id_ b /\ transfer_id_ a = transfer_id_ b /\
  toggle_ a = toggle_ b /\ start_of_transfer_ a = start_of_transfer_ b /\
  end_of_transfer_ a = end_of_transfer_ b /\ payload_len_ a = payload_len_ b /\
  frame_payload a = frame_payload b.
Proof.
  unfold Frame_eqb. rewrite !andb_true_iff, !Z.eqb_eq, !eqb_true_iff, !bool_decide_eq_true.
  split.
  - intros ((((((((((?&?)&?)&?)&?)&?)&?)&?)&?)&Hl)&Hp). rewrite Hl in Hp.
    split_and!; try done.
  - intros (?&?&?&?&?&?&?&?&?&Hl&Hp). rewrite Hp. unfold frame_payload. rewrite Hl.
    split_and!; done.
Qed.

(** Validity depends only on what [==] compares. *)
Lemma Frame_isValid_eqb a b : Frame_eqb a b = true -> Frame_isValid a = Frame_isValid b.
Proof.
  rewrite Frame_eqb_spec. intros (E1&E2&E3&E4&E5&E6&E7&E8&E9&E10&_).
  unfold Frame_isValid, getPayloadCapacity. by rewrite E1, E2, E3, E4, E5, E7, E8, E9, E10.
Qed.

Lemma parsed_compiled self f out c :
  Frame_wf f -> Frame_valid f -> length (can_data out) = MaxDataLen ->
  src_node_id_ f <> 0 \/ data_type_id_ f <= 3 ->
  Frame_compile f out = (true, c) -> Frame_eqb (parsed_frame self c) f = true.
Proof.
  intros Hwf Hv Hout Hanon. rewrite Frame_compile_eq by done. intros [= <-].
  destruct (compile_ranges f Hwf Hv) as (Hs & Hd & Hp & Ht & Hg & Ht8 & Hl).
  pose proof (parsed_address_compiled f (can_data out) Hwf Hv Hanon) as Ha.
  destruct (discriminator_field f (can_data out)) as (x & Hx & _).
  pose proof (compile_id_fields f Hwf Hv x) as (F1 & F2 & F3 & F4 & F5 & F6).
  unfold parsed_frame. cbn [can_id can_dlc can_data]. rewrite Ha.
  replace (payload_len_ f + 1 - 1) with (payload_len_ f) by lia.
  rewrite (u8_small (payload_len_ f)) by lia.
  rewrite compile_data_tail, compile_data_payload by done.
  change MaskExtID with (Z.ones 29). rewrite !bitunpack_mask by lia. rewrite Hx, F2, F4.
  unfold in_width in *. rewrite !u8_small by lia.
  destruct (tail_byte_fields f (fwf_tid f Hwf)) as (_ & T1 & T2 & T3 & T4).
  rewrite T1, T2, T3, T4, tid_make_id by apply Hwf.
  apply Frame_eqb_spec. cbn -[frame_payload copy_onto]. split_and!; try done.
  unfold frame_payload at 1. cbn -[frame_payload copy_onto].
  rewrite <-(length_frame_payload f) by done. apply take_copy_onto.
Qed.

(** C33: encoding then decoding a frame is the identity: every valid frame whose
    fields have their C++ widths compiles, whatever was in the output object
    before, into an extended data frame of at most 8 bytes, and parsing that
    CAN frame, into an object in any state, succeeds and gives a frame equal to
    the original (anonymous frames: provided the data type ID fits the two bits
    the discriminator leaves of it). *)
Theorem frame_roundtrip self f out :
  Frame_wf f -> Frame_isValid f = true -> length (can_data out) = MaxDataLen ->
  src_node_id_ f <> 0 \/ data_type_id_ f <= 3 ->
  exists c g, Frame_compile f out = (true, c) /\ acceptable c = true /\
    length (can_data c) = MaxDataLen /\
    Frame_parse self c = (true, g) /\ Frame_eqb g f = true.
Proof.
  intros Hwf Hv%Frame_isValid_spec Hout Hanon.
  pose proof (Frame_compile_eq f out Hwf Hv) as Hc. eexists _, (parsed_frame self _).
  split; [exact Hc|]. pose proof (compiled_flags f out _ Hwf Hv Hc) as (F1 & F2 & F3 & F4).
  pose proof (parsed_compiled self f out _ Hwf Hv Hout Hanon Hc) as Heq.
  assert (acceptable (mkCanFrame (Z.lor (compile_id f) (discriminator f (can_data out)))
      (compile_data f (can_data out)) (payload_len_ f + 1)) = true) as Hacc.
  { unfold acceptable. rewrite F1, F2, F3. cbn [negb andb]. lia. }
  split_and!; try done; [by apply length_compile_data|].
  rewrite Frame_parse_eq, Hacc, (Frame_isValid_eqb _ _ Heq).
  by rewrite (proj2 (Frame_isValid_spec f) Hv).
Qed.

Lemma frame_roundtrip_witness :
  let f := mkFrame [1; 2; 3; 4; 5; 6; 7] 16 TransferTypeServiceRequest 200 5 42 17 29 true false false in
  exists c g, Frame_compile f CanFrame_default = (true, c) /\ acceptable c = true /\
    length (can_data c) = MaxDataLen /\
    Frame_parse (Frame_default (replicate 7 0)) c = (true, g) /\ Frame_eqb g f = true.
Proof.
  intros f. apply (frame_roundtrip (Frame_default (replicate 7 0)) f CanFrame_default).
  - split; try (vm_compute; done). repeat constructor; vm_compute; done.
  - reflexivity.
  - reflexivity.
  - left. done.
Defined.

(** ** Lemmas: compiling what was parsed *)

(** The identifier of an acceptable CAN frame, from its fields. *)
Lemma id_from_fields c :
  CanFrame_wf c -> acceptable c = true ->
  can_id c = Z.lor FlagEFF (bitfield 0 29 (can_id c)).
Proof.
  intros Hc Ha. unfold acceptable, isErrorFrame, isRemoteTransmissionRequest, isExtended,
    FlagERR, FlagRTR, FlagEFF in *. rewrite !flag_testbit in Ha by lia.
  rewrite !andb_true_iff, !negb_true_iff in Ha. destruct Ha as ((((H29 & H30) & H31) & _) & _).
  apply Z.bits_inj'. intros i Hi. rewrite Z.shiftl_1_l, Z.lor_spec, Z.pow2_bits_eqb by lia.
  rewrite bitfield_spec by lia.
  destruct (decide (i < 29)); [|destruct (decide (i = 29)) as [->|];
    [|destruct (decide (i = 30)) as [->|]; [|destruct (decide (i = 31)) as [->|]]]].
  - destruct (Z.eqb_spec 31 i), (Z.leb_spec 0 i), (Z.ltb_spec i (0 + 29)); lia || done.
  - by rewrite H29.
  - by rewrite H30.
  - by rewrite H31.
  - rewrite (in_width_testbit 32 _ i (cwf_id c Hc)) by lia.
    destruct (Z.eqb_spec 31 i), (Z.leb_spec 0 i), (Z.ltb_spec i (0 + 29)); lia || done.
Qed.

Lemma bitfield_lor_29_message id :
  Z.lor (Z.lor (bitfield 0 7 id) (bitfield 24 5 id)) (Z.lor (bitfield 7 1 id) (bitfield 8 16 id)) =
  bitfield 0 29 id.
Proof.
  apply Z.bits_inj'. intros i Hi. rewrite !Z.lor_spec, !bitfield_spec by lia.
  destruct (Z.testbit id i); lia.
Qed.

Lemma bitfield_lor_29_service id :
  Z.lor (Z.lor (bitfield 0 7 id) (bitfield 24 5 id))
    (Z.lor (Z.lor (Z.lor (bitfield 7 1 id) (bitfield 8 7 id)) (bitfield 15 1 id))
      (bitfield 16 8 id)) = bitfield 0 29 id.
Proof.
  apply Z.bits_inj'. intros i Hi. rewrite !Z.lor_spec, !bitfield_spec by lia.
  destruct (Z.testbit id i); lia.
Qed.

Lemma bitunpack_bit o v : 0 <= o -> bitunpack o 1 v = (if negb (bitunpack o 1 v =? 0) then 1 else 0).
Proof.
  intros Ho. pose proof (bitunpack_range o 1 v Ho ltac:(lia)) as [? Hr].
  change (2 ^ 1) with 2 in Hr. destruct (Z.eqb_spec (bitunpack o 1 v) 0); simpl; lia.
Qed.

Lemma u8_bitunpack o w v : 0 <= o -> 0 <= w <= 8 -> u8 (bitunpack o w v) = bitunpack o w v.
Proof.
  intros. apply wrap_small, (in_width_mono w); [lia|]. apply bitunpack_range; lia.
Qed.

Lemma u16_bitunpack o w v : 0 <= o -> 0 <= w <= 16 -> u16 (bitunpack o w v) = bitunpack o w v.
Proof.
  intros. apply wrap_small, (in_width_mono w); [lia|]. apply bitunpack_range; lia.
Qed.

Lemma bitpack_bit o v b : 0 <= o <= 31 -> negb (bitunpack o 1 v =? 0) = b ->
  bitpack o 1 (if b then 1 else 0) = bitfield o 1 v.
Proof.
  intros Ho Hb. rewrite <-bitpack_bitunpack by lia. f_equal.
  rewrite (bitunpack_bit o v) by lia. by rewrite Hb.
Qed.

Lemma compile_id_parsed self c :
  CanFrame_wf c -> acceptable c = true -> src_node_id_ (parsed_frame self c) <> 0 ->
  compile_id (parsed_frame self c) = can_id c.
Proof.
  intros Hc Ha. rewrite (id_from_fields c Hc Ha). unfold parsed_frame, parsed_address.
  change MaskExtID with (Z.ones 29). rewrite !bitunpack_mask by lia.
  rewrite !u8_bitunpack, !u16_bitunpack by lia.
  destruct (negb (bitunpack 7 1 (can_id c) =? 0)) eqn:E7.
  - cbn [src_node_id_]. intros _.
    rewrite <-bitfield_lor_29_service. unfold compile_id. cbn -[bitpack bitfield FlagEFF bool_decide].
    rewrite bool_decide_false by (by destruct (negb (bitunpack 15 1 (can_id c) =? 0))).
    unfold DataTypeID.get. rewrite u16_bitunpack, !bitpack_bitunpack by lia.
    rewrite (bitpack_bit 7 (can_id c) true ltac:(lia) E7).
    rewrite (bitpack_bit 15 (can_id c)) by
      (lia || by destruct (negb (bitunpack 15 1 (can_id c) =? 0))).
    by rewrite !Z.lor_assoc.
  - cbn [src_node_id_]. intros Hsrc.
    destruct (NodeID.isBroadcast (bitunpack 0 7 (can_id c))) eqn:Eb;
      [unfold NodeID.isBroadcast, NodeID.ValueBroadcast in Eb; lia|].
    rewrite <-bitfield_lor_29_message. unfold compile_id. cbn -[bitpack bitfield FlagEFF].
    unfold DataTypeID.get. rewrite u16_bitunpack, !bitpack_bitunpack by lia.
    rewrite (bitpack_bit 7 (can_id c) false ltac:(lia) E7). by rewrite !Z.lor_assoc.
Qed.

Lemma tail_byte_parsed t : is_u8 t ->
  tail_byte (mkFrame [] 0 NumTransferTypes 0 0 0 0 (TransferID.make (Z.land t TransferID.Max))
    (negb (Z.land t (Z.shiftl 1 7) =? 0)) (negb (Z.land t (Z.shiftl 1 6) =? 0))
    (negb (Z.land t (Z.shiftl 1 5) =? 0))) = t.
Proof.
  intros Ht. apply Z.eqb_eq. revert t Ht. apply forall_byte. vm_compute. reflexivity.
Qed.

Lemma nth_is_u8 (l : list Z) i : bytes l -> is_u8 (nth i l 0).
Proof.
  intros Hl. destruct (l !! i) as [x|] eqn:E.
  - rewrite (lookup_nth_default l i x E). by eapply Forall_lookup_1.
  - rewrite nth_lookup, E. done.
Qed.

Lemma copy_onto_bytes src dst : bytes src -> bytes dst -> bytes (copy_onto src dst).
Proof. intros. apply Forall_app. split; [done|]. by apply Forall_drop. Qed.

Section parsed.
Context (self : Frame) (Hself : length (payload_ self) = Z.to_nat PayloadCapacity).
Context (Hselfb : bytes (payload_ self)).
Context (c : CanFrame) (Hc : CanFrame_wf c) (Ha : acceptable c = true).

Lemma acceptable_dlc : 1 <= can_dlc c <= 8.
Proof. revert Ha. unfold acceptable. rewrite !andb_true_iff. lia. Qed.

Lemma parsed_payload_len : payload_len_ (parsed_frame self c) = can_dlc c - 1.
Proof.
  pose proof acceptable_dlc. unfold parsed_frame. destruct (parsed_address _) as [[? ?] ?].
  apply u8_small. lia.
Qed.

Lemma parsed_payload : frame_payload (parsed_frame self c) = take (Z.to_nat (can_dlc c - 1)) (can_data c).
Proof.
  pose proof acceptable_dlc as Hd. unfold frame_payload. rewrite parsed_payload_len.
  unfold parsed_frame. destruct (parsed_address _) as [[? ?] ?]. cbn [payload_].
  rewrite u8_small by lia.
  rewrite <-(take_copy_onto (take (Z.to_nat (can_dlc c - 1)) (can_data c)) (payload_ self)) at 2.
  f_equal. rewrite length_take, (cwf_data c Hc). unfold MaxDataLen. lia.
Qed.

Lemma parsed_tail :
  tail_byte (parsed_frame self c) = nth (Z.to_nat (can_dlc c - 1)) (can_data c) 0.
Proof.
  unfold parsed_frame. destruct (parsed_address _) as [[? ?] ?].
  etransitivity; [|apply tail_byte_parsed, nth_is_u8, Hc]. done.
Qed.

Lemma parsed_wf : Frame_wf (parsed_frame self c).
Proof.
  pose proof acceptable_dlc as Hd. unfold parsed_frame, parsed_address.
  change MaskExtID with (Z.ones 29). rewrite !bitunpack_mask by lia.
  assert (Hr : forall o w, 0 <= o -> 0 <= w <= 8 -> is_u8 (u8 (bitunpack o w (can_id c)))).
  { intros. apply wrap_range. lia. }
  assert (Hr' : forall x, is_u32 (u16 x)).
  { intros. apply (in_width_mono 16); [lia|]. apply wrap_range. lia. }
  destruct (negb (bitunpack 7 1 _ =? 0)).
  all: split; cbn -[in_width bitunpack]; try (apply Hr; lia); try apply tid_make_wf; try done.
  all: try (apply wrap_range; lia).
  all: try (by destruct (NodeID.isBroadcast _)).
  all: rewrite u8_small by lia.
  all: try (apply copy_onto_bytes; [apply Forall_take, Hc|done]).
  all: rewrite length_copy_onto; [done|]; rewrite Hself, length_take; unfold PayloadCapacity; lia.
Qed.

Lemma parsed_data mem : length mem = MaxDataLen ->
  Frame_valid (parsed_frame self c) ->
  take (Z.to_nat (can_dlc c)) (compile_data (parsed_frame self c) mem) = can_payload c.
Proof.
  intros Hm Hv. pose proof acceptable_dlc as Hd. pose proof (cwf_data c Hc) as Hl.
  unfold can_payload. replace (Z.to_nat (can_dlc c)) with (S (Z.to_nat (can_dlc c - 1))) by lia.
  assert (Hx : is_Some (can_data c !! Z.to_nat (can_dlc c - 1))).
  { apply lookup_lt_is_Some. rewrite Hl. unfold MaxDataLen. lia. }
  destruct Hx as [t Ht]. rewrite (take_S_r _ _ t Ht).
  rewrite (take_S_r _ _ t).
  - f_equal. rewrite <-parsed_payload, <-parsed_payload_len.
    by apply compile_data_payload; [apply parsed_wf| |].
  - unfold compile_data. rewrite parsed_payload_len, parsed_tail.
    rewrite (lookup_nth_default _ _ t Ht). apply list_lookup_insert_eq.
    rewrite length_copy_onto, Hm; [unfold MaxDataLen; lia|].
    rewrite parsed_payload, length_take, Hm, Hl. unfold MaxDataLen. lia.
Qed.

End parsed.

Lemma tail_byte_u8 f : TransferID.wf (transfer_id_ f) -> is_u8 (tail_byte f).
Proof.
  intros Ht%tid_wf_iff. unfold tail_byte.
  assert (H0 : is_u8 (transfer_id_ f)) by (split; lia).
  assert (Hb : forall (b : bool) i x, 0 <= i < 8 -> is_u8 x -> is_u8 (if b then Z.lor x (Z.shiftl 1 i) else x)).
  { intros b i x Hi Hx. destruct b; [|done]. apply in_width_lor; [lia|done|]. rewrite Z.shiftl_1_l.
    split; [lia|]. apply Z.pow_lt_mono_r; lia. }
  by apply (Hb (toggle_ f) 5), (Hb (end_of_transfer_ f) 6), (Hb (start_of_transfer_ f) 7).
Qed.

(** What [compile()] produces is a well-formed extended frame. *)
Lemma compiled_wf f out c :
  Frame_wf f -> length (can_data out) = MaxDataLen -> bytes (can_data out) ->
  Frame_compile f out = (true, c) -> CanFrame_wf c.
Proof.
  intros Hwf Hl Hb Hc.
  assert (Hv : Frame_valid f).
  { apply Frame_isValid_spec. unfold Frame_compile in Hc. by destruct (Frame_isValid f). }
  destruct (compiled_flags f out c Hwf Hv Hc) as (_ & _ & Hext & Hdlc).
  rewrite Frame_compile_eq in Hc by done. injection Hc as <-. split; cbn [can_id can_data can_dlc] in *.
  - apply in_width_intro; [lia| |].
    + destruct (discriminator_field f (can_data out)) as (x & -> & _). unfold compile_id.
      destruct (bool_decide _); repeat (apply Z.lor_nonneg; split); try apply bitpack_nonneg; done.
    + intros i Hi. rewrite compile_not_flagged by lia. lia.
  - by apply length_compile_data.
  - unfold compile_data. apply Forall_insert; [|apply tail_byte_u8, Hwf].
    apply copy_onto_bytes; [apply Forall_take, Hwf|done].
  - lia.
  - by rewrite Hext.
Qed.

(** Decoding loses nothing: when [parse()] accepts a CAN frame of a node
    with an ID, compiling the resulting frame gives back the same CAN frame,
    identifier, length and meaningful bytes, so no two different CAN frames of
    named nodes decode to the same frame. *)
Theorem frame_decoding_is_exact self c f out :
  length (payload_ self) = Z.to_nat PayloadCapacity -> bytes (payload_ self) ->
  CanFrame_wf c -> length (can_data out) = MaxDataLen ->
  Frame_parse self c = (true, f) -> src_node_id_ f <> 0 ->
  exists c', Frame_compile f out = (true, c') /\ CanFrame_eqb c' c = true.
Proof.
  intros Hs Hsb Hc Hout. rewrite Frame_parse_eq.
  destruct (acceptable c) eqn:Ha; [|done]. intros [= Hv <-] Hsrc.
  apply Frame_isValid_spec in Hv. pose proof (parsed_wf self Hs Hsb c Hc Ha) as Hwf.
  rewrite Frame_compile_eq by done. eexists. split; [done|].
  unfold CanFrame_eqb, can_payload. cbn [can_id can_data can_dlc].
  assert (NodeID.isBroadcast (src_node_id_ (parsed_frame self c)) = false) as Hb.
  { unfold NodeID.isBroadcast, NodeID.ValueBroadcast. lia. }
  destruct (discriminator_field (parsed_frame self c) (can_data out)) as (x & _ & Hx).
  rewrite (Hx Hb), Z.lor_0_r, compile_id_parsed by done.
  rewrite parsed_payload_len by done. replace (can_dlc c - 1 + 1) with (can_dlc c) by lia.
  rewrite parsed_data by done. rewrite !Z.eqb_refl, bool_decide_true by done. done.
Qed.

Lemma frame_decoding_is_exact_witness :
  let c := mkCanFrame (0x80000000 + 0x10C891AA) [1; 2; 3; 0xC5; 9; 9; 9; 9] 4 in
  let self := Frame_default (replicate 7 0) in
  exists c', Frame_compile (snd (Frame_parse self c)) CanFrame_default = (true, c') /\
    CanFrame_eqb c' c = true.
Proof.
  intros c self.
  apply (frame_decoding_is_exact self c (snd (Frame_parse self c)) CanFrame_default).
  - reflexivity.
  - apply Forall_replicate. done.
  - split; try (vm_compute; done). repeat constructor; vm_compute; done.
  - reflexivity.
  - vm_compute. reflexivity.
  - vm_compute. done.
Defined.

Lemma priority_field_div id : bitunpack 24 5 id = Z.land id MaskExtID / 2 ^ 24.
Proof.
  rewrite <-Z.shiftr_div_pow2 by lia. apply Z.bits_inj'. intros i Hi.
  rewrite bitunpack_spec, Z.shiftr_spec, Z.land_spec by lia. change MaskExtID with (Z.ones 29).
  rewrite Z.testbit_ones_nonneg by lia.
  destruct (Z.testbit id (i + 24)); lia.
Qed.

Lemma compiled_priority f out c :
  Frame_wf f -> Frame_compile f out = (true, c) ->
  isExtended c = true /\ Z.land (can_id c) MaskExtID / 2 ^ 24 = transfer_priority_ f.
Proof.
  intros Hwf Hcomp.
  assert (Hv : Frame_valid f).
  { apply Frame_isValid_spec. revert Hcomp. unfold Frame_compile. by destruct (Frame_isValid f). }
  split; [by apply (compiled_flags f out c)|].
  rewrite Frame_compile_eq in Hcomp by done. injection Hcomp as <-. cbn [can_id].
  rewrite <-priority_field_div. destruct (discriminator_field f (can_data out)) as (x & -> & _).
  by apply compile_id_fields.
Qed.

(** A numerically smaller transfer priority wins the bus: of two frames
    that compile, the one with the smaller priority value becomes the CAN frame
    [priorityHigherThan] prefers, whatever their types, addresses and payloads
    are. *)
Theorem transfer_priority_orders_frames f g out out' cf cg :
  Frame_wf f -> Frame_wf g -> Frame_compile f out = (true, cf) -> Frame_compile g out' = (true, cg) ->
  transfer_priority_ f < transfer_priority_ g ->
  priorityHigherThan cf cg = true /\ priorityLowerThan cf cg = false.
Proof.
  intros Hf Hg Cf Cg Hlt.
  destruct (compiled_priority f out cf Hf Cf) as [Ef Pf].
  destruct (compiled_priority g out' cg Hg Cg) as [Eg Pg].
  assert (Z.land (can_id cf) MaskExtID < Z.land (can_id cg) MaskExtID) as Hid.
  { rewrite <-Pf, <-Pg in Hlt. destruct (Z.lt_ge_cases (Z.land (can_id cf) MaskExtID)
      (Z.land (can_id cg) MaskExtID)) as [|Hge]; [done|].
    apply (Z.div_le_mono _ _ (2 ^ 24)) in Hge; lia. }
  unfold priorityLowerThan, priorityHigherThan. unfold isExtended in Ef, Eg.
  rewrite Ef, Eg. cbn [eqb negb]. split.
  - destruct (Z.eqb_spec (Z.land (can_id cf) MaskExtID) (Z.land (can_id cg) MaskExtID)); [lia|].
    cbn [andb]. lia.
  - destruct (Z.eqb_spec (Z.land (can_id cg) MaskExtID) (Z.land (can_id cf) MaskExtID)); [lia|].
    cbn [andb]. lia.
Qed.

Lemma transfer_priority_orders_frames_witness :
  let f := mkFrame (replicate 7 0) 3 TransferTypeMessageBroadcast 60000 5 120 0 29 true false false in
  let g := mkFrame (replicate 7 1) 4 TransferTypeServiceResponse 0 0 1 2 0 true true false in
  priorityHigherThan (snd (Frame_compile f CanFrame_default)) (snd (Frame_compile g CanFrame_default))
    = true.
Proof.
  intros f g.
  refine (proj1 (transfer_priority_orders_frames f g CanFrame_default CanFrame_default _ _ _ _ _ _ _)).
  - split; try (vm_compute; done). repeat constructor; vm_compute; done.
  - split; try (vm_compute; done). repeat constructor; vm_compute; done.
  - vm_compute. reflexivity.
  - vm_compute. reflexivity.
  - vm_compute. reflexivity.
Defined.
