(* ===== verification/LinkedList.v ===== *)
(** * LinkedList: the intrusive singly-linked list

    Models [libuavcan/include/uavcan/util/linked_list.hpp] twice. The pointer
    level is the code: a heap of [next_] fields and a root pointer, with loops
    that follow the pointers (fuel bounds the number of steps, [None] is a
    dereference of a pointer that is not a node, or no fuel left). The list
    level is what the rest of the development uses; the refinement theorems
    say that the pointer level computes it. *)

From stdpp Require Import gmap.
From S2P Require Import Prelude.
Local Open Scope Z_scope.

(** ** List level *)

(** [remove]: drops the first element the test accepts. *)
Fixpoint remove_first {A} (f : A -> bool) (l : list A) : list A :=
  match l with
  | [] => []
  | x :: l => if f x then l else x :: remove_first f l
  end.

(** [insertBefore]: puts the new element before the first one the predicate
    accepts, or at the end. *)
Fixpoint insert_before {A} (f : A -> bool) (x : A) (l : list A) : list A :=
  match l with
  | [] => [x]
  | y :: l => if f y then x :: y :: l else y :: insert_before f x l
  end.

(** ** Pointer level *)

(** The [next_] field of every node; the address 0 is [NULL]. *)
Abbreviation NextHeap := (gmap Z Z).

(** [LinkedListRoot<T>]. *)
Module LinkedListRoot.

Fixpoint getLength_loop (fuel : nat) (h : NextHeap) (node cnt : Z) : option Z :=
  match fuel with
  | O => None
  | S fuel =>
    if node =? 0 then Some cnt
    else next ← h !! node; getLength_loop fuel h next (u32 (cnt + 1))
  end.

(** [unsigned getLength() const]. *)
Definition getLength (fuel : nat) (h : NextHeap) (root : Z) : option Z :=
  getLength_loop fuel h root 0.

Fixpoint remove_loop (fuel : nat) (h : NextHeap) (p node : Z) : option NextHeap :=
  match fuel with
  | O => None
  | S fuel =>
    next ← h !! p;
    if next =? 0 then Some h
    else if next =? node then
      nn ← h !! next; Some (<[p := nn]> h)
    else remove_loop fuel h next node
  end.

(** [void remove(const T* node)]. *)
Definition remove (fuel : nat) (h : NextHeap) (root node : Z) : option (Z * NextHeap) :=
  if (root =? 0) || (node =? 0) then Some (root, h)
  else if root =? node then
    next ← h !! root; Some (next, h)
  else
    h' ← remove_loop fuel h root node; Some (root, h').

(** [void insert(T* node)]. *)
Definition insert (fuel : nat) (h : NextHeap) (root node : Z) : option (Z * NextHeap) :=
  if node =? 0 then Some (root, h)
  else
    '(root, h) ← remove fuel h root node;
    _ ← h !! node;
    Some (node, <[node := root]> h).

Fixpoint insertBefore_loop (fuel : nat) (h : NextHeap) (pred : Z -> bool) (p : Z) : option Z :=
  match fuel with
  | O => None
  | S fuel =>
    next ← h !! p;
    if next =? 0 then Some p
    else if pred next then Some p
    else insertBefore_loop fuel h pred next
  end.

(** [void insertBefore(T* node, Predicate predicate)]. *)
Definition insertBefore (fuel : nat) (h : NextHeap) (root node : Z) (pred : Z -> bool)
    : option (Z * NextHeap) :=
  if node =? 0 then Some (root, h)
  else
    '(root, h) ← remove fuel h root node;
    _ ← h !! node;
    if (root =? 0) || pred root then Some (node, <[node := root]> h)
    else
      p ← insertBefore_loop fuel h pred root;
      next ← h !! p;
      Some (root, <[p := node]> (<[node := next]> h)).

End LinkedListRoot.

Import LinkedListRoot.

(** ** The representation relation *)

(** The nodes reached from [p] are exactly [l]. *)
Fixpoint chain (h : NextHeap) (p : Z) (l : list Z) : Prop :=
  match l with
  | [] => p = 0
  | a :: l => p = a /\ a <> 0 /\ exists q, h !! a = Some q /\ chain h q l
  end.

Lemma chain_frame h p l a v : a ∉ l -> chain h p l -> chain (<[a := v]> h) p l.
Proof.
  revert p. induction l as [|x l IH]; intros p Hn; [done|].
  apply not_elem_of_cons in Hn as [Hax Hn].
  intros (-> & Hx & q & Hq & Hc). split_and!; [done..|].
  exists q. rewrite lookup_insert_ne by done. eauto.
Qed.

Lemma chain_nonzero h p l : chain h p l -> 0 ∉ l.
Proof.
  revert p. induction l as [|x l IH]; intros p; [by intros _ ?%elem_of_nil|].
  intros (-> & Hx & q & _ & Hc). apply not_elem_of_cons. split; [done|]. eauto.
Qed.

Lemma remove_first_notin (l : list Z) x : x ∉ l -> remove_first (Z.eqb x) l = l.
Proof.
  induction l as [|y l IH]; intros Hn; [done|]. apply not_elem_of_cons in Hn as [? ?].
  simpl. destruct (Z.eqb_spec x y); [done|]. f_equal. auto.
Qed.

Lemma remove_first_sub {A} (f : A -> bool) l : remove_first f l `sublist_of` l.
Proof.
  induction l as [|y l IH]; simpl; [done|]. destruct (f y); [by constructor|by constructor].
Qed.

Lemma NoDup_remove_first {A} (f : A -> bool) l : NoDup l -> NoDup (remove_first f l).
Proof. intros. by eapply sublist_NoDup; [|apply remove_first_sub]. Qed.

Lemma remove_first_gone (l : list Z) x : NoDup l -> x ∉ remove_first (Z.eqb x) l.
Proof.
  induction l as [|y l IH]; intros Hd; simpl; [apply not_elem_of_nil|].
  apply NoDup_cons in Hd as [? ?]. destruct (Z.eqb_spec x y) as [->|]; [done|].
  apply not_elem_of_cons. auto.
Qed.

Lemma elem_of_remove_first (l : list Z) x y :
  NoDup l -> y ∈ remove_first (Z.eqb x) l <-> y ∈ l /\ y <> x.
Proof.
  intros Hd. induction l as [|z l IH]; simpl; [by rewrite elem_of_nil; intuition|].
  apply NoDup_cons in Hd as [Hz Hd]. specialize (IH Hd).
  destruct (Z.eqb_spec x z) as [->|]; rewrite !elem_of_cons; [|rewrite IH]; naive_solver.
Qed.

Lemma insert_before_perm {A} (f : A -> bool) x l : insert_before f x l ≡ₚ x :: l.
Proof.
  induction l as [|y l IH]; simpl; [done|]. destruct (f y); [done|].
  rewrite IH. constructor.
Qed.

(** ** Refinement *)

Section refinement.
Context (h : NextHeap) (root : Z) (l : list Z).
Context (Hc : chain h root l) (Hd : NoDup l).

Lemma getLength_loop_ok fuel cnt :
  (length l < fuel)%nat -> 0 <= cnt -> cnt + Z.of_nat (length l) < 2 ^ 32 ->
  getLength_loop fuel h root cnt = Some (cnt + Z.of_nat (length l)).
Proof.
  clear Hd. revert fuel root cnt Hc.
  induction l as [|x l' IH]; intros [|fuel] p cnt Hch Hf H0 Hs; simpl in Hf; try lia.
  - simpl in Hch. subst. simpl. f_equal. lia.
  - destruct Hch as (-> & Hx & q & Hq & Hc'). simpl. destruct (Z.eqb_spec x 0); [done|].
    rewrite Hq. simpl. simpl in Hs. rewrite wrap_small by (split; lia).
    rewrite IH by (done || lia). f_equal. lia.
Qed.

Lemma remove_loop_ok fuel p q l' node :
  h !! p = Some q -> chain h q l' -> p ∉ l' -> NoDup l' -> (length l' < fuel)%nat ->
  exists h' q', remove_loop fuel h p node = Some h' /\
    h' !! p = Some q' /\ chain h' q' (remove_first (Z.eqb node) l') /\
    (forall a, a <> p -> a ∉ l' -> h' !! a = h !! a) /\ dom h' = dom h.
Proof.
  clear Hc Hd. revert fuel p q.
  induction l' as [|x l' IH]; intros [|fuel] p q Hp Hch Hnp Hnd Hf; simpl in Hf; try lia.
  - simpl in Hch. subst. simpl. rewrite Hp. simpl. eauto 10.
  - destruct Hch as (-> & Hx & r & Hr & Hc'). simpl. rewrite Hp. simpl.
    destruct (Z.eqb_spec x 0); [done|]. apply not_elem_of_cons in Hnp as [Hpx Hnp].
    apply NoDup_cons in Hnd as [Hnx Hnd].
    rewrite (Z.eqb_sym node x). destruct (Z.eqb_spec x node) as [->|Hne].
    + rewrite Hr. simpl. eexists _, r. split; [done|].
      rewrite lookup_insert_eq. split_and!; [done|by apply chain_frame| |].
      * intros a ? ?. by rewrite lookup_insert_ne.
      * apply dom_insert_lookup_L. by eexists.
    + destruct (IH fuel x r Hr Hc' Hnx Hnd ltac:(lia)) as (h' & q' & E & Hq' & Hch' & Hf' & Hdom).
      exists h', x. split_and!; [done| | | |done].
      * rewrite Hf'; done.
      * simpl. eauto.
      * intros a Ha Hal. apply not_elem_of_cons in Hal as [? ?]. by apply Hf'.
Qed.

Lemma remove_ok fuel node :
  (length l < fuel)%nat ->
  exists root' h', remove fuel h root node = Some (root', h') /\
    chain h' root' (remove_first (Z.eqb node) l) /\
    (forall a, a ∉ l -> h' !! a = h !! a) /\ dom h' = dom h.
Proof.
  intros Hf. unfold remove. destruct l as [|x l'] eqn:El; simpl in Hc.
  - subst root. simpl. eauto 10.
  - destruct Hc as (-> & Hx & q & Hq & Hc'). apply NoDup_cons in Hd as [Hnx Hnd].
    destruct (Z.eqb_spec x 0); [done|]. simpl.
    destruct (Z.eqb_spec node 0) as [->|Hn0].
    + eexists x, h. split_and!; [done| |done|done]. destruct (Z.eqb_spec 0 x); [done|].
      rewrite remove_first_notin by (by eapply chain_nonzero). simpl. eauto.
    + rewrite (Z.eqb_sym node x). destruct (Z.eqb_spec x node) as [->|Hne].
      * rewrite Hq. simpl. eauto 10.
      * simpl in Hf.
        destruct (remove_loop_ok fuel x q l' node Hq Hc' Hnx Hnd ltac:(lia))
          as (h' & q' & -> & Hq' & Hch' & Hfr & Hdom).
        eexists _, _. split; [done|]. split; [|split; [|done]].
        -- simpl. eauto.
        -- intros a [? ?]%not_elem_of_cons. by apply Hfr.
Qed.

End refinement.

Lemma insertBefore_loop_ok h pred fuel p q l :
  h !! p = Some q -> chain h q l -> p ∉ l -> NoDup l -> (length l < fuel)%nat ->
  exists p' n pre post, insertBefore_loop fuel h pred p = Some p' /\
    h !! p' = Some n /\ p :: l = pre ++ p' :: post /\ chain h n post /\
    (forall node, p :: insert_before pred node l = pre ++ p' :: node :: post).
Proof.
  revert fuel p q. induction l as [|x l IH]; intros [|fuel] p q Hp Hch Hnp Hnd Hf; simpl in Hf; try lia.
  - simpl in Hch. subst. simpl. rewrite Hp. simpl. exists p, 0, [], []. split_and!; done.
  - destruct Hch as (-> & Hx & r & Hr & Hc'). simpl. rewrite Hp. simpl.
    destruct (Z.eqb_spec x 0); [done|]. apply not_elem_of_cons in Hnp as [Hpx Hnp].
    apply NoDup_cons in Hnd as [Hnx Hnd]. destruct (pred x).
    + exists p, x, [], (x :: l). split_and!; try done. simpl. eauto.
    + destruct (IH fuel x r Hr Hc' Hnx Hnd ltac:(lia)) as (p' & n' & pre & post & E & Hn & Hl & Hpc & Hins).
      exists p', n', (p :: pre), post. split_and!; try done.
      * by rewrite Hl.
      * intros node. simpl. by rewrite Hins.
Qed.

(** Redirecting the tail of a chain at one of its nodes. *)
Lemma chain_splice h p pre x post q post' :
  chain h p (pre ++ x :: post) -> NoDup (pre ++ x :: post) ->
  (forall a, a ∈ pre -> a ∉ post') -> x ∉ post' ->
  chain h q post' -> chain (<[x := q]> h) p (pre ++ x :: post').
Proof.
  revert p. induction pre as [|a pre IH]; intros p Hch Hnd Hdis Hx Hq; simpl in *.
  - destruct Hch as (-> & ? & r & ? & ?). split_and!; [done..|]. exists q.
    rewrite lookup_insert_eq. split; [done|]. by apply chain_frame.
  - destruct Hch as (-> & ? & r & Hr & Hc'). apply NoDup_cons in Hnd as [Hna Hnd].
    split_and!; [done..|]. exists r. split.
    + rewrite lookup_insert_ne; [done|]. set_solver.
    + apply IH; set_solver.
Qed.

Lemma insert_ok h root l fuel node :
  chain h root l -> NoDup l -> (length l < fuel)%nat -> node <> 0 -> is_Some (h !! node) ->
  exists h', insert fuel h root node = Some (node, h') /\
    chain h' node (node :: remove_first (Z.eqb node) l) /\
    (forall a, a <> node -> a ∉ l -> h' !! a = h !! a).
Proof.
  intros Hc Hd Hf Hn Hs. unfold insert. destruct (Z.eqb_spec node 0); [done|].
  destruct (remove_ok h root l Hc Hd fuel node Hf) as (root' & h' & -> & Hc' & Hfr & Hdom).
  cbn [mbind option_bind].
  assert (is_Some (h' !! node)) as [v Hv] by (apply elem_of_dom; rewrite Hdom; by apply elem_of_dom).
  rewrite Hv. cbn [mbind option_bind]. eexists. split; [done|]. split.
  - simpl. split_and!; [done..|]. exists root'. rewrite lookup_insert_eq. split; [done|].
    apply chain_frame; [|done]. by apply remove_first_gone.
  - intros a Ha Hal. rewrite lookup_insert_ne by done. auto.
Qed.

Lemma insertBefore_ok h root l fuel node pred :
  chain h root l -> NoDup l -> (length l < fuel)%nat -> node <> 0 -> is_Some (h !! node) ->
  exists root' h', insertBefore fuel h root node pred = Some (root', h') /\
    chain h' root' (insert_before pred node (remove_first (Z.eqb node) l)) /\
    (forall a, a <> node -> a ∉ l -> h' !! a = h !! a).
Proof.
  intros Hc Hd Hf Hn Hs. unfold insertBefore. destruct (Z.eqb_spec node 0); [done|].
  destruct (remove_ok h root l Hc Hd fuel node Hf) as (root' & h' & -> & Hc' & Hfr & Hdom).
  cbn [mbind option_bind].
  assert (is_Some (h' !! node)) as [v Hv] by (apply elem_of_dom; rewrite Hdom; by apply elem_of_dom).
  rewrite Hv. cbn [mbind option_bind].
  pose proof (NoDup_remove_first (Z.eqb node) l Hd) as Hd'.
  pose proof (remove_first_gone l node Hd) as Hgone.
  pose proof (remove_first_sub (Z.eqb node) l) as Hsub.
  assert (Hlen : (length (remove_first (Z.eqb node) l) <= length l)%nat) by by apply sublist_length.
  assert (Hin : forall a, a ∉ l -> a ∉ remove_first (Z.eqb node) l).
  { intros a Ha Hr. apply Ha. by eapply elem_of_sublist. }
  destruct (remove_first (Z.eqb node) l) as [|x r] eqn:Er; simpl in Hc'.
  - subst root'. cbn [orb Z.eqb]. eexists _, _. split; [done|]. split.
    + simpl. split_and!; [done..|]. exists 0. by rewrite lookup_insert_eq.
    + intros a Ha Hal. rewrite lookup_insert_ne by done. auto.
  - destruct Hc' as (-> & Hx & q & Hq & Hcr). destruct (Z.eqb_spec x 0); [done|]. cbn [orb].
    assert (Hch : chain h' x (x :: r)) by (simpl; eauto).
    destruct (pred x) eqn:Ep.
    + eexists _, _. split; [done|]. simpl. rewrite Ep. split.
      * split_and!; [done..|]. exists x. rewrite lookup_insert_eq. split; [done|].
        by apply (chain_frame h' x (x :: r)).
      * intros a Ha Hal. rewrite lookup_insert_ne by done. auto.
    + apply NoDup_cons in Hd' as [Hnx Hnr]. simpl in Hlen.
      destruct (insertBefore_loop_ok h' pred fuel x q r Hq Hcr Hnx Hnr ltac:(lia))
        as (p' & n' & pre & post & -> & Hn' & Hl' & Hpc & Hins).
      cbn [mbind option_bind]. rewrite Hn'. cbn [mbind option_bind].
      eexists _, _. split; [done|]. simpl. rewrite Ep. rewrite Hl' in Hgone, Hch. split.
      * rewrite Hins. eapply (chain_splice _ _ pre p' post).
        -- apply chain_frame; done.
        -- rewrite <-Hl'. by constructor.
        -- assert (NoDup (pre ++ p' :: post)) as Hnd by (rewrite <-Hl'; by constructor).
           apply NoDup_app in Hnd as (_ & Hdis & _). intros a Ha Hb.
           apply elem_of_cons in Hb as [->|Hb]; [apply Hgone, elem_of_app; by left|].
           apply (Hdis a Ha). by right.
        -- assert (NoDup (pre ++ p' :: post)) as Hnd by (rewrite <-Hl'; by constructor).
           apply NoDup_app in Hnd as (_ & _ & Hnd). apply NoDup_cons in Hnd as [Hnp _].
           apply not_elem_of_cons. split; [|done]. intros ->. apply Hgone, elem_of_app. right. by left.
        -- simpl. split_and!; [done..|]. exists n'. rewrite lookup_insert_eq. split; [done|].
           apply chain_frame; [|done]. intros Hb. apply Hgone, elem_of_app. right. by right.
      * intros a Ha Hal. rewrite !lookup_insert_ne; [by apply Hfr|done|].
        intros ->. apply (Hin a Hal). rewrite Hl'. apply elem_of_app. right. by left.
Qed.

(** The pointer manipulations of the intrusive list implement the list
    operations: on a well-formed chain with no repeated node, every loop ends
    within the length of the list, no null or foreign pointer is followed, and
    the result is again a well-formed chain without repetitions: [remove]
    unlinks the node, [insert] moves it to the front, [insertBefore] moves it in
    front of the first node the predicate accepts (or to the end), [getLength]
    counts the nodes; the links of nodes outside the list do not change. *)
Theorem linked_list_refines h root l fuel node pred :
  chain h root l -> NoDup l -> (length l < fuel)%nat -> Z.of_nat (length l) < 2 ^ 32 ->
  node <> 0 -> is_Some (h !! node) ->
  getLength fuel h root = Some (Z.of_nat (length l)) /\
  (exists root' h', remove fuel h root node = Some (root', h') /\
    chain h' root' (remove_first (Z.eqb node) l) /\ NoDup (remove_first (Z.eqb node) l) /\
    (forall a, a ∉ l -> h' !! a = h !! a)) /\
  (exists h', insert fuel h root node = Some (node, h') /\
    chain h' node (node :: remove_first (Z.eqb node) l) /\
    NoDup (node :: remove_first (Z.eqb node) l) /\
    (forall a, a <> node -> a ∉ l -> h' !! a = h !! a)) /\
  (exists root' h', insertBefore fuel h root node pred = Some (root', h') /\
    chain h' root' (insert_before pred node (remove_first (Z.eqb node) l)) /\
    NoDup (insert_before pred node (remove_first (Z.eqb node) l)) /\
    (forall a, a <> node -> a ∉ l -> h' !! a = h !! a)).
Proof.
  intros Hc Hd Hf Hs Hn Hh.
  pose proof (NoDup_remove_first (Z.eqb node) l Hd) as Hd'.
  assert (Hdn : NoDup (node :: remove_first (Z.eqb node) l)).
  { constructor; [by apply remove_first_gone|done]. }
  split; [|split; [|split]].
  - unfold getLength. by rewrite (getLength_loop_ok h root l Hc fuel 0) by lia.
  - destruct (remove_ok h root l Hc Hd fuel node Hf) as (r & h' & ? & ? & ? & _). eauto 10.
  - destruct (insert_ok h root l fuel node) as (h' & ? & ? & ?); eauto 10.
  - destruct (insertBefore_ok h root l fuel node pred) as (r & h' & ? & ? & ?); try done.
    eexists _, _. split_and!; try done. by rewrite insert_before_perm.
Qed.

Lemma linked_list_refines_witness :
  let h := <[1 := 5]> (<[5 := 9]> (<[9 := 0]> (<[7 := 0]> (∅ : NextHeap)))) in
  exists root' h', insertBefore 4 h 1 7 (fun x => x =? 9) = Some (root', h') /\
    chain h' root' [1; 5; 7; 9] /\ NoDup [1; 5; 7; 9] /\
    (forall a, a <> 7 -> a ∉ [1; 5; 9] -> h' !! a = h !! a).
Proof.
  intros h. apply (linked_list_refines h 1 [1; 5; 9] 4 7 (fun x => x =? 9)).
  - repeat (split; [done|]; split; [done|]; eexists; split; [reflexivity|]). done.
  - apply (bool_decide_eq_true_1 (NoDup [1; 5; 9])). reflexivity.
  - simpl. lia.
  - simpl. lia.
  - done.
  - eexists. reflexivity.
Defined.
