(* ===== verification/PoolAllocator.v ===== *)
(** * PoolAllocator: the block pool

    Models [libuavcan/include/uavcan/dynamic_memory.hpp] and
    [src/uc_dynamic_memory.cpp]: the [IPoolAllocator] interface as a class of
    operations with a class of laws its clients are proved against, the free
    list allocator [PoolAllocator] and the quota wrapper
    [LimitedPoolAllocator]. An address is a [Z], 0 is [NULL]; the RAII lock is
    not modelled (one thread). *)

From stdpp Require Import gmap.
From S2P Require Import Prelude LinkedList.
Local Open Scope Z_scope.

(** ** The interface *)

(** [IPoolAllocator]. *)
Class IPoolAllocator (A : Type) := {
  allocate : A -> Z -> option Z * A;
  deallocate : A -> Z -> A;
  getBlockCapacity : A -> Z
}.

(** What the clients rely on: a set of live blocks, a fresh block from every
    successful allocation, no change from a failed one. *)
Class PoolLaws (A : Type) `{IPoolAllocator A} := {
  live : A -> gset Z;
  pool_inv : A -> Prop;
  allocate_some a size p a' : pool_inv a -> allocate a size = (Some p, a') ->
    p <> 0 /\ (p ∉ live a) /\ (live a' = {[p]} ∪ live a) /\ pool_inv a';
  allocate_none a size a' : pool_inv a -> allocate a size = (None, a') ->
    live a' = live a /\ pool_inv a';
  deallocate_live a p : pool_inv a -> p ∈ live a ->
    (live (deallocate a p) = live a ∖ {[p]}) /\ pool_inv (deallocate a p)
}.

(** A pool of [num_blocks] blocks refuses a request that fits a block only
    when all of them are live. *)
Class PoolCapacity (A : Type) `{PoolLaws A} (block_size num_blocks : Z) :=
  allocate_refused a req a' : pool_inv a -> req <= block_size -> allocate a req = (None, a') ->
    num_blocks <= Z.of_nat (size (live a)).

(** A freed block is enough for the next request. *)
Class PoolRefill (A : Type) `{PoolLaws A} (req : Z) :=
  allocate_refill a p : pool_inv a -> p ∈ live a -> (allocate (deallocate a p) req).1 <> None.

(** ** PoolAllocator *)

Record PoolAllocator := mkPool {
  pool_base : Z;        (** address of [pool_.bytes] *)
  PoolSize : Z;
  BlockSize : Z;
  free_list_ : Z;
  next_ : NextHeap;     (** [Node::next] of every block *)
  used_ : Z;
  max_used_ : Z
}.

Definition NumBlocks (a : PoolAllocator) : Z := PoolSize a / BlockSize a.

(** The address of block [i]. *)
Definition block_addr (base size : Z) (i : nat) : Z := base + Z.of_nat i * size.

(** The addresses of all blocks, in order. *)
Definition block_addrs (base size : Z) (n : nat) : list Z := block_addr base size <$> seq 0 n.

(** [PoolAllocator::PoolAllocator()]: block [i] points to block [i + 1], the
    last one to [NULL]. *)
Definition PoolAllocator_init (base pool_size block_size : Z) : PoolAllocator :=
  let n := Z.to_nat (pool_size / block_size) in
  let linked := fold_left (fun h i =>
      <[block_addr base block_size i := block_addr base block_size (i + 1)]> h)
    (seq 0 (n - 1)) ∅ in
  let h := <[block_addr base block_size (n - 1) := 0]> linked in
  mkPool base pool_size block_size base h 0 0.

(** [void* PoolAllocator::allocate(std::size_t size)]. *)
Definition Pool_allocate (a : PoolAllocator) (size : Z) : option Z * PoolAllocator :=
  if (free_list_ a =? 0) || (BlockSize a <? size) then (None, a)
  else
    let pmem := free_list_ a in
    let used := u16 (used_ a + 1) in
    (Some pmem,
     mkPool (pool_base a) (PoolSize a) (BlockSize a)
       (default 0 (next_ a !! free_list_ a)) (next_ a) used
       (if max_used_ a <? used then used else max_used_ a)).

(** [void PoolAllocator::deallocate(const void* ptr)]. *)
Definition Pool_deallocate (a : PoolAllocator) (ptr : Z) : PoolAllocator :=
  if ptr =? 0 then a
  else
    mkPool (pool_base a) (PoolSize a) (BlockSize a) ptr
      (<[ptr := free_list_ a]> (next_ a)) (u16 (used_ a - 1)) (max_used_ a).

Definition getNumUsedBlocks (a : PoolAllocator) : Z := used_ a.
Definition getNumFreeBlocks (a : PoolAllocator) : Z := u16 (NumBlocks a - used_ a).
Definition getPeakNumUsedBlocks (a : PoolAllocator) : Z := max_used_ a.

#[export] Instance Pool_ops : IPoolAllocator PoolAllocator := {
  allocate := Pool_allocate;
  deallocate := Pool_deallocate;
  getBlockCapacity := NumBlocks
}.

(** ** LimitedPoolAllocator *)

Record LimitedPoolAllocator (A : Type) := mkLimited {
  allocator_ : A;
  max_blocks_ : Z;
  used_blocks_ : Z
}.
Arguments mkLimited {A}.
Arguments allocator_ {A}.
Arguments max_blocks_ {A}.
Arguments used_blocks_ {A}.

Section limited.
Context {A : Type} `{IPoolAllocator A}.

(** [LimitedPoolAllocator(IPoolAllocator&, std::size_t)]. *)
Definition Limited_init (a : A) (max_blocks : Z) : LimitedPoolAllocator A :=
  mkLimited a (u16 (Z.min max_blocks 0xFFFF)) 0.

(** [void* LimitedPoolAllocator::allocate(std::size_t size)]. *)
Definition Limited_allocate (l : LimitedPoolAllocator A) (size : Z)
    : option Z * LimitedPoolAllocator A :=
  if used_blocks_ l <? max_blocks_ l then
    let '(p, a) := allocate (allocator_ l) size in
    (p, mkLimited a (max_blocks_ l) (u16 (used_blocks_ l + 1)))
  else (None, l).

(** [void LimitedPoolAllocator::deallocate(const void* ptr)]. *)
Definition Limited_deallocate (l : LimitedPoolAllocator A) (ptr : Z) : LimitedPoolAllocator A :=
  let a := deallocate (allocator_ l) ptr in
  mkLimited a (max_blocks_ l)
    (if 0 <? used_blocks_ l then u16 (used_blocks_ l - 1) else used_blocks_ l).

(** [uint16_t LimitedPoolAllocator::getBlockCapacity() const]. *)
Definition Limited_capacity (l : LimitedPoolAllocator A) : Z :=
  Z.min (max_blocks_ l) (getBlockCapacity (allocator_ l)).

#[export] Instance Limited_ops : IPoolAllocator (LimitedPoolAllocator A) := {
  allocate := Limited_allocate;
  deallocate := Limited_deallocate;
  getBlockCapacity := Limited_capacity
}.

End limited.

(** ** The pool's invariant *)

(** The first [fuel] nodes of the chain from [p]. *)
Fixpoint walk (fuel : nat) (h : NextHeap) (p : Z) : list Z :=
  match fuel with
  | O => []
  | S fuel => if p =? 0 then [] else p :: walk fuel h (default 0 (h !! p))
  end.

Lemma walk_chain h p l fuel : chain h p l -> (length l <= fuel)%nat -> walk fuel h p = l.
Proof.
  revert p fuel. induction l as [|x l IH]; intros p fuel Hc Hf; simpl in *.
  - subst. by destruct fuel.
  - destruct Hc as (-> & Hx & q & Hq & Hc). destruct fuel as [|fuel]; [lia|]. simpl.
    destruct (Z.eqb_spec x 0); [done|]. rewrite Hq. simpl. f_equal. apply IH; [done|lia].
Qed.

Definition pool_blocks (a : PoolAllocator) : list Z :=
  block_addrs (pool_base a) (BlockSize a) (Z.to_nat (NumBlocks a)).

(** The blocks of the free list. *)
Definition free_blocks (a : PoolAllocator) : list Z :=
  walk (Z.to_nat (NumBlocks a)) (next_ a) (free_list_ a).

Definition Pool_live (a : PoolAllocator) : gset Z :=
  list_to_set (pool_blocks a) ∖ list_to_set (free_blocks a).

(** The free list is a chain of distinct blocks of the pool; the counters say
    how many blocks are off it. *)
Record Pool_inv (a : PoolAllocator) : Prop := {
  pi_base : 0 < pool_base a;
  pi_size : 0 < BlockSize a;
  pi_num : 1 <= NumBlocks a <= 0xFFFF;
  pi_chain : chain (next_ a) (free_list_ a) (free_blocks a);
  pi_nodup : NoDup (free_blocks a);
  pi_sub : free_blocks a ⊆ pool_blocks a;
  pi_dom : forall p, p ∈ pool_blocks a -> is_Some (next_ a !! p);
  pi_used : used_ a + Z.of_nat (length (free_blocks a)) = NumBlocks a;
  pi_max : 0 <= used_ a <= max_used_ a /\ max_used_ a <= NumBlocks a
}.

Lemma block_addrs_NoDup base size n : 0 < size -> NoDup (block_addrs base size n).
Proof.
  intros Hs. apply NoDup_fmap_2; [|apply NoDup_seq]. intros i j. unfold block_addr. nia.
Qed.

Lemma block_addrs_nonzero base size n : 0 < base -> 0 < size -> 0 ∉ block_addrs base size n.
Proof.
  intros Hb Hs (i & Hi & _)%list_elem_of_fmap. unfold block_addr in Hi. nia.
Qed.

Lemma free_length a : Pool_inv a -> (length (free_blocks a) <= Z.to_nat (NumBlocks a))%nat.
Proof. intros Ha. pose proof (pi_used a Ha). pose proof (pi_max a Ha). lia. Qed.

(** Two states over the same pool whose free lists are known. *)
Lemma free_blocks_chain a l :
  chain (next_ a) (free_list_ a) l -> (length l <= Z.to_nat (NumBlocks a))%nat ->
  free_blocks a = l.
Proof. intros. by apply walk_chain. Qed.

Lemma pool_blocks_NoDup a : Pool_inv a -> NoDup (pool_blocks a).
Proof. intros Ha. apply block_addrs_NoDup, Ha. Qed.

Lemma length_pool_blocks a : length (pool_blocks a) = Z.to_nat (NumBlocks a).
Proof. unfold pool_blocks, block_addrs. by rewrite length_fmap, length_seq. Qed.

Lemma used_is_live a : Pool_inv a -> used_ a = Z.of_nat (size (Pool_live a)).
Proof.
  intros Ha. pose proof (pi_used a Ha) as Hu. unfold Pool_live.
  rewrite size_difference, !size_list_to_set, length_pool_blocks
    by (apply Ha || by apply pool_blocks_NoDup || (intros x; rewrite !elem_of_list_to_set; apply Ha)).
  pose proof (free_length a Ha). pose proof (pi_num a Ha). lia.
Qed.

Lemma free_blocks_empty a : Pool_inv a -> free_list_ a = 0 <-> free_blocks a = [].
Proof.
  intros Ha. pose proof (pi_chain a Ha) as Hc. split.
  - intros E. destruct (free_blocks a); [done|]. simpl in Hc. destruct Hc as (? & ? & _). congruence.
  - intros E. by rewrite E in Hc.
Qed.

Section pool_steps.
Context (a : PoolAllocator) (Ha : Pool_inv a).

(** Taking the head of the free list. *)
Lemma Pool_allocate_step size p a' :
  Pool_allocate a size = (Some p, a') ->
  size <= BlockSize a /\ free_blocks a = p :: free_blocks a' /\ used_ a' = used_ a + 1 /\
  pool_blocks a' = pool_blocks a /\ NumBlocks a' = NumBlocks a /\
  max_used_ a' = Z.max (max_used_ a) (used_ a') /\ Pool_inv a'.
Proof.
  unfold Pool_allocate. destruct (Z.eqb_spec (free_list_ a) 0) as [|Hf]; [done|].
  destruct (Z.ltb_spec (BlockSize a) size); [done|]. cbn [orb]. intros [= <- <-].
  pose proof (pi_chain a Ha) as Hc. pose proof (pi_used a Ha) as Hu.
  pose proof (pi_nodup a Ha) as Hd. pose proof (pi_sub a Ha) as Hs.
  pose proof (pi_max a Ha) as Hm. pose proof (pi_num a Ha) as Hn.
  pose proof (free_length a Ha) as Hl.
  destruct (free_blocks a) as [|x l] eqn:El; simpl in Hc; [done|].
  destruct Hc as (Hx & Hx0 & q & Hq & Hc). rewrite Hx in *. rewrite Hq. cbn [default].
  simpl in Hu, Hl. rewrite (wrap_small 16 (used_ a + 1)) by (split; lia).
  assert (Hmax : (if max_used_ a <? used_ a + 1 then used_ a + 1 else max_used_ a) =
    Z.max (max_used_ a) (used_ a + 1))
    by (destruct (Z.ltb_spec (max_used_ a) (used_ a + 1)); lia).
  rewrite Hmax. cbn [used_ max_used_].
  set (a' := mkPool _ _ _ _ _ _ _).
  assert (Hfree : free_blocks a' = l).
  { apply free_blocks_chain; [done|]. unfold NumBlocks in *. simpl. lia. }
  rewrite Hfree. apply NoDup_cons in Hd as [? ?].
  split_and!; try done. split; rewrite ?Hfree; try done; try apply Ha.
  - intros y Hy. apply Hs. by right.
  - unfold NumBlocks in *. simpl. lia.
  - unfold NumBlocks in *. simpl. lia.
Qed.

Lemma Pool_allocate_fails size a' :
  Pool_allocate a size = (None, a') ->
  a' = a /\ (free_blocks a = [] \/ BlockSize a < size).
Proof.
  unfold Pool_allocate. destruct (Z.eqb_spec (free_list_ a) 0) as [E|].
  - intros [= <-]. split; [done|]. left. by apply free_blocks_empty.
  - destruct (Z.ltb_spec (BlockSize a) size); [|done]. intros [= <-]. auto.
Qed.

(** Putting a live block back. *)
Lemma Pool_deallocate_step p :
  p ∈ Pool_live a ->
  let a' := Pool_deallocate a p in
  free_blocks a' = p :: free_blocks a /\ used_ a' = used_ a - 1 /\
  pool_blocks a' = pool_blocks a /\ NumBlocks a' = NumBlocks a /\
  max_used_ a' = max_used_ a /\ Pool_inv a'.
Proof.
  intros Hp. unfold Pool_live in Hp. rewrite elem_of_difference, !elem_of_list_to_set in Hp.
  destruct Hp as [Hp Hnf]. cbv zeta. unfold Pool_deallocate.
  assert (p <> 0).
  { intros ->. apply (block_addrs_nonzero _ _ _ (pi_base a Ha) (pi_size a Ha) Hp). }
  destruct (Z.eqb_spec p 0); [done|].
  pose proof (pi_used a Ha) as Hu. pose proof (pi_max a Ha) as Hm. pose proof (pi_num a Ha) as Hn.
  assert (Hlen : (S (length (free_blocks a)) <= Z.to_nat (NumBlocks a))%nat).
  { rewrite <-length_pool_blocks. change (S (length (free_blocks a))) with (length (p :: free_blocks a)).
    apply submseteq_length, NoDup_submseteq; [constructor; [done|apply Ha]|].
    intros x [->|Hx]%elem_of_cons; [done|by apply (pi_sub a Ha)]. }
  rewrite (wrap_small 16 (used_ a - 1)) by (split; lia).
  set (a' := mkPool _ _ _ _ _ _ _).
  assert (Hc : chain (next_ a') (free_list_ a') (p :: free_blocks a)).
  { simpl. split_and!; [done..|]. exists (free_list_ a). rewrite lookup_insert_eq.
    split; [done|]. apply chain_frame; [done|apply Ha]. }
  assert (Hfree : free_blocks a' = p :: free_blocks a).
  { apply free_blocks_chain; [done|]. unfold NumBlocks in *. simpl. lia. }
  split_and!; try done. split; rewrite ?Hfree; try done; try apply Ha.
  - constructor; [done|apply Ha].
  - intros x [->|Hx]%elem_of_cons; [done|by apply (pi_sub a Ha)].
  - intros x Hx. simpl. destruct (decide (x = p)) as [->|]; [rewrite lookup_insert_eq; by eexists|].
    rewrite lookup_insert_ne by done. by apply (pi_dom a Ha).
  - unfold NumBlocks in *. simpl. lia.
  - unfold NumBlocks in *. simpl. lia.
Qed.

End pool_steps.

Lemma Pool_allocate_live a size p a' :
  Pool_inv a -> Pool_allocate a size = (Some p, a') ->
  p <> 0 /\ (p ∉ Pool_live a) /\ p ∈ pool_blocks a /\ (Pool_live a' = {[p]} ∪ Pool_live a) /\
  Pool_inv a'.
Proof.
  intros Ha E. pose proof (Pool_allocate_step a Ha size p a' E) as (_ & Hf & _ & Hb & _ & _ & Ha').
  pose proof (pi_nodup a Ha) as Hd. pose proof (pi_sub a Ha) as Hs. rewrite Hf in Hd, Hs.
  apply NoDup_cons in Hd as [Hp Hd]. assert (Hpb : p ∈ pool_blocks a) by (apply Hs; by left).
  unfold Pool_live. rewrite Hb, Hf. split_and!; try done.
  - intros ->. apply (block_addrs_nonzero _ _ _ (pi_base a Ha) (pi_size a Ha) Hpb).
  - rewrite elem_of_difference, !elem_of_list_to_set. intros [_ Hn]. apply Hn. by left.
  - apply set_eq. intros x. rewrite elem_of_union, !elem_of_difference, !elem_of_list_to_set,
      elem_of_singleton, elem_of_cons.
    destruct (decide (x = p)) as [->|]; tauto.
Qed.

Lemma Pool_deallocate_live a p :
  Pool_inv a -> p ∈ Pool_live a ->
  (Pool_live (Pool_deallocate a p) = Pool_live a ∖ {[p]}) /\ Pool_inv (Pool_deallocate a p).
Proof.
  intros Ha Hp.
  pose proof (Pool_deallocate_step a Ha p Hp) as (Hf & _ & Hb & _ & _ & Ha'). split; [|done].
  unfold Pool_live. rewrite Hb, Hf. apply set_eq. intros x.
  rewrite !elem_of_difference, !elem_of_list_to_set, elem_of_singleton, elem_of_cons. tauto.
Qed.

(** The pool keeps the laws of the interface. *)
#[export] Instance Pool_laws : PoolLaws PoolAllocator.
Proof.
  refine {| live := Pool_live; pool_inv := Pool_inv |}.
  - intros a size p a' Ha E. pose proof (Pool_allocate_live a size p a' Ha E). tauto.
  - intros a size a' Ha E. by apply Pool_allocate_fails in E as [-> _].
  - intros. by apply Pool_deallocate_live.
Defined.

(** The same laws for the pools of one configuration, whose capacity is then
    known. *)
Section configured.
Context (base pool_size block_size : Z).

Definition Pool_inv_at (a : PoolAllocator) : Prop :=
  Pool_inv a /\ pool_base a = base /\ PoolSize a = pool_size /\ BlockSize a = block_size.

Lemma Pool_config_allocate a req p a' :
  Pool_allocate a req = (p, a') ->
  pool_base a' = pool_base a /\ PoolSize a' = PoolSize a /\ BlockSize a' = BlockSize a.
Proof. unfold Pool_allocate. case_match; by intros [= _ <-]. Qed.

#[local] Instance Pool_laws_at : PoolLaws PoolAllocator.
Proof.
  refine {| live := Pool_live; pool_inv := Pool_inv_at |}.
  - intros a req p a' [Ha Hc] E. destruct (Pool_config_allocate a req _ a' E) as (E1 & E2 & E3).
    pose proof (Pool_allocate_live a req p a' Ha E). unfold Pool_inv_at. rewrite E1, E2, E3. tauto.
  - intros a req a' [Ha Hc] E. by apply Pool_allocate_fails in E as [-> _].
  - intros a p [Ha Hc] Hp. destruct (Pool_deallocate_live a p Ha Hp) as [? ?]. split; [done|].
    split; [done|]. change (deallocate a p) with (Pool_deallocate a p). unfold Pool_deallocate. by case_match.
Defined.

#[local] Instance Pool_capacity_at : PoolCapacity PoolAllocator block_size (pool_size / block_size).
Proof.
  intros a req a' (Ha & _ & Hs & Hb) Hreq E. apply Pool_allocate_fails in E as [_ [Hf|Hf]]; [|lia|done].
  simpl. rewrite <-(used_is_live a Ha). pose proof (pi_used a Ha) as Hu. rewrite Hf in Hu. simpl in Hu.
  unfold NumBlocks in Hu. rewrite Hs, Hb in Hu. lia.
Defined.

#[local] Instance Pool_refill_at req : req <= block_size -> PoolRefill PoolAllocator req.
Proof.
  intros Hreq a p (Ha & _ & _ & Hb) Hp. cbn. unfold Pool_deallocate, Pool_allocate.
  destruct (Z.eqb_spec p 0) as [->|Hz].
  { exfalso. cbn in Hp. unfold Pool_live in Hp. rewrite elem_of_difference, !elem_of_list_to_set in Hp.
    destruct Hp as [Hp _]. by apply (block_addrs_nonzero _ _ _ (pi_base a Ha) (pi_size a Ha)) in Hp. }
  cbn [free_list_ BlockSize]. rewrite Hb. destruct (Z.eqb_spec p 0); [done|].
  by destruct (Z.ltb_spec block_size req); [lia|].
Defined.

End configured.

(** ** Initialisation *)

Definition link_blocks (base size : Z) (k : nat) (h : NextHeap) : NextHeap :=
  fold_left (fun h i => <[block_addr base size i := block_addr base size (i + 1)]> h) (seq 0 k) h.

Lemma link_blocks_lookup base size k i :
  0 < size -> (i < k)%nat ->
  link_blocks base size k ∅ !! block_addr base size i = Some (block_addr base size (i + 1)).
Proof.
  intros Hs. induction k as [|k IH]; intros Hi; [lia|]. unfold link_blocks.
  rewrite seq_S, fold_left_app. simpl. destruct (decide (i = k)) as [->|].
  - by rewrite lookup_insert_eq.
  - rewrite lookup_insert_ne by (unfold block_addr; nia). apply IH. lia.
Qed.

Lemma init_chain h base size n i :
  0 < base -> 0 < size ->
  (forall j, (i <= j)%nat -> (S j < n + i)%nat ->
    h !! block_addr base size j = Some (block_addr base size (j + 1))) ->
  ((0 < n)%nat -> h !! block_addr base size (n + i - 1) = Some 0) -> (0 < n)%nat ->
  chain h (block_addr base size i) (block_addr base size <$> seq i n).
Proof.
  intros Hb Hs. revert i. induction n as [|n IH]; intros i Hj Hl Hn; [lia|].
  simpl. split_and!; [done|unfold block_addr; nia|].
  destruct (decide (n = 0%nat)) as [->|].
  - exists 0. split; [|done]. rewrite <-Hl by lia. f_equal. f_equal. lia.
  - exists (block_addr base size (S i)). split.
    + rewrite Hj by lia. do 2 f_equal. lia.
    + apply IH; [intros j ? ?; apply Hj; lia| |lia]. intros _. rewrite <-Hl by lia. do 2 f_equal. lia.
Qed.

Lemma PoolAllocator_init_ok base pool_size block_size :
  0 < base -> 0 < block_size -> 1 <= pool_size / block_size <= 0xFFFF ->
  let a := PoolAllocator_init base pool_size block_size in
  Pool_inv a /\ Pool_live a = ∅ /\ free_blocks a = pool_blocks a.
Proof.
  intros Hb Hs Hn a. set (n := Z.to_nat (pool_size / block_size)).
  assert (Hlast : next_ a !! block_addr base block_size (n - 1) = Some 0).
  { unfold a, PoolAllocator_init. simpl. by rewrite lookup_insert_eq. }
  assert (Hlink : forall j, (S j < n)%nat ->
    next_ a !! block_addr base block_size j = Some (block_addr base block_size (j + 1))).
  { intros j Hj. unfold a, PoolAllocator_init. simpl. fold n.
    rewrite lookup_insert_ne by (unfold block_addr; nia).
    apply (link_blocks_lookup base block_size (n - 1)); lia. }
  assert (Hc : chain (next_ a) (free_list_ a) (pool_blocks a)).
  { replace (free_list_ a) with (block_addr base block_size 0) by (unfold block_addr; simpl; lia).
    apply init_chain; try done; [|intros _|change (0 < n)%nat; lia].
    - intros j _ Hj. apply Hlink. change (Z.to_nat (NumBlocks a)) with n in Hj. lia.
    - change (Z.to_nat (NumBlocks a)) with n. by rewrite Nat.add_0_r. }
  assert (Hf : free_blocks a = pool_blocks a).
  { apply free_blocks_chain; [done|]. by rewrite length_pool_blocks. }
  assert (Hlive : Pool_live a = ∅) by (unfold Pool_live; rewrite Hf; apply difference_diag_L).
  split_and!; try done. split; rewrite ?Hf; try done.
  - by apply block_addrs_NoDup.
  - intros p (i & -> & Hi%elem_of_seq)%list_elem_of_fmap.
    change (Z.to_nat (NumBlocks a)) with n in Hi.
    change (pool_base a) with base. change (BlockSize a) with block_size.
    destruct (decide (S i < n)%nat); [by rewrite Hlink|].
    replace i with (n - 1)%nat by lia. by rewrite Hlast.
  - rewrite length_pool_blocks. change (used_ a) with 0. change (NumBlocks a) with (pool_size / block_size). lia.
  - change (used_ a) with 0. change (max_used_ a) with 0.
    change (NumBlocks a) with (pool_size / block_size). lia.
Qed.

(** ** The pool as a state machine *)

(** What a client does: requests of any size, and releases of live blocks. *)
Inductive pool_step : PoolAllocator -> PoolAllocator -> Prop :=
  | ps_allocate a size p a' : Pool_allocate a size = (p, a') -> pool_step a a'
  | ps_deallocate a p : p ∈ Pool_live a -> pool_step a (Pool_deallocate a p).

Lemma pool_step_inv a a' : pool_step a a' -> Pool_inv a ->
  Pool_inv a' /\ pool_blocks a' = pool_blocks a /\ NumBlocks a' = NumBlocks a /\
  BlockSize a' = BlockSize a /\ max_used_ a' = Z.max (max_used_ a) (used_ a').
Proof.
  destruct 1 as [a size [p|] a' E|a p Hp]; intros Ha.
  - assert (BlockSize a' = BlockSize a).
    { revert E. unfold Pool_allocate. case_match; [done|]. by intros [= <- <-]. }
    pose proof (Pool_allocate_step a Ha size p a' E) as (_ & _ & _ & ? & ? & Hm & ?).
    split_and!; done.
  - apply Pool_allocate_fails in E as [-> _]; [|done]. pose proof (pi_max a Ha). split_and!; try done. lia.
  - assert (BlockSize (Pool_deallocate a p) = BlockSize a).
    { unfold Pool_deallocate. by case_match. }
    pose proof (Pool_deallocate_step a Ha p Hp) as (_ & Hu & ? & ? & Hm & ?).
    pose proof (pi_max a Ha). split_and!; try done. lia.
Qed.

(** A run, with all the states it went through, the last one first. *)
Inductive pool_run (a0 : PoolAllocator) : list PoolAllocator -> PoolAllocator -> Prop :=
  | pr_start : pool_run a0 [a0] a0
  | pr_step h a a' : pool_run a0 h a -> pool_step a a' -> pool_run a0 (a' :: h) a'.

(** The greatest number of blocks that were held at the same time. *)
Definition live_peak (h : list PoolAllocator) : Z := foldr (fun a m => Z.max (Z.of_nat (size (Pool_live a))) m) 0 h.

Lemma pool_run_ok base pool_size block_size h a :
  0 < base -> 0 < block_size -> 1 <= pool_size / block_size <= 0xFFFF ->
  pool_run (PoolAllocator_init base pool_size block_size) h a ->
  Pool_inv a /\ pool_blocks a = block_addrs base block_size (Z.to_nat (pool_size / block_size)) /\
  NumBlocks a = pool_size / block_size /\ BlockSize a = block_size /\ max_used_ a = live_peak h.
Proof.
  intros Hb Hs Hn Hr. destruct (PoolAllocator_init_ok base pool_size block_size Hb Hs Hn) as (Hi & Hl & _).
  induction Hr as [|h a a' _ (Ha & Hby & Hny & Hsy & Hm) Hst].
  - split_and!; try done. cbn [live_peak foldr]. rewrite Hl. done.
  - destruct (pool_step_inv a a' Hst Ha) as (Ha' & -> & -> & -> & Em). split_and!; try done.
    cbn [live_peak foldr]. fold (live_peak h). rewrite Em, Hm, (used_is_live a' Ha'). lia.
Qed.

(** C36: whatever requests and releases of held blocks its clients make of a fresh pool of at most 65535 blocks, the
    allocator hands out only blocks of the pool that nobody holds, it refuses a
    request exactly when the block size is exceeded or every block is held, a release makes just that block available, and
    its counters are exact: the used and free numbers of blocks, and as peak the greatest number that were held at the same time. *)
Theorem pool_allocator_is_sound base pool_size block_size h a :
  0 < base -> 0 < block_size -> 1 <= pool_size / block_size <= 0xFFFF ->
  pool_run (PoolAllocator_init base pool_size block_size) h a ->
  getNumUsedBlocks a = Z.of_nat (size (Pool_live a)) /\
  getNumFreeBlocks a = pool_size / block_size - Z.of_nat (size (Pool_live a)) /\
  getPeakNumUsedBlocks a = live_peak h /\
  (forall req p a', Pool_allocate a req = (Some p, a') ->
    req <= block_size /\ (p ∉ Pool_live a) /\ (Pool_live a' = {[p]} ∪ Pool_live a) /\
    exists i, (i < Z.to_nat (pool_size / block_size))%nat /\ p = base + Z.of_nat i * block_size) /\
  (forall req a', Pool_allocate a req = (None, a') -> a' = a /\
    (block_size < req \/ Z.of_nat (size (Pool_live a)) = pool_size / block_size)) /\
  (forall p, p ∈ Pool_live a -> Pool_live (Pool_deallocate a p) = Pool_live a ∖ {[p]}).
Proof.
  intros Hb Hs Hn Hr. destruct (pool_run_ok base pool_size block_size h a Hb Hs Hn Hr) as (Ha & Hblk & Hnum & Hbs & Hpeak).
  pose proof (used_is_live a Ha) as Hu. pose proof (pi_used a Ha) as Hpu. pose proof (pi_max a Ha) as Hm.
  unfold getNumUsedBlocks, getNumFreeBlocks, getPeakNumUsedBlocks.
  rewrite wrap_small by (split; lia). split_and!; try lia.
  - intros req p a' E. pose proof (Pool_allocate_live a req p a' Ha E) as (_ & ? & Hp & ? & _).
    pose proof (Pool_allocate_step a Ha req p a' E) as (? & _). split_and!; try done; [lia|].
    rewrite Hblk in Hp. apply list_elem_of_fmap in Hp as (i & -> & Hi'%elem_of_seq).
    exists i. split; [lia|done].
  - intros req a' E. apply Pool_allocate_fails in E as [-> [Hf|Hf]]; try done; [|split; [done|lia]].
    split; [done|]. right. rewrite Hf in Hpu. simpl in Hpu. lia.
  - intros p Hp. by apply Pool_deallocate_live.
Qed.

Lemma pool_allocator_is_sound_witness :
  let a0 := PoolAllocator_init 4096 640 64 in
  let a1 := snd (Pool_allocate a0 64) in
  let a2 := Pool_deallocate a1 4096 in
  getNumFreeBlocks a2 = 640 / 64 - Z.of_nat (size (Pool_live a2)) /\ getPeakNumUsedBlocks a2 = live_peak [a2; a1; a0].
Proof.
  intros a0 a1 a2. assert (Hr : pool_run a0 [a2; a1; a0] a2).
  { apply (pr_step a0 [a1; a0] a1); [apply (pr_step a0 [a0] a0); [constructor|]|].
    - apply (ps_allocate a0 64 (fst (Pool_allocate a0 64))). reflexivity.
    - apply (ps_deallocate a1 4096). apply (bool_decide_unpack _). vm_compute. exact I. }
  pose proof (pool_allocator_is_sound 4096 640 64 [a2; a1; a0] a2) as H.
  split; apply H; try done.
Defined.

(** ** The quota *)

Section limited_laws.
Context {A : Type} `{PoolLaws A}.

(** A request the underlying pool refuses still counts against the quota. *)
Lemma limited_allocate_leaks_quota (l : LimitedPoolAllocator A) size a' :
  0 <= used_blocks_ l < max_blocks_ l -> max_blocks_ l <= 0xFFFF ->
  allocate (allocator_ l) size = (None, a') ->
  Limited_allocate l size = (None, mkLimited a' (max_blocks_ l) (used_blocks_ l + 1)).
Proof.
  intros Hu Hm E. unfold Limited_allocate. rewrite E.
  destruct (Z.ltb_spec (used_blocks_ l) (max_blocks_ l)); [|lia].
  by rewrite wrap_small by (split; lia).
Qed.

(** The wrapper keeps the laws; its counter never passes the quota, which is
    not zero ([CanIOManager] asks for one block at least). *)
Record Limited_inv (l : LimitedPoolAllocator A) : Prop := {
  li_inner : pool_inv (allocator_ l);
  li_quota : 0 <= used_blocks_ l <= max_blocks_ l;
  li_max : 0 < max_blocks_ l <= 0xFFFF
}.

#[export] Instance Limited_laws : PoolLaws (LimitedPoolAllocator A).
Proof.
  refine {| live := fun l => live (allocator_ l); pool_inv := Limited_inv |}.
  - intros l size p l' Hl E. simpl in E. unfold Limited_allocate in E.
    destruct (Z.ltb_spec (used_blocks_ l) (max_blocks_ l)); [|done].
    destruct (allocate (allocator_ l) size) as [q a'] eqn:Ea. injection E as -> <-.
    apply allocate_some in Ea as (? & ? & ? & ?); [|apply Hl]. split_and!; try done.
    destruct Hl as [? ? ?]. split; cbn [allocator_ used_blocks_ max_blocks_]; [done| |done].
    rewrite wrap_small by (split; lia). lia.
  - intros l size l' Hl E. simpl in E. unfold Limited_allocate in E.
    destruct (Z.ltb_spec (used_blocks_ l) (max_blocks_ l)); [|by injection E as <-].
    destruct (allocate (allocator_ l) size) as [q a'] eqn:Ea. injection E as -> <-.
    apply allocate_none in Ea as (? & ?); [|apply Hl]. split; [done|].
    destruct Hl as [? ? ?]. split; cbn [allocator_ used_blocks_ max_blocks_]; [done| |done].
    rewrite wrap_small by (split; lia). lia.
  - intros l p Hl Hp. simpl. destruct Hl as [Hi ? ?].
    destruct (deallocate_live (allocator_ l) p Hi Hp) as [? ?]. split; [done|].
    unfold Limited_deallocate. split; cbn [allocator_ used_blocks_ max_blocks_]; [done| |done].
    destruct (Z.ltb_spec 0 (used_blocks_ l)); [|lia]. rewrite wrap_small by (split; lia). lia.
Defined.

#[export] Instance Limited_refill req `{!PoolRefill A req} : PoolRefill (LimitedPoolAllocator A) req.
Proof.
  intros l p [Hi Hq Hm] Hp. cbn. unfold Limited_deallocate, Limited_allocate.
  cbn [allocator_ used_blocks_ max_blocks_].
  pose proof (allocate_refill (req := req) (allocator_ l) p Hi Hp) as Hr.
  destruct (allocate _ req) as [q a']. destruct (Z.ltb_spec 0 (used_blocks_ l)).
  - rewrite wrap_small by (split; lia). by destruct (Z.ltb_spec (used_blocks_ l - 1) (max_blocks_ l)); [|lia].
  - by destruct (Z.ltb_spec (used_blocks_ l) (max_blocks_ l)); [|lia].
Defined.

End limited_laws.
