(* ===== verification/PoolClient.v ===== *)
(** * PoolClient: components that share one pool

    Every container of the library keeps its objects in blocks of the node's one
    [IPoolAllocator]. [PoolClient] states what a component has to promise so that
    it can live next to others: an invariant that depends on the pool only through
    its own blocks. Pairs and lists of clients are clients, and a step of one
    client that keeps its promise is a step of the whole. *)

From stdpp Require Import gmap.
From S2P Require Import Prelude PoolAllocator.
Local Open Scope Z_scope.

Class PoolClient (A : Type) `{PoolLaws A} (C : Type) := {
  client_inv : A -> C -> Prop;
  client_owns : C -> gset Z;
  client_pool a c : client_inv a c -> pool_inv a;
  client_live a c : client_inv a c -> client_owns c ⊆ live a;
  client_stable a a' c : client_inv a c -> pool_inv a' -> client_owns c ⊆ live a' -> client_inv a' c
}.

Section clients.
Context {A : Type} `{PoolLaws A}.

(** The live blocks of the other clients. *)
Definition client_foreign {C} `{!PoolClient A C} (a : A) (c : C) : gset Z := live a ∖ client_owns c.

(** The client went from [c] to [c'] and kept its promise. *)
Definition client_step {C} `{!PoolClient A C} (a : A) (c : C) (a' : A) (c' : C) : Prop :=
  client_inv a' c' /\ client_foreign a' c' = client_foreign a c.

Lemma client_step_refl {C} `{!PoolClient A C} a (c : C) : client_inv a c -> client_step a c a c.
Proof. done. Qed.

Lemma client_step_trans {C} `{!PoolClient A C} a1 a2 a3 (c1 c2 c3 : C) :
  client_step a1 c1 a2 c2 -> client_step a2 c2 a3 c3 -> client_step a1 c1 a3 c3.
Proof. intros [_ F1] [I2 F2]. split; [done|]. by rewrite F2. Qed.

#[export] Instance prod_client {C D} `{!PoolClient A C} `{!PoolClient A D} : PoolClient A (C * D).
Proof.
  refine {| client_inv := fun a p => client_inv a p.1 /\ client_inv a p.2 /\ client_owns p.1 ## client_owns p.2;
            client_owns := fun p => client_owns p.1 ∪ client_owns p.2 |}.
  - intros a p (H1 & _). by apply client_pool in H1.
  - intros a p (H1%client_live & H2%client_live & _). set_solver.
  - intros a a' p (H1 & H2 & Hd) Ha Hl. split_and!; [apply (client_stable a)|apply (client_stable a)|done]; try done; set_solver.
Defined.

(** The blocks of a client survive the step of a disjoint one. *)
Lemma step_keeps {C D} `{!PoolClient A C} `{!PoolClient A D} a (c : C) (d : D) a' c' :
  client_inv a (c, d) -> client_step a c a' c' ->
  client_inv a' d /\ client_owns c' ## client_owns d.
Proof.
  intros (_ & Hd & Hdis) [Hi Hf]. cbn in *. pose proof (client_live a d Hd) as Hl.
  assert (Hsub : client_owns d ⊆ client_foreign a' c').
  { rewrite Hf. unfold client_foreign. set_solver. }
  unfold client_foreign in Hsub. split; [|set_solver].
  apply (client_stable a); [done|by apply client_pool in Hi|set_solver].
Qed.

Lemma prod_step_l {C D} `{!PoolClient A C} `{!PoolClient A D} a (c : C) (d : D) a' c' :
  client_inv a (c, d) -> client_step a c a' c' -> client_step a (c, d) a' (c', d).
Proof.
  intros Hi Hs. destruct (step_keeps a c d a' c' Hi Hs) as [Hd Hdis].
  destruct Hi as (Hic & Hid & Hdis0), Hs as [Hi' Hf]. cbn in *. split; [done|].
  unfold client_foreign in *. cbn. rewrite <-!difference_difference_l_L, Hf. done.
Qed.

Lemma prod_step_r {C D} `{!PoolClient A C} `{!PoolClient A D} a (c : C) (d : D) a' d' :
  client_inv a (c, d) -> client_step a d a' d' -> client_step a (c, d) a' (c, d').
Proof.
  intros (Hic & Hid & Hdis) Hs. cbn in *.
  assert (Hi : client_inv a (d, c)) by (split_and!; [done|done|by symmetry]).
  destruct (step_keeps a d c a' d' Hi Hs) as [Hc Hdis']. destruct Hs as [Hi' Hf].
  split; [split_and!; [done|done|by symmetry]|]. unfold client_foreign in *. cbn.
  rewrite (union_comm_L (client_owns c) (client_owns d')), (union_comm_L (client_owns c) (client_owns d)).
  rewrite <-!difference_difference_l_L, Hf. done.
Qed.

(** A list of clients. *)
Fixpoint list_inv {C} `{!PoolClient A C} (a : A) (l : list C) : Prop :=
  match l with
  | [] => pool_inv a
  | c :: l => client_inv a c /\ list_inv a l /\ client_owns c ## ⋃ (client_owns <$> l)
  end.

#[export] Instance list_client {C} `{!PoolClient A C} : PoolClient A (list C).
Proof.
  refine {| client_inv := list_inv; client_owns := fun l => ⋃ (client_owns <$> l) |}.
  - intros a l Hl. destruct l as [|c l]; [done|]. destruct Hl as (Hc & _). by apply client_pool in Hc.
  - intros a l. induction l as [|c l IH]; cbn; [set_solver|]. intros (Hc%client_live & Hl & _). set_solver.
  - intros a a' l. induction l as [|c l IH]; cbn; [done|]. intros (Hc & Hl & Hd) Ha Hs.
    split_and!; [apply (client_stable a); [done|done|set_solver]|apply IH; [done|done|set_solver]|done].
Defined.

(** A non-empty list behaves like a pair. *)
Lemma list_step_head {C} `{!PoolClient A C} a (c : C) l a' c' :
  client_inv a (c :: l) -> client_step a c a' c' -> client_step a (c :: l) a' (c' :: l).
Proof. intros Hi Hs. exact (prod_step_l a c l a' c' Hi Hs). Qed.

Lemma list_step_tail {C} `{!PoolClient A C} a (c : C) l a' l' :
  client_inv a (c :: l) -> client_step a l a' l' -> client_step a (c :: l) a' (c :: l').
Proof. intros Hi Hs. exact (prod_step_r a c l a' l' Hi Hs). Qed.

End clients.
