(* ===== verification/TransferBuffer.v ===== *)
(** * TransferBuffer: reassembly buffers

    Models [libuavcan/include/uavcan/transport/transfer_buffer.hpp] and
    [src/transport/uc_transfer_buffer.cpp]: the static buffer, the block chain
    buffer [TransferBufferManagerEntry], and the buffer manager with its
    accessor. Lists of blocks and buffers are at the list level of LinkedList,
    each element with its address; the allocator is any implementation of the
    interface of PoolAllocator and its state is passed along. Both kinds of
    buffers are proved to implement one abstract byte sequence. *)

From stdpp Require Import gmap.
From S2P Require Import Prelude Transfer LinkedList PoolAllocator.
Local Open Scope Z_scope.

(** [offset + len] of the [unsigned] arguments, clamped the way [read] and
    [write] do: the length to transfer when [limit] is the end. *)
Definition clamp_len (offset len limit : Z) : Z :=
  if limit <? u32 (offset + len) then u32 (limit - offset) else len.

(** ** Static buffer *)

Record StaticTransferBufferImpl := mkStatic {
  sb_data_ : list Z;
  sb_size_ : Z;
  sb_max_write_pos_ : Z
}.

(** [StaticTransferBufferImpl(uint8_t* buf, uint16_t buf_size)]. *)
Definition Static_init (buf : list Z) (buf_size : Z) : StaticTransferBufferImpl :=
  mkStatic buf buf_size 0.

(** The memory after [copy(src, src + n, dst + offset)]. *)
Fixpoint overlay (k : nat) (src dst : list Z) : list Z :=
  match dst with
  | [] => []
  | d :: dst =>
    match k with
    | S k => d :: overlay k src dst
    | O => match src with
           | [] => d :: dst
           | s :: src => s :: overlay 0 src dst
           end
    end
  end.

(** [int StaticTransferBufferImpl::read(unsigned, uint8_t*, unsigned) const]:
    the result and the bytes stored to [data]. *)
Definition Static_read (b : StaticTransferBufferImpl) (data_null : bool) (offset len : Z) : Z * list Z :=
  if data_null then (- ErrInvalidParam, [])
  else if sb_max_write_pos_ b <=? offset then (0, [])
  else
    let len := clamp_len offset len (sb_max_write_pos_ b) in
    (len, take (Z.to_nat len) (drop (Z.to_nat offset) (sb_data_ b))).

(** [int StaticTransferBufferImpl::write(unsigned, const uint8_t*, unsigned)];
    [data] is [None] for a null pointer. *)
Definition Static_write (b : StaticTransferBufferImpl) (offset : Z) (data : option (list Z)) (len : Z)
    : Z * StaticTransferBufferImpl :=
  match data with
  | None => (- ErrInvalidParam, b)
  | Some data =>
    if sb_size_ b <=? offset then (0, b)
    else
      let len := clamp_len offset len (sb_size_ b) in
      (len, mkStatic (overlay (Z.to_nat offset) (take (Z.to_nat len) data) (sb_data_ b)) (sb_size_ b)
              (Z.max (u16 (offset + len)) (sb_max_write_pos_ b)))
  end.

(** [void StaticTransferBufferImpl::reset()]. *)
Definition Static_reset (b : StaticTransferBufferImpl) : StaticTransferBufferImpl :=
  mkStatic (sb_data_ b) (sb_size_ b) 0.

(** ** Keys *)

Record TransferBufferManagerKey := mkKey {
  key_node_id_ : Z;
  key_transfer_type_ : Z
}.

#[global] Instance TransferBufferManagerKey_eq_dec : EqDecision TransferBufferManagerKey.
Proof. solve_decision. Defined.

(** The default constructor: an empty key. *)
Definition Key_default : TransferBufferManagerKey := mkKey NodeID.default 0.
(** [TransferBufferManagerKey(NodeID, TransferType)]. *)
Definition Key_make (node_id : Z) (ttype : TransferType) : TransferBufferManagerKey :=
  mkKey node_id (u8 (TransferType_val ttype)).
(** [operator==]. *)
Definition Key_eqb (a b : TransferBufferManagerKey) : bool :=
  (key_node_id_ a =? key_node_id_ b) && (key_transfer_type_ a =? key_transfer_type_ b).
Definition Key_isEmpty (k : TransferBufferManagerKey) : bool := negb (NodeID.isValid (key_node_id_ k)).

(** ** Blocks *)

(** [Block::read]: the bytes stored through [outptr], [total_offset] and
    [left_to_read] after the loop. *)
Fixpoint Block_read (data : list Z) (target_offset total_offset left_to_read : Z) : list Z * Z * Z :=
  match data with
  | [] => ([], total_offset, left_to_read)
  | d :: data =>
    if 0 <? left_to_read then
      if target_offset <=? total_offset then
        let '(out, total, rest) :=
          Block_read data target_offset (u32 (total_offset + 1)) (u32 (left_to_read - 1)) in
        (d :: out, total, rest)
      else Block_read data target_offset (u32 (total_offset + 1)) left_to_read
    else ([], total_offset, left_to_read)
  end.

(** [Block::write]: the data of the block, the rest of the input,
    [total_offset] and [left_to_write] after the loop. *)
Fixpoint Block_write (data inp : list Z) (target_offset total_offset left_to_write : Z)
    : list Z * list Z * Z * Z :=
  match data with
  | [] => ([], inp, total_offset, left_to_write)
  | d :: data =>
    if 0 <? left_to_write then
      if target_offset <=? total_offset then
        let '(data, inp', total, rest) :=
          Block_write data (tail inp) target_offset (u32 (total_offset + 1)) (u32 (left_to_write - 1)) in
        (hd 0 inp :: data, inp', total, rest)
      else
        let '(data, inp', total, rest) :=
          Block_write data inp target_offset (u32 (total_offset + 1)) left_to_write in
        (d :: data, inp', total, rest)
    else (d :: data, inp, total_offset, left_to_write)
  end.

(** ** Block chain buffer *)

Record TransferBufferManagerEntry := mkEntry {
  blocks_ : list (Z * list Z);       (** address and data of every block *)
  max_write_pos_ : Z;
  max_size_ : Z;
  key_ : TransferBufferManagerKey
}.

(** The loop of [read] over the chain. *)
Fixpoint read_blocks (blocks : list (Z * list Z)) (offset total_offset left_to_read : Z) : list Z * Z :=
  match blocks with
  | [] => ([], left_to_read)
  | (_, data) :: blocks =>
    let '(out, total, rest) := Block_read data offset total_offset left_to_read in
    if rest =? 0 then (out, rest)
    else let '(out', rest') := read_blocks blocks offset total rest in (out ++ out', rest')
  end.

(** [int TransferBufferManagerEntry::read(unsigned, uint8_t*, unsigned) const]. *)
Definition Entry_read (e : TransferBufferManagerEntry) (data_null : bool) (offset len : Z) : Z * list Z :=
  if data_null then (- ErrInvalidParam, [])
  else if max_write_pos_ e <=? offset then (0, [])
  else
    let len := clamp_len offset len (max_write_pos_ e) in
    let '(out, _) := read_blocks (blocks_ e) offset 0 len in
    (len, out).

(** The first loop of [write]: the part that is already allocated. *)
Fixpoint write_blocks (blocks : list (Z * list Z)) (inp : list Z) (offset total_offset left_to_write : Z)
    : list (Z * list Z) * list Z * Z * Z :=
  match blocks with
  | [] => ([], inp, total_offset, left_to_write)
  | (p, data) :: blocks =>
    let '(data', inp', total, rest) := Block_write data inp offset total_offset left_to_write in
    if rest =? 0 then ((p, data') :: blocks, inp', total, rest)
    else
      let '(blocks', inp'', total', rest') := write_blocks blocks inp' offset total rest in
      ((p, data') :: blocks', inp'', total', rest')
  end.

Section entry.
Context {A : Type} `{IPoolAllocator A}.
(** [sizeof(Block)], [sizeof(TransferBufferManagerEntry)]. *)
Context (sizeof_Block sizeof_Entry : Z).

(** The second loop of [write]: new blocks until all data is written or the
    allocator refuses. [junk p] is what the memory at [p] holds when the block
    is placed there. *)
Fixpoint append_blocks (fuel : nat) (junk : Z -> list Z) (a : A) (blocks : list (Z * list Z))
    (inp : list Z) (offset total_offset left_to_write : Z) : option (A * list (Z * list Z) * Z) :=
  match fuel with
  | O => None
  | S fuel =>
    if 0 <? left_to_write then
      match allocate a sizeof_Block with
      | (None, a) => Some (a, blocks, left_to_write)
      | (Some p, a) =>
        let '(data, inp', total, rest) := Block_write (junk p) inp offset total_offset left_to_write in
        append_blocks fuel junk a (blocks ++ [(p, data)]) inp' offset total rest
      end
    else Some (a, blocks, left_to_write)
  end.

(** [int TransferBufferManagerEntry::write(unsigned, const uint8_t*, unsigned)].
    The second loop adds at most one block per byte up to [offset + len]. *)
Definition Entry_write (junk : Z -> list Z) (a : A) (e : TransferBufferManagerEntry)
    (offset : Z) (data : option (list Z)) (len : Z) : Z * A * TransferBufferManagerEntry :=
  match data with
  | None => (- ErrInvalidParam, a, e)
  | Some data =>
    if max_size_ e <=? offset then (0, a, e)
    else
      let len := clamp_len offset len (max_size_ e) in
      let '(blocks, inp, total, rest) := write_blocks (blocks_ e) data offset 0 len in
      let '(a, blocks, rest) :=
        default (a, blocks, rest)
          (append_blocks (S (Z.to_nat (offset + len))) junk a blocks inp offset total rest) in
      let actually_written := u32 (len - rest) in
      (actually_written, a,
       mkEntry blocks (Z.max (u16 (offset + actually_written)) (max_write_pos_ e)) (max_size_ e) (key_ e))
  end.

(** [void TransferBufferManagerEntry::reset(const TransferBufferManagerKey&)]. *)
Definition Entry_reset (a : A) (e : TransferBufferManagerEntry) (key : TransferBufferManagerKey)
    : A * TransferBufferManagerEntry :=
  (fold_left deallocate (blocks_ e).*1 a, mkEntry [] 0 (max_size_ e) key).

(** [TransferBufferManagerEntry::instantiate]. *)
Definition Entry_instantiate (a : A) (max_size : Z) : option (Z * TransferBufferManagerEntry) * A :=
  match allocate a sizeof_Entry with
  | (None, a) => (None, a)
  | (Some p, a) => (Some (p, mkEntry [] 0 max_size Key_default), a)
  end.

(** [TransferBufferManagerEntry::destroy]: the destructor resets the buffer,
    then its memory goes back. *)
Definition Entry_destroy (a : A) (p : Z) (e : TransferBufferManagerEntry) : A :=
  deallocate (fst (Entry_reset a e Key_default)) p.

(** ** Buffer manager *)

Record TransferBufferManager := mkBufMgr {
  buffers_ : list (Z * TransferBufferManagerEntry);
  max_buf_size_ : Z
}.

(** [TransferBufferManager::findFirst]: the address of the first buffer with
    the key. *)
Fixpoint findFirst (buffers : list (Z * TransferBufferManagerEntry)) (key : TransferBufferManagerKey)
    : option (Z * TransferBufferManagerEntry) :=
  match buffers with
  | [] => None
  | (p, e) :: buffers => if Key_eqb (key_ e) key then Some (p, e) else findFirst buffers key
  end.

(** [TransferBufferManager::access]. *)
Definition BufMgr_access (m : TransferBufferManager) (key : TransferBufferManagerKey) : option Z :=
  if Key_isEmpty key then None else fst <$> findFirst (buffers_ m) key.

(** [TransferBufferManager::remove]. *)
Definition BufMgr_remove (a : A) (m : TransferBufferManager) (key : TransferBufferManagerKey)
    : A * TransferBufferManager :=
  match findFirst (buffers_ m) key with
  | None => (a, m)
  | Some (p, e) =>
    let buffers := remove_first (fun q => p =? q.1) (buffers_ m) in
    (Entry_destroy a p e, mkBufMgr buffers (max_buf_size_ m))
  end.

(** [TransferBufferManager::create]. *)
Definition BufMgr_create (a : A) (m : TransferBufferManager) (key : TransferBufferManagerKey)
    : option Z * A * TransferBufferManager :=
  if Key_isEmpty key then (None, a, m)
  else
    let '(a, m) := BufMgr_remove a m key in
    match Entry_instantiate a (max_buf_size_ m) with
    | (None, a) => (None, a, m)
    | (Some (p, tbme), a) =>
      let buffers := remove_first (fun q => p =? q.1) (buffers_ m) in
      let '(a, tbme) := Entry_reset a tbme key in
      (Some p, a, mkBufMgr ((p, tbme) :: buffers) (max_buf_size_ m))
    end.

(** [TransferBufferManager::~TransferBufferManager()]. *)
Definition BufMgr_destroy (a : A) (m : TransferBufferManager) : A :=
  fold_left (fun a pe => Entry_destroy a pe.1 pe.2) (buffers_ m) a.

Definition getNumBuffers (m : TransferBufferManager) : Z := Z.of_nat (length (buffers_ m)).
Definition BufMgr_isEmpty (m : TransferBufferManager) : bool := getNumBuffers m =? 0.

(** The buffer at an address. *)
Definition buffer_at (m : TransferBufferManager) (p : Z) : option TransferBufferManagerEntry :=
  snd <$> List.find (fun q => p =? q.1) (buffers_ m).

(** [write] through a buffer pointer of the manager. *)
Definition BufMgr_write (junk : Z -> list Z) (a : A) (m : TransferBufferManager) (p : Z)
    (offset : Z) (data : list Z) (len : Z) : Z * A * TransferBufferManager :=
  match buffer_at m p with
  | None => (- ErrLogic, a, m)
  | Some e =>
    let '(res, a, e) := Entry_write junk a e offset (Some data) len in
    (res, a, mkBufMgr ((fun q => if p =? q.1 then (p, e) else q) <$> buffers_ m) (max_buf_size_ m))
  end.

End entry.

(** ** Lemmas: copying *)

Lemma length_overlay k src dst : length (overlay k src dst) = length dst.
Proof.
  revert k src. induction dst as [|d dst IH]; intros [|k] [|s src]; simpl; auto.
Qed.

Lemma overlay_nil k dst : overlay k [] dst = dst.
Proof. revert k. induction dst as [|d dst IH]; intros [|k]; simpl; by rewrite ?IH. Qed.

Lemma overlay_app k src a b :
  overlay k src (a ++ b) =
  overlay k src a ++ overlay (k - length a) (drop (length a - k) src) b.
Proof.
  revert k src. induction a as [|x a IH]; intros k src; simpl.
  - by rewrite Nat.sub_0_r.
  - destruct k as [|k]; simpl; [|by rewrite IH].
    destruct src as [|s src]; simpl; [by rewrite overlay_nil|].
    rewrite IH, Nat.sub_0_r. by rewrite Nat.sub_0_l.
Qed.

Lemma overlay_take_drop k src dst :
  (k + length src <= length dst)%nat ->
  overlay k src dst = take k dst ++ src ++ drop (k + length src) dst.
Proof.
  revert k src. induction dst as [|d dst IH]; intros k src Hl; simpl in *.
  - destruct k, src; simpl in *; lia || done.
  - destruct k as [|k]; simpl.
    + destruct src as [|s src]; [done|]. simpl in *. rewrite IH by lia. by rewrite take_0.
    + by rewrite IH by lia.
Qed.

(** Only what fits is copied. *)
Lemma overlay_truncate k src dst :
  overlay k src dst = overlay k (take (length dst - k) src) dst.
Proof.
  revert k src. induction dst as [|d dst IH]; intros [|k] src; simpl; try done.
  - destruct src as [|s src]; [done|]. simpl. by rewrite (IH 0%nat src), Nat.sub_0_r.
  - by rewrite IH.
Qed.

(** ** Lemmas: the loops over blocks *)

(** What the loops assume of their [unsigned] counters: they do not overflow. *)
Definition counters_ok (n : nat) (total rest : Z) : Prop :=
  0 <= total /\ total + Z.of_nat n < 2 ^ 32 /\ 0 <= rest < 2 ^ 32.

Lemma u32_small x : 0 <= x < 2 ^ 32 -> u32 x = x.
Proof. apply wrap_small. Qed.

Lemma Block_read_ok data target total rest :
  counters_ok (length data) total rest ->
  let out := take (Z.to_nat rest) (drop (Z.to_nat (target - total)) data) in
  exists total', Block_read data target total rest = (out, total', rest - Z.of_nat (length out)) /\
    (0 < rest - Z.of_nat (length out) -> total' = total + Z.of_nat (length data)).
Proof.
  cbv zeta. revert total rest.
  induction data as [|d data IH]; intros total rest (H0 & H1 & H2); simpl in H1.
  - exists total. rewrite drop_nil, take_nil. simpl. rewrite !Z.sub_0_r, Z.add_0_r. done.
  - cbn [Block_read]. destruct (Z.ltb_spec 0 rest) as [Hr|Hr].
    + destruct (Z.leb_spec target total) as [Ht|Ht].
      * rewrite !u32_small by lia.
        destruct (IH (total + 1) (rest - 1)) as (total' & -> & HT); [split_and!; lia|].
        exists total'. replace (Z.to_nat (target - total)) with 0%nat by lia.
        replace (Z.to_nat (target - (total + 1))) with 0%nat in * by lia.
        replace (Z.to_nat rest) with (S (Z.to_nat (rest - 1))) by lia.
        rewrite !drop_0 in *. cbn [take length]. split; [f_equal; lia|].
        intros Hpos. rewrite HT by lia. lia.
      * rewrite u32_small by lia.
        destruct (IH (total + 1) rest) as (total' & -> & HT); [split_and!; lia|].
        exists total'. replace (Z.to_nat (target - total)) with (S (Z.to_nat (target - (total + 1)))) by lia.
        cbn [drop length]. split; [done|]. intros Hpos. rewrite HT by lia. lia.
    + exists total. replace rest with 0 by lia. change (Z.to_nat 0) with 0%nat. rewrite take_0. simpl.
      split; [done|lia].
Qed.

Lemma Block_write_ok data inp target total rest :
  counters_ok (length data) total rest -> (Z.to_nat rest <= length inp)%nat ->
  let w := Nat.min (Z.to_nat rest) (length data - Z.to_nat (target - total)) in
  exists total', Block_write data inp target total rest =
    (overlay (Z.to_nat (target - total)) (take (Z.to_nat rest) inp) data,
     drop w inp, total', rest - Z.of_nat w) /\
    (0 < rest - Z.of_nat w -> total' = total + Z.of_nat (length data)).
Proof.
  revert inp total rest. induction data as [|d data IH]; intros inp total rest (H0 & H1 & H2) Hl w; simpl in H1.
  - exists total. unfold w. simpl. rewrite Nat.min_0_r. simpl. rewrite drop_0, Z.sub_0_r, Z.add_0_r. done.
  - cbn [Block_write]. destruct (Z.ltb_spec 0 rest) as [Hr|Hr].
    + destruct (Z.leb_spec target total) as [Ht|Ht].
      * destruct inp as [|x inp]; [simpl in Hl; lia|]. simpl in Hl. cbn [tail hd].
        rewrite !u32_small by lia.
        destruct (IH inp (total + 1) (rest - 1)) as (total' & -> & HT); [split_and!; lia|lia|].
        exists total'. unfold w. replace (Z.to_nat (target - total)) with 0%nat by lia.
        replace (Z.to_nat (target - (total + 1))) with 0%nat in * by lia.
        replace (Z.to_nat rest) with (S (Z.to_nat (rest - 1))) by lia.
        rewrite !Nat.sub_0_r in *. cbn [take length overlay Nat.min drop]. split; [f_equal; lia|].
        intros Hpos. rewrite HT by lia. lia.
      * rewrite u32_small by lia.
        destruct (IH inp (total + 1) rest) as (total' & -> & HT); [split_and!; lia|lia|].
        exists total'. unfold w.
        replace (Z.to_nat (target - total)) with (S (Z.to_nat (target - (total + 1)))) by lia.
        cbn [length overlay Nat.sub]. split; [done|]. intros Hpos. rewrite HT by lia. lia.
    + exists total. unfold w. replace rest with 0 by lia. simpl Z.to_nat. rewrite take_0, overlay_nil.
      simpl. rewrite drop_0. split; [done|lia].
Qed.

(** The bytes of a chain of blocks. *)
Definition flat (blocks : list (Z * list Z)) : list Z := concat blocks.*2.

Lemma flat_cons p data blocks : flat ((p, data) :: blocks) = data ++ flat blocks.
Proof. done. Qed.

Lemma flat_app b1 b2 : flat (b1 ++ b2) = flat b1 ++ flat b2.
Proof. unfold flat. by rewrite fmap_app, concat_app. Qed.

Lemma read_blocks_ok blocks target total rest :
  counters_ok (length (flat blocks)) total rest ->
  let out := take (Z.to_nat rest) (drop (Z.to_nat (target - total)) (flat blocks)) in
  read_blocks blocks target total rest = (out, rest - Z.of_nat (length out)).
Proof.
  revert total rest. induction blocks as [|[p data] blocks IH]; intros total rest (H0 & H1 & H2) out.
  - unfold out, flat. simpl. rewrite drop_nil, take_nil. simpl. by rewrite Z.sub_0_r.
  - rewrite flat_cons, length_app in H1. cbn [read_blocks].
    destruct (Block_read_ok data target total rest) as (total' & -> & HT); [split_and!; lia|].
    set (o := take (Z.to_nat rest) (drop (Z.to_nat (target - total)) data)) in *.
    assert (Ho : length o = Nat.min (Z.to_nat rest) (length data - Z.to_nat (target - total))).
    { unfold o. by rewrite length_take, length_drop. }
    assert (Hout : out = o ++ take (Z.to_nat (rest - Z.of_nat (length o)))
      (drop (Z.to_nat (target - (total + Z.of_nat (length data)))) (flat blocks))).
    { unfold out. rewrite flat_cons, drop_app, take_app. f_equal. rewrite length_drop.
      rewrite Ho. f_equal; [lia|f_equal; lia]. }
    destruct (Z.eqb_spec (rest - Z.of_nat (length o)) 0) as [E|E].
    + rewrite Hout, E. simpl. rewrite take_0, app_nil_r. by rewrite E.
    + rewrite HT by lia. rewrite IH by (split_and!; lia). rewrite Hout, length_app. f_equal. lia.
Qed.

Lemma write_blocks_ok blocks inp target total rest :
  counters_ok (length (flat blocks)) total rest -> (Z.to_nat rest <= length inp)%nat ->
  let w := Nat.min (Z.to_nat rest) (length (flat blocks) - Z.to_nat (target - total)) in
  exists blocks' total', write_blocks blocks inp target total rest =
    (blocks', drop w inp, total', rest - Z.of_nat w) /\
    flat blocks' = overlay (Z.to_nat (target - total)) (take (Z.to_nat rest) inp) (flat blocks) /\
    blocks'.*1 = blocks.*1 /\ (length <$> blocks'.*2) = (length <$> blocks.*2) /\
    (0 < rest - Z.of_nat w -> total' = total + Z.of_nat (length (flat blocks))).
Proof.
  revert inp total rest.
  induction blocks as [|[p data] blocks IH]; intros inp total rest (H0 & H1 & H2) Hl w.
  - exists [], total. unfold w. simpl. rewrite Nat.min_0_r. simpl. rewrite drop_0, Z.sub_0_r, Z.add_0_r.
    done.
  - rewrite flat_cons, length_app in H1. cbn [write_blocks].
    destruct (Block_write_ok data inp target total rest) as (total' & -> & HT); [split_and!; lia|done|].
    set (w1 := Nat.min (Z.to_nat rest) (length data - Z.to_nat (target - total))) in *.
    assert (Hw : w = (w1 + Nat.min (Z.to_nat (rest - Z.of_nat w1))
      (length (flat blocks) - Z.to_nat (target - (total + Z.of_nat (length data)))))%nat).
    { unfold w, w1. rewrite flat_cons, length_app. lia. }
    rewrite flat_cons, overlay_app.
    destruct (Z.eqb_spec (rest - Z.of_nat w1) 0) as [E|E].
    + exists ((p, overlay (Z.to_nat (target - total)) (take (Z.to_nat rest) inp) data) :: blocks), total'.
      rewrite E in Hw. simpl in Hw. rewrite Nat.add_0_r in Hw. rewrite Hw. split; [done|].
      split_and!; [|done| |lia].
      * rewrite flat_cons. f_equal. rewrite drop_ge; [by rewrite overlay_nil|].
        rewrite length_take. lia.
      * simpl. by rewrite length_overlay.
    + rewrite HT by lia.
      destruct (IH (drop w1 inp) (total + Z.of_nat (length data)) (rest - Z.of_nat w1))
        as (blocks' & total'' & -> & Hf & Hp & Hlen & HT'); [split_and!; lia|rewrite length_drop; lia|].
      eexists _, total''. split; [|split; [|split; [|split]]].
      * rewrite drop_drop, Hw. f_equal; lia.
      * rewrite flat_cons, Hf. f_equal. f_equal; [lia|].
        replace (length data - Z.to_nat (target - total))%nat with w1 by lia.
        rewrite skipn_firstn_comm. f_equal. lia.
      * rewrite !fmap_cons. by rewrite Hp.
      * rewrite !fmap_cons. cbn [snd]. by rewrite length_overlay, Hlen.
      * intros Hpos. rewrite HT' by lia. rewrite length_app. lia.
Qed.

Lemma Forall_lengths B (blocks : list (Z * list Z)) :
  Forall (fun pd => length (snd pd) = B) blocks <-> Forall (fun n => n = B) (length <$> blocks.*2).
Proof. by rewrite <-list_fmap_compose, Forall_fmap. Qed.

Lemma clamp_len_ok offset len limit :
  0 <= offset < limit -> 0 <= len -> offset + len < 2 ^ 32 -> limit <= 0xFFFF ->
  clamp_len offset len limit = Z.min len (limit - offset).
Proof.
  intros. unfold clamp_len. rewrite !u32_small by lia.
  destruct (Z.ltb_spec limit (offset + len)); lia.
Qed.

(** ** The abstract buffer

    The content of a buffer is the bytes up to the highest position written.
    [buf_write] is what a write at or before its end does when [w] bytes are
    taken over. *)
Definition buf_write (content : list Z) (offset : Z) (data : list Z) (w : Z) : list Z :=
  take (Z.to_nat offset) content ++ take (Z.to_nat w) data ++ drop (Z.to_nat (offset + w)) content.

Definition buf_read (content : list Z) (offset len : Z) : list Z :=
  take (Z.to_nat len) (drop (Z.to_nat offset) content).

Definition Static_content (b : StaticTransferBufferImpl) : list Z :=
  take (Z.to_nat (sb_max_write_pos_ b)) (sb_data_ b).

Definition Entry_content (e : TransferBufferManagerEntry) : list Z :=
  take (Z.to_nat (max_write_pos_ e)) (flat (blocks_ e)).

Record Static_wf (b : StaticTransferBufferImpl) : Prop := {
  swf_data : Z.of_nat (length (sb_data_ b)) = sb_size_ b;
  swf_size : sb_size_ b <= 0xFFFF;
  swf_pos : 0 <= sb_max_write_pos_ b <= sb_size_ b
}.

Record Entry_wf (B : nat) (e : TransferBufferManagerEntry) : Prop := {
  ewf_blocks : Forall (fun pd => length (snd pd) = B) (blocks_ e);
  ewf_size : max_size_ e <= 0xFFFF;
  ewf_pos : 0 <= max_write_pos_ e <= max_size_ e;
  ewf_flat : max_write_pos_ e <= Z.of_nat (length (flat (blocks_ e)));
  ewf_bound : Z.of_nat (length (flat (blocks_ e))) < max_size_ e + Z.of_nat B
}.

(** The effect of an in-place write on the content, when it starts no later
    than the end of the content. *)
Lemma content_after_write mem mem' mwp offset data w :
  0 <= offset <= mwp -> 0 <= w -> mwp <= Z.of_nat (length mem) ->
  (Z.to_nat w <= length data)%nat ->
  take (Z.to_nat (offset + w)) mem' = take (Z.to_nat offset) mem ++ take (Z.to_nat w) data ->
  drop (Z.to_nat (offset + w)) mem' = drop (Z.to_nat (offset + w)) mem \/ mwp <= offset + w ->
  take (Z.to_nat (Z.max (offset + w) mwp)) mem' = buf_write (take (Z.to_nat mwp) mem) offset data w.
Proof.
  intros Ho Hw Hm Hd Ht Hdr. unfold buf_write.
  rewrite take_take, Nat.min_l by lia. rewrite app_assoc, <-Ht.
  destruct (decide (mwp <= offset + w)) as [Hle|Hgt].
  - rewrite Z.max_l by lia. rewrite (drop_ge (take _ _)); [by rewrite app_nil_r|].
    rewrite length_take. lia.
  - destruct Hdr as [Hdr|]; [|lia]. rewrite Z.max_r by lia.
    rewrite <-(take_drop (Z.to_nat (offset + w)) mem') at 1.
    rewrite take_app. rewrite take_take, Nat.min_r by lia. f_equal.
    rewrite Hdr, length_take, skipn_firstn_comm. f_equal.
    assert (length (take (Z.to_nat (offset + w)) mem') = Z.to_nat (offset + w)) as Hl.
    { rewrite Ht, length_app, !length_take. lia. }
    rewrite length_take in Hl. lia.
Qed.

Lemma Static_write_ok b offset data len :
  Static_wf b -> 0 <= offset <= sb_max_write_pos_ b -> offset < sb_size_ b ->
  0 <= len -> offset + len < 2 ^ 32 -> (Z.to_nat len <= length data)%nat ->
  let w := Z.min len (sb_size_ b - offset) in
  exists b', Static_write b offset (Some data) len = (w, b') /\ Static_wf b' /\
    sb_size_ b' = sb_size_ b /\
    sb_max_write_pos_ b' = Z.max (offset + w) (sb_max_write_pos_ b) /\
    Static_content b' = buf_write (Static_content b) offset data w.
Proof.
  intros [Hd Hs Hp] Ho Hlt Hl Ho32 Hdata w. unfold Static_write.
  destruct (Z.leb_spec (sb_size_ b) offset); [lia|].
  rewrite clamp_len_ok by lia. fold w. rewrite wrap_small by (split; lia).
  eexists. split; [done|]. unfold Static_content. cbn [sb_data_ sb_size_ sb_max_write_pos_].
  split_and!; try done.
  - split; cbn [sb_data_ sb_size_ sb_max_write_pos_]; [by rewrite length_overlay|done|lia].
  - assert (Hw : length (take (Z.to_nat w) data) = Z.to_nat w) by (rewrite length_take; lia).
    rewrite overlay_take_drop by lia. rewrite Hw.
    apply content_after_write; try lia.
    + rewrite app_assoc, take_app_le, take_ge; [done|..]; rewrite length_app, !length_take; lia.
    + left. rewrite app_assoc, drop_app_ge; rewrite length_app, !length_take by lia; [|lia].
      rewrite drop_drop. f_equal. lia.
Qed.

Lemma Static_read_ok b offset len :
  Static_wf b -> 0 <= offset -> 0 <= len -> offset + len < 2 ^ 32 ->
  let n := Z.max 0 (Z.min len (sb_max_write_pos_ b - offset)) in
  Static_read b false offset len = (n, buf_read (Static_content b) offset n).
Proof.
  intros [Wd Ws Wp] Ho Hl H32 n. unfold Static_read.
  destruct (Z.leb_spec (sb_max_write_pos_ b) offset).
  - replace n with 0 by lia. done.
  - rewrite clamp_len_ok by lia. replace (Z.min len (sb_max_write_pos_ b - offset)) with n by lia.
    f_equal. unfold buf_read, Static_content. rewrite skipn_firstn_comm, take_take. f_equal. lia.
Qed.

Section entry_ok.
Context {A : Type} `{PoolLaws A} (sizeof_Block sizeof_Entry : Z).
(** [Block::Size]; the source asserts it is more than 8. *)
Context (B : nat) (HB : 8 < Z.of_nat B <= 255).

(** The addresses of a group of blocks taken from the pool. *)
Record taken (a a' : A) (ps : list Z) : Prop := {
  tk_inv : pool_inv a';
  tk_live : live a' = list_to_set ps ∪ live a;
  tk_nodup : NoDup ps;
  tk_fresh : forall p, p ∈ ps -> p ∉ live a
}.

Lemma taken_nil a : pool_inv a -> taken a a [].
Proof. intros Ha. split; [done|set_solver|constructor|]. intros p Hp. by apply elem_of_nil in Hp. Qed.

Lemma taken_cons a p a1 a' ps :
  pool_inv a -> allocate a sizeof_Block = (Some p, a1) -> taken a1 a' ps -> taken a a' (p :: ps).
Proof.
  intros Ha E [Hi Hl Hn Hf].
  destruct (allocate_some a sizeof_Block p a1 Ha E) as (_ & Hp & Hl1 & _).
  split; [done| | |].
  - rewrite Hl, Hl1. set_solver.
  - constructor; [|done]. intros Hin. apply (Hf p Hin). set_solver.
  - intros q [->|Hq]%elem_of_cons; [done|]. specialize (Hf q Hq). set_solver.
Qed.

Lemma append_blocks_ok junk fuel a blocks inp offset total rest :
  pool_inv a -> (forall p, length (junk p) = B) ->
  0 <= offset <= Z.of_nat (length (flat blocks)) ->
  (0 < rest -> total = Z.of_nat (length (flat blocks))) ->
  0 <= rest -> (0 < rest -> Z.of_nat (length (flat blocks)) + rest + Z.of_nat B < 2 ^ 32) ->
  (Z.to_nat rest <= length inp)%nat -> (Z.to_nat rest < fuel)%nat ->
  exists a' new w, append_blocks sizeof_Block fuel junk a blocks inp offset total rest =
      Some (a', blocks ++ new, rest - w) /\ 0 <= w <= rest /\
    take (Z.to_nat w) (flat new) = take (Z.to_nat w) inp /\
    w <= Z.of_nat (length (flat new)) < rest + Z.of_nat B /\ (rest = 0 -> new = []) /\
    Forall (fun pd => length (snd pd) = B) new /\ taken a a' new.*1 /\
    (w < rest -> exists a0, pool_inv a0 /\ allocate a0 sizeof_Block = (None, a') /\ live a0 = live a').
Proof.
  intros Ha Hj. revert a blocks inp total rest Ha.
  induction fuel as [|fuel IH]; intros a blocks inp total rest Ha Ho Ht Hr Hb Hl Hf; [lia|].
  cbn [append_blocks]. destruct (Z.ltb_spec 0 rest) as [Hpos|Hz].
  - specialize (Ht Hpos). specialize (Hb Hpos). destruct (allocate a sizeof_Block) as [[p|] a1] eqn:Ea.
    + destruct (allocate_some a _ p a1 Ha Ea) as (_ & Hp & Hl1 & Ha1).
      destruct (Block_write_ok (junk p) inp offset total rest) as (total' & -> & HT);
        [rewrite Hj; split_and!; lia|done|].
      rewrite Hj in *. replace (Z.to_nat (offset - total)) with 0%nat in * by lia.
      rewrite Nat.sub_0_r in *. set (w1 := Nat.min (Z.to_nat rest) B) in *.
      set (data := overlay 0 (take (Z.to_nat rest) inp) (junk p)) in *.
      assert (Hdl : length data = B) by (unfold data; by rewrite length_overlay).
      assert (Hflat : length (flat (blocks ++ [(p, data)])) = (length (flat blocks) + B)%nat).
      { rewrite flat_app, length_app, flat_cons, length_app, Hdl. unfold flat. simpl. lia. }
      destruct (IH a1 (blocks ++ [(p, data)]) (drop w1 inp) total' (rest - Z.of_nat w1) Ha1)
        as (a' & new & w & -> & Hw & Htk & Hwl & Hz & Hnew & Htaken & Hfail);
        rewrite ?Hflat, ?length_drop; try lia.
      exists a', ((p, data) :: new), (Z.of_nat w1 + w).
      assert (Hd1 : take w1 data = take w1 inp).
      { unfold data. rewrite overlay_truncate, Hj, Nat.sub_0_r, take_take.
        rewrite overlay_take_drop; rewrite length_take; rewrite ?Hj; [|lia]. rewrite take_0. simpl.
        rewrite take_app_le by (rewrite length_take; lia). rewrite take_take. f_equal. lia. }
      split_and!; try lia.
      * rewrite <-app_assoc. do 2 f_equal. lia.
      * rewrite flat_cons, Z2Nat.inj_add, Nat2Z.id by lia. rewrite take_app, Hdl.
        destruct (decide (Z.to_nat rest <= B)%nat).
        -- assert (w = 0) as -> by lia. rewrite Nat.add_0_r.
           replace (w1 - B)%nat with 0%nat by lia. by rewrite take_0, app_nil_r, Hd1.
        -- replace (w1 + Z.to_nat w - B)%nat with (Z.to_nat w) by lia. rewrite Htk.
           rewrite (take_ge data) by lia. replace data with (take w1 inp).
           ++ apply take_take_drop.
           ++ rewrite <-Hd1, take_ge; [done|lia].
      * rewrite flat_cons, length_app. lia.
      * rewrite flat_cons, length_app.
        destruct (decide (rest - Z.of_nat w1 = 0)) as [E|E]; [|lia].
        rewrite (Hz E). unfold flat. simpl. lia.
      * by constructor.
      * by eapply taken_cons.
      * intros Hlt. apply Hfail. lia.
    + destruct (allocate_none a _ a1 Ha Ea) as [Hl1 Ha1].
      exists a1, [], 0. rewrite app_nil_r, Z.sub_0_r. split_and!; try lia; try done.
      * unfold flat. simpl. lia.
      * split; [done|by rewrite Hl1; set_solver|constructor|]. intros q Hq. by apply elem_of_nil in Hq.
      * intros _. by exists a.
  - exists a, [], 0. rewrite app_nil_r, Z.sub_0_r. split_and!; try lia; try done.
    + unfold flat. simpl. lia.
    + by apply taken_nil.
Qed.

Lemma Entry_write_ok junk a e offset data len :
  pool_inv a -> (forall p, length (junk p) = B) -> Entry_wf B e ->
  0 <= offset <= max_write_pos_ e -> offset < max_size_ e ->
  0 <= len -> offset + len < 2 ^ 32 -> (Z.to_nat len <= length data)%nat ->
  let n := Z.min len (max_size_ e - offset) in
  exists w a' e' ps, Entry_write sizeof_Block junk a e offset (Some data) len = (w, a', e') /\
    0 <= w <= n /\ Entry_wf B e' /\ max_size_ e' = max_size_ e /\ key_ e' = key_ e /\
    max_write_pos_ e' = Z.max (offset + w) (max_write_pos_ e) /\
    Entry_content e' = buf_write (Entry_content e) offset data w /\
    (blocks_ e').*1 = (blocks_ e).*1 ++ ps /\ taken a a' ps /\
    (w < n -> exists a0, pool_inv a0 /\ allocate a0 sizeof_Block = (None, a') /\ live a0 = live a').
Proof.
  intros Ha Hj [Wb Ws Wp Wf Wbd] Ho Hlt Hl Ho32 Hdata n. unfold Entry_write.
  destruct (Z.leb_spec (max_size_ e) offset); [lia|]. rewrite clamp_len_ok by lia. fold n.
  destruct (write_blocks_ok (blocks_ e) data offset 0 n) as (bl & total & -> & Hfl & Hps & Hlens & HT);
    [split_and!; lia|lia|]. rewrite Z.sub_0_r in *. rewrite Z.add_0_l in HT.
  set (F := flat (blocks_ e)) in *.
  set (w0 := Nat.min (Z.to_nat n) (length F - Z.to_nat offset)) in *.
  assert (Hlen : length (flat bl) = length F) by (by rewrite Hfl, length_overlay).
  destruct (append_blocks_ok junk (S (Z.to_nat (offset + n))) a bl (drop w0 data) offset total
    (n - Z.of_nat w0) Ha Hj) as (a' & new & w & -> & Hw & Htk & Hwl & Hz & Hnew & Htaken & Hfail);
    rewrite ?Hlen, ?length_drop; try lia; try done.
  cbn [from_option id]. rewrite u32_small by lia.
  replace (n - (n - Z.of_nat w0 - w)) with (Z.of_nat w0 + w) by lia.
  rewrite wrap_small by (split; lia).
  eexists (Z.of_nat w0 + w), a', _, new.*1. split; [done|].
  assert (Hmem : w = 0 \/ (offset + Z.of_nat w0 = Z.of_nat (length F))) by lia.
  assert (Hov : flat bl = take (Z.to_nat offset) F ++ take w0 data ++ drop (Z.to_nat offset + w0) F).
  { rewrite Hfl, overlay_truncate, take_take.
    replace (Nat.min (length F - Z.to_nat offset) (Z.to_nat n)) with w0 by (unfold w0; lia).
    rewrite overlay_take_drop; rewrite length_take; [|lia].
    by replace (Nat.min w0 (length data)) with w0 by lia. }
  assert (Hbl : Forall (fun pd => length (snd pd) = B) bl).
  { apply Forall_lengths. rewrite Hlens. by apply Forall_lengths. }
  unfold Entry_content. cbn [blocks_ max_write_pos_ max_size_ key_].
  split_and!; try done; try lia.
  - split; cbn [blocks_ max_write_pos_ max_size_ key_]; rewrite ?flat_app, ?length_app, ?Hlen; try lia.
    + by apply Forall_app.
    + destruct (decide (n - Z.of_nat w0 = 0)) as [E|E]; [|lia].
      rewrite (Hz E). unfold flat. simpl. lia.
  - rewrite flat_app. apply content_after_write; fold F; try lia.
    + replace (Z.to_nat (offset + (Z.of_nat w0 + w))) with (Z.to_nat offset + w0 + Z.to_nat w)%nat by lia.
      replace (Z.to_nat (Z.of_nat w0 + w)) with (w0 + Z.to_nat w)%nat by lia.
      rewrite <-(take_take_drop data). rewrite <-Htk.
      destruct Hmem as [->|Hend].
      * rewrite Nat.add_0_r, take_0, app_nil_r. rewrite take_app_le by (rewrite Hlen; lia).
        rewrite Hov, app_assoc, take_app_le, take_ge; [done|..]; rewrite length_app, !length_take; lia.
      * rewrite take_app_ge by (rewrite Hlen; lia). rewrite Hlen, Hov.
        rewrite (drop_ge F) by lia. rewrite app_nil_r, <-app_assoc. do 3 f_equal. lia.
    + destruct Hmem as [->|Hend]; [|right; lia].
      destruct (decide (Z.of_nat w0 = n)) as [E|E].
      * rewrite (Hz ltac:(lia)). unfold flat at 2. simpl. rewrite app_nil_r. left.
        rewrite Hov, app_assoc, drop_app_ge; rewrite length_app, !length_take by lia; [|lia].
        rewrite drop_drop. f_equal. lia.
      * right. lia.
  - rewrite fmap_app. by rewrite Hps.
  - intros Hlt'. apply Hfail. lia.
Qed.

Lemma length_Entry_content e : Entry_wf B e -> Z.of_nat (length (Entry_content e)) = max_write_pos_ e.
Proof. intros [_ _ Hp Hf _]. unfold Entry_content. rewrite length_take. lia. Qed.

Lemma Entry_read_ok e offset len :
  Entry_wf B e -> 0 <= offset -> 0 <= len -> offset + len < 2 ^ 32 ->
  let n := Z.max 0 (Z.min len (max_write_pos_ e - offset)) in
  Entry_read e false offset len = (n, buf_read (Entry_content e) offset n).
Proof.
  intros [Wb Ws Wp Wf Wbd] Ho Hl H32 n. unfold Entry_read.
  destruct (Z.leb_spec (max_write_pos_ e) offset).
  - replace n with 0 by lia. done.
  - rewrite clamp_len_ok by lia. replace (Z.min len (max_write_pos_ e - offset)) with n by lia.
    rewrite read_blocks_ok by (split_and!; lia). rewrite Z.sub_0_r. f_equal.
    unfold buf_read, Entry_content. rewrite skipn_firstn_comm, take_take. f_equal. lia.
Qed.

(** ** Lemmas: releasing memory *)

Lemma deallocate_all_ok a (ps : list Z) :
  pool_inv a -> NoDup ps -> (forall p, p ∈ ps -> p ∈ live a) ->
  pool_inv (fold_left deallocate ps a) /\
  live (fold_left deallocate ps a) = live a ∖ list_to_set ps.
Proof.
  revert a. induction ps as [|p ps IH]; intros a Ha Hd Hin; cbn [fold_left].
  - split; [done|]. set_solver.
  - apply NoDup_cons in Hd as [Hp Hd].
    destruct (deallocate_live a p Ha (Hin p (list_elem_of_here _ _))) as [Hl Ha'].
    destruct (IH _ Ha' Hd) as [Hi Hl'].
    + intros q Hq. rewrite Hl. apply elem_of_difference. split; [apply Hin; by right|].
      intros ->%elem_of_singleton. done.
    + split; [done|]. rewrite Hl', Hl, list_to_set_cons. apply set_eq. intros x.
      rewrite !elem_of_difference, elem_of_union. tauto.
Qed.

(** The memory an entry holds: itself and its blocks. *)
Definition entry_owned (pe : Z * TransferBufferManagerEntry) : list Z := pe.1 :: (blocks_ pe.2).*1.

Lemma Entry_destroy_ok a p e :
  pool_inv a -> NoDup (entry_owned (p, e)) -> (forall q, q ∈ entry_owned (p, e) -> q ∈ live a) ->
  pool_inv (Entry_destroy a p e) /\
  live (Entry_destroy a p e) = live a ∖ list_to_set (entry_owned (p, e)).
Proof.
  intros Ha Hd Hin. unfold Entry_destroy, Entry_reset. cbn [fst].
  change (deallocate (fold_left deallocate (blocks_ e).*1 a) p)
    with (fold_left deallocate [p] (fold_left deallocate (blocks_ e).*1 a)).
  rewrite <-fold_left_app. unfold entry_owned in *. cbn [fst snd] in *.
  assert (Hperm : (blocks_ e).*1 ++ [p] ≡ₚ p :: (blocks_ e).*1) by (by rewrite Permutation_app_comm).
  destruct (deallocate_all_ok a ((blocks_ e).*1 ++ [p]) Ha) as [Hi Hl].
  - by rewrite Hperm.
  - intros q. rewrite Hperm. apply Hin.
  - split; [done|]. rewrite Hl. f_equal. apply set_eq. intros x. rewrite !elem_of_list_to_set.
    by rewrite Hperm.
Qed.

(** ** The manager's invariant *)

Definition owned (m : TransferBufferManager) : list Z := concat (entry_owned <$> buffers_ m).

(** The blocks of the pool the manager does not hold. *)
Definition foreign (a : A) (m : TransferBufferManager) : gset Z := live a ∖ list_to_set (owned m).

Record BufMgr_inv (a : A) (m : TransferBufferManager) : Prop := {
  bm_pool : pool_inv a;
  bm_nodup : NoDup (owned m);
  bm_live : forall p, p ∈ owned m -> p ∈ live a;
  bm_keys : NoDup (key_ <$> (buffers_ m).*2);
  bm_wf : Forall (fun pe => Entry_wf B (snd pe) /\ Key_isEmpty (key_ (snd pe)) = false /\
                            max_size_ (snd pe) = max_buf_size_ m) (buffers_ m);
  bm_size : 0 <= max_buf_size_ m <= 0xFFFF
}.

(** The bytes reassembled under a key. *)
Definition contents (m : TransferBufferManager) (k : TransferBufferManagerKey) : option (list Z) :=
  (fun pe => Entry_content pe.2) <$> findFirst (buffers_ m) k.

Lemma Key_eqb_eq a b : Key_eqb a b = true <-> a = b.
Proof.
  unfold Key_eqb. destruct a, b; simpl. rewrite andb_true_iff, !Z.eqb_eq.
  split; [by intros [-> ->]|by intros [= -> ->]].
Qed.

(** Where [findFirst] finds the buffer. *)
Lemma findFirst_split l k p e :
  findFirst l k = Some (p, e) ->
  exists l1 l2, l = l1 ++ (p, e) :: l2 /\ key_ e = k /\ k ∉ (key_ <$> l1.*2).
Proof.
  induction l as [|[q f] l IH]; [done|]. cbn [findFirst].
  destruct (Key_eqb (key_ f) k) eqn:Ek.
  - intros [= -> ->]. exists [], l. split_and!; [done|by apply Key_eqb_eq|apply not_elem_of_nil].
  - intros Hf. destruct (IH Hf) as (l1 & l2 & -> & Hk & Hn). exists ((q, f) :: l1), l2.
    split_and!; [done..|]. rewrite !fmap_cons. apply not_elem_of_cons. split; [|done].
    intros E. cbn [snd] in E. rewrite <-E in Ek. by rewrite (proj2 (Key_eqb_eq k k) eq_refl) in Ek.
Qed.

Lemma findFirst_None l k : findFirst l k = None <-> k ∉ (key_ <$> l.*2).
Proof.
  induction l as [|[q f] l IH]; [split; [intros _; apply not_elem_of_nil|done]|].
  cbn [findFirst]. rewrite !fmap_cons, not_elem_of_cons. cbn [snd].
  destruct (Key_eqb (key_ f) k) eqn:Ek.
  - apply Key_eqb_eq in Ek. split; [done|]. intros [? _]. congruence.
  - rewrite IH. split; [|tauto]. intros Hn. split; [|done]. intros E. rewrite <-E in Ek.
    by rewrite (proj2 (Key_eqb_eq k k) eq_refl) in Ek.
Qed.

Lemma findFirst_app l1 l2 k :
  findFirst (l1 ++ l2) k = match findFirst l1 k with Some r => Some r | None => findFirst l2 k end.
Proof.
  induction l1 as [|[q f] l1 IH]; [done|]. cbn [findFirst app]. by destruct (Key_eqb _ _).
Qed.

Lemma remove_first_split (l1 l2 : list (Z * TransferBufferManagerEntry)) p e :
  p ∉ l1.*1 -> remove_first (fun q => p =? q.1) (l1 ++ (p, e) :: l2) = l1 ++ l2.
Proof.
  induction l1 as [|[q f] l1 IH]; intros Hn; simpl.
  - by rewrite Z.eqb_refl.
  - apply not_elem_of_cons in Hn as [Hne Hn]. cbn [fst] in Hne.
    destruct (Z.eqb_spec p q); [done|]. f_equal. by apply IH.
Qed.

Lemma owned_addr l p : p ∈ l.*1 -> p ∈ concat (entry_owned <$> l).
Proof.
  induction l as [|[q f] l IH]; [done|]. rewrite !fmap_cons. cbn [concat].
  rewrite elem_of_cons, elem_of_app. intros [->|Hp]; [left; by left|right; auto].
Qed.

Lemma owned_split l1 p e l2 sz :
  owned (mkBufMgr (l1 ++ (p, e) :: l2) sz) ≡ₚ
  entry_owned (p, e) ++ owned (mkBufMgr (l1 ++ l2) sz).
Proof.
  unfold owned. cbn [buffers_]. rewrite !fmap_app, fmap_cons, !concat_app. cbn [concat].
  rewrite !app_assoc. apply Permutation_app_tail, Permutation_app_comm.
Qed.

(** The state of the manager around the buffer of a key. *)
Lemma BufMgr_found a m k p e :
  BufMgr_inv a m -> findFirst (buffers_ m) k = Some (p, e) ->
  exists l1 l2, buffers_ m = l1 ++ (p, e) :: l2 /\ key_ e = k /\ (p ∉ l1.*1) /\ (p ∉ l2.*1) /\
    (k ∉ (key_ <$> l1.*2)) /\ (k ∉ (key_ <$> l2.*2)) /\ Entry_wf B e /\ max_size_ e = max_buf_size_ m.
Proof.
  intros [_ Hnd _ Hk Hwf _] Hf. destruct (findFirst_split _ _ _ _ Hf) as (l1 & l2 & E & Hke & Hn1).
  exists l1, l2. unfold owned in Hnd. rewrite E in Hnd, Hk, Hwf.
  rewrite !fmap_app, !fmap_cons in Hk. apply NoDup_app in Hk as (_ & _ & Hk).
  apply NoDup_cons in Hk as [Hn2 _]. cbn [snd] in Hn2. rewrite Hke in Hn2.
  rewrite fmap_app, fmap_cons, concat_app in Hnd. cbn [concat] in Hnd.
  apply NoDup_app in Hnd as (_ & Hdis & Hnd). unfold entry_owned at 1 in Hnd. cbn [fst] in Hnd.
  apply NoDup_cons in Hnd as [Hnp _].
  apply Forall_app in Hwf as [_ Hwf]. apply Forall_cons in Hwf as [(We & _ & Ws) _].
  split_and!; try done.
  - intros Hp. apply (Hdis p); [by apply owned_addr|]. by left.
  - intros Hp. apply Hnp, elem_of_app. right. by apply owned_addr.
Qed.

Lemma owned_eq m l : buffers_ m = l -> owned m = owned (mkBufMgr l (max_buf_size_ m)).
Proof. intros E. unfold owned. cbn [buffers_]. by rewrite E. Qed.

(** The blocks behind one key, and all other live blocks. *)
Definition held (m : TransferBufferManager) (k : TransferBufferManagerKey) : list Z :=
  match findFirst (buffers_ m) k with Some pe => entry_owned pe | None => [] end.

Definition others (a : A) (m : TransferBufferManager) (k : TransferBufferManagerKey) : gset Z :=
  live a ∖ list_to_set (held m k).

Lemma BufMgr_remove_ok a m k :
  BufMgr_inv a m ->
  let '(a', m') := BufMgr_remove a m k in
  BufMgr_inv a' m' /\ foreign a' m' = foreign a m /\ others a' m' k = others a m k /\
  max_buf_size_ m' = max_buf_size_ m /\
  (forall k', contents m' k' = if Key_eqb k' k then None else contents m k').
Proof.
  intros Hm. unfold BufMgr_remove. destruct (findFirst (buffers_ m) k) as [[p e]|] eqn:Ef.
  - destruct (BufMgr_found a m k p e Hm Ef) as (l1 & l2 & E & Hke & Hp1 & Hp2 & Hk1 & Hk2 & We & Ws).
    destruct Hm as [Ha Hnd Hlv Hk Hwf Hsz]. rewrite E, remove_first_split by done.
    rewrite (owned_eq m _ E) in Hnd, Hlv.
    rewrite E, !fmap_app, !fmap_cons in Hk. cbn [snd] in Hk.
    rewrite E, Forall_app, Forall_cons in Hwf.
    assert (Hnd' : NoDup (entry_owned (p, e) ++ owned (mkBufMgr (l1 ++ l2) (max_buf_size_ m)))).
    { by rewrite <-owned_split. }
    apply NoDup_app in Hnd' as (Hne & Hdis & Hno).
    assert (Hlv' : forall q, q ∈ entry_owned (p, e) \/
      q ∈ owned (mkBufMgr (l1 ++ l2) (max_buf_size_ m)) -> q ∈ live a).
    { intros q Hq. apply Hlv. by rewrite owned_split, elem_of_app. }
    destruct (Entry_destroy_ok a p e Ha Hne) as [Hi Hl]; [auto|]. split_and!.
    + split; cbn [buffers_ max_buf_size_]; try done.
      * intros q Hq. rewrite Hl. apply elem_of_difference. split; [auto|].
        rewrite elem_of_list_to_set. intros Hq'. by apply (Hdis q).
      * rewrite !fmap_app. apply NoDup_app in Hk as (N1 & D & N2). apply NoDup_cons in N2 as [? N2].
        apply NoDup_app. split_and!; [done| |done]. intros x Hx Hx'. apply (D x Hx). by right.
      * apply Forall_app. tauto.
    + unfold foreign. rewrite Hl, (owned_eq m _ E). apply set_eq. intros x.
      rewrite !elem_of_difference, !elem_of_list_to_set, owned_split, elem_of_app. tauto.
    + unfold others, held. rewrite Ef, Hl. cbn [buffers_]. rewrite findFirst_app.
      rewrite (proj2 (findFirst_None l1 k) Hk1), (proj2 (findFirst_None l2 k) Hk2).
      apply difference_empty_L.
    + done.
    + intros k'. unfold contents. cbn [buffers_]. rewrite E, !findFirst_app. cbn [findFirst].
      destruct (Key_eqb k' k) eqn:Ek'.
      * apply Key_eqb_eq in Ek' as ->. apply findFirst_None in Hk1 as ->.
        by apply findFirst_None in Hk2 as ->.
      * rewrite Hke. destruct (Key_eqb k k') eqn:Ek; [|done].
        apply Key_eqb_eq in Ek as ->. by rewrite (proj2 (Key_eqb_eq k' k') eq_refl) in Ek'.
  - split_and!; try done. intros k'. destruct (Key_eqb k' k) eqn:Ek; [|done].
    apply Key_eqb_eq in Ek as ->. unfold contents. by rewrite Ef.
Qed.

Lemma BufMgr_create_ok a m k :
  BufMgr_inv a m -> Key_isEmpty k = false ->
  let '(r, a', m') := BufMgr_create sizeof_Entry a m k in
  BufMgr_inv a' m' /\ foreign a' m' = foreign a m /\ others a' m' k = others a m k /\
  max_buf_size_ m' = max_buf_size_ m /\ BufMgr_access m' k = r /\
  (r = None -> exists a0, pool_inv a0 /\ allocate a0 sizeof_Entry = (None, a') /\ live a0 = live a') /\
  (forall k', contents m' k' =
    if Key_eqb k' k then (match r with Some _ => Some [] | None => None end) else contents m k').
Proof.
  intros Hm Hk0. unfold BufMgr_create. rewrite Hk0.
  pose proof (BufMgr_remove_ok a m k Hm) as Hrem.
  destruct (BufMgr_remove a m k) as [a1 m1]. destruct Hrem as (Hm1 & Hf1 & Ho1 & Hs1 & Hc1).
  assert (Hnone : findFirst (buffers_ m1) k = None).
  { specialize (Hc1 k). rewrite (proj2 (Key_eqb_eq k k) eq_refl) in Hc1. unfold contents in Hc1.
    by destruct (findFirst (buffers_ m1) k). }
  unfold Entry_instantiate. destruct (allocate a1 sizeof_Entry) as [[p|] a2] eqn:Ea.
  - destruct Hm1 as [Ha1 Hnd Hlv Hks Hwf Hsz].
    destruct (allocate_some a1 _ p a2 Ha1 Ea) as (_ & Hp & Hl2 & Ha2).
    assert (Hpo : p ∉ owned m1) by (intros Hp'; apply Hp; auto).
    assert (Hrf : remove_first (fun q => p =? q.1) (buffers_ m1) = buffers_ m1).
    { assert (Hpa : p ∉ (buffers_ m1).*1) by (intros Hp'; apply Hpo; by apply owned_addr).
      clear -Hpa. induction (buffers_ m1) as [|[q f] l IH]; [done|]. simpl.
      apply not_elem_of_cons in Hpa as [Hne Hpa]. cbn [fst] in Hne.
      destruct (Z.eqb_spec p q); [done|]. f_equal. auto. }
    rewrite Hrf. unfold Entry_reset. cbn [blocks_ fmap list_fmap fold_left max_size_]. split_and!.
    + split; cbn [buffers_ max_buf_size_]; try done.
      * unfold owned, entry_owned in *. cbn [buffers_ fmap list_fmap concat app fst snd blocks_].
        by constructor.
      * intros q. unfold owned. cbn [buffers_ fmap list_fmap concat].
        intros [Hq|Hq]%elem_of_app; rewrite Hl2; apply elem_of_union.
        -- left. by apply elem_of_singleton, list_elem_of_singleton.
        -- right. by apply Hlv.
      * rewrite !fmap_cons. constructor; [|done]. cbn [snd key_]. by apply findFirst_None.
      * constructor; [|done]. cbn [snd max_size_ key_]. split_and!; [|done|done].
        split; cbn [blocks_ max_write_pos_ max_size_]; [constructor|lia..|unfold flat; simpl; lia
          |unfold flat; simpl; lia].
    + rewrite <-Hf1. unfold foreign, owned. cbn [buffers_ fmap list_fmap concat entry_owned].
      rewrite Hl2. apply set_eq. intros x.
      rewrite !elem_of_difference, !elem_of_list_to_set, elem_of_union, elem_of_singleton, elem_of_app.
      unfold entry_owned. cbn [fst snd blocks_ fmap list_fmap]. rewrite list_elem_of_singleton.
      destruct (decide (x = p)) as [->|]; [|tauto]. split; [tauto|]. intros [? _]. done.
    + rewrite <-Ho1. unfold others, held. rewrite Hnone. cbn [buffers_ findFirst key_].
      rewrite (proj2 (Key_eqb_eq k k) eq_refl). unfold entry_owned. cbn [fst snd blocks_ fmap list_fmap].
      rewrite Hl2. apply set_eq. intros x.
      rewrite !elem_of_difference, !elem_of_list_to_set, elem_of_union, elem_of_singleton,
        list_elem_of_singleton, elem_of_nil.
      destruct (decide (x = p)) as [->|]; tauto.
    + by rewrite <-Hs1.
    + unfold BufMgr_access. rewrite Hk0. cbn [buffers_ findFirst key_].
      by rewrite (proj2 (Key_eqb_eq k k) eq_refl).
    + done.
    + intros k'. unfold contents. cbn [buffers_ findFirst key_].
      destruct (Key_eqb k k') eqn:Ek.
      * apply Key_eqb_eq in Ek as ->. by rewrite (proj2 (Key_eqb_eq k' k') eq_refl).
      * specialize (Hc1 k'). destruct (Key_eqb k' k) eqn:Ek'; [|done].
        apply Key_eqb_eq in Ek' as ->. by rewrite (proj2 (Key_eqb_eq k k) eq_refl) in Ek.
  - destruct Hm1 as [Ha1 Hnd Hlv Hks Hwf Hsz].
    destruct (allocate_none a1 _ a2 Ha1 Ea) as [Hl2 Ha2]. split_and!; try done.
    + split; try done. intros q Hq. rewrite Hl2. auto.
    + rewrite <-Hf1. unfold foreign. by rewrite Hl2.
    + rewrite <-Ho1. unfold others. by rewrite Hl2.
    + unfold BufMgr_access. by rewrite Hk0, Hnone.
    + intros _. by exists a1.
Qed.

Lemma buffer_at_found l1 l2 p e sz :
  p ∉ l1.*1 -> buffer_at (mkBufMgr (l1 ++ (p, e) :: l2) sz) p = Some e.
Proof.
  intros Hn. unfold buffer_at. cbn [buffers_]. induction l1 as [|[q f] l1 IH]; cbn [app List.find fst].
  - by rewrite Z.eqb_refl.
  - apply not_elem_of_cons in Hn as [Hne Hn]. cbn [fst] in Hne. destruct (Z.eqb_spec p q); [done|]. auto.
Qed.

Lemma update_at_found (l1 l2 : list (Z * TransferBufferManagerEntry)) p e e' :
  p ∉ l1.*1 -> p ∉ l2.*1 ->
  (fun q => if p =? q.1 then (p, e') else q) <$> (l1 ++ (p, e) :: l2) = l1 ++ (p, e') :: l2.
Proof.
  assert (Hid : forall l : list (Z * TransferBufferManagerEntry), p ∉ l.*1 ->
    (fun q => if p =? q.1 then (p, e') else q) <$> l = l).
  { induction l as [|[q f] l IH]; intros Hn; [done|].
    apply not_elem_of_cons in Hn as [Hne Hn]. cbn [fst] in Hne.
    rewrite fmap_cons, IH by done. cbn [fst]. by destruct (Z.eqb_spec p q). }
  intros H1 H2. rewrite fmap_app, fmap_cons, !Hid by done. cbn [fst]. by rewrite Z.eqb_refl.
Qed.

(** A buffer that grew by fresh blocks, among the others of the manager. *)
Lemma BufMgr_update_inv a a' m l1 p e l2 e' ps :
  BufMgr_inv a m -> buffers_ m = l1 ++ (p, e) :: l2 ->
  Entry_wf B e' -> max_size_ e' = max_size_ e -> key_ e' = key_ e ->
  (blocks_ e').*1 = (blocks_ e).*1 ++ ps -> taken a a' ps ->
  let m' := mkBufMgr (l1 ++ (p, e') :: l2) (max_buf_size_ m) in
  BufMgr_inv a' m' /\ foreign a' m' = foreign a m.
Proof.
  intros [Ha Hnd Hlv Hk Hwf Hsz] E We Hms Hke Hb [Ti Tl Tn Tf] m'.
  rewrite (owned_eq m _ E) in Hnd, Hlv.
  assert (Hown : owned m' ≡ₚ ps ++ owned (mkBufMgr (l1 ++ (p, e) :: l2) (max_buf_size_ m))).
  { unfold m'. rewrite !owned_split, app_assoc. apply Permutation_app_tail.
    unfold entry_owned. cbn [fst snd]. rewrite Hb. rewrite (Permutation_app_comm ps). done. }
  rewrite E in Hk, Hwf. split.
  - split; [done| | | | |done].
    + rewrite Hown. apply NoDup_app. split_and!; [done| |done]. intros q Hq Hq'.
      apply (Tf q Hq). auto.
    + intros q. rewrite Hown, elem_of_app, Tl, elem_of_union, elem_of_list_to_set.
      intros [|]; [by left|right; auto].
    + revert Hk. unfold m'. cbn [buffers_]. rewrite !fmap_app, !fmap_cons. cbn [snd]. by rewrite Hke.
    + revert Hwf. unfold m'. cbn [buffers_ max_buf_size_]. rewrite !Forall_app, !Forall_cons. cbn [snd]. rewrite Hke, Hms. tauto.
  - unfold foreign. rewrite (owned_eq m _ E), Tl. apply set_eq. intros x.
    rewrite !elem_of_difference, !elem_of_list_to_set, Hown, elem_of_union, elem_of_app, elem_of_list_to_set.
    split; [tauto|]. intros [Hx Hx']. split; [by right|]. intros [Hps|]; [|tauto].
    by apply (Tf x Hps).
Qed.

Lemma BufMgr_write_ok junk a m k p c offset data len :
  BufMgr_inv a m -> (forall p, length (junk p) = B) ->
  BufMgr_access m k = Some p -> contents m k = Some c ->
  0 <= offset <= Z.of_nat (length c) -> offset < max_buf_size_ m -> 0 <= len ->
  offset + len < 2 ^ 32 -> (Z.to_nat len <= length data)%nat ->
  let n := Z.min len (max_buf_size_ m - offset) in
  exists w a' m', BufMgr_write sizeof_Block junk a m p offset data len = (w, a', m') /\
    0 <= w <= n /\ BufMgr_inv a' m' /\ foreign a' m' = foreign a m /\
    others a' m' k = others a m k /\
    max_buf_size_ m' = max_buf_size_ m /\ BufMgr_access m' k = Some p /\
    (forall k', contents m' k' =
      if Key_eqb k' k then Some (buf_write c offset data w) else contents m k') /\
    (w < n -> exists a0, pool_inv a0 /\ allocate a0 sizeof_Block = (None, a') /\ live a0 = live a').
Proof.
  intros Hm Hj Hacc Hcont Ho Hos Hl H32 Hdata n.
  unfold BufMgr_access in Hacc. destruct (Key_isEmpty k) eqn:Hk0; [done|].
  unfold contents in Hcont. destruct (findFirst (buffers_ m) k) as [[q e]|] eqn:Ef; [|done].
  cbn in Hacc, Hcont. injection Hacc as ->. injection Hcont as <-.
  destruct (BufMgr_found a m k p e Hm Ef) as (l1 & l2 & E & Hke & Hp1 & Hp2 & Hk1 & Hk2 & We & Ws).
  rewrite length_Entry_content in Ho by done. rewrite <-Ws in Hos.
  destruct (Entry_write_ok junk a e offset data len) as
    (w & a' & e' & ps & Ew & Hw & We' & Hms & Hke' & Hmwp & Hc' & Hb & Ht & Hfail); try done.
  { apply Hm. }
  unfold BufMgr_write.
  replace (buffer_at m p) with (Some e).
  2: { rewrite <-(buffer_at_found l1 l2 p e (max_buf_size_ m) Hp1). unfold buffer_at. by rewrite E. }
  rewrite Ew, E, update_at_found by done.
  destruct (BufMgr_update_inv a a' m l1 p e l2 e' ps Hm E We' Hms Hke' Hb Ht) as [Hm' Hfo].
  exists w, a', (mkBufMgr (l1 ++ (p, e') :: l2) (max_buf_size_ m)).
  rewrite Ws in Hw, Hfail. fold n in Hw, Hfail. split_and!; try done; try lia.
  - unfold others, held. rewrite Ef. cbn [buffers_]. rewrite findFirst_app.
    rewrite (proj2 (findFirst_None l1 k) Hk1). cbn [findFirst]. rewrite Hke', Hke.
    rewrite (proj2 (Key_eqb_eq k k) eq_refl). destruct Ht as [Ti Tl Tn Tf]. rewrite Tl.
    unfold entry_owned. cbn [fst snd]. rewrite Hb. apply set_eq. intros x.
    rewrite !elem_of_difference, !elem_of_list_to_set, elem_of_union, elem_of_list_to_set,
      !elem_of_cons, elem_of_app.
    split; [tauto|]. intros [Hx Hn]. split; [by right|]. intros [|[|Hps]]; [tauto|tauto|].
    by apply (Tf x Hps).
  - unfold BufMgr_access. rewrite Hk0. cbn [buffers_]. rewrite findFirst_app.
    rewrite (proj2 (findFirst_None l1 k) Hk1). cbn [findFirst]. rewrite Hke', Hke.
    by rewrite (proj2 (Key_eqb_eq k k) eq_refl).
  - intros k'. unfold contents. cbn [buffers_]. rewrite E, !findFirst_app. cbn [findFirst].
    rewrite Hke', Hke. destruct (Key_eqb k k') eqn:Ek.
    + apply Key_eqb_eq in Ek as ->. rewrite (proj2 (findFirst_None l1 k') Hk1).
      rewrite (proj2 (Key_eqb_eq k' k') eq_refl). cbn. by rewrite Hc'.
    + destruct (Key_eqb k' k) eqn:Ek'; [|done].
      apply Key_eqb_eq in Ek' as ->. by rewrite (proj2 (Key_eqb_eq k k) eq_refl) in Ek.
Qed.

Lemma contents_length a m k c :
  BufMgr_inv a m -> contents m k = Some c -> Z.of_nat (length c) <= max_buf_size_ m.
Proof.
  intros Hm Hc. unfold contents in Hc. destruct (findFirst (buffers_ m) k) as [[p e]|] eqn:Ef; [|done].
  injection Hc as <-. cbn [snd].
  destruct (BufMgr_found a m k p e Hm Ef) as (l1 & l2 & _ & _ & _ & _ & _ & _ & We & <-).
  rewrite length_Entry_content by done. apply We.
Qed.

Lemma access_contents m k : Key_isEmpty k = false ->
  is_Some (BufMgr_access m k) <-> is_Some (contents m k).
Proof.
  intros Hk. unfold BufMgr_access, contents. rewrite Hk.
  destruct (findFirst (buffers_ m) k); simpl; split; intros []; eauto; done.
Qed.

(** Writes in general, also at the end of a full buffer. *)
Lemma BufMgr_write_any junk a m k p c offset data len :
  BufMgr_inv a m -> (forall p, length (junk p) = B) ->
  BufMgr_access m k = Some p -> contents m k = Some c ->
  0 <= offset <= Z.of_nat (length c) -> 0 <= len < 2 ^ 31 -> (Z.to_nat len <= length data)%nat ->
  exists w a' m', BufMgr_write sizeof_Block junk a m p offset data len = (w, a', m') /\
    0 <= w <= len /\ BufMgr_inv a' m' /\ foreign a' m' = foreign a m /\
    others a' m' k = others a m k /\
    max_buf_size_ m' = max_buf_size_ m /\ BufMgr_access m' k = Some p /\
    (forall k', contents m' k' =
      if Key_eqb k' k then Some (buf_write c offset data w) else contents m k') /\
    (w = len -> offset + len <= max_buf_size_ m) /\
    (w < len -> max_buf_size_ m < offset + len \/
      exists a0, pool_inv a0 /\ allocate a0 sizeof_Block = (None, a') /\ live a0 = live a').
Proof.
  intros Hm Hj Hacc Hcont Ho Hl Hd. pose proof (contents_length a m k c Hm Hcont) as Hcl.
  pose proof (bm_size a m Hm) as Hsz.
  destruct (decide (offset < max_buf_size_ m)) as [Hlt|Hge].
  - destruct (BufMgr_write_ok junk a m k p c offset data len) as
      (w & a' & m' & Ew & Hw & Hm' & Hf & Hot & Hs & Hacc' & Hc & Hfail); try done; try lia.
    exists w, a', m'. split_and!; try done; try lia. intros Hlt'.
    destruct (decide (w < Z.min len (max_buf_size_ m - offset))); [right; auto|left; lia].
  - exists 0, a, m. split_and!; try done; try lia.
    + unfold BufMgr_access in Hacc. destruct (Key_isEmpty k); [done|].
      destruct (findFirst (buffers_ m) k) as [[q e]|] eqn:Ef; [|done]. injection Hacc as ->.
      destruct (BufMgr_found a m k p e Hm Ef) as (l1 & l2 & E & _ & Hp1 & Hp2 & _ & _ & _ & Ws).
      unfold BufMgr_write.
      replace (buffer_at m p) with (Some e).
      2: { rewrite <-(buffer_at_found l1 l2 p e (max_buf_size_ m) Hp1). unfold buffer_at. by rewrite E. }
      unfold Entry_write. rewrite Ws. destruct (Z.leb_spec (max_buf_size_ m) offset); [|lia].
      rewrite E, update_at_found, <-E by done. by destruct m.
    + intros k'. destruct (Key_eqb k' k) eqn:Ek; [|done]. apply Key_eqb_eq in Ek as ->.
      rewrite Hcont. unfold buf_write. rewrite Z.add_0_r. simpl. by rewrite take_drop.
Qed.

Lemma flat_length (bl : list (Z * list Z)) :
  Forall (fun pd => length (snd pd) = B) bl -> length (flat bl) = (length bl * B)%nat.
Proof.
  induction 1 as [|[p d] bl Hd _ IH]; [done|]. rewrite flat_cons, length_app, IH. simpl in *. lia.
Qed.

Lemma held_length a m k :
  BufMgr_inv a m -> Z.of_nat (length (held m k)) <= max_buf_size_ m / Z.of_nat B + 2.
Proof.
  intros Hm. pose proof (bm_size a m Hm) as Hs. unfold held.
  assert (0 <= max_buf_size_ m / Z.of_nat B) by (apply Z.div_pos; lia).
  destruct (findFirst (buffers_ m) k) as [[p e]|] eqn:Ef; [|simpl; lia].
  destruct (BufMgr_found a m k p e Hm Ef) as (_ & _ & _ & _ & _ & _ & _ & _ & We & Ws).
  unfold entry_owned. cbn [fst snd length]. rewrite length_fmap.
  pose proof (ewf_bound B e We) as Hb. rewrite flat_length in Hb by apply We. rewrite Ws in Hb.
  assert (Z.of_nat (length (blocks_ e)) - 1 <= max_buf_size_ m / Z.of_nat B); [|lia].
  apply Z.div_le_lower_bound; nia.
Qed.

Lemma live_size a m k :
  BufMgr_inv a m -> size (live a) = (size (others a m k) + length (held m k))%nat.
Proof.
  intros Hm. unfold others.
  assert (Hsub : forall x, x ∈ held m k -> x ∈ owned m).
  { unfold held, owned. intros x. destruct (findFirst (buffers_ m) k) as [[p e]|] eqn:Ef;
      [|by intros ?%elem_of_nil].
    destruct (findFirst_split _ _ _ _ Ef) as (l1 & l2 & -> & _). rewrite fmap_app, fmap_cons, concat_app.
    cbn [concat]. rewrite !elem_of_app. tauto. }
  assert (Hnd : NoDup (held m k)).
  { pose proof (bm_nodup a m Hm) as Hn. unfold held, owned in *.
    destruct (findFirst (buffers_ m) k) as [[p e]|] eqn:Ef; [|constructor].
    destruct (findFirst_split _ _ _ _ Ef) as (l1 & l2 & E & _).
    rewrite E, fmap_app, fmap_cons, concat_app in Hn. cbn [concat] in Hn.
    apply NoDup_app in Hn as (_ & _ & Hn). by apply NoDup_app in Hn as (? & _). }
  assert (Hss : (list_to_set (held m k) : gset Z) ⊆ live a).
  { intros x. rewrite elem_of_list_to_set. intros Hx. apply (bm_live a m Hm). auto. }
  rewrite size_difference by done. pose proof (subseteq_size _ _ Hss) as Hsz.
  rewrite size_list_to_set in * by done. lia.
Qed.

Lemma BufMgr_destroy_ok a m :
  BufMgr_inv a m -> pool_inv (BufMgr_destroy a m) /\ live (BufMgr_destroy a m) = foreign a m.
Proof.
  intros [Ha Hnd Hlv _ _ _]. unfold BufMgr_destroy, foreign. unfold owned in *.
  revert a Ha Hlv. induction (buffers_ m) as [|[p e] l IH]; intros a Ha Hlv; cbn [fold_left].
  - split; [done|]. simpl. set_solver.
  - rewrite fmap_cons in *. cbn [concat] in *. apply NoDup_app in Hnd as (Hn1 & Hdis & Hn2).
    destruct (Entry_destroy_ok a p e Ha Hn1) as [Hi Hl]; [intros q Hq; apply Hlv, elem_of_app; by left|].
    cbn [fst snd]. destruct (IH Hn2 _ Hi) as [Hi' Hl'].
    + intros q Hq. rewrite Hl. apply elem_of_difference.
      split; [apply Hlv, elem_of_app; by right|]. rewrite elem_of_list_to_set. intros Hq'.
      by apply (Hdis q).
    + split; [done|]. rewrite Hl', Hl. apply set_eq. intros x.
      rewrite !elem_of_difference, !elem_of_list_to_set, elem_of_app. tauto.
Qed.

(** C34: the block chain buffer is a contiguous buffer: with the same size and
    content as a static buffer, a write that starts at or before the end of the
    content takes the same bytes and leaves the same content, and every read
    gives the same bytes, however the data is cut into pool blocks; the write
    stops short only when the allocator refused a block, and then the bytes it
    reports are the bytes it kept. *)
Theorem block_buffer_refines_static junk a e b offset data len :
  pool_inv a -> (forall p, length (junk p) = B) -> Entry_wf B e -> Static_wf b ->
  max_size_ e = sb_size_ b -> Entry_content e = Static_content b ->
  0 <= offset <= max_write_pos_ e -> offset < max_size_ e ->
  0 <= len -> offset + len < 2 ^ 32 -> (Z.to_nat len <= length data)%nat ->
  exists w n a' e' b',
    Entry_write sizeof_Block junk a e offset (Some data) len = (w, a', e') /\
    Static_write b offset (Some data) len = (n, b') /\ 0 <= w <= n /\
    Entry_content e' = buf_write (Entry_content e) offset data w /\
    (w < n -> exists a0, pool_inv a0 /\ allocate a0 sizeof_Block = (None, a') /\ live a0 = live a') /\
    (w = n -> Entry_content e' = Static_content b' /\
      forall ro rl, 0 <= ro -> 0 <= rl -> ro + rl < 2 ^ 32 ->
        Entry_read e' false ro rl = Static_read b' false ro rl).
Proof.
  intros Ha Hj We Wb Hsz Hc Ho Hlt Hl H32 Hd.
  assert (Hpos : max_write_pos_ e = sb_max_write_pos_ b).
  { rewrite <-(length_Entry_content e We), Hc. unfold Static_content. rewrite length_take.
    destruct Wb. lia. }
  destruct (Entry_write_ok junk a e offset data len Ha Hj We Ho Hlt Hl H32 Hd)
    as (w & a' & e' & ps & Ew & Hw & We' & _ & _ & Hmp & Hce & _ & _ & Hf).
  destruct (Static_write_ok b offset data len Wb) as (b' & Es & Wb' & _ & Hsp & Hcs); try lia.
  rewrite Hsz in Hw, Hf. exists w, (Z.min len (sb_size_ b - offset)), a', e', b'.
  split_and!; try done; try lia. intros ->.
  assert (Heq : Entry_content e' = Static_content b') by (by rewrite Hce, Hcs, Hc).
  split; [done|]. intros ro rl ? ? ?.
  rewrite Entry_read_ok, Static_read_ok by done. by rewrite Heq, Hmp, Hsp, Hpos.
Qed.

(** ** The manager as a state machine *)

(** What a listener does with its manager: looks up, creates, fills and removes
    buffers. *)
Inductive bm_step : A * TransferBufferManager -> A * TransferBufferManager -> Prop :=
  | bs_remove a m k : bm_step (a, m) (BufMgr_remove a m k)
  | bs_create a m k r a' m' : Key_isEmpty k = false ->
      BufMgr_create sizeof_Entry a m k = (r, a', m') -> bm_step (a, m) (a', m')
  | bs_write a m k p c junk offset data len w a' m' :
      (forall p, length (junk p) = B) -> BufMgr_access m k = Some p -> contents m k = Some c ->
      0 <= offset <= Z.of_nat (length c) -> offset < max_buf_size_ m ->
      0 <= len -> offset + len < 2 ^ 32 -> (Z.to_nat len <= length data)%nat ->
      BufMgr_write sizeof_Block junk a m p offset data len = (w, a', m') ->
      bm_step (a, m) (a', m').

Lemma bm_step_inv s s' : bm_step s s' -> BufMgr_inv s.1 s.2 ->
  BufMgr_inv s'.1 s'.2 /\ foreign s'.1 s'.2 = foreign s.1 s.2.
Proof.
  destruct 1 as [a m k|a m k r a' m' Hk E|a m k p c junk offset data len w a' m' Hj Hacc Hc Ho Hs Hl H32 Hd E];
    intros Hm; cbn [fst snd] in *.
  - pose proof (BufMgr_remove_ok a m k Hm) as Hr. destruct (BufMgr_remove a m k). tauto.
  - pose proof (BufMgr_create_ok a m k Hm Hk) as Hr. rewrite E in Hr. tauto.
  - destruct (BufMgr_write_ok junk a m k p c offset data len) as (w' & a'' & m'' & E' & Hr); try done.
    rewrite E in E'. injection E' as -> -> ->. tauto.
Qed.

(** The buffers of a listener neither leak nor corrupt the shared pool:
    however it creates, fills and removes them, the blocks other users of the
    pool hold stay theirs, the blocks of the buffers are all different and
    live, and destroying the manager gives back to the pool exactly what the
    manager took from it. *)
Theorem buffer_manager_owns_its_memory a0 sz a m :
  pool_inv a0 -> 0 <= sz <= 0xFFFF ->
  rtc bm_step (a0, mkBufMgr [] sz) (a, m) ->
  NoDup (owned m) /\ (forall p, p ∈ owned m -> p ∈ live a /\ p ∉ live a0) /\
  (forall p, p ∈ live a0 -> p ∈ live a) /\ NoDup (key_ <$> (buffers_ m).*2) /\
  pool_inv (BufMgr_destroy a m) /\ live (BufMgr_destroy a m) = live a0.
Proof.
  intros Ha0 Hsz Hr.
  assert (Hi : BufMgr_inv a m /\ foreign a m = live a0).
  { change a with (a, m).1. change m with (a, m).2 at 2 4.
    revert Hr. apply (rtc_ind_r (fun s => BufMgr_inv s.1 s.2 /\ foreign s.1 s.2 = live a0)).
    - split; [|unfold foreign, owned; simpl; set_solver].
      split; cbn [fst snd]; try done; unfold owned; simpl; try constructor.
      intros p Hp. by apply elem_of_nil in Hp.
    - intros s s' _ Hst [Hs Hf]. destruct (bm_step_inv s s' Hst Hs) as [? E]. by rewrite E. }
  destruct Hi as [Hi Hf]. destruct (BufMgr_destroy_ok a m Hi) as [Hp Hl].
  destruct Hi as [Ha Hnd Hlv Hk _ _]. split_and!; try done.
  - intros p Hp'. split; [auto|]. rewrite <-Hf. unfold foreign.
    rewrite elem_of_difference, elem_of_list_to_set. tauto.
  - intros p. rewrite <-Hf. unfold foreign. rewrite elem_of_difference. tauto.
  - by rewrite Hl, Hf.
Qed.

End entry_ok.

Lemma block_buffer_refines_static_witness :
  let e := mkEntry [] 0 20 (Key_make 5 TransferTypeMessageBroadcast) in
  let b := Static_init (replicate 20 0) 20 in
  exists w n a' e' b',
    Entry_write 64 (fun _ => replicate 9 0xAA) (PoolAllocator_init 4096 640 64) e 0 (Some (seqZ 0 30)) 25
      = (w, a', e') /\
    Static_write b 0 (Some (seqZ 0 30)) 25 = (n, b').
Proof.
  intros e b.
  destruct (block_buffer_refines_static 64 9 ltac:(lia) (fun _ => replicate 9 0xAA)
    (PoolAllocator_init 4096 640 64) e b 0 (seqZ 0 30) 25) as (w & n & a' & e' & b' & E1 & E2 & _).
  - exact (proj1 (PoolAllocator_init_ok 4096 640 64 eq_refl eq_refl ltac:(vm_compute; split; done))).
  - done.
  - split; try (vm_compute; split; done); try (vm_compute; done).
  - split; try (vm_compute; split; done); vm_compute; done.
  - reflexivity.
  - reflexivity.
  - vm_compute; split; done.
  - reflexivity.
  - lia.
  - lia.
  - vm_compute. lia.
  - exists w, n, a', e', b'. exact (conj E1 E2).
Defined.

Lemma buffer_manager_owns_its_memory_witness :
  let pool := PoolAllocator_init 4096 640 64 in
  let '(a, m) := BufMgr_remove pool (mkBufMgr [] 300) (Key_make 5 TransferTypeMessageBroadcast) in
  live (BufMgr_destroy a m) = live pool.
Proof.
  cbv zeta. destruct (BufMgr_remove _ _ _) as [a m] eqn:E.
  refine (proj2 (proj2 (proj2 (proj2 (proj2
    (buffer_manager_owns_its_memory 64 64 56 ltac:(lia) (PoolAllocator_init 4096 640 64) 300 a m _ _ _)))))).
  - exact (proj1 (PoolAllocator_init_ok 4096 640 64 eq_refl eq_refl ltac:(vm_compute; split; done))).
  - lia.
  - rewrite <-E. apply rtc_once, bs_remove.
Defined.
