(* ===== verification/PoolMap.v ===== *)
(** * PoolMap: the key-value container of the memory pool

    Models [Map<Key, Value>] of [libuavcan/include/uavcan/util/map.hpp]: a
    linked list of groups of [NumKV] slots, a slot with the default key being
    free. [operator==] of the keys is equality; [NumKV] and [sizeof(KVGroup)]
    depend on the platform and are parameters ([NumKV > 0] is asserted by the
    source). A pointer to a value is the address of its group and its index.
    The predicate of [removeAllWhere] may have side effects, so it passes a
    state along. *)

From stdpp Require Import gmap.
From S2P Require Import Prelude LinkedList PoolAllocator.
Local Open Scope Z_scope.

Section map.
Context {Key Value : Type} `{EqDecision Key}.
Context (KeyDefault : Key) (ValueDefault : Value).
Context (NumKV : nat) (sizeof_KVGroup : Z).
Context {A : Type} `{IPoolAllocator A}.

Definition KVPair : Type := Key * Value.
Definition KVPair_default : KVPair := (KeyDefault, ValueDefault).

(** [KVPair::match]. *)
Definition kv_match (kv : KVPair) (rhs : Key) : bool := bool_decide (rhs = kv.1).

Definition KVGroup : Type := Z * list KVPair.
Definition Map : Type := list KVGroup.

(** A pointer to a slot. *)
Definition SlotPtr : Type := Z * nat.

(** [KVGroup::instantiate]. *)
Definition KVGroup_instantiate (a : A) : option KVGroup * A :=
  match allocate a sizeof_KVGroup with
  | (None, a) => (None, a)
  | (Some p, a) => (Some (p, replicate NumKV KVPair_default), a)
  end.

(** [KVGroup::find]: the index of the first slot with the key. *)
Fixpoint KVGroup_find (kvs : list KVPair) (key : Key) : option nat :=
  match kvs with
  | [] => None
  | kv :: kvs => if kv_match kv key then Some O else S <$> KVGroup_find kvs key
  end.

(** [Map::findKey]. *)
Fixpoint findKey (m : Map) (key : Key) : option SlotPtr :=
  match m with
  | [] => None
  | (p, kvs) :: m =>
    match KVGroup_find kvs key with
    | Some i => Some (p, i)
    | None => findKey m key
    end
  end.

(** [Map::compact]: groups with no pair go back to the pool. *)
Fixpoint compact (a : A) (m : Map) : A * Map :=
  match m with
  | [] => (a, [])
  | (p, kvs) :: m =>
    if forallb (fun kv => kv_match kv KeyDefault) kvs then compact (deallocate a p) m
    else let '(a, m) := compact a m in (a, (p, kvs) :: m)
  end.

(** Storing through a pointer to a slot. *)
Definition set_slot (m : Map) (s : SlotPtr) (kv : KVPair) : Map :=
  (fun g : KVGroup => if g.1 =? s.1 then (g.1, <[s.2 := kv]> g.2) else g) <$> m.

(** Reading through a pointer to a slot. *)
Definition get_slot (m : Map) (s : SlotPtr) : option KVPair :=
  g ← List.find (fun g : KVGroup => g.1 =? s.1) m; g.2 !! s.2.

(** [Value* Map::access(const Key& key)]. *)
Definition Map_access (m : Map) (key : Key) : option SlotPtr := findKey m key.

(** [void Map::remove(const Key& key)]. *)
Definition Map_remove (a : A) (m : Map) (key : Key) : A * Map :=
  match findKey m key with
  | Some s => compact a (set_slot m s KVPair_default)
  | None => (a, m)
  end.

(** [Value* Map::insert(const Key& key, const Value& value)]. *)
Definition Map_insert (a : A) (m : Map) (key : Key) (value : Value) : option SlotPtr * A * Map :=
  let '(a, m) := Map_remove a m key in
  match findKey m KeyDefault with
  | Some s => (Some s, a, set_slot m s (key, value))
  | None =>
    match KVGroup_instantiate a with
    | (None, a) => (None, a, m)
    | (Some (p, kvs), a) => (Some (p, O), a, (p, <[O := (key, value)]> kvs) :: m)
    end
  end.

(** The loop of [removeAllWhere] over the slots of a group. *)
Fixpoint removeWhere_group {S} (predicate : S -> Key -> Value -> bool * S) (st : S) (kvs : list KVPair)
    : S * list KVPair * nat :=
  match kvs with
  | [] => (st, [], O)
  | kv :: kvs =>
    if kv_match kv KeyDefault then
      let '(st, kvs, n) := removeWhere_group predicate st kvs in (st, kv :: kvs, n)
    else
      let '(b, st) := predicate st kv.1 kv.2 in
      let '(st, kvs, n) := removeWhere_group predicate st kvs in
      if b then (st, KVPair_default :: kvs, Datatypes.S n) else (st, kv :: kvs, n)
  end.

Fixpoint removeWhere_groups {S} (predicate : S -> Key -> Value -> bool * S) (st : S) (m : Map)
    : S * Map * nat :=
  match m with
  | [] => (st, [], O)
  | (p, kvs) :: m =>
    let '(st, kvs, n) := removeWhere_group predicate st kvs in
    let '(st, m, n') := removeWhere_groups predicate st m in
    (st, (p, kvs) :: m, (n + n')%nat)
  end.

(** [void Map::removeAllWhere(Predicate predicate)]; [with_pool] is how the
    state of the predicate holds the allocator. *)
Definition removeAllWhere {S} (get_pool : S -> A) (put_pool : A -> S -> S)
    (predicate : S -> Key -> Value -> bool * S) (st : S) (m : Map) : S * Map :=
  let '(st, m, num_removed) := removeWhere_groups predicate st m in
  if (0 <? num_removed)%nat then
    let '(a, m) := compact (get_pool st) m in (put_pool a st, m)
  else (st, m).

(** [void Map::clear()]. *)
Definition Map_clear (a : A) (m : Map) : A * Map :=
  removeAllWhere id (fun a _ => a) (fun a _ _ => (true, a)) a m.

(** The pairs of the container in its order, free slots left out. *)
Definition entries (m : Map) : list KVPair :=
  filter (fun kv : KVPair => kv.1 <> KeyDefault) (concat m.*2).

(** [const Key* Map::find(Predicate predicate) const]. *)
Fixpoint find_in (predicate : Key -> Value -> bool) (kvs : list KVPair) : option Key :=
  match kvs with
  | [] => None
  | kv :: kvs =>
    if kv_match kv KeyDefault then find_in predicate kvs
    else if predicate kv.1 kv.2 then Some kv.1 else find_in predicate kvs
  end.

Fixpoint Map_find (predicate : Key -> Value -> bool) (m : Map) : option Key :=
  match m with
  | [] => None
  | (_, kvs) :: m =>
    match find_in predicate kvs with
    | Some k => Some k
    | None => Map_find predicate m
    end
  end.

(** [bool isEmpty() const]. *)
Definition Map_isEmpty (m : Map) : bool :=
  match Map_find (fun _ _ => true) m with None => true | Some _ => false end.

(** The loop of [getByIndex] over the slots of a group. *)
Fixpoint getByIndex_group (kvs : list KVPair) (index : nat) : KVPair + nat :=
  match kvs with
  | [] => inr index
  | kv :: kvs =>
    if kv_match kv KeyDefault then getByIndex_group kvs index
    else match index with
         | O => inl kv
         | S index => getByIndex_group kvs index
         end
  end.

(** [KVPair* Map::getByIndex(unsigned index)]. *)
Fixpoint getByIndex (m : Map) (index : nat) : option KVPair :=
  match m with
  | [] => None
  | (_, kvs) :: m =>
    match getByIndex_group kvs index with
    | inl kv => Some kv
    | inr index => getByIndex m index
    end
  end.

(** [unsigned Map::getSize() const]. *)
Definition getSize (m : Map) : nat :=
  foldr (fun g n => (length (filter (fun kv : KVPair => kv_match kv KeyDefault = false) g.2) + n)%nat) O m.

(** ** The invariant *)

Definition map_owned (m : Map) : list Z := m.*1.

(** Groups of [NumKV] slots, none empty, at different addresses; no key twice. *)
Record Map_wf (m : Map) : Prop := {
  mw_len : Forall (fun g : KVGroup => length g.2 = NumKV) m;
  mw_used : Forall (fun g : KVGroup => exists kv, kv ∈ g.2 /\ kv.1 <> KeyDefault) m;
  mw_addr : NoDup (map_owned m);
  mw_keys : NoDup (entries m).*1
}.

(** ** Lemmas: slots *)

Lemma kv_match_true (kv : KVPair) k : kv_match kv k = true <-> kv.1 = k.
Proof. unfold kv_match. rewrite bool_decide_eq_true. split; congruence. Qed.

Lemma kv_match_false (kv : KVPair) k : kv_match kv k = false <-> kv.1 <> k.
Proof. unfold kv_match. rewrite bool_decide_eq_false. split; congruence. Qed.

Lemma KVGroup_find_Some kvs k i :
  KVGroup_find kvs k = Some i ->
  exists l kv r, kvs = l ++ kv :: r /\ length l = i /\ kv.1 = k /\ k ∉ l.*1.
Proof.
  revert i. induction kvs as [|kv kvs IH]; intros i; [done|]. cbn [KVGroup_find].
  destruct (kv_match kv k) eqn:E.
  - intros [= <-]. exists [], kv, kvs. apply kv_match_true in E.
    split_and!; try done. apply not_elem_of_nil.
  - destruct (KVGroup_find kvs k) as [j|]; [|done]. intros [= <-].
    destruct (IH j eq_refl) as (l & kv' & r & -> & Hl & Hk & Hn).
    exists (kv :: l), kv', r. split_and!; simpl; auto.
    apply kv_match_false in E. apply not_elem_of_cons. split; [congruence|done].
Qed.

Lemma KVGroup_find_None kvs k : KVGroup_find kvs k = None <-> k ∉ kvs.*1.
Proof.
  induction kvs as [|kv kvs IH]; [split; [intros _; apply not_elem_of_nil|done]|].
  cbn [KVGroup_find]. rewrite fmap_cons, not_elem_of_cons.
  destruct (kv_match kv k) eqn:E.
  - apply kv_match_true in E. split; [done|]. intros [? _]. congruence.
  - apply kv_match_false in E. rewrite fmap_None, IH. split; [|tauto]. split; [congruence|done].
Qed.

Abbreviation slots m := (concat (m : Map).*2).

Lemma findKey_None m k : findKey m k = None <-> k ∉ (slots m).*1.
Proof.
  induction m as [|[p kvs] m IH]; [split; [intros _; apply not_elem_of_nil|done]|].
  cbn [findKey]. rewrite fmap_cons. cbn [concat snd]. rewrite fmap_app, not_elem_of_app.
  destruct (KVGroup_find kvs k) as [i|] eqn:E.
  - split; [done|]. intros [Hn _]. apply KVGroup_find_None in Hn. congruence.
  - apply KVGroup_find_None in E. tauto.
Qed.

(** A slot among all slots, and what storing to it does. *)
Record slot_at (m : Map) (s : SlotPtr) (kv : KVPair) (L R : list KVPair) : Prop := {
  sa_slots : slots m = L ++ kv :: R;
  sa_get : get_slot m s = Some kv;
  sa_set kv' : slots (set_slot m s kv') = L ++ kv' :: R;
  sa_get_set kv' : get_slot (set_slot m s kv') s = Some kv';
  sa_addr kv' : map_owned (set_slot m s kv') = map_owned m;
  sa_len n kv' : Forall (fun g : KVGroup => length g.2 = n) m ->
    Forall (fun g : KVGroup => length g.2 = n) (set_slot m s kv')
}.

Lemma set_slot_other (m : Map) p i kv : p ∉ m.*1 -> set_slot m (p, i) kv = m.
Proof.
  intros Hn. induction m as [|[q kvs] m IH]; [done|].
  apply not_elem_of_cons in Hn as [Hne Hn]. cbn [fst] in Hne. unfold set_slot in *.
  rewrite fmap_cons, IH by done. cbn [fst]. by destruct (Z.eqb_spec q p).
Qed.

Lemma slot_at_here p l kv r m :
  p ∉ m.*1 -> slot_at ((p, l ++ kv :: r) :: m) (p, length l) kv l (r ++ slots m).
Proof.
  intros Hn.
  assert (Hset : forall kv', set_slot ((p, l ++ kv :: r) :: m) (p, length l) kv' =
    (p, l ++ kv' :: r) :: m).
  { intros kv'. unfold set_slot at 1. rewrite fmap_cons. cbn [fst snd]. rewrite Z.eqb_refl.
    f_equal; [|by apply set_slot_other]. by rewrite insert_app_r_alt, Nat.sub_diag by lia. }
  split.
  - rewrite fmap_cons. cbn [concat snd]. by rewrite <-app_assoc.
  - unfold get_slot. cbn [List.find fst snd]. rewrite Z.eqb_refl. cbn. by apply list_lookup_middle.
  - intros kv'. rewrite Hset, fmap_cons. cbn [concat snd]. by rewrite <-app_assoc.
  - intros kv'. rewrite Hset. unfold get_slot. cbn [List.find fst snd]. rewrite Z.eqb_refl. cbn.
    by apply list_lookup_middle.
  - intros kv'. by rewrite Hset.
  - intros n kv'. rewrite Hset, !Forall_cons. cbn [snd]. by rewrite !length_app.
Qed.

Lemma slot_at_cons q kvs m s kv L R :
  q <> s.1 -> slot_at m s kv L R -> slot_at ((q, kvs) :: m) s kv (kvs ++ L) R.
Proof.
  intros Hq [S1 S2 S3 S4 S5 S6].
  assert (Hset : forall kv', set_slot ((q, kvs) :: m) s kv' = (q, kvs) :: set_slot m s kv').
  { intros kv'. unfold set_slot. rewrite fmap_cons. cbn [fst]. by destruct (Z.eqb_spec q s.1). }
  assert (Hget : forall m', get_slot ((q, kvs) :: m') s = get_slot m' s).
  { intros m'. unfold get_slot. cbn [List.find fst]. by destruct (Z.eqb_spec q s.1). }
  split.
  - rewrite fmap_cons. cbn [concat snd]. by rewrite S1, app_assoc.
  - by rewrite Hget.
  - intros kv'. rewrite Hset, fmap_cons. cbn [concat snd]. by rewrite S3, app_assoc.
  - intros kv'. by rewrite Hset, Hget.
  - intros kv'. rewrite Hset. unfold map_owned in *. by rewrite !fmap_cons, S5.
  - intros n kv'. rewrite Hset, !Forall_cons. intros [? ?]. auto.
Qed.

Lemma findKey_Some m k s :
  NoDup (map_owned m) -> findKey m k = Some s ->
  exists kv L R, slot_at m s kv L R /\ kv.1 = k /\ (k ∉ L.*1) /\ s.1 ∈ map_owned m.
Proof.
  intros Hd. induction m as [|[p kvs] m IH]; [done|]. cbn [findKey].
  unfold map_owned in *. rewrite fmap_cons in *. cbn [fst] in *. apply NoDup_cons in Hd as [Hp Hd].
  destruct (KVGroup_find kvs k) as [i|] eqn:E.
  - intros [= <-]. apply KVGroup_find_Some in E as (l & kv & r & -> & <- & Hk & Hn).
    exists kv, l, (r ++ slots m). split_and!; try done; [by apply slot_at_here|by left].
  - intros Hf. destruct (IH Hd Hf) as (kv & L & R & Hs & Hk & Hn & Hin).
    exists kv, (kvs ++ L), R. split_and!; try done.
    + apply slot_at_cons; [|done]. intros ->. done.
    + apply KVGroup_find_None in E. rewrite fmap_app, not_elem_of_app. tauto.
    + by right.
Qed.

Lemma KVGroup_find_set l r k (v : Value) :
  k ∉ l.*1 -> KVGroup_find (l ++ (k, v) :: r) k = Some (length l).
Proof.
  intros Hn. induction l as [|x l IH]; cbn [KVGroup_find app length].
  - by rewrite (proj2 (kv_match_true (k, v) k) eq_refl).
  - apply not_elem_of_cons in Hn as [Hne Hn]. rewrite IH by done.
    rewrite (proj2 (kv_match_false x k)) by congruence. done.
Qed.

Lemma findKey_set m k0 s k v :
  NoDup (map_owned m) -> findKey m k0 = Some s -> k ∉ (slots m).*1 ->
  findKey (set_slot m s (k, v)) k = Some s.
Proof.
  induction m as [|[p kvs] m IH]; intros Hd Hf Hn; [done|]. cbn [findKey] in Hf.
  unfold map_owned in *. rewrite fmap_cons in *. cbn [fst concat snd] in *.
  apply NoDup_cons in Hd as [Hp Hd]. rewrite fmap_app, not_elem_of_app in Hn. destruct Hn as [Hn1 Hn2].
  unfold set_slot. rewrite fmap_cons. cbn [fst snd].
  destruct (KVGroup_find kvs k0) as [i|] eqn:E.
  - injection Hf as <-. cbn [fst snd]. rewrite Z.eqb_refl. cbn [findKey].
    apply KVGroup_find_Some in E as (l & kv & r & -> & <- & _ & _).
    rewrite insert_app_r_alt, Nat.sub_diag by lia. cbn [insert list_insert].
    rewrite fmap_app, not_elem_of_app in Hn1. by rewrite KVGroup_find_set by tauto.
  - destruct (findKey_Some m k0 s Hd Hf) as (_ & _ & _ & _ & _ & _ & Hin).
    destruct (Z.eqb_spec p s.1) as [->|]; [done|]. cbn [findKey].
    rewrite (proj2 (KVGroup_find_None kvs k)) by done. by apply IH.
Qed.

(** Storing a pair with the same key does not move it. *)
Lemma findKey_update m s k v :
  NoDup (map_owned m) -> findKey m k = Some s -> findKey (set_slot m s (k, v)) k = Some s.
Proof.
  induction m as [|[p kvs] m IH]; intros Hd Hf; [done|]. cbn [findKey] in Hf.
  unfold map_owned in *. rewrite fmap_cons in *. cbn [fst snd] in *.
  apply NoDup_cons in Hd as [Hp Hd]. unfold set_slot. rewrite fmap_cons. cbn [fst snd].
  destruct (KVGroup_find kvs k) as [i|] eqn:E.
  - injection Hf as <-. cbn [fst snd]. rewrite Z.eqb_refl. cbn [findKey].
    apply KVGroup_find_Some in E as (l & kv & r & -> & <- & _ & Hn).
    rewrite insert_app_r_alt, Nat.sub_diag by lia. cbn [insert list_insert].
    by rewrite KVGroup_find_set.
  - destruct (findKey_Some m k s Hd Hf) as (_ & _ & _ & _ & _ & _ & Hin).
    destruct (Z.eqb_spec p s.1) as [->|]; [done|]. cbn [findKey]. rewrite E. by apply IH.
Qed.

(** ** Lemmas: operations *)

(** The pairs with another key. *)
Definition without (k : Key) (es : list KVPair) : list KVPair := filter (fun kv : KVPair => kv.1 <> k) es.

Lemma without_notin k es : k ∉ es.*1 -> without k es = es.
Proof.
  intros Hn. induction es as [|kv es IH]; [done|]. apply not_elem_of_cons in Hn as [Hne Hn].
  unfold without in *. rewrite filter_cons_True by congruence. f_equal. auto.
Qed.

Lemma entries_of_slots (m : Map) L kv R :
  slots m = L ++ kv :: R -> kv.1 <> KeyDefault ->
  entries m = without KeyDefault L ++ kv :: without KeyDefault R.
Proof. intros E Hk. unfold entries. rewrite E, filter_app, filter_cons_True by done. done. Qed.

Lemma entries_of_slots_free (m : Map) L kv R :
  slots m = L ++ kv :: R -> kv.1 = KeyDefault ->
  entries m = without KeyDefault L ++ without KeyDefault R.
Proof.
  intros E Hk. unfold entries. rewrite E, filter_app, filter_cons_False; [done|]. by intros ?.
Qed.

Section laws.
Context `{!PoolLaws A} (HNum : (0 < NumKV)%nat).

Definition map_foreign (a : A) (m : Map) : gset Z := live a ∖ list_to_set (map_owned m).

Record Map_inv (a : A) (m : Map) : Prop := {
  mi_pool : pool_inv a;
  mi_live : forall p, p ∈ map_owned m -> p ∈ live a;
  mi_wf : Map_wf m
}.

Lemma compact_ok a (m : Map) :
  pool_inv a -> NoDup (map_owned m) -> (forall p, p ∈ map_owned m -> p ∈ live a) ->
  let '(a', m') := compact a m in
  pool_inv a' /\ map_foreign a' m' = map_foreign a m /\ entries m' = entries m /\
  map_owned m' `sublist_of` map_owned m /\
  (forall p, p ∈ map_owned m' -> p ∈ live a') /\
  (forall p, p ∉ map_owned m -> p ∈ live a' <-> p ∈ live a) /\
  Forall (fun g : KVGroup => exists kv, kv ∈ g.2 /\ kv.1 <> KeyDefault) m' /\
  (forall P : KVGroup -> Prop, Forall P m -> Forall P m').
Proof.
  unfold map_foreign, map_owned.
  revert a. induction m as [|[p kvs] m IH]; intros a Ha Hd Hl; cbn [compact]; [done|].
  rewrite fmap_cons in *. cbn [fst] in *. apply NoDup_cons in Hd as [Hp Hd].
  destruct (forallb (fun kv => kv_match kv KeyDefault) kvs) eqn:Ef.
  - destruct (deallocate_live a p Ha (Hl p (list_elem_of_here _ _))) as [Hlv Ha'].
    specialize (IH (deallocate a p) Ha' Hd). destruct (compact (deallocate a p) m) as [a' m'].
    destruct IH as (I1 & I2 & I3 & I4 & I5 & I6 & I7 & I8).
    { intros q Hq. rewrite Hlv. apply elem_of_difference. split; [apply Hl; by right|].
      intros ->%elem_of_singleton. done. }
    split_and!; try done.
    + rewrite I2, Hlv, list_to_set_cons. apply set_eq. intros x.
      rewrite !elem_of_difference, elem_of_union. tauto.
    + rewrite I3. unfold entries. rewrite fmap_cons. cbn [concat snd]. rewrite filter_app.
      replace (filter (fun kv : KVPair => kv.1 <> KeyDefault) kvs) with (@nil KVPair); [done|].
      symmetry. clear -Ef. induction kvs as [|kv kvs IHk]; [done|]. cbn [forallb] in Ef.
      apply andb_true_iff in Ef as [E1 E2]. apply kv_match_true in E1.
      rewrite filter_cons_False by (by intros ?). auto.
    + by constructor.
    + intros q Hq. apply not_elem_of_cons in Hq as [? ?]. rewrite I6 by done. rewrite Hlv.
      rewrite elem_of_difference, elem_of_singleton. tauto.
    + intros P HP. apply I8. by apply Forall_cons in HP as [_ ?].
  - specialize (IH a Ha Hd). destruct (compact a m) as [a' m'].
    destruct IH as (I1 & I2 & I3 & I4 & I5 & I6 & I7 & I8); [intros q Hq; apply Hl; by right|].
    assert (Hpa : p ∈ live a') by (apply I6; [done|]; apply Hl; by left).
    rewrite fmap_cons. cbn [fst]. split_and!; try done.
    + rewrite !list_to_set_cons. apply set_eq. intros x. pose proof (f_equal (fun X => x ∈ X) I2) as I2x.
      simpl in I2x. rewrite !elem_of_difference in *. rewrite !elem_of_union.
      assert (I2' : x ∈ live a' /\ x ∉ (list_to_set m'.*1 : gset Z) <->
                    x ∈ live a /\ x ∉ (list_to_set m.*1 : gset Z)).
      { rewrite <-!elem_of_difference. by rewrite I2. }
      tauto.
    + unfold entries in *. rewrite !fmap_cons. cbn [concat snd]. by rewrite !filter_app, I3.
    + by constructor.
    + intros q [->|Hq]%elem_of_cons; auto.
    + intros q Hq. apply not_elem_of_cons in Hq as [? ?]. auto.
    + constructor; [|done]. cbn [snd]. clear -Ef. induction kvs as [|kv kvs IHk]; [done|].
      cbn [forallb] in Ef. apply andb_false_iff in Ef as [E|E].
      * exists kv. split; [by left|]. by apply kv_match_false.
      * destruct (IHk E) as (kv' & ? & ?). exists kv'. split; [by right|done].
    + intros P HP. apply Forall_cons in HP as [? ?]. constructor; auto.
Qed.

Lemma Map_remove_ok a m k :
  Map_inv a m -> k <> KeyDefault ->
  let '(a', m') := Map_remove a m k in
  Map_inv a' m' /\ map_foreign a' m' = map_foreign a m /\ entries m' = without k (entries m) /\
  map_owned m' ⊆ map_owned m /\ (k ∉ (slots m').*1).
Proof.
  intros [Ha Hl [Wl Wu Wa Wk]] Hk. unfold Map_remove. destruct (findKey m k) as [s|] eqn:Ef.
  - destruct (findKey_Some m k s Wa Ef) as (kv & L & R & [S1 S2 S3 S4 S5 S6] & Hkv & HnL & Hin).
    set (m1 := set_slot m s KVPair_default).
    assert (Hd1 : NoDup (map_owned m1)) by (unfold m1; by rewrite S5).
    assert (He1 : entries m1 = without k (entries m)).
    { unfold m1. rewrite (entries_of_slots_free _ _ _ _ (S3 KVPair_default)) by done.
      rewrite (entries_of_slots _ _ _ _ S1) in * by congruence.
      rewrite fmap_app, fmap_cons, Hkv in Wk. apply NoDup_app in Wk as (_ & D & N).
      apply NoDup_cons in N as [HnR _].
      unfold without at 3. rewrite filter_app, filter_cons_False by (intros X; by apply X).
      f_equal; symmetry; apply without_notin; [|done].
      intros Hx. apply (D k Hx). by left. }
    pose proof (compact_ok a m1 Ha Hd1) as Hc. destruct (compact a m1) as [a' m'].
    destruct Hc as (I1 & I2 & I3 & I4 & I5 & I6 & I7 & I8).
    { intros p. unfold m1. rewrite S5. apply Hl. }
    assert (Hent : entries m' = without k (entries m)) by (by rewrite I3).
    assert (Hfo : map_foreign a m1 = map_foreign a m) by (unfold map_foreign, m1; by rewrite S5).
    split_and!; try done.
    + split; try done. split; try done.
      * apply I8, S6. done.
      * by eapply sublist_NoDup.
      * rewrite Hent. eapply sublist_NoDup; [exact Wk|]. apply fmap_sublist, sublist_filter.
    + by rewrite I2.
    + intros p Hp. rewrite <-(S5 KVPair_default). by eapply elem_of_sublist.
    + intros Hx. apply list_elem_of_fmap in Hx as (kv' & -> & Hx).
      assert (Hin' : kv' ∈ entries m') by (apply list_elem_of_filter; split; done).
      rewrite Hent in Hin'. apply list_elem_of_filter in Hin' as [X _]. by apply X.
  - apply findKey_None in Ef. split_and!; try done.
    symmetry. apply without_notin. intros Hx. apply Ef.
    apply list_elem_of_fmap in Hx as (kv & -> & Hx). apply list_elem_of_filter in Hx as [_ Hx].
    by apply list_elem_of_fmap_2.
Qed.

Lemma Map_insert_ok a m k v :
  Map_inv a m -> k <> KeyDefault ->
  let '(r, a', m') := Map_insert a m k v in
  Map_inv a' m' /\ map_foreign a' m' = map_foreign a m /\
  match r with
  | Some s => entries m' ≡ₚ (k, v) :: without k (entries m) /\ get_slot m' s = Some (k, v) /\
              findKey m' k = Some s
  | None => entries m' = without k (entries m) /\
            exists a0, pool_inv a0 /\ allocate a0 sizeof_KVGroup = (None, a') /\ live a0 = live a'
  end.
Proof.
  intros Hm Hk. unfold Map_insert. pose proof (Map_remove_ok a m k Hm Hk) as Hr.
  destruct (Map_remove a m k) as [a1 m1]. destruct Hr as ([Ha1 Hl1 [Wl Wu Wa Wk]] & Hf & He & _ & Hnk).
  assert (Hkn : k ∉ (entries m1).*1).
  { rewrite He. intros (kv & -> & Hx)%list_elem_of_fmap. apply list_elem_of_filter in Hx as [X _].
    by apply X. }
  destruct (findKey m1 KeyDefault) as [s|] eqn:Ef.
  - destruct (findKey_Some m1 KeyDefault s Wa Ef) as (kv & L & R & Hsa & Hkv & HnL & Hin).
    pose proof Hsa as [S1 S2 S3 S4 S5 S6].
    assert (Hen : entries (set_slot m1 s (k, v)) ≡ₚ (k, v) :: entries m1).
    { rewrite (entries_of_slots _ _ _ _ (S3 (k, v))) by done.
      rewrite (entries_of_slots_free _ _ _ _ S1) by done. symmetry. apply Permutation_middle. }
    split_and!.
    + split; [done|by intros p; rewrite S5; apply Hl1|]. split.
      * by apply S6.
      * clear -Wu Hk Hin. unfold set_slot. apply Forall_fmap. eapply Forall_impl; [exact Wu|].
        intros [q kvs] (kv & Hkv & Hne). unfold compose. cbn [fst snd] in *.
        destruct (Z.eqb_spec q s.1); [|by exists kv]. cbn [snd fst].
        destruct (decide (s.2 < length kvs)%nat).
        -- exists (k, v). split; [|done]. by apply list_elem_of_insert.
        -- rewrite list_insert_ge by lia. by exists kv.
      * by rewrite S5.
      * rewrite Hen, fmap_cons. by constructor.
    + rewrite <-Hf. unfold map_foreign. by rewrite S5.
    + by rewrite Hen, He.
    + apply S4.
    + by eapply findKey_set.
  - unfold KVGroup_instantiate. destruct (allocate a1 sizeof_KVGroup) as [[p|] a2] eqn:Ea.
    + destruct (allocate_some a1 _ p a2 Ha1 Ea) as (_ & Hp & Hl2 & Ha2).
      assert (Hpo : p ∉ map_owned m1) by (intros Hp'; apply Hp; auto).
      assert (Hrep : exists N, NumKV = S N /\ <[O := (k, v)]> (replicate NumKV KVPair_default) =
        (k, v) :: replicate N KVPair_default) by (destruct NumKV as [|N]; [lia|by exists N]).
      destruct Hrep as (N & EN & ->).
      assert (Hen : entries ((p, (k, v) :: replicate N KVPair_default) :: m1) = (k, v) :: entries m1).
      { unfold entries. rewrite fmap_cons. cbn [concat snd]. rewrite filter_app, filter_cons_True by done.
        replace (filter (fun kv : KVPair => kv.1 <> KeyDefault) (replicate N KVPair_default))
          with (@nil KVPair); [done|].
        clear. induction N as [|N IH]; [done|]. cbn [replicate]. rewrite filter_cons_False; [done|].
        by intros X. }
      split_and!.
      * split; [done| |split].
        -- intros q [->|Hq]%elem_of_cons; rewrite Hl2; [set_solver|]. apply elem_of_union. right. auto.
        -- constructor; [cbn [snd length]; by rewrite length_replicate, EN|done].
        -- constructor; [|done]. exists (k, v). split; [by left|done].
        -- by constructor.
        -- cut (NoDup ((k, v) :: entries m1).*1); [by rewrite <-Hen|by constructor].
      * rewrite <-Hf. unfold map_foreign. rewrite Hl2. cbn [map_owned fmap list_fmap fst].
        rewrite list_to_set_cons. apply set_eq. intros x.
        rewrite !elem_of_difference, !elem_of_union, elem_of_singleton.
        destruct (decide (x = p)) as [->|]; [|tauto]. split; [tauto|]. intros [? _]. done.
      * by rewrite <-He, <-Hen.
      * unfold get_slot. cbn [List.find fst snd]. by rewrite Z.eqb_refl.
      * cbn [findKey KVGroup_find]. by rewrite (proj2 (kv_match_true (k, v) k) eq_refl).
    + destruct (allocate_none a1 _ a2 Ha1 Ea) as [Hl2 Ha2]. split_and!; try done.
      * split; [done| |done]. intros q Hq. rewrite Hl2. auto.
      * rewrite <-Hf. unfold map_foreign. by rewrite Hl2.
      * by exists a1.
Qed.

(** Running a predicate with state over pairs, in order: its final state and
    the pairs it spares. *)
Fixpoint run_predicate {S} (predicate : S -> Key -> Value -> bool * S) (st : S) (es : list KVPair)
    : S * list KVPair :=
  match es with
  | [] => (st, [])
  | kv :: es =>
    let '(b, st) := predicate st kv.1 kv.2 in
    let '(st, kept) := run_predicate predicate st es in
    (st, if b then kept else kv :: kept)
  end.

Lemma run_predicate_app {S} (predicate : S -> Key -> Value -> bool * S) st es es' :
  run_predicate predicate st (es ++ es') =
  let '(st1, k1) := run_predicate predicate st es in
  let '(st2, k2) := run_predicate predicate st1 es' in (st2, k1 ++ k2).
Proof.
  revert st. induction es as [|kv es IH]; intros st; cbn [run_predicate app].
  - by destruct (run_predicate predicate st es').
  - destruct (predicate st kv.1 kv.2) as [b st1]. rewrite IH.
    destruct (run_predicate predicate st1 es) as [st2 k1].
    destruct (run_predicate predicate st2 es') as [st3 k2]. by destruct b.
Qed.

Lemma removeWhere_group_ok {S} (predicate : S -> Key -> Value -> bool * S) st kvs :
  let '(st', kvs', n) := removeWhere_group predicate st kvs in
  run_predicate predicate st (without KeyDefault kvs) = (st', without KeyDefault kvs') /\
  length kvs' = length kvs /\ (n = O -> kvs' = kvs).
Proof.
  revert st. induction kvs as [|kv kvs IH]; intros st; cbn [removeWhere_group]; [done|].
  destruct (kv_match kv KeyDefault) eqn:E.
  - apply kv_match_true in E. specialize (IH st).
    destruct (removeWhere_group predicate st kvs) as [[st' kvs'] n]. destruct IH as (I1 & I2 & I3).
    unfold without in *. rewrite !filter_cons_False by (intros X; by apply X).
    split_and!; [done|simpl; lia|]. intros Hn. by rewrite I3.
  - apply kv_match_false in E. destruct (predicate st kv.1 kv.2) as [b st1] eqn:Ep.
    specialize (IH st1). destruct (removeWhere_group predicate st1 kvs) as [[st' kvs'] n].
    destruct IH as (I1 & I2 & I3). unfold without in *. rewrite filter_cons_True by done.
    cbn [run_predicate]. rewrite Ep, I1. destruct b.
    + rewrite filter_cons_False by (intros X; by apply X). split_and!; [done|simpl; lia|done].
    + rewrite filter_cons_True by done. split_and!; [done|simpl; lia|]. intros Hn. by rewrite I3.
Qed.

Lemma removeWhere_groups_ok {S} (predicate : S -> Key -> Value -> bool * S) st (m : Map) :
  let '(st', m', n) := removeWhere_groups predicate st m in
  run_predicate predicate st (entries m) = (st', entries m') /\
  map_owned m' = map_owned m /\ (n = O -> m' = m) /\
  (forall N, Forall (fun g : KVGroup => length g.2 = N) m ->
             Forall (fun g : KVGroup => length g.2 = N) m').
Proof.
  revert st. induction m as [|[p kvs] m IH]; intros st; cbn [removeWhere_groups]; [done|].
  pose proof (removeWhere_group_ok predicate st kvs) as Hg.
  destruct (removeWhere_group predicate st kvs) as [[st1 kvs'] n1]. destruct Hg as (G1 & G2 & G3).
  specialize (IH st1). destruct (removeWhere_groups predicate st1 m) as [[st2 m'] n2].
  destruct IH as (I1 & I2 & I3 & I4). split_and!.
  - unfold entries. rewrite !fmap_cons. cbn [concat snd]. rewrite !filter_app, run_predicate_app.
    unfold without in G1. rewrite G1. fold (entries m). rewrite I1. done.
  - unfold map_owned in *. rewrite !fmap_cons. by rewrite I2.
  - intros Hn. rewrite G3, I3 by lia. done.
  - intros N. rewrite !Forall_cons. cbn [snd]. rewrite G2. intros [? ?]. auto.
Qed.

(** The pairs kept are a sublist of the pairs. *)
Lemma run_predicate_sublist {S} (predicate : S -> Key -> Value -> bool * S) st es :
  (run_predicate predicate st es).2 `sublist_of` es.
Proof.
  revert st. induction es as [|kv es IH]; intros st; cbn [run_predicate]; [done|].
  destruct (predicate st kv.1 kv.2) as [b st1]. specialize (IH st1).
  destruct (run_predicate predicate st1 es) as [st2 kept]. by destruct b; constructor.
Qed.

Lemma removeAllWhere_ok {S} (get_pool : S -> A) (put_pool : A -> S -> S)
    (predicate : S -> Key -> Value -> bool * S) st (m : Map) st1 kept :
  (forall a st, get_pool (put_pool a st) = a) ->
  Map_wf m -> run_predicate predicate st (entries m) = (st1, kept) ->
  pool_inv (get_pool st1) -> (forall p, p ∈ map_owned m -> p ∈ live (get_pool st1)) ->
  let '(st', m') := removeAllWhere get_pool put_pool predicate st m in
  Map_inv (get_pool st') m' /\ map_foreign (get_pool st') m' = map_foreign (get_pool st1) m /\
  entries m' = kept /\ (st' = st1 \/ exists a, st' = put_pool a st1).
Proof.
  intros Hgp [Wl Wu Wa Wk] Hrun Hp Hl. unfold removeAllWhere.
  pose proof (removeWhere_groups_ok predicate st m) as Hg.
  destruct (removeWhere_groups predicate st m) as [[st' m'] n]. destruct Hg as (G1 & G2 & G3 & G4).
  rewrite Hrun in G1. injection G1 as <- He.
  assert (Hks : NoDup kept.*1).
  { eapply sublist_NoDup; [exact Wk|]. apply fmap_sublist.
    pose proof (run_predicate_sublist predicate st (entries m)) as Hs. by rewrite Hrun in Hs. }
  destruct (Nat.ltb_spec 0 n).
  - pose proof (compact_ok (get_pool st1) m' Hp) as Hc. rewrite G2 in Hc. specialize (Hc Wa Hl).
    destruct (compact (get_pool st1) m') as [a' m''].
    destruct Hc as (I1 & I2 & I3 & I4 & I5 & I6 & I7 & I8). rewrite Hgp. split_and!; try done.
    + split; [done|done|]. split; [auto|done|by eapply sublist_NoDup|by rewrite I3, <-He].
    + rewrite I2. unfold map_foreign. by rewrite G2.
    + by rewrite I3.
    + right. by exists a'.
  - rewrite G3 in * by lia. split_and!; try done; try (by left).
Qed.

Lemma Map_clear_ok a m :
  Map_inv a m ->
  let '(a', m') := Map_clear a m in m' = [] /\ pool_inv a' /\ live a' = map_foreign a m.
Proof.
  intros [Hp Hl Hw]. unfold Map_clear.
  assert (Hrun : forall es, run_predicate (fun (a : A) (_ : Key) (_ : Value) => (true, a)) a es = (a, [])).
  { induction es as [|kv es IH]; [done|]. cbn [run_predicate]. by rewrite IH. }
  pose proof (removeAllWhere_ok id (fun a _ => a) (fun a _ _ => (true, a)) a m a [] (fun _ _ => eq_refl)
    Hw (Hrun _) Hp Hl) as Hr.
  destruct (removeAllWhere _ _ _ _ _) as [a' m']. destruct Hr as ([Hp' Hl' [_ Wu _ _]] & Hf & He & _).
  unfold id in *. destruct m' as [|[p kvs] m'].
  - split_and!; try done. rewrite <-Hf. unfold map_foreign. simpl. set_solver.
  - exfalso. apply Forall_cons in Wu as [(kv & Hin & Hk) _]. cbn [snd] in Hin.
    assert (Hx : kv ∈ ([] : list KVPair)).
    { rewrite <-He. apply list_elem_of_filter. split; [done|]. rewrite fmap_cons. cbn [concat snd].
      apply elem_of_app. by left. }
    by apply elem_of_nil in Hx.
Qed.

Lemma find_in_ok predicate kvs :
  find_in predicate kvs = fst <$> List.find (fun kv : KVPair => predicate kv.1 kv.2) (without KeyDefault kvs).
Proof.
  induction kvs as [|kv kvs IH]; [done|]. cbn [find_in]. unfold without in *.
  destruct (kv_match kv KeyDefault) eqn:E.
  - apply kv_match_true in E. by rewrite filter_cons_False by (intros X; by apply X).
  - apply kv_match_false in E. rewrite filter_cons_True by done. cbn [List.find].
    by destruct (predicate kv.1 kv.2).
Qed.

Lemma find_app {X} (f : X -> bool) l1 l2 :
  List.find f (l1 ++ l2) = match List.find f l1 with Some x => Some x | None => List.find f l2 end.
Proof. induction l1 as [|x l1 IH]; [done|]. simpl. by destruct (f x). Qed.

Lemma Map_find_ok predicate (m : Map) :
  Map_find predicate m = fst <$> List.find (fun kv : KVPair => predicate kv.1 kv.2) (entries m).
Proof.
  induction m as [|[p kvs] m IH]; [done|]. cbn [Map_find]. unfold entries in *. rewrite fmap_cons.
  cbn [concat snd]. rewrite filter_app, find_app, find_in_ok. unfold without.
  by destruct (List.find _ (filter _ kvs)).
Qed.

Lemma getByIndex_group_ok kvs i :
  getByIndex_group kvs i =
  match without KeyDefault kvs !! i with
  | Some kv => inl kv
  | None => inr (i - length (without KeyDefault kvs))%nat
  end.
Proof.
  revert i. induction kvs as [|kv kvs IH]; intros i; cbn [getByIndex_group].
  - simpl. by rewrite Nat.sub_0_r.
  - unfold without in *. destruct (kv_match kv KeyDefault) eqn:E.
    + apply kv_match_true in E. by rewrite filter_cons_False by (intros X; by apply X).
    + apply kv_match_false in E. rewrite filter_cons_True by done. destruct i as [|i]; [done|]. apply IH.
Qed.

Lemma getByIndex_ok (m : Map) i : getByIndex m i = entries m !! i.
Proof.
  revert i. induction m as [|[p kvs] m IH]; intros i; [done|]. cbn [getByIndex].
  rewrite getByIndex_group_ok. unfold entries in *. rewrite fmap_cons. cbn [concat snd].
  rewrite filter_app, lookup_app. unfold without. destruct (filter _ kvs !! i); [done|]. apply IH.
Qed.

Lemma getSize_ok (m : Map) : getSize m = length (entries m).
Proof.
  induction m as [|[p kvs] m IH]; [done|]. unfold getSize, entries in *. cbn [foldr].
  rewrite IH, fmap_cons. cbn [concat snd]. rewrite filter_app, length_app. f_equal. f_equal.
  apply list_filter_iff. intros kv. apply kv_match_false.
Qed.

Lemma Map_access_ok a m k :
  Map_inv a m -> k <> KeyDefault ->
  match Map_access m k with
  | Some s => exists v, get_slot m s = Some (k, v) /\ (k, v) ∈ entries m
  | None => k ∉ (entries m).*1
  end.
Proof.
  intros [_ _ [_ _ Wa _]] Hk. unfold Map_access. destruct (findKey m k) as [s|] eqn:Ef.
  - destruct (findKey_Some m k s Wa Ef) as ([k' v] & L & R & [S1 S2 _ _ _ _] & Hkv & _ & _).
    cbn [fst] in Hkv. subst k'. exists v. split; [done|].
    rewrite (entries_of_slots _ _ _ _ S1) by done. apply elem_of_app. right. by left.
  - apply findKey_None in Ef. intros Hx. apply Ef.
    apply list_elem_of_fmap in Hx as (kv & -> & Hx). apply list_elem_of_filter in Hx as [_ Hx].
    by apply list_elem_of_fmap_2.
Qed.

(** Storing a value through the pointer [access] gave. *)
Lemma Map_update_ok a m k s v v' :
  Map_inv a m -> k <> KeyDefault -> Map_access m k = Some s -> get_slot m s = Some (k, v) ->
  Map_inv a (set_slot m s (k, v')) /\ map_owned (set_slot m s (k, v')) = map_owned m /\
  get_slot (set_slot m s (k, v')) s = Some (k, v') /\
  exists L R, entries m = L ++ (k, v) :: R /\ entries (set_slot m s (k, v')) = L ++ (k, v') :: R.
Proof.
  intros [Hp Hl [Wl Wu Wa Wk]] Hk Hacc Hget. unfold Map_access in Hacc.
  destruct (findKey_Some m k s Wa Hacc) as (kv & L & R & [S1 S2 S3 S4 S5 S6] & Hkv & _ & _).
  rewrite S2 in Hget. injection Hget as ->.
  pose proof (entries_of_slots _ _ _ _ S1 Hk) as E1.
  pose proof (entries_of_slots _ _ _ _ (S3 (k, v')) Hk) as E2. split_and!; [|done|done|].
  - split; [done|by intros p; rewrite S5; apply Hl|]. split; [by apply S6| |by rewrite S5|].
    + unfold set_slot. apply Forall_fmap. eapply Forall_impl; [exact Wu|].
      intros [q kvs] (kv & Hin & Hne). unfold compose. cbn [fst snd] in *.
      destruct (Z.eqb_spec q s.1); [|by exists kv]. cbn [snd fst].
      destruct (decide (s.2 < length kvs)%nat).
      * exists (k, v'). split; [|done]. by apply list_elem_of_insert.
      * rewrite list_insert_ge by lia. by exists kv.
    + rewrite E2. rewrite E1 in Wk. by rewrite fmap_app, fmap_cons in *.
  - by exists (without KeyDefault L), (without KeyDefault R).
Qed.

(** C37: the container is a finite map kept in pool blocks: no key is stored
    twice, [access] finds exactly the stored keys, [insert] replaces the pair of
    its key and adds the new one, or, when the pool refuses a block, leaves the
    map without that key, [remove] takes out only its key, the enumeration
    [getByIndex], [getSize] and [isEmpty] agree with the pairs, and [clear]
    returns every block it took; the blocks of other users of the pool stay
    theirs. *)
Theorem pool_map_is_a_finite_map a m k v :
  Map_inv a m -> k <> KeyDefault ->
  NoDup (entries m).*1 /\
  (match Map_access m k with
   | Some s => exists v, get_slot m s = Some (k, v) /\ (k, v) ∈ entries m
   | None => k ∉ (entries m).*1
   end) /\
  (let '(r, a', m') := Map_insert a m k v in
   Map_inv a' m' /\ map_foreign a' m' = map_foreign a m /\
   match r with
   | Some s => entries m' ≡ₚ (k, v) :: without k (entries m) /\ get_slot m' s = Some (k, v)
   | None => entries m' = without k (entries m) /\
             exists a0, pool_inv a0 /\ allocate a0 sizeof_KVGroup = (None, a') /\ live a0 = live a'
   end) /\
  (let '(a', m') := Map_remove a m k in
   Map_inv a' m' /\ map_foreign a' m' = map_foreign a m /\ entries m' = without k (entries m)) /\
  getSize m = length (entries m) /\ (forall i, getByIndex m i = entries m !! i) /\
  (Map_isEmpty m = true <-> entries m = []) /\
  (let '(a', m') := Map_clear a m in m' = [] /\ pool_inv a' /\ live a' = map_foreign a m).
Proof.
  intros Hm Hk. split_and!.
  - apply Hm.
  - by eapply Map_access_ok.
  - pose proof (Map_insert_ok a m k v Hm Hk) as Hi. destruct (Map_insert a m k v) as [[[s|] a'] m']; tauto.
  - pose proof (Map_remove_ok a m k Hm Hk) as Hr. destruct (Map_remove a m k) as [a' m']. tauto.
  - apply getSize_ok.
  - apply getByIndex_ok.
  - unfold Map_isEmpty. rewrite Map_find_ok. by destruct (entries m).
  - by apply Map_clear_ok.
Qed.

End laws.

End map.

Lemma pool_map_is_a_finite_map_witness :
  let pool := PoolAllocator_init 4096 640 64 in
  let '(r, a', m') := Map_insert 0 0 3 64 pool ([] : Map) 7 100 in
  Map_inv 0 3 a' m' /\ map_foreign a' m' = map_foreign pool ([] : @Map Z Z).
Proof.
  intros pool.
  assert (Hinv : Map_inv (Key := Z) (Value := Z) 0 3 pool []).
  { split; [exact (proj1 (PoolAllocator_init_ok 4096 640 64 eq_refl eq_refl
      ltac:(vm_compute; split; done)))|by intros p Hp%elem_of_nil|].
    split; constructor. }
  pose proof (pool_map_is_a_finite_map 0 0 3 64 ltac:(lia) pool [] 7 100 Hinv ltac:(done))
    as (_ & _ & Hi & _).
  destruct (Map_insert 0 0 3 64 pool [] 7 100) as [[r a'] m']. exact (conj (proj1 Hi) (proj1 (proj2 Hi))).
Defined.
