(* ===== verification/PoolMultiset.v ===== *)
(** * PoolMultiset: the multiset container of the memory pool

    Models [Multiset<T>] of [libuavcan/include/uavcan/util/multiset.hpp]: a linked list
    of chunks of [NumItems] slots in pool blocks. A slot holds a constructed object or
    none; a pointer to an object is the address of its chunk and its index. [NumItems]
    and [sizeof(Chunk)] depend on the platform and are parameters. Construction and
    destruction of the items have no other effects for the types the library stores. *)

From stdpp Require Import gmap.
From S2P Require Import Prelude LinkedList PoolAllocator.
Local Open Scope Z_scope.

Section multiset.
Context {T : Type} (NumItems : nat) (sizeof_Chunk : Z).
Context {A : Type} `{IPoolAllocator A}.

(** [struct Item]: the object [ptr] points to, if it is constructed. *)
Definition Item : Type := option T.
Definition isConstructed (i : Item) : bool := match i with Some _ => true | None => false end.

(** [struct Chunk], with its address. *)
Definition Chunk : Type := Z * list Item.
Definition Multiset : Type := list Chunk.
Definition ItemPtr : Type := Z * nat.

(** [static Chunk* Chunk::instantiate(IPoolAllocator& allocator)]. *)
Definition Chunk_instantiate (a : A) : option Chunk * A :=
  match allocate a sizeof_Chunk with
  | (None, a) => (None, a)
  | (Some p, a) => (Some (p, replicate NumItems None), a)
  end.

(** [Item* Chunk::findFreeSlot()]. *)
Fixpoint findFreeSlot (items : list Item) : option nat :=
  match items with
  | [] => None
  | i :: items => if isConstructed i then S <$> findFreeSlot items else Some O
  end.

(** The search of [findOrCreateFreeSlot]. *)
Fixpoint search_free (m : Multiset) : option ItemPtr :=
  match m with
  | [] => None
  | (p, items) :: m => match findFreeSlot items with Some i => Some (p, i) | None => search_free m end
  end.

(** [Item* Multiset::findOrCreateFreeSlot()]. *)
Definition findOrCreateFreeSlot (a : A) (m : Multiset) : option ItemPtr * A * Multiset :=
  match search_free m with
  | Some s => (Some s, a, m)
  | None =>
    match Chunk_instantiate a with
    | (None, a) => (None, a, m)
    | (Some (p, items), a) => (Some (p, O), a, (p, items) :: m)
    end
  end.

(** Storing to the slot of a pointer, and reading it. *)
Definition set_item (m : Multiset) (s : ItemPtr) (i : Item) : Multiset :=
  (fun c : Chunk => if c.1 =? s.1 then (c.1, <[s.2 := i]> c.2) else c) <$> m.
Definition get_item (m : Multiset) (s : ItemPtr) : option T :=
  c ← List.find (fun c : Chunk => c.1 =? s.1) m; i ← c.2 !! s.2; i.

(** [T* Multiset::emplace(...)] for an object [x]. *)
Definition emplace (a : A) (m : Multiset) (x : T) : option ItemPtr * A * Multiset :=
  let '(s, a, m) := findOrCreateFreeSlot a m in
  match s with
  | None => (None, a, m)
  | Some s => (Some s, a, set_item m s (Some x))
  end.

(** [void Multiset::compact()]. *)
Fixpoint compact_chunks (a : A) (m : Multiset) : A * Multiset :=
  match m with
  | [] => (a, [])
  | (p, items) :: m =>
    if existsb isConstructed items then let '(a, m) := compact_chunks a m in (a, (p, items) :: m)
    else compact_chunks (deallocate a p) m
  end.

Inductive RemoveStrategy := RemoveOne | RemoveAll.

(** The loop of [removeWhere] over the items of a chunk. *)
Fixpoint removeWhere_items (strategy : RemoveStrategy) (predicate : T -> bool) (items : list Item) : list Item * nat :=
  match items with
  | [] => ([], O)
  | i :: items =>
    match i with
    | Some x =>
      if predicate x then
        match strategy with
        | RemoveOne => (None :: items, 1%nat)
        | RemoveAll => let '(items, n) := removeWhere_items strategy predicate items in (None :: items, S n)
        end
      else let '(items, n) := removeWhere_items strategy predicate items in (i :: items, n)
    | None => let '(items, n) := removeWhere_items strategy predicate items in (i :: items, n)
    end
  end.

(** The loop of [removeWhere] over the chunks. *)
Fixpoint removeWhere_chunks (strategy : RemoveStrategy) (predicate : T -> bool) (num_removed : nat) (m : Multiset)
    : Multiset * nat :=
  match m with
  | [] => ([], num_removed)
  | (p, items) :: next =>
    match strategy, num_removed with
    | RemoveOne, S _ => (m, num_removed)
    | _, _ =>
      let '(items, n) := removeWhere_items strategy predicate items in
      let '(next, num_removed) := removeWhere_chunks strategy predicate (num_removed + n) next in
      ((p, items) :: next, num_removed)
    end
  end.

(** [void Multiset::removeWhere(Predicate predicate, const RemoveStrategy strategy)]. *)
Definition removeWhere (strategy : RemoveStrategy) (predicate : T -> bool) (a : A) (m : Multiset) : A * Multiset :=
  let '(m, num_removed) := removeWhere_chunks strategy predicate O m in
  if (0 <? num_removed)%nat then compact_chunks a m else (a, m).

Definition Multiset_removeAllWhere := removeWhere RemoveAll.
Definition removeFirstWhere := removeWhere RemoveOne.

(** [void clear()]. *)
Definition Multiset_clear (a : A) (m : Multiset) : A * Multiset := Multiset_removeAllWhere (fun _ => true) a m.

(** [T* Multiset::find(Predicate predicate)]; the predicate may have a state. *)
Fixpoint find_items {S} (predicate : S -> T -> bool * S) (st : S) (items : list Item) (i : nat) : S + nat :=
  match items with
  | [] => inl st
  | Some x :: items =>
    let '(found, st) := predicate st x in
    if found then inr i else find_items predicate st items (Datatypes.S i)
  | None :: items => find_items predicate st items (Datatypes.S i)
  end.

Fixpoint Multiset_find {S} (predicate : S -> T -> bool * S) (st : S) (m : Multiset) : option ItemPtr :=
  match m with
  | [] => None
  | (p, items) :: m =>
    match find_items predicate st items O with
    | inr i => Some (p, i)
    | inl st => Multiset_find predicate st m
    end
  end.

(** [IndexPredicate::operator()]: [index-- == 0]. *)
Definition IndexPredicate (index : Z) (_ : T) : bool * Z := (index =? 0, u32 (index - 1)).

(** [T* Multiset::getByIndex(unsigned index)]. *)
Definition Multiset_getByIndex (m : Multiset) (index : Z) : option ItemPtr := Multiset_find IndexPredicate index m.

(** [bool isEmpty() const]. *)
Definition Multiset_isEmpty (m : Multiset) : bool :=
  match Multiset_find (fun (_ : unit) _ => (true, tt)) tt m with None => true | Some _ => false end.

(** [OperatorToFalsePredicateAdapter]: an operator that updates the item it is given (and
    may keep a state [S]) and never says stop, as [find] runs it over a chunk. *)
Fixpoint forEach_items {S} (oper : S -> T -> T * S) (st : S) (items : list Item) : list Item * S :=
  match items with
  | [] => ([], st)
  | Some x :: items =>
    let '(x, st) := oper st x in
    let '(items, st) := forEach_items oper st items in (Some x :: items, st)
  | None :: items => let '(items, st) := forEach_items oper st items in (None :: items, st)
  end.

(** [void Multiset::forEach(Operator oper)]. *)
Fixpoint Multiset_forEach {S} (oper : S -> T -> T * S) (st : S) (m : Multiset) : Multiset * S :=
  match m with
  | [] => ([], st)
  | (p, items) :: m =>
    let '(items, st) := forEach_items oper st items in
    let '(m, st) := Multiset_forEach oper st m in ((p, items) :: m, st)
  end.

(** [unsigned Multiset::getSize() const]. *)
Definition Multiset_getSize (m : Multiset) : Z :=
  foldl (fun num (c : Chunk) => foldl (fun num i => u32 (num + if isConstructed i then 1 else 0)) num c.2) 0 m.

(** The objects of the container in its order. *)
Definition elements (m : Multiset) : list T := omap id (concat m.*2).
Definition chunk_addrs (m : Multiset) : list Z := m.*1.

(** Chunks of [NumItems] slots, none empty, at different addresses. *)
Record Multiset_wf (m : Multiset) : Prop := {
  msw_len : Forall (fun c : Chunk => length c.2 = NumItems) m;
  msw_used : Forall (fun c : Chunk => existsb isConstructed c.2 = true) m;
  msw_addr : NoDup (chunk_addrs m)
}.

(** ** Slots *)

(** Running an operator along a list, which is what [forEach] does to the objects. *)
Fixpoint run_oper {S} (oper : S -> T -> T * S) (st : S) (l : list T) : list T * S :=
  match l with
  | [] => ([], st)
  | x :: l => let '(x, st) := oper st x in let '(l, st) := run_oper oper st l in (x :: l, st)
  end.

Abbreviation slots m := (concat (m : Multiset).*2).

Lemma findFreeSlot_Some items i :
  findFreeSlot items = Some i -> exists l r, items = l ++ None :: r /\ length l = i.
Proof.
  revert i. induction items as [|[x|] items IH]; intros i; cbn [findFreeSlot isConstructed]; [done| |].
  - destruct (findFreeSlot items) as [j|]; [|done]. intros [= <-]. destruct (IH j eq_refl) as (l & r & -> & <-).
    by exists (Some x :: l), r.
  - intros [= <-]. by exists [], items.
Qed.

(** A slot among all slots, and what storing to it does. *)
Record item_at (m : Multiset) (s : ItemPtr) (i : Item) (L R : list Item) : Prop := {
  ia_slots : slots m = L ++ i :: R;
  ia_get : get_item m s = i;
  ia_set j : slots (set_item m s j) = L ++ j :: R;
  ia_get_set j : get_item (set_item m s j) s = j;
  ia_addr j : chunk_addrs (set_item m s j) = chunk_addrs m;
  ia_len n j : Forall (fun c : Chunk => length c.2 = n) m -> Forall (fun c : Chunk => length c.2 = n) (set_item m s j);
  ia_used x : Forall (fun c : Chunk => existsb isConstructed c.2 = true) m ->
    Forall (fun c : Chunk => existsb isConstructed c.2 = true) (set_item m s (Some x))
}.

Lemma set_item_other (m : Multiset) p i x : p ∉ m.*1 -> set_item m (p, i) x = m.
Proof.
  intros Hn. induction m as [|[q items] m IH]; [done|].
  apply not_elem_of_cons in Hn as [Hne Hn]. cbn [fst] in Hne. unfold set_item in *.
  rewrite fmap_cons, IH by done. cbn [fst]. by destruct (Z.eqb_spec q p).
Qed.

Lemma item_at_here p l i r (m : Multiset) : p ∉ m.*1 ->
  item_at ((p, l ++ i :: r) :: m) (p, length l) i l (r ++ slots m).
Proof.
  intros Hp. assert (Hset : forall j, set_item ((p, l ++ i :: r) :: m) (p, length l) j = (p, l ++ j :: r) :: m).
  { intros j. unfold set_item. rewrite fmap_cons. cbn [fst snd]. rewrite Z.eqb_refl. f_equal.
    - f_equal. rewrite <-(Nat.add_0_r (length l)), insert_app_r. done.
    - apply (set_item_other m p (length l) j Hp). }
  assert (Hget : forall j, get_item ((p, l ++ j :: r) :: m) (p, length l) = j).
  { intros j. unfold get_item. cbn [List.find fst snd]. rewrite Z.eqb_refl. cbn [mbind option_bind snd].
    cbn [snd]. rewrite lookup_app_r by reflexivity. by rewrite Nat.sub_diag. }
  split; intros; rewrite ?Hset, ?fmap_cons; cbn [concat snd]; rewrite <-?app_assoc; try done.
  - apply Forall_cons in H0 as [Hl Hm]. constructor; [|done]. cbn [snd] in *. by rewrite length_app in *.
  - apply Forall_cons in H0 as [Hl Hm]. constructor; [|done]. cbn [snd]. rewrite existsb_app. cbn. apply orb_true_r.
Qed.

Lemma item_at_cons q items (m : Multiset) p k i L R : q <> p ->
  item_at m (p, k) i L R -> item_at ((q, items) :: m) (p, k) i (items ++ L) R.
Proof.
  intros Hne [S1 S2 S3 S4 S5 S6 S7].
  assert (Hset : forall j, set_item ((q, items) :: m) (p, k) j = (q, items) :: set_item m (p, k) j).
  { intros j. unfold set_item. rewrite fmap_cons. cbn [fst]. by destruct (Z.eqb_spec q p). }
  assert (Hget : forall m', get_item ((q, items) :: m') (p, k) = get_item m' (p, k)).
  { intros m'. unfold get_item. cbn [List.find fst]. by destruct (Z.eqb_spec q p). }
  split; intros; rewrite ?Hset, ?Hget, ?fmap_cons; cbn [concat snd]; rewrite <-?app_assoc, ?S1, ?S3; try done.
  - unfold chunk_addrs in *. by rewrite !fmap_cons, S5.
  - apply Forall_cons in H0 as [Hl Hm]. constructor; auto.
  - apply Forall_cons in H0 as [Hl Hm]. constructor; auto.
Qed.

Lemma search_free_Some m s : NoDup (chunk_addrs m) -> search_free m = Some s -> exists L R, item_at m s None L R.
Proof.
  induction m as [|[q items] m IH]; [done|]. unfold chunk_addrs. rewrite fmap_cons. intros [Hq Hd]%NoDup_cons. cbn [search_free].
  destruct (findFreeSlot items) as [i|] eqn:Ef.
  - intros [= <-]. destruct (findFreeSlot_Some items i Ef) as (l & r & -> & <-). eexists _, _. by apply item_at_here.
  - intros Hs. destruct (IH Hd Hs) as (L & R & Hat). destruct s as [p k]. eexists _, _. apply item_at_cons; [|exact Hat].
    intros ->. cbn [fst] in Hq. clear -Hs Hq. revert Hs. induction m as [|[q' it] m IHm]; [done|]. cbn [search_free].
    rewrite fmap_cons in Hq. apply not_elem_of_cons in Hq as [Hne Hq]. destruct (findFreeSlot it); [|auto]. intros [= <- _]. done.
Qed.

Lemma elements_of_slots m L (i : Item) R : slots m = L ++ i :: R -> elements m = omap id L ++ omap id [i] ++ omap id R.
Proof. intros E. unfold elements. rewrite E, omap_app. f_equal. by destruct i. Qed.

(** ** Removal on the list level *)

Definition removed (strategy : RemoveStrategy) (predicate : T -> bool) (l : list T) : list T :=
  match strategy with
  | RemoveOne => remove_first predicate l
  | RemoveAll => filter (fun x => predicate x = false) l
  end.

Lemma remove_first_app_in {X} (f : X -> bool) l1 l2 : existsb f l1 = true -> remove_first f (l1 ++ l2) = remove_first f l1 ++ l2.
Proof. induction l1 as [|x l1 IH]; [done|]. cbn. destruct (f x); [done|]. intros E. by rewrite IH. Qed.

Lemma remove_first_app_out {X} (f : X -> bool) l1 l2 : existsb f l1 = false -> remove_first f (l1 ++ l2) = l1 ++ remove_first f l2.
Proof. induction l1 as [|x l1 IH]; [done|]. cbn. destruct (f x); [done|]. intros E. by rewrite IH. Qed.

Lemma remove_first_none {X} (f : X -> bool) l : existsb f l = false -> remove_first f l = l.
Proof. intros E. pose proof (remove_first_app_out f l [] E) as H1. by rewrite !app_nil_r in H1. Qed.

Lemma removeWhere_items_ok st pred items :
  let '(items', n) := removeWhere_items st pred items in
  omap id items' = removed st pred (omap id items) /\ length items' = length items /\
  ((0 < n)%nat <-> existsb pred (omap id items) = true).
Proof.
  induction items as [|[x|] items IH]; cbn [removeWhere_items].
  - destruct st; cbn; split_and!; try done; (split; [lia|done]).
  - destruct (pred x) eqn:E.
    + destruct st.
      * cbn. rewrite E. split_and!; try done. split; [done|lia].
      * destruct (removeWhere_items RemoveAll pred items) as [items' n]. destruct IH as (I1 & I2 & I3).
        cbn [omap list_omap id removed existsb length] in *. rewrite E. cbn [orb]. rewrite filter_cons_False by congruence.
        split_and!; [done|by rewrite I2|split; [done|lia]].
    + destruct (removeWhere_items st pred items) as [items' n]. destruct IH as (I1 & I2 & I3).
      cbn [omap list_omap id existsb length]. rewrite E. cbn [orb]. split_and!; [|by rewrite I2|done].
      change (list_omap T T) with (@omap list list_omap T T). rewrite I1.
      destruct st; cbn [removed remove_first]; [by rewrite E|by rewrite filter_cons_True].
  - destruct (removeWhere_items st pred items) as [items' n]. destruct IH as (I1 & I2 & I3).
    split_and!; [exact I1|cbn; by rewrite I2|exact I3].
Qed.

Lemma removed_app st pred l1 l2 :
  (st = RemoveOne -> existsb pred l1 = true) -> removed st pred l1 ++ (match st with RemoveOne => l2 | RemoveAll => removed st pred l2 end) =
    removed st pred (l1 ++ l2).
Proof.
  destruct st; cbn [removed]; intros Hs; [by rewrite remove_first_app_in by auto|by rewrite filter_app].
Qed.

Lemma removeWhere_chunks_ok st pred k m :
  let '(m', n) := removeWhere_chunks st pred k m in
  elements m' = (match st, k with RemoveOne, S _ => elements m | _, _ => removed st pred (elements m) end) /\
  chunk_addrs m' = chunk_addrs m /\
  (forall len, Forall (fun c : Chunk => length c.2 = len) m -> Forall (fun c : Chunk => length c.2 = len) m') /\
  (k <= n)%nat /\ ((k = 0 /\ n = 0)%nat -> m' = m).
Proof.
  revert k. induction m as [|[p items] m IH]; intros k; cbn [removeWhere_chunks].
  { unfold elements. cbn. destruct st, k; split_and!; cbn; try done. }
  assert (Hbody : (st = RemoveAll \/ k = O) ->
    let '(m', n) := (let '(items', n) := removeWhere_items st pred items in
      let '(next, num_removed) := removeWhere_chunks st pred (k + n) m in ((p, items') :: next, num_removed)) in
    elements m' = removed st pred (elements ((p, items) :: m)) /\ chunk_addrs m' = chunk_addrs ((p, items) :: m) /\
    (forall len, Forall (fun c : Chunk => length c.2 = len) ((p, items) :: m) -> Forall (fun c : Chunk => length c.2 = len) m') /\
    (k <= n)%nat /\ ((k = 0 /\ n = 0)%nat -> m' = (p, items) :: m)).
  { intros Hk. pose proof (removeWhere_items_ok st pred items) as Hi. destruct (removeWhere_items st pred items) as [items' n] eqn:Ei.
    destruct Hi as (I1 & I2 & I3). specialize (IH (k + n)%nat). destruct (removeWhere_chunks st pred (k + n) m) as [m' n'] eqn:Ec.
    destruct IH as (J1 & J2 & J3 & J4 & J5). unfold elements, chunk_addrs in *. rewrite !fmap_cons. cbn [concat fst snd].
    rewrite !omap_app, J1, J2, I1. split_and!; [|done| |lia|].
    - destruct st; [|symmetry; apply (filter_app _ _ _)]. destruct Hk as [|Hk]; [done|]. subst k. cbn [Nat.add].
      destruct n as [|n].
      + assert (E : existsb pred (omap id items) = false) by (destruct (existsb _ _); [lia|done]).
        cbn [removed]. rewrite remove_first_app_out by done. by rewrite remove_first_none.
      + cbn [removed]. rewrite remove_first_app_in; [done|]. apply I3. lia.
    - intros len [Hl Hm]%Forall_cons. constructor; [cbn [snd] in *; lia|auto].
    - intros [-> ->]. assert (n = O) as -> by lia. rewrite J5 by lia. f_equal. f_equal.
      clear -Ei. revert items' Ei. induction items as [|[x|] items IH]; cbn [removeWhere_items]; [by intros ? [= <-]| |].
      + destruct (pred x); [destruct st; [done|destruct (removeWhere_items _ _ _); done]|].
        destruct (removeWhere_items _ _ _) as [it n] eqn:E. intros ? [= <- ->]. f_equal. by apply IH.
      + destruct (removeWhere_items _ _ _) as [it n] eqn:E. intros ? [= <- ->]. f_equal. by apply IH. }
  destruct st, k; try (apply Hbody; auto; fail). split_and!; done.
Qed.

Section laws.
Context `{!PoolLaws A} (HNum : (0 < NumItems)%nat).

Definition multiset_foreign (a : A) (m : Multiset) : gset Z := live a ∖ list_to_set (chunk_addrs m).

Record Multiset_inv (a : A) (m : Multiset) : Prop := {
  msi_pool : pool_inv a;
  msi_live : forall p, p ∈ chunk_addrs m -> p ∈ live a;
  msi_wf : Multiset_wf m
}.

Lemma compact_chunks_ok a (m : Multiset) :
  pool_inv a -> NoDup (chunk_addrs m) -> (forall p, p ∈ chunk_addrs m -> p ∈ live a) ->
  let '(a', m') := compact_chunks a m in
  pool_inv a' /\ elements m' = elements m /\ chunk_addrs m' `sublist_of` chunk_addrs m /\
  (forall p, p ∈ live a' <-> p ∈ live a /\ (p ∈ chunk_addrs m -> p ∈ chunk_addrs m')) /\
  Forall (fun c : Chunk => existsb isConstructed c.2 = true) m' /\
  (forall P : Chunk -> Prop, Forall P m -> Forall P m').
Proof.
  unfold chunk_addrs. revert a. induction m as [|[p items] m IH]; intros a Ha Hd Hl; cbn [compact_chunks].
  { split_and!; try done. intros p. split; [intros; split; [done|]|intros [? _]; done]. done. }
  rewrite fmap_cons in *. cbn [fst] in *. apply NoDup_cons in Hd as [Hp Hd].
  destruct (existsb isConstructed items) eqn:Ef.
  - specialize (IH a Ha Hd). destruct (compact_chunks a m) as [a' m'].
    destruct IH as (I1 & I2 & I3 & I4 & I5 & I6); [intros q Hq; apply Hl; by right|].
    rewrite fmap_cons. cbn [fst]. split_and!; try done.
    + unfold elements in *. rewrite !fmap_cons. cbn [concat snd]. by rewrite !omap_app, I2.
    + by constructor.
    + intros q. rewrite I4, !elem_of_cons. destruct (decide (q = p)) as [->|]; [|tauto].
      split; [intros [? _]; split; [done|by left]|intros [? _]; split; [done|done]].
    + by constructor.
    + intros P [HP HPm]%Forall_cons. constructor; auto.
  - destruct (deallocate_live a p Ha (Hl p (list_elem_of_here _ _))) as [Hlv Ha'].
    specialize (IH (deallocate a p) Ha' Hd). destruct (compact_chunks (deallocate a p) m) as [a' m'].
    destruct IH as (I1 & I2 & I3 & I4 & I5 & I6).
    { intros q Hq. rewrite Hlv. apply elem_of_difference. split; [apply Hl; by right|]. intros ->%elem_of_singleton. done. }
    split_and!; try done.
    + rewrite I2. unfold elements. rewrite fmap_cons. cbn [concat snd]. rewrite omap_app.
      replace (omap id items) with (@nil T); [done|]. clear -Ef. induction items as [|[x|] items IHi]; [done|done|]. cbn in *. by apply IHi.
    + by constructor.
    + intros q. rewrite I4, Hlv, elem_of_difference, elem_of_singleton, elem_of_cons.
      assert (Hpm : p ∉ m'.*1) by (intros Hx; apply Hp; by eapply elem_of_sublist).
      destruct (decide (q = p)) as [->|]; [|tauto]. split; [tauto|]. intros [_ Hx]. destruct Hpm. apply Hx. by left.
    + intros P [HP HPm]%Forall_cons. auto.
Qed.

Lemma compact_foreign a m a' m' :
  chunk_addrs m' `sublist_of` chunk_addrs m ->
  (forall p, p ∈ live a' <-> p ∈ live a /\ (p ∈ chunk_addrs m -> p ∈ chunk_addrs m')) ->
  multiset_foreign a' m' = multiset_foreign a m /\ ((forall p, p ∈ chunk_addrs m -> p ∈ live a) -> forall p, p ∈ chunk_addrs m' -> p ∈ live a').
Proof.
  intros Hs Hl. split.
  - unfold multiset_foreign. apply set_eq. intros x. rewrite !elem_of_difference, !elem_of_list_to_set, Hl.
    assert (x ∈ chunk_addrs m' -> x ∈ chunk_addrs m) by (intros; by eapply elem_of_sublist).
    destruct (decide (x ∈ chunk_addrs m)), (decide (x ∈ chunk_addrs m')); tauto.
  - intros Ho p Hp. apply Hl. split; [|done]. apply Ho. by eapply elem_of_sublist.
Qed.

Lemma removeWhere_ok st pred a m :
  Multiset_inv a m ->
  let '(a', m') := removeWhere st pred a m in
  Multiset_inv a' m' /\ multiset_foreign a' m' = multiset_foreign a m /\ elements m' = removed st pred (elements m).
Proof.
  intros [Ha Hl [Wl Wu Wa]]. unfold removeWhere. pose proof (removeWhere_chunks_ok st pred O m) as Hc.
  destruct (removeWhere_chunks st pred 0 m) as [m1 n]. destruct Hc as (C1 & C2 & C3 & _ & C5).
  assert (E1 : elements m1 = removed st pred (elements m)) by (by destruct st).
  destruct (Nat.ltb_spec 0 n).
  - pose proof (compact_chunks_ok a m1 Ha) as Hk. rewrite C2 in Hk. specialize (Hk Wa Hl).
    destruct (compact_chunks a m1) as [a' m']. destruct Hk as (K1 & K2 & K3 & K4 & K5 & K6).
    destruct (compact_foreign a m a' m' K3 K4) as [F1 F2]. split_and!; [|done|by rewrite K2].
    split; [done|by apply F2|]. split; [by apply K6, C3|done|by eapply sublist_NoDup].
  - assert (n = O) as -> by lia. rewrite C5 in * by done. split_and!; try done.
Qed.

Lemma emplace_ok a m x :
  Multiset_inv a m ->
  let '(r, a', m') := emplace a m x in
  Multiset_inv a' m' /\ multiset_foreign a' m' = multiset_foreign a m /\
  match r with
  | Some s => elements m' ≡ₚ x :: elements m /\ get_item m' s = Some x
  | None => m' = m /\ live a' = live a /\ exists a0, pool_inv a0 /\ live a0 = live a /\ allocate a0 sizeof_Chunk = (None, a')
  end.
Proof.
  intros [Ha Hl [Wl Wu Wa]]. unfold emplace, findOrCreateFreeSlot. destruct (search_free m) as [s|] eqn:Es.
  - destruct (search_free_Some m s Wa Es) as (L & R & [S1 S2 S3 S4 S5 S6 S7]).
    split_and!; [|unfold multiset_foreign; by rewrite S5| |apply S4].
    + split; [done|by rewrite S5|]. split; [by apply S6|by apply S7|by rewrite S5].
    + rewrite (elements_of_slots _ _ _ _ (S3 (Some x))), (elements_of_slots _ _ _ _ S1). cbn. symmetry. apply Permutation_middle.
  - unfold Chunk_instantiate. destruct (allocate a sizeof_Chunk) as [[p|] a2] eqn:Ea.
    + destruct (allocate_some a _ p a2 Ha Ea) as (_ & Hp & Hl2 & Ha2).
      assert (Hpo : p ∉ chunk_addrs m) by (intros Hp'; apply Hp; auto).
      assert (Hrep : exists N, NumItems = S N /\ replicate NumItems (@None T) = None :: replicate N None)
        by (destruct NumItems as [|N]; [lia|by exists N]).
      destruct Hrep as (N & EN & ->).
      destruct (item_at_here p [] None (replicate N None) m Hpo) as [S1 S2 S3 S4 S5 S6 S7]. cbn [app length] in *.
      assert (Hset : forall items, set_item ((p, None :: items) :: m) (p, O) (Some x) = (p, Some x :: items) :: m).
      { intros items. unfold set_item. rewrite fmap_cons. cbn [fst snd]. rewrite Z.eqb_refl. f_equal. apply (set_item_other m p O (Some x) Hpo). }
      split_and!.
      * rewrite Hset. split; [done| |split].
        -- intros q [->|Hq]%elem_of_cons; rewrite Hl2; [set_solver|]. apply elem_of_union. right. auto.
        -- constructor; [cbn [snd length]; by rewrite length_replicate, EN|done].
        -- by constructor.
        -- by constructor.
      * rewrite Hset. unfold multiset_foreign, chunk_addrs. rewrite fmap_cons, list_to_set_cons, Hl2. cbn [fst]. apply set_eq. intros y.
        rewrite !elem_of_difference, !elem_of_union, elem_of_singleton.
        destruct (decide (y = p)) as [->|]; [|tauto]. split; [tauto|]. intros [? _]. done.
      * rewrite Hset. unfold elements. rewrite fmap_cons. cbn [concat snd]. rewrite omap_app. cbn [omap list_omap id app].
        replace (omap id (replicate N None)) with (@nil T); [done|]. clear. by induction N.
      * apply S4.
    + destruct (allocate_none a _ a2 Ha Ea) as [Hl2 Ha2]. split_and!; try done.
      * split; [done|by rewrite Hl2|done].
      * unfold multiset_foreign. by rewrite Hl2.
      * by exists a.
Qed.

(** Storing another object to the place of one. *)
Lemma update_ok a m s x L R y : Multiset_inv a m -> item_at m s (Some x) L R ->
  Multiset_inv a (set_item m s (Some y)) /\ multiset_foreign a (set_item m s (Some y)) = multiset_foreign a m /\
  elements m = omap id L ++ x :: omap id R /\ elements (set_item m s (Some y)) = omap id L ++ y :: omap id R.
Proof.
  intros [Ha Hl [Wl Wu Wa]] [S1 S2 S3 S4 S5 S6 S7]. split_and!.
  - split; [done|by rewrite S5|]. split; [by apply S6|by apply S7|by rewrite S5].
  - unfold multiset_foreign. by rewrite S5.
  - apply (elements_of_slots _ _ _ _ S1).
  - apply (elements_of_slots _ _ _ _ (S3 (Some y))).
Qed.

Lemma find_items_index items idx i0 : 0 <= idx < 2 ^ 32 ->
  match find_items IndexPredicate idx items i0 with
  | inr k => exists l x r, items = l ++ Some x :: r /\ k = (i0 + length l)%nat /\ Z.of_nat (length (omap id l)) = idx
  | inl idx' => idx' = idx - Z.of_nat (length (omap id items)) /\ 0 <= idx'
  end.
Proof.
  revert idx i0. induction items as [|[x|] items IH]; intros idx i0 Hi; cbn [find_items IndexPredicate].
  - cbn. lia.
  - destruct (Z.eqb_spec idx 0) as [->|Hne].
    + exists [], x, items. split_and!; cbn; lia || done.
    + rewrite wrap_small by (split; lia). specialize (IH (idx - 1) (S i0) ltac:(lia)).
      destruct (find_items IndexPredicate (idx - 1) items (S i0)) as [idx'|k].
      * cbn [omap list_omap id length]. change (list_omap T T) with (@omap list list_omap T T). lia.
      * destruct IH as (l & y & r & -> & -> & E). exists (Some x :: l), y, r. split_and!; [done|cbn; lia|].
        cbn [omap list_omap id length]. change (list_omap T T) with (@omap list list_omap T T). lia.
  - specialize (IH idx (S i0) Hi). destruct (find_items IndexPredicate idx items (S i0)) as [idx'|k]; [done|].
    destruct IH as (l & y & r & -> & -> & E). exists (None :: l), y, r. split_and!; [done|cbn; lia|done].
Qed.

(** [getByIndex] enumerates the objects. *)
Lemma Multiset_getByIndex_ok m idx : NoDup (chunk_addrs m) -> 0 <= idx < 2 ^ 32 ->
  match Multiset_getByIndex m idx with
  | Some s => exists x L R, item_at m s (Some x) L R /\ Z.of_nat (length (omap id L)) = idx
  | None => Z.of_nat (length (elements m)) <= idx
  end.
Proof.
  unfold Multiset_getByIndex. revert idx. induction m as [|[p items] m IH]; intros idx Hd Hi; cbn [Multiset_find]; [cbn; lia|].
  unfold chunk_addrs in Hd. rewrite fmap_cons in Hd. apply NoDup_cons in Hd as [Hp Hd].
  pose proof (find_items_index items idx O Hi) as Hf. destruct (find_items IndexPredicate idx items 0) as [idx'|k].
  - destruct Hf as [Hx Hx0]. specialize (IH idx' Hd ltac:(lia)). destruct (Multiset_find IndexPredicate idx' m) as [[q k]|].
    + destruct IH as (x & L & R & Hat & E). exists x, (items ++ L), R. split; [|rewrite omap_app, length_app; lia].
      apply item_at_cons; [|done]. intros ->. apply Hp. cbn [fst].
      destruct Hat as [_ Hg _ _ _ _ _]. unfold get_item in Hg. cbn [fst] in Hg.
      destruct (List.find (fun c : Chunk => c.1 =? q) m) as [c|] eqn:Ef; [|done]. apply List.find_some in Ef as [Hin Hc].
      apply Z.eqb_eq in Hc. rewrite <-Hc. apply list_elem_of_fmap_2. by apply list_elem_of_In.
    + unfold elements in *. rewrite fmap_cons. cbn [concat snd]. rewrite omap_app, length_app. lia.
  - destruct Hf as (l & x & r & -> & -> & E). exists x, l, (r ++ slots m). split; [by apply item_at_here|done].
Qed.

Lemma getSize_items items n : 0 <= n -> n + Z.of_nat (length (omap id items)) < 2 ^ 32 ->
  foldl (fun num (i : Item) => u32 (num + if isConstructed i then 1 else 0)) n items = n + Z.of_nat (length (omap id items)).
Proof.
  revert n. induction items as [|[x|] items IH]; intros n Hn Hl; cbn [foldl isConstructed].
  - cbn. lia.
  - cbn [omap list_omap id length] in *. change (list_omap T T) with (@omap list list_omap T T) in *.
    rewrite wrap_small by (split; lia). rewrite IH by lia. lia.
  - change (omap id (None :: items)) with (omap id items) in *. rewrite wrap_small by (split; lia). rewrite IH by lia. lia.
Qed.

Lemma getSize_from m n : 0 <= n -> n + Z.of_nat (length (elements m)) < 2 ^ 32 ->
  foldl (fun num (c : Chunk) => foldl (fun num i => u32 (num + if isConstructed i then 1 else 0)) num c.2) n m =
    n + Z.of_nat (length (elements m)).
Proof.
  revert n. induction m as [|[p items] m IH]; intros n Hn Hl; cbn [foldl snd]; [cbn; lia|].
  unfold elements in *. rewrite fmap_cons in *. cbn [concat snd] in *. rewrite omap_app, length_app in *.
  rewrite getSize_items by lia. rewrite IH by lia. lia.
Qed.

Lemma Multiset_getSize_ok m : Z.of_nat (length (elements m)) < 2 ^ 32 -> Multiset_getSize m = Z.of_nat (length (elements m)).
Proof. intros Hl. unfold Multiset_getSize. rewrite getSize_from by lia. lia. Qed.

Lemma Multiset_isEmpty_ok m : Multiset_isEmpty m = true <-> elements m = [].
Proof.
  unfold Multiset_isEmpty. assert (Hi : forall items i0, match find_items (fun (_ : unit) (_ : T) => (true, tt)) tt items i0 with
    | inr _ => omap id items <> [] | inl u => u = tt /\ omap id items = [] end).
  { induction items as [|[x|] items IH]; intros i0; cbn [find_items]; [done|done|]. apply (IH (S i0)). }
  induction m as [|[p items] m IH]; cbn [Multiset_find]; [done|]. specialize (Hi items O). unfold elements in *.
  rewrite fmap_cons. cbn [concat snd]. rewrite omap_app. destruct (find_items _ tt items O) as [u|k].
  - destruct Hi as [-> ->]. exact IH.
  - destruct (omap id items); [done|]. done.
Qed.

Lemma Multiset_clear_ok a m : Multiset_inv a m ->
  let '(a', m') := Multiset_clear a m in m' = [] /\ pool_inv a' /\ live a' = multiset_foreign a m.
Proof.
  intros Hm. unfold Multiset_clear, Multiset_removeAllWhere. pose proof (removeWhere_ok RemoveAll (fun _ => true) a m Hm) as Hr.
  destruct (removeWhere RemoveAll (fun _ => true) a m) as [a' m']. destruct Hr as ([Ha' _ [_ Wu _]] & Hf & He).
  assert (E : m' = []).
  { destruct m' as [|[p items] m']; [done|]. apply Forall_cons in Wu as [Hu _]. cbn [snd] in Hu. exfalso. cbn [removed] in He.
    assert (Hnil : forall l, filter (fun x : T => true = false) l = []) by (induction l; [done|by rewrite filter_cons_False]).
    rewrite Hnil in He. unfold elements in He. rewrite fmap_cons in He. cbn [concat snd] in He. rewrite omap_app in He.
    apply app_eq_nil in He as [He _]. clear -Hu He. induction items as [|[x|] items IH]; [done|done|]. apply IH; done. }
  subst m'. split_and!; [done|done|]. rewrite <-Hf. unfold multiset_foreign, chunk_addrs. cbn. set_solver.
Qed.

(** [forEach] visits every object once, in order, and moves nothing. *)
Lemma forEach_items_ok {S} (oper : S -> T -> T * S) items st :
  let '(items', st') := forEach_items oper st items in
  run_oper oper st (omap id items) = (omap id items', st') /\ length items' = length items /\
  existsb isConstructed items' = existsb isConstructed items.
Proof.
  revert st; induction items as [|[x|] items IH]; intros st; cbn [forEach_items]; [done| |].
  - cbn. destruct (oper st x) as [x' st1]. specialize (IH st1). destruct (forEach_items oper st1 items) as [items' st'].
    destruct IH as (E & El & _). cbn. rewrite E. split_and!; [done|exact (f_equal _ El)|done].
  - specialize (IH st). destruct (forEach_items oper st items) as [items' st']. destruct IH as (E & El & Ee). cbn. split_and!; [done|exact (f_equal _ El)|done].
Qed.

Lemma run_oper_app {S} (oper : S -> T -> T * S) l1 l2 st :
  run_oper oper st (l1 ++ l2) =
  (let '(l1', st') := run_oper oper st l1 in let '(l2', st'') := run_oper oper st' l2 in (l1' ++ l2', st'')).
Proof.
  revert st; induction l1 as [|x l1 IH]; intros st; cbn; [by destruct (run_oper oper st l2)|].
  destruct (oper st x) as [x' st1]. rewrite IH. destruct (run_oper oper st1 l1) as [l1' st']. by destruct (run_oper oper st' l2).
Qed.

Lemma forEach_ok {S} (oper : S -> T -> T * S) a m st :
  Multiset_inv a m ->
  let '(m', st') := Multiset_forEach oper st m in
  Multiset_inv a m' /\ chunk_addrs m' = chunk_addrs m /\ run_oper oper st (elements m) = (elements m', st').
Proof.
  intros [Hp Hl Hw].
  enough (let '(m', st') := Multiset_forEach oper st m in
          chunk_addrs m' = chunk_addrs m /\ run_oper oper st (elements m) = (elements m', st') /\
          Forall (fun c : Chunk => length c.2 = NumItems) m' /\
          Forall (fun c : Chunk => existsb isConstructed c.2 = true) m') as HE.
  { destruct (Multiset_forEach oper st m) as [m' st']. destruct HE as (Ha & Hr & H1 & H2).
    split_and!; [|done|done]. split; [done|by rewrite Ha|]. split; [done|done|]. rewrite Ha. apply Hw. }
  destruct Hw as [Hlen Hused _]. clear Hp Hl. revert st Hlen Hused. induction m as [|[p items] m IH]; intros st Hlen Hused; [done|].
  apply Forall_cons in Hlen as [Hl1 Hlen], Hused as [Hu1 Hused]. cbn [Multiset_forEach].
  pose proof (forEach_items_ok oper items st) as Hi. destruct (forEach_items oper st items) as [items' st1].
  specialize (IH st1 Hlen Hused). destruct (Multiset_forEach oper st1 m) as [m' st']. destruct IH as (Ea & Er & F1 & F2).
  destruct Hi as (E1 & E2 & E3). unfold chunk_addrs, elements in *. rewrite !fmap_cons. cbn [concat fst snd].
  rewrite !omap_app, run_oper_app, E1, Er, Ea. split_and!; [done|done| |]; (apply Forall_cons; split; [|assumption]); [exact (eq_trans E2 Hl1)|exact (eq_trans E3 Hu1)].
Qed.

(** The container is a multiset kept in pool blocks: [emplace] adds one object, or
    changes nothing when the pool refuses a block; removing by a predicate takes out
    the first match or all matches and nothing else; [getByIndex] gives a pointer to
    the object at that place of the enumeration and null past the end, [getSize] and
    [isEmpty] agree with it; [forEach] runs its operator on every object once, in that
    order; every block it holds is its own and has an object in it,
    and [clear] returns all of them. The blocks of other users of the pool stay
    theirs. *)
Theorem pool_multiset_is_a_multiset a m x pred st idx {S} (oper : S -> T -> T * S) s0 :
  Multiset_inv a m -> 0 <= idx < 2 ^ 32 -> Z.of_nat (length (elements m)) < 2 ^ 32 ->
  (let '(r, a', m') := emplace a m x in
   Multiset_inv a' m' /\ multiset_foreign a' m' = multiset_foreign a m /\
   match r with
   | Some s => elements m' ≡ₚ x :: elements m /\ get_item m' s = Some x
   | None => m' = m /\ exists a0, pool_inv a0 /\ live a0 = live a /\ allocate a0 sizeof_Chunk = (None, a')
   end) /\
  (let '(a', m') := removeWhere st pred a m in
   Multiset_inv a' m' /\ multiset_foreign a' m' = multiset_foreign a m /\
   elements m' = match st with
                 | RemoveOne => remove_first pred (elements m)
                 | RemoveAll => filter (fun x => pred x = false) (elements m)
                 end) /\
  (get_item m <$> Multiset_getByIndex m idx) = (Some <$> elements m !! Z.to_nat idx) /\
  Multiset_getSize m = Z.of_nat (length (elements m)) /\ (Multiset_isEmpty m = true <-> elements m = []) /\
  (let '(m', s1) := Multiset_forEach oper s0 m in
   Multiset_inv a m' /\ chunk_addrs m' = chunk_addrs m /\ run_oper oper s0 (elements m) = (elements m', s1)) /\
  (let '(a', m') := Multiset_clear a m in m' = [] /\ pool_inv a' /\ live a' = multiset_foreign a m).
Proof.
  intros Hm Hi Hl. split_and!.
  - pose proof (emplace_ok a m x Hm) as He. destruct (emplace a m x) as [[[s|] a'] m']; tauto.
  - pose proof (removeWhere_ok st pred a m Hm) as Hr. destruct (removeWhere st pred a m) as [a' m']. by destruct st.
  - pose proof (Multiset_getByIndex_ok m idx (msw_addr _ (msi_wf _ _ Hm)) Hi) as Hg. destruct (Multiset_getByIndex m idx) as [s|].
    + destruct Hg as (y & L & R & Hat & E). cbn. rewrite (ia_get _ _ _ _ _ Hat), (elements_of_slots _ _ _ _ (ia_slots _ _ _ _ _ Hat)).
      cbn. rewrite lookup_app_r by lia. by replace (Z.to_nat idx - length (omap id L))%nat with O by lia.
    + cbn. by rewrite lookup_ge_None_2 by lia.
  - by apply Multiset_getSize_ok.
  - apply Multiset_isEmpty_ok.
  - by apply forEach_ok.
  - by apply Multiset_clear_ok.
Qed.

End laws.

End multiset.

Arguments Multiset : clear implicits.

Lemma pool_multiset_is_a_multiset_witness :
  let pool := PoolAllocator_init 4096 640 64 in
  let '(r, a', m') := emplace 3 64 pool ([] : Multiset Z) 100 in
  Multiset_inv 3 a' m' /\ multiset_foreign a' m' = multiset_foreign pool ([] : Multiset Z).
Proof.
  intros pool.
  assert (Hinv : Multiset_inv 3 pool ([] : Multiset Z)).
  { split; [exact (proj1 (PoolAllocator_init_ok 4096 640 64 eq_refl eq_refl ltac:(vm_compute; split; done)))|by intros p Hp%elem_of_nil|].
    split; constructor. }
  pose proof (pool_multiset_is_a_multiset 3 64 ltac:(lia) pool [] 100 (Z.eqb 3) RemoveOne 0 (fun s x => (x + 1, s + x)) 0 Hinv ltac:(lia) ltac:(cbn; lia)) as (Hi & _).
  destruct (emplace 3 64 pool [] 100) as [[r a'] m']. exact (conj (proj1 Hi) (proj1 (proj2 Hi))).
Defined.
