(* ===== verification/TransferReceiver.v ===== *)
(** * TransferReceiver: reassembling one stream of transfers

    Models [libuavcan/include/uavcan/transport/transfer_receiver.hpp] and
    [src/transport/uc_transfer_receiver.cpp]. A receiver handles the frames of
    one source node and transfer type; its buffer is the one its accessor finds
    under the key in the listener's buffer manager. [error_cnt_] is mutable in
    the source, so [validate] returns the receiver too. *)

From stdpp Require Import gmap.
From S2P Require Import Prelude MonoTime Crc Transfer CanFrame Frame LinkedList PoolAllocator TransferBuffer.
Local Open Scope Z_scope.

Inductive ResultCode := ResultNotComplete | ResultComplete | ResultSingleFrame.

Definition MinTransferIntervalMSec : Z := 1.
Definition MaxTransferIntervalMSec : Z := 0xFFFF.
Definition DefaultTransferIntervalMSec : Z := 1000.
Definition DefaultTidTimeoutMSec : Z := 1000.
Definition IfaceIndexNotSet : Z := MaxCanIfaces.
Definition ErrorCntMask : Z := 31.
Definition IfaceIndexMask : Z := MaxCanIfaces.
Definition CrcNumBytes : Z := 2.

Record TransferReceiver := mkReceiver {
  prev_transfer_ts_ : Z;
  this_transfer_ts_ : Z;
  first_frame_ts_ : Z;
  transfer_interval_msec_ : Z;
  this_transfer_crc_ : Z;
  buffer_write_pos_ : Z;
  tid_ : Z;
  next_toggle_ : bool;
  r_iface_index_ : Z;
  error_cnt_ : Z
}.

(** [TransferReceiver::TransferReceiver()]. *)
Definition TransferReceiver_init : TransferReceiver :=
  mkReceiver 0 0 0 DefaultTransferIntervalMSec 0 0 TransferID.default false IfaceIndexNotSet 0.

Definition isInitialized (r : TransferReceiver) : bool := negb (r_iface_index_ r =? IfaceIndexNotSet).
Definition isMidTransfer (r : TransferReceiver) : bool := 0 <? buffer_write_pos_ r.
Definition getIfaceSwitchDelay (r : TransferReceiver) : Z := Duration.fromMSec (transfer_interval_msec_ r).
Definition getTidTimeout (r : TransferReceiver) : Z := Duration.fromMSec DefaultTidTimeoutMSec.

Definition registerError (r : TransferReceiver) : TransferReceiver :=
  mkReceiver (prev_transfer_ts_ r) (this_transfer_ts_ r) (first_frame_ts_ r) (transfer_interval_msec_ r)
    (this_transfer_crc_ r) (buffer_write_pos_ r) (tid_ r) (next_toggle_ r) (r_iface_index_ r)
    (Z.land (u8 (error_cnt_ r + 1)) ErrorCntMask).

Definition updateTransferTimings (r : TransferReceiver) : TransferReceiver :=
  let prev_prev_ts := prev_transfer_ts_ r in
  let prev := this_transfer_ts_ r in
  let interval :=
    if negb (MTime.isZero prev_prev_ts) && negb (MTime.isZero prev) && (prev_prev_ts <=? prev) then
      let interval_msec := u64 (Duration.toMSec (MTime.minus prev prev_prev_ts)) in
      let interval_msec := Z.min interval_msec MaxTransferIntervalMSec in
      let interval_msec := Z.max interval_msec MinTransferIntervalMSec in
      u16 (u64 (u64 (transfer_interval_msec_ r * 7) + interval_msec) / 8)
    else transfer_interval_msec_ r in
  mkReceiver prev (this_transfer_ts_ r) (first_frame_ts_ r) interval
    (this_transfer_crc_ r) (buffer_write_pos_ r) (tid_ r) (next_toggle_ r) (r_iface_index_ r) (error_cnt_ r).

Definition prepareForNextTransfer (r : TransferReceiver) : TransferReceiver :=
  mkReceiver (prev_transfer_ts_ r) (this_transfer_ts_ r) (first_frame_ts_ r) (transfer_interval_msec_ r)
    (this_transfer_crc_ r) 0 (TransferID.increment (tid_ r)) false (r_iface_index_ r) (error_cnt_ r).

(** [bool TransferReceiver::validate(const RxFrame& frame) const]. *)
Definition validate (r : TransferReceiver) (frame : RxFrame) : bool * TransferReceiver :=
  let f := rx_frame frame in
  if negb (r_iface_index_ r =? iface_index_ frame) then (false, r)
  else if start_of_transfer_ f && negb (end_of_transfer_ f) && (payload_len_ f <? CrcNumBytes) then
    (false, registerError r)
  else if start_of_transfer_ f && toggle_ f then (false, registerError r)
  else
    let r := if start_of_transfer_ f && isMidTransfer r then registerError r else r in
    if negb (eqb (toggle_ f) (next_toggle_ r)) then (false, registerError r)
    else if negb (transfer_id_ f =? tid_ r) then (false, registerError r)
    else (true, r).

Definition set_write_pos (r : TransferReceiver) (crc pos : Z) : TransferReceiver :=
  mkReceiver (prev_transfer_ts_ r) (this_transfer_ts_ r) (first_frame_ts_ r) (transfer_interval_msec_ r)
    crc pos (tid_ r) (next_toggle_ r) (r_iface_index_ r) (error_cnt_ r).

Definition set_next_toggle (r : TransferReceiver) (t : bool) : TransferReceiver :=
  mkReceiver (prev_transfer_ts_ r) (this_transfer_ts_ r) (first_frame_ts_ r) (transfer_interval_msec_ r)
    (this_transfer_crc_ r) (buffer_write_pos_ r) (tid_ r) t (r_iface_index_ r) (error_cnt_ r).

Definition set_transfer_ts (r : TransferReceiver) (mono utc : Z) : TransferReceiver :=
  mkReceiver (prev_transfer_ts_ r) mono utc (transfer_interval_msec_ r)
    (this_transfer_crc_ r) (buffer_write_pos_ r) (tid_ r) (next_toggle_ r) (r_iface_index_ r) (error_cnt_ r).

(** [bool isTimedOut(MonotonicTime current_ts) const]. *)
Definition isTimedOut (r : TransferReceiver) (current_ts : Z) : bool :=
  getTidTimeout r <? MTime.minus current_ts (this_transfer_ts_ r).

(** The [need_restart] condition of [addFrame]. *)
Definition need_restart (r : TransferReceiver) (frame : RxFrame) : bool :=
  let f := rx_frame frame in
  let not_initialized := negb (isInitialized r) in
  let tid_timed_out := isTimedOut r (ts_mono_ frame) in
  let same_iface := iface_index_ frame =? r_iface_index_ r in
  let first_frame := start_of_transfer_ f in
  let non_wrapped_tid := TransferID.computeForwardDistance (tid_ r) (transfer_id_ f) <? TransferID.Half in
  let not_previous_tid := 1 <? TransferID.computeForwardDistance (transfer_id_ f) (tid_ r) in
  let iface_switch_allowed :=
    getIfaceSwitchDelay r <? MTime.minus (ts_mono_ frame) (this_transfer_ts_ r) in
  not_initialized || tid_timed_out || (same_iface && first_frame && not_previous_tid) ||
  (iface_switch_allowed && first_frame && non_wrapped_tid).

(** The state [addFrame] restarts with (the buffer is removed next to it). *)
Definition restart (r : TransferReceiver) (frame : RxFrame) : TransferReceiver :=
  let f := rx_frame frame in
  let r := if isInitialized r && negb (tid_ r =? transfer_id_ f) then registerError r else r in
  let tid := if start_of_transfer_ f then transfer_id_ f else TransferID.increment (transfer_id_ f) in
  mkReceiver (prev_transfer_ts_ r) (this_transfer_ts_ r) (first_frame_ts_ r) (transfer_interval_msec_ r)
    0 0 tid false (Z.land (iface_index_ frame) IfaceIndexMask) (error_cnt_ r).

(** [uint8_t TransferReceiver::yieldErrorCount()]. *)
Definition yieldErrorCount (r : TransferReceiver) : Z * TransferReceiver :=
  (error_cnt_ r,
   mkReceiver (prev_transfer_ts_ r) (this_transfer_ts_ r) (first_frame_ts_ r) (transfer_interval_msec_ r)
    (this_transfer_crc_ r) (buffer_write_pos_ r) (tid_ r) (next_toggle_ r) (r_iface_index_ r) 0).

Section receiver.
Context {A : Type} `{IPoolAllocator A} (sizeof_Block sizeof_Entry : Z).
(** The accessor's key. *)
Context (key : TransferBufferManagerKey).

(** [bool TransferReceiver::writePayload(const RxFrame& frame, ITransferBuffer& buf)];
    [buf] is the buffer at an address of the manager. *)
Definition writePayload (junk : Z -> list Z) (a : A) (m : TransferBufferManager) (r : TransferReceiver)
    (frame : RxFrame) (buf : Z) : bool * A * TransferBufferManager * TransferReceiver :=
  let f := rx_frame frame in
  let payload := payload_ f in
  let payload_len := payload_len_ f in
  if start_of_transfer_ f then
    if payload_len <? CrcNumBytes then (false, a, m, r)
    else
      let crc := u16 (Z.land (nth 0 payload 0) 0xFF) in
      let crc := Z.lor crc (u16 (Z.shiftl (u16 (Z.land (nth 1 payload 0) 0xFF)) 8)) in
      let effective_payload_len := payload_len - CrcNumBytes in
      let '(res, a, m) := BufMgr_write sizeof_Block junk a m buf (buffer_write_pos_ r)
                            (drop (Z.to_nat CrcNumBytes) payload) effective_payload_len in
      let success := res =? effective_payload_len in
      (success, a, m,
       set_write_pos r crc (if success then u16 (buffer_write_pos_ r + effective_payload_len)
                            else buffer_write_pos_ r))
  else
    let '(res, a, m) := BufMgr_write sizeof_Block junk a m buf (buffer_write_pos_ r) payload payload_len in
    let success := res =? payload_len in
    (success, a, m,
     set_write_pos r (this_transfer_crc_ r)
       (if success then u16 (buffer_write_pos_ r + payload_len) else buffer_write_pos_ r)).

(** [ResultCode TransferReceiver::receive(const RxFrame& frame, TransferBufferAccessor& tba)]. *)
Definition receive (junk : Z -> list Z) (a : A) (m : TransferBufferManager) (r : TransferReceiver)
    (frame : RxFrame) : ResultCode * A * TransferBufferManager * TransferReceiver :=
  let f := rx_frame frame in
  let r := if start_of_transfer_ f then set_transfer_ts r (ts_mono_ frame) (ts_utc_ frame) else r in
  if start_of_transfer_ f && end_of_transfer_ f then
    let '(a, m) := BufMgr_remove a m key in
    let r := prepareForNextTransfer (updateTransferTimings r) in
    (ResultSingleFrame, a, m, set_write_pos r 0 (buffer_write_pos_ r))
  else
    let '(buf, a, m) :=
      match BufMgr_access m key with
      | Some buf => (Some buf, a, m)
      | None => BufMgr_create sizeof_Entry a m key
      end in
    match buf with
    | None => (ResultNotComplete, a, m, registerError (prepareForNextTransfer r))
    | Some buf =>
      let '(ok, a, m, r) := writePayload junk a m r frame buf in
      if negb ok then
        let '(a, m) := BufMgr_remove a m key in
        (ResultNotComplete, a, m, registerError (prepareForNextTransfer r))
      else
        let r := set_next_toggle r (negb (next_toggle_ r)) in
        if end_of_transfer_ f then
          (ResultComplete, a, m, prepareForNextTransfer (updateTransferTimings r))
        else (ResultNotComplete, a, m, r)
    end.

(** [ResultCode TransferReceiver::addFrame(const RxFrame& frame, TransferBufferAccessor& tba)]. *)
Definition addFrame (junk : Z -> list Z) (a : A) (m : TransferBufferManager) (r : TransferReceiver)
    (frame : RxFrame) : ResultCode * A * TransferBufferManager * TransferReceiver :=
  if MTime.isZero (ts_mono_ frame) || (ts_mono_ frame <? prev_transfer_ts_ r) ||
     (ts_mono_ frame <? this_transfer_ts_ r)
  then (ResultNotComplete, a, m, r)
  else
    let '(a, m, r, stop) :=
      if need_restart r frame then
        let '(a, m) := BufMgr_remove a m key in
        (a, m, restart r frame, negb (start_of_transfer_ (rx_frame frame)))
      else (a, m, r, false) in
    if (stop : bool) then (ResultNotComplete, a, m, r)
    else
      let '(ok, r) := validate r frame in
      if negb ok then (ResultNotComplete, a, m, r) else receive junk a m r frame.

End receiver.

(** ** Lemmas: one frame *)

(** The bytes a frame of a multi-frame transfer adds to the buffer: the first
    one starts with the transfer CRC. *)
Definition eff_payload (f : Frame) : list Z :=
  if start_of_transfer_ f then drop (Z.to_nat CrcNumBytes) (frame_payload f) else frame_payload f.

(** The transfer CRC the first frame carries, little endian. *)
Definition frame_crc (f : Frame) : Z := nth 0 (payload_ f) 0 + 256 * nth 1 (payload_ f) 0.

Lemma frame_crc_eq f : bytes (payload_ f) ->
  Z.lor (u16 (Z.land (nth 0 (payload_ f) 0) 0xFF))
    (u16 (Z.shiftl (u16 (Z.land (nth 1 (payload_ f) 0) 0xFF)) 8)) = frame_crc f.
Proof.
  intros Hb. unfold frame_crc. pose proof (nth_is_u8 _ 0%nat Hb) as H0.
  pose proof (nth_is_u8 _ 1%nat Hb) as H1.
  generalize dependent (nth 0 (payload_ f) 0). generalize dependent (nth 1 (payload_ f) 0).
  intros y Hy x Hx. change 0xFF with (Z.ones 8). rewrite !Z.land_ones, !Z.mod_small by (lia || done).
  destruct Hx, Hy. rewrite Z.shiftl_mul_pow2 by lia.
  rewrite !wrap_small by (split; try rewrite !wrap_small by (split; lia); lia).
  replace (x + 256 * y) with (x + y * 2 ^ 8) by lia.
  rewrite <-Z.add_lor_land. replace (Z.land x (y * 2 ^ 8)) with 0; [lia|].
  symmetry. apply Z.bits_inj'. intros i Hi. rewrite Z.land_spec, Z.bits_0.
  destruct (decide (i < 8)).
  - rewrite (Z.mul_pow2_bits_low y 8) by lia. apply andb_false_r.
  - rewrite (in_width_testbit 8 x i); [done|split; lia|lia].
Qed.

(** What the dispatcher hands over: a frame with fields of their widths, at
    most 7 bytes of payload, a non-zero time stamp and an existing interface. *)
Record Rx_wf (frame : RxFrame) : Prop := {
  rxw_frame : Frame_wf (rx_frame frame);
  rxw_len : payload_len_ (rx_frame frame) <= PayloadCapacity;
  rxw_ts : 0 < ts_mono_ frame < 2 ^ 63;
  rxw_iface : 0 <= iface_index_ frame < MaxCanIfaces
}.

Lemma frame_payload_length f :
  Frame_wf f -> payload_len_ f <= PayloadCapacity -> length (frame_payload f) = Z.to_nat (payload_len_ f).
Proof.
  intros Hf Hl. unfold frame_payload. rewrite length_take, (fwf_payload f Hf).
  unfold PayloadCapacity in *. lia.
Qed.

Lemma eff_payload_length f :
  Frame_wf f -> payload_len_ f <= PayloadCapacity ->
  Z.of_nat (length (eff_payload f)) =
  if start_of_transfer_ f then Z.max 0 (payload_len_ f - CrcNumBytes) else payload_len_ f.
Proof.
  intros Hf Hl. pose proof (fwf_len f Hf) as [? ?]. unfold eff_payload, CrcNumBytes.
  destruct (start_of_transfer_ f); rewrite ?length_drop, frame_payload_length by done; lia.
Qed.

(** The receiver with another error count. *)
Definition with_errors (r : TransferReceiver) (e : Z) : TransferReceiver :=
  mkReceiver (prev_transfer_ts_ r) (this_transfer_ts_ r) (first_frame_ts_ r) (transfer_interval_msec_ r)
    (this_transfer_crc_ r) (buffer_write_pos_ r) (tid_ r) (next_toggle_ r) (r_iface_index_ r) e.

Lemma validate_wrong_tid r frame :
  transfer_id_ (rx_frame frame) <> tid_ r -> exists e, validate r frame = (false, with_errors r e).
Proof.
  intros Hne. unfold validate.
  destruct (negb (r_iface_index_ r =? _)); [exists (error_cnt_ r); by destruct r|].
  destruct (start_of_transfer_ (rx_frame frame) && negb _ && _); [by eexists|].
  destruct (start_of_transfer_ (rx_frame frame) && toggle_ _); [by eexists|].
  set (r1 := if start_of_transfer_ (rx_frame frame) && isMidTransfer r then registerError r else r).
  assert (Hr1 : exists e, r1 = with_errors r e).
  { unfold r1. case_match; [by eexists|]. exists (error_cnt_ r). by destruct r. }
  destruct Hr1 as [e ->]. case_match; [by eexists|].
  destruct (Z.eqb_spec (transfer_id_ (rx_frame frame)) (tid_ (with_errors r e))); [done|]. by eexists.
Qed.

Lemma not_timed_out r t : 
  0 <= this_transfer_ts_ r <= t -> t < 2 ^ 63 -> t <= this_transfer_ts_ r + DefaultTidTimeoutMSec * 1000 ->
  isTimedOut r t = false.
Proof.
  intros H1 H2 H3. unfold isTimedOut, getTidTimeout.
  rewrite time_minus_exact; [|split; lia..|split; lia].
  change (Duration.fromMSec DefaultTidTimeoutMSec) with (DefaultTidTimeoutMSec * 1000). lia.
Qed.

Section receiver_ok.
Context {A : Type} `{PoolLaws A} (sizeof_Block sizeof_Entry : Z).
Context (B : nat) (HB : 8 < Z.of_nat B <= 255).
Context (key : TransferBufferManagerKey) (Hkey : Key_isEmpty key = false).

(** The write position is inside the buffer (or zero without one). *)
Definition pos_ok (m : TransferBufferManager) (r : TransferReceiver) : Prop :=
  match contents m key with
  | Some c => 0 <= buffer_write_pos_ r <= Z.of_nat (length c)
  | None => buffer_write_pos_ r = 0
  end.

(** The invariant of a receiver and its accessor. *)
Record Recv_inv (a : A) (m : TransferBufferManager) (r : TransferReceiver) : Prop := {
  ri_mgr : BufMgr_inv B a m;
  ri_pos : pos_ok m r;
  ri_tid : TransferID.wf (tid_ r);
  ri_iface : 0 <= r_iface_index_ r <= IfaceIndexNotSet;
  ri_err : 0 <= error_cnt_ r <= ErrorCntMask;
  ri_this : 0 <= this_transfer_ts_ r < 2 ^ 63;
  ri_prev : 0 <= prev_transfer_ts_ r < 2 ^ 63
}.

(** A refusal of the pool for a request of the receiver. *)
Definition refused (a' : A) : Prop :=
  exists a0 size, pool_inv a0 /\ size ∈ [sizeof_Block; sizeof_Entry] /\
    allocate a0 size = (None, a') /\ live a0 = live a'.

Lemma eff_payload_data f :
  Frame_wf f -> payload_len_ f <= PayloadCapacity -> start_of_transfer_ f = false \/ CrcNumBytes <= payload_len_ f ->
  let data := if start_of_transfer_ f then drop (Z.to_nat CrcNumBytes) (payload_ f) else payload_ f in
  let len := Z.of_nat (length (eff_payload f)) in
  take (Z.to_nat len) data = eff_payload f /\ (Z.to_nat len <= length data)%nat /\ 0 <= len <= 7.
Proof.
  intros Hf Hl Hs. pose proof (fwf_len f Hf) as [? _]. pose proof (fwf_payload f Hf) as Hp.
  rewrite eff_payload_length by done. unfold eff_payload, CrcNumBytes, PayloadCapacity, frame_payload in *.
  destruct (start_of_transfer_ f).
  - destruct Hs as [|Hs]; [done|]. rewrite length_drop, Hp. split_and!; try lia.
    rewrite skipn_firstn_comm. f_equal. lia.
  - rewrite Hp. split_and!; try done; lia.
Qed.

(** One payload write, on every outcome. *)
Lemma writePayload_ok junk a m r frame buf c :
  BufMgr_inv B a m -> (forall p, length (junk p) = B) -> Rx_wf frame ->
  BufMgr_access m key = Some buf -> contents m key = Some c ->
  0 <= buffer_write_pos_ r <= Z.of_nat (length c) ->
  let f := rx_frame frame in
  let len := Z.of_nat (length (eff_payload f)) in
  exists (ok : bool) a' m' c' crc, writePayload sizeof_Block junk a m r frame buf =
      (ok, a', m', set_write_pos r crc (buffer_write_pos_ r + (if ok then len else 0))) /\
    BufMgr_inv B a' m' /\ foreign a' m' = foreign a m /\ others a' m' key = others a m key /\
    max_buf_size_ m' = max_buf_size_ m /\ contents m' key = Some c' /\
    (forall k', k' <> key -> contents m' k' = contents m k') /\
    (ok = true -> crc = (if start_of_transfer_ f then frame_crc f else this_transfer_crc_ r) /\
      c' = buf_write c (buffer_write_pos_ r) (eff_payload f) len /\
      buffer_write_pos_ r + len <= max_buf_size_ m) /\
    (ok = false -> (start_of_transfer_ f = true /\ payload_len_ f < CrcNumBytes) \/
      max_buf_size_ m < buffer_write_pos_ r + len \/ refused a').
Proof.
  intros Hm Hj [Hf Hl Hts _] Hacc Hc Hpos f len. fold f in Hf, Hl.
  destruct (decide (start_of_transfer_ f = true /\ payload_len_ f < CrcNumBytes)) as [[Hs Hlt]|Hgood].
  - exists false, a, m, c, (this_transfer_crc_ r). unfold writePayload. fold f. rewrite Hs.
    destruct (Z.ltb_spec (payload_len_ f) CrcNumBytes); [|lia].
    split; [rewrite Z.add_0_r; by destruct r|]. split_and!; try done. by left.
  - destruct (eff_payload_data f Hf Hl) as (Hd & Hdl & Hlen); [destruct (start_of_transfer_ f); [right|left]; try done; lia|].
    fold len in Hd, Hdl, Hlen. set (data := if start_of_transfer_ f then _ else _) in Hd, Hdl.
    destruct (BufMgr_write_any sizeof_Block B HB junk a m key buf c (buffer_write_pos_ r) data len)
      as (w & a' & m' & Ew & Hw & Hm' & Hfo & Hot & Hsz & Hacc' & Hcont & Hok & Hfail); try done; try lia.
    pose proof (contents_length B a m key c Hm Hc) as Hcl. pose proof (bm_size B a m Hm) as Hms.
    exists (w =? len), a', m', (buf_write c (buffer_write_pos_ r) data w),
      (if start_of_transfer_ f then frame_crc f else this_transfer_crc_ r). split_and!; try done.
    + unfold writePayload. fold f. pose proof (eff_payload_length f Hf Hl) as Hel. fold len in Hel.
      destruct (start_of_transfer_ f) eqn:Hs.
      * destruct (Z.ltb_spec (payload_len_ f) CrcNumBytes); [tauto|].
        rewrite frame_crc_eq by apply Hf. replace (payload_len_ f - CrcNumBytes) with len by lia.
        unfold data in Ew. rewrite Ew. f_equal. f_equal.
        destruct (Z.eqb_spec w len); [rewrite wrap_small by (split; lia); done|lia].
      * unfold data in Ew. rewrite <-Hel, Ew. f_equal. f_equal.
        destruct (Z.eqb_spec w len); [rewrite wrap_small by (split; lia); done|lia].
    + rewrite Hcont. by rewrite (proj2 (Key_eqb_eq key key) eq_refl).
    + intros k' Hk'. rewrite Hcont. destruct (Key_eqb k' key) eqn:Ek; [|done]. by apply Key_eqb_eq in Ek.
    + intros Hwl%Z.eqb_eq. subst w. split_and!; [done| |auto].
      unfold buf_write. rewrite Hd. by rewrite (take_ge (eff_payload f)) by lia.
    + intros Hwl%Z.eqb_neq. destruct (Hfail ltac:(lia)) as [|(a0 & ? & ? & ?)]; [by right; left|].
      right; right. exists a0, sizeof_Block. split_and!; try done. by left.
Qed.

(** What the handling of a frame may change of the manager: only the buffer of
    the key. *)
Record mgr_frame (a : A) (m : TransferBufferManager) (a' : A) (m' : TransferBufferManager) : Prop := {
  mf_inv : BufMgr_inv B a' m';
  mf_foreign : foreign a' m' = foreign a m;
  mf_others : others a' m' key = others a m key;
  mf_size : max_buf_size_ m' = max_buf_size_ m;
  mf_contents k' : k' <> key -> contents m' k' = contents m k'
}.

Lemma mgr_frame_refl a m : BufMgr_inv B a m -> mgr_frame a m a m.
Proof. done. Qed.

Lemma mgr_frame_trans a m a1 m1 a2 m2 :
  mgr_frame a m a1 m1 -> mgr_frame a1 m1 a2 m2 -> mgr_frame a m a2 m2.
Proof.
  intros [_ F1 O1 S1 C1] [I2 F2 O2 S2 C2]. split; [done|congruence|congruence|congruence|].
  intros k' Hk. by rewrite C2, C1.
Qed.

Lemma remove_frame a m :
  BufMgr_inv B a m ->
  let '(a', m') := BufMgr_remove a m key in mgr_frame a m a' m' /\ contents m' key = None.
Proof.
  intros Hm. pose proof (BufMgr_remove_ok B HB a m key Hm) as Hr.
  destruct (BufMgr_remove a m key) as [a' m']. destruct Hr as (I & F & O & S & C).
  split; [split; try done|].
  - intros k' Hk. rewrite C. destruct (Key_eqb k' key) eqn:E; [by apply Key_eqb_eq in E|done].
  - rewrite C. by rewrite (proj2 (Key_eqb_eq key key) eq_refl).
Qed.

(** [access], and [create] where there is no buffer. *)
Definition obtain (a : A) (m : TransferBufferManager) : option Z * A * TransferBufferManager :=
  match BufMgr_access m key with
  | Some buf => (Some buf, a, m)
  | None => BufMgr_create sizeof_Entry a m key
  end.

Lemma obtain_ok a m :
  BufMgr_inv B a m ->
  let '(buf, a', m') := obtain a m in
  mgr_frame a m a' m' /\ BufMgr_access m' key = buf /\
  (is_Some buf -> contents m' key = Some (default [] (contents m key))) /\
  (buf = None -> contents m' key = None /\ refused a').
Proof.
  intros Hm. unfold obtain. destruct (BufMgr_access m key) as [buf|] eqn:Ea.
  - split_and!; try done. intros _.
    destruct (proj1 (access_contents m key Hkey) ltac:(by eexists)) as [c ->]. done.
  - pose proof (BufMgr_create_ok sizeof_Entry B HB a m key Hm Hkey) as Hc.
    destruct (BufMgr_create sizeof_Entry a m key) as [[buf a'] m'].
    destruct Hc as (I & F & O & S & Acc & Hn & C).
    assert (Hnone : contents m key = None).
    { destruct (contents m key) eqn:E; [|done].
      destruct (proj2 (access_contents m key Hkey) ltac:(by eexists)) as [? E']. congruence. }
    split_and!; try done.
    + split; try done. intros k' Hk. rewrite C.
      destruct (Key_eqb k' key) eqn:E; [by apply Key_eqb_eq in E|done].
    + intros [b ->]. rewrite C, (proj2 (Key_eqb_eq key key) eq_refl). by rewrite Hnone.
    + intros ->. rewrite C, (proj2 (Key_eqb_eq key key) eq_refl). split; [done|].
      destruct (Hn eq_refl) as (a0 & ? & ? & ?). exists a0, sizeof_Entry. split_and!; try done. by right; left.
Qed.

(** The receiver after a frame of a multi-frame transfer was taken. *)
Definition accepted (r : TransferReceiver) (frame : RxFrame) : TransferReceiver :=
  let f := rx_frame frame in
  let r := if start_of_transfer_ f then set_transfer_ts r (ts_mono_ frame) (ts_utc_ frame) else r in
  let crc := if start_of_transfer_ f then frame_crc f else this_transfer_crc_ r in
  let r := set_write_pos r crc (buffer_write_pos_ r + Z.of_nat (length (eff_payload f))) in
  let r := set_next_toggle r (negb (next_toggle_ r)) in
  if end_of_transfer_ f then prepareForNextTransfer (updateTransferTimings r) else r.

(** The three outcomes of [receive]. *)
Inductive received (a : A) (m : TransferBufferManager) (r : TransferReceiver) (frame : RxFrame)
    (a' : A) (m' : TransferBufferManager) : ResultCode -> TransferReceiver -> Prop :=
  | rcv_single :
      start_of_transfer_ (rx_frame frame) = true -> end_of_transfer_ (rx_frame frame) = true ->
      contents m' key = None ->
      received a m r frame a' m' ResultSingleFrame
        (set_write_pos (prepareForNextTransfer (updateTransferTimings
           (set_transfer_ts r (ts_mono_ frame) (ts_utc_ frame)))) 0 0)
  | rcv_data c :
      c = default [] (contents m key) ->
      buffer_write_pos_ r + Z.of_nat (length (eff_payload (rx_frame frame))) <= max_buf_size_ m ->
      contents m' key = Some (buf_write c (buffer_write_pos_ r) (eff_payload (rx_frame frame))
        (Z.of_nat (length (eff_payload (rx_frame frame))))) ->
      received a m r frame a' m'
        (if end_of_transfer_ (rx_frame frame) then ResultComplete else ResultNotComplete)
        (accepted r frame)
  | rcv_fail r0 :
      contents m' key = None ->
      (start_of_transfer_ (rx_frame frame) = true /\ payload_len_ (rx_frame frame) < CrcNumBytes) \/
      max_buf_size_ m < buffer_write_pos_ r + Z.of_nat (length (eff_payload (rx_frame frame))) \/
      (exists a1 m1, mgr_frame a m a1 m1 /\ refused a1) ->
      tid_ r0 = tid_ r -> r_iface_index_ r0 = r_iface_index_ r -> error_cnt_ r0 = error_cnt_ r ->
      prev_transfer_ts_ r0 = prev_transfer_ts_ r ->
      this_transfer_ts_ r0 = (if start_of_transfer_ (rx_frame frame) then ts_mono_ frame
                              else this_transfer_ts_ r) ->
      received a m r frame a' m' ResultNotComplete (registerError (prepareForNextTransfer r0)).

Lemma receive_ok junk a m r frame :
  BufMgr_inv B a m -> pos_ok m r -> (forall p, length (junk p) = B) -> Rx_wf frame ->
  let '(code, a', m', r') := receive sizeof_Block sizeof_Entry key junk a m r frame in
  mgr_frame a m a' m' /\ received a m r frame a' m' code r'.
Proof.
  intros Hm Hpos Hj Hrx. unfold receive. fold (obtain a m).
  set (f := rx_frame frame).
  set (r1 := if start_of_transfer_ f then set_transfer_ts r (ts_mono_ frame) (ts_utc_ frame) else r).
  assert (Hr1 : buffer_write_pos_ r1 = buffer_write_pos_ r /\ tid_ r1 = tid_ r /\
    r_iface_index_ r1 = r_iface_index_ r /\ error_cnt_ r1 = error_cnt_ r /\
    prev_transfer_ts_ r1 = prev_transfer_ts_ r /\
    this_transfer_ts_ r1 = (if start_of_transfer_ f then ts_mono_ frame else this_transfer_ts_ r)).
  { unfold r1. by destruct (start_of_transfer_ f). }
  destruct Hr1 as (R1 & R2 & R3 & R4 & R5 & R6).
  destruct (start_of_transfer_ f && end_of_transfer_ f) eqn:Ese.
  - apply andb_true_iff in Ese as [Es Ee]. pose proof (remove_frame a m Hm) as Hrem.
    destruct (BufMgr_remove a m key) as [a' m']. destruct Hrem as [Hf Hc]. split; [done|].
    unfold r1. rewrite Es. by apply rcv_single.
  - pose proof (obtain_ok a m Hm) as Hob. destruct (obtain a m) as [[[buf|] a1] m1].
    + destruct Hob as (Hf1 & Hacc & Hc1 & _). specialize (Hc1 ltac:(by eexists)).
      set (c := default [] (contents m key)) in Hc1.
      assert (Hpos1 : 0 <= buffer_write_pos_ r1 <= Z.of_nat (length c)).
      { rewrite R1. unfold pos_ok in Hpos. unfold c. destruct (contents m key); [done|]. simpl. lia. }
      destruct (writePayload_ok junk a1 m1 r1 frame buf c) as
        (ok & a2 & m2 & c2 & crc & -> & I2 & F2 & O2 & S2 & C2 & K2 & Hok & Hno);
        [apply Hf1|done..|]. fold f in Hok, Hno |- *.
      assert (Hf2 : mgr_frame a1 m1 a2 m2) by done.
      pose proof (mgr_frame_trans _ _ _ _ _ _ Hf1 Hf2) as Hf12.
      rewrite (mf_size _ _ _ _ Hf1), R1 in Hok, Hno. destruct ok; cbn [negb].
      * destruct (Hok eq_refl) as (-> & -> & Hle).
        replace (if end_of_transfer_ f then
            (ResultComplete, a2, m2, prepareForNextTransfer (updateTransferTimings
              (set_next_toggle _ _))) else _)
          with (if end_of_transfer_ f then ResultComplete else ResultNotComplete, a2, m2, accepted r frame).
        2: { unfold accepted. fold f r1. by destruct (end_of_transfer_ f). }
        split; [done|]. by apply (rcv_data _ _ _ _ _ _ c).
      * pose proof (remove_frame a2 m2 I2) as Hrem. destruct (BufMgr_remove a2 m2 key) as [a3 m3].
        destruct Hrem as [Hf3 Hc3]. split; [by eapply mgr_frame_trans|].
        apply rcv_fail; try done. fold f.
        destruct (Hno eq_refl) as [|[|]]; [tauto|tauto|]. right; right. by exists a2, m2.
    + destruct Hob as (Hf1 & _ & _ & Hno). destruct (Hno eq_refl) as [Hc1 Hr]. split; [done|].
      apply rcv_fail; try done. right; right. by exists a1, m1.
Qed.

Lemma buf_write_length c offset data w :
  0 <= offset <= Z.of_nat (length c) -> 0 <= w <= Z.of_nat (length data) ->
  offset + w <= Z.of_nat (length (buf_write c offset data w)).
Proof. intros. unfold buf_write. rewrite !length_app, !length_take, length_drop. lia. Qed.

Lemma error_range x : 0 <= Z.land (u8 x) ErrorCntMask <= ErrorCntMask.
Proof.
  change ErrorCntMask with (Z.ones 5). rewrite Z.land_ones by lia.
  pose proof (Z.mod_pos_bound (u8 x) (2 ^ 5) ltac:(lia)). change (Z.ones 5) with 31. lia.
Qed.

Lemma registerError_inv a m r : Recv_inv a m r -> Recv_inv a m (registerError r).
Proof. intros []. split; try done. apply error_range. Qed.

Lemma received_inv a m r frame a' m' code r' :
  Recv_inv a m r -> Rx_wf frame -> mgr_frame a m a' m' -> received a m r frame a' m' code r' ->
  Recv_inv a' m' r'.
Proof.
  intros [Hm Hpos Ht Hi He Hts Hpt] Hrx Hf Hrcv. pose proof (rxw_ts frame Hrx) as Hfts.
  destruct Hrcv as [Hs He' Hc|c -> Hle Hc|r0 Hc _ E1 E2 E3 E4 E5].
  - split; cbn; try done; try apply Hf; try apply increment_wf; try lia. unfold pos_ok. by rewrite Hc.
  - set (f := rx_frame frame) in *.
    assert (Hlen : 0 <= buffer_write_pos_ r <= Z.of_nat (length (default [] (contents m key)))).
    { unfold pos_ok in Hpos. destruct (contents m key); [done|]. simpl. lia. }
    unfold accepted. fold f.
    set (r1 := set_next_toggle _ _).
    assert (Hr1 : Recv_inv a' m' r1).
    { unfold r1. destruct (start_of_transfer_ f); split; cbn; try done; try apply Hf; try lia;
        unfold pos_ok; rewrite Hc; cbn; split; try lia; apply buf_write_length; lia. }
    destruct (end_of_transfer_ f); [|done]. destruct Hr1 as [I1 I2 I3 I4 I5 I6 I7].
    split; cbn; try done; try apply increment_wf.
    unfold pos_ok. rewrite Hc. cbn. lia.
  - split; cbn; rewrite ?E1, ?E2, ?E4, ?E5; try done; try apply Hf; try apply increment_wf; try apply error_range.
    + unfold pos_ok. by rewrite Hc.
    + destruct (start_of_transfer_ (rx_frame frame)); lia.
Qed.

Lemma iface_mask_range x : 0 <= Z.land x IfaceIndexMask <= IfaceIndexNotSet.
Proof.
  change IfaceIndexMask with (Z.ones 2). rewrite Z.land_ones by lia.
  pose proof (Z.mod_pos_bound x (2 ^ 2) ltac:(lia)). change IfaceIndexNotSet with 3. lia.
Qed.

Lemma restart_inv a m a' m' r frame :
  Recv_inv a m r -> Rx_wf frame -> mgr_frame a m a' m' -> contents m' key = None ->
  Recv_inv a' m' (restart r frame).
Proof.
  intros [Hm Hpos Ht Hi He Hts Hpt] Hrx Hf Hc. unfold restart.
  set (r1 := if isInitialized r && _ then registerError r else r).
  assert (Hr1 : prev_transfer_ts_ r1 = prev_transfer_ts_ r /\ this_transfer_ts_ r1 = this_transfer_ts_ r /\
    0 <= error_cnt_ r1 <= ErrorCntMask).
  { unfold r1. case_match; cbn; split_and!; try done; try lia; apply error_range. }
  destruct Hr1 as (E1 & E2 & E3). split; cbn; rewrite ?E1, ?E2; try done; try apply Hf.
  - unfold pos_ok. by rewrite Hc.
  - destruct (start_of_transfer_ (rx_frame frame)); [apply Hrx|apply increment_wf].
  - apply iface_mask_range.
Qed.

Lemma validate_inv a m r frame :
  Recv_inv a m r -> Recv_inv a m (validate r frame).2 /\
  buffer_write_pos_ (validate r frame).2 = buffer_write_pos_ r.
Proof.
  intros Hr. pose proof (registerError_inv a m r Hr) as He.
  pose proof (registerError_inv a m _ He) as He2. unfold validate.
  repeat case_match; by cbn.
Qed.

Lemma addFrame_inv junk a m r frame :
  Recv_inv a m r -> (forall p, length (junk p) = B) -> Rx_wf frame ->
  let '(code, a', m', r') := addFrame sizeof_Block sizeof_Entry key junk a m r frame in
  Recv_inv a' m' r' /\ mgr_frame a m a' m'.
Proof.
  intros Hr Hj Hrx. unfold addFrame. destruct (_ || _ || _); [split; [done|apply mgr_frame_refl, Hr]|].
  assert (Hafter : forall a1 m1 r1, Recv_inv a1 m1 r1 -> mgr_frame a m a1 m1 ->
    let '(code, a', m', r') :=
      (let '(ok, r) := validate r1 frame in
       if negb ok then (ResultNotComplete, a1, m1, r)
       else receive sizeof_Block sizeof_Entry key junk a1 m1 r frame) in
    Recv_inv a' m' r' /\ mgr_frame a m a' m').
  { intros a1 m1 r1 Hr1 Hf1. pose proof (validate_inv a1 m1 r1 frame Hr1) as [Hv _].
    destruct (validate r1 frame) as [ok r2]. cbn [snd] in Hv. destruct ok; cbn [negb]; [|done].
    pose proof (receive_ok junk a1 m1 r2 frame (ri_mgr _ _ _ Hv) (ri_pos _ _ _ Hv) Hj Hrx) as Hrc.
    destruct (receive _ _ _ _ _ _ _ _) as [[[code a'] m'] r']. destruct Hrc as [Hf2 Hrcv].
    split; [by eapply received_inv|by eapply mgr_frame_trans]. }
  destruct (need_restart r frame).
  - pose proof (remove_frame a m (ri_mgr _ _ _ Hr)) as Hrem.
    destruct (BufMgr_remove a m key) as [a1 m1]. destruct Hrem as [Hf1 Hc1].
    pose proof (restart_inv a m a1 m1 r frame Hr Hrx Hf1 Hc1) as Hr1.
    destruct (start_of_transfer_ (rx_frame frame)); cbn [negb]; [|done]. by apply Hafter.
  - apply Hafter; [done|]. apply mgr_frame_refl, Hr.
Qed.

Lemma BufMgr_inv_empty a sz : pool_inv a -> 0 <= sz <= 0xFFFF -> BufMgr_inv B a (mkBufMgr [] sz).
Proof.
  intros Ha Hs. split; try done; try constructor. intros p Hp. by apply elem_of_nil in Hp.
Qed.

Lemma Recv_inv_init a m : BufMgr_inv B a m -> contents m key = None -> Recv_inv a m TransferReceiver_init.
Proof. intros Hm Hc. split; try done. unfold pos_ok. by rewrite Hc. Qed.

(** ** A sequence of frames *)

Fixpoint addFrames (junk : Z -> list Z) (a : A) (m : TransferBufferManager) (r : TransferReceiver)
    (fs : list RxFrame) : list ResultCode * A * TransferBufferManager * TransferReceiver :=
  match fs with
  | [] => ([], a, m, r)
  | f :: fs =>
    let '(code, a, m, r) := addFrame sizeof_Block sizeof_Entry key junk a m r f in
    let '(codes, a, m, r) := addFrames junk a m r fs in
    (code :: codes, a, m, r)
  end.

Lemma addFrames_inv junk a m r fs :
  Recv_inv a m r -> (forall p, length (junk p) = B) -> Forall Rx_wf fs ->
  let '(codes, a', m', r') := addFrames junk a m r fs in
  Recv_inv a' m' r' /\ mgr_frame a m a' m' /\ length codes = length fs.
Proof.
  intros Hr Hj Hfs. revert a m r Hr. induction Hfs as [|f fs Hf _ IH]; intros a m r Hr; cbn [addFrames].
  - split_and!; try done. apply mgr_frame_refl, Hr.
  - pose proof (addFrame_inv junk a m r f Hr Hj Hf) as H1.
    destruct (addFrame _ _ _ _ _ _ _ _) as [[[code a1] m1] r1]. destruct H1 as [Hr1 Hf1].
    specialize (IH a1 m1 r1 Hr1). destruct (addFrames junk a1 m1 r1 fs) as [[[codes a2] m2] r2].
    destruct IH as (Hr2 & Hf2 & Hl). split_and!; [done|by eapply mgr_frame_trans|simpl; lia].
Qed.

Section capacity.
Context (block_size num_blocks : Z) `{!PoolCapacity A block_size num_blocks}.
Context (Hsb : sizeof_Block <= block_size) (Hse : sizeof_Entry <= block_size).

(** The pool has room for a full buffer besides the blocks in other use. *)
Definition room (a : A) (m : TransferBufferManager) : Prop :=
  Z.of_nat (size (others a m key)) + max_buf_size_ m / Z.of_nat B + 3 <= num_blocks.

Lemma room_frame a m a' m' : mgr_frame a m a' m' -> room a m -> room a' m'.
Proof. intros [_ _ O S _]. unfold room. by rewrite O, S. Qed.

Lemma no_refusal a m a' m' : room a m -> mgr_frame a m a' m' -> refused a' -> False.
Proof.
  intros Hroom Hf (a0 & sz & Hi & Hsz & Ha & Hl).
  assert (Hle : sz <= block_size).
  { apply elem_of_cons in Hsz as [->|Hsz]; [done|]. by apply list_elem_of_singleton in Hsz as ->. }
  pose proof (allocate_refused a0 sz a' Hi Hle Ha) as Hn. rewrite Hl in Hn.
  rewrite (live_size B HB a' m' key (mf_inv _ _ _ _ Hf)) in Hn.
  pose proof (held_length B HB a' m' key (mf_inv _ _ _ _ Hf)) as Hh.
  pose proof (room_frame a m a' m' Hf Hroom) as Hr. unfold room in Hr. lia.
Qed.

(** Taking a data frame that passes the checks, with room in the pool. *)
Lemma receive_data junk a m r frame c :
  BufMgr_inv B a m -> (forall p, length (junk p) = B) -> Rx_wf frame -> room a m ->
  c = default [] (contents m key) -> buffer_write_pos_ r = Z.of_nat (length c) ->
  (contents m key = None -> buffer_write_pos_ r = 0) ->
  start_of_transfer_ (rx_frame frame) && end_of_transfer_ (rx_frame frame) = false ->
  start_of_transfer_ (rx_frame frame) = false \/ CrcNumBytes <= payload_len_ (rx_frame frame) ->
  Z.of_nat (length c) + Z.of_nat (length (eff_payload (rx_frame frame))) <= max_buf_size_ m ->
  exists a' m', receive sizeof_Block sizeof_Entry key junk a m r frame =
      (if end_of_transfer_ (rx_frame frame) then ResultComplete else ResultNotComplete, a', m',
       accepted r frame) /\
    mgr_frame a m a' m' /\ contents m' key = Some (c ++ eff_payload (rx_frame frame)).
Proof.
  intros Hm Hj Hrx Hroom Hc Hpos Hnone Hse' Hcrc Hfit.
  assert (Hpk : pos_ok m r).
  { unfold pos_ok. destruct (contents m key) as [c'|] eqn:E; simpl in Hc; subst c; [lia|auto]. }
  pose proof (receive_ok junk a m r frame Hm Hpk Hj Hrx) as Hrc.
  destruct (receive _ _ _ _ _ _ _ _) as [[[code a'] m'] r']. destruct Hrc as [Hf Hrcv].
  destruct Hrcv as [Hs He _|c' -> _ Hc'|r0 _ Hbad].
  - by rewrite Hs, He in Hse'.
  - exists a', m'. split_and!; try done. rewrite Hc'. f_equal. rewrite <-Hc. unfold buf_write.
    rewrite Hpos, !Nat2Z.id, (take_ge c) by lia.
    rewrite (take_ge (eff_payload _)) by lia. rewrite drop_ge by lia. by rewrite app_nil_r.
  - destruct Hbad as [[Hs Hl]|[Hl|(a1 & m1 & Hf1 & Hr)]].
    + destruct Hcrc as [|]; [congruence|lia].
    + lia.
    + by destruct (no_refusal a m a1 m1 Hroom Hf1 Hr).
Qed.

(** The frames of a transfer after its first one: no start, alternating
    toggle, the end on the last one only, at most the TID timeout after the
    first frame. *)
Fixpoint tail_frames (tid iface t0 : Z) (toggle : bool) (fs : list RxFrame) : Prop :=
  match fs with
  | [] => False
  | f :: fs =>
    Rx_wf f /\ start_of_transfer_ (rx_frame f) = false /\ toggle_ (rx_frame f) = toggle /\
    transfer_id_ (rx_frame f) = tid /\ iface_index_ f = iface /\
    t0 <= ts_mono_ f <= t0 + DefaultTidTimeoutMSec * 1000 /\
    end_of_transfer_ (rx_frame f) = (match fs with [] => true | _ => false end) /\
    (fs = [] \/ tail_frames tid iface t0 (negb toggle) fs)
  end.

(** The receiver in the middle of a transfer. *)
Record mid_transfer (m : TransferBufferManager) (r : TransferReceiver) (tid iface t0 crc : Z)
    (toggle : bool) (c : list Z) : Prop := {
  mt_tid : tid_ r = tid;
  mt_iface : r_iface_index_ r = iface;
  mt_toggle : next_toggle_ r = toggle;
  mt_ts : this_transfer_ts_ r = t0;
  mt_prev : prev_transfer_ts_ r <= t0;
  mt_crc : this_transfer_crc_ r = crc;
  mt_contents : contents m key = Some c;
  mt_pos : buffer_write_pos_ r = Z.of_nat (length c)
}.

(** A continuation frame of the running transfer is taken. *)
Lemma addFrame_tail junk a m r frame tid iface t0 crc toggle c :
  BufMgr_inv B a m -> (forall p, length (junk p) = B) -> room a m ->
  mid_transfer m r tid iface t0 crc toggle c ->
  Rx_wf frame -> start_of_transfer_ (rx_frame frame) = false -> toggle_ (rx_frame frame) = toggle ->
  transfer_id_ (rx_frame frame) = tid -> iface_index_ frame = iface -> 0 <= t0 ->
  t0 <= ts_mono_ frame <= t0 + DefaultTidTimeoutMSec * 1000 ->
  Z.of_nat (length c) + Z.of_nat (length (eff_payload (rx_frame frame))) <= max_buf_size_ m ->
  exists a' m', addFrame sizeof_Block sizeof_Entry key junk a m r frame =
      (if end_of_transfer_ (rx_frame frame) then ResultComplete else ResultNotComplete, a', m',
       accepted r frame) /\
    mgr_frame a m a' m' /\ contents m' key = Some (c ++ eff_payload (rx_frame frame)).
Proof.
  intros Hm Hj Hroom [Mt Mi Mg Ms Mp Mc Mb Mw] Hrx Hs Htg Htid Hif Ht0 Hts Hfit.
  pose proof (rxw_ts frame Hrx) as Hpos. pose proof (rxw_iface frame Hrx) as Hifr.
  unfold addFrame. destruct (MTime.isZero (ts_mono_ frame)) eqn:Ez; [unfold MTime.isZero in Ez; lia|].
  rewrite Ms. destruct (Z.ltb_spec (ts_mono_ frame) (prev_transfer_ts_ r)); [lia|].
  destruct (Z.ltb_spec (ts_mono_ frame) t0); [lia|]. cbn [orb].
  assert (Hnr : need_restart r frame = false).
  { unfold need_restart, isInitialized. rewrite Hs, !andb_false_r, !orb_false_r, negb_involutive.
    rewrite not_timed_out by lia. unfold IfaceIndexNotSet. rewrite Mi, <-Hif. lia. }
  rewrite Hnr. unfold validate. rewrite Mi, Hif, Z.eqb_refl, Hs. cbn [andb negb].
  rewrite Htg, Mg, Htid, Mt, eqb_reflx, Z.eqb_refl. cbn [negb].
  apply receive_data; try done; try (by rewrite Hs); try (by left); try congruence.
  by rewrite Mb.
Qed.

Definition transfer_payload (fs : list RxFrame) : list Z := concat ((fun f => eff_payload (rx_frame f)) <$> fs).

(** The receiver between transfers, expecting the given transfer ID. *)
Record idle (r : TransferReceiver) (tid iface t0 : Z) : Prop := {
  id_tid : tid_ r = tid;
  id_iface : r_iface_index_ r = iface;
  id_toggle : next_toggle_ r = false;
  id_pos : buffer_write_pos_ r = 0;
  id_this : this_transfer_ts_ r = t0;
  id_prev : prev_transfer_ts_ r = t0
}.

Lemma addFrames_tail junk fs a m r tid iface t0 crc toggle c :
  BufMgr_inv B a m -> (forall p, length (junk p) = B) -> room a m ->
  mid_transfer m r tid iface t0 crc toggle c -> tail_frames tid iface t0 toggle fs -> 0 <= t0 ->
  Z.of_nat (length c + length (transfer_payload fs)) <= max_buf_size_ m ->
  exists a' m' r', addFrames junk a m r fs =
      (replicate (length fs - 1) ResultNotComplete ++ [ResultComplete], a', m', r') /\
    mgr_frame a m a' m' /\ contents m' key = Some (c ++ transfer_payload fs) /\
    this_transfer_crc_ r' = crc /\ idle r' (TransferID.increment tid) iface t0 /\
    first_frame_ts_ r' = first_frame_ts_ r.
Proof.
  intros Hm Hj. revert a m r toggle c Hm.
  induction fs as [|f fs IH]; intros a m r toggle c Hm Hroom Hmid Hfs Ht0 Hfit; [done|].
  destruct Hfs as (Hrx & Hs & Htg & Htid & Hif & Hts & Hend & Hrest).
  assert (Hcat : transfer_payload (f :: fs) = eff_payload (rx_frame f) ++ transfer_payload fs) by done.
  rewrite Hcat, length_app in Hfit.
  destruct (addFrame_tail junk a m r f tid iface t0 crc toggle c) as (a1 & m1 & E1 & Hf1 & Hc1);
    try done; [lia|]. cbn [addFrames]. rewrite E1.
  assert (Hacc : accepted r f = if end_of_transfer_ (rx_frame f) then
      prepareForNextTransfer (updateTransferTimings (set_next_toggle (set_write_pos r crc
        (Z.of_nat (length (c ++ eff_payload (rx_frame f))))) (negb toggle)))
      else set_next_toggle (set_write_pos r crc
        (Z.of_nat (length (c ++ eff_payload (rx_frame f))))) (negb toggle)).
  { destruct Hmid as [? ? Mg ? ? Mc ? Mw]. unfold accepted. rewrite Hs, Mc, Mw, length_app, Nat2Z.inj_add.
    cbn [next_toggle_ set_write_pos]. by rewrite Mg. }
  rewrite Hacc. destruct Hmid as [Mt Mi Mg Ms Mp Mc Mb Mw]. destruct fs as [|f2 fs].
  - rewrite Hend. exists a1, m1. eexists. split; [done|]. rewrite Hcat.
    change (transfer_payload []) with (@nil Z). rewrite app_nil_r.
    split_and!; try done; try apply Hf1. split; cbn; congruence.
  - destruct Hrest as [|Hrest]; [done|]. rewrite Hend.
    destruct (IH a1 m1 (set_next_toggle (set_write_pos r crc
        (Z.of_nat (length (c ++ eff_payload (rx_frame f))))) (negb toggle)) (negb toggle)
        (c ++ eff_payload (rx_frame f))) as (a2 & m2 & r2 & E2 & Hf2 & Hc2 & Hcrc & Hid & Hff).
    + apply Hf1.
    + by eapply room_frame.
    + split; cbn; try done; congruence.
    + done.
    + done.
    + rewrite length_app, (mf_size _ _ _ _ Hf1). lia.
    + rewrite E2. exists a2, m2, r2. split_and!; try done.
      * simpl. by rewrite Nat.sub_0_r.
      * by eapply mgr_frame_trans.
      * rewrite Hc2, Hcat. by rewrite app_assoc.
Qed.

(** The receiver takes the first frame of a transfer into an empty buffer: it
    restarts, or it is between transfers and waits for this transfer ID. *)
Definition start_ready (m : TransferBufferManager) (r : TransferReceiver) (frame : RxFrame) : Prop :=
  prev_transfer_ts_ r <= ts_mono_ frame /\ this_transfer_ts_ r <= ts_mono_ frame /\
  (need_restart r frame = true \/
   (r_iface_index_ r = iface_index_ frame /\ tid_ r = transfer_id_ (rx_frame frame) /\
    next_toggle_ r = false /\ buffer_write_pos_ r = 0 /\ contents m key = None)).

Lemma addFrame_first junk a m r frame :
  BufMgr_inv B a m -> (forall p, length (junk p) = B) -> room a m -> Rx_wf frame ->
  start_ready m r frame ->
  start_of_transfer_ (rx_frame frame) = true -> end_of_transfer_ (rx_frame frame) = false ->
  toggle_ (rx_frame frame) = false -> CrcNumBytes <= payload_len_ (rx_frame frame) ->
  Z.of_nat (length (eff_payload (rx_frame frame))) <= max_buf_size_ m ->
  exists a' m' r', addFrame sizeof_Block sizeof_Entry key junk a m r frame = (ResultNotComplete, a', m', r') /\
    mgr_frame a m a' m' /\
    mid_transfer m' r' (transfer_id_ (rx_frame frame)) (iface_index_ frame) (ts_mono_ frame)
      (frame_crc (rx_frame frame)) true (eff_payload (rx_frame frame)) /\
    first_frame_ts_ r' = ts_utc_ frame.
Proof.
  intros Hm Hj Hroom Hrx (Hp & Ht & Hready) Hs He Htg Hlen Hfit.
  pose proof (rxw_ts frame Hrx) as Hpos. pose proof (rxw_iface frame Hrx) as Hifr.
  unfold addFrame. destruct (MTime.isZero (ts_mono_ frame)) eqn:Ez; [unfold MTime.isZero in Ez; lia|].
  destruct (Z.ltb_spec (ts_mono_ frame) (prev_transfer_ts_ r)); [lia|].
  destruct (Z.ltb_spec (ts_mono_ frame) (this_transfer_ts_ r)); [lia|]. cbn [orb].
  assert (Hclean : forall a1 m1 r1, mgr_frame a m a1 m1 -> contents m1 key = None ->
    r_iface_index_ r1 = iface_index_ frame -> tid_ r1 = transfer_id_ (rx_frame frame) ->
    next_toggle_ r1 = false -> buffer_write_pos_ r1 = 0 -> prev_transfer_ts_ r1 = prev_transfer_ts_ r ->
    exists a' m' r',
      (let '(ok, r) := validate r1 frame in
       if negb ok then (ResultNotComplete, a1, m1, r)
       else receive sizeof_Block sizeof_Entry key junk a1 m1 r frame) = (ResultNotComplete, a', m', r') /\
      mgr_frame a m a' m' /\
      mid_transfer m' r' (transfer_id_ (rx_frame frame)) (iface_index_ frame) (ts_mono_ frame)
        (frame_crc (rx_frame frame)) true (eff_payload (rx_frame frame)) /\
      first_frame_ts_ r' = ts_utc_ frame).
  { intros a1 m1 r1 Hf1 Hc1 Ei Et En Ep Epv. unfold validate, isMidTransfer.
    rewrite Ei, Z.eqb_refl, Hs, He, Htg, Ep. cbn [negb andb].
    destruct (Z.ltb_spec (payload_len_ (rx_frame frame)) CrcNumBytes); [lia|].
    cbn [andb negb Z.ltb Z.compare]. rewrite En, Et, Z.eqb_refl. cbn [negb eqb].
    destruct (receive_data junk a1 m1 r1 frame []) as (a2 & m2 & E2 & Hf2 & Hc2); try done.
    - apply Hf1.
    - by eapply room_frame.
    - by rewrite Hc1.
    - by rewrite Hs, He.
    - by right.
    - rewrite (mf_size _ _ _ _ Hf1). simpl. lia.
    - rewrite He in E2. rewrite E2. exists a2, m2, (accepted r1 frame).
      split_and!; [done|by eapply mgr_frame_trans| |].
      + unfold accepted. rewrite Hs, He.
        split; cbn; try congruence; try done; rewrite ?En, ?Epv, ?Ep; try done; lia.
      + unfold accepted. by rewrite Hs, He. }
  destruct Hready as [Hnr|(Ei & Et & En & Ep & Hc)].
  - rewrite Hnr. pose proof (remove_frame a m Hm) as Hrem.
    destruct (BufMgr_remove a m key) as [a1 m1]. destruct Hrem as [Hf1 Hc1].
    rewrite Hs. cbn [negb]. apply Hclean; try done.
    + unfold restart. cbn. change IfaceIndexMask with (Z.ones 2). rewrite Z.land_ones by lia.
      apply Z.mod_small. unfold MaxCanIfaces in Hifr. lia.
    + unfold restart. cbn. by rewrite Hs.
    + unfold restart. cbn. by case_match.
  - destruct (need_restart r frame) eqn:Hnr.
    + pose proof (remove_frame a m Hm) as Hrem.
      destruct (BufMgr_remove a m key) as [a1 m1]. destruct Hrem as [Hf1 Hc1].
      rewrite Hs. cbn [negb]. apply Hclean; try done.
      * unfold restart. cbn. change IfaceIndexMask with (Z.ones 2). rewrite Z.land_ones by lia.
        apply Z.mod_small. unfold MaxCanIfaces in Hifr. lia.
      * unfold restart. cbn. by rewrite Hs.
      * unfold restart. cbn. by case_match.
    + apply Hclean; try done.
Qed.

(** A single-frame transfer. *)
Lemma addFrame_single junk a m r frame :
  BufMgr_inv B a m -> Rx_wf frame -> start_ready m r frame -> pos_ok m r ->
  (forall p, length (junk p) = B) ->
  start_of_transfer_ (rx_frame frame) = true -> end_of_transfer_ (rx_frame frame) = true ->
  toggle_ (rx_frame frame) = false ->
  exists a' m' r', addFrame sizeof_Block sizeof_Entry key junk a m r frame = (ResultSingleFrame, a', m', r') /\
    mgr_frame a m a' m' /\ contents m' key = None /\
    idle r' (TransferID.increment (transfer_id_ (rx_frame frame))) (iface_index_ frame) (ts_mono_ frame).
Proof.
  intros Hm Hrx (Hp & Ht & Hready) Hpk Hj Hs He Htg.
  pose proof (rxw_ts frame Hrx) as Hpos. pose proof (rxw_iface frame Hrx) as Hifr.
  unfold addFrame. destruct (MTime.isZero (ts_mono_ frame)) eqn:Ez; [unfold MTime.isZero in Ez; lia|].
  destruct (Z.ltb_spec (ts_mono_ frame) (prev_transfer_ts_ r)); [lia|].
  destruct (Z.ltb_spec (ts_mono_ frame) (this_transfer_ts_ r)); [lia|]. cbn [orb].
  assert (Hclean : forall a1 m1 r1, mgr_frame a m a1 m1 -> pos_ok m1 r1 ->
    r_iface_index_ r1 = iface_index_ frame -> tid_ r1 = transfer_id_ (rx_frame frame) ->
    next_toggle_ r1 = false -> buffer_write_pos_ r1 = 0 ->
    exists a' m' r',
      (let '(ok, r) := validate r1 frame in
       if negb ok then (ResultNotComplete, a1, m1, r)
       else receive sizeof_Block sizeof_Entry key junk a1 m1 r frame) = (ResultSingleFrame, a', m', r') /\
      mgr_frame a m a' m' /\ contents m' key = None /\
      idle r' (TransferID.increment (transfer_id_ (rx_frame frame))) (iface_index_ frame) (ts_mono_ frame)).
  { intros a1 m1 r1 Hf1 Hpk1 Ei Et En Ep. unfold validate, isMidTransfer.
    rewrite Ei, Z.eqb_refl, Hs, He, Htg, Ep. cbn [negb andb Z.ltb Z.compare].
    rewrite En, Et, Z.eqb_refl. cbn [negb eqb].
    pose proof (receive_ok junk a1 m1 r1 frame (mf_inv _ _ _ _ Hf1) Hpk1 Hj Hrx) as Hr.
    unfold receive in *. rewrite Hs, He in *. cbn [andb] in *.
    destruct (BufMgr_remove a1 m1 key) as [a2 m2] eqn:Er. destruct Hr as [Hf2 _].
    pose proof (remove_frame a1 m1 (mf_inv _ _ _ _ Hf1)) as Hrem. rewrite Er in Hrem.
    eexists _, _, _. split; [done|]. split; [by eapply mgr_frame_trans|]. split; [apply Hrem|].
    split; cbn; congruence. }
  assert (Hrestart : exists a' m' r',
    (let '(a1, m1, r1, stop) :=
      let '(a1, m1) := BufMgr_remove a m key in (a1, m1, restart r frame, negb (start_of_transfer_ (rx_frame frame))) in
     if (stop : bool) then (ResultNotComplete, a1, m1, r1)
     else let '(ok, r) := validate r1 frame in
       if negb ok then (ResultNotComplete, a1, m1, r)
       else receive sizeof_Block sizeof_Entry key junk a1 m1 r frame) = (ResultSingleFrame, a', m', r') /\
    mgr_frame a m a' m' /\ contents m' key = None /\
    idle r' (TransferID.increment (transfer_id_ (rx_frame frame))) (iface_index_ frame) (ts_mono_ frame)).
  { pose proof (remove_frame a m Hm) as Hrem. destruct (BufMgr_remove a m key) as [a1 m1].
    destruct Hrem as [Hf1 Hc1]. rewrite Hs. cbn [negb]. apply Hclean; try done.
    - unfold pos_ok. by rewrite Hc1.
    - unfold restart. cbn. change IfaceIndexMask with (Z.ones 2). rewrite Z.land_ones by lia.
      apply Z.mod_small. unfold MaxCanIfaces in Hifr. lia.
    - unfold restart. cbn. by rewrite Hs. }
  destruct Hready as [Hnr|(Ei & Et & En & Ep & Hc)]; [by rewrite Hnr|].
  destruct (need_restart r frame); [done|]. apply Hclean; try done.
Qed.

Lemma reassembly_ok junk a m r f fs :
  BufMgr_inv B a m -> (forall p, length (junk p) = B) -> room a m ->
  Rx_wf f -> start_ready m r f ->
  start_of_transfer_ (rx_frame f) = true -> end_of_transfer_ (rx_frame f) = false ->
  toggle_ (rx_frame f) = false -> CrcNumBytes <= payload_len_ (rx_frame f) ->
  tail_frames (transfer_id_ (rx_frame f)) (iface_index_ f) (ts_mono_ f) true fs ->
  Z.of_nat (length (transfer_payload (f :: fs))) <= max_buf_size_ m ->
  exists a' m' r', addFrames junk a m r (f :: fs) =
      (replicate (length fs) ResultNotComplete ++ [ResultComplete], a', m', r') /\
    mgr_frame a m a' m' /\ contents m' key = Some (transfer_payload (f :: fs)) /\
    this_transfer_crc_ r' = frame_crc (rx_frame f) /\
    idle r' (TransferID.increment (transfer_id_ (rx_frame f))) (iface_index_ f) (ts_mono_ f) /\
    first_frame_ts_ r' = ts_utc_ f.
Proof.
  intros Hm Hj Hroom Hrx Hready Hs He Htg Hlen Htail Hfit.
  assert (Hcat : transfer_payload (f :: fs) = eff_payload (rx_frame f) ++ transfer_payload fs) by done.
  rewrite Hcat, length_app in Hfit. pose proof (rxw_ts f Hrx).
  destruct (addFrame_first junk a m r f) as (a1 & m1 & r1 & E1 & Hf1 & Hmid & Hff); try done; [lia|].
  destruct (addFrames_tail junk fs a1 m1 r1 (transfer_id_ (rx_frame f)) (iface_index_ f) (ts_mono_ f)
    (frame_crc (rx_frame f)) true (eff_payload (rx_frame f)))
    as (a2 & m2 & r2 & E2 & Hf2 & Hc2 & Hcrc & Hid & Hff2); try done; try lia.
  - apply Hf1.
  - by eapply room_frame.
  - rewrite (mf_size _ _ _ _ Hf1). lia.
  - cbn [addFrames]. rewrite E1, E2. exists a2, m2, r2. split_and!; try done.
    + destruct fs as [|f2 fs]; [done|]. simpl. by rewrite Nat.sub_0_r.
    + by eapply mgr_frame_trans.
    + congruence.
Qed.

(** C28: a multi-frame transfer is put together byte for byte: when the frames
    of a transfer arrive in order on one interface within the transfer ID
    timeout, at a receiver that is new, restarts or waits for that transfer ID,
    and the pool has room, then every frame but the last gives
    [ResultNotComplete], the last one [ResultComplete], the buffer holds exactly
    the concatenated payloads without the two CRC bytes, the receiver reports
    the CRC of the first frame, and it is ready for the next transfer ID; the
    buffers of other streams are unchanged. *)
Theorem multi_frame_transfer_reassembled junk a m r f fs :
  Recv_inv a m r -> (forall p, length (junk p) = B) -> room a m ->
  Rx_wf f -> start_ready m r f ->
  start_of_transfer_ (rx_frame f) = true -> end_of_transfer_ (rx_frame f) = false ->
  toggle_ (rx_frame f) = false -> CrcNumBytes <= payload_len_ (rx_frame f) ->
  tail_frames (transfer_id_ (rx_frame f)) (iface_index_ f) (ts_mono_ f) true fs ->
  Z.of_nat (length (transfer_payload (f :: fs))) <= max_buf_size_ m ->
  exists a' m' r', addFrames junk a m r (f :: fs) =
      (replicate (length fs) ResultNotComplete ++ [ResultComplete], a', m', r') /\
    contents m' key = Some (transfer_payload (f :: fs)) /\
    (forall k', k' <> key -> contents m' k' = contents m k') /\
    this_transfer_crc_ r' = frame_crc (rx_frame f) /\
    idle r' (TransferID.increment (transfer_id_ (rx_frame f))) (iface_index_ f) (ts_mono_ f).
Proof.
  intros Hr Hj Hroom Hrx Hready Hs He Htg Hlen Htail Hfit.
  destruct (reassembly_ok junk a m r f fs) as (a' & m' & r' & E & Hf & Hc & Hcrc & Hid & _); try done.
  - apply Hr.
  - exists a', m', r'. split_and!; try done. apply Hf.
Qed.

End capacity.

(** No sequence of frames, however malformed, reordered, duplicated or
    hostile, makes a receiver corrupt memory: after every frame the buffers are
    well formed and at most as long as configured, the write position lies
    inside the buffer, the blocks of other users of the pool and the buffers of
    other streams are as they were, and the transfer ID, interface index and
    error counter are in range. *)
Theorem receiver_is_memory_safe junk a m r fs :
  Recv_inv a m r -> (forall p, length (junk p) = B) -> Forall Rx_wf fs ->
  let '(codes, a', m', r') := addFrames junk a m r fs in
  Recv_inv a' m' r' /\ length codes = length fs /\ foreign a' m' = foreign a m /\
  (forall k', k' <> key -> contents m' k' = contents m k') /\
  (forall c, contents m' key = Some c -> Z.of_nat (length c) <= max_buf_size_ m).
Proof.
  intros Hr Hj Hfs. pose proof (addFrames_inv junk a m r fs Hr Hj Hfs) as H1.
  destruct (addFrames junk a m r fs) as [[[codes a'] m'] r']. destruct H1 as (Hr' & Hf & Hl).
  split_and!; try done; try apply Hf. intros c Hc. rewrite <-(mf_size _ _ _ _ Hf).
  apply (contents_length B a' m' key c); [apply Hf|done].
Qed.

(** A transfer is delivered once: after a transfer was completed, any frame
    that repeats its transfer ID before the transfer ID times out, on the same
    or on a redundant interface, first frame or not, gives [ResultNotComplete]
    and changes neither the buffers nor the receiver, its error counter apart. *)
Theorem repeated_frames_are_ignored junk a m r frame tid iface t0 :
  Rx_wf frame -> TransferID.wf tid -> transfer_id_ (rx_frame frame) = tid ->
  0 <= iface < MaxCanIfaces -> 0 <= t0 ->
  idle r (TransferID.increment tid) iface t0 ->
  t0 <= ts_mono_ frame <= t0 + DefaultTidTimeoutMSec * 1000 ->
  exists e, addFrame sizeof_Block sizeof_Entry key junk a m r frame =
    (ResultNotComplete, a, m, with_errors r e).
Proof.
  clear HB Hkey. intros Hrx Hw Htid Hif Ht0 [It Ii Ig Ip Ith Ipr] Hts. pose proof (rxw_ts frame Hrx) as Hpos.
  unfold addFrame. destruct (MTime.isZero (ts_mono_ frame)) eqn:Ez; [unfold MTime.isZero in Ez; lia|].
  rewrite Ipr, Ith. destruct (Z.ltb_spec (ts_mono_ frame) t0); [lia|]. cbn [orb].
  assert (Hd1 : TransferID.computeForwardDistance tid (TransferID.increment tid) = 1 /\
                TransferID.computeForwardDistance (TransferID.increment tid) tid = 31 /\
                TransferID.increment tid <> tid).
  { rewrite !forward_distance_mod by (done || apply increment_wf). rewrite increment_mod.
    apply tid_wf_iff in Hw. destruct (decide (tid = 31)) as [->|]; [done|].
    rewrite (Z.mod_small (tid + 1)) by lia. replace (tid + 1 - tid) with 1 by lia.
    replace (tid - (tid + 1)) with (-1) by lia. split_and!; [done|done|lia]. }
  destruct Hd1 as (D1 & D2 & D3).
  assert (Hnr : need_restart r frame = false).
  { unfold need_restart, isInitialized. rewrite Ii, It, Htid, D1, D2, negb_involutive.
    rewrite not_timed_out by lia. change (31 <? TransferID.Half) with false.
    change (1 <? 1) with false. rewrite !andb_false_r, !orb_false_r.
    unfold IfaceIndexNotSet. lia. }
  rewrite Hnr. destruct (validate_wrong_tid r frame) as [e ->]; [congruence|]. by exists e.
Qed.

End receiver_ok.

(** ** Witnesses *)

(** A frame of a broadcast transfer from node 42. *)
Definition example_frame (payload : list Z) (start endt toggle : bool) (tid ts iface : Z) : RxFrame :=
  mkRxFrame (mkFrame (payload ++ replicate (7 - length payload) 0) 16 TransferTypeMessageBroadcast 341
    (Z.of_nat (length payload)) 42 0 tid start endt toggle) ts 0 iface.

Lemma example_frame_wf payload start endt toggle tid ts iface :
  bytes payload -> (length payload <= 7)%nat -> TransferID.wf tid -> 0 < ts < 2 ^ 63 ->
  0 <= iface < MaxCanIfaces -> Rx_wf (example_frame payload start endt toggle tid ts iface).
Proof.
  intros Hb Hl Ht Hts Hi. split; cbn [rx_frame ts_mono_ iface_index_ example_frame payload_len_]; try done.
  - split; cbn [payload_ transfer_priority_ data_type_id_ payload_len_ src_node_id_ dst_node_id_ transfer_id_];
      try done; try (unfold in_width; lia).
    + rewrite length_app, length_replicate. unfold PayloadCapacity. lia.
    + apply Forall_app. split; [done|]. apply Forall_replicate. done.
  - unfold PayloadCapacity. lia.
Qed.

Lemma receiver_is_memory_safe_witness :
  let key := Key_make 42 TransferTypeMessageBroadcast in
  let fs := [example_frame [1; 2; 3] false true true 9 10 0; example_frame [1] true false false 4 9 1] in
  let '(codes, a', m', r') := addFrames 64 64 key (fun _ => replicate 56 0)
    (PoolAllocator_init 4096 6400 64) (mkBufMgr [] 300) TransferReceiver_init fs in
  length codes = length fs.
Proof.
  intros key fs.
  pose proof (receiver_is_memory_safe (A := PoolAllocator) 64 64 56 ltac:(lia) key eq_refl
    (fun _ => replicate 56 0) (PoolAllocator_init 4096 6400 64) (mkBufMgr [] 300)
    TransferReceiver_init fs) as H.
  destruct (addFrames _ _ _ _ _ _ _ _) as [[[codes a'] m'] r']. apply H.
  - apply Recv_inv_init; [|done]. apply BufMgr_inv_empty; [|lia].
    exact (proj1 (PoolAllocator_init_ok 4096 6400 64 eq_refl eq_refl ltac:(vm_compute; split; done))).
  - done.
  - constructor; [|constructor; [|constructor]]; apply example_frame_wf;
      try (unfold MaxCanIfaces; lia); try (rewrite tid_wf_iff; lia); try (cbn; lia);
      repeat constructor; done.
Defined.

Lemma multi_frame_transfer_reassembled_witness :
  let key := Key_make 42 TransferTypeMessageBroadcast in
  let f := example_frame [0x34; 0x12; 1; 2; 3; 4; 5] true false false 7 1000 0 in
  let fs := [example_frame [6; 7] false true true 7 2000 0] in
  exists a' m' r', addFrames 64 64 key (fun _ => replicate 56 0)
      (PoolAllocator_init 4096 6400 64) (mkBufMgr [] 300) TransferReceiver_init (f :: fs) =
      ([ResultNotComplete; ResultComplete], a', m', r') /\
    contents m' key = Some [1; 2; 3; 4; 5; 6; 7] /\ this_transfer_crc_ r' = 0x1234.
Proof.
  intros key f fs.
  destruct (PoolAllocator_init_ok 4096 6400 64 eq_refl eq_refl ltac:(vm_compute; split; done))
    as (Hpi & Hlive & _).
  destruct (@multi_frame_transfer_reassembled PoolAllocator Pool_ops (Pool_laws_at 4096 6400 64)
    64 64 56 ltac:(lia) key eq_refl 64 100 (Pool_capacity_at 4096 6400 64) ltac:(lia) ltac:(lia)
    (fun _ => replicate 56 0) (PoolAllocator_init 4096 6400 64) (mkBufMgr [] 300) TransferReceiver_init f fs)
    as (a' & m' & r' & E & Hc & _ & Hcrc & _).
  - apply Recv_inv_init; [|done]. apply BufMgr_inv_empty; [|lia]. exact (conj Hpi (conj eq_refl (conj eq_refl eq_refl))).
  - done.
  - unfold room, others. change (held (mkBufMgr [] 300) key) with (@nil Z).
    change (live (PoolAllocator_init 4096 6400 64)) with (Pool_live (PoolAllocator_init 4096 6400 64)).
    rewrite Hlive. vm_compute. discriminate.
  - apply example_frame_wf; try (unfold MaxCanIfaces; lia); try (rewrite tid_wf_iff; lia); try (cbn; lia).
    repeat constructor; done.
  - split_and!; cbn; try lia.
  - reflexivity.
  - reflexivity.
  - reflexivity.
  - cbn. unfold CrcNumBytes. lia.
  - cbn [tail_frames fs]. split_and!; try reflexivity; try (cbn; unfold DefaultTidTimeoutMSec; lia).
    + apply example_frame_wf; try (unfold MaxCanIfaces; lia); try (rewrite tid_wf_iff; lia); try (cbn; lia).
      repeat constructor; done.
    + by left.
  - vm_compute. discriminate.
  - exists a', m', r'. split; [exact E|]. split; [exact Hc|]. rewrite Hcrc. reflexivity.
Defined.

Lemma repeated_frames_are_ignored_witness :
  let key := Key_make 42 TransferTypeMessageBroadcast in
  let r := mkReceiver 1000 1000 0 1000 0 0 8 false 0 0 in
  let f := example_frame [0x34; 0x12; 1; 2; 3; 4; 5] true false false 7 1500 1 in
  exists e, addFrame 64 64 key (fun _ => replicate 56 0) (PoolAllocator_init 4096 6400 64)
    (mkBufMgr [] 300) r f =
    (ResultNotComplete, PoolAllocator_init 4096 6400 64, mkBufMgr [] 300, with_errors r e).
Proof.
  intros key r f.
  apply (repeated_frames_are_ignored (A := PoolAllocator) 64 64 key (fun _ => replicate 56 0)
    (PoolAllocator_init 4096 6400 64) (mkBufMgr [] 300) r f 7 0 1000).
  - apply example_frame_wf; try (unfold MaxCanIfaces; lia); try (rewrite tid_wf_iff; lia); try (cbn; lia).
    repeat constructor; done.
  - rewrite tid_wf_iff. lia.
  - reflexivity.
  - unfold MaxCanIfaces. lia.
  - lia.
  - split; reflexivity.
  - cbn. unfold DefaultTidTimeoutMSec. lia.
Defined.
