(* ===== verification/TransferListener.v ===== *)
(** * TransferListener: from frames to transfers

    Models [libuavcan/include/uavcan/transport/transfer_listener.hpp],
    [src/transport/uc_transfer_listener.cpp] and [perf_counter.hpp]. A listener
    keeps one receiver per source node and transfer type in a pool map, checks
    the CRC of multi-frame transfers and hands transfers to the virtual
    [handleIncomingTransfer]; here the transfers handed over are returned as a
    list, each with what its [read] method can see at that moment. The perf
    counter, a reference in the source, is passed along. *)

From stdpp Require Import gmap.
From S2P Require Import Prelude MonoTime Crc Transfer CanFrame Frame LinkedList PoolAllocator TransferBuffer.
From S2P Require Import PoolMap TransferReceiver.
Local Open Scope Z_scope.

(** ** Perf counter *)

Record TransferPerfCounter := mkPerf {
  transfers_tx_ : Z;
  transfers_rx_ : Z;
  errors_ : Z
}.

Definition addTxTransfer (p : TransferPerfCounter) : TransferPerfCounter :=
  mkPerf (u64 (transfers_tx_ p + 1)) (transfers_rx_ p) (errors_ p).
Definition addRxTransfer (p : TransferPerfCounter) : TransferPerfCounter :=
  mkPerf (transfers_tx_ p) (u64 (transfers_rx_ p + 1)) (errors_ p).
Definition addErrors (p : TransferPerfCounter) (errors : Z) : TransferPerfCounter :=
  mkPerf (transfers_tx_ p) (transfers_rx_ p) (u64 (errors_ p + errors)).
Definition addError (p : TransferPerfCounter) : TransferPerfCounter := addErrors p 1.

(** ** Incoming transfers *)

(** The common part, [IncomingTransfer]. *)
Record TransferHeader := mkHeader {
  it_ts_mono_ : Z;
  it_ts_utc_ : Z;
  it_transfer_priority_ : Z;
  it_transfer_type_ : TransferType;
  it_transfer_id_ : Z;
  it_src_node_id_ : Z;
  it_iface_index_ : Z
}.

Inductive IncomingTransfer :=
  | SingleFrameIncomingTransfer (h : TransferHeader) (payload : list Z) (payload_len : Z)
  | MultiFrameIncomingTransfer (h : TransferHeader) (buf : TransferBufferManagerEntry).

(** The constructor of [SingleFrameIncomingTransfer]. *)
Definition SingleFrame_make (frm : RxFrame) : IncomingTransfer :=
  let f := rx_frame frm in
  SingleFrameIncomingTransfer
    (mkHeader (ts_mono_ frm) (ts_utc_ frm) (transfer_priority_ f) (transfer_type_ f) (transfer_id_ f)
       (src_node_id_ f) (iface_index_ frm))
    (payload_ f) (u8 (payload_len_ f)).

(** The constructor of [MultiFrameIncomingTransfer]; [buf] is what the accessor
    finds when [read] is called during the callback. *)
Definition MultiFrame_make (ts_mono ts_utc : Z) (last_frame : RxFrame) (buf : TransferBufferManagerEntry)
    : IncomingTransfer :=
  let f := rx_frame last_frame in
  MultiFrameIncomingTransfer
    (mkHeader ts_mono ts_utc (transfer_priority_ f) (transfer_type_ f) (transfer_id_ f)
       (src_node_id_ f) (iface_index_ last_frame)) buf.

Definition it_header (t : IncomingTransfer) : TransferHeader :=
  match t with SingleFrameIncomingTransfer h _ _ => h | MultiFrameIncomingTransfer h _ => h end.

(** [int read(unsigned offset, uint8_t* data, unsigned len) const]. *)
Definition IncomingTransfer_read (t : IncomingTransfer) (data_null : bool) (offset len : Z) : Z * list Z :=
  match t with
  | SingleFrameIncomingTransfer _ payload payload_len =>
    if data_null then (- ErrInvalidParam, [])
    else if payload_len <=? offset then (0, [])
    else
      let len := clamp_len offset len payload_len in
      (len, take (Z.to_nat len) (drop (Z.to_nat offset) payload))
  | MultiFrameIncomingTransfer _ buf => Entry_read buf data_null offset len
  end.

(** [bool SingleFrameIncomingTransfer::isAnonymousTransfer() const]; false for
    multi-frame transfers. *)
Definition isAnonymousTransfer (t : IncomingTransfer) : bool :=
  match t with
  | SingleFrameIncomingTransfer h _ _ =>
    bool_decide (it_transfer_type_ h = TransferTypeMessageBroadcast) && NodeID.isBroadcast (it_src_node_id_ h)
  | MultiFrameIncomingTransfer _ _ => false
  end.

(** ** Listener *)

(** The fields of [DataTypeDescriptor] the transport uses. *)
Record DataTypeDescriptor := mkDescriptor {
  dt_kind : DataTypeKind;
  dt_id : Z;
  dt_signature : Z
}.

Record TransferListener := mkListener {
  data_type_ : DataTypeDescriptor;
  bufmgr_ : TransferBufferManager;
  receivers_ : @Map TransferBufferManagerKey TransferReceiver;
  crc_base_ : Z;
  allow_anonymous_transfers_ : bool
}.

(** [TransferListener::TransferListener]. *)
Definition TransferListener_init (dt : DataTypeDescriptor) (max_buffer_size : Z) : TransferListener :=
  mkListener dt (mkBufMgr [] max_buffer_size) [] (toTransferCRC (dt_signature dt)) false.

Definition allowAnonymousTransfers (l : TransferListener) : TransferListener :=
  mkListener (data_type_ l) (bufmgr_ l) (receivers_ l) (crc_base_ l) true.

(** The loop of [checkPayloadCrc]: 16 bytes at a time; [None] is a read
    failure. *)
Fixpoint crc_loop (fuel : nat) (e : TransferBufferManagerEntry) (crc offset : Z) : option Z :=
  match fuel with
  | O => None
  | S fuel =>
    let '(res, buf) := Entry_read e false offset 16 in
    if res <? 0 then None
    else if res =? 0 then Some crc
    else crc_loop fuel e (add_bytes crc (take (Z.to_nat res) buf)) (u32 (offset + res))
  end.

(** [bool TransferListener::checkPayloadCrc(const uint16_t, const ITransferBuffer&) const];
    every round but the last advances. *)
Definition checkPayloadCrc (crc_base compare_with : Z) (e : TransferBufferManagerEntry) : bool :=
  match crc_loop (S (Z.to_nat (max_write_pos_ e))) e crc_base 0 with
  | None => false
  | Some crc => crc =? compare_with
  end.

Section listener.
Context {A : Type} `{IPoolAllocator A} (sizeof_Block sizeof_Entry sizeof_KVGroup : Z) (NumKV : nat).

(** [TimedOutReceiverPredicate::operator()]: removes the buffer of a receiver
    that timed out. *)
Definition TimedOutReceiverPredicate (ts : Z) (st : A * TransferBufferManager)
    (key : TransferBufferManagerKey) (value : TransferReceiver) : bool * (A * TransferBufferManager) :=
  if isTimedOut value ts then (true, BufMgr_remove st.1 st.2 key) else (false, st).

(** [void TransferListener::cleanup(MonotonicTime ts)]. *)
Definition Listener_cleanup (a : A) (l : TransferListener) (ts : Z) : A * TransferListener :=
  let '((a, bufmgr), receivers) :=
    removeAllWhere Key_default TransferReceiver_init fst (fun a st => (a, st.2))
      (TimedOutReceiverPredicate ts) (a, bufmgr_ l) (receivers_ l) in
  (a, mkListener (data_type_ l) bufmgr receivers (crc_base_ l) (allow_anonymous_transfers_ l)).

(** [void TransferListener::handleReception(TransferReceiver&, const RxFrame&, TransferBufferAccessor&)]. *)
Definition handleReception (junk : Z -> list Z) (a : A) (bufmgr : TransferBufferManager) (crc_base : Z)
    (perf : TransferPerfCounter) (receiver : TransferReceiver) (frame : RxFrame)
    (key : TransferBufferManagerKey)
    : list IncomingTransfer * A * TransferBufferManager * TransferPerfCounter * TransferReceiver :=
  let '(code, a, bufmgr, receiver) := addFrame sizeof_Block sizeof_Entry key junk a bufmgr receiver frame in
  match code with
  | ResultNotComplete =>
    let '(errors, receiver) := yieldErrorCount receiver in
    ([], a, bufmgr, addErrors perf errors, receiver)
  | ResultSingleFrame => ([SingleFrame_make frame], a, bufmgr, addRxTransfer perf, receiver)
  | ResultComplete =>
    let perf := addRxTransfer perf in
    match (if Key_isEmpty key then None else findFirst (buffers_ bufmgr) key) with
    | None => ([], a, bufmgr, perf, receiver)
    | Some (_, tbb) =>
      if negb (checkPayloadCrc crc_base (this_transfer_crc_ receiver) tbb) then ([], a, bufmgr, perf, receiver)
      else
        let it := MultiFrame_make (prev_transfer_ts_ receiver) (first_frame_ts_ receiver) frame tbb in
        let '(a, bufmgr) := BufMgr_remove a bufmgr key in
        ([it], a, bufmgr, perf, receiver)
    end
  end.

(** [void TransferListener::handleAnonymousTransferReception(const RxFrame& frame)]. *)
Definition handleAnonymousTransferReception (l : TransferListener) (perf : TransferPerfCounter) (frame : RxFrame)
    : list IncomingTransfer * TransferPerfCounter :=
  if allow_anonymous_transfers_ l then ([SingleFrame_make frame], addRxTransfer perf) else ([], perf).

(** [void TransferListener::handleFrame(const RxFrame& frame)]. *)
Definition Listener_handleFrame (junk : Z -> list Z) (a : A) (l : TransferListener)
    (perf : TransferPerfCounter) (frame : RxFrame)
    : list IncomingTransfer * A * TransferListener * TransferPerfCounter :=
  let f := rx_frame frame in
  if NodeID.isUnicast (src_node_id_ f) then
    let key := Key_make (src_node_id_ f) (transfer_type_ f) in
    let '(recv, a, receivers) :=
      match Map_access (receivers_ l) key with
      | Some p => (Some p, a, receivers_ l)
      | None =>
        if negb (start_of_transfer_ f) then (None, a, receivers_ l)
        else Map_insert Key_default TransferReceiver_init NumKV sizeof_KVGroup a (receivers_ l) key
               TransferReceiver_init
      end in
    match recv with
    | None =>
      ([], a, mkListener (data_type_ l) (bufmgr_ l) receivers (crc_base_ l) (allow_anonymous_transfers_ l), perf)
    | Some p =>
      match get_slot receivers p with
      | None => ([], a, l, perf)
      | Some (_, r) =>
        let '(out, a, bufmgr, perf, r) :=
          handleReception junk a (bufmgr_ l) (crc_base_ l) perf r frame key in
        (out, a, mkListener (data_type_ l) bufmgr (set_slot receivers p (key, r)) (crc_base_ l)
                   (allow_anonymous_transfers_ l), perf)
      end
    end
  else if NodeID.isBroadcast (src_node_id_ f) && start_of_transfer_ f && end_of_transfer_ f &&
          NodeID.isBroadcast (dst_node_id_ f) then
    let '(out, perf) := handleAnonymousTransferReception l perf frame in (out, a, l, perf)
  else ([], a, l, perf).

(** [TransferListenerWithFilter::handleFrame]; [filter] is the installed
    acceptance filter, [None] when none is installed. *)
Definition ListenerWithFilter_handleFrame (filter : option (RxFrame -> bool)) (junk : Z -> list Z) (a : A)
    (l : TransferListener) (perf : TransferPerfCounter) (frame : RxFrame)
    : list IncomingTransfer * A * TransferListener * TransferPerfCounter :=
  match filter with
  | Some shouldAcceptFrame =>
    if shouldAcceptFrame frame then Listener_handleFrame junk a l perf frame else ([], a, l, perf)
  | None => ([], a, l, perf)
  end.

(** [TransferListener::~TransferListener()], and the destructors of its
    members after it. *)
Definition Listener_destroy (a : A) (l : TransferListener) : A :=
  let '(a, receivers) := Map_clear Key_default TransferReceiver_init a (receivers_ l) in
  let '(a, _) := Map_clear Key_default TransferReceiver_init a receivers in
  BufMgr_destroy a (bufmgr_ l).

End listener.

(** ** Lemmas: the CRC check *)

Section crc.
Context (B : nat) (HB : 8 < Z.of_nat B <= 255).

Lemma crc_loop_ok fuel e crc offset :
  Entry_wf B e -> 0 <= offset <= max_write_pos_ e -> max_write_pos_ e - offset < Z.of_nat fuel ->
  crc_loop fuel e crc offset = Some (add_bytes crc (drop (Z.to_nat offset) (Entry_content e))).
Proof.
  intros We. revert crc offset. induction fuel as [|fuel IH]; intros crc offset Ho Hf; [lia|].
  cbn [crc_loop]. pose proof (length_Entry_content B e We) as Hlen.
  pose proof (ewf_pos B e We) as Hp. pose proof (ewf_size B e We) as Hs.
  rewrite (Entry_read_ok B HB) by (done || lia).
  set (n := Z.max 0 (Z.min 16 (max_write_pos_ e - offset))).
  destruct (Z.ltb_spec n 0); [lia|]. destruct (Z.eqb_spec n 0) as [E|E].
  - rewrite drop_ge by lia. done.
  - unfold buf_read. rewrite u32_small by lia. rewrite IH by lia. f_equal.
    rewrite take_take, Nat.min_id, <-add_bytes_app. f_equal.
    replace (Z.to_nat (offset + n)) with (Z.to_nat offset + Z.to_nat n)%nat by lia.
    rewrite <-drop_drop. by rewrite take_drop.
Qed.

(** The check accepts exactly the buffers whose bytes have the CRC. *)
Lemma checkPayloadCrc_ok crc_base crc e :
  Entry_wf B e -> checkPayloadCrc crc_base crc e = (add_bytes crc_base (Entry_content e) =? crc).
Proof.
  intros We. unfold checkPayloadCrc. pose proof (ewf_pos B e We).
  rewrite crc_loop_ok by (done || lia). by rewrite drop_0.
Qed.

End crc.

Lemma NoDup_fmap_fst {X Y} (l : list (X * Y)) k a b :
  NoDup l.*1 -> (k, a) ∈ l -> (k, b) ∈ l -> a = b.
Proof.
  induction l as [|[k' c] l IH]; intros Hd Ha Hb; [by apply elem_of_nil in Ha|].
  rewrite fmap_cons in Hd. apply NoDup_cons in Hd as [Hn Hd]. cbn [fst] in Hn.
  apply elem_of_cons in Ha as [Ha|Ha], Hb as [Hb|Hb]; try congruence; auto.
  - injection Ha as -> ->. exfalso. apply Hn. by apply (list_elem_of_fmap_2 fst) in Hb.
  - injection Hb as -> ->. exfalso. apply Hn. by apply (list_elem_of_fmap_2 fst) in Ha.
Qed.

(** ** The listener's invariant *)

Section listener_ok.
Context {A : Type} `{PoolLaws A} (sizeof_Block sizeof_Entry sizeof_KVGroup : Z) (NumKV : nat).
Context (B : nat) (HB : 8 < Z.of_nat B <= 255) (HNum : (0 < NumKV)%nat).

Abbreviation recv_entries m := (entries (Value := TransferReceiver) Key_default m).

Record Listener_inv (a : A) (l : TransferListener) : Prop := {
  li_mgr : BufMgr_inv B a (bufmgr_ l);
  li_map : Map_inv Key_default NumKV a (receivers_ l);
  li_disj : forall p, p ∈ map_owned (receivers_ l) -> p ∉ owned (bufmgr_ l);
  li_recv : forall k r, (k, r) ∈ recv_entries (receivers_ l) ->
    Key_isEmpty k = false /\ Recv_inv B k a (bufmgr_ l) r;
  li_buf : forall k c, contents (bufmgr_ l) k = Some c -> k ∈ (recv_entries (receivers_ l)).*1
}.

(** The live blocks that are not the listener's. *)
Definition listener_foreign (a : A) (l : TransferListener) : gset Z :=
  live a ∖ list_to_set (map_owned (receivers_ l) ++ owned (bufmgr_ l)).

Lemma listener_foreign_alt a l :
  listener_foreign a l = foreign a (bufmgr_ l) ∖ list_to_set (map_owned (receivers_ l)) /\
  listener_foreign a l = map_foreign a (receivers_ l) ∖ list_to_set (owned (bufmgr_ l)).
Proof.
  unfold listener_foreign, foreign, map_foreign. split; apply set_eq; intros x;
    rewrite !elem_of_difference, !elem_of_list_to_set, elem_of_app; tauto.
Qed.

Lemma elem_of_map_foreign (a : A) (m : @Map TransferBufferManagerKey TransferReceiver) p :
  p ∈ map_foreign a m <-> p ∈ live a /\ (p ∉ map_owned m).
Proof. unfold map_foreign. by rewrite elem_of_difference, elem_of_list_to_set. Qed.

Lemma elem_of_foreign (a : A) m p : p ∈ foreign a m <-> p ∈ live a /\ (p ∉ owned m).
Proof. unfold foreign. by rewrite elem_of_difference, elem_of_list_to_set. Qed.

Lemma Recv_inv_pool k a a' m r : Recv_inv B k a m r -> BufMgr_inv B a' m -> Recv_inv B k a' m r.
Proof. intros [] Hm. by split. Qed.

Lemma Recv_inv_frame k k' a m a' m' r :
  k <> k' -> Recv_inv B k a m r -> mgr_frame B k' a m a' m' -> Recv_inv B k a' m' r.
Proof.
  intros Hk [Hm Hp Ht Hi He Hts Hpt] Hf. split; try done; [apply Hf|].
  unfold pos_ok in *. by rewrite (mf_contents _ _ _ _ _ _ Hf) by done.
Qed.

Lemma BufMgr_inv_pool a a' m :
  BufMgr_inv B a m -> pool_inv a' -> (forall p, p ∈ owned m -> p ∈ live a') -> BufMgr_inv B a' m.
Proof. intros [Ha Hn Hl Hk Hw Hs] Ha' Hl'. by split. Qed.

Lemma receive_complete_pos key junk (a : A) m r frame a' m' r' :
  receive sizeof_Block sizeof_Entry key junk a m r frame = (ResultComplete, a', m', r') ->
  buffer_write_pos_ r' = 0.
Proof.
  unfold receive. destruct (_ && _); [by destruct (BufMgr_remove a m key)|].
  destruct (match BufMgr_access m key with Some buf => (Some buf, a, m) | None => _ end) as [[[buf|] a1] m1];
    [|done].
  destruct (writePayload _ _ _ _ _ _ _) as [[[ok a2] m2] r2].
  destruct ok; cbn [negb]; [|by destruct (BufMgr_remove a2 m2 key)].
  destruct (end_of_transfer_ (rx_frame frame)); [|done]. by intros [= _ _ <-].
Qed.

Lemma addFrame_complete_pos key junk (a : A) m r frame a' m' r' :
  addFrame sizeof_Block sizeof_Entry key junk a m r frame = (ResultComplete, a', m', r') ->
  buffer_write_pos_ r' = 0.
Proof.
  unfold addFrame. destruct (_ || _ || _); [done|].
  destruct (if need_restart r frame then _ else _) as [[[a1 m1] r1] stop].
  destruct stop; [done|]. destruct (validate r1 frame) as [ok r2].
  destruct ok; cbn [negb]; [apply receive_complete_pos|done].
Qed.

Lemma handleReception_ok junk (a : A) m crc_base perf r frame key :
  Key_isEmpty key = false -> Recv_inv B key a m r -> (forall p, length (junk p) = B) -> Rx_wf frame ->
  let '(out, a', m', perf', r') :=
    handleReception sizeof_Block sizeof_Entry junk a m crc_base perf r frame key in
  Recv_inv B key a' m' r' /\ mgr_frame B key a m a' m'.
Proof.
  intros Hk Hr Hj Hrx. unfold handleReception.
  pose proof (addFrame_inv sizeof_Block sizeof_Entry B HB key Hk junk a m r frame Hr Hj Hrx) as Hadd.
  destruct (addFrame _ _ _ _ _ _ _ _) as [[[code a1] m1] r1] eqn:Ea. destruct Hadd as [Hr1 Hf1].
  destruct code.
  - cbn [yieldErrorCount]. split; [|done]. destruct Hr1. split; try done.
  - rewrite Hk. destruct (findFirst (buffers_ m1) key) as [[p tbb]|]; [|done].
    destruct (negb _); [done|].
    pose proof (remove_frame B HB key a1 m1 (ri_mgr _ _ _ _ _ Hr1)) as Hrem.
    destruct (BufMgr_remove a1 m1 key) as [a2 m2]. destruct Hrem as [Hf2 Hc2].
    split; [|by eapply mgr_frame_trans]. apply addFrame_complete_pos in Ea.
    destruct Hr1 as [? ? ? ? ? ? ?]. split; try done; [apply Hf2|]. unfold pos_ok. by rewrite Hc2.
  - done.
Qed.

(** The receiver [handleFrame] works with: the stored one, or a new one. *)
Definition obtain_receiver (a : A) (l : TransferListener) (key : TransferBufferManagerKey) (start : bool)
    : option SlotPtr * A * @Map TransferBufferManagerKey TransferReceiver :=
  match Map_access (receivers_ l) key with
  | Some p => (Some p, a, receivers_ l)
  | None =>
    if negb start then (None, a, receivers_ l)
    else Map_insert Key_default TransferReceiver_init NumKV sizeof_KVGroup a (receivers_ l) key
           TransferReceiver_init
  end.

Definition with_map (l : TransferListener) (m : @Map TransferBufferManagerKey TransferReceiver) :=
  mkListener (data_type_ l) (bufmgr_ l) m (crc_base_ l) (allow_anonymous_transfers_ l).

Lemma obtain_receiver_ok a l key start :
  Listener_inv a l -> Key_isEmpty key = false -> key <> Key_default ->
  let '(recv, a', m') := obtain_receiver a l key start in
  Listener_inv a' (with_map l m') /\ listener_foreign a' (with_map l m') = listener_foreign a l /\
  match recv with
  | Some s => exists r, get_slot m' s = Some (key, r) /\ Map_access m' key = Some s /\
      (key, r) ∈ recv_entries m' /\
      (r = TransferReceiver_init /\ contents (bufmgr_ l) key = None \/ (key, r) ∈ recv_entries (receivers_ l))
  | None => start = false \/
      exists a0, pool_inv a0 /\ allocate a0 sizeof_KVGroup = (None, a') /\ live a0 = live a'
  end.
Proof.
  intros Hl Hk Hkd. destruct Hl as [Hmg Hmap Hdis Hrecv Hbuf]. unfold obtain_receiver.
  pose proof (Map_access_ok Key_default NumKV a (receivers_ l) key Hmap Hkd) as Hacc.
  destruct (Map_access (receivers_ l) key) as [s|] eqn:Ea.
  - destruct Hacc as (r & Hg & Hin). destruct l. split; [done|]. split; [done|].
    exists r. split_and!; try done. by right.
  - destruct start; cbn [negb]; [|destruct l; split_and!; try done; by left].
    pose proof (Map_insert_ok Key_default TransferReceiver_init NumKV sizeof_KVGroup HNum a (receivers_ l)
      key TransferReceiver_init Hmap Hkd) as Hins.
    destruct (Map_insert _ _ _ _ _ _ _ _) as [[recv a'] m'].
    destruct Hins as (Hmap' & Hfo & Hres). rewrite without_notin in Hres by done.
    assert (Hkeep : forall p, p ∈ owned (bufmgr_ l) -> p ∈ map_foreign a' m').
    { intros p Hp. rewrite Hfo, elem_of_map_foreign. split; [by apply (bm_live B a _ Hmg)|].
      intros Hp'. by apply (Hdis p). }
    assert (Hpool : BufMgr_inv B a' (bufmgr_ l)).
    { apply (BufMgr_inv_pool a); [done|apply Hmap'|]. intros p Hp.
      apply Hkeep, elem_of_map_foreign in Hp. tauto. }
    assert (Hdis' : forall p, p ∈ map_owned m' -> p ∉ owned (bufmgr_ l)).
    { intros p Hp Hpo. apply Hkeep, elem_of_map_foreign in Hpo. tauto. }
    assert (Hnone : contents (bufmgr_ l) key = None).
    { destruct (contents (bufmgr_ l) key) eqn:E; [|done]. exfalso. apply Hacc. by eapply Hbuf. }
    assert (Hfor : listener_foreign a' (with_map l m') = listener_foreign a l).
    { rewrite !(proj2 (listener_foreign_alt _ _)). cbn [receivers_ bufmgr_ with_map]. by rewrite Hfo. }
    destruct recv as [s|].
    + destruct Hres as (Hen & Hg & Hfk). split_and!; [|done|].
      * split; cbn [receivers_ bufmgr_ with_map]; try done.
        -- intros k r. rewrite Hen. intros [Heq|Hin]%elem_of_cons.
           ++ injection Heq as -> ->. split; [done|]. by apply Recv_inv_init.
           ++ destruct (Hrecv k r Hin) as [? Hr]. split; [done|]. by eapply Recv_inv_pool.
        -- intros k c Hc. rewrite Hen, fmap_cons. right. by eapply Hbuf.
      * exists TransferReceiver_init. split_and!; try done; [|by left]. rewrite Hen. by left.
    + destruct Hres as (Hen & Href). split_and!; [|done|by right].
      split; cbn [receivers_ bufmgr_ with_map]; try done.
      * intros k r. rewrite Hen. intros Hin. destruct (Hrecv k r Hin) as [? Hr].
        split; [done|]. by eapply Recv_inv_pool.
      * intros k c Hc. rewrite Hen. by eapply Hbuf.
Qed.

Lemma unicast_key nid tt :
  NodeID.isUnicast nid = true ->
  Key_isEmpty (Key_make nid tt) = false /\ Key_make nid tt <> Key_default.
Proof.
  intros Hu. pose proof (unicast_valid nid Hu) as Hv. unfold Key_isEmpty, Key_make, Key_default. cbn.
  rewrite Hv. split; [done|]. intros [= -> _]. done.
Qed.

(** Handling a frame of the stream of [key] with receiver [r] at slot [s]. *)
Lemma reception_step junk a l key s r perf frame :
  Listener_inv a l -> Key_isEmpty key = false -> key <> Key_default ->
  (forall p, length (junk p) = B) -> Rx_wf frame ->
  Map_access (receivers_ l) key = Some s -> get_slot (receivers_ l) s = Some (key, r) ->
  (key, r) ∈ recv_entries (receivers_ l) ->
  let '(out, a', m', perf', r') :=
    handleReception sizeof_Block sizeof_Entry junk a (bufmgr_ l) (crc_base_ l) perf r frame key in
  let l' := mkListener (data_type_ l) m' (set_slot (receivers_ l) s (key, r')) (crc_base_ l)
              (allow_anonymous_transfers_ l) in
  Listener_inv a' l' /\ listener_foreign a' l' = listener_foreign a l /\
  Map_access (receivers_ l') key = Some s /\ get_slot (receivers_ l') s = Some (key, r').
Proof.
  intros [Hmg Hmap Hdis Hrecv Hbuf] Hk Hkd Hj Hrx Hacc Hget Hin.
  destruct (Hrecv key r Hin) as [_ Hr].
  pose proof (handleReception_ok junk a (bufmgr_ l) (crc_base_ l) perf r frame key Hk Hr Hj Hrx) as Hh.
  destruct (handleReception _ _ _ _ _ _ _ _ _ _) as [[[[out a'] m'] perf'] r']. destruct Hh as [Hr' Hf].
  assert (Hmap' : Map_inv Key_default NumKV a' (receivers_ l)).
  { destruct Hmap as [Hp Hlv Hw]. split; [apply Hf|  |done]. intros p Hp'.
    assert (Hx : p ∈ foreign a' m') by (rewrite (mf_foreign _ _ _ _ _ _ Hf), elem_of_foreign; auto).
    apply elem_of_foreign in Hx. tauto. }
  destruct (Map_update_ok Key_default NumKV HNum a' (receivers_ l) key s r r' Hmap' Hkd Hacc Hget)
    as (Hmap'' & Hown & Hget' & L & R & E1 & E2).
  assert (Hkeys : forall k, k ∈ (recv_entries (set_slot (receivers_ l) s (key, r'))).*1 <->
    k ∈ (recv_entries (receivers_ l)).*1).
  { intros k. rewrite E1, E2, !fmap_app, !fmap_cons. done. }
  assert (Hnd : NoDup (recv_entries (receivers_ l)).*1) by apply Hmap.
  cbv zeta. split_and!.
  - split; cbn [bufmgr_ receivers_].
    + apply Hf.
    + done.
    + intros p. rewrite Hown. intros Hp Hp'.
      assert (Hx : p ∈ foreign a' m') by (rewrite (mf_foreign _ _ _ _ _ _ Hf), elem_of_foreign;
        split; [by apply Hmap|auto]).
      apply elem_of_foreign in Hx. tauto.
    + intros k rk. rewrite E2, elem_of_app, elem_of_cons. intros Hx.
      assert (Hx' : (k, rk) = (key, r') \/ ((k, rk) ∈ L \/ (k, rk) ∈ R)) by tauto.
      destruct Hx' as [[= -> ->]|Hx']; [done|].
      assert (Hkin : (k, rk) ∈ recv_entries (receivers_ l)).
      { rewrite E1, elem_of_app, elem_of_cons. tauto. }
      destruct (Hrecv k rk Hkin) as [? Hrk]. split; [done|].
      assert (Hne : k <> key).
      { intros ->. rewrite E1, fmap_app, fmap_cons in Hnd. cbn [fst] in Hnd.
        apply NoDup_app in Hnd as (_ & D & N). apply NoDup_cons in N as [N _].
        destruct Hx' as [Hx'|Hx'].
        - apply (D key); [by apply (list_elem_of_fmap_2 fst) in Hx'|]. by left.
        - apply N. by apply (list_elem_of_fmap_2 fst) in Hx'. }
      by eapply Recv_inv_frame.
    + intros k c Hc. apply Hkeys. destruct (decide (k = key)) as [->|Hne].
      * by apply (list_elem_of_fmap_2 fst) in Hin.
      * rewrite (mf_contents _ _ _ _ _ _ Hf) in Hc by done. by eapply Hbuf.
  - rewrite !(proj1 (listener_foreign_alt _ _)). cbn [bufmgr_ receivers_].
    by rewrite (mf_foreign _ _ _ _ _ _ Hf), Hown.
  - cbn [receivers_]. unfold Map_access in *.
    eapply (findKey_update (receivers_ l)); try done; apply Hmap.
  - done.
Qed.

Lemma Listener_handleFrame_ok junk a l perf frame :
  Listener_inv a l -> (forall p, length (junk p) = B) -> Rx_wf frame ->
  let '(out, a', l', perf') :=
    Listener_handleFrame sizeof_Block sizeof_Entry sizeof_KVGroup NumKV junk a l perf frame in
  Listener_inv a' l' /\ listener_foreign a' l' = listener_foreign a l.
Proof.
  intros Hl Hj Hrx. unfold Listener_handleFrame. set (f := rx_frame frame).
  destruct (NodeID.isUnicast (src_node_id_ f)) eqn:Hu.
  - set (key := Key_make (src_node_id_ f) (transfer_type_ f)).
    destruct (unicast_key (src_node_id_ f) (transfer_type_ f) Hu) as [Hk Hkd]. fold key in Hk, Hkd.
    fold (obtain_receiver a l key (start_of_transfer_ f)).
    pose proof (obtain_receiver_ok a l key (start_of_transfer_ f) Hl Hk Hkd) as Ho.
    destruct (obtain_receiver a l key (start_of_transfer_ f)) as [[[s|] a1] m1].
    + destruct Ho as (Hl1 & Hf1 & r & Hg & Hacc & Hin & _). rewrite Hg.
      pose proof (reception_step junk a1 (with_map l m1) key s r perf frame Hl1 Hk Hkd Hj Hrx Hacc Hg Hin) as Hst.
      cbn [bufmgr_ crc_base_ receivers_ data_type_ allow_anonymous_transfers_ with_map] in Hst.
      destruct (handleReception _ _ _ _ _ _ _ _ _ _) as [[[[out a2] m2] perf2] r2].
      destruct Hst as (Hl2 & Hf2 & _). split; [done|]. by rewrite Hf2.
    + tauto.
  - destruct (_ && _); [|done]. by destruct (handleAnonymousTransferReception l perf frame).
Qed.

(** ** Cleanup *)

Definition expired (ts : Z) (kv : TransferBufferManagerKey * TransferReceiver) : bool := isTimedOut kv.2 ts.

Lemma run_timed_out ts a m es :
  BufMgr_inv B a m ->
  let '((a', m'), kept) := run_predicate (TimedOutReceiverPredicate ts) (a, m) es in
  BufMgr_inv B a' m' /\ foreign a' m' = foreign a m /\ max_buf_size_ m' = max_buf_size_ m /\
  kept = filter (fun kv => expired ts kv = false) es /\
  (forall k, contents m' k =
    if existsb (fun kv => expired ts kv && Key_eqb k kv.1) es then None else contents m k).
Proof.
  revert a m. induction es as [|[k r] es IH]; intros a m Hm; cbn [run_predicate]; [done|].
  unfold TimedOutReceiverPredicate at 1. cbn [fst snd]. unfold expired in *. cbn [snd existsb].
  destruct (isTimedOut r ts) eqn:Et.
  - pose proof (BufMgr_remove_ok B HB a m k Hm) as Hr. destruct (BufMgr_remove a m k) as [a1 m1].
    destruct Hr as (Hm1 & Hf1 & _ & Hs1 & Hc1). specialize (IH a1 m1 Hm1).
    destruct (run_predicate _ (a1, m1) es) as [[a2 m2] kept]. destruct IH as (Hm2 & Hf2 & Hs2 & Hk2 & Hc2).
    split_and!; try done; try congruence.
    + rewrite filter_cons_False by (cbn [snd]; by rewrite Et). done.
    + intros k'. cbn [fst snd andb]. specialize (Hc2 k'). rewrite Hc1 in Hc2. rewrite Hc2.
      destruct (Key_eqb k' k); cbn [orb]; [by case_match|done].
  - specialize (IH a m Hm). destruct (run_predicate _ (a, m) es) as [[a2 m2] kept].
    destruct IH as (Hm2 & Hf2 & Hs2 & Hk2 & Hc2). split_and!; try done.
    + rewrite filter_cons_True by done. by f_equal.
Qed.

Lemma Listener_cleanup_ok a l ts :
  Listener_inv a l ->
  let '(a', l') := Listener_cleanup a l ts in
  Listener_inv a' l' /\ listener_foreign a' l' = listener_foreign a l /\
  recv_entries (receivers_ l') = filter (fun kv => expired ts kv = false) (recv_entries (receivers_ l)).
Proof.
  intros [Hmg Hmap Hdis Hrecv Hbuf]. unfold Listener_cleanup.
  pose proof (run_timed_out ts a (bufmgr_ l) (recv_entries (receivers_ l)) Hmg) as Hrun.
  destruct (run_predicate _ (a, bufmgr_ l) _) as [[a1 m1] kept] eqn:Er.
  destruct Hrun as (Hm1 & Hf1 & Hs1 & Hk1 & Hc1).
  assert (Hlive : forall p, p ∈ map_owned (receivers_ l) -> p ∈ foreign a1 m1).
  { intros p Hp. rewrite Hf1, elem_of_foreign. split; [by apply Hmap|auto]. }
  pose proof (removeAllWhere_ok Key_default TransferReceiver_init NumKV HNum fst
    (fun (a : A) (st : A * TransferBufferManager) => (a, st.2)) (TimedOutReceiverPredicate ts) (a, bufmgr_ l)
    (receivers_ l) (a1, m1) kept (fun _ _ => eq_refl) (mi_wf _ _ _ _ Hmap) Er (bm_pool B a1 m1 Hm1)) as Hrm.
  cbn [fst] in Hrm.
  destruct (removeAllWhere _ _ _ _ _ _ _) as [[a2 m2] recv2].
  destruct Hrm as (Hmap2 & Hfo2 & He2 & Hst); [intros p Hp; apply Hlive, elem_of_foreign in Hp; tauto|].
  cbn [fst] in Hmap2, Hfo2.
  assert (m2 = m1) as -> by (destruct Hst as [[= _ ->]|[a' [= _ ->]]]; done).
  assert (Hkeep : forall p, p ∈ owned m1 -> p ∈ map_foreign a2 recv2).
  { intros p Hp. rewrite Hfo2, elem_of_map_foreign. split; [by apply (bm_live B a1 m1 Hm1)|].
    intros Hp'. apply Hlive, elem_of_foreign in Hp'. tauto. }
  assert (Hm2 : BufMgr_inv B a2 m1).
  { apply (BufMgr_inv_pool a1); [done|apply Hmap2|]. intros p Hp. apply Hkeep, elem_of_map_foreign in Hp. tauto. }
  split_and!; [|..].
  - split; cbn [bufmgr_ receivers_]; try done.
    + intros p Hp Hpo. apply Hkeep, elem_of_map_foreign in Hpo. tauto.
    + intros k r. rewrite He2, Hk1. intros [Hne Hin]%list_elem_of_filter.
      destruct (Hrecv k r Hin) as [? Hr]. split; [done|]. destruct Hr as [Hr1 Hr2 ? ? ? ? ?].
      split; try done. unfold pos_ok in *. rewrite Hc1.
      destruct (existsb _ _) eqn:Ex; [|done]. exfalso.
      apply existsb_exists in Ex as ([k' r'] & Hin' & Hb). apply andb_true_iff in Hb as [Hx Hke].
      cbn [fst] in Hke. apply Key_eqb_eq in Hke as ->. apply list_elem_of_In in Hin'.
      assert (r' = r) as ->.
      { eapply (NoDup_fmap_fst (recv_entries (receivers_ l)) k' r' r); try done. apply Hmap. }
      congruence.
    + intros k c Hc. rewrite Hc1 in Hc. destruct (existsb _ _) eqn:Ex; [done|].
      pose proof (Hbuf k c Hc) as Hin. apply list_elem_of_fmap in Hin as ([k' r] & -> & Hin).
      rewrite He2, Hk1. apply list_elem_of_fmap. exists (k', r). split; [done|].
      apply list_elem_of_filter. split; [|done]. cbn [fst].
      destruct (expired ts (k', r)) eqn:Ee; [|done]. exfalso.
      assert (Ht : existsb (fun kv => expired ts kv && Key_eqb (k', r).1 kv.1) (recv_entries (receivers_ l)) = true).
      { apply existsb_exists. exists (k', r). split; [by apply list_elem_of_In|].
        rewrite Ee. cbn [fst andb]. by apply Key_eqb_eq. }
      by rewrite Ht in Ex.
  - rewrite !(proj2 (listener_foreign_alt _ _)). cbn [bufmgr_ receivers_]. rewrite Hfo2.
    apply set_eq. intros x. rewrite !elem_of_difference, !elem_of_map_foreign, !elem_of_list_to_set.
    assert (Hx : x ∈ foreign a1 m1 <-> x ∈ foreign a (bufmgr_ l)) by (by rewrite Hf1).
    rewrite !elem_of_foreign in Hx. tauto.
  - cbn [receivers_]. by rewrite He2.
Qed.

Lemma Listener_destroy_ok a l :
  Listener_inv a l ->
  pool_inv (Listener_destroy a l) /\ live (Listener_destroy a l) = listener_foreign a l.
Proof.
  intros [Hmg Hmap Hdis Hrecv Hbuf]. unfold Listener_destroy.
  pose proof (Map_clear_ok Key_default TransferReceiver_init NumKV HNum a (receivers_ l) Hmap) as Hc.
  destruct (Map_clear _ _ a (receivers_ l)) as [a1 m1]. destruct Hc as (-> & Hp1 & Hl1).
  change (Map_clear Key_default TransferReceiver_init a1 []) with (a1, @nil (@KVGroup TransferBufferManagerKey TransferReceiver)).
  cbv iota beta.
  assert (Hm1 : BufMgr_inv B a1 (bufmgr_ l)).
  { apply (BufMgr_inv_pool a); [done|done|]. intros p Hp. rewrite Hl1, elem_of_map_foreign.
    split; [by apply (bm_live B a _ Hmg)|]. intros Hp'. by apply (Hdis p). }
  destruct (BufMgr_destroy_ok B HB a1 (bufmgr_ l) Hm1) as [Hp2 Hl2]. split; [done|].
  rewrite Hl2. rewrite (proj2 (listener_foreign_alt _ _)). unfold foreign. by rewrite Hl1.
Qed.

(** ** Sequences of frames *)

Fixpoint Listener_handleFrames (junk : Z -> list Z) (a : A) (l : TransferListener)
    (perf : TransferPerfCounter) (fs : list RxFrame)
    : list IncomingTransfer * A * TransferListener * TransferPerfCounter :=
  match fs with
  | [] => ([], a, l, perf)
  | f :: fs =>
    let '(out, a, l, perf) :=
      Listener_handleFrame sizeof_Block sizeof_Entry sizeof_KVGroup NumKV junk a l perf f in
    let '(out', a, l, perf) := Listener_handleFrames junk a l perf fs in
    (out ++ out', a, l, perf)
  end.

(** What can happen to a listener between its construction and its
    destruction. *)
Inductive listener_step : A * TransferListener -> A * TransferListener -> Prop :=
  | ls_frame a l junk perf frame out a' l' perf' :
      (forall p, length (junk p) = B) -> Rx_wf frame ->
      Listener_handleFrame sizeof_Block sizeof_Entry sizeof_KVGroup NumKV junk a l perf frame =
        (out, a', l', perf') -> listener_step (a, l) (a', l')
  | ls_cleanup a l ts : listener_step (a, l) (Listener_cleanup a l ts).

Lemma Listener_inv_init a dt sz :
  pool_inv a -> 0 <= sz <= 0xFFFF ->
  Listener_inv a (TransferListener_init dt sz) /\ listener_foreign a (TransferListener_init dt sz) = live a.
Proof.
  intros Ha Hs. split.
  - split; cbn.
    + by apply BufMgr_inv_empty.
    + split; [done|by intros p Hp%elem_of_nil|split; constructor].
    + by intros p Hp%elem_of_nil.
    + by intros k r Hin%elem_of_nil.
    + done.
  - unfold listener_foreign. cbn. apply difference_empty_L.
Qed.

Lemma listener_step_inv s s' :
  listener_step s s' -> Listener_inv s.1 s.2 ->
  Listener_inv s'.1 s'.2 /\ listener_foreign s'.1 s'.2 = listener_foreign s.1 s.2.
Proof.
  destruct 1 as [a l junk perf frame out a' l' perf' Hj Hrx E|a l ts]; cbn [fst snd]; intros Hl.
  - pose proof (Listener_handleFrame_ok junk a l perf frame Hl Hj Hrx) as Hh. by rewrite E in Hh.
  - pose proof (Listener_cleanup_ok a l ts Hl) as Hc. destruct (Listener_cleanup a l ts). tauto.
Qed.

(** A listener keeps the shared memory pool intact, whatever frames it is
    fed and whenever it is cleaned up: at every point its receivers and buffers
    are well formed, the blocks it holds are its own, blocks of others are
    never touched, and destroying it gives every block back. *)
Theorem listener_owns_its_memory a0 dt sz a l :
  pool_inv a0 -> 0 <= sz <= 0xFFFF ->
  rtc listener_step (a0, TransferListener_init dt sz) (a, l) ->
  Listener_inv a l /\ listener_foreign a l = live a0 /\
  pool_inv (Listener_destroy a l) /\ live (Listener_destroy a l) = live a0.
Proof.
  intros Ha Hs Hr. destruct (Listener_inv_init a0 dt sz Ha Hs) as [Hi Hf].
  assert (Hinv : Listener_inv a l /\ listener_foreign a l = live a0).
  { change a with (a, l).1. change l with (a, l).2 at 2 4.
    revert Hr. apply (rtc_ind_r (fun s => Listener_inv s.1 s.2 /\ listener_foreign s.1 s.2 = live a0)); [done|].
    intros s s' _ Hst [Hs' Hf']. destruct (listener_step_inv s s' Hst Hs') as [? E]. by rewrite E. }
  destruct Hinv as [Hinv Hfo]. destruct (Listener_destroy_ok a l Hinv) as [Hp Hl]. by rewrite Hl, Hfo.
Qed.

Section deliver.
Context (block_size num_blocks : Z) `{!PoolCapacity A block_size num_blocks}.
Context (Hsb : sizeof_Block <= block_size) (Hse : sizeof_Entry <= block_size).
Context (Hsk : sizeof_KVGroup <= block_size).
Context (junk : Z -> list Z) (Hj : forall p, length (junk p) = B).

(** A listener with a receiver for the key. *)
Record has_receiver (a : A) (l : TransferListener) (key : TransferBufferManagerKey) (s : SlotPtr)
    (r : TransferReceiver) : Prop := {
  hr_inv : Listener_inv a l;
  hr_access : Map_access (receivers_ l) key = Some s;
  hr_slot : get_slot (receivers_ l) s = Some (key, r);
  hr_room : room B key num_blocks a (bufmgr_ l)
}.

(** The parts of a listener frames do not change. *)
Definition same_config (l l' : TransferListener) : Prop :=
  data_type_ l' = data_type_ l /\ crc_base_ l' = crc_base_ l /\
  allow_anonymous_transfers_ l' = allow_anonymous_transfers_ l /\
  max_buf_size_ (bufmgr_ l') = max_buf_size_ (bufmgr_ l).

Definition frame_key (frame : RxFrame) : TransferBufferManagerKey :=
  Key_make (src_node_id_ (rx_frame frame)) (transfer_type_ (rx_frame frame)).

(** With a receiver in place, a frame is one [handleReception]. *)
Lemma handleFrame_known a l key s r perf frame :
  has_receiver a l key s r -> NodeID.isUnicast (src_node_id_ (rx_frame frame)) = true ->
  frame_key frame = key -> Rx_wf frame ->
  let '(out, a', m', perf', r') :=
    handleReception sizeof_Block sizeof_Entry junk a (bufmgr_ l) (crc_base_ l) perf r frame key in
  let l' := mkListener (data_type_ l) m' (set_slot (receivers_ l) s (key, r')) (crc_base_ l)
              (allow_anonymous_transfers_ l) in
  Listener_handleFrame sizeof_Block sizeof_Entry sizeof_KVGroup NumKV junk a l perf frame =
    (out, a', l', perf') /\
  has_receiver a' l' key s r' /\ listener_foreign a' l' = listener_foreign a l /\ same_config l l'.
Proof.
  intros [Hl Hacc Hget Hroom] Hu Hkey Hrx.
  destruct (unicast_key _ (transfer_type_ (rx_frame frame)) Hu) as [Hk Hkd].
  fold (frame_key frame) in Hk, Hkd. rewrite Hkey in Hk, Hkd.
  assert (Hin : (key, r) ∈ recv_entries (receivers_ l)).
  { pose proof (Map_access_ok Key_default NumKV a (receivers_ l) key (li_map _ _ Hl) Hkd) as Ho.
    rewrite Hacc in Ho. destruct Ho as (r' & Hg & Hin). rewrite Hget in Hg. by injection Hg as <-. }
  pose proof (reception_step junk a l key s r perf frame Hl Hk Hkd Hj Hrx Hacc Hget Hin) as Hst.
  destruct (li_recv a l Hl key r Hin) as [_ Hr].
  pose proof (handleReception_ok junk a (bufmgr_ l) (crc_base_ l) perf r frame key Hk Hr Hj Hrx) as Hh.
  unfold Listener_handleFrame. rewrite Hu. fold (frame_key frame). rewrite Hkey, Hacc, Hget.
  destruct (handleReception _ _ _ _ _ _ _ _ _ _) as [[[[out a'] m'] perf'] r'].
  destruct Hst as (Hl' & Hf' & Hacc' & Hget'). destruct Hh as [_ Hf]. split; [done|]. split_and!.
  - split; try done. by eapply room_frame.
  - done.
  - split_and!; try done. apply Hf.
Qed.

Lemma mid_transfer_errors key m r e tid iface t0 crc toggle c :
  mid_transfer key m r tid iface t0 crc toggle c ->
  mid_transfer key m (with_errors r e) tid iface t0 crc toggle c.
Proof. intros []. by split. Qed.

(** A data frame that is not the last one of its transfer. *)
Lemma handleReception_not_last (a : A) m crc_base perf r frame key a' m' r' :
  addFrame sizeof_Block sizeof_Entry key junk a m r frame = (ResultNotComplete, a', m', r') ->
  handleReception sizeof_Block sizeof_Entry junk a m crc_base perf r frame key =
    ([], a', m', addErrors perf (error_cnt_ r'), with_errors r' 0).
Proof. intros E. unfold handleReception. rewrite E. done. Qed.

(** The last frame: delivery if the CRC matches. *)
Lemma handleReception_last (a : A) m crc_base perf r frame key a' m' r' c :
  Key_isEmpty key = false ->
  addFrame sizeof_Block sizeof_Entry key junk a m r frame = (ResultComplete, a', m', r') ->
  BufMgr_inv B a' m' -> contents m' key = Some c ->
  exists e a'' m'', Entry_wf B e /\ Entry_content e = c /\
    handleReception sizeof_Block sizeof_Entry junk a m crc_base perf r frame key =
      ((if add_bytes crc_base c =? this_transfer_crc_ r' then
          [MultiFrame_make (prev_transfer_ts_ r') (first_frame_ts_ r') frame e] else []),
       a'', m'', addRxTransfer perf, r') /\
    contents m'' key = (if add_bytes crc_base c =? this_transfer_crc_ r' then None else Some c).
Proof.
  intros Hk E Hm Hc. unfold handleReception. rewrite E, Hk. pose proof Hc as Hc0.
  unfold contents in Hc0. destruct (findFirst (buffers_ m') key) as [[p e]|] eqn:Ef; [|done].
  injection Hc0 as Hce. cbn [snd] in Hce.
  destruct (BufMgr_found B a' m' key p e Hm Ef) as (_ & _ & _ & _ & _ & _ & _ & _ & We & _).
  rewrite (checkPayloadCrc_ok B HB) by done. rewrite Hce.
  pose proof (remove_frame B HB key a' m' Hm) as Hrem.
  destruct (BufMgr_remove a' m' key) as [a'' m'']. destruct Hrem as [_ Hc''].
  destruct (add_bytes crc_base c =? this_transfer_crc_ r'); cbn [negb].
  - by exists e, a'', m''.
  - by exists e, a', m'.
Qed.

(** The frame comes from the node and is of the type of the key. *)
Definition of_stream (key : TransferBufferManagerKey) (frame : RxFrame) : Prop :=
  NodeID.isUnicast (src_node_id_ (rx_frame frame)) = true /\ frame_key frame = key.

(** What a listener outputs for a multi-frame transfer: one transfer with the
    payload if the CRC is right, nothing otherwise. *)
Definition delivers (crc_base crc : Z) (payload : list Z) (ts utc : Z) (last : RxFrame)
    (out : list IncomingTransfer) : Prop :=
  if add_bytes crc_base payload =? crc then
    exists e, out = [MultiFrame_make ts utc last e] /\ Entry_wf B e /\ Entry_content e = payload
  else out = [].

Lemma same_config_trans l1 l2 l3 : same_config l1 l2 -> same_config l2 l3 -> same_config l1 l3.
Proof. unfold same_config. intros (-> & -> & -> & <-) (-> & -> & -> & ->). done. Qed.

Lemma listener_tail key s fs a l perf r tid iface t0 utc crc toggle c :
  has_receiver a l key s r -> mid_transfer key (bufmgr_ l) r tid iface t0 crc toggle c ->
  first_frame_ts_ r = utc -> tail_frames tid iface t0 toggle fs -> Forall (of_stream key) fs -> 0 <= t0 ->
  Z.of_nat (length c + length (transfer_payload fs)) <= max_buf_size_ (bufmgr_ l) ->
  exists out a' l' perf' r' last, Listener_handleFrames junk a l perf fs = (out, a', l', perf') /\
    List.last fs last = last /\
    delivers (crc_base_ l) crc (c ++ transfer_payload fs) t0 utc last out /\
    has_receiver a' l' key s r' /\ listener_foreign a' l' = listener_foreign a l /\ same_config l l' /\
    idle r' (TransferID.increment tid) iface t0 /\
    contents (bufmgr_ l') key =
      (if add_bytes (crc_base_ l) (c ++ transfer_payload fs) =? crc then None
       else Some (c ++ transfer_payload fs)).
Proof.
  revert a l perf r toggle c.
  induction fs as [|f fs IH]; intros a l perf r toggle c Hhr Hmid Hutc Hfs Hstr Ht0 Hfit; [done|].
  destruct Hfs as (Hrx & Hst & Htg & Htid & Hif & Hts & Hend & Hrest).
  apply Forall_cons in Hstr as [[Hu Hfk] Hstr].
  assert (Hcat : transfer_payload (f :: fs) = eff_payload (rx_frame f) ++ transfer_payload fs) by done.
  rewrite Hcat, length_app in Hfit.
  destruct (unicast_key _ (transfer_type_ (rx_frame f)) Hu) as [Hk Hkd].
  fold (frame_key f) in Hk, Hkd. rewrite Hfk in Hk, Hkd.
  destruct (addFrame_tail sizeof_Block sizeof_Entry B HB key Hk block_size num_blocks Hsb Hse junk a
    (bufmgr_ l) r f tid iface t0 crc toggle c) as (a1 & m1 & E1 & Hf1 & Hc1); try done;
    [apply Hhr|apply Hhr|lia|].
  pose proof (handleFrame_known a l key s r perf f Hhr Hu Hfk Hrx) as Hkn.
  cbn [Listener_handleFrames]. destruct fs as [|f2 fs].
  - rewrite Hend in E1.
    destruct (handleReception_last a (bufmgr_ l) (crc_base_ l) perf r f key a1 m1 (accepted r f)
      (c ++ eff_payload (rx_frame f)) Hk E1 (mf_inv _ _ _ _ _ _ Hf1) Hc1)
      as (e & a2 & m2 & We & Hce & Ehr & Hc2).
    rewrite Ehr in Hkn. destruct Hkn as (-> & Hhr' & Hfo & Hcfg).
    destruct Hmid as [Mt Mi Mg Ms Mp Mc Mb Mw].
    assert (Hacc : this_transfer_crc_ (accepted r f) = crc /\ prev_transfer_ts_ (accepted r f) = t0 /\
      first_frame_ts_ (accepted r f) = utc /\ idle (accepted r f) (TransferID.increment tid) iface t0).
    { unfold accepted. rewrite Hst, Hend. cbn. split_and!; try done. split; cbn; congruence. }
    destruct Hacc as (Ec & Ep & Eu & Hid). rewrite Ec, Ep, Eu in *.
    cbn [Listener_handleFrames]. rewrite app_nil_r, Hcat. change (transfer_payload []) with (@nil Z).
    rewrite app_nil_r. eexists _, _, _, _, (accepted r f), f. split; [done|]. split; [done|].
    unfold delivers. split_and!; try done.
    destruct (add_bytes (crc_base_ l) (c ++ eff_payload (rx_frame f)) =? crc); [by exists e|done].
  - destruct Hrest as [|Hrest]; [done|]. rewrite Hend in E1.
    rewrite (handleReception_not_last a (bufmgr_ l) (crc_base_ l) perf r f key a1 m1 _ E1) in Hkn.
    destruct Hkn as (-> & Hhr' & Hfo & Hcfg). set (l1 := mkListener _ _ _ _ _) in *.
    destruct (IH a1 l1 (addErrors perf (error_cnt_ (accepted r f))) (with_errors (accepted r f) 0)
      (negb toggle) (c ++ eff_payload (rx_frame f)))
      as (out & a2 & l2 & perf2 & r2 & last & E2 & Hlast & Hdel & Hhr2 & Hfo2 & Hcfg2 & Hid & Hc2); try done.
    + apply mid_transfer_errors. destruct Hmid as [Mt Mi Mg Ms Mp Mc Mb Mw].
      unfold accepted. rewrite Hst, Hend. split; cbn; try congruence; try done.
      rewrite Mw, length_app. lia.
    + unfold accepted. rewrite Hst, Hend. done.
    + rewrite length_app. destruct Hcfg as (_ & _ & _ & ->). lia.
    + rewrite E2. cbn [app]. rewrite <-app_assoc, <-Hcat in Hdel, Hc2.
      exists out, a2, l2, perf2, r2, last. split_and!; try done; [by rewrite Hfo2|].
      by eapply same_config_trans.
Qed.

(** The listener is ready for the first frame of a transfer: the stream is new,
    or its receiver is; the pool has room for one more group of receivers and a
    full buffer. *)
Record listener_ready (a : A) (l : TransferListener) (frame : RxFrame) : Prop := {
  lr_inv : Listener_inv a l;
  lr_room : Z.of_nat (size (others a (bufmgr_ l) (frame_key frame))) +
            max_buf_size_ (bufmgr_ l) / Z.of_nat B + 4 <= num_blocks;
  lr_start : match Map_access (receivers_ l) (frame_key frame) with
             | None => True
             | Some s => exists r, get_slot (receivers_ l) s = Some (frame_key frame, r) /\
                                   start_ready (frame_key frame) (bufmgr_ l) r frame
             end
}.

(** Inserting a new key takes at most one block. *)
Lemma Map_insert_new_live (a : A) (m : @Map TransferBufferManagerKey TransferReceiver) k v r a' m' :
  Map_inv Key_default NumKV a m -> Map_access m k = None ->
  Map_insert Key_default TransferReceiver_init NumKV sizeof_KVGroup a m k v = (r, a', m') ->
  (r = None -> allocate a sizeof_KVGroup = (None, a')) /\
  (r <> None -> live a' = live a \/ exists p, live a' = {[p]} ∪ live a).
Proof.
  intros Hm Hacc. unfold Map_insert, Map_remove. unfold Map_access in Hacc. rewrite Hacc.
  destruct (findKey m Key_default) as [s|]; [intros [= <- <- _]; split; [done|by left]|].
  unfold KVGroup_instantiate. destruct (allocate a sizeof_KVGroup) as [[p|] a1] eqn:Ea.
  - intros [= <- <- _]. split; [done|]. intros _. right. exists p.
    apply (allocate_some a sizeof_KVGroup p a1); [apply Hm|done].
  - intros [= <- <- _]. by split.
Qed.

Lemma others_grow (a a' : A) m k p :
  live a' = {[p]} ∪ live a -> (size (others a' m k) <= S (size (others a m k)))%nat.
Proof.
  intros Hl. unfold others. rewrite Hl.
  transitivity (size ({[p]} ∪ (live a ∖ list_to_set (held m k)) : gset Z)).
  - apply subseteq_size. intros x. rewrite !elem_of_difference, !elem_of_union, elem_of_difference. tauto.
  - rewrite size_union_alt, size_singleton. pose proof (subseteq_size
      ((live a ∖ list_to_set (held m k)) ∖ {[p]}) (live a ∖ list_to_set (held m k)) ltac:(set_solver)). lia.
Qed.

Lemma ready_receiver a l frame :
  listener_ready a l frame -> Rx_wf frame -> start_of_transfer_ (rx_frame frame) = true ->
  NodeID.isUnicast (src_node_id_ (rx_frame frame)) = true ->
  exists s a1 m1 r, obtain_receiver a l (frame_key frame) true = (Some s, a1, m1) /\
    has_receiver a1 (with_map l m1) (frame_key frame) s r /\
    listener_foreign a1 (with_map l m1) = listener_foreign a l /\
    start_ready (frame_key frame) (bufmgr_ l) r frame.
Proof.
  intros [Hl Hroom Hstart] Hrx Hs Hu. set (key := frame_key frame) in *.
  destruct (unicast_key _ (transfer_type_ (rx_frame frame)) Hu) as [Hk Hkd]. fold (frame_key frame) in Hk, Hkd.
  fold key in Hk, Hkd. pose proof (rxw_ts frame Hrx) as Hts.
  pose proof (obtain_receiver_ok a l key true Hl Hk Hkd) as Ho.
  destruct (obtain_receiver a l key true) as [[recv a1] m1] eqn:Eo. destruct Ho as (Hl1 & Hf1 & Hrec).
  unfold obtain_receiver in Eo. destruct (Map_access (receivers_ l) key) as [s|] eqn:Ea.
  - injection Eo as <- <- <-. destruct Hstart as (r & Hg & Hready).
    exists s, a, (receivers_ l), r. split_and!; try done. split; try done. unfold room. cbn. lia.
  - cbn [negb] in Eo. pose proof (Map_insert_new_live a (receivers_ l) key _ recv a1 m1 (li_map _ _ Hl) Ea Eo)
      as [Hno Hyes].
    assert (Hlive : Z.of_nat (size (live a)) + max_buf_size_ (bufmgr_ l) / Z.of_nat B + 4 <= num_blocks).
    { rewrite (live_size B HB a (bufmgr_ l) key (li_mgr _ _ Hl)).
      destruct (contents (bufmgr_ l) key) eqn:Ec.
      - exfalso. pose proof (Map_access_ok Key_default NumKV a (receivers_ l) key (li_map _ _ Hl) Hkd) as Hno'.
        rewrite Ea in Hno'. apply Hno'. by apply (li_buf _ _ Hl key l0).
      - unfold contents in Ec. unfold held. destruct (findFirst (buffers_ (bufmgr_ l)) key); [done|].
        simpl. lia. }
    pose proof (bm_size B a (bufmgr_ l) (li_mgr _ _ Hl)) as Hbs.
    assert (0 <= max_buf_size_ (bufmgr_ l) / Z.of_nat B) by (apply Z.div_pos; lia).
    destruct recv as [s|].
    + destruct Hrec as (r & Hg & Hacc & Hin & Hcase).
      exists s, a1, m1, r. split_and!; try done.
      * split; try done. unfold room. cbn [bufmgr_ with_map].
        destruct (Hyes ltac:(done)) as [E|[p E]].
        -- unfold others in *. rewrite E. lia.
        -- pose proof (others_grow a a1 (bufmgr_ l) key p E). lia.
      * destruct Hcase as [[-> _]|Hin'].
        -- split_and!; cbn; try lia.
        -- exfalso. pose proof (Map_access_ok Key_default NumKV a (receivers_ l) key (li_map _ _ Hl) Hkd) as Hno'.
           rewrite Ea in Hno'. apply Hno'. by apply (list_elem_of_fmap_2 fst) in Hin'.
    + exfalso. specialize (Hno eq_refl).
      pose proof (allocate_refused a sizeof_KVGroup a1 (bm_pool _ _ _ (li_mgr _ _ Hl)) Hsk Hno). lia.
Qed.

(** The first frame of a stream: the receiver is found or made first. *)
Lemma handleFrame_obtains a l perf f s a1 m1 r :
  NodeID.isUnicast (src_node_id_ (rx_frame f)) = true -> start_of_transfer_ (rx_frame f) = true ->
  obtain_receiver a l (frame_key f) true = (Some s, a1, m1) ->
  has_receiver a1 (with_map l m1) (frame_key f) s r ->
  Listener_handleFrame sizeof_Block sizeof_Entry sizeof_KVGroup NumKV junk a l perf f =
  Listener_handleFrame sizeof_Block sizeof_Entry sizeof_KVGroup NumKV junk a1 (with_map l m1) perf f.
Proof.
  intros Hu Hs Eo Hhr. unfold Listener_handleFrame. rewrite Hu. fold (frame_key f).
  fold (obtain_receiver a l (frame_key f) (start_of_transfer_ (rx_frame f))). rewrite Hs, Eo.
  cbn [receivers_ bufmgr_ crc_base_ data_type_ allow_anonymous_transfers_ with_map].
  pose proof (hr_access _ _ _ _ _ Hhr) as Hacc. pose proof (hr_slot _ _ _ _ _ Hhr) as Hslot.
  cbn [receivers_ with_map] in Hacc, Hslot. by rewrite Hacc, Hslot.
Qed.

(** A single-frame transfer is delivered as it is. *)
Lemma listener_single a l perf f :
  listener_ready a l f -> Rx_wf f -> of_stream (frame_key f) f ->
  start_of_transfer_ (rx_frame f) = true -> end_of_transfer_ (rx_frame f) = true ->
  toggle_ (rx_frame f) = false ->
  exists a' l' perf' s r',
    Listener_handleFrames junk a l perf [f] = ([SingleFrame_make f], a', l', perf') /\
    has_receiver a' l' (frame_key f) s r' /\ listener_foreign a' l' = listener_foreign a l /\ same_config l l' /\
    idle r' (TransferID.increment (transfer_id_ (rx_frame f))) (iface_index_ f) (ts_mono_ f).
Proof.
  intros Hready Hrx [Hu _] Hs He Htg.
  destruct (ready_receiver a l f Hready Hrx Hs Hu) as (s & a1 & m1 & r & Eo & Hhr & Hfo1 & Hsr).
  destruct (unicast_key _ (transfer_type_ (rx_frame f)) Hu) as [Hk Hkd]. fold (frame_key f) in Hk, Hkd.
  assert (Hin : (frame_key f, r) ∈ recv_entries m1).
  { pose proof (Map_access_ok Key_default NumKV a1 m1 (frame_key f) (li_map _ _ (hr_inv _ _ _ _ _ Hhr)) Hkd) as Ho.
    pose proof (hr_access _ _ _ _ _ Hhr) as Hacc. pose proof (hr_slot _ _ _ _ _ Hhr) as Hslot.
    cbn [receivers_ with_map] in Hacc, Hslot. rewrite Hacc in Ho. destruct Ho as (r' & Hg & Hin).
    rewrite Hslot in Hg. by injection Hg as <-. }
  destruct (li_recv _ _ (hr_inv _ _ _ _ _ Hhr) _ _ Hin) as [_ Hr].
  destruct (addFrame_single sizeof_Block sizeof_Entry B HB (frame_key f) Hk junk a1 (bufmgr_ l) r f)
    as (a2 & m2 & r2 & E2 & Hf2 & Hc2 & Hid); try done; [apply Hr..|].
  pose proof (handleFrame_known a1 (with_map l m1) (frame_key f) s r perf f Hhr Hu eq_refl Hrx) as Hkn.
  cbn [bufmgr_ crc_base_ with_map] in Hkn. unfold handleReception in Hkn. rewrite E2 in Hkn.
  destruct Hkn as (Ehf & Hhr2 & Hfo2 & Hcfg).
  cbn [Listener_handleFrames]. rewrite (handleFrame_obtains a l perf f s a1 m1 r Hu Hs Eo Hhr), Ehf.
  eexists _, _, _, s, r2. split_and!; try done. by rewrite Hfo2.
Qed.

Lemma listener_transfer a l perf f fs :
  listener_ready a l f -> Rx_wf f -> of_stream (frame_key f) f -> Forall (of_stream (frame_key f)) fs ->
  start_of_transfer_ (rx_frame f) = true -> end_of_transfer_ (rx_frame f) = false ->
  toggle_ (rx_frame f) = false -> CrcNumBytes <= payload_len_ (rx_frame f) ->
  tail_frames (transfer_id_ (rx_frame f)) (iface_index_ f) (ts_mono_ f) true fs ->
  Z.of_nat (length (transfer_payload (f :: fs))) <= max_buf_size_ (bufmgr_ l) ->
  exists out a' l' perf' s r' last,
    Listener_handleFrames junk a l perf (f :: fs) = (out, a', l', perf') /\ List.last fs last = last /\
    delivers (crc_base_ l) (frame_crc (rx_frame f)) (transfer_payload (f :: fs)) (ts_mono_ f) (ts_utc_ f) last out /\
    has_receiver a' l' (frame_key f) s r' /\ listener_foreign a' l' = listener_foreign a l /\ same_config l l' /\
    idle r' (TransferID.increment (transfer_id_ (rx_frame f))) (iface_index_ f) (ts_mono_ f) /\
    contents (bufmgr_ l') (frame_key f) =
      (if add_bytes (crc_base_ l) (transfer_payload (f :: fs)) =? frame_crc (rx_frame f) then None
       else Some (transfer_payload (f :: fs))).
Proof.
  intros Hready Hrx [Hu _] Hstr Hs He Htg Hlen Htail Hfit.
  destruct (ready_receiver a l f Hready Hrx Hs Hu) as (s & a1 & m1 & r & Eo & Hhr & Hfo1 & Hsr).
  assert (Hcat : transfer_payload (f :: fs) = eff_payload (rx_frame f) ++ transfer_payload fs) by done.
  rewrite Hcat, length_app in Hfit. set (key := frame_key f) in *.
  destruct (unicast_key _ (transfer_type_ (rx_frame f)) Hu) as [Hk Hkd]. fold (frame_key f) in Hk, Hkd.
  fold key in Hk, Hkd. pose proof (rxw_ts f Hrx) as Hts.
  destruct (addFrame_first sizeof_Block sizeof_Entry B HB key Hk block_size num_blocks Hsb Hse junk a1
    (bufmgr_ l) r f) as (a2 & m2 & r2 & E2 & Hf2 & Hmid & Hutc); try done; [apply Hhr|apply Hhr|lia|].
  pose proof (handleFrame_known a1 (with_map l m1) key s r perf f Hhr Hu eq_refl Hrx) as Hkn.
  cbn [bufmgr_ crc_base_ with_map] in Hkn.
  rewrite (handleReception_not_last a1 (bufmgr_ l) (crc_base_ l) perf r f key a2 m2 r2 E2) in Hkn.
  destruct Hkn as (Ehf & Hhr2 & Hfo2 & Hcfg).
  pose proof (handleFrame_obtains a l perf f s a1 m1 r Hu Hs Eo Hhr) as Ehf'.
  cbn [Listener_handleFrames]. rewrite Ehf', Ehf.
  set (l2 := mkListener _ _ _ _ _) in *.
  destruct (listener_tail key s fs a2 l2 (addErrors perf (error_cnt_ r2)) (with_errors r2 0)
    (transfer_id_ (rx_frame f)) (iface_index_ f) (ts_mono_ f) (ts_utc_ f) (frame_crc (rx_frame f)) true
    (eff_payload (rx_frame f)))
    as (out & a3 & l3 & perf3 & r3 & last & E3 & Hlast & Hdel & Hhr3 & Hfo3 & Hcfg3 & Hid & Hc3); try done.
  - by apply mid_transfer_errors.
  - lia.
  - destruct Hcfg as (_ & _ & _ & ->). cbn [bufmgr_ with_map]. lia.
  - rewrite E3. cbn [app]. rewrite <-Hcat in Hdel, Hc3.
    exists out, a3, l3, perf3, s, r3, last. split_and!; try done.
    + by rewrite Hfo3, Hfo2.
    + by eapply same_config_trans in Hcfg3; [|exact Hcfg].
Qed.

(** The last frame of a transfer has its ID and interface, and is one of its stream. *)
Lemma tail_frames_last tid iface t0 toggle fs d : tail_frames tid iface t0 toggle fs ->
  List.last fs d ∈ fs /\ transfer_id_ (rx_frame (List.last fs d)) = tid /\ iface_index_ (List.last fs d) = iface.
Proof.
  revert toggle. induction fs as [|f fs IH]; intros toggle Hf; [done|]. destruct Hf as (_ & _ & _ & Ht & Hi & _ & _ & [->|Hr]); [cbn; split_and!; [left|done|done]|].
  destruct (IH _ Hr) as (H1 & H2 & H3). destruct fs as [|g fs]; [done|]. change (List.last (f :: g :: fs) d) with (List.last (g :: fs) d). split_and!; [by right|done|done].
Qed.

Lemma last_default {T} (l : list T) d d' : l <> [] -> List.last l d = List.last l d'.
Proof. induction l as [|x l IH]; [done|]. intros _. destruct l; [done|]. by apply IH. Qed.

(** C31: a listener hands a multi-frame transfer to the application exactly when
    its bytes have the CRC the sender computed: for the frames of one transfer,
    in order and within the transfer ID timeout, from a node with an ID, at a listener that is ready for it and a
    pool with room, there is one transfer if the CRC of the data type signature
    and the payload is the one the first frame carries, reading it at any offset
    gives exactly the payload, and its header has the time stamps of the first frame, the priority of the last one, and the transfer type,
    transfer ID, source node and interface of all of them; otherwise
    nothing is delivered. Either way the blocks of other users of the pool are
    as before, and the receiver waits for the next transfer ID. *)
Theorem listener_delivers_checked_payload a l perf f fs :
  listener_ready a l f -> Rx_wf f -> of_stream (frame_key f) f -> Forall (of_stream (frame_key f)) fs ->
  start_of_transfer_ (rx_frame f) = true -> end_of_transfer_ (rx_frame f) = false ->
  toggle_ (rx_frame f) = false -> CrcNumBytes <= payload_len_ (rx_frame f) ->
  tail_frames (transfer_id_ (rx_frame f)) (iface_index_ f) (ts_mono_ f) true fs ->
  Z.of_nat (length (transfer_payload (f :: fs))) <= max_buf_size_ (bufmgr_ l) ->
  exists out a' l' perf' s r',
    Listener_handleFrames junk a l perf (f :: fs) = (out, a', l', perf') /\
    (if add_bytes (crc_base_ l) (transfer_payload (f :: fs)) =? frame_crc (rx_frame f) then
       exists t, out = [t] /\
         it_header t = mkHeader (ts_mono_ f) (ts_utc_ f) (transfer_priority_ (rx_frame (List.last fs f))) (transfer_type_ (rx_frame f))
           (transfer_id_ (rx_frame f)) (src_node_id_ (rx_frame f)) (iface_index_ f) /\
         forall offset len, 0 <= offset -> 0 <= len -> offset + len < 2 ^ 32 ->
           IncomingTransfer_read t false offset len =
             (let n := Z.max 0 (Z.min len (Z.of_nat (length (transfer_payload (f :: fs))) - offset)) in
              (n, buf_read (transfer_payload (f :: fs)) offset n))
     else out = []) /\
    Listener_inv a' l' /\ listener_foreign a' l' = listener_foreign a l /\
    Map_access (receivers_ l') (frame_key f) = Some s /\
    get_slot (receivers_ l') s = Some (frame_key f, r') /\
    idle r' (TransferID.increment (transfer_id_ (rx_frame f))) (iface_index_ f) (ts_mono_ f).
Proof.
  intros Hready Hrx Hu Hstr Hs He Htg Hlen Htail Hfit.
  destruct (listener_transfer a l perf f fs Hready Hrx Hu Hstr Hs He Htg Hlen Htail Hfit)
    as (out & a' & l' & perf' & s & r' & last & E & Hlast & Hdel & Hhr & Hfo & _ & Hid & _).
  assert (El : last = List.last fs f) by (rewrite <-Hlast; apply last_default; by destruct fs).
  destruct (tail_frames_last _ _ _ _ fs f Htail) as (Hin & Etid & Eif). rewrite <-El in Hin, Etid, Eif |- *.
  rewrite Forall_forall in Hstr. pose proof (Hstr last Hin) as [_ Ek]. unfold frame_key in Ek. injection Ek as Esrc Ev.
  assert (Etype : transfer_type_ (rx_frame last) = transfer_type_ (rx_frame f)) by (revert Ev; by destruct (transfer_type_ (rx_frame last)), (transfer_type_ (rx_frame f))).
  exists out, a', l', perf', s, r'. split_and!; try done; try apply Hhr. unfold delivers in Hdel.
  destruct (add_bytes (crc_base_ l) (transfer_payload (f :: fs)) =? frame_crc (rx_frame f)); [|done].
  destruct Hdel as (e & -> & We & Hce). eexists. split_and!; [done|cbn [it_header MultiFrame_make]; congruence|]. intros offset len ? ? ?.
  cbn [IncomingTransfer_read MultiFrame_make]. rewrite (Entry_read_ok B HB) by done.
  by rewrite Hce, <-(length_Entry_content B e We), Hce.
Qed.

End deliver.

End listener_ok.

(** ** Witnesses *)

Lemma listener_owns_its_memory_witness :
  let pool := PoolAllocator_init 4096 6400 64 in
  let dt := mkDescriptor DataTypeKindMessage 341 0x1234 in
  let '(out, a, l, perf) := Listener_handleFrame 64 64 64 2 (fun _ => replicate 56 0) pool
    (TransferListener_init dt 300) (mkPerf 0 0 0)
    (example_frame [0x34; 0x12; 1; 2; 3; 4; 5] true false false 7 1000 0) in
  live (Listener_destroy a l) = live pool.
Proof.
  intros pool dt. destruct (Listener_handleFrame _ _ _ _ _ _ _ _ _) as [[[out a] l] perf] eqn:E.
  refine (proj2 (proj2 (proj2 (listener_owns_its_memory 64 64 64 2 56 ltac:(lia) ltac:(lia)
    pool dt 300 a l _ _ _)))).
  - exact (proj1 (PoolAllocator_init_ok 4096 6400 64 eq_refl eq_refl ltac:(vm_compute; split; done))).
  - lia.
  - apply rtc_once. eapply ls_frame; [| |exact E]; [done|].
    apply example_frame_wf; try (unfold MaxCanIfaces; lia); try (rewrite tid_wf_iff; lia); try (cbn; lia).
    repeat constructor; done.
Defined.

(** A transfer of seven bytes in two frames, with the given CRC. *)
Definition example_transfer (crc tid ts : Z) : list RxFrame :=
  [example_frame [crc mod 256; crc / 256; 1; 2; 3; 4; 5] true false false tid ts 0;
   example_frame [6; 7] false true true tid (ts + 1) 0].

Definition example_listener : TransferListener :=
  TransferListener_init (mkDescriptor DataTypeKindMessage 341 0x1234) 300.

Definition example_crc : Z := add_bytes (crc_base_ example_listener) [1; 2; 3; 4; 5; 6; 7].

Lemma listener_delivers_checked_payload_witness :
  let pool := PoolAllocator_init 4096 6400 64 in
  exists out a' l' perf',
    Listener_handleFrames 64 64 64 2 (fun _ => replicate 56 0) pool example_listener (mkPerf 0 0 0)
      (example_transfer example_crc 7 1000) = (out, a', l', perf') /\
    exists t, out = [t] /\ IncomingTransfer_read t false 0 300 = (7, [1; 2; 3; 4; 5; 6; 7]).
Proof.
  intros pool.
  destruct (PoolAllocator_init_ok 4096 6400 64 eq_refl eq_refl ltac:(vm_compute; split; done))
    as (Hpi & Hlive & _).
  set (f := example_frame [example_crc mod 256; example_crc / 256; 1; 2; 3; 4; 5] true false false 7 1000 0).
  set (f2 := example_frame [6; 7] false true true 7 1001 0).
  assert (Hf : Rx_wf f).
  { apply example_frame_wf; try (unfold MaxCanIfaces; lia); try (rewrite tid_wf_iff; lia); try (cbn; lia).
    repeat constructor; vm_compute; done. }
  assert (Hf2 : Rx_wf f2).
  { apply example_frame_wf; try (unfold MaxCanIfaces; lia); try (rewrite tid_wf_iff; lia); try (cbn; lia).
    repeat constructor; vm_compute; done. }
  destruct (@listener_delivers_checked_payload PoolAllocator Pool_ops (Pool_laws_at 4096 6400 64)
    64 64 64 2 56 ltac:(lia) ltac:(lia) 64 100 (Pool_capacity_at 4096 6400 64) ltac:(lia) ltac:(lia) ltac:(lia)
    (fun _ => replicate 56 0) (fun _ => eq_refl) pool example_listener (mkPerf 0 0 0) f [f2])
    as (out & a' & l' & perf' & s & r' & E & Hout & _).
  - split.
    + apply Listener_inv_init; [exact (conj Hpi (conj eq_refl (conj eq_refl eq_refl)))|lia].
    + unfold others. change (held (bufmgr_ example_listener) (frame_key f)) with (@nil Z).
      change (live pool) with (Pool_live (PoolAllocator_init 4096 6400 64)).
      rewrite Hlive. vm_compute. discriminate.
    + exact I.
  - exact Hf.
  - split; reflexivity.
  - constructor; [split; reflexivity|constructor].
  - reflexivity.
  - reflexivity.
  - reflexivity.
  - vm_compute. discriminate.
  - split; [exact Hf2|]. split; [reflexivity|]. split; [reflexivity|]. split; [reflexivity|].
    split; [reflexivity|]. split; [vm_compute; split; discriminate|]. split; [reflexivity|]. by left.
  - vm_compute. discriminate.
  - exists out, a', l', perf'. split; [exact E|].
    replace (add_bytes (crc_base_ example_listener) (transfer_payload [f; f2]) =? frame_crc (rx_frame f))
      with true in Hout by (vm_compute; reflexivity).
    destruct Hout as (t & -> & _ & Hread). exists t. split; [reflexivity|].
    rewrite Hread by lia. vm_compute. reflexivity.
Defined.

(** What a failed CRC check leaves behind: a listener that has just dropped a
    nine-byte transfer over its CRC also drops the next, correct transfer of
    seven bytes, which a fresh listener delivers: the buffer of the failed
    transfer is not removed, and its last two bytes are taken into the CRC of
    the shorter transfer that is written over it. *)
Example crc_error_spoils_next_transfer :
  let pool := PoolAllocator_init 4096 6400 64 in
  let bad := [example_frame [0; 0; 9; 9; 9; 9; 9] true false false 6 500 0;
              example_frame [9; 9; 9; 9] false true true 6 501 0] in
  let good := example_transfer example_crc 7 1000 in
  let run fs := let '(out, _, _, _) := Listener_handleFrames 64 64 64 2 (fun _ => replicate 56 0) pool
    example_listener (mkPerf 0 0 0) fs in length out in
  run good = 1%nat /\ run (bad ++ good) = 0%nat.
Proof. vm_compute. split; reflexivity. Qed.
