(* ===== verification/OutgoingTransferRegistry.v ===== *)
(** * OutgoingTransferRegistry: transfer IDs of outgoing transfers

    Models [libuavcan/include/uavcan/transport/outgoing_transfer_registry.hpp]
    and [src/transport/uc_outgoing_transfer_registry.cpp]: a pool map from data
    type, transfer type and destination to the next transfer ID and a deadline
    after which the entry may be dropped. *)

From stdpp Require Import gmap.
From S2P Require Import Prelude MonoTime Transfer LinkedList PoolAllocator PoolMap.
Local Open Scope Z_scope.

Record OutgoingTransferRegistryKey := mkOtrKey {
  otk_data_type_id_ : Z;
  otk_transfer_type_ : Z;
  otk_destination_node_id_ : Z
}.

#[global] Instance OtrKey_eq_dec : EqDecision OutgoingTransferRegistryKey.
Proof. solve_decision. Defined.

(** The default constructor. *)
Definition OtrKey_default : OutgoingTransferRegistryKey := mkOtrKey DataTypeID.default 0xFF NodeID.default.
(** [OutgoingTransferRegistryKey(DataTypeID, TransferType, NodeID)]. *)
Definition OtrKey_make (dtid : Z) (tt : TransferType) (dst : Z) : OutgoingTransferRegistryKey :=
  mkOtrKey dtid (u8 (TransferType_val tt)) dst.

(** [OutgoingTransferRegistry::Value]. *)
Record OtrValue := mkOtrValue { otv_deadline : Z; otv_tid : Z }.
Definition OtrValue_default : OtrValue := mkOtrValue 0 TransferID.default.

Definition OutgoingTransferRegistry : Type := @Map OutgoingTransferRegistryKey OtrValue.

Definition MinEntryLifetime : Z := Duration.fromMSec 2000.

Section otr.
Context {A : Type} `{IPoolAllocator A} (NumKV : nat) (sizeof_KVGroup : Z).

(** [TransferID* accessOrCreate(const OutgoingTransferRegistryKey&, MonotonicTime)]: the slot
    whose [tid] the pointer refers to. *)
Definition accessOrCreate (a : A) (reg : OutgoingTransferRegistry) (key : OutgoingTransferRegistryKey)
    (new_deadline : Z) : option SlotPtr * A * OutgoingTransferRegistry :=
  let '(p, a, reg) :=
    match Map_access reg key with
    | Some p => (Some p, a, reg)
    | None => Map_insert OtrKey_default OtrValue_default NumKV sizeof_KVGroup a reg key OtrValue_default
    end in
  match p with
  | None => (None, a, reg)
  | Some p =>
    match get_slot reg p with
    | Some (k, v) => (Some p, a, set_slot reg p (k, mkOtrValue new_deadline (otv_tid v)))
    | None => (None, a, reg)
    end
  end.

(** [bool exists(DataTypeID dtid, TransferType tt) const]. *)
Definition Otr_exists (reg : OutgoingTransferRegistry) (dtid : Z) (tt : TransferType) : bool :=
  match Map_find OtrKey_default
          (fun k _ => (dtid =? otk_data_type_id_ k) && (TransferType_val tt =? otk_transfer_type_ k)) reg with
  | Some _ => true
  | None => false
  end.

(** [void cleanup(MonotonicTime ts)]. *)
Definition Otr_cleanup (a : A) (reg : OutgoingTransferRegistry) (ts : Z) : A * OutgoingTransferRegistry :=
  removeAllWhere OtrKey_default OtrValue_default id (fun a _ => a)
    (fun a _ v => (otv_deadline v <=? ts, a)) a reg.

(** What the automatic [TransferSender::send] does with the registry: reads the
    transfer ID through the pointer and increments it. *)
Definition Otr_next (a : A) (reg : OutgoingTransferRegistry) (key : OutgoingTransferRegistryKey)
    (deadline : Z) : option Z * A * OutgoingTransferRegistry :=
  match accessOrCreate a reg key deadline with
  | (None, a, reg) => (None, a, reg)
  | (Some p, a, reg) =>
    match get_slot reg p with
    | Some (k, v) =>
      (Some (otv_tid v), a, set_slot reg p (k, mkOtrValue (otv_deadline v) (TransferID.increment (otv_tid v))))
    | None => (None, a, reg)
    end
  end.

(** A sequence of requests. *)
Fixpoint Otr_run (a : A) (reg : OutgoingTransferRegistry) (reqs : list (OutgoingTransferRegistryKey * Z))
    : list (option Z) * A * OutgoingTransferRegistry :=
  match reqs with
  | [] => ([], a, reg)
  | (k, d) :: reqs =>
    let '(t, a, reg) := Otr_next a reg k d in
    let '(ts, a, reg) := Otr_run a reg reqs in
    (t :: ts, a, reg)
  end.

End otr.

Section otr_ok.
Context {A : Type} `{PoolLaws A} (NumKV : nat) (HNum : (0 < NumKV)%nat) (sizeof_KVGroup : Z).

Abbreviation otr_entries m := (entries (Value := OtrValue) OtrKey_default m).

(** The stored value of a key. *)
Definition otr_lookup (reg : OutgoingTransferRegistry) (k : OutgoingTransferRegistryKey) : option OtrValue :=
  snd <$> List.find (fun kv : OutgoingTransferRegistryKey * OtrValue => bool_decide (kv.1 = k)) (otr_entries reg).

Lemma find_NoDup {X Y} `{EqDecision X} (l : list (X * Y)) k v :
  NoDup l.*1 -> (k, v) ∈ l -> List.find (fun kv => bool_decide (kv.1 = k)) l = Some (k, v).
Proof.
  induction l as [|[k' v'] l IH]; intros Hd Hin; [by apply elem_of_nil in Hin|].
  rewrite fmap_cons in Hd. apply NoDup_cons in Hd as [Hn Hd]. cbn [List.find fst] in *.
  apply elem_of_cons in Hin as [[= -> ->]|Hin]; [by rewrite bool_decide_true|].
  rewrite bool_decide_false; [auto|]. intros ->. apply Hn. by apply (list_elem_of_fmap_2 fst) in Hin.
Qed.

Lemma find_absent {X Y} `{EqDecision X} (l : list (X * Y)) k :
  k ∉ l.*1 -> List.find (fun kv => bool_decide (kv.1 = k)) l = None.
Proof.
  induction l as [|[k' v'] l IH]; intros Hn; [done|]. apply not_elem_of_cons in Hn as [Hne Hn].
  cbn [List.find fst] in *. rewrite bool_decide_false by congruence. auto.
Qed.

Lemma otr_lookup_Some a reg k v :
  Map_inv OtrKey_default NumKV a reg -> (k, v) ∈ otr_entries reg -> otr_lookup reg k = Some v.
Proof. intros Hm Hin. unfold otr_lookup. rewrite (find_NoDup _ k v); [done|apply Hm|done]. Qed.

Lemma otr_lookup_None reg k : k ∉ (otr_entries reg).*1 -> otr_lookup reg k = None.
Proof. intros Hn. unfold otr_lookup. by rewrite find_absent. Qed.

(** Lookups only see the pairs, not their order. *)
Lemma otr_lookup_perm a a' reg reg' k :
  Map_inv OtrKey_default NumKV a reg -> Map_inv OtrKey_default NumKV a' reg' ->
  (forall v, (k, v) ∈ otr_entries reg' <-> (k, v) ∈ otr_entries reg) -> otr_lookup reg' k = otr_lookup reg k.
Proof.
  intros Hm Hm' Hiff. destruct (decide (k ∈ (otr_entries reg).*1)) as [Hin|Hin].
  - apply list_elem_of_fmap in Hin as ([k' v] & -> & Hin). cbn [fst] in *.
    rewrite (otr_lookup_Some a reg k' v) by done. apply (otr_lookup_Some a'); [done|]. by apply Hiff.
  - rewrite (otr_lookup_None reg k Hin). apply otr_lookup_None. intros Hx. apply Hin.
    apply list_elem_of_fmap in Hx as ([k' v] & -> & Hx). cbn [fst] in *.
    apply Hiff in Hx. by apply (list_elem_of_fmap_2 fst) in Hx.
Qed.

(** One step of the registry as a function of the stored values. *)
Lemma Otr_next_ok a reg k d :
  Map_inv OtrKey_default NumKV a reg -> k <> OtrKey_default ->
  let '(t, a', reg') := Otr_next NumKV sizeof_KVGroup a reg k d in
  Map_inv OtrKey_default NumKV a' reg' /\ map_foreign a' reg' = map_foreign a reg /\
  (forall k', k' <> k -> otr_lookup reg' k' = otr_lookup reg k') /\
  match t with
  | Some t => t = otv_tid (default OtrValue_default (otr_lookup reg k)) /\
      otr_lookup reg' k = Some (mkOtrValue d (TransferID.increment t))
  | None => otr_lookup reg k = None /\ otr_lookup reg' k = None
  end.
Proof.
  intros Hm Hk. unfold Otr_next, accessOrCreate.
  assert (Hobt : let '(p, a1, reg1) := match Map_access reg k with
      | Some p => (Some p, a, reg)
      | None => Map_insert OtrKey_default OtrValue_default NumKV sizeof_KVGroup a reg k OtrValue_default
      end in
    Map_inv OtrKey_default NumKV a1 reg1 /\ map_foreign a1 reg1 = map_foreign a reg /\
    (forall k', k' <> k -> otr_lookup reg1 k' = otr_lookup reg k') /\
    match p with
    | Some s => exists v, Map_access reg1 k = Some s /\ get_slot reg1 s = Some (k, v) /\
        v = default OtrValue_default (otr_lookup reg k)
    | None => otr_lookup reg k = None /\ otr_lookup reg1 k = None
    end).
  { pose proof (Map_access_ok OtrKey_default NumKV a reg k Hm Hk) as Hacc.
    destruct (Map_access reg k) as [s|] eqn:Ea.
    - destruct Hacc as (v & Hg & Hin). split_and!; try done. exists v. split_and!; try done.
      by rewrite (otr_lookup_Some a reg k v).
    - pose proof (Map_insert_ok OtrKey_default OtrValue_default NumKV sizeof_KVGroup HNum a reg k
        OtrValue_default Hm Hk) as Hins.
      destruct (Map_insert _ _ _ _ _ _ _ _) as [[p a1] reg1]. destruct Hins as (Hm1 & Hf1 & Hres).
      rewrite without_notin in Hres by done.
      pose proof (otr_lookup_None reg k Hacc) as Hnone. destruct p as [s|].
      + destruct Hres as (Hen & Hg & Hfk). split_and!; try done.
        * intros k' Hne. apply (otr_lookup_perm a a1); try done. intros v. rewrite Hen, elem_of_cons.
          split; [intros [[= -> _]|]; done|by right].
        * exists OtrValue_default. by rewrite Hnone.
      + destruct Hres as (Hen & _). split_and!; try done.
        * intros k' Hne. apply (otr_lookup_perm a a1); try done. intros v. by rewrite Hen.
        * apply otr_lookup_None. by rewrite Hen. }
  destruct (match Map_access reg k with Some p => _ | None => _ end) as [[p a1] reg1].
  destruct Hobt as (Hm1 & Hf1 & Hoth & Hp). destruct p as [s|]; [|done].
  destruct Hp as (v & Hacc & Hg & Hv). rewrite Hg.
  destruct (Map_update_ok OtrKey_default NumKV HNum a1 reg1 k s v (mkOtrValue d (otv_tid v)) Hm1 Hk Hacc Hg)
    as (Hm2 & Ho2 & Hg2 & L & R & E1 & E2).
  rewrite Hg2. cbn [otv_tid otv_deadline].
  assert (Hacc2 : Map_access (set_slot reg1 s (k, mkOtrValue d (otv_tid v))) k = Some s).
  { unfold Map_access in *. apply findKey_update; [apply Hm1|done]. }
  destruct (Map_update_ok OtrKey_default NumKV HNum a1 _ k s _
    (mkOtrValue d (TransferID.increment (otv_tid v))) Hm2 Hk Hacc2 Hg2)
    as (Hm3 & Ho3 & Hg3 & L' & R' & E3 & E4).
  assert (Hmem : forall k' v', k' <> k ->
    (k', v') ∈ otr_entries (set_slot (set_slot reg1 s (k, mkOtrValue d (otv_tid v))) s
      (k, mkOtrValue d (TransferID.increment (otv_tid v)))) <-> (k', v') ∈ otr_entries reg1).
  { intros k' v' Hne. rewrite E4. transitivity ((k', v') ∈ L' ++ (k, mkOtrValue d (otv_tid v)) :: R').
    - rewrite !elem_of_app, !elem_of_cons. naive_solver.
    - rewrite <-E3, E2, E1, !elem_of_app, !elem_of_cons. naive_solver. }
  split_and!; try done.
  - unfold map_foreign in *. by rewrite Ho3, Ho2.
  - intros k' Hne. rewrite <-Hoth by done. apply (otr_lookup_perm a1 a1); try done. intros v'. by apply Hmem.
  - by rewrite Hv.
  - apply (otr_lookup_Some a1); [done|]. rewrite E4. apply elem_of_app. right. by left.
Qed.

(** The amount of granted requests for a key. *)
Definition granted (k : OutgoingTransferRegistryKey) (log : list ((OutgoingTransferRegistryKey * Z) * option Z))
    : nat :=
  length (filter (fun r => r.1.1 = k /\ r.2 <> None) log).

Lemma granted_cons k k0 d t log :
  granted k (((k0, d), t) :: log) = ((if decide (k0 = k /\ t <> None) then 1 else 0) + granted k log)%nat.
Proof. unfold granted. rewrite filter_cons. cbn [fst snd]. by destruct (decide _). Qed.

Lemma Otr_run_length a reg reqs :
  length (Otr_run NumKV sizeof_KVGroup a reg reqs).1.1 = length reqs.
Proof.
  revert a reg. induction reqs as [|[k d] reqs IH]; intros a reg; [done|]. cbn [Otr_run].
  destruct (Otr_next _ _ _ _ _ _) as [[t a1] reg1]. specialize (IH a1 reg1).
  destruct (Otr_run _ _ _ _ _) as [[ts a2] reg2]. cbn [fst length] in *. congruence.
Qed.

(** The next transfer ID of a key. *)
Definition next_tid (reg : OutgoingTransferRegistry) (k : OutgoingTransferRegistryKey) : Z :=
  otv_tid (default OtrValue_default (otr_lookup reg k)).

Lemma Otr_run_ok a reg reqs :
  Map_inv OtrKey_default NumKV a reg -> Forall (fun r => r.1 <> OtrKey_default) reqs ->
  (forall k, TransferID.wf (next_tid reg k)) ->
  let '(ts, a', reg') := Otr_run NumKV sizeof_KVGroup a reg reqs in
  Map_inv OtrKey_default NumKV a' reg' /\ map_foreign a' reg' = map_foreign a reg /\
  forall j k d t, reqs !! j = Some (k, d) -> ts !! j = Some (Some t) ->
    t = (next_tid reg k + Z.of_nat (granted k (take j (zip reqs ts)))) mod 32.
Proof.
  revert a reg. induction reqs as [|[k d] reqs IH]; intros a reg Hm Hk Hw; cbn [Otr_run].
  { split_and!; done. }
  apply Forall_cons in Hk as [Hk0 Hk]. cbn [fst] in Hk0.
  pose proof (Otr_next_ok a reg k d Hm Hk0) as Hn.
  destruct (Otr_next _ _ _ _ _ _) as [[t0 a1] reg1]. destruct Hn as (Hm1 & Hf1 & Ho & Ht0).
  assert (Hnext : forall k', next_tid reg1 k' =
    (next_tid reg k' + if decide (k = k' /\ t0 <> None) then 1 else 0) mod 32).
  { intros k'. pose proof (Hw k') as Hwk. apply tid_wf_iff in Hwk. unfold next_tid in *.
    destruct (decide (k' = k)) as [->|Hne].
    - destruct t0 as [t0|].
      + destruct Ht0 as [-> ->]. cbn [default otv_tid]. rewrite decide_True by done. apply increment_mod.
      + destruct Ht0 as [-> ->]. rewrite decide_False by tauto. done.
    - rewrite Ho, decide_False by (done || intros [? _]; congruence). rewrite Z.add_0_r, Z.mod_small; lia. }
  assert (Hw1 : forall k', TransferID.wf (next_tid reg1 k')).
  { intros k'. apply tid_wf_iff. rewrite Hnext. apply Z.mod_pos_bound. lia. }
  specialize (IH a1 reg1 Hm1 Hk Hw1). destruct (Otr_run _ _ _ _ _) as [[ts a2] reg2].
  destruct IH as (Hm2 & Hf2 & IH). split_and!; [done|congruence|].
  intros [|j] k' d' t Hr Ht; cbn in Hr, Ht.
  - injection Hr as -> ->. injection Ht as ->. destruct Ht0 as [-> _]. fold (next_tid reg k').
    pose proof (Hw k') as Hwk. apply tid_wf_iff in Hwk. cbn [take]. change (granted k' []) with 0%nat.
    rewrite Z.add_0_r, Z.mod_small; lia.
  - rewrite (IH j k' d' t Hr Ht), Hnext. cbn [zip zip_with take]. rewrite granted_cons.
    rewrite Zplus_mod_idemp_l. f_equal. destruct (decide _); lia.
Qed.

Lemma Otr_cleanup_ok a reg ts :
  Map_inv OtrKey_default NumKV a reg ->
  let '(a', reg') := Otr_cleanup a reg ts in
  Map_inv OtrKey_default NumKV a' reg' /\ map_foreign a' reg' = map_foreign a reg /\
  otr_entries reg' = filter (fun kv : OutgoingTransferRegistryKey * OtrValue => ~ otv_deadline kv.2 <= ts) (otr_entries reg).
Proof.
  intros Hm. unfold Otr_cleanup.
  assert (Hrun : forall es : list (OutgoingTransferRegistryKey * OtrValue),
    run_predicate (fun (a : A) (_ : OutgoingTransferRegistryKey) v => (otv_deadline v <=? ts, a)) a es =
    (a, filter (fun kv : OutgoingTransferRegistryKey * OtrValue => ~ otv_deadline kv.2 <= ts) es)).
  { induction es as [|[k v] es IHes]; [done|]. cbn [run_predicate snd]. rewrite IHes, filter_cons. cbn [snd].
    destruct (Z.leb_spec (otv_deadline v) ts).
    - by rewrite decide_False by lia.
    - by rewrite decide_True by lia. }
  pose proof (removeAllWhere_ok OtrKey_default OtrValue_default NumKV HNum id (fun a _ => a)
    (fun a _ v => (otv_deadline v <=? ts, a)) a reg a _ (fun _ _ => eq_refl) (mi_wf _ _ _ _ Hm)
    (Hrun _) (mi_pool _ _ _ _ Hm) (mi_live _ _ _ _ Hm)) as Hr.
  destruct (removeAllWhere _ _ _ _ _ _ _) as [a' reg']. destruct Hr as (? & ? & ? & _). done.
Qed.

(** For every series of requests, the transfer ID handed out for a key is the
    stored one advanced, modulo 32, by the amount of requests granted for that
    same key in between, whatever the other keys do and whatever allocations
    fail; all blocks held by others stay allocated. [cleanup()] drops exactly the
    entries whose deadline is reached, after which their count starts at zero. *)
Theorem outgoing_transfer_ids_are_consecutive a reg reqs ts0 :
  Map_inv OtrKey_default NumKV a reg -> Forall (fun r => r.1 <> OtrKey_default) reqs ->
  (forall k, TransferID.wf (next_tid reg k)) ->
  (let '(ts, a', reg') := Otr_run NumKV sizeof_KVGroup a reg reqs in
   Map_inv OtrKey_default NumKV a' reg' /\ map_foreign a' reg' = map_foreign a reg /\
   length ts = length reqs /\
   forall j k d t, reqs !! j = Some (k, d) -> ts !! j = Some (Some t) ->
     t = (next_tid reg k + Z.of_nat (granted k (take j (zip reqs ts)))) mod 32) /\
  (let '(a', reg') := Otr_cleanup a reg ts0 in
   Map_inv OtrKey_default NumKV a' reg' /\ map_foreign a' reg' = map_foreign a reg /\
   forall k, otr_lookup reg' k =
     match otr_lookup reg k with
     | Some v => if otv_deadline v <=? ts0 then None else Some v
     | None => None
     end).
Proof.
  intros Hm Hk Hw. split.
  - pose proof (Otr_run_ok a reg reqs Hm Hk Hw) as Hr. pose proof (Otr_run_length a reg reqs) as Hl.
    destruct (Otr_run _ _ _ _ _) as [[ts a'] reg']. destruct Hr as (? & ? & ?). done.
  - pose proof (Otr_cleanup_ok a reg ts0 Hm) as Hc. destruct (Otr_cleanup a reg ts0) as [a' reg'].
    destruct Hc as (Hm' & Hf' & He). split_and!; [done|done|]. intros k.
    destruct (decide (k ∈ (otr_entries reg).*1)) as [Hin|Hin].
    + apply list_elem_of_fmap in Hin as ([k' v] & -> & Hin). cbn [fst].
      rewrite (otr_lookup_Some a reg k' v Hm Hin). destruct (Z.leb_spec (otv_deadline v) ts0) as [Hle|Hgt].
      * apply otr_lookup_None. rewrite He. intros ([k2 v2] & -> & [Hd2 Hin2]%list_elem_of_filter)%list_elem_of_fmap.
        cbn [fst snd] in *. pose proof (otr_lookup_Some a reg k2 v Hm Hin) as E1.
        rewrite (otr_lookup_Some a reg k2 v2 Hm Hin2) in E1. injection E1 as ->. lia.
      * apply (otr_lookup_Some a'); [done|]. rewrite He. apply list_elem_of_filter. split; [cbn [snd]; lia|done].
    + rewrite (otr_lookup_None reg k Hin). apply otr_lookup_None. rewrite He.
      intros ([k2 v2] & -> & [_ Hin2]%list_elem_of_filter)%list_elem_of_fmap.
      apply Hin. by apply (list_elem_of_fmap_2 fst) in Hin2.
Qed.

End otr_ok.

(** Two keys of a fresh registry, interleaved. *)
Lemma outgoing_transfer_ids_are_consecutive_witness :
  let pool := PoolAllocator_init 4096 640 64 in
  let k1 := mkOtrKey 1000 2 0 in let k2 := mkOtrKey 20 1 42 in
  let reqs := [(k1, 5); (k2, 6); (k1, 7); (k1, 8)] in
  (Otr_run 3 64 pool [] reqs).1.1 !! 3%nat = Some (Some 2) /\
  2 = (0 + Z.of_nat (granted k1 (take 3 (zip reqs (Otr_run 3 64 pool [] reqs).1.1)))) mod 32.
Proof.
  intros pool k1 k2 reqs.
  assert (Hinv : Map_inv (Value := OtrValue) OtrKey_default 3 pool []).
  { split; [exact (proj1 (PoolAllocator_init_ok 4096 640 64 eq_refl eq_refl
      ltac:(vm_compute; split; done)))|by intros p Hp%elem_of_nil|].
    split; constructor. }
  assert (Hk : Forall (fun r : OutgoingTransferRegistryKey * Z => r.1 <> OtrKey_default) reqs)
    by (repeat constructor; discriminate).
  assert (H3 : (Otr_run 3 64 pool [] reqs).1.1 !! 3%nat = Some (Some 2)) by (vm_compute; reflexivity).
  split; [exact H3|].
  pose proof (outgoing_transfer_ids_are_consecutive 3 ltac:(lia) 64 pool [] reqs 0 Hinv Hk
    ltac:(intros k; apply tid_wf_iff; vm_compute; split; [discriminate|reflexivity])) as [Hr _].
  destruct (Otr_run 3 64 pool [] reqs) as [[ts a'] reg']. destruct Hr as (_ & _ & _ & Hr).
  exact (Hr 3%nat k1 8 2 eq_refl H3).
Defined.
