(* ===== verification/CanTxQueue.v ===== *)
(** * CanTxQueue: the prioritised transmission queue

    Models [CanTxQueue] of [libuavcan/include/uavcan/transport/can_io.hpp] and
    [src/transport/uc_can_io.cpp]: an intrusive list of entries that live in
    pool blocks, kept in bus priority order. The list holds each entry with its
    address; the allocator (the queue's [LimitedPoolAllocator]) is passed along.
    [sysclock_.getMonotonic()] is read once per operation, its value is the
    argument [timestamp]. *)

From stdpp Require Import gmap sorting.
From S2P Require Import Prelude MonoTime CanFrame LinkedList PoolAllocator.
Local Open Scope Z_scope.

(** [CanTxQueue::Qos]. *)
Inductive Qos := Volatile | Persistent.
Definition Qos_val (q : Qos) : Z := match q with Volatile => 0 | Persistent => 1 end.

Module TxEntry.

(** [CanTxQueue::Entry]. *)
Record Entry := mkEntry {
  deadline : Z;
  frame : CanFrame;
  qos : Z;
  flags : Z
}.

(** [Entry::Entry]. *)
Definition make (arg_frame : CanFrame) (arg_deadline : Z) (arg_qos : Qos) (arg_flags : Z) : Entry :=
  mkEntry arg_deadline arg_frame (u8 (Qos_val arg_qos)) arg_flags.

(** [bool isExpired(MonotonicTime timestamp) const]. *)
Definition isExpired (e : Entry) (timestamp : Z) : bool := deadline e <? timestamp.

(** [bool Entry::qosHigherThan(const CanFrame&, Qos) const]. *)
Definition qosHigherThan (e : Entry) (rhs_frame : CanFrame) (rhs_qos : Z) : bool :=
  if negb (qos e =? rhs_qos) then rhs_qos <? qos e else priorityHigherThan (frame e) rhs_frame.

(** [bool Entry::qosLowerThan(const CanFrame&, Qos) const]. *)
Definition qosLowerThan (e : Entry) (rhs_frame : CanFrame) (rhs_qos : Z) : bool :=
  if negb (qos e =? rhs_qos) then qos e <? rhs_qos else priorityLowerThan (frame e) rhs_frame.

End TxEntry.
Import TxEntry.

Record CanTxQueue := mkTxQueue {
  queue_ : list (Z * Entry);
  rejected_frames_cnt_ : Z
}.

(** [CanTxQueue::CanTxQueue]. *)
Definition CanTxQueue_init : CanTxQueue := mkTxQueue [] 0.

(** [void CanTxQueue::registerRejectedFrame()]. *)
Definition registerRejectedFrame (q : CanTxQueue) : CanTxQueue :=
  if rejected_frames_cnt_ q <? 0xFFFFFFFF
  then mkTxQueue (queue_ q) (u32 (rejected_frames_cnt_ q + 1)) else q.

(** [bool isEmpty() const]. *)
Definition TxQueue_isEmpty (q : CanTxQueue) : bool :=
  match queue_ q with [] => true | _ => false end.

(** [const CanFrame* getTopPriorityPendingFrame() const]. *)
Definition getTopPriorityPendingFrame (q : CanTxQueue) : option CanFrame :=
  match queue_ q with [] => None | (_, e) :: _ => Some (frame e) end.

(** [bool topPriorityHigherOrEqual(const CanFrame&) const]. *)
Definition topPriorityHigherOrEqual (q : CanTxQueue) (rhs_frame : CanFrame) : bool :=
  match queue_ q with
  | [] => false
  | (_, e) :: _ => negb (priorityHigherThan rhs_frame (frame e))
  end.

Section queue.
Context {L : Type} `{IPoolAllocator L} (sizeof_Entry : Z).

(** [void CanTxQueue::remove(Entry*& entry)], with [Entry::destroy]. *)
Definition TxQueue_remove (l : L) (q : CanTxQueue) (entry : Z) : L * CanTxQueue :=
  if entry =? 0 then (l, q)
  else (deallocate l entry,
        mkTxQueue (remove_first (fun pe => entry =? pe.1) (queue_ q)) (rejected_frames_cnt_ q)).

(** [CanTxQueue::~CanTxQueue()]: the loop from node [p] on. *)
Fixpoint TxQueue_destroy_loop (l : L) (q : CanTxQueue) (p : list (Z * Entry)) : L * CanTxQueue :=
  match p with
  | [] => (l, q)
  | (a, _) :: next => let '(l, q) := TxQueue_remove l q a in TxQueue_destroy_loop l q next
  end.

Definition TxQueue_destroy (l : L) (q : CanTxQueue) : L * CanTxQueue := TxQueue_destroy_loop l q (queue_ q).

(** The loop of [push] that removes the expired entries, from node [p] on. *)
Fixpoint push_cleanup (l : L) (q : CanTxQueue) (timestamp : Z) (p : list (Z * Entry)) : L * CanTxQueue :=
  match p with
  | [] => (l, q)
  | (a, e) :: next =>
    let '(l, q) :=
      if isExpired e timestamp then TxQueue_remove l (registerRejectedFrame q) a else (l, q) in
    push_cleanup l q timestamp next
  end.

(** The loop of [push] that finds the entry of the lowest QoS. *)
Fixpoint push_lowest (lowestqos : Z * Entry) (p : list (Z * Entry)) : Z * Entry :=
  match p with
  | [] => lowestqos
  | x :: next =>
    push_lowest (if qosHigherThan lowestqos.2 (frame x.2) (qos x.2) then x else lowestqos) next
  end.

(** The end of [push]: the entry is constructed and linked. *)
Definition push_insert (q : CanTxQueue) (praw : Z) (new : Entry) : CanTxQueue :=
  mkTxQueue (insert_before (fun pe => priorityHigherThan (frame new) (frame pe.2)) (praw, new) (queue_ q))
    (rejected_frames_cnt_ q).

(** [void CanTxQueue::push(const CanFrame&, MonotonicTime, Qos, CanIOFlags)]. *)
Definition push (l : L) (q : CanTxQueue) (frame : CanFrame) (tx_deadline : Z) (qos : Qos) (flags : Z)
    (timestamp : Z) : L * CanTxQueue :=
  if tx_deadline <=? timestamp then (l, registerRejectedFrame q)
  else
    let '(praw, l) := allocate l sizeof_Entry in
    let '(praw, l, q) :=
      match praw with
      | Some _ => (praw, l, q)
      | None =>
        let '(l, q) := push_cleanup l q timestamp (queue_ q) in
        let '(praw, l) := allocate l sizeof_Entry in (praw, l, q)
      end in
    match praw with
    | Some p => (l, push_insert q p (make frame tx_deadline qos flags))
    | None =>
      let q := registerRejectedFrame q in
      match queue_ q with
      | [] => (l, q)
      | p :: rest =>
        let lowestqos := push_lowest p (p :: rest) in
        if qosHigherThan lowestqos.2 frame (Qos_val qos) then (l, q)
        else
          let '(l, q) := TxQueue_remove l q lowestqos.1 in
          let '(praw, l) := allocate l sizeof_Entry in
          match praw with
          | None => (l, q)
          | Some p => (l, push_insert q p (make frame tx_deadline qos flags))
          end
      end
    end.

(** The loop of [peek], from node [p] on. *)
Fixpoint peek_loop (l : L) (q : CanTxQueue) (timestamp : Z) (p : list (Z * Entry))
    : option (Z * Entry) * L * CanTxQueue :=
  match p with
  | [] => (None, l, q)
  | (a, e) :: next =>
    if isExpired e timestamp then
      let '(l, q) := TxQueue_remove l (registerRejectedFrame q) a in peek_loop l q timestamp next
    else (Some (a, e), l, q)
  end.

(** [CanTxQueue::Entry* CanTxQueue::peek()]. *)
Definition peek (l : L) (q : CanTxQueue) (timestamp : Z) : option (Z * Entry) * L * CanTxQueue :=
  peek_loop l q timestamp (queue_ q).

End queue.

(** ** The order *)

(** A number that orders entries by quality of service, then by bus priority. *)
Definition qos_rank (qos : Z) (f : CanFrame) : Z := qos * 2 ^ 33 - arbitration_field f.

Lemma arbitration_range f : CanFrame_wf f -> 0 <= arbitration_field f < 2 ^ 33.
Proof.
  intros Hf. pose proof (clean_id_range f) as Hr. pose proof (cwf_std f Hf) as Hs.
  unfold arbitration_field. rewrite Z.shiftr_div_pow2 by lia.
  generalize dependent (Z.land (can_id f) MaskExtID). intros x Hx Hs. unfold MaskStdID in Hs.
  pose proof (Z.div_mod x (2 ^ 18) ltac:(lia)). pose proof (Z.mod_pos_bound x (2 ^ 18) ltac:(lia)).
  destruct (isExtended f); [|specialize (Hs eq_refl)]; destruct (isRemoteTransmissionRequest f);
    change (Z.b2z true) with 1; change (Z.b2z false) with 0; lia.
Qed.

Lemma qosHigherThan_rank e f q :
  CanFrame_wf (frame e) -> CanFrame_wf f ->
  qosHigherThan e f q = (qos_rank q f <? qos_rank (qos e) (frame e)).
Proof.
  intros He Hf. unfold qosHigherThan, qos_rank. rewrite priority_arbitration by done.
  pose proof (arbitration_range _ He). pose proof (arbitration_range _ Hf).
  destruct (Z.eqb_spec (qos e) q) as [->|Hne]; cbn [negb]; lia.
Qed.

(** [a] may stand before [b] in the queue. *)
Definition goes_before (a b : Entry) : Prop := priorityHigherThan (frame b) (frame a) = false.

Lemma goes_before_field a b : CanFrame_wf (frame a) -> CanFrame_wf (frame b) ->
  goes_before a b <-> arbitration_field (frame a) <= arbitration_field (frame b).
Proof. intros Ha Hb. unfold goes_before. rewrite priority_arbitration by done. lia. Qed.

Lemma push_lowest_ok x p :
  Forall (fun y : Z * Entry => CanFrame_wf (frame y.2)) (x :: p) ->
  push_lowest x p ∈ x :: p /\
  Forall (fun y => qosHigherThan (push_lowest x p).2 (frame y.2) (qos y.2) = false) (x :: p).
Proof.
  revert x. induction p as [|y p IH]; intros x Hw; cbn [push_lowest].
  - apply Forall_cons in Hw as [Hx _]. split; [by left|]. repeat constructor.
    rewrite qosHigherThan_rank by done. lia.
  - apply Forall_cons in Hw as [Hx [Hy Hw]%Forall_cons].
    destruct (qosHigherThan x.2 (frame y.2) (qos y.2)) eqn:E.
    + destruct (IH y) as [Hin Hmin]; [by constructor|]. split; [set_solver|].
      constructor; [|done]. apply Forall_cons in Hmin as [Hmy Hmin].
      assert (Hwl : CanFrame_wf (frame (push_lowest y p).2)).
      { apply elem_of_cons in Hin as [->|Hin]; [done|]. rewrite Forall_forall in Hw. by apply Hw. }
      rewrite qosHigherThan_rank in * by done. lia.
    + destruct (IH x) as [Hin Hmin]; [by constructor|]. split; [set_solver|].
      apply Forall_cons in Hmin as [Hmx Hmin]. repeat (constructor; [|try done]); [done|].
      assert (Hwl : CanFrame_wf (frame (push_lowest x p).2)).
      { apply elem_of_cons in Hin as [->|Hin]; [done|]. rewrite Forall_forall in Hw. by apply Hw. }
      rewrite qosHigherThan_rank in * by done. lia.
Qed.

(** Insertion behind everything that may stand before the new entry. *)
Lemma insert_before_split {X} (f : X -> bool) x l :
  exists l1 l2, l = l1 ++ l2 /\ insert_before f x l = l1 ++ x :: l2 /\
    Forall (fun y => f y = false) l1 /\ (forall y l2', l2 = y :: l2' -> f y = true).
Proof.
  induction l as [|y l IH]; cbn [insert_before].
  - exists [], []. split_and!; try done.
  - destruct (f y) eqn:E.
    + exists [], (y :: l). split_and!; try done. by intros ? ? [= <- _].
    + destruct IH as (l1 & l2 & -> & -> & H1 & H2). exists (y :: l1), l2. split_and!; try done. by constructor.
Qed.

Lemma remove_first_keyed {X} (l1 l2 : list (Z * X)) p x :
  p ∉ l1.*1 -> remove_first (fun pe => p =? pe.1) (l1 ++ (p, x) :: l2) = l1 ++ l2.
Proof.
  induction l1 as [|[q y] l1 IH]; intros Hn; cbn [app remove_first fst].
  - by rewrite Z.eqb_refl.
  - apply not_elem_of_cons in Hn as [Hne Hn]. cbn [fst] in Hne.
    destruct (Z.eqb_spec p q); [done|]. by rewrite IH.
Qed.

(** ** The invariant *)

Definition tx_owned (q : CanTxQueue) : list Z := (queue_ q).*1.
Abbreviation tx_entries q := (queue_ q).*2.

Record TxQueue_wf (q : CanTxQueue) : Prop := {
  tw_addr : NoDup (tx_owned q);
  tw_null : 0 ∉ tx_owned q;
  tw_frames : Forall (fun e => CanFrame_wf (frame e)) (tx_entries q);
  tw_sorted : StronglySorted goes_before (tx_entries q);
  tw_cnt : is_u32 (rejected_frames_cnt_ q)
}.

(** [k] more rejections, saturated. *)
Definition rejections (q : CanTxQueue) (k : nat) : Z :=
  Z.min (rejected_frames_cnt_ q + Z.of_nat k) 0xFFFFFFFF.

Lemma register_ok q : is_u32 (rejected_frames_cnt_ q) ->
  queue_ (registerRejectedFrame q) = queue_ q /\
  rejected_frames_cnt_ (registerRejectedFrame q) = rejections q 1.
Proof.
  intros Hc. unfold registerRejectedFrame, rejections. destruct (Z.ltb_spec (rejected_frames_cnt_ q) 0xFFFFFFFF).
  - cbn [queue_ rejected_frames_cnt_]. rewrite wrap_small by (destruct Hc; split; lia). split; [done|]. lia.
  - split; [done|]. destruct Hc. lia.
Qed.

Lemma rejections_u32 q k : is_u32 (rejected_frames_cnt_ q) -> is_u32 (rejections q k).
Proof. intros [? ?]. unfold rejections. split; lia. Qed.

Lemma register_wf q : TxQueue_wf q -> TxQueue_wf (registerRejectedFrame q).
Proof.
  intros [H1 H2 H3 H4 H5]. destruct (register_ok q H5) as [Hq Hc].
  split; unfold tx_owned; rewrite ?Hq, ?Hc; try done. by apply rejections_u32.
Qed.

Lemma Forall_sublist {X} (P : X -> Prop) l l' : l' `sublist_of` l -> Forall P l -> Forall P l'.
Proof. intros Hs. rewrite !Forall_forall. intros Hl x Hx. apply Hl. by eapply elem_of_sublist. Qed.

Lemma StronglySorted_sublist {X} (R : X -> X -> Prop) l l' :
  l' `sublist_of` l -> StronglySorted R l -> StronglySorted R l'.
Proof.
  induction 1 as [|x l l' Hs IH|x l l' Hs IH]; intros HS; [done| |].
  - apply StronglySorted_inv in HS as [HS Hf]. constructor; [auto|]. by eapply Forall_sublist.
  - apply StronglySorted_inv in HS as [HS _]. auto.
Qed.

Section queue_laws.
Context {L : Type} `{PoolLaws L} (sizeof_Entry : Z).

Definition tx_foreign (l : L) (q : CanTxQueue) : gset Z := live l ∖ list_to_set (tx_owned q).

Lemma elem_of_tx_foreign l q p : p ∈ tx_foreign l q <-> p ∈ live l /\ p ∉ tx_owned q.
Proof. unfold tx_foreign. by rewrite elem_of_difference, elem_of_list_to_set. Qed.

Record TxQueue_inv (l : L) (q : CanTxQueue) : Prop := {
  tq_pool : pool_inv l;
  tq_live : forall p, p ∈ tx_owned q -> p ∈ live l;
  tq_wf : TxQueue_wf q
}.

(** Any sublist of the entries, in the same order, keeps the queue well-formed. *)
Lemma TxQueue_wf_sublist q es c :
  TxQueue_wf q -> es `sublist_of` queue_ q -> is_u32 c -> TxQueue_wf (mkTxQueue es c).
Proof.
  intros [H1 H2 H3 H4 H5] Hs Hc.
  assert (Hs1 : es.*1 `sublist_of` (queue_ q).*1) by by apply fmap_sublist.
  assert (Hs2 : es.*2 `sublist_of` (queue_ q).*2) by by apply fmap_sublist.
  split; unfold tx_owned in *; cbn [queue_ rejected_frames_cnt_]; try done.
  - by eapply sublist_NoDup.
  - intros Hin. apply H2. by eapply elem_of_sublist.
  - by eapply Forall_sublist.
  - by eapply StronglySorted_sublist.
Qed.

Lemma register_inv l q : TxQueue_inv l q ->
  TxQueue_inv l (registerRejectedFrame q) /\ tx_foreign l (registerRejectedFrame q) = tx_foreign l q.
Proof.
  intros [H1 H2 H3]. destruct (register_ok q (tw_cnt q H3)) as [Hq _].
  unfold tx_foreign, tx_owned in *. rewrite Hq. split; [|done]. split; unfold tx_owned; rewrite ?Hq; try done.
  by apply register_wf.
Qed.

Lemma TxQueue_remove_ok l q l1 p e l2 :
  TxQueue_inv l q -> queue_ q = l1 ++ (p, e) :: l2 ->
  let '(l', q') := TxQueue_remove l q p in
  TxQueue_inv l' q' /\ tx_foreign l' q' = tx_foreign l q /\ queue_ q' = l1 ++ l2 /\
  rejected_frames_cnt_ q' = rejected_frames_cnt_ q.
Proof.
  intros [H1 H2 H3] Hq. pose proof (tw_addr q H3) as Hd. pose proof (tw_null q H3) as Hz.
  unfold tx_foreign, tx_owned in *. rewrite Hq, fmap_app, fmap_cons in *. cbn [fst] in *.
  apply NoDup_app in Hd as (Hd1 & Hdx & [Hp Hd2]%NoDup_cons).
  assert (Hpl : p ∈ live l) by (apply H2; set_solver).
  assert (Hp1 : p ∉ l1.*1) by (intros Hin; apply (Hdx p Hin); by left).
  unfold TxQueue_remove. destruct (Z.eqb_spec p 0) as [->|_]; [set_solver|].
  rewrite Hq, remove_first_keyed by done. cbn [queue_ rejected_frames_cnt_].
  destruct (deallocate_live l p H1 Hpl) as [Hlive Hinv]. rewrite Hlive, fmap_app. split_and!; try done.
  - split; [done| |].
    + unfold tx_owned. cbn [queue_]. rewrite fmap_app, Hlive. intros x Hx.
      apply elem_of_difference. split; [apply H2; set_solver|]. set_solver.
    + apply (TxQueue_wf_sublist q); [done| |apply H3]. rewrite Hq. apply sublist_app; [done|]. by apply sublist_cons.
  - rewrite !list_to_set_app_L, list_to_set_cons. set_solver.
Qed.

Abbreviation unexpired ts := (fun pe : Z * Entry => isExpired pe.2 ts = false).

Lemma push_cleanup_ok l q ts l1 l2 :
  TxQueue_inv l q -> queue_ q = l1 ++ l2 ->
  let '(l', q') := push_cleanup l q ts l2 in
  TxQueue_inv l' q' /\ tx_foreign l' q' = tx_foreign l q /\
  queue_ q' = l1 ++ filter (unexpired ts) l2 /\
  rejected_frames_cnt_ q' = rejections q (length l2 - length (filter (unexpired ts) l2)).
Proof.
  revert l q l1. induction l2 as [|[p e] l2 IH]; intros l q l1 Hi Hq; cbn [push_cleanup].
  - split_and!; try done. unfold rejections. pose proof (tw_cnt q (tq_wf _ _ Hi)) as [? ?]. cbn. lia.
  - rewrite filter_cons. cbn [snd]. destruct (isExpired e ts) eqn:E.
    + rewrite decide_False by done.
      pose proof (tw_cnt q (tq_wf _ _ Hi)) as Hu. destruct (register_ok q Hu) as [Hrq Hrc].
      destruct (register_inv l q Hi) as [Hri Hrf].
      pose proof (TxQueue_remove_ok l (registerRejectedFrame q) l1 p e l2 Hri ltac:(congruence)) as Hr.
      destruct (TxQueue_remove l (registerRejectedFrame q) p) as [l' q']. destruct Hr as (Hi' & Hf' & Hq' & Hc').
      specialize (IH l' q' l1 Hi' Hq'). destruct (push_cleanup l' q' ts l2) as [l'' q''].
      destruct IH as (Hi'' & Hf'' & Hq'' & Hc''). split_and!; try done; [congruence|].
      rewrite Hc''. unfold rejections in *. pose proof (length_filter (unexpired ts) l2). cbn [length]. lia.
    + rewrite decide_True by done. specialize (IH l q (l1 ++ [(p, e)]) Hi).
      rewrite <-!app_assoc in IH. specialize (IH Hq). destruct (push_cleanup l q ts l2) as [l'' q''].
      destruct IH as (Hi'' & Hf'' & Hq'' & Hc''). split_and!; try done.
Qed.

Lemma peek_loop_ok l q ts :
  TxQueue_inv l q ->
  let '(r, l', q') := peek_loop l q ts (queue_ q) in
  TxQueue_inv l' q' /\ tx_foreign l' q' = tx_foreign l q /\ r = head (queue_ q') /\
  exists gone, queue_ q = gone ++ queue_ q' /\ Forall (fun pe => isExpired pe.2 ts = true) gone /\
    (forall pe, r = Some pe -> isExpired pe.2 ts = false) /\
    rejected_frames_cnt_ q' = rejections q (length gone).
Proof.
  intros Hi. remember (queue_ q) as l2 eqn:Hq. symmetry in Hq. revert l q Hi Hq.
  induction l2 as [|[p e] l2 IH]; intros l q Hi Hq; cbn [peek_loop].
  - rewrite Hq. split_and!; try done. exists []. split_and!; try done.
    unfold rejections. pose proof (tw_cnt q (tq_wf _ _ Hi)) as [? ?]. cbn. lia.
  - destruct (isExpired e ts) eqn:E.
    + pose proof (tw_cnt q (tq_wf _ _ Hi)) as Hu. destruct (register_ok q Hu) as [Hrq Hrc].
      destruct (register_inv l q Hi) as [Hri Hrf].
      pose proof (TxQueue_remove_ok l (registerRejectedFrame q) [] p e l2 Hri ltac:(by rewrite Hrq)) as Hr.
      destruct (TxQueue_remove l (registerRejectedFrame q) p) as [l' q']. destruct Hr as (Hi' & Hf' & Hq' & Hc').
      specialize (IH l' q' Hi' Hq'). destruct (peek_loop l' q' ts l2) as [[r l''] q''].
      destruct IH as (Hi'' & Hf'' & Hr'' & gone & Hg & Hex & Hne & Hc''). split_and!; try done; [congruence|].
      exists ((p, e) :: gone). split_and!; try done; [cbn [app]; congruence|by constructor|].
      rewrite Hc''. unfold rejections in *. cbn [length]. lia.
    + rewrite Hq. split_and!; try done. exists []. split_and!; try done; [by intros pe [= <-]|].
      unfold rejections. pose proof (tw_cnt q (tq_wf _ _ Hi)) as [? ?]. cbn. lia.
Qed.

Lemma TxQueue_destroy_ok l q :
  TxQueue_inv l q ->
  let '(l', q') := TxQueue_destroy l q in
  queue_ q' = [] /\ pool_inv l' /\ live l' = tx_foreign l q.
Proof.
  intros Hi. unfold TxQueue_destroy.
  assert (Hloop : forall l2 l q, TxQueue_inv l q -> queue_ q = l2 ->
    let '(l', q') := TxQueue_destroy_loop l q l2 in
    TxQueue_inv l' q' /\ queue_ q' = [] /\ tx_foreign l' q' = tx_foreign l q).
  { clear l q Hi. induction l2 as [|[p e] l2 IH]; intros l q Hi Hq; cbn [TxQueue_destroy_loop]; [done|].
    pose proof (TxQueue_remove_ok l q [] p e l2 Hi Hq) as Hr.
    destruct (TxQueue_remove l q p) as [l' q']. destruct Hr as (Hi' & Hf' & Hq' & _).
    specialize (IH l' q' Hi' Hq'). destruct (TxQueue_destroy_loop l' q' l2) as [l'' q''].
    destruct IH as (? & ? & ?). split_and!; try done. congruence. }
  specialize (Hloop _ l q Hi eq_refl). destruct (TxQueue_destroy_loop l q (queue_ q)) as [l' q'].
  destruct Hloop as (Hi' & Hq' & Hf'). split_and!; [done|apply Hi'|].
  rewrite <-Hf'. unfold tx_foreign, tx_owned. rewrite Hq'. cbn. set_solver.
Qed.

(** The place of a new entry: behind the entries that may stand before it, in
    front of the entries of a lower priority. *)
Definition inserted (new : Entry) (es es' : list Entry) : Prop :=
  exists es1 es2, es = es1 ++ es2 /\ es' = es1 ++ new :: es2 /\
    Forall (fun e => goes_before e new) es1 /\
    Forall (fun e => priorityHigherThan (frame new) (frame e) = true) es2.

Lemma StronglySorted_middle {X} (R : X -> X -> Prop) l1 x l2 :
  StronglySorted R (l1 ++ l2) -> Forall (fun y => R y x) l1 -> Forall (R x) l2 ->
  StronglySorted R (l1 ++ x :: l2).
Proof.
  induction l1 as [|y l1 IH]; cbn [app]; intros HS H1 H2; [by constructor|].
  apply StronglySorted_inv in HS as [HS Hf]. apply Forall_cons in H1 as [Hyx H1].
  constructor; [auto|]. apply Forall_app in Hf as [Hf1 Hf2]. apply Forall_app. split; [done|]. by constructor.
Qed.

Lemma push_insert_ok l l' q p new :
  TxQueue_inv l q -> CanFrame_wf (frame new) -> allocate l sizeof_Entry = (Some p, l') ->
  TxQueue_inv l' (push_insert q p new) /\ tx_foreign l' (push_insert q p new) = tx_foreign l q /\
  inserted new (tx_entries q) (tx_entries (push_insert q p new)).
Proof.
  intros [H1 H2 H3] Hw Ha. apply allocate_some in Ha as (Hp0 & Hpl & Hlive & Hinv); [|done].
  unfold push_insert, tx_foreign, tx_owned, inserted in *. cbn [queue_].
  destruct (insert_before_split (fun pe : Z * Entry => priorityHigherThan (frame new) (frame pe.2)) (p, new)
    (queue_ q)) as (l1 & l2 & Hq & -> & Hl1 & Hl2).
  pose proof (tw_sorted q H3) as HS. pose proof (tw_frames q H3) as HF. pose proof (tw_addr q H3) as HA.
  pose proof (tw_null q H3) as HN. unfold tx_owned in HA, HN.
  rewrite Hq, !fmap_app in *. rewrite !fmap_cons. cbn [fst snd].
  apply Forall_app in HF as [HF1 HF2].
  assert (Hb1 : Forall (fun e => goes_before e new) l1.*2) by by apply Forall_fmap.
  assert (Hb2 : Forall (fun e => priorityHigherThan (frame new) (frame e) = true) l2.*2).
  { destruct l2 as [|[p2 e2] l2]; [constructor|]. specialize (Hl2 _ _ eq_refl). cbn [snd] in Hl2.
    rewrite fmap_cons in *. cbn [snd] in *. apply Forall_cons in HF2 as [HFe HF2]. constructor; [done|].
    assert (HS2 : StronglySorted goes_before (e2 :: l2.*2))
      by (eapply StronglySorted_sublist; [|exact HS]; by apply sublist_inserts_l).
    apply StronglySorted_inv in HS2 as [_ Hf]. rewrite Forall_forall in *. intros e He.
    specialize (Hf e He). apply goes_before_field in Hf; [|done|by apply HF2].
    rewrite priority_arbitration in * by (done || by apply HF2). lia. }
  assert (Hpn : p ∉ l1.*1 ++ l2.*1) by (intros Hin; apply Hpl, H2, Hin).
  split_and!.
  - split; [done| |].
    + unfold tx_owned. cbn [queue_]. rewrite fmap_app, fmap_cons, Hlive. cbn [fst]. set_solver.
    + split; unfold tx_owned; cbn [queue_ rejected_frames_cnt_]; rewrite ?fmap_app, ?fmap_cons; cbn [fst snd].
      * rewrite <-Permutation_middle. constructor; done.
      * set_solver.
      * apply Forall_app. split; [done|]. by constructor.
      * apply StronglySorted_middle; [done|done|]. rewrite Forall_forall in *. intros e He.
        specialize (Hb2 e He). specialize (HF2 e He). unfold goes_before.
        rewrite priority_arbitration in * by done. lia.
      * apply H3.
  - rewrite Hlive, !list_to_set_app_L, !list_to_set_cons. set_solver.
  - exists l1.*2, l2.*2. done.
Qed.

Lemma allocate_none_inv l l' q :
  TxQueue_inv l q -> allocate l sizeof_Entry = (None, l') ->
  TxQueue_inv l' q /\ tx_foreign l' q = tx_foreign l q.
Proof.
  intros [H1 H2 H3] Ha. apply allocate_none in Ha as [Hl Hi]; [|done].
  unfold tx_foreign. rewrite Hl. split; [|done]. split; [done|by rewrite Hl|done].
Qed.

(** What [push] has done with the entries it keeps after the cleanup. *)
Inductive push_arbitrated (new : Entry) (kept es' : list Entry) : Prop :=
  | push_replaced es1 victim es2 :
      kept = es1 ++ victim :: es2 ->
      Forall (fun e => qosHigherThan victim (frame e) (qos e) = false) kept ->
      qosHigherThan victim (frame new) (qos new) = false ->
      inserted new (es1 ++ es2) es' -> push_arbitrated new kept es'
  | push_rejected :
      es' = kept -> Forall (fun e => qosHigherThan e (frame new) (qos new) = true) kept ->
      push_arbitrated new kept es'.

(** The blocks of the expired entries, and the entries that are left without them. *)
Definition expired_blocks (q : CanTxQueue) (ts : Z) : list Z := fst <$> filter (fun pe : Z * Entry => isExpired pe.2 ts = true) (queue_ q).
Definition unexpired_entries (q : CanTxQueue) (ts : Z) : list Entry := filter (fun e => isExpired e ts = false) (tx_entries q).

(** What becomes of a frame that is not late, by what the pool answers: a first request, and a second one after the blocks of the expired entries were returned. *)
Definition push_result (new : Entry) (l : L) (q : CanTxQueue) (ts : Z) (es' : list Entry) : Prop :=
  match allocate l sizeof_Entry with
  | (Some _, _) => inserted new (tx_entries q) es'
  | (None, l1) =>
    match (allocate (foldl deallocate l1 (expired_blocks q ts)) sizeof_Entry).1 with
    | Some _ => inserted new (unexpired_entries q ts) es'
    | None => push_arbitrated new (unexpired_entries q ts) es'
    end
  end.

(** The part of [push] after the second failed allocation. *)
Lemma push_arbitration_ok `{!PoolRefill L sizeof_Entry} l q frm dl qs fl :
  TxQueue_inv l q -> CanFrame_wf frm ->
  let new := make frm dl qs fl in
  let '(l', q') :=
    let q := registerRejectedFrame q in
    match queue_ q with
    | [] => (l, q)
    | p :: rest =>
      let lowestqos := push_lowest p (p :: rest) in
      if qosHigherThan lowestqos.2 frm (Qos_val qs) then (l, q)
      else
        let '(l, q) := TxQueue_remove l q lowestqos.1 in
        let '(praw, l) := allocate l sizeof_Entry in
        match praw with
        | None => (l, q)
        | Some p => (l, push_insert q p new)
        end
    end in
  TxQueue_inv l' q' /\ tx_foreign l' q' = tx_foreign l q /\
  push_arbitrated new (tx_entries q) (tx_entries q') /\
  rejected_frames_cnt_ q' = rejections q 1 /\ length (queue_ q') = length (queue_ q).
Proof.
  intros Hi Hw new. cbn zeta. destruct (register_inv l q Hi) as [Hi1 Hf1].
  destruct (register_ok q (tw_cnt q (tq_wf _ _ Hi))) as [Hq1 Hc1].
  remember (registerRejectedFrame q) as q1 eqn:E1. clear E1. rewrite <-Hq1, <-Hf1, <-Hc1. clear Hq1 Hc1 Hf1 Hi q.
  assert (Hqos : qos new = Qos_val qs) by (by destruct qs).
  destruct (queue_ q1) as [|p0 rest] eqn:Eq.
  { rewrite Eq. split_and!; try done. apply push_rejected; [done|]. constructor. }
  assert (HF : Forall (fun y : Z * Entry => CanFrame_wf (frame y.2)) (p0 :: p0 :: rest)).
  { pose proof (tw_frames q1 (tq_wf _ _ Hi1)) as HF. rewrite Forall_fmap, Eq in HF.
    constructor; [|done]. by apply Forall_cons in HF as [? _]. }
  destruct (push_lowest_ok p0 (p0 :: rest) HF) as [Hin Hmin].
  apply Forall_cons in HF as [_ HF]. apply Forall_cons in Hmin as [_ Hmin].
  assert (Hin' : push_lowest p0 (p0 :: rest) ∈ p0 :: rest) by set_solver. clear Hin.
  destruct (push_lowest p0 (p0 :: rest)) as [a v]. cbn [fst snd] in *.
  assert (Hwv : CanFrame_wf (frame v)) by (rewrite Forall_forall in HF; by apply (HF (a, v))).
  destruct (qosHigherThan v frm (Qos_val qs)) eqn:Ev.
  - rewrite Eq. split_and!; try done. apply push_rejected; [done|]. rewrite Forall_fmap.
    rewrite Forall_forall in *. intros y Hy. specialize (Hmin y Hy). specialize (HF y Hy).
    cbn [compose]. change ((fun e => qosHigherThan e (frame new) (qos new) = true) y.2). cbn beta.
    rewrite Hqos. change (frame new) with frm. rewrite qosHigherThan_rank in * by done. lia.
  - rewrite <-Eq in Hin', Hmin |- *. apply list_elem_of_split in Hin' as (l1 & l2 & Hsplit).
    pose proof (TxQueue_remove_ok l q1 l1 a v l2 Hi1 Hsplit) as Hr.
    pose proof (allocate_refill (req := sizeof_Entry) l a (tq_pool _ _ Hi1)) as Hrefill.
    assert (Hal : a ∈ live l).
    { apply (tq_live _ _ Hi1). unfold tx_owned. rewrite Hsplit, fmap_app, fmap_cons. set_solver. }
    assert (Ha0 : a <> 0).
    { intros ->. apply (tw_null q1 (tq_wf _ _ Hi1)). unfold tx_owned. rewrite Hsplit, fmap_app, fmap_cons. set_solver. }
    specialize (Hrefill Hal). unfold TxQueue_remove in *. destruct (Z.eqb_spec a 0); [done|].
    destruct Hr as (Hi2 & Hf2 & Hq2 & Hc2).
    destruct (allocate (deallocate l a) sizeof_Entry) as [[p|] l'] eqn:Ea; [|done].
    remember (mkTxQueue (remove_first (fun pe => a =? pe.1) (queue_ q1)) (rejected_frames_cnt_ q1)) as q2 eqn:E2.
    clear E2. destruct (push_insert_ok _ l' q2 p new Hi2 Hw Ea) as (Hi3 & Hf3 & Hins).
    split_and!; try done; [congruence| |].
    + apply (push_replaced _ _ _ l1.*2 v l2.*2).
      * by rewrite Hsplit, fmap_app, fmap_cons.
      * by rewrite Forall_fmap.
      * by rewrite Hqos.
      * by rewrite Hq2, fmap_app in Hins.
    + unfold push_insert. cbn [queue_]. rewrite insert_before_perm. cbn [length]. rewrite Hq2, Hsplit, !length_app.
      cbn [length]. lia.
Qed.

(** The pool after the cleanup. *)
Lemma push_cleanup_pool l q ts p : 0 ∉ p.*1 -> (push_cleanup l q ts p).1 = foldl deallocate l (fst <$> filter (fun pe : Z * Entry => isExpired pe.2 ts = true) p).
Proof.
  revert l q. induction p as [|[a e] p IH]; intros l q Hz; [done|]. rewrite fmap_cons in Hz. apply not_elem_of_cons in Hz as [Ha Hz]. cbn [fst] in Ha.
  cbn [push_cleanup]. rewrite filter_cons. cbn [snd]. destruct (isExpired e ts) eqn:E.
  - rewrite decide_True by done. unfold TxQueue_remove. destruct (Z.eqb_spec a 0); [done|]. cbn [fmap list_fmap foldl fst]. by rewrite IH.
  - rewrite decide_False by done. by apply IH.
Qed.

Lemma push_ok `{!PoolRefill L sizeof_Entry} l q frm dl qs fl ts :
  TxQueue_inv l q -> CanFrame_wf frm ->
  let new := make frm dl qs fl in
  let '(l', q') := push sizeof_Entry l q frm dl qs fl ts in
  TxQueue_inv l' q' /\ tx_foreign l' q' = tx_foreign l q /\
  rejected_frames_cnt_ q' = rejections q (length (queue_ q) + 1 - length (queue_ q')) /\
  if dl <=? ts then queue_ q' = queue_ q else push_result new l q ts (tx_entries q').
Proof.
  intros Hi Hw new. unfold push, push_result. fold new. destruct (Z.leb_spec dl ts) as [Hdl|Hdl].
  { destruct (register_inv l q Hi) as [Hri Hrf]. destruct (register_ok q (tw_cnt q (tq_wf _ _ Hi))) as [Hq Hc].
    rewrite Hq, Hc. split_and!; try done. f_equal. lia. }
  pose proof (tw_cnt q (tq_wf _ _ Hi)) as Hcnt.
  assert (Hlen : forall p q, length (queue_ (push_insert q p new)) = S (length (queue_ q))).
  { intros p q0. unfold push_insert. cbn [queue_]. by rewrite insert_before_perm. }
  destruct (allocate l sizeof_Entry) as [[p|] l1] eqn:Ea.
  { destruct (push_insert_ok l l1 q p new Hi Hw Ea) as (Hi1 & Hf1 & Hins). split_and!; try done.
    rewrite Hlen. unfold rejections. cbn [push_insert rejected_frames_cnt_]. destruct Hcnt. lia. }
  destruct (allocate_none_inv l l1 q Hi Ea) as [Hi1 Hf1].
  pose proof (push_cleanup_ok l1 q ts [] (queue_ q) Hi1 eq_refl) as Hc.
  pose proof (push_cleanup_pool l1 q ts (queue_ q) (tw_null q (tq_wf _ _ Hi))) as Hp. fold (expired_blocks q ts) in Hp. rewrite <-Hp.
  destruct (push_cleanup l1 q ts (queue_ q)) as [l2 q2]. cbn [fst]. destruct Hc as (Hi2 & Hf2 & Hq2 & Hc2).
  cbn [app] in Hq2. rewrite <-Hq2 in Hc2.
  assert (Hkept : unexpired_entries q ts = tx_entries q2).
  { rewrite Hq2. unfold unexpired_entries. clear. induction (queue_ q) as [|[p e] es IH]; [done|]. rewrite fmap_cons, !filter_cons.
    cbn [snd]. destruct (decide _); [|done]. by rewrite fmap_cons, IH. }
  assert (Hle : (length (queue_ q2) <= length (queue_ q))%nat) by (rewrite Hq2; apply length_filter). rewrite Hkept.
  destruct (allocate l2 sizeof_Entry) as [[p|] l3] eqn:Eb; cbn [fst].
  { destruct (push_insert_ok l2 l3 q2 p new Hi2 Hw Eb) as (Hi3 & Hf3 & Hins). split_and!; [done|congruence| |done].
    rewrite Hlen. cbn [push_insert rejected_frames_cnt_]. rewrite Hc2. f_equal. lia. }
  destruct (allocate_none_inv l2 l3 q2 Hi2 Eb) as [Hi3 Hf3].
  pose proof (push_arbitration_ok l3 q2 frm dl qs fl Hi3 Hw) as Har. cbn zeta in Har. fold new in Har.
  destruct (match queue_ (registerRejectedFrame q2) with [] => _ | _ :: _ => _ end) as [l4 q4].
  destruct Har as (Hi4 & Hf4 & Hout & Hc4 & Hl4). split_and!; [done|congruence| |done].
  rewrite Hc4, Hl4. unfold rejections in *. rewrite Hc2. destruct Hcnt. lia.
Qed.

(** C32: [push] keeps the queue in bus priority order with the oldest first among
    equal priorities, owns exactly its entries' blocks and frees no other. A frame
    past its deadline is refused and changes nothing else. Otherwise, if the pool has a block, the frame is linked behind the entries
    of its priority or higher and no entry leaves. If it has none, exactly the expired entries leave; if the pool then has a block
    the frame is linked in; if it still has none, the frame replaces an entry of the lowest quality of
    service that is not above its own, or is refused because every entry ranks
    above it. Every frame that is not queued any more is counted as rejected, up to the limit of the counter. (The pool has a block after one was returned.) *)
Theorem tx_queue_push `{!PoolRefill L sizeof_Entry} l q frm dl qs fl ts :
  TxQueue_inv l q -> CanFrame_wf frm ->
  let new := make frm dl qs fl in
  let '(l', q') := push sizeof_Entry l q frm dl qs fl ts in
  TxQueue_inv l' q' /\ tx_foreign l' q' = tx_foreign l q /\
  rejected_frames_cnt_ q' = rejections q (length (queue_ q) + 1 - length (queue_ q')) /\
  if dl <=? ts then queue_ q' = queue_ q else push_result new l q ts (tx_entries q').
Proof. apply push_ok. Qed.

(** [peek] removes exactly the expired entries at the front of the queue,
    counts them as rejected and returns the first entry left, which is not
    expired; the destructor returns every block of the queue and no other. *)
Theorem tx_queue_peek l q ts :
  TxQueue_inv l q ->
  (let '(r, l', q') := peek l q ts in
   TxQueue_inv l' q' /\ tx_foreign l' q' = tx_foreign l q /\ r = head (queue_ q') /\
   exists gone, queue_ q = gone ++ queue_ q' /\ Forall (fun pe => isExpired pe.2 ts = true) gone /\
     (forall pe, r = Some pe -> isExpired pe.2 ts = false) /\
     rejected_frames_cnt_ q' = rejections q (length gone)) /\
  (let '(l', q') := TxQueue_destroy l q in
   queue_ q' = [] /\ pool_inv l' /\ live l' = tx_foreign l q).
Proof. intros Hi. split; [by apply peek_loop_ok|by apply TxQueue_destroy_ok]. Qed.

End queue_laws.

(** ** Witnesses *)

Definition example_tx_frame (id : Z) : CanFrame := mkCanFrame (0x80000000 + id) (replicate 8 0) 0.

Lemma example_tx_frames_wf : Forall (fun id => CanFrame_wf (example_tx_frame id)) [5; 6; 7].
Proof. repeat constructor; cbn; done. Qed.

(** Two blocks, three frames: the frame of the lowest priority is replaced. *)
Lemma tx_queue_push_witness :
  let l := Limited_init (PoolAllocator_init 4096 128 64) 2 in
  let '(l1, q1) := push 64 l CanTxQueue_init (example_tx_frame 5) 100 Volatile 0 10 in
  let '(l2, q2) := push 64 l1 q1 (example_tx_frame 7) 100 Volatile 0 11 in
  let '(l3, q3) := push 64 l2 q2 (example_tx_frame 6) 100 Volatile 0 12 in
  tx_entries q3 = [make (example_tx_frame 5) 100 Volatile 0; make (example_tx_frame 6) 100 Volatile 0] /\
  rejected_frames_cnt_ q3 = rejections q2 (length (queue_ q2) + 1 - length (queue_ q3)).
Proof.
  intros l.
  pose (laws := Pool_laws_at 4096 128 64). pose (refill := Pool_refill_at 4096 128 64 64 ltac:(lia)).
  assert (Hi : TxQueue_inv (H0 := Limited_laws (H0 := laws)) l CanTxQueue_init).
  { split.
    - split; [split; [exact (proj1 (PoolAllocator_init_ok 4096 128 64 eq_refl eq_refl
        ltac:(vm_compute; split; done)))|split_and!; reflexivity]|vm_compute; split; discriminate|].
      vm_compute. split; [done|discriminate].
    - by intros p Hp%elem_of_nil.
    - split; cbn; try constructor; try done. apply not_elem_of_nil. }
  pose proof example_tx_frames_wf as [W5 [W6 [W7 _]%Forall_cons]%Forall_cons]%Forall_cons.
  pose proof (tx_queue_push (H0 := Limited_laws (H0 := laws)) 64 (PoolRefill0 := Limited_refill (H0 := laws) 64 (PoolRefill0 := refill))
    l CanTxQueue_init (example_tx_frame 5) 100 Volatile 0 10 Hi W5) as P1.
  destruct (push 64 l CanTxQueue_init _ _ _ _ _) as [l1 q1] eqn:E1. destruct P1 as (Hi1 & _).
  pose proof (tx_queue_push (H0 := Limited_laws (H0 := laws)) 64 (PoolRefill0 := Limited_refill (H0 := laws) 64 (PoolRefill0 := refill))
    l1 q1 (example_tx_frame 7) 100 Volatile 0 11 Hi1 W7) as P2.
  destruct (push 64 l1 q1 _ _ _ _ _) as [l2 q2] eqn:E2. destruct P2 as (Hi2 & _).
  pose proof (tx_queue_push (H0 := Limited_laws (H0 := laws)) 64 (PoolRefill0 := Limited_refill (H0 := laws) 64 (PoolRefill0 := refill))
    l2 q2 (example_tx_frame 6) 100 Volatile 0 12 Hi2 W6) as P3.
  destruct (push 64 l2 q2 _ _ _ _ _) as [l3 q3] eqn:E3. destruct P3 as (_ & _ & Hc & _).
  split; [|exact Hc]. vm_compute in E1. injection E1 as <- <-. vm_compute in E2. injection E2 as <- <-.
  vm_compute in E3. injection E3 as <- <-. reflexivity.
Defined.

Lemma tx_queue_peek_witness :
  let pool := PoolAllocator_init 4096 128 64 in
  let '(l1, q1) := push 64 pool CanTxQueue_init (example_tx_frame 5) 20 Volatile 0 10 in
  let '(r, l2, q2) := peek l1 q1 21 in
  r = None /\ TxQueue_inv l2 q2 /\ rejected_frames_cnt_ q2 = 1.
Proof.
  intros pool.
  destruct (push 64 pool CanTxQueue_init (example_tx_frame 5) 20 Volatile 0 10) as [l1 q1] eqn:E1.
  assert (Hi : TxQueue_inv l1 q1).
  { assert (Hi0 : TxQueue_inv pool CanTxQueue_init).
    { split; [exact (proj1 (PoolAllocator_init_ok 4096 128 64 eq_refl eq_refl
        ltac:(vm_compute; split; done)))|by intros p Hp%elem_of_nil|].
      split; cbn; try constructor; try done. apply not_elem_of_nil. }
    pose proof example_tx_frames_wf as [W5 _]%Forall_cons. unfold push in E1.
    change (20 <=? 10) with false in E1. cbn iota in E1. destruct (allocate pool 64) as [[p|] l'] eqn:Ea; [|by vm_compute in Ea].
    injection E1 as <- <-.
    exact (proj1 (push_insert_ok 64 pool l' CanTxQueue_init p (make (example_tx_frame 5) 20 Volatile 0) Hi0 W5 Ea)). }
  pose proof (proj1 (tx_queue_peek l1 q1 21 Hi)) as Hp.
  destruct (peek l1 q1 21) as [[r l2] q2] eqn:E2. destruct Hp as (Hi2 & _).
  vm_compute in E1. injection E1 as <- <-. vm_compute in E2. injection E2 as <- <- <-. done.
Defined.

(** ** A consequence of the quota leak

    While the pool is exhausted every [push] takes quota without getting a block.
    Once the quota is used up and the queue is empty, every later [push] is
    refused and changes nothing but the counter, whatever memory is free. *)
Lemma tx_queue_starves {A} `{IPoolAllocator A} sz (l : LimitedPoolAllocator A) q frm dl qs fl ts :
  max_blocks_ l <= used_blocks_ l -> queue_ q = [] ->
  push sz l q frm dl qs fl ts = (l, registerRejectedFrame q).
Proof.
  intros Hl Hq. unfold push. destruct (dl <=? ts); [done|]. cbn. unfold Limited_allocate.
  destruct (Z.ltb_spec (used_blocks_ l) (max_blocks_ l)); [lia|].
  rewrite Hq. cbn [push_cleanup]. destruct (Z.ltb_spec (used_blocks_ l) (max_blocks_ l)); [lia|].
  replace (queue_ (registerRejectedFrame q)) with (queue_ q) by (unfold registerRejectedFrame; by case_match).
  by rewrite Hq.
Qed.

(** A pool of one block, taken by another user while one frame is pushed and
    given back afterwards: the queue (quota 2) refuses all frames from then on,
    with the whole pool free. *)
Example tx_queue_starves_after_exhaustion :
  let pool := (allocate (PoolAllocator_init 4096 64 64) 64).2 in
  let s := push 64 (Limited_init pool 2) CanTxQueue_init (example_tx_frame 5) 100 Persistent 0 10 in
  let l := mkLimited (deallocate (allocator_ s.1) 4096) (max_blocks_ s.1) (used_blocks_ s.1) in
  let q := s.2 in
  getNumFreeBlocks (allocator_ l) = 1 /\
  forall frm dl qs fl ts, push 64 l q frm dl qs fl ts = (l, registerRejectedFrame q).
Proof.
  pose (pool := (allocate (PoolAllocator_init 4096 64 64) 64).2).
  pose (s := push 64 (Limited_init pool 2) CanTxQueue_init (example_tx_frame 5) 100 Persistent 0 10).
  assert (Hs : getNumFreeBlocks (deallocate (allocator_ s.1) 4096) = 1 /\ max_blocks_ s.1 <= used_blocks_ s.1 /\
    queue_ s.2 = []) by (vm_compute; split_and!; done).
  destruct Hs as (Hf & Hu & Hq). subst pool.
  split; [exact Hf|]. intros. by apply tx_queue_starves.
Qed.
