(* ===== verification/CanIO.v ===== *)
(** * CanIO: the redundant CAN interface multiplexer

    Models [CanIOManager] of [libuavcan/include/uavcan/transport/can_io.hpp] and
    [src/transport/uc_can_io.cpp]. The driver and the clock are outside of the
    library: they are the operations of [CanPlatform] over a world [W], and a
    theorem that needs more of them than their types says so with a law. All
    transmission queues draw on one pool. [tx_log] is not in the code: it lists
    the calls of [ICanIface::send] so that theorems can talk about them. The
    two [while (true)] loops take fuel, [None] means that it ran out. *)

From stdpp Require Import gmap.
From S2P Require Import Prelude MonoTime CanFrame Frame LinkedList PoolAllocator CanTxQueue.
Import TxEntry.
Local Open Scope Z_scope.

Definition CanIOFlagLoopback : Z := 1.

Record CanSelectMasks := mkMasks { mask_read : Z; mask_write : Z }.

(** [ICanDriver], [ICanIface] and [ISystemClock]. [iface_receive] is given the
    output arguments and returns what it left in them. *)
Class CanPlatform (W : Type) := {
  getMonotonic : W -> Z * W;
  hasIface : W -> nat -> bool;
  drv_select : W -> CanSelectMasks -> list (option CanFrame) -> Z -> Z * CanSelectMasks * W;
  iface_send : W -> nat -> CanFrame -> Z -> Z -> Z * W;
  iface_receive : W -> nat -> CanRxFrame * Z -> Z * (CanRxFrame * Z) * W;
  iface_getErrorCount : W -> nat -> Z
}.

(** A call of [ICanIface::send]: [ev_direct] tells the frame given to
    [CanIOManager::send] from a queued one. *)
Record TxEvent := mkTxEvent {
  ev_iface : nat;
  ev_direct : bool;
  ev_frame : CanFrame;
  ev_deadline : Z;
  ev_flags : Z;
  ev_result : Z
}.

(** One element of [tx_queues_] with the quota of its allocator. *)
Record TxQueueSlot := mkSlot {
  slot_queue : CanTxQueue;
  slot_max_blocks_ : Z;
  slot_used_blocks_ : Z
}.

Record IfaceFrameCounters := mkCounters { frames_tx : Z; frames_rx : Z }.
Record CanIfacePerfCounters := mkPerf { perf_frames_tx : Z; perf_frames_rx : Z; perf_errors : Z }.

Record CanIOManager (W A : Type) := mkIO {
  io_world : W;
  io_pool : A;
  tx_queues_ : list TxQueueSlot;
  counters_ : list IfaceFrameCounters;
  num_ifaces_ : nat;
  tx_log : list TxEvent
}.
Arguments mkIO {W A}.
Arguments io_world {W A}.
Arguments io_pool {W A}.
Arguments tx_queues_ {W A}.
Arguments counters_ {W A}.
Arguments num_ifaces_ {W A}.
Arguments tx_log {W A}.

(** [mask & (1 << i)] as a condition. *)
Definition mask_bit (mask : Z) (i : nat) : bool := negb (Z.land mask (Z.shiftl 1 (Z.of_nat i)) =? 0).

Section io.
Context {W A : Type} `{CanPlatform W} `{IPoolAllocator A} (sizeof_Entry : Z).
Abbreviation IO := (CanIOManager W A).

Definition set_world (s : IO) (w : W) : IO :=
  mkIO w (io_pool s) (tx_queues_ s) (counters_ s) (num_ifaces_ s) (tx_log s).
Definition set_counters (s : IO) (c : list IfaceFrameCounters) : IO :=
  mkIO (io_world s) (io_pool s) (tx_queues_ s) c (num_ifaces_ s) (tx_log s).
Definition log_event (s : IO) (e : TxEvent) : IO :=
  mkIO (io_world s) (io_pool s) (tx_queues_ s) (counters_ s) (num_ifaces_ s) (tx_log s ++ [e]).

(** [sysclock_.getMonotonic()]. *)
Definition read_clock (s : IO) : Z * IO :=
  let '(t, w) := getMonotonic (io_world s) in (t, set_world s w).

(** Runs an operation on queue [i] with its allocator. *)
Definition with_queue {R} (s : IO) (i : nat) (dflt : R)
    (f : LimitedPoolAllocator A -> CanTxQueue -> R * LimitedPoolAllocator A * CanTxQueue) : R * IO :=
  match tx_queues_ s !! i with
  | None => (dflt, s)
  | Some slot =>
    let '(r, l, q) :=
      f (mkLimited (io_pool s) (slot_max_blocks_ slot) (slot_used_blocks_ slot)) (slot_queue slot) in
    (r, mkIO (io_world s) (allocator_ l) (<[i := mkSlot q (max_blocks_ l) (used_blocks_ l)]> (tx_queues_ s))
          (counters_ s) (num_ifaces_ s) (tx_log s))
  end.

Definition queue_at (s : IO) (i : nat) : CanTxQueue :=
  match tx_queues_ s !! i with Some slot => slot_queue slot | None => CanTxQueue_init end.

(** [CanIOManager::CanIOManager]; [None] is [handleFatalError]. *)
Definition CanIOManager_init (w : W) (a : A) (num_ifaces mem_blocks_per_iface : Z) : option IO :=
  if (num_ifaces <? 1) || (MaxCanIfaces <? num_ifaces) then None
  else
    let mem := if mem_blocks_per_iface =? 0
               then getBlockCapacity a / (num_ifaces + 1) + 1 else mem_blocks_per_iface in
    let l := Limited_init a mem in
    Some (mkIO w a (replicate (Z.to_nat num_ifaces) (mkSlot CanTxQueue_init (max_blocks_ l) (used_blocks_ l)))
            (replicate (Z.to_nat MaxCanIfaces) (mkCounters 0 0)) (Z.to_nat num_ifaces) []).

(** [int sendToIface(uint8_t, const CanFrame&, MonotonicTime, CanIOFlags)]. *)
Definition sendToIface (s : IO) (direct : bool) (i : nat) (frame : CanFrame) (tx_deadline flags : Z) : Z * IO :=
  if hasIface (io_world s) i then
    let '(res, w) := iface_send (io_world s) i frame tx_deadline flags in
    let s := log_event (set_world s w) (mkTxEvent i direct frame tx_deadline flags res) in
    let s := if 0 <? res
             then set_counters s (alter (fun c => mkCounters (u64 (frames_tx c + u32 res)) (frames_rx c)) i (counters_ s))
             else s in
    (res, s)
  else (- ErrLogic, s).

(** [int sendFromTxQueue(uint8_t iface_index)]. *)
Definition sendFromTxQueue (s : IO) (i : nat) : Z * IO :=
  let '(ts, s) := read_clock s in
  let '(entry, s) := with_queue s i None (fun l q => peek l q ts) in
  match entry with
  | None => (0, s)
  | Some (p, e) =>
    let '(res, s) := sendToIface s false i (frame e) (deadline e) (flags e) in
    if 0 <? res then
      let '(_, s) := with_queue s i tt (fun l q => let '(l, q) := TxQueue_remove l q p in (tt, l, q)) in
      (res, s)
    else (res, s)
  end.

(** [int callSelect(...)]. *)
Definition callSelect (s : IO) (masks : CanSelectMasks) (pending_tx : list (option CanFrame))
    (blocking_deadline : Z) : Z * CanSelectMasks * IO :=
  let '(res, out, w) := drv_select (io_world s) masks pending_tx blocking_deadline in
  let s := set_world s w in
  if res <? 0 then (- ErrDriver, out, s)
  else (res, mkMasks (Z.land (mask_read out) (mask_read masks)) (Z.land (mask_write out) (mask_write masks)), s).

(** [uint8_t makePendingTxMask() const]. *)
Definition makePendingTxMask (s : IO) : Z :=
  fold_left (fun write_mask i =>
      if TxQueue_isEmpty (queue_at s i) then write_mask
      else Z.lor write_mask (u8 (Z.shiftl 1 (Z.of_nat i))))
    (seq 0 (num_ifaces_ s)) 0.

(** [CanIfacePerfCounters getIfacePerfCounters(uint8_t iface_index) const]. *)
Definition getIfacePerfCounters (s : IO) (iface_index : nat) : CanIfacePerfCounters :=
  if negb (hasIface (io_world s) iface_index) || (MaxCanIfaces <=? Z.of_nat iface_index) then mkPerf 0 0 0
  else
    let c := default (mkCounters 0 0) (counters_ s !! iface_index) in
    mkPerf (frames_tx c) (frames_rx c)
      (u64 (iface_getErrorCount (io_world s) iface_index + rejected_frames_cnt_ (queue_at s iface_index))).

(** [pending_tx]: an array of [MaxCanIfaces] pointers, filled for the existing
    interfaces. *)
Definition pending_array (s : IO) (f : nat -> option CanFrame) : list (option CanFrame) :=
  (f <$> seq 0 (num_ifaces_ s)) ++ replicate (Z.to_nat MaxCanIfaces - num_ifaces_ s) None.

(** ** Transmission *)

(** The frames offered to the driver by [send]. *)
Definition send_pending (s : IO) (frame : CanFrame) (iface_mask : Z) : list (option CanFrame) :=
  pending_array s (fun i =>
    let q := queue_at s i in
    if mask_bit iface_mask i then
      if topPriorityHigherOrEqual q frame then getTopPriorityPendingFrame q else Some frame
    else getTopPriorityPendingFrame q).

(** The body of the transmission loop of [send] for interface [i]. *)
Definition send_iface (frame : CanFrame) (tx_deadline flags write_mask : Z) (i : nat)
    (st : Z * Z * IO) : Z * Z * IO :=
  let '(iface_mask, retval, s) := st in
  if negb (mask_bit write_mask i) then (iface_mask, retval, s)
  else
    let '(res, iface_mask, s) :=
      if mask_bit iface_mask i then
        let '(res, s) := if topPriorityHigherOrEqual (queue_at s i) frame then sendFromTxQueue s i else (0, s) in
        if res <=? 0 then
          let '(res, s) := sendToIface s true i frame tx_deadline flags in
          (res, (if 0 <? res then Z.land iface_mask (u8 (Z.lnot (Z.shiftl 1 (Z.of_nat i)))) else iface_mask), s)
        else (res, iface_mask, s)
      else
        let '(res, s) := sendFromTxQueue s i in (res, iface_mask, s) in
    (iface_mask, (if 0 <? res then retval + 1 else retval), s).

(** The last loop of [send]: the frame is queued where it was not sent. *)
Definition send_enqueue (frame : CanFrame) (tx_deadline : Z) (qos : Qos) (flags iface_mask : Z) (i : nat) (s : IO) : IO :=
  if mask_bit iface_mask i then
    let '(ts, s) := read_clock s in
    (with_queue s i tt (fun l q => let '(l, q) := push sizeof_Entry l q frame tx_deadline qos flags ts in (tt, l, q))).2
  else s.

(** The [while (true)] of [send]. *)
Fixpoint send_loop (fuel : nat) (frame : CanFrame) (tx_deadline blocking_deadline : Z) (qos : Qos) (flags : Z)
    (iface_mask retval : Z) (s : IO) : option (Z * IO) :=
  match fuel with
  | O => None
  | S fuel =>
    if iface_mask =? 0 then Some (retval, s)
    else
      let masks := mkMasks 0 (Z.lor iface_mask (makePendingTxMask s)) in
      let '(select_res, masks, s) := callSelect s masks (send_pending s frame iface_mask) blocking_deadline in
      if select_res <? 0 then Some (- ErrDriver, s)
      else
        let '(iface_mask, retval, s) :=
          fold_left (fun st i => send_iface frame tx_deadline flags (mask_write masks) i st)
            (seq 0 (num_ifaces_ s)) (iface_mask, retval, s) in
        let '(now, s) := read_clock s in
        let timed_out := blocking_deadline <=? now in
        if (mask_write masks =? 0) || timed_out then
          if negb timed_out
          then send_loop fuel frame tx_deadline blocking_deadline qos flags iface_mask retval s
          else Some (retval, fold_left (fun s i => send_enqueue frame tx_deadline qos flags iface_mask i s)
                               (seq 0 (num_ifaces_ s)) s)
        else send_loop fuel frame tx_deadline blocking_deadline qos flags iface_mask retval s
  end.

(** [int CanIOManager::send(...)]. *)
Definition IO_send (fuel : nat) (s : IO) (frame : CanFrame) (tx_deadline blocking_deadline iface_mask : Z)
    (qos : Qos) (flags : Z) : option (Z * IO) :=
  let all_ifaces_mask := u8 (Z.shiftl 1 (Z.of_nat (num_ifaces_ s)) - 1) in
  let iface_mask := Z.land iface_mask all_ifaces_mask in
  let blocking_deadline := if tx_deadline <? blocking_deadline then tx_deadline else blocking_deadline in
  send_loop fuel frame tx_deadline blocking_deadline qos flags iface_mask 0 s.

(** ** Reception *)

(** The read loop of [receive]: [inl] is a return, [inr] means that no frame
    was read. *)
Fixpoint receive_read (read_mask : Z) (ifaces : list nat) (out : CanRxFrame * Z) (s : IO)
    : (Z + unit) * (CanRxFrame * Z) * IO :=
  match ifaces with
  | [] => (inr tt, out, s)
  | i :: ifaces =>
    if mask_bit read_mask i then
      if negb (hasIface (io_world s) i) then receive_read read_mask ifaces out s
      else
        let '(res, out, w) := iface_receive (io_world s) i out in
        let s := set_world s w in
        if res =? 0 then receive_read read_mask ifaces out s
        else
          let '(f, out_flags) := out in
          let f := mkCanRxFrame (crx_frame f) (crx_ts_mono f) (crx_ts_utc f) (Z.of_nat i) in
          let s := if (0 <? res) && (Z.land out_flags CanIOFlagLoopback =? 0)
                   then set_counters s (alter (fun c => mkCounters (frames_tx c) (u64 (frames_rx c + 1))) i (counters_ s))
                   else s in
          (inl (if res <? 0 then - ErrDriver else res), (f, out_flags), s)
    else receive_read read_mask ifaces out s
  end.

(** The write loop of [receive]. *)
Definition receive_write (write_mask : Z) (s : IO) : IO :=
  fold_left (fun s i => if mask_bit write_mask i then (sendFromTxQueue s i).2 else s) (seq 0 (num_ifaces_ s)) s.

(** [int CanIOManager::receive(CanRxFrame&, MonotonicTime, CanIOFlags&)]. *)
Fixpoint IO_receive (fuel : nat) (s : IO) (out : CanRxFrame * Z) (blocking_deadline : Z)
    : option (Z * (CanRxFrame * Z) * IO) :=
  match fuel with
  | O => None
  | S fuel =>
    let masks := mkMasks (u8 (Z.shiftl 1 (Z.of_nat (num_ifaces_ s)) - 1)) (makePendingTxMask s) in
    let pending_tx := pending_array s (fun i => getTopPriorityPendingFrame (queue_at s i)) in
    let '(select_res, masks, s) := callSelect s masks pending_tx blocking_deadline in
    if select_res <? 0 then Some (- ErrDriver, out, s)
    else
      let s := receive_write (mask_write masks) s in
      let '(r, out, s) := receive_read (mask_read masks) (seq 0 (num_ifaces_ s)) out s in
      match r with
      | inl res => Some (res, out, s)
      | inr _ =>
        let '(now, s) := read_clock s in
        if blocking_deadline <=? now then Some (0, out, s) else IO_receive fuel s out blocking_deadline
      end
  end.

End io.

(** ** The invariant *)

(** A clock that is read only finitely many times before [deadline] passes. *)
Class ClockAdvances (W : Type) `{CanPlatform W} (deadline : Z) := {
  ticks : W -> nat;
  clock_ticks w : let '(t, w') := getMonotonic w in
    (ticks w' <= ticks w)%nat /\ (t < deadline -> (ticks w' < ticks w)%nat);
  select_ticks w m p d : let '(_, _, w') := drv_select w m p d in (ticks w' <= ticks w)%nat;
  send_ticks w i f d fl : let '(_, w') := iface_send w i f d fl in (ticks w' <= ticks w)%nat;
  receive_ticks w i o : let '(_, _, w') := iface_receive w i o in (ticks w' <= ticks w)%nat
}.

Lemma mask_bit_testbit m i : mask_bit m i = Z.testbit m (Z.of_nat i).
Proof.
  unfold mask_bit. destruct (Z.testbit m (Z.of_nat i)) eqn:E.
  - destruct (Z.eqb_spec (Z.land m (Z.shiftl 1 (Z.of_nat i))) 0) as [H0|]; [|done].
    assert (Hb : Z.testbit (Z.land m (Z.shiftl 1 (Z.of_nat i))) (Z.of_nat i) = false) by (by rewrite H0, Z.bits_0).
    rewrite Z.land_spec, E, Z.shiftl_spec, Z.sub_diag in Hb by lia. done.
  - replace (Z.land m (Z.shiftl 1 (Z.of_nat i))) with 0; [done|]. symmetry. apply Z.bits_inj'. intros k Hk.
    rewrite Z.land_spec, Z.bits_0, Z.shiftl_spec by lia.
    destruct (decide (k = Z.of_nat i)) as [->|Hne]; [by rewrite E|].
    replace (Z.testbit 1 (k - Z.of_nat i)) with false; [apply andb_false_r|]. symmetry.
    destruct (decide (k < Z.of_nat i)); [apply Z.testbit_neg_r; lia|].
    apply (in_width_testbit 1); [done|lia].
Qed.

(** Marking interface [i] transmitted. *)
Lemma mask_bit_clear m i j :
  (i < 8)%nat -> (j < 8)%nat ->
  mask_bit (Z.land m (u8 (Z.lnot (Z.shiftl 1 (Z.of_nat i))))) j = mask_bit m j && negb (i =? j)%nat.
Proof.
  intros Hi Hj. rewrite !mask_bit_testbit, Z.land_spec, in_width_wrap_testbit, Z.lnot_spec, Z.shiftl_spec by lia.
  destruct (Z.ltb_spec (Z.of_nat j) 8); [|lia]. cbn [andb]. f_equal. f_equal.
  destruct (Nat.eqb_spec i j) as [->|]; [by rewrite Z.sub_diag|].
  destruct (decide (j < i)%nat); [apply Z.testbit_neg_r; lia|]. apply (in_width_testbit 1); [done|lia].
Qed.

Section io_laws.
Context {W A : Type} `{CanPlatform W} `{PoolLaws A} (sizeof_Entry : Z).
Abbreviation IO := (CanIOManager W A).

Record slot_ok (a : A) (slot : TxQueueSlot) : Prop := {
  so_wf : TxQueue_wf (slot_queue slot);
  so_live : forall p, p ∈ tx_owned (slot_queue slot) -> p ∈ live a;
  so_quota : 0 <= slot_used_blocks_ slot <= slot_max_blocks_ slot;
  so_max : 0 < slot_max_blocks_ slot <= 0xFFFF
}.

(** Every queue is in order and owns its blocks; no block has two owners. *)
Record IO_inv (s : IO) : Prop := {
  io_pool_ok : pool_inv (io_pool s);
  io_num : (num_ifaces_ s <= 3)%nat;
  io_len : length (tx_queues_ s) = num_ifaces_ s;
  io_slots i slot : tx_queues_ s !! i = Some slot -> slot_ok (io_pool s) slot;
  io_disjoint i j si sj p : tx_queues_ s !! i = Some si -> tx_queues_ s !! j = Some sj ->
    p ∈ tx_owned (slot_queue si) -> p ∈ tx_owned (slot_queue sj) -> i = j;
  io_counters : length (counters_ s) = 3%nat;
  io_cnt_u64 : Forall (fun c => is_u64 (frames_tx c) /\ is_u64 (frames_rx c)) (counters_ s)
}.

(** Live blocks that no transmission queue holds. *)
Definition io_foreign (s : IO) (p : Z) : Prop :=
  p ∈ live (io_pool s) /\ forall i slot, tx_queues_ s !! i = Some slot -> p ∉ tx_owned (slot_queue slot).

Lemma queue_at_wf s i : IO_inv s -> TxQueue_wf (queue_at s i).
Proof.
  intros Hs. unfold queue_at. destruct (tx_queues_ s !! i) as [slot|] eqn:E; [by eapply so_wf, io_slots|].
  split; cbn; try constructor; try done. apply not_elem_of_nil.
Qed.

(** Running a queue operation that keeps the queue's invariant. *)
Lemma with_queue_ok {R} (s : IO) i dflt
    (f : LimitedPoolAllocator A -> CanTxQueue -> R * LimitedPoolAllocator A * CanTxQueue)
    (P : R -> CanTxQueue -> Prop) :
  (forall l, TxQueue_inv l (queue_at s i) -> let '(r, l', q') := f l (queue_at s i) in
    TxQueue_inv l' q' /\ tx_foreign l' q' = tx_foreign l (queue_at s i) /\ P r q') ->
  IO_inv s -> (i < num_ifaces_ s)%nat ->
  let '(r, s') := with_queue s i dflt f in
  IO_inv s' /\ (forall p, io_foreign s' p <-> io_foreign s p) /\
  P r (queue_at s' i) /\ (forall j, j <> i -> queue_at s' j = queue_at s j) /\
  io_world s' = io_world s /\ counters_ s' = counters_ s /\ num_ifaces_ s' = num_ifaces_ s /\ tx_log s' = tx_log s.
Proof.
  intros Hf Hs Hi. unfold with_queue, queue_at in *.
  destruct (lookup_lt_is_Some_2 (tx_queues_ s) i ltac:(rewrite io_len; done)) as [slot Es]. rewrite Es in *.
  pose proof (io_slots s Hs i slot Es) as [Hw Hl Hq Hm].
  specialize (Hf (mkLimited (io_pool s) (slot_max_blocks_ slot) (slot_used_blocks_ slot))).
  destruct (f _ _) as [[r l] q]. cbn [tx_queues_ io_world counters_ num_ifaces_ tx_log io_pool].
  destruct Hf as (Hi' & Hf' & HP). { split; [split; [apply Hs|done|done]|done|done]. }
  assert (Hlt : (i < length (tx_queues_ s))%nat) by (by rewrite io_len).
  assert (Hget : <[i := mkSlot q (max_blocks_ l) (used_blocks_ l)]> (tx_queues_ s) !! i =
    Some (mkSlot q (max_blocks_ l) (used_blocks_ l))) by by apply list_lookup_insert_eq.
  assert (Hother : forall j, j <> i -> <[i := mkSlot q (max_blocks_ l) (used_blocks_ l)]> (tx_queues_ s) !! j =
    tx_queues_ s !! j) by (intros; by apply list_lookup_insert_ne).
  (* the blocks of the other queues are foreign to this one *)
  assert (Hkeep : forall j sj p, j <> i -> tx_queues_ s !! j = Some sj -> p ∈ tx_owned (slot_queue sj) ->
    p ∈ tx_foreign l q).
  { intros j sj p Hj Ej Hp. rewrite Hf', elem_of_tx_foreign. split.
    - cbn. by apply (so_live _ _ (io_slots s Hs j sj Ej)).
    - intros Hp'. apply Hj. symmetry. by apply (io_disjoint s Hs i j slot sj p). }
  split_and!; try done.
  - destruct Hi' as [[Hp Hq' Hm'] Hl' Hw']. split; cbn [io_pool tx_queues_ num_ifaces_ counters_]; try apply Hs; [done|..].
    + rewrite length_insert. apply Hs.
    + intros j sj Ej. destruct (decide (j = i)) as [->|Hj].
      * rewrite Hget in Ej. injection Ej as <-. by split.
      * rewrite Hother in Ej by done. destruct (io_slots s Hs j sj Ej) as [? ? ? ?]. split; try done.
        intros p Hpj. specialize (Hkeep j sj p Hj Ej Hpj). apply elem_of_tx_foreign in Hkeep as [? _]. done.
    + intros j k sj sk p Ej Ek Hpj Hpk. destruct (decide (j = i)) as [->|Hj], (decide (k = i)) as [->|Hk]; try done.
      * rewrite Hget in Ej. injection Ej as <-. rewrite Hother in Ek by done.
        specialize (Hkeep k sk p Hk Ek Hpk). apply elem_of_tx_foreign in Hkeep as [_ Hn]. done.
      * rewrite Hget in Ek. injection Ek as <-. rewrite Hother in Ej by done.
        specialize (Hkeep j sj p Hj Ej Hpj). apply elem_of_tx_foreign in Hkeep as [_ Hn]. done.
      * rewrite Hother in Ej, Ek by done. by apply (io_disjoint s Hs j k sj sk p).
  - intros p. unfold io_foreign. cbn [io_pool tx_queues_].
    assert (Hfp : p ∈ tx_foreign l q <-> p ∈ live (io_pool s) /\ p ∉ tx_owned (slot_queue slot)).
    { by rewrite Hf', elem_of_tx_foreign. }
    rewrite elem_of_tx_foreign in Hfp. cbn in Hfp. split.
    + intros [Hp Hn]. specialize (Hn i _ Hget) as Hni. cbn in Hni. destruct (proj1 Hfp (conj Hp Hni)) as [Hp' Hni'].
      split; [done|]. intros j sj Ej. destruct (decide (j = i)) as [->|Hj]; [by simplify_eq|].
      apply (Hn j). by rewrite Hother.
    + intros [Hp Hn]. destruct (proj2 Hfp (conj Hp (Hn i slot Es))) as [Hp' Hni']. split; [done|].
      intros j sj Ej. destruct (decide (j = i)) as [->|Hj].
      * rewrite Hget in Ej. by injection Ej as <-.
      * rewrite Hother in Ej by done. by apply (Hn j).
  - by rewrite Hget.
  - intros j Hj. by rewrite Hother.
Qed.

(** ** How a queue changes while frames are sent *)

Definition event_key (ev : TxEvent) : CanFrame * Z * Z := (ev_frame ev, ev_deadline ev, ev_flags ev).
Definition entry_key (e : Entry) : CanFrame * Z * Z := (frame e, deadline e, flags e).

(** The queued frames interface [i] took. *)
Abbreviation queued_ok i := (fun ev : TxEvent => ev_iface ev = i /\ ev_direct ev = false /\ 0 < ev_result ev).
Abbreviation direct_ok i := (fun ev : TxEvent => ev_iface ev = i /\ ev_direct ev = true /\ 0 < ev_result ev).

(** The queue lost a prefix; the queued frames that were sent are among it, in
    its order, each with its own deadline and flags; nothing else was tried. *)
Definition iface_evolves (i : nat) (q q' : CanTxQueue) (new : list TxEvent) : Prop :=
  exists dropped, queue_ q = dropped ++ queue_ q' /\
    event_key <$> filter (queued_ok i) new `sublist_of` entry_key <$> dropped.*2 /\
    Forall (fun ev => ev_iface ev = i -> ev_direct ev = false -> event_key ev ∈ entry_key <$> tx_entries q) new.

(** The frames the transmission counter of interface [i] has counted. *)
Definition tx_total (i : nat) (new : list TxEvent) : Z :=
  foldr (fun ev n => (if (ev_iface ev =? i)%nat && (0 <? ev_result ev) then u32 (ev_result ev) else 0) + n) 0 new.
Definition tx_counter (s : IO) (i : nat) : Z := default 0 (frames_tx <$> counters_ s !! i).
Definition rx_counter (s : IO) (i : nat) : Z := default 0 (frames_rx <$> counters_ s !! i).

Record evolves (s s' : IO) (new : list TxEvent) : Prop := {
  ev_inv : IO_inv s';
  ev_foreign p : io_foreign s' p <-> io_foreign s p;
  ev_nifaces : num_ifaces_ s' = num_ifaces_ s;
  ev_log : tx_log s' = tx_log s ++ new;
  ev_ifaces i : iface_evolves i (queue_at s i) (queue_at s' i) new;
  ev_counter i : (i < 3)%nat -> tx_counter s' i = u64 (tx_counter s i + tx_total i new);
  ev_rx i : rx_counter s' i = rx_counter s i
}.

Lemma tx_counter_u64 s i : IO_inv s -> is_u64 (tx_counter s i).
Proof.
  intros Hs. unfold tx_counter. destruct (counters_ s !! i) as [c|] eqn:E; [|done].
  pose proof (io_cnt_u64 s Hs) as Hc. rewrite Forall_lookup in Hc. by apply (Hc i c E).
Qed.

Lemma iface_evolves_refl i q : iface_evolves i q q [].
Proof. exists []. split_and!; done. Qed.

Lemma evolves_refl s : IO_inv s -> evolves s s [].
Proof.
  intros Hs. split; try done.
  - by rewrite app_nil_r.
  - intros i. apply iface_evolves_refl.
  - intros i _. cbn. rewrite Z.add_0_r, wrap_small; [done|]. by apply tx_counter_u64.
Qed.

Lemma tx_total_app i l1 l2 : tx_total i (l1 ++ l2) = tx_total i l1 + tx_total i l2.
Proof. induction l1 as [|ev l1 IH]; cbn; [done|]. fold (tx_total i (l1 ++ l2)) (tx_total i l1). lia. Qed.

Lemma iface_evolves_trans i q1 q2 q3 n1 n2 :
  iface_evolves i q1 q2 n1 -> iface_evolves i q2 q3 n2 -> iface_evolves i q1 q3 (n1 ++ n2).
Proof.
  intros (d1 & E1 & S1 & F1) (d2 & E2 & S2 & F2). exists (d1 ++ d2). split_and!.
  - by rewrite E1, E2, app_assoc.
  - rewrite filter_app, !fmap_app. by apply sublist_app.
  - apply Forall_app. split; [done|]. eapply Forall_impl; [exact F2|]. cbn. intros ev Hev Hi Hd.
    rewrite E1, !fmap_app. apply elem_of_app. right. auto.
Qed.

Lemma evolves_trans s1 s2 s3 n1 n2 :
  evolves s1 s2 n1 -> evolves s2 s3 n2 -> evolves s1 s3 (n1 ++ n2).
Proof.
  intros [I1 F1 N1 L1 Q1 C1 X1] [I2 F2 N2 L2 Q2 C2 X2]. split; try done.
  - intros p. by rewrite F2, F1.
  - congruence.
  - by rewrite L2, L1, app_assoc.
  - intros i. by eapply iface_evolves_trans.
  - intros i Hi. rewrite C2, C1, tx_total_app by done. unfold wrap. rewrite Zplus_mod_idemp_l. f_equal. lia.
  - intros i. by rewrite X2.
Qed.

(** The driver and the clock do not touch the queues. *)
Lemma set_world_evolves s w : IO_inv s -> evolves s (set_world s w) [].
Proof.
  intros Hs. destruct (evolves_refl s Hs) as [_ F N L Q C X]. split; try done. by destruct Hs; split.
Qed.

Lemma sendToIface_ok s direct i frm dl fl :
  IO_inv s -> (i < num_ifaces_ s)%nat ->
  (direct = false -> (frm, dl, fl) ∈ entry_key <$> tx_entries (queue_at s i)) ->
  let '(res, s') := sendToIface s direct i frm dl fl in
  exists new, IO_inv s' /\ (forall p, io_foreign s' p <-> io_foreign s p) /\ num_ifaces_ s' = num_ifaces_ s /\
    tx_queues_ s' = tx_queues_ s /\ tx_log s' = tx_log s ++ new /\
    (forall j, (j < 3)%nat -> tx_counter s' j = u64 (tx_counter s j + tx_total j new)) /\
    (forall j, rx_counter s' j = rx_counter s j) /\
    (new = [mkTxEvent i direct frm dl fl res] \/ new = [] /\ res < 0).
Proof.
  intros Hs Hi Hd. unfold sendToIface. destruct (hasIface (io_world s) i).
  2: { exists []. split_and!; try done.
       - by rewrite app_nil_r.
       - intros j _. cbn. rewrite Z.add_0_r, wrap_small; [done|]. by apply tx_counter_u64.
       - right. done. }
  destruct (iface_send _ _ _ _ _) as [res w].
  set (ev := mkTxEvent i direct frm dl fl res). exists [ev].
  set (s1 := log_event (set_world s w) ev).
  assert (Hs1 : IO_inv s1) by (by destruct Hs; split).
  destruct (Z.ltb_spec 0 res) as [Hr|Hr].
  - assert (Hi3 : (i < length (counters_ s))%nat) by (rewrite (io_counters s Hs); pose proof (io_num s Hs); lia).
    destruct (lookup_lt_is_Some_2 (counters_ s) i Hi3) as [c Ec].
    split_and!; try done.
    + destruct Hs1. split; try done; cbn [set_counters counters_].
      * by rewrite length_alter.
      * apply Forall_alter; [done|]. intros x Hx [_ Hy]. cbn in Hx. cbn. split; [by apply wrap_range|done].
    + intros j Hj. unfold tx_counter. cbn [set_counters counters_ s1 log_event set_world].
      cbn [tx_total foldr ev_iface ev_result ev]. destruct (Nat.eqb_spec i j) as [->|Hne].
      * rewrite list_lookup_alter_eq, Ec. cbn [fmap option_fmap option_map default from_option frames_tx].
        destruct (Z.ltb_spec 0 res); [|lia]. cbn [andb]. by rewrite Z.add_0_r.
      * rewrite list_lookup_alter_ne by done. cbn [andb]. rewrite !Z.add_0_r, wrap_small; [done|].
        by apply (tx_counter_u64 s).
    + intros j. unfold rx_counter. cbn [set_counters counters_ s1 log_event set_world].
      destruct (decide (j = i)) as [->|Hne]; [by rewrite list_lookup_alter_eq, Ec|].
      by rewrite list_lookup_alter_ne.
    + by left.
  - split_and!; try done.
    + intros j Hj. change (tx_counter s1 j) with (tx_counter s j). cbn [tx_total foldr ev_iface ev_result ev].
      destruct (Z.ltb_spec 0 res); [lia|]. rewrite andb_false_r, !Z.add_0_r, wrap_small; [done|].
      by apply tx_counter_u64.
    + by left.
Qed.

(** A queue operation that only drops a prefix. *)
Lemma with_queue_drops {R} (s : IO) i dflt
    (f : LimitedPoolAllocator A -> CanTxQueue -> R * LimitedPoolAllocator A * CanTxQueue)
    (P : R -> CanTxQueue -> Prop) new :
  (forall l, TxQueue_inv l (queue_at s i) -> let '(r, l', q') := f l (queue_at s i) in
    TxQueue_inv l' q' /\ tx_foreign l' q' = tx_foreign l (queue_at s i) /\ P r q') ->
  (forall r q', P r q' -> iface_evolves i (queue_at s i) q' new) -> Forall (fun ev => ev_iface ev = i) new ->
  IO_inv s -> (i < num_ifaces_ s)%nat ->
  let '(r, s') := with_queue s i dflt f in
  P r (queue_at s' i) /\ IO_inv s' /\ (forall p, io_foreign s' p <-> io_foreign s p) /\
  num_ifaces_ s' = num_ifaces_ s /\ tx_log s' = tx_log s /\ counters_ s' = counters_ s /\
  (forall j, iface_evolves j (queue_at s j) (queue_at s' j) new).
Proof.
  intros Hf HP Hnew Hs Hi. pose proof (with_queue_ok s i dflt f P Hf Hs Hi) as Hq.
  destruct (with_queue s i dflt f) as [r s']. destruct Hq as (Hs' & Hfo & HPr & Hoth & _ & Hc & Hn & Hl).
  split_and!; try done. intros j. destruct (decide (j = i)) as [->|Hj]; [by apply (HP r)|].
  rewrite Hoth by done. exists []. split_and!; [done| |].
  - assert (E : filter (queued_ok j) new = []).
    { clear -Hnew Hj. induction new as [|ev new IH]; [done|]. apply Forall_cons in Hnew as [He Hnew].
      rewrite filter_cons, decide_False by (intros [? _]; congruence). auto. }
    by rewrite E.
  - eapply Forall_impl; [exact Hnew|]. cbn. intros ev Hev Hj'. congruence.
Qed.

Definition ok_events (new : list TxEvent) : nat := length (filter (fun ev => 0 < ev_result ev) new).

Lemma ok_events_app l1 l2 : ok_events (l1 ++ l2) = (ok_events l1 + ok_events l2)%nat.
Proof. unfold ok_events. by rewrite filter_app, length_app. Qed.

Lemma read_clock_evolves s : IO_inv s -> evolves s (read_clock s).2 [].
Proof. intros Hs. unfold read_clock. destruct (getMonotonic _) as [t w]. by apply set_world_evolves. Qed.

Lemma sendFromTxQueue_ok s i :
  IO_inv s -> (i < num_ifaces_ s)%nat ->
  let '(res, s') := sendFromTxQueue s i in
  exists new, evolves s s' new /\ Forall (fun ev => ev_iface ev = i /\ ev_direct ev = false) new /\
    ok_events new = if 0 <? res then 1%nat else 0%nat.
Proof.
  intros Hs Hi. unfold sendFromTxQueue. pose proof (read_clock_evolves s Hs) as E0.
  destruct (read_clock s) as [ts s0]. cbn [snd] in E0. rewrite <-(ev_nifaces _ _ _ E0) in Hi.
  enough (Hg : let '(res, s') := let '(entry, s1) := with_queue s0 i None (fun l q => peek l q ts) in
      match entry with
      | None => (0, s1)
      | Some (p, e) =>
        let '(res, s2) := sendToIface s1 false i (frame e) (deadline e) (flags e) in
        if 0 <? res then
          let '(_, s3) := with_queue s2 i tt (fun l q => let '(l, q) := TxQueue_remove l q p in (tt, l, q)) in
          (res, s3)
        else (res, s2)
      end in
    exists new, evolves s0 s' new /\ Forall (fun ev => ev_iface ev = i /\ ev_direct ev = false) new /\
      ok_events new = if 0 <? res then 1%nat else 0%nat).
  { destruct (let '(entry, s1) := _ in _) as [res s']. destruct Hg as (new & Hev & Hg).
    exists new. split; [|done]. change new with ([] ++ new). by eapply evolves_trans. }
  pose proof (ev_inv _ _ _ E0) as Hs0. clear E0 Hs s.
  pose proof (with_queue_drops s0 i None (fun l q => peek l q ts)
    (fun r q' => r = head (queue_ q') /\ exists gone, queue_ (queue_at s0 i) = gone ++ queue_ q') []) as Hp.
  destruct (with_queue s0 i None _) as [entry s1]. destruct Hp as ((Hhd & _) & Hs1 & Hf1 & Hn1 & Hl1 & Hc1 & Hev1); try done.
  { intros l Hl. pose proof (peek_loop_ok l (queue_at s0 i) ts Hl) as Hp. unfold peek.
    destruct (peek_loop l _ _ _) as [[r l'] q']. destruct Hp as (? & ? & ? & gone & ? & _). split_and!; eauto. }
  { intros r q' [_ [gone Hg]]. exists gone. split_and!; [done|apply sublist_nil_l|done]. }
  assert (E1 : evolves s0 s1 []).
  { split; try done; [by rewrite app_nil_r| |].
    - intros j _. unfold tx_counter. rewrite Hc1. cbn.
      rewrite Z.add_0_r, wrap_small; [done|]. by apply (tx_counter_u64 s0).
    - intros j. unfold rx_counter. by rewrite Hc1. }
  destruct entry as [[p e]|]; [|by exists []].
  destruct (queue_ (queue_at s1 i)) as [|[p' e'] rest] eqn:Eq; [done|]. injection Hhd as -> ->.
  pose proof (sendToIface_ok s1 false i (frame e') (deadline e') (flags e') Hs1 ltac:(congruence)) as Hsd.
  destruct (sendToIface s1 false i _ _ _) as [res s2].
  destruct Hsd as (new & Hs2 & Hf2 & Hn2 & Hq2 & Hl2 & Hc2 & Hx2 & Hnew). { intros _. rewrite Eq. by left. }
  assert (Hqa : forall j, queue_at s2 j = queue_at s1 j) by (intros j; unfold queue_at; by rewrite Hq2).
  assert (Hin : Forall (fun ev => ev_iface ev = i -> ev_direct ev = false ->
    event_key ev ∈ entry_key <$> tx_entries (queue_at s1 i)) new).
  { destruct Hnew as [->|[-> _]]; [|done]. constructor; [|done]. intros _ _. rewrite Eq. by left. }
  assert (Hown : Forall (fun ev => ev_iface ev = i /\ ev_direct ev = false) new)
    by (destruct Hnew as [->|[-> _]]; by repeat constructor).
  destruct (Z.ltb_spec 0 res) as [Hr|Hr].
  - destruct Hnew as [->|[_ ?]]; [|lia]. set (ev := mkTxEvent i false (frame e') (deadline e') (flags e') res) in *.
    pose proof (with_queue_drops s2 i tt (fun l q => let '(l, q) := TxQueue_remove l q p' in (tt, l, q))
      (fun _ q' => queue_ q' = rest) [ev]) as Hw.
    destruct (with_queue s2 i tt _) as [u s3].
    destruct Hw as (_ & Hs3 & Hf3 & Hn3 & Hl3 & Hc3 & Hev3); try done; [|..].
    + intros l Hl. pose proof (TxQueue_remove_ok l (queue_at s2 i) [] p' e' rest Hl ltac:(by rewrite Hqa)) as Hrm.
      destruct (TxQueue_remove l (queue_at s2 i) p') as [l' q']. tauto.
    + intros _ q' Hq'. exists [(p', e')]. rewrite Hqa, Eq, Hq'. split_and!; [done| |].
      * rewrite filter_cons_True by done. done.
      * constructor; [|done]. intros _ _. by left.
    + by repeat constructor.
    + congruence.
    + exists ([] ++ [ev]). split_and!.
      * apply (evolves_trans s0 s1 s3); [done|]. split; try done.
        -- intros q. by rewrite Hf3, Hf2.
        -- congruence.
        -- congruence.
        -- intros j. rewrite <-Hqa. apply Hev3.
        -- intros j Hj. rewrite <-Hc2 by done. unfold tx_counter. by rewrite Hc3.
        -- intros j. rewrite <-Hx2. unfold rx_counter. by rewrite Hc3.
      * done.
      * unfold ok_events. cbn [app]. by rewrite filter_cons_True, (proj2 (Z.ltb_lt 0 res) Hr).
  - exists ([] ++ new). split_and!; [|done|].
    + apply (evolves_trans s0 s1 s2); [done|]. split; try done.
      intros j. rewrite Hqa. exists []. split_and!; [done| |].
      * destruct Hnew as [->|[-> _]]; [|done]. rewrite filter_cons_False; [done|]. cbn. lia.
      * rewrite Forall_forall in *. intros ev Hev Hj Hd. destruct (Hown ev Hev) as [Hi1 _].
        replace j with i by congruence. by apply Hin.
    + rewrite (proj2 (Z.ltb_ge 0 res) Hr). cbn [app]. destruct Hnew as [->|[-> _]]; [|done].
      unfold ok_events. rewrite filter_cons_False; [done|]. cbn. lia.
Qed.

(** ** [send] *)

Record send_inv (s0 s : IO) (frm : CanFrame) (dl fl mask0 mask retval : Z) (new : list TxEvent) : Prop := {
  si_ev : evolves s0 s new;
  si_direct : Forall (fun ev => ev_direct ev = true ->
    event_key ev = (frm, dl, fl) /\ mask_bit mask0 (ev_iface ev) = true) new;
  si_count i : (i < 3)%nat -> length (filter (direct_ok i) new) =
    if mask_bit mask0 i && negb (mask_bit mask i) then 1%nat else 0%nat;
  si_sub i : (i < 3)%nat -> mask_bit mask i = true -> mask_bit mask0 i = true;
  si_ret : retval = Z.of_nat (ok_events new)
}.

Lemma send_inv_init s frm dl fl mask : IO_inv s -> send_inv s s frm dl fl mask mask 0 [].
Proof.
  intros Hs. split; try done; [by apply evolves_refl|]. intros i _. by rewrite andb_negb_r.
Qed.

(** Steps without a direct frame. *)
Lemma send_inv_step s0 s s' frm dl fl mask0 mask retval new new' :
  send_inv s0 s frm dl fl mask0 mask retval new -> evolves s s' new' ->
  Forall (fun ev => ev_direct ev = false) new' ->
  send_inv s0 s' frm dl fl mask0 mask (retval + Z.of_nat (ok_events new')) (new ++ new').
Proof.
  intros [E D C Sb R] E' Hd. split.
  - by eapply evolves_trans.
  - apply Forall_app. split; [done|]. eapply Forall_impl; [exact Hd|]. cbn. congruence.
  - intros i Hi. rewrite filter_app, length_app, C by done.
    replace (filter (direct_ok i) new') with (@nil TxEvent); [cbn; lia|].
    clear -Hd. induction new' as [|ev new' IH]; [done|]. apply Forall_cons in Hd as [He Hd].
    rewrite filter_cons, decide_False by (intros (_ & ? & _); congruence). auto.
  - done.
  - rewrite R, ok_events_app. lia.
Qed.

(** The direct frame is tried on interface [i]. *)
Lemma send_inv_direct s0 s frm dl fl mask0 mask retval new i :
  send_inv s0 s frm dl fl mask0 mask retval new -> (i < num_ifaces_ s)%nat -> mask_bit mask i = true ->
  let '(res, s') := sendToIface s true i frm dl fl in
  exists new', send_inv s0 s' frm dl fl mask0
    (if 0 <? res then Z.land mask (u8 (Z.lnot (Z.shiftl 1 (Z.of_nat i)))) else mask)
    (if 0 <? res then retval + 1 else retval) new'.
Proof.
  intros [E D C Sb R] Hi Hm. pose proof (ev_inv _ _ _ E) as Hs.
  assert (Hi3 : (i < 3)%nat) by (pose proof (io_num s Hs); lia).
  pose proof (sendToIface_ok s true i frm dl fl Hs Hi ltac:(done)) as Hsd.
  destruct (sendToIface s true i frm dl fl) as [res s'].
  destruct Hsd as (new' & Hs' & Hf & Hn & Hq & Hl & Hc & Hx & Hnew). exists (new ++ new').
  assert (E' : evolves s s' new').
  { split; try done. intros j. unfold queue_at. rewrite Hq. exists []. split_and!; [done| |].
    - destruct Hnew as [->|[-> _]]; [|done]. rewrite filter_cons_False; [done|]. cbn. intros (_ & ? & _). done.
    - destruct Hnew as [->|[-> _]]; [|done]. constructor; [|done]. cbn. done. }
  assert (Hd' : Forall (fun ev => ev_direct ev = true ->
    event_key ev = (frm, dl, fl) /\ mask_bit mask0 (ev_iface ev) = true) (new ++ new')).
  { apply Forall_app. split; [done|]. destruct Hnew as [->|[-> _]]; [|done]. constructor; [|done].
    intros _. split; [done|]. by apply Sb. }
  destruct (Z.ltb_spec 0 res) as [Hr|Hr].
  - destruct Hnew as [->|[_ ?]]; [|lia]. split; [by eapply evolves_trans|done| | |].
    + intros j Hj. rewrite filter_app, length_app, C, mask_bit_clear, filter_cons by lia.
      destruct (Nat.eqb_spec i j) as [->|Hne].
      * rewrite decide_True by done. rewrite Hm, Sb by done. done.
      * rewrite decide_False by (intros [? _]; done). rewrite andb_true_r. cbn. lia.
    + intros j Hj. rewrite mask_bit_clear by lia. intros [? _]%andb_true_iff. by apply Sb.
    + rewrite R, ok_events_app. unfold ok_events at 3. rewrite filter_cons_True by done. cbn. lia.
  - assert (Hno : ok_events new' = 0%nat /\ forall j, filter (direct_ok j) new' = []).
    { destruct Hnew as [->|[-> _]]; [|done]. unfold ok_events.
      rewrite filter_cons_False by (cbn; lia). split; [done|]. intros j. rewrite filter_cons_False; [done|]. cbn. lia. }
    destruct Hno as [Hno Hno']. split; [by eapply evolves_trans|done| |done|].
    + intros j Hj. rewrite filter_app, Hno', app_nil_r. by apply C.
    + rewrite R, ok_events_app, Hno. lia.
Qed.

Lemma send_iface_ok s0 s frm dl fl wm mask0 mask retval new i :
  send_inv s0 s frm dl fl mask0 mask retval new -> (i < num_ifaces_ s)%nat ->
  let '(mask', retval', s') := send_iface frm dl fl wm i (mask, retval, s) in
  exists new', send_inv s0 s' frm dl fl mask0 mask' retval' new' /\ num_ifaces_ s' = num_ifaces_ s.
Proof.
  intros Hi Hlt. unfold send_iface. destruct (mask_bit wm i); cbn [negb]; [|by eexists].
  assert (Hnum : forall s' mask' retval' new', send_inv s0 s' frm dl fl mask0 mask' retval' new' ->
    num_ifaces_ s' = num_ifaces_ s).
  { intros s' ? ? ? [E' _ _ _ _]. rewrite (ev_nifaces _ _ _ E'). symmetry. apply (ev_nifaces _ _ _ (si_ev _ _ _ _ _ _ _ _ _ Hi)). }
  pose proof (ev_inv _ _ _ (si_ev _ _ _ _ _ _ _ _ _ Hi)) as Hs.
  (* after the queue was given its turn *)
  assert (Hqueue : let '(res, s') := sendFromTxQueue s i in
    exists new', send_inv s0 s' frm dl fl mask0 mask (if 0 <? res then retval + 1 else retval) new').
  { pose proof (sendFromTxQueue_ok s i Hs Hlt) as Hq. destruct (sendFromTxQueue s i) as [res s'].
    destruct Hq as (new' & E' & Hf & Hok). exists (new ++ new').
    replace (if 0 <? res then retval + 1 else retval) with (retval + Z.of_nat (ok_events new'))
      by (rewrite Hok; case_match; lia).
    apply (send_inv_step s0 s s'); [done..|]. eapply Forall_impl; [exact Hf|]. by intros ev [_ ?]. }
  destruct (mask_bit mask i) eqn:Em.
  - set (turn := if topPriorityHigherOrEqual (queue_at s i) frm then sendFromTxQueue s i else (0, s)).
    assert (Hturn : let '(res, s') := turn in
      exists new', send_inv s0 s' frm dl fl mask0 mask (if 0 <? res then retval + 1 else retval) new').
    { subst turn. destruct (topPriorityHigherOrEqual _ _); [done|]. by exists new. }
    destruct turn as [res s1]. destruct Hturn as [new1 HI1]. destruct (Z.leb_spec res 0) as [Hr|Hr].
    + destruct (Z.ltb_spec 0 res); [lia|].
      pose proof (send_inv_direct s0 s1 frm dl fl mask0 mask retval new1 i HI1 ltac:(by rewrite (Hnum _ _ _ _ HI1)) Em) as Hd.
      destruct (sendToIface s1 true i frm dl fl) as [res' s2]. destruct Hd as [new2 HI2]. exists new2. split; [done|].
      by apply (Hnum _ _ _ _ HI2).
    + exists new1. split; [done|]. by apply (Hnum _ _ _ _ HI1).
  - destruct (sendFromTxQueue s i) as [res s1]. destruct Hqueue as [new1 HI1]. exists new1. split; [done|].
    by apply (Hnum _ _ _ _ HI1).
Qed.

Lemma send_ifaces_ok s0 s frm dl fl wm mask0 mask retval new is_ :
  send_inv s0 s frm dl fl mask0 mask retval new -> Forall (fun i => (i < num_ifaces_ s)%nat) is_ ->
  let '(mask', retval', s') := fold_left (fun st i => send_iface frm dl fl wm i st) is_ (mask, retval, s) in
  exists new', send_inv s0 s' frm dl fl mask0 mask' retval' new'.
Proof.
  revert s mask retval new. induction is_ as [|i is_ IH]; intros s mask retval new Hi Hlt; cbn [fold_left].
  { by exists new. }
  apply Forall_cons in Hlt as [Hlt Hlts].
  pose proof (send_iface_ok s0 s frm dl fl wm mask0 mask retval new i Hi Hlt) as HI1.
  destruct (send_iface frm dl fl wm i (mask, retval, s)) as [[mask1 retval1] s1].
  destruct HI1 as (new1 & HI1 & Hn1). apply (IH s1 mask1 retval1 new1 HI1). by rewrite Hn1.
Qed.

(** The frame was given to the queue at the time [ts] that the clock showed: it is refused if it is late, and else linked in, with the
    outcomes [push_result] lists when there is no block for it; what is not queued any more is counted. *)
Definition pushed (frm : CanFrame) (dl : Z) (qs : Qos) (fl : Z) (q q' : CanTxQueue) : Prop :=
  exists (l : LimitedPoolAllocator A) ts w, TxQueue_inv l q /\ ts = (getMonotonic w).1 /\
    rejected_frames_cnt_ q' = rejections q (length (queue_ q) + 1 - length (queue_ q')) /\
    if dl <=? ts then queue_ q' = queue_ q else push_result sizeof_Entry (make frm dl qs fl) l q ts (tx_entries q').

Lemma send_enqueue_ok `{!PoolRefill A sizeof_Entry} s frm dl qs fl mask i :
  IO_inv s -> CanFrame_wf frm -> (i < num_ifaces_ s)%nat ->
  let s' := send_enqueue sizeof_Entry frm dl qs fl mask i s in
  IO_inv s' /\ (forall p, io_foreign s' p <-> io_foreign s p) /\ num_ifaces_ s' = num_ifaces_ s /\
  tx_log s' = tx_log s /\ counters_ s' = counters_ s /\
  (forall j, j <> i -> queue_at s' j = queue_at s j) /\
  (if mask_bit mask i then pushed frm dl qs fl (queue_at s i) (queue_at s' i) else queue_at s' i = queue_at s i).
Proof.
  intros Hs Hw Hi. unfold send_enqueue. destruct (mask_bit mask i); [|done].
  unfold read_clock. destruct (getMonotonic (io_world s)) as [ts w] eqn:Ets. set (s1 := set_world s w).
  pose proof (ev_inv _ _ _ (set_world_evolves s w Hs)) as Hs1. fold s1 in Hs1.
  pose proof (with_queue_ok s1 i tt
    (fun l q => let '(l, q) := push sizeof_Entry l q frm dl qs fl ts in (tt, l, q))
    (fun _ q' => pushed frm dl qs fl (queue_at s1 i) q')) as Hq.
  destruct (with_queue s1 i tt _) as [u s2]. cbn [snd].
  destruct Hq as (Hs2 & Hf & HP & Ho & _ & Hc & Hn & Hl); try done.
  intros l Hl. pose proof (push_ok sizeof_Entry l (queue_at s1 i) frm dl qs fl ts Hl Hw) as Hp.
  destruct (push sizeof_Entry l (queue_at s1 i) frm dl qs fl ts) as [l' q'] eqn:Ep.
  destruct Hp as (? & ? & ? & ?). split_and!; try done. exists l, ts, (io_world s). by rewrite Ets.
Qed.

Lemma send_enqueues_ok `{!PoolRefill A sizeof_Entry} s frm dl qs fl mask is_ :
  IO_inv s -> CanFrame_wf frm -> Forall (fun i => (i < num_ifaces_ s)%nat) is_ -> NoDup is_ ->
  let s' := fold_left (fun s i => send_enqueue sizeof_Entry frm dl qs fl mask i s) is_ s in
  IO_inv s' /\ (forall p, io_foreign s' p <-> io_foreign s p) /\ num_ifaces_ s' = num_ifaces_ s /\
  tx_log s' = tx_log s /\ counters_ s' = counters_ s /\
  (forall j, j ∉ is_ -> queue_at s' j = queue_at s j) /\
  (forall i, i ∈ is_ -> if mask_bit mask i then pushed frm dl qs fl (queue_at s i) (queue_at s' i)
                        else queue_at s' i = queue_at s i).
Proof.
  revert s. induction is_ as [|i is_ IH]; intros s Hs Hw Hlt Hd; cbn [fold_left].
  { split_and!; try done. by intros i Hi%elem_of_nil. }
  apply Forall_cons in Hlt as [Hlt Hlts]. apply NoDup_cons in Hd as [Hni Hd].
  destruct (send_enqueue_ok s frm dl qs fl mask i Hs Hw Hlt) as (Hs1 & Hf1 & Hn1 & Hl1 & Hc1 & Ho1 & Hq1).
  destruct (IH _ Hs1 Hw ltac:(by rewrite Hn1) Hd) as (Hs2 & Hf2 & Hn2 & Hl2 & Hc2 & Ho2 & Hq2).
  cbn zeta in *. split_and!; try congruence.
  - intros p. by rewrite Hf2, Hf1.
  - intros j [Hj Hjs]%not_elem_of_cons. by rewrite Ho2, Ho1.
  - intros j [->|Hj]%elem_of_cons.
    + by rewrite Ho2.
    + specialize (Hq2 j Hj). by rewrite Ho1 in Hq2 by (intros ->; done).
Qed.

(** ** Termination *)

Section ticking.
Context (blocking : Z) `{!ClockAdvances W blocking}.
Abbreviation tk s := (ticks (deadline := blocking) (io_world (s : IO))).

Lemma read_clock_ticks s :
  let '(t, s') := read_clock s in (tk s' <= tk s)%nat /\ (t < blocking -> (tk s' < tk s)%nat).
Proof.
  unfold read_clock. pose proof (clock_ticks (deadline := blocking) (io_world s)) as Ht.
  by destruct (getMonotonic (io_world s)) as [t w].
Qed.

Lemma with_queue_world {R} (s : IO) i (d : R) f : io_world (with_queue s i d f).2 = io_world s.
Proof. unfold with_queue. destruct (_ !! i); [|done]. by destruct (f _ _) as [[r l] q]. Qed.

Lemma sendToIface_ticks s d i frm dl fl : (tk (sendToIface s d i frm dl fl).2 <= tk s)%nat.
Proof.
  unfold sendToIface. destruct (hasIface _ _); [|done].
  pose proof (send_ticks (deadline := blocking) (io_world s) i frm dl fl) as Ht.
  destruct (iface_send _ _ _ _ _) as [res w]. by destruct (0 <? res).
Qed.

Lemma sendFromTxQueue_ticks s i : (tk (sendFromTxQueue s i).2 <= tk s)%nat.
Proof.
  unfold sendFromTxQueue. pose proof (read_clock_ticks s) as Ht. destruct (read_clock s) as [t s0].
  pose proof (with_queue_world s0 i None (fun l q => peek l q t)) as Hw.
  destruct (with_queue s0 i None _) as [entry s1]. cbn [snd] in Hw.
  destruct entry as [[p e]|]; [|cbn [snd]; rewrite Hw; lia].
  pose proof (sendToIface_ticks s1 false i (frame e) (deadline e) (flags e)) as Hs.
  destruct (sendToIface s1 _ _ _ _ _) as [res s2]. cbn [snd] in Hs. rewrite Hw in Hs.
  destruct (0 <? res); [|cbn [snd]; lia].
  pose proof (with_queue_world s2 i tt (fun l q => let '(l, q) := TxQueue_remove l q p in (tt, l, q))) as Hw2.
  destruct (with_queue s2 i tt _) as [u s3]. cbn [snd] in *. rewrite Hw2. lia.
Qed.

Lemma send_iface_ticks frm dl fl wm i st : (tk (send_iface frm dl fl wm i st).2 <= tk st.2)%nat.
Proof.
  destruct st as [[mask retval] s]. unfold send_iface. destruct (negb _); [done|]. cbn [snd].
  destruct (mask_bit mask i).
  - assert (Hq : (tk (if topPriorityHigherOrEqual (queue_at s i) frm then sendFromTxQueue s i else (0%Z, s)).2 <= tk s)%nat)
      by (destruct (topPriorityHigherOrEqual _ _); [apply sendFromTxQueue_ticks|done]).
    destruct (if topPriorityHigherOrEqual _ _ then _ else _) as [res s1]. cbn [snd] in Hq.
    destruct (res <=? 0); [|done]. pose proof (sendToIface_ticks s1 true i frm dl fl) as Hd.
    destruct (sendToIface s1 true i frm dl fl) as [res' s2]. cbn [snd] in *. lia.
  - pose proof (sendFromTxQueue_ticks s i) as Hq. by destruct (sendFromTxQueue s i) as [res s1].
Qed.

Lemma send_ifaces_ticks frm dl fl wm is_ st :
  (tk (fold_left (fun st i => send_iface frm dl fl wm i st) is_ st).2 <= tk st.2)%nat.
Proof.
  revert st. induction is_ as [|i is_ IH]; intros st; cbn [fold_left]; [done|].
  etransitivity; [apply IH|]. apply send_iface_ticks.
Qed.

Lemma callSelect_ticks s m p d : (tk (callSelect s m p d).2 <= tk s)%nat.
Proof.
  unfold callSelect. pose proof (select_ticks (deadline := blocking) (io_world s) m p d) as Ht.
  destruct (drv_select _ _ _ _) as [[res out] w]. by destruct (res <? 0).
Qed.

Lemma callSelect_evolves s m p d : IO_inv s -> evolves s (callSelect s m p d).2 [].
Proof.
  intros Hs. unfold callSelect. destruct (drv_select _ _ _ _) as [[res out] w].
  destruct (res <? 0); by apply set_world_evolves.
Qed.

(** The last thing that happened was a call of [select] that failed. *)
Definition select_failed (s' : IO) : Prop :=
  exists w masks pending, (drv_select w masks pending blocking).1.1 < 0 /\ io_world s' = (drv_select w masks pending blocking).2.

Lemma callSelect_failed s m p : (callSelect s m p blocking).1.1 < 0 -> select_failed (callSelect s m p blocking).2.
Proof.
  unfold callSelect, select_failed. destruct (drv_select (io_world s) m p blocking) as [[res out] w] eqn:E.
  destruct (Z.ltb_spec res 0); cbn [fst snd]; [|lia]. intros _. exists (io_world s), m, p. by rewrite E.
Qed.

(** What a finished [send] has done. *)
Record send_done (s0 s' : IO) (frm : CanFrame) (dl : Z) (qs : Qos) (fl mask0 r : Z) (new : list TxEvent) : Prop := {
  sd_inv : IO_inv s';
  sd_foreign p : io_foreign s' p <-> io_foreign s0 p;
  sd_log : tx_log s' = tx_log s0 ++ new;
  sd_result : r = - ErrDriver /\ select_failed s' \/ r = Z.of_nat (ok_events new);
  sd_direct : Forall (fun ev => ev_direct ev = true ->
    event_key ev = (frm, dl, fl) /\ mask_bit mask0 (ev_iface ev) = true) new;
  sd_counter i : (i < 3)%nat -> tx_counter s' i = u64 (tx_counter s0 i + tx_total i new);
  sd_iface i : (i < num_ifaces_ s0)%nat ->
    exists mid, iface_evolves i (queue_at s0 i) mid new /\
      (length (filter (direct_ok i) new) <= 1)%nat /\
      if decide (0 <= r /\ mask_bit mask0 i = true /\ filter (direct_ok i) new = [])
      then pushed frm dl qs fl mid (queue_at s' i) else queue_at s' i = mid
}.

Lemma send_inv_done s0 s frm dl qs fl mask0 mask retval r new :
  send_inv s0 s frm dl fl mask0 mask retval new -> r = retval /\ mask = 0 \/ r = - ErrDriver /\ select_failed s ->
  send_done s0 s frm dl qs fl mask0 r new.
Proof.
  intros [E D C Sb R] Hr. split; try apply E; try done; [naive_solver|].
  intros i Hi. exists (queue_at s i).
  assert (Hi3 : (i < 3)%nat) by (rewrite <-(ev_nifaces _ _ _ E) in Hi; pose proof (io_num s (ev_inv _ _ _ E)); lia).
  split_and!; [apply E|rewrite C by done; case_match; lia|].
  destruct (decide _) as [(Hr0 & Hb & Hf)|]; [|done]. exfalso. destruct Hr as [[_ ->]|[-> _]]; [|done].
  specialize (C i Hi3). rewrite Hf, Hb, mask_bit_testbit, Z.bits_0 in C. done.
Qed.

Lemma seq_below n : Forall (fun i => (i < n)%nat) (seq 0 n).
Proof. rewrite Forall_forall. intros i Hi%elem_of_seq. lia. Qed.

Lemma send_loop_ok `{!PoolRefill A sizeof_Entry} fuel s0 s frm dl qs fl mask0 mask retval new :
  send_inv s0 s frm dl fl mask0 mask retval new -> CanFrame_wf frm -> (tk s < fuel)%nat ->
  exists r s' new', send_loop sizeof_Entry fuel frm dl blocking qs fl mask retval s = Some (r, s') /\
    send_done s0 s' frm dl qs fl mask0 r new'.
Proof.
  revert s mask retval new. induction fuel as [|fuel IH]; intros s mask retval new Hi Hw Ht; [lia|].
  cbn [send_loop]. destruct (Z.eqb_spec mask 0) as [->|Hm].
  { exists retval, s, new. split; [done|]. eapply send_inv_done; [done|]. by left. }
  set (m0 := mkMasks 0 (Z.lor mask (makePendingTxMask s))). set (pend := send_pending s frm mask).
  pose proof (callSelect_evolves s m0 pend blocking (ev_inv _ _ _ (si_ev _ _ _ _ _ _ _ _ _ Hi))) as Ec.
  pose proof (callSelect_ticks s m0 pend blocking) as Tc. pose proof (callSelect_failed s m0 pend) as Fc.
  destruct (callSelect s m0 pend blocking) as [[sel masks] s1]. cbn [fst snd] in Ec, Tc, Fc.
  pose proof (send_inv_step s0 s s1 frm dl fl mask0 mask retval new [] Hi Ec ltac:(done)) as Hi1.
  rewrite app_nil_r in Hi1. change (Z.of_nat (ok_events [])) with 0 in Hi1. rewrite Z.add_0_r in Hi1.
  destruct (Z.ltb_spec sel 0).
  { exists (- ErrDriver), s1, new. split; [done|]. eapply send_inv_done; [done|]. right. auto. }
  pose proof (send_ifaces_ok s0 s1 frm dl fl (mask_write masks) mask0 mask retval new (seq 0 (num_ifaces_ s1)) Hi1
    (seq_below _)) as Hsend.
  pose proof (send_ifaces_ticks frm dl fl (mask_write masks) (seq 0 (num_ifaces_ s1)) (mask, retval, s1)) as Ts.
  destruct (fold_left _ _ (mask, retval, s1)) as [[mask2 retval2] s2]. cbn [snd] in Ts.
  destruct Hsend as [new2 Hi2].
  pose proof (read_clock_evolves s2 (ev_inv _ _ _ (si_ev _ _ _ _ _ _ _ _ _ Hi2))) as Er.
  pose proof (read_clock_ticks s2) as Tr. destruct (read_clock s2) as [now s3]. cbn [snd] in Er.
  pose proof (send_inv_step s0 s2 s3 frm dl fl mask0 mask2 retval2 new2 [] Hi2 Er ltac:(done)) as Hi3.
  rewrite app_nil_r in Hi3. change (Z.of_nat (ok_events [])) with 0 in Hi3. rewrite Z.add_0_r in Hi3.
  destruct (Z.leb_spec blocking now) as [Hnow|Hnow]; cbn [negb].
  2: { assert (Hloop : exists r s' new', send_loop sizeof_Entry fuel frm dl blocking qs fl mask2 retval2 s3 = Some (r, s') /\
         send_done s0 s' frm dl qs fl mask0 r new') by (apply (IH s3 mask2 retval2 new2); [done|done|lia]).
       by destruct (_ || false). }
  rewrite orb_true_r. eexists _, _, new2. split; [done|].
  destruct Hi3 as [E D C Sb R]. pose proof (ev_inv _ _ _ E) as Hs3.
  destruct (send_enqueues_ok s3 frm dl qs fl mask2 (seq 0 (num_ifaces_ s3)) Hs3 Hw (seq_below _) (NoDup_seq _ _))
    as (Hs4 & Hf4 & Hn4 & Hl4 & Hc4 & Ho4 & Hq4). cbn zeta in *.
  split; try done.
  - intros p. rewrite Hf4. apply E.
  - rewrite Hl4. apply E.
  - by right.
  - intros i Hi0. unfold tx_counter. rewrite Hc4. by apply E.
  - intros i Hi0. exists (queue_at s3 i). rewrite <-(ev_nifaces _ _ _ E) in Hi0.
    assert (Hi3 : (i < 3)%nat) by (pose proof (io_num s3 Hs3); lia).
    split_and!; [apply E|rewrite C by done; case_match; lia|].
    assert (Hin : i ∈ seq 0 (num_ifaces_ s3)) by (apply elem_of_seq; lia).
    specialize (Hq4 i Hin). specialize (C i Hi3). specialize (Sb i Hi3).
    destruct (mask_bit mask2 i) eqn:E2.
    + rewrite decide_True; [done|]. split_and!; [lia|auto|]. rewrite andb_false_r in C. by apply length_zero_iff_nil.
    + rewrite decide_False; [done|]. intros (_ & Hb & Hnil). rewrite Hb, Hnil in C. done.
Qed.

(** ** [receive] *)

Lemma receive_write_ok s wm is_ :
  IO_inv s -> Forall (fun i => (i < num_ifaces_ s)%nat) is_ ->
  let s' := fold_left (fun s i => if mask_bit wm i then (sendFromTxQueue s i).2 else s) is_ s in
  (tk s' <= tk s)%nat /\ exists new, evolves s s' new /\ Forall (fun ev => ev_direct ev = false) new.
Proof.
  revert s. induction is_ as [|i is_ IH]; intros s Hs Hlt; cbn [fold_left].
  { split; [done|]. exists []. split; [by apply evolves_refl|done]. }
  apply Forall_cons in Hlt as [Hlt Hlts].
  set (s1 := if mask_bit wm i then (sendFromTxQueue s i).2 else s).
  assert (Hs1 : (tk s1 <= tk s)%nat /\ exists new, evolves s s1 new /\ Forall (fun ev => ev_direct ev = false) new).
  { subst s1. destruct (mask_bit wm i).
    - pose proof (sendFromTxQueue_ok s i Hs Hlt) as Hq. pose proof (sendFromTxQueue_ticks s i) as Ht.
      destruct (sendFromTxQueue s i) as [res s1]. destruct Hq as (new & E & Hf & _). split; [done|].
      exists new. split; [done|]. eapply Forall_impl; [exact Hf|]. by intros ev [_ ?].
    - split; [done|]. exists []. split; [by apply evolves_refl|done]. }
  destruct Hs1 as (T1 & new1 & E1 & D1).
  destruct (IH s1 (ev_inv _ _ _ E1) ltac:(by rewrite (ev_nifaces _ _ _ E1))) as (T2 & new2 & E2 & D2).
  split; [cbn zeta in *; lia|]. exists (new1 ++ new2). split; [by eapply evolves_trans|]. by apply Forall_app.
Qed.

(** What the read loop has done; [counted] is the interface whose counter moved. *)
Lemma receive_read_ok s rm is_ out :
  IO_inv s -> Forall (fun i => (i < num_ifaces_ s)%nat) is_ ->
  let '(r, out', s') := receive_read rm is_ out s in
  (tk s' <= tk s)%nat /\
  match r with
  | inr _ => evolves s s' []
  | inl res => exists i, i ∈ is_ /\ mask_bit rm i = true /\ crx_iface_index out'.1 = Z.of_nat i /\
      (res = - ErrDriver \/ 0 < res) /\
      IO_inv s' /\ (forall p, io_foreign s' p <-> io_foreign s p) /\ tx_log s' = tx_log s /\
      (forall j, queue_at s' j = queue_at s j) /\ (forall j, tx_counter s' j = tx_counter s j) /\
      (forall j, rx_counter s' j = if decide (j = i /\ 0 < res /\ Z.land out'.2 CanIOFlagLoopback = 0)
                                   then u64 (rx_counter s j + 1) else rx_counter s j)
  end.
Proof.
  revert s out. induction is_ as [|i is_ IH]; intros s out Hs Hlt; cbn [receive_read].
  { split; [done|]. by apply evolves_refl. }
  apply Forall_cons in Hlt as [Hlt Hlts].
  assert (Hskip : forall w out, (ticks (deadline := blocking) w <= tk s)%nat ->
    let '(r, out', s') := receive_read rm is_ out (set_world s w) in
    (tk s' <= tk s)%nat /\
    match r with
    | inr _ => evolves s s' []
    | inl res => exists i0, i0 ∈ i :: is_ /\ mask_bit rm i0 = true /\ crx_iface_index out'.1 = Z.of_nat i0 /\
      (res = - ErrDriver \/ 0 < res) /\
      IO_inv s' /\ (forall p, io_foreign s' p <-> io_foreign s p) /\ tx_log s' = tx_log s /\
      (forall j, queue_at s' j = queue_at s j) /\ (forall j, tx_counter s' j = tx_counter s j) /\
      (forall j, rx_counter s' j = if decide (j = i0 /\ 0 < res /\ Z.land out'.2 CanIOFlagLoopback = 0)
                                   then u64 (rx_counter s j + 1) else rx_counter s j)
    end).
  { intros w out0 Hw. pose proof (set_world_evolves s w Hs) as Ew.
    specialize (IH (set_world s w) out0 (ev_inv _ _ _ Ew) Hlts).
    destruct (receive_read rm is_ out0 (set_world s w)) as [[r out'] s']. destruct IH as [Ht IH].
    split; [etransitivity; [exact Ht|done]|]. destruct r as [res|_].
    - destruct IH as (i0 & Hin & IH). exists i0. split; [by right|]. done.
    - change (@nil TxEvent) with ([] ++ @nil TxEvent). by eapply evolves_trans. }
  assert (Hself : set_world s (io_world s) = s) by (by destruct s).
  destruct (mask_bit rm i) eqn:Em; [|specialize (Hskip (io_world s) out ltac:(done)); by rewrite Hself in Hskip].
  destruct (hasIface (io_world s) i); cbn [negb];
    [|specialize (Hskip (io_world s) out ltac:(done)); by rewrite Hself in Hskip].
  pose proof (receive_ticks (deadline := blocking) (io_world s) i out) as Ht.
  destruct (iface_receive (io_world s) i out) as [[res out1] w].
  destruct (Z.eqb_spec res 0) as [->|Hr]; [by apply Hskip|]. destruct out1 as [f fl].
  set (s1 := set_world s w). pose proof (ev_inv _ _ _ (set_world_evolves s w Hs)) as Hs1. fold s1 in Hs1.
  assert (Hi3 : (i < length (counters_ s))%nat) by (rewrite (io_counters s Hs); pose proof (io_num s Hs); lia).
  destruct (lookup_lt_is_Some_2 (counters_ s) i Hi3) as [c Ec].
  assert (Hres : 0 < (if res <? 0 then - ErrDriver else res) <-> 0 < res).
  { destruct (Z.ltb_spec res 0); [|done]. unfold ErrDriver. lia. }
  destruct ((0 <? res) && (Z.land fl CanIOFlagLoopback =? 0)) eqn:Ecnt.
  - apply andb_true_iff in Ecnt as [Hpos%Z.ltb_lt Hlb%Z.eqb_eq]. split; [done|]. exists i.
    split_and!; try done; [by left|right; by apply Hres| | |].
    + destruct Hs1. split; try done; cbn [set_counters counters_].
      * by rewrite length_alter.
      * apply Forall_alter; [done|]. intros x _ [Hy _]. cbn. split; [done|by apply wrap_range].
    + intros j. unfold tx_counter. cbn [set_counters counters_ s1 set_world].
      destruct (decide (j = i)) as [->|Hne]; [by rewrite list_lookup_alter_eq, Ec|]. by rewrite list_lookup_alter_ne.
    + intros j. unfold rx_counter. cbn [set_counters counters_ s1 set_world snd]. destruct (decide (j = i)) as [->|Hne].
      * rewrite list_lookup_alter_eq, Ec. rewrite decide_True by (split_and!; [done|by apply Hres|done]). done.
      * rewrite list_lookup_alter_ne by done. rewrite decide_False by tauto. done.
  - split; [done|]. exists i. split_and!; try done; [by left| |].
    + destruct (Z.ltb_spec res 0); [by left|right; lia].
    + intros j. cbn [snd]. rewrite decide_False; [done|]. intros (_ & Hpos%Hres & Hlb).
      rewrite Hlb in Ecnt. apply andb_false_iff in Ecnt as [?%Z.ltb_ge|?]; [lia|done].
Qed.

Record receive_done (s s' : IO) (r : Z) (out : CanRxFrame * Z) (new : list TxEvent) : Prop := {
  rd_inv : IO_inv s';
  rd_foreign p : io_foreign s' p <-> io_foreign s p;
  rd_log : tx_log s' = tx_log s ++ new;
  rd_queued : Forall (fun ev => ev_direct ev = false) new;
  rd_ifaces i : iface_evolves i (queue_at s i) (queue_at s' i) new;
  rd_tx i : (i < 3)%nat -> tx_counter s' i = u64 (tx_counter s i + tx_total i new);
  rd_result : r = - ErrDriver \/ r = 0 \/
    0 < r /\ exists i, (i < num_ifaces_ s)%nat /\ crx_iface_index out.1 = Z.of_nat i;
  rd_rx i : rx_counter s' i =
    if decide (0 < r /\ crx_iface_index out.1 = Z.of_nat i /\ Z.land out.2 CanIOFlagLoopback = 0)
    then u64 (rx_counter s i + 1) else rx_counter s i
}.

Lemma evolves_receive_done s s' r out new :
  evolves s s' new -> Forall (fun ev => ev_direct ev = false) new -> r = - ErrDriver \/ r = 0 ->
  receive_done s s' r out new.
Proof.
  intros [E1 E2 E3 E4 E5 E6 E7] Hd Hr. split; try done; [tauto|]. intros i. rewrite decide_False; [done|].
  unfold ErrDriver in *. lia.
Qed.

Lemma IO_receive_loop_ok fuel s0 s out new :
  evolves s0 s new -> Forall (fun ev => ev_direct ev = false) new -> (tk s < fuel)%nat ->
  exists r out' s' new', IO_receive fuel s out blocking = Some (r, out', s') /\ receive_done s0 s' r out' new'.
Proof.
  revert s out new. induction fuel as [|fuel IH]; intros s out new E0 D0 Ht; [lia|]. cbn [IO_receive].
  set (m0 := mkMasks _ _). set (pend := pending_array s _).
  pose proof (callSelect_evolves s m0 pend blocking (ev_inv _ _ _ E0)) as Ec.
  pose proof (callSelect_ticks s m0 pend blocking) as Tc.
  destruct (callSelect s m0 pend blocking) as [[sel masks] s1]. cbn [snd] in Ec, Tc.
  pose proof (evolves_trans _ _ _ _ _ E0 Ec) as E1. rewrite app_nil_r in E1. destruct (sel <? 0).
  { exists (- ErrDriver), out, s1, new. split; [done|]. apply evolves_receive_done; [done|done|by left]. }
  destruct (receive_write_ok s1 (mask_write masks) (seq 0 (num_ifaces_ s1)) (ev_inv _ _ _ E1) (seq_below _))
    as (Tw & new2 & E2 & D2). cbn zeta in *. fold (receive_write (mask_write masks) s1) in *.
  set (s2 := receive_write (mask_write masks) s1) in *.
  pose proof (evolves_trans _ _ _ _ _ E1 E2) as E2'.
  assert (D2' : Forall (fun ev => ev_direct ev = false) (new ++ new2)) by (by apply Forall_app).
  pose proof (receive_read_ok s2 (mask_read masks) (seq 0 (num_ifaces_ s2)) out (ev_inv _ _ _ E2') (seq_below _)) as Hr.
  destruct (receive_read (mask_read masks) _ out s2) as [[r out'] s3]. destruct Hr as [Tr Hr]. destruct r as [res|_].
  - destruct Hr as (i & Hin & _ & Hidx & Hres & Hs3 & Hf3 & Hl3 & Hq3 & Htx3 & Hrx3).
    apply elem_of_seq in Hin. exists res, out', s3, (new ++ new2). split; [done|]. split; try done.
    + intros p. rewrite Hf3. apply E2'.
    + rewrite Hl3. apply E2'.
    + intros j. rewrite Hq3. apply E2'.
    + intros j Hj. rewrite Htx3. by apply E2'.
    + destruct Hres as [->|Hpos]; [by left|]. right. right. split; [done|]. exists i. split; [|done].
      rewrite <-(ev_nifaces _ _ _ E2'). lia.
    + intros j. rewrite Hrx3, (ev_rx _ _ _ E2' j).
      destruct (decide (j = i /\ _)) as [(-> & Hp & Hlb)|Hn]; [by rewrite decide_True|].
      rewrite decide_False; [done|]. intros (Hp & Hj & Hlb). apply Hn. split_and!; [lia|done|done].
  - pose proof (evolves_trans _ _ _ _ _ E2' Hr) as E3. rewrite app_nil_r in E3.
    pose proof (read_clock_evolves s3 (ev_inv _ _ _ E3)) as Ek. pose proof (read_clock_ticks s3) as Tk.
    destruct (read_clock s3) as [now s4]. cbn [snd] in Ek.
    pose proof (evolves_trans _ _ _ _ _ E3 Ek) as E4. rewrite app_nil_r in E4.
    destruct (Z.leb_spec blocking now) as [Hnow|Hnow].
    + exists 0, out', s4, (new ++ new2). split; [done|]. apply evolves_receive_done; [done|done|by right].
    + apply (IH s4 out' (new ++ new2)); [done|done|lia].
Qed.

Lemma receive_read_ticks rm is_ out s : (tk (receive_read rm is_ out s).2 <= tk s)%nat.
Proof.
  revert out s. induction is_ as [|i is_ IH]; intros out s; cbn [receive_read]; [done|].
  destruct (mask_bit rm i); [|apply IH]. destruct (negb _); [apply IH|].
  pose proof (receive_ticks (deadline := blocking) (io_world s) i out) as Ht.
  destruct (iface_receive (io_world s) i out) as [[res out1] w].
  destruct (res =? 0); [etransitivity; [apply IH|done]|]. destruct out1 as [f fl]. by destruct (_ && _).
Qed.

Lemma receive_write_ticks wm is_ s :
  (tk (fold_left (fun s i => if mask_bit wm i then (sendFromTxQueue s i).2 else s) is_ s) <= tk s)%nat.
Proof.
  revert s. induction is_ as [|i is_ IH]; intros s; cbn [fold_left]; [done|]. etransitivity; [apply IH|].
  destruct (mask_bit wm i); [apply sendFromTxQueue_ticks|done].
Qed.

Lemma IO_receive_ticks fuel s out r out' s' :
  IO_receive fuel s out blocking = Some (r, out', s') -> (tk s' <= tk s)%nat.
Proof.
  revert s out. induction fuel as [|fuel IH]; intros s out; [done|]. cbn [IO_receive].
  set (m0 := mkMasks _ _). set (pend := pending_array s _).
  pose proof (callSelect_ticks s m0 pend blocking) as Tc.
  destruct (callSelect s m0 pend blocking) as [[sel masks] s1]. cbn [snd] in Tc.
  destruct (sel <? 0); [by intros [= _ _ <-]|].
  pose proof (receive_write_ticks (mask_write masks) (seq 0 (num_ifaces_ s1)) s1) as Tw.
  fold (receive_write (mask_write masks) s1) in Tw. set (s2 := receive_write (mask_write masks) s1) in *.
  pose proof (receive_read_ticks (mask_read masks) (seq 0 (num_ifaces_ s2)) out s2) as Tr.
  destruct (receive_read (mask_read masks) _ out s2) as [[rr out1] s3]. cbn [snd] in Tr. destruct rr as [res|u].
  - intros [= _ _ <-]. lia.
  - pose proof (read_clock_ticks s3) as Tk. destruct (read_clock s3) as [now s4].
    destruct (blocking <=? now); [intros [= _ _ <-]; lia|]. intros E%IH. lia.
Qed.

End ticking.

(** A driver that hands over well-formed frames with valid timestamps. *)
Class DriverFrames (W : Type) `{CanPlatform W} :=
  driver_frames w i out : let '(res, out', _) := iface_receive w i out in
    0 < res -> CanFrame_wf (crx_frame out'.1) /\ 0 <= crx_ts_mono out'.1 < 2 ^ 63.

Lemma receive_read_frame `{!DriverFrames W} rm is_ out (s : IO) res out' s' :
  receive_read rm is_ out s = (inl res, out', s') -> 0 < res ->
  CanFrame_wf (crx_frame out'.1) /\ 0 <= crx_ts_mono out'.1 < 2 ^ 63.
Proof.
  revert out s. induction is_ as [|i is_ IH]; intros out s E Hr; cbn [receive_read] in E; [done|].
  destruct (mask_bit rm i); [|by apply (IH out s)]. destruct (negb (hasIface _ _)); [by apply (IH out s)|].
  pose proof (driver_frames (io_world s) i out) as Hd.
  destruct (iface_receive (io_world s) i out) as [[r out1] w].
  destruct (Z.eqb_spec r 0); [by apply (IH out1 (set_world s w))|]. destruct out1 as [f fl].
  injection E as Hres Hout _. subst res out'. cbn in *. apply Hd. destruct (Z.ltb_spec r 0); [unfold ErrDriver in Hr; lia|done].
Qed.

Lemma IO_receive_frame `{!DriverFrames W} fuel (s : IO) out bd r out' s' :
  IO_receive fuel s out bd = Some (r, out', s') -> 0 < r ->
  CanFrame_wf (crx_frame out'.1) /\ 0 <= crx_ts_mono out'.1 < 2 ^ 63.
Proof.
  revert s out. induction fuel as [|fuel IH]; intros s out; [done|]. cbn [IO_receive].
  destruct (callSelect _ _ _ _) as [[sel masks] s1]. destruct (sel <? 0).
  { intros [= <- _ _]. unfold ErrDriver. lia. }
  set (s2 := receive_write (mask_write masks) s1).
  destruct (receive_read (mask_read masks) _ out s2) as [[rr out1] s3] eqn:Er. destruct rr as [res|u].
  - intros [= <- <- <-]. by apply (receive_read_frame _ _ _ _ _ _ _ Er).
  - destruct (read_clock s3) as [now s4]. destruct (bd <=? now); [intros [= <- _ _]; lia|]. apply IH.
Qed.

(** The constructor establishes the invariant. *)
Lemma CanIOManager_init_ok (w : W) (a : A) n mem s :
  pool_inv a -> 0 <= getBlockCapacity a -> 0 <= mem -> CanIOManager_init w a n mem = Some s -> IO_inv s.
Proof.
  intros Ha Hcap Hmem. unfold CanIOManager_init. destruct (Z.ltb_spec n 1), (Z.ltb_spec MaxCanIfaces n); try done.
  unfold MaxCanIfaces in *. cbn [orb]. intros [= <-]. set (l := Limited_init a (if mem =? 0 then getBlockCapacity a / (n + 1) + 1 else mem)).
  assert (Hl : 0 < max_blocks_ l <= 0xFFFF /\ used_blocks_ l = 0).
  { subst l. unfold Limited_init. cbn [max_blocks_ used_blocks_].
    pose proof (Z.div_pos (getBlockCapacity a) (n + 1) Hcap ltac:(lia)).
    split; [|done]. destruct (Z.eqb_spec mem 0); rewrite wrap_small by (split; lia); lia. }
  assert (Hslot : slot_ok a (mkSlot CanTxQueue_init (max_blocks_ l) (used_blocks_ l))).
  { destruct Hl as [Hl0 Hl1]. split; cbn [slot_queue slot_max_blocks_ slot_used_blocks_]; [|by intros p Hp%elem_of_nil|lia|lia].
    split; cbn; try constructor; try done. apply not_elem_of_nil. }
  split; cbn [io_pool num_ifaces_ tx_queues_ counters_]; try done.
  - lia.
  - by rewrite length_replicate.
  - intros i slot [-> _]%lookup_replicate. done.
  - intros i j si sj p [-> _]%lookup_replicate _. cbn. by intros Hp%elem_of_nil.
  - by repeat constructor.
Qed.

(** C29: with a clock that reaches the deadline, [send] returns. It keeps all queues
    in order and every block owned once. On each selected interface the frame is
    accepted by the driver exactly once or else, once the deadline for blocking has passed, given to the queue of the interface exactly once
    (never both; neither only when [send] returns the driver failure, which it does only after a call of the driver's [select] has failed), and on no other interface. The queue links
    the frame in, unless its own deadline has passed or there is no memory for it; then the frame or another one may be dropped as [push] does, and is counted.
    The queued frames that were sent on the way left the front of their queue in
    order, with their own deadlines and flags. The result is the amount of frames
    the driver accepted, and the transmission counters count them. *)
Theorem io_send_exactly_once `{!PoolRefill A sizeof_Entry} s frm dl bd mask qs fl
    `{!ClockAdvances W (if dl <? bd then dl else bd)} fuel :
  IO_inv s -> CanFrame_wf frm -> (ticks (deadline := (if dl <? bd then dl else bd)%Z) (io_world s) < fuel)%nat ->
  exists r s' new, IO_send sizeof_Entry fuel s frm dl bd mask qs fl = Some (r, s') /\
    send_done (if dl <? bd then dl else bd) s s' frm dl qs fl (Z.land mask (u8 (Z.shiftl 1 (Z.of_nat (num_ifaces_ s)) - 1))) r new.
Proof.
  intros Hs Hw Ht. unfold IO_send. cbn zeta.
  apply (send_loop_ok (if dl <? bd then dl else bd) fuel s s frm dl qs fl _ _ 0 []); [|done|done].
  by apply send_inv_init.
Qed.

(** With a clock that reaches the deadline, [receive] returns: 0 on timeout, the
    driver failure, or a frame tagged with an existing interface. Meanwhile it only
    sends queued frames, front first and unchanged, keeps the queues in order and
    every block owned once; exactly the received frame is counted, on its
    interface, unless it is a loopback frame. *)
Theorem io_receive_ok s out bd `{!ClockAdvances W bd} fuel :
  IO_inv s -> (ticks (deadline := bd) (io_world s) < fuel)%nat ->
  exists r out' s' new, IO_receive fuel s out bd = Some (r, out', s') /\ receive_done s s' r out' new.
Proof. intros Hs Ht. apply (IO_receive_loop_ok bd fuel s s out []); [by apply evolves_refl|done|done]. Qed.

End io_laws.

(** ** A simulated platform

    The world is the time, which advances with every reading; interface 0 takes
    every frame, interface 1 never does; the same frame can always be read. *)
Module Sim.

#[export] Instance platform : CanPlatform Z := {
  getMonotonic w := (w, w + 1);
  hasIface _ _ := true;
  drv_select w m _ _ := (1, m, w);
  iface_send w i _ _ _ := (if (i =? 0)%nat then 1 else 0, w);
  iface_receive w i out := (1, (mkCanRxFrame (example_tx_frame 5) (w mod 2 ^ 63) 0 7, 0), w);
  iface_getErrorCount _ _ := 0
}.

#[export] Instance clock d : ClockAdvances Z d.
Proof. refine {| ticks := fun w => Z.to_nat (d - w) |}; cbn; intros; lia. Defined.

#[export] Instance frames : DriverFrames Z.
Proof.
  intros w i out. cbn. intros _. split; [|by apply Z.mod_pos_bound].
  pose proof example_tx_frames_wf as [W5 _]%Forall_cons. exact W5.
Defined.

End Sim.
Import Sim.

Lemma sim_capacity : 0 <= getBlockCapacity (PoolAllocator_init 4096 128 64).
Proof. vm_compute. discriminate. Qed.

(** A frame for two interfaces: one takes it, the other one does not. *)
Lemma io_send_exactly_once_witness :
  exists s, CanIOManager_init 0 (PoolAllocator_init 4096 128 64) 2 0 = Some s /\
  exists r s' new, IO_send 64 100 s (example_tx_frame 5) 50 10 7 Volatile 0 = Some (r, s') /\
    send_done (H1 := Pool_laws_at 4096 128 64) 64 10 s s' (example_tx_frame 5) 50 Volatile 0 (Z.land 7 (u8 3)) r new /\
    r = Z.of_nat (length (filter (fun ev => 0 < ev_result ev) (tx_log s'))) /\ length (queue_ (queue_at s' 1)) = 1%nat.
Proof.
  destruct (CanIOManager_init 0 (PoolAllocator_init 4096 128 64) 2 0) as [s|] eqn:E; [|by vm_compute in E].
  exists s. split; [done|].
  pose (laws := Pool_laws_at 4096 128 64). pose (refill := Pool_refill_at 4096 128 64 64 ltac:(lia)).
  assert (Hp : pool_inv (PoolLaws := laws) (PoolAllocator_init 4096 128 64)).
  { split; [exact (proj1 (PoolAllocator_init_ok 4096 128 64 eq_refl eq_refl
      ltac:(vm_compute; split; done)))|split_and!; reflexivity]. }
  pose proof (CanIOManager_init_ok (H1 := laws) 0 (PoolAllocator_init 4096 128 64) 2 0 s Hp
    sim_capacity ltac:(lia) E) as Hs.
  pose proof example_tx_frames_wf as [W5 _]%Forall_cons.
  assert (Hw : io_world s = 0) by (vm_compute in E; by injection E as <-).
  assert (Ht : (ticks (deadline := (if 50 <? 10 then 50 else 10)%Z) (io_world s) < 100)%nat)
    by (rewrite Hw; vm_compute; lia).
  destruct (io_send_exactly_once (H1 := laws) 64 (PoolRefill0 := refill) s (example_tx_frame 5) 50 10 7 Volatile 0 100
    Hs W5 Ht) as (r & s' & new & E' & Hd).
  assert (Hn : num_ifaces_ s = 2%nat) by (vm_compute in E; by injection E as <-). rewrite Hn in Hd.
  exists r, s', new. split; [exact E'|]. split; [exact Hd|]. clear Hd Hs.
  vm_compute in E. injection E as <-. vm_compute in E'. injection E' as <- <-. done.
Defined.

Lemma io_receive_ok_witness :
  exists s, CanIOManager_init 0 (PoolAllocator_init 4096 128 64) 2 0 = Some s /\
  exists r out' s' new, IO_receive 100 s (mkCanRxFrame CanFrame_default 0 0 0, 0) 10 = Some (r, out', s') /\
    receive_done s s' r out' new /\ r = 1 /\ rx_counter s' 0 = 1.
Proof.
  destruct (CanIOManager_init 0 (PoolAllocator_init 4096 128 64) 2 0) as [s|] eqn:E; [|by vm_compute in E].
  exists s. split; [done|].
  pose proof (CanIOManager_init_ok 0 (PoolAllocator_init 4096 128 64) 2 0 s
    (proj1 (PoolAllocator_init_ok 4096 128 64 eq_refl eq_refl ltac:(vm_compute; split; done)))
    sim_capacity ltac:(lia) E) as Hs.
  assert (Hw : io_world s = 0) by (vm_compute in E; by injection E as <-).
  assert (Ht : (ticks (deadline := 10) (io_world s) < 100)%nat) by (rewrite Hw; vm_compute; lia).
  destruct (io_receive_ok s (mkCanRxFrame CanFrame_default 0 0 0, 0) 10 100 Hs Ht)
    as (r & out' & s' & new & E' & Hd).
  exists r, out', s', new. split; [exact E'|]. split; [exact Hd|]. clear Hd Hs.
  vm_compute in E. injection E as <-. vm_compute in E'. injection E' as <- <- <-. done.
Defined.
