(* ===== verification/Dispatcher.v ===== *)
(** * Dispatcher: routing of frames

    Models [Dispatcher], its [ListenerRegistry] and
    [LoopbackFrameListenerRegistry] of
    [libuavcan/include/uavcan/transport/dispatcher.hpp] and
    [src/transport/uc_dispatcher.cpp]. Listeners are objects at addresses, kept in
    intrusive lists; the registry holds them in list order. What the virtual
    callbacks of the application receive is returned as a list of events; the
    callbacks themselves do not call back into the dispatcher here. All parts of
    the dispatcher use one pool, the one of its [CanIOManager]. *)

From stdpp Require Import gmap sorting.
From S2P Require Import Prelude MonoTime Crc Transfer CanFrame Frame LinkedList PoolAllocator PoolClient TransferBuffer.
From S2P Require Import PoolMap TransferReceiver TransferListener OutgoingTransferRegistry CanTxQueue CanIO.
Local Open Scope Z_scope.

(** A listener object: [TransferListener], or [TransferListenerWithFilter] with
    the acceptance filter installed in it. *)
Inductive ListenerKind :=
  | PlainListener
  | FilteredListener (filter : option (RxFrame -> bool)).

Record ListenerObj := mkListenerObj {
  lo_kind : ListenerKind;
  lo_listener : TransferListener
}.

(** [getDataTypeDescriptor().getID()]. *)
Definition lo_dtid (o : ListenerObj) : Z := dt_id (data_type_ (lo_listener o)).

(** [Dispatcher::ListenerRegistry]. *)
Definition ListenerRegistry : Type := list (Z * ListenerObj).

Inductive RegistryMode := UniqueListener | ManyListeners.

(** What the application is told. *)
Inductive DispatcherEvent :=
  | IncomingTransferEvent (listener : Z) (transfer : IncomingTransfer)
  | LoopbackFrameEvent (listener : Z) (frame : RxFrame)
  | RxFrameEvent (frame : CanRxFrame) (flags : Z).

(** [DataTypeIDInsertionComparator::operator()]. *)
Definition DataTypeIDInsertionComparator (id : Z) (o : ListenerObj) : bool := lo_dtid o <? id.

(** [bool ListenerRegistry::add(TransferListener* listener, Mode mode)]; [insertBefore] removes
    the node first if it is linked already. *)
Definition Registry_add (reg : ListenerRegistry) (addr : Z) (o : ListenerObj) (mode : RegistryMode)
    : bool * ListenerRegistry :=
  let duplicate :=
    match mode with
    | UniqueListener => existsb (fun p : Z * ListenerObj => lo_dtid p.2 =? lo_dtid o) reg
    | ManyListeners => false
    end in
  if duplicate then (false, reg)
  else (true, insert_before (fun p : Z * ListenerObj => DataTypeIDInsertionComparator (lo_dtid o) p.2) (addr, o)
                (remove_first (fun p : Z * ListenerObj => addr =? p.1) reg)).

(** [void ListenerRegistry::remove(TransferListener* listener)]. *)
Definition Registry_remove (reg : ListenerRegistry) (addr : Z) : ListenerRegistry :=
  remove_first (fun p : Z * ListenerObj => addr =? p.1) reg.

(** [bool ListenerRegistry::exists(DataTypeID) const]. *)
Fixpoint Registry_exists (reg : ListenerRegistry) (dtid : Z) : bool :=
  match reg with
  | [] => false
  | (_, o) :: next => if lo_dtid o =? dtid then true else Registry_exists next dtid
  end.

(** [LoopbackFrameListenerRegistry]: the listeners' addresses, in list order. *)
Definition Loopback_add (reg : list Z) (listener : Z) : list Z :=
  listener :: remove_first (Z.eqb listener) reg.
Definition Loopback_remove (reg : list Z) (listener : Z) : list Z := remove_first (Z.eqb listener) reg.
Fixpoint Loopback_doesExist (reg : list Z) (listener : Z) : bool :=
  match reg with
  | [] => false
  | p :: next => if p =? listener then true else Loopback_doesExist next listener
  end.
Definition Loopback_invoke (reg : list Z) (frame : RxFrame) : list DispatcherEvent :=
  (fun p => LoopbackFrameEvent p frame) <$> reg.

Section registry.
Context {A : Type} `{IPoolAllocator A} (sizeof_Block sizeof_BufEntry sizeof_KVGroup : Z) (NumKV : nat).

(** [void ListenerRegistry::cleanup(MonotonicTime ts)]. *)
Fixpoint Registry_cleanup (a : A) (reg : ListenerRegistry) (ts : Z) : A * ListenerRegistry :=
  match reg with
  | [] => (a, [])
  | (addr, o) :: next =>
    let '(a, l) := Listener_cleanup a (lo_listener o) ts in
    let '(a, next) := Registry_cleanup a next ts in
    (a, (addr, mkListenerObj (lo_kind o) l) :: next)
  end.

(** The virtual [handleFrame] of a listener. *)
Definition lo_handleFrame (junk : Z -> list Z) (a : A) (o : ListenerObj) (perf : TransferPerfCounter) (frame : RxFrame)
    : list IncomingTransfer * A * ListenerObj * TransferPerfCounter :=
  let '(out, a, l, perf) :=
    match lo_kind o with
    | PlainListener =>
      Listener_handleFrame sizeof_Block sizeof_BufEntry sizeof_KVGroup NumKV junk a (lo_listener o) perf frame
    | FilteredListener filter =>
      ListenerWithFilter_handleFrame sizeof_Block sizeof_BufEntry sizeof_KVGroup NumKV filter junk a
        (lo_listener o) perf frame
    end in
  (out, a, mkListenerObj (lo_kind o) l, perf).

(** [void ListenerRegistry::handleFrame(const RxFrame&)]. *)
Fixpoint Registry_handleFrame (junk : Z -> list Z) (a : A) (reg : ListenerRegistry) (perf : TransferPerfCounter)
    (frame : RxFrame) : list DispatcherEvent * A * ListenerRegistry * TransferPerfCounter :=
  match reg with
  | [] => ([], a, [], perf)
  | (addr, o) :: next =>
    if lo_dtid o =? data_type_id_ (rx_frame frame) then
      let '(out, a, o, perf) := lo_handleFrame junk a o perf frame in
      let '(evs, a, next, perf) := Registry_handleFrame junk a next perf frame in
      ((IncomingTransferEvent addr <$> out) ++ evs, a, (addr, o) :: next, perf)
    else if lo_dtid o <? data_type_id_ (rx_frame frame) then ([], a, (addr, o) :: next, perf)
    else
      let '(evs, a, next, perf) := Registry_handleFrame junk a next perf frame in
      (evs, a, (addr, o) :: next, perf)
  end.

End registry.

(** [Dispatcher]. *)
Record Dispatcher (W A : Type) := mkDispatcher {
  canio_ : CanIOManager W A;
  outgoing_transfer_reg_ : OutgoingTransferRegistry;
  perf_ : TransferPerfCounter;
  lmsg_ : ListenerRegistry;
  lsrv_req_ : ListenerRegistry;
  lsrv_resp_ : ListenerRegistry;
  loopback_listeners_ : list Z;
  rx_listener_ : bool;     (** whether [rx_listener_] is set *)
  self_node_id_ : Z;
  self_node_id_is_set_ : bool
}.
Arguments mkDispatcher {W A}.
Arguments canio_ {W A}.
Arguments outgoing_transfer_reg_ {W A}.
Arguments perf_ {W A}.
Arguments lmsg_ {W A}.
Arguments lsrv_req_ {W A}.
Arguments lsrv_resp_ {W A}.
Arguments loopback_listeners_ {W A}.
Arguments rx_listener_ {W A}.
Arguments self_node_id_ {W A}.
Arguments self_node_id_is_set_ {W A}.

Section dispatcher.
Context {W A : Type} `{CanPlatform W} `{IPoolAllocator A}.
Context (sizeof_TxEntry sizeof_Block sizeof_BufEntry sizeof_RxGroup : Z) (NumRxKV : nat).
Abbreviation D := (Dispatcher W A).

(** The constructor. *)
Definition Dispatcher_init (w : W) (a : A) (num_ifaces : Z) : option D :=
  io ← CanIOManager_init w a num_ifaces 0;
  Some (mkDispatcher io [] (TransferListener.mkPerf 0 0 0) [] [] [] [] false NodeID.Broadcast false).

Definition d_pool (d : D) : A := io_pool (canio_ d).
Definition io_set_pool (s : CanIOManager W A) (a : A) : CanIOManager W A :=
  mkIO (io_world s) a (tx_queues_ s) (counters_ s) (num_ifaces_ s) (tx_log s).

Definition set_io (d : D) (io : CanIOManager W A) : D :=
  mkDispatcher io (outgoing_transfer_reg_ d) (perf_ d) (lmsg_ d) (lsrv_req_ d) (lsrv_resp_ d)
    (loopback_listeners_ d) (rx_listener_ d) (self_node_id_ d) (self_node_id_is_set_ d).
Definition set_otr (d : D) (a : A) (otr : OutgoingTransferRegistry) : D :=
  mkDispatcher (io_set_pool (canio_ d) a) otr (perf_ d) (lmsg_ d) (lsrv_req_ d) (lsrv_resp_ d)
    (loopback_listeners_ d) (rx_listener_ d) (self_node_id_ d) (self_node_id_is_set_ d).
Definition set_perf (d : D) (perf : TransferPerfCounter) : D :=
  mkDispatcher (canio_ d) (outgoing_transfer_reg_ d) perf (lmsg_ d) (lsrv_req_ d) (lsrv_resp_ d)
    (loopback_listeners_ d) (rx_listener_ d) (self_node_id_ d) (self_node_id_is_set_ d).
Definition set_registries (d : D) (a : A) (perf : TransferPerfCounter) (m q r : ListenerRegistry) : D :=
  mkDispatcher (io_set_pool (canio_ d) a) (outgoing_transfer_reg_ d) perf m q r
    (loopback_listeners_ d) (rx_listener_ d) (self_node_id_ d) (self_node_id_is_set_ d).

(** [bool isPassiveMode() const]. *)
Definition isPassiveMode (d : D) : bool := negb (NodeID.isUnicast (self_node_id_ d)).

(** [bool setNodeID(NodeID)]. *)
Definition setNodeID (d : D) (nid : Z) : bool * D :=
  if self_node_id_is_set_ d then (false, d)
  else (true, mkDispatcher (canio_ d) (outgoing_transfer_reg_ d) (perf_ d) (lmsg_ d) (lsrv_req_ d) (lsrv_resp_ d)
                (loopback_listeners_ d) (rx_listener_ d) nid true).

(** [void handleFrame(const CanRxFrame&)]; [mem] is the uninitialised payload of
    the local [RxFrame]. *)
Definition Dispatcher_handleFrame (mem : list Z) (junk : Z -> list Z) (d : D) (can_frame : CanRxFrame)
    : list DispatcherEvent * D :=
  let '(ok, frame) := RxFrame_parse (RxFrame_default mem) can_frame in
  let dst := dst_node_id_ (rx_frame frame) in
  if negb ok then ([], d)
  else if negb (dst =? NodeID.Broadcast) && negb (dst =? self_node_id_ d) then ([], d)
  else
    let handle := Registry_handleFrame sizeof_Block sizeof_BufEntry sizeof_RxGroup NumRxKV junk (d_pool d) in
    match transfer_type_ (rx_frame frame) with
    | TransferTypeMessageBroadcast =>
      let '(evs, a, reg, perf) := handle (lmsg_ d) (perf_ d) frame in
      (evs, set_registries d a perf reg (lsrv_req_ d) (lsrv_resp_ d))
    | TransferTypeServiceRequest =>
      let '(evs, a, reg, perf) := handle (lsrv_req_ d) (perf_ d) frame in
      (evs, set_registries d a perf (lmsg_ d) reg (lsrv_resp_ d))
    | TransferTypeServiceResponse =>
      let '(evs, a, reg, perf) := handle (lsrv_resp_ d) (perf_ d) frame in
      (evs, set_registries d a perf (lmsg_ d) (lsrv_req_ d) reg)
    | NumTransferTypes => ([], d)
    end.

(** [void handleLoopbackFrame(const CanRxFrame&)]. *)
Definition handleLoopbackFrame (mem : list Z) (d : D) (can_frame : CanRxFrame) : list DispatcherEvent :=
  let '(ok, frame) := RxFrame_parse (RxFrame_default mem) can_frame in
  if negb ok then [] else Loopback_invoke (loopback_listeners_ d) frame.

(** [void notifyRxFrameListener(const CanRxFrame&, CanIOFlags)]. *)
Definition notifyRxFrameListener (d : D) (can_frame : CanRxFrame) (flags : Z) : list DispatcherEvent :=
  if rx_listener_ d then [RxFrameEvent can_frame flags] else [].

(** What [spin] and [spinOnce] do with a received frame. *)
Definition process_frame (mem : list Z) (junk : Z -> list Z) (d : D) (frame : CanRxFrame) (flags num : Z)
    : list DispatcherEvent * Z * D :=
  let '(evs, num, d) :=
    if negb (Z.land flags CanIOFlagLoopback =? 0) then (handleLoopbackFrame mem d frame, num, d)
    else let '(evs, d) := Dispatcher_handleFrame mem junk d frame in (evs, num + 1, d) in
  (evs ++ notifyRxFrameListener d frame flags, num, d).

Definition CanRxFrame_default : CanRxFrame := mkCanRxFrame CanFrame_default 0 0 0.

(** [int spin(MonotonicTime deadline)]; [None] is out of fuel, one unit for each
    round of the loop and of [receive]. *)
Fixpoint spin (fuel : nat) (mem : list Z) (junk : Z -> list Z) (d : D) (deadline num : Z)
    : option (list DispatcherEvent * Z * D) :=
  match fuel with
  | O => None
  | S fuel' =>
    '(res, (frame, flags), io) ← IO_receive fuel (canio_ d) (CanRxFrame_default, 0) deadline;
    let d := set_io d io in
    if res <? 0 then Some ([], res, d)
    else
      let '(evs, num, d) := if 0 <? res then process_frame mem junk d frame flags num else ([], num, d) in
      let '(now, io) := read_clock (canio_ d) in
      let d := set_io d io in
      if now <? deadline
      then '(evs', r, d) ← spin fuel' mem junk d deadline num; Some (evs ++ evs', r, d)
      else Some (evs, num, d)
  end.

(** [int spinOnce()]. *)
Fixpoint spinOnce (fuel : nat) (mem : list Z) (junk : Z -> list Z) (d : D) (num : Z)
    : option (list DispatcherEvent * Z * D) :=
  match fuel with
  | O => None
  | S fuel' =>
    '(res, (frame, flags), io) ← IO_receive fuel (canio_ d) (CanRxFrame_default, 0) 0;
    let d := set_io d io in
    if res <? 0 then Some ([], res, d)
    else if 0 <? res then
      let '(evs, num, d) := process_frame mem junk d frame flags num in
      '(evs', r, d) ← spinOnce fuel' mem junk d num; Some (evs ++ evs', r, d)
    else Some ([], num, d)
  end.

(** [int send(const Frame&, ...)]. *)
Definition Dispatcher_send (fuel : nat) (d : D) (frame : Frame) (tx_deadline blocking_deadline : Z) (qos : Qos)
    (flags iface_mask : Z) : option (Z * D) :=
  if negb (src_node_id_ frame =? self_node_id_ d) then Some (- ErrLogic, d)
  else
    let '(ok, can_frame) := Frame_compile frame CanFrame_default in
    if negb ok then Some (- ErrLogic, d)
    else
      '(res, io) ← IO_send sizeof_TxEntry fuel (canio_ d) can_frame tx_deadline blocking_deadline iface_mask qos flags;
      Some (res, set_io d io).

(** [void cleanup(MonotonicTime ts)]. *)
Definition Dispatcher_cleanup (d : D) (ts : Z) : D :=
  let '(a, otr) := Otr_cleanup (d_pool d) (outgoing_transfer_reg_ d) ts in
  let '(a, m) := Registry_cleanup a (lmsg_ d) ts in
  let '(a, q) := Registry_cleanup a (lsrv_req_ d) ts in
  let '(a, r) := Registry_cleanup a (lsrv_resp_ d) ts in
  set_registries (set_otr d a otr) a (perf_ d) m q r.

(** [registerMessageListener] and its siblings. *)
Definition with_registries (d : D) (m q r : ListenerRegistry) : D := set_registries d (d_pool d) (perf_ d) m q r.

Definition registerMessageListener (d : D) (addr : Z) (o : ListenerObj) : bool * D :=
  match dt_kind (data_type_ (lo_listener o)) with
  | DataTypeKindMessage =>
    let '(ok, reg) := Registry_add (lmsg_ d) addr o ManyListeners in
    (ok, with_registries d reg (lsrv_req_ d) (lsrv_resp_ d))
  | _ => (false, d)
  end.
Definition registerServiceRequestListener (d : D) (addr : Z) (o : ListenerObj) : bool * D :=
  match dt_kind (data_type_ (lo_listener o)) with
  | DataTypeKindService =>
    let '(ok, reg) := Registry_add (lsrv_req_ d) addr o UniqueListener in
    (ok, with_registries d (lmsg_ d) reg (lsrv_resp_ d))
  | _ => (false, d)
  end.
Definition registerServiceResponseListener (d : D) (addr : Z) (o : ListenerObj) : bool * D :=
  match dt_kind (data_type_ (lo_listener o)) with
  | DataTypeKindService =>
    let '(ok, reg) := Registry_add (lsrv_resp_ d) addr o ManyListeners in
    (ok, with_registries d (lmsg_ d) (lsrv_req_ d) reg)
  | _ => (false, d)
  end.
Definition unregisterMessageListener (d : D) (addr : Z) : D :=
  with_registries d (Registry_remove (lmsg_ d) addr) (lsrv_req_ d) (lsrv_resp_ d).
Definition unregisterServiceRequestListener (d : D) (addr : Z) : D :=
  with_registries d (lmsg_ d) (Registry_remove (lsrv_req_ d) addr) (lsrv_resp_ d).
Definition unregisterServiceResponseListener (d : D) (addr : Z) : D :=
  with_registries d (lmsg_ d) (lsrv_req_ d) (Registry_remove (lsrv_resp_ d) addr).

Definition hasSubscriber (d : D) (dtid : Z) : bool := Registry_exists (lmsg_ d) dtid.
Definition hasPublisher (d : D) (dtid : Z) : bool :=
  Otr_exists (outgoing_transfer_reg_ d) dtid TransferTypeMessageBroadcast.
Definition hasServer (d : D) (dtid : Z) : bool := Registry_exists (lsrv_req_ d) dtid.

End dispatcher.

(** ** Routing by data type ID *)

Section routing.
Context {A : Type} `{IPoolAllocator A} (sizeof_Block sizeof_BufEntry sizeof_KVGroup : Z) (NumKV : nat).

(** The order of a registry: data type IDs do not increase from the root. *)
Definition registry_order (p q : Z * ListenerObj) : Prop := lo_dtid q.2 <= lo_dtid p.2.
Definition Registry_sorted (reg : ListenerRegistry) : Prop := StronglySorted registry_order reg.

(** The reference: every listener of the data type gets the frame, the others
    are left alone. *)
Fixpoint deliver_all (junk : Z -> list Z) (a : A) (reg : ListenerRegistry) (perf : TransferPerfCounter)
    (frame : RxFrame) : list DispatcherEvent * A * ListenerRegistry * TransferPerfCounter :=
  match reg with
  | [] => ([], a, [], perf)
  | (addr, o) :: next =>
    let '(out, a, o, perf) :=
      if lo_dtid o =? data_type_id_ (rx_frame frame)
      then lo_handleFrame sizeof_Block sizeof_BufEntry sizeof_KVGroup NumKV junk a o perf frame
      else ([], a, o, perf) in
    let '(evs, a, next, perf) := deliver_all junk a next perf frame in
    ((IncomingTransferEvent addr <$> out) ++ evs, a, (addr, o) :: next, perf)
  end.

Lemma deliver_all_none junk a reg perf frame :
  Forall (fun p : Z * ListenerObj => lo_dtid p.2 <> data_type_id_ (rx_frame frame)) reg ->
  deliver_all junk a reg perf frame = ([], a, reg, perf).
Proof.
  induction reg as [|[addr o] reg IH]; intros Hf; [done|]. apply Forall_cons in Hf as [Ho Hf]. cbn [snd] in Ho.
  cbn [deliver_all]. destruct (Z.eqb_spec (lo_dtid o) (data_type_id_ (rx_frame frame))); [done|]. by rewrite IH.
Qed.

Lemma Registry_handleFrame_all junk a reg perf frame :
  Registry_sorted reg ->
  Registry_handleFrame sizeof_Block sizeof_BufEntry sizeof_KVGroup NumKV junk a reg perf frame =
  deliver_all junk a reg perf frame.
Proof.
  intros Hs. revert a perf. induction reg as [|[addr o] reg IH]; intros a perf; [done|].
  apply StronglySorted_inv in Hs as [Hs Hf]. cbn [Registry_handleFrame].
  destruct (Z.eqb_spec (lo_dtid o) (data_type_id_ (rx_frame frame))) as [E|E].
  - cbn [deliver_all]. rewrite (proj2 (Z.eqb_eq _ _) E). by destruct (lo_handleFrame _ _ _ _ _ _ _ _ _) as [[[out a1] o1] perf1]; rewrite IH.
  - destruct (Z.ltb_spec (lo_dtid o) (data_type_id_ (rx_frame frame))) as [Hlt|Hge].
    + rewrite deliver_all_none; [done|]. constructor; [done|]. eapply Forall_impl; [exact Hf|].
      unfold registry_order. cbn. lia.
    + cbn [deliver_all]. rewrite (proj2 (Z.eqb_neq _ _) E), IH by done.
      by destruct (deliver_all junk a reg perf frame) as [[[evs a1] reg1] perf1].
Qed.

(** Listeners keep their data type. *)
Lemma Listener_handleFrame_dt junk a l perf frame :
  data_type_ (Listener_handleFrame sizeof_Block sizeof_BufEntry sizeof_KVGroup NumKV junk a l perf frame).1.2 =
  data_type_ l.
Proof.
  unfold Listener_handleFrame. destruct (NodeID.isUnicast _).
  - destruct (match Map_access _ _ with Some p => _ | None => _ end) as [[[p|] a1] m1]; [|done].
    destruct (get_slot m1 p) as [[k r]|]; [|done].
    by destruct (handleReception _ _ _ _ _ _ _ _ _ _) as [[[[out a2] m2] perf2] r2].
  - destruct (_ && _); [|done]. by destruct (handleAnonymousTransferReception l perf frame).
Qed.

Lemma lo_handleFrame_dt junk a o perf frame :
  lo_dtid (lo_handleFrame sizeof_Block sizeof_BufEntry sizeof_KVGroup NumKV junk a o perf frame).1.2 = lo_dtid o.
Proof.
  unfold lo_handleFrame, lo_dtid. pose proof (Listener_handleFrame_dt junk a (lo_listener o) perf frame) as Hd.
  destruct (lo_kind o) as [|filter]; [by destruct (Listener_handleFrame _ _ _ _ _ _ _ _ _) as [[[? ?] ?] ?];
    cbn in *; rewrite Hd|].
  unfold ListenerWithFilter_handleFrame. destruct filter as [f|]; [|done].
  destruct (f frame); [|done]. destruct (Listener_handleFrame _ _ _ _ _ _ _ _ _) as [[[? ?] ?] ?]. cbn in *. by rewrite Hd.
Qed.

Lemma Listener_cleanup_dt (a : A) l ts : data_type_ (Listener_cleanup a l ts).2 = data_type_ l.
Proof. unfold Listener_cleanup. by destruct (removeAllWhere _ _ _ _ _ _ _) as [[? ?] ?]. Qed.

(** The skeleton of a registry: addresses and data types. *)
Definition skeleton (reg : ListenerRegistry) : list (Z * Z) := (fun p => (p.1, lo_dtid p.2)) <$> reg.

Lemma Registry_sorted_skeleton reg :
  Registry_sorted reg <-> StronglySorted (fun p q : Z * Z => q.2 <= p.2) (skeleton reg).
Proof.
  unfold Registry_sorted, skeleton. induction reg as [|p reg IH]; [split; constructor|].
  rewrite fmap_cons. split; intros [HS HF]%StronglySorted_inv; constructor; try by apply IH.
  - apply Forall_fmap. by eapply Forall_impl; [exact HF|].
  - apply Forall_forall. intros q Hq. apply (proj1 (Forall_forall _ _) HF (q.1, lo_dtid q.2)).
    by apply (list_elem_of_fmap_2 (fun p : Z * ListenerObj => (p.1, lo_dtid p.2))).
Qed.

Lemma deliver_all_skeleton junk a reg perf frame :
  skeleton (deliver_all junk a reg perf frame).1.2 = skeleton reg.
Proof.
  revert a perf. induction reg as [|[addr o] reg IH]; intros a perf; [done|]. cbn [deliver_all].
  pose proof (lo_handleFrame_dt junk a o perf frame) as Hd.
  destruct (if lo_dtid o =? _ then _ else _) as [[[out a1] o1] perf1] eqn:E.
  assert (Ho : lo_dtid o1 = lo_dtid o).
  { destruct (lo_dtid o =? _); [by rewrite E in Hd|by injection E as <- <- <- <-]. }
  specialize (IH a1 perf1). destruct (deliver_all junk a1 reg perf1 frame) as [[[evs a2] reg2] perf2].
  unfold skeleton in *. cbn [fst snd] in *. rewrite !fmap_cons. cbn [fst snd]. by rewrite Ho, IH.
Qed.

Lemma Registry_cleanup_skeleton (a : A) reg ts : skeleton (Registry_cleanup a reg ts).2 = skeleton reg.
Proof.
  revert a. induction reg as [|[addr o] reg IH]; intros a; [done|]. cbn [Registry_cleanup].
  pose proof (Listener_cleanup_dt a (lo_listener o) ts) as Hd.
  destruct (Listener_cleanup a (lo_listener o) ts) as [a1 l1]. specialize (IH a1).
  destruct (Registry_cleanup a1 reg ts) as [a2 reg2]. unfold skeleton in *. cbn [snd] in *.
  rewrite !fmap_cons, IH. unfold lo_dtid. cbn [fst snd lo_listener]. by rewrite Hd.
Qed.

Lemma Registry_remove_sorted reg addr : Registry_sorted reg -> Registry_sorted (Registry_remove reg addr).
Proof. apply StronglySorted_sublist. apply remove_first_sub. Qed.

Lemma Registry_add_ok reg addr o mode :
  Registry_sorted reg ->
  let '(ok, reg') := Registry_add reg addr o mode in
  Registry_sorted reg' /\
  (ok = false <-> mode = UniqueListener /\ lo_dtid o ∈ (lo_dtid ∘ snd) <$> reg) /\
  if ok then exists l1 l2, Registry_remove reg addr = l1 ++ l2 /\ reg' = l1 ++ (addr, o) :: l2 /\
    Forall (fun p => lo_dtid o <= lo_dtid p.2) l1 /\ Forall (fun p => lo_dtid p.2 < lo_dtid o) l2
  else reg' = reg.
Proof.
  intros Hs. unfold Registry_add.
  set (dup := match mode with UniqueListener => _ | ManyListeners => _ end).
  assert (Hdup : dup = true <-> mode = UniqueListener /\ lo_dtid o ∈ (lo_dtid ∘ snd) <$> reg).
  { subst dup. destruct mode; [|naive_solver]. rewrite existsb_exists, list_elem_of_fmap. cbn. split.
    - intros (p & Hin & E%Z.eqb_eq). split; [done|]. exists p. split; [done|]. by apply list_elem_of_In.
    - intros (_ & p & E & Hin). exists p. split; [by apply list_elem_of_In|]. by apply Z.eqb_eq. }
  destruct dup; [split_and!; [done| |done]; split; [intros _; by apply Hdup|done]|].
  pose proof (Registry_remove_sorted reg addr Hs) as Hs1. fold (Registry_remove reg addr).
  destruct (insert_before_split (fun p : Z * ListenerObj => DataTypeIDInsertionComparator (lo_dtid o) p.2) (addr, o)
    (Registry_remove reg addr)) as (l1 & l2 & E & -> & H1 & H2). rewrite E in Hs1.
  assert (F1 : Forall (fun p : Z * ListenerObj => lo_dtid o <= lo_dtid p.2) l1).
  { eapply Forall_impl; [exact H1|]. unfold DataTypeIDInsertionComparator. cbn. lia. }
  assert (F2 : Forall (fun p : Z * ListenerObj => lo_dtid p.2 < lo_dtid o) l2).
  { destruct l2 as [|p l2]; [constructor|]. specialize (H2 p l2 eq_refl). unfold DataTypeIDInsertionComparator in H2.
    apply Z.ltb_lt in H2. constructor; [done|].
    assert (HS2 : StronglySorted registry_order (p :: l2))
      by (eapply StronglySorted_sublist; [|exact Hs1]; by apply sublist_inserts_l).
    apply StronglySorted_inv in HS2 as [_ HF]. eapply Forall_impl; [exact HF|]. unfold registry_order. cbn. lia. }
  split_and!.
  - apply StronglySorted_middle; [done| |]; [eapply Forall_impl; [exact F1|]|eapply Forall_impl; [exact F2|]];
      unfold registry_order; cbn; lia.
  - split; [done|]. intros Hx%Hdup. done.
  - by exists l1, l2.
Qed.

(** The life of a registry. *)
Inductive registry_step : ListenerRegistry -> ListenerRegistry -> Prop :=
  | rs_add reg addr o mode : registry_step reg (Registry_add reg addr o mode).2
  | rs_remove reg addr : registry_step reg (Registry_remove reg addr)
  | rs_cleanup (a : A) reg ts : registry_step reg (Registry_cleanup a reg ts).2
  | rs_frame junk (a : A) reg perf frame : registry_step reg
      (Registry_handleFrame sizeof_Block sizeof_BufEntry sizeof_KVGroup NumKV junk a reg perf frame).1.2.

Lemma registry_step_sorted reg reg' : registry_step reg reg' -> Registry_sorted reg -> Registry_sorted reg'.
Proof.
  intros [r addr o mode|r addr|a r ts|junk a r perf frame] Hs.
  - pose proof (Registry_add_ok r addr o mode Hs) as Hr. destruct (Registry_add r addr o mode). apply Hr.
  - by apply Registry_remove_sorted.
  - apply Registry_sorted_skeleton. rewrite Registry_cleanup_skeleton. by apply Registry_sorted_skeleton.
  - apply Registry_sorted_skeleton. rewrite Registry_handleFrame_all, deliver_all_skeleton by done.
    by apply Registry_sorted_skeleton.
Qed.

(** C38: whatever listeners were added, removed, cleaned up or given frames since the
    registry was empty, [handleFrame], which stops at the first smaller data type
    ID, gives the frame to exactly the listeners of its data type and changes no
    other. A new listener goes behind the older ones of its data type; it is
    refused exactly when it has to be unique and is not. *)
Theorem dispatcher_routes_by_data_type reg addr o mode junk a perf frame :
  rtc registry_step [] reg ->
  Registry_handleFrame sizeof_Block sizeof_BufEntry sizeof_KVGroup NumKV junk a reg perf frame =
    deliver_all junk a reg perf frame /\
  (let '(ok, reg') := Registry_add reg addr o mode in
   (ok = false <-> mode = UniqueListener /\ lo_dtid o ∈ (lo_dtid ∘ snd) <$> reg) /\
   if ok then exists l1 l2, Registry_remove reg addr = l1 ++ l2 /\ reg' = l1 ++ (addr, o) :: l2 /\
     Forall (fun p => lo_dtid o <= lo_dtid p.2) l1 /\ Forall (fun p => lo_dtid p.2 < lo_dtid o) l2
   else reg' = reg).
Proof.
  intros Hr. assert (Hs : Registry_sorted reg).
  { assert (H0 : Registry_sorted []) by constructor. revert H0. generalize (@nil (Z * ListenerObj)) Hr.
    intros r0 Hr0. induction Hr0; [done|]. intros. by apply IHHr0, (registry_step_sorted x). }
  split; [by apply Registry_handleFrame_all|].
  pose proof (Registry_add_ok reg addr o mode Hs) as Ha. destruct (Registry_add reg addr o mode). apply Ha.
Qed.

End routing.

(** ** Received frames *)

(** What a driver hands over. *)
Record CanRx_wf (c : CanRxFrame) : Prop := {
  crw_frame : CanFrame_wf (crx_frame c);
  crw_ts : 0 <= crx_ts_mono c < 2 ^ 63;
  crw_iface : 0 <= crx_iface_index c < MaxCanIfaces
}.

Definition mem_wf (mem : list Z) : Prop := length mem = Z.to_nat PayloadCapacity /\ bytes mem.

Lemma RxFrame_parse_wf mem c frame :
  mem_wf mem -> CanRx_wf c -> RxFrame_parse (RxFrame_default mem) c = (true, frame) ->
  Rx_wf frame /\ Frame_valid (rx_frame frame) /\ Frame_parse (Frame_default mem) (crx_frame c) = (true, rx_frame frame).
Proof.
  intros [Hm Hmb] [Hc Ht Hi]. unfold RxFrame_parse. cbn [RxFrame_default rx_frame].
  rewrite Frame_parse_eq. destruct (acceptable (crx_frame c)) eqn:Ha; [|done].
  destruct (Frame_isValid _) eqn:Hv; [|done]. cbn [negb].
  unfold MTime.isZero. destruct (Z.eqb_spec (crx_ts_mono c) 0) as [|Hz]; [done|]. intros [= <-].
  pose proof (acceptable_dlc (Frame_default mem) Hm _ Ha) as Hd. cbn [rx_frame ts_mono_ ts_utc_ iface_index_]. split_and!.
  - split; cbn [rx_frame ts_mono_ iface_index_].
    + by apply parsed_wf.
    + rewrite parsed_payload_len by done. unfold PayloadCapacity. lia.
    + lia.
    + done.
  - by apply Frame_isValid_spec.
  - done.
Qed.

(** ** Memory *)

Section memory.
Context {W A : Type} `{CanPlatform W} `{PoolLaws A}.
Context (sizeof_TxEntry sizeof_Block sizeof_BufEntry sizeof_RxGroup sizeof_OtrGroup : Z) (NumRxKV NumOtrKV : nat).
Context (B : nat) (HB : 8 < Z.of_nat B <= 255) (HNumRx : (0 < NumRxKV)%nat) (HNumOtr : (0 < NumOtrKV)%nat).
Abbreviation D := (Dispatcher W A).

(** The parts of the dispatcher as clients of the pool. *)

#[local] Instance listener_client : PoolClient A (Z * ListenerObj).
Proof.
  refine {| client_inv := fun a p => Listener_inv NumRxKV B a (lo_listener p.2);
            client_owns := fun p => list_to_set (map_owned (receivers_ (lo_listener p.2)) ++ owned (bufmgr_ (lo_listener p.2))) |}.
  - intros a p Hl. exact (mi_pool _ _ _ _ (li_map _ _ _ _ Hl)).
  - intros a p Hl x. rewrite elem_of_list_to_set, elem_of_app. intros [Hx|Hx].
    + exact (mi_live _ _ _ _ (li_map _ _ _ _ Hl) x Hx).
    + exact (bm_live _ _ _ (li_mgr _ _ _ _ Hl) x Hx).
  - intros a a' p [Hm Hmap Hd Hr Hb] Ha Hs.
    assert (Hin : forall x, x ∈ map_owned (receivers_ (lo_listener p.2)) ++ owned (bufmgr_ (lo_listener p.2)) -> x ∈ live a').
    { intros x Hx. apply Hs. by rewrite elem_of_list_to_set. }
    assert (Hm' : BufMgr_inv B a' (bufmgr_ (lo_listener p.2))).
    { apply (BufMgr_inv_pool B a); [done|done|]. intros x Hx. apply Hin. apply elem_of_app. by right. }
    split; try done.
    + destruct Hmap as [_ _ Hwf]. split; [done| |done]. intros x Hx. apply Hin. apply elem_of_app. by left.
    + intros k r Hkr. destruct (Hr k r Hkr) as [Hk Hrr]. split; [done|]. by apply (Recv_inv_pool B k a).
Defined.

#[local] Instance otr_client : PoolClient A OutgoingTransferRegistry.
Proof.
  refine {| client_inv := fun a m => Map_inv OtrKey_default NumOtrKV a m;
            client_owns := fun m => list_to_set (map_owned m) |}.
  - intros a m Hm. apply Hm.
  - intros a m Hm x. rewrite elem_of_list_to_set. apply Hm.
  - intros a a' m [_ _ Hwf] Ha Hs. split; [done| |done]. intros x Hx. apply Hs. by rewrite elem_of_list_to_set.
Defined.

Definition io_owned (s : CanIOManager W A) : gset Z :=
  ⋃ ((fun slot => list_to_set (tx_owned (slot_queue slot))) <$> tx_queues_ s).

Lemma elem_of_io_owned s x :
  x ∈ io_owned s <-> exists i slot, tx_queues_ s !! i = Some slot /\ x ∈ tx_owned (slot_queue slot).
Proof.
  unfold io_owned. rewrite elem_of_union_list. split.
  - intros (X & (slot & -> & Hin)%list_elem_of_fmap & Hx). apply list_elem_of_lookup in Hin as [i Hi].
    rewrite elem_of_list_to_set in Hx. eauto.
  - intros (i & slot & Hi & Hx). eexists. split; [|by apply elem_of_list_to_set].
    apply (list_elem_of_fmap_2 (fun slot => list_to_set (tx_owned (slot_queue slot)) : gset Z)). by eapply list_elem_of_lookup_2.
Qed.

#[local] Instance io_client : PoolClient A (CanIOManager W A).
Proof.
  refine {| client_inv := fun a s => IO_inv (io_set_pool s a); client_owns := io_owned |}.
  - intros a s Hs. exact (io_pool_ok _ Hs).
  - intros a s Hs x (i & slot & Hi & Hx)%elem_of_io_owned. exact (so_live _ _ (io_slots _ Hs i slot Hi) x Hx).
  - intros a a' s [H1' H2' H3' H4' H5' H6' H7'] Ha Hs. split; try done. intros i slot Hi.
    destruct (H4' i slot Hi) as [S1 S2 S3 S4]. split; try done. intros x Hx. apply Hs, elem_of_io_owned. eauto.
Defined.

Lemma io_set_pool_id (s : CanIOManager W A) : io_set_pool s (io_pool s) = s.
Proof. by destruct s. Qed.

(** A run of the interface manager is a step of a client. *)
Lemma io_step (s s' : CanIOManager W A) :
  IO_inv s' -> (forall p, io_foreign s' p <-> io_foreign s p) -> client_step (io_pool s) s (io_pool s') s'.
Proof.
  intros Hs' Hf. split; [cbn; by rewrite io_set_pool_id|]. apply set_eq. intros x. unfold client_foreign. cbn.
  rewrite !elem_of_difference, !elem_of_io_owned. specialize (Hf x). unfold io_foreign in Hf. naive_solver.
Qed.

Lemma otr_step a m a' m' :
  Map_inv OtrKey_default NumOtrKV a' m' -> map_foreign a' m' = map_foreign a m -> client_step a m a' m'.
Proof. done. Qed.

Lemma listener_client_step a (p : Z * ListenerObj) a' p' :
  Listener_inv NumRxKV B a' (lo_listener p'.2) ->
  listener_foreign a' (lo_listener p'.2) = listener_foreign a (lo_listener p.2) -> client_step a p a' p'.
Proof. done. Qed.

Lemma lo_handleFrame_step junk a addr o perf frame :
  client_inv a (addr, o) -> (forall p, length (junk p) = B) -> Rx_wf frame ->
  let '(_, a', o', _) := lo_handleFrame sizeof_Block sizeof_BufEntry sizeof_RxGroup NumRxKV junk a o perf frame in
  client_step a (addr, o) a' (addr, o').
Proof.
  intros Ho Hj Hw. unfold lo_handleFrame, ListenerWithFilter_handleFrame.
  pose proof (Listener_handleFrame_ok sizeof_Block sizeof_BufEntry sizeof_RxGroup NumRxKV B HB HNumRx junk a
    (lo_listener o) perf frame Ho Hj Hw) as Hh.
  destruct (lo_kind o) as [|[filter|]]; [|destruct (filter frame)|];
    try destruct (Listener_handleFrame _ _ _ _ _ _ _ _ _) as [[[out a'] l'] perf']; try done;
    by apply listener_client_step.
Qed.

Lemma Registry_handleFrame_step junk a reg perf frame :
  client_inv a reg -> (forall p, length (junk p) = B) -> Rx_wf frame ->
  let '(_, a', reg', _) :=
    Registry_handleFrame sizeof_Block sizeof_BufEntry sizeof_RxGroup NumRxKV junk a reg perf frame in
  client_step a reg a' reg'.
Proof.
  intros Hr Hj Hw. revert a perf Hr. induction reg as [|[addr o] reg IH]; intros a perf Hr; cbn [Registry_handleFrame].
  { by apply client_step_refl. }
  destruct (lo_dtid o =? _).
  - pose proof (lo_handleFrame_step junk a addr o perf frame (proj1 Hr) Hj Hw) as Ho.
    destruct (lo_handleFrame _ _ _ _ _ _ _ _ _) as [[[out a1] o1] perf1].
    pose proof (list_step_head a (addr, o) reg a1 (addr, o1) Hr Ho) as H1'.
    specialize (IH a1 perf1 (proj1 (proj2 (proj1 H1')))).
    destruct (Registry_handleFrame _ _ _ _ _ _ _ _ _) as [[[evs a2] reg2] perf2].
    eapply client_step_trans; [exact H1'|]. apply list_step_tail; [apply H1'|done].
  - destruct (lo_dtid o <? _); [by apply client_step_refl|].
    specialize (IH a perf (proj1 (proj2 Hr))).
    destruct (Registry_handleFrame _ _ _ _ _ _ _ _ _) as [[[evs a2] reg2] perf2].
    by apply list_step_tail.
Qed.

Lemma Registry_cleanup_step a reg ts :
  client_inv a reg -> client_step a reg (Registry_cleanup a reg ts).1 (Registry_cleanup a reg ts).2.
Proof.
  revert a. induction reg as [|[addr o] reg IH]; intros a Hr; cbn [Registry_cleanup]; [by apply client_step_refl|].
  pose proof (Listener_cleanup_ok NumRxKV B HB HNumRx a (lo_listener o) ts (proj1 Hr)) as Hc.
  destruct (Listener_cleanup a (lo_listener o) ts) as [a1 l1]. destruct Hc as (Hi & Hf & _).
  pose proof (list_step_head a (addr, o) reg a1 (addr, mkListenerObj (lo_kind o) l1) Hr
    (listener_client_step a (addr, o) a1 (addr, mkListenerObj (lo_kind o) l1) Hi Hf)) as H1'.
  specialize (IH a1 (proj1 (proj2 (proj1 H1')))). destruct (Registry_cleanup a1 reg ts) as [a2 reg2]. cbn [fst snd] in *.
  eapply client_step_trans; [exact H1'|]. apply list_step_tail; [apply H1'|done].
Qed.

(** ** The whole dispatcher *)

Definition d_parts (d : D) := (canio_ d, (outgoing_transfer_reg_ d, (lmsg_ d, (lsrv_req_ d, lsrv_resp_ d)))).

(** Every part is in order, no block has two owners. *)
Definition D_inv (d : D) : Prop := client_inv (d_pool d) (d_parts d).

(** The invariant was kept and the blocks of all others are as they were. *)
Definition D_step (d d' : D) : Prop := client_step (d_pool d) (d_parts d) (d_pool d') (d_parts d').

Lemma D_step_trans d1 d2 d3 : D_step d1 d2 -> D_step d2 d3 -> D_step d1 d3.
Proof. apply client_step_trans. Qed.

Lemma D_inv_io d : D_inv d -> IO_inv (canio_ d).
Proof. intros (Hio & _). cbn in Hio. by rewrite io_set_pool_id in Hio. Qed.

(** The other parts leave the interface manager alone. *)
(** A new dispatcher owns nothing. *)
Lemma Dispatcher_init_ok w a n d :
  pool_inv a -> 0 <= getBlockCapacity a -> Dispatcher_init w a n = Some d -> D_inv d /\ io_world (canio_ d) = w.
Proof.
  intros Ha Hcap E. unfold Dispatcher_init in E. destruct (CanIOManager_init w a n 0) as [io|] eqn:Eio; [|done].
  cbn in E. injection E as <-. pose proof (CanIOManager_init_ok w a n 0 io Ha Hcap ltac:(done) Eio) as Hio.
  assert (io_pool io = a /\ io_world io = w) as [Hpool Hw].
  { unfold CanIOManager_init in Eio. destruct (_ || _); [done|]. by injection Eio as <-. }
  split; [|done]. unfold D_inv, d_parts, d_pool. cbn [canio_ outgoing_transfer_reg_ lmsg_ lsrv_req_ lsrv_resp_].
  split; [cbn [fst]; cbn; by rewrite io_set_pool_id|]. cbn [fst snd]. rewrite Hpool. split.
  - split; [|split].
    + split; [done|by intros p Hx%elem_of_nil|]. split; constructor.
    + split; [done|]. split; [split; [done|split; [done|]]|]; cbn; set_solver.
    + cbn. set_solver.
  - cbn. set_solver.
Qed.

Lemma D_step_others {C} `{!PoolClient A C} a (io : CanIOManager W A) (c : C) a' c' :
  client_inv a (io, c) -> client_step a c a' c' -> client_step a (io, c) a' (io_set_pool io a', c').
Proof. intros Hi Hs. exact (prod_step_r a io c a' c' Hi Hs). Qed.

(** A step of the interface manager. *)
Lemma D_step_io d io :
  D_inv d -> IO_inv io -> (forall p, io_foreign io p <-> io_foreign (canio_ d) p) -> D_step d (set_io d io).
Proof. intros Hd Hi Hf. apply prod_step_l; [done|]. by apply io_step. Qed.

Lemma Dispatcher_handleFrame_step mem junk d c :
  D_inv d -> mem_wf mem -> (forall p, length (junk p) = B) -> CanRx_wf c ->
  D_step d (Dispatcher_handleFrame sizeof_Block sizeof_BufEntry sizeof_RxGroup NumRxKV mem junk d c).2.
Proof.
  intros Hd Hm Hj Hc. unfold Dispatcher_handleFrame.
  destruct (RxFrame_parse (RxFrame_default mem) c) as [ok frame] eqn:Ep.
  destruct ok; cbn [negb]; [|by apply client_step_refl].
  destruct (RxFrame_parse_wf mem c frame Hm Hc Ep) as (Hw & _ & _).
  destruct (_ && _); [by apply client_step_refl|]. cbn zeta.
  pose proof Hd as (_ & (_ & (Hi1 & (Hi2 & Hi3 & _) & _) & _) & _).
  destruct (transfer_type_ (rx_frame frame)); [| | |by apply client_step_refl].
  - pose proof (Registry_handleFrame_step junk (d_pool d) (lsrv_resp_ d) (perf_ d) frame Hi3 Hj Hw) as Hr.
    destruct (Registry_handleFrame _ _ _ _ _ _ _ _ _) as [[[evs a] reg] perf]. cbn [snd].
    apply D_step_others; [done|]. do 2 (apply prod_step_r; [apply Hd|]). apply prod_step_r; [apply Hd|done].
  - pose proof (Registry_handleFrame_step junk (d_pool d) (lsrv_req_ d) (perf_ d) frame Hi2 Hj Hw) as Hr.
    destruct (Registry_handleFrame _ _ _ _ _ _ _ _ _) as [[[evs a] reg] perf]. cbn [snd].
    apply D_step_others; [done|]. do 2 (apply prod_step_r; [apply Hd|]). apply prod_step_l; [apply Hd|done].
  - pose proof (Registry_handleFrame_step junk (d_pool d) (lmsg_ d) (perf_ d) frame Hi1 Hj Hw) as Hr.
    destruct (Registry_handleFrame _ _ _ _ _ _ _ _ _) as [[[evs a] reg] perf]. cbn [snd].
    apply D_step_others; [done|]. apply prod_step_r; [apply Hd|]. apply prod_step_l; [apply Hd|done].
Qed.

Lemma Dispatcher_cleanup_step d ts : D_inv d -> D_step d (Dispatcher_cleanup d ts).
Proof.
  intros Hd. unfold Dispatcher_cleanup, D_step, d_parts in *.
  pose proof Hd as (_ & (Ho & _ & _) & _).
  pose proof (Otr_cleanup_ok NumOtrKV HNumOtr (d_pool d) (outgoing_transfer_reg_ d) ts Ho) as Hc.
  destruct (Otr_cleanup (d_pool d) (outgoing_transfer_reg_ d) ts) as [a1 otr1]. destruct Hc as (Ho1 & Hf1 & _).
  pose proof (prod_step_r _ _ _ _ _ Hd (prod_step_l _ _ _ a1 otr1 (proj1 (proj2 Hd)) (otr_step _ _ _ _ Ho1 Hf1))) as S1.
  pose proof (proj1 S1) as I1. pose proof I1 as (_ & (_ & I1' & _) & _).
  pose proof (Registry_cleanup_step a1 (lmsg_ d) ts (proj1 I1')) as Sm.
  destruct (Registry_cleanup a1 (lmsg_ d) ts) as [a2 m2]. cbn [fst snd] in Sm.
  pose proof (prod_step_r _ _ _ _ _ I1 (prod_step_r _ _ _ _ _ (proj1 (proj2 I1)) (prod_step_l _ _ _ _ _ I1' Sm))) as S2.
  pose proof (proj1 S2) as I2. pose proof I2 as (_ & (_ & (_ & I2' & _) & _) & _).
  pose proof (Registry_cleanup_step a2 (lsrv_req_ d) ts (proj1 I2')) as Sq.
  destruct (Registry_cleanup a2 (lsrv_req_ d) ts) as [a3 q3]. cbn [fst snd] in Sq.
  pose proof (prod_step_r _ _ _ _ _ I2 (prod_step_r _ _ _ _ _ (proj1 (proj2 I2))
    (prod_step_r _ _ _ _ _ (proj1 (proj2 (proj1 (proj2 I2)))) (prod_step_l _ _ _ _ _ I2' Sq)))) as S3.
  pose proof (proj1 S3) as I3. pose proof I3 as (_ & (_ & (_ & I3' & _) & _) & _).
  pose proof (Registry_cleanup_step a3 (lsrv_resp_ d) ts (proj1 (proj2 I3'))) as Sr.
  destruct (Registry_cleanup a3 (lsrv_resp_ d) ts) as [a4 r4]. cbn [fst snd] in Sr.
  pose proof (prod_step_r _ _ _ _ _ I3 (prod_step_r _ _ _ _ _ (proj1 (proj2 I3))
    (prod_step_r _ _ _ _ _ (proj1 (proj2 (proj1 (proj2 I3)))) (prod_step_r _ _ _ _ _ I3' Sr)))) as S4.
  exact (client_step_trans _ _ _ _ _ _ (client_step_trans _ _ _ _ _ _ (client_step_trans _ _ _ _ _ _ S1 S2) S3) S4).
Qed.

(** [send] either refuses the frame and changes nothing, or hands the compiled
    frame to the interfaces. *)
Lemma Dispatcher_send_ok `{!PoolRefill A sizeof_TxEntry} d f dl bd qs fl mask
    `{!ClockAdvances W (if dl <? bd then dl else bd)} fuel :
  D_inv d -> Frame_wf f ->
  (ticks (deadline := (if dl <? bd then dl else bd)%Z) (io_world (canio_ d)) < fuel)%nat ->
  exists r io', Dispatcher_send sizeof_TxEntry fuel d f dl bd qs fl mask = Some (r, set_io d io') /\
    D_step d (set_io d io') /\
    if (src_node_id_ f =? self_node_id_ d) && Frame_isValid f
    then exists c new, Frame_compile f CanFrame_default = (true, c) /\
      send_done sizeof_TxEntry (if dl <? bd then dl else bd) (canio_ d) io' c dl qs fl
        (Z.land mask (u8 (Z.shiftl 1 (Z.of_nat (num_ifaces_ (canio_ d))) - 1))) r new
    else r = - ErrLogic /\ io' = canio_ d.
Proof.
  intros Hd Hf Ht. unfold Dispatcher_send.
  assert (Hself : set_io d (canio_ d) = d) by (by destruct d).
  destruct (Z.eqb_spec (src_node_id_ f) (self_node_id_ d)) as [Hsrc|Hsrc]; cbn [negb andb].
  2: { exists (- ErrLogic), (canio_ d). rewrite Hself. split_and!; done. }
  destruct (Frame_compile f CanFrame_default) as [ok c] eqn:Ec.
  assert (Hok : ok = Frame_isValid f) by (unfold Frame_compile in Ec; by destruct (Frame_isValid f); injection Ec as <- _).
  rewrite <-Hok. destruct ok; cbn [negb].
  2: { exists (- ErrLogic), (canio_ d). rewrite Hself. split_and!; done. }
  assert (Hw : CanFrame_wf c).
  { apply (compiled_wf f CanFrame_default); [done|done| |done]. by apply Forall_replicate. }
  pose proof (D_inv_io d Hd) as Hio. unfold IO_send. cbn zeta.
  destruct (send_loop_ok sizeof_TxEntry (if dl <? bd then dl else bd) fuel (canio_ d) (canio_ d) c dl qs fl _ _ 0 []
    (send_inv_init _ c dl fl (Z.land mask (u8 (Z.shiftl 1 (Z.of_nat (num_ifaces_ (canio_ d))) - 1))) Hio) Hw Ht)
    as (r & io' & new & E & Hdone).
  exists r, io'. rewrite E. split_and!; [done| |by exists c, new].
  apply D_step_io; [done|apply Hdone|apply Hdone].
Qed.

Section spinning.
Context (deadline : Z) `{!ClockAdvances W deadline} `{!DriverFrames W}.
Context (mem : list Z) (Hmem : mem_wf mem) (junk : Z -> list Z) (Hjunk : forall p, length (junk p) = B).
Abbreviation dtk d := (ticks (deadline := deadline) (io_world (canio_ (d : D)))).

Lemma process_frame_step d c fl num :
  D_inv d -> CanRx_wf c ->
  let '(_, _, d') := process_frame sizeof_Block sizeof_BufEntry sizeof_RxGroup NumRxKV mem junk d c fl num in
  D_step d d' /\ io_world (canio_ d') = io_world (canio_ d).
Proof.
  intros Hd Hc. unfold process_frame. destruct (negb _); [split; [by apply client_step_refl|done]|].
  pose proof (Dispatcher_handleFrame_step mem junk d c Hd Hmem Hjunk Hc) as Hs.
  assert (Hw : io_world (canio_ (Dispatcher_handleFrame sizeof_Block sizeof_BufEntry sizeof_RxGroup NumRxKV mem junk d c).2)
    = io_world (canio_ d)).
  { unfold Dispatcher_handleFrame. destruct (RxFrame_parse _ _) as [ok frame]. destruct (negb ok); [done|].
    destruct (_ && _); [done|]. by destruct (transfer_type_ (rx_frame frame)); cbn zeta;
      try destruct (Registry_handleFrame _ _ _ _ _ _ _ _ _) as [[[? ?] ?] ?]. }
  destruct (Dispatcher_handleFrame _ _ _ _ _ _ _ _) as [evs d']. done.
Qed.

Lemma spin_ok fuel d num :
  D_inv d -> (dtk d < fuel)%nat ->
  exists evs r d', spin sizeof_Block sizeof_BufEntry sizeof_RxGroup NumRxKV fuel mem junk d deadline num = Some (evs, r, d') /\
    D_step d d' /\ (dtk d' <= dtk d)%nat.
Proof.
  revert d num. induction fuel as [|fuel IH]; intros d num Hd Ht; [lia|]. cbn [spin].
  pose proof (D_inv_io d Hd) as Hio.
  destruct (IO_receive_loop_ok deadline (S fuel) (canio_ d) (canio_ d) (CanRxFrame_default, 0) [] (evolves_refl _ Hio)
    ltac:(done) Ht) as (res & [f fl] & io & new & Er & Hr).
  pose proof (IO_receive_ticks deadline (S fuel) (canio_ d) (CanRxFrame_default, 0) res (f, fl) io Er) as Tr.
  pose proof (IO_receive_frame (S fuel) (canio_ d) (CanRxFrame_default, 0) deadline res (f, fl) io Er) as Hfr.
  rewrite Er. cbn [mbind option_bind]. cbv beta iota.
  assert (S1 : D_step d (set_io d io)) by (apply D_step_io; [done|apply Hr|apply Hr]).
  destruct (res <? 0); [by eexists _, _, _|].
  set (pr := if 0 <? res then process_frame _ _ _ _ _ _ _ _ _ _ else _).
  assert (Hp : let '(_, _, d2) := pr in D_step d d2 /\ io_world (canio_ d2) = io_world io).
  { subst pr. destruct (Z.ltb_spec 0 res) as [Hpos|]; [|done].
    assert (Hrx : CanRx_wf f).
    { destruct (Hfr Hpos) as [Hcf Hts]. split; [done|done|]. pose proof (rd_result _ _ _ _ _ Hr) as Hres.
      unfold ErrDriver in Hres. destruct Hres as [?|[?|(_ & i & Hi & Hx)]]; [lia|lia|].
      cbn [fst] in Hx. rewrite Hx. pose proof (io_num _ Hio). unfold MaxCanIfaces. lia. }
    pose proof (process_frame_step (set_io d io) f fl num (proj1 S1) Hrx) as Hpf.
    destruct (process_frame _ _ _ _ _ _ _ _ _ _) as [[evs num'] d2]. destruct Hpf as [S2 Hw].
    split; [by eapply D_step_trans|done]. }
  destruct pr as [[evs num2] d2]. destruct Hp as [S2 Hw2].
  pose proof (read_clock_evolves (canio_ d2) (D_inv_io d2 (proj1 S2))) as Ek.
  pose proof (read_clock_ticks deadline (canio_ d2)) as Tk.
  destruct (read_clock (canio_ d2)) as [now io3]. cbn [snd] in Ek.
  assert (S3 : D_step d (set_io d2 io3)).
  { eapply D_step_trans; [exact S2|]. apply D_step_io; [apply S2|apply Ek|apply Ek]. }
  assert (Hle : (dtk (set_io d2 io3) <= dtk d)%nat) by (cbn [set_io canio_]; rewrite Hw2 in Tk; cbn in *; lia).
  destruct (Z.ltb_spec now deadline); [|by eexists _, _, _].
  assert (Hlt : (dtk (set_io d2 io3) < fuel)%nat).
  { cbn [set_io canio_]. rewrite Hw2 in Tk. cbn in *. lia. }
  destruct (IH (set_io d2 io3) num2 (proj1 S3) Hlt) as (evs' & r & d' & -> & S4 & Hle'). cbn [mbind option_bind].
  eexists _, _, _. split; [done|]. split; [by eapply D_step_trans|lia].
Qed.

End spinning.

(** C30: all users of the node's pool get along: while the dispatcher spins on any
    stream of frames (it returns once the deadline has passed), cleans up or sends,
    the transmission queues, the transfer ID registry and every listener's receivers
    and buffers stay well formed, each block has one owner, and blocks that belong
    to nobody of them are left alone. A frame that is not from this node, or is
    malformed, is refused without any effect. *)
Theorem dispatcher_shares_the_pool `{!PoolRefill A sizeof_TxEntry} `{!DriverFrames W} d mem junk
    spin_deadline `{!ClockAdvances W spin_deadline}
    f dl bd qs fl mask `{!ClockAdvances W (if dl <? bd then dl else bd)} ts fuel :
  D_inv d -> mem_wf mem -> (forall p, length (junk p) = B) -> Frame_wf f ->
  (ticks (deadline := spin_deadline) (io_world (canio_ d)) < fuel)%nat ->
  (ticks (deadline := (if dl <? bd then dl else bd)%Z) (io_world (canio_ d)) < fuel)%nat ->
  (exists evs r d', spin sizeof_Block sizeof_BufEntry sizeof_RxGroup NumRxKV fuel mem junk d spin_deadline 0
     = Some (evs, r, d') /\ D_step d d') /\
  D_step d (Dispatcher_cleanup d ts) /\
  exists r io', Dispatcher_send sizeof_TxEntry fuel d f dl bd qs fl mask = Some (r, set_io d io') /\
    D_step d (set_io d io') /\
    ((src_node_id_ f =? self_node_id_ d) && Frame_isValid f = false -> r = - ErrLogic /\ io' = canio_ d).
Proof.
  intros Hd Hm Hj Hf T1 T2. split; [|split].
  - destruct (spin_ok spin_deadline mem Hm junk Hj fuel d 0 Hd T1) as (evs & r & d' & E & S & _). by exists evs, r, d'.
  - by apply Dispatcher_cleanup_step.
  - destruct (Dispatcher_send_ok d f dl bd qs fl mask fuel Hd Hf T2) as (r & io' & E & S & Hr).
    exists r, io'. split_and!; [done|done|]. intros Hx. by rewrite Hx in Hr.
Qed.

End memory.

(** ** Witnesses *)

Definition example_obj (dtid : Z) : ListenerObj :=
  mkListenerObj PlainListener (TransferListener_init (mkDescriptor DataTypeKindMessage dtid 0x123456789) 100).

(** Three listeners of two data types. *)
Lemma dispatcher_routes_by_data_type_witness :
  let pool := PoolAllocator_init 4096 640 64 in
  let reg := [(0x200, example_obj 20); (0x100, example_obj 10); (0x300, example_obj 10)] in
  let frame := mkRxFrame (mkFrame [1; 2; 3; 4; 5; 6; 7] 16 TransferTypeMessageBroadcast 20 5 42 0 3 true true false) 77 0 1 in
  Registry_handleFrame 64 64 64 2 (fun _ => []) pool reg (TransferListener.mkPerf 0 0 0) frame =
    deliver_all 64 64 64 2 (fun _ => []) pool reg (TransferListener.mkPerf 0 0 0) frame /\
  length (Registry_handleFrame 64 64 64 2 (fun _ => []) pool reg (TransferListener.mkPerf 0 0 0) frame).1.1.1 = 1%nat.
Proof.
  intros pool reg frame. split; [|vm_compute; reflexivity].
  refine (proj1 (dispatcher_routes_by_data_type 64 64 64 2 reg 0x400 (example_obj 10) ManyListeners (fun _ => [])
    pool (TransferListener.mkPerf 0 0 0) frame _)).
  eapply rtc_l; [apply (rs_add 64 64 64 2 [] 0x100 (example_obj 10) ManyListeners)|].
  eapply rtc_l; [apply (rs_add 64 64 64 2 _ 0x200 (example_obj 20) ManyListeners)|].
  eapply rtc_l; [apply (rs_add 64 64 64 2 _ 0x300 (example_obj 10) ManyListeners)|]. apply rtc_refl.
Defined.

Lemma example_frame_tx_wf :
  Frame_wf (mkFrame [1; 2; 3; 4; 5; 6; 7] 16 TransferTypeMessageBroadcast 20 5 42 0 3 true true false).
Proof. split; cbn; repeat constructor; done. Qed.

Import CanIO.Sim.

(** A fresh dispatcher on a simulated bus. *)
Lemma dispatcher_shares_the_pool_witness :
  exists d : Dispatcher Z PoolAllocator, Dispatcher_init 0 (PoolAllocator_init 4096 128 64) 2 = Some d /\
  exists evs r d', spin 64 64 64 2 100 (replicate 7 0) (fun _ => replicate 60 0) d 10 0 = Some (evs, r, d') /\
    D_step (H1 := Pool_laws_at 4096 128 64) 2 2 60 d d'.
Proof.
  destruct (Dispatcher_init 0 (PoolAllocator_init 4096 128 64) 2) as [d|] eqn:E; [|by vm_compute in E].
  exists d. split; [done|].
  pose (laws := Pool_laws_at 4096 128 64). pose (refill := Pool_refill_at 4096 128 64 64 ltac:(lia)).
  assert (Hp : pool_inv (PoolLaws := laws) (PoolAllocator_init 4096 128 64)).
  { split; [exact (proj1 (PoolAllocator_init_ok 4096 128 64 eq_refl eq_refl
      ltac:(vm_compute; split; done)))|split_and!; reflexivity]. }
  destruct (Dispatcher_init_ok (H1 := laws) 2 2 60 ltac:(lia) ltac:(lia) ltac:(lia) 0 _ 2 d Hp sim_capacity E) as [Hd Hw].
  assert (Ht : forall bd, bd <= 10 -> (ticks (deadline := bd) (io_world (canio_ d)) < 100)%nat) by (intros; rewrite Hw; cbn; lia).
  assert (Hm : mem_wf (replicate 7 0)) by (split; [done|by apply Forall_replicate]).
  exact (proj1 (dispatcher_shares_the_pool (H1 := laws) 64 64 64 64 2 2 60 ltac:(lia) ltac:(lia) ltac:(lia)
    (PoolRefill0 := refill) _ (replicate 7 0) (fun _ => replicate 60 0) 10 _ 50 10 Volatile 0 7 5 100 Hd
    Hm (fun _ => eq_refl)
    example_frame_tx_wf (Ht 10 ltac:(lia)) (Ht (if 50 <? 10 then 50 else 10) ltac:(done)))).
Defined.
