(* ===== verification/AcceptanceFilter.v ===== *)
(** * AcceptanceFilter: configuration of the CAN acceptance filters

    Models [CanAcceptanceFilterConfigurator] of
    [libuavcan/include/uavcan/transport/can_acceptance_filter_configurator.hpp] and
    [src/transport/uc_can_acceptance_filter_configurator.cpp]: one filter per message
    listener, one for services and one for anonymous messages, merged pairwise until they
    fit the hardware. The configurations live in a multiset on the pool ([PoolMultiset]).
    What the configurator asks of the driver is the class [FilterDriver]. A null pointer
    dereference is [None]. *)

From stdpp Require Import gmap list_numbers.
From S2P Require Import Prelude LinkedList PoolAllocator PoolMultiset Transfer CanFrame BitField Frame TransferListener Dispatcher.
Local Open Scope Z_scope.

(** ** The driver *)

(** What the configurator uses of [ICanDriver] and [ICanIface]: whether an interface pointer is
    null, the number of its filters, and loading filters into it. *)
Class FilterDriver (D : Type) := {
  fd_iface : D -> Z -> bool;
  fd_getNumFilters : D -> Z -> Z;
  fd_configureFilters : D -> Z -> list CanFilterConfig -> Z * D
}.

(** ** Constants and pure functions *)

Definition MaxCanAcceptanceFilters : Z := 32.
Definition DefaultFilterMsgMask : Z := 0xFFFF80.
Definition DefaultFilterServiceMask : Z := 0x7F80.
Definition DefaultFilterServiceID : Z := 0x80.
Definition DefaultAnonMsgMask : Z := 0xFF.
Definition DefaultAnonMsgID : Z := 0.

Inductive AnonymousMessages := AcceptAnonymousMessages | IgnoreAnonymousMessages.

(** [CanFilterConfig mergeFilters(CanFilterConfig& a_, CanFilterConfig& b_)]. *)
Definition mergeFilters (a_ b_ : CanFilterConfig) : CanFilterConfig :=
  let mask := u32 (Z.land (Z.land (filter_mask a_) (filter_mask b_)) (Z.lnot (Z.lxor (filter_id a_) (filter_id b_)))) in
  mkCanFilterConfig (Z.land (filter_id a_) mask) mask.

(** The loop of [countBits]: one bit of [n_] is cleared in every round. *)
Fixpoint countBits_loop (fuel : nat) (n_ c_ : Z) : Z :=
  match fuel with
  | O => c_
  | S fuel => if n_ =? 0 then c_ else countBits_loop fuel (Z.land n_ (u32 (n_ - 1))) (u8 (c_ + 1))
  end.

(** [uint8_t countBits(uint32_t n_)]; 33 rounds are enough for 32 bits. *)
Definition countBits (n_ : Z) : Z := countBits_loop 33 n_ 0.

(** The configurations of [loadInputConfiguration]. *)
Definition anon_frame_cfg : CanFilterConfig :=
  mkCanFilterConfig (Z.lor DefaultAnonMsgID FlagEFF)
    (Z.lor (Z.lor (Z.lor DefaultAnonMsgMask FlagEFF) FlagRTR) FlagERR).

Definition service_cfg (node_id : Z) : CanFilterConfig :=
  mkCanFilterConfig (Z.lor DefaultFilterServiceID (Z.lor (u32 (Z.shiftl node_id 8)) FlagEFF))
    (Z.lor (Z.lor (Z.lor DefaultFilterServiceMask FlagEFF) FlagRTR) FlagERR).

Definition message_cfg (dtid : Z) : CanFilterConfig :=
  mkCanFilterConfig (Z.lor (u32 (Z.shiftl (DataTypeID.get dtid) 8)) FlagEFF)
    (Z.lor (Z.lor (Z.lor DefaultFilterMsgMask FlagEFF) FlagRTR) FlagERR).

(** ** The configurator *)

Section configurator.
Context (NumItems : nat) (sizeof_Chunk : Z).
Context {A : Type} `{IPoolAllocator A} {D : Type} `{FilterDriver D}.

(** [CanAcceptanceFilterConfigurator], but for the node. *)
Record Configurator := mkConfigurator {
  multiset_configs_ : Multiset CanFilterConfig;
  filters_number_ : Z
}.

(** [explicit CanAcceptanceFilterConfigurator(INode& node, uint16_t filters_number = 0)]. *)
Definition Configurator_init (filters_number : Z) : Configurator := mkConfigurator [] filters_number.

Definition set_configs (c : Configurator) (m : Multiset CanFilterConfig) : Configurator := mkConfigurator m (filters_number_ c).

(** [bool operator==] inside [removeFirst(const T& ref)]. *)
Definition filter_eqb (ref sample : CanFilterConfig) : bool :=
  (filter_id sample =? filter_id ref) && (filter_mask sample =? filter_mask ref).

(** The loop of [getNumFilters] over the interfaces from [i] on. *)
Fixpoint getNumFilters_loop (d : D) (i : Z) (n : nat) (out : Z) : Z :=
  match n with
  | O => out
  | S n =>
    if fd_iface d i then
      let num := fd_getNumFilters d i in
      let out := Z.min out num in
      getNumFilters_loop d (i + 1) n (if MaxCanAcceptanceFilters <? out then MaxCanAcceptanceFilters else out)
    else 0
  end.

(** [uint16_t getNumFilters() const], with [num_ifaces] interfaces. *)
Definition getNumFilters (d : D) (num_ifaces : nat) (c : Configurator) : Z :=
  if filters_number_ c =? 0 then
    let out := getNumFilters_loop d 0 num_ifaces 0xFFFF in
    if out =? 0xFFFF then 0 else out
  else filters_number_ c.

(** The loop of [loadInputConfiguration] over the message listeners. *)
Fixpoint load_listeners (a : A) (m : Multiset CanFilterConfig) (p : ListenerRegistry) : Z * A * Multiset CanFilterConfig :=
  match p with
  | [] => (0, a, m)
  | (_, o) :: p =>
    match emplace NumItems sizeof_Chunk a m (message_cfg (lo_dtid o)) with
    | (None, a, m) => (- ErrMemory, a, m)
    | (Some _, a, m) => load_listeners a m p
    end
  end.

(** The part of [loadInputConfiguration] after the anonymous configuration. *)
Definition load_rest (a : A) (c : Configurator) (m : Multiset CanFilterConfig) (node_id : Z) (lmsg : ListenerRegistry)
    : Z * A * Configurator :=
  match emplace NumItems sizeof_Chunk a m (service_cfg node_id) with
  | (None, a, m) => (- ErrMemory, a, set_configs c m)
  | (Some _, a, m) =>
    let '(res, a, m) := load_listeners a m lmsg in
    if negb (res =? 0) then (res, a, set_configs c m)
    else if Multiset_getSize m =? 0 then (- ErrLogic, a, set_configs c m) else (0, a, set_configs c m)
  end.

(** [int16_t loadInputConfiguration(AnonymousMessages load_mode)] of a node with ID [node_id] and
    these message listeners. *)
Definition loadInputConfiguration (a : A) (c : Configurator) (node_id : Z) (lmsg : ListenerRegistry)
    (load_mode : AnonymousMessages) : Z * A * Configurator :=
  let '(a, m) := Multiset_clear a (multiset_configs_ c) in
  match load_mode with
  | AcceptAnonymousMessages =>
    match emplace NumItems sizeof_Chunk a m anon_frame_cfg with
    | (None, a, m) => (- ErrMemory, a, set_configs c m)
    | (Some _, a, m) => load_rest a c m node_id lmsg
    end
  | IgnoreAnonymousMessages => load_rest a c m node_id lmsg
  end.

(** [*multiset_configs_.getByIndex(index)]. *)
Definition config_at (m : Multiset CanFilterConfig) (index : Z) : option CanFilterConfig :=
  s ← Multiset_getByIndex m index; get_item m s.

(** The body of the inner loop of [mergeConfigurations]: [best] is [best_rank], [i_rank], [j_rank]. *)
Definition rank_pair (m : Multiset CanFilterConfig) (i_ind j_ind : Z) (best : Z * Z * Z) : option (Z * Z * Z) :=
  a_ ← config_at m i_ind;
  b_ ← config_at m j_ind;
  let temp_config := mergeFilters a_ b_ in
  let rank := countBits (filter_mask temp_config) in
  let '(best_rank, i_rank, j_rank) := best in
  Some (if best_rank <? rank then (rank, i_ind, j_ind) else (best_rank, i_rank, j_rank)).

(** A loop over indices that may fail. *)
Definition for_each {X} (f : Z -> X -> option X) (idx : list Z) (x : X) : option X :=
  foldl (fun x i => x ← x; f i x) (Some x) idx.

(** Both loops. *)
Definition find_best (m : Multiset CanFilterConfig) : option (Z * Z * Z) :=
  let multiset_array_size := u16 (Multiset_getSize m) in
  for_each (fun i_ind =>
    let first := u8 (i_ind + 1) in
    for_each (rank_pair m i_ind) (seqZ first (multiset_array_size - first)))
    (seqZ 0 (multiset_array_size - 1)) (0, 0, 0).

(** One round of the loop of [mergeConfigurations]. *)
Definition merge_step (a : A) (m : Multiset CanFilterConfig) : option (A * Multiset CanFilterConfig) :=
  '(_, i_rank, j_rank) ← find_best m;
  a_ ← config_at m i_rank;
  b_ ← config_at m j_rank;
  p ← Multiset_getByIndex m j_rank;
  let m := set_item m p (Some (mergeFilters a_ b_)) in
  ref ← config_at m i_rank;
  Some (removeFirstWhere (filter_eqb ref) a m).

Fixpoint merge_loop (fuel : nat) (acceptance_filters_number : Z) (a : A) (m : Multiset CanFilterConfig)
    : option (A * Multiset CanFilterConfig) :=
  if acceptance_filters_number <? Multiset_getSize m then
    match fuel with
    | O => None
    | S fuel => '(a, m) ← merge_step a m; merge_loop fuel acceptance_filters_number a m
    end
  else Some (a, m).

(** [int16_t mergeConfigurations()]; every round removes a configuration. *)
Definition mergeConfigurations (d : D) (num_ifaces : nat) (a : A) (c : Configurator) : option (Z * A * Configurator) :=
  let acceptance_filters_number := getNumFilters d num_ifaces c in
  if acceptance_filters_number =? 0 then Some (- ErrDriver, a, c)
  else
    '(a, m) ← merge_loop (Z.to_nat (Multiset_getSize (multiset_configs_ c))) acceptance_filters_number a (multiset_configs_ c);
    Some (0, a, set_configs c m).

(** [int computeConfiguration(AnonymousMessages mode)]. *)
Definition computeConfiguration (d : D) (num_ifaces : nat) (a : A) (c : Configurator) (node_id : Z) (lmsg : ListenerRegistry)
    (mode : AnonymousMessages) : option (Z * A * Configurator) :=
  if getNumFilters d num_ifaces c =? 0 then Some (- ErrDriver, a, c)
  else
    let '(fill_array_error, a, c) := loadInputConfiguration a c node_id lmsg mode in
    if negb (fill_array_error =? 0) then Some (fill_array_error, a, c)
    else mergeConfigurations d num_ifaces a c.

(** [int addFilterConfig(const CanFilterConfig& config)]. *)
Definition addFilterConfig (a : A) (c : Configurator) (config : CanFilterConfig) : Z * A * Configurator :=
  let '(s, a, m) := emplace NumItems sizeof_Chunk a (multiset_configs_ c) config in
  (match s with None => - ErrMemory | Some _ => 0 end, a, set_configs c m).

(** The loop of [applyConfiguration] over the interfaces. *)
Fixpoint apply_loop (d : D) (i : Z) (n : nat) (filter_conf_array : list CanFilterConfig) : Z * D :=
  match n with
  | O => (0, d)
  | S n =>
    if fd_iface d i then
      let '(num, d) := fd_configureFilters d i filter_conf_array in
      if num <? 0 then (- ErrDriver, d) else apply_loop d (i + 1) n filter_conf_array
    else (- ErrDriver, d)
  end.

(** [int applyConfiguration()]. *)
Definition applyConfiguration (d : D) (num_ifaces : nat) (a : A) (c : Configurator) : option (Z * D * A * Configurator) :=
  let filter_array_size := Multiset_getSize (multiset_configs_ c) in
  let acceptance_filters_number := getNumFilters d num_ifaces c in
  if acceptance_filters_number =? 0 then Some (- ErrDriver, d, a, c)
  else
    '(a, c) ← (if acceptance_filters_number <? filter_array_size then
                 '(_, a, c) ← mergeConfigurations d num_ifaces a c; Some (a, c)
               else Some (a, c));
    let filter_array_size := Multiset_getSize (multiset_configs_ c) in
    if MaxCanAcceptanceFilters <? filter_array_size then Some (- ErrLogic, d, a, c)
    else
      filter_conf_array ← mapM (config_at (multiset_configs_ c)) (seqZ 0 filter_array_size);
      let '(res, d) := apply_loop d 0 num_ifaces filter_conf_array in
      Some (res, d, a, c).

(** [int configureCanAcceptanceFilters(INode& node, AnonymousMessages mode)]; the configurator is
    destroyed on return. *)
Definition configureCanAcceptanceFilters (d : D) (num_ifaces : nat) (a : A) (node_id : Z) (lmsg : ListenerRegistry)
    (mode : AnonymousMessages) : option (Z * D * A) :=
  '(compute_res, a, c) ← computeConfiguration d num_ifaces a (Configurator_init 0) node_id lmsg mode;
  if compute_res <? 0 then Some (compute_res, d, (Multiset_clear a (multiset_configs_ c)).1)
  else
    '(res, d, a, c) ← applyConfiguration d num_ifaces a c;
    Some (res, d, (Multiset_clear a (multiset_configs_ c)).1).

End configurator.

(** ** What a filter accepts *)

(** A filter accepts the identifiers that agree with its own in the bits of the mask. *)
Definition accepts (c : CanFilterConfig) (id : Z) : bool := Z.land (Z.lxor id (filter_id c)) (filter_mask c) =? 0.

(** A set of filters lets through what one of them accepts. *)
Definition passes (cfgs : list CanFilterConfig) (id : Z) : Prop := exists c, c ∈ cfgs /\ accepts c id = true.

Lemma accepts_spec c id :
  accepts c id = true <->
  forall i, 0 <= i -> Z.testbit (filter_mask c) i = true -> Z.testbit id i = Z.testbit (filter_id c) i.
Proof.
  unfold accepts. rewrite Z.eqb_eq. split.
  - intros H0 i Hi Hm. assert (Z.testbit (Z.land (Z.lxor id (filter_id c)) (filter_mask c)) i = false) as Hb
      by (rewrite H0; apply Z.bits_0).
    rewrite Z.land_spec, Z.lxor_spec, Hm, andb_true_r in Hb. by apply xorb_eq in Hb.
  - intros Hall. apply Z.bits_inj'. intros i Hi. rewrite Z.land_spec, Z.lxor_spec, Z.bits_0.
    destruct (Z.testbit (filter_mask c) i) eqn:E; [|by rewrite andb_false_r].
    rewrite (Hall i Hi E), xorb_nilpotent. done.
Qed.

Lemma mergeFilters_bits a b i : 0 <= i ->
  Z.testbit (filter_mask (mergeFilters a b)) i =
    (i <? 32) && (Z.testbit (filter_mask a) i && Z.testbit (filter_mask b) i &&
                  negb (xorb (Z.testbit (filter_id a) i) (Z.testbit (filter_id b) i))) /\
  Z.testbit (filter_id (mergeFilters a b)) i = Z.testbit (filter_id a) i && Z.testbit (filter_mask (mergeFilters a b)) i.
Proof.
  intros Hi. unfold mergeFilters. cbn [filter_mask filter_id].
  rewrite Z.land_spec, in_width_wrap_testbit, !Z.land_spec, Z.lnot_spec, Z.lxor_spec by lia. done.
Qed.

(** A merged filter accepts whatever one of the two accepted. *)
Lemma mergeFilters_accepts a b id :
  accepts a id = true \/ accepts b id = true -> accepts (mergeFilters a b) id = true.
Proof.
  intros Hab. apply accepts_spec. intros i Hi. destruct (mergeFilters_bits a b i Hi) as [Em ->]. rewrite Em. intros Hm.
  rewrite Hm. apply andb_true_iff in Hm as [_ [[Ma Mb]%andb_true_iff Hx]%andb_true_iff].
  apply negb_true_iff, xorb_eq in Hx. rewrite andb_true_r.
  destruct Hab as [Ha|Hb]; [exact (proj1 (accepts_spec _ _) Ha i Hi Ma)|].
  rewrite Hx. exact (proj1 (accepts_spec _ _) Hb i Hi Mb).
Qed.

(** ** The number of set bits *)

Fixpoint pop (p : positive) : Z :=
  match p with
  | xI p => 1 + pop p
  | xO p => pop p
  | xH => 1
  end.
Definition popcount (n : Z) : Z := match n with Zpos p => pop p | _ => 0 end.

Lemma popcount_double n : popcount (2 * n) = popcount n.
Proof. by destruct n. Qed.

Lemma pop_pos p : 0 < pop p.
Proof. induction p; cbn [pop]; lia. Qed.

Lemma land_even_r x y b : Z.land (2 * x + Z.b2z b) (2 * y) = 2 * Z.land x y.
Proof.
  apply Z.bits_inj'. intros i Hi. rewrite Z.land_spec.
  destruct (decide (i = 0)) as [->|Hne]; [by rewrite !Z.testbit_even_0, andb_false_r|].
  replace i with (Z.succ (i - 1)) by lia. rewrite !Z.testbit_even_succ, Z.land_spec by lia. f_equal.
  destruct b; [apply Z.testbit_odd_succ; lia|]. rewrite Z.add_0_r. apply Z.testbit_even_succ. lia.
Qed.

(** Clearing the lowest set bit. *)
Lemma popcount_clear p : popcount (Z.land (Zpos p) (Zpos p - 1)) = pop p - 1.
Proof.
  induction p as [p IH|p IH|]; [| |done].
  - change (Zpos p~1 - 1) with (2 * Zpos p). change (Zpos p~1) with (2 * Zpos p + Z.b2z true).
    rewrite land_even_r, Z.land_diag, popcount_double. cbn [popcount pop]. lia.
  - change (Zpos p~0) with (2 * Zpos p). rewrite Z.land_comm. replace (2 * Zpos p - 1) with (2 * (Zpos p - 1) + Z.b2z true) by (cbn; lia).
    rewrite land_even_r, popcount_double, Z.land_comm. exact IH.
Qed.

Lemma pop_bound p k : 0 <= k -> Zpos p < 2 ^ k -> pop p <= k.
Proof.
  revert k. induction p as [p IH|p IH|]; intros k Hk Hp; cbn [pop].
  - destruct (decide (k = 0)) as [->|]; [lia|]. replace k with (Z.succ (k - 1)) in Hp |- * by lia.
    rewrite Z.pow_succ_r in Hp by lia. specialize (IH (k - 1) ltac:(lia) ltac:(lia)). lia.
  - destruct (decide (k = 0)) as [->|]; [lia|]. replace k with (Z.succ (k - 1)) in Hp |- * by lia.
    rewrite Z.pow_succ_r in Hp by lia. specialize (IH (k - 1) ltac:(lia) ltac:(lia)). lia.
  - destruct (decide (k = 0)) as [->|]; [cbn in Hp; lia|lia].
Qed.

Lemma countBits_loop_ok fuel n c :
  in_width 32 n -> popcount n < Z.of_nat fuel -> 0 <= c -> c + popcount n < 256 ->
  countBits_loop fuel n c = c + popcount n.
Proof.
  revert n c. induction fuel as [|fuel IH]; intros n c Hn Hf Hc Hs.
  - destruct n as [|p|p]; cbn in *; try lia. pose proof (pop_pos p). lia.
  - cbn [countBits_loop]. destruct n as [|p|p]; [cbn; lia| |destruct Hn; lia]. cbn [Z.eqb popcount] in *.
    pose proof (pop_pos p). rewrite (wrap_small 32 (Zpos p - 1)) by (destruct Hn; split; lia).
    rewrite (wrap_small 8 (c + 1)) by (split; lia). pose proof (popcount_clear p) as Hp.
    rewrite IH; [lia| |lia|lia|lia]. apply in_width_land; [lia|done|lia].
Qed.

(** [countBits] counts the set bits. *)
Lemma countBits_ok n : in_width 32 n -> countBits n = popcount n.
Proof.
  intros Hn. assert (Hp : popcount n <= 32).
  { destruct n as [|p|p]; cbn [popcount]; try lia. destruct Hn. apply pop_bound; lia. }
  unfold countBits. rewrite countBits_loop_ok; [lia|done| |lia|lia]. change (Z.of_nat 33) with 33. lia.
Qed.

Lemma countBits_pos n : in_width 32 n -> n <> 0 -> 0 < countBits n.
Proof.
  intros Hn Hne. rewrite countBits_ok by done. destruct n as [|p|p]; [done| |destruct Hn; lia]. apply pop_pos.
Qed.

(** ** Loops and lists *)

Lemma for_each_seqZ {X} (f : Z -> X -> option X) (P : Z -> X -> Prop) s n x :
  0 <= n -> P s x ->
  (forall i x, s <= i < s + n -> P i x -> exists x', f i x = Some x' /\ P (i + 1) x') ->
  exists x', for_each f (seqZ s n) x = Some x' /\ P (s + n) x'.
Proof.
  intros Hn. revert s x. pattern n. apply natlike_ind; [| |done].
  - intros s x Hx _. exists x. rewrite Z.add_0_r. done.
  - clear n Hn. intros n Hn IH s x Hx Hstep. rewrite seqZ_cons by lia.
    destruct (Hstep s x ltac:(lia) Hx) as (x1 & E1 & K1).
    destruct (IH (Z.succ s) x1) as (x' & E' & H'); [by rewrite <-Z.add_1_r|intros; apply Hstep; [lia|done]|].
    exists x'. rewrite Z.pred_succ. unfold for_each in *. cbn [foldl mbind option_bind]. rewrite E1, E'. split; [done|].
    by replace (s + Z.succ n) with (Z.succ s + n) by lia.
Qed.

(** Two places of a list, brought to the front. *)
Lemma two_places {X} (l : list X) i j c d :
  (i < j)%nat -> l !! i = Some c -> l !! j = Some d ->
  exists rest, l ≡ₚ c :: d :: rest /\ forall x, <[j := x]> l ≡ₚ c :: x :: rest.
Proof.
  intros Hij Hi Hj. pose proof (lookup_lt_Some _ _ _ Hi) as Hli. pose proof (lookup_lt_Some _ _ _ Hj) as Hlj.
  set (l1 := take i l). set (l2 := take (j - S i) (drop (S i) l)). set (l3 := drop (S j) l).
  assert (E : l = l1 ++ c :: l2 ++ d :: l3).
  { rewrite <-(take_drop_middle l i c Hi) at 1. unfold l1. do 2 f_equal.
    assert (Hd : drop (S i) l !! (j - S i)%nat = Some d) by (rewrite lookup_drop; by replace (S i + (j - S i))%nat with j by lia).
    rewrite <-(take_drop_middle _ _ d Hd) at 1. unfold l2, l3. rewrite drop_drop. do 3 f_equal. lia. }
  assert (Hl1 : length l1 = i) by (unfold l1; rewrite length_take; lia).
  assert (Hl2 : length l2 = (j - S i)%nat) by (unfold l2; rewrite length_take, length_drop; lia).
  exists (l1 ++ l2 ++ l3). clearbody l1 l2 l3. subst l. split; [solve_Permutation|]. intros x.
  rewrite insert_app_r_alt by lia. replace (j - length l1)%nat with (S (length l2 + 0)) by lia.
  change (<[S (length l2 + 0) := x]> (c :: l2 ++ d :: l3)) with (c :: <[(length l2 + 0)%nat := x]> (l2 ++ d :: l3)).
  rewrite insert_app_r. cbn. solve_Permutation.
Qed.

Lemma remove_first_perm {X} (f : X -> bool) l x : x ∈ l -> (forall y, f y = true <-> y = x) -> x :: remove_first f l ≡ₚ l.
Proof.
  intros Hx Hf. induction l as [|y l IH]; [by apply elem_of_nil in Hx|]. cbn. destruct (f y) eqn:E.
  - by apply Hf in E as ->.
  - rewrite Permutation_swap. f_equiv. apply IH. apply elem_of_cons in Hx as [<-|Hx]; [|done].
    assert (f x = true) by by apply Hf. congruence.
Qed.

Lemma filter_eqb_eq ref y : filter_eqb ref y = true <-> y = ref.
Proof.
  unfold filter_eqb. rewrite andb_true_iff, !Z.eqb_eq. destruct ref, y; cbn. split; [intros [-> ->]; done|by intros [= -> ->]].
Qed.

(** ** Merging *)

(** Every configuration the configurator makes selects extended frames. *)
Definition selects_extended (c : CanFilterConfig) : Prop :=
  Z.testbit (filter_id c) 31 = true /\ Z.testbit (filter_mask c) 31 = true.

Lemma mergeFilters_extended a b : selects_extended a -> selects_extended b -> selects_extended (mergeFilters a b).
Proof.
  intros [A1 A2] [B1 B2]. destruct (mergeFilters_bits a b 31 ltac:(lia)) as [E1 E2]. unfold selects_extended.
  rewrite E2, E1, A1, A2, B1, B2. done.
Qed.

Lemma mergeFilters_width a b : in_width 32 (filter_mask (mergeFilters a b)).
Proof. apply wrap_range. lia. Qed.

(** The rank of a pair: how many bits the merged filter still compares. *)
Definition rank (a b : CanFilterConfig) : Z := countBits (filter_mask (mergeFilters a b)).

Lemma rank_pos a b : selects_extended a -> selects_extended b -> 0 < rank a b.
Proof.
  intros Ha Hb. apply countBits_pos; [apply mergeFilters_width|]. intros E0.
  destruct (mergeFilters_extended a b Ha Hb) as [_ Hm]. by rewrite E0, Z.bits_0 in Hm.
Qed.

(** [best] is a pair of highest rank among those the two loops have seen when they are at
    [i], [j]. *)
Definition best_until (l : list CanFilterConfig) (i j : Z) (best : Z * Z * Z) : Prop :=
  let '(best_rank, bi, bj) := best in
  (forall p q c d, (p < q)%nat -> (Z.of_nat p < i \/ Z.of_nat p = i /\ Z.of_nat q < j) ->
     l !! p = Some c -> l !! q = Some d -> rank c d <= best_rank) /\
  0 <= best_rank /\
  (best_rank <> 0 -> exists p q c d, bi = Z.of_nat p /\ bj = Z.of_nat q /\ (p < q)%nat /\
     l !! p = Some c /\ l !! q = Some d /\ best_rank = rank c d).

#[local] Opaque countBits.

Section merging.
Context (NumItems : nat) (sizeof_Chunk : Z) (HNum : (0 < NumItems)%nat).
Context {A : Type} `{PoolLaws A}.

Abbreviation minv := (Multiset_inv NumItems).

Lemma config_at_ok (a : A) (m : Multiset CanFilterConfig) i :
  minv a m -> 0 <= i < 2 ^ 32 -> config_at m i = elements m !! Z.to_nat i.
Proof.
  intros Hm Hi. unfold config_at. pose proof (Multiset_getByIndex_ok NumItems HNum m i (msw_addr _ _ (msi_wf _ _ _ Hm)) Hi) as Hg.
  destruct (Multiset_getByIndex m i) as [s|]; cbn.
  - destruct Hg as (y & L & R & Hat & E).
    rewrite (ia_get _ _ _ _ _ Hat), (elements_of_slots _ _ _ _ (ia_slots _ _ _ _ _ Hat)).
    rewrite lookup_app_r by lia. by replace (Z.to_nat i - length (omap id L))%nat with O by lia.
  - by rewrite lookup_ge_None_2 by lia.
Qed.

Lemma set_config_ok (a : A) (m : Multiset CanFilterConfig) (j : nat) d x :
  minv a m -> Z.of_nat j < 2 ^ 32 -> elements m !! j = Some d ->
  exists p, Multiset_getByIndex m (Z.of_nat j) = Some p /\ minv a (set_item m p (Some x)) /\
    multiset_foreign a (set_item m p (Some x)) = multiset_foreign a m /\ elements (set_item m p (Some x)) = <[j := x]> (elements m).
Proof.
  intros Hm Hj Hd. pose proof (Multiset_getByIndex_ok NumItems HNum m (Z.of_nat j) (msw_addr _ _ (msi_wf _ _ _ Hm)) ltac:(lia)) as Hg.
  destruct (Multiset_getByIndex m (Z.of_nat j)) as [s|]; [|apply lookup_lt_Some in Hd; lia].
  destruct Hg as (y & L & R & Hat & E). exists s. split; [done|].
  destruct (update_ok NumItems a m s y L R x Hm Hat) as (K1 & K2 & H3 & H4). split_and!; [done|done|].
  rewrite H4, H3. replace j with (length (omap id L) + 0)%nat by lia. by rewrite insert_app_r.
Qed.

Lemma rank_pair_ok (a : A) (m : Multiset CanFilterConfig) i j c d r bi bj :
  minv a m -> 0 <= i < 2 ^ 32 -> 0 <= j < 2 ^ 32 -> elements m !! Z.to_nat i = Some c -> elements m !! Z.to_nat j = Some d ->
  rank_pair m i j (r, bi, bj) = Some (if r <? rank c d then (rank c d, i, j) else (r, bi, bj)).
Proof.
  intros Hm Hi Hj Hc Hd. unfold rank_pair. rewrite (config_at_ok a m i Hm Hi), (config_at_ok a m j Hm Hj), Hc, Hd. reflexivity.
Qed.

(** The search finds a pair of highest rank, without a null pointer. *)
Lemma find_best_ok (a : A) (m : Multiset CanFilterConfig) :
  minv a m -> Forall selects_extended (elements m) -> (2 <= length (elements m) <= 256)%nat ->
  exists best p q c d, find_best m = Some (best, Z.of_nat p, Z.of_nat q) /\ (p < q)%nat /\
    elements m !! p = Some c /\ elements m !! q = Some d /\
    forall p' q' c' d', (p' < q')%nat -> elements m !! p' = Some c' -> elements m !! q' = Some d' -> rank c' d' <= rank c d.
Proof.
  intros Hm He Hlen. set (l := elements m) in *. unfold find_best. rewrite (Multiset_getSize_ok NumItems HNum) by (fold l; lia). fold l.
  rewrite (wrap_small 16 (Z.of_nat (length l))) by (split; lia).
  destruct (for_each_seqZ (fun i_ind => for_each (rank_pair m i_ind) (seqZ (u8 (i_ind + 1)) (Z.of_nat (length l) - u8 (i_ind + 1))))
    (fun i best => best_until l i (i + 1) best) 0 (Z.of_nat (length l) - 1) (0, 0, 0)) as ([[r i] j] & -> & Hb & Hr0 & Hr).
  - lia.
  - split_and!; [intros p q c d Hpq [Hp|Hp]; lia|lia|done].
  - intros i best Hi Hb. rewrite (wrap_small 8 (i + 1)) by (split; lia).
    destruct (for_each_seqZ (rank_pair m i) (fun j best => best_until l i j best) (i + 1) (Z.of_nat (length l) - (i + 1)) best)
      as (best' & -> & Hb'); [lia|done| |].
    + clear best Hb. intros j [[r bi] bj] Hj (B1 & B2 & B3).
      destruct (lookup_lt_is_Some_2 l (Z.to_nat i)) as [c Hc]; [lia|]. destruct (lookup_lt_is_Some_2 l (Z.to_nat j)) as [d Hd]; [lia|].
      rewrite (rank_pair_ok a m i j c d r bi bj Hm ltac:(lia) ltac:(lia) Hc Hd). eexists. split; [reflexivity|].
      assert (Hcd : 0 < rank c d) by (apply rank_pos; by eapply Forall_lookup_1).
      assert (Hsame : forall p q c' d', Z.of_nat p = i /\ Z.of_nat q = j -> l !! p = Some c' -> l !! q = Some d' -> rank c' d' = rank c d).
      { intros p q c' d' [Hp Hq] K1 K2. replace (Z.to_nat i) with p in Hc by lia. replace (Z.to_nat j) with q in Hd by lia. congruence. }
      destruct (Z.ltb_spec r (rank c d)).
      * split_and!; [|lia|].
        -- intros p q c' d' Hpq Hcase K1 K2. destruct (decide (Z.of_nat p = i /\ Z.of_nat q = j)) as [Hs|Hs]; [by rewrite (Hsame p q)|].
           enough (rank c' d' <= r) by lia. apply (B1 p q); [done|lia|done|done].
        -- intros _. exists (Z.to_nat i), (Z.to_nat j), c, d. split_and!; (done || lia).
      * split_and!; [|done|done]. intros p q c' d' Hpq Hcase K1 K2.
        destruct (decide (Z.of_nat p = i /\ Z.of_nat q = j)) as [Hs|Hs]; [rewrite (Hsame p q c' d' Hs K1 K2); lia|].
        apply (B1 p q); [done|lia|done|done].
    + exists best'. split; [done|]. destruct best' as [[r bi] bj]. destruct Hb' as (B1 & B2 & B3). split_and!; [|done|done].
      intros p q c d Hpq Hcase K1 K2. apply (B1 p q); [done| |done|done].
      pose proof (lookup_lt_Some _ _ _ K2). lia.
  - assert (Hall : forall p q c d, (p < q)%nat -> l !! p = Some c -> l !! q = Some d -> rank c d <= r).
    { intros p q c d Hpq K1 K2. apply (Hb p q); [done| |done|done]. pose proof (lookup_lt_Some _ _ _ K2). lia. }
    destruct (lookup_lt_is_Some_2 l 0) as [c0 Hc0]; [lia|]. destruct (lookup_lt_is_Some_2 l 1) as [d0 Hd0]; [lia|].
    assert (0 < rank c0 d0) by (apply rank_pos; by eapply Forall_lookup_1).
    specialize (Hall 0%nat 1%nat c0 d0 ltac:(lia) Hc0 Hd0) as Hr1.
    destruct (Hr ltac:(lia)) as (p & q & c & d & -> & -> & Hpq & Hp & Hq & ->). exists (rank c d), p, q, c, d. split_and!; done.
Qed.

(** One round replaces a pair of highest rank by its merge. *)
Lemma merge_step_ok (a : A) (m : Multiset CanFilterConfig) :
  minv a m -> Forall selects_extended (elements m) -> (2 <= length (elements m) <= 256)%nat ->
  exists a' m' c d rest, merge_step a m = Some (a', m') /\ minv a' m' /\
    multiset_foreign a' m' = multiset_foreign a m /\
    elements m ≡ₚ c :: d :: rest /\ elements m' ≡ₚ mergeFilters c d :: rest.
Proof.
  intros Hm He Hlen. destruct (find_best_ok a m Hm He Hlen) as (best & p & q & c & d & Eb & Hpq & Hc & Hd & _).
  pose proof (lookup_lt_Some _ _ _ Hd) as Hq. destruct (two_places (elements m) p q c d Hpq Hc Hd) as (rest & Hr & Hins).
  destruct (set_config_ok a m q d (mergeFilters c d) Hm ltac:(lia) Hd) as (s & Es & Hm1 & Hf1 & He1).
  assert (Ep : elements (set_item m s (Some (mergeFilters c d))) !! p = Some c) by (rewrite He1, list_lookup_insert_ne; [done|lia]).
  pose proof (removeWhere_ok NumItems HNum RemoveOne (filter_eqb c) a _ Hm1) as Hrem.
  unfold merge_step. rewrite Eb. cbn [mbind option_bind].
  rewrite (config_at_ok a m (Z.of_nat p) Hm), (config_at_ok a m (Z.of_nat q) Hm), !Nat2Z.id, Hc, Hd by lia.
  cbn [mbind option_bind]. rewrite Es. cbn [mbind option_bind].
  rewrite (config_at_ok a _ (Z.of_nat p) Hm1), Nat2Z.id, Ep by lia. cbn [mbind option_bind]. unfold removeFirstWhere.
  destruct (removeWhere RemoveOne (filter_eqb c) a (set_item m s (Some (mergeFilters c d)))) as [a' m'].
  destruct Hrem as (R1 & R2 & R3). exists a', m', c, d, rest.
  split_and!; [reflexivity|exact R1|by rewrite R2|exact Hr|]. rewrite R3. cbn [removed].
  apply (Permutation_cons_inv (a := c)). rewrite remove_first_perm; [by rewrite He1|by eapply list_elem_of_lookup_2|apply filter_eqb_eq].
Qed.

(** What is let through by the first set is let through by the second. *)
Definition covers (cfgs cfgs' : list CanFilterConfig) : Prop := forall id, passes cfgs id -> passes cfgs' id.

#[local] Instance passes_perm : Proper ((≡ₚ) ==> eq ==> iff) passes.
Proof. intros l l' Hl id _ <-. unfold passes. by setoid_rewrite Hl. Qed.

Lemma merge_covers c d rest : covers (c :: d :: rest) (mergeFilters c d :: rest).
Proof.
  intros id (x & Hx & Ha). rewrite !elem_of_cons in Hx. destruct Hx as [->|[->|Hx]].
  - exists (mergeFilters c d). split; [left|]. apply mergeFilters_accepts. auto.
  - exists (mergeFilters c d). split; [left|]. apply mergeFilters_accepts. auto.
  - exists x. split; [by right|done].
Qed.

(** The loop ends with few enough configurations. *)
Lemma merge_loop_ok fuel n (a : A) (m : Multiset CanFilterConfig) :
  0 < n -> minv a m -> Forall selects_extended (elements m) -> (length (elements m) <= 256)%nat ->
  (length (elements m) <= fuel + Z.to_nat n)%nat ->
  exists a' m', merge_loop fuel n a m = Some (a', m') /\ minv a' m' /\ multiset_foreign a' m' = multiset_foreign a m /\
    Z.of_nat (length (elements m')) <= Z.min n (Z.of_nat (length (elements m))) /\
    (n < Z.of_nat (length (elements m)) -> Z.of_nat (length (elements m')) = n) /\
    covers (elements m) (elements m') /\ Forall selects_extended (elements m').
Proof.
  intros Hn. revert a m. induction fuel as [|fuel IH]; intros a m Hm He Hlen Hf; cbn [merge_loop];
    rewrite (Multiset_getSize_ok NumItems HNum) by lia.
  - destruct (Z.ltb_spec n (Z.of_nat (length (elements m)))); [lia|]. exists a, m. split_and!; try done; try lia. by intros id.
  - destruct (Z.ltb_spec n (Z.of_nat (length (elements m)))) as [Hlt|Hge].
    2: { exists a, m. split_and!; try done; try lia. by intros id. }
    destruct (merge_step_ok a m Hm He ltac:(lia)) as (a1 & m1 & c & d & rest & -> & Hm1 & Hf1 & Hp & Hp1).
    pose proof (Permutation_length Hp) as L0. pose proof (Permutation_length Hp1) as L1. cbn [length] in L0, L1.
    assert (He1 : Forall selects_extended (elements m1)).
    { rewrite Hp in He. rewrite Hp1. apply Forall_cons in He as [Hc [Hd He]%Forall_cons]. constructor; [by apply mergeFilters_extended|done]. }
    destruct (IH a1 m1 Hm1 He1 ltac:(lia) ltac:(lia)) as (a' & m' & E & Hm' & Hf' & Hl' & Hx' & Hc' & He').
    exists a', m'. cbn [mbind option_bind]. split_and!; [done|done|by rewrite Hf'|lia| |intros id Hid|done].
    + intros _. destruct (decide (n < Z.of_nat (length (elements m1)))); [auto|]. destruct fuel; cbn [merge_loop] in E;
        rewrite (Multiset_getSize_ok NumItems HNum) in E by lia; rewrite (proj2 (Z.ltb_ge _ _)) in E by lia;
        injection E as <- <-; lia.
    + apply Hc'. rewrite Hp1. apply merge_covers. by rewrite <-Hp.
Qed.

(** ** Loading *)

(** The configurations a node needs. *)
Definition input_configs (node_id : Z) (lmsg : ListenerRegistry) (mode : AnonymousMessages) : list CanFilterConfig :=
  match mode with AcceptAnonymousMessages => [anon_frame_cfg] | IgnoreAnonymousMessages => [] end ++
  service_cfg node_id :: ((fun p : Z * ListenerObj => message_cfg (lo_dtid p.2)) <$> lmsg).

Lemma load_listeners_ok lmsg (a : A) m :
  minv a m ->
  let '(res, a', m') := load_listeners NumItems sizeof_Chunk a m lmsg in
  minv a' m' /\ multiset_foreign a' m' = multiset_foreign a m /\
  (res = 0 /\ elements m' ≡ₚ ((fun p : Z * ListenerObj => message_cfg (lo_dtid p.2)) <$> lmsg) ++ elements m \/ res = - ErrMemory).
Proof.
  revert a m. induction lmsg as [|[p o] lmsg IH]; intros a m Hm; cbn [load_listeners]; [by split_and!; [done|done|left]|].
  pose proof (emplace_ok NumItems sizeof_Chunk HNum a m (message_cfg (lo_dtid o)) Hm) as Hx.
  destruct (emplace NumItems sizeof_Chunk a m (message_cfg (lo_dtid o))) as [[[s|] a1] m1].
  - destruct Hx as (X1 & X2 & X3 & _). specialize (IH a1 m1 X1). destruct (load_listeners NumItems sizeof_Chunk a1 m1 lmsg) as [[res a'] m'].
    destruct IH as (I1 & I2 & I3). split_and!; [done|by rewrite I2|]. destruct I3 as [[-> I3]|I3]; [left|by right].
    split; [done|]. rewrite I3, X3, fmap_cons. cbn. solve_Permutation.
  - destruct Hx as (X1 & X2 & _). split_and!; [done|done|by right].
Qed.

Lemma load_rest_ok (a : A) c m node_id lmsg :
  minv a m -> (length (elements m) <= 1)%nat -> (length lmsg <= 254)%nat ->
  let '(res, a', c') := load_rest NumItems sizeof_Chunk a c m node_id lmsg in
  minv a' (multiset_configs_ c') /\ filters_number_ c' = filters_number_ c /\
  multiset_foreign a' (multiset_configs_ c') = multiset_foreign a m /\
  (res = 0 /\ elements (multiset_configs_ c') ≡ₚ
     elements m ++ service_cfg node_id :: ((fun p : Z * ListenerObj => message_cfg (lo_dtid p.2)) <$> lmsg) \/ res = - ErrMemory).
Proof.
  intros Hm Hl2 Hlen. unfold load_rest. pose proof (emplace_ok NumItems sizeof_Chunk HNum a m (service_cfg node_id) Hm) as Hx.
  destruct (emplace NumItems sizeof_Chunk a m (service_cfg node_id)) as [[[s|] a3] m3].
  2: { destruct Hx as (X1 & X2 & _). cbn [multiset_configs_ set_configs filters_number_]. split_and!; [done|done|done|by right]. }
  destruct Hx as (X1 & X2 & X3 & _). pose proof (load_listeners_ok lmsg a3 m3 X1) as Hl.
  destruct (load_listeners NumItems sizeof_Chunk a3 m3 lmsg) as [[res a4] m4]. destruct Hl as (L1 & L2 & [[-> L3]| ->]); cbn [negb Z.eqb].
  2: { change (negb (- ErrMemory =? 0)) with true. cbn [multiset_configs_ set_configs filters_number_]. split_and!; [done|done|by rewrite L2|by right]. }
  assert (Hperm : elements m4 ≡ₚ elements m ++ service_cfg node_id :: ((fun p : Z * ListenerObj => message_cfg (lo_dtid p.2)) <$> lmsg))
    by (rewrite L3, X3; solve_Permutation).
  pose proof (Permutation_length Hperm) as Hl4. rewrite length_app in Hl4. cbn [length] in Hl4. rewrite length_fmap in Hl4.
  rewrite (Multiset_getSize_ok NumItems HNum) by lia. rewrite (proj2 (Z.eqb_neq _ _)) by lia. cbn [multiset_configs_ set_configs filters_number_].
  split_and!; [done|done|by rewrite L2|by left].
Qed.

Lemma loadInputConfiguration_ok (a : A) c node_id lmsg mode :
  minv a (multiset_configs_ c) -> (length lmsg <= 254)%nat ->
  let '(res, a', c') := loadInputConfiguration NumItems sizeof_Chunk a c node_id lmsg mode in
  minv a' (multiset_configs_ c') /\ filters_number_ c' = filters_number_ c /\
  multiset_foreign a' (multiset_configs_ c') = multiset_foreign a (multiset_configs_ c) /\
  (res = 0 /\ elements (multiset_configs_ c') ≡ₚ input_configs node_id lmsg mode \/ res = - ErrMemory).
Proof.
  intros Hm Hlen. unfold loadInputConfiguration. pose proof (Multiset_clear_ok NumItems HNum a _ Hm) as Hcl.
  destruct (Multiset_clear a (multiset_configs_ c)) as [a1 m1]. destruct Hcl as (-> & Hp1 & Hl1).
  assert (Hm1 : minv a1 ([] : Multiset CanFilterConfig)) by (split; [done|by intros p Hp%elem_of_nil|split; constructor]).
  assert (Hf1 : multiset_foreign a1 ([] : Multiset CanFilterConfig) = multiset_foreign a (multiset_configs_ c))
    by (unfold multiset_foreign at 1; rewrite Hl1; cbn; set_solver).
  destruct mode.
  - pose proof (emplace_ok NumItems sizeof_Chunk HNum a1 [] anon_frame_cfg Hm1) as Hx.
    destruct (emplace NumItems sizeof_Chunk a1 [] anon_frame_cfg) as [[[s|] a2] m2].
    + destruct Hx as (X1 & X2 & X3 & _). apply Permutation_singleton_r in X3. pose proof (load_rest_ok a2 c m2 node_id lmsg X1) as Hr.
      rewrite X3, X2, Hf1 in Hr. exact (Hr ltac:(cbn; lia) Hlen).
    + destruct Hx as (X1 & X2 & _). cbn [multiset_configs_ set_configs filters_number_]. split_and!; [done|done|by rewrite X2|by right].
  - pose proof (load_rest_ok a1 c [] node_id lmsg Hm1 ltac:(cbn; lia) Hlen) as Hr. by rewrite Hf1 in Hr.
Qed.

(** ** The number of filters, computing and applying *)

Context {D : Type} `{FilterDriver D}.
Context (Hnum : forall d i, 0 <= fd_getNumFilters d i).

Lemma getNumFilters_loop_ok d n i out :
  0 <= out ->
  let r := getNumFilters_loop d i n out in
  0 <= r <= out /\ ((0 < n)%nat -> r <= MaxCanAcceptanceFilters) /\
  (r <> 0 -> forall k, i <= k < i + Z.of_nat n -> fd_iface d k = true /\ r <= fd_getNumFilters d k).
Proof.
  revert i out. induction n as [|n IH]; intros i out Ho; cbn [getNumFilters_loop]; [split_and!; lia|].
  destruct (fd_iface d i) eqn:Ei; [|cbv zeta; unfold MaxCanAcceptanceFilters; split_and!; lia].
  set (o := if MaxCanAcceptanceFilters <? Z.min out (fd_getNumFilters d i) then _ else _).
  pose proof (Hnum d i). assert (Hb : 0 <= o <= MaxCanAcceptanceFilters /\ o <= out /\ o <= fd_getNumFilters d i).
  { unfold o, MaxCanAcceptanceFilters in *. destruct (Z.ltb_spec 32 (Z.min out (fd_getNumFilters d i))); lia. }
  destruct (IH (i + 1) o) as (R1 & R2 & R3); [lia|]. cbv zeta. split_and!; [lia|lia|lia|].
  intros Hr k Hk. destruct (decide (k = i)) as [->|]; [split; [done|lia]|]. apply R3; [done|lia].
Qed.

Lemma getNumFilters_ok d n c :
  filters_number_ c = 0 -> let r := getNumFilters d n c in
  0 <= r <= MaxCanAcceptanceFilters /\
  (r <> 0 -> forall k, 0 <= k < Z.of_nat n -> fd_iface d k = true /\ r <= fd_getNumFilters d k).
Proof.
  intros Hc. unfold getNumFilters. rewrite Hc. cbn [Z.eqb]. destruct (getNumFilters_loop_ok d n 0 0xFFFF ltac:(lia)) as (R1 & R2 & R3).
  cbv zeta. destruct (Z.eqb_spec (getNumFilters_loop d 0 n 0xFFFF) 0xFFFF) as [E|E]; [unfold MaxCanAcceptanceFilters; split; lia|].
  split; [|exact R3]. destruct n; [cbn in E; done|]. specialize (R2 ltac:(lia)). lia.
Qed.

Lemma input_configs_extended node_id lmsg mode : Forall selects_extended (input_configs node_id lmsg mode).
Proof.
  assert (Heff : forall x, Z.testbit (Z.lor x FlagEFF) 31 = true) by (intros x; rewrite Z.lor_spec; apply orb_true_r).
  apply Forall_app. split; [destruct mode; repeat constructor|]. constructor.
  - split; [|done]. cbn [service_cfg filter_id]. by rewrite Z.lor_assoc, Heff.
  - apply Forall_fmap, Forall_true. intros p. split; [|done]. apply Heff.
Qed.

Lemma length_input_configs node_id lmsg mode : (length (input_configs node_id lmsg mode) <= length lmsg + 2)%nat.
Proof. unfold input_configs. rewrite length_app. cbn [length]. rewrite length_fmap. destruct mode; cbn; lia. Qed.

Lemma computeConfiguration_ok d num_ifaces (a : A) c node_id lmsg mode :
  minv a (multiset_configs_ c) -> (length lmsg <= 254)%nat -> 0 <= getNumFilters d num_ifaces c ->
  exists res a' c', computeConfiguration NumItems sizeof_Chunk d num_ifaces a c node_id lmsg mode = Some (res, a', c') /\
    minv a' (multiset_configs_ c') /\ filters_number_ c' = filters_number_ c /\
    multiset_foreign a' (multiset_configs_ c') = multiset_foreign a (multiset_configs_ c) /\
    (res = - ErrMemory \/ res = - ErrDriver \/
     res = 0 /\ getNumFilters d num_ifaces c <> 0 /\
     Z.of_nat (length (elements (multiset_configs_ c'))) <= getNumFilters d num_ifaces c /\
     covers (input_configs node_id lmsg mode) (elements (multiset_configs_ c'))).
Proof.
  intros Hm Hlen Hn. unfold computeConfiguration. destruct (Z.eqb_spec (getNumFilters d num_ifaces c) 0) as [E0|E0].
  { exists (- ErrDriver), a, c. split_and!; auto. }
  pose proof (loadInputConfiguration_ok a c node_id lmsg mode Hm Hlen) as Hl.
  destruct (loadInputConfiguration NumItems sizeof_Chunk a c node_id lmsg mode) as [[res a1] c1].
  destruct Hl as (L1 & L2 & L3 & [[-> L4]| ->]).
  2: { change (negb (- ErrMemory =? 0)) with true. cbv iota. exists (- ErrMemory), a1, c1. split_and!; auto. }
  cbn [negb Z.eqb]. unfold mergeConfigurations.
  assert (En : getNumFilters d num_ifaces c1 = getNumFilters d num_ifaces c) by (unfold getNumFilters; by rewrite L2).
  rewrite En, (proj2 (Z.eqb_neq _ _) E0).
  pose proof (Permutation_length L4) as Hle. pose proof (length_input_configs node_id lmsg mode) as Hli.
  rewrite (Multiset_getSize_ok NumItems HNum) by lia.
  destruct (merge_loop_ok (Z.to_nat (Z.of_nat (length (elements (multiset_configs_ c1))))) (getNumFilters d num_ifaces c)
    a1 (multiset_configs_ c1)) as (a2 & m2 & -> & M1 & M2 & M3 & _ & M4 & _); [lia|done|rewrite L4; apply input_configs_extended|lia|lia|].
  exists 0, a2, (set_configs c1 m2). cbn [mbind option_bind multiset_configs_ set_configs filters_number_].
  split_and!; [done|done|done|by rewrite M2|]. right. right. split_and!; [done|done|lia|].
  intros id Hid. apply M4. by rewrite L4.
Qed.

(** The filters were loaded into every interface, one after the other. *)
Fixpoint loaded (cfgs : list CanFilterConfig) (i : Z) (n : nat) (d d' : D) : Prop :=
  match n with
  | O => d' = d
  | S n => fd_iface d i = true /\
    exists num d1, fd_configureFilters d i cfgs = (num, d1) /\ 0 <= num /\ loaded cfgs (i + 1) n d1 d'
  end.

Lemma apply_loop_ok cfgs n d i :
  let '(res, d') := apply_loop d i n cfgs in (res = 0 /\ loaded cfgs i n d d') \/ res = - ErrDriver.
Proof.
  revert d i. induction n as [|n IH]; intros d i; cbn [apply_loop loaded]; [by left|].
  destruct (fd_iface d i) eqn:Ei; [|by right]. destruct (fd_configureFilters d i cfgs) as [num d1] eqn:Ec.
  destruct (Z.ltb_spec num 0); [by right|]. specialize (IH d1 (i + 1)). destruct (apply_loop d1 (i + 1) n cfgs) as [res d'].
  destruct IH as [[-> IH]| ->]; [left|by right]. split; [done|]. split; [done|]. by exists num, d1.
Qed.

Lemma all_configs (a : A) (m : Multiset CanFilterConfig) :
  minv a m -> Z.of_nat (length (elements m)) < 2 ^ 32 ->
  mapM (config_at m) (seqZ 0 (Z.of_nat (length (elements m)))) = Some (elements m).
Proof.
  intros Hm Hl. apply mapM_Some, Forall2_same_length_lookup. split; [rewrite length_seqZ; lia|].
  intros k i c [-> Hk]%lookup_seqZ Hc. rewrite (config_at_ok a m _ Hm) by lia. by replace (Z.to_nat (0 + Z.of_nat k)) with k by lia.
Qed.

Lemma applyConfiguration_ok d num_ifaces (a : A) c :
  minv a (multiset_configs_ c) -> getNumFilters d num_ifaces c <> 0 ->
  Z.of_nat (length (elements (multiset_configs_ c))) <= getNumFilters d num_ifaces c <= MaxCanAcceptanceFilters ->
  exists res d', applyConfiguration d num_ifaces a c = Some (res, d', a, c) /\
    ((res = 0 /\ loaded (elements (multiset_configs_ c)) 0 num_ifaces d d') \/ res = - ErrDriver).
Proof.
  intros Hm Hn Hle. unfold applyConfiguration. rewrite (proj2 (Z.eqb_neq _ _) Hn).
  rewrite (Multiset_getSize_ok NumItems HNum) by (unfold MaxCanAcceptanceFilters in *; lia).
  rewrite (proj2 (Z.ltb_ge _ _)) by lia. cbn [mbind option_bind]. rewrite (Multiset_getSize_ok NumItems HNum) by (unfold MaxCanAcceptanceFilters in *; lia).
  rewrite (proj2 (Z.ltb_ge _ _)) by lia. rewrite (all_configs a) by (done || (unfold MaxCanAcceptanceFilters in *; lia)).
  cbn [mbind option_bind]. pose proof (apply_loop_ok (elements (multiset_configs_ c)) num_ifaces d 0) as Hal.
  destruct (apply_loop d 0 num_ifaces (elements (multiset_configs_ c))) as [res d']. by exists res, d'.
Qed.

End merging.

(** ** Frames *)

(** The frames a node must not miss: messages its listeners subscribed to, services addressed
    to it, and anonymous messages where it accepts them. *)
Inductive wanted (node_id : Z) (lmsg : ListenerRegistry) (mode : AnonymousMessages) (f : Frame) : Prop :=
  | wanted_message p :
      p ∈ lmsg -> transfer_type_ f = TransferTypeMessageBroadcast -> NodeID.isBroadcast (src_node_id_ f) = false ->
      data_type_id_ f = lo_dtid p.2 -> wanted node_id lmsg mode f
  | wanted_service :
      transfer_type_ f <> TransferTypeMessageBroadcast -> dst_node_id_ f = node_id -> wanted node_id lmsg mode f
  | wanted_anonymous :
      mode = AcceptAnonymousMessages -> src_node_id_ f = NodeID.ValueBroadcast -> wanted node_id lmsg mode f.

(** Where the bits of a mask are: a field, and the three flags. *)
Lemma mask_fields mask lo hi i :
  0 <= mask < 2 ^ 32 ->
  forallb (fun i => implb (Z.testbit mask i) ((lo <=? i) && (i <=? hi) || (29 <=? i))) (seqZ 0 32) = true ->
  0 <= i -> Z.testbit mask i = true -> lo <= i <= hi \/ 29 <= i < 32.
Proof.
  intros Hm Hall Hi Hb. destruct (decide (i < 32)) as [Hlt|Hge].
  - rewrite List.forallb_forall in Hall. specialize (Hall i). rewrite Hb in Hall. cbn [implb] in Hall.
    assert ((lo <=? i) && (i <=? hi) || (29 <=? i) = true) as Ho by (apply Hall, list_elem_of_In, elem_of_seqZ; lia). lia.
  - rewrite (in_width_testbit 32) in Hb; [done|exact Hm|lia].
Qed.

Lemma bitunpack_bits o w v x i : 0 <= o -> bitunpack o w x = v -> o <= i < o + w -> Z.testbit x i = Z.testbit v (i - o).
Proof.
  intros Ho <- Hi. rewrite bitunpack_spec by lia. rewrite (proj2 (Z.ltb_lt _ _)) by lia. cbn. f_equal. lia.
Qed.

(** A filter with flags accepts a data frame that agrees with its field. *)
Lemma accepts_field F mask lo hi id :
  in_width 29 F -> 0 <= mask < 2 ^ 32 ->
  forallb (fun i => implb (Z.testbit mask i) ((lo <=? i) && (i <=? hi) || (29 <=? i))) (seqZ 0 32) = true ->
  (forall i, 29 <= i -> Z.testbit id i = (i =? 31)) -> hi < 29 ->
  (forall i, lo <= i <= hi -> Z.testbit id i = Z.testbit F i) ->
  accepts (mkCanFilterConfig (Z.lor F FlagEFF) mask) id = true.
Proof.
  intros HF Hm Hall Hfl Hhi Hfield. apply accepts_spec. cbn [filter_id filter_mask]. intros i Hi Hb.
  rewrite Z.lor_spec. change FlagEFF with (2 ^ 31). rewrite Z.pow2_bits_eqb by lia.
  destruct (mask_fields mask lo hi i Hm Hall Hi Hb) as [Hin|Hin].
  - rewrite (proj2 (Z.eqb_neq 31 i)), orb_false_r by lia. by apply Hfield.
  - rewrite Hfl, (in_width_testbit 29 F) by (done || lia). rewrite orb_false_l. apply Z.eqb_sym.
Qed.

Lemma shifted_field v i w : in_width w v -> 0 <= w -> w + 8 <= 32 -> 0 <= i -> Z.testbit (u32 (Z.shiftl v 8)) i = (8 <=? i) && Z.testbit v (i - 8).
Proof.
  intros Hv Hw Hw8 Hi. rewrite in_width_wrap_testbit, Z.shiftl_spec by lia.
  destruct (Z.leb_spec 8 i); cbn [andb]; [|rewrite Z.testbit_neg_r by lia; apply andb_false_r].
  destruct (Z.ltb_spec i 32); [done|]. cbn. rewrite (in_width_testbit w); [done|done|lia].
Qed.

Lemma shifted_width v w : in_width w v -> 0 <= w -> w + 8 <= 29 -> in_width 29 (u32 (Z.shiftl v 8)).
Proof.
  intros Hv Hw Hw8. apply in_width_intro; [lia|apply wrap_range; lia|]. intros i Hi. rewrite (shifted_field v i w) by (done || lia).
  rewrite (in_width_testbit w v); [apply andb_false_r|done|lia].
Qed.

(** The input configurations let through every frame the node wants. *)
Lemma wanted_passes node_id lmsg mode f out c :
  0 <= node_id <= NodeID.Max -> Frame_wf f -> Frame_isValid f = true -> Frame_compile f out = (true, c) ->
  wanted node_id lmsg mode f -> passes (input_configs node_id lmsg mode) (can_id c).
Proof.
  intros Hnode Hwf Hv%Frame_isValid_spec. rewrite Frame_compile_eq by done. intros [= <-] Hw. cbn [can_id].
  pose proof (fun i Hi => compile_not_flagged f (can_data out) i Hi) as Hfl.
  destruct (compile_ranges f Hwf Hv) as (Rs & Rd & Rp & Rt & Rg & _ & _).
  destruct (discriminator_field f (can_data out)) as (x & Ex & Enon).
  destruct (compile_id_fields f Hwf Hv x) as (_ & F0 & _ & _ & F7 & F7x).
  destruct Hw as [p Hp Ht Hs Hd|Ht Hd|Hmode Hs].
  - exists (message_cfg (lo_dtid p.2)). split; [apply elem_of_app; right; apply elem_of_cons; right; by apply (list_elem_of_fmap_2 (fun p => message_cfg (lo_dtid p.2)))|].
    rewrite Enon, Z.lor_0_r in * by done. unfold message_cfg. rewrite <-Hd, Rg.
    apply (accepts_field _ _ 7 23); [by apply (shifted_width _ 16)|done|reflexivity|exact Hfl|lia|]. intros i Hi.
    rewrite (shifted_field _ i 16) by (done || lia). rewrite bool_decide_true in F7 by done.
    destruct (Z.leb_spec 8 i); cbn [andb].
    + apply (bitunpack_bits 8 16); [lia|by apply compile_id_message|lia].
    + rewrite (bitunpack_bits 7 1 0 _ i); [apply Z.bits_0|lia|done|lia].
  - exists (service_cfg node_id). split; [apply elem_of_app; right; apply elem_of_cons; by left|].
    assert (NodeID.isBroadcast (src_node_id_ f) = false) as Hnb.
    { unfold NodeID.isBroadcast. apply Z.eqb_neq. intros H0. by destruct (fv_anon f Hv H0) as (_ & _ & ?). }
    rewrite Enon, Z.lor_0_r in * by done. unfold service_cfg. rewrite Z.lor_assoc.
    assert (Hn7 : in_width 7 node_id) by (split; [|change NodeID.Max with 127 in *]; lia).
    apply (accepts_field _ _ 7 14); [apply in_width_lor; [lia|split; [discriminate|reflexivity]|by apply (shifted_width _ 7)]|done|reflexivity|exact Hfl|lia|].
    intros i Hi. rewrite Z.lor_spec, (shifted_field _ i 7) by (done || lia). rewrite bool_decide_false in F7 by done.
    change DefaultFilterServiceID with (2 ^ 7). rewrite Z.pow2_bits_eqb by lia.
    destruct (Z.leb_spec 8 i); cbn [andb].
    + rewrite (proj2 (Z.eqb_neq 7 i)), orb_false_l by lia. apply (bitunpack_bits 8 7); [lia|rewrite <-Hd; by apply compile_id_service|lia].
    + assert (i = 7) as -> by lia. rewrite (bitunpack_bits 7 1 1 _ 7); [done|lia|done|lia].
  - exists anon_frame_cfg. split; [apply elem_of_app; left; rewrite Hmode; by left|].
    assert (Ht : transfer_type_ f = TransferTypeMessageBroadcast) by (by destruct (fv_anon f Hv Hs) as (_ & _ & ?)).
    rewrite Ex in *. unfold anon_frame_cfg. apply (accepts_field _ _ 0 7); [split; [discriminate|reflexivity]|done|reflexivity|exact Hfl|lia|].
    intros i Hi. unfold DefaultAnonMsgID. rewrite Z.bits_0. rewrite bool_decide_true in F7x by done.
    destruct (decide (i = 7)) as [->|]; [rewrite (bitunpack_bits 7 1 0 _ 7); [done|lia|done|lia]|].
    rewrite (bitunpack_bits 0 7 0 _ i); [apply Z.bits_0|lia|by rewrite F0|lia].
Qed.

(** C39: the acceptance filters lose nothing the node needs, if it listens to at most 254 data
    types (with more, an index of 8 bits wraps): configuring them always comes to an
    end (no null pointer, no endless merging) and returns its memory to the pool; it either
    reports a lack of memory or a driver error, or loads one and the same set of filters into
    every interface, no more than the interface with the fewest filters has, and every valid
    frame the node wants (messages of the types it listens to, services addressed to it,
    anonymous messages where it accepts them) is let through by one of them, however many
    filters had to be merged. *)
Theorem acceptance_filters_lose_nothing (NumItems : nat) (sizeof_Chunk : Z) {A : Type} `{PoolLaws A} {D : Type} `{FilterDriver D}
    (d : D) (num_ifaces : nat) (a : A) node_id lmsg mode :
  (0 < NumItems)%nat -> (forall d i, 0 <= fd_getNumFilters d i) -> pool_inv a ->
  0 <= node_id <= NodeID.Max -> (length lmsg <= 254)%nat ->
  exists res d' a', configureCanAcceptanceFilters NumItems sizeof_Chunk d num_ifaces a node_id lmsg mode = Some (res, d', a') /\
    pool_inv a' /\ live a' = live a /\
    (res = - ErrMemory \/ res = - ErrDriver \/
     res = 0 /\ exists cfgs, loaded cfgs 0 num_ifaces d d' /\
       (forall k, 0 <= k < Z.of_nat num_ifaces -> Z.of_nat (length cfgs) <= fd_getNumFilters d k) /\
       forall f out c, Frame_wf f -> Frame_isValid f = true -> Frame_compile f out = (true, c) ->
         wanted node_id lmsg mode f -> passes cfgs (can_id c)).
Proof.
  intros HNum Hnum Ha Hnode Hlen. set (c0 := Configurator_init 0).
  assert (Hm0 : Multiset_inv NumItems a (multiset_configs_ c0)) by (split; [done|by intros p Hp%elem_of_nil|split; constructor]).
  assert (Hf0 : multiset_foreign a (multiset_configs_ c0) = live a) by (unfold multiset_foreign; cbn; set_solver).
  destruct (getNumFilters_ok NumItems HNum Hnum d num_ifaces c0 eq_refl) as [Hn Hall]. cbv zeta in Hall.
  destruct (computeConfiguration_ok NumItems sizeof_Chunk HNum d num_ifaces a c0 node_id lmsg mode Hm0 Hlen (proj1 Hn))
    as (res & a1 & c1 & E & Hm1 & Hfn & Hf1 & Hres).
  unfold configureCanAcceptanceFilters. fold c0. rewrite E. cbn [mbind option_bind].
  pose proof (Multiset_clear_ok NumItems HNum a1 (multiset_configs_ c1) Hm1) as Hcl.
  destruct (Multiset_clear a1 (multiset_configs_ c1)) as [a' m'] eqn:Ecl. destruct Hcl as (_ & Hp' & Hl'). rewrite Hf1, Hf0 in Hl'.
  destruct Hres as [->|[->|(-> & Hn0 & Hcount & Hcov)]].
  - exists (- ErrMemory), d, a'. split_and!; [reflexivity|done|done|auto].
  - exists (- ErrDriver), d, a'. split_and!; [reflexivity|done|done|auto].
  - cbn [Z.ltb Z.compare].
    assert (En : getNumFilters d num_ifaces c1 = getNumFilters d num_ifaces c0) by (unfold getNumFilters; by rewrite Hfn).
    destruct (applyConfiguration_ok NumItems HNum d num_ifaces a1 c1 Hm1) as (res & d' & -> & Hap); [by rewrite En|rewrite En; lia|].
    cbn [mbind option_bind]. exists res, d', a'. split_and!; [by rewrite Ecl|done|done|].
    destruct Hap as [[-> Hld]| ->]; [|auto]. right. right. split; [done|]. exists (elements (multiset_configs_ c1)).
    split_and!; [done| |].
    + intros k Hk. destruct (Hall Hn0 k Hk). lia.
    + intros f out c Hwf Hv Ec Hw. apply Hcov. by eapply wanted_passes.
Qed.

(** A driver with two interfaces that records the filters it is given. *)
#[export] Instance recording_driver : FilterDriver (list (Z * list CanFilterConfig)) := {
  fd_iface _ i := i <? 2;
  fd_getNumFilters _ i := if i =? 0 then 14 else 3;
  fd_configureFilters d i cfgs := (0, d ++ [(i, cfgs)])
}.

Definition example_listeners : ListenerRegistry :=
  (fun id => (id, mkListenerObj PlainListener (TransferListener_init (mkDescriptor DataTypeKindMessage id 0) 300)))
  <$> [1005; 1010; 1011; 20000].

Lemma acceptance_filters_lose_nothing_witness :
  let pool := PoolAllocator_init 4096 640 64 in
  exists d' a' cfgs,
    configureCanAcceptanceFilters 5 64 ([] : list (Z * list CanFilterConfig)) 2 pool 42 example_listeners AcceptAnonymousMessages =
      Some (0, d', a') /\
    d' = [(0, cfgs); (1, cfgs)] /\ live a' = live pool /\ (length cfgs <= 3)%nat.
Proof.
  intros pool.
  destruct (PoolAllocator_init_ok 4096 640 64 eq_refl eq_refl ltac:(split; discriminate)) as (Hpi & _ & _).
  destruct (@acceptance_filters_lose_nothing 5 64 PoolAllocator Pool_ops (Pool_laws_at 4096 640 64) (list (Z * list CanFilterConfig))
    recording_driver [] 2 pool 42 example_listeners AcceptAnonymousMessages ltac:(lia)
    (fun _ i => ltac:(cbn; destruct (i =? 0); lia)) ltac:(exact (conj Hpi (conj eq_refl (conj eq_refl eq_refl))))
    ltac:(change NodeID.Max with 127; lia) ltac:(cbn; lia)) as (res & d' & a' & E & _ & Hl & Hres).
  assert (E0 : res = 0) by (vm_compute in E; injection E as <- _ _; reflexivity).
  destruct Hres as [Hr|[Hr|(_ & cfgs & Hld & Hc & _)]]; [rewrite E0 in Hr; discriminate|rewrite E0 in Hr; discriminate|].
  exists d', a', cfgs. split_and!; [rewrite <-E0; exact E| |exact Hl|].
  - destruct Hld as (_ & n1 & d1 & E1 & _ & _ & n2 & d2 & E2 & _ & ->). cbn in E1, E2. injection E1 as _ <-. injection E2 as _ <-. reflexivity.
  - specialize (Hc 1 ltac:(lia)). cbn in Hc. lia.
Defined.

(** What was added by [addFilterConfig] before is gone after [computeConfiguration]: the
    configurations of the listeners replace it. *)
Example computeConfiguration_discards_added :
  let pool := PoolAllocator_init 4096 640 64 in
  let own := mkCanFilterConfig 0x123 0x7FF in
  let '(res, a, c) := addFilterConfig 5 64 pool (Configurator_init 0) own in
  res = 0 /\ elements (multiset_configs_ c) = [own] /\
  (fun r : Z * PoolAllocator * Configurator => (r.1.1, elements (multiset_configs_ r.2))) <$>
    computeConfiguration 5 64 ([] : list (Z * list CanFilterConfig)) 2 a c 42 [] IgnoreAnonymousMessages = Some (0, [service_cfg 42]).
Proof. vm_compute. auto. Qed.

(** Filters that share no compared bit: no pair is found, the first filter is merged with itself
    and then removed, so what only it accepted is lost. *)
Example disjoint_filters_are_dropped :
  let pool := PoolAllocator_init 4096 640 64 in
  let c1 := mkCanFilterConfig 1 1 in
  let c2 := mkCanFilterConfig 2 2 in
  let '(_, a, c) := addFilterConfig 5 64 pool (Configurator_init 1) c1 in
  let '(_, a, c) := addFilterConfig 5 64 a c c2 in
  elements (multiset_configs_ c) = [c1; c2] /\
  (fun r : Z * PoolAllocator * Configurator => (r.1.1, elements (multiset_configs_ r.2))) <$>
    mergeConfigurations ([] : list (Z * list CanFilterConfig)) 2 a c = Some (0, [c2]) /\
  accepts c1 1 = true /\ accepts c2 1 = false.
Proof. vm_compute. auto. Qed.
