(* ===== verification/TransferSender.v ===== *)
(** * TransferSender: from payloads to frames

    Models [libuavcan/include/uavcan/transport/transfer_sender.hpp] and
    [src/transport/uc_transfer_sender.cpp]. The sender is written against
    [FrameSink], the part of the dispatcher it uses; [dispatcher_sink] is the
    dispatcher itself. The main theorems say that [send] emits exactly the frames
    of [transfer_frames], and that these frames, compiled, put on the bus, parsed
    and given to a listener of the same data type, come out as the payload. *)

From stdpp Require Import gmap.
From S2P Require Import Prelude MonoTime Crc Transfer CanFrame Frame LinkedList PoolAllocator PoolClient TransferBuffer.
From S2P Require Import PoolMap TransferReceiver TransferListener OutgoingTransferRegistry CanTxQueue CanIO Dispatcher.
Local Open Scope Z_scope.

Definition CanIOFlagAbortOnError : Z := 2.
Definition AllIfacesMask : Z := 0xFF.

(** What the sender needs of the dispatcher; [None] is a send that never returns. *)
Class FrameSink (S : Type) := {
  fs_send : S -> Frame -> Z -> Z -> Qos -> Z -> Z -> option (Z * S);
  fs_getNodeID : S -> Z;
  fs_addTxTransfer : S -> S;
  fs_addError : S -> S;
  fs_accessOrCreate : S -> OutgoingTransferRegistryKey -> Z -> option Z * S
}.

Record TransferSender := mkSender {
  ts_max_transfer_interval_ : Z;
  ts_priority_ : Z;
  ts_qos_ : Qos;
  ts_crc_base_ : Z;
  ts_data_type_id_ : Z;
  ts_flags_ : Z;
  ts_iface_mask_ : Z;
  ts_allow_anonymous_transfers_ : bool
}.

Definition getDefaultMaxTransferInterval : Z := Duration.fromMSec (60 * 1000).

(** [void TransferSender::init(const DataTypeDescriptor&, CanTxQueue::Qos)]. *)
Definition Sender_init (s : TransferSender) (dt : DataTypeDescriptor) (qos : Qos) : TransferSender :=
  mkSender (ts_max_transfer_interval_ s) (ts_priority_ s) qos (toTransferCRC (dt_signature dt)) (dt_id dt)
    (ts_flags_ s) (ts_iface_mask_ s) (ts_allow_anonymous_transfers_ s).

(** The constructor without a data type, and the one with. *)
Definition TransferSender_make (max_transfer_interval : Z) : TransferSender :=
  mkSender max_transfer_interval TransferPriority.Default Volatile TransferCRC_init DataTypeID.default 0 AllIfacesMask false.
Definition TransferSender_for (dt : DataTypeDescriptor) (qos : Qos) (max_transfer_interval : Z) : TransferSender :=
  Sender_init (TransferSender_make max_transfer_interval) dt qos.

Definition Sender_isInitialized (s : TransferSender) : bool := negb (ts_data_type_id_ s =? DataTypeID.default).

(** [int(x)] of an unsigned. *)
Definition to_int (x : Z) : Z := swrap 32 x.

(** The frame before any payload. *)
Definition blank_frame (mem : list Z) (t : TransferSender) (ttype : TransferType) (src dst tid : Z) : Frame :=
  setStartOfTransfer (setPriority (Frame_make mem (ts_data_type_id_ t) ttype src dst tid) (ts_priority_ t)) true.

(** The first frame of a multi-frame transfer; [buf] is filled with the CRC and the
    first payload bytes. *)
Definition first_frame (t : TransferSender) (frame : Frame) (payload : list Z) : Z * Frame :=
  let crc := add_bytes (ts_crc_base_ t) payload in
  let buf := u8 (Z.land crc 0xFF) :: u8 (Z.land (Z.shiftr crc 8) 0xFF) :: take (MaxDataLen - 2) payload in
  setPayload frame buf (Z.of_nat MaxDataLen).

(** The end of the loop body: the next frame. *)
Definition next_frame (frame : Frame) (payload : list Z) (offset : Z) : Z * Z * Frame :=
  let frame := flipToggle (setStartOfTransfer frame false) in
  let '(write_res, frame) :=
    setPayload frame (drop (Z.to_nat offset) payload) (u32 (Z.of_nat (length payload) - offset)) in
  let offset := offset + write_res in
  (write_res, offset,
   if to_int (Z.of_nat (length payload)) <=? offset then setEndOfTransfer frame true else frame).

Section sender.
Context {S : Type} `{FrameSink S}.

(** The [while (true)] of the multi-frame branch. *)
Fixpoint send_frames (fuel : nat) (t : TransferSender) (payload : list Z) (tx_deadline blocking_deadline : Z)
    (frame : Frame) (offset num_sent : Z) (s : S) : option (Z * S) :=
  match fuel with
  | O => None
  | Datatypes.S fuel =>
    '(send_res, s) ← fs_send s frame tx_deadline blocking_deadline (ts_qos_ t) (ts_flags_ t) (ts_iface_mask_ t);
    if send_res <? 0 then Some (send_res, fs_addError s)
    else
      let num_sent := num_sent + 1 in
      if end_of_transfer_ frame then Some (num_sent, s)
      else
        let '(write_res, offset, frame) := next_frame frame payload offset in
        if write_res <? 0 then Some (write_res, fs_addError s)
        else send_frames fuel t payload tx_deadline blocking_deadline frame offset num_sent s
  end.

(** [int send(..., TransferID tid) const]; every round but the last advances the offset. *)
Definition Sender_send_tid (mem : list Z) (t : TransferSender) (payload : list Z) (tx_deadline blocking_deadline : Z)
    (transfer_type : TransferType) (dst_node_id tid : Z) (s : S) : option (Z * S) :=
  let payload_len := Z.of_nat (length payload) in
  let frame := blank_frame mem t transfer_type (fs_getNodeID s) dst_node_id tid in
  let isPassiveMode := negb (NodeID.isUnicast (fs_getNodeID s)) in
  let allow := ts_allow_anonymous_transfers_ t && bool_decide (transfer_type = TransferTypeMessageBroadcast) &&
               (to_int payload_len <=? getPayloadCapacity frame) in
  if isPassiveMode && negb allow then Some (- ErrPassiveMode, s)
  else
    let s := fs_addTxTransfer s in
    if payload_len <=? getPayloadCapacity frame then
      let '(res, frame) := setPayload frame payload payload_len in
      if negb (res =? to_int payload_len) then Some (if res <? 0 then res else - ErrLogic, fs_addError s)
      else
        let frame := setEndOfTransfer frame true in
        let flags := if NodeID.isUnicast (src_node_id_ frame) then ts_flags_ t
                     else Z.lor (ts_flags_ t) CanIOFlagAbortOnError in
        fs_send s frame tx_deadline blocking_deadline (ts_qos_ t) flags (ts_iface_mask_ t)
    else
      let '(write_res, frame) := first_frame t frame payload in
      if write_res <? 2 then Some (write_res, fs_addError s)
      else send_frames (Datatypes.S (length payload)) t payload tx_deadline blocking_deadline frame (write_res - 2) 0 s.

(** [int send(...) const] with an automatic transfer ID. *)
Definition Sender_send (mem : list Z) (t : TransferSender) (payload : list Z) (tx_deadline blocking_deadline : Z)
    (transfer_type : TransferType) (dst_node_id : Z) (s : S) : option (Z * S) :=
  let otr_key := OtrKey_make (ts_data_type_id_ t) transfer_type dst_node_id in
  let otr_deadline := MTime.plus tx_deadline (Z.max (Duration.scale (ts_max_transfer_interval_ t) 2) MinEntryLifetime) in
  match fs_accessOrCreate s otr_key otr_deadline with
  | (None, s) => Some (- ErrMemory, s)
  | (Some this_tid, s) =>
    Sender_send_tid mem t payload tx_deadline blocking_deadline transfer_type dst_node_id this_tid s
  end.

End sender.

(** The dispatcher as a sink; [fuel] bounds the rounds of [CanIOManager::send]. *)
Section dispatcher_sink.
Context {W A : Type} `{CanPlatform W} `{IPoolAllocator A} (sizeof_TxEntry sizeof_OtrGroup : Z) (NumOtrKV fuel : nat).

#[local] Instance dispatcher_sink : FrameSink (Dispatcher W A) := {
  fs_send d f dl bd qos flags mask := Dispatcher_send sizeof_TxEntry fuel d f dl bd qos flags mask;
  fs_getNodeID d := self_node_id_ d;
  fs_addTxTransfer d := set_perf d (addTxTransfer (perf_ d));
  fs_addError d := set_perf d (addError (perf_ d));
  fs_accessOrCreate d key dl :=
    let '(tid, a, otr) := Otr_next NumOtrKV sizeof_OtrGroup (d_pool d) (outgoing_transfer_reg_ d) key dl in
    (tid, set_otr d a otr)
}.

End dispatcher_sink.

(** ** The frames of a transfer *)

(** The frame in hand and those the loop makes after it. *)
Fixpoint frames_from (fuel : nat) (payload : list Z) (frame : Frame) (offset : Z) : list Frame :=
  frame ::
  match fuel with
  | O => []
  | S fuel =>
    if end_of_transfer_ frame then []
    else let '(_, offset, frame) := next_frame frame payload offset in frames_from fuel payload frame offset
  end.

(** All frames of a transfer. *)
Definition transfer_frames (mem : list Z) (t : TransferSender) (payload : list Z) (ttype : TransferType)
    (src dst tid : Z) : list Frame :=
  let blank := blank_frame mem t ttype src dst tid in
  if Z.of_nat (length payload) <=? PayloadCapacity
  then [setEndOfTransfer (setPayload blank payload (Z.of_nat (length payload))).2 true]
  else let '(write_res, frame) := first_frame t blank payload in
       frames_from (length payload) payload frame (write_res - 2).

Definition same_header (f g : Frame) : Prop :=
  transfer_priority_ f = transfer_priority_ g /\ transfer_type_ f = transfer_type_ g /\
  data_type_id_ f = data_type_id_ g /\ src_node_id_ f = src_node_id_ g /\
  dst_node_id_ f = dst_node_id_ g /\ transfer_id_ f = transfer_id_ g.

(** Continuation frames that carry [rest], seven bytes each but the last. *)
Fixpoint sender_tail (proto : Frame) (toggle : bool) (rest : list Z) (fs : list Frame) : Prop :=
  match fs with
  | [] => False
  | f :: fs =>
    same_header f proto /\ Frame_wf f /\ payload_len_ f <= PayloadCapacity /\
    start_of_transfer_ f = false /\ toggle_ f = toggle /\
    frame_payload f = take 7 rest /\ rest <> [] /\
    end_of_transfer_ f = (match fs with [] => true | _ => false end) /\
    ((fs = [] /\ (length rest <= 7)%nat) \/ ((7 < length rest)%nat /\ sender_tail proto (negb toggle) (drop 7 rest) fs))
  end.

Lemma to_int_small x : 0 <= x < 2 ^ 31 -> to_int x = x.
Proof. intros. apply swrap_small; lia. Qed.

Lemma setPayload_ok f data len :
  Frame_wf f -> bytes data -> 0 <= len -> Z.min 7 len <= Z.of_nat (length data) ->
  let n := Z.min 7 len in
  (setPayload f data len).1 = n /\ Frame_wf (setPayload f data len).2 /\
  payload_len_ (setPayload f data len).2 = n /\ same_header (setPayload f data len).2 f /\
  frame_payload (setPayload f data len).2 = take (Z.to_nat n) data /\
  start_of_transfer_ (setPayload f data len).2 = start_of_transfer_ f /\
  end_of_transfer_ (setPayload f data len).2 = end_of_transfer_ f /\
  toggle_ (setPayload f data len).2 = toggle_ f.
Proof.
  intros [W1 W2 W3 W4 W5 W6 W7 W8] Hd Hl Hn. cbn zeta. unfold setPayload, getPayloadCapacity, PayloadCapacity in *.
  cbn [fst snd payload_len_ start_of_transfer_ end_of_transfer_ toggle_].
  rewrite u8_small by lia. set (n := Z.min 7 len) in *.
  assert (Hlen : length (take (Z.to_nat n) data) = Z.to_nat n) by (rewrite length_take; lia).
  split_and!; try done.
  - split; cbn; try done.
    + rewrite length_copy_onto; [done|]. rewrite W1, Hlen. lia.
    + apply copy_onto_bytes; [by apply Forall_take|done].
    + split; lia.
  - unfold frame_payload. cbn [payload_len_ payload_]. rewrite <-Hlen at 1. apply take_copy_onto.
Qed.

Lemma next_frame_ok frame payload offset :
  Frame_wf frame -> bytes payload -> Z.of_nat (length payload) < 2 ^ 31 -> 0 <= offset < Z.of_nat (length payload) ->
  let rest := drop (Z.to_nat offset) payload in
  let '(w, o, f) := next_frame frame payload offset in
  w = Z.min 7 (Z.of_nat (length rest)) /\ o = offset + w /\
  same_header f frame /\ Frame_wf f /\ payload_len_ f = w /\ start_of_transfer_ f = false /\
  toggle_ f = negb (toggle_ frame) /\ frame_payload f = take 7 rest /\
  end_of_transfer_ f = (Z.of_nat (length rest) <=? 7) || end_of_transfer_ frame.
Proof.
  intros Hw Hb Hl Ho rest. unfold next_frame.
  set (fl := flipToggle (setStartOfTransfer frame false)).
  assert (Hwf : Frame_wf fl) by (by destruct Hw; split).
  assert (Hrest : Z.of_nat (length rest) = Z.of_nat (length payload) - offset)
    by (subst rest; rewrite length_drop; lia).
  rewrite (wrap_small 32) by (split; lia). rewrite <-Hrest. fold rest.
  destruct (setPayload_ok fl rest (Z.of_nat (length rest)) Hwf) as (E1 & E2 & E3 & E4 & E5 & E6 & E7 & E8);
    [by apply Forall_drop|lia|lia|].
  destruct (setPayload fl rest (Z.of_nat (length rest))) as [w f]. cbn [fst snd] in *. subst w.
  rewrite to_int_small by lia.
  assert (Hp : frame_payload f = take 7 rest).
  { rewrite E5. destruct (decide (length rest <= 7)%nat).
    - rewrite !take_ge by lia. done.
    - f_equal. lia. }
  destruct (Z.leb_spec (Z.of_nat (length payload)) (offset + Z.min 7 (Z.of_nat (length rest)))) as [He|He].
  - assert (Hf2 : Frame_wf (setEndOfTransfer f true)) by (by destruct E2; split).
    split_and!; try done. cbn. destruct (Z.leb_spec (Z.of_nat (length rest)) 7); [done|lia].
  - split_and!; try done. rewrite E7. cbn. destruct (Z.leb_spec (Z.of_nat (length rest)) 7); [lia|done].
Qed.

Lemma same_header_trans f g h : same_header f g -> same_header g h -> same_header f h.
Proof. unfold same_header. intuition congruence. Qed.

Lemma frames_from_ok fuel payload frame offset proto :
  Frame_wf frame -> bytes payload -> Z.of_nat (length payload) < 2 ^ 31 -> 0 <= offset < Z.of_nat (length payload) ->
  end_of_transfer_ frame = false -> same_header frame proto ->
  Z.of_nat (length payload) - offset <= Z.of_nat fuel ->
  exists fs, frames_from fuel payload frame offset = frame :: fs /\
    sender_tail proto (negb (toggle_ frame)) (drop (Z.to_nat offset) payload) fs.
Proof.
  revert frame offset. induction fuel as [|fuel IH]; intros frame offset Hw Hb Hl Ho He Hh Hf; [lia|].
  cbn [frames_from]. rewrite He. set (rest := drop (Z.to_nat offset) payload).
  assert (Hrest : Z.of_nat (length rest) = Z.of_nat (length payload) - offset)
    by (subst rest; rewrite length_drop; lia).
  pose proof (next_frame_ok frame payload offset Hw Hb Hl Ho) as Hn. cbn zeta in Hn. fold rest in Hn.
  destruct (next_frame frame payload offset) as [[w o] f].
  destruct Hn as (Ew & Eo & E1 & E2 & E3 & E4 & E5 & E6 & E7). rewrite He, orb_false_r in E7.
  assert (Hne : rest <> []) by (intros E; rewrite E in Hrest; cbn in Hrest; lia).
  assert (Hh' : same_header f proto) by (by eapply same_header_trans).
  assert (Hcap : payload_len_ f <= PayloadCapacity) by (rewrite E3, Ew; unfold PayloadCapacity; lia).
  destruct (Z.leb_spec (Z.of_nat (length rest)) 7) as [Hs|Hs].
  - exists [f]. split.
    + destruct fuel; cbn [frames_from]; by rewrite ?E7.
    + cbn [sender_tail]. split_and!; try done. left. split; [done|lia].
  - assert (Ho7 : o = offset + 7) by lia.
    destruct (IH f o E2 Hb Hl ltac:(lia) E7 Hh' ltac:(lia)) as (fs & -> & Htl).
    exists (f :: fs). split; [done|]. cbn [sender_tail].
    assert (Hdrop : drop (Z.to_nat o) payload = drop 7 rest).
    { subst rest. rewrite drop_drop. f_equal. lia. }
    rewrite Hdrop, E5 in Htl. destruct fs as [|g fs]; [done|].
    split_and!; try done. right. split; [lia|done].
Qed.

(** The fields of a usable sender. *)
Record Sender_wf (t : TransferSender) : Prop := {
  sw_prio : is_u8 (ts_priority_ t);
  sw_dtid : is_u32 (ts_data_type_id_ t);
  sw_crc : is_u16 (ts_crc_base_ t)
}.

Lemma blank_frame_wf mem t ttype src dst tid :
  mem_wf mem -> Sender_wf t -> is_u8 src -> is_u8 dst -> TransferID.wf tid ->
  Frame_wf (blank_frame mem t ttype src dst tid).
Proof. intros [? ?] [? ? ?] ? ? ?. by split. Qed.

(** The bytes of the CRC in front of the payload. *)
Definition crc_bytes (crc : Z) : list Z := [u8 (Z.land crc 0xFF); u8 (Z.land (Z.shiftr crc 8) 0xFF)].

Lemma crc_bytes_value crc : is_u16 crc -> bytes (crc_bytes crc) /\
  nth 0 (crc_bytes crc) 0 + 256 * nth 1 (crc_bytes crc) 0 = crc.
Proof.
  intros Hc. unfold crc_bytes. cbn [nth].
  change 0xFF with (Z.ones 8). rewrite !Z.land_ones, Z.shiftr_div_pow2 by lia.
  unfold wrap. rewrite !Z.mod_mod by lia. destruct Hc. split.
  - repeat constructor; apply Z.mod_pos_bound; lia.
  - rewrite (Z.mod_small (crc / 2 ^ 8)) by (split; [apply Z.div_pos|apply Z.div_lt_upper_bound]; lia).
    pose proof (Z.div_mod crc (2 ^ 8) ltac:(lia)). lia.
Qed.

Lemma first_frame_ok mem t payload ttype src dst tid :
  mem_wf mem -> Sender_wf t -> is_u8 src -> is_u8 dst -> TransferID.wf tid ->
  bytes payload -> 7 < Z.of_nat (length payload) ->
  let '(w, f) := first_frame t (blank_frame mem t ttype src dst tid) payload in
  w = 7 /\ Frame_wf f /\ payload_len_ f = 7 /\ same_header f (blank_frame mem t ttype src dst tid) /\
  frame_payload f = crc_bytes (add_bytes (ts_crc_base_ t) payload) ++ take 5 payload /\
  start_of_transfer_ f = true /\ end_of_transfer_ f = false /\ toggle_ f = false.
Proof.
  intros Hm Ht Hs Hd Htid Hb Hl. unfold first_frame.
  set (crc := add_bytes (ts_crc_base_ t) payload).
  assert (Hc : is_u16 crc) by (apply add_bytes_range, Ht).
  change (u8 (Z.land crc 255) :: u8 (Z.land (Z.shiftr crc 8) 255) :: take (MaxDataLen - 2) payload)
    with (crc_bytes crc ++ take 6 payload).
  destruct (setPayload_ok (blank_frame mem t ttype src dst tid) (crc_bytes crc ++ take 6 payload) 8)
    as (E1 & E2 & E3 & E4 & E5 & E6 & E7 & E8); [by apply blank_frame_wf| |lia| |].
  - apply Forall_app. split; [by apply crc_bytes_value|by apply Forall_take].
  - rewrite length_app, length_take. cbn [length crc_bytes]. lia.
  - change (Z.of_nat MaxDataLen) with 8. destruct (setPayload _ _ 8) as [w f]. cbn [fst snd] in *.
    split_and!; try done. rewrite E5. change (Z.to_nat (Z.min 7 8)) with (length (crc_bytes crc) + 5)%nat.
    rewrite take_app_add, take_take. done.
Qed.

Lemma transfer_frames_multi mem t payload ttype src dst tid :
  mem_wf mem -> Sender_wf t -> is_u8 src -> is_u8 dst -> TransferID.wf tid ->
  bytes payload -> 7 < Z.of_nat (length payload) < 2 ^ 31 ->
  exists f fs, transfer_frames mem t payload ttype src dst tid = f :: fs /\
    Frame_wf f /\ payload_len_ f = 7 /\ same_header f (blank_frame mem t ttype src dst tid) /\
    frame_payload f = crc_bytes (add_bytes (ts_crc_base_ t) payload) ++ take 5 payload /\
    start_of_transfer_ f = true /\ end_of_transfer_ f = false /\ toggle_ f = false /\
    sender_tail (blank_frame mem t ttype src dst tid) true (drop 5 payload) fs.
Proof.
  intros Hm Ht Hs Hd Htid Hb [Hl Hl2]. unfold transfer_frames, PayloadCapacity.
  destruct (Z.leb_spec (Z.of_nat (length payload)) 7); [lia|].
  pose proof (first_frame_ok mem t payload ttype src dst tid Hm Ht Hs Hd Htid Hb Hl) as Hf.
  destruct (first_frame t (blank_frame mem t ttype src dst tid) payload) as [w f].
  destruct Hf as (-> & E2 & E3 & E4 & E5 & E6 & E7 & E8).
  destruct (frames_from_ok (length payload) payload f (7 - 2) (blank_frame mem t ttype src dst tid))
    as (fs & -> & Htail); try done; try lia.
  exists f, fs. rewrite E8 in Htail. split_and!; done.
Qed.

Lemma sender_tail_payload proto tg rest fs :
  sender_tail proto tg rest fs -> concat (frame_payload <$> fs) = rest.
Proof.
  revert tg rest. induction fs as [|f fs IH]; intros tg rest; [done|]. cbn [sender_tail].
  intros (_ & _ & _ & _ & _ & Hp & _ & _ & Hr). rewrite fmap_cons. cbn [concat]. rewrite Hp.
  destruct Hr as [[-> Hl]|[Hl Ht]].
  - cbn. rewrite app_nil_r. by apply take_ge.
  - rewrite (IH _ _ Ht). apply take_drop.
Qed.

Section feeding.
Context {S : Type} `{FrameSink S}.

(** Sends frames until one fails. *)
Fixpoint feed (t : TransferSender) (tx_deadline blocking_deadline : Z) (fs : list Frame) (num_sent : Z) (s : S)
    : option (Z * S) :=
  match fs with
  | [] => Some (num_sent, s)
  | f :: fs =>
    '(res, s) ← fs_send s f tx_deadline blocking_deadline (ts_qos_ t) (ts_flags_ t) (ts_iface_mask_ t);
    if res <? 0 then Some (res, fs_addError s) else feed t tx_deadline blocking_deadline fs (num_sent + 1) s
  end.

Lemma send_frames_feed fuel t payload dl bd frame offset num (s : S) :
  Frame_wf frame -> bytes payload -> Z.of_nat (length payload) < 2 ^ 31 -> 0 <= offset < Z.of_nat (length payload) ->
  end_of_transfer_ frame = false -> Z.of_nat (length payload) - offset <= Z.of_nat fuel ->
  send_frames (Datatypes.S fuel) t payload dl bd frame offset num s =
  feed t dl bd (frames_from fuel payload frame offset) num s.
Proof.
  revert frame offset num s. induction fuel as [|fuel IH]; intros frame offset num s Hw Hb Hl Ho He Hf; [lia|].
  cbn [send_frames frames_from feed].
  destruct (fs_send s frame dl bd _ _ _) as [[res s1]|]; [|done]. cbn [mbind option_bind].
  destruct (res <? 0); [done|]. rewrite He.
  pose proof (next_frame_ok frame payload offset Hw Hb Hl Ho) as Hn. cbn zeta in Hn.
  destruct (next_frame frame payload offset) as [[w o] f].
  destruct Hn as (Ew & Eo & E1 & E2 & E3 & E4 & E5 & E6 & E7). rewrite He, orb_false_r, length_drop in E7.
  rewrite length_drop in Ew. destruct (Z.ltb_spec w 0); [lia|].
  destruct (Z.leb_spec (Z.of_nat (length payload - Z.to_nat offset)) 7) as [Hs|Hs].
  - cbn [send_frames]. destruct fuel as [|fuel]; cbn [frames_from feed].
    + destruct (fs_send s1 f dl bd _ _ _) as [[res2 s2]|]; [|done]. cbn [mbind option_bind].
      destruct (res2 <? 0); [done|]. by rewrite E7.
    + rewrite E7. cbn [feed]. destruct (fs_send s1 f dl bd _ _ _) as [[res2 s2]|]; [|done]. cbn [mbind option_bind].
      by destruct (res2 <? 0).
  - change (send_frames (Datatypes.S fuel) t payload dl bd f o (num + 1) s1 =
      feed t dl bd (frames_from fuel payload f o) (num + 1) s1). apply IH; try done; lia.
Qed.

(** [send] with an explicit transfer ID: a passive node sends only anonymous
    single-frame broadcasts, and only if they are enabled; otherwise exactly the
    frames of the transfer are handed to the dispatcher, in order, up to the first
    one that fails, with the result of the single frame or the amount of frames.
    The frames of a payload of more than seven bytes carry the two CRC bytes, low
    one first, and then the payload: all are well formed and share header and
    transfer ID, the first one only starts, the last one only ends the transfer,
    the toggle bit alternates from zero and all frames but the last are full. *)
Theorem sender_emits_the_transfer mem t payload dl bd ttype dst tid (s : S) :
  mem_wf mem -> Sender_wf t -> is_u8 (fs_getNodeID s) -> is_u8 dst -> TransferID.wf tid ->
  bytes payload -> Z.of_nat (length payload) < 2 ^ 31 ->
  let src := fs_getNodeID s in
  let frames := transfer_frames mem t payload ttype src dst tid in
  let single := Z.of_nat (length payload) <=? 7 in
  Sender_send_tid mem t payload dl bd ttype dst tid s =
    (if negb (NodeID.isUnicast src) &&
        negb (ts_allow_anonymous_transfers_ t && bool_decide (ttype = TransferTypeMessageBroadcast) && single)
     then Some (- ErrPassiveMode, s)
     else match frames with
          | f :: _ =>
            if single then fs_send (fs_addTxTransfer s) f dl bd (ts_qos_ t)
              (if NodeID.isUnicast src then ts_flags_ t else Z.lor (ts_flags_ t) CanIOFlagAbortOnError) (ts_iface_mask_ t)
            else feed t dl bd frames 0 (fs_addTxTransfer s)
          | [] => None
          end) /\
  (if single then exists f, frames = [f] /\ Frame_wf f /\ frame_payload f = payload /\
     start_of_transfer_ f = true /\ end_of_transfer_ f = true /\ toggle_ f = false /\
     same_header f (blank_frame mem t ttype src dst tid)
   else concat (frame_payload <$> frames) = crc_bytes (add_bytes (ts_crc_base_ t) payload) ++ payload /\
     exists f fs, frames = f :: fs /\ Frame_wf f /\ payload_len_ f = 7 /\
       start_of_transfer_ f = true /\ end_of_transfer_ f = false /\ toggle_ f = false /\
       same_header f (blank_frame mem t ttype src dst tid) /\
       sender_tail (blank_frame mem t ttype src dst tid) true (drop 5 payload) fs).
Proof.
  intros Hm Ht Hs Hd Htid Hb Hl src frames single. subst frames single.
  unfold Sender_send_tid, transfer_frames. cbn zeta. fold src. unfold getPayloadCapacity, PayloadCapacity.
  rewrite to_int_small by lia.
  pose proof (blank_frame_wf mem t ttype src dst tid Hm Ht Hs Hd Htid) as Hw.
  destruct (Z.leb_spec (Z.of_nat (length payload)) 7) as [Hsg|Hsg].
  - destruct (setPayload_ok (blank_frame mem t ttype src dst tid) payload (Z.of_nat (length payload)) Hw Hb)
      as (E1 & E2 & E3 & E4 & E5 & E6 & E7 & E8); [lia|lia|].
    destruct (setPayload _ payload _) as [w f]. cbn [fst snd] in *. rewrite Z.min_r in * by lia. split.
    + subst w. rewrite Z.eqb_refl. cbn [negb]. destruct (negb _ && negb _); [done|].
      change (src_node_id_ (setEndOfTransfer f true)) with (src_node_id_ f).
      replace (src_node_id_ f) with src; [done|]. symmetry. apply E4.
    + exists (setEndOfTransfer f true). split_and!; try done.
      * by destruct E2; split.
      * change (frame_payload (setEndOfTransfer f true)) with (frame_payload f). rewrite E5. apply take_ge. lia.
  - pose proof (transfer_frames_multi mem t payload ttype src dst tid Hm Ht Hs Hd Htid Hb ltac:(lia)) as Hmf.
    unfold transfer_frames, PayloadCapacity in Hmf. destruct (Z.leb_spec (Z.of_nat (length payload)) 7); [lia|].
    pose proof (first_frame_ok mem t payload ttype src dst tid Hm Ht Hs Hd Htid Hb Hsg) as Hf.
    destruct (first_frame t (blank_frame mem t ttype src dst tid) payload) as [w f].
    destruct Hf as (-> & E2 & E3 & E4 & E5 & E6 & E7 & E8). split.
    + destruct (negb _ && negb _); [done|]. cbn [Z.ltb Z.compare].
      destruct Hmf as (f0 & fs & Efs & _). rewrite send_frames_feed by (done || lia). rewrite Efs. done.
    + destruct Hmf as (f0 & fs & Efs & F1 & F2 & F3 & F4 & F5 & F6 & F7 & F8). split.
      * rewrite Efs, fmap_cons. cbn [concat]. rewrite (sender_tail_payload _ _ _ _ F8), F4, <-app_assoc.
        by rewrite take_drop.
      * exists f0, fs. split_and!; done.
Qed.

End feeding.

(** ** Over the bus *)

(** A frame compiled by the sender, received at time [ts] on interface [iface] and
    parsed by the receiver. *)
Definition over_the_bus (mem : list Z) (utc iface : Z) (f : Frame) (ts : Z) : option RxFrame :=
  let '(ok, c) := Frame_compile f CanFrame_default in
  if ok then
    let '(ok, rx) := RxFrame_parse (RxFrame_default mem) (mkCanRxFrame c ts utc iface) in
    if ok then Some rx else None
  else None.

(** The received frame is the sent one. *)
Record same_frame (rx : RxFrame) (f : Frame) (ts utc iface : Z) : Prop := {
  sf_wf : Rx_wf rx;
  sf_header : same_header (rx_frame rx) f;
  sf_payload : frame_payload (rx_frame rx) = frame_payload f;
  sf_len : payload_len_ (rx_frame rx) = payload_len_ f;
  sf_start : start_of_transfer_ (rx_frame rx) = start_of_transfer_ f;
  sf_end : end_of_transfer_ (rx_frame rx) = end_of_transfer_ f;
  sf_toggle : toggle_ (rx_frame rx) = toggle_ f;
  sf_ts : ts_mono_ rx = ts;
  sf_utc : ts_utc_ rx = utc;
  sf_iface : iface_index_ rx = iface
}.

Lemma over_the_bus_ok mem utc iface f ts :
  mem_wf mem -> Frame_wf f -> Frame_valid f -> src_node_id_ f <> 0 -> 0 < ts < 2 ^ 63 -> 0 <= iface < MaxCanIfaces ->
  exists rx, over_the_bus mem utc iface f ts = Some rx /\ same_frame rx f ts utc iface.
Proof.
  intros Hm Hwf Hv Hsrc Hts Hif. unfold over_the_bus.
  destruct (Frame_compile f CanFrame_default) as [ok c] eqn:Ec.
  assert (Hok : ok = true).
  { unfold Frame_compile in Ec. rewrite (proj2 (Frame_isValid_spec f) Hv) in Ec. by injection Ec as <- _. }
  subst ok. destruct (compiled_flags f CanFrame_default c Hwf Hv Ec) as (F1 & F2 & F3 & F4).
  assert (Hacc : acceptable c = true) by (unfold acceptable; rewrite F1, F2, F3; cbn [negb andb]; lia).
  assert (Hcw : CanFrame_wf c) by (apply (compiled_wf f CanFrame_default); [done..|by apply Forall_replicate|done]).
  pose proof (parsed_compiled (Frame_default mem) f CanFrame_default c Hwf Hv eq_refl (or_introl Hsrc) Ec) as Heq.
  destruct (RxFrame_parse (RxFrame_default mem) (mkCanRxFrame c ts utc iface)) as [ok rx] eqn:Ep.
  assert (Hrx : ok = true /\ rx = mkRxFrame (parsed_frame (Frame_default mem) c) ts utc iface).
  { unfold RxFrame_parse in Ep. cbn [RxFrame_default rx_frame crx_frame crx_ts_mono crx_ts_utc crx_iface_index] in Ep.
    rewrite Frame_parse_eq, Hacc, (Frame_isValid_eqb _ _ Heq), (proj2 (Frame_isValid_spec f) Hv) in Ep. cbn [negb] in Ep.
    unfold MTime.isZero in Ep. destruct (Z.eqb_spec ts 0); [lia|]. by injection Ep as <- <-. }
  destruct Hrx as [-> ->]. eexists. split; [done|].
  assert (Hcrx : CanRx_wf (mkCanRxFrame c ts utc iface)) by (split; [done|cbn; lia|done]).
  destruct (RxFrame_parse_wf mem _ _ Hm Hcrx Ep) as (Hw & _ & _).
  apply Frame_eqb_spec in Heq as (E1 & E2 & E3 & E4 & E5 & E6 & E7 & E8 & E9 & E10 & E11).
  by split.
Qed.

(** Validity of all frames of a transfer comes from the header. *)
Lemma header_valid f proto :
  Frame_valid proto -> same_header f proto -> NodeID.isUnicast (src_node_id_ proto) = true ->
  (start_of_transfer_ f = true -> toggle_ f = false) -> payload_len_ f <= PayloadCapacity -> Frame_valid f.
Proof.
  intros [V1 V2 V3 V4 V5 V6 V7 V8 V9 V10] (H1 & H2 & H3 & H4 & H5 & H6) Hu Ht Hl.
  unfold NodeID.isUnicast, NodeID.Max, NodeID.ValueBroadcast in Hu.
  split; rewrite ?H1, ?H2, ?H3, ?H4, ?H5; try done. intros E. exfalso. lia.
Qed.

(** The receiver's view of the continuation frames. *)
Lemma tail_over_the_bus mem utc iface proto tg rest fs tss t0 :
  mem_wf mem -> Frame_valid proto -> NodeID.isUnicast (src_node_id_ proto) = true -> 0 <= iface < MaxCanIfaces ->
  0 < t0 -> length tss = length fs ->
  Forall (fun ts => t0 <= ts <= t0 + DefaultTidTimeoutMSec * 1000 /\ ts < 2 ^ 63) tss ->
  sender_tail proto tg rest fs ->
  exists rxs, Forall2 (fun fts rx => over_the_bus mem utc iface fts.1 fts.2 = Some rx) (zip fs tss) rxs /\
    tail_frames (transfer_id_ proto) iface t0 tg rxs /\
    transfer_payload rxs = rest /\
    Forall (fun rx => same_header (rx_frame rx) proto) rxs.
Proof.
  intros Hm Hv Hu Hif Ht0. revert tg rest tss. induction fs as [|f fs IH]; intros tg rest tss Hlen Htss Htl; [done|].
  destruct tss as [|ts tss]; [done|]. apply Forall_cons in Htss as [[Hts Hts2] Htss].
  cbn [sender_tail] in Htl. destruct Htl as (Hh & Hwf & Hl & Hs & Htg & Hp & Hne & He & Hr).
  assert (Hvf : Frame_valid f) by (apply (header_valid f proto); [done..|by rewrite Hs|done]).
  assert (Hsrc : src_node_id_ f <> 0).
  { destruct Hh as (_ & _ & _ & -> & _). unfold NodeID.isUnicast, NodeID.ValueBroadcast in Hu. lia. }
  destruct (over_the_bus_ok mem utc iface f ts Hm Hwf Hvf Hsrc ltac:(lia) Hif) as (rx & Erx & Sf).
  assert (Hhead : same_header (rx_frame rx) proto) by (eapply same_header_trans; [apply Sf|done]).
  assert (Heff : eff_payload (rx_frame rx) = take 7 rest).
  { unfold eff_payload. rewrite (sf_start _ _ _ _ _ Sf), Hs, (sf_payload _ _ _ _ _ Sf). done. }
  destruct Hr as [[-> Hshort]|[Hlong Htl]].
  - destruct tss; [|done]. exists [rx]. split_and!.
    + constructor; [done|constructor].
    + cbn [tail_frames]. rewrite (sf_start _ _ _ _ _ Sf), (sf_toggle _ _ _ _ _ Sf), (sf_end _ _ _ _ _ Sf),
        (sf_iface _ _ _ _ _ Sf), (sf_ts _ _ _ _ _ Sf).
      split_and!; try done; [apply Sf|apply Hhead|lia|lia|by left].
    + unfold transfer_payload. cbn. rewrite Heff, app_nil_r. by apply take_ge.
    + by constructor.
  - destruct (IH (negb tg) (drop 7 rest) tss ltac:(cbn in Hlen; lia) Htss Htl) as (rxs & F2 & Htf & Htp & Hsrcs).
    exists (rx :: rxs). split_and!.
    + by constructor.
    + assert (Hne2 : rxs <> []) by (intros ->; done).
      cbn [tail_frames]. rewrite (sf_start _ _ _ _ _ Sf), (sf_toggle _ _ _ _ _ Sf), (sf_end _ _ _ _ _ Sf),
        (sf_iface _ _ _ _ _ Sf), (sf_ts _ _ _ _ _ Sf).
      assert (Hfs : fs <> []) by (intros ->; done).
      split_and!; try done; [apply Sf|apply Hhead|lia|lia| |by right].
      rewrite He. destruct fs, rxs; done.
    + unfold transfer_payload in *. rewrite fmap_cons. cbn [concat]. rewrite Heff, Htp. apply take_drop.
    + by constructor.
Qed.

(** ** From sender to application *)

(** What the application reads of a transfer. *)
Definition reads_as (t : IncomingTransfer) (payload : list Z) : Prop :=
  forall offset len, 0 <= offset -> 0 <= len -> offset + len < 2 ^ 32 ->
    IncomingTransfer_read t false offset len =
      (let n := Z.max 0 (Z.min len (Z.of_nat (length payload) - offset)) in (n, buf_read payload offset n)).

Lemma single_reads_as rx : Rx_wf rx -> reads_as (SingleFrame_make rx) (frame_payload (rx_frame rx)).
Proof.
  intros Hw offset len Ho Hl H32. cbn zeta. cbn [IncomingTransfer_read SingleFrame_make].
  pose proof (frame_payload_length _ (rxw_frame rx Hw) (rxw_len rx Hw)) as Hlen.
  pose proof (fwf_len _ (rxw_frame rx Hw)) as [Hl0 _]. pose proof (rxw_len rx Hw) as Hcap. unfold PayloadCapacity in Hcap.
  rewrite u8_small by lia. set (m := payload_len_ (rx_frame rx)) in *.
  destruct (Z.leb_spec m offset) as [Hle|Hgt].
  - replace (Z.max 0 (Z.min len (Z.of_nat (length (frame_payload (rx_frame rx))) - offset))) with 0 by lia. done.
  - rewrite clamp_len_ok by lia.
    replace (Z.max 0 (Z.min len (Z.of_nat (length (frame_payload (rx_frame rx))) - offset)))
      with (Z.min len (m - offset)) by lia.
    f_equal. unfold buf_read, frame_payload. fold m. rewrite skipn_firstn_comm, take_take. f_equal. lia.
Qed.

Lemma last_in {X} (l : list X) d : l <> [] -> List.last l d ∈ l.
Proof.
  induction l as [|x l IH]; [done|]. intros _. destruct l as [|y l]; [by left|].
  right. by apply IH.
Qed.

Lemma unicast_source src : NodeID.isUnicast src = true -> 0 <= src -> is_u8 src /\ src <> 0.
Proof.
  unfold NodeID.isUnicast, NodeID.Max, NodeID.ValueBroadcast. change (Z.shiftl 1 NodeID.BitLen - 1) with 127. intros Hu Hs.
  split; [split; lia|lia].
Qed.

Section end_to_end.
Context {A : Type} `{PoolLaws A} (sizeof_Block sizeof_Entry sizeof_KVGroup : Z) (NumKV : nat).
Context (B : nat) (HB : 8 < Z.of_nat B <= 255) (HNum : (0 < NumKV)%nat).
Context (block_size num_blocks : Z) `{!PoolCapacity A block_size num_blocks}.
Context (Hsb : sizeof_Block <= block_size) (Hse : sizeof_Entry <= block_size) (Hsk : sizeof_KVGroup <= block_size).
Context (junk : Z -> list Z) (Hj : forall p, length (junk p) = B).

(** The CRC field of a frame whose payload begins with the two bytes of a CRC. *)
Lemma frame_crc_prefix f crc rest :
  is_u16 crc -> 2 <= payload_len_ f -> frame_payload f = crc_bytes crc ++ rest -> frame_crc f = crc.
Proof.
  intros Hcrc Hlen Hpl. etrans; [|exact (proj2 (crc_bytes_value _ Hcrc))]. unfold frame_crc.
  assert (Hnth : forall i, (i < 2)%nat -> nth i (payload_ f) 0 = nth i (crc_bytes crc) 0).
  { intros i Hi. transitivity (nth i (frame_payload f) 0).
    - unfold frame_payload. rewrite nth_firstn. by destruct (Nat.ltb_spec i (Z.to_nat (payload_len_ f))); [|lia].
    - rewrite Hpl. apply app_nth1. exact Hi. }
  by rewrite !Hnth by lia.
Qed.

(** One transfer over the bus, under the hypotheses both cases share. *)
Section one_transfer.
Context (mem mem' : list Z) (t : TransferSender) (payload : list Z) (ttype : TransferType) (src dst tid ts : Z)
  (tss : list Z) (utc iface : Z) (a : A) (l : TransferListener) (perf : TransferPerfCounter).
Context (Hm : mem_wf mem) (Hm' : mem_wf mem') (Ht : Sender_wf t) (Hd : is_u8 dst) (Htid : TransferID.wf tid)
  (Hb : bytes payload) (Hfit : Z.of_nat (length payload) <= max_buf_size_ (bufmgr_ l))
  (Hmax : max_buf_size_ (bufmgr_ l) < 2 ^ 31) (Hcrc : crc_base_ l = ts_crc_base_ t)
  (Hu : NodeID.isUnicast src = true) (Hsrc8 : is_u8 src) (Hsrc : src <> 0) (Hts : 0 < ts < 2 ^ 63)
  (Htss : Forall (fun x => ts <= x <= ts + DefaultTidTimeoutMSec * 1000 /\ x < 2 ^ 63) tss)
  (Hif : 0 <= iface < MaxCanIfaces).

Abbreviation blank := (blank_frame mem t ttype src dst tid).
Abbreviation frames := (transfer_frames mem t payload ttype src dst tid).

Context (Hvalid : Frame_valid blank) (Hlen : length (ts :: tss) = length frames).

(** What the theorem below says of the received frames. *)
Definition arrives : Prop :=
  exists rx rxs, Forall2 (fun fts rx => over_the_bus mem' utc iface fts.1 fts.2 = Some rx) (zip frames (ts :: tss)) (rx :: rxs) /\
    (listener_ready NumKV B num_blocks a l rx ->
     exists it a' l' perf',
       Listener_handleFrames sizeof_Block sizeof_Entry sizeof_KVGroup NumKV junk a l perf (rx :: rxs) =
         ([it], a', l', perf') /\
       reads_as it payload /\
       it_src_node_id_ (it_header it) = src /\ it_transfer_type_ (it_header it) = ttype /\
       it_transfer_id_ (it_header it) = tid /\ it_transfer_priority_ (it_header it) = ts_priority_ t /\
       Listener_inv NumKV B a' l' /\ listener_foreign a' l' = listener_foreign a l).

Lemma single_frame_arrives : Z.of_nat (length payload) <= 7 -> arrives.
Proof.
  intros Hsg. pose proof (blank_frame_wf mem t ttype src dst tid Hm Ht Hsrc8 Hd Htid) as Hbw. unfold arrives.
  destruct (setPayload_ok blank payload (Z.of_nat (length payload)) Hbw Hb)
    as (E1 & E2 & E3 & E4 & E5 & E6 & E7 & E8); [lia|lia|].
  assert (Hfr : frames = [setEndOfTransfer (setPayload blank payload (Z.of_nat (length payload))).2 true]).
  { unfold transfer_frames, PayloadCapacity. by destruct (Z.leb_spec (Z.of_nat (length payload)) 7); [|lia]. }
  revert Hlen; rewrite Hfr; intros Hlen'. destruct tss; [|done].
  set (f := (setPayload blank payload (Z.of_nat (length payload))).2) in *.
  assert (Hfw : Frame_wf (setEndOfTransfer f true)) by (by destruct E2; split).
  assert (Hfv : Frame_valid (setEndOfTransfer f true)).
  { apply (header_valid _ blank); [done|exact E4|exact Hu|done|]. cbn [payload_len_ setEndOfTransfer].
    rewrite E3. unfold PayloadCapacity. lia. }
  destruct (over_the_bus_ok mem' utc iface (setEndOfTransfer f true) ts Hm' Hfw Hfv) as (rx & Erx & Sf); try done.
  exists rx, []. split; [by repeat constructor|]. intros Hready.
  pose proof (sf_header _ _ _ _ _ Sf) as Hh. assert (Hh' : same_header (rx_frame rx) blank) by exact (same_header_trans _ _ _ Hh E4).
  destruct Hh' as (P1 & P2 & P3 & P4 & P5 & P6). cbn in P1, P2, P3, P4, P5, P6.
  destruct (listener_single sizeof_Block sizeof_Entry sizeof_KVGroup NumKV B HB HNum block_size num_blocks Hsb Hse Hsk
    junk Hj a l perf rx Hready) as (a' & l' & perf' & s & r' & Ehf & Hhr & Hfo & _).
  - apply Sf.
  - split; [|done]. by rewrite P4.
  - rewrite (sf_start _ _ _ _ _ Sf). exact E6.
  - rewrite (sf_end _ _ _ _ _ Sf). done.
  - rewrite (sf_toggle _ _ _ _ _ Sf). exact E8.
  - exists (SingleFrame_make rx), a', l', perf'. cbn [it_header SingleFrame_make it_src_node_id_ it_transfer_type_ it_transfer_id_ it_transfer_priority_].
    split_and!; try done; [|apply Hhr].
    assert (Hp : frame_payload (rx_frame rx) = payload).
    { rewrite (sf_payload _ _ _ _ _ Sf). change (frame_payload f = payload). rewrite E5. apply take_ge. lia. }
    rewrite <-Hp. apply single_reads_as, Sf.
Qed.

Lemma multi_frame_arrives : 7 < Z.of_nat (length payload) -> arrives.
Proof.
  intros Hsg. unfold arrives.
  destruct (transfer_frames_multi mem t payload ttype src dst tid Hm Ht Hsrc8 Hd Htid Hb ltac:(lia))
    as (f & fs & Efs & F1 & F2 & F3 & F4 & F5 & F6 & F7 & F8).
  rewrite Efs. pose proof Hlen as Hlen'. rewrite Efs in Hlen'.
  assert (Hfv : Frame_valid f).
  { apply (header_valid f blank); [done..|]. rewrite F2. unfold PayloadCapacity. lia. }
  destruct (over_the_bus_ok mem' utc iface f ts Hm' F1 Hfv) as (rx & Erx & Sf); try done.
  { destruct F3 as (_ & _ & _ & -> & _). done. }
  destruct (tail_over_the_bus mem' utc iface blank true (drop 5 payload) fs tss ts) as (rxs & Erxs & Htf & Htp & Hsame);
    try done; [lia|cbn in Hlen'; lia|].
  exists rx, rxs. split; [by constructor|]. intros Hready.
  assert (Hh : same_header (rx_frame rx) blank) by exact (same_header_trans _ _ _ (sf_header _ _ _ _ _ Sf) F3).
  pose proof Hh as (P1 & P2 & P3 & P4 & P5 & P6). cbn in P1, P2, P3, P4, P5, P6.
  assert (Hpl : frame_payload (rx_frame rx) = crc_bytes (add_bytes (ts_crc_base_ t) payload) ++ take 5 payload)
    by (by rewrite (sf_payload _ _ _ _ _ Sf)).
  assert (Htot : transfer_payload (rx :: rxs) = payload).
  { unfold transfer_payload in *. rewrite fmap_cons. cbn [concat]. rewrite Htp. unfold eff_payload.
    rewrite (sf_start _ _ _ _ _ Sf), F5, Hpl. change (Z.to_nat CrcNumBytes) with (length (crc_bytes (add_bytes (ts_crc_base_ t) payload))).
    rewrite drop_app_length. apply take_drop. }
  assert (Hfc : frame_crc (rx_frame rx) = add_bytes (ts_crc_base_ t) payload).
  { apply (frame_crc_prefix _ _ (take 5 payload)); [apply add_bytes_range, sw_crc, Ht| |exact Hpl].
    rewrite (sf_len _ _ _ _ _ Sf), F2. lia. }
  destruct (listener_transfer sizeof_Block sizeof_Entry sizeof_KVGroup NumKV B HB HNum block_size num_blocks Hsb Hse Hsk
    junk Hj a l perf rx rxs Hready) as (out & a' & l' & perf' & s & r' & last & Ehf & Hlast & Hdel & Hhr & Hfo & _).
  - apply Sf.
  - split; [|done]. by rewrite P4.
  - eapply Forall_impl; [exact Hsame|]. cbn. intros x (_ & Hx2 & _ & Hx1 & _). unfold of_stream, frame_key.
    rewrite Hx1, Hx2, P2, P4. done.
  - rewrite (sf_start _ _ _ _ _ Sf). done.
  - rewrite (sf_end _ _ _ _ _ Sf). done.
  - rewrite (sf_toggle _ _ _ _ _ Sf). done.
  - rewrite (sf_len _ _ _ _ _ Sf), F2. done.
  - by rewrite P6, (sf_iface _ _ _ _ _ Sf), (sf_ts _ _ _ _ _ Sf).
  - by rewrite Htot.
  - rewrite Htot, Hcrc, Hfc in Hdel. unfold delivers in Hdel. rewrite Z.eqb_refl in Hdel.
    destruct Hdel as (e & -> & We & Hce).
    assert (Hin : last ∈ rxs) by (rewrite <-Hlast; apply last_in; by intros ->).
    rewrite Forall_forall in Hsame. destruct (Hsame last Hin) as (Q1 & Q2 & _ & Q4 & _ & Q6).
    exists (MultiFrame_make (ts_mono_ rx) (ts_utc_ rx) last e), a', l', perf'. split_and!; try done; [|apply Hhr].
    intros offset len ? ? ?. cbn [IncomingTransfer_read MultiFrame_make]. rewrite (Entry_read_ok B HB) by done.
    by rewrite Hce, <-(length_Entry_content B e We), Hce.
Qed.

Lemma transfer_arrives : arrives.
Proof. destruct (Z.leb_spec (Z.of_nat (length payload)) 7); [by apply single_frame_arrives|by apply multi_frame_arrives]. Qed.

End one_transfer.

(** C2: end to end: take any payload, frames made for it by a sender of the same data
    type signature, with a valid header and a unicast source; every frame compiles,
    and is accepted by the parser of the receiving node. When the frames arrive in
    order on one interface within the transfer ID timeout, at a listener that is
    ready and has memory for the payload, the listener hands over exactly one
    transfer: reading it gives the payload sent, byte for byte, and its header has
    the sender's node ID, transfer type, transfer ID and priority. *)
Theorem transfer_end_to_end mem mem' t payload ttype src dst tid ts tss utc iface a l perf :
  mem_wf mem -> mem_wf mem' -> Sender_wf t -> is_u8 dst -> TransferID.wf tid -> bytes payload ->
  Z.of_nat (length payload) <= max_buf_size_ (bufmgr_ l) -> max_buf_size_ (bufmgr_ l) < 2 ^ 31 ->
  crc_base_ l = ts_crc_base_ t -> NodeID.isUnicast src = true -> 0 <= src ->
  Frame_isValid (blank_frame mem t ttype src dst tid) = true ->
  let frames := transfer_frames mem t payload ttype src dst tid in
  length (ts :: tss) = length frames -> 0 < ts < 2 ^ 63 ->
  Forall (fun x => ts <= x <= ts + DefaultTidTimeoutMSec * 1000 /\ x < 2 ^ 63) tss -> 0 <= iface < MaxCanIfaces ->
  exists rx rxs, Forall2 (fun fts rx => over_the_bus mem' utc iface fts.1 fts.2 = Some rx) (zip frames (ts :: tss)) (rx :: rxs) /\
    (listener_ready NumKV B num_blocks a l rx ->
     exists it a' l' perf',
       Listener_handleFrames sizeof_Block sizeof_Entry sizeof_KVGroup NumKV junk a l perf (rx :: rxs) =
         ([it], a', l', perf') /\
       reads_as it payload /\
       it_src_node_id_ (it_header it) = src /\ it_transfer_type_ (it_header it) = ttype /\
       it_transfer_id_ (it_header it) = tid /\ it_transfer_priority_ (it_header it) = ts_priority_ t /\
       Listener_inv NumKV B a' l' /\ listener_foreign a' l' = listener_foreign a l).
Proof.
  intros Hm Hm' Ht Hd Htid Hb Hfit Hmax Hcrc Hu Hsrc0 Hvalid%Frame_isValid_spec frames Hlen Hts Htss Hif.
  destruct (unicast_source src Hu Hsrc0). by apply transfer_arrives.
Qed.

End end_to_end.

(** ** Witnesses *)

(** A sink that records the frames of node 42. *)
#[local] Instance recorder : FrameSink (list Frame) := {
  fs_send s f _ _ _ _ _ := Some (1, s ++ [f]);
  fs_getNodeID _ := 42;
  fs_addTxTransfer s := s;
  fs_addError s := s;
  fs_accessOrCreate s _ _ := (Some 0, s)
}.

Definition example_sender : TransferSender :=
  TransferSender_for (mkDescriptor DataTypeKindMessage 341 0x1234) Volatile getDefaultMaxTransferInterval.

Lemma example_sender_wf : Sender_wf example_sender.
Proof. split; vm_compute; split; done. Qed.

Lemma example_mem_wf : mem_wf (replicate 7 0).
Proof. split; [done|by apply Forall_replicate]. Qed.

Definition example_payload : list Z := [1; 2; 3; 4; 5; 6; 7; 8; 9; 10; 11; 12; 13; 14; 15].

Lemma example_payload_bytes : bytes example_payload.
Proof. repeat constructor; done. Qed.

(** Fifteen bytes go out as three frames. *)
Lemma sender_emits_the_transfer_witness :
  Sender_send_tid (replicate 7 0) example_sender example_payload 100 50 TransferTypeMessageBroadcast 0 7 [] =
    Some (3, transfer_frames (replicate 7 0) example_sender example_payload TransferTypeMessageBroadcast 42 0 7) /\
  concat (frame_payload <$>
      transfer_frames (replicate 7 0) example_sender example_payload TransferTypeMessageBroadcast 42 0 7) =
    crc_bytes (add_bytes (ts_crc_base_ example_sender) example_payload) ++ example_payload.
Proof.
  destruct (sender_emits_the_transfer (replicate 7 0) example_sender example_payload 100 50
    TransferTypeMessageBroadcast 0 7 ([] : list Frame) example_mem_wf example_sender_wf
    ltac:(split; done) ltac:(split; done) ltac:(by rewrite tid_wf_iff) example_payload_bytes eq_refl) as [E1 [E2 _]].
  split; [rewrite E1; vm_compute; reflexivity|exact E2].
Defined.

(** The same transfer at a fresh listener. *)
Lemma transfer_end_to_end_witness :
  let pool := PoolAllocator_init 4096 6400 64 in
  exists rx rxs, length rxs = 2%nat /\
    exists it a' l' perf',
      Listener_handleFrames 64 64 64 2 (fun _ => replicate 56 0) pool example_listener (TransferListener.mkPerf 0 0 0)
        (rx :: rxs) = ([it], a', l', perf') /\ reads_as it example_payload.
Proof.
  intros pool.
  assert (Htid : TransferID.wf 7) by (rewrite tid_wf_iff; lia).
  assert (H8 : is_u8 0) by (split; lia). assert (Hif : 0 <= 0 < MaxCanIfaces) by (unfold MaxCanIfaces; lia).
  assert (Hw : Forall (fun x => 1000 <= x <= 1000 + DefaultTidTimeoutMSec * 1000 /\ x < 2 ^ 63) [1001; 1002])
    by (unfold DefaultTidTimeoutMSec; constructor; [lia|]; constructor; [lia|]; constructor).
  assert (Hu : NodeID.isUnicast 42 = true) by reflexivity.
  assert (Hmx : max_buf_size_ (bufmgr_ example_listener) < 2 ^ 31) by reflexivity.
  assert (Hc : crc_base_ example_listener = ts_crc_base_ example_sender) by (vm_compute; reflexivity).
  assert (Hfit : Z.of_nat (length example_payload) <= max_buf_size_ (bufmgr_ example_listener)) by (vm_compute; discriminate).
  assert (Hv : Frame_isValid (blank_frame (replicate 7 0) example_sender TransferTypeMessageBroadcast 42 0 7) = true)
    by (vm_compute; reflexivity).
  assert (Hn : length [1000; 1001; 1002] = length (transfer_frames (replicate 7 0) example_sender example_payload
    TransferTypeMessageBroadcast 42 0 7)) by (vm_compute; reflexivity).
  destruct (PoolAllocator_init_ok 4096 6400 64 eq_refl eq_refl ltac:(split; discriminate))
    as (Hpi & Hlive & _).
  destruct (@transfer_end_to_end PoolAllocator Pool_ops (Pool_laws_at 4096 6400 64)
    64 64 64 2 56 ltac:(lia) ltac:(lia) 64 100 (Pool_capacity_at 4096 6400 64) ltac:(lia) ltac:(lia) ltac:(lia)
    (fun _ => replicate 56 0) (fun _ => eq_refl) (replicate 7 0) (replicate 7 0) example_sender example_payload
    TransferTypeMessageBroadcast 42 0 7 1000 [1001; 1002] 0 0 pool example_listener (TransferListener.mkPerf 0 0 0)
    example_mem_wf example_mem_wf example_sender_wf H8 Htid
    example_payload_bytes Hfit Hmx Hc Hu ltac:(lia) Hv Hn ltac:(lia) Hw Hif) as (rx & rxs & HF & Hgo).
  exists rx, rxs.
  assert (Hl : length rxs = 2%nat).
  { apply Forall2_length in HF. rewrite length_zip_with_l_eq in HF by (symmetry; exact Hn). rewrite <-Hn in HF.
    by injection HF. }
  split; [done|].
  destruct Hgo as (it & a' & l' & perf' & E & Hr & _); [|exists it, a', l', perf'; split; [exact E|exact Hr]].
  split.
  - apply Listener_inv_init; [exact (conj Hpi (conj eq_refl (conj eq_refl eq_refl)))|lia].
  - unfold others. change (held (bufmgr_ example_listener) (frame_key rx)) with (@nil Z).
    change (live pool) with (Pool_live (PoolAllocator_init 4096 6400 64)). rewrite Hlive. vm_compute. discriminate.
  - change (Map_access (receivers_ example_listener) (frame_key rx)) with (@None SlotPtr). done.
Defined.
