(* ===== verification/BitStream.v ===== *)
(** * Bit streams

    [src/marshal/uc_bit_array_copy.cpp], [src/marshal/uc_bit_stream.cpp] and
    [include/uavcan/marshal/bit_stream.hpp]: [bitarrayCopy] on unaligned bit arrays
    and the [BitStream] class that reads and writes bit fields of an
    [ITransferBuffer]. The interface of the buffers is a class with instances for
    the static buffer and for incoming transfers.

    Array accesses are checked: [None] stands for an access outside an array (or for
    a loop that does not end), so a theorem that gives [Some] shows that there is
    none. *)

From stdpp Require Import list.
From S2P Require Import Prelude Transfer Frame TransferBuffer TransferListener.
Local Open Scope Z_scope.

(** ** [bitarrayCopy] *)

(** One round of the loop: the destination byte [d] after [copy_bits] bits of the
    source byte [s] were merged into it. *)
Definition copy_byte (s d src_bit_offset dst_bit_offset copy_bits : Z) : Z :=
  let write_mask := u8 (Z.shiftr (u8 (Z.shiftr 0xFF00 copy_bits)) dst_bit_offset) in
  let src_data := u8 (Z.shiftr (Z.shiftl s src_bit_offset) dst_bit_offset) in
  u8 (Z.lor (Z.land d (Z.lnot write_mask)) (Z.land src_data write_mask)).

Fixpoint bitarrayCopy_loop (fuel : nat) (src : list Z) (src_offset last_bit : Z) (dst : list Z) (dst_offset : Z)
    : option (list Z) :=
  if last_bit - src_offset =? 0 then Some dst
  else
    match fuel with
    | O => None
    | S fuel =>
      let src_bit_offset := src_offset mod 8 in
      let dst_bit_offset := dst_offset mod 8 in
      let max_offset := Z.max src_bit_offset dst_bit_offset in
      let copy_bits := Z.min (last_bit - src_offset) (8 - max_offset) in
      s ← src !! Z.to_nat (src_offset / 8);
      d ← dst !! Z.to_nat (dst_offset / 8);
      bitarrayCopy_loop fuel src (src_offset + copy_bits) last_bit
        (<[Z.to_nat (dst_offset / 8) := copy_byte s d src_bit_offset dst_bit_offset copy_bits]> dst)
        (dst_offset + copy_bits)
    end.

(** [void bitarrayCopy(const unsigned char*, size_t, size_t, unsigned char*, size_t)]:
    the destination array afterwards. Every round copies at least one bit. *)
Definition bitarrayCopy (src : list Z) (src_offset src_len : Z) (dst : list Z) (dst_offset : Z) : option (list Z) :=
  bitarrayCopy_loop (Z.to_nat src_len) src src_offset (src_offset + src_len) dst dst_offset.

(** ** The buffers under a stream *)

(** [class ITransferBuffer]: [read] gives the result and the bytes stored. *)
Class ITransferBuffer (B : Type) := {
  tb_read : B -> Z -> Z -> Z * list Z;
  tb_write : B -> Z -> list Z -> Z -> Z * B
}.

(** [int IncomingTransfer::write(unsigned, const uint8_t*, unsigned)]. *)
Definition IncomingTransfer_write (t : IncomingTransfer) (offset : Z) (data : list Z) (len : Z) : Z * IncomingTransfer :=
  (- ErrLogic, t).

#[export] Instance incoming_transfer_buffer : ITransferBuffer IncomingTransfer := {
  tb_read t offset len := IncomingTransfer_read t false offset len;
  tb_write := IncomingTransfer_write
}.

#[export] Instance static_transfer_buffer : ITransferBuffer StaticTransferBufferImpl := {
  tb_read b offset len := Static_read b false offset len;
  tb_write b offset data len := Static_write b offset (Some data) len
}.

(** ** [BitStream] *)

Definition MaxBytesPerRW : Z := 16.
Definition MaxBitsPerRW : Z := MaxBytesPerRW * 8.
Definition ResultOutOfBuffer : Z := 0.
Definition ResultOk : Z := 1.

(** [static inline unsigned bitlenToBytelen(unsigned bits)]. *)
Definition bitlenToBytelen (bits : Z) : Z := u32 (bits + 7) / 8.

Record BitStream (B : Type) := mkStream {
  buf_ : B;
  bit_offset_ : Z;
  byte_cache_ : Z
}.
Arguments mkStream {_} _ _ _.
Arguments buf_ {_} _.
Arguments bit_offset_ {_} _.
Arguments byte_cache_ {_} _.

Section stream.
Context {B : Type} `{ITransferBuffer B}.

(** [explicit BitStream(ITransferBuffer& buf)]. *)
Definition BitStream_init (buf : B) : BitStream B := mkStream buf 0 0.

(** [static inline void copyBitArrayAlignedToUnaligned(...)]. *)
Definition copyBitArrayAlignedToUnaligned (src : list Z) (src_len : Z) (dst : list Z) (dst_offset : Z) : option (list Z) :=
  bitarrayCopy src 0 src_len dst dst_offset.

(** [static inline void copyBitArrayUnalignedToAligned(...)]. *)
Definition copyBitArrayUnalignedToAligned (src : list Z) (src_offset src_len : Z) (dst : list Z) : option (list Z) :=
  bitarrayCopy src src_offset src_len dst 0.

(** [int BitStream::write(const uint8_t* bytes, const unsigned bitlen)]; [tmp] is the
    uninitialised temporary array of [MaxBytesPerRW + 1] bytes. *)
Definition Stream_write (tmp : list Z) (s : BitStream B) (bytes : list Z) (bitlen : Z) : option (Z * BitStream B) :=
  let bytelen := bitlenToBytelen (u32 (bitlen + bit_offset_ s mod 8)) in
  if (bytelen <? 1) || (MaxBytesPerRW + 1 <? bytelen) then None
  else
    let tmp := <[O := 0]> (<[Z.to_nat (bytelen - 1) := 0]> tmp) in
    let tmp := replicate (Z.to_nat bytelen) 0 ++ drop (Z.to_nat bytelen) tmp in
    tmp ← copyBitArrayAlignedToUnaligned bytes bitlen tmp (bit_offset_ s mod 8);
    let new_bit_offset := u32 (bit_offset_ s + bitlen) in
    let tmp := <[O := Z.lor (nth 0 tmp 0) (byte_cache_ s)]> tmp in
    let cache := u8 (if new_bit_offset mod 8 =? 0 then 0 else nth (Z.to_nat (bytelen - 1)) tmp 0) in
    let '(write_res, buf) := tb_write (buf_ s) (bit_offset_ s / 8) tmp bytelen in
    Some (if write_res <? 0 then (write_res, mkStream buf (bit_offset_ s) cache)
          else if u32 write_res <? bytelen then (ResultOutOfBuffer, mkStream buf (bit_offset_ s) cache)
          else (ResultOk, mkStream buf new_bit_offset cache)).

(** [int BitStream::read(uint8_t* bytes, const unsigned bitlen)]: the result, the array
    [bytes] and the stream afterwards. *)
Definition Stream_read (tmp : list Z) (s : BitStream B) (bytes : list Z) (bitlen : Z)
    : option (Z * list Z * BitStream B) :=
  let bytelen := bitlenToBytelen (u32 (bitlen + bit_offset_ s mod 8)) in
  if MaxBytesPerRW + 1 <? bytelen then None
  else
    let '(read_res, data) := tb_read (buf_ s) (bit_offset_ s / 8) bytelen in
    let tmp := data ++ drop (length data) tmp in
    if read_res <? 0 then Some (read_res, bytes, s)
    else if u32 read_res <? bytelen then Some (ResultOutOfBuffer, bytes, s)
    else if Z.of_nat (length bytes) <? bitlenToBytelen bitlen then None
    else
      let bytes := replicate (Z.to_nat (bitlenToBytelen bitlen)) 0 ++ drop (Z.to_nat (bitlenToBytelen bitlen)) bytes in
      bytes ← copyBitArrayUnalignedToAligned tmp (bit_offset_ s mod 8) bitlen bytes;
      Some (ResultOk, bytes, mkStream (buf_ s) (u32 (bit_offset_ s + bitlen)) (byte_cache_ s)).

End stream.

(** ** Bits of byte arrays

    The most significant bit of a byte comes first. *)
Definition bit_at (bs : list Z) (i : Z) : bool := Z.testbit (default 0 (bs !! Z.to_nat (i / 8))) (7 - i mod 8).

#[local] Ltac Zify.zify_post_hook ::= Z.div_mod_to_equations.

Lemma testbit_wrap w x i : 0 <= w -> 0 <= i -> Z.testbit (wrap w x) i = (i <? w) && Z.testbit x i.
Proof.
  intros Hw Hi. unfold wrap. rewrite <-Z.land_ones, Z.land_spec by done. rewrite andb_comm. f_equal.
  rewrite Z.testbit_ones by done. by destruct (Z.leb_spec 0 i); [|lia].
Qed.

Lemma write_mask_spec c o i : 0 <= c <= 8 -> 0 <= o < 8 -> 0 <= i < 8 ->
  Z.testbit (u8 (Z.shiftr (u8 (Z.shiftr 0xFF00 c)) o)) i = (8 - o - c <=? i) && (i <? 8 - o).
Proof.
  intros Hc Ho Hi. rewrite testbit_wrap, Z.shiftr_spec, testbit_wrap, Z.shiftr_spec by lia.
  change 0xFF00 with (Z.shiftl (Z.ones 8) 8). rewrite Z.shiftl_spec, Z.testbit_ones by lia.
  repeat match goal with |- context [?a <? ?b] => destruct (Z.ltb_spec a b) | |- context [?a <=? ?b] => destruct (Z.leb_spec a b) end;
    simpl; try done; lia.
Qed.

(** The bits of the merged byte. *)
Lemma copy_byte_spec s d so do c k :
  0 <= so < 8 -> 0 <= do < 8 -> 0 <= c <= 8 - Z.max so do -> 0 <= k < 8 ->
  Z.testbit (copy_byte s d so do c) (7 - k) =
    if (do <=? k) && (k <? do + c) then Z.testbit s (7 - (k - do + so)) else Z.testbit d (7 - k).
Proof.
  intros Hs Hd Hc Hk. unfold copy_byte.
  rewrite testbit_wrap, Z.lor_spec, !Z.land_spec, Z.lnot_spec, write_mask_spec by lia.
  rewrite testbit_wrap, Z.shiftr_spec by lia.
  destruct (Z.ltb_spec (7 - k) 8); [|lia]. cbn [andb].
  destruct (Z.leb_spec (8 - do - c) (7 - k)), (Z.ltb_spec (7 - k) (8 - do)), (Z.leb_spec do k), (Z.ltb_spec k (do + c));
    try lia; cbn [andb negb]; rewrite ?andb_true_r, ?andb_false_r, ?orb_false_r; try done.
  cbn [orb]. rewrite Z.shiftl_spec by lia. f_equal. lia.
Qed.

Lemma copy_byte_u8 s d so do c : is_u8 (copy_byte s d so do c).
Proof. apply wrap_range. lia. Qed.

Lemma bit_at_insert bs j x i : (j < length bs)%nat -> 0 <= i ->
  bit_at (<[j := x]> bs) i = if decide (i / 8 = Z.of_nat j) then Z.testbit x (7 - i mod 8) else bit_at bs i.
Proof.
  intros Hj Hi. unfold bit_at. case_decide as E.
  - rewrite E, Nat2Z.id, list_lookup_insert_eq by done. done.
  - rewrite list_lookup_insert_ne; [done|]. lia.
Qed.

Lemma bitarrayCopy_loop_ok fuel src so last dst do :
  0 <= so <= last -> 0 <= do -> last <= 8 * Z.of_nat (length src) -> do + (last - so) <= 8 * Z.of_nat (length dst) ->
  last - so <= Z.of_nat fuel ->
  exists dst', bitarrayCopy_loop fuel src so last dst do = Some dst' /\ length dst' = length dst /\
    (bytes dst -> bytes dst') /\
    forall i, 0 <= i -> bit_at dst' i =
      if (do <=? i) && (i <? do + (last - so)) then bit_at src (so + (i - do)) else bit_at dst i.
Proof.
  revert so dst do. induction fuel as [|fuel IH]; intros so dst do Hso Hdo Hsrc Hdst Hfuel; cbn [bitarrayCopy_loop];
    destruct (Z.eqb_spec (last - so) 0) as [E0|E0].
  1,3: exists dst; split_and!; [done|done|done|]; intros i Hi; destruct (Z.leb_spec do i), (Z.ltb_spec i (do + (last - so))); try lia; done.
  { lia. }
  set (c := Z.min (last - so) (8 - Z.max (so mod 8) (do mod 8))).
  assert (Hc : 1 <= c <= 8 - Z.max (so mod 8) (do mod 8) /\ c <= last - so) by (subst c; lia).
  destruct (lookup_lt_is_Some_2 src (Z.to_nat (so / 8))) as [s Es]; [lia|].
  destruct (lookup_lt_is_Some_2 dst (Z.to_nat (do / 8))) as [d Ed]; [lia|].
  rewrite Es, Ed. cbn [mbind option_bind].
  set (x := copy_byte s d (so mod 8) (do mod 8) c).
  destruct (IH (so + c) (<[Z.to_nat (do / 8) := x]> dst) (do + c)) as (dst' & -> & Hlen & Hb & Hbits);
    rewrite ?length_insert in *; try lia.
  exists dst'. split_and!; [done|done| |].
  - intros Hdb. apply Hb. apply Forall_insert; [done|]. apply copy_byte_u8.
  - intros i Hi. rewrite Hbits by done. rewrite bit_at_insert by (try done; lia). rewrite Z2Nat.id by lia.
    assert (Hstep : i / 8 = do / 8 -> Z.testbit x (7 - i mod 8) =
      if (do mod 8 <=? i mod 8) && (i mod 8 <? do mod 8 + c) then bit_at src (so + (i - do)) else bit_at dst i).
    { intros E. subst x. rewrite copy_byte_spec by lia.
      destruct (Z.leb_spec (do mod 8) (i mod 8)), (Z.ltb_spec (i mod 8) (do mod 8 + c)); cbn [andb];
        try (unfold bit_at; by rewrite E, Ed).
      unfold bit_at. replace ((so + (i - do)) / 8) with (so / 8) by lia. rewrite Es. cbn. f_equal. lia. }
    replace (so + c + (i - (do + c))) with (so + (i - do)) by lia.
    case_decide as E; [rewrite Hstep by done|];
      repeat match goal with |- context [?a <? ?b] => destruct (Z.ltb_spec a b) | |- context [?a <=? ?b] => destruct (Z.leb_spec a b) end;
      cbn [andb]; try done; lia.
Qed.

Lemma bitarrayCopy_ok src so len dst do :
  0 <= so -> 0 <= len -> 0 <= do -> so + len <= 8 * Z.of_nat (length src) -> do + len <= 8 * Z.of_nat (length dst) ->
  exists dst', bitarrayCopy src so len dst do = Some dst' /\ length dst' = length dst /\ (bytes dst -> bytes dst') /\
    forall i, 0 <= i -> bit_at dst' i = if (do <=? i) && (i <? do + len) then bit_at src (so + (i - do)) else bit_at dst i.
Proof.
  intros. destruct (bitarrayCopy_loop_ok (Z.to_nat len) src so (so + len) dst do) as (dst' & ? & ? & ? & Hb); try lia.
  exists dst'. split_and!; try done. intros i Hi. rewrite Hb by done. by replace (so + len - so) with len by lia.
Qed.

Lemma bit_at_app l1 l2 i : 0 <= i ->
  bit_at (l1 ++ l2) i = if i <? 8 * Z.of_nat (length l1) then bit_at l1 i else bit_at l2 (i - 8 * Z.of_nat (length l1)).
Proof.
  intros Hi. unfold bit_at. destruct (Z.ltb_spec i (8 * Z.of_nat (length l1))).
  - rewrite lookup_app_l by lia. done.
  - rewrite lookup_app_r by lia. f_equal; [|lia]. f_equal. f_equal. lia.
Qed.

Lemma bit_at_take k l i : 0 <= i -> bit_at (take k l) i = (i <? 8 * Z.of_nat k) && bit_at l i.
Proof.
  intros Hi. unfold bit_at. destruct (Z.ltb_spec i (8 * Z.of_nat k)).
  - rewrite lookup_take_lt by lia. done.
  - rewrite lookup_take_ge by lia. apply Z.testbit_0_l.
Qed.

Lemma bit_at_beyond l i : 8 * Z.of_nat (length l) <= i -> bit_at l i = false.
Proof. intros Hi. unfold bit_at. rewrite lookup_ge_None_2 by lia. apply Z.testbit_0_l. Qed.

Lemma bit_at_zeros k l i : 0 <= i < 8 * Z.of_nat k -> bit_at (replicate k 0 ++ l) i = false.
Proof.
  intros Hi. rewrite bit_at_app, length_replicate by lia. destruct (Z.ltb_spec i (8 * Z.of_nat k)); [|lia].
  unfold bit_at. rewrite lookup_replicate_2 by lia. apply Z.testbit_0_l.
Qed.

(** A byte is determined by its bits. *)
Lemma bytes_bits_eq x y : is_u8 x -> is_u8 y -> (forall k, 0 <= k < 8 -> Z.testbit x (7 - k) = Z.testbit y (7 - k)) -> x = y.
Proof.
  intros Hx Hy E. apply Z.bits_inj'. intros i Hi. destruct (decide (i < 8)).
  - replace i with (7 - (7 - i)) by lia. apply E. lia.
  - rewrite !(in_width_testbit 8) by (try done; lia). done.
Qed.

(** ** What a stream relies on of its buffer *)

(** Reading the buffer gives the bytes of [content]. *)
Definition Readable {B} `{ITransferBuffer B} (b : B) (content : list Z) : Prop :=
  forall offset len, 0 <= offset -> 0 <= len -> offset + len < 2 ^ 32 ->
    let n := Z.max 0 (Z.min len (Z.of_nat (length content) - offset)) in
    tb_read b offset len = (n, buf_read content offset n).

(** A buffer of a fixed capacity that takes as much of a write as fits. *)
Class WritableBuffer (B : Type) `{ITransferBuffer B} := {
  wb_wf : B -> Prop;
  wb_content : B -> list Z;
  wb_capacity : B -> Z;
  wb_size b : wb_wf b -> Z.of_nat (length (wb_content b)) <= wb_capacity b <= 0xFFFF;
  wb_readable b : wb_wf b -> Readable b (wb_content b);
  wb_write b offset data len :
    wb_wf b -> 0 <= offset <= Z.of_nat (length (wb_content b)) -> 0 <= len -> offset + len < 2 ^ 32 ->
    (Z.to_nat len <= length data)%nat ->
    let w := Z.max 0 (Z.min len (wb_capacity b - offset)) in
    exists b', tb_write b offset data len = (w, b') /\ wb_wf b' /\ wb_capacity b' = wb_capacity b /\
      wb_content b' = buf_write (wb_content b) offset data w
}.

Lemma length_Static_content b : Static_wf b -> Z.of_nat (length (Static_content b)) = sb_max_write_pos_ b.
Proof. intros [H1 H2 H3]. unfold Static_content. rewrite length_take. lia. Qed.

#[export] Instance static_writable : WritableBuffer StaticTransferBufferImpl.
Proof.
  refine {| wb_wf := Static_wf; wb_content := Static_content; wb_capacity := sb_size_ |}.
  - intros b Hb. rewrite length_Static_content by done. destruct Hb. lia.
  - intros b Hb offset len Ho Hl H32. rewrite length_Static_content by done. exact (Static_read_ok b offset len Hb Ho Hl H32).
  - intros b offset data len Hb Ho Hl H32 Hd w. rewrite length_Static_content in Ho by done.
    destruct (decide (offset < sb_size_ b)).
    + destruct (Static_write_ok b offset data len Hb Ho) as (b' & E & Hw & Hs & _ & Hc); try done.
      exists b'. replace w with (Z.min len (sb_size_ b - offset)) by lia. done.
    + exists b. cbn [tb_write static_transfer_buffer]. unfold Static_write. replace w with 0 by lia.
      destruct (Z.leb_spec (sb_size_ b) offset); [|lia]. split_and!; try done.
      unfold buf_write. rewrite Z.add_0_r. change (Z.to_nat 0) with O. rewrite take_0, app_nil_l. symmetry. apply take_drop.
Defined.

(** ** The stream operations *)

Section stream_ok.
Context {B : Type} `{WritableBuffer B}.

(** A stream that is written to: the buffer has the bytes written so far, the bits after
    the last one are clear, and the cache is the last, incomplete byte. *)
Record Writer (s : BitStream B) : Prop := {
  wr_buf : wb_wf (buf_ s);
  wr_bytes : bytes (wb_content (buf_ s));
  wr_offset : 0 <= bit_offset_ s < 2 ^ 31;
  wr_length : Z.of_nat (length (wb_content (buf_ s))) = (bit_offset_ s + 7) / 8;
  wr_tail : forall i, bit_offset_ s <= i -> bit_at (wb_content (buf_ s)) i = false;
  wr_cache : byte_cache_ s = if bit_offset_ s mod 8 =? 0 then 0
                             else default 0 (wb_content (buf_ s) !! Z.to_nat (bit_offset_ s / 8))
}.

Lemma BitStream_init_writer b : wb_wf b -> wb_content b = [] -> Writer (BitStream_init b).
Proof.
  intros Hb E. split; cbn; rewrite ?E; try done; try lia.
  intros i _. unfold bit_at. by rewrite lookup_nil, Z.testbit_0_l.
Qed.

(** The temporary array of a write before it goes to the buffer: the bits before the
    position come from the cache, the new ones follow, the rest is clear. *)
Definition written_bits (o bitlen cache : Z) (bs tmp : list Z) : Prop :=
  forall i, 0 <= i < 8 * ((bitlen + o + 7) / 8) ->
    bit_at tmp i = if i <? o then Z.testbit cache (7 - i) else (i <? o + bitlen) && bit_at bs (i - o).

Lemma write_tmp_ok tmp bs o bitlen cache :
  length tmp = 17%nat -> bytes tmp -> 0 <= o < 8 -> 1 <= bitlen <= 128 -> bitlen <= 8 * Z.of_nat (length bs) ->
  is_u8 cache -> (forall i, 0 <= i < 8 -> o <= i -> Z.testbit cache (7 - i) = false) ->
  let bl := Z.to_nat ((bitlen + o + 7) / 8) in
  exists tmp', copyBitArrayAlignedToUnaligned bs bitlen (replicate bl 0 ++ drop bl tmp) o = Some tmp' /\
    let tmp'' := <[O := Z.lor (nth 0 tmp' 0) cache]> tmp' in
    length tmp'' = 17%nat /\ bytes tmp'' /\ written_bits o bitlen cache bs tmp''.
Proof.
  intros Hlen Hbt Ho Hbl Hbs Hc Hcz bl.
  set (z := replicate bl 0 ++ drop bl tmp).
  assert (Hz : length z = 17%nat) by (subst z; rewrite length_app, length_replicate, length_drop; lia).
  assert (Hzb : bytes z) by (apply Forall_app_2; [by apply Forall_replicate|by apply Forall_drop]).
  destruct (bitarrayCopy_ok bs 0 bitlen z o) as (tmp' & E & Hl & Hb & Hbits); try lia.
  exists tmp'. split; [exact E|]. cbn zeta.
  assert (Hb0 : is_u8 (nth 0 tmp' 0)).
  { specialize (Hb Hzb). destruct tmp'; [done|]. by inversion Hb. }
  split_and!; [by rewrite length_insert; lia|apply Forall_insert; [auto|by apply in_width_lor]|].
  intros i Hi. rewrite bit_at_insert by lia.
  assert (Hi' : bit_at tmp' i = (o <=? i) && (i <? o + bitlen) && bit_at bs (i - o)).
  { rewrite Hbits by lia. replace (0 + (i - o)) with (i - o) by lia.
    destruct ((o <=? i) && (i <? o + bitlen)) eqn:Ei; [done|]. apply bit_at_zeros. subst bl. lia. }
  case_decide as E8.
  - rewrite Z.lor_spec. assert (Hn : Z.testbit (nth 0 tmp' 0) (7 - i mod 8) = bit_at tmp' i).
    { unfold bit_at. replace (Z.to_nat (i / 8)) with O by lia. by destruct tmp'. }
    rewrite Hn, Hi'. replace (i mod 8) with i by lia.
    destruct (Z.ltb_spec i o), (Z.leb_spec o i); try lia; cbn [andb orb]; [done|].
    rewrite Hcz by lia. apply orb_false_r.
  - rewrite Hi'. destruct (Z.ltb_spec i o), (Z.leb_spec o i); try lia. done.
Qed.

Lemma cache_u8 s : Writer s -> is_u8 (byte_cache_ s).
Proof.
  intros Hw. rewrite (wr_cache s Hw). destruct (_ =? 0); [done|].
  destruct (_ !! _) as [x|] eqn:E; [|done]. cbn. eapply Forall_lookup_1 in E; [exact E|apply Hw].
Qed.

Lemma cache_bits s i : Writer s -> 0 <= i < 8 ->
  Z.testbit (byte_cache_ s) (7 - i) = (negb (bit_offset_ s mod 8 =? 0)) && bit_at (wb_content (buf_ s)) (8 * (bit_offset_ s / 8) + i).
Proof.
  intros Hw Hi. rewrite (wr_cache s Hw). destruct (_ =? 0); cbn [negb andb]; [apply Z.testbit_0_l|].
  unfold bit_at. replace ((8 * (bit_offset_ s / 8) + i) / 8) with (bit_offset_ s / 8) by lia. f_equal. lia.
Qed.

(** The content with the temporary array of a write put over its last byte. *)
Lemma merged_bits s bs bitlen tmp :
  let n := bit_offset_ s in let o := n mod 8 in let c := wb_content (buf_ s) in
  Writer s -> 1 <= bitlen -> written_bits o bitlen (byte_cache_ s) bs tmp ->
  forall i, 0 <= i -> bit_at (take (Z.to_nat (n / 8)) c ++ take (Z.to_nat ((bitlen + o + 7) / 8)) tmp) i =
    if i <? n then bit_at c i else (i <? n + bitlen) && bit_at bs (i - n).
Proof.
  intros n o c Hw Hbl Hbits i Hi.
  assert (Ho : o = n mod 8) by done. clearbody o. remember ((bitlen + o + 7) / 8) as bl eqn:Ebl.
  pose proof (wr_offset _ Hw) as Hn. pose proof (wr_length _ Hw) as Hlen. fold n in Hn, Hlen. fold c in Hlen.
  assert (Hl1 : length (take (Z.to_nat (n / 8)) c) = Z.to_nat (n / 8)) by (rewrite length_take; lia).
  rewrite bit_at_app, Hl1, Z2Nat.id by lia.
  destruct (Z.ltb_spec i (8 * (n / 8))), (Z.ltb_spec i n); try lia; rewrite bit_at_take, Z2Nat.id by lia.
  { by destruct (Z.ltb_spec i (8 * (n / 8))); [|lia]. }
  - destruct (Z.ltb_spec (i - 8 * (n / 8)) (8 * bl)); [|lia]. cbn [andb]. rewrite Hbits by lia.
    destruct (Z.ltb_spec (i - 8 * (n / 8)) o); [|lia].
    rewrite cache_bits by (try done; lia). fold n c.
    replace (8 * (n / 8) + (i - 8 * (n / 8))) with i by lia. rewrite <-Ho. by destruct (Z.eqb_spec o 0); [lia|].
  - destruct (Z.ltb_spec (i - 8 * (n / 8)) (8 * bl)); cbn [andb].
    + rewrite Hbits by lia. destruct (Z.ltb_spec (i - 8 * (n / 8)) o); [lia|].
      replace (i - 8 * (n / 8) - o) with (i - n) by lia. f_equal.
      destruct (Z.ltb_spec (i - 8 * (n / 8)) (o + bitlen)), (Z.ltb_spec i (n + bitlen)); lia.
    + destruct (Z.ltb_spec i (n + bitlen)); [lia|done].
Qed.

Lemma bytelen_ok bitlen o : 1 <= bitlen <= 128 -> 0 <= o < 8 ->
  bitlenToBytelen (u32 (bitlen + o)) = (bitlen + o + 7) / 8.
Proof. intros. unfold bitlenToBytelen. rewrite (u32_small (bitlen + o)) by lia. by rewrite u32_small by lia. Qed.

(** A write that fits appends the bits. *)
Lemma Stream_write_ok tmp s bs bitlen :
  Writer s -> length tmp = 17%nat -> bytes tmp -> 1 <= bitlen <= 128 -> bitlen <= 8 * Z.of_nat (length bs) ->
  bit_offset_ s + bitlen <= 8 * wb_capacity (buf_ s) ->
  exists s', Stream_write tmp s bs bitlen = Some (ResultOk, s') /\ Writer s' /\
    bit_offset_ s' = bit_offset_ s + bitlen /\ wb_capacity (buf_ s') = wb_capacity (buf_ s) /\
    forall i, 0 <= i < bit_offset_ s + bitlen ->
      bit_at (wb_content (buf_ s')) i =
        if i <? bit_offset_ s then bit_at (wb_content (buf_ s)) i else bit_at bs (i - bit_offset_ s).
Proof.
  intros Hw Htl Htb Hbl Hbs Hcap. destruct s as [b n cache]. cbn [buf_ bit_offset_ byte_cache_] in *.
  pose proof (wr_offset _ Hw) as Hn. pose proof (wr_length _ Hw) as Hlen. pose proof (wb_size _ (wr_buf _ Hw)) as Hsz.
  cbn [buf_ bit_offset_ byte_cache_] in *. remember (n mod 8) as o eqn:Eo. assert (Ho : 0 <= o < 8) by lia.
  unfold Stream_write. cbn [buf_ bit_offset_ byte_cache_]. rewrite <-Eo, (bytelen_ok bitlen o) by lia.
  remember ((bitlen + o + 7) / 8) as bl eqn:Ebl. assert (Hblr : 1 <= bl <= 17) by lia.
  destruct (Z.ltb_spec bl 1); [lia|]. unfold MaxBytesPerRW. destruct (Z.ltb_spec (16 + 1) bl); [lia|]. cbn [orb].
  set (tmp1 := <[O := 0]> (<[Z.to_nat (bl - 1) := 0]> tmp)).
  destruct (write_tmp_ok tmp1 bs o bitlen cache) as (tmp' & E & Hl' & Hb' & Hbits); try done.
  { subst tmp1. by rewrite !length_insert. }
  { subst tmp1. by repeat (apply Forall_insert; [|done]). }
  { exact (cache_u8 _ Hw). }
  { intros i Hi Hoi. pose proof (cache_bits _ i Hw Hi) as Hcb. cbn [buf_ bit_offset_ byte_cache_] in Hcb. rewrite Hcb.
    pose proof (wr_tail _ Hw (8 * (n / 8) + i)) as Ht. cbn [buf_ bit_offset_ byte_cache_] in Ht. rewrite Ht by lia. apply andb_false_r. }
  rewrite <-Ebl in E. rewrite E. cbn [mbind option_bind]. set (tmp2 := <[O := Z.lor (nth 0 tmp' 0) cache]> tmp') in *.
  rewrite (u32_small (n + bitlen)) by lia.
  destruct (wb_write b (n / 8) tmp2 bl) as (b' & Ew & Hb'wf & Hcap' & Hcont); [apply Hw|lia|lia|lia|lia|].
  replace (Z.max 0 (Z.min bl (wb_capacity b - n / 8))) with bl in * by lia.
  rewrite Ew. destruct (Z.ltb_spec bl 0); [lia|]. rewrite u32_small by lia. destruct (Z.ltb_spec bl bl); [lia|].
  eexists. split; [done|]. cbn [buf_ bit_offset_ byte_cache_].
  assert (Hc' : wb_content b' = take (Z.to_nat (n / 8)) (wb_content b) ++ take (Z.to_nat bl) tmp2).
  { rewrite Hcont. unfold buf_write. rewrite (drop_ge (wb_content b)) by lia. by rewrite app_nil_r. }
  assert (Hl1 : length (take (Z.to_nat (n / 8)) (wb_content b)) = Z.to_nat (n / 8)) by (rewrite length_take; lia).
  assert (Hall : forall i, 0 <= i -> bit_at (wb_content b') i =
    if i <? n then bit_at (wb_content b) i else (i <? n + bitlen) && bit_at bs (i - n)).
  { intros i Hi. rewrite Hc', Ebl, Eo. rewrite Eo in Hbits.
    exact (merged_bits (mkStream b n cache) bs bitlen tmp2 Hw ltac:(lia) Hbits i Hi). }
  split_and!; [|done|done|intros i Hi; rewrite Hall by lia; destruct (Z.ltb_spec i n); [done|]; by destruct (Z.ltb_spec i (n + bitlen)); [|lia]].
  split; cbn [buf_ bit_offset_ byte_cache_].
  - done.
  - rewrite Hc'. apply Forall_app_2; apply Forall_take; [apply Hw|done].
  - lia.
  - rewrite Hc', length_app, Hl1, length_take. lia.
  - intros i Hi. rewrite Hall by lia. destruct (Z.ltb_spec i n), (Z.ltb_spec i (n + bitlen)); try lia.
  - destruct (Z.eqb_spec ((n + bitlen) mod 8) 0) as [E0|E0]; [done|].
    rewrite Hc', lookup_app_r, Hl1 by lia. rewrite lookup_take_lt by lia.
    replace (Z.to_nat ((n + bitlen) / 8) - Z.to_nat (n / 8))%nat with (Z.to_nat (bl - 1)) by lia.
    destruct (lookup_lt_is_Some_2 tmp2 (Z.to_nat (bl - 1))) as [x Ex]; [lia|].
    rewrite (nth_lookup_Some _ _ _ _ Ex), Ex. cbn. apply wrap_small. by eapply Forall_lookup_1 in Ex.
Qed.

(** A write that does not fit says so and does not move the stream. *)
Lemma Stream_write_full tmp s bs bitlen :
  Writer s -> length tmp = 17%nat -> bytes tmp -> 1 <= bitlen <= 128 -> bitlen <= 8 * Z.of_nat (length bs) ->
  8 * wb_capacity (buf_ s) < bit_offset_ s + bitlen ->
  exists s', Stream_write tmp s bs bitlen = Some (ResultOutOfBuffer, s') /\ bit_offset_ s' = bit_offset_ s /\
    wb_wf (buf_ s') /\ wb_capacity (buf_ s') = wb_capacity (buf_ s).
Proof.
  intros Hw Htl Htb Hbl Hbs Hcap.
  pose proof (wr_offset _ Hw) as Hn. pose proof (wr_length _ Hw) as Hlen. pose proof (wb_size _ (wr_buf _ Hw)) as Hsz.
  unfold Stream_write. rewrite bytelen_ok by lia. remember (bit_offset_ s mod 8) as o eqn:Eo.
  remember ((bitlen + o + 7) / 8) as bl eqn:Ebl. assert (Hblr : 1 <= bl <= 17) by lia.
  destruct (Z.ltb_spec bl 1); [lia|]. unfold MaxBytesPerRW. destruct (Z.ltb_spec (16 + 1) bl); [lia|]. cbn [orb].
  set (z := replicate _ _ ++ drop _ _).
  destruct (bitarrayCopy_ok bs 0 bitlen z o) as (tmp' & E & Hl & _); try lia.
  { subst z. rewrite length_app, length_replicate, length_drop, !length_insert. lia. }
  unfold copyBitArrayAlignedToUnaligned. rewrite E. cbn [mbind option_bind].
  set (tmp2 := <[O := _]> tmp').
  destruct (wb_write (buf_ s) (bit_offset_ s / 8) tmp2 bl) as (b' & Ew & Hb'wf & Hcap' & Hcont); [apply Hw|lia|lia|lia| |].
  { subst tmp2 z. rewrite length_insert, Hl, length_app, length_replicate, length_drop, !length_insert. lia. }
  rewrite Ew. remember (Z.max 0 (Z.min bl (wb_capacity (buf_ s) - bit_offset_ s / 8))) as w eqn:Ew'.
  destruct (Z.ltb_spec w 0); [lia|]. rewrite u32_small by lia. destruct (Z.ltb_spec w bl); [|lia]. eexists. by split_and!.
Qed.

End stream_ok.

Section stream_read.
Context {B : Type} `{ITransferBuffer B}.

(** A read inside the data gives its bits and advances the stream. *)
Lemma Stream_read_ok tmp (s : BitStream B) content bs bitlen :
  Readable (buf_ s) content -> length tmp = 17%nat -> 0 <= bit_offset_ s -> bit_offset_ s + bitlen < 2 ^ 31 ->
  1 <= bitlen <= 128 -> bitlen <= 8 * Z.of_nat (length bs) -> bytes bs ->
  bit_offset_ s + bitlen <= 8 * Z.of_nat (length content) ->
  exists bs', Stream_read tmp s bs bitlen = Some (ResultOk, bs', mkStream (buf_ s) (bit_offset_ s + bitlen) (byte_cache_ s)) /\
    length bs' = length bs /\ bytes bs' /\
    (forall i, 0 <= i < 8 * ((bitlen + 7) / 8) -> bit_at bs' i = (i <? bitlen) && bit_at content (bit_offset_ s + i)) /\
    forall i, 8 * ((bitlen + 7) / 8) <= i -> bit_at bs' i = bit_at bs i.
Proof.
  intros Hr Htl Hn Hmax Hbl Hbs Hbb Hfit. unfold Stream_read. rewrite bytelen_ok by lia.
  assert (Hbl2 : bitlenToBytelen bitlen = (bitlen + 7) / 8) by (unfold bitlenToBytelen; by rewrite u32_small by lia).
  rewrite Hbl2. remember (bit_offset_ s mod 8) as o eqn:Eo. remember ((bitlen + o + 7) / 8) as bl eqn:Ebl.
  unfold MaxBytesPerRW. destruct (Z.ltb_spec (16 + 1) bl); [lia|].
  rewrite (Hr (bit_offset_ s / 8) bl) by lia.
  replace (Z.max 0 (Z.min bl (Z.of_nat (length content) - bit_offset_ s / 8))) with bl by lia.
  destruct (Z.ltb_spec bl 0); [lia|]. rewrite u32_small by lia. destruct (Z.ltb_spec bl bl); [lia|].
  destruct (Z.ltb_spec (Z.of_nat (length bs)) ((bitlen + 7) / 8)); [lia|].
  set (data := buf_read content (bit_offset_ s / 8) bl).
  assert (Hld : length data = Z.to_nat bl) by (subst data; unfold buf_read; rewrite length_take, length_drop; lia).
  set (z := replicate (Z.to_nat ((bitlen + 7) / 8)) 0 ++ drop (Z.to_nat ((bitlen + 7) / 8)) bs).
  assert (Hlz : length z = length bs) by (subst z; rewrite length_app, length_replicate, length_drop; lia).
  destruct (bitarrayCopy_ok (data ++ drop (length data) tmp) o bitlen z 0) as (bs' & E & Hl & Hb & Hbits);
    rewrite ?length_app, ?length_drop; try lia.
  unfold copyBitArrayUnalignedToAligned. rewrite E. cbn [mbind option_bind]. rewrite u32_small by lia.
  exists bs'. split_and!; [done|lia| | |].
  - apply Hb. apply Forall_app_2; [by apply Forall_replicate|by apply Forall_drop].
  - intros i Hi. rewrite Hbits by lia. destruct (Z.leb_spec 0 i); [|lia]. rewrite Z.add_0_l. cbn [andb].
    destruct (Z.ltb_spec i bitlen); cbn [andb]; [|apply bit_at_zeros; lia].
    rewrite bit_at_app, Hld by lia. destruct (Z.ltb_spec (o + (i - 0)) (8 * Z.of_nat (Z.to_nat bl))); [|lia].
    subst data. unfold buf_read. rewrite bit_at_take by lia. destruct (Z.ltb_spec (o + (i - 0)) (8 * Z.of_nat (Z.to_nat bl))); [|lia].
    cbn [andb]. unfold bit_at. rewrite lookup_drop. f_equal; [f_equal; f_equal|]; lia.
  - intros i Hi. rewrite Hbits by lia. destruct (Z.leb_spec 0 i); [|lia]. rewrite Z.add_0_l. cbn [andb].
    destruct (Z.ltb_spec i bitlen); [lia|]. subst z. rewrite bit_at_app, length_replicate by lia.
    destruct (Z.ltb_spec i (8 * Z.of_nat (Z.to_nat ((bitlen + 7) / 8)))); [lia|]. unfold bit_at. rewrite lookup_drop.
    f_equal; [f_equal; f_equal|]; lia.
Qed.

(** A read past the end of the data says so and changes nothing. *)
Lemma Stream_read_end tmp (s : BitStream B) content bs bitlen :
  Readable (buf_ s) content -> 0 <= bit_offset_ s < 2 ^ 31 -> 1 <= bitlen <= 128 ->
  8 * Z.of_nat (length content) < bit_offset_ s + bitlen ->
  Stream_read tmp s bs bitlen = Some (ResultOutOfBuffer, bs, s).
Proof.
  intros Hr Hn Hbl Hend. unfold Stream_read. rewrite bytelen_ok by lia.
  remember (bit_offset_ s mod 8) as o eqn:Eo. remember ((bitlen + o + 7) / 8) as bl eqn:Ebl.
  unfold MaxBytesPerRW. destruct (Z.ltb_spec (16 + 1) bl); [lia|]. rewrite (Hr (bit_offset_ s / 8) bl) by lia.
  remember (Z.max 0 (Z.min bl (Z.of_nat (length content) - bit_offset_ s / 8))) as w eqn:Ew'.
  destruct (Z.ltb_spec w 0); [lia|]. rewrite u32_small by lia. by destruct (Z.ltb_spec w bl); [|lia].
Qed.

End stream_read.
