(* ===== verification/ScalarCodec.v ===== *)
(** * Scalar codec

    [include/uavcan/marshal/scalar_codec.hpp], [src/marshal/uc_scalar_codec.cpp] and
    [include/uavcan/marshal/integer_spec.hpp]: integers of any bit length in a bit
    stream. The template arguments [BitLen], the width [w] of the storage type [T] in
    bits and its signedness are arguments of the functions. The byte order of the
    target is a parameter [big_endian]. *)

From stdpp Require Import list.
From S2P Require Import Prelude TransferBuffer BitStream.
Local Open Scope Z_scope.

(** ** The bytes of an integer *)

(** The bytes of an integer, least significant first, and back. *)
Fixpoint to_bytes (n : nat) (v : Z) : list Z :=
  match n with
  | O => []
  | S n => u8 v :: to_bytes n (Z.shiftr v 8)
  end.

Fixpoint of_bytes (bs : list Z) : Z :=
  match bs with
  | [] => 0
  | b :: bs => Z.lor b (Z.shiftl (of_bytes bs) 8)
  end.

(** The byte array of a union with an integer, on a target of either byte order. *)
Definition union_bytes (big_endian : bool) (n : nat) (v : Z) : list Z :=
  if big_endian then rev (to_bytes n v) else to_bytes n v.
Definition union_value (big_endian : bool) (bs : list Z) : Z := of_bytes (if big_endian then rev bs else bs).

(** ** [ScalarCodec] *)

(** The loop of [swapByteOrder], from the ends inwards. *)
Fixpoint swapByteOrder_loop (fuel : nat) (bytes : list Z) (i j : Z) : list Z :=
  match fuel with
  | O => bytes
  | S fuel =>
    if i <? j then
      let c := nth (Z.to_nat i) bytes 0 in
      let bytes := <[Z.to_nat i := nth (Z.to_nat j) bytes 0]> bytes in
      swapByteOrder_loop fuel (<[Z.to_nat j := c]> bytes) (i + 1) (j - 1)
    else bytes
  end.
(** [void ScalarCodec::swapByteOrder(uint8_t* const bytes, const unsigned len)]. *)
Definition swapByteOrder (bytes : list Z) : list Z :=
  swapByteOrder_loop (length bytes) bytes 0 (Z.of_nat (length bytes) - 1).

(** [convertByteOrder<BitLen, Size>(uint8_t (&bytes)[Size])]. *)
Definition convertByteOrder (big_endian : bool) (BitLen : Z) (bytes : list Z) : list Z :=
  if 8 <? BitLen then (if big_endian then swapByteOrder bytes else bytes) else bytes.

(** [clearExtraBits<BitLen, T>(T& value)]. *)
Definition clearExtraBits (w BitLen value : Z) : Z :=
  if BitLen <? w then Z.land value (Z.shiftl 1 BitLen - 1) else value.

(** [fixTwosComplement<BitLen, T>(T& value)]. *)
Definition fixTwosComplement (signed : bool) (w BitLen value : Z) : Z :=
  if signed && (BitLen <? w) then
    if negb (Z.land value (Z.shiftl 1 (BitLen - 1)) =? 0)
    then Z.lor value (Z.land (-1) (Z.lnot (Z.shiftl 1 BitLen - 1)))
    else value
  else value.

Section codec.
Context {B : Type} `{ITransferBuffer B} (big_endian : bool) (tmp : list Z).

(** [int ScalarCodec::encodeBytesImpl(uint8_t* const bytes, const unsigned bitlen)]. *)
Definition encodeBytesImpl (s : BitStream B) (bytes : list Z) (bitlen : Z) : option (Z * BitStream B) :=
  if bitlen mod 8 =? 0 then Stream_write tmp s bytes bitlen
  else
    b ← bytes !! Z.to_nat (bitlen / 8);
    Stream_write tmp s (<[Z.to_nat (bitlen / 8) := u8 (Z.shiftl b (Z.land (8 - bitlen mod 8) 7))]> bytes) bitlen.

(** [int ScalarCodec::decodeBytesImpl(uint8_t* const bytes, const unsigned bitlen)]. *)
Definition decodeBytesImpl (s : BitStream B) (bytes : list Z) (bitlen : Z) : option (Z * list Z * BitStream B) :=
  '(read_res, bytes, s) ← Stream_read tmp s bytes bitlen;
  if (0 <? read_res) && negb (bitlen mod 8 =? 0) then
    b ← bytes !! Z.to_nat (bitlen / 8);
    Some (read_res, <[Z.to_nat (bitlen / 8) := u8 (Z.shiftr b (Z.land (8 - bitlen mod 8) 7))]> bytes, s)
  else Some (read_res, bytes, s).

(** [int ScalarCodec::encode<BitLen, T>(const T value)]. *)
Definition encode (w BitLen : Z) (s : BitStream B) (value : Z) : option (Z * BitStream B) :=
  let bytes := union_bytes big_endian (Z.to_nat (w / 8)) (clearExtraBits w BitLen value) in
  encodeBytesImpl s (convertByteOrder big_endian BitLen bytes) BitLen.

(** [int ScalarCodec::decode<BitLen, T>(T& value)]: the result, [value] and the stream
    afterwards. *)
Definition decode (signed : bool) (w BitLen : Z) (s : BitStream B) (value : Z) : option (Z * Z * BitStream B) :=
  '(read_res, bytes, s) ← decodeBytesImpl s (replicate (Z.to_nat (w / 8)) 0) BitLen;
  if 0 <? read_res then
    let v := union_value big_endian (convertByteOrder big_endian BitLen bytes) in
    Some (read_res, fixTwosComplement signed w BitLen (if signed then swrap w v else v), s)
  else Some (read_res, value, s).

End codec.

(** ** [IntegerSpec] *)

Inductive Signedness := SignednessUnsigned | SignednessSigned.
Inductive CastMode := CastModeSaturate | CastModeTruncate.

(** A type [IntegerSpec<BitLen, Signedness, CastMode>]. *)
Record IntegerSpec := mkSpec { is_BitLen : Z; is_Signedness : Signedness; is_CastMode : CastMode }.

Definition IsSigned (t : IntegerSpec) : bool := match is_Signedness t with SignednessSigned => true | _ => false end.

(** The width of [StorageType]; [bool] for one bit. *)
Definition StorageWidth (t : IntegerSpec) : Z :=
  if is_BitLen t <=? 8 then 8 else if is_BitLen t <=? 16 then 16 else if is_BitLen t <=? 32 then 32 else 64.

(** [StorageType max()] and [min()], [UnsignedStorageType mask()]. *)
Definition Spec_max (t : IntegerSpec) : Z :=
  if is_BitLen t =? 64 then (if IsSigned t then 0x7FFFFFFFFFFFFFFF else 0xFFFFFFFFFFFFFFFF)
  else if IsSigned t then Z.shiftl 1 (is_BitLen t - 1) - 1 else Z.shiftl 1 (is_BitLen t) - 1.
Definition Spec_min (t : IntegerSpec) : Z := if IsSigned t then - Spec_max t - 1 else 0.
Definition Spec_mask (t : IntegerSpec) : Z :=
  if is_BitLen t =? 64 then 0xFFFFFFFFFFFFFFFF else Z.shiftl 1 (is_BitLen t) - 1.

(** [static void saturate(StorageType& value)]. *)
Definition saturate (t : IntegerSpec) (value : Z) : Z :=
  if Spec_max t <? value then Spec_max t else if value <=? Spec_min t then Spec_min t else value.

(** [static void truncate(StorageType& value)]. *)
Definition truncate (t : IntegerSpec) (value : Z) : Z :=
  Z.land value (if IsSigned t then swrap (StorageWidth t) (Spec_mask t) else Spec_mask t).

Section spec.
Context {B : Type} `{ITransferBuffer B} (big_endian : bool) (tmp : list Z).

(** [static int encode(StorageType value, ScalarCodec& codec, TailArrayOptimizationMode)]; the
    boolean specialisation does not cast. *)
Definition Spec_encode (t : IntegerSpec) (s : BitStream B) (value : Z) : option (Z * BitStream B) :=
  let value :=
    if is_BitLen t =? 1 then value
    else match is_CastMode t with CastModeSaturate => saturate t value | CastModeTruncate => truncate t value end in
  encode big_endian tmp (StorageWidth t) (is_BitLen t) s value.

(** [static int decode(StorageType& out_value, ScalarCodec& codec, TailArrayOptimizationMode)]. *)
Definition Spec_decode (t : IntegerSpec) (s : BitStream B) (out_value : Z) : option (Z * Z * BitStream B) :=
  decode big_endian tmp (IsSigned t) (StorageWidth t) (is_BitLen t) s out_value.

(** The fields of a message one after the other, until one does not return success. *)
Fixpoint encode_fields (fs : list (IntegerSpec * Z)) (s : BitStream B) : option (Z * BitStream B) :=
  match fs with
  | [] => Some (ResultOk, s)
  | (t, v) :: fs =>
    '(res, s) ← Spec_encode t s v;
    if res <=? 0 then Some (res, s) else encode_fields fs s
  end.

Fixpoint decode_fields (ts : list IntegerSpec) (s : BitStream B) : option (Z * list Z * BitStream B) :=
  match ts with
  | [] => Some (ResultOk, [], s)
  | t :: ts =>
    '(res, v, s) ← Spec_decode t s 0;
    if res <=? 0 then Some (res, [], s)
    else '(res, vs, s) ← decode_fields ts s; Some (res, v :: vs, s)
  end.

End spec.

(** ** Bytes and bits of integers *)

#[local] Ltac Zify.zify_post_hook ::= Z.div_mod_to_equations.

Lemma length_to_bytes n v : length (to_bytes n v) = n.
Proof. revert v. induction n; intros v; [done|]. cbn. by rewrite IHn. Qed.

Lemma to_bytes_bytes n v : bytes (to_bytes n v).
Proof. revert v. induction n; intros v; constructor; [|done]. apply wrap_range. lia. Qed.

Lemma to_bytes_lookup n v k : (k < n)%nat -> to_bytes n v !! k = Some (u8 (Z.shiftr v (8 * Z.of_nat k))).
Proof.
  revert v k. induction n as [|n IH]; intros v k Hk; [lia|]. destruct k; cbn [to_bytes lookup list_lookup].
  - by rewrite Z.mul_0_r, Z.shiftr_0_r.
  - rewrite IH by lia. rewrite Z.shiftr_shiftr by lia. do 3 f_equal. lia.
Qed.

Lemma of_bytes_testbit bs m : bytes bs -> 0 <= m ->
  Z.testbit (of_bytes bs) m = Z.testbit (default 0 (bs !! Z.to_nat (m / 8))) (m mod 8).
Proof.
  revert m. induction bs as [|b bs IH]; intros m Hb Hm; [by rewrite lookup_nil, !Z.testbit_0_l|].
  apply Forall_cons in Hb as [Hb Hbs]. cbn [of_bytes]. rewrite Z.lor_spec, Z.shiftl_spec by done.
  destruct (decide (m < 8)).
  - rewrite (Z.testbit_neg_r _ (m - 8)), orb_false_r by lia. replace (m / 8) with 0 by lia. by replace (m mod 8) with m by lia.
  - rewrite (in_width_testbit 8) by (try done; lia). cbn [orb]. rewrite IH by (try done; lia).
    replace (Z.to_nat (m / 8)) with (S (Z.to_nat ((m - 8) / 8))) by lia. cbn. f_equal. lia.
Qed.

(** The place of bit [m] of a [BitLen] bit integer in the stream: bytes go least
    significant first, the bits of each of them most significant first. *)
Definition pos (BitLen m : Z) : Z :=
  if m / 8 <? BitLen / 8 then 8 * (m / 8) + (7 - m mod 8) else 8 * (m / 8) + (BitLen mod 8 - 1 - m mod 8).

Lemma pos_range BitLen m : 0 <= m < BitLen -> 0 <= pos BitLen m < BitLen.
Proof. intros Hm. unfold pos. destruct (Z.ltb_spec (m / 8) (BitLen / 8)); lia. Qed.

Lemma shift_amount BitLen : BitLen mod 8 <> 0 -> Z.land (8 - BitLen mod 8) 7 = 8 - BitLen mod 8.
Proof. intros Hr. change 7 with (Z.ones 3). rewrite Z.land_ones by lia. apply Z.mod_small. lia. Qed.

Lemma clearExtraBits_spec w BitLen v m : 0 <= m < BitLen -> BitLen <= w ->
  Z.testbit (clearExtraBits w BitLen v) m = Z.testbit v m.
Proof.
  intros Hm Hw. unfold clearExtraBits. destruct (Z.ltb_spec BitLen w); [|done].
  replace (Z.shiftl 1 BitLen - 1) with (Z.ones BitLen) by (rewrite Z.ones_equiv, Z.shiftl_1_l; lia).
  rewrite Z.land_spec, Z.testbit_ones by lia. destruct (Z.leb_spec 0 m), (Z.ltb_spec m BitLen); try lia. apply andb_true_r.
Qed.

(** [swapByteOrder] reverses. *)
Lemma swap_loop_ok fuel pre mid post : (length mid <= 2 * fuel + 1)%nat ->
  swapByteOrder_loop fuel (pre ++ mid ++ post) (Z.of_nat (length pre)) (Z.of_nat (length pre) + Z.of_nat (length mid) - 1) =
    pre ++ rev mid ++ post.
Proof.
  revert pre mid post. induction fuel as [|fuel IH]; intros pre mid post Hl.
  { destruct mid as [|x [|y mid]]; cbn in *; [done..|lia]. }
  cbn [swapByteOrder_loop]. destruct mid as [|x mid].
  { cbn [length rev app]. match goal with |- context [?a <? ?b] => destruct (Z.ltb_spec a b); [lia|done] end. }
  destruct mid as [|y' mid' _] using rev_ind.
  { cbn [length rev app]. match goal with |- context [?a <? ?b] => destruct (Z.ltb_spec a b); [lia|done] end. }
  cbn [length] in *. rewrite length_app in *. cbn [length] in *.
  destruct (Z.ltb_spec (Z.of_nat (length pre)) (Z.of_nat (length pre) + Z.of_nat (S (length mid' + 1)) - 1)); [|lia].
  assert (Ej : Z.to_nat (Z.of_nat (length pre) + Z.of_nat (S (length mid' + 1)) - 1) = (length (pre ++ x :: mid') + 0)%nat).
  { rewrite length_app. cbn. lia. }
  assert (Ei : Z.to_nat (Z.of_nat (length pre)) = (length pre + 0)%nat) by lia.
  replace (pre ++ (x :: mid' ++ [y']) ++ post) with ((pre ++ x :: mid') ++ y' :: post) by (rewrite <-app_assoc; cbn [app]; by rewrite <-app_assoc).
  rewrite Ej. rewrite app_nth2_plus. cbn [nth]. rewrite <-app_assoc, Ei, app_nth2_plus. cbn [nth].
  rewrite insert_app_r. cbn [insert list_insert app].
  replace (pre ++ y' :: mid' ++ y' :: post) with ((pre ++ y' :: mid') ++ y' :: post) by (by rewrite <-app_assoc).
  replace (length (pre ++ x :: mid')) with (length (pre ++ y' :: mid')) by (by rewrite !length_app).
  rewrite insert_app_r. cbn [insert list_insert].
  specialize (IH (pre ++ [y']) mid' (x :: post) ltac:(lia)). rewrite length_app in IH. cbn [length] in IH.
  rewrite <-!app_assoc in *. cbn [app] in *.
  replace (Z.of_nat (length pre) + 1) with (Z.of_nat (length pre + 1)) by lia.
  replace (Z.of_nat (length pre) + Z.of_nat (S (length mid' + 1)) - 1 - 1) with (Z.of_nat (length pre + 1) + Z.of_nat (length mid') - 1) by lia.
  cbn [nth]. rewrite IH. cbn [rev]. by rewrite rev_app_distr, <-app_assoc.
Qed.

Lemma swapByteOrder_rev bs : swapByteOrder bs = rev bs.
Proof.
  unfold swapByteOrder. pose proof (swap_loop_ok (length bs) [] bs [] ltac:(lia)) as E.
  rewrite !app_nil_r in E. cbn [app length] in E. rewrite Z.add_0_l in E. exact E.
Qed.

(** ** Encoding *)

(** [BitLen] bits at [offset] of the data are the integer [v]. *)
Definition encodes (content : list Z) (offset BitLen v : Z) : Prop :=
  forall m, 0 <= m < BitLen -> bit_at content (offset + pos BitLen m) = Z.testbit v m.

(** Template arguments the library instantiates the codec with. *)
Record codec_args (w BitLen : Z) : Prop := {
  ca_len : 1 <= BitLen <= w;
  ca_width : w mod 8 = 0 /\ w <= 64;
  ca_byte : 8 < BitLen \/ w = 8
}.

Lemma convert_union big_endian w BitLen v : codec_args w BitLen ->
  convertByteOrder big_endian BitLen (union_bytes big_endian (Z.to_nat (w / 8)) v) = to_bytes (Z.to_nat (w / 8)) v.
Proof.
  intros [Hl Hw Hb]. unfold convertByteOrder, union_bytes. destruct big_endian.
  - destruct (Z.ltb_spec 8 BitLen).
    + by rewrite swapByteOrder_rev, rev_involutive.
    + by replace w with 8 by lia.
  - by destruct (8 <? BitLen).
Qed.

Lemma value_convert big_endian w BitLen bs : codec_args w BitLen -> length bs = Z.to_nat (w / 8) ->
  union_value big_endian (convertByteOrder big_endian BitLen bs) = of_bytes bs.
Proof.
  intros [Hl Hw Hb] Hbs. unfold convertByteOrder, union_value. destruct big_endian.
  - destruct (Z.ltb_spec 8 BitLen).
    + by rewrite swapByteOrder_rev, rev_involutive.
    + destruct bs as [|? [|]]; cbn in Hbs; [done..|lia].
  - by destruct (8 <? BitLen).
Qed.

(** The bytes [encodeBytesImpl] hands to the stream. *)
Definition shifted (bs : list Z) (BitLen : Z) : list Z :=
  if BitLen mod 8 =? 0 then bs
  else <[Z.to_nat (BitLen / 8) := u8 (Z.shiftl (default 0 (bs !! Z.to_nat (BitLen / 8))) (Z.land (8 - BitLen mod 8) 7))]> bs.

Lemma encodeBytesImpl_eq {B} `{ITransferBuffer B} tmp (s : BitStream B) bs BitLen :
  0 <= BitLen <= 8 * Z.of_nat (length bs) -> encodeBytesImpl tmp s bs BitLen = Stream_write tmp s (shifted bs BitLen) BitLen.
Proof.
  intros Hl. unfold encodeBytesImpl, shifted. destruct (Z.eqb_spec (BitLen mod 8) 0); [done|].
  destruct (lookup_lt_is_Some_2 bs (Z.to_nat (BitLen / 8))) as [b Eb]; [lia|]. by rewrite Eb.
Qed.

Lemma shifted_bits w BitLen v m : codec_args w BitLen -> 0 <= m < BitLen ->
  bit_at (shifted (to_bytes (Z.to_nat (w / 8)) (clearExtraBits w BitLen v)) BitLen) (pos BitLen m) = Z.testbit v m.
Proof.
  intros [Hl Hw _] Hm. pose proof (pos_range BitLen m Hm) as Hp.
  rewrite <-(clearExtraBits_spec w BitLen v m) by lia. set (cv := clearExtraBits w BitLen v).
  assert (Hplain : m / 8 < BitLen / 8 -> bit_at (to_bytes (Z.to_nat (w / 8)) cv) (pos BitLen m) = Z.testbit cv m).
  { intros Hlt. unfold bit_at, pos. destruct (Z.ltb_spec (m / 8) (BitLen / 8)); [|lia].
    replace ((8 * (m / 8) + (7 - m mod 8)) / 8) with (m / 8) by lia.
    replace (7 - (8 * (m / 8) + (7 - m mod 8)) mod 8) with (m mod 8) by lia.
    rewrite to_bytes_lookup by lia. cbn [default from_option id]. rewrite testbit_wrap, Z.shiftr_spec by lia.
    destruct (Z.ltb_spec (m mod 8) 8); [|lia]. cbn [andb]. f_equal. lia. }
  unfold shifted. destruct (Z.eqb_spec (BitLen mod 8) 0) as [E|E]; [apply Hplain; lia|].
  rewrite bit_at_insert by (rewrite ?length_to_bytes; lia). rewrite shift_amount by done.
  assert (Hpos : pos BitLen m / 8 = m / 8) by (unfold pos; destruct (Z.ltb_spec (m / 8) (BitLen / 8)); lia).
  rewrite Hpos. case_decide as Ek; [|apply Hplain; lia].
  assert (Hmod : pos BitLen m mod 8 = BitLen mod 8 - 1 - m mod 8).
  { unfold pos. destruct (Z.ltb_spec (m / 8) (BitLen / 8)); lia. }
  rewrite Hmod, to_bytes_lookup by lia. cbn [default from_option id].
  rewrite testbit_wrap, Z.shiftl_spec, testbit_wrap, Z.shiftr_spec by lia.
  match goal with |- (?a <? 8) && ((?b <? 8) && _) = _ => destruct (Z.ltb_spec a 8), (Z.ltb_spec b 8); try lia end.
  cbn [andb]. f_equal. lia.
Qed.

Section encoding.
Context {B : Type} `{WritableBuffer B} (big_endian : bool) (tmp : list Z) (Htl : length tmp = 17%nat) (Htb : bytes tmp).

Lemma encode_ok s w BitLen v :
  Writer s -> codec_args w BitLen -> bit_offset_ s + BitLen <= 8 * wb_capacity (buf_ s) ->
  exists s', encode big_endian tmp w BitLen s v = Some (ResultOk, s') /\ Writer s' /\
    bit_offset_ s' = bit_offset_ s + BitLen /\ wb_capacity (buf_ s') = wb_capacity (buf_ s) /\
    (forall i, 0 <= i < bit_offset_ s -> bit_at (wb_content (buf_ s')) i = bit_at (wb_content (buf_ s)) i) /\
    encodes (wb_content (buf_ s')) (bit_offset_ s) BitLen v.
Proof.
  intros Hw Ha Hcap. pose proof Ha as [Hl Hwd _]. unfold encode. rewrite convert_union by done.
  rewrite encodeBytesImpl_eq by (rewrite length_to_bytes; lia). set (bs := shifted _ _).
  assert (Hlb : length bs = Z.to_nat (w / 8)).
  { subst bs. unfold shifted. destruct (_ =? 0); rewrite ?length_insert; apply length_to_bytes. }
  destruct (Stream_write_ok tmp s bs BitLen) as (s' & E & Hw' & Ho & Hc & Hbits); try done; try lia.
  pose proof (wr_offset s Hw) as Hoff. exists s'. split_and!; try done.
  - intros i Hi. rewrite Hbits by lia. by destruct (Z.ltb_spec i (bit_offset_ s)); [|lia].
  - intros m Hm. pose proof (pos_range BitLen m Hm). rewrite Hbits by lia.
    destruct (Z.ltb_spec (bit_offset_ s + pos BitLen m) (bit_offset_ s)); [lia|].
    replace (bit_offset_ s + pos BitLen m - bit_offset_ s) with (pos BitLen m) by lia. by apply shifted_bits.
Qed.

Lemma encode_full s w BitLen v :
  Writer s -> codec_args w BitLen -> 8 * wb_capacity (buf_ s) < bit_offset_ s + BitLen ->
  exists s', encode big_endian tmp w BitLen s v = Some (ResultOutOfBuffer, s') /\ bit_offset_ s' = bit_offset_ s.
Proof.
  intros Hw Ha Hcap. pose proof Ha as [Hl Hwd _]. unfold encode. rewrite convert_union by done.
  rewrite encodeBytesImpl_eq by (rewrite length_to_bytes; lia). set (bs := shifted _ _).
  assert (Hlb : length bs = Z.to_nat (w / 8)).
  { subst bs. unfold shifted. destruct (_ =? 0); rewrite ?length_insert; apply length_to_bytes. }
  destruct (Stream_write_full tmp s bs BitLen) as (s' & E & Ho & _); try done; try lia. by exists s'.
Qed.

End encoding.

(** ** Decoding *)

(** Sign extension by the top bit. *)
Lemma swrap_testbit b v : 0 < b ->
  swrap b v = if Z.testbit (wrap b v) (b - 1) then wrap b v - 2 ^ b else wrap b v.
Proof.
  intros Hb. pose proof (wrap_range b v ltac:(lia)) as Hr. unfold in_width in Hr.
  assert (E2 : 2 ^ b = 2 * 2 ^ (b - 1)) by (rewrite <-Z.pow_succ_r by lia; f_equal; lia).
  assert (Ht : Z.testbit (wrap b v) (b - 1) = (2 ^ (b - 1) <=? wrap b v)).
  { rewrite <-(Z.mod_small (wrap b v) (2 ^ b)) at 1 by lia. rewrite Z.testbit_odd, Z.shiftr_div_pow2 by lia.
    rewrite Z.mod_small by lia. destruct (Z.leb_spec (2 ^ (b - 1)) (wrap b v)).
    - replace (wrap b v / 2 ^ (b - 1)) with 1; [done|]. apply (Z.div_unique _ _ _ (wrap b v - 2 ^ (b - 1))); lia.
    - by rewrite Z.div_small by lia. }
  rewrite <-(swrap_small b (if Z.testbit _ _ then _ else _)); [|done|rewrite Ht; destruct (Z.leb_spec (2 ^ (b - 1)) (wrap b v)); lia].
  unfold swrap. f_equal. unfold wrap. destruct (Z.testbit _ _).
  - replace (v mod 2 ^ b - 2 ^ b + 2 ^ (b - 1)) with (v mod 2 ^ b + 2 ^ (b - 1) + (-1) * 2 ^ b) by lia.
    by rewrite Z.mod_add, Zplus_mod_idemp_l by lia.
  - by rewrite Zplus_mod_idemp_l.
Qed.

Lemma fixTwosComplement_ok w BitLen v : 1 < BitLen <= w ->
  fixTwosComplement true w BitLen (swrap w (wrap BitLen v)) = swrap BitLen v.
Proof.
  intros Hl. unfold fixTwosComplement. cbn [andb]. destruct (Z.ltb_spec BitLen w).
  - pose proof (wrap_range BitLen v ltac:(lia)) as Hr. unfold in_width in Hr.
    assert (2 ^ BitLen <= 2 ^ (w - 1)) by (apply Z.pow_le_mono_r; lia).
    rewrite (swrap_small w) by lia. rewrite (swrap_testbit BitLen v) by lia.
    assert (Ht : negb (Z.land (wrap BitLen v) (Z.shiftl 1 (BitLen - 1)) =? 0) = Z.testbit (wrap BitLen v) (BitLen - 1)).
    { destruct (Z.testbit (wrap BitLen v) (BitLen - 1)) eqn:E.
      - destruct (Z.eqb_spec (Z.land (wrap BitLen v) (Z.shiftl 1 (BitLen - 1))) 0) as [E0|]; [|done].
        apply (f_equal (fun x => Z.testbit x (BitLen - 1))) in E0. rewrite Z.land_spec, E, Z.shiftl_spec, Z.testbit_0_l in E0 by lia.
        by rewrite Z.sub_diag in E0.
      - replace (Z.land (wrap BitLen v) (Z.shiftl 1 (BitLen - 1))) with 0; [done|]. symmetry. apply Z.bits_inj'. intros i Hi.
        rewrite Z.land_spec, Z.testbit_0_l, Z.shiftl_1_l, Z.pow2_bits_eqb by lia.
        destruct (Z.eqb_spec (BitLen - 1) i) as [<-|]; [by rewrite E|apply andb_false_r]. }
    rewrite Ht. destruct (Z.testbit (wrap BitLen v) (BitLen - 1)); [|done].
    rewrite Z.land_m1_l. replace (Z.shiftl 1 BitLen - 1) with (Z.ones BitLen) by (rewrite Z.ones_equiv, Z.shiftl_1_l; lia).
    assert (E0 : Z.land (wrap BitLen v) (Z.lnot (Z.ones BitLen)) = 0).
    { apply Z.bits_inj'. intros i Hi. rewrite Z.land_spec, Z.lnot_spec, Z.testbit_0_l, Z.testbit_ones_nonneg by lia.
      destruct (Z.ltb_spec i BitLen); cbn [negb]; [apply andb_false_r|]. rewrite (in_width_testbit BitLen) by done. done. }
    rewrite <-Z.lxor_lor, <-Z.add_nocarry_lxor by done. unfold Z.lnot. rewrite Z.ones_equiv. lia.
  - replace BitLen with w by lia. unfold swrap, wrap. by rewrite Zplus_mod_idemp_l.
Qed.

(** What [decode] makes of the bits of [v]. *)
Definition reduced (signed : bool) (BitLen v : Z) : Z := if signed then swrap BitLen v else wrap BitLen v.

Section decoding.
Context {B : Type} `{ITransferBuffer B} (big_endian : bool) (tmp : list Z) (Htl : length tmp = 17%nat).

(** The byte array after [decodeBytesImpl]. *)
Lemma decodeBytesImpl_ok (s : BitStream B) content w BitLen v :
  Readable (buf_ s) content -> codec_args w BitLen -> 0 <= bit_offset_ s -> bit_offset_ s + BitLen < 2 ^ 31 ->
  bit_offset_ s + BitLen <= 8 * Z.of_nat (length content) -> encodes content (bit_offset_ s) BitLen v ->
  exists bs, decodeBytesImpl tmp s (replicate (Z.to_nat (w / 8)) 0) BitLen =
      Some (ResultOk, bs, mkStream (buf_ s) (bit_offset_ s + BitLen) (byte_cache_ s)) /\
    length bs = Z.to_nat (w / 8) /\ bytes bs /\ of_bytes bs = wrap BitLen v.
Proof.
  intros Hr [Hl Hwd _] Ho Hmax Hfit Henc. set (z := replicate (Z.to_nat (w / 8)) 0).
  assert (Hlz : length z = Z.to_nat (w / 8)) by apply length_replicate.
  destruct (Stream_read_ok tmp s content z BitLen) as (bs & E & Hlen & Hb & Hbits & Hrest); try done; try lia.
  { by apply Forall_replicate. }
  unfold decodeBytesImpl. rewrite E. cbn [mbind option_bind]. change (0 <? ResultOk) with true. cbn [andb].
  assert (Hbit : forall m, 0 <= m -> Z.testbit (default 0 (bs !! Z.to_nat (m / 8))) (m mod 8) = bit_at bs (8 * (m / 8) + (7 - m mod 8))).
  { intros m Hm. unfold bit_at. f_equal; [f_equal; f_equal|]; lia. }
  assert (Hzero : forall i, 8 * ((BitLen + 7) / 8) <= i -> bit_at bs i = false).
  { intros i Hi. rewrite Hrest by lia. destruct (decide (i < 8 * Z.of_nat (length z))); [|apply bit_at_beyond; lia].
    unfold bit_at, z. rewrite lookup_replicate_2 by lia. apply Z.testbit_0_l. }
  assert (Hplain : forall m, 0 <= m -> m / 8 <> BitLen / 8 \/ BitLen mod 8 = 0 ->
    bit_at bs (8 * (m / 8) + (7 - m mod 8)) = (m <? BitLen) && Z.testbit v m).
  { intros m Hm Hne. destruct (Z.ltb_spec m BitLen); cbn [andb].
    - rewrite Hbits, <-Henc by lia. unfold pos. destruct (Z.ltb_spec (m / 8) (BitLen / 8)); [|lia].
      by destruct (Z.ltb_spec (8 * (m / 8) + (7 - m mod 8)) BitLen); [|lia].
    - apply Hzero. lia. }
  destruct (Z.eqb_spec (BitLen mod 8) 0) as [E0|E0]; cbn [negb].
  - exists bs. split_and!; try done; [lia|]. apply Z.bits_inj'. intros m Hm.
    rewrite of_bytes_testbit, Hbit, testbit_wrap by (try done; lia). apply Hplain; auto.
  - destruct (lookup_lt_is_Some_2 bs (Z.to_nat (BitLen / 8))) as [b Eb]; [lia|]. rewrite Eb. cbn [mbind option_bind].
    assert (Hb8 : is_u8 b) by (by eapply Forall_lookup_1 in Eb).
    set (bs' := <[_ := _]> bs).
    assert (Hb' : bytes bs') by (apply Forall_insert; [done|apply wrap_range; lia]).
    exists bs'. split_and!; try done; [subst bs'; rewrite length_insert; lia|].
    apply Z.bits_inj'. intros m Hm. rewrite of_bytes_testbit, testbit_wrap by (try done; lia). subst bs'.
    destruct (decide (m / 8 = BitLen / 8)) as [Em|Em].
    + rewrite Em, list_lookup_insert_eq by lia. cbn [default from_option id]. rewrite shift_amount by done.
      rewrite testbit_wrap, Z.shiftr_spec by lia. destruct (Z.ltb_spec (m mod 8) 8); [|lia]. cbn [andb].
      destruct (Z.ltb_spec m BitLen); cbn [andb]; [|apply (in_width_testbit 8); [done|lia]].
      rewrite <-Henc by lia. assert (Hbb : bit_at bs (pos BitLen m) = bit_at content (bit_offset_ s + pos BitLen m)).
      { pose proof (pos_range BitLen m ltac:(lia)). rewrite Hbits by lia. by destruct (Z.ltb_spec (pos BitLen m) BitLen); [|lia]. }
      rewrite <-Hbb. unfold bit_at, pos. destruct (Z.ltb_spec (m / 8) (BitLen / 8)); [lia|].
      replace ((8 * (m / 8) + (BitLen mod 8 - 1 - m mod 8)) / 8) with (BitLen / 8) by lia. rewrite Eb. cbn. f_equal. lia.
    + rewrite list_lookup_insert_ne by lia. rewrite Hbit by done. apply Hplain; auto.
Qed.

Lemma decode_ok (s : BitStream B) content signed w BitLen v old :
  Readable (buf_ s) content -> codec_args w BitLen -> (signed = true -> 1 < BitLen) ->
  0 <= bit_offset_ s -> bit_offset_ s + BitLen < 2 ^ 31 ->
  bit_offset_ s + BitLen <= 8 * Z.of_nat (length content) -> encodes content (bit_offset_ s) BitLen v ->
  decode big_endian tmp signed w BitLen s old =
    Some (ResultOk, reduced signed BitLen v, mkStream (buf_ s) (bit_offset_ s + BitLen) (byte_cache_ s)).
Proof.
  intros Hr Ha Hsg Ho Hmax Hfit Henc. destruct (decodeBytesImpl_ok s content w BitLen v) as (bs & E & Hl & Hb & Hv); try done.
  unfold decode. rewrite E. cbn [mbind option_bind]. change (0 <? ResultOk) with true. cbn iota.
  rewrite (value_convert _ w) by done. rewrite Hv. unfold reduced. destruct signed; [|done].
  destruct Ha as [Hl' _ _]. by rewrite fixTwosComplement_ok by (specialize (Hsg eq_refl); lia).
Qed.

End decoding.

(** ** Messages of integer fields *)

Record spec_ok (t : IntegerSpec) : Prop := {
  so_len : 1 <= is_BitLen t <= 64;
  so_signed : IsSigned t = true -> 1 < is_BitLen t
}.

Lemma spec_args t : spec_ok t -> codec_args (StorageWidth t) (is_BitLen t).
Proof.
  intros [Hl _]. unfold StorageWidth.
  destruct (Z.leb_spec (is_BitLen t) 8), (Z.leb_spec (is_BitLen t) 16), (Z.leb_spec (is_BitLen t) 32); split; lia.
Qed.

(** The range of the type. *)
Definition in_range (t : IntegerSpec) (v : Z) : Prop :=
  if IsSigned t then - 2 ^ (is_BitLen t - 1) <= v < 2 ^ (is_BitLen t - 1) else 0 <= v < 2 ^ is_BitLen t.

(** The value that arrives: the nearest one of the range, or the low bits. *)
Definition delivered (t : IntegerSpec) (v : Z) : Z :=
  if is_BitLen t =? 1 then wrap 1 v
  else match is_CastMode t with
       | CastModeSaturate =>
         if IsSigned t then Z.max (- 2 ^ (is_BitLen t - 1)) (Z.min (2 ^ (is_BitLen t - 1) - 1) v)
         else Z.max 0 (Z.min (2 ^ is_BitLen t - 1) v)
       | CastModeTruncate => reduced (IsSigned t) (is_BitLen t) v
       end.

Lemma Spec_max_eq t : spec_ok t -> Spec_max t = (if IsSigned t then 2 ^ (is_BitLen t - 1) - 1 else 2 ^ is_BitLen t - 1).
Proof.
  intros [Hl _]. unfold Spec_max. rewrite !Z.shiftl_1_l. by destruct (Z.eqb_spec (is_BitLen t) 64) as [->|]; destruct (IsSigned t).
Qed.

Lemma reduced_range t v : spec_ok t -> in_range t v -> reduced (IsSigned t) (is_BitLen t) v = v.
Proof.
  intros [Hl _]. unfold in_range, reduced. destruct (IsSigned t); intros Hv; [apply swrap_small; lia|by apply wrap_small].
Qed.

(** Types are wide enough for every value of their range. *)
Lemma delivered_in_range t v : spec_ok t -> in_range t v -> delivered t v = v.
Proof.
  intros Ht Hv. unfold delivered. pose proof (reduced_range t v Ht Hv) as Hr. pose proof Ht as [Hl Hs].
  destruct (Z.eqb_spec (is_BitLen t) 1) as [E|E].
  - unfold in_range in Hv. destruct (IsSigned t); [specialize (Hs eq_refl); lia|]. rewrite E in Hv. by apply wrap_small.
  - destruct (is_CastMode t); [|done]. unfold in_range in Hv. destruct (IsSigned t); lia.
Qed.

Lemma reduced_land signed b v x : 1 <= b -> (forall i, 0 <= i < b -> Z.testbit x i = true) ->
  reduced signed b (Z.land v x) = reduced signed b v.
Proof.
  intros Hb Hx. assert (E : wrap b (Z.land v x) = wrap b v).
  { apply Z.bits_inj'. intros i Hi. rewrite !testbit_wrap, Z.land_spec by lia.
    destruct (Z.ltb_spec i b); [|done]. rewrite Hx by lia. by rewrite andb_true_r. }
  unfold reduced. destruct signed; [|done]. by rewrite !swrap_testbit, E by lia.
Qed.

Lemma testbit_swrap w x i : 0 < w -> 0 <= i < w -> Z.testbit (swrap w x) i = Z.testbit x i.
Proof.
  intros Hw Hi. pose proof (testbit_wrap w x i ltac:(lia) ltac:(lia)) as E1. pose proof (testbit_wrap w (swrap w x) i ltac:(lia) ltac:(lia)) as E2.
  rewrite wrap_swrap in E2 by done. rewrite E1 in E2. destruct (Z.ltb_spec i w); [|lia]. cbn in E2. by rewrite E2.
Qed.

Lemma delivered_all fs : Forall spec_ok fs.*1 -> Forall (fun f : IntegerSpec * Z => in_range f.1 f.2) fs ->
  (fun f : IntegerSpec * Z => delivered f.1 f.2) <$> fs = fs.*2.
Proof.
  intros Hf Hin. assert (Hf' : Forall (spec_ok ∘ fst) fs) by (by apply Forall_fmap). apply list_fmap_ext. intros i x Hx.
  apply delivered_in_range; [exact (Forall_lookup_1 _ _ _ _ Hf' Hx)|exact (Forall_lookup_1 _ _ _ _ Hin Hx)].
Qed.

(** The value [Spec_encode] hands to the codec. *)
Definition cast (t : IntegerSpec) (v : Z) : Z :=
  if is_BitLen t =? 1 then v
  else match is_CastMode t with CastModeSaturate => saturate t v | CastModeTruncate => truncate t v end.

Lemma cast_delivered t v : spec_ok t -> reduced (IsSigned t) (is_BitLen t) (cast t v) = delivered t v.
Proof.
  intros Ht. pose proof Ht as [Hl Hs]. pose proof (Spec_max_eq t Ht) as Hmax. unfold cast, delivered.
  destruct (Z.eqb_spec (is_BitLen t) 1) as [E|E].
  - unfold reduced. rewrite E. destruct (IsSigned t); [specialize (Hs eq_refl); lia|done].
  - destruct (is_CastMode t).
    + unfold saturate, Spec_min. rewrite Hmax. assert (0 < 2 ^ (is_BitLen t - 1)) by lia. assert (0 < 2 ^ is_BitLen t) by lia.
      destruct (IsSigned t) eqn:Es; (match goal with |- reduced _ _ (if ?a <? v then ?a else if v <=? ?b then ?b else v) = ?r =>
        replace (if a <? v then a else if v <=? b then b else v) with r by (destruct (Z.ltb_spec a v), (Z.leb_spec v b); lia) end);
        (rewrite <-Es; apply reduced_range; [done|]; unfold in_range; rewrite Es; lia).
    + unfold truncate. apply reduced_land; [lia|]. intros i Hi.
      assert (Hm : Spec_mask t = Z.ones (is_BitLen t)).
      { unfold Spec_mask. rewrite Z.ones_equiv, Z.shiftl_1_l. by destruct (Z.eqb_spec (is_BitLen t) 64) as [->|]. }
      destruct (spec_args t Ht) as [[_ Hsw] _ _]. rewrite Hm.
      destruct (IsSigned t); [rewrite testbit_swrap by lia|]; apply Z.ones_spec_low; lia.
Qed.

Abbreviation total_bits fs := (foldr (fun t n => is_BitLen t + n) 0 (fs : list IntegerSpec)).

Fixpoint fields_at (content : list Z) (offset : Z) (fs : list (IntegerSpec * Z)) : Prop :=
  match fs with
  | [] => True
  | (t, v) :: fs => encodes content offset (is_BitLen t) (cast t v) /\ fields_at content (offset + is_BitLen t) fs
  end.

Lemma total_bits_nonneg ts : Forall spec_ok ts -> 0 <= total_bits ts.
Proof. induction 1 as [|t ts [Hl _]]; cbn [foldr]; lia. Qed.

Section messages_out.
Context {B : Type} `{WritableBuffer B} (big_endian : bool) (tmp : list Z) (Htl : length tmp = 17%nat) (Htb : bytes tmp).

Lemma encode_fields_ok fs s :
  Writer s -> Forall spec_ok fs.*1 -> bit_offset_ s + total_bits fs.*1 <= 8 * wb_capacity (buf_ s) ->
  exists s', encode_fields big_endian tmp fs s = Some (ResultOk, s') /\ Writer s' /\
    bit_offset_ s' = bit_offset_ s + total_bits fs.*1 /\
    (forall i, 0 <= i < bit_offset_ s -> bit_at (wb_content (buf_ s')) i = bit_at (wb_content (buf_ s)) i) /\
    fields_at (wb_content (buf_ s')) (bit_offset_ s) fs.
Proof.
  revert s. induction fs as [|[t v] fs IH]; intros s Hw Hf Hfit; cbn [encode_fields fmap list_fmap foldr fst] in *.
  { exists s. split_and!; try done. lia. }
  apply Forall_cons in Hf as [Ht Hf]. pose proof (total_bits_nonneg _ Hf) as Htot. pose proof (so_len t Ht) as Hl.
  destruct (encode_ok big_endian tmp Htl Htb s (StorageWidth t) (is_BitLen t) (cast t v)) as (s1 & E1 & Hw1 & Ho1 & Hc1 & Hk1 & He1);
    [done|by apply spec_args|lia|].
  unfold Spec_encode. fold (cast t v). rewrite E1. cbn [mbind option_bind]. change (ResultOk <=? 0) with false. cbn iota.
  destruct (IH s1 Hw1 Hf) as (s2 & E2 & Hw2 & Ho2 & Hk2 & Hf2); [lia|]. pose proof (wr_offset s Hw).
  exists s2. split_and!; [done|done|lia| |].
  - intros i Hi. rewrite Hk2, Hk1 by lia. done.
  - split; [|by rewrite <-Ho1].
    intros m Hm. pose proof (pos_range (is_BitLen t) m Hm). rewrite Hk2 by lia. by apply He1.
Qed.

Lemma encode_fields_full fs s :
  Writer s -> Forall spec_ok fs.*1 -> 8 * wb_capacity (buf_ s) < bit_offset_ s + total_bits fs.*1 ->
  bit_offset_ s <= 8 * wb_capacity (buf_ s) ->
  exists s', encode_fields big_endian tmp fs s = Some (ResultOutOfBuffer, s').
Proof.
  revert s. induction fs as [|[t v] fs IH]; intros s Hw Hf Hfull Hin; cbn [encode_fields fmap list_fmap foldr fst] in *; [lia|].
  apply Forall_cons in Hf as [Ht Hf]. unfold Spec_encode. fold (cast t v).
  destruct (decide (bit_offset_ s + is_BitLen t <= 8 * wb_capacity (buf_ s))) as [Hfit|Hno].
  - destruct (encode_ok big_endian tmp Htl Htb s (StorageWidth t) (is_BitLen t) (cast t v)) as (s1 & E1 & Hw1 & Ho1 & Hc1 & _);
      [done|by apply spec_args|lia|].
    rewrite E1. cbn [mbind option_bind]. change (ResultOk <=? 0) with false. cbn iota. apply IH; [done|done|lia|lia].
  - destruct (encode_full big_endian tmp Htl Htb s (StorageWidth t) (is_BitLen t) (cast t v)) as (s1 & E1 & _);
      [done|by apply spec_args|lia|].
    rewrite E1. by exists s1.
Qed.

End messages_out.

Section messages_in.
Context {B : Type} `{ITransferBuffer B} (big_endian : bool) (tmp : list Z) (Htl : length tmp = 17%nat).

Lemma decode_fields_ok fs content (s : BitStream B) :
  Readable (buf_ s) content -> Forall spec_ok fs.*1 -> 0 <= bit_offset_ s -> bit_offset_ s + total_bits fs.*1 < 2 ^ 31 ->
  bit_offset_ s + total_bits fs.*1 <= 8 * Z.of_nat (length content) -> fields_at content (bit_offset_ s) fs ->
  decode_fields big_endian tmp fs.*1 s =
    Some (ResultOk, (fun f => delivered f.1 f.2) <$> fs, mkStream (buf_ s) (bit_offset_ s + total_bits fs.*1) (byte_cache_ s)).
Proof.
  revert s. induction fs as [|[t v] fs IH]; intros s Hr Hf Ho Hmax Hfit Hat; cbn [decode_fields fmap list_fmap foldr fst snd] in *.
  { rewrite Z.add_0_r. by destruct s. }
  apply Forall_cons in Hf as [Ht Hf]. pose proof (total_bits_nonneg _ Hf) as Htot. destruct Hat as [Henc Hat].
  pose proof (so_len t Ht) as Hl.
  unfold Spec_decode. rewrite (decode_ok big_endian tmp Htl s content _ _ _ (cast t v)); try done; [|by apply spec_args|apply Ht|lia..].
  cbn [mbind option_bind]. change (ResultOk <=? 0) with false. cbn iota.
  rewrite IH; cbn [buf_ bit_offset_ byte_cache_]; try done; try lia. cbn [mbind option_bind].
  rewrite cast_delivered by done. by rewrite Z.add_assoc.
Qed.

Lemma decode_end (s : BitStream B) content t old :
  Readable (buf_ s) content -> spec_ok t -> 0 <= bit_offset_ s < 2 ^ 31 ->
  8 * Z.of_nat (length content) < bit_offset_ s + is_BitLen t ->
  Spec_decode big_endian tmp t s old = Some (ResultOutOfBuffer, old, s).
Proof.
  intros Hr Ht Ho Hend. pose proof (so_len t Ht). unfold Spec_decode, decode, decodeBytesImpl.
  by rewrite (Stream_read_end _ _ content) by (try done; lia).
Qed.

End messages_in.

(** ** The round trip of a message *)

(** The fields of a message survive the wire: any sequence of integers of 1 to 64
    bits, signed or unsigned, saturated or truncated, encoded one after the other into
    a buffer that has room for their bits gives success without an access outside an
    array, takes exactly the bytes needed, and decoding that data, on a machine of the
    same or of the other byte order, gives every field's value cast to its range: the
    nearest value for saturated fields, the low bits for truncated ones, and the value
    itself when it was in range. *)
Theorem message_roundtrip {B B' : Type} `{WritableBuffer B} `{ITransferBuffer B'} big_endian big_endian' tmp tmp' fs (b : B) (b' : B') :
  length tmp = 17%nat -> bytes tmp -> length tmp' = 17%nat -> wb_wf b -> wb_content b = [] ->
  Forall spec_ok fs.*1 -> total_bits fs.*1 <= 8 * wb_capacity b ->
  exists s, encode_fields big_endian tmp fs (BitStream_init b) = Some (ResultOk, s) /\
    Z.of_nat (length (wb_content (buf_ s))) = (total_bits fs.*1 + 7) / 8 /\
    (Readable b' (wb_content (buf_ s)) ->
      exists s', decode_fields big_endian' tmp' fs.*1 (BitStream_init b') =
        Some (ResultOk, (fun f => delivered f.1 f.2) <$> fs, s')) /\
    (Forall (fun f => in_range f.1 f.2) fs -> (fun f => delivered f.1 f.2) <$> fs = fs.*2).
Proof.
  intros Ht Hb Ht' Hwf Hnil Hf Hfit.
  destruct (encode_fields_ok big_endian tmp Ht Hb fs (BitStream_init b)) as (s & E & Hw & Ho & _ & Hat);
    [by apply BitStream_init_writer|done|done|].
  pose proof (wr_length s Hw) as Hlen. pose proof (wb_size _ Hwf) as Hsz. pose proof (total_bits_nonneg _ Hf) as Hpos.
  cbn [bit_offset_ BitStream_init] in *. rewrite Ho in Hlen. exists s. split_and!; [done|done| |].
  - intros Hr. eexists. apply decode_fields_ok with (wb_content (buf_ s)); cbn [buf_ bit_offset_ BitStream_init]; try done; lia.
  - by apply delivered_all.
Qed.

(** C35: a message that does not fit its buffer is reported, not truncated silently: the
    encoder answers [ResultOutOfBuffer] without touching memory outside the buffer, and
    a decoder asked for a field past the end of the data answers the same and leaves the
    field and the stream as they were. *)
Theorem message_out_of_space {B : Type} `{WritableBuffer B} big_endian tmp fs (b : B) t old content (s : BitStream B) :
  length tmp = 17%nat -> bytes tmp -> wb_wf b -> wb_content b = [] -> Forall spec_ok fs.*1 ->
  8 * wb_capacity b < total_bits fs.*1 ->
  Readable (buf_ s) content -> spec_ok t -> 0 <= bit_offset_ s < 2 ^ 31 ->
  8 * Z.of_nat (length content) < bit_offset_ s + is_BitLen t ->
  (exists s', encode_fields big_endian tmp fs (BitStream_init b) = Some (ResultOutOfBuffer, s')) /\
  Spec_decode big_endian tmp t s old = Some (ResultOutOfBuffer, old, s).
Proof.
  intros Ht Hb Hwf Hnil Hf Hfull Hr Hst Ho Hend. split; [|by apply decode_end with content].
  pose proof (wb_size _ Hwf). apply encode_fields_full; cbn [bit_offset_ buf_ BitStream_init]; try done; [by apply BitStream_init_writer|lia].
Qed.

Definition example_fields : list (IntegerSpec * Z) :=
  [(mkSpec 13 SignednessSigned CastModeSaturate, -5000); (mkSpec 3 SignednessUnsigned CastModeTruncate, 9);
   (mkSpec 1 SignednessUnsigned CastModeSaturate, 1); (mkSpec 24 SignednessSigned CastModeTruncate, -2)].

Lemma example_fields_ok : Forall spec_ok example_fields.*1.
Proof. repeat (constructor; [split; [cbn; lia|cbn; intros; first [discriminate|lia]]|]); constructor. Qed.

Lemma example_static_wf : Static_wf (Static_init (replicate 6 0) 6).
Proof. split; cbn; lia. Qed.

(** The six bytes of the example. *)
Definition example_received : StaticTransferBufferImpl := mkStatic [0; 129; 255; 127; 255; 128] 6 6.

Lemma message_roundtrip_witness :
  exists s s', encode_fields false (replicate 17 0) example_fields (BitStream_init (Static_init (replicate 6 0) 6)) = Some (ResultOk, s) /\
    decode_fields true (replicate 17 7) example_fields.*1 (BitStream_init example_received) = Some (ResultOk, [-4096; 1; 1; -2], s').
Proof.
  assert (Hb : bytes (replicate 17 0)) by (apply Forall_replicate; split; lia).
  assert (Hfit : total_bits example_fields.*1 <= 8 * wb_capacity (Static_init (replicate 6 0) 6)) by (vm_compute; discriminate).
  assert (Hwf0 : wb_wf (Static_init (replicate 6 0) 6)) by exact example_static_wf.
  assert (Hwf : wb_wf example_received) by (split; cbn; lia).
  destruct (message_roundtrip (B := StaticTransferBufferImpl) (B' := StaticTransferBufferImpl) false true (replicate 17 0) (replicate 17 7) example_fields (Static_init (replicate 6 0) 6) example_received
    eq_refl Hb eq_refl Hwf0 eq_refl example_fields_ok Hfit) as (s & E & _ & Hd & _).
  destruct Hd as (s' & Hs'); [|exists s, s'; split; [exact E|exact Hs']].
  vm_compute in E. injection E as <-. exact (wb_readable example_received Hwf).
Defined.

Lemma message_out_of_space_witness :
  exists s', encode_fields false (replicate 17 0) example_fields (BitStream_init (Static_init (replicate 2 0) 2)) =
    Some (ResultOutOfBuffer, s').
Proof.
  apply (message_out_of_space false (replicate 17 0) example_fields (Static_init (replicate 2 0) 2)
    (mkSpec 8 SignednessUnsigned CastModeSaturate) 5 [] (BitStream_init (Static_init (replicate 2 0) 2))).
  - reflexivity.
  - by apply Forall_replicate.
  - split; cbn; lia.
  - reflexivity.
  - exact example_fields_ok.
  - vm_compute. reflexivity.
  - assert (Hwf : wb_wf (Static_init (replicate 2 0) 2)) by (split; cbn; lia). exact (wb_readable _ Hwf).
  - split; cbn; [lia|discriminate].
  - cbn. lia.
  - vm_compute. reflexivity.
Defined.
