(* ===== verification/Message.v ===== *)
(** * Messages end to end

    What the layers make together: the integer fields of a message are encoded into a
    buffer ([ScalarCodec], [BitStream]), its bytes are sent as a transfer
    ([TransferSender]), its frames cross the bus ([Frame]), the listener of the receiving
    node puts the transfer together ([TransferListener], [TransferReceiver]) and hands it
    to the decoder. The encoding and decoding ends are [GenericPublisher::doEncode] of
    [node/generic_publisher.hpp] and [GenericSubscriber::handleIncomingTransfer] of
    [node/generic_subscriber.hpp]; the codec of a data type is generated from its
    definition and a parameter there, and a message of integer fields an instance. *)

From stdpp Require Import list.
From S2P Require Import Prelude MonoTime Crc Transfer CanFrame Frame PoolAllocator TransferBuffer TransferReceiver.
From S2P Require Import TransferListener Dispatcher TransferSender BitStream ScalarCodec.
Local Open Scope Z_scope.

(** [int GenericPublisher::doEncode(const DataStruct& message, ITransferBuffer& buffer) const] for
    the generated encoder of the message, with the buffer afterwards. *)
Definition GenericPublisher_doEncode {B} (DataStruct_encode : BitStream B -> option (Z * BitStream B)) (buffer : B)
    : option (Z * B) :=
  '(encode_res, s) ← DataStruct_encode (BitStream_init buffer);
  Some (if encode_res <=? 0 then - ErrInvalidMarshalData else encode_res, buf_ s).

(** [void GenericSubscriber::handleIncomingTransfer(IncomingTransfer& transfer)] for the generated
    decoder: the structure given to the callback, if it is called, [failure_count_] and the
    counters of the node. The blocks of the transfer are released by the listener. *)
Definition GenericSubscriber_handleIncomingTransfer {D}
    (DataStruct_decode : BitStream IncomingTransfer -> option (Z * D * BitStream IncomingTransfer))
    (failure_count : Z) (perf : TransferPerfCounter) (transfer : IncomingTransfer)
    : option (option D * Z * TransferPerfCounter) :=
  '(decode_res, rx_struct, _) ← DataStruct_decode (BitStream_init transfer);
  Some (if decode_res <=? 0 then (None, u32 (failure_count + 1), addError perf)
        else (Some rx_struct, failure_count, perf)).

(** An incoming transfer that reads as a payload is a buffer with that content. *)
Lemma reads_as_readable it payload : reads_as it payload -> Readable it payload.
Proof. intros Hr offset len H1 H2 H3. exact (Hr offset len H1 H2 H3). Qed.

Section message.
Context {A : Type} `{PoolLaws A} (sizeof_Block sizeof_Entry sizeof_KVGroup : Z) (NumKV : nat).
Context (B : nat) (HB : 8 < Z.of_nat B <= 255) (HNum : (0 < NumKV)%nat).
Context (block_size num_blocks : Z) `{!PoolCapacity A block_size num_blocks}.
Context (Hsb : sizeof_Block <= block_size) (Hse : sizeof_Entry <= block_size) (Hsk : sizeof_KVGroup <= block_size).
Context (junk : Z -> list Z) (Hj : forall p, length (junk p) = B).
Context {Buf : Type} `{WritableBuffer Buf}.

(** C1: a message crosses the network: the fields encoded by the sender into a buffer with
    room for them, sent as a transfer of any length from a unicast node whose header is
    valid, with the frames received in time and in order by a listener of the same data type
    that is ready for a transfer of that node and has room for it, are delivered to the
    application exactly once, and decoding the delivered transfer, whatever the byte orders of
    the two machines, gives the value of every field cast to its type. *)
Theorem message_end_to_end big_endian big_endian' tmp tmp' fs (b : Buf) mem mem' t ttype src dst tid ts tss utc iface a l perf :
  length tmp = 17%nat -> bytes tmp -> length tmp' = 17%nat -> wb_wf b -> wb_content b = [] ->
  Forall spec_ok fs.*1 -> total_bits fs.*1 <= 8 * wb_capacity b ->
  (total_bits fs.*1 + 7) / 8 <= max_buf_size_ (bufmgr_ l) < 2 ^ 31 ->
  mem_wf mem -> mem_wf mem' -> Sender_wf t -> is_u8 dst -> TransferID.wf tid ->
  crc_base_ l = ts_crc_base_ t -> NodeID.isUnicast src = true -> 0 <= src ->
  Frame_isValid (blank_frame mem t ttype src dst tid) = true -> 0 < ts < 2 ^ 63 ->
  Forall (fun x => ts <= x <= ts + DefaultTidTimeoutMSec * 1000 /\ x < 2 ^ 63) tss -> 0 <= iface < MaxCanIfaces ->
  exists b', GenericPublisher_doEncode (encode_fields big_endian tmp fs) b = Some (ResultOk, b') /\
    let frames := transfer_frames mem t (wb_content b') ttype src dst tid in
    (length (ts :: tss) = length frames ->
     exists rx rxs, Forall2 (fun fts rx => over_the_bus mem' utc iface fts.1 fts.2 = Some rx) (zip frames (ts :: tss)) (rx :: rxs) /\
       (listener_ready NumKV B num_blocks a l rx ->
        exists it a' l' perf',
          Listener_handleFrames sizeof_Block sizeof_Entry sizeof_KVGroup NumKV junk a l perf (rx :: rxs) =
            ([it], a', l', perf') /\
          forall failures,
            GenericSubscriber_handleIncomingTransfer (decode_fields big_endian' tmp' fs.*1) failures perf' it =
            Some (Some ((fun f => delivered f.1 f.2) <$> fs), failures, perf'))).
Proof.
  intros Ht Htb Ht' Hwf Hnil Hf Hfit Hmax Hm Hm' Hs Hd Htid Hcrc Hu Hsrc0 Hvalid%Frame_isValid_spec Hts Htss Hif.
  destruct (encode_fields_ok big_endian tmp Ht Htb fs (BitStream_init b)) as (s & E & Hw & Ho & _ & Hat);
    [by apply BitStream_init_writer|done|done|].
  pose proof (wr_length s Hw) as Hlen. pose proof (wb_size _ Hwf) as Hsz. cbn [bit_offset_ BitStream_init] in *. rewrite Ho, Z.add_0_l in Hlen.
  exists (buf_ s). split; [by unfold GenericPublisher_doEncode; rewrite E|]. intros Hn. destruct (unicast_source src Hu Hsrc0) as [Hsrc8 Hsrc].
  pose proof (wr_bytes s Hw) as Hpb.
  destruct (transfer_arrives sizeof_Block sizeof_Entry sizeof_KVGroup NumKV B HB HNum block_size num_blocks Hsb Hse Hsk junk Hj
    mem mem' t (wb_content (buf_ s)) ttype src dst tid ts tss utc iface a l perf) as (rx & rxs & HF & Hgo); try done; try lia.
  exists rx, rxs. split; [done|]. intros Hready. destruct (Hgo Hready) as (it & a' & l' & perf' & Eh & Hr & _).
  exists it, a', l', perf'. split; [done|]. intros failures. unfold GenericSubscriber_handleIncomingTransfer.
  rewrite (decode_fields_ok big_endian' tmp' Ht' fs (wb_content (buf_ s)) (BitStream_init it)); cbn [buf_ bit_offset_ BitStream_init].
  - done.
  - by apply reads_as_readable.
  - done.
  - done.
  - lia.
  - pose proof (Z.div_mod (total_bits fs.*1 + 7) 8). pose proof (Z.mod_pos_bound (total_bits fs.*1 + 7) 8). lia.
  - exact Hat.
Qed.

End message.

(** Two 64-bit fields: a transfer of three frames. *)
Definition example_message : list (IntegerSpec * Z) :=
  [(mkSpec 64 SignednessUnsigned CastModeSaturate, 5); (mkSpec 64 SignednessSigned CastModeTruncate, -7)].

Lemma example_message_ok : Forall spec_ok example_message.*1.
Proof. repeat (constructor; [split; [cbn; lia|cbn; intros; first [discriminate|lia]]|]); constructor. Qed.

Lemma message_end_to_end_witness :
  let pool := PoolAllocator_init 4096 6400 64 in
  exists rx rxs, length rxs = 2%nat /\
    exists it a' l' perf',
      Listener_handleFrames 64 64 64 2 (fun _ => replicate 56 0) pool example_listener (TransferListener.mkPerf 0 0 0)
        (rx :: rxs) = ([it], a', l', perf') /\
      forall failures,
        GenericSubscriber_handleIncomingTransfer (decode_fields true (replicate 17 3) example_message.*1) failures perf' it =
        Some (Some [5; -7], failures, perf').
Proof.
  intros pool.
  assert (Htid : TransferID.wf 7) by (rewrite tid_wf_iff; lia).
  assert (H8 : is_u8 0) by (split; lia). assert (Hif : 0 <= 0 < MaxCanIfaces) by (unfold MaxCanIfaces; lia).
  assert (Htb : bytes (replicate 17 0)) by (apply Forall_replicate; split; lia).
  assert (Hwf : wb_wf (Static_init (replicate 16 0) 16)) by (split; cbn; lia).
  assert (Hw : Forall (fun x => 1000 <= x <= 1000 + DefaultTidTimeoutMSec * 1000 /\ x < 2 ^ 63) [1001; 1002])
    by (unfold DefaultTidTimeoutMSec; constructor; [lia|]; constructor; [lia|]; constructor).
  assert (Hu : NodeID.isUnicast 42 = true) by reflexivity.
  assert (Hfit : total_bits example_message.*1 <= 8 * wb_capacity (Static_init (replicate 16 0) 16)) by (vm_compute; discriminate).
  assert (Hmx : (total_bits example_message.*1 + 7) / 8 <= max_buf_size_ (bufmgr_ example_listener) < 2 ^ 31)
    by (split; [vm_compute; discriminate|reflexivity]).
  assert (Hc : crc_base_ example_listener = ts_crc_base_ example_sender) by (vm_compute; reflexivity).
  assert (Hv : Frame_isValid (blank_frame (replicate 7 0) example_sender TransferTypeMessageBroadcast 42 0 7) = true)
    by (vm_compute; reflexivity).
  destruct (PoolAllocator_init_ok 4096 6400 64 eq_refl eq_refl ltac:(split; discriminate)) as (Hpi & Hlive & _).
  destruct (@message_end_to_end PoolAllocator Pool_ops (Pool_laws_at 4096 6400 64)
    64 64 64 2 56 ltac:(lia) ltac:(lia) 64 100 (Pool_capacity_at 4096 6400 64) ltac:(lia) ltac:(lia) ltac:(lia)
    (fun _ => replicate 56 0) (fun _ => eq_refl) StaticTransferBufferImpl static_transfer_buffer static_writable
    false true (replicate 17 0) (replicate 17 3) example_message (Static_init (replicate 16 0) 16)
    (replicate 7 0) (replicate 7 0) example_sender
    TransferTypeMessageBroadcast 42 0 7 1000 [1001; 1002] 0 0 pool example_listener (TransferListener.mkPerf 0 0 0)
    eq_refl Htb eq_refl Hwf eq_refl example_message_ok Hfit Hmx
    example_mem_wf example_mem_wf example_sender_wf H8 Htid Hc Hu ltac:(lia) Hv ltac:(lia) Hw Hif) as (b' & E & Hsend).
  assert (Hn : length [1000; 1001; 1002] = length (transfer_frames (replicate 7 0) example_sender (wb_content b')
    TransferTypeMessageBroadcast 42 0 7)) by (vm_compute in E; injection E as <-; vm_compute; reflexivity).
  destruct (Hsend Hn) as (rx & rxs & HF & Hgo). exists rx, rxs.
  assert (Hl : length rxs = 2%nat).
  { apply Forall2_length in HF. rewrite length_zip_with_l_eq in HF by (symmetry; exact Hn). rewrite <-Hn in HF.
    injection HF as HF. symmetry. exact HF. }
  split; [exact Hl|]. apply Hgo. split.
  - apply Listener_inv_init; [exact (conj Hpi (conj eq_refl (conj eq_refl eq_refl)))|lia].
  - unfold others. change (held (bufmgr_ example_listener) (frame_key rx)) with (@nil Z).
    change (live pool) with (Pool_live (PoolAllocator_init 4096 6400 64)). rewrite Hlive. vm_compute. discriminate.
  - change (PoolMap.Map_access (receivers_ example_listener) (frame_key rx)) with (@None PoolMap.SlotPtr). exact I.
Defined.
