(* ===== verification/BitSet.v ===== *)
(** * BitSet: sets of node IDs

    Models [BitSet] ([libuavcan/include/uavcan/util/bitset.hpp]) for [NodeID::Max + 1] bits, the
    instance the allocators use: an array of bytes with one bit per node ID. *)

From stdpp Require Import list list_numbers.
From S2P Require Import Prelude Transfer.
Local Open Scope Z_scope.

Definition NumBits : Z := NodeID.Max + 1.
Definition NumBytes : nat := Z.to_nat ((NumBits + 7) / 8).
Definition getByteNum (bit_num : Z) : nat := Z.to_nat (bit_num / 8).
Definition getBitNum (bit_num : Z) : Z := bit_num mod 8.
Definition BitSet_make : list Z := replicate NumBytes 0.
Definition validatePos (pos : Z) : Z := if NumBits <=? pos then NumBits - 1 else pos.

(** [BitSet& set(std::size_t pos, bool val)]. *)
Definition BitSet_set (data : list Z) (pos : Z) (val : bool) : list Z :=
  let pos := validatePos pos in
  let byte := nth (getByteNum pos) data 0 in
  <[getByteNum pos := u8 (if val then Z.lor byte (Z.shiftl 1 (getBitNum pos)) else Z.land byte (Z.lnot (Z.shiftl 1 (getBitNum pos))))]> data.

(** [bool test(std::size_t pos) const]. *)
Definition BitSet_test (data : list Z) (pos : Z) : bool :=
  negb (Z.land (nth (getByteNum pos) data 0) (Z.shiftl 1 (getBitNum pos)) =? 0).

(** [std::size_t count() const]. *)
Definition BitSet_count (data : list Z) : Z :=
  foldl (fun retval i => retval + (if BitSet_test data i then 1 else 0)) 0 (seqZ 0 NumBits).

(** ** Bits *)

(** The bit [k] of an array of bytes. *)
Definition bit_at (a : list Z) (k : Z) : bool := Z.testbit (nth (getByteNum k) a 0) (getBitNum k).

Lemma land_one_bit x n : 0 <= n -> negb (Z.land x (Z.shiftl 1 n) =? 0) = Z.testbit x n.
Proof.
  intros Hn. destruct (Z.testbit x n) eqn:E.
  - apply negb_true_iff, Z.eqb_neq. intros H0. assert (Hb : Z.testbit (Z.land x (Z.shiftl 1 n)) n = false) by (by rewrite H0, Z.bits_0).
    rewrite Z.land_spec, E, Z.shiftl_spec, Z.sub_diag in Hb by done. done.
  - apply negb_false_iff, Z.eqb_eq, Z.bits_inj'. intros k Hk. rewrite Z.land_spec, Z.shiftl_spec, Z.bits_0 by done.
    destruct (decide (k = n)) as [->|Hne]; [by rewrite E|]. rewrite andb_comm. replace (Z.testbit 1 (k - n)) with false; [done|]. symmetry.
    destruct (decide (k < n)); [apply Z.testbit_neg_r; lia|]. apply (in_width_testbit 1); [done|lia].
Qed.

Lemma bit_num_range k : 0 <= getBitNum k < 8.
Proof. unfold getBitNum. apply Z.mod_pos_bound. lia. Qed.

Lemma byte_num_range k : 0 <= k < 128 -> (getByteNum k < 16)%nat.
Proof. intros Hk. unfold getByteNum. pose proof (Z.div_lt_upper_bound k 8 16 ltac:(lia) ltac:(lia)). pose proof (Z.div_pos k 8). lia. Qed.

Lemma same_bit j k : 0 <= j -> 0 <= k -> getByteNum j = getByteNum k -> getBitNum j = getBitNum k -> j = k.
Proof.
  unfold getByteNum, getBitNum. intros Hj Hk E1 E2. pose proof (Z.div_mod j 8 ltac:(lia)). pose proof (Z.div_mod k 8 ltac:(lia)).
  pose proof (Z.div_pos j 8 Hj ltac:(lia)). pose proof (Z.div_pos k 8 Hk ltac:(lia)). lia.
Qed.

Lemma BitSet_test_bit data k : BitSet_test data k = bit_at data k.
Proof. unfold BitSet_test, bit_at. apply land_one_bit. apply bit_num_range. Qed.

(** Replacing a byte by one that differs in one bit at most. *)
Lemma byte_bit_insert a i b v k :
  length a = 16%nat -> 0 <= i < 128 -> 0 <= k < 128 ->
  (forall n, 0 <= n < 8 -> Z.testbit b n = if n =? getBitNum i then v else Z.testbit (nth (getByteNum i) a 0) n) ->
  bit_at (<[getByteNum i := b]> a) k = if k =? i then v else bit_at a k.
Proof.
  intros Hl Hi Hk Hb. unfold bit_at. pose proof (byte_num_range i Hi). pose proof (bit_num_range k).
  destruct (decide (getByteNum k = getByteNum i)) as [E|E].
  - rewrite E. rewrite nth_lookup, list_lookup_insert_eq by lia. cbn [from_option id]. rewrite Hb by done.
    destruct (Z.eqb_spec (getBitNum k) (getBitNum i)) as [E2|E2].
    + rewrite (same_bit k i) by (done || lia). by rewrite Z.eqb_refl.
    + destruct (Z.eqb_spec k i) as [->|]; done.
  - rewrite !nth_lookup, list_lookup_insert_ne by congruence. destruct (Z.eqb_spec k i) as [->|]; done.
Qed.

Lemma testbit_one m : 0 <= m -> Z.testbit 1 m = (m =? 0).
Proof.
  intros Hm. destruct (Z.eqb_spec m 0) as [->|]; [done|]. apply (in_width_testbit 1); [done|lia].
Qed.

Lemma testbit_one_bit i n : 0 <= i -> 0 <= n -> Z.testbit (Z.shiftl 1 i) n = (n =? i).
Proof.
  intros Hi Hn. rewrite Z.shiftl_spec by done. destruct (Z.eqb_spec n i) as [->|].
  - by rewrite Z.sub_diag.
  - destruct (decide (n < i)); [apply Z.testbit_neg_r; lia|]. rewrite testbit_one by lia. apply Z.eqb_neq. lia.
Qed.

Definition mask_wf (a : list Z) : Prop := length a = 16%nat /\ bytes a.

Lemma mask_wf_insert a i b : mask_wf a -> is_u8 b -> mask_wf (<[i := b]> a).
Proof. intros [Hl Hb] Hx. split; [by rewrite length_insert|by apply Forall_insert]. Qed.

Lemma BitSet_set_ok data i v : mask_wf data -> 0 <= i < 128 ->
  mask_wf (BitSet_set data i v) /\ forall k, 0 <= k < 128 -> bit_at (BitSet_set data i v) k = if k =? i then v else bit_at data k.
Proof.
  intros [Hl Hb] Hi. unfold BitSet_set, validatePos. change NumBits with 128. rewrite (proj2 (Z.leb_gt _ _)) by lia.
  split; [apply mask_wf_insert; [done|apply wrap_range; lia]|]. intros k Hk. apply byte_bit_insert; [done|done|done|]. intros n Hn.
  pose proof (bit_num_range i). rewrite in_width_wrap_testbit, (proj2 (Z.ltb_lt n 8)) by lia. cbn [andb]. destruct v.
  - rewrite Z.lor_spec, testbit_one_bit by lia. destruct (n =? getBitNum i); [apply orb_true_r|apply orb_false_r].
  - rewrite Z.land_spec, Z.lnot_spec, testbit_one_bit by lia. destruct (n =? getBitNum i); [apply andb_false_r|apply andb_true_r].
Qed.

(** A loop over the bits. *)
Lemma bit_loop (f : list Z -> Z -> list Z) (g : Z -> bool) n init :
  (forall a i, mask_wf a -> 0 <= i < 128 -> bit_at a i = false ->
    mask_wf (f a i) /\ forall k, 0 <= k < 128 -> bit_at (f a i) k = if k =? i then g i else bit_at a k) ->
  mask_wf init -> (forall k, 0 <= k < 128 -> bit_at init k = false) -> (n <= 128)%nat ->
  mask_wf (foldl f init (seqZ 0 (Z.of_nat n))) /\
  forall k, 0 <= k < 128 -> bit_at (foldl f init (seqZ 0 (Z.of_nat n))) k = if k <? Z.of_nat n then g k else false.
Proof.
  intros Hf Hw Hz. induction n as [|n IH]; intros Hn.
  { split; [done|]. intros k Hk. rewrite (proj2 (Z.ltb_ge _ _)) by lia. by apply Hz. }
  rewrite seqZ_S, foldl_snoc, Z.add_0_l. destruct (IH ltac:(lia)) as [IHw IHb].
  destruct (Hf _ (Z.of_nat n) IHw ltac:(lia)) as [Fw Fb].
  { rewrite IHb by lia. by rewrite Z.ltb_irrefl. }
  split; [done|]. intros k Hk. rewrite Fb, IHb by done. destruct (Z.eqb_spec k (Z.of_nat n)) as [->|].
  - by rewrite (proj2 (Z.ltb_lt _ _)) by lia.
  - destruct (Z.ltb_spec k (Z.of_nat n)); [rewrite (proj2 (Z.ltb_lt _ _)) by lia|rewrite (proj2 (Z.ltb_ge _ _)) by lia]; done.
Qed.

Lemma zero_mask : mask_wf (replicate NumBytes 0) /\ forall k, 0 <= k < 128 -> bit_at (replicate NumBytes 0) k = false.
Proof.
  split; [split; [done|apply Forall_replicate; split; lia]|]. intros k Hk. unfold bit_at.
  rewrite nth_lookup, lookup_replicate_2 by (apply byte_num_range; done). apply Z.bits_0.
Qed.
