(* ===== verification/NodeIDSelector.v ===== *)
(** * NodeIDSelector: which node ID a new node gets

    Models [NodeIDSelector]
    ([libuavcan/include/uavcan/protocol/dynamic_node_id_server/node_id_selector.hpp]): the search goes up from the preferred
    node ID first and then down. *)

From stdpp Require Import base list.
From S2P Require Import Prelude Transfer.
Local Open Scope Z_scope.

Section selector.
Context (is_node_id_taken : Z -> bool).

(** The two loops of [findFreeNodeID]; [n] bounds the steps. *)
Fixpoint search_up (n : nat) (candidate : Z) : option Z :=
  match n with
  | O => None
  | S n =>
    if candidate <=? NodeID.MaxRecommendedForRegularNodes then
      if negb (is_node_id_taken candidate) then Some candidate else search_up n (u8 (candidate + 1))
    else None
  end.
Fixpoint search_down (n : nat) (candidate : Z) : option Z :=
  match n with
  | O => None
  | S n =>
    if 0 <? candidate then
      if negb (is_node_id_taken candidate) then Some candidate else search_down n (u8 (candidate - 1))
    else None
  end.

(** [NodeID findFreeNodeID(const NodeID preferred) const]. *)
Definition findFreeNodeID (preferred : Z) : Z :=
  let candidate := if NodeID.isUnicast preferred then preferred else NodeID.MaxRecommendedForRegularNodes in
  match search_up 256 candidate with
  | Some nid => nid
  | None => default NodeID.default (search_down 256 candidate)
  end.

End selector.

(** ** It finds a free node ID *)

Lemma search_up_ok taken n c nid : 0 <= c -> search_up taken n c = Some nid -> c <= nid <= NodeID.MaxRecommendedForRegularNodes /\ taken nid = false.
Proof.
  revert c. induction n as [|n IH]; intros c Hc; cbn [search_up]; [done|]. change NodeID.MaxRecommendedForRegularNodes with 125 in *.
  destruct (Z.leb_spec c 125); [|done]. destruct (taken c) eqn:E; cbn [negb].
  - rewrite (wrap_small 8) by (split; lia). intros Hs. destruct (IH (c + 1) ltac:(lia) Hs). split; [lia|done].
  - intros [= <-]. split; [lia|done].
Qed.

Lemma search_down_ok taken n c : 0 <= c < 256 -> (Z.to_nat c < n)%nat ->
  match search_down taken n c with
  | Some nid => 0 < nid <= c /\ taken nid = false
  | None => forall nid, 0 < nid <= c -> taken nid = true
  end.
Proof.
  revert c. induction n as [|n IH]; intros c Hc Hn; cbn [search_down]; [lia|]. destruct (Z.ltb_spec 0 c); [|intros; lia].
  destruct (taken c) eqn:E; cbn [negb]; [|split; [lia|done]]. rewrite (wrap_small 8) by (split; lia).
  specialize (IH (c - 1) ltac:(lia) ltac:(lia)). destruct (search_down taken n (c - 1)) as [nid|].
  - destruct IH. split; [lia|done].
  - intros nid Hx. destruct (decide (nid = c)) as [->|]; [done|apply IH; lia].
Qed.

(** A free node ID is found if there is one among the recommended ones. *)
Lemma findFreeNodeID_ok taken preferred : 0 <= preferred < 256 ->
  let nid := findFreeNodeID taken preferred in
  (0 < nid <= NodeID.Max /\ taken nid = false) \/
  (nid = NodeID.default /\ forall k, 0 < k <= (if NodeID.isUnicast preferred then preferred else NodeID.MaxRecommendedForRegularNodes) -> taken k = true).
Proof.
  intros Hp. unfold findFreeNodeID.
  set (c := if NodeID.isUnicast preferred then preferred else NodeID.MaxRecommendedForRegularNodes).
  assert (Hc : 0 < c <= 127).
  { unfold c, NodeID.isUnicast. change NodeID.Max with 127. change NodeID.MaxRecommendedForRegularNodes with 125. change NodeID.ValueBroadcast with 0.
    destruct ((preferred <=? 127) && negb (preferred =? 0)) eqn:E; lia. }
  clearbody c. destruct (search_up taken 256 c) as [nid|] eqn:Eu.
  - destruct (search_up_ok taken 256 c nid ltac:(lia) Eu) as [Hr Ht]. change NodeID.MaxRecommendedForRegularNodes with 125 in Hr. change NodeID.Max with 127.
    left. split; [lia|done].
  - pose proof (search_down_ok taken 256 c ltac:(lia) ltac:(lia)) as Hd. change NodeID.Max with 127.
    destruct (search_down taken 256 c) as [nid|]; cbn [from_option id]; [left|right; done]. destruct Hd. split; [lia|done].
Qed.
