(* ===== verification/NodeDiscoverer.v ===== *)
(** * NodeDiscoverer: how an allocator hears of nodes that never asked it

    Models [NodeDiscoverer]
    ([libuavcan/include/uavcan/protocol/dynamic_node_id_server/node_discoverer.hpp]): it collects the nodes whose status
    messages it hears and the allocator does not know, asks them for their unique IDs one after
    the other, and registers them. The allocator is the class [INodeDiscoveryHandler]. The map of
    the nodes is a finite map, as [PoolMap] justifies; which of its keys [getByIndex(0)] gives is a
    parameter, and whether an insertion finds memory is an argument. *)

From stdpp Require Import gmap list.
From S2P Require Import Prelude Transfer BitSet.
Local Open Scope Z_scope.

Inductive NodeAwareness := NodeAwarenessUnknown | NodeAwarenessKnownButNotCommitted | NodeAwarenessKnownAndCommitted.
#[export] Instance NodeAwareness_eq_dec : EqDecision NodeAwareness.
Proof. solve_decision. Defined.

Class INodeDiscoveryHandler (H : Type) := {
  canDiscoverNewNodes : H -> bool;
  checkNodeAwareness : H -> Z -> NodeAwareness;
  handleNewNodeDiscovery : H -> option (list Z) -> Z -> H
}.

(** [NodeData]. *)
Record NodeData := mkNodeData { last_seen_uptime : Z; num_get_node_info_attempts : Z }.

Definition MaxAttemptsToGetNodeInfo : Z := 5.

(** The last fields are whether the timer runs, and the nodes with a pending call of
    [GetNodeInfo]. *)
Record NodeDiscoverer := mkDiscoverer {
  committed_node_mask_ : list Z;
  node_map_ : gmap Z NodeData;
  discoverer_running_ : bool;
  get_node_info_calls : list Z
}.
Definition NodeDiscoverer_make : NodeDiscoverer := mkDiscoverer BitSet_make ∅ false [].

Definition set_map (d : NodeDiscoverer) (m : gmap Z NodeData) : NodeDiscoverer :=
  mkDiscoverer (committed_node_mask_ d) m (discoverer_running_ d) (get_node_info_calls d).
Definition set_running (d : NodeDiscoverer) (b : bool) : NodeDiscoverer :=
  mkDiscoverer (committed_node_mask_ d) (node_map_ d) b (get_node_info_calls d).

(** [void removeNode(const NodeID node_id)]. *)
Definition removeNode (d : NodeDiscoverer) (node_id : Z) : NodeDiscoverer := set_map d (delete node_id (node_map_ d)).

Section discoverer.
Context {H : Type} `{INodeDiscoveryHandler H} (getByIndex0 : gmap Z NodeData -> option Z).

(** [NodeID pickNextNodeToQuery() const]. *)
Definition pickNextNodeToQuery (d : NodeDiscoverer) : Z := default NodeID.default (getByIndex0 (node_map_ d)).

(** [bool needToQuery(NodeID node_id)]. *)
Definition needToQuery (h : H) (d : NodeDiscoverer) (node_id : Z) : bool * NodeDiscoverer :=
  if BitSet_test (committed_node_mask_ d) node_id then (false, d)
  else
    match checkNodeAwareness h node_id with
    | NodeAwarenessUnknown => (true, d)
    | NodeAwarenessKnownButNotCommitted => (false, removeNode d node_id)
    | NodeAwarenessKnownAndCommitted =>
      let d := mkDiscoverer (BitSet_set (committed_node_mask_ d) node_id true) (node_map_ d) (discoverer_running_ d) (get_node_info_calls d) in
      (false, removeNode d node_id)
    end.

(** [NodeID pickNextNodeToQueryAndCleanupMap()]; [n] bounds the iterations. *)
Fixpoint pickNextNodeToQueryAndCleanupMap (h : H) (d : NodeDiscoverer) (n : nat) : option Z * NodeDiscoverer :=
  match n with
  | O => (None, d)
  | S n =>
    let node_id := pickNextNodeToQuery d in
    if NodeID.isUnicast node_id then
      let '(need, d) := needToQuery h d node_id in
      if need then (Some node_id, d) else pickNextNodeToQueryAndCleanupMap h (removeNode d node_id) n
    else (Some NodeID.default, d)
  end.

(** [void finalizeNodeDiscovery(const UniqueID* unique_id_or_null, NodeID node_id)]. *)
Definition finalizeNodeDiscovery (h : H) (d : NodeDiscoverer) (unique_id_or_null : option (list Z)) (node_id : Z) : H * NodeDiscoverer :=
  let d := removeNode d node_id in
  let '(need, d) := needToQuery h d node_id in
  (if need then handleNewNodeDiscovery h unique_id_or_null node_id else h, d).

(** [void handleGetNodeInfoResponse(const ServiceCallResult<protocol::GetNodeInfo>& result)] of a call to [server]: the unique ID, none
    if the call failed. *)
Definition handleGetNodeInfoResponse (h : H) (d : NodeDiscoverer) (server : Z) (result : option (list Z)) : H * NodeDiscoverer :=
  match result with
  | Some unique_id => finalizeNodeDiscovery h d (Some unique_id) server
  | None =>
    match node_map_ d !! server with
    | None => (h, d)
    | Some data =>
      let data := mkNodeData (last_seen_uptime data) (u8 (num_get_node_info_attempts data + 1)) in
      let d := set_map d (<[server := data]> (node_map_ d)) in
      if MaxAttemptsToGetNodeInfo <=? num_get_node_info_attempts data then finalizeNodeDiscovery h d None server else (h, d)
    end
  end.

(** [void handleTimerEvent(const TimerEvent&)]; [call_res] is the result of the call. *)
Definition Discoverer_handleTimerEvent (h : H) (d : NodeDiscoverer) (call_res : Z) : NodeDiscoverer :=
  match get_node_info_calls d with
  | _ :: _ => d
  | [] =>
    let '(picked, d) := pickNextNodeToQueryAndCleanupMap h d (S (size (node_map_ d))) in
    let node_id := default NodeID.default picked in
    if negb (NodeID.isUnicast node_id) then set_running d false
    else if negb (canDiscoverNewNodes h) then d
    else if call_res <? 0 then d
    else mkDiscoverer (committed_node_mask_ d) (node_map_ d) (discoverer_running_ d) [node_id]
  end.

(** [void handleNodeStatus(const ReceivedDataStructure<protocol::NodeStatus>& msg)] from [src]; [has_memory] is whether the map
    finds memory for a new entry. *)
Definition handleNodeStatus (h : H) (d : NodeDiscoverer) (src uptime_sec : Z) (has_memory : bool) : NodeDiscoverer :=
  let '(need, d) := needToQuery h d src in
  if negb need then d
  else
    match (match node_map_ d !! src with Some data => Some data | None => if has_memory then Some (mkNodeData 0 0) else None end) with
    | None => d
    | Some data =>
      let attempts := if uptime_sec <? last_seen_uptime data then 0 else num_get_node_info_attempts data in
      set_running (set_map d (<[src := mkNodeData uptime_sec attempts]> (node_map_ d))) true
    end.

(** [bool hasUnknownNodes() const], [uint8_t getNumUnknownNodes() const]. *)
Definition hasUnknownNodes (d : NodeDiscoverer) : bool := negb (bool_decide (node_map_ d = ∅)).
Definition getNumUnknownNodes (d : NodeDiscoverer) : Z := u8 (Z.of_nat (size (node_map_ d))).

End discoverer.

(** ** The search for the next node ends *)

Section picking.
Context {H : Type} `{INodeDiscoveryHandler H} (getByIndex0 : gmap Z NodeData -> option Z).
Context (Hpick : forall m, match getByIndex0 m with Some k => is_Some (m !! k) | None => m = ∅ end).

(** The map has node IDs only. *)
Definition map_unicast (d : NodeDiscoverer) : Prop := forall k, is_Some (node_map_ d !! k) -> NodeID.isUnicast k = true.

Lemma needToQuery_map h d nid : let '(need, d') := needToQuery h d nid in
  node_map_ d' ⊆ node_map_ d /\ (need = true -> d' = d /\ checkNodeAwareness h nid = NodeAwarenessUnknown).
Proof.
  unfold needToQuery. destruct (BitSet_test _ _); [done|]. destruct (checkNodeAwareness h nid) eqn:E; cbn; split; try done; apply delete_subseteq.
Qed.

(** Each iteration removes a node; what is left at the end is a node that the allocator does not
    know, or nothing. *)
Lemma pick_ok h n d : map_unicast d -> (size (node_map_ d) < n)%nat ->
  exists nid d', pickNextNodeToQueryAndCleanupMap getByIndex0 h d n = (Some nid, d') /\ map_unicast d' /\
    (nid = NodeID.default /\ node_map_ d' = ∅ \/ is_Some (node_map_ d' !! nid) /\ checkNodeAwareness h nid = NodeAwarenessUnknown).
Proof.
  revert d. induction n as [|n IH]; intros d Hu Hn; [lia|]. cbn [pickNextNodeToQueryAndCleanupMap]. unfold pickNextNodeToQuery.
  pose proof (Hpick (node_map_ d)) as Hp. destruct (getByIndex0 (node_map_ d)) as [k|]; cbn [from_option id].
  2:{ change (NodeID.isUnicast NodeID.default) with false. cbv iota. eauto 10. }
  rewrite (Hu k Hp). pose proof (needToQuery_map h d k) as Hq. destruct (needToQuery h d k) as [[|] d1]; destruct Hq as [Hsub Hneed].
  - destruct (Hneed eq_refl) as [-> Ha]. eauto 10.
  - apply IH.
    + intros j Hj. apply Hu. cbn in Hj. destruct Hj as [x Hx]. apply lookup_delete_Some in Hx as [_ Hx]. exists x. by eapply lookup_weaken.
    + cbn. pose proof (delete_mono _ _ k Hsub) as Hle%map_subseteq_size. destruct Hp as [x Hx].
      pose proof (map_size_delete_Some k (node_map_ d)) as Hsz. rewrite Hx in Hsz. specialize (Hsz ltac:(by eexists)).
      pose proof (map_size_ne_0_lookup_2 (node_map_ d) k ltac:(by eexists)). lia.
Qed.

End picking.
