(* ===== verification/Allocation.v ===== *)
(** * Allocation: the dialogue that gives a node its node ID

    Models [AllocationRequestManager]
    ([libuavcan/include/uavcan/protocol/dynamic_node_id_server/allocation_request_manager.hpp]) and
    [DynamicNodeIDClient] ([libuavcan/include/uavcan/protocol/dynamic_node_id_client.hpp],
    [libuavcan/src/protocol/uc_dynamic_node_id_client.cpp]). A node without an ID sends its unique ID in
    anonymous messages of a few bytes; the server answers with the bytes it has so far, and
    with the full unique ID and a node ID in the end. The constants of the data type are
    parameters. The allocator behind the manager is the class [IAllocationRequestHandler]. *)

From stdpp Require Import list strings.
From S2P Require Import Prelude MonoTime Transfer.
Local Open Scope Z_scope.

(** [protocol::dynamic_node_id::Allocation]. *)
Record Allocation := mkAllocation { al_node_id : Z; first_part_of_unique_id : bool; al_unique_id : list Z }.

(** A received message: its source, none if the transfer is anonymous, and its timestamp. *)
Record ReceivedAllocation := mkReceived { ra_msg : Allocation; ra_src : option Z; ra_timestamp : Z }.

(** What the manager needs of the allocator: the request is answered with messages to be broadcast. *)
Class IAllocationRequestHandler (H : Type) := {
  canPublishFollowupAllocationResponse : H -> bool;
  handleAllocationRequest : H -> list Z -> Z -> list Allocation * H
}.

Section allocation.
Context (unique_id_capacity MAX_LENGTH_OF_UNIQUE_ID_IN_REQUEST : nat) (FOLLOWUP_TIMEOUT_MS : Z).
Abbreviation MaxLen := MAX_LENGTH_OF_UNIQUE_ID_IN_REQUEST.

(** ** [AllocationRequestManager] *)

Record AllocationRequestManager := mkManager { last_message_timestamp_ : Z; current_unique_id_ : list Z }.
Definition AllocationRequestManager_make : AllocationRequestManager := mkManager 0 [].
Definition stage_timeout_ : Z := Duration.fromMSec FOLLOWUP_TIMEOUT_MS.

Definition InvalidStage : Z := 0.

(** [static uint8_t detectRequestStage(const Allocation& msg)]. *)
Definition detectRequestStage (msg : Allocation) : Z :=
  let size := length (al_unique_id msg) in
  if negb (size =? MaxLen)%nat && negb (size =? unique_id_capacity - MaxLen * 2)%nat && negb (size =? unique_id_capacity)%nat
  then InvalidStage
  else if first_part_of_unique_id msg then 1
  else if (size =? MaxLen)%nat then 2
  else if (size <? MaxLen)%nat then 3
  else InvalidStage.

(** [uint8_t getExpectedStage() const]. *)
Definition getExpectedStage (m : AllocationRequestManager) : Z :=
  let size := length (current_unique_id_ m) in
  if (size =? 0)%nat then 1
  else if (MaxLen * 2 <=? size)%nat then 3
  else if (MaxLen <=? size)%nat then 2
  else InvalidStage.

(** [void publishFollowupAllocationResponse()]: the message. *)
Definition publishFollowupAllocationResponse (m : AllocationRequestManager) : Allocation :=
  mkAllocation 0 false (current_unique_id_ m).

(** [int broadcastAllocationResponse(const UniqueID& unique_id, NodeID allocated_node_id)]: the message. *)
Definition broadcastAllocationResponse (unique_id : list Z) (allocated_node_id : Z) : Allocation :=
  mkAllocation allocated_node_id false unique_id.

(** [void handleAllocation(const ReceivedDataStructure<Allocation>& msg)]: the messages it broadcasts
    and the new states of the manager and of the allocator. *)
Definition Manager_handleAllocation {H} `{IAllocationRequestHandler H} (m : AllocationRequestManager) (h : H)
    (msg : ReceivedAllocation) : list Allocation * AllocationRequestManager * H :=
  match ra_src msg with
  | Some _ => ([], m, h)
  | None =>
    let m := if MTime.plus (last_message_timestamp_ m) stage_timeout_ <? ra_timestamp msg
             then mkManager (last_message_timestamp_ m) [] else m in
    let request_stage := detectRequestStage (ra_msg msg) in
    if request_stage =? InvalidStage then ([], m, h)
    else
      let expected_stage := getExpectedStage m in
      if expected_stage =? InvalidStage then ([], m, h)
      else if negb (request_stage =? expected_stage) then ([], m, h)
      else
        let max_expected_bytes := (unique_id_capacity - length (current_unique_id_ m))%nat in
        if (max_expected_bytes <? length (al_unique_id (ra_msg msg)))%nat then ([], m, h)
        else
          let m := mkManager (last_message_timestamp_ m) (current_unique_id_ m ++ al_unique_id (ra_msg msg)) in
          let '(out, m, h) :=
            if (length (current_unique_id_ m) =? unique_id_capacity)%nat then
              let '(out, h) := handleAllocationRequest h (current_unique_id_ m) (al_node_id (ra_msg msg)) in
              (out, mkManager (last_message_timestamp_ m) [], h)
            else if canPublishFollowupAllocationResponse h then ([publishFollowupAllocationResponse m], m, h)
            else ([], mkManager (last_message_timestamp_ m) [], h) in
          (out, mkManager (ra_timestamp msg) (current_unique_id_ m), h)
  end.

(** ** [DynamicNodeIDClient] *)

Context (MIN_REQUEST_PERIOD_MS MAX_REQUEST_PERIOD_MS MIN_FOLLOWUP_DELAY_MS MAX_FOLLOWUP_DELAY_MS : Z).

Inductive Mode := ModeWaitingForTimeSlot | ModeDelayBeforeFollowup.

(** The last field is the delay of the running timer, none if the client is stopped. *)
Record DynamicNodeIDClient := mkClient {
  unique_id_ : list Z;
  size_of_received_unique_id_ : nat;
  preferred_node_id_ : Z;
  allocated_node_id_ : Z;
  allocator_node_id_ : Z;
  timer_ : option Z
}.
Definition DynamicNodeIDClient_make (memory : list Z) : DynamicNodeIDClient :=
  mkClient memory 0 NodeID.default NodeID.default NodeID.default None.

Definition isAllocationComplete (c : DynamicNodeIDClient) : bool := NodeID.isUnicast (allocated_node_id_ c).

(** [void terminate()]. *)
Definition terminate (c : DynamicNodeIDClient) : DynamicNodeIDClient :=
  mkClient (unique_id_ c) (size_of_received_unique_id_ c) (preferred_node_id_ c) (allocated_node_id_ c) (allocator_node_id_ c) None.

(** [MonotonicDuration getRandomDuration(uint32_t lower_bound_msec, uint32_t upper_bound_msec)]; [rand] is the value of
    [std::rand()]. *)
Definition getRandomDuration (lower_bound_msec upper_bound_msec rand : Z) : Z :=
  Duration.fromMSec (u32 (lower_bound_msec + u32 rand mod u32 (upper_bound_msec - lower_bound_msec))).

(** [void restartTimer(const Mode mode)]. *)
Definition restartTimer (c : DynamicNodeIDClient) (mode : Mode) (rand : Z) : DynamicNodeIDClient :=
  let delay :=
    match mode with
    | ModeWaitingForTimeSlot => getRandomDuration MIN_REQUEST_PERIOD_MS MAX_REQUEST_PERIOD_MS rand
    | ModeDelayBeforeFollowup => getRandomDuration MIN_FOLLOWUP_DELAY_MS MAX_FOLLOWUP_DELAY_MS rand
    end in
  mkClient (unique_id_ c) (size_of_received_unique_id_ c) (preferred_node_id_ c) (allocated_node_id_ c) (allocator_node_id_ c) (Some delay).

Definition set_received (c : DynamicNodeIDClient) (n : nat) : DynamicNodeIDClient :=
  mkClient (unique_id_ c) n (preferred_node_id_ c) (allocated_node_id_ c) (allocator_node_id_ c) (timer_ c).

(** [void handleTimerEvent(const TimerEvent&)]: the message it broadcasts. *)
Definition Client_handleTimerEvent (c : DynamicNodeIDClient) (rand : Z) : option Allocation * DynamicNodeIDClient :=
  if isAllocationComplete c then (None, terminate c)
  else
    let size_of_unique_id_in_request := Nat.min MaxLen (unique_id_capacity - size_of_received_unique_id_ c) in
    let tx := mkAllocation (preferred_node_id_ c) (size_of_received_unique_id_ c =? 0)%nat
                (take size_of_unique_id_in_request (drop (size_of_received_unique_id_ c) (unique_id_ c))) in
    (Some tx, restartTimer (set_received c 0) ModeWaitingForTimeSlot rand).

(** [void handleAllocation(const ReceivedDataStructure<Allocation>& msg)]; [rand1] and [rand2] are what [std::rand()] gives
    for the two restarts of the timer. *)
Definition Client_handleAllocation (c : DynamicNodeIDClient) (msg : ReceivedAllocation) (rand1 rand2 : Z) : DynamicNodeIDClient :=
  if isAllocationComplete c then terminate c
  else
    let c := restartTimer (set_received c 0) ModeWaitingForTimeSlot rand1 in
    let uid := al_unique_id (ra_msg msg) in
    let full_response := (length uid =? unique_id_capacity)%nat in
    match ra_src msg with
    | None => c
    | Some src =>
      if (length uid =? 0)%nat || (full_response && (al_node_id (ra_msg msg) =? 0)) then c
      else if decide (uid = take (length uid) (unique_id_ c)) then
        if full_response then
          terminate (mkClient (unique_id_ c) (size_of_received_unique_id_ c) (preferred_node_id_ c) (al_node_id (ra_msg msg)) src (timer_ c))
        else restartTimer (set_received c (length uid)) ModeDelayBeforeFollowup rand2
      else c
    end.

(** [int start(const UniqueID& unique_id, const NodeID preferred_node_id, const TransferPriority transfer_priority)]; [node_is_unicast] is
    whether the node has an ID, [pub_res] and [sub_res] are the results of starting the publisher and
    the subscriber. *)
Definition Client_start (c : DynamicNodeIDClient) (unique_id : list Z) (preferred_node_id : Z) (node_is_unicast : bool)
    (pub_res sub_res rand : Z) : Z * DynamicNodeIDClient :=
  let c := terminate c in
  if node_is_unicast then (- ErrLogic, c)
  else
    let c := mkClient unique_id (size_of_received_unique_id_ c) (preferred_node_id_ c) (allocated_node_id_ c) (allocator_node_id_ c) (timer_ c) in
    if forallb (fun b => b =? 0) unique_id then (- ErrInvalidParam, c)
    else if negb (NodeID.isValid preferred_node_id) then (- ErrInvalidParam, c)
    else
      let c := mkClient unique_id (size_of_received_unique_id_ c) preferred_node_id NodeID.default NodeID.default (timer_ c) in
      if pub_res <? 0 then (pub_res, c)
      else if sub_res <? 0 then (sub_res, c)
      else (0, restartTimer c ModeWaitingForTimeSlot rand).

End allocation.

(** ** The dialogue *)

Section dialogue.
Context (cap MaxLen : nat) (timeout : Z) (min_req max_req min_fol max_fol : Z).
Context (Hlen : (2 * MaxLen < cap < 3 * MaxLen)%nat).
Context {H : Type} `{IAllocationRequestHandler H}.

Abbreviation Manager_handleAllocation := (Manager_handleAllocation cap MaxLen timeout).
Abbreviation Client_handleTimerEvent := (Client_handleTimerEvent cap MaxLen min_req max_req min_fol max_fol).
Abbreviation Client_handleAllocation := (Client_handleAllocation cap min_req max_req min_fol max_fol).

(** A client that has started and has no ID yet, whose last message from the server had the first
    [n] bytes of its unique ID. *)
Record waiting (c : DynamicNodeIDClient) (uid : list Z) (preferred : Z) (n : nat) : Prop := {
  wa_uid : unique_id_ c = uid;
  wa_size : size_of_received_unique_id_ c = n;
  wa_preferred : preferred_node_id_ c = preferred;
  wa_open : isAllocationComplete c = false
}.

(** A round: the timer of the client expires, the message goes to the server [srv] at the time [now], the
    answers go to the client. *)
Definition round (srv now rand : Z) (x : DynamicNodeIDClient * AllocationRequestManager * H) : DynamicNodeIDClient * AllocationRequestManager * H :=
  let '(c, m, h) := x in
  let '(tx, c) := Client_handleTimerEvent c rand in
  match tx with
  | Some tx =>
    let '(out, m, h) := Manager_handleAllocation m h (mkReceived tx None now) in
    (foldl (fun c a => Client_handleAllocation c (mkReceived a (Some srv) now) rand rand) c out, m, h)
  | None => (c, m, h)
  end.

(** The server is ready for the first part of a unique ID, or waits for the rest of [uid] after [n] bytes of it. *)
Definition expects (m : AllocationRequestManager) (uid : list Z) (n : nat) (now : Z) : Prop :=
  let timed_out := MTime.plus (last_message_timestamp_ m) (stage_timeout_ timeout) <? now in
  if (n =? 0)%nat then timed_out = true \/ current_unique_id_ m = [] else timed_out = false /\ current_unique_id_ m = take n uid.

(** The request of a waiting client. *)
Lemma client_request c uid preferred n rand :
  waiting c uid preferred n ->
  exists c', Client_handleTimerEvent c rand =
    (Some (mkAllocation preferred (n =? 0)%nat (take (Nat.min MaxLen (cap - n)) (drop n uid))), c') /\ waiting c' uid preferred 0.
Proof.
  intros [<- <- <- Ho]. unfold Allocation.Client_handleTimerEvent. rewrite Ho. eexists. split; [done|]. split; done.
Qed.

(** The part of the unique ID that stage [k] carries. *)
Lemma request_part (uid : list Z) k : length uid = cap -> (k < 3)%nat ->
  take (k * MaxLen) uid ++ take (Nat.min MaxLen (cap - k * MaxLen)) (drop (k * MaxLen) uid) = take (Nat.min cap (S k * MaxLen)) uid /\
  length (take (Nat.min MaxLen (cap - k * MaxLen)) (drop (k * MaxLen) uid)) = Nat.min MaxLen (cap - k * MaxLen).
Proof.
  intros Hl Hk. split.
  - rewrite take_take_drop. f_equal. destruct k as [|[|[|]]]; lia.
  - rewrite length_take, length_drop, Hl. lia.
Qed.

(** The manager accepts the next part of the unique ID. *)
Lemma manager_accepts m h uid preferred k now :
  length uid = cap -> (k < 3)%nat -> expects m uid (k * MaxLen) now ->
  Manager_handleAllocation m h (mkReceived (mkAllocation preferred (k * MaxLen =? 0)%nat
      (take (Nat.min MaxLen (cap - k * MaxLen)) (drop (k * MaxLen) uid))) None now) =
    if (k =? 2)%nat then
      let '(out, h) := handleAllocationRequest h uid preferred in (out, mkManager now [], h)
    else if canPublishFollowupAllocationResponse h then
      ([mkAllocation 0 false (take (S k * MaxLen) uid)], mkManager now (take (S k * MaxLen) uid), h)
    else ([], mkManager now [], h).
Proof.
  intros Hl Hk He. destruct (request_part uid k Hl Hk) as [Hcat Hpart].
  assert (Hkm : (k * MaxLen < cap)%nat) by (destruct k as [|[|[|]]]; lia).
  set (part := take (Nat.min MaxLen (cap - k * MaxLen)) (drop (k * MaxLen) uid)) in *.
  unfold Allocation.Manager_handleAllocation. cbn [ra_src ra_msg ra_timestamp].
  set (m1 := if _ <? now then _ else m).
  assert (Hm1 : current_unique_id_ m1 = take (k * MaxLen) uid).
  { subst m1. unfold expects in He. destruct k as [|k]; cbn [Nat.mul Nat.eqb] in *.
    - destruct He as [->|E]; [done|]. destruct (_ <? _); done.
    - assert (Hn : (MaxLen + k * MaxLen =? 0)%nat = false) by (apply Nat.eqb_neq; lia). rewrite Hn in He. by destruct He as [-> ->]. }
  clearbody m1. assert (Hstage : detectRequestStage cap MaxLen (mkAllocation preferred (k * MaxLen =? 0)%nat part) = Z.of_nat (S k)).
  { unfold detectRequestStage. cbn [al_unique_id first_part_of_unique_id]. rewrite Hpart.
    destruct k as [|[|[|]]]; [| | |lia]; cbn [Nat.mul Nat.eqb Nat.add].
    - rewrite Nat.sub_0_r, Nat.min_l, Nat.eqb_refl by lia. done.
    - rewrite Nat.add_0_r, Nat.min_l, Nat.eqb_refl by lia. cbn [negb andb]. rewrite (proj2 (Nat.eqb_neq MaxLen 0)) by lia. done.
    - rewrite !Nat.add_0_r, Nat.min_r by lia. rewrite (proj2 (Nat.eqb_neq (cap - (MaxLen + MaxLen)) MaxLen)) by lia.
      rewrite (proj2 (Nat.eqb_eq (cap - (MaxLen + MaxLen)) (cap - MaxLen * 2))) by lia. cbn [negb andb].
      rewrite (proj2 (Nat.eqb_neq (MaxLen + MaxLen) 0)), (proj2 (Nat.ltb_lt (cap - (MaxLen + MaxLen)) MaxLen)) by lia. done. }
  assert (Hexp : getExpectedStage MaxLen m1 = Z.of_nat (S k)).
  { unfold getExpectedStage. rewrite Hm1, length_take, Nat.min_l by lia. destruct k as [|[|[|]]]; [done| | |lia]; cbn [Nat.mul].
    - rewrite (proj2 (Nat.eqb_neq (MaxLen + 0) 0)), (proj2 (Nat.leb_gt (MaxLen * 2) (MaxLen + 0))), (proj2 (Nat.leb_le MaxLen (MaxLen + 0))) by lia. done.
    - rewrite (proj2 (Nat.eqb_neq (MaxLen + (MaxLen + 0)) 0)), (proj2 (Nat.leb_le (MaxLen * 2) (MaxLen + (MaxLen + 0)))) by lia. done. }
  rewrite Hstage, Hexp. rewrite (proj2 (Z.eqb_neq (Z.of_nat (S k)) InvalidStage)) by (unfold InvalidStage; lia). rewrite Z.eqb_refl. cbn [negb].
  cbn [al_unique_id al_node_id]. rewrite Hm1, length_take, Hpart. rewrite (proj2 (Nat.ltb_ge _ _)) by lia.
  cbn [current_unique_id_ last_message_timestamp_]. rewrite Hcat, length_take, Hl.
  destruct (Nat.eqb_spec k 2) as [->|Hne].
  - rewrite (proj2 (Nat.eqb_eq _ _)) by lia. rewrite take_ge by lia. by destruct (handleAllocationRequest h uid preferred).
  - assert (Hlt : (S k * MaxLen < cap)%nat) by (destruct k as [|[|[|]]]; lia).
    rewrite (Nat.min_r cap (S k * MaxLen)), Nat.min_l, (proj2 (Nat.eqb_neq (S k * MaxLen) cap)) by lia.
    destruct (canPublishFollowupAllocationResponse h); done.
Qed.

(** The client takes a partial answer with the start of its unique ID. *)
Lemma client_followup c uid preferred n srv now rand :
  waiting c uid preferred 0 -> length uid = cap -> (0 < n < cap)%nat ->
  waiting (Client_handleAllocation c (mkReceived (mkAllocation 0 false (take n uid)) (Some srv) now) rand rand) uid preferred n.
Proof.
  intros [<- Hs <- Ho] Hl Hn. unfold Allocation.Client_handleAllocation. rewrite Ho. cbn [ra_msg ra_src al_unique_id].
  rewrite length_take. rewrite (proj2 (Nat.eqb_neq (Nat.min n (length (unique_id_ c))) cap)), (proj2 (Nat.eqb_neq (Nat.min n (length (unique_id_ c))) 0)) by lia.
  cbn [orb andb unique_id_ restartTimer set_received]. rewrite Nat.min_l by lia. rewrite decide_True by done. split; done.
Qed.

(** C18: a client that has started, with a unique ID that takes three messages, and a server whose request manager expects a first part and
    which may publish follow-up responses (a Raft server: while it is the leader), need three rounds without lost messages, if the server
    hears no other client in between, the second and the third request come within the stage timeout of the one before and the allocator answers
    the request with a unicast node ID: the allocator is asked once, with exactly the unique ID of
    the client and its preferred node ID, and the node ID it answers with is the one the client
    takes; then the client stops. *)
Theorem three_rounds_allocate c m h uid preferred srv nid h' t1 t2 t3 rand :
  length uid = cap -> waiting c uid preferred 0 -> expects m uid 0 t1 -> canPublishFollowupAllocationResponse h = true ->
  MTime.plus t1 (stage_timeout_ timeout) <? t2 = false -> MTime.plus t2 (stage_timeout_ timeout) <? t3 = false ->
  handleAllocationRequest h uid preferred = ([broadcastAllocationResponse uid nid], h') -> NodeID.isUnicast nid = true ->
  let '(c', m', h'') := round srv t3 rand (round srv t2 rand (round srv t1 rand (c, m, h))) in
  h'' = h' /\ current_unique_id_ m' = [] /\ allocated_node_id_ c' = nid /\ allocator_node_id_ c' = srv /\ timer_ c' = None.
Proof.
  intros Hl Hw He Hcan Ht2 Ht3 Hh Hu.
  destruct (client_request c uid preferred 0 rand Hw) as (c1 & E1 & Hw1).
  pose proof (manager_accepts m h uid preferred 0 t1 Hl ltac:(lia) He) as M1. rewrite Hcan in M1. cbn [Nat.mul Nat.eqb Nat.add] in M1, E1.
  unfold round at 3. rewrite E1, M1. cbn [foldl]. rewrite Nat.add_0_r.
  pose proof (client_followup c1 uid preferred MaxLen srv t1 rand Hw1 Hl ltac:(lia)) as Hw2.
  destruct (client_request _ uid preferred MaxLen rand Hw2) as (c2 & E2 & Hw3).
  pose proof (manager_accepts (mkManager t1 (take MaxLen uid)) h uid preferred 1 t2 Hl ltac:(lia)) as M2.
  rewrite Hcan in M2. cbn [Nat.mul Nat.eqb Nat.add] in M2. rewrite !Nat.add_0_r in M2. specialize (M2 ltac:(unfold expects; rewrite (proj2 (Nat.eqb_neq MaxLen 0)) by lia; done)).
  unfold round at 2. rewrite E2, M2. cbn [foldl].
  pose proof (client_followup c2 uid preferred (MaxLen + MaxLen) srv t2 rand Hw3 Hl ltac:(lia)) as Hw4.
  destruct (client_request _ uid preferred (MaxLen + MaxLen) rand Hw4) as (c3 & E3 & Hw5).
  pose proof (manager_accepts (mkManager t2 (take (MaxLen + MaxLen) uid)) h uid preferred 2 t3 Hl ltac:(lia)) as M3.
  cbn [Nat.mul Nat.eqb Nat.add] in M3. rewrite !Nat.add_0_r in M3.
  specialize (M3 ltac:(unfold expects; rewrite (proj2 (Nat.eqb_neq (MaxLen + MaxLen) 0)) by lia; done)). rewrite Hh in M3.
  unfold round. rewrite E3, M3. cbn [foldl]. destruct Hw5 as [Eu Es Ep Eo].
  unfold Allocation.Client_handleAllocation. rewrite Eo. cbn [ra_msg ra_src al_unique_id al_node_id broadcastAllocationResponse].
  unfold NodeID.isUnicast in Hu. rewrite Hl, Nat.eqb_refl, (proj2 (Nat.eqb_neq cap 0)), (proj2 (Z.eqb_neq nid 0)) by (change NodeID.ValueBroadcast with 0 in Hu; lia).
  cbn [orb andb unique_id_ restartTimer set_received]. rewrite Eu, decide_True by (rewrite take_ge by lia; done). done.
Qed.

End dialogue.

(** A client that is started again in the middle of a dialogue keeps its position in the unique
    ID: the first message of the new attempt is not the first part. *)
Example start_keeps_the_position :
  let c := mkClient (replicate 16 1) 6 0 NodeID.default NodeID.default (Some 1000) in
  let '(res, c) := Client_start 600 1000 0 400 c (replicate 16 2) 0 false 0 0 0 in
  res = 0 /\ (Client_handleTimerEvent 16 6 600 1000 0 400 c 0).1 = Some (mkAllocation 0 false (replicate 6 2)).
Proof. vm_compute. split; reflexivity. Qed.
