(* ===== verification/StorageMarshaller.v ===== *)
(** * StorageMarshaller: values in the stable storage of the allocation server

    Models [StorageMarshaller] of
    [libuavcan/include/uavcan/protocol/dynamic_node_id_server/storage_marshaller.hpp] and the
    interface [IStorageBackend] of [storage_backend.hpp]: numbers are stored as decimal
    strings, unique IDs as hexadecimal ones, and every write is read back. The storage is
    given by the application; the class [StorageLaws] states what its documentation says:
    a write takes effect (that of an empty value may delete the key) or is ignored, a read gives the value of the key or the empty
    string, if there is none or the read failed. A storage whose reads do not fail is a
    [ReadableStorage]: the servers rely on it, since they take a failed read for a missing key. *)

From stdpp Require Import gmap strings.
From Stdlib Require Import Ascii.
From S2P Require Import Prelude.
Local Open Scope Z_scope.

(** ** The storage *)

Class IStorageBackend (St : Type) := {
  st_get : St -> string -> string;
  st_set : St -> string -> string -> St
}.

Class StorageLaws (St : Type) `{IStorageBackend St} := {
  st_data : St -> gmap string string;
  st_get_doc s k : st_get s k = default EmptyString (st_data s !! k) \/ st_get s k = EmptyString;
  st_set_ok s k v : st_data (st_set s k v) = <[k := v]> (st_data s) \/ st_data (st_set s k v) = st_data s \/
    v = EmptyString /\ st_data (st_set s k v) = delete k (st_data s)
}.

(** The reads do not fail. *)
Class ReadableStorage (St : Type) `{StorageLaws St} :=
  st_get_ok (s : St) k : st_get s k = default EmptyString (st_data s !! k).

(** A storage that never fails. *)
#[export] Instance map_storage : IStorageBackend (gmap string string) := {
  st_get s k := default EmptyString (s !! k);
  st_set s k v := <[k := v]> s
}.
#[export] Instance map_storage_laws : StorageLaws (gmap string string) := {
  st_data s := s;
  st_get_doc s k := or_introl eq_refl;
  st_set_ok s k v := or_introl eq_refl
}.
(** The writes are all performed. *)
Class ReliableStorage (St : Type) `{StorageLaws St} :=
  st_set_reliable (s : St) k v : st_data (st_set s k v) = <[k := v]> (st_data s).
#[export] Instance map_storage_reliable : ReliableStorage (gmap string string) := fun _ _ _ => eq_refl.
#[export] Instance map_storage_readable : ReadableStorage (gmap string string) := fun _ _ => eq_refl.

(** A storage that performs every write and whose reads of some keys fail. *)
Record FailingReads := mkFailingReads { fr_data : gmap string string; fr_failing : list string }.
#[export] Instance failing_reads : IStorageBackend FailingReads := {
  st_get s k := if decide (k ∈ fr_failing s) then EmptyString else default EmptyString (fr_data s !! k);
  st_set s k v := mkFailingReads (<[k := v]> (fr_data s)) (fr_failing s)
}.
#[export] Instance failing_reads_laws : StorageLaws FailingReads.
Proof. refine {| st_data := fr_data |}; [|by left]. intros s k. cbn. case_decide; auto. Defined.

(** ** Formatting *)

(** The character of a digit. *)
Definition digit_char (base_char n : Z) : ascii := ascii_of_nat (Z.to_nat (base_char + n)).

(** [appendFormatted("%llu", n)]: the digits of [n] before [acc]; a 64-bit number has at most
    twenty. *)
Fixpoint format_dec (fuel : nat) (n : Z) (acc : string) : string :=
  match fuel with
  | O => acc
  | S fuel =>
    let acc := String (digit_char 48 (n mod 10)) acc in
    if n <? 10 then acc else format_dec fuel (n / 10) acc
  end.
Definition format_llu (n : Z) : string := format_dec 20 n EmptyString.

(** [appendFormatted("%02x", byte)]. *)
Definition hex_char (n : Z) : ascii := if n <? 10 then digit_char 48 n else digit_char 97 (n - 10).
Definition format_02x (byte : Z) (acc : string) : string :=
  String (hex_char (byte / 16)) (String (hex_char (byte mod 16)) acc).

(** [static String convertUniqueIDToHex(const UniqueID& key)]. *)
Definition convertUniqueIDToHex (key : list Z) : string := foldr format_02x EmptyString key.

(** ** Parsing *)

Definition char_code (c : ascii) : Z := Z.of_nat (nat_of_ascii c).
Definition in_chars (lo hi : Z) (c : ascii) : bool := (lo <=? char_code c) && (char_code c <=? hi).

Fixpoint all_chars (p : ascii -> bool) (s : string) : bool :=
  match s with
  | EmptyString => true
  | String c s => p c && all_chars p s
  end.

(** [std::strtoull(val.c_str(), NULL, 10)] on a string of at most ten digits, which cannot
    overflow. *)
Fixpoint strtoull (x : Z) (s : string) : Z :=
  match s with
  | EmptyString => x
  | String c s => strtoull (10 * x + (char_code c - 48)) s
  end.

(** [val.convertToLowerCaseASCII()]. *)
Definition lower_char (c : ascii) : ascii := if in_chars 65 90 c then ascii_of_nat (nat_of_ascii c + 32) else c.
Fixpoint convertToLowerCaseASCII (s : string) : string :=
  match s with
  | EmptyString => EmptyString
  | String c s => String (lower_char c) (convertToLowerCaseASCII s)
  end.

(** [static uint8_t convertLowerCaseHexCharToNibble(char ch)]. *)
Definition convertLowerCaseHexCharToNibble (ch : ascii) : Z :=
  if 57 <? char_code ch then u8 (char_code ch - 97 + 10) else u8 (char_code ch - 48).

(** The conversion loop of [get(key, UniqueID&)]. *)
Fixpoint parse_hex (s : string) : list Z :=
  match s with
  | String h (String l s) =>
    u8 (Z.lor (convertLowerCaseHexCharToNibble l) (u8 (Z.shiftl (convertLowerCaseHexCharToNibble h) 4))) :: parse_hex s
  | _ => []
  end.

(** ** [StorageMarshaller] *)

Section marshaller.
Context {St : Type} `{IStorageBackend St}.

(** [int get(const String& key, uint32_t& out_value) const]: the result and [out_value]. *)
Definition get_u32 (s : St) (key : string) (out_value : Z) : Z * Z :=
  let val := st_get s key in
  match val with
  | EmptyString => (- ErrFailure, out_value)
  | _ =>
    if negb (all_chars (in_chars 48 57) val) then (- ErrFailure, out_value)
    else if (10 <? String.length val)%nat then (- ErrFailure, out_value)
    else (0, u32 (strtoull 0 val))
  end.

(** [int get(const String& key, UniqueID& out_value) const], for unique IDs of [NumBytes] bytes. *)
Definition get_uid (NumBytes : nat) (s : St) (key : string) (out_value : list Z) : Z * list Z :=
  let val := st_get s key in
  if negb (String.length val =? NumBytes * 2)%nat then (- ErrFailure, out_value)
  else
    let val := convertToLowerCaseASCII val in
    if negb (all_chars (fun c => in_chars 48 57 c || in_chars 97 102 c) val) then (- ErrFailure, out_value)
    else (0, parse_hex val).

(** [int setAndGetBack(const String& key, uint32_t& inout_value)]. *)
Definition setAndGetBack_u32 (s : St) (key : string) (inout_value : Z) : Z * Z * St :=
  let s := st_set s key (format_llu inout_value) in
  let '(res, v) := get_u32 s key inout_value in (res, v, s).

(** [int setAndGetBack(const String& key, UniqueID& inout_value)]. *)
Definition setAndGetBack_uid (NumBytes : nat) (s : St) (key : string) (inout_value : list Z) : Z * list Z * St :=
  let s := st_set s key (convertUniqueIDToHex inout_value) in
  let '(res, v) := get_uid NumBytes s key inout_value in (res, v, s).

End marshaller.

(** ** Round trips *)

Lemma digit_code b n : 0 <= b -> 0 <= n -> b + n < 256 -> char_code (digit_char b n) = b + n.
Proof. intros Hb Hn Hs. unfold char_code, digit_char. rewrite nat_ascii_embedding by lia. lia. Qed.

Lemma strtoull_format fuel n acc : 0 <= n < 10 ^ Z.of_nat fuel ->
  strtoull 0 (format_dec fuel n acc) = strtoull n acc /\
  (all_chars (in_chars 48 57) acc = true -> all_chars (in_chars 48 57) (format_dec fuel n acc) = true) /\
  (String.length (format_dec fuel n acc) <= fuel + String.length acc)%nat.
Proof.
  revert n acc. induction fuel as [|fuel IH]; intros n acc Hn; cbn [format_dec].
  - cbn in Hn. replace n with 0 by lia. split_and!; [done|done|lia].
  - rewrite Nat2Z.inj_succ, Z.pow_succ_r in Hn by lia. pose proof (Z.mod_pos_bound n 10 ltac:(lia)) as Hm.
    assert (Hc : char_code (digit_char 48 (n mod 10)) = 48 + n mod 10) by (apply digit_code; lia).
    assert (Hall : all_chars (in_chars 48 57) acc = true -> all_chars (in_chars 48 57) (String (digit_char 48 (n mod 10)) acc) = true).
    { intros Ha. cbn [all_chars]. unfold in_chars at 1. rewrite Hc, Ha. lia. }
    destruct (Z.ltb_spec n 10).
    + cbn [strtoull String.length]. rewrite Hc. split_and!; [f_equal; rewrite Z.mod_small; lia|done|lia].
    + destruct (IH (n / 10) (String (digit_char 48 (n mod 10)) acc)) as (I1 & I2 & I3).
      { split; [apply Z.div_pos; lia|apply Z.div_lt_upper_bound; lia]. }
      split_and!; [|auto|cbn [String.length] in I3; lia]. rewrite I1. cbn [strtoull]. rewrite Hc. f_equal.
      pose proof (Z.div_mod n 10). lia.
Qed.

Lemma format_dec_length fuel k n acc : (k <= fuel)%nat -> 0 <= n < 10 ^ Z.of_nat k -> (0 < k)%nat ->
  (String.length (format_dec fuel n acc) <= k + String.length acc)%nat /\ format_dec fuel n acc <> EmptyString.
Proof.
  revert k n acc. induction fuel as [|fuel IH]; intros k n acc Hk Hn Hp; [lia|]. cbn [format_dec].
  destruct (Z.ltb_spec n 10); [split; [cbn; lia|done]|]. destruct k as [|k]; [lia|]. rewrite Nat2Z.inj_succ, Z.pow_succ_r in Hn by lia.
  destruct k as [|k]; [cbn in Hn; lia|].
  destruct (IH (S k) (n / 10) (String (digit_char 48 (n mod 10)) acc)) as [I1 I2]; [lia| |lia|split; [cbn [String.length] in I1; lia|done]].
  split; [apply Z.div_pos; lia|apply Z.div_lt_upper_bound; lia].
Qed.

(** A number is read as it was formatted. *)
Lemma get_format {St} `{IStorageBackend St} (s : St) key n out :
  is_u32 n -> st_get s key = format_llu n -> get_u32 s key out = (0, n).
Proof.
  intros Hn E. unfold get_u32. rewrite E. unfold format_llu in *.
  destruct (strtoull_format 20 n EmptyString) as (H1 & H2 & _); [destruct Hn; split; [lia|]; change (10 ^ Z.of_nat 20) with 100000000000000000000; lia|].
  destruct (format_dec_length 20 10 n EmptyString) as [H3 H4]; [lia|destruct Hn; split; [lia|]; change (10 ^ Z.of_nat 10) with 10000000000; lia|lia|].
  destruct (format_dec 20 n EmptyString) as [|c t] eqn:Ef; [done|]. rewrite H2 by done. cbn [negb].
  rewrite (proj2 (Nat.ltb_ge _ _)) by (cbn [String.length] in *; lia). rewrite H1. cbn [strtoull]. f_equal. by apply wrap_small.
Qed.

Lemma hex_char_ok n : 0 <= n < 16 ->
  convertLowerCaseHexCharToNibble (hex_char n) = n /\ lower_char (hex_char n) = hex_char n /\
  in_chars 48 57 (hex_char n) || in_chars 97 102 (hex_char n) = true.
Proof.
  intros Hn. assert (Hall : forallb (fun n => (convertLowerCaseHexCharToNibble (hex_char n) =? n) && Ascii.eqb (lower_char (hex_char n)) (hex_char n) &&
    (in_chars 48 57 (hex_char n) || in_chars 97 102 (hex_char n))) (Z.of_nat <$> seq 0 16) = true) by (vm_compute; reflexivity).
  rewrite List.forallb_forall in Hall. specialize (Hall n). rewrite !andb_true_iff, Z.eqb_eq, Ascii.eqb_eq in Hall.
  destruct Hall as [[H1 H2] H3]; [|done]. apply list_elem_of_In, list_elem_of_fmap. exists (Z.to_nat n).
  split; [lia|]. apply elem_of_seq. lia.
Qed.

Lemma hex_byte b : is_u8 b -> u8 (Z.lor (b mod 16) (u8 (Z.shiftl (b / 16) 4))) = b.
Proof.
  intros Hb. change 16 with (2 ^ 4). rewrite <-(Z.land_ones b 4), <-(Z.shiftr_div_pow2 b 4) by lia.
  apply Z.bits_inj'. intros i Hi.
  rewrite in_width_wrap_testbit, Z.lor_spec, Z.land_spec, Z.testbit_ones, in_width_wrap_testbit, Z.shiftl_spec by lia.
  destruct (Z.ltb_spec i 8) as [H8|H8]; cbn [andb].
  - destruct (Z.ltb_spec i 4) as [H4|H4].
    + rewrite (Z.testbit_neg_r _ (i - 4)) by lia. rewrite (proj2 (Z.leb_le 0 i) Hi). cbn. by rewrite andb_true_r, orb_false_r.
    + rewrite Z.shiftr_spec by lia. rewrite andb_false_r, andb_false_r. cbn. f_equal. lia.
  - symmetry. by apply (in_width_testbit 8).
Qed.

Lemma convert_hex key : bytes key ->
  convertToLowerCaseASCII (convertUniqueIDToHex key) = convertUniqueIDToHex key /\
  all_chars (fun c => in_chars 48 57 c || in_chars 97 102 c) (convertUniqueIDToHex key) = true /\
  parse_hex (convertUniqueIDToHex key) = key /\ String.length (convertUniqueIDToHex key) = (length key * 2)%nat.
Proof.
  induction key as [|b key IH]; intros Hb; [done|]. apply Forall_cons in Hb as [Hb Hk]. destruct (IH Hk) as (I1 & I2 & I3 & I4).
  assert (Hb' : 0 <= b < 256) by (destruct Hb; lia).
  destruct (hex_char_ok (b / 16)) as (A1 & A2 & A3); [split; [apply Z.div_pos; lia|apply Z.div_lt_upper_bound; lia]|].
  destruct (hex_char_ok (b mod 16)) as (B1 & B2 & B3); [apply Z.mod_pos_bound; lia|].
  change (convertUniqueIDToHex (b :: key)) with (String (hex_char (b / 16)) (String (hex_char (b mod 16)) (convertUniqueIDToHex key))).
  cbn [convertToLowerCaseASCII all_chars parse_hex String.length length]. rewrite I1, I2, I3, I4, A1, A2, A3, B1, B2, B3.
  split_and!; [done|done| |lia]. by rewrite hex_byte.
Qed.

(** A unique ID is read as it was formatted. *)
Lemma get_hex {St} `{IStorageBackend St} NumBytes (s : St) key uid out :
  bytes uid -> length uid = NumBytes -> st_get s key = convertUniqueIDToHex uid -> get_uid NumBytes s key out = (0, uid).
Proof.
  intros Hb Hl E. unfold get_uid. rewrite E. destruct (convert_hex uid Hb) as (H1 & H2 & H3 & H4).
  rewrite H1, H2, H3, H4, Hl, Nat.eqb_refl. done.
Qed.

(** A number that was read has 32 bits. *)
Lemma get_u32_range {St} `{IStorageBackend St} (s : St) key out n : get_u32 s key out = (0, n) -> is_u32 n.
Proof.
  unfold get_u32. intros E. repeat case_match; try (injection E as E _; discriminate E). injection E as <-. apply wrap_range. lia.
Qed.

(** ** Writing with failures *)

(** What a storage holds for a key, as a number and as a unique ID. *)
Definition holds_u32 (d : gmap string string) (key : string) (n : Z) : Prop := forall out, get_u32 d key out = (0, n).
Definition holds_uid (NumBytes : nat) (d : gmap string string) (key : string) (uid : list Z) : Prop :=
  forall out, get_uid NumBytes d key out = (0, uid).

(** Two contents agree but for some keys. *)
Definition agree_off (keys : list string) (d d' : gmap string string) : Prop := forall k, k ∉ keys -> d' !! k = d !! k.

Lemma agree_off_refl keys d : agree_off keys d d.
Proof. by intros k _. Qed.
Lemma agree_off_insert key v (d : gmap string string) : agree_off [key] d (<[key := v]> d).
Proof. intros k Hk. rewrite lookup_insert_ne; [done|]. intros ->. apply Hk. by left. Qed.
Lemma agree_off_trans keys1 keys2 d1 d2 d3 : agree_off keys1 d1 d2 -> agree_off keys2 d2 d3 -> agree_off (keys1 ++ keys2) d1 d3.
Proof. intros H1 H2 k Hk. rewrite not_elem_of_app in Hk. rewrite H2, H1 by tauto. done. Qed.

Lemma holds_u32_agree keys d d' key n : agree_off keys d d' -> key ∉ keys -> holds_u32 d key n -> holds_u32 d' key n.
Proof. intros Ha Hk Hh out. specialize (Hh out). unfold get_u32 in *. cbn [st_get map_storage] in *. by rewrite Ha. Qed.
Lemma holds_uid_agree NumBytes keys d d' key n :
  agree_off keys d d' -> key ∉ keys -> holds_uid NumBytes d key n -> holds_uid NumBytes d' key n.
Proof. intros Ha Hk Hh out. specialize (Hh out). unfold get_uid in *. cbn [st_get map_storage] in *. by rewrite Ha. Qed.

(** On any storage, a value that was read back is in the storage. *)
Lemma read_back_is_stored {St} `{StorageLaws St} (s : St) key n : is_u32 n ->
  let '(res, v, s') := setAndGetBack_u32 s key n in res = 0 -> holds_u32 (st_data s') key v.
Proof.
  intros Hn. unfold setAndGetBack_u32. set (s' := st_set s key (format_llu n)). destruct (get_u32 s' key n) as [res v] eqn:Eg. intros -> out.
  unfold get_u32 in *. cbn [st_get map_storage]. destruct (st_get_doc s' key) as [E|E]; rewrite E in Eg; [|by cbn in Eg]. repeat case_match; done.
Qed.

Section failures.
Context {St : Type} `{ReadableStorage St}.

Lemma get_u32_data (s : St) key out : get_u32 s key out = get_u32 (st_data s) key out.
Proof. unfold get_u32. by rewrite st_get_ok. Qed.
Lemma get_uid_data NumBytes (s : St) key out : get_uid NumBytes s key out = get_uid NumBytes (st_data s) key out.
Proof. unfold get_uid. by rewrite st_get_ok. Qed.

(** A write took effect or was ignored. *)
Lemma st_set_cases (s : St) key v :
  agree_off [key] (st_data s) (st_data (st_set s key v)) /\ default EmptyString (st_data (st_set s key v) !! key) = v \/
  st_data (st_set s key v) = st_data s.
Proof.
  destruct (st_set_ok s key v) as [E|[E|[-> E]]]; [left|by right|left]; rewrite E; split.
  - apply agree_off_insert.
  - by rewrite lookup_insert_eq.
  - intros k Hk. apply lookup_delete_ne. intros ->. apply Hk. left.
  - by rewrite lookup_delete_eq.
Qed.

(** The value is in the storage when it was read back; otherwise the write was ignored. *)
Lemma setAndGetBack_u32_ok (s : St) key n : is_u32 n ->
  let '(res, v, s') := setAndGetBack_u32 s key n in
  (res = 0 /\ v = n /\ agree_off [key] (st_data s) (st_data s') /\ holds_u32 (st_data s') key n) \/
  ((res < 0 \/ v <> n) /\ res <= 0 /\ st_data s' = st_data s).
Proof.
  intros Hn. unfold setAndGetBack_u32. rewrite (get_u32_data (st_set s key (format_llu n)) key n).
  destruct (st_set_cases s key (format_llu n)) as [(A & L)|E].
  - assert (Hh : holds_u32 (st_data (st_set s key (format_llu n))) key n) by (intros out; by apply get_format).
    rewrite Hh. left. by split_and!.
  - rewrite E. destruct (get_u32 (st_data s) key n) as [res v] eqn:Eg. rewrite E.
    assert (Hcase : res = 0 \/ res < 0).
    { unfold get_u32 in Eg. repeat case_match; injection Eg as <- <-; auto; right; done. }
    destruct Hcase as [->|Hlt]; [|right; split_and!; [by left|lia|done]]. destruct (decide (v = n)) as [->|Hne].
    + left. split_and!; [done|done|apply agree_off_refl|]. intros out. unfold get_u32 in *. repeat case_match; done.
    + right. split_and!; [by right|lia|done].
Qed.

Lemma setAndGetBack_uid_ok NumBytes (s : St) key uid : bytes uid -> length uid = NumBytes ->
  let '(res, v, s') := setAndGetBack_uid NumBytes s key uid in
  (res = 0 /\ v = uid /\ agree_off [key] (st_data s) (st_data s') /\ holds_uid NumBytes (st_data s') key uid) \/
  ((res < 0 \/ v <> uid) /\ res <= 0 /\ st_data s' = st_data s).
Proof.
  intros Hb Hl. unfold setAndGetBack_uid. rewrite (get_uid_data NumBytes (st_set s key (convertUniqueIDToHex uid)) key uid).
  destruct (st_set_cases s key (convertUniqueIDToHex uid)) as [(A & L)|E].
  - assert (Hh : holds_uid NumBytes (st_data (st_set s key (convertUniqueIDToHex uid))) key uid) by (intros out; by apply get_hex).
    rewrite Hh. left. by split_and!.
  - rewrite E. destruct (get_uid NumBytes (st_data s) key uid) as [res v] eqn:Eg. rewrite E.
    assert (Hcase : res = 0 \/ res < 0).
    { unfold get_uid in Eg. repeat case_match; injection Eg as <- <-; auto; right; done. }
    destruct Hcase as [->|Hlt]; [|right; split_and!; [by left|lia|done]]. destruct (decide (v = uid)) as [->|Hne].
    + left. split_and!; [done|done|apply agree_off_refl|]. intros out. unfold get_uid in *. repeat case_match; done.
    + right. split_and!; [by right|lia|done].
Qed.

(** On a storage that also performs its writes, the value is read back. *)
Lemma setAndGetBack_u32_reliable `{!ReliableStorage St} (s : St) key n : is_u32 n -> (setAndGetBack_u32 s key n).1 = (0, n).
Proof.
  intros Hn. unfold setAndGetBack_u32. rewrite (get_format _ key n); [done|done|]. by rewrite st_get_ok, st_set_reliable, lookup_insert_eq.
Qed.
Lemma setAndGetBack_uid_reliable `{!ReliableStorage St} NumBytes (s : St) key uid : bytes uid -> length uid = NumBytes -> (setAndGetBack_uid NumBytes s key uid).1 = (0, uid).
Proof.
  intros Hb Hl. unfold setAndGetBack_uid. rewrite (get_hex NumBytes _ key uid); [done|done|done|]. by rewrite st_get_ok, st_set_reliable, lookup_insert_eq.
Qed.

End failures.
