(* ===== verification/CentralizedServer.v ===== *)
(** * CentralizedServer: the allocator that is alone on its bus

    Models the [Storage] and the [Server] of
    [libuavcan/include/uavcan/protocol/dynamic_node_id_server/centralized/]. The
    occupation mask has the type of a unique ID, so unique IDs have 16 bytes. Tracing is left
    out; the messages a handler broadcasts are part of its result. *)

From stdpp Require Import gmap strings list list_numbers.
From S2P Require Import Prelude MonoTime Transfer BitSet NodeIDSelector NodeDiscoverer StorageMarshaller Allocation.
Local Open Scope Z_scope.

(** ** [Storage] *)

Definition getOccupationMaskKey : string := "occupation_mask".

(** [static OccupationMask maskFromArray(const OccupationMaskArray& array)]; the bits are visited in
    their order. *)
Definition maskFromArray (array : list Z) : list Z :=
  foldl (fun mask i => BitSet_set mask i (negb (Z.land (nth (getByteNum i) array 0) (Z.shiftl 1 (getBitNum i)) =? 0)))
    BitSet_make (seqZ 0 NumBits).

(** [static OccupationMaskArray maskToArray(const OccupationMask& mask)]. *)
Definition maskToArray (mask : list Z) : list Z :=
  foldl (fun array i =>
    if BitSet_test mask i
    then <[getByteNum i := u8 (Z.lor (nth (getByteNum i) array 0) (u8 (Z.shiftl 1 (getBitNum i))))]> array else array)
    (replicate NumBytes 0) (seqZ 0 NumBits).

Section storage.
Context {St : Type} `{IStorageBackend St}.

(** The state of [Storage]: the backend and the mask. *)
Record Storage := mkStorage { backend_ : St; occupation_mask_ : list Z }.

(** [int init()]. *)
Definition Storage_init (s : Storage) : Z * Storage :=
  let '(_, array) := get_uid NumBytes (backend_ s) getOccupationMaskKey (replicate NumBytes 0) in
  (0, mkStorage (backend_ s) (maskFromArray array)).

(** [int add(const NodeID node_id, const UniqueID& unique_id)]. *)
Definition Storage_add (s : Storage) (node_id : Z) (unique_id : list Z) : Z * Storage :=
  if negb (NodeID.isUnicast node_id) then (- ErrInvalidParam, s)
  else
    let '(res, node_id_int, b) := setAndGetBack_u32 (backend_ s) (convertUniqueIDToHex unique_id) node_id in
    let s := mkStorage b (occupation_mask_ s) in
    if res <? 0 then (res, s)
    else if negb (node_id_int =? node_id) then (- ErrFailure, s)
    else
      let new_occupation_mask := BitSet_set (occupation_mask_ s) node_id true in
      let '(res, occupation_array, b) := setAndGetBack_uid NumBytes (backend_ s) getOccupationMaskKey (maskToArray new_occupation_mask) in
      let s := mkStorage b (occupation_mask_ s) in
      if res <? 0 then (res, s)
      else if negb (bool_decide (occupation_array = maskToArray new_occupation_mask)) then (- ErrFailure, s)
      else (0, mkStorage b new_occupation_mask).

(** [NodeID getNodeIDForUniqueID(const UniqueID& unique_id) const]. *)
Definition getNodeIDForUniqueID (b : St) (unique_id : list Z) : Z :=
  let '(_, node_id) := get_u32 b (convertUniqueIDToHex unique_id) 0 in
  if (0 <? node_id) && (node_id <=? NodeID.Max) then u8 node_id else NodeID.default.

(** [bool isNodeIDOccupied(NodeID node_id) const], [uint8_t getSize() const]. *)
Definition isNodeIDOccupied (s : Storage) (node_id : Z) : bool := BitSet_test (occupation_mask_ s) node_id.
Definition getSize (s : Storage) : Z := u8 (BitSet_count (occupation_mask_ s)).

(** ** [Server] *)

(** [void handleAllocationRequest(const UniqueID& unique_id, const NodeID preferred_node_id)]. *)
Definition Server_handleAllocationRequest (s : Storage) (unique_id : list Z) (preferred_node_id : Z) : list Allocation * Storage :=
  let existing_node_id := getNodeIDForUniqueID (backend_ s) unique_id in
  if NodeID.isValid existing_node_id then ([broadcastAllocationResponse unique_id existing_node_id], s)
  else
    let allocated_node_id := findFreeNodeID (isNodeIDOccupied s) preferred_node_id in
    if NodeID.isUnicast allocated_node_id then
      let '(res, s) := Storage_add s allocated_node_id unique_id in
      if 0 <=? res then ([broadcastAllocationResponse unique_id allocated_node_id], s) else ([], s)
    else ([], s).

(** [NodeAwareness checkNodeAwareness(NodeID node_id) const]. *)
Definition Server_checkNodeAwareness (s : Storage) (node_id : Z) : NodeAwareness :=
  if isNodeIDOccupied s node_id then NodeAwarenessKnownAndCommitted else NodeAwarenessUnknown.

(** [void handleNewNodeDiscovery(const UniqueID* unique_id_or_null, NodeID node_id)]. *)
Definition Server_handleNewNodeDiscovery (s : Storage) (unique_id_or_null : option (list Z)) (node_id : Z) : Storage :=
  if isNodeIDOccupied s node_id then s
  else (Storage_add s node_id (default (replicate NumBytes 0) unique_id_or_null)).2.

(** [int init(const UniqueID& own_unique_id, const TransferPriority priority)] on the node [self]; [manager_res] and [discoverer_res] are
    the results of starting the allocation request manager and the node discoverer. *)
Definition Server_init (s : Storage) (self : Z) (own_unique_id : list Z) (manager_res discoverer_res : Z) : Z * Storage :=
  let '(res, s) := Storage_init s in
  if res <? 0 then (res, s)
  else
    let stored_own_node_id := getNodeIDForUniqueID (backend_ s) own_unique_id in
    let '(res, s) :=
      if NodeID.isValid stored_own_node_id then
        (if negb (stored_own_node_id =? self) then (- ErrInvalidConfiguration, s) else (0, s))
      else Storage_add s self own_unique_id in
    if res <? 0 then (res, s)
    else if manager_res <? 0 then (manager_res, s)
    else if discoverer_res <? 0 then (discoverer_res, s)
    else (0, s).

Definition Server_getNumAllocations (s : Storage) : Z := getSize s.

End storage.
Arguments Storage : clear implicits.

(** The server is an allocator that always answers, and it discovers nodes. *)
#[export] Instance centralized_handler {St} `{IStorageBackend St} : IAllocationRequestHandler (Storage St) := {
  canPublishFollowupAllocationResponse _ := true;
  handleAllocationRequest := Server_handleAllocationRequest
}.
#[export] Instance centralized_discovery {St} `{IStorageBackend St} : INodeDiscoveryHandler (Storage St) := {
  canDiscoverNewNodes _ := true;
  checkNodeAwareness := Server_checkNodeAwareness;
  handleNewNodeDiscovery := Server_handleNewNodeDiscovery
}.

(** ** The mask *)

Lemma maskFromArray_ok array : mask_wf (maskFromArray array) /\ forall k, 0 <= k < 128 -> bit_at (maskFromArray array) k = bit_at array k.
Proof.
  unfold maskFromArray, BitSet_make. change (seqZ 0 NumBits) with (seqZ 0 (Z.of_nat 128)). destruct zero_mask as [Z1 Z2].
  match goal with |- context [foldl ?f _ _] => destruct (bit_loop f (bit_at array) 128 (replicate NumBytes 0)) as [L1 L2]; [|exact Z1|exact Z2|lia|] end.
  - intros a i Ha Hi _. rewrite land_one_bit by apply bit_num_range. by apply BitSet_set_ok.
  - split; [exact L1|]. intros k Hk. rewrite (L2 k Hk). by rewrite (proj2 (Z.ltb_lt _ _)) by lia.
Qed.

Lemma maskToArray_ok mask : mask_wf (maskToArray mask) /\ forall k, 0 <= k < 128 -> bit_at (maskToArray mask) k = bit_at mask k.
Proof.
  unfold maskToArray. change (seqZ 0 NumBits) with (seqZ 0 (Z.of_nat 128)). destruct zero_mask as [Z1 Z2].
  match goal with |- context [foldl ?f _ _] => destruct (bit_loop f (bit_at mask) 128 (replicate NumBytes 0)) as [L1 L2]; [|exact Z1|exact Z2|lia|] end.
  - intros a i Ha Hi Hz. rewrite BitSet_test_bit. destruct (bit_at mask i).
    + split; [apply mask_wf_insert; [done|apply wrap_range; lia]|]. intros k Hk. apply byte_bit_insert; [apply Ha|done|done|]. intros n Hn.
      pose proof (bit_num_range i). rewrite in_width_wrap_testbit, Z.lor_spec, in_width_wrap_testbit, testbit_one_bit, (proj2 (Z.ltb_lt n 8)) by lia.
      cbn [andb]. destruct (n =? getBitNum i); [apply orb_true_r|apply orb_false_r].
    + split; [done|]. intros k Hk. destruct (Z.eqb_spec k i) as [->|]; done.
  - split; [exact L1|]. intros k Hk. rewrite (L2 k Hk). by rewrite (proj2 (Z.ltb_lt _ _)) by lia.
Qed.

(** ** What the storage promises *)

Section server.
Context {St : Type} `{ReliableStorage St} `{!ReadableStorage St}.

Definition uid_wf (uid : list Z) : Prop := bytes uid /\ length uid = NumBytes.

Lemma uid_key_length uid : uid_wf uid -> String.length (convertUniqueIDToHex uid) = 32%nat.
Proof. intros [Hb Hl]. destruct (convert_hex uid Hb) as (_ & _ & _ & ->). by rewrite Hl. Qed.

Lemma uid_key_neq uid : uid_wf uid -> convertUniqueIDToHex uid <> getOccupationMaskKey.
Proof. intros Hu E. pose proof (uid_key_length uid Hu) as Hl. rewrite E in Hl. discriminate Hl. Qed.

Lemma uid_key_inj uid uid' : uid_wf uid -> uid_wf uid' -> convertUniqueIDToHex uid = convertUniqueIDToHex uid' -> uid = uid'.
Proof. intros [Hb _] [Hb' _] E. destruct (convert_hex uid Hb) as (_ & _ & <- & _). destruct (convert_hex uid' Hb') as (_ & _ & <- & _). by rewrite E. Qed.

(** Each node ID that was ever given out or discovered has an owner, the unique ID it was stored
    for first; it is marked in the mask, in memory and in the storage, and whatever unique ID the
    storage maps to it is its owner. *)
Record server_inv (owner : gmap Z (list Z)) (s : Storage St) : Prop := {
  sv_mask : mask_wf (occupation_mask_ s);
  sv_stored : exists r array, get_uid NumBytes (st_data (backend_ s)) getOccupationMaskKey (replicate NumBytes 0) = (r, array) /\
    forall k, 0 <= k < 128 -> bit_at array k = bit_at (occupation_mask_ s) k;
  sv_owner n uid : owner !! n = Some uid -> 0 < n <= NodeID.Max /\ bit_at (occupation_mask_ s) n = true;
  sv_entries uid : uid_wf uid -> NodeID.isValid (getNodeIDForUniqueID (backend_ s) uid) = true ->
    owner !! getNodeIDForUniqueID (backend_ s) uid = Some uid
}.

(** The entry of a unique ID depends on its key only. *)
Lemma node_id_data (b b' : St) uid :
  st_data b' !! convertUniqueIDToHex uid = st_data b !! convertUniqueIDToHex uid -> getNodeIDForUniqueID b' uid = getNodeIDForUniqueID b uid.
Proof. intros E. unfold getNodeIDForUniqueID, get_u32. by rewrite !st_get_ok, E. Qed.

Lemma node_id_stored (b : St) uid nid : 0 < nid <= NodeID.Max ->
  st_data b !! convertUniqueIDToHex uid = Some (format_llu nid) -> getNodeIDForUniqueID b uid = nid.
Proof.
  intros Hn E. change NodeID.Max with 127 in Hn. unfold getNodeIDForUniqueID.
  rewrite (get_format b (convertUniqueIDToHex uid) nid 0); [|split; lia|by rewrite st_get_ok, E].
  change NodeID.Max with 127. rewrite (proj2 (Z.ltb_lt _ _)), (proj2 (Z.leb_le _ _)) by lia. apply wrap_small. split; lia.
Qed.

(** With such a storage a new entry is always added. *)
Lemma Storage_add_ok owner s nid uid :
  server_inv owner s -> 0 < nid <= NodeID.Max -> owner !! nid = None -> uid_wf uid ->
  exists s', Storage_add s nid uid = (0, s') /\ server_inv (<[nid := uid]> owner) s' /\
    getNodeIDForUniqueID (backend_ s') uid = nid /\
    (forall uid', uid_wf uid' -> uid' <> uid -> getNodeIDForUniqueID (backend_ s') uid' = getNodeIDForUniqueID (backend_ s) uid').
Proof.
  intros [I1 I2 I3 I4] Hn Hno Hu. pose proof Hn as Hn'. change NodeID.Max with 127 in Hn'. unfold Storage_add.
  assert (Hun : NodeID.isUnicast nid = true) by (unfold NodeID.isUnicast; change NodeID.ValueBroadcast with 0; lia). rewrite Hun. cbn [negb].
  unfold setAndGetBack_u32. set (key := convertUniqueIDToHex uid).
  rewrite (get_format _ key nid); [|split; lia|by rewrite st_get_ok, st_set_reliable, lookup_insert_eq].
  cbn [Z.ltb Z.compare]. rewrite Z.eqb_refl. cbn [negb backend_ occupation_mask_].
  set (b1 := st_set (backend_ s) key (format_llu nid)). set (mask := BitSet_set (occupation_mask_ s) nid true).
  destruct (BitSet_set_ok (occupation_mask_ s) nid true I1 ltac:(lia)) as [Mw Mb]. fold mask in Mw, Mb.
  destruct (maskToArray_ok mask) as [[Al Ab] At]. unfold setAndGetBack_uid.
  rewrite (get_hex NumBytes _ getOccupationMaskKey (maskToArray mask) _ Ab Al); [|by rewrite st_get_ok, st_set_reliable, lookup_insert_eq].
  cbn [Z.ltb Z.compare]. rewrite bool_decide_true by done. cbn [negb].
  set (b2 := st_set b1 getOccupationMaskKey (convertUniqueIDToHex (maskToArray mask))).
  assert (Hd : st_data b2 = <[getOccupationMaskKey := convertUniqueIDToHex (maskToArray mask)]> (<[key := format_llu nid]> (st_data (backend_ s)))).
  { unfold b2, b1. by rewrite !st_set_reliable. }
  assert (Hnew : getNodeIDForUniqueID b2 uid = nid).
  { apply node_id_stored; [done|]. rewrite Hd, lookup_insert_ne by (apply not_eq_sym, uid_key_neq, Hu). apply lookup_insert_eq. }
  assert (Hold : forall uid', uid_wf uid' -> uid' <> uid -> getNodeIDForUniqueID b2 uid' = getNodeIDForUniqueID (backend_ s) uid').
  { intros uid' Hu' Hne. apply node_id_data. rewrite Hd, !lookup_insert_ne; [done| |apply not_eq_sym, uid_key_neq, Hu'].
    intros E. apply Hne. symmetry. by apply uid_key_inj. }
  eexists. split; [done|]. cbn [backend_]. split; [|by split]. split; cbn [backend_ occupation_mask_].
  - done.
  - exists 0, (maskToArray mask). split; [|exact At]. apply get_hex; [done|done|]. rewrite Hd. cbn. by rewrite lookup_insert_eq.
  - intros n uid' [[<- <-]|[Hne Hl]]%lookup_insert_Some; [split; [done|]; rewrite Mb by lia; by rewrite Z.eqb_refl|].
    destruct (I3 n uid' Hl) as [Hr Hb]. change NodeID.Max with 127 in Hr. split; [done|]. rewrite Mb by lia. by destruct (n =? nid).
  - intros uid' Hu' Hv. destruct (decide (uid' = uid)) as [->|Hne]; [rewrite Hnew; apply lookup_insert_eq|].
    rewrite (Hold uid' Hu' Hne) in *. specialize (I4 uid' Hu' Hv). rewrite lookup_insert_ne; [done|]. intros E. rewrite E, I4 in Hno. done.
Qed.

(** A free node ID has no owner. *)
Lemma free_no_owner owner s nid : server_inv owner s -> isNodeIDOccupied s nid = false -> owner !! nid = None.
Proof.
  intros I Hf. destruct (owner !! nid) as [uid|] eqn:E; [|done]. destruct (sv_owner _ _ I nid uid E) as [_ Hb].
  unfold isNodeIDOccupied in Hf. rewrite BitSet_test_bit in Hf. congruence.
Qed.

(** The answer to a request is the entry of the unique ID, and its owner is that unique ID. *)
Lemma Server_request_ok owner s uid preferred :
  server_inv owner s -> uid_wf uid -> 0 <= preferred < 256 ->
  let '(out, s') := Server_handleAllocationRequest s uid preferred in
  exists owner', server_inv owner' s' /\ owner ⊆ owner' /\
    (forall uid', uid_wf uid' -> NodeID.isValid (getNodeIDForUniqueID (backend_ s) uid') = true ->
      getNodeIDForUniqueID (backend_ s') uid' = getNodeIDForUniqueID (backend_ s) uid') /\
    (out = [] \/ exists nid, out = [broadcastAllocationResponse uid nid] /\ owner' !! nid = Some uid /\ getNodeIDForUniqueID (backend_ s') uid = nid).
Proof.
  intros I Hu Hp. unfold Server_handleAllocationRequest. destruct (NodeID.isValid (getNodeIDForUniqueID (backend_ s) uid)) eqn:Ev.
  { exists owner. split_and!; [done|done|done|right]. eexists. split_and!; [done|by apply (sv_entries _ _ I)|done]. }
  destruct (findFreeNodeID_ok (isNodeIDOccupied s) preferred Hp) as [[Hr Hf]|[-> _]]; [|exists owner; split_and!; auto].
  set (nid := findFreeNodeID (isNodeIDOccupied s) preferred) in *. clearbody nid.
  assert (Hun : NodeID.isUnicast nid = true) by (unfold NodeID.isUnicast; change NodeID.ValueBroadcast with 0; lia). rewrite Hun.
  destruct (Storage_add_ok owner s nid uid I Hr (free_no_owner _ _ _ I Hf) Hu) as (s' & -> & I' & En & Eo). cbn [Z.leb Z.compare].
  exists (<[nid := uid]> owner). split_and!; [done|apply insert_subseteq, (free_no_owner _ _ _ I Hf)| |].
  - intros uid' Hu' Hv. apply Eo; [done|]. intros ->. congruence.
  - right. exists nid. split_and!; [done|apply lookup_insert_eq|done].
Qed.

(** Reading the mask back. *)
Lemma Storage_init_ok owner s junk : server_inv owner s -> exists s', Storage_init (mkStorage (backend_ s) junk) = (0, s') /\ server_inv owner s' /\ backend_ s' = backend_ s.
Proof.
  intros [I1 (r & array & E & Eb) I3 I4]. unfold Storage_init. cbn [backend_]. rewrite get_uid_data, E. destruct (maskFromArray_ok array) as [Mw Mb].
  assert (Hbits : forall k, 0 <= k < 128 -> bit_at (maskFromArray array) k = bit_at (occupation_mask_ s) k) by (intros k Hk; by rewrite Mb, Eb).
  eexists. split; [done|]. split; [|done]. split; cbn [backend_ occupation_mask_]; [done| | |done].
  - exists r, array. split; [done|]. intros k Hk. by rewrite Mb.
  - intros n uid Hl. destruct (I3 n uid Hl) as [Hr Hb]. split; [done|]. rewrite Hbits; [done|]. change NodeID.Max with 127 in Hr. lia.
Qed.

(** ** The life of a server *)

Context (self : Z) (own_unique_id : list Z).

(** The server starts on an empty storage, answers requests, hears of other nodes, and restarts; the
    last argument lists the unique IDs and node IDs of its answers. *)
Inductive server_reachable : Storage St -> list (list Z * Z) -> Prop :=
  | server_first_start b junk manager_res discoverer_res s :
      st_data b = ∅ -> Server_init (mkStorage b junk) self own_unique_id manager_res discoverer_res = (0, s) -> server_reachable s []
  | server_request s l uid preferred out s' :
      server_reachable s l -> uid_wf uid -> 0 <= preferred < 256 -> Server_handleAllocationRequest s uid preferred = (out, s') ->
      server_reachable s' (((fun a => (al_unique_id a, al_node_id a)) <$> out) ++ l)
  | server_discovery s l uid nid :
      server_reachable s l -> (forall u, uid = Some u -> uid_wf u) -> 0 <= nid < 256 -> server_reachable (Server_handleNewNodeDiscovery s uid nid) l
  | server_restart s l junk manager_res discoverer_res s' :
      server_reachable s l -> Server_init (mkStorage (backend_ s) junk) self own_unique_id manager_res discoverer_res = (0, s') -> server_reachable s' l.

Context (Hself : 0 < self <= NodeID.Max) (Hown : uid_wf own_unique_id).

Lemma init_result (res : Z) (s : Storage St) manager_res discoverer_res s' :
  (if res <? 0 then (res, s) else if manager_res <? 0 then (manager_res, s) else if discoverer_res <? 0 then (discoverer_res, s) else (0, s)) = (0, s') ->
  0 <= res /\ s' = s.
Proof.
  destruct (Z.ltb_spec res 0); [intros [= -> ->]; lia|]. destruct (Z.ltb_spec manager_res 0); [intros [= -> ->]; lia|].
  destruct (Z.ltb_spec discoverer_res 0); [intros [= -> ->]; lia|]. intros [= ->]. done.
Qed.

Lemma blank_entry (b : St) uid : st_data b = ∅ -> getNodeIDForUniqueID b uid = NodeID.default.
Proof. intros E. unfold getNodeIDForUniqueID, get_u32. rewrite st_get_ok, E. done. Qed.

Lemma blank_inv (b : St) junk : st_data b = ∅ -> exists s, Storage_init (mkStorage b junk) = (0, s) /\ server_inv ∅ s /\ backend_ s = b.
Proof.
  intros E. unfold Storage_init, get_uid. cbn [backend_]. rewrite st_get_ok, E. cbn.
  destruct (maskFromArray_ok (replicate NumBytes 0)) as [Mw Mb]. eexists. split; [done|]. split; [|done]. split; cbn [backend_ occupation_mask_].
  - exact Mw.
  - exists (- ErrFailure), (replicate NumBytes 0). split; [by rewrite E|]. intros k Hk. symmetry. by apply Mb.
  - done.
  - intros uid _. by rewrite (blank_entry b uid E).
Qed.

Lemma server_reachable_inv s l : server_reachable s l ->
  exists owner, server_inv owner s /\ (forall uid n, (uid, n) ∈ l -> owner !! n = Some uid) /\
    owner !! self = Some own_unique_id /\ NodeID.isValid (getNodeIDForUniqueID (backend_ s) own_unique_id) = true.
Proof.
  induction 1 as [b junk mr dr s Hb Hi|s l uid preferred out s' _ IH Hu Hp Hr|s l uid nid _ IH Hu Hn|s l junk mr dr s' _ IH Hi].
  - unfold Server_init in Hi. destruct (blank_inv b junk Hb) as (s0 & E & I & Eb). rewrite E in Hi. cbn [Z.ltb Z.compare] in Hi.
    rewrite Eb, (blank_entry b _ Hb) in Hi. change (NodeID.isValid NodeID.default) with false in Hi. cbn iota in Hi.
    destruct (Storage_add_ok ∅ s0 self own_unique_id I Hself (lookup_empty _) Hown) as (s1 & E1 & I1 & En & _). rewrite E1 in Hi.
    apply init_result in Hi as [_ ->]. exists (<[self := own_unique_id]> ∅). split_and!; [done|by intros ? ? ?%elem_of_nil|apply lookup_insert_eq|].
    rewrite En. unfold NodeID.isValid. lia.
  - destruct IH as (owner & I & Hl & Ho & Hv). pose proof (Server_request_ok owner s uid preferred I Hu Hp) as Hx. rewrite Hr in Hx.
    destruct Hx as (owner' & I' & Hsub & Hkeep & Hout). exists owner'. split_and!; [done| |by eapply lookup_weaken|by rewrite Hkeep].
    intros u n [Hx|Hx]%elem_of_app; [|eapply lookup_weaken; [by apply Hl|done]].
    destruct Hout as [->|(nid & -> & Hox & _)]; [by apply elem_of_nil in Hx|]. apply list_elem_of_singleton in Hx. injection Hx as -> ->. done.
  - destruct IH as (owner & I & Hl & Ho & Hv). unfold Server_handleNewNodeDiscovery. destruct (isNodeIDOccupied s nid) eqn:Eo; [eauto 10|].
    assert (Hu' : uid_wf (default (replicate NumBytes 0) uid)).
    { destruct uid as [u|]; [by apply Hu|]. split; [apply Forall_replicate; split; lia|done]. }
    pose proof (free_no_owner _ _ _ I Eo) as Hno. destruct (decide (0 < nid <= NodeID.Max)) as [Hr|Hr].
    + destruct (Storage_add_ok owner s nid _ I Hr Hno Hu') as (s' & -> & I' & En & Ekeep). cbn [snd].
      exists (<[nid := default (replicate NumBytes 0) uid]> owner). split_and!; [done| | |].
      * intros u n Hx. rewrite lookup_insert_ne; [by apply Hl|]. intros ->. rewrite (Hl _ _ Hx) in Hno. done.
      * rewrite lookup_insert_ne; [done|]. intros ->. congruence.
      * destruct (decide (own_unique_id = default (replicate NumBytes 0) uid)) as [E|Hne]; [|by rewrite Ekeep].
        rewrite E, En. unfold NodeID.isValid. lia.
    + unfold Storage_add. assert (Hun : NodeID.isUnicast nid = false).
      { unfold NodeID.isUnicast. change NodeID.Max with 127 in *. change NodeID.ValueBroadcast with 0. lia. }
      rewrite Hun. cbn [negb snd]. eauto 10.
  - destruct IH as (owner & I & Hl & Ho & Hv). unfold Server_init in Hi. destruct (Storage_init_ok owner s junk I) as (s1 & E & I1 & Eb). rewrite E in Hi.
    cbn [Z.ltb Z.compare] in Hi. rewrite Eb, Hv in Hi. exists owner.
    assert (s' = s1) as ->; [|rewrite Eb; eauto]. destruct (negb _); [|by apply init_result in Hi as [_ ->]]. by apply init_result in Hi as [? _].
Qed.

End server.

(** ** Clients *)

(** A client takes a node ID only from an answer that carries its whole unique ID. *)
Lemma client_takes_own_answer cap min_req max_req min_fol max_fol c msg rand1 rand2 :
  isAllocationComplete c = false -> length (unique_id_ c) = cap ->
  let c' := Client_handleAllocation cap min_req max_req min_fol max_fol c msg rand1 rand2 in
  unique_id_ c' = unique_id_ c /\
  (isAllocationComplete c' = true -> al_unique_id (ra_msg msg) = unique_id_ c /\ allocated_node_id_ c' = al_node_id (ra_msg msg)).
Proof.
  intros Ho Hl. unfold Client_handleAllocation. rewrite Ho. unfold isAllocationComplete in *. destruct (ra_src msg) as [src|]; [|split; [done|cbn; congruence]].
  destruct (_ || _); [split; [done|cbn; congruence]|]. cbn [unique_id_ restartTimer set_received]. case_decide as E; [|split; [done|cbn; congruence]].
  destruct (Nat.eqb_spec (length (al_unique_id (ra_msg msg))) cap) as [El|]; [|split; [done|cbn; congruence]]. split; [done|]. intros _.
  split; [|done]. rewrite E, El, take_ge by lia. done.
Qed.

(** What a client that is still waiting makes of an answer that completes it. *)
Definition completes (min_req max_req min_fol max_fol : Z) (c : DynamicNodeIDClient) (msg : ReceivedAllocation) (rand1 rand2 nid : Z) : Prop :=
  isAllocationComplete c = false /\ uid_wf (unique_id_ c) /\
  let c' := Client_handleAllocation NumBytes min_req max_req min_fol max_fol c msg rand1 rand2 in
  isAllocationComplete c' = true /\ allocated_node_id_ c' = nid.

(** C17: a centralized server never gives the same node ID to two nodes, nor its own to another
    node: through requests, discoveries and restarts, on a storage that performs its writes and
    whose reads do not fail, two clients with different unique IDs that complete with answers of the server take
    different node IDs. *)
Theorem clients_get_different_node_ids {St} `{ReliableStorage St} `{!ReadableStorage St} self own (s : Storage St) l
    min_req max_req min_fol max_fol c1 c2 msg1 msg2 ra1 rb1 ra2 rb2 n1 n2 :
  0 < self <= NodeID.Max -> uid_wf own -> server_reachable self own s l ->
  (al_unique_id (ra_msg msg1), al_node_id (ra_msg msg1)) ∈ l -> (al_unique_id (ra_msg msg2), al_node_id (ra_msg msg2)) ∈ l ->
  completes min_req max_req min_fol max_fol c1 msg1 ra1 rb1 n1 -> completes min_req max_req min_fol max_fol c2 msg2 ra2 rb2 n2 ->
  unique_id_ c1 <> unique_id_ c2 ->
  n1 <> n2 /\ (unique_id_ c1 <> own -> n1 <> self).
Proof.
  intros Hself Hown Hr M1 M2 (O1 & W1 & C1 & <-) (O2 & W2 & C2 & <-) Hne.
  destruct (server_reachable_inv self own Hself Hown s l Hr) as (owner & _ & Hl & Ho & _).
  destruct (client_takes_own_answer NumBytes min_req max_req min_fol max_fol c1 msg1 ra1 rb1 O1 (proj2 W1)) as [_ K1].
  destruct (client_takes_own_answer NumBytes min_req max_req min_fol max_fol c2 msg2 ra2 rb2 O2 (proj2 W2)) as [_ K2].
  destruct (K1 C1) as [U1 ->]. destruct (K2 C2) as [U2 ->]. apply Hl in M1, M2. rewrite U1 in M1. rewrite U2 in M2. split.
  - intros E. rewrite E, M2 in M1. injection M1 as E'. by apply Hne.
  - intros Hd E. rewrite E, Ho in M1. injection M1 as E'. by apply Hd.
Qed.

(** ** Examples *)

Definition example_own : list Z := replicate 16 1.
Definition example_uid (b : Z) : list Z := replicate 16 b.

Lemma example_uid_wf b : is_u8 b -> uid_wf (example_uid b).
Proof. intros Hb. split; [by apply Forall_replicate|done]. Qed.

(** A server with the node ID 10 on an empty storage, two requests with the same preference, a
    discovered node and a restart in between. *)
Definition example_s0 : Storage (gmap string string) := (Server_init (mkStorage ∅ []) 10 example_own 0 0).2.
Definition example_r1 := Server_handleAllocationRequest example_s0 (example_uid 2) 10.
Definition example_s2 := Server_handleNewNodeDiscovery example_r1.2 (Some (example_uid 7)) 12.
Definition example_s3 := (Server_init (mkStorage (backend_ example_s2) []) 10 example_own 0 0).2.
Definition example_r4 := Server_handleAllocationRequest example_s3 (example_uid 3) 10.

Lemma example_init_0 : Server_init (mkStorage (∅ : gmap string string) []) 10 example_own 0 0 = (0, example_s0).
Proof. apply injective_projections; [vm_compute; reflexivity|reflexivity]. Qed.
Lemma example_init_3 : Server_init (mkStorage (backend_ example_s2) []) 10 example_own 0 0 = (0, example_s3).
Proof. apply injective_projections; [vm_compute; reflexivity|reflexivity]. Qed.

Definition example_answers : list (list Z * Z) := [(example_uid 3, 13); (example_uid 2, 11)].

Lemma example_centralized_reachable : server_reachable 10 example_own example_r4.2 example_answers.
Proof.
  pose proof (server_first_start 10 example_own (∅ : gmap string string) [] 0 0 example_s0 eq_refl example_init_0) as R0.
  pose proof (server_request 10 example_own example_s0 [] (example_uid 2) 10 example_r1.1 example_r1.2 R0 (example_uid_wf 2 ltac:(split; lia)) ltac:(lia)
    (surjective_pairing _)) as R1.
  pose proof (server_discovery 10 example_own example_r1.2 _ (Some (example_uid 7)) 12 R1 ltac:(intros u [= <-]; apply example_uid_wf; split; lia) ltac:(lia)) as R2.
  pose proof (server_restart 10 example_own example_s2 _ [] 0 0 example_s3 R2 example_init_3) as R3.
  pose proof (server_request 10 example_own example_s3 _ (example_uid 3) 10 example_r4.1 example_r4.2 R3 (example_uid_wf 3 ltac:(split; lia)) ltac:(lia)
    (surjective_pairing _)) as R4.
  assert (E : ((fun a => (al_unique_id a, al_node_id a)) <$> example_r4.1) ++ ((fun a => (al_unique_id a, al_node_id a)) <$> example_r1.1) ++ [] = example_answers)
    by (vm_compute; reflexivity).
  by rewrite E in R4.
Qed.

Definition example_client (b : Z) : DynamicNodeIDClient :=
  (Client_start 100 200 0 400 (DynamicNodeIDClient_make []) (example_uid b) 10 false 0 0 0).2.
Definition example_answer (b nid : Z) : ReceivedAllocation := mkReceived (broadcastAllocationResponse (example_uid b) nid) (Some 10) 5000000.

Lemma clients_get_different_node_ids_witness :
  completes 100 200 0 400 (example_client 2) (example_answer 2 11) 0 0 11 /\
  completes 100 200 0 400 (example_client 3) (example_answer 3 13) 0 0 13 /\ 11 <> 13.
Proof.
  assert (C1 : completes 100 200 0 400 (example_client 2) (example_answer 2 11) 0 0 11).
  { split; [reflexivity|]. split; [apply (example_uid_wf 2); split; lia|]. vm_compute. split; reflexivity. }
  assert (C2 : completes 100 200 0 400 (example_client 3) (example_answer 3 13) 0 0 13).
  { split; [reflexivity|]. split; [apply (example_uid_wf 3); split; lia|]. vm_compute. split; reflexivity. }
  split; [exact C1|]. split; [exact C2|].
  refine (proj1 (clients_get_different_node_ids 10 example_own example_r4.2 example_answers 100 200 0 400
    (example_client 2) (example_client 3) (example_answer 2 11) (example_answer 3 13) 0 0 0 0 11 13 _ _ example_centralized_reachable _ _ C1 C2 _)).
  - change NodeID.Max with 127. lia.
  - apply (example_uid_wf 1). split; lia.
  - right. left.
  - left.
  - vm_compute. discriminate.
Defined.

(** ** Where allocations are not unique *)

(** A storage that ignores the writes a list says. *)
Record SkippingStorage := mkSkipping { ss_data : gmap string string; ss_ignored : list bool }.
#[export] Instance skipping_storage : IStorageBackend SkippingStorage := {
  st_get s k := default EmptyString (ss_data s !! k);
  st_set s k v :=
    match ss_ignored s with
    | true :: l => mkSkipping (ss_data s) l
    | _ :: l => mkSkipping (<[k := v]> (ss_data s)) l
    | [] => mkSkipping (<[k := v]> (ss_data s)) []
    end
}.
#[export] Instance skipping_storage_laws : StorageLaws SkippingStorage.
Proof. refine {| st_data := ss_data |}; [by left|]. intros [d [|[|] l]] k v; cbn; auto. Defined.

(** If the write of the mask is ignored once, the entry of the unique ID stays. The next request
    with that unique ID is answered from it, and so the node ID is given out twice. *)
Example interrupted_add_allocates_twice :
  let '(res, s) := Server_init (mkStorage (mkSkipping ∅ [false; false; false; true]) []) 10 example_own 0 0 in
  res = 0 /\
  let '(out1, s) := Server_handleAllocationRequest s (example_uid 2) 20 in out1 = [] /\
  let '(out2, s) := Server_handleAllocationRequest s (example_uid 3) 20 in out2 = [broadcastAllocationResponse (example_uid 3) 20] /\
  let '(out3, s) := Server_handleAllocationRequest s (example_uid 2) 20 in out3 = [broadcastAllocationResponse (example_uid 2) 20].
Proof. vm_compute. split_and!; reflexivity. Qed.

(** If the mask cannot be read when the server starts, the start succeeds with no node ID taken, and a node ID is given out twice. *)
Example failed_read_of_the_mask_allocates_twice :
  let '(_, s) := Server_init (mkStorage (∅ : gmap string string) []) 10 example_own 0 0 in
  let '(out1, s) := Server_handleAllocationRequest s (example_uid 2) 20 in out1 = [broadcastAllocationResponse (example_uid 2) 20] /\
  let '(res, s) := Server_init (mkStorage (mkFailingReads (backend_ s) [getOccupationMaskKey]) []) 10 example_own 0 0 in res = 0 /\
  let '(out2, s) := Server_handleAllocationRequest (mkStorage (mkFailingReads (fr_data (backend_ s)) []) (occupation_mask_ s)) (example_uid 3) 20 in
  out2 = [broadcastAllocationResponse (example_uid 3) 20].
Proof. vm_compute. split_and!; reflexivity. Qed.

(** A server that is replaced by one with another unique ID and a node ID that was given out
    takes that node ID for itself. *)
Example init_takes_a_node_id_given_out :
  let '(_, s) := Server_init (mkStorage (∅ : gmap string string) []) 10 example_own 0 0 in
  let '(out, s) := Server_handleAllocationRequest s (example_uid 2) 20 in out = [broadcastAllocationResponse (example_uid 2) 20] /\
  let '(res, s) := Server_init (mkStorage (backend_ s) []) 20 (example_uid 9) 0 0 in
  res = 0 /\ getNodeIDForUniqueID (backend_ s) (example_uid 9) = 20 /\ getNodeIDForUniqueID (backend_ s) (example_uid 2) = 20.
Proof. vm_compute. split_and!; reflexivity. Qed.

(** ** A whole dialogue with the server *)

(** The theorem on the dialogue, for a client of the server of the example. *)
Lemma three_rounds_allocate_witness :
  let '(c, m, s) := round 16 6 500 100 200 0 400 10 2000000 0 (round 16 6 500 100 200 0 400 10 1500000 0
      (round 16 6 500 100 200 0 400 10 1000000 0 (example_client 2, AllocationRequestManager_make, example_s0))) in
  s = example_r1.2 /\ allocated_node_id_ c = 11 /\ allocator_node_id_ c = 10 /\ timer_ c = None.
Proof.
  assert (Hlen : (2 * 6 < 16 < 3 * 6)%nat) by lia.
  assert (Hw : waiting (example_client 2) (example_uid 2) 10 0) by (split; vm_compute; reflexivity).
  assert (He : expects 500 AllocationRequestManager_make (example_uid 2) 0 1000000) by (right; reflexivity).
  assert (Hh : handleAllocationRequest example_s0 (example_uid 2) 10 = ([broadcastAllocationResponse (example_uid 2) 11], example_r1.2)).
  { apply injective_projections; [vm_compute; reflexivity|reflexivity]. }
  pose proof (three_rounds_allocate 16 6 500 100 200 0 400 Hlen (example_client 2) AllocationRequestManager_make example_s0 (example_uid 2) 10 10 11
    example_r1.2 1000000 1500000 2000000 0 eq_refl Hw He eq_refl ltac:(vm_compute; reflexivity) ltac:(vm_compute; reflexivity) Hh ltac:(vm_compute; reflexivity)) as Hx.
  destruct (round _ _ _ _ _ _ _ _ _ _ _) as [[c m] s]. destruct Hx as (E1 & _ & E2 & E3 & E4). split; [exact E1|]. split; [exact E2|]. split; [exact E3|exact E4].
Defined.
