(* ===== verification/RaftLog.v ===== *)
(** * RaftLog: the persistent state of a Raft server

    Models [Log] of
    [libuavcan/include/uavcan/protocol/dynamic_node_id_server/distributed/log.hpp] and
    [PersistentState] of [distributed/persistent_state.hpp]: the allocation log, the current
    term and the vote, kept in memory and in the storage. The storage of [StorageMarshaller]
    may ignore any write, so a crash at any point is a storage that ignores all later ones.
    Tracing has no effect on the state and is left out. The size of a unique ID comes from the
    data type definitions and is a parameter. *)

From stdpp Require Import gmap strings list_numbers.
From S2P Require Import Prelude Transfer StorageMarshaller.
Local Open Scope Z_scope.

(** [protocol::dynamic_node_id::server::Entry]. *)
Record Entry := mkEntry { term : Z; unique_id : list Z; node_id : Z }.

#[export] Instance Entry_eq_dec : EqDecision Entry.
Proof. solve_decision. Defined.

(** [Log]: [entries_] and [last_index_]. *)
Record Log := mkLog { entries_ : list Entry; last_index_ : Z }.

Definition Capacity : Z := NodeID.Max + 1.

(** [static String getLastIndexKey()] and [makeEntryKey(Index index, const char* postfix)]. *)
Definition getLastIndexKey : string := "log_last_index".
Definition makeEntryKey (index : Z) (postfix : string) : string :=
  ("log" +:+ format_llu index +:+ "_" +:+ postfix)%string.

Section log.
Context (UniqueID_MaxSize : nat).
Context {St : Type} `{IStorageBackend St}.

(** [Entry()]. *)
Definition Entry_default : Entry := mkEntry 0 (replicate UniqueID_MaxSize 0) 0.

(** The entry at an index, and storing to it. *)
Definition entry_at (l : Log) (index : Z) : Entry := nth (Z.to_nat index) (entries_ l) Entry_default.

(** [Log(IStorageBackend& storage, IEventTracer& tracer)]. *)
Definition Log_make : Log := mkLog (replicate (Z.to_nat Capacity) Entry_default) 0.

(** [int readEntryFromStorage(Index index, Entry& out_entry)], with [out_entry] afterwards. *)
Definition readEntryFromStorage (s : St) (index : Z) (out_entry : Entry) : Z * Entry :=
  let '(res, t) := get_u32 s (makeEntryKey index "term") (term out_entry) in
  let out_entry := mkEntry t (unique_id out_entry) (node_id out_entry) in
  if res <? 0 then (- ErrFailure, out_entry)
  else
    let '(res, uid) := get_uid UniqueID_MaxSize s (makeEntryKey index "unique_id") (unique_id out_entry) in
    let out_entry := mkEntry t uid (node_id out_entry) in
    if res <? 0 then (- ErrFailure, out_entry)
    else
      let '(res, nid) := get_u32 s (makeEntryKey index "node_id") 0 in
      if res <? 0 then (- ErrFailure, out_entry)
      else if NodeID.Max <? nid then (- ErrFailure, out_entry)
      else (0, mkEntry t uid (u8 nid)).

(** [int writeEntryToStorage(Index index, const Entry& entry)]. *)
Definition writeEntryToStorage (s : St) (index : Z) (entry : Entry) : Z * St :=
  let '(res, t, s) := setAndGetBack_u32 s (makeEntryKey index "term") (term entry) in
  if res <? 0 then (- ErrFailure, s)
  else
    let '(res, uid, s) := setAndGetBack_uid UniqueID_MaxSize s (makeEntryKey index "unique_id") (unique_id entry) in
    if res <? 0 then (- ErrFailure, s)
    else
      let '(res, nid, s) := setAndGetBack_u32 s (makeEntryKey index "node_id") (node_id entry) in
      if res <? 0 then (- ErrFailure, s)
      else (if decide (mkEntry t uid (u8 nid) = entry) then 0 else - ErrFailure, s).

(** [int initEmptyLogStorage()]. *)
Definition initEmptyLogStorage (s : St) (l : Log) : Z * Log * St :=
  let l := mkLog (<[0%nat := Entry_default]> (entries_ l)) (last_index_ l) in
  let '(res, s) := writeEntryToStorage s 0 Entry_default in
  if res <? 0 then (res, l, s)
  else
    let l := mkLog (entries_ l) 0 in
    let '(res, stored_index, s) := setAndGetBack_u32 s getLastIndexKey 0 in
    if res <? 0 then (res, l, s)
    else if negb (stored_index =? 0) then (- ErrFailure, l, s) else (0, l, s).

(** The loop of [init] over the entries, [n] of them from [index] on. *)
Fixpoint restoreEntries (s : St) (n : nat) (index : nat) (entries : list Entry) : Z * list Entry :=
  match n with
  | O => (0, entries)
  | S n =>
    let '(result, e) := readEntryFromStorage s (Z.of_nat index) (nth index entries Entry_default) in
    let entries := <[index := e]> entries in
    if result <? 0 then (result, entries) else restoreEntries s n (S index) entries
  end.

(** [int Log::init()]. *)
Definition Log_init (s : St) (l : Log) : Z * Log * St :=
  let '(res, value) := get_u32 s getLastIndexKey 0 in
  if res <? 0 then
    match st_get s getLastIndexKey with
    | EmptyString => initEmptyLogStorage s l
    | _ => (- ErrFailure, l, s)
    end
  else if Capacity <=? value then (- ErrFailure, l, s)
  else
    let last_index := u8 value in
    let '(res, entries) := restoreEntries s (Z.to_nat (last_index + 1)) 0 (entries_ l) in
    (res, mkLog entries last_index, s).

(** [int Log::append(const Entry& entry)]. *)
Definition Log_append (s : St) (l : Log) (entry : Entry) : Z * Log * St :=
  if Capacity <=? last_index_ l + 1 then (- ErrLogic, l, s)
  else
    let '(res, s) := writeEntryToStorage s (u8 (last_index_ l + 1)) entry in
    if res <? 0 then (res, l, s)
    else
      let '(res, new_last_index, s) := setAndGetBack_u32 s getLastIndexKey (u32 (last_index_ l + 1)) in
      if res <? 0 then (res, l, s)
      else if negb (new_last_index =? u32 (last_index_ l + 1)) then (- ErrFailure, l, s)
      else (0, mkLog (<[Z.to_nat new_last_index := entry]> (entries_ l)) (u8 new_last_index), s).

(** [int Log::removeEntriesWhereIndexGreaterOrEqual(Index index)]. *)
Definition removeEntriesWhereIndexGreaterOrEqual (s : St) (l : Log) (index : Z) : Z * Log * St :=
  if (Capacity <=? index) || (index <=? 0) then (- ErrLogic, l, s)
  else
    let new_last_index := u32 (index - 1) in
    if new_last_index =? last_index_ l then (0, l, s)
    else
      let '(res, new_last_index, s) := setAndGetBack_u32 s getLastIndexKey new_last_index in
      if res <? 0 then (res, l, s)
      else if negb (new_last_index =? u32 (index - 1)) then (- ErrFailure, l, s)
      else (0, mkLog (entries_ l) (u8 new_last_index), s).

(** [int Log::removeEntriesWhereIndexGreater(Index index)]. *)
Definition removeEntriesWhereIndexGreater (s : St) (l : Log) (index : Z) : Z * Log * St :=
  removeEntriesWhereIndexGreaterOrEqual s l (u8 (index + 1)).

(** [const Entry* getEntryAtIndex(Index index) const]. *)
Definition getEntryAtIndex (l : Log) (index : Z) : option Entry :=
  if index <=? last_index_ l then Some (entry_at l index) else None.

(** [bool isOtherLogUpToDate(Index other_last_index, Term other_last_term) const]. *)
Definition isOtherLogUpToDate (l : Log) (other_last_index other_last_term : Z) : bool :=
  if negb (other_last_term =? term (entry_at l (last_index_ l))) then term (entry_at l (last_index_ l)) <? other_last_term
  else last_index_ l <=? other_last_index.

(** ** [PersistentState] *)

Record PersistentState := mkPS { current_term_ : Z; voted_for_ : Z; log_ : Log }.

Definition getCurrentTermKey : string := "current_term".
Definition getVotedForKey : string := "voted_for".

Definition is_empty (v : string) : bool := match v with EmptyString => true | _ => false end.

(** [PersistentState(IStorageBackend& storage, IEventTracer& tracer)]; a [NodeID()] is invalid. *)
Definition PersistentState_make : PersistentState := mkPS 0 NodeID.ValueInvalid Log_make.

(** The part of [init] that restores or initialises the term. *)
Definition init_term (s : St) (log_is_empty : bool) (current_term : Z) : Z * Z * St :=
  if is_empty (st_get s getCurrentTermKey) && log_is_empty then
    let '(res, t, s) := setAndGetBack_u32 s getCurrentTermKey 0 in
    if res <? 0 then (res, t, s) else if negb (t =? 0) then (- ErrFailure, t, s) else (0, t, s)
  else let '(res, t) := get_u32 s getCurrentTermKey current_term in (res, t, s).

(** The part of [init] that restores or initialises the vote. *)
Definition init_vote (s : St) (first : bool) (voted_for : Z) : Z * Z * St :=
  if is_empty (st_get s getVotedForKey) && first then
    let '(res, v, s) := setAndGetBack_u32 s getVotedForKey 0 in
    if res <? 0 then (res, 0, s) else if negb (v =? 0) then (- ErrFailure, 0, s) else (0, 0, s)
  else
    let '(res, v) := get_u32 s getVotedForKey 0 in
    if res <? 0 then (res, voted_for, s)
    else if NodeID.Max <? v then (- ErrInvalidConfiguration, voted_for, s) else (0, u8 v, s).

(** [int PersistentState::init()]. *)
Definition PersistentState_init (s : St) (p : PersistentState) : Z * PersistentState * St :=
  let '(res, l, s) := Log_init s (log_ p) in
  let p := mkPS (current_term_ p) (voted_for_ p) l in
  if res <? 0 then (res, p, s)
  else
    match getEntryAtIndex l (last_index_ l) with
    | None => (- ErrLogic, p, s)
    | Some last_entry =>
      let log_is_empty := (last_index_ l =? 0) && (term last_entry =? 0) in
      let '(res, t, s) := init_term s log_is_empty (current_term_ p) in
      let p := mkPS t (voted_for_ p) l in
      if res <? 0 then (res, p, s)
      else if t <? term last_entry then (- ErrLogic, p, s)
      else
        let '(res, v, s) := init_vote s (log_is_empty && (t =? 0)) (voted_for_ p) in
        (res, mkPS t v l, s)
    end.

(** [bool isVotedForSet() const]. *)
Definition isVotedForSet (p : PersistentState) : bool := NodeID.isUnicast (voted_for_ p).

(** [int setCurrentTerm(Term term)]. *)
Definition setCurrentTerm (s : St) (p : PersistentState) (t : Z) : Z * PersistentState * St :=
  if t <? current_term_ p then (- ErrInvalidParam, p, s)
  else
    let '(res, tmp, s) := setAndGetBack_u32 s getCurrentTermKey t in
    if res <? 0 then (res, p, s)
    else if negb (tmp =? t) then (- ErrFailure, p, s)
    else (0, mkPS t (voted_for_ p) (log_ p), s).

(** [int setVotedFor(NodeID node_id)]. *)
Definition setVotedFor (s : St) (p : PersistentState) (nid : Z) : Z * PersistentState * St :=
  if negb (NodeID.isValid nid) then (- ErrInvalidParam, p, s)
  else
    let '(res, tmp, s) := setAndGetBack_u32 s getVotedForKey nid in
    if res <? 0 then (res, p, s)
    else if negb (nid =? tmp) then (- ErrFailure, p, s)
    else (0, mkPS (current_term_ p) nid (log_ p), s).

(** [int resetVotedFor()]. *)
Definition resetVotedFor (s : St) (p : PersistentState) : Z * PersistentState * St := setVotedFor s p 0.

(** Operations on the log of the state. *)
Definition PS_append (s : St) (p : PersistentState) (entry : Entry) : Z * PersistentState * St :=
  let '(res, l, s) := Log_append s (log_ p) entry in (res, mkPS (current_term_ p) (voted_for_ p) l, s).
Definition PS_removeGreaterOrEqual (s : St) (p : PersistentState) (index : Z) : Z * PersistentState * St :=
  let '(res, l, s) := removeEntriesWhereIndexGreaterOrEqual s (log_ p) index in (res, mkPS (current_term_ p) (voted_for_ p) l, s).
Definition PS_removeGreater (s : St) (p : PersistentState) (index : Z) : Z * PersistentState * St :=
  let '(res, l, s) := removeEntriesWhereIndexGreater s (log_ p) index in (res, mkPS (current_term_ p) (voted_for_ p) l, s).

End log.

(** ** The keys *)

Definition postfixes : list string := ["term"; "unique_id"; "node_id"].
Definition other_keys : list string := [getLastIndexKey; getCurrentTermKey; getVotedForKey; "cluster_size"%string].
Definition entry_keys (index : Z) : list string := makeEntryKey index <$> postfixes.

(** All indices of the log and all names of fields make different keys. *)
Lemma keys_distinct :
  forallb (fun i => forallb (fun p =>
    forallb (fun k => negb (String.eqb (makeEntryKey i p) k)) other_keys &&
    forallb (fun j => forallb (fun q => implb (String.eqb (makeEntryKey i p) (makeEntryKey j q)) ((i =? j) && String.eqb p q)) postfixes)
      (seqZ 0 Capacity)) postfixes) (seqZ 0 Capacity) = true.
Proof. vm_compute. reflexivity. Qed.

Lemma entry_key_facts i p : 0 <= i < Capacity -> p ∈ postfixes ->
  makeEntryKey i p ∉ other_keys /\
  forall j q, 0 <= j < Capacity -> q ∈ postfixes -> makeEntryKey i p = makeEntryKey j q -> i = j /\ p = q.
Proof.
  intros Hi Hp. pose proof keys_distinct as Hall. rewrite List.forallb_forall in Hall.
  assert (Hin : forall i, 0 <= i < Capacity -> In i (seqZ 0 Capacity)) by (intros; apply list_elem_of_In, elem_of_seqZ; lia).
  specialize (Hall i (Hin i Hi)). rewrite List.forallb_forall in Hall.
  specialize (Hall p (proj1 (list_elem_of_In _ _) Hp)). apply andb_true_iff in Hall as [Ho Hk]. split.
  - intros Hk'. rewrite List.forallb_forall in Ho. specialize (Ho _ (proj1 (list_elem_of_In _ _) Hk')). by rewrite String.eqb_refl in Ho.
  - intros j q Hj Hq E. rewrite List.forallb_forall in Hk.
    specialize (Hk j (Hin j Hj)). rewrite List.forallb_forall in Hk.
    specialize (Hk q (proj1 (list_elem_of_In _ _) Hq)). rewrite E, String.eqb_refl in Hk. cbn [implb] in Hk.
    apply andb_true_iff in Hk as [H1%Z.eqb_eq H2%String.eqb_eq]. done.
Qed.

Lemma entry_key_off i j p : 0 <= i < Capacity -> 0 <= j < Capacity -> i <> j -> p ∈ postfixes -> makeEntryKey i p ∉ entry_keys j.
Proof.
  intros Hi Hj Hne Hp (q & E & Hq)%list_elem_of_fmap. destruct (entry_key_facts i p Hi Hp) as [_ Hinj].
  by destruct (Hinj j q Hj Hq E).
Qed.

Lemma other_key_off k i : 0 <= i < Capacity -> k ∈ other_keys -> k ∉ entry_keys i.
Proof. intros Hi Hk (q & -> & Hq)%list_elem_of_fmap. by destruct (entry_key_facts i q Hi Hq) as [Ho _]. Qed.

Lemma last_key_off i p : 0 <= i < Capacity -> p ∈ postfixes -> makeEntryKey i p ∉ [getLastIndexKey].
Proof. intros Hi Hp E%list_elem_of_singleton. destruct (entry_key_facts i p Hi Hp) as [Ho _]. apply Ho. rewrite E. by left. Qed.

Ltac postfix_in := repeat first [left; reflexivity | right].

(** ** Invariants *)

Section invariants.
Context (UniqueID_MaxSize : nat).
Abbreviation entry_at := (entry_at UniqueID_MaxSize).

Record Entry_wf (e : Entry) : Prop := {
  ew_term : is_u32 (term e);
  ew_uid : bytes (unique_id e);
  ew_uid_len : length (unique_id e) = UniqueID_MaxSize;
  ew_node : 0 <= node_id e <= NodeID.Max
}.

Record Log_wf (l : Log) : Prop := {
  lw_len : length (entries_ l) = Z.to_nat Capacity;
  lw_last : 0 <= last_index_ l < Capacity;
  lw_entries i : 0 <= i <= last_index_ l -> Entry_wf (entry_at l i)
}.

(** What the log is: the entries up to the last index. *)
Definition log_view (l : Log) : list Entry := take (Z.to_nat (last_index_ l + 1)) (entries_ l).

Record entry_stored (d : gmap string string) (i : Z) (e : Entry) : Prop := {
  es_term : holds_u32 d (makeEntryKey i "term") (term e);
  es_uid : holds_uid UniqueID_MaxSize d (makeEntryKey i "unique_id") (unique_id e);
  es_node : holds_u32 d (makeEntryKey i "node_id") (node_id e)
}.

Record log_stored (d : gmap string string) (l : Log) : Prop := {
  ls_last : holds_u32 d getLastIndexKey (last_index_ l);
  ls_entries i : 0 <= i <= last_index_ l -> entry_stored d i (entry_at l i)
}.

Lemma entry_stored_off keys d d' i e :
  agree_off keys d d' -> (forall p, p ∈ postfixes -> makeEntryKey i p ∉ keys) -> entry_stored d i e -> entry_stored d' i e.
Proof.
  intros Ha Hk [H1 H2 H3]. split; [eapply holds_u32_agree|eapply holds_uid_agree|eapply holds_u32_agree]; try done; apply Hk; postfix_in.
Qed.

Lemma Entry_default_wf : Entry_wf (Entry_default UniqueID_MaxSize).
Proof.
  split; cbn; [split; lia|apply Forall_replicate; split; lia|apply length_replicate|]. change NodeID.Max with 127. lia.
Qed.

Context {St : Type} `{StorageLaws St} `{!ReadableStorage St}.

Lemma readEntry_stored (s : St) i e out :
  Entry_wf e -> entry_stored (st_data s) i e -> readEntryFromStorage UniqueID_MaxSize s i out = (0, e).
Proof.
  intros [E1 E2 E3 E4] [G1 G2 G3]. unfold readEntryFromStorage. rewrite get_u32_data, G1. cbn [Z.ltb Z.compare]. rewrite get_uid_data, G2. cbn [Z.ltb Z.compare].
  rewrite get_u32_data, G3. cbn [Z.ltb Z.compare]. rewrite (proj2 (Z.ltb_ge _ _)) by lia. change NodeID.Max with 127 in *.
  rewrite (wrap_small 8 (node_id e)) by (split; lia). by destruct e.
Qed.

(** ** Recovery *)

Lemma nth_insert_eq {X} (l : list X) i x d : (i < length l)%nat -> nth i (<[i := x]> l) d = x.
Proof. intros Hi. rewrite nth_lookup, list_lookup_insert_eq by done. done. Qed.
Lemma nth_insert_ne {X} (l : list X) i j x d : i <> j -> nth i (<[j := x]> l) d = nth i l d.
Proof. intros Hi. rewrite !nth_lookup, list_lookup_insert_ne by done. done. Qed.

Lemma restoreEntries_ok (s : St) (es : nat -> Entry) n index entries :
  (index + n <= length entries)%nat ->
  (forall i, (index <= i < index + n)%nat -> Entry_wf (es i) /\ entry_stored (st_data s) (Z.of_nat i) (es i)) ->
  exists entries', restoreEntries UniqueID_MaxSize s n index entries = (0, entries') /\ length entries' = length entries /\
    (forall i, (index <= i < index + n)%nat -> nth i entries' (Entry_default UniqueID_MaxSize) = es i) /\
    (forall i, (i < index)%nat -> nth i entries' (Entry_default UniqueID_MaxSize) = nth i entries (Entry_default UniqueID_MaxSize)).
Proof.
  revert index entries. induction n as [|n IH]; intros index entries Hl Hes; cbn [restoreEntries].
  { exists entries. split_and!; [done|done|lia|done]. }
  destruct (Hes index ltac:(lia)) as [Hw Hst].
  rewrite (readEntry_stored s (Z.of_nat index) (es index) _ Hw Hst). cbn [Z.ltb Z.compare].
  destruct (IH (S index) (<[index := es index]> entries)) as (entries' & -> & Hl' & Hn & Hb).
  { rewrite length_insert. lia. }
  { intros i Hi. apply Hes. lia. }
  rewrite length_insert in Hl'. exists entries'. split_and!; [done|done| |].
  - intros i Hi. destruct (decide (i = index)) as [->|]; [|apply Hn; lia]. rewrite Hb by lia. apply nth_insert_eq. lia.
  - intros i Hi. rewrite Hb by lia. apply nth_insert_ne. lia.
Qed.

Lemma log_view_nth l l' :
  length (entries_ l) = Z.to_nat Capacity -> length (entries_ l') = Z.to_nat Capacity -> last_index_ l' = last_index_ l ->
  0 <= last_index_ l < Capacity ->
  (forall i, 0 <= i <= last_index_ l -> entry_at l' i = entry_at l i) -> log_view l' = log_view l.
Proof.
  intros G1 G2 E Hr Hn. unfold log_view. rewrite E. apply list_eq_same_length with (n := Z.to_nat (last_index_ l + 1));
    [rewrite length_take; lia|rewrite length_take; lia|].
  intros i x y Hi Hx Hy. rewrite lookup_take_lt in Hx, Hy by lia. specialize (Hn (Z.of_nat i) ltac:(lia)).
  unfold RaftLog.entry_at in Hn. rewrite Nat2Z.id, !nth_lookup, Hx, Hy in Hn. exact Hn.
Qed.

(** Reading the storage of a log gives the log back. *)
Lemma Log_init_restores (s : St) l l0 :
  Log_wf l -> log_stored (st_data s) l -> length (entries_ l0) = Z.to_nat Capacity ->
  exists l', Log_init UniqueID_MaxSize s l0 = (0, l', s) /\ log_view l' = log_view l /\ last_index_ l' = last_index_ l /\
    Log_wf l' /\ log_stored (st_data s) l'.
Proof.
  intros [L1 L2 L3] [S1 S2] Hl0. unfold Log_init. rewrite get_u32_data, S1. cbn [Z.ltb Z.compare]. rewrite (proj2 (Z.leb_gt _ _)) by lia.
  assert (HC : Capacity = 128) by done. rewrite (wrap_small 8 (last_index_ l)) by (split; lia).
  destruct (restoreEntries_ok s (fun i => entry_at l (Z.of_nat i)) (Z.to_nat (last_index_ l + 1)) 0 (entries_ l0)) as (es & -> & El & En & _).
  { lia. }
  { intros i Hi. split; [apply L3; lia|apply S2; lia]. }
  assert (Heq : forall i, 0 <= i <= last_index_ l -> entry_at (mkLog es (last_index_ l)) i = entry_at l i).
  { intros i Hi. unfold RaftLog.entry_at at 1. cbn [entries_]. rewrite En by lia. f_equal. lia. }
  exists (mkLog es (last_index_ l)). split_and!; [done| |done| |].
  - apply log_view_nth; cbn [entries_ last_index_]; try done; lia.
  - split; cbn [entries_ last_index_]; [lia|done|]. intros i Hi. rewrite Heq by done. by apply L3.
  - split; cbn [last_index_]; [done|]. intros i Hi. rewrite Heq by done. by apply S2.
Qed.

End invariants.

(** ** Writing *)

Section writing.
Context (UniqueID_MaxSize : nat).
Context {St : Type} `{StorageLaws St} `{!ReadableStorage St}.
Abbreviation entry_at := (entry_at UniqueID_MaxSize).
Abbreviation Entry_wf := (Entry_wf UniqueID_MaxSize).
Abbreviation Log_wf := (Log_wf UniqueID_MaxSize).
Abbreviation entry_stored := (entry_stored UniqueID_MaxSize).
Abbreviation log_stored := (log_stored UniqueID_MaxSize).

Lemma agree_off_weaken keys keys' d d' : (forall k, k ∈ keys -> k ∈ keys') -> agree_off keys d d' -> agree_off keys' d d'.
Proof. intros Hk Ha k Hn. apply Ha. naive_solver. Qed.

Lemma agree_off_join keys d1 d2 d3 : agree_off keys d1 d2 -> agree_off keys d2 d3 -> agree_off keys d1 d3.
Proof. intros H1 H2. eapply agree_off_weaken; [|by eapply agree_off_trans]. intros k Hk%elem_of_app. tauto. Qed.




(** One number and one unique ID of an entry: the storage changes at most there. *)
Lemma set_u32_off (s : St) key n :
  is_u32 n ->
  let '(res, v, s') := setAndGetBack_u32 s key n in
  agree_off [key] (st_data s) (st_data s') /\ res <= 0 /\ (res = 0 -> v = n -> holds_u32 (st_data s') key n) /\
  (res, v) = get_u32 (st_data s') key n /\ (holds_u32 (st_data s') key n \/ st_data s' = st_data s).
Proof.
  intros Hn. pose proof (setAndGetBack_u32_ok s key n Hn) as Hs.
  assert (Hg : let '(res, v, s') := setAndGetBack_u32 s key n in (res, v) = get_u32 (st_data s') key n).
  { unfold setAndGetBack_u32. rewrite get_u32_data. destruct (get_u32 (st_data (st_set s key (format_llu n))) key n) as [r v] eqn:E. rewrite E. done. }
  destruct (setAndGetBack_u32 s key n) as [[res v] s'].
  destruct Hs as [(-> & -> & Ha & Hh)|(Hne & Hle & Ed)]; [split_and!; [done|lia|done|done|by left]|].
  split_and!; [rewrite Ed; apply agree_off_refl|done| |done|by right]. intros -> ->. destruct Hne as [?|?]; [lia|done].
Qed.

Lemma set_uid_off (s : St) key uid :
  bytes uid -> length uid = UniqueID_MaxSize ->
  let '(res, v, s') := setAndGetBack_uid UniqueID_MaxSize s key uid in
  agree_off [key] (st_data s) (st_data s') /\ res <= 0 /\ (res = 0 -> v = uid -> holds_uid UniqueID_MaxSize (st_data s') key uid).
Proof.
  intros Hb Hl. pose proof (setAndGetBack_uid_ok UniqueID_MaxSize s key uid Hb Hl) as Hs.
  destruct (setAndGetBack_uid UniqueID_MaxSize s key uid) as [[res v] s'].
  destruct Hs as [(-> & -> & Ha & Hh)|(Hne & Hle & ->)]; [split_and!; [done|lia|done]|].
  split_and!; [apply agree_off_refl|done|]. intros -> ->. destruct Hne as [?|?]; [lia|done].
Qed.

Lemma one_key_off i p d d' : p ∈ postfixes -> agree_off [makeEntryKey i p] d d' -> agree_off (entry_keys i) d d'.
Proof. intros Hp. apply agree_off_weaken. intros k ->%list_elem_of_singleton. by apply list_elem_of_fmap_2. Qed.

Lemma key_neq i p q : 0 <= i < Capacity -> p ∈ postfixes -> q ∈ postfixes -> p <> q -> makeEntryKey i p ∉ [makeEntryKey i q].
Proof. intros Hi Hp Hq Hne E%list_elem_of_singleton. destruct (entry_key_facts i p Hi Hp) as [_ Hinj]. by destruct (Hinj i q Hi Hq E). Qed.

(** No node ID in the storage is out of range, not even in the entries past the last index. *)
Definition nodes_small (d : gmap string string) : Prop :=
  forall i n out, 0 <= i < Capacity -> get_u32 d (makeEntryKey i "node_id") out = (0, n) -> n <= NodeID.Max.

Lemma nodes_small_off keys d d' :
  agree_off keys d d' -> (forall i, 0 <= i < Capacity -> makeEntryKey i "node_id" ∉ keys) -> nodes_small d -> nodes_small d'.
Proof.
  intros Ha Hk Hn i n out Hi Hg. apply (Hn i n out Hi). unfold get_u32 in *. cbn [st_get map_storage] in *. by rewrite <-(Ha _ (Hk i Hi)).
Qed.

Lemma nodes_small_set d d' i n :
  agree_off [makeEntryKey i "node_id"] d d' -> 0 <= i < Capacity -> n <= NodeID.Max ->
  holds_u32 d' (makeEntryKey i "node_id") n \/ d' = d -> nodes_small d -> nodes_small d'.
Proof.
  intros Ha Hi Hn [Hh| ->] Hd; [|done]. intros j m out Hj Hg. destruct (decide (j = i)) as [->|Hne].
  - rewrite Hh in Hg. by injection Hg as <-.
  - apply (Hd j m out Hj). unfold get_u32 in *. cbn [st_get map_storage] in *. rewrite <-(Ha (makeEntryKey j "node_id")); [done|].
    intros E%list_elem_of_singleton. destruct (entry_key_facts j "node_id" Hj ltac:(postfix_in)) as [_ Hinj].
    destruct (Hinj i "node_id"%string Hi ltac:(postfix_in) E). done.
Qed.

Lemma key_neq_any i p q : 0 <= i < Capacity -> p ∈ postfixes -> q ∈ postfixes -> p <> q ->
  forall j, 0 <= j < Capacity -> makeEntryKey j p ∉ [makeEntryKey i q].
Proof. intros Hi Hp Hq Hne j Hj E%list_elem_of_singleton. destruct (entry_key_facts j p Hj Hp) as [_ Hinj]. by destruct (Hinj i q Hi Hq E). Qed.

Lemma writeEntry_ok (s : St) i e :
  0 <= i < Capacity -> Entry_wf e -> nodes_small (st_data s) ->
  let '(res, s') := writeEntryToStorage UniqueID_MaxSize s i e in
  agree_off (entry_keys i) (st_data s) (st_data s') /\ nodes_small (st_data s') /\
  (res = 0 /\ entry_stored (st_data s') i e \/ res < 0).
Proof.
  intros Hi [E1 E2 E3 E4] Hsm. change NodeID.Max with 127 in E4. unfold writeEntryToStorage.
  assert (P1 : "term"%string ∈ postfixes) by postfix_in. assert (P2 : "unique_id"%string ∈ postfixes) by postfix_in.
  assert (P3 : "node_id"%string ∈ postfixes) by postfix_in.
  pose proof (set_u32_off s (makeEntryKey i "term") (term e) E1) as S1.
  destruct (setAndGetBack_u32 s (makeEntryKey i "term") (term e)) as [[r1 v1] s1]. destruct S1 as (A1 & L1 & G1 & _).
  pose proof (one_key_off i _ _ _ P1 A1) as B1.
  pose proof (nodes_small_off _ _ _ A1 (key_neq_any i _ _ Hi P3 P1 ltac:(discriminate)) Hsm) as M1.
  destruct (Z.ltb_spec r1 0); [split_and!; [done|done|by right]|].
  pose proof (set_uid_off s1 (makeEntryKey i "unique_id") (unique_id e) E2 E3) as S2.
  destruct (setAndGetBack_uid UniqueID_MaxSize s1 (makeEntryKey i "unique_id") (unique_id e)) as [[r2 v2] s2]. destruct S2 as (A2 & L2 & G2).
  pose proof (agree_off_join _ _ _ _ B1 (one_key_off i _ _ _ P2 A2)) as B2.
  pose proof (nodes_small_off _ _ _ A2 (key_neq_any i _ _ Hi P3 P2 ltac:(discriminate)) M1) as M2.
  destruct (Z.ltb_spec r2 0); [split_and!; [done|done|by right]|].
  pose proof (set_u32_off s2 (makeEntryKey i "node_id") (node_id e) ltac:(split; lia)) as S3.
  destruct (setAndGetBack_u32 s2 (makeEntryKey i "node_id") (node_id e)) as [[r3 v3] s3]. destruct S3 as (A3 & L3 & G3 & F3 & D3).
  pose proof (agree_off_join _ _ _ _ B2 (one_key_off i _ _ _ P3 A3)) as B3.
  pose proof (nodes_small_set _ _ i (node_id e) A3 Hi (proj2 E4) D3 M2) as M3.
  destruct (Z.ltb_spec r3 0); [split_and!; [done|done|by right]|]. split_and!; [done|done|].
  destruct (decide (mkEntry v1 v2 (u8 v3) = e)) as [Ee|]; [|right; done]. left. split; [done|].
  assert (r1 = 0 /\ r2 = 0 /\ r3 = 0) as (-> & -> & ->) by lia.
  assert (Hv3 : u8 v3 = v3).
  { apply wrap_small. symmetry in F3. pose proof (M3 i v3 _ Hi F3) as Hle. change NodeID.Max with 127 in Hle. split; [|lia].
    exact (proj1 (get_u32_range _ _ _ _ F3)). }
  rewrite Hv3 in Ee. subst e. cbn in *. split; cbn.
  - eapply holds_u32_agree; [exact A3|by apply key_neq|]. eapply holds_u32_agree; [exact A2|by apply key_neq|]. auto.
  - eapply holds_uid_agree; [exact A3|by apply key_neq|]. auto.
  - auto.
Qed.

(** A log kept in the storage. *)
Record Log_inv (s : St) (l : Log) : Prop := {
  li_wf : Log_wf l;
  li_stored : log_stored (st_data s) l;
  li_small : nodes_small (st_data s)
}.

(** What an operation of the log leaves alone: the keys of the term and of the vote. *)
Definition log_keys_only (d d' : gmap string string) : Prop :=
  d' !! getCurrentTermKey = d !! getCurrentTermKey /\ d' !! getVotedForKey = d !! getVotedForKey.

Lemma log_keys_only_off keys d d' : agree_off keys d d' -> getCurrentTermKey ∉ keys -> getVotedForKey ∉ keys -> log_keys_only d d'.
Proof. intros Ha H1 H2. split; by apply Ha. Qed.

Lemma log_stored_last_only d d' l' :
  agree_off [getLastIndexKey] d d' -> holds_u32 d' getLastIndexKey (last_index_ l') ->
  (forall i, 0 <= i <= last_index_ l' -> 0 <= i < Capacity /\ entry_stored d i (entry_at l' i)) -> log_stored d' l'.
Proof.
  intros Ha Hh He. split; [done|]. intros i Hi. destruct (He i Hi) as [Hc Hs].
  eapply entry_stored_off; [exact Ha| |exact Hs]. intros p Hp. by apply last_key_off.
Qed.

Lemma entry_at_insert l k e i last : (k < length (entries_ l))%nat ->
  entry_at (mkLog (<[k := e]> (entries_ l)) last) i = if decide (Z.to_nat i = k) then e else entry_at l i.
Proof.
  intros Hk. unfold RaftLog.entry_at. cbn [entries_]. case_decide as Hd; [subst k; by apply nth_insert_eq|by apply nth_insert_ne].
Qed.

Lemma log_view_insert l e :
  length (entries_ l) = Z.to_nat Capacity -> 0 <= last_index_ l -> last_index_ l + 1 < Capacity ->
  log_view (mkLog (<[Z.to_nat (last_index_ l + 1) := e]> (entries_ l)) (last_index_ l + 1)) = log_view l ++ [e].
Proof.
  intros Hl Hl0 Hc. unfold log_view. cbn [entries_ last_index_]. replace (Z.to_nat (last_index_ l + 1 + 1)) with (S (Z.to_nat (last_index_ l + 1))) by lia.
  erewrite take_S_r by (apply list_lookup_insert_eq; lia). by rewrite take_insert_ge by lia.
Qed.

(** Appending either adds the entry to the log in memory and in the storage, or to neither. *)
Lemma Log_append_ok (s : St) l e :
  Log_inv s l -> Entry_wf e ->
  let '(res, l', s') := Log_append UniqueID_MaxSize s l e in
  Log_inv s' l' /\ log_keys_only (st_data s) (st_data s') /\
  (res = 0 /\ log_view l' = log_view l ++ [e] /\ last_index_ l' = last_index_ l + 1 \/ res < 0 /\ l' = l).
Proof.
  intros [Hw Hst Hsm] He. destruct Hw as [W1 W2 W3]. assert (HC : Capacity = 128) by done. unfold Log_append.
  destruct (Z.leb_spec Capacity (last_index_ l + 1)); [split_and!; [done|done|by right]|].
  rewrite (wrap_small 8 (last_index_ l + 1)) by (split; lia). rewrite (wrap_small 32 (last_index_ l + 1)) by (split; lia).
  pose proof (writeEntry_ok s (last_index_ l + 1) e ltac:(lia) He Hsm) as Hwr.
  destruct (writeEntryToStorage UniqueID_MaxSize s (last_index_ l + 1) e) as [r1 s1]. destruct Hwr as (A1 & M1 & R1).
  assert (Hk1 : forall k, k ∈ other_keys -> k ∉ entry_keys (last_index_ l + 1)) by (intros; apply other_key_off; [lia|done]).
  assert (Hold : log_stored (st_data s1) l).
  { destruct Hst as [T1 T2]. split; [eapply holds_u32_agree; [exact A1|apply Hk1; by left|done]|].
    intros i Hi. eapply entry_stored_off; [exact A1| |by apply T2]. intros p Hp. apply entry_key_off; [lia|lia|lia|done]. }
  assert (HK1 : log_keys_only (st_data s) (st_data s1)) by (eapply log_keys_only_off; [exact A1|apply Hk1|apply Hk1]; postfix_in).
  destruct (Z.ltb_spec r1 0); [split_and!; [done|done|by right]|]. destruct R1 as [[-> Hes]|]; [|lia].
  pose proof (setAndGetBack_u32_ok s1 getLastIndexKey (last_index_ l + 1) ltac:(split; lia)) as Hs.
  destruct (setAndGetBack_u32 s1 getLastIndexKey (last_index_ l + 1)) as [[r2 v2] s2].
  destruct Hs as [(-> & -> & A2 & Hh)|(Hne & Hle & Ed)].
  - cbn [Z.ltb Z.compare]. rewrite Z.eqb_refl. cbn [negb]. rewrite (wrap_small 8 (last_index_ l + 1)) by (split; lia).
    assert (Hat : forall i, 0 <= i <= last_index_ l + 1 ->
      entry_at (mkLog (<[Z.to_nat (last_index_ l + 1) := e]> (entries_ l)) (last_index_ l + 1)) i =
      if decide (i = last_index_ l + 1) then e else entry_at l i).
    { intros i Hi. rewrite entry_at_insert by lia. do 2 case_decide; done || lia. }
    split_and!; [split| |].
    + split; cbn [entries_ last_index_]; [by rewrite length_insert|lia|]. intros i Hi. rewrite Hat by done. case_decide; [done|]. apply W3. lia.
    + eapply log_stored_last_only; [exact A2|exact Hh|]. cbn [last_index_]. intros i Hi. split; [lia|]. rewrite Hat by done.
      case_decide as Hd; [by subst i|]. apply Hold. lia.
    + eapply nodes_small_off; [exact A2| |done]. intros i Hi. apply last_key_off; [done|postfix_in].
    + destruct HK1 as [K1 K2]. split; rewrite A2 by (intros ?%list_elem_of_singleton; discriminate); done.
    + left. split_and!; [done|apply log_view_insert; lia|done].
  - assert (Hinv : Log_inv s2 l) by (split; [done|by rewrite Ed|by rewrite Ed]).
    assert (HK2 : log_keys_only (st_data s) (st_data s2)) by by rewrite Ed.
    destruct (Z.ltb_spec r2 0); [split_and!; [done|done|by right]|]. destruct Hne as [?|Hne]; [lia|].
    rewrite (proj2 (Z.eqb_neq _ _) Hne). cbn [negb]. split_and!; [done|done|by right].
Qed.

(** Removal shortens the log in memory and in the storage, or neither. *)
Lemma Log_remove_ok (s : St) l index :
  Log_inv s l -> index <= last_index_ l + 1 ->
  let '(res, l', s') := removeEntriesWhereIndexGreaterOrEqual s l index in
  Log_inv s' l' /\ log_keys_only (st_data s) (st_data s') /\
  (res = 0 /\ 0 < index /\ log_view l' = take (Z.to_nat index) (log_view l) /\ last_index_ l' = index - 1 \/ res < 0 /\ l' = l).
Proof.
  intros [Hw Hst Hsm] Hix. destruct Hw as [W1 W2 W3]. assert (HC : Capacity = 128) by done. unfold removeEntriesWhereIndexGreaterOrEqual.
  destruct ((Capacity <=? index) || (index <=? 0)) eqn:Eb; [split_and!; [done|done|by right]|].
  rewrite (wrap_small 32 (index - 1)) by (split; lia).
  destruct (Z.eqb_spec (index - 1) (last_index_ l)) as [Ei|Ei].
  { split_and!; [done|done|]. left. split_and!; [done|lia| |done]. unfold log_view. rewrite take_take. f_equal. lia. }
  pose proof (setAndGetBack_u32_ok s getLastIndexKey (index - 1) ltac:(split; lia)) as Hs.
  destruct (setAndGetBack_u32 s getLastIndexKey (index - 1)) as [[r2 v2] s2].
  destruct Hs as [(-> & -> & A2 & Hh)|(Hne & Hle & Ed)].
  - cbn [Z.ltb Z.compare]. rewrite Z.eqb_refl. cbn [negb]. rewrite (wrap_small 8 (index - 1)) by (split; lia).
    split_and!; [split| |].
    + split; cbn [entries_ last_index_]; [done|lia|]. intros i Hi. apply (W3 i). lia.
    + eapply log_stored_last_only; [exact A2|exact Hh|]. cbn [last_index_]. intros i Hi. split; [lia|].
      apply (ls_entries _ _ _ Hst). lia.
    + eapply nodes_small_off; [exact A2| |done]. intros i Hi. apply last_key_off; [done|postfix_in].
    + split; rewrite A2 by (intros ?%list_elem_of_singleton; discriminate); done.
    + left. split_and!; [done|lia| |done]. unfold log_view. cbn [entries_ last_index_]. rewrite take_take. f_equal. lia.
  - assert (Hinv : Log_inv s2 l) by (split; [done|by rewrite Ed|by rewrite Ed]).
    assert (HK2 : log_keys_only (st_data s) (st_data s2)) by by rewrite Ed.
    destruct (Z.ltb_spec r2 0); [split_and!; [done|done|by right]|]. destruct Hne as [?|Hne]; [lia|].
    rewrite (proj2 (Z.eqb_neq _ _) Hne). cbn [negb]. split_and!; [done|done|by right].
Qed.

(** ** The persistent state *)

Record PS_inv (s : St) (p : PersistentState) : Prop := {
  pi_log : Log_inv s (log_ p);
  pi_term : holds_u32 (st_data s) getCurrentTermKey (current_term_ p);
  pi_vote : holds_u32 (st_data s) getVotedForKey (voted_for_ p);
  pi_term_u32 : is_u32 (current_term_ p);
  pi_vote_range : 0 <= voted_for_ p <= NodeID.Max;
  pi_terms i : 0 <= i <= last_index_ (log_ p) -> term (entry_at (log_ p) i) <= current_term_ p
}.

(** What the rest of the server sees. *)
Definition ps_view (p : PersistentState) : Z * Z * list Entry := (current_term_ p, voted_for_ p, log_view (log_ p)).

Lemma holds_same_key d d' k n : d' !! k = d !! k -> holds_u32 d k n -> holds_u32 d' k n.
Proof. intros E Hh out. specialize (Hh out). unfold get_u32 in *. cbn [st_get map_storage] in *. by rewrite E. Qed.

Lemma holds_nonempty (s : St) key n : holds_u32 (st_data s) key n -> is_empty (st_get s key) = false.
Proof.
  intros Hh. specialize (Hh 0). rewrite st_get_ok. unfold get_u32 in Hh. cbn [st_get map_storage] in Hh.
  by destruct (default EmptyString (st_data s !! key)).
Qed.

(** A server that starts on the storage of another one has its state. *)
Lemma PersistentState_init_restores (s : St) p p0 :
  PS_inv s p -> length (entries_ (log_ p0)) = Z.to_nat Capacity ->
  exists p', PersistentState_init UniqueID_MaxSize s p0 = (0, p', s) /\ ps_view p' = ps_view p /\ PS_inv s p'.
Proof.
  intros [[Hw Hst Hsm] Ht Hv Hu Hr Hts] Hl0. unfold PersistentState_init.
  destruct (Log_init_restores UniqueID_MaxSize s (log_ p) (log_ p0) Hw Hst Hl0) as (l' & -> & Hview & Hlast & Hw' & Hst').
  cbn [Z.ltb Z.compare]. unfold getEntryAtIndex. rewrite Z.leb_refl.
  assert (Hat : forall i, 0 <= i <= last_index_ l' -> entry_at l' i = entry_at (log_ p) i).
  { intros i Hi. pose proof (lw_len _ _ Hw) as N1. pose proof (lw_len _ _ Hw') as N2. pose proof (lw_last _ _ Hw).
    unfold RaftLog.entry_at. rewrite !nth_lookup. f_equal.
    pose proof (f_equal (lookup (Z.to_nat i)) Hview) as El. unfold log_view in El. rewrite !lookup_take_lt in El by lia. exact El. }
  pose proof (lw_last _ _ Hw') as Hlr. assert (Hte : term (entry_at l' (last_index_ l')) <= current_term_ p)
    by (rewrite Hat by lia; apply Hts; lia).
  unfold init_term. rewrite (holds_nonempty s _ _ Ht). cbn [andb]. rewrite get_u32_data, Ht. cbn [Z.ltb Z.compare].
  cbn [current_term_ voted_for_]. rewrite (proj2 (Z.ltb_ge _ _) Hte).
  unfold init_vote. rewrite (holds_nonempty s _ _ Hv). cbn [andb]. rewrite get_u32_data, Hv. cbn [Z.ltb Z.compare].
  rewrite (proj2 (Z.ltb_ge _ _)) by lia. change NodeID.Max with 127 in *. rewrite (wrap_small 8 (voted_for_ p)) by (split; lia).
  eexists. split; [reflexivity|]. split; [unfold ps_view; cbn; by rewrite Hview|].
  split; cbn [log_ current_term_ voted_for_]; try done. intros i Hi. rewrite Hat by done. apply Hts. lia.
Qed.

(** The operations of the state. *)
Inductive ps_op := OpAppend (e : Entry) | OpRemove (index : Z) | OpSetTerm (t : Z) | OpSetVote (v : Z).

Definition ps_step (s : St) (p : PersistentState) (op : ps_op) : Z * PersistentState * St :=
  match op with
  | OpAppend e => PS_append UniqueID_MaxSize s p e
  | OpRemove index => PS_removeGreaterOrEqual s p index
  | OpSetTerm t => setCurrentTerm s p t
  | OpSetVote v => setVotedFor s p v
  end.

(** How the server uses them: entries of terms up to the current one, indices up to the end. *)
Definition op_ok (p : PersistentState) (op : ps_op) : Prop :=
  match op with
  | OpAppend e => Entry_wf e /\ term e <= current_term_ p
  | OpRemove index => index <= last_index_ (log_ p) + 1
  | OpSetTerm t => is_u32 t
  | OpSetVote v => is_u8 v
  end.

(** What they mean. *)
Definition op_effect (v : Z * Z * list Entry) (op : ps_op) : Z * Z * list Entry :=
  let '(t, vote, l) := v in
  match op with
  | OpAppend e => (t, vote, l ++ [e])
  | OpRemove index => (t, vote, take (Z.to_nat index) l)
  | OpSetTerm t => (t, vote, l)
  | OpSetVote vote => (t, vote, l)
  end.

Lemma view_term_bound p l' e :
  (forall i, 0 <= i <= last_index_ (log_ p) -> term (entry_at (log_ p) i) <= current_term_ p) ->
  Log_wf (log_ p) -> Log_wf l' -> log_view l' = log_view (log_ p) ++ [e] -> last_index_ l' = last_index_ (log_ p) + 1 -> term e <= current_term_ p ->
  forall i, 0 <= i <= last_index_ l' -> term (entry_at l' i) <= current_term_ p.
Proof.
  intros Hts [W1 W2 _] [W1' W2' _] Hv Hl He i Hi. pose proof (f_equal (lookup (Z.to_nat i)) Hv) as El. unfold log_view in El.
  rewrite lookup_take_lt in El by lia. unfold RaftLog.entry_at at 1. rewrite nth_lookup, El.
  destruct (decide (i = last_index_ l')) as [->|Hne].
  - rewrite lookup_app_r, length_take by (rewrite length_take; lia).
    replace (Z.to_nat (last_index_ l') - _)%nat with O by lia. done.
  - rewrite lookup_app_l by (rewrite length_take; lia). rewrite lookup_take_lt by lia. rewrite <-nth_lookup. apply (Hts i). lia.
Qed.

Lemma PS_append_ok (s : St) p e :
  PS_inv s p -> Entry_wf e -> term e <= current_term_ p ->
  let '(res, p', s') := PS_append UniqueID_MaxSize s p e in
  PS_inv s' p' /\ current_term_ p' = current_term_ p /\ voted_for_ p' = voted_for_ p /\
  (res = 0 /\ log_view (log_ p') = log_view (log_ p) ++ [e] /\ last_index_ (log_ p') = last_index_ (log_ p) + 1 \/ res < 0 /\ p' = p).
Proof.
  intros [Hlog Ht Hv Hu Hr Hts] He Hte. unfold PS_append. pose proof (Log_append_ok s (log_ p) e Hlog He) as Ha.
  destruct (Log_append UniqueID_MaxSize s (log_ p) e) as [[res l'] s']. destruct Ha as (Hl' & [K1 K2] & Hres). split_and!; [|done|done|].
  - split; cbn [log_ current_term_ voted_for_]; try done; [by eapply holds_same_key|by eapply holds_same_key|].
    destruct Hres as [(_ & Hview & Hlast)|(_ & ->)]; [|done]. eapply view_term_bound; try done; [apply Hlog|apply Hl'].
  - destruct Hres as [(-> & Hview & Hlast)|(Hlt & ->)]; [by left|right; by destruct p].
Qed.

Lemma PS_remove_ok (s : St) p index :
  PS_inv s p -> index <= last_index_ (log_ p) + 1 ->
  let '(res, p', s') := PS_removeGreaterOrEqual s p index in
  PS_inv s' p' /\ current_term_ p' = current_term_ p /\ voted_for_ p' = voted_for_ p /\
  (res = 0 /\ 0 < index /\ log_view (log_ p') = take (Z.to_nat index) (log_view (log_ p)) /\ last_index_ (log_ p') = index - 1 \/ res < 0 /\ p' = p).
Proof.
  intros [Hlog Ht Hv Hu Hr Hts] Hop. unfold PS_removeGreaterOrEqual. pose proof (Log_remove_ok s (log_ p) index Hlog Hop) as Ha.
  destruct (removeEntriesWhereIndexGreaterOrEqual s (log_ p) index) as [[res l'] s']. destruct Ha as (Hl' & [K1 K2] & Hres). split_and!; [|done|done|].
  - split; cbn [log_ current_term_ voted_for_]; try done; [by eapply holds_same_key|by eapply holds_same_key|].
    destruct Hres as [(_ & Hi & Hview & Hlast)|(_ & ->)]; [|done]. intros i Hi'. pose proof (lw_last _ _ (li_wf _ _ Hl')).
    pose proof (lw_len _ _ (li_wf _ _ Hl')). pose proof (lw_len _ _ (li_wf _ _ Hlog)).
    pose proof (f_equal (lookup (Z.to_nat i)) Hview) as El. unfold log_view in El. rewrite take_take in El.
    rewrite !lookup_take_lt in El by lia. unfold RaftLog.entry_at. rewrite nth_lookup, El, <-nth_lookup. apply (Hts i). lia.
  - destruct Hres as [(-> & Hi & Hview & Hlast)|(Hlt & ->)]; [by left|right; by destruct p].
Qed.

(** Writing the term or the vote does not touch the log. *)
Lemma Log_inv_other_key (s s' : St) l k :
  Log_inv s l -> agree_off [k] (st_data s) (st_data s') -> k ∈ other_keys -> k <> getLastIndexKey -> Log_inv s' l.
Proof.
  intros [Hw [T1 T2] Hsm] A Hk Hne.
  assert (Hoff : forall i q, 0 <= i < Capacity -> q ∈ postfixes -> makeEntryKey i q ∉ [k]).
  { intros i q Hi Hq E%list_elem_of_singleton. destruct (entry_key_facts i q Hi Hq) as [Ho _]. apply Ho. by rewrite E. }
  split; [done| |eapply nodes_small_off; [exact A| |done]; intros i Hi; apply Hoff; [done|postfix_in]].
  split; [eapply holds_u32_agree; [exact A|by intros ?%list_elem_of_singleton|done]|].
  intros i Hi. pose proof (lw_last _ _ Hw). eapply entry_stored_off; [exact A| |by apply T2]. intros q Hq. apply Hoff; [lia|done].
Qed.

(** Nor does writing another key touch the state. *)
Lemma PS_inv_other_key (s s' : St) p k :
  PS_inv s p -> agree_off [k] (st_data s) (st_data s') -> k ∈ other_keys ->
  k <> getLastIndexKey -> k <> getCurrentTermKey -> k <> getVotedForKey -> PS_inv s' p.
Proof.
  intros [Hlog Ht Hv Hu Hr Hts] A Hk N1 N2 N3. split; try done; [by eapply Log_inv_other_key|..];
    (eapply holds_u32_agree; [exact A|by intros ?%list_elem_of_singleton|done]).
Qed.

Lemma setCurrentTerm_ok (s : St) p t :
  PS_inv s p -> is_u32 t ->
  let '(res, p', s') := setCurrentTerm s p t in
  PS_inv s' p' /\ log_ p' = log_ p /\ voted_for_ p' = voted_for_ p /\
  (res = 0 /\ current_term_ p' = t /\ current_term_ p <= t \/ res < 0 /\ p' = p).
Proof.
  intros [Hlog Ht Hv Hu Hr Hts] Hop. unfold setCurrentTerm.
  destruct (Z.ltb_spec t (current_term_ p)); [split_and!; [done|done|done|by right]|].
  pose proof (setAndGetBack_u32_ok s getCurrentTermKey t Hop) as Hs.
  destruct (setAndGetBack_u32 s getCurrentTermKey t) as [[res tmp] s']. destruct Hs as [(-> & -> & A & Hh)|(Hne & Hle & Ed)].
  - cbn [Z.ltb Z.compare]. rewrite Z.eqb_refl. cbn [negb]. split_and!; [|done|done|by left].
    split; cbn [log_ current_term_ voted_for_]; try done.
    + eapply Log_inv_other_key; [done|exact A|postfix_in|done].
    + eapply holds_u32_agree; [exact A|by intros ?%list_elem_of_singleton|done].
    + intros i Hi. specialize (Hts i Hi). lia.
  - assert (Hinv : PS_inv s' p) by (destruct Hlog; split; [split|..]; rewrite ?Ed; done).
    destruct (Z.ltb_spec res 0); [split_and!; [done|done|done|by right]|]. destruct Hne as [?|Hne]; [lia|].
    rewrite (proj2 (Z.eqb_neq _ _) Hne). cbn [negb]. split_and!; [done|done|done|by right].
Qed.

Lemma setVotedFor_ok (s : St) p v :
  PS_inv s p -> is_u8 v ->
  let '(res, p', s') := setVotedFor s p v in
  PS_inv s' p' /\ log_ p' = log_ p /\ current_term_ p' = current_term_ p /\ (res = 0 /\ voted_for_ p' = v \/ res < 0 /\ p' = p).
Proof.
  intros [Hlog Ht Hv Hu Hr Hts] Hop. unfold setVotedFor.
  destruct (NodeID.isValid v) eqn:Ev; cbn [negb]; [|split_and!; [done|done|done|by right]].
  pose proof (setAndGetBack_u32_ok s getVotedForKey v ltac:(destruct Hop; split; lia)) as Hs.
  destruct (setAndGetBack_u32 s getVotedForKey v) as [[res tmp] s']. destruct Hs as [(-> & -> & A & Hh)|(Hne & Hle & Ed)].
  - cbn [Z.ltb Z.compare]. rewrite Z.eqb_refl. cbn [negb]. split_and!; [|done|done|by left].
    split; cbn [log_ current_term_ voted_for_]; try done.
    + eapply Log_inv_other_key; [done|exact A|postfix_in|done].
    + eapply holds_u32_agree; [exact A|by intros ?%list_elem_of_singleton|done].
    + unfold NodeID.isValid in Ev. destruct Hop. lia.
  - assert (Hinv : PS_inv s' p) by (destruct Hlog; split; [split|..]; rewrite ?Ed; done).
    destruct (Z.ltb_spec res 0); [split_and!; [done|done|done|by right]|]. destruct Hne as [?|Hne]; [lia|].
    rewrite (proj2 (Z.eqb_neq _ _)) by congruence. cbn [negb]. split_and!; [done|done|done|by right].
Qed.

(** Each operation takes effect in memory and in the storage, or in neither. *)
Lemma ps_step_ok (s : St) p op :
  PS_inv s p -> op_ok p op ->
  let '(res, p', s') := ps_step s p op in
  PS_inv s' p' /\ current_term_ p <= current_term_ p' /\
  (res = 0 /\ ps_view p' = op_effect (ps_view p) op \/ res < 0 /\ p' = p).
Proof.
  intros Hp Hop. unfold ps_view. destruct op as [e|index|t|v]; cbn [ps_step op_ok op_effect] in *.
  - pose proof (PS_append_ok s p e Hp (proj1 Hop) (proj2 Hop)) as Ha. destruct (PS_append UniqueID_MaxSize s p e) as [[res p'] s'].
    destruct Ha as (X1 & X2 & X3 & X4). split_and!; [done|lia|]. rewrite X2, X3. destruct X4 as [(-> & -> & _)|X4]; auto.
  - pose proof (PS_remove_ok s p index Hp Hop) as Ha. destruct (PS_removeGreaterOrEqual s p index) as [[res p'] s'].
    destruct Ha as (X1 & X2 & X3 & X4). split_and!; [done|lia|]. rewrite X2, X3. destruct X4 as [(-> & _ & -> & _)|X4]; auto.
  - pose proof (setCurrentTerm_ok s p t Hp Hop) as Ha. destruct (setCurrentTerm s p t) as [[res p'] s'].
    destruct Ha as (X1 & X2 & X3 & X4). split_and!; [done|destruct X4 as [(_ & -> & ?)|(_ & ->)]; lia|]. rewrite X2, X3.
    destruct X4 as [(-> & -> & _)|X4]; auto.
  - pose proof (setVotedFor_ok s p v Hp Hop) as Ha. destruct (setVotedFor s p v) as [[res p'] s'].
    destruct Ha as (X1 & X2 & X3 & X4). split_and!; [done|lia|]. rewrite X2, X3. destruct X4 as [(-> & ->)|X4]; auto.
Qed.

(** ** A storage that performs its writes *)

Section reliable.
Context `{!ReliableStorage St}.

Lemma writeEntry_reliable (s : St) i e : Entry_wf e -> (writeEntryToStorage UniqueID_MaxSize s i e).1 = 0.
Proof.
  intros [E1 E2 E3 E4]. change NodeID.Max with 127 in E4. unfold writeEntryToStorage.
  pose proof (setAndGetBack_u32_reliable s (makeEntryKey i "term") (term e) E1) as K1.
  destruct (setAndGetBack_u32 s _ _) as [[r1 v1] s1]. injection K1 as -> ->. cbn [Z.ltb Z.compare].
  pose proof (setAndGetBack_uid_reliable UniqueID_MaxSize s1 (makeEntryKey i "unique_id") (unique_id e) E2 E3) as K2.
  destruct (setAndGetBack_uid _ s1 _ _) as [[r2 v2] s2]. injection K2 as -> ->. cbn [Z.ltb Z.compare].
  pose proof (setAndGetBack_u32_reliable s2 (makeEntryKey i "node_id") (node_id e) ltac:(split; lia)) as K3.
  destruct (setAndGetBack_u32 s2 _ _) as [[r3 v3] s3]. injection K3 as -> ->. cbn [Z.ltb Z.compare].
  rewrite (wrap_small 8 (node_id e)) by (split; lia). rewrite decide_True; [done|by destruct e].
Qed.

Lemma PS_append_reliable (s : St) p e :
  Entry_wf e -> 0 <= last_index_ (log_ p) -> last_index_ (log_ p) + 1 < Capacity -> (PS_append UniqueID_MaxSize s p e).1.1 = 0.
Proof.
  intros He Hge Hc. assert (HC : Capacity = 128) by done. unfold PS_append, Log_append. rewrite (proj2 (Z.leb_gt _ _)) by lia.
  pose proof (writeEntry_reliable s (u8 (last_index_ (log_ p) + 1)) e He) as K. destruct (writeEntryToStorage _ _ _ _) as [r1 s1]. cbn in K. subst r1.
  cbn [Z.ltb Z.compare]. assert (Eu : u32 (last_index_ (log_ p) + 1) = last_index_ (log_ p) + 1) by (apply (wrap_small 32); split; lia).
  pose proof (setAndGetBack_u32_reliable s1 getLastIndexKey (u32 (last_index_ (log_ p) + 1)) ltac:(rewrite Eu; split; lia)) as K2.
  destruct (setAndGetBack_u32 s1 _ _) as [[r2 v2] s2]. injection K2 as -> ->. cbn [Z.ltb Z.compare]. by rewrite Z.eqb_refl.
Qed.

Lemma PS_remove_reliable (s : St) p index : 0 < index < Capacity -> (PS_removeGreaterOrEqual s p index).1.1 = 0.
Proof.
  intros Hi. assert (HC : Capacity = 128) by done. unfold PS_removeGreaterOrEqual, removeEntriesWhereIndexGreaterOrEqual.
  rewrite (proj2 (Z.leb_gt Capacity index)), (proj2 (Z.leb_gt index 0)) by lia. cbn [orb]. destruct (_ =? last_index_ _); [done|].
  assert (Eu : u32 (index - 1) = index - 1) by (apply (wrap_small 32); split; lia).
  pose proof (setAndGetBack_u32_reliable s getLastIndexKey (u32 (index - 1)) ltac:(rewrite Eu; split; lia)) as K.
  destruct (setAndGetBack_u32 s _ _) as [[r2 v2] s2]. injection K as -> ->. cbn [Z.ltb Z.compare]. by rewrite Z.eqb_refl.
Qed.

Lemma setCurrentTerm_reliable (s : St) p t : is_u32 t -> current_term_ p <= t -> (setCurrentTerm s p t).1.1 = 0.
Proof.
  intros Ht Hle. unfold setCurrentTerm. rewrite (proj2 (Z.ltb_ge _ _)) by lia. pose proof (setAndGetBack_u32_reliable s getCurrentTermKey t Ht) as K.
  destruct (setAndGetBack_u32 s _ _) as [[r2 v2] s2]. injection K as -> ->. cbn [Z.ltb Z.compare]. by rewrite Z.eqb_refl.
Qed.
Lemma resetVotedFor_reliable (s : St) p : (resetVotedFor s p).1.1 = 0.
Proof.
  unfold resetVotedFor, setVotedFor. cbn [NodeID.isValid Z.leb Z.compare negb]. pose proof (setAndGetBack_u32_reliable s getVotedForKey 0 ltac:(split; lia)) as K.
  destruct (setAndGetBack_u32 s _ _) as [[r2 v2] s2]. by injection K as -> ->.
Qed.
End reliable.

(** ** First start *)

Lemma get_missing (s : St) key out : st_data s !! key = None -> get_u32 s key out = (- ErrFailure, out) /\ st_get s key = EmptyString.
Proof. intros E. unfold get_u32. rewrite !st_get_ok, E. done. Qed.

Lemma blank_small d : d = ∅ -> nodes_small d.
Proof. intros -> i n out Hi Hg. unfold get_u32 in Hg. cbn [st_get map_storage] in Hg. rewrite lookup_empty in Hg. done. Qed.

Lemma initEmptyLogStorage_ok (s : St) :
  st_data s = ∅ ->
  let '(res, l, s') := initEmptyLogStorage UniqueID_MaxSize s (Log_make UniqueID_MaxSize) in
  res < 0 \/ res = 0 /\ l = Log_make UniqueID_MaxSize /\ Log_inv s' l /\
    (forall k, k ∈ other_keys -> k <> getLastIndexKey -> st_data s' !! k = None).
Proof.
  intros Hd. assert (HC : Capacity = 128) by done. unfold initEmptyLogStorage.
  pose proof (writeEntry_ok s 0 (Entry_default UniqueID_MaxSize) ltac:(lia) (Entry_default_wf _) (blank_small _ Hd)) as Hw.
  destruct (writeEntryToStorage UniqueID_MaxSize s 0 (Entry_default UniqueID_MaxSize)) as [r1 s1]. destruct Hw as (A1 & M1 & R1).
  destruct (Z.ltb_spec r1 0); [by left|]. destruct R1 as [[-> Hes]|]; [|lia].
  pose proof (setAndGetBack_u32_ok s1 getLastIndexKey 0 ltac:(split; lia)) as Hs.
  destruct (setAndGetBack_u32 s1 getLastIndexKey 0) as [[r2 v2] s2]. destruct (Z.ltb_spec r2 0); [by left|].
  destruct Hs as [(-> & -> & A2 & Hh)|([?|Hne] & _)]; [|lia|rewrite (proj2 (Z.eqb_neq _ _) Hne); by left].
  cbn [Z.eqb negb entries_]. rewrite list_insert_id by reflexivity. right. split; [done|]. split; [done|].
  assert (Hat : forall i, 0 <= i <= 0 -> entry_at (Log_make UniqueID_MaxSize) i = Entry_default UniqueID_MaxSize)
    by (intros i Hi; assert (i = 0) as -> by lia; done).
  split; [split|].
  - split; [apply length_replicate|cbn; lia|]. intros i Hi. rewrite Hat by done. apply Entry_default_wf.
  - eapply log_stored_last_only; [exact A2|exact Hh|]. cbn [last_index_]. intros i Hi. split; [lia|].
    change (entry_stored (st_data s1) i (entry_at (Log_make UniqueID_MaxSize) i)). rewrite Hat by done. by assert (i = 0) as -> by lia.
  - eapply nodes_small_off; [exact A2| |done]. intros i Hi. apply last_key_off; [done|postfix_in].
  - intros k Hk Hne. rewrite A2 by (by intros ?%list_elem_of_singleton). rewrite A1 by (apply other_key_off; [lia|done]). by rewrite Hd.
Qed.

(** The first initialisation of the term and of the vote. *)
Lemma init_zero_ok (s : St) key :
  let '(res, v, s') := setAndGetBack_u32 s key 0 in
  res < 0 \/ v <> 0 \/ res = 0 /\ v = 0 /\ agree_off [key] (st_data s) (st_data s') /\ holds_u32 (st_data s') key 0.
Proof.
  pose proof (setAndGetBack_u32_ok s key 0 ltac:(split; lia)) as Hs. destruct (setAndGetBack_u32 s key 0) as [[res v] s']. tauto.
Qed.

(** On an empty storage the server starts with term 0, no vote and the empty entry, or reports
    that it could not write. *)
Lemma PersistentState_init_blank (s : St) :
  st_data s = ∅ ->
  let '(res, p', s') := PersistentState_init UniqueID_MaxSize s (PersistentState_make UniqueID_MaxSize) in
  res < 0 \/ res = 0 /\ PS_inv s' p' /\ ps_view p' = (0, 0, [Entry_default UniqueID_MaxSize]).
Proof.
  intros Hd. unfold PersistentState_init, Log_init. destruct (get_missing s getLastIndexKey 0) as [-> ->]; [by rewrite Hd|].
  change (- ErrFailure <? 0) with true. cbv iota. pose proof (initEmptyLogStorage_ok s Hd) as Hl.
  change (log_ (PersistentState_make UniqueID_MaxSize)) with (Log_make UniqueID_MaxSize).
  destruct (initEmptyLogStorage UniqueID_MaxSize s (Log_make UniqueID_MaxSize)) as [[r1 l] s2].
  destruct Hl as [Hlt|(-> & -> & Hlinv & Hmiss)]; [rewrite (proj2 (Z.ltb_lt _ _) Hlt); by left|].
  cbn [Z.ltb Z.compare]. unfold getEntryAtIndex. cbn [last_index_ Log_make Z.leb Z.compare].
  change (entry_at (Log_make UniqueID_MaxSize) 0) with (Entry_default UniqueID_MaxSize).
  cbn [term Entry_default Z.eqb andb]. unfold init_term.
  destruct (get_missing s2 getCurrentTermKey 0) as [_ ->]; [apply Hmiss; [postfix_in|done]|]. cbn [is_empty andb].
  pose proof (init_zero_ok s2 getCurrentTermKey) as Hs. destruct (setAndGetBack_u32 s2 getCurrentTermKey 0) as [[r3 v3] s3].
  destruct (Z.ltb_spec r3 0) as [Hneg|]; [rewrite ?(proj2 (Z.ltb_lt r3 0) Hneg); by left|].
  destruct (Z.eqb_spec v3 0) as [->|]; cbn [negb]; [|by left]. destruct Hs as [?|[?|(-> & _ & A3 & Hh3)]]; [lia|done|].
  cbn [Z.ltb Z.compare]. pose proof (Log_inv_other_key s2 s3 _ _ Hlinv A3 ltac:(postfix_in) ltac:(done)) as Hlinv3.
  unfold init_vote. destruct (get_missing s3 getVotedForKey 0) as [_ ->].
  { rewrite A3 by (by intros ?%list_elem_of_singleton). apply Hmiss; [postfix_in|done]. }
  cbn [is_empty andb Z.eqb]. pose proof (init_zero_ok s3 getVotedForKey) as Hs. destruct (setAndGetBack_u32 s3 getVotedForKey 0) as [[r4 v4] s4].
  destruct (Z.ltb_spec r4 0) as [|]; [by left|].
  destruct (Z.eqb_spec v4 0) as [->|]; cbn [negb]; [|by left]. destruct Hs as [?|[?|(-> & _ & A4 & Hh4)]]; [lia|done|].
  right. split; [done|]. split; [|done].
  split; cbn [log_ current_term_ voted_for_]; [by eapply Log_inv_other_key; [exact Hlinv3|exact A4|postfix_in|done]| |done|split; lia|change NodeID.Max with 127; lia|].
  - eapply holds_u32_agree; [exact A4|by intros ?%list_elem_of_singleton|done].
  - cbn [last_index_ Log_make]. intros i Hi. by assert (i = 0) as -> by lia.
Qed.

(** The life of a server: it starts on an empty storage, works, and may be restarted on its
    storage at any time. *)
Inductive ps_reachable : St -> PersistentState -> Prop :=
  | ps_first_start s p' s' :
      st_data s = ∅ -> PersistentState_init UniqueID_MaxSize s (PersistentState_make UniqueID_MaxSize) = (0, p', s') -> ps_reachable s' p'
  | ps_work s p op res p' s' :
      ps_reachable s p -> op_ok p op -> ps_step s p op = (res, p', s') -> ps_reachable s' p'
  | ps_restart s p res p' s' :
      ps_reachable s p -> PersistentState_init UniqueID_MaxSize s (PersistentState_make UniqueID_MaxSize) = (res, p', s') -> ps_reachable s' p'.

Lemma make_length : length (entries_ (log_ (PersistentState_make UniqueID_MaxSize))) = Z.to_nat Capacity.
Proof. apply length_replicate. Qed.

Lemma ps_reachable_inv s p : ps_reachable s p -> PS_inv s p.
Proof.
  induction 1 as [s p' s' Hd E|s p op res p' s' _ IH Hop E|s p res p' s' _ IH E].
  - pose proof (PersistentState_init_blank s Hd) as Hi. rewrite E in Hi. destruct Hi as [?|(_ & Hi & _)]; [lia|done].
  - pose proof (ps_step_ok s p op IH Hop) as Hs. rewrite E in Hs. apply Hs.
  - destruct (PersistentState_init_restores s p (PersistentState_make UniqueID_MaxSize) IH make_length) as (q & E' & _ & Hq).
    rewrite E in E'. by injection E' as -> -> ->.
Qed.

(** C14: the term, the vote and the log of a Raft server survive crashes, on a storage whose
    reads do not fail: at every moment of its life, whichever writes to the storage were ignored,
    a restart on that storage succeeds and gives exactly the state the server had in memory; an
    operation that returns success took effect, one that returns an error changed nothing in
    memory, and the current term never decreases. The operations are those the server makes
    ([op_ok]): entries and terms that fit their types, entries not newer than the current term,
    and removals from an index that is at most one past the end of the log. *)
Theorem raft_state_survives_crashes s p op :
  ps_reachable s p -> op_ok p op ->
  (exists p', PersistentState_init UniqueID_MaxSize s (PersistentState_make UniqueID_MaxSize) = (0, p', s) /\ ps_view p' = ps_view p) /\
  (let '(res, p', s') := ps_step s p op in
   ps_reachable s' p' /\ current_term_ p <= current_term_ p' /\
   (res = 0 /\ ps_view p' = op_effect (ps_view p) op \/ res < 0 /\ p' = p)).
Proof.
  intros Hr Hop. pose proof (ps_reachable_inv s p Hr) as Hp. split.
  - destruct (PersistentState_init_restores s p (PersistentState_make UniqueID_MaxSize) Hp make_length) as (q & E & Hq & _). eauto.
  - pose proof (ps_step_ok s p op Hp Hop) as Hs. destruct (ps_step s p op) as [[res p'] s'] eqn:E.
    split; [by eapply ps_work|apply Hs].
Qed.

End writing.

(** A storage that stops writing after a while: a crash. *)
Record FlakyStorage := mkFlaky { fs_data : gmap string string; fs_writes_left : nat }.
#[export] Instance flaky_storage : IStorageBackend FlakyStorage := {
  st_get s k := default EmptyString (fs_data s !! k);
  st_set s k v := match fs_writes_left s with O => s | S n => mkFlaky (<[k := v]> (fs_data s)) n end
}.
#[export] Instance flaky_storage_laws : StorageLaws FlakyStorage.
Proof.
  refine {| st_data := fs_data |}; [by left|]. intros [d [|n]] k v; [right; by left|by left].
Defined.
#[export] Instance flaky_storage_readable : ReadableStorage FlakyStorage := fun _ _ => eq_refl.

Definition example_entry : Entry := mkEntry 1 (replicate 16 0xA5) 42.

Lemma example_entry_wf : Entry_wf 16 example_entry.
Proof. split; cbn [example_entry term unique_id node_id]; [split; lia|apply Forall_replicate; split; lia|done|change NodeID.Max with 127; lia]. Qed.

Lemma raft_state_survives_crashes_witness :
  exists s p, ps_reachable 16 (St := FlakyStorage) s p /\ fs_writes_left s = 1%nat /\ current_term_ p = 1 /\
    let '(res, p', s') := ps_step 16 s p (OpAppend example_entry) in
    res < 0 /\ ps_view p' = (1, 0, [Entry_default 16]) /\ fs_data s' <> fs_data s /\
    exists q, PersistentState_init 16 s' (PersistentState_make 16) = (0, q, s') /\ ps_view q = ps_view p'.
Proof.
  set (s0 := mkFlaky ∅ 8).
  assert (E0 : exists p1 s1, PersistentState_init 16 s0 (PersistentState_make 16) = (0, p1, s1) /\
    (let '(res, p2, s2) := setCurrentTerm s1 p1 1 in
     fs_writes_left s2 = 1%nat /\ current_term_ p2 = 1 /\ (let '(res, p3, s3) := ps_step 16 s2 p2 (OpAppend example_entry) in
       res < 0 /\ ps_view p3 = (1, 0, [Entry_default 16]) /\ bool_decide (fs_data s3 = fs_data s2) = false))).
  { eexists _, _. split; [vm_compute; reflexivity|]. vm_compute. split_and!; reflexivity. }
  destruct E0 as (p1 & s1 & E1 & E2). destruct (setCurrentTerm s1 p1 1) as [[r p2] s2] eqn:Es. destruct E2 as (W & T & E3).
  assert (R1 : ps_reachable 16 s1 p1) by (exact (ps_first_start 16 s0 p1 s1 eq_refl E1)).
  assert (H1 : op_ok 16 p1 (OpSetTerm 1)) by (split; lia).
  assert (R2 : ps_reachable 16 s2 p2) by (exact (ps_work 16 s1 p1 (OpSetTerm 1) r p2 s2 R1 H1 Es)).
  assert (H2 : op_ok 16 p2 (OpAppend example_entry)).
  { split; [exact example_entry_wf|]. rewrite T. cbn. lia. }
  destruct (raft_state_survives_crashes 16 s2 p2 (OpAppend example_entry) R2 H2) as [_ H3].
  exists s2, p2. split; [exact R2|]. split; [exact W|]. split; [exact T|].
  destruct (ps_step 16 s2 p2 (OpAppend example_entry)) as [[res p3] s3]. destruct H3 as (R3 & _ & _). destruct E3 as (N & V & D).
  split; [exact N|]. split; [exact V|]. split; [intros E; apply bool_decide_eq_false_1 in D; exact (D E)|].
  assert (H4 : op_ok 16 p3 (OpSetVote 0)) by (split; lia).
  exact (proj1 (raft_state_survives_crashes 16 s3 p3 (OpSetVote 0) R3 H4)).
Defined.

(** Reads that fail. A write whose value cannot be read back is reported as an error, but it is in the storage: a restart has
    another term than the server had in memory. *)
Example failed_read_back_leaves_the_write :
  let '(_, p, s) := PersistentState_init 16 (∅ : gmap string string) (PersistentState_make 16) in
  let '(res, p', s') := setCurrentTerm (mkFailingReads s [getCurrentTermKey]) p 5 in
  let '(res', q, _) := PersistentState_init 16 (fr_data s') (PersistentState_make 16) in
  res < 0 /\ current_term_ p' = 0 /\ res' = 0 /\ current_term_ q = 5.
Proof. vm_compute. auto. Qed.

(** When the last index cannot be read at a restart, the server takes the storage for an empty one and writes an empty log to it.
    The restart is reported as failed, since the index cannot be read back either, but the entries are gone for the next one. *)
Example failed_read_erases_the_log :
  let '(_, p, s) := PersistentState_init 16 (∅ : gmap string string) (PersistentState_make 16) in
  let '(_, p, s) := setCurrentTerm s p 1 in
  let '(_, p, s) := PS_append 16 s p example_entry in
  let '(res, _, s') := PersistentState_init 16 (mkFailingReads s [getLastIndexKey]) (PersistentState_make 16) in
  let '(res', q, _) := PersistentState_init 16 (fr_data s') (PersistentState_make 16) in
  log_view (log_ p) = [Entry_default 16; example_entry] /\ res < 0 /\ res' = 0 /\ ps_view q = (1, 0, [Entry_default 16]).
Proof. vm_compute. auto. Qed.

(** Removing from an index past the end would bring back entries that were removed: the
    function does not check for it. *)
Example remove_past_the_end_extends :
  let s := (∅ : gmap string string) in
  let '(_, l, s) := Log_init 16 s (Log_make 16) in
  let '(_, l, s) := Log_append 16 s l example_entry in
  let '(_, l, s) := removeEntriesWhereIndexGreaterOrEqual s l 1 in
  length (log_view l) = 1%nat /\
  let '(res, l, s) := removeEntriesWhereIndexGreaterOrEqual s l 2 in res = 0 /\ log_view l = [Entry_default 16; example_entry].
Proof. vm_compute. auto. Qed.
