(* ===== verification/ClusterManager.v ===== *)
(** * ClusterManager: the servers of a Raft cluster

    Models [ClusterManager] of
    [libuavcan/include/uavcan/protocol/dynamic_node_id_server/distributed/cluster_manager.hpp]:
    the other servers a server knows, found by exchanging Discovery messages, with the
    indices the leader keeps for each. The array [servers_] with its count is the list of the
    known servers. [MaxClusterSize] comes from the data type definitions and is a parameter,
    like the transport that broadcasts the message. *)

From stdpp Require Import gmap strings list.
From S2P Require Import Prelude Transfer StorageMarshaller RaftLog.
Local Open Scope Z_scope.

(** [ClusterManager::Server]. *)
Record Server := mkServer { server_node_id : Z; next_index : Z; match_index : Z }.

(** [void Server::resetIndices(const Log& log)]. *)
Definition resetIndices (log : Log) (s : Server) : Server := mkServer (server_node_id s) (u8 (last_index_ log + 1)) 0.

(** [ClusterManager]; the last field is whether the discovery timer runs. *)
Record ClusterManager := mkCluster {
  servers_ : list Server;
  cluster_size_ : Z;
  discovery_running_ : bool
}.

(** [protocol::dynamic_node_id::server::Discovery]. *)
Record Discovery := mkDiscovery { configured_cluster_size : Z; known_nodes : list Z }.

Definition ClusterManager_make : ClusterManager := mkCluster [] 0 false.

Definition num_known_servers_ (c : ClusterManager) : Z := Z.of_nat (length (servers_ c)).
Definition set_servers (c : ClusterManager) (l : list Server) : ClusterManager := mkCluster l (cluster_size_ c) (discovery_running_ c).
Definition set_discovery (c : ClusterManager) (b : bool) : ClusterManager := mkCluster (servers_ c) (cluster_size_ c) b.

(** [Server* findServer(NodeID node_id)]: its position. *)
Definition findServer (c : ClusterManager) (nid : Z) : option nat :=
  fst <$> list_find (fun s => server_node_id s = nid) (servers_ c).

(** [uint8_t getQuorumSize() const]. *)
Definition getQuorumSize (c : ClusterManager) : Z := u8 (cluster_size_ c / 2 + 1).

(** [bool isClusterDiscovered() const]. *)
Definition isClusterDiscovered (c : ClusterManager) : bool := num_known_servers_ c =? cluster_size_ c - 1.

(** [bool isKnownServer(NodeID node_id) const] of the node [self]. *)
Definition isKnownServer (self : Z) (c : ClusterManager) (nid : Z) : bool :=
  (nid =? self) || existsb (fun s => server_node_id s =? nid) (servers_ c).

(** [void addServer(NodeID node_id)]. *)
Definition addServer (self : Z) (c : ClusterManager) (log : Log) (nid : Z) : ClusterManager :=
  if negb (isKnownServer self c nid) && NodeID.isUnicast nid then
    set_servers c (servers_ c ++ [resetIndices log (mkServer nid 0 0)])
  else c.

(** [NodeID getRemoteServerNodeIDAtIndex(uint8_t index) const]. *)
Definition getRemoteServerNodeIDAtIndex (c : ClusterManager) (index : Z) : Z :=
  match servers_ c !! Z.to_nat index with
  | Some s => server_node_id s
  | None => NodeID.ValueInvalid
  end.

(** [Log::Index getServerNextIndex(NodeID server_node_id) const]. *)
Definition getServerNextIndex (c : ClusterManager) (nid : Z) : Z :=
  match findServer c nid with
  | Some k => default 0 (next_index <$> servers_ c !! k)
  | None => 0
  end.

(** [Log::Index getServerMatchIndex(NodeID server_node_id) const]. *)
Definition getServerMatchIndex (c : ClusterManager) (nid : Z) : Z :=
  match findServer c nid with
  | Some k => default 0 (match_index <$> servers_ c !! k)
  | None => 0
  end.

(** Updating the server with an ID, if it is known. *)
Definition update_server (c : ClusterManager) (nid : Z) (f : Server -> Server) : ClusterManager :=
  match findServer c nid with
  | Some k => set_servers c (alter f k (servers_ c))
  | None => c
  end.

(** [void incrementServerNextIndexBy(NodeID server_node_id, Log::Index increment)]. *)
Definition incrementServerNextIndexBy (c : ClusterManager) (nid increment : Z) : ClusterManager :=
  update_server c nid (fun s => mkServer (server_node_id s) (u8 (next_index s + increment)) (match_index s)).

(** [void decrementServerNextIndex(NodeID server_node_id)]. *)
Definition decrementServerNextIndex (c : ClusterManager) (nid : Z) : ClusterManager :=
  update_server c nid (fun s => mkServer (server_node_id s) (u8 (next_index s - 1)) (match_index s)).

(** [void setServerMatchIndex(NodeID server_node_id, Log::Index match_index)]. *)
Definition setServerMatchIndex (c : ClusterManager) (nid index : Z) : ClusterManager :=
  update_server c nid (fun s => mkServer (server_node_id s) (next_index s) index).

(** [void resetAllServerIndices()]. *)
Definition resetAllServerIndices (c : ClusterManager) (log : Log) : ClusterManager :=
  set_servers c (resetIndices log <$> servers_ c).

(** [void startDiscoveryPublishingTimerIfNotRunning()]. *)
Definition startDiscoveryPublishingTimerIfNotRunning (c : ClusterManager) : ClusterManager := set_discovery c true.

(** The loop of [handleDiscovery] over the nodes of the message. *)
Fixpoint add_known (self : Z) (c : ClusterManager) (log : Log) (nodes : list Z) : ClusterManager :=
  match nodes with
  | [] => c
  | nid :: nodes =>
    if isClusterDiscovered c then c
    else add_known self (if NodeID.isUnicast nid && negb (isKnownServer self c nid) then addServer self c log nid else c) log nodes
  end.

(** [void handleDiscovery(const ReceivedDataStructure<Discovery>& msg)]. *)
Definition handleDiscovery (self : Z) (c : ClusterManager) (log : Log) (msg : Discovery) : ClusterManager :=
  if negb (configured_cluster_size msg =? cluster_size_ c) then c
  else
    let c := add_known self c log (known_nodes msg) in
    if Z.of_nat (length (known_nodes msg)) <? configured_cluster_size msg then startDiscoveryPublishingTimerIfNotRunning c else c.

(** [virtual void handleTimerEvent(const TimerEvent&)]: the message to broadcast. *)
Definition Cluster_handleTimerEvent (self : Z) (c : ClusterManager) : Discovery * ClusterManager :=
  let msg := mkDiscovery (cluster_size_ c) (self :: (server_node_id <$> servers_ c)) in
  (msg, if isClusterDiscovered c then set_discovery c false else c).

Definition getStorageKeyForClusterSize : string := "cluster_size".
Definition ClusterSizeUnknown : Z := 0.

(** [int init(const uint8_t init_cluster_size, const TransferPriority priority)]; [pub_res] and [sub_res]
    are the results of starting the publisher and the subscriber. *)
Definition Cluster_init {St} `{IStorageBackend St} (MaxClusterSize : Z) (s : St) (c : ClusterManager) (log : Log)
    (init_cluster_size pub_res sub_res : Z) : Z * ClusterManager * St :=
  let '(res, size, s) :=
    if init_cluster_size =? ClusterSizeUnknown then
      let '(res, value) := get_u32 s getStorageKeyForClusterSize 0 in
      if res <? 0 then (res, cluster_size_ c, s)
      else if (value =? 0) || (MaxClusterSize <? value) then (- ErrInvalidConfiguration, cluster_size_ c, s)
      else (0, u8 value, s)
    else if MaxClusterSize <? init_cluster_size then (- ErrInvalidParam, cluster_size_ c, s)
    else
      let '(res, value, s) := setAndGetBack_u32 s getStorageKeyForClusterSize init_cluster_size in
      if (res <? 0) || negb (value =? init_cluster_size) then (- ErrFailure, init_cluster_size, s)
      else (0, init_cluster_size, s) in
  let c := mkCluster (servers_ c) size (discovery_running_ c) in
  if res <? 0 then (res, c, s)
  else if pub_res <? 0 then (pub_res, c, s)
  else if sub_res <? 0 then (sub_res, c, s)
  else (0, resetAllServerIndices (startDiscoveryPublishingTimerIfNotRunning c) log, s).

(** ** The set of known servers *)

Definition server_ids (c : ClusterManager) : list Z := server_node_id <$> servers_ c.

(** The known servers are different nodes of the cluster [C], and not the node itself; there is
    room for them in the array. *)
Record Cluster_inv (C : gset Z) (self : Z) (c : ClusterManager) : Prop := {
  ci_nodup : NoDup (server_ids c);
  ci_members nid : nid ∈ server_ids c -> nid ∈ C /\ nid <> self /\ NodeID.isUnicast nid = true;
  ci_size : cluster_size_ c = Z.of_nat (size C)
}.

Lemma isKnownServer_spec self c nid : isKnownServer self c nid = true <-> nid = self \/ nid ∈ server_ids c.
Proof.
  unfold isKnownServer, server_ids. rewrite orb_true_iff, Z.eqb_eq, existsb_exists. split; (intros [->|Hx]; [by left|right]).
  - destruct Hx as (s & Hs & E%Z.eqb_eq). apply list_elem_of_fmap. exists s. split; [done|by apply list_elem_of_In].
  - apply list_elem_of_fmap in Hx as (s & -> & Hs). exists s. split; [by apply list_elem_of_In|apply Z.eqb_refl].
Qed.

Lemma addServer_ok C self c log nid : Cluster_inv C self c -> nid ∈ C -> Cluster_inv C self (addServer self c log nid).
Proof.
  intros [H1 H2 H3] Hn. unfold addServer. destruct (isKnownServer self c nid) eqn:Ek; cbn [negb andb]; [done|].
  destruct (NodeID.isUnicast nid) eqn:Eu; [|done].
  assert (Hne : ~ (nid = self \/ nid ∈ server_ids c)) by (rewrite <-isKnownServer_spec; congruence).
  split; unfold server_ids in *; cbn [servers_ set_servers cluster_size_] in *; [| |done].
  - rewrite fmap_app. apply NoDup_app. split_and!; [done| |apply NoDup_singleton]. intros x Hx ->%list_elem_of_singleton. tauto.
  - intros x. rewrite fmap_app, elem_of_app. intros [Hx| ->%list_elem_of_singleton]; [by apply H2|]. cbn. split_and!; [done|tauto|done].
Qed.

Lemma add_known_ok C self log nodes c :
  Cluster_inv C self c -> Forall (fun nid => NodeID.isUnicast nid = true -> nid ∈ C) nodes -> Cluster_inv C self (add_known self c log nodes).
Proof.
  revert c. induction nodes as [|nid nodes IH]; intros c Hc Hn; cbn [add_known]; [done|].
  apply Forall_cons in Hn as [Hn Hns]. destruct (isClusterDiscovered c); [done|]. apply IH; [|done].
  destruct (NodeID.isUnicast nid) eqn:Eu; cbn [andb]; [|done]. destruct (isKnownServer self c nid); cbn [negb]; [done|].
  apply addServer_ok; auto.
Qed.

Lemma handleDiscovery_ok C self c log msg :
  Cluster_inv C self c -> Forall (fun nid => NodeID.isUnicast nid = true -> nid ∈ C) (known_nodes msg) ->
  Cluster_inv C self (handleDiscovery self c log msg).
Proof.
  intros Hc Hn. unfold handleDiscovery. destruct (negb _); [done|]. pose proof (add_known_ok C self log _ c Hc Hn) as [H1 H2 H3].
  destruct (_ <? _); split; done.
Qed.

Lemma update_server_ids c nid f : (forall s, server_node_id (f s) = server_node_id s) -> server_ids (update_server c nid f) = server_ids c.
Proof.
  intros Hf. unfold update_server. destruct (findServer c nid) as [k|]; [|done]. unfold server_ids. cbn [servers_ set_servers].
  revert k. induction (servers_ c) as [|s l IH]; intros [|k]; cbn; [done|done|by rewrite Hf|]. f_equal. apply IH.
Qed.

Lemma Cluster_inv_ids C self c c' : server_ids c' = server_ids c -> cluster_size_ c' = cluster_size_ c -> Cluster_inv C self c -> Cluster_inv C self c'.
Proof. intros E1 E2 [H1 H2 H3]. split; rewrite ?E1, ?E2; done. Qed.

Lemma reset_ids c log : server_ids (resetAllServerIndices c log) = server_ids c.
Proof. unfold server_ids, resetAllServerIndices. cbn. rewrite <-list_fmap_compose. apply list_fmap_ext. by intros i s _. Qed.

Lemma update_server_size c nid f : cluster_size_ (update_server c nid f) = cluster_size_ c.
Proof. unfold update_server. by destruct (findServer c nid). Qed.
