(* ===== verification/RaftCore.v ===== *)
(** * RaftCore: one server of the Raft cluster

    Models [RaftCore] of
    [libuavcan/include/uavcan/protocol/dynamic_node_id_server/distributed/raft_core.hpp]: its
    timer handler, the handlers of requests and responses, and [appendLog]. A handler is a
    function on the state of the server; a request handler also returns the response, or none
    if it was disabled. The pending calls of the two service clients are lists of the servers
    called with the requests sent. The constants of the data types are parameters. What the
    code calls outside the library, the clock, [std::rand], the transport of the calls and the
    [IRaftLeaderMonitor], is the class [RaftEnv]: a monitor may append entries when it is told
    that its node became leader. Tracing is left out. *)

From stdpp Require Import gmap strings list list_numbers.
From S2P Require Import Prelude MonoTime Transfer StorageMarshaller RaftLog ClusterManager.
Local Open Scope Z_scope.

Inductive ServerState := ServerStateFollower | ServerStateCandidate | ServerStateLeader.
#[export] Instance ServerState_eq_dec : EqDecision ServerState.
Proof. solve_decision. Defined.

(** [RequestVote] and [AppendEntries]. *)
Record VoteRequest := mkVoteRequest { vr_term : Z; vr_last_log_term : Z; vr_last_log_index : Z }.
Record VoteResponse := mkVoteResponse { vs_term : Z; vs_vote_granted : bool }.
Record AppendRequest := mkAppendRequest {
  ar_term : Z; ar_prev_log_term : Z; ar_prev_log_index : Z; ar_leader_commit : Z; ar_entries : list Entry
}.
Record AppendResponse := mkAppendResponse { as_term : Z; as_success : bool }.

(** What the core uses of its surroundings. *)
Class RaftEnv (W : Type) := {
  env_now : W -> Z * W;
  env_rand : W -> Z * W;
  env_call_vote : W -> Z -> VoteRequest -> Z * W;
  env_call_append : W -> Z -> AppendRequest -> Z * W;
  env_leadership : W -> bool -> PersistentState -> list (list Z * Z) * W;
  env_commit : W -> Entry -> W
}.

Section core.
Context (UniqueID_MaxSize : nat) (MIN_TIMEOUT MAX_TIMEOUT : Z) (entries_capacity : nat) (MaxClusterSize : Z).
Context {W : Type} `{RaftEnv W} {St : Type} `{IStorageBackend St}.
Context (self : Z).

Record RaftCore := mkRaft {
  world_ : W;
  storage_ : St;
  persistent_state_ : PersistentState;
  cluster_ : ClusterManager;
  commit_index_ : Z;
  last_activity_timestamp_ : Z;
  randomized_activity_timeout_ : Z;
  server_state_ : ServerState;
  next_server_index_ : Z;
  num_votes_received_in_this_campaign_ : Z;
  pending_append_entries_fields_ : Z * Z;       (** [prev_log_index], [num_entries] *)
  request_vote_calls : list (Z * VoteRequest);
  append_entries_calls : list (Z * AppendRequest)
}.

Definition set_world (r : RaftCore) (w : W) : RaftCore :=
  mkRaft w (storage_ r) (persistent_state_ r) (cluster_ r) (commit_index_ r) (last_activity_timestamp_ r)
    (randomized_activity_timeout_ r) (server_state_ r) (next_server_index_ r) (num_votes_received_in_this_campaign_ r)
    (pending_append_entries_fields_ r) (request_vote_calls r) (append_entries_calls r).
Definition set_persist (r : RaftCore) (p : PersistentState) (s : St) : RaftCore :=
  mkRaft (world_ r) s p (cluster_ r) (commit_index_ r) (last_activity_timestamp_ r)
    (randomized_activity_timeout_ r) (server_state_ r) (next_server_index_ r) (num_votes_received_in_this_campaign_ r)
    (pending_append_entries_fields_ r) (request_vote_calls r) (append_entries_calls r).
Definition set_cluster (r : RaftCore) (c : ClusterManager) : RaftCore :=
  mkRaft (world_ r) (storage_ r) (persistent_state_ r) c (commit_index_ r) (last_activity_timestamp_ r)
    (randomized_activity_timeout_ r) (server_state_ r) (next_server_index_ r) (num_votes_received_in_this_campaign_ r)
    (pending_append_entries_fields_ r) (request_vote_calls r) (append_entries_calls r).
Definition set_commit (r : RaftCore) (i : Z) : RaftCore :=
  mkRaft (world_ r) (storage_ r) (persistent_state_ r) (cluster_ r) i (last_activity_timestamp_ r)
    (randomized_activity_timeout_ r) (server_state_ r) (next_server_index_ r) (num_votes_received_in_this_campaign_ r)
    (pending_append_entries_fields_ r) (request_vote_calls r) (append_entries_calls r).
Definition set_activity (r : RaftCore) (ts timeout : Z) : RaftCore :=
  mkRaft (world_ r) (storage_ r) (persistent_state_ r) (cluster_ r) (commit_index_ r) ts
    timeout (server_state_ r) (next_server_index_ r) (num_votes_received_in_this_campaign_ r)
    (pending_append_entries_fields_ r) (request_vote_calls r) (append_entries_calls r).
Definition set_role (r : RaftCore) (st : ServerState) (next votes : Z) : RaftCore :=
  mkRaft (world_ r) (storage_ r) (persistent_state_ r) (cluster_ r) (commit_index_ r) (last_activity_timestamp_ r)
    (randomized_activity_timeout_ r) st next votes
    (pending_append_entries_fields_ r) (request_vote_calls r) (append_entries_calls r).
Definition set_pending (r : RaftCore) (f : Z * Z) : RaftCore :=
  mkRaft (world_ r) (storage_ r) (persistent_state_ r) (cluster_ r) (commit_index_ r) (last_activity_timestamp_ r)
    (randomized_activity_timeout_ r) (server_state_ r) (next_server_index_ r) (num_votes_received_in_this_campaign_ r)
    f (request_vote_calls r) (append_entries_calls r).
Definition set_calls (r : RaftCore) (v : list (Z * VoteRequest)) (a : list (Z * AppendRequest)) : RaftCore :=
  mkRaft (world_ r) (storage_ r) (persistent_state_ r) (cluster_ r) (commit_index_ r) (last_activity_timestamp_ r)
    (randomized_activity_timeout_ r) (server_state_ r) (next_server_index_ r) (num_votes_received_in_this_campaign_ r)
    (pending_append_entries_fields_ r) v a.

Abbreviation raft_log r := (log_ (persistent_state_ r)).
Abbreviation raft_term r := (current_term_ (persistent_state_ r)).

(** [void registerActivity()]. *)
Definition registerActivity (r : RaftCore) : RaftCore :=
  let '(now, w) := env_now (world_ r) in
  let '(rand, w) := env_rand w in
  let random_msec := rand mod (MAX_TIMEOUT - MIN_TIMEOUT) + 1 in
  set_activity (set_world r w) now (Duration.fromMSec (MIN_TIMEOUT + random_msec)).

(** [bool isActivityTimedOut() const]. *)
Definition isActivityTimedOut (r : RaftCore) : bool * RaftCore :=
  let '(now, w) := env_now (world_ r) in
  (MTime.plus (last_activity_timestamp_ r) (randomized_activity_timeout_ r) <? now, set_world r w).

(** The states [switchState] resets. *)
Definition reset_for (r : RaftCore) (new_state : ServerState) : RaftCore :=
  set_calls (set_role (set_cluster r (resetAllServerIndices (cluster_ r) (raft_log r))) new_state 0 0) [] [].

(** [leader_monitor_.handleLocalLeadershipChange(local_node_is_leader)]: what it appends. *)
Definition notify_leadership (r : RaftCore) (is_leader : bool) : list (list Z * Z) * RaftCore :=
  let '(appended, w) := env_leadership (world_ r) is_leader (persistent_state_ r) in (appended, set_world r w).

(** [void switchState(ServerState new_state)] to a state other than the leader's; a monitor that
    is told that the node is no leader any more cannot append. *)
Definition switch_away (r : RaftCore) (new_state : ServerState) : RaftCore :=
  if decide (server_state_ r = new_state) then r
  else
    let r' := reset_for r new_state in
    if decide (server_state_ r = ServerStateLeader) then (notify_leadership r' false).2 else r'.

(** [void handlePersistentStateUpdateError(int error)]. *)
Definition handlePersistentStateUpdateError (r : RaftCore) : RaftCore := registerActivity (switch_away r ServerStateFollower).

(** [void appendLog(const Entry::FieldTypes::unique_id& unique_id, NodeID node_id)]. *)
Definition appendLog (r : RaftCore) (uid : list Z) (nid : Z) : RaftCore :=
  if decide (server_state_ r = ServerStateLeader) then
    let entry := mkEntry (raft_term r) uid nid in
    let '(res, p, s) := PS_append UniqueID_MaxSize (storage_ r) (persistent_state_ r) entry in
    let r := set_persist r p s in
    if res <? 0 then handlePersistentStateUpdateError r else r
  else r.

(** [void switchState(ServerState new_state)]. *)
Definition switchState (r : RaftCore) (new_state : ServerState) : RaftCore :=
  match new_state with
  | ServerStateLeader =>
    if decide (server_state_ r = ServerStateLeader) then r
    else
      let '(appended, r) := notify_leadership (reset_for r ServerStateLeader) true in
      foldl (fun r x => appendLog r x.1 x.2) r appended
  | _ => switch_away r new_state
  end.

(** [void updateFollower()]. *)
Definition updateFollower (r : RaftCore) : RaftCore :=
  let '(timed_out, r) := isActivityTimedOut r in
  if timed_out then registerActivity (switchState r ServerStateCandidate) else r.

(** The loop of [updateCandidate] over the other servers, [n] of them from [i] on. *)
Fixpoint request_votes (r : RaftCore) (n : nat) (i : Z) (req : VoteRequest) : RaftCore :=
  match n with
  | O => r
  | S n =>
    let nid := getRemoteServerNodeIDAtIndex (cluster_ r) i in
    if negb (NodeID.isUnicast nid) then r
    else
      let '(res, w) := env_call_vote (world_ r) nid req in
      let r := set_world r w in
      let r := if res <? 0 then r else set_calls r (request_vote_calls r ++ [(nid, req)]) (append_entries_calls r) in
      request_votes r n (i + 1) req
  end.

(** [void updateCandidate()]. *)
Definition updateCandidate (r : RaftCore) : RaftCore :=
  if 0 <? num_votes_received_in_this_campaign_ r then
    let won := getQuorumSize (cluster_ r) <=? num_votes_received_in_this_campaign_ r in
    switchState r (if won then ServerStateLeader else ServerStateFollower)
  else
    let '(res, p, s) := setVotedFor (storage_ r) (persistent_state_ r) self in
    let r := set_persist r p s in
    if res <? 0 then handlePersistentStateUpdateError r
    else
      let '(res, p, s) := setCurrentTerm (storage_ r) (persistent_state_ r) (u32 (raft_term r + 1)) in
      let r := set_persist r p s in
      if res <? 0 then handlePersistentStateUpdateError r
      else
        let r := set_role r (server_state_ r) (next_server_index_ r) 1 in
        let last_log_index := last_index_ (raft_log r) in
        let req := mkVoteRequest (raft_term r) (term (entry_at UniqueID_MaxSize (raft_log r) last_log_index)) last_log_index in
        request_votes r (Z.to_nat (MaxClusterSize - 1)) 0 req.

(** The loop of [propagateCommitIndex] over the known servers. *)
Definition num_nodes_with_next_log_entry_available (r : RaftCore) : Z :=
  foldl (fun n s =>
    if commit_index_ r <? getServerMatchIndex (cluster_ r) (server_node_id s) then u8 (n + 1) else n) 1 (servers_ (cluster_ r)).

(** [void propagateCommitIndex()]. *)
Definition propagateCommitIndex (r : RaftCore) : RaftCore :=
  if commit_index_ r <? last_index_ (raft_log r) then
    if getQuorumSize (cluster_ r) <=? num_nodes_with_next_log_entry_available r then
      let r := set_commit r (u8 (commit_index_ r + 1)) in
      match getEntryAtIndex UniqueID_MaxSize (raft_log r) (commit_index_ r) with
      | Some e => set_world r (env_commit (world_ r) e)
      | None => r
      end
    else r
  else r.

(** The entries [updateLeader] sends: from [index] to the last one, as many as fit. *)
Definition entries_from (r : RaftCore) (index : Z) : list Entry :=
  take entries_capacity (entry_at UniqueID_MaxSize (raft_log r) <$> seqZ index (last_index_ (raft_log r) + 1 - index)).

(** [void updateLeader()]. *)
Definition updateLeader (r : RaftCore) : RaftCore :=
  let r := set_calls r (request_vote_calls r) [] in
  if 1 <? cluster_size_ (cluster_ r) then
    let nid := getRemoteServerNodeIDAtIndex (cluster_ r) (next_server_index_ r) in
    let next := u8 (next_server_index_ r + 1) in
    let next := if num_known_servers_ (cluster_ r) <=? next then 0 else next in
    let r := set_role r (server_state_ r) next (num_votes_received_in_this_campaign_ r) in
    let next_index := getServerNextIndex (cluster_ r) nid in
    let prev_log_index := u8 (next_index - 1) in
    match getEntryAtIndex UniqueID_MaxSize (raft_log r) prev_log_index with
    | None => handlePersistentStateUpdateError r
    | Some entry =>
      let entries := entries_from r next_index in
      let req := mkAppendRequest (raft_term r) (term entry) prev_log_index (commit_index_ r) entries in
      let r := set_pending r (prev_log_index, Z.of_nat (length entries)) in
      let '(res, w) := env_call_append (world_ r) nid req in
      let r := set_world r w in
      let r := if res <? 0 then r else set_calls r (request_vote_calls r) (append_entries_calls r ++ [(nid, req)]) in
      propagateCommitIndex r
    end
  else propagateCommitIndex r.

(** [virtual void handleTimerEvent(const TimerEvent&)]. *)
Definition handleTimerEvent (r : RaftCore) : RaftCore :=
  match server_state_ r with
  | ServerStateFollower => updateFollower r
  | ServerStateCandidate => updateCandidate r
  | ServerStateLeader => updateLeader r
  end.

(** [void tryIncrementCurrentTermFromResponse(Term new_term)]. *)
Definition tryIncrementCurrentTermFromResponse (r : RaftCore) (new_term : Z) : RaftCore :=
  let '(_, p, s) := setCurrentTerm (storage_ r) (persistent_state_ r) new_term in
  switchState (registerActivity (set_persist r p s)) ServerStateFollower.

(** The loop of [handleAppendEntriesRequest] over the entries: whether all were appended. *)
Fixpoint append_all (r : RaftCore) (entries : list Entry) : bool * RaftCore :=
  match entries with
  | [] => (true, r)
  | e :: entries =>
    let '(res, p, s) := PS_append UniqueID_MaxSize (storage_ r) (persistent_state_ r) e in
    let r := set_persist r p s in
    if res <? 0 then (false, r) else append_all r entries
  end.

(** The steps 2 to 5 of [handleAppendEntriesRequest]. *)
Definition append_steps (r : RaftCore) (req : AppendRequest) : option AppendResponse * RaftCore :=
  let failure := mkAppendResponse (raft_term r) false in
  match getEntryAtIndex UniqueID_MaxSize (raft_log r) (ar_prev_log_index req) with
  | None => (Some failure, r)
  | Some prev_entry =>
    if negb (term prev_entry =? ar_prev_log_term req) then
      let '(res, p, s) := PS_removeGreaterOrEqual (storage_ r) (persistent_state_ r) (ar_prev_log_index req) in
      (if res <? 0 then None else Some failure, set_persist r p s)
    else
      let '(res, r) :=
        if negb (ar_prev_log_index req =? last_index_ (raft_log r)) then
          let '(res, p, s) := PS_removeGreater (storage_ r) (persistent_state_ r) (ar_prev_log_index req) in
          (res, set_persist r p s)
        else (0, r) in
      if res <? 0 then (None, r)
      else
        let '(ok, r) := append_all r (ar_entries req) in
        if negb ok then (None, r)
        else
          let r := if commit_index_ r <? ar_leader_commit req
                   then set_commit r (Z.min (ar_leader_commit req) (last_index_ (raft_log r))) else r in
          (Some (mkAppendResponse (as_term failure) true), r)
  end.

(** Taking over a newer term: the vote of the old one is forgotten. *)
Definition adopt_term (r : RaftCore) (new_term : Z) : bool * RaftCore :=
  let '(res, p, s) := setCurrentTerm (storage_ r) (persistent_state_ r) new_term in
  let r := set_persist r p s in
  if res <? 0 then (false, handlePersistentStateUpdateError r)
  else
    let '(res, p, s) := resetVotedFor (storage_ r) (persistent_state_ r) in
    let r := set_persist r p s in
    if res <? 0 then (false, handlePersistentStateUpdateError r) else (true, r).

(** [void handleAppendEntriesRequest(request, response)], for a request from [src]. *)
Definition handleAppendEntriesRequest (r : RaftCore) (src : Z) (req : AppendRequest) : option AppendResponse * RaftCore :=
  if negb (isKnownServer self (cluster_ r) src) && isClusterDiscovered (cluster_ r) then (None, r)
  else
    let r := if isKnownServer self (cluster_ r) src then r
             else set_cluster r (addServer self (cluster_ r) (raft_log r) src) in
    let '(ok, r) := if raft_term r <? ar_term req then adopt_term r (ar_term req) else (true, r) in
    if negb ok then (None, r)
    else if ar_term req <? raft_term r then (Some (mkAppendResponse (raft_term r) false), r)
    else append_steps (switchState (registerActivity r) ServerStateFollower) req.

(** [void handleAppendEntriesResponse(const ServiceCallResult<AppendEntries>& result)] of a call to
    [server]: no response if the call timed out. *)
Definition handleAppendEntriesResponse (r : RaftCore) (server : Z) (result : option AppendResponse) : RaftCore :=
  match result with
  | None => r
  | Some resp =>
    let r :=
      if raft_term r <? as_term resp then tryIncrementCurrentTermFromResponse r (as_term resp)
      else if as_success resp then
        let '(prev_log_index, num_entries) := pending_append_entries_fields_ r in
        let c := incrementServerNextIndexBy (cluster_ r) server num_entries in
        set_cluster r (setServerMatchIndex c server (u8 (prev_log_index + num_entries)))
      else set_cluster r (decrementServerNextIndex (cluster_ r) server) in
    set_pending r (0, 0)
  end.

(** [void handleRequestVoteRequest(request, response)], for a request from [src]. *)
Definition handleRequestVoteRequest (r : RaftCore) (src : Z) (req : VoteRequest) : option VoteResponse * RaftCore :=
  if negb (isKnownServer self (cluster_ r) src) then (None, r)
  else
    let '(ok, r) :=
      if raft_term r <? vr_term req then adopt_term (switchState r ServerStateFollower) (vr_term req) else (true, r) in
    if negb ok then (None, r)
    else
      let response_term := raft_term r in
      if vr_term req <? response_term then (Some (mkVoteResponse response_term false), r)
      else
        let can_vote := negb (isVotedForSet (persistent_state_ r)) || (voted_for_ (persistent_state_ r) =? src) in
        let log_is_up_to_date :=
          isOtherLogUpToDate UniqueID_MaxSize (raft_log r) (vr_last_log_index req) (vr_last_log_term req) in
        if can_vote && log_is_up_to_date then
          let r := registerActivity (switchState r ServerStateFollower) in
          let '(res, p, s) := setVotedFor (storage_ r) (persistent_state_ r) src in
          let r := set_persist r p s in
          (if res <? 0 then None else Some (mkVoteResponse response_term true), r)
        else (Some (mkVoteResponse response_term false), r).

(** [void handleRequestVoteResponse(const ServiceCallResult<RequestVote>& result)]: no response if
    the call timed out. *)
Definition handleRequestVoteResponse (r : RaftCore) (result : option VoteResponse) : RaftCore :=
  match result with
  | None => r
  | Some resp =>
    if raft_term r <? vs_term resp then tryIncrementCurrentTermFromResponse r (vs_term resp)
    else if vs_vote_granted resp then
      set_role r (server_state_ r) (next_server_index_ r) (u8 (num_votes_received_in_this_campaign_ r + 1))
    else r
  end.

(** [RaftCore(INode& node, IStorageBackend& storage, ...)]. *)
Definition RaftCore_make (w : W) (s : St) : RaftCore :=
  let '(now, w) := env_now w in
  mkRaft w s (PersistentState_make UniqueID_MaxSize) ClusterManager_make 0 now (Duration.fromMSec MAX_TIMEOUT)
    ServerStateFollower 0 0 (0, 0) [] [].

(** The first error of a sequence of calls. *)
Fixpoint first_error (results : list Z) : Z :=
  match results with
  | [] => 0
  | res :: results => if res <? 0 then res else first_error results
  end.

(** [int init(const uint8_t cluster_size, const TransferPriority priority)]; [pub_res] and [sub_res] are the
    results of starting the discovery publisher and subscriber, [srv_res] those of starting
    the two service servers and clients. *)
Definition RaftCore_init (r : RaftCore) (cluster_size pub_res sub_res : Z) (srv_res : list Z) : Z * RaftCore :=
  let r := set_commit (set_role r ServerStateFollower 0 0) 0 in
  let r := registerActivity r in
  let '(res, p, s) := PersistentState_init UniqueID_MaxSize (storage_ r) (persistent_state_ r) in
  let r := set_persist r p s in
  if res <? 0 then (res, r)
  else
    let '(res, c, s) := Cluster_init MaxClusterSize (storage_ r) (cluster_ r) (raft_log r) cluster_size pub_res sub_res in
    let r := set_cluster (set_persist r (persistent_state_ r) s) c in
    if res <? 0 then (res, r) else (first_error srv_res, r).

(** The update interval [init] starts the timer with. *)
Definition update_interval (r : RaftCore) : Z :=
  Duration.fromMSec (MIN_TIMEOUT / 2 / Z.max 2 (u8 (cluster_size_ (cluster_ r) - 1))).

(** [traverseLogFromEndUntil(predicate)], from index [n - 1] down to 0: the entry found and
    whether it is committed. *)
Fixpoint traverseLogFromEndUntil (r : RaftCore) (predicate : Entry -> bool -> bool) (n : nat) : option (Entry * bool) :=
  match n with
  | O => None
  | S index =>
    let entry := entry_at UniqueID_MaxSize (raft_log r) (Z.of_nat index) in
    let committed := Z.of_nat index <=? commit_index_ r in
    if predicate entry committed then Some (entry, committed) else traverseLogFromEndUntil r predicate index
  end.

(** [bool areAllLogEntriesCommitted() const]. *)
Definition areAllLogEntriesCommitted (r : RaftCore) : bool := commit_index_ r =? last_index_ (raft_log r).

(** [Log::Index getNumAllocations() const]. *)
Definition getNumAllocations (r : RaftCore) : Z := last_index_ (raft_log r).

End core.
Arguments RaftCore : clear implicits.

(** ** What a handler may do

    The parts of the state that elections depend on, and what the handlers do to them. *)

(** The monitor appends proper entries. *)
Class MonitorEntries (UniqueID_MaxSize : nat) (W : Type) `{RaftEnv W} :=
  monitor_entries w b p :
    Forall (fun x => bytes x.1 /\ length x.1 = UniqueID_MaxSize /\ 0 <= x.2 <= NodeID.Max) (env_leadership w b p).1.

Section safety.
Context (UniqueID_MaxSize : nat) (MIN_TIMEOUT MAX_TIMEOUT : Z) (entries_capacity : nat) (MaxClusterSize : Z).
Context {W : Type} `{RaftEnv W} `{!MonitorEntries UniqueID_MaxSize W} {St : Type} `{StorageLaws St} `{!ReadableStorage St}.
Context (C : gset Z) (self : Z) (Hself : self ∈ C).
Context (HC : forall nid, nid ∈ C -> NodeID.isUnicast nid = true /\ 0 <= nid <= NodeID.Max).

Abbreviation raft_log r := (log_ (persistent_state_ r)).
Abbreviation raft_term r := (current_term_ (persistent_state_ r)).
Abbreviation raft_vote r := (voted_for_ (persistent_state_ r)).
Abbreviation votes r := (num_votes_received_in_this_campaign_ r).
Abbreviation switchState := (switchState UniqueID_MaxSize MIN_TIMEOUT MAX_TIMEOUT).
Abbreviation registerActivity := (registerActivity MIN_TIMEOUT MAX_TIMEOUT).
Abbreviation handlePersistentStateUpdateError := (handlePersistentStateUpdateError MIN_TIMEOUT MAX_TIMEOUT).
Abbreviation PS_inv := (PS_inv UniqueID_MaxSize).
Implicit Types r : RaftCore W St.

Record raft_inv r : Prop := {
  ri_ps : PS_inv (storage_ r) (persistent_state_ r);
  ri_cluster : Cluster_inv C self (cluster_ r);
  ri_votes : 0 <= votes r;
  ri_role : server_state_ r <> ServerStateCandidate -> votes r = 0;
  ri_calls : votes r = 0 -> request_vote_calls r = []
}.

(** The election state, which time, commit index and outgoing log calls are not part of. *)
Definition core_view r := (storage_ r, persistent_state_ r, cluster_ r, server_state_ r, votes r, request_vote_calls r).

Lemma core_view_inv r r' : core_view r' = core_view r -> raft_inv r -> raft_inv r'.
Proof. unfold core_view. intros [= E1 E2 E3 E4 E5 E6] [I1 I2 I3 I4 I5].
  split; rewrite ?E1, ?E2, ?E3, ?E4, ?E5, ?E6; done.
Qed.

(** Not a leader and not campaigning. *)
Definition idle r : Prop := server_state_ r <> ServerStateLeader /\ votes r = 0 /\ request_vote_calls r = [].

Definition same_role r r' : Prop :=
  server_state_ r' = server_state_ r /\ votes r' = votes r /\ request_vote_calls r' = request_vote_calls r /\ raft_term r' = raft_term r.

(** The term does not decrease; in the same term the vote changes to the own node at most. *)
Definition loose r r' : Prop :=
  raft_inv r' /\ raft_term r <= raft_term r' /\ (raft_term r' = raft_term r -> raft_vote r' = raft_vote r \/ raft_vote r' = self).

(** A step that neither campaigns, nor grants a vote, nor makes a leader. *)
Definition quiet r r' : Prop := loose r r' /\ (idle r' \/ same_role r r').

Lemma quiet_refl r : raft_inv r -> quiet r r.
Proof. intros Hr. split; [split_and!; [done|lia|by left]|right; by split_and!]. Qed.

Lemma quiet_view r r1 r2 : core_view r2 = core_view r1 -> quiet r r1 -> quiet r r2.
Proof.
  intros E [(I & T & V) R]. pose proof (core_view_inv _ _ E I) as I2. unfold core_view in E. injection E as E1 E2 E3 E4 E5 E6.
  unfold quiet, loose, idle, same_role. rewrite E2, E4, E5, E6. done.
Qed.

Lemma loose_trans r1 r2 r3 : loose r1 r2 -> loose r2 r3 -> loose r1 r3.
Proof.
  intros (_ & T1 & V1) (I2 & T2 & V2). split_and!; [done|lia|]. intros E. specialize (V1 ltac:(lia)). specialize (V2 ltac:(lia)).
  destruct V2 as [->|]; auto.
Qed.

Lemma quiet_trans r1 r2 r3 : quiet r1 r2 -> quiet r2 r3 -> quiet r1 r3.
Proof.
  intros [L1 R1] [L2 R2]. split; [by eapply loose_trans|]. destruct R2 as [R2|(A & B & D & E)]; [by left|].
  destruct R1 as [(X & Y & Z1)|(A' & B' & D' & E')].
  - left. unfold idle. rewrite A, B, D. done.
  - right. unfold same_role. by rewrite A, B, D, E.
Qed.

(** ** The building blocks *)

Lemma registerActivity_view r : core_view (registerActivity r) = core_view r.
Proof. unfold RaftCore.registerActivity. destruct (env_now (world_ r)) as [now w]. by destruct (env_rand w). Qed.

Lemma notify_view r b : core_view (notify_leadership r b).2 = core_view r.
Proof. unfold notify_leadership. by destruct (env_leadership _ _ _). Qed.

Lemma reset_for_inv r st : raft_inv r -> raft_inv (reset_for r st).
Proof.
  intros [I1 I2 I3 I4 I5]. split; cbn; try done. eapply Cluster_inv_ids; [apply reset_ids|done|done].
Qed.

(** Leaving the leader's or the candidate's state. *)
Lemma switch_away_ok r st : raft_inv r -> st <> ServerStateLeader ->
  quiet r (switch_away r st) /\ server_state_ (switch_away r st) = st /\ persistent_state_ (switch_away r st) = persistent_state_ r.
Proof.
  intros Hr Hst. unfold switch_away. case_decide as E; [split_and!; [by apply quiet_refl|done|done]|].
  assert (Hq : quiet r (reset_for r st)).
  { split; [split_and!; [by apply reset_for_inv|cbn; lia|by left]|]. left. split_and!; done. }
  case_decide; [|split_and!; [done|done|done]]. pose proof (notify_view (reset_for r st) false) as Ev.
  split; [by eapply quiet_view|]. unfold core_view in Ev. injection Ev as _ E2 _ E4 _ _. by rewrite E2, E4.
Qed.

(** Becoming a follower always ends a campaign. *)
Lemma follower_idle r : raft_inv r -> server_state_ r = ServerStateFollower -> idle r.
Proof. intros [_ _ _ I4 I5] E. split_and!; [congruence|apply I4; congruence|apply I5, I4; congruence]. Qed.

Lemma update_error_ok r : raft_inv r ->
  quiet r (handlePersistentStateUpdateError r) /\ idle (handlePersistentStateUpdateError r) /\
  persistent_state_ (handlePersistentStateUpdateError r) = persistent_state_ r.
Proof.
  intros Hr. unfold RaftCore.handlePersistentStateUpdateError.
  destruct (switch_away_ok r ServerStateFollower Hr ltac:(done)) as (Q & S & P).
  pose proof (registerActivity_view (switch_away r ServerStateFollower)) as Ev.
  assert (Q' : quiet r (registerActivity (switch_away r ServerStateFollower))) by by eapply quiet_view.
  unfold core_view in Ev. injection Ev as _ E2 _ E4 _ _. split_and!; [done| |by rewrite E2].
  apply follower_idle; [apply Q'|by rewrite E4].
Qed.

Lemma set_persist_inv r p s : raft_inv r -> PS_inv s p -> raft_inv (set_persist r p s).
Proof. intros [I1 I2 I3 I4 I5] Hp. by split. Qed.

(** Changing the log only. *)
Lemma set_persist_quiet r p s :
  raft_inv r -> PS_inv s p -> current_term_ p = raft_term r -> voted_for_ p = raft_vote r -> quiet r (set_persist r p s).
Proof.
  intros Hr Hp Ht Hv. split; [split_and!; [by apply set_persist_inv|cbn; lia|by left]|]. right. by split_and!.
Qed.

(** A step that changes no term and no vote either. *)
Definition calm r r' : Prop :=
  raft_inv r' /\ raft_term r' = raft_term r /\ raft_vote r' = raft_vote r /\ (idle r' \/ same_role r r').

Lemma calm_quiet r r' : calm r r' -> quiet r r'.
Proof. intros (I & T & V & R). split; [split_and!; [done|lia|by left]|done]. Qed.

Lemma calm_trans r1 r2 r3 : calm r1 r2 -> calm r2 r3 -> calm r1 r3.
Proof.
  intros C1 C2. pose proof (quiet_trans _ _ _ (calm_quiet _ _ C1) (calm_quiet _ _ C2)) as [_ R].
  destruct C1 as (_ & T1 & V1 & _), C2 as (I2 & T2 & V2 & _). split_and!; [done|congruence|congruence|done].
Qed.

Lemma appendLog_ok r uid nid :
  raft_inv r -> bytes uid -> length uid = UniqueID_MaxSize -> 0 <= nid <= NodeID.Max ->
  calm r (appendLog UniqueID_MaxSize MIN_TIMEOUT MAX_TIMEOUT r uid nid).
Proof.
  intros Hr Hb Hl Hn. unfold appendLog. case_decide; [|split_and!; [done|done|done|right; by split_and!]].
  pose proof (PS_append_ok UniqueID_MaxSize (storage_ r) (persistent_state_ r) (mkEntry (raft_term r) uid nid) (ri_ps _ Hr)) as Ha.
  destruct (PS_append UniqueID_MaxSize (storage_ r) (persistent_state_ r) (mkEntry (raft_term r) uid nid)) as [[res p] s].
  destruct Ha as (P1 & P2 & P3 & _); [split; cbn; try done; apply (pi_term_u32 _ _ _ (ri_ps _ Hr))|cbn; lia|].
  pose proof (set_persist_quiet r p s Hr P1 P2 P3) as Q. destruct (res <? 0); [|split_and!; [apply Q|done|done|apply Q]].
  destruct (update_error_ok (set_persist r p s) ltac:(apply Q)) as (Q2 & I & E). split_and!; [apply Q2|by rewrite E|by rewrite E|by left].
Qed.

(** What a new leader appends changes its log only, unless an error ends its leadership. *)
Lemma appendLogs_ok l r :
  raft_inv r -> Forall (fun x => bytes x.1 /\ length x.1 = UniqueID_MaxSize /\ 0 <= x.2 <= NodeID.Max) l ->
  calm r (foldl (fun r x => appendLog UniqueID_MaxSize MIN_TIMEOUT MAX_TIMEOUT r x.1 x.2) r l).
Proof.
  revert r. induction l as [|x l IH]; intros r Hr Hl; [split_and!; [done|done|done|right; by split_and!]|].
  apply Forall_cons in Hl as [(X1 & X2 & X3) Hl].
  cbn [foldl]. pose proof (appendLog_ok r x.1 x.2 Hr X1 X2 X3) as Q. eapply calm_trans; [exact Q|]. apply IH; [apply Q|done].
Qed.

Lemma set_cluster_quiet r c : raft_inv r -> Cluster_inv C self c -> quiet r (set_cluster r c).
Proof.
  intros [I1 I2 I3 I4 I5] Hc. split; [split_and!; [by split|cbn; lia|by left]|]. right. by split_and!.
Qed.

(** ** The handlers that hold no election *)

Lemma quiet_loose r r' : quiet r r' -> loose r r'.
Proof. by intros [? _]. Qed.

Lemma loose_inv r r' : loose r r' -> raft_inv r'.
Proof. by intros [? _]. Qed.

(** From idle on, only votes and terms change. *)
Lemma quiet_idle r r' : quiet r r' -> idle r -> idle r'.
Proof. intros [_ [?|(A & B & D & _)]] (X & Y & Z1); [done|]. unfold idle. by rewrite A, B, D. Qed.

Lemma quiet_from_idle r r1 r2 : loose r r1 -> idle r1 -> quiet r1 r2 -> quiet r r2.
Proof. intros L I Q. split; [eapply loose_trans; [exact L|by apply quiet_loose]|left; by eapply quiet_idle]. Qed.

(** A handler that ends in the follower's state. *)
Lemma become_follower r r1 : loose r r1 ->
  quiet r (switch_away r1 ServerStateFollower) /\ idle (switch_away r1 ServerStateFollower) /\
  persistent_state_ (switch_away r1 ServerStateFollower) = persistent_state_ r1.
Proof.
  intros L. destruct (switch_away_ok r1 ServerStateFollower (loose_inv _ _ L) ltac:(done)) as (Q & S & P).
  assert (I : idle (switch_away r1 ServerStateFollower)) by (apply follower_idle; [apply Q|done]).
  split_and!; [|done|done]. split; [eapply loose_trans; [exact L|by apply quiet_loose]|by left].
Qed.

Lemma view_loose r r1 r2 : core_view r2 = core_view r1 -> loose r r1 -> loose r r2.
Proof.
  intros E (I & T & V). pose proof (core_view_inv _ _ E I) as I2. unfold core_view in E. injection E as E1 E2 E3 E4 E5 E6.
  unfold loose. by rewrite E2.
Qed.

Lemma set_term_loose r t :
  raft_inv r -> is_u32 t ->
  let '(res, p, s) := setCurrentTerm (storage_ r) (persistent_state_ r) t in
  loose r (set_persist r p s) /\ voted_for_ p = raft_vote r /\ (res = 0 /\ current_term_ p = t /\ raft_term r <= t \/ res < 0 /\ p = persistent_state_ r).
Proof.
  intros Hr Ht. pose proof (setCurrentTerm_ok UniqueID_MaxSize (storage_ r) (persistent_state_ r) t (ri_ps _ Hr) Ht) as Hs.
  destruct (setCurrentTerm (storage_ r) (persistent_state_ r) t) as [[res p] s]. destruct Hs as (P1 & P2 & P3 & P4).
  split_and!; [|done|destruct P4 as [(-> & -> & ?)|[? ->]]; auto].
  split_and!; cbn; [by apply set_persist_inv|destruct P4 as [(_ & -> & ?)|[_ ->]]; lia|by left].
Qed.

Lemma tryIncrement_ok r t :
  raft_inv r -> is_u32 t -> quiet r (tryIncrementCurrentTermFromResponse UniqueID_MaxSize MIN_TIMEOUT MAX_TIMEOUT r t).
Proof.
  intros Hr Ht. unfold tryIncrementCurrentTermFromResponse. pose proof (set_term_loose r t Hr Ht) as Hs.
  destruct (setCurrentTerm (storage_ r) (persistent_state_ r) t) as [[res p] s]. destruct Hs as (L & _).
  cbn [RaftCore.switchState]. apply become_follower. eapply view_loose; [apply registerActivity_view|exact L].
Qed.

(** Taking over a newer term either fails, and then the server is idle, or leaves it without a
    vote in that term. *)
Lemma adopt_term_ok r t :
  raft_inv r -> is_u32 t -> raft_term r < t ->
  let '(ok, r') := adopt_term MIN_TIMEOUT MAX_TIMEOUT r t in
  loose r r' /\
  if ok then raft_term r' = t /\ raft_vote r' = 0 /\ server_state_ r' = server_state_ r /\ cluster_ r' = cluster_ r else idle r'.
Proof.
  intros Hr Ht Hlt. unfold adopt_term. pose proof (set_term_loose r t Hr Ht) as Hs.
  destruct (setCurrentTerm (storage_ r) (persistent_state_ r) t) as [[res p] s]. destruct Hs as (L & Hv & Hres).
  destruct (Z.ltb_spec res 0).
  { destruct (update_error_ok (set_persist r p s) (loose_inv _ _ L)) as (Q & I & _).
    split; [eapply loose_trans; [exact L|by apply quiet_loose]|done]. }
  destruct Hres as [(-> & Hpt & _)|]; [|lia]. unfold resetVotedFor. cbn [storage_ persistent_state_ set_persist].
  pose proof (setVotedFor_ok UniqueID_MaxSize s p 0 (ri_ps _ (loose_inv _ _ L)) ltac:(split; lia)) as Hs.
  destruct (setVotedFor s p 0) as [[res2 p2] s2]. destruct Hs as (P1 & P2 & P3 & P4).
  assert (L2 : loose r (set_persist (set_persist r p s) p2 s2)).
  { split_and!; cbn [persistent_state_ set_persist]; [by apply set_persist_inv; [apply set_persist_inv|]; [|apply (ri_ps _ (loose_inv _ _ L))|]|lia|lia]. }
  destruct (Z.ltb_spec res2 0).
  { destruct (update_error_ok _ (loose_inv _ _ L2)) as (Q & I & _). split; [eapply loose_trans; [exact L2|by apply quiet_loose]|done]. }
  destruct P4 as [(-> & Hv2)|]; [|lia]. split; [done|]. cbn. split_and!; [congruence|done|done|done].
Qed.

Lemma append_all_ok entries r :
  raft_inv r -> Forall (fun e => Entry_wf UniqueID_MaxSize e /\ term e <= raft_term r) entries ->
  quiet r (append_all UniqueID_MaxSize r entries).2.
Proof.
  revert r. induction entries as [|e entries IH]; intros r Hr He; cbn [append_all]; [by apply quiet_refl|].
  apply Forall_cons in He as [[Hw Ht] He].
  pose proof (PS_append_ok UniqueID_MaxSize (storage_ r) (persistent_state_ r) e (ri_ps _ Hr) Hw Ht) as Ha.
  destruct (PS_append UniqueID_MaxSize (storage_ r) (persistent_state_ r) e) as [[res p] s]. destruct Ha as (P1 & P2 & P3 & _).
  pose proof (set_persist_quiet r p s Hr P1 P2 P3) as Q. destruct (res <? 0); [done|].
  eapply quiet_trans; [exact Q|]. apply IH; [apply Q|]. cbn [persistent_state_ set_persist]. by rewrite P2.
Qed.

Lemma remove_quiet r index :
  raft_inv r -> index <= last_index_ (raft_log r) + 1 ->
  let '(res, p, s) := PS_removeGreaterOrEqual (storage_ r) (persistent_state_ r) index in
  quiet r (set_persist r p s) /\ current_term_ p = raft_term r.
Proof.
  intros Hr Hi. pose proof (PS_remove_ok UniqueID_MaxSize (storage_ r) (persistent_state_ r) index (ri_ps _ Hr) Hi) as Hs.
  destruct (PS_removeGreaterOrEqual (storage_ r) (persistent_state_ r) index) as [[res p] s]. destruct Hs as (P1 & P2 & P3 & _).
  split; [by apply set_persist_quiet|done].
Qed.

Lemma append_steps_ok r req :
  raft_inv r -> is_u8 (ar_prev_log_index req) ->
  Forall (fun e => Entry_wf UniqueID_MaxSize e /\ term e <= raft_term r) (ar_entries req) ->
  quiet r (append_steps UniqueID_MaxSize r req).2.
Proof.
  intros Hr [Hp0 Hp1] He. unfold append_steps, getEntryAtIndex.
  destruct (Z.leb_spec (ar_prev_log_index req) (last_index_ (raft_log r))) as [Hle|]; [|by apply quiet_refl].
  destruct (negb (term _ =? _)).
  { pose proof (remove_quiet r (ar_prev_log_index req) Hr ltac:(lia)) as Hs.
    destruct (PS_removeGreaterOrEqual (storage_ r) (persistent_state_ r) (ar_prev_log_index req)) as [[res p] s]. apply Hs. }
  assert (Hrem : let '(res, r1) := (if negb (ar_prev_log_index req =? last_index_ (raft_log r)) then
          let '(res, p, s) := PS_removeGreater (storage_ r) (persistent_state_ r) (ar_prev_log_index req) in
          (res, set_persist r p s) else (0, r)) in quiet r r1 /\ raft_term r1 = raft_term r).
  { destruct (negb _); [|split; [by apply quiet_refl|done]].
    pose proof (lw_last _ _ (li_wf _ _ _ (pi_log _ _ _ (ri_ps _ Hr)))) as Hlast. change Capacity with 128 in Hlast.
    pose proof (remove_quiet r (ar_prev_log_index req + 1) Hr ltac:(lia)) as Hs.
    unfold PS_removeGreater, removeEntriesWhereIndexGreater. rewrite (wrap_small 8) by (split; lia).
    unfold PS_removeGreaterOrEqual in Hs.
    destruct (removeEntriesWhereIndexGreaterOrEqual (storage_ r) (raft_log r) (ar_prev_log_index req + 1)) as [[res l] s]. exact Hs. }
  destruct (if negb (ar_prev_log_index req =? last_index_ (raft_log r)) then _ else _) as [res r1]. destruct Hrem as [Q1 T1].
  destruct (res <? 0); [done|]. pose proof (append_all_ok (ar_entries req) r1 ltac:(apply Q1) ltac:(by rewrite T1)) as Q2.
  destruct (append_all UniqueID_MaxSize r1 (ar_entries req)) as [ok r2]. cbn [snd] in Q2.
  pose proof (quiet_trans _ _ _ Q1 Q2) as Q. destruct (negb ok); [done|]. cbn [snd]. destruct (_ <? _); [|done].
  by eapply quiet_view; [|exact Q].
Qed.

Lemma AppendEntriesRequest_quiet r src req :
  raft_inv r -> src ∈ C -> is_u32 (ar_term req) -> is_u8 (ar_prev_log_index req) ->
  Forall (fun e => Entry_wf UniqueID_MaxSize e /\ term e <= ar_term req) (ar_entries req) ->
  quiet r (handleAppendEntriesRequest UniqueID_MaxSize MIN_TIMEOUT MAX_TIMEOUT self r src req).2.
Proof.
  intros Hr Hsrc Ht Hp He. unfold handleAppendEntriesRequest. destruct (_ && _); [by apply quiet_refl|].
  set (r1 := if isKnownServer self (cluster_ r) src then r else set_cluster r (addServer self (cluster_ r) (raft_log r) src)).
  assert (Q1 : quiet r r1).
  { unfold r1. destruct (isKnownServer _ _ _); [by apply quiet_refl|]. apply set_cluster_quiet; [done|]. apply addServer_ok; [apply Hr|done]. }
  clearbody r1. assert (Ha : let '(ok, r2) := (if raft_term r1 <? ar_term req then adopt_term MIN_TIMEOUT MAX_TIMEOUT r1 (ar_term req) else (true, r1)) in
    loose r r2 /\ if ok then ar_term req <= raft_term r2 /\ (raft_term r2 = ar_term req \/ r2 = r1) else idle r2).
  { destruct (Z.ltb_spec (raft_term r1) (ar_term req)) as [Hlt|]; [|split; [apply Q1|split; [done|by right]]].
    pose proof (adopt_term_ok r1 (ar_term req) ltac:(apply Q1) Ht Hlt) as Ha. destruct (adopt_term _ _ _ _) as [ok r2]. destruct Ha as (L & Hok).
    split; [eapply loose_trans; [apply Q1|done]|]. destruct ok; [|done]. destruct Hok as (E & _). split; [lia|by left]. }
  destruct (if _ <? _ then _ else _) as [ok r2]. destruct Ha as [L Hok].
  destruct ok; cbn [negb]; [|split; [done|by left]]. destruct Hok as [Hle Hor].
  destruct (Z.ltb_spec (ar_term req) (raft_term r2)) as [Hlt|]; [destruct Hor as [?| ->]; [lia|done]|].
  cbn [RaftCore.switchState]. destruct (become_follower r (registerActivity r2)) as (Q3 & I3 & P3).
  { eapply view_loose; [apply registerActivity_view|done]. }
  eapply quiet_from_idle; [by apply quiet_loose|done|]. apply append_steps_ok; [apply Q3|done|]. rewrite P3.
  pose proof (registerActivity_view r2) as Ev. unfold core_view in Ev. injection Ev as _ -> _ _ _ _.
  eapply Forall_impl; [exact He|]. intros e [? ?]. split; [done|lia].
Qed.

Lemma AppendEntriesResponse_quiet r server result :
  raft_inv r -> (forall resp, result = Some resp -> is_u32 (as_term resp)) ->
  quiet r (handleAppendEntriesResponse UniqueID_MaxSize MIN_TIMEOUT MAX_TIMEOUT r server result).
Proof.
  intros Hr Hres. unfold handleAppendEntriesResponse. destruct result as [resp|]; [|by apply quiet_refl].
  match goal with |- quiet _ (set_pending ?x _) => assert (Hq : quiet r x); [|by eapply quiet_view; [|exact Hq]] end.
  destruct (_ <? _); [apply tryIncrement_ok; auto|].
  destruct (as_success resp); [destruct (pending_append_entries_fields_ r) as [prev num]|]; apply set_cluster_quiet; try done;
    repeat (eapply Cluster_inv_ids; [apply update_server_ids; by intros|apply update_server_size|]); apply Hr.
Qed.

Lemma handleDiscovery_quiet r msg :
  raft_inv r -> Forall (fun nid => NodeID.isUnicast nid = true -> nid ∈ C) (known_nodes msg) ->
  quiet r (set_cluster r (handleDiscovery self (cluster_ r) (raft_log r) msg)).
Proof. intros Hr Hm. apply set_cluster_quiet; [done|]. apply handleDiscovery_ok; [apply Hr|done]. Qed.

(** ** Votes *)

(** A vote is granted in the request's term only, to a server that may have it, and the server
    that grants it is neither leader nor candidate afterwards. *)
Definition granted r r' (src t : Z) : Prop :=
  raft_inv r' /\ idle r' /\ raft_term r <= t /\ raft_term r' = t /\ raft_vote r' = src /\
  (raft_term r = t -> NodeID.isUnicast (raft_vote r) = false \/ raft_vote r = src).

Lemma RequestVoteRequest_ok r src req :
  raft_inv r -> src ∈ C -> is_u32 (vr_term req) ->
  let '(resp, r') := handleRequestVoteRequest UniqueID_MaxSize MIN_TIMEOUT MAX_TIMEOUT self r src req in
  (if default false (vs_vote_granted <$> resp) then granted r r' src (vr_term req) else quiet r r') /\
  forall x, resp = Some x -> vs_term x = raft_term r'.
Proof.
  intros Hr Hsrc Ht. unfold handleRequestVoteRequest. destruct (isKnownServer self (cluster_ r) src); cbn [negb]; [|split; [by apply quiet_refl|done]].
  assert (Ha : let '(ok, r1) := (if raft_term r <? vr_term req
      then adopt_term MIN_TIMEOUT MAX_TIMEOUT (switchState r ServerStateFollower) (vr_term req) else (true, r)) in
    quiet r r1 /\ (ok = true -> vr_term req <= raft_term r1 /\ (r1 = r \/ raft_term r < vr_term req /\ raft_term r1 = vr_term req /\ raft_vote r1 = 0))).
  { destruct (Z.ltb_spec (raft_term r) (vr_term req)) as [Hlt|]; [|split; [by apply quiet_refl|split; [lia|by left]]].
    cbn [RaftCore.switchState]. destruct (become_follower r r) as (Q & I & P); [apply (quiet_loose r r), quiet_refl, Hr|].
    assert (Hlt' : raft_term (switch_away r ServerStateFollower) < vr_term req) by by rewrite P.
    pose proof (adopt_term_ok (switch_away r ServerStateFollower) (vr_term req) ltac:(apply Q) Ht Hlt') as Ha. destruct (switch_away_ok r ServerStateFollower Hr ltac:(done)) as (_ & ES & _).
    destruct (adopt_term _ _ _ _) as [ok r1]. destruct Ha as (L & Hok). assert (Hi : idle r1).
    { destruct ok; [|done]. destruct Hok as (_ & _ & E & _). apply follower_idle; [by eapply loose_inv|congruence]. }
    split; [split; [eapply loose_trans; [by apply quiet_loose|done]|by left]|]. intros ->. destruct Hok as (? & ? & _). split; [lia|right]. done. }
  destruct (if _ <? _ then _ else _) as [ok r1]. destruct Ha as [Q1 Hok].
  destruct ok; cbn [negb]; [|split; [done|done]]. destruct (Hok eq_refl) as [Hle Hor].
  destruct (Z.ltb_spec (vr_term req) (raft_term r1)) as [|Hge]; [split; [done|by intros ? [= <-]]|].
  destruct (_ && _) eqn:Ev; [|split; [done|by intros ? [= <-]]]. apply andb_true_iff in Ev as [Ec _].
  cbn [RaftCore.switchState]. destruct (become_follower r r1) as (Q2 & I2 & P2); [by apply quiet_loose|].
  set (r2 := switch_away r1 ServerStateFollower) in *. clearbody r2. pose proof (registerActivity_view r2) as Ev.
  pose proof (quiet_view r r2 _ Ev Q2) as Q3. assert (I3 : idle (registerActivity r2)).
  { unfold core_view in Ev. injection Ev as _ _ _ E4 E5 E6. unfold idle. by rewrite E4, E5, E6. }
  assert (P3 : persistent_state_ (registerActivity r2) = persistent_state_ r1) by (unfold core_view in Ev; congruence).
  set (r3 := registerActivity r2) in *. clearbody r3.
  pose proof (setVotedFor_ok UniqueID_MaxSize (storage_ r3) (persistent_state_ r3) src (ri_ps _ (loose_inv _ _ (quiet_loose _ _ Q3)))
    ltac:(destruct (HC src Hsrc) as [_ Hx]; change NodeID.Max with 127 in Hx; split; lia)) as Hs.
  destruct (setVotedFor (storage_ r3) (persistent_state_ r3) src) as [[res p] s]. destruct Hs as (V1 & V2 & V3 & V4).
  destruct (Z.ltb_spec res 0).
  { cbn. split; [|done]. destruct V4 as [[? _]|[_ ->]]; [lia|]. eapply quiet_trans; [exact Q3|]. apply set_persist_quiet; try done. apply Q3. }
  destruct V4 as [[_ V4]|]; [|lia]. split; [|intros ? [= <-]; cbn; congruence]. cbn. unfold granted. cbn [persistent_state_ set_persist].
  split_and!; [apply set_persist_inv; [apply Q3|done]|exact I3| |rewrite V3, P3; lia|done|].
  - destruct Q1 as [(_ & ? & _) _]. lia.
  - intros E. destruct Hor as [->|[? _]]; [|lia]. apply orb_true_iff in Ec as [Ec|Ec]; [left|right; lia].
    unfold isVotedForSet in Ec. by destruct (NodeID.isUnicast _).
Qed.

(** A response counts at most one vote, and only in the campaign of its call. *)
Lemma RequestVoteResponse_ok r result :
  raft_inv r -> (forall resp, result = Some resp -> is_u32 (vs_term resp)) ->
  let r' := handleRequestVoteResponse UniqueID_MaxSize MIN_TIMEOUT MAX_TIMEOUT r result in
  quiet r r' \/
  (exists resp, result = Some resp /\ vs_vote_granted resp = true) /\
  r' = set_role r (server_state_ r) (next_server_index_ r) (u8 (votes r + 1)).
Proof.
  intros Hr Hres. unfold handleRequestVoteResponse. destruct result as [resp|]; [|left; by apply quiet_refl].
  destruct (_ <? _); [left; apply tryIncrement_ok; auto|]. destruct (vs_vote_granted resp) eqn:E; [right; eauto|left; by apply quiet_refl].
Qed.

(** ** The timer *)

(** The start of a campaign: the server votes for itself in a new term and calls other servers,
    each of them at most once, for that term. *)
Definition campaign r r' : Prop :=
  raft_inv r' /\ server_state_ r' = ServerStateCandidate /\ votes r' = 1 /\ raft_term r' = raft_term r + 1 /\ raft_vote r' = self /\
  NoDup (request_vote_calls r').*1 /\
  forall nid req, (nid, req) ∈ request_vote_calls r' -> nid ∈ C /\ nid <> self /\ vr_term req = raft_term r'.

(** The end of a campaign that was won. *)
Definition won r r' : Prop :=
  raft_inv r' /\ server_state_ r = ServerStateCandidate /\ getQuorumSize (cluster_ r) <= votes r /\ 0 < votes r /\
  raft_term r' = raft_term r /\ raft_vote r' = raft_vote r /\ votes r' = 0 /\ request_vote_calls r' = [].

Lemma request_votes_ok n i req r :
  0 <= i ->
  let r' := request_votes r n i req in
  storage_ r' = storage_ r /\ persistent_state_ r' = persistent_state_ r /\ cluster_ r' = cluster_ r /\
  server_state_ r' = server_state_ r /\ votes r' = votes r /\
  exists l, request_vote_calls r' = request_vote_calls r ++ ((fun nid => (nid, req)) <$> l) /\
    l `sublist_of` drop (Z.to_nat i) (server_ids (cluster_ r)).
Proof.
  revert i r. induction n as [|n IH]; intros i r Hi; cbn [request_votes].
  { split_and!; try done. exists []. split; [by rewrite app_nil_r|apply sublist_nil_l]. }
  unfold getRemoteServerNodeIDAtIndex. destruct (servers_ (cluster_ r) !! Z.to_nat i) as [sv|] eqn:Es.
  2:{ change (negb (NodeID.isUnicast NodeID.ValueInvalid)) with true. cbv iota. split_and!; try done.
      exists []. split; [by rewrite app_nil_r|apply sublist_nil_l]. }
  destruct (negb (NodeID.isUnicast (server_node_id sv))).
  { split_and!; try done. exists []. split; [by rewrite app_nil_r|apply sublist_nil_l]. }
  destruct (env_call_vote (world_ r) (server_node_id sv) req) as [res w].
  assert (Ed : drop (Z.to_nat i) (server_ids (cluster_ r)) = server_node_id sv :: drop (Z.to_nat (i + 1)) (server_ids (cluster_ r))).
  { replace (Z.to_nat (i + 1)) with (S (Z.to_nat i)) by lia. apply drop_S. unfold server_ids. by rewrite list_lookup_fmap, Es. }
  rewrite Ed. destruct (res <? 0).
  - destruct (IH (i + 1) (set_world r w) ltac:(lia)) as (-> & -> & -> & -> & -> & l & -> & Hl). split_and!; try done.
    exists l. split; [done|by apply sublist_cons].
  - match goal with |- context [request_votes ?x _ _ _] => destruct (IH (i + 1) x ltac:(lia)) as (-> & -> & -> & -> & -> & l & -> & Hl) end.
    split_and!; try done. exists (server_node_id sv :: l). split; [|by apply sublist_skip].
    cbn [request_vote_calls set_calls set_world fmap list_fmap]. by rewrite <-app_assoc.
Qed.

(** A vote for itself before the term changes. *)
Lemma self_vote_loose r :
  raft_inv r ->
  let '(res, p, s) := setVotedFor (storage_ r) (persistent_state_ r) self in
  loose r (set_persist r p s) /\ current_term_ p = raft_term r /\ (res < 0 \/ res = 0 /\ voted_for_ p = self).
Proof.
  intros Hr. pose proof (setVotedFor_ok UniqueID_MaxSize (storage_ r) (persistent_state_ r) self (ri_ps _ Hr)
    ltac:(destruct (HC self Hself) as [_ Hx]; change NodeID.Max with 127 in Hx; split; lia)) as Hs.
  destruct (setVotedFor (storage_ r) (persistent_state_ r) self) as [[res p] s]. destruct Hs as (V1 & V2 & V3 & V4).
  split_and!; [|done|tauto]. split_and!; cbn [persistent_state_ set_persist]; [by apply set_persist_inv|lia|].
  intros _. destruct V4 as [[_ ->]|[_ ->]]; [by right|by left].
Qed.

Lemma updateCandidate_campaign r :
  raft_inv r -> server_state_ r = ServerStateCandidate -> votes r = 0 ->
  let r' := updateCandidate UniqueID_MaxSize MIN_TIMEOUT MAX_TIMEOUT MaxClusterSize self r in quiet r r' \/ campaign r r'.
Proof.
  intros Hr Hc Hv. unfold updateCandidate. rewrite Hv. cbn [Z.ltb Z.compare].
  pose proof (self_vote_loose r Hr) as Hs. destruct (setVotedFor (storage_ r) (persistent_state_ r) self) as [[res p] s].
  destruct Hs as (L1 & T1 & R1). destruct (Z.ltb_spec res 0).
  { left. destruct (update_error_ok _ (loose_inv _ _ L1)) as (Q & I & _). by eapply quiet_from_idle; [eapply loose_trans; [exact L1|by apply quiet_loose]|exact I|apply quiet_refl, Q]. }
  destruct R1 as [?|[_ V1]]; [lia|]. set (r1 := set_persist r p s) in *.
  pose proof (wrap_range 32 (raft_term r1 + 1) ltac:(lia)) as Hu.
  pose proof (set_term_loose r1 (u32 (raft_term r1 + 1)) (loose_inv _ _ L1) Hu) as Hs.
  destruct (setCurrentTerm (storage_ r1) (persistent_state_ r1) (u32 (raft_term r1 + 1))) as [[res2 p2] s2].
  destruct Hs as (L2 & V2 & R2). destruct (Z.ltb_spec res2 0).
  { left. destruct (update_error_ok _ (loose_inv _ _ L2)) as (Q & I & _).
    eapply quiet_from_idle; [|exact I|apply quiet_refl, Q]. eapply loose_trans; [exact L1|]. eapply loose_trans; [exact L2|by apply quiet_loose]. }
  right. destruct R2 as [(-> & T2 & G2)|]; [|lia].
  assert (T3 : current_term_ p2 = raft_term r + 1).
  { rewrite T2 in *. change (raft_term r1) with (current_term_ p) in *. rewrite T1 in *.
    pose proof (pi_term_u32 _ _ _ (ri_ps _ Hr)) as [U1 U2]. destruct (decide (raft_term r + 1 < 2 ^ 32)).
    - apply wrap_small. split; lia.
    - assert (raft_term r + 1 = 2 ^ 32) as E by lia. rewrite E in G2. exfalso. revert G2. change (u32 (2 ^ 32)) with 0. lia. }
  match goal with |- campaign _ (request_votes ?x ?n ?i ?q) => pose proof (request_votes_ok n i q x ltac:(lia)) as Hq;
    set (r' := request_votes x n i q) in *; clearbody r' end.
  destruct Hq as (E1 & E2 & E3 & E4 & E5 & l & E6 & E7). cbn in E1, E2, E3, E4, E5. subst r1.
  cbn [request_vote_calls set_role set_persist cluster_] in E6, E7. rewrite (ri_calls _ Hr Hv) in E6. cbn [app] in E6.
  pose proof (ri_cluster _ Hr) as [D1 D2 D3]. rewrite drop_0 in E7.
  unfold campaign. rewrite E2, E4, E5, E6. split_and!; [|done|done|done|rewrite V2; exact V1| |].
  - pose proof (loose_inv _ _ L2) as [J1 J2 _ _ _]. split; rewrite ?E1, ?E2, ?E3, ?E4, ?E5; first [done|lia|congruence|intros; congruence|intros; lia].
  - rewrite <-list_fmap_compose. rewrite (list_fmap_ext _ id l) by (intros ? ? _; done). rewrite list_fmap_id. by eapply sublist_NoDup.
  - intros nid req Hin. apply list_elem_of_fmap in Hin as (y & [= -> ->] & Hy).
    destruct (D2 y) as (? & ? & _); [by eapply elem_of_sublist|]. done.
Qed.

Lemma updateCandidate_counts r :
  raft_inv r -> server_state_ r = ServerStateCandidate -> 0 < votes r ->
  let r' := updateCandidate UniqueID_MaxSize MIN_TIMEOUT MAX_TIMEOUT MaxClusterSize self r in quiet r r' \/ won r r'.
Proof.
  intros Hr Hc Hv. unfold updateCandidate. rewrite (proj2 (Z.ltb_lt _ _) Hv).
  destruct (Z.leb_spec (getQuorumSize (cluster_ r)) (votes r)) as [Hq|]; cbn [RaftCore.switchState].
  2:{ left. by apply switch_away_ok. }
  right. rewrite decide_False by congruence. pose proof (notify_view (reset_for r ServerStateLeader) true) as Ev.
  pose proof (monitor_entries (world_ (reset_for r ServerStateLeader)) true (persistent_state_ (reset_for r ServerStateLeader))) as Hm.
  assert (El : (notify_leadership (reset_for r ServerStateLeader) true).1 =
    (env_leadership (world_ (reset_for r ServerStateLeader)) true (persistent_state_ (reset_for r ServerStateLeader))).1).
  { unfold notify_leadership. by destruct (env_leadership _ _ _). }
  rewrite <-El in Hm. destruct (notify_leadership (reset_for r ServerStateLeader) true) as [l r1]. cbn [fst snd] in *.
  pose proof (core_view_inv _ _ Ev (reset_for_inv r ServerStateLeader Hr)) as I1. unfold core_view in Ev. injection Ev as _ E2 _ E4 E5 E6.
  pose proof (appendLogs_ok l r1 I1 Hm) as (I2 & T2 & V2 & K2). unfold won. split_and!; try done; [congruence|congruence| |].
  - destruct K2 as [(_ & ? & _)|(_ & -> & _)]; [done|]. by rewrite E5.
  - destruct K2 as [(_ & _ & ?)|(_ & _ & -> & _)]; [done|]. by rewrite E6.
Qed.

Lemma set_calls_view r a : core_view (set_calls r (request_vote_calls r) a) = core_view r.
Proof. done. Qed.

Lemma propagate_view r : core_view (propagateCommitIndex UniqueID_MaxSize r) = core_view r.
Proof.
  unfold propagateCommitIndex. destruct (_ <? _); [|done]. destruct (_ <=? _); [|done]. by destruct (getEntryAtIndex _ _ _).
Qed.

Lemma updateLeader_ok r : raft_inv r -> quiet r (updateLeader UniqueID_MaxSize MIN_TIMEOUT MAX_TIMEOUT entries_capacity r).
Proof.
  intros Hr. unfold updateLeader.
  assert (Q1 : quiet r (set_calls r (request_vote_calls r) [])) by by eapply quiet_view, quiet_refl.
  destruct (1 <? _); [|eapply quiet_view; [apply propagate_view|exact Q1]].
  match goal with |- context [getEntryAtIndex _ (log_ (persistent_state_ ?x)) _] => assert (Q2 : quiet r x) by (by eapply quiet_view, quiet_refl); set (r2 := x) in * end.
  destruct (getEntryAtIndex _ _ _) as [e|].
  - destruct (env_call_append _ _ _) as [res w]. eapply quiet_view; [apply propagate_view|].
    destruct (res <? 0); (eapply quiet_view; [|exact Q2]); done.
  - eapply quiet_trans; [exact Q2|]. apply update_error_ok, Q2.
Qed.

Lemma updateFollower_ok r : raft_inv r -> quiet r (updateFollower UniqueID_MaxSize MIN_TIMEOUT MAX_TIMEOUT r).
Proof.
  intros Hr. unfold updateFollower, isActivityTimedOut. destruct (env_now (world_ r)) as [now w].
  assert (Q : quiet r (set_world r w)) by by eapply quiet_view, quiet_refl. destruct (_ <? _); [|done].
  eapply quiet_view; [apply registerActivity_view|]. cbn [RaftCore.switchState]. eapply quiet_trans; [exact Q|]. apply switch_away_ok; [apply Q|done].
Qed.

Lemma handleTimerEvent_ok r :
  raft_inv r ->
  let r' := handleTimerEvent UniqueID_MaxSize MIN_TIMEOUT MAX_TIMEOUT entries_capacity MaxClusterSize self r in
  quiet r r' \/ campaign r r' \/ won r r'.
Proof.
  intros Hr. unfold handleTimerEvent. destruct (server_state_ r) eqn:E; [left; by apply updateFollower_ok| |left; by apply updateLeader_ok].
  pose proof (ri_votes _ Hr). destruct (decide (votes r = 0)).
  - destruct (updateCandidate_campaign r Hr E); auto.
  - destruct (updateCandidate_counts r Hr E ltac:(lia)); auto.
Qed.

(** ** Starting *)

Lemma Cluster_init_storage (s : St) c log size pub_res sub_res p :
  0 <= size < 256 -> PS_inv s p ->
  let '(res, c', s') := Cluster_init MaxClusterSize s c log size pub_res sub_res in
  PS_inv s' p /\ server_ids c' = server_ids c.
Proof.
  intros Hsz Hp. unfold Cluster_init.
  assert (Hs : let '(res, _, s') := (if size =? ClusterSizeUnknown then
      let '(res, value) := get_u32 s getStorageKeyForClusterSize 0 in
      if res <? 0 then (res, cluster_size_ c, s)
      else if (value =? 0) || (MaxClusterSize <? value) then (- ErrInvalidConfiguration, cluster_size_ c, s) else (0, u8 value, s)
    else if MaxClusterSize <? size then (- ErrInvalidParam, cluster_size_ c, s)
    else
      let '(res, value, s) := setAndGetBack_u32 s getStorageKeyForClusterSize size in
      if (res <? 0) || negb (value =? size) then (- ErrFailure, size, s) else (0, size, s)) in PS_inv s' p).
  { destruct (_ =? _).
    - destruct (get_u32 _ _ _) as [res v]. destruct (res <? 0); [done|]. by destruct (_ || _).
    - destruct (_ <? _); [done|]. pose proof (set_u32_off s getStorageKeyForClusterSize size ltac:(split; lia)) as Hs.
      destruct (setAndGetBack_u32 _ _ _) as [[res v] s']. destruct Hs as (A & _).
      assert (PS_inv s' p) by (eapply PS_inv_other_key; [done|exact A|postfix_in|done|done|done]). by destruct (_ || _). }
  destruct (if size =? ClusterSizeUnknown then _ else _) as [[res sz] s']. destruct (res <? 0); [done|]. destruct (pub_res <? 0); [done|].
  destruct (sub_res <? 0); [done|]. split; [done|]. by rewrite reset_ids.
Qed.

(** A server that starts, for the first time or again, is a follower without a campaign that
    knows no other server. *)
Lemma RaftCore_init_ok (s : St) w size pub_res sub_res srv_res :
  0 <= size < 256 ->
  (let '(res, p', s') := PersistentState_init UniqueID_MaxSize s (PersistentState_make UniqueID_MaxSize) in res < 0 \/ PS_inv s' p') ->
  let '(res, r) := RaftCore_init UniqueID_MaxSize MIN_TIMEOUT MAX_TIMEOUT MaxClusterSize
    (RaftCore_make UniqueID_MaxSize MAX_TIMEOUT w s) size pub_res sub_res srv_res in
  0 <= res -> cluster_size_ (cluster_ r) = Z.of_nat (base.size C) ->
  raft_inv r /\ idle r /\
  persistent_state_ r = (PersistentState_init UniqueID_MaxSize s (PersistentState_make UniqueID_MaxSize)).1.2.
Proof.
  intros Hsz Hinit. unfold RaftCore_init, RaftCore_make. destruct (env_now w) as [now w1].
  match goal with |- context [registerActivity ?x] => pose proof (registerActivity_view x) as Ev; set (r0 := registerActivity x) in * end.
  clearbody r0. unfold core_view in Ev. cbn in Ev. injection Ev as E1 E2 E3 E4 E5 E6. rewrite E1, E2.
  destruct (PersistentState_init UniqueID_MaxSize s (PersistentState_make UniqueID_MaxSize)) as [[res p] s1].
  destruct (Z.ltb_spec res 0); [lia|]. destruct Hinit as [?|Hp]; [lia|]. cbn [storage_ set_persist persistent_state_ cluster_].
  rewrite E3. pose proof (Cluster_init_storage s1 ClusterManager_make (log_ p) size pub_res sub_res p Hsz Hp) as Hc.
  destruct (Cluster_init _ _ _ _ _ _ _) as [[res2 c] s2]. destruct Hc as [Hp2 Hids].
  destruct (Z.ltb_spec res2 0); [lia|]. intros _ Hsize.
  split_and!; [|split_and!; cbn; congruence|done]. split; cbn; rewrite ?E4, ?E5, ?E6; try done.
  split; rewrite ?Hids; [apply NoDup_nil_2|intros nid Hn; by apply elem_of_nil in Hn|done].
Qed.

(** ** Replication *)

Lemma log_view_length r : raft_inv r -> length (log_view (raft_log r)) = Z.to_nat (last_index_ (raft_log r) + 1).
Proof.
  intros Hr. pose proof (li_wf _ _ _ (pi_log _ _ _ (ri_ps _ Hr))) as [L1 L2 _]. unfold log_view. rewrite length_take.
  change Capacity with 128 in *. lia.
Qed.

Lemma append_all_log entries r :
  raft_inv r -> Forall (fun e => Entry_wf UniqueID_MaxSize e /\ term e <= raft_term r) entries ->
  let '(ok, r') := append_all UniqueID_MaxSize r entries in
  commit_index_ r' = commit_index_ r /\ raft_term r' = raft_term r /\ server_state_ r' = server_state_ r /\
  (ok = true -> log_view (raft_log r') = log_view (raft_log r) ++ entries).
Proof.
  revert r. induction entries as [|e entries IH]; intros r Hr He; cbn [append_all]; [split_and!; [done|done|done|by rewrite app_nil_r]|].
  apply Forall_cons in He as [[Hw Ht] He].
  pose proof (PS_append_ok UniqueID_MaxSize (storage_ r) (persistent_state_ r) e (ri_ps _ Hr) Hw Ht) as Ha.
  destruct (PS_append UniqueID_MaxSize (storage_ r) (persistent_state_ r) e) as [[res p] s]. destruct Ha as (P1 & P2 & P3 & P4).
  destruct (Z.ltb_spec res 0); [by split_and!|]. destruct P4 as [(-> & Hl & _)|[? _]]; [|lia].
  specialize (IH (set_persist r p s) (set_persist_inv r p s Hr P1)). cbn [persistent_state_ set_persist] in IH. rewrite P2 in IH. specialize (IH He).
  destruct (append_all UniqueID_MaxSize (set_persist r p s) entries) as [ok r']. destruct IH as (I1 & I2 & I3 & I4).
  split_and!; [done|done|done|]. intros Hok. rewrite (I4 Hok), Hl, <-app_assoc. done.
Qed.

(** The log after the steps 2 to 5. *)
Definition append_spec r (req : AppendRequest) (resp : option AppendResponse) r' : Prop :=
  match resp with
  | Some (mkAppendResponse t true) =>
    t = raft_term r /\ ar_prev_log_index req <= last_index_ (raft_log r) /\
    term (entry_at UniqueID_MaxSize (raft_log r) (ar_prev_log_index req)) = ar_prev_log_term req /\
    log_view (raft_log r') = take (Z.to_nat (ar_prev_log_index req + 1)) (log_view (raft_log r)) ++ ar_entries req /\
    commit_index_ r' = (if commit_index_ r <? ar_leader_commit req then Z.min (ar_leader_commit req) (last_index_ (raft_log r')) else commit_index_ r)
  | Some (mkAppendResponse t false) =>
    t = raft_term r /\ commit_index_ r' = commit_index_ r /\
    (last_index_ (raft_log r) < ar_prev_log_index req /\ raft_log r' = raft_log r \/
     term (entry_at UniqueID_MaxSize (raft_log r) (ar_prev_log_index req)) <> ar_prev_log_term req /\
     log_view (raft_log r') = take (Z.to_nat (ar_prev_log_index req)) (log_view (raft_log r)))
  | None => commit_index_ r' = commit_index_ r
  end.

Lemma append_steps_spec r req :
  raft_inv r -> is_u8 (ar_prev_log_index req) ->
  Forall (fun e => Entry_wf UniqueID_MaxSize e /\ term e <= raft_term r) (ar_entries req) ->
  let '(resp, r') := append_steps UniqueID_MaxSize r req in
  append_spec r req resp r' /\ raft_term r' = raft_term r /\ server_state_ r' = server_state_ r.
Proof.
  intros Hr [Hp0 Hp1] He. pose proof (log_view_length r Hr) as Hlen.
  pose proof (lw_last _ _ (li_wf _ _ _ (pi_log _ _ _ (ri_ps _ Hr)))) as Hlast. change Capacity with 128 in Hlast.
  unfold append_steps, getEntryAtIndex. set (prev := ar_prev_log_index req) in *.
  destruct (Z.leb_spec prev (last_index_ (raft_log r))) as [Hle|]; [|split_and!; [split_and!; [done|done|left]|done|done]; done].
  destruct (Z.eqb_spec (term (entry_at UniqueID_MaxSize (raft_log r) prev)) (ar_prev_log_term req)) as [Et|Et]; cbn [negb].
  2:{ pose proof (PS_remove_ok UniqueID_MaxSize (storage_ r) (persistent_state_ r) prev (ri_ps _ Hr) ltac:(lia)) as Hs.
      destruct (PS_removeGreaterOrEqual (storage_ r) (persistent_state_ r) prev) as [[res p] s]. destruct Hs as (P1 & P2 & P3 & P4).
      destruct (Z.ltb_spec res 0); [by split_and!|]. split_and!; [|done|done]. split_and!; [done|done|right].
      destruct P4 as [(_ & _ & El & _)|[? _]]; [done|lia]. }
  assert (Hrem : let '(res, r1) := (if negb (prev =? last_index_ (raft_log r)) then
          let '(res, p, s) := PS_removeGreater (storage_ r) (persistent_state_ r) prev in (res, set_persist r p s) else (0, r)) in
    quiet r r1 /\ raft_term r1 = raft_term r /\ server_state_ r1 = server_state_ r /\ commit_index_ r1 = commit_index_ r /\
    (0 <= res -> log_view (raft_log r1) = take (Z.to_nat (prev + 1)) (log_view (raft_log r)))).
  { destruct (Z.eqb_spec prev (last_index_ (raft_log r))) as [E|]; cbn [negb].
    { split_and!; [by apply quiet_refl|done|done|done|]. intros _. rewrite take_ge; [done|]. rewrite Hlen, E. done. }
    pose proof (PS_remove_ok UniqueID_MaxSize (storage_ r) (persistent_state_ r) (prev + 1) (ri_ps _ Hr) ltac:(lia)) as Hs.
    unfold PS_removeGreater, removeEntriesWhereIndexGreater. rewrite (wrap_small 8) by (split; lia). unfold PS_removeGreaterOrEqual in Hs.
    destruct (removeEntriesWhereIndexGreaterOrEqual (storage_ r) (raft_log r) (prev + 1)) as [[res l] s]. destruct Hs as (P1 & P2 & P3 & P4).
    split_and!; [by apply set_persist_quiet|done|done|done|]. intros Hres. destruct P4 as [(_ & _ & El & _)|[? _]]; [done|lia]. }
  destruct (if negb (prev =? last_index_ (raft_log r)) then _ else _) as [res r1]. destruct Hrem as (Q1 & T1 & S1 & C1 & L1).
  destruct (Z.ltb_spec res 0); [by split_and!|]. pose proof (append_all_log (ar_entries req) r1 ltac:(apply Q1) ltac:(by rewrite T1)) as Ha.
  destruct (append_all UniqueID_MaxSize r1 (ar_entries req)) as [ok r2]. destruct Ha as (C2 & T2 & S2 & L2).
  destruct ok; cbn [negb]; [|split_and!; [cbn|..]; congruence]. specialize (L2 eq_refl). rewrite L1 in L2 by lia. rewrite C2, C1.
  destruct (commit_index_ r <? ar_leader_commit req) eqn:Ec;
    (split_and!; [cbn; rewrite ?Ec; split_and!; [done|done|done|done|congruence]|cbn; congruence|cbn; congruence]).
Qed.

(** Taking over a term does not touch the log. *)
Lemma set_term_log (s : St) p t : let '(_, p', _) := setCurrentTerm s p t in log_ p' = log_ p.
Proof.
  unfold setCurrentTerm. destruct (_ <? _); [done|]. destruct (setAndGetBack_u32 _ _ _) as [[res v] s']. destruct (_ <? _); [done|]. by destruct (negb _).
Qed.
Lemma set_vote_log (s : St) p v : let '(_, p', _) := setVotedFor s p v in log_ p' = log_ p.
Proof.
  unfold setVotedFor. destruct (negb _); [done|]. destruct (setAndGetBack_u32 _ _ _) as [[res v'] s']. destruct (_ <? _); [done|]. by destruct (negb _).
Qed.

Lemma adopt_term_log r t :
  let '(ok, r') := adopt_term MIN_TIMEOUT MAX_TIMEOUT r t in ok = true -> raft_log r' = raft_log r /\ commit_index_ r' = commit_index_ r.
Proof.
  unfold adopt_term, resetVotedFor. pose proof (set_term_log (storage_ r) (persistent_state_ r) t) as H2.
  destruct (setCurrentTerm (storage_ r) (persistent_state_ r) t) as [[res p] s]. destruct (_ <? _); [done|]. cbn [storage_ persistent_state_ set_persist].
  pose proof (set_vote_log s p 0) as H3. destruct (setVotedFor s p 0) as [[res2 p2] s2]. destruct (_ <? _); [done|]. cbn. split; congruence.
Qed.

Lemma follow_log r :
  let r' := switch_away (registerActivity r) ServerStateFollower in raft_log r' = raft_log r /\ commit_index_ r' = commit_index_ r.
Proof.
  unfold switch_away, RaftCore.registerActivity, notify_leadership. destruct (env_now _) as [now w]. destruct (env_rand w) as [rand w2].
  case_decide; [done|]. case_decide; [|done]. by destruct (env_leadership _ _ _).
Qed.

(** On a storage that performs its writes a request is always answered, if the entries fit in the log and, where it names the first entry,
    which all servers share, it names its term. *)
Section answered.
Context `{!ReliableStorage St}.

Lemma adopt_term_reliable r t : is_u32 t -> raft_term r < t -> (adopt_term MIN_TIMEOUT MAX_TIMEOUT r t).1 = true.
Proof.
  intros Ht Hlt. unfold adopt_term. pose proof (setCurrentTerm_reliable (storage_ r) (persistent_state_ r) t Ht ltac:(lia)) as K.
  destruct (setCurrentTerm _ _ _) as [[res p] s]. cbn in K. subst res. cbn [Z.ltb Z.compare storage_ persistent_state_ set_persist].
  pose proof (resetVotedFor_reliable s p) as K. destruct (resetVotedFor s p) as [[res2 p2] s2]. cbn in K. by subst res2.
Qed.

Lemma append_all_reliable entries r :
  raft_inv r -> Forall (fun e => Entry_wf UniqueID_MaxSize e /\ term e <= raft_term r) entries ->
  last_index_ (raft_log r) + Z.of_nat (length entries) < Capacity -> (append_all UniqueID_MaxSize r entries).1 = true.
Proof.
  revert r. induction entries as [|e entries IH]; intros r Hr He Hc; cbn [append_all]; [done|]. apply Forall_cons in He as [[Hw Ht] He]. cbn [length] in Hc.
  pose proof (lw_last _ _ (li_wf _ _ _ (pi_log _ _ _ (ri_ps _ Hr)))) as Hlast.
  pose proof (PS_append_reliable UniqueID_MaxSize (storage_ r) (persistent_state_ r) e Hw ltac:(lia) ltac:(lia)) as Hz.
  pose proof (PS_append_ok UniqueID_MaxSize (storage_ r) (persistent_state_ r) e (ri_ps _ Hr) Hw Ht) as Ha.
  destruct (PS_append UniqueID_MaxSize (storage_ r) (persistent_state_ r) e) as [[res p] s]. cbn in Hz. subst res. cbn [Z.ltb Z.compare].
  destruct Ha as (P1 & P2 & P3 & [(_ & _ & Hl)|[? _]]); [|lia].
  apply IH; [by apply set_persist_inv|cbn; by rewrite P2|cbn; lia].
Qed.

Lemma append_steps_reliable r req :
  raft_inv r -> is_u8 (ar_prev_log_index req) -> Forall (fun e => Entry_wf UniqueID_MaxSize e /\ term e <= raft_term r) (ar_entries req) ->
  ar_prev_log_index req + Z.of_nat (length (ar_entries req)) < Capacity ->
  (ar_prev_log_index req = 0 -> term (entry_at UniqueID_MaxSize (raft_log r) 0) = ar_prev_log_term req) ->
  is_Some (append_steps UniqueID_MaxSize r req).1.
Proof.
  intros Hr [Hp0 Hp1] He Hc Hz. assert (HCap : Capacity = 128) by done.
  pose proof (lw_last _ _ (li_wf _ _ _ (pi_log _ _ _ (ri_ps _ Hr)))) as Hlast. unfold append_steps, getEntryAtIndex.
  set (prev := ar_prev_log_index req) in *. destruct (Z.leb_spec prev (last_index_ (raft_log r))) as [Hle|]; [|done].
  destruct (Z.eqb_spec (term (entry_at UniqueID_MaxSize (raft_log r) prev)) (ar_prev_log_term req)) as [Et|Et]; cbn [negb].
  2:{ assert (prev <> 0) by (intros E0; rewrite E0 in Et; auto).
      pose proof (PS_remove_reliable (storage_ r) (persistent_state_ r) prev ltac:(lia)) as K. destruct (PS_removeGreaterOrEqual _ _ _) as [[res p] s].
      cbn in K. by subst res. }
  destruct (Z.eqb_spec prev (last_index_ (raft_log r))) as [E|Hne]; cbn [negb].
  - cbn [Z.ltb Z.compare]. pose proof (append_all_reliable (ar_entries req) r Hr He ltac:(lia)) as K.
    destruct (append_all UniqueID_MaxSize r (ar_entries req)) as [ok r2]. cbn in K. by subst ok.
  - pose proof (PS_remove_reliable (storage_ r) (persistent_state_ r) (prev + 1) ltac:(lia)) as K.
    pose proof (PS_remove_ok UniqueID_MaxSize (storage_ r) (persistent_state_ r) (prev + 1) (ri_ps _ Hr) ltac:(lia)) as Hs.
    unfold PS_removeGreater, removeEntriesWhereIndexGreater. rewrite (wrap_small 8) by (split; lia). unfold PS_removeGreaterOrEqual in *.
    destruct (removeEntriesWhereIndexGreaterOrEqual (storage_ r) (raft_log r) (prev + 1)) as [[res l] s]. cbn in K. subst res. cbn [Z.ltb Z.compare].
    destruct Hs as (P1 & P2 & P3 & P4). destruct P4 as [(_ & _ & _ & El)|[? _]]; [|lia]. cbn [log_] in El. set (r1 := set_persist r _ s).
    assert (I1 : raft_inv r1) by (by apply set_persist_inv).
    pose proof (append_all_reliable (ar_entries req) r1 I1 He) as K.
    destruct (append_all UniqueID_MaxSize r1 (ar_entries req)) as [ok r2]. cbn in K. rewrite K by (cbn; lia). done.
Qed.
End answered.

(** C15: on a storage whose reads do not fail, an accepted AppendEntries request of a server of the
    cluster makes the log of the follower equal to the leader's up to the entries sent: it keeps
    exactly the entries up to the one both agree on, which has the term the request names,
    followed by the entries of the request; the server is a follower in the leader's term, and its
    commit index, if it was below the leader's, moves forward to the leader's or to the end of the
    log, whichever is less; otherwise it stays, even where the request made the log end before it. A
    refused request of the current term leaves the log alone if it is too short, or removes the
    entries from the conflicting one on. If the storage performs its writes, the entries
    fit in the log and the request agrees on the first entry, which all servers share, the request is
    always answered. *)
Theorem append_entries_replicates r src req :
  raft_inv r -> src ∈ C -> is_u32 (ar_term req) -> is_u8 (ar_prev_log_index req) ->
  Forall (fun e => Entry_wf UniqueID_MaxSize e /\ term e <= ar_term req) (ar_entries req) ->
  isKnownServer self (cluster_ r) src = true ->
  let '(resp, r') := handleAppendEntriesRequest UniqueID_MaxSize MIN_TIMEOUT MAX_TIMEOUT self r src req in
  ((ar_term req < raft_term r /\ resp = Some (mkAppendResponse (raft_term r) false) /\ r' = r) \/
   (resp = None /\ idle r') \/
   (exists r1, raft_log r1 = raft_log r /\ commit_index_ r1 = commit_index_ r /\ raft_term r1 = ar_term req /\
     append_spec r1 req resp r' /\ raft_term r' = ar_term req /\ server_state_ r' = ServerStateFollower)) /\
  (ReliableStorage St -> ar_prev_log_index req + Z.of_nat (length (ar_entries req)) < Capacity ->
   (ar_prev_log_index req = 0 -> term (entry_at UniqueID_MaxSize (raft_log r) 0) = ar_prev_log_term req) -> is_Some resp).
Proof.
  intros Hr Hsrc Ht Hp He Hk. unfold handleAppendEntriesRequest. rewrite Hk. cbn [negb andb].
  assert (Ha : let '(ok, r1) := (if raft_term r <? ar_term req then adopt_term MIN_TIMEOUT MAX_TIMEOUT r (ar_term req) else (true, r)) in
    loose r r1 /\ (ok = false -> idle r1) /\ (ok = true -> (r1 = r \/ raft_term r1 = ar_term req) /\ ar_term req <= raft_term r1 /\
      raft_log r1 = raft_log r /\ commit_index_ r1 = commit_index_ r) /\ (ReliableStorage St -> ok = true)).
  { destruct (Z.ltb_spec (raft_term r) (ar_term req)) as [Hlt|].
    - pose proof (adopt_term_ok r (ar_term req) Hr Ht Hlt) as Ha. pose proof (adopt_term_log r (ar_term req)) as Hl.
      pose proof (fun X => adopt_term_reliable (ReliableStorage0 := X) r (ar_term req) Ht Hlt) as Hrel.
      destruct (adopt_term _ _ _ _) as [ok r1]. destruct Ha as (L & Hok). split_and!; [done|by intros ->| |exact Hrel]. intros ->. destruct Hok as (E & _).
      destruct (Hl eq_refl). split_and!; [by right|lia|done|done].
    - split_and!; [apply quiet_loose, quiet_refl, Hr|done| |done]. intros _. split_and!; [by left|lia|done|done]. }
  destruct (if raft_term r <? ar_term req then _ else _) as [ok r1]. destruct Ha as (L & Hbad & Hok & Hrel).
  destruct ok; cbn [negb]; [|split; [right; left; auto|intros X; by specialize (Hrel X)]]. destruct (Hok eq_refl) as (Hor & Hge & El & Ec).
  destruct (Z.ltb_spec (ar_term req) (raft_term r1)) as [Hlt|]; [split; [left; destruct Hor as [->|?]; [done|lia]|by eexists]|].
  cbn [RaftCore.switchState]. destruct (become_follower r (registerActivity r1)) as (Q3 & I3 & P3).
  { eapply view_loose; [apply registerActivity_view|done]. }
  destruct (follow_log r1) as [F1 F2]. pose proof (registerActivity_view r1) as Ev. unfold core_view in Ev. injection Ev as _ Ep _ _ _ _.
  assert (Hf : server_state_ (switch_away (registerActivity r1) ServerStateFollower) = ServerStateFollower).
  { apply switch_away_ok; [|done]. eapply core_view_inv; [apply registerActivity_view|]. by eapply loose_inv. }
  set (r2 := switch_away (registerActivity r1) ServerStateFollower) in *. clearbody r2.
  assert (T2 : raft_term r2 = ar_term req) by (rewrite P3, Ep; lia).
  pose proof (append_steps_spec r2 req ltac:(apply Q3) Hp ltac:(by rewrite T2)) as Hs.
  pose proof (fun X => append_steps_reliable (ReliableStorage0 := X) r2 req ltac:(apply Q3) Hp ltac:(by rewrite T2)) as Hans.
  destruct (append_steps UniqueID_MaxSize r2 req) as [resp r']. destruct Hs as (S1 & S2 & S3). split.
  - right. right. exists r2. split_and!; try done; congruence.
  - intros X Hfit Hz. apply (Hans X); [done|]. intros E0. rewrite <- (Hz E0), F1, El. done.
Qed.

(** ** Commitment *)

(** The servers known to have the next entry. *)
Definition holders r : gset Z :=
  {[self]} ∪ list_to_set (filter (fun nid => commit_index_ r < getServerMatchIndex (cluster_ r) nid) (server_ids (cluster_ r))).

Lemma count_holders (P : Z -> Prop) `{!forall z, Decision (P z)} (f : Server -> bool) (l : list Server) n :
  (forall s, f s = bool_decide (P (server_node_id s))) -> 0 <= n -> n + Z.of_nat (length l) < 256 ->
  foldl (fun n s => if f s then u8 (n + 1) else n) n l = n + Z.of_nat (length (filter P (server_node_id <$> l))).
Proof.
  intros Hf. revert n. induction l as [|s l IH]; intros n Hn Hl; cbn [foldl fmap list_fmap]; [cbn; lia|]. cbn [length] in Hl. rewrite Hf.
  case_bool_decide as E.
  - rewrite (wrap_small 8) by (split; lia). rewrite IH by lia. rewrite filter_cons_True by done. cbn [length]. lia.
  - rewrite IH by lia. by rewrite filter_cons_False.
Qed.

Lemma servers_below r : raft_inv r -> (length (server_ids (cluster_ r)) + 1 <= size C)%nat.
Proof.
  intros Hr. pose proof (ri_cluster _ Hr) as [D1 D2 D3]. assert (Hs : {[self]} ∪ list_to_set (server_ids (cluster_ r)) ⊆ C).
  { intros x [->%elem_of_singleton|Hx%elem_of_list_to_set]%elem_of_union; [done|by apply D2]. }
  apply subseteq_size in Hs. rewrite size_union, size_singleton, size_list_to_set in Hs; [lia|done|].
  intros x ->%elem_of_singleton Hx%elem_of_list_to_set. by destruct (D2 _ Hx) as (_ & ? & _).
Qed.

(** C16: a leader moves its commit index by one entry at a time, never past the end of its log,
    reports exactly that entry to its monitor, and only when it and the servers that it knows
    to have replicated the entry are a quorum of the cluster. The reads of its storage do not fail. *)
Theorem leader_commits_by_quorum r :
  Z.of_nat (size C) < 256 -> raft_inv r -> 0 <= commit_index_ r ->
  let r' := propagateCommitIndex UniqueID_MaxSize r in
  r' = r \/
  commit_index_ r' = commit_index_ r + 1 /\ commit_index_ r' <= last_index_ (raft_log r) /\
  world_ r' = env_commit (world_ r) (entry_at UniqueID_MaxSize (raft_log r) (commit_index_ r')) /\ persistent_state_ r' = persistent_state_ r /\
  holders r ⊆ C /\ Z.of_nat (size C) < 2 * Z.of_nat (size (holders r)) /\
  (forall nid, nid ∈ holders r -> nid = self \/ commit_index_ r' <= getServerMatchIndex (cluster_ r) nid).
Proof.
  intros HCs Hr Hc. unfold propagateCommitIndex. destruct (Z.ltb_spec (commit_index_ r) (last_index_ (raft_log r))) as [Hlt|]; [|by left].
  pose proof (ri_cluster _ Hr) as [D1 D2 D3]. pose proof (servers_below r Hr) as Hb.
  pose proof (lw_last _ _ (li_wf _ _ _ (pi_log _ _ _ (ri_ps _ Hr)))) as Hlast. change Capacity with 128 in Hlast.
  unfold num_nodes_with_next_log_entry_available.
  rewrite (count_holders (fun nid => commit_index_ r < getServerMatchIndex (cluster_ r) nid)); [|intros s; apply eq_true_iff_eq; rewrite bool_decide_eq_true; lia|lia|].
  2:{ unfold server_ids in Hb. rewrite length_fmap in Hb. lia. }
  fold (server_ids (cluster_ r)).
  destruct (Z.leb_spec (getQuorumSize (cluster_ r)) (1 + Z.of_nat (length (filter (fun nid => commit_index_ r < getServerMatchIndex (cluster_ r) nid) (server_ids (cluster_ r)))))) as [Hq|]; [|by left].
  right. unfold getEntryAtIndex. cbn [commit_index_ set_commit persistent_state_]. rewrite (wrap_small 8) by (split; lia).
  rewrite (proj2 (Z.leb_le _ _)) by lia. cbn [commit_index_ set_commit set_world world_ persistent_state_ cluster_].
  assert (Hsz : size (holders r) = S (length (filter (fun nid => commit_index_ r < getServerMatchIndex (cluster_ r) nid) (server_ids (cluster_ r))))).
  { unfold holders. rewrite size_union, size_singleton, size_list_to_set; [lia|by apply NoDup_filter|].
    intros x ->%elem_of_singleton Hx%elem_of_list_to_set. apply list_elem_of_filter in Hx as [_ Hx]. by destruct (D2 _ Hx) as (_ & ? & _). }
  split_and!; [done|lia|done|done| | |].
  - intros x [->%elem_of_singleton|Hx%elem_of_list_to_set]%elem_of_union; [done|]. apply list_elem_of_filter in Hx as [_ Hx]. by apply D2.
  - rewrite Hsz. unfold getQuorumSize in Hq. rewrite D3 in Hq. assert (Hpos : 0 <= Z.of_nat (size C)) by lia. revert Hq HCs Hpos.
    generalize (Z.of_nat (size C)). intros n Hq Hn Hpos. pose proof (Z.div_mod n 2 ltac:(lia)). pose proof (Z.mod_pos_bound n 2 ltac:(lia)).
    rewrite wrap_small in Hq by (split; lia). lia.
  - intros nid [->%elem_of_singleton|Hx%elem_of_list_to_set]%elem_of_union; [by left|]. right. apply list_elem_of_filter in Hx as [Hx _]. lia.
Qed.

End safety.
