(* ===== verification/RaftElection.v ===== *)
(** * RaftElection: a cluster of Raft servers elects at most one leader per term

    A cluster of servers as in [RaftCore], each with its storage. One step of the cluster is
    one event at one server: its timer, a request, the response to one of its pending calls or
    the end of such a call without response, a discovery message, a new entry for the log, or a
    crash followed by a restart on the storage. The network may lose, delay, duplicate and reorder
    messages and may even invent requests. One thing is assumed of it: a response to a call of
    [RequestVote] was given by the called server to the request of that call. [ServiceClient]
    matches a response with a call by the server and the transfer ID alone, so this means that a response
    is not delayed until its transfer ID, of 5 bits and counted from 0 after a restart, is
    that of a later call; [late_vote_is_counted] shows what happens otherwise, since the
    server does not look at the term of a vote. The storage of a server may ignore any write;
    its reads do not fail.

    The theorem is Raft's election safety, which the rest of the protocol rests on. *)

From stdpp Require Import gmap strings list list_numbers.
From S2P Require Import Prelude MonoTime Transfer StorageMarshaller RaftLog ClusterManager RaftCore.
Local Open Scope Z_scope.

Inductive Event (W : Type) :=
  | EvTimer
  | EvVoteRequest (src : Z) (req : VoteRequest)
  | EvVoteResponse (server : Z) (req : VoteRequest) (result : option VoteResponse)
  | EvAppendRequest (src : Z) (req : AppendRequest)
  | EvAppendResponse (server : Z) (result : option AppendResponse)
  | EvDiscovery (msg : Discovery)
  | EvAppendLog (uid : list Z) (nid : Z)
  | EvRestart (w : W) (cluster_size pub_res sub_res : Z) (srv_res : list Z).
Arguments EvTimer {_}.
Arguments EvVoteRequest {_}.
Arguments EvVoteResponse {_}.
Arguments EvAppendRequest {_}.
Arguments EvAppendResponse {_}.
Arguments EvDiscovery {_}.
Arguments EvAppendLog {_}.
Arguments EvRestart {_}.

(** A vote response on its way: the voter, the candidate, the term of the request, the response. *)
Record Reply := mkReply { rp_voter : Z; rp_candidate : Z; rp_term : Z; rp_response : VoteResponse }.

(** The servers, the vote responses given so far, and each server and term in which it was
    seen to be leader. *)
Record System (W St : Type) := mkSystem {
  servers : gmap Z (RaftCore W St);
  replies : list Reply;
  leaders : list (Z * Z)
}.
Arguments mkSystem {_ _}.
Arguments servers {_ _}.
Arguments replies {_ _}.
Arguments leaders {_ _}.

(** Taking a call off the list of pending calls. *)
Fixpoint remove_call (server : Z) (l : list (Z * VoteRequest)) : list (Z * VoteRequest) :=
  match l with
  | [] => []
  | c :: l => if c.1 =? server then l else c :: remove_call server l
  end.

Section cluster.
Context (UniqueID_MaxSize : nat) (MIN_TIMEOUT MAX_TIMEOUT : Z) (entries_capacity : nat) (MaxClusterSize : Z).
Context {W : Type} `{RaftEnv W} {St : Type} `{IStorageBackend St}.

(** One event at the server [self]: the vote response it gives, if any, and its new state. *)
Definition handle (self : Z) (r : RaftCore W St) (ev : Event W) : option VoteResponse * RaftCore W St :=
  match ev with
  | EvTimer => (None, handleTimerEvent UniqueID_MaxSize MIN_TIMEOUT MAX_TIMEOUT entries_capacity MaxClusterSize self r)
  | EvVoteRequest src req => handleRequestVoteRequest UniqueID_MaxSize MIN_TIMEOUT MAX_TIMEOUT self r src req
  | EvVoteResponse server _ result =>
    let r := set_calls r (remove_call server (request_vote_calls r)) (append_entries_calls r) in
    (None, handleRequestVoteResponse UniqueID_MaxSize MIN_TIMEOUT MAX_TIMEOUT r result)
  | EvAppendRequest src req => (None, (handleAppendEntriesRequest UniqueID_MaxSize MIN_TIMEOUT MAX_TIMEOUT self r src req).2)
  | EvAppendResponse server result =>
    (None, handleAppendEntriesResponse UniqueID_MaxSize MIN_TIMEOUT MAX_TIMEOUT r server result)
  | EvDiscovery msg => (None, set_cluster r (handleDiscovery self (cluster_ r) (log_ (persistent_state_ r)) msg))
  | EvAppendLog uid nid => (None, appendLog UniqueID_MaxSize MIN_TIMEOUT MAX_TIMEOUT r uid nid)
  | EvRestart w cluster_size pub_res sub_res srv_res =>
    let '(res, r') := RaftCore_init UniqueID_MaxSize MIN_TIMEOUT MAX_TIMEOUT MaxClusterSize
      (RaftCore_make UniqueID_MaxSize MAX_TIMEOUT w (storage_ r)) cluster_size pub_res sub_res srv_res in
    (None, r')
  end.

(** The replies and the leaders after an event. *)
Definition new_reply (self : Z) (ev : Event W) (resp : option VoteResponse) : list Reply :=
  match ev, resp with
  | EvVoteRequest src req, Some resp => [mkReply self src (vr_term req) resp]
  | _, _ => []
  end.
Definition new_leader (self : Z) (r : RaftCore W St) : list (Z * Z) :=
  if decide (server_state_ r = ServerStateLeader) then [(self, current_term_ (persistent_state_ r))] else [].

Definition system_event (S : System W St) (self : Z) (r : RaftCore W St) (ev : Event W) : System W St :=
  let '(resp, r') := handle self r ev in
  mkSystem (<[self := r']> (servers S)) (new_reply self ev resp ++ replies S) (new_leader self r' ++ leaders S).

Section membership.
Context (C : gset Z).

(** Which events can happen: messages come from members of the cluster and fit their data
    types; a vote response belongs to a pending call and was given by the server called to the
    request of that call; a leader sends entries of its own or of older terms; all servers are configured with the size
    of the cluster. *)
Definition event_ok (S : System W St) (self : Z) (r : RaftCore W St) (ev : Event W) : Prop :=
  match ev with
  | EvTimer => True
  | EvVoteRequest src req => src ∈ C /\ src <> self /\ is_u32 (vr_term req)
  | EvVoteResponse server req result =>
    (server, req) ∈ request_vote_calls r /\
    forall resp, result = Some resp -> mkReply server self (vr_term req) resp ∈ replies S
  | EvAppendRequest src req =>
    src ∈ C /\ is_u32 (ar_term req) /\ is_u8 (ar_prev_log_index req) /\
    Forall (fun e => Entry_wf UniqueID_MaxSize e /\ term e <= ar_term req) (ar_entries req)
  | EvAppendResponse server result => forall resp, result = Some resp -> is_u32 (as_term resp)
  | EvDiscovery msg => Forall (fun nid => NodeID.isUnicast nid = true -> nid ∈ C) (known_nodes msg)
  | EvAppendLog uid nid => bytes uid /\ length uid = UniqueID_MaxSize /\ 0 <= nid <= NodeID.Max
  | EvRestart w cluster_size pub_res sub_res srv_res =>
    0 <= cluster_size < 256 /\
    let '(res, r') := RaftCore_init UniqueID_MaxSize MIN_TIMEOUT MAX_TIMEOUT MaxClusterSize
      (RaftCore_make UniqueID_MaxSize MAX_TIMEOUT w (storage_ r)) cluster_size pub_res sub_res srv_res in
    0 <= res /\ cluster_size_ (cluster_ r') = Z.of_nat (size C)
  end.

(** A server that was started for the first time. *)
Definition started `{!StorageLaws St} (r : RaftCore W St) : Prop :=
  exists w s cluster_size pub_res sub_res srv_res res,
    st_data s = ∅ /\ 0 <= cluster_size < 256 /\
    RaftCore_init UniqueID_MaxSize MIN_TIMEOUT MAX_TIMEOUT MaxClusterSize
      (RaftCore_make UniqueID_MaxSize MAX_TIMEOUT w s) cluster_size pub_res sub_res srv_res = (res, r) /\
    0 <= res /\ cluster_size_ (cluster_ r) = Z.of_nat (size C).

Inductive reachable `{!StorageLaws St} : System W St -> Prop :=
  | reachable_start (m : gmap Z (RaftCore W St)) :
      (forall i r, m !! i = Some r -> i ∈ C /\ started r) -> reachable (mkSystem m [] [])
  | reachable_event S self r ev :
      reachable S -> servers S !! self = Some r -> event_ok S self r ev -> reachable (system_event S self r ev).

End membership.
End cluster.

(** ** The invariant *)

Section election.
Context (UniqueID_MaxSize : nat) (MIN_TIMEOUT MAX_TIMEOUT : Z) (entries_capacity : nat) (MaxClusterSize : Z).
Context {W : Type} `{RaftEnv W} `{!MonitorEntries UniqueID_MaxSize W} {St : Type} `{StorageLaws St} `{!ReadableStorage St}.
Context (C : gset Z).
Context (HC : forall nid, nid ∈ C -> NodeID.isUnicast nid = true /\ 0 <= nid <= NodeID.Max).
Context (HCsize : Z.of_nat (size C) < 256).

Abbreviation raft_term r := (current_term_ (persistent_state_ r)).
Abbreviation raft_vote r := (voted_for_ (persistent_state_ r)).
Abbreviation votes r := (num_votes_received_in_this_campaign_ r).
Abbreviation raft_inv := (raft_inv UniqueID_MaxSize C).
Abbreviation quiet := (quiet UniqueID_MaxSize C).
Abbreviation loose := (loose UniqueID_MaxSize C).
Abbreviation handle := (handle UniqueID_MaxSize MIN_TIMEOUT MAX_TIMEOUT entries_capacity MaxClusterSize).
Abbreviation system_event := (system_event UniqueID_MaxSize MIN_TIMEOUT MAX_TIMEOUT entries_capacity MaxClusterSize).
Abbreviation event_ok := (event_ok UniqueID_MaxSize MIN_TIMEOUT MAX_TIMEOUT MaxClusterSize C).
Implicit Types r : RaftCore W St.

Definition quorum : Z := Z.of_nat (size C) / 2 + 1.

(** Who voted for whom in which term: the votes given in responses and those of candidates for
    themselves. *)
Definition Votes := Z -> Z -> Z -> Prop.
Definition add_vote (Vt : Votes) (i t c : Z) : Votes := fun i' t' c' => Vt i' t' c' \/ (i' = i /\ t' = t /\ c' = c).

(** [V] voted for [c] in the term [t]. *)
Definition elected_by (Vt : Votes) (V : gset Z) (c t : Z) : Prop := V ⊆ C /\ forall j, j ∈ V -> Vt j t c.

(** The votes a candidate has counted, and the calls it still waits for. *)
Definition campaign_ok (Vt : Votes) (i : Z) r : Prop :=
  0 < votes r ->
  exists V, elected_by Vt V i (raft_term r) /\ Z.of_nat (size V) = votes r /\ NoDup (request_vote_calls r).*1 /\
    forall nid req, (nid, req) ∈ request_vote_calls r -> nid ∈ C /\ nid ∉ V /\ vr_term req = raft_term r.

(** One server: its state is in order, its votes bind it, its campaign counts real votes. *)
Record server_ok (Vt : Votes) (L : list (Z * Z)) (i : Z) r : Prop := {
  so_member : i ∈ C;
  so_inv : raft_inv i r;
  so_votes t c : Vt i t c -> t <= raft_term r /\ (t = raft_term r -> raft_vote r = c \/ raft_vote r = i);
  so_campaign : campaign_ok Vt i r;
  so_leader : server_state_ r = ServerStateLeader -> (i, raft_term r) ∈ L
}.

Record system_inv (Vt : Votes) (S : System W St) : Prop := {
  sy_servers i r : servers S !! i = Some r -> server_ok Vt (leaders S) i r;
  sy_members i t c : Vt i t c -> c ∈ C;
  sy_once i t c c' : Vt i t c -> Vt i t c' -> c = c';
  sy_replies rp : rp ∈ replies S -> is_u32 (vs_term (rp_response rp)) /\
    (vs_vote_granted (rp_response rp) = true -> Vt (rp_voter rp) (rp_term rp) (rp_candidate rp));
  sy_leaders i t : (i, t) ∈ leaders S -> exists V, elected_by Vt V i t /\ quorum <= Z.of_nat (size V)
}.

(** Two quorums share a server. *)
Lemma quorums_meet (V1 V2 : gset Z) :
  V1 ⊆ C -> V2 ⊆ C -> quorum <= Z.of_nat (size V1) -> quorum <= Z.of_nat (size V2) -> exists j, j ∈ V1 /\ j ∈ V2.
Proof.
  intros S1 S2 Q1 Q2. destruct (decide (V1 ## V2)) as [Hd|Hd].
  - exfalso. assert (size (V1 ∪ V2) <= size C)%nat by (apply subseteq_size; set_solver). rewrite size_union in * by done.
    unfold quorum in *. pose proof (Z.div_mod (Z.of_nat (size C)) 2 ltac:(lia)). pose proof (Z.mod_pos_bound (Z.of_nat (size C)) 2 ltac:(lia)). lia.
  - apply dec_stable. intros Hn. apply Hd. intros x Hx1 Hx2. apply Hn. eauto.
Qed.

Lemma leaders_unique Vt S i j t : system_inv Vt S -> (i, t) ∈ leaders S -> (j, t) ∈ leaders S -> i = j.
Proof.
  intros I Hi Hj. destruct (sy_leaders _ _ I i t Hi) as (V1 & [S1 G1] & Q1). destruct (sy_leaders _ _ I j t Hj) as (V2 & [S2 G2] & Q2).
  destruct (quorums_meet V1 V2 S1 S2 Q1 Q2) as (k & K1 & K2). by apply (sy_once _ _ I k t); [apply G1|apply G2].
Qed.

(** ** One event *)

Lemma elected_mono (Vt1 Vt2 : Votes) V c t : (forall i t c, Vt1 i t c -> Vt2 i t c) -> elected_by Vt1 V c t -> elected_by Vt2 V c t.
Proof. intros Hm [? Hv]. split; auto. Qed.

(** The other servers are not affected by more votes of [self] and more leaders. *)
Lemma server_ok_mono Vt1 Vt2 L1 L2 i r :
  (forall j t c, Vt1 j t c -> Vt2 j t c) -> (forall t c, Vt2 i t c -> Vt1 i t c) -> (forall x, x ∈ L1 -> x ∈ L2) ->
  server_ok Vt1 L1 i r -> server_ok Vt2 L2 i r.
Proof.
  intros Hm Hi Hl [A B D E F]. split; try done; [intros t c Hv; auto| |auto]. intros Hv.
  destruct (E Hv) as (V & El & Hrest). exists V. split; [by eapply elected_mono|done].
Qed.

(** A step of one server, from what it does to its votes, to its campaign and to its role. *)
Lemma system_update Vt1 Vt2 (S : System W St) self r' rep :
  system_inv Vt1 S ->
  (forall i t c, Vt1 i t c -> Vt2 i t c) -> (forall i t c, i <> self -> Vt2 i t c -> Vt1 i t c) ->
  (forall i t c, Vt2 i t c -> c ∈ C) -> (forall i t c c', Vt2 i t c -> Vt2 i t c' -> c = c') ->
  server_ok Vt2 (new_leader self r' ++ leaders S) self r' ->
  Forall (fun rp => is_u32 (vs_term (rp_response rp)) /\
    (vs_vote_granted (rp_response rp) = true -> Vt2 (rp_voter rp) (rp_term rp) (rp_candidate rp))) rep ->
  (server_state_ r' = ServerStateLeader -> exists V, elected_by Vt2 V self (raft_term r') /\ quorum <= Z.of_nat (size V)) ->
  system_inv Vt2 (mkSystem (<[self := r']> (servers S)) (rep ++ replies S) (new_leader self r' ++ leaders S)).
Proof.
  intros I Hm Hi Hmem Honce Hs Hrep Hlead. split; cbn [servers replies leaders]; [|done|done| |].
  - intros i r [[<- <-]|[Hne Hl]]%lookup_insert_Some; [done|].
    eapply server_ok_mono; [exact Hm|by intros; eapply Hi| |by apply (sy_servers _ _ I)]. intros x Hx. apply elem_of_app. by right.
  - intros rp [Hx|Hx]%elem_of_app; [by eapply Forall_forall in Hrep|]. destruct (sy_replies _ _ I rp Hx) as [? ?]. auto.
  - intros i t [Hx|Hx]%elem_of_app.
    + unfold new_leader in Hx. case_decide as Hd; [|by apply elem_of_nil in Hx]. apply list_elem_of_singleton in Hx. injection Hx as -> ->. auto.
    + destruct (sy_leaders _ _ I i t Hx) as (V & El & Q). exists V. split; [by eapply elected_mono|done].
Qed.

Lemma idle_campaign Vt self r : idle r -> campaign_ok Vt self r.
Proof. intros (_ & E & _) Hv. lia. Qed.

Lemma new_leader_in (self : Z) r L : server_state_ r = ServerStateLeader -> (self, raft_term r) ∈ new_leader self r ++ L.
Proof. intros E. unfold new_leader. rewrite decide_True by done. apply elem_of_app. left. by apply list_elem_of_singleton. Qed.

(** Votes bind across a step that grants none. *)
Lemma loose_votes Vt self r r' :
  loose self r r' ->
  (forall t c, Vt self t c -> t <= raft_term r /\ (t = raft_term r -> raft_vote r = c \/ raft_vote r = self)) ->
  forall t c, Vt self t c -> t <= raft_term r' /\ (t = raft_term r' -> raft_vote r' = c \/ raft_vote r' = self).
Proof.
  intros (_ & T & V) Hv t c Ht. destruct (Hv t c Ht) as [Hle Hb]. split; [lia|]. intros E.
  destruct (V ltac:(lia)) as [->|]; [apply Hb; lia|by right].
Qed.

(** A quiet step. *)
Lemma quiet_event Vt S self r r' rep :
  system_inv Vt S -> servers S !! self = Some r -> quiet self r r' ->
  Forall (fun rp => is_u32 (vs_term (rp_response rp)) /\
    (vs_vote_granted (rp_response rp) = true -> Vt (rp_voter rp) (rp_term rp) (rp_candidate rp))) rep ->
  system_inv Vt (mkSystem (<[self := r']> (servers S)) (rep ++ replies S) (new_leader self r' ++ leaders S)).
Proof.
  intros I Hs [L R] Hrep. pose proof (sy_servers _ _ I self r Hs) as [A B D E F].
  assert (Hl : server_state_ r' = ServerStateLeader -> (self, raft_term r') ∈ leaders S).
  { intros El. destruct R as [(Hn & _)|(E1 & _ & _ & E4)]; [done|]. rewrite E4. apply F. congruence. }
  apply (system_update Vt Vt); try done; [apply (sy_members _ _ I)|apply (sy_once _ _ I)| |intros El; by apply (sy_leaders _ _ I), Hl].
  split; [done|apply L|by eapply loose_votes| |intros El; apply elem_of_app; right; auto].
  destruct R as [R|(E1 & E2 & E3 & E4)]; [by apply idle_campaign|]. unfold campaign_ok. by rewrite E2, E3, E4.
Qed.

(** The start of a campaign. *)
Lemma campaign_event Vt S self r r' :
  system_inv Vt S -> servers S !! self = Some r -> campaign UniqueID_MaxSize C self r r' ->
  system_inv (add_vote Vt self (raft_term r') self) (mkSystem (<[self := r']> (servers S)) ([] ++ replies S) (new_leader self r' ++ leaders S)).
Proof.
  intros I Hs (I' & Hc & Hv & Ht & Hvote & Hnd & Hcalls). pose proof (sy_servers _ _ I self r Hs) as [A B D E F].
  assert (Hnew : forall c, Vt self (raft_term r') c -> False) by (intros c Hx; destruct (D _ _ Hx); lia).
  apply (system_update Vt); try done.
  - intros. by left.
  - intros i t c Hne [?|(? & _)]; done.
  - intros i t c [Hx|(_ & _ & ->)]; [by apply (sy_members _ _ I i t)|done].
  - intros i t c c' [Hx|(-> & -> & ->)] [Hy|(E1 & E2 & E3)]; subst; try done; [by eapply (sy_once _ _ I)|by destruct (Hnew _ Hx)|by destruct (Hnew _ Hy)].
  - split; [done|done| | |congruence].
    + intros t c [Hx|(_ & -> & ->)]; [|split; [lia|by left]]. destruct (D _ _ Hx). split; lia.
    + intros _. exists {[self]}. split_and!; [split; [set_solver|]|by rewrite size_singleton|done|].
      * intros j ->%elem_of_singleton. by right.
      * intros nid req Hin. destruct (Hcalls _ _ Hin) as (? & ? & ?). split_and!; [done|set_solver|done].
  - congruence.
Qed.

(** The end of a campaign. *)
Lemma won_event Vt S self r r' :
  system_inv Vt S -> servers S !! self = Some r -> won UniqueID_MaxSize C self r r' ->
  system_inv Vt (mkSystem (<[self := r']> (servers S)) ([] ++ replies S) (new_leader self r' ++ leaders S)).
Proof.
  intros I Hs (I' & Hc & Hq & Hpos & Ht & Hvote & Hv & Hcalls). pose proof (sy_servers _ _ I self r Hs) as [A B D E F].
  apply (system_update Vt Vt); try done; [apply (sy_members _ _ I)|apply (sy_once _ _ I)| |].
  - split; [done|done| |intros Hx; lia|apply new_leader_in]. intros t c Hx. rewrite Ht, Hvote. auto.
  - intros _. destruct (E Hpos) as (V & El & Hsz & _). exists V. rewrite Ht. split; [done|]. rewrite Hsz.
    unfold getQuorumSize in Hq. rewrite (ci_size _ _ _ (ri_cluster _ _ _ _ B)) in Hq. rewrite wrap_small in Hq; [done|].
    assert (Hb : 0 <= Z.of_nat (size C) < 256) by lia. revert Hb. generalize (Z.of_nat (size C)). intros n Hb.
    pose proof (Z.div_le_upper_bound n 2 128 ltac:(lia) ltac:(lia)). pose proof (Z.div_pos n 2 ltac:(lia) ltac:(lia)). split; lia.
Qed.

(** A vote that is granted. *)
Lemma granted_event Vt S self r r' src t resp :
  system_inv Vt S -> servers S !! self = Some r -> granted UniqueID_MaxSize C self r r' src t -> src ∈ C -> src <> self -> is_u32 (vs_term resp) ->
  system_inv (add_vote Vt self t src)
    (mkSystem (<[self := r']> (servers S)) ([mkReply self src t resp] ++ replies S) (new_leader self r' ++ leaders S)).
Proof.
  intros I Hs (I' & Hi & Hle & Ht & Hvote & Hfree) Hsrc Hne Hu. pose proof (sy_servers _ _ I self r Hs) as [A B D E F].
  assert (Hnew : forall c, Vt self t c -> c = src).
  { intros c Hx. destruct (D _ _ Hx) as [Hle' Hb]. assert (Et : t = raft_term r) by lia. specialize (Hb Et). specialize (Hfree (eq_sym Et)).
    pose proof (sy_members _ _ I _ _ _ Hx) as Hcm. destruct (HC c Hcm) as [Uc _]. destruct (HC self A) as [Us _].
    destruct Hfree as [Hf|Hf], Hb as [Hb|Hb]; congruence. }
  apply (system_update Vt); try done.
  - intros. by left.
  - intros i t' c Hne' [?|(? & _)]; done.
  - intros i t' c [Hx|(_ & _ & ->)]; [by apply (sy_members _ _ I i t')|done].
  - intros i t' c c' [Hx|(-> & -> & ->)] [Hy|(E1 & E2 & E3)]; subst; try done; [by eapply (sy_once _ _ I)|by apply Hnew|symmetry; by apply Hnew].
  - split; [done|done| |by apply idle_campaign|intros Hl; by destruct Hi].
    intros t' c [Hx|(_ & -> & ->)]; [|split; [lia|by left]]. destruct (D _ _ Hx). split; [lia|]. intros Et. left. rewrite Hvote. symmetry. apply Hnew. congruence.
  - apply Forall_singleton. split; [done|]. intros _. by right.
  - intros Hl. by destruct Hi.
Qed.

(** A pending call that ends. *)
Lemma remove_call_spec server (l : list (Z * VoteRequest)) :
  NoDup l.*1 -> NoDup (remove_call server l).*1 /\ forall c, c ∈ remove_call server l <-> c ∈ l /\ c.1 <> server.
Proof.
  induction l as [|[n q] l IH]; cbn [fmap list_fmap fst remove_call]; intros Hnd.
  { split; [done|]. intros c. split; [by intros ?%elem_of_nil|by intros [?%elem_of_nil _]]. }
  apply NoDup_cons in Hnd as [Hn Hnd]. destruct (IH Hnd) as [IH1 IH2]. destruct (Z.eqb_spec n server) as [->|Hne].
  - split; [done|]. intros [n' q']. rewrite elem_of_cons. cbn. split; [|intros [[[= -> ->]|?] ?]; done].
    intros Hin. split; [by right|]. intros ->. apply Hn. apply list_elem_of_fmap. by exists (server, q').
  - split.
    + cbn. apply NoDup_cons. split; [|done]. intros ([n' q'] & -> & Hx)%list_elem_of_fmap. apply IH2 in Hx as [Hx _]. apply Hn.
      apply list_elem_of_fmap. by exists (n', q').
    + intros c. rewrite !elem_of_cons, IH2. split; [intros [->|[? ?]]; auto|intros [[->|?] ?]; auto].
Qed.

Lemma remove_call_nil server : remove_call server [] = [].
Proof. done. Qed.

(** The response to a call, or its timeout. *)
Lemma response_event Vt S self r server req result :
  system_inv Vt S -> servers S !! self = Some r -> event_ok S self r (EvVoteResponse server req result) ->
  system_inv Vt (system_event S self r (EvVoteResponse server req result)).
Proof.
  intros I Hs [Hcall Hres]. pose proof (sy_servers _ _ I self r Hs) as [A B D E F].
  assert (Hpos : 0 < votes r).
  { pose proof (ri_votes _ _ _ _ B). destruct (decide (votes r = 0)) as [Hz|]; [|lia].
    rewrite (ri_calls _ _ _ _ B Hz) in Hcall. by apply elem_of_nil in Hcall. }
  destruct (E Hpos) as (V & El & Hsz & Hnd & Hcalls). destruct (remove_call_spec server _ Hnd) as [Hnd' Hin'].
  set (r0 := set_calls r (remove_call server (request_vote_calls r)) (append_entries_calls r)).
  assert (B0 : raft_inv self r0) by (destruct B; split; try done; cbn; lia).
  assert (Hu : forall resp, result = Some resp -> is_u32 (vs_term resp)).
  { intros resp Hx. by apply (sy_replies _ _ I _ (Hres _ Hx)). }
  unfold RaftElection.system_event. cbn [RaftElection.handle new_reply]. fold r0.
  pose proof (RequestVoteResponse_ok UniqueID_MaxSize MIN_TIMEOUT MAX_TIMEOUT C self r0 result B0 Hu) as Hr.
  assert (I0 : system_inv Vt (mkSystem (<[self := r0]> (servers S)) (replies S) (leaders S))).
  { split; cbn [servers replies leaders]; try apply I. intros i r1 [[<- <-]|[Hne Hl]]%lookup_insert_Some; [|by apply (sy_servers _ _ I)].
    split; [done|done|done| |done]. intros _. exists V. split_and!; [done|done|done|]. intros nid q [Hq _]%Hin'. exact (Hcalls _ _ Hq). }
  destruct Hr as [Hq|[(resp & -> & Hg) Er]].
  - pose proof (quiet_event Vt _ self r0 _ [] I0 ltac:(apply lookup_insert_eq) Hq ltac:(done)) as Hx. cbn [servers replies leaders] in Hx.
    by rewrite insert_insert_eq in Hx.
  - rewrite Er. set (r' := set_role r0 _ _ _).
    assert (Hv : Vt server (vr_term req) self) by (by apply (sy_replies _ _ I _ (Hres _ eq_refl))).
    destruct (Hcalls _ _ Hcall) as (Hsc & Hsv & Hst). rewrite Hst in Hv.
    assert (Hsz' : size (V ∪ {[server]}) = (size V + 1)%nat) by (rewrite size_union, size_singleton by set_solver; done).
    assert (Hle : (size (V ∪ {[server]}) <= size C)%nat) by (apply subseteq_size; destruct El; set_solver).
    assert (Ew : votes r' = votes r + 1) by (subst r'; cbn; apply wrap_small; split; lia).
    assert (Hcand : server_state_ r = ServerStateCandidate).
    { destruct (server_state_ r) eqn:Es; [|done|]; rewrite (ri_role _ _ _ _ B) in Hpos by congruence; lia. }
    assert (Hrole : server_state_ r' <> ServerStateLeader) by (subst r'; cbn; congruence).
    apply (system_update Vt Vt); try done; [apply (sy_members _ _ I)|apply (sy_once _ _ I)|].
    split; [done| |done| |done].
    + destruct B. split; [done|done|rewrite Ew; lia|intros Hx; by destruct Hx|rewrite Ew; lia].
    + intros _. exists (V ∪ {[server]}). destruct El as [Hsub Hall]. split_and!; [split; [set_solver|]|rewrite Ew; lia|done|].
      * intros j [Hj| ->%elem_of_singleton]%elem_of_union; [by apply Hall|done].
      * intros nid q [Hq Hne]%Hin'. destruct (Hcalls _ _ Hq) as (? & ? & ?). split_and!; [done|set_solver|done].
Qed.

(** A crash and a restart. *)
Lemma restart_quiet self r w cluster_size pub_res sub_res srv_res S :
  raft_inv self r -> self ∈ C -> event_ok S self r (EvRestart w cluster_size pub_res sub_res srv_res) ->
  quiet self r (handle self r (EvRestart w cluster_size pub_res sub_res srv_res)).2.
Proof.
  intros Hr Hself [Hsz Hres]. cbn [RaftElection.handle].
  destruct (PersistentState_init_restores UniqueID_MaxSize (storage_ r) (persistent_state_ r) (PersistentState_make UniqueID_MaxSize)
    (ri_ps _ _ _ _ Hr) (make_length _)) as (p' & Ep & Hview & Hp').
  pose proof (RaftCore_init_ok UniqueID_MaxSize MIN_TIMEOUT MAX_TIMEOUT MaxClusterSize C self (storage_ r) w cluster_size pub_res sub_res srv_res Hsz) as Hi.
  rewrite Ep in Hi. specialize (Hi (or_intror Hp')).
  destruct (RaftCore_init _ _ _ _ _ _ _ _ _) as [res r']. destruct Hres as [Hres Hc]. destruct (Hi Hres Hc) as (I' & Hidle & Ers). cbn [fst snd] in Ers.
  cbn [snd]. unfold ps_view in Hview. injection Hview as V1 V2 _. split; [|by left]. split_and!; [done| |]; rewrite Ers; [lia|left; congruence].
Qed.

Lemma system_event_inv Vt S self r ev :
  system_inv Vt S -> servers S !! self = Some r -> event_ok S self r ev -> exists Vt', system_inv Vt' (system_event S self r ev).
Proof.
  intros I Hs Hev. pose proof (sy_servers _ _ I self r Hs) as [A B D E F].
  destruct ev as [|src req|server req result|src req|server result|msg|uid nid|w cluster_size pub_res sub_res srv_res].
  - destruct (handleTimerEvent_ok UniqueID_MaxSize MIN_TIMEOUT MAX_TIMEOUT entries_capacity MaxClusterSize C self A HC r B) as [Q|[Q|Q]].
    + exists Vt. by eapply quiet_event.
    + eexists. by eapply campaign_event.
    + exists Vt. by eapply won_event.
  - destruct Hev as (Hsrc & Hne & Ht). unfold RaftElection.system_event. cbn [RaftElection.handle].
    pose proof (RequestVoteRequest_ok UniqueID_MaxSize MIN_TIMEOUT MAX_TIMEOUT C self HC r src req B Hsrc Ht) as Hr.
    destruct (handleRequestVoteRequest _ _ _ _ _ _ _) as [[resp|] r']; cbn in Hr; destruct Hr as [Hr Hterm].
    + assert (Hu : is_u32 (vs_term resp)).
      { rewrite (Hterm resp eq_refl). destruct (vs_vote_granted resp); [destruct Hr as [I' _]|destruct Hr as [[I' _] _]];
          apply (pi_term_u32 _ _ _ (ri_ps _ _ _ _ I')). }
      destruct (vs_vote_granted resp) eqn:Eg; [eexists; by eapply granted_event|]. exists Vt. eapply quiet_event; [done|done|done|].
      apply Forall_singleton. cbn. split; [done|congruence].
    + exists Vt. by eapply quiet_event.
  - exists Vt. by apply response_event.
  - destruct Hev as (Hsrc & Ht & Hp & He). exists Vt. eapply quiet_event; [done|done| |done]. by apply AppendEntriesRequest_quiet.
  - exists Vt. eapply quiet_event; [done|done| |done]. by apply AppendEntriesResponse_quiet.
  - exists Vt. eapply quiet_event; [done|done| |done]. by apply handleDiscovery_quiet.
  - destruct Hev as (Hb & Hl & Hn). exists Vt. eapply quiet_event; [done|done| |done]. by apply calm_quiet, appendLog_ok.
  - pose proof (restart_quiet self r w cluster_size pub_res sub_res srv_res S B A Hev) as Hq. exists Vt.
    unfold RaftElection.system_event. destruct (handle self r _) as [resp r']. cbn [snd] in Hq. cbn [new_reply]. by eapply quiet_event.
Qed.

Lemma reachable_inv S : reachable UniqueID_MaxSize MIN_TIMEOUT MAX_TIMEOUT entries_capacity MaxClusterSize C S -> exists Vt, system_inv Vt S.
Proof.
  induction 1 as [m Hm|S self r ev _ [Vt I] Hs Hev]; [|by eapply system_event_inv].
  exists (fun _ _ _ => False). split; cbn; try done; [|by intros rp ?%elem_of_nil|by intros i t ?%elem_of_nil].
  intros i r Hr. destruct (Hm i r Hr) as (Hi & w & s & csz & pub_res & sub_res & srv_res & res & Hd & Hsz & Ei & Hres & Hc).
  pose proof (RaftCore_init_ok UniqueID_MaxSize MIN_TIMEOUT MAX_TIMEOUT MaxClusterSize C i s w csz pub_res sub_res srv_res Hsz) as Hx.
  pose proof (PersistentState_init_blank UniqueID_MaxSize s Hd) as Hb. rewrite Ei in Hx.
  destruct Hx as (I' & Hidle & _); [|done|done|].
  { destruct (PersistentState_init UniqueID_MaxSize s (PersistentState_make UniqueID_MaxSize)) as [[r1 p1] s1]. destruct Hb as [?|(_ & ? & _)]; auto. }
  split; [done|done|done|by apply idle_campaign|by destruct Hidle].
Qed.

(** C13: a cluster of Raft servers never has two leaders in the same term, not even at different
    times: whatever the network loses, delays, duplicates or reorders, whichever writes the
    storages ignore, and whenever servers crash and restart, if the server [i] was leader in a
    term and the server [j] was leader in the same term, then [i] is [j]. This assumes that the
    reads of the storages do not fail, that all servers are configured for the same cluster and
    hear only its members, and that a vote response which a server takes for the answer to a
    pending call was given to that request: it was not delayed until its transfer ID belongs to
    a later call, which the server would not notice, as it does not check the term of a vote. *)
Theorem election_safety S i j t :
  reachable UniqueID_MaxSize MIN_TIMEOUT MAX_TIMEOUT entries_capacity MaxClusterSize C S ->
  (i, t) ∈ leaders S -> (j, t) ∈ leaders S -> i = j.
Proof. intros [Vt I]%reachable_inv. by eapply leaders_unique. Qed.

End election.

(** ** An example: three servers, two elections, a restart in between *)

(** A clock that advances five seconds at each reading, a network that accepts every call, a
    leader that appends an entry when it is elected. *)
Definition ExampleWorld : Type := Z.
#[export] Instance example_env : RaftEnv ExampleWorld := {
  env_now w := (w, w + 5000000);
  env_rand w := (7, w);
  env_call_vote w _ _ := (0, w);
  env_call_append w _ _ := (0, w);
  env_leadership w is_leader _ := (if is_leader then [(replicate 16 0xA5, 42)] else [], w);
  env_commit w _ := w
}.
#[export] Instance example_monitor : MonitorEntries 16 ExampleWorld.
Proof.
  intros w [|] p; [|apply Forall_nil_2]. apply Forall_singleton. split; [apply Forall_replicate; split; lia|]. split; [done|change NodeID.Max with 127; cbn; lia].
Qed.

Abbreviation example_system := (System ExampleWorld (gmap string string)).
Definition example_members : gset Z := {[1; 2; 3]}.
Definition example_init (s : gmap string string) : RaftCore ExampleWorld (gmap string string) :=
  (RaftCore_init 16 2000 4000 5 (RaftCore_make 16 4000 1000000 s) 3 0 0 []).2.
Definition example_event (S : example_system) (x : Z * Event ExampleWorld) : example_system :=
  match servers S !! x.1 with
  | Some r => system_event 16 2000 4000 1 5 S x.1 r x.2
  | None => S
  end.

#[export] Instance VoteRequest_eq_dec : EqDecision VoteRequest.
Proof. solve_decision. Defined.
#[export] Instance VoteResponse_eq_dec : EqDecision VoteResponse.
Proof. solve_decision. Defined.
#[export] Instance Reply_eq_dec : EqDecision Reply.
Proof. solve_decision. Defined.

(** Whether an event of the example can happen. *)
Definition example_check (S : example_system) (x : Z * Event ExampleWorld) : bool :=
  match servers S !! x.1 with
  | Some r =>
    match x.2 with
    | EvTimer => true
    | EvVoteRequest src req => bool_decide (src ∈ example_members) && negb (src =? x.1) && (0 <=? vr_term req) && (vr_term req <? 2 ^ 32)
    | EvVoteResponse server req (Some resp) =>
      bool_decide ((server, req) ∈ request_vote_calls r) && bool_decide (mkReply server x.1 (vr_term req) resp ∈ replies S)
    | EvAppendResponse server (Some resp) => (0 <=? as_term resp) && (as_term resp <? 2 ^ 32)
    | EvDiscovery msg => bool_decide (Forall (fun nid => nid ∈ example_members) (known_nodes msg))
    | EvRestart w size pub_res sub_res srv_res =>
      let '(res, r') := RaftCore_init 16 2000 4000 5 (RaftCore_make 16 4000 w (storage_ r)) size pub_res sub_res srv_res in
      (size =? 3) && (res =? 0) && (cluster_size_ (cluster_ r') =? 3)
    | _ => false
    end
  | None => false
  end.

Fixpoint example_run (S : example_system) (l : list (Z * Event ExampleWorld)) : bool * example_system :=
  match l with
  | [] => (true, S)
  | x :: l => if example_check S x then example_run (example_event S x) l else (false, S)
  end.

Abbreviation example_reachable := (reachable (W := ExampleWorld) (St := gmap string string) 16 2000 4000 1 5 example_members).

Lemma example_check_ok S x :
  example_check S x = true -> exists r, servers S !! x.1 = Some r /\ event_ok 16 2000 4000 5 example_members S x.1 r x.2.
Proof.
  unfold example_check. destruct (servers S !! x.1) as [r|]; [|done]. intros Hc. exists r. split; [done|].
  destruct x.2 as [|src req|server req [resp|]|src req|server [resp|]|msg|uid nid|w size pub_res sub_res srv_res]; cbn [event_ok]; try done.
  - rewrite !andb_true_iff, bool_decide_eq_true in Hc. split_and!; [apply Hc|lia|split; lia].
  - rewrite andb_true_iff, !bool_decide_eq_true in Hc. split; [apply Hc|]. intros ? [= <-]. apply Hc.
  - intros ? [= <-]. split; lia.
  - rewrite bool_decide_eq_true in Hc. eapply Forall_impl; [exact Hc|]. by intros.
  - destruct (RaftCore_init _ _ _ _ _ _ _ _ _) as [res r']. rewrite !andb_true_iff, !Z.eqb_eq in Hc. destruct Hc as [[-> ->] ->].
    split_and!; [lia|lia|lia|]. change (size example_members) with 3%nat. done.
Qed.

Lemma example_run_ok l S : example_reachable S -> (example_run S l).1 = true -> example_reachable (example_run S l).2.
Proof.
  revert S. induction l as [|x l IH]; intros S HS; cbn [example_run]; [done|]. destruct (example_check S x) eqn:Ec; [|done].
  apply IH. destruct (example_check_ok S x Ec) as (r & Hr & Hev). unfold example_event. rewrite Hr. by eapply reachable_event.
Qed.

Definition example_start : example_system := mkSystem (set_to_map (fun i => (i, example_init ∅)) example_members) [] [].
Definition example_events : list (Z * Event ExampleWorld) :=
  let discovery := EvDiscovery (mkDiscovery 3 [1; 2; 3]) in
  let req1 := mkVoteRequest 1 0 0 in
  let req2 := mkVoteRequest 2 0 0 in
  [(1, discovery); (2, discovery); (3, discovery);
   (1, EvTimer); (1, EvTimer);                                 (* the server 1 campaigns in the term 1 *)
   (2, EvVoteRequest 1 req1); (3, EvVoteRequest 1 req1);
   (1, EvVoteResponse 2 req1 (Some (mkVoteResponse 1 true)));
   (2, EvRestart 9000000 3 0 0 []);                            (* a server that voted restarts *)
   (1, EvTimer);                                               (* the server 1 is elected *)
   (2, discovery); (2, EvTimer); (2, EvTimer);                 (* the server 2 campaigns in the term 2 *)
   (1, EvVoteRequest 2 req2); (3, EvVoteRequest 2 req2);
   (2, EvVoteResponse 3 req2 (Some (mkVoteResponse 2 true)));
   (2, EvTimer)].                                              (* the server 2 is elected *)

Lemma example_start_reachable : example_reachable example_start.
Proof.
  apply reachable_start. intros i r Hr. unfold example_start in Hr.
  apply lookup_set_to_map in Hr as (j & Hj & [= -> <-]); [|done]. split; [done|].
  exists 1000000, ∅, 3, 0, 0, [], 0. split_and!; [done|lia|lia| |lia|]; vm_compute; reflexivity.
Qed.

Lemma example_unicast nid : nid ∈ example_members -> NodeID.isUnicast nid = true /\ 0 <= nid <= NodeID.Max.
Proof.
  unfold example_members. rewrite !elem_of_union, !elem_of_singleton. change NodeID.Max with 127. unfold NodeID.isUnicast. change NodeID.Max with 127.
  change NodeID.ValueBroadcast with 0. lia.
Qed.

Lemma example_size : Z.of_nat (size example_members) < 256.
Proof. vm_compute. reflexivity. Qed.
Lemma example_member_2 : 2 ∈ example_members.
Proof. unfold example_members. set_solver. Qed.
Lemma example_events_run : (example_run example_start example_events).1 = true.
Proof. vm_compute. reflexivity. Qed.
Lemma example_events_leaders : leaders (example_run example_start example_events).2 = [(2, 2); (1, 1)].
Proof. vm_compute. reflexivity. Qed.

Lemma election_safety_witness :
  exists S : example_system, example_reachable S /\ leaders S = [(2, 2); (1, 1)] /\
    (forall j, (j, 1) ∈ leaders S -> 1 = j) /\ (forall j, (j, 2) ∈ leaders S -> 2 = j).
Proof.
  pose proof (example_run_ok example_events _ example_start_reachable example_events_run) as R.
  exists (example_run example_start example_events).2. split; [exact R|]. split; [exact example_events_leaders|].
  split; intros j Hj; (eapply (election_safety (W := ExampleWorld) (St := gmap string string) 16 2000 4000 1 5 example_members example_unicast example_size _ _ _ _ R);
    [|exact Hj]); rewrite example_events_leaders; [right; left|left].
Defined.

(** Every server of the example is in order. *)
Lemma example_server_inv l i r :
  (example_run example_start l).1 = true -> servers (example_run example_start l).2 !! i = Some r -> raft_inv 16 example_members i r /\ i ∈ example_members.
Proof.
  intros Hl Hi. destruct (reachable_inv (W := ExampleWorld) (St := gmap string string) 16 2000 4000 1 5 example_members example_unicast ltac:(vm_compute; reflexivity) _
    (example_run_ok l _ example_start_reachable Hl)) as [Vt I].
  destruct (sy_servers _ _ _ _ I i r Hi) as [A B _ _ _]. by split.
Qed.

Definition example_leader_entry : Entry := mkEntry 2 (replicate 16 0xA5) 42.

Definition example_append : AppendRequest := mkAppendRequest 2 0 0 1 [example_leader_entry].
Abbreviation example_server events i := (servers (example_run example_start events).2 !! i).
Abbreviation example_append_to_3 r := (handleAppendEntriesRequest 16 2000 4000 3 r 2 example_append).

Lemma example_append_wf : Forall (fun e => Entry_wf 16 e /\ term e <= ar_term example_append) (ar_entries example_append).
Proof.
  apply Forall_singleton. split; [|cbn; lia]. split; cbn [example_leader_entry term unique_id node_id];
    [split; lia|apply Forall_replicate; split; lia|done|change NodeID.Max with 127; lia].
Qed.

Lemma example_append_run :
  match example_server example_events 3 with
  | Some r => isKnownServer 3 (cluster_ r) 2 = true /\
    (example_append_to_3 r).1 = Some (mkAppendResponse 2 true) /\ last_index_ (log_ (persistent_state_ (example_append_to_3 r).2)) = 1 /\
    log_view (log_ (persistent_state_ r)) = [Entry_default 16] /\ commit_index_ r = 0
  | None => False
  end.
Proof. vm_compute. split_and!; reflexivity. Qed.

(** The server 3 takes over the entry of the leader 2. *)
Lemma append_entries_replicates_witness :
  exists r, example_server example_events 3 = Some r /\
    let '(resp, r') := example_append_to_3 r in
    resp = Some (mkAppendResponse 2 true) /\ log_view (log_ (persistent_state_ r')) = [Entry_default 16; example_leader_entry] /\ commit_index_ r' = 1.
Proof.
  pose proof example_append_run as He. destruct (example_server example_events 3) as [r|] eqn:Hr; [|destruct He].
  destruct He as (Hk & Hresp & Hlast & Hlog & Hcom). exists r. split; [reflexivity|].
  destruct (example_server_inv example_events 3 r example_events_run Hr) as [Hinv Hmem].
  pose proof (append_entries_replicates 16 2000 4000 example_members 3 r 2 example_append
    Hinv example_member_2 ltac:(split; cbn; lia) ltac:(split; cbn; lia) example_append_wf Hk) as Hx.
  destruct (example_append_to_3 r) as [resp r']. cbn [fst snd] in Hresp, Hlast. subst resp.
  destruct Hx as [[(_ & Hx & _)|[[Hx _]|(r1 & E1 & E2 & E3 & E4 & _)]] _]; [discriminate|discriminate|].
  destruct E4 as (_ & _ & _ & E5 & E6). rewrite E1, Hlog in E5. rewrite E2, Hcom, Hlast in E6.
  split; [reflexivity|]. split; [exact E5|exact E6].
Defined.

(** The leader 2 commits its entry after the server 1 has acknowledged it. *)
Definition example_commit_events : list (Z * Event ExampleWorld) :=
  example_events ++ [(2, EvTimer); (2, EvAppendResponse 1 (Some (mkAppendResponse 2 true)))].

Lemma example_commit_run :
  (example_run example_start example_commit_events).1 = true /\
  match example_server example_commit_events 2 with
  | Some r => commit_index_ r = 0 /\ commit_index_ (propagateCommitIndex 16 r) = 1
  | None => False
  end.
Proof. vm_compute. split_and!; reflexivity. Qed.

Lemma leader_commits_by_quorum_witness :
  exists r, example_server example_commit_events 2 = Some r /\ commit_index_ r = 0 /\
    commit_index_ (propagateCommitIndex 16 r) = 1 /\ 3 < 2 * Z.of_nat (size (holders 2 r)).
Proof.
  destruct example_commit_run as [Hrun He]. destruct (example_server example_commit_events 2) as [r|] eqn:Hr; [|destruct He].
  destruct He as [Hc Hp]. exists r. split; [reflexivity|]. split; [exact Hc|]. split; [exact Hp|].
  destruct (example_server_inv example_commit_events 2 r Hrun Hr) as [Hinv Hmem].
  assert (Hc0 : 0 <= commit_index_ r) by lia.
  destruct (leader_commits_by_quorum 16 example_members 2 Hmem r example_size Hinv Hc0) as [E|(_ & _ & _ & _ & _ & Hq & _)];
    [rewrite E in Hp; lia|]. exact Hq.
Defined.

(** ** Where the code departs from Raft *)

(** A server of the cluster with a log, in a term, with a commit index. *)
Definition example_server_with (st : ServerState) (t commit match_index : Z) (entries : list Entry) : RaftCore ExampleWorld (gmap string string) :=
  let log := mkLog (entries ++ replicate (Z.to_nat Capacity - length entries) (Entry_default 16)) (Z.of_nat (length entries) - 1) in
  mkRaft 0 ∅ (mkPS t 0 log) (mkCluster [mkServer 2 (match_index + 1) match_index; mkServer 3 1 0] 3 false) commit 0 0 st 0 0 (0, 0) [] [].

(** A candidate counts a vote that was given to it in any earlier term: the term of the response is only compared upwards. *)
Example late_vote_is_counted :
  let r := set_role (example_server_with ServerStateCandidate 3 0 0 [Entry_default 16]) ServerStateCandidate 0 1 in
  num_votes_received_in_this_campaign_ (handleRequestVoteResponse 16 2000 4000 r (Some (mkVoteResponse 1 true))) = 2.
Proof. reflexivity. Qed.

(** The leader of the term 3 commits an entry of the term 1 as soon as a quorum has it. Raft
    commits only entries of the leader's own term by counting replicas. *)
Example commits_entry_of_an_older_term :
  let e := mkEntry 1 (replicate 16 0xA5) 42 in
  let r := example_server_with ServerStateLeader 3 0 1 [Entry_default 16; e] in
  commit_index_ r = 0 /\ commit_index_ (propagateCommitIndex 16 r) = 1 /\ term e < current_term_ (persistent_state_ r).
Proof. vm_compute. split_and!; reflexivity. Qed.

(** A request that arrives late removes entries that match the leader's log and were committed;
    the commit index is then past the end of the log. *)
Example late_request_removes_committed_entries :
  let e := mkEntry 1 (replicate 16 0xA5) 42 in
  let r := example_server_with ServerStateFollower 1 2 0 [Entry_default 16; e; e] in
  let '(resp, r') := handleAppendEntriesRequest 16 2000 4000 1 r 2 (mkAppendRequest 1 1 1 1 []) in
  resp = Some (mkAppendResponse 1 true) /\ log_view (log_ (persistent_state_ r')) = [Entry_default 16; e] /\
  last_index_ (log_ (persistent_state_ r')) < commit_index_ r'.
Proof. vm_compute. split_and!; reflexivity. Qed.
