(* ===== verification/DistributedServer.v ===== *)
(** * DistributedServer: the allocator on top of Raft

    Models [Server] of
    [libuavcan/include/uavcan/protocol/dynamic_node_id_server/distributed/server.hpp]: it joins a [RaftCore], an
    allocation request manager and a node discoverer. The world of its Raft core keeps the
    messages that [handleLogCommitOnLeader] broadcasts. *)

From stdpp Require Import gmap strings list list_numbers.
From S2P Require Import Prelude MonoTime Transfer BitSet NodeIDSelector NodeDiscoverer StorageMarshaller RaftLog ClusterManager RaftCore RaftElection Allocation.
Local Open Scope Z_scope.

Section server.
Context (UniqueID_MaxSize : nat) (MIN_TIMEOUT MAX_TIMEOUT : Z) (MaxClusterSize : Z).
Context (self : Z) (own_unique_id_ : list Z).

(** [UniqueIDLogPredicate], [NodeIDLogPredicate]. *)
Definition UniqueIDLogPredicate (uid : list Z) (entry : Entry) (committed : bool) : bool := bool_decide (unique_id entry = uid).
Definition NodeIDLogPredicate (nid : Z) (entry : Entry) (committed : bool) : bool := node_id entry =? nid.

(** [void tryPublishAllocationResult(const Entry& entry)]: the message. *)
Definition tryPublishAllocationResult (entry : Entry) : Allocation := broadcastAllocationResponse (unique_id entry) (node_id entry).

(** Whether an entry of the log has the node ID. *)
Definition log_has_node (l : Log) (nid : Z) : bool :=
  existsb (fun i => node_id (entry_at UniqueID_MaxSize l i) =? nid) (seqZ 0 (last_index_ l + 1)).

(** [void handleLocalLeadershipChange(bool local_node_is_leader)]: what it appends. *)
Definition handleLocalLeadershipChange (local_node_is_leader : bool) (p : PersistentState) : list (list Z * Z) :=
  if local_node_is_leader && negb (log_has_node (log_ p) self) then [(own_unique_id_, self)] else [].

(** The surroundings of the Raft core of a server: those of the platform, with the server as the leader monitor. *)
Definition server_env {W} `{RaftEnv W} : RaftEnv (W * list Allocation) := {|
  env_now w := let '(t, w1) := env_now w.1 in (t, (w1, w.2));
  env_rand w := let '(x, w1) := env_rand w.1 in (x, (w1, w.2));
  env_call_vote w nid req := let '(res, w1) := env_call_vote w.1 nid req in (res, (w1, w.2));
  env_call_append w nid req := let '(res, w1) := env_call_append w.1 nid req in (res, (w1, w.2));
  env_leadership w is_leader p := (handleLocalLeadershipChange is_leader p, w);
  env_commit w e := (w.1, w.2 ++ [tryPublishAllocationResult e])
|}.

Context {W : Type} `{RaftEnv W} {St : Type} `{IStorageBackend St}.
#[local] Existing Instance server_env.
Abbreviation Core := (RaftCore (W * list Allocation) St).

(** [Server]. *)
Record Server := mkServer { raft_core_ : Core; node_discoverer_ : NodeDiscoverer }.
Definition set_core (s : Server) (r : Core) : Server := mkServer r (node_discoverer_ s).

Definition isLeader (r : Core) : bool := bool_decide (server_state_ r = ServerStateLeader).

(** The whole log. *)
Definition traverse (r : Core) (predicate : Entry -> bool -> bool) : option (Entry * bool) :=
  traverseLogFromEndUntil UniqueID_MaxSize r predicate (Z.to_nat (last_index_ (log_ (persistent_state_ r)) + 1)).

(** [bool canPublishFollowupAllocationResponse() const]. *)
Definition Server_canPublishFollowup (s : Server) : bool :=
  isLeader (raft_core_ s) && areAllLogEntriesCommitted (raft_core_ s).

(** [bool isNodeIDTaken(const NodeID node_id) const]. *)
Definition isNodeIDTaken (r : Core) (nid : Z) : bool := bool_decide (is_Some (traverse r (NodeIDLogPredicate nid))).

(** [void allocateNewNode(const UniqueID& unique_id, const NodeID preferred_node_id)]. *)
Definition allocateNewNode (r : Core) (uid : list Z) (preferred : Z) : Core :=
  let allocated := findFreeNodeID (isNodeIDTaken r) preferred in
  if negb (NodeID.isUnicast allocated) then r
  else appendLog UniqueID_MaxSize MIN_TIMEOUT MAX_TIMEOUT r uid allocated.

(** [void handleAllocationRequest(const UniqueID& unique_id, const NodeID preferred_node_id)]. *)
Definition Server_handleAllocationRequest (s : Server) (uid : list Z) (preferred : Z) : list Allocation * Server :=
  match traverse (raft_core_ s) (UniqueIDLogPredicate uid) with
  | Some (entry, committed) => (if committed then [tryPublishAllocationResult entry] else [], s)
  | None =>
    if isLeader (raft_core_ s) && negb (hasUnknownNodes (node_discoverer_ s))
    then ([], set_core s (allocateNewNode (raft_core_ s) uid preferred)) else ([], s)
  end.

(** [bool canDiscoverNewNodes() const], [NodeAwareness checkNodeAwareness(NodeID node_id) const]. *)
Definition Server_canDiscoverNewNodes (r : Core) : bool := isLeader r.
Definition Server_checkNodeAwareness (r : Core) (nid : Z) : NodeAwareness :=
  match traverse r (NodeIDLogPredicate nid) with
  | Some (_, committed) => if committed then NodeAwarenessKnownAndCommitted else NodeAwarenessKnownButNotCommitted
  | None => NodeAwarenessUnknown
  end.

(** [void handleNewNodeDiscovery(const UniqueID* unique_id_or_null, NodeID node_id)]. *)
Definition Server_handleNewNodeDiscovery (r : Core) (unique_id_or_null : option (list Z)) (nid : Z) : Core :=
  match traverse r (NodeIDLogPredicate nid) with
  | Some _ => r
  | None =>
    let uid := default (replicate UniqueID_MaxSize 0) unique_id_or_null in
    if isLeader r then appendLog UniqueID_MaxSize MIN_TIMEOUT MAX_TIMEOUT r uid nid else r
  end.

(** [int init(const UniqueID& own_unique_id, const uint8_t cluster_size, const TransferPriority priority)]; the last arguments are the
    results of starting the manager and the discoverer. *)
Definition Server_init (s : Server) (cluster_size pub_res sub_res : Z) (srv_res : list Z) (manager_res discoverer_res : Z) : Z * Server :=
  let '(res, r) := RaftCore_init UniqueID_MaxSize MIN_TIMEOUT MAX_TIMEOUT MaxClusterSize (raft_core_ s) cluster_size pub_res sub_res srv_res in
  let s := set_core s r in
  if res <? 0 then (res, s)
  else
    let other_owner :=
      match traverse r (NodeIDLogPredicate self) with
      | Some (entry, _) => negb (bool_decide (unique_id entry = own_unique_id_))
      | None => false
      end in
    if other_owner then (- ErrInvalidConfiguration, s)
    else if manager_res <? 0 then (manager_res, s)
    else if discoverer_res <? 0 then (discoverer_res, s)
    else (0, s).

(** The discoverer of the server works on its Raft core, the manager on the whole server. *)
Definition server_discovery : INodeDiscoveryHandler Core := {|
  canDiscoverNewNodes := Server_canDiscoverNewNodes;
  NodeDiscoverer.checkNodeAwareness := Server_checkNodeAwareness;
  handleNewNodeDiscovery := Server_handleNewNodeDiscovery
|}.
Definition server_allocation : IAllocationRequestHandler Server := {|
  canPublishFollowupAllocationResponse := Server_canPublishFollowup;
  Allocation.handleAllocationRequest := Server_handleAllocationRequest
|}.

End server.
Arguments Server : clear implicits.
Arguments raft_core_ {_ _}.
Arguments node_discoverer_ {_ _}.

(** ** The log has each node ID once *)

Section uniqueness.
Context (UniqueID_MaxSize : nat) (MIN_TIMEOUT MAX_TIMEOUT : Z) (entries_capacity : nat) (MaxClusterSize : Z).
Context (C : gset Z) (self : Z) (Hself : self ∈ C) (own_unique_id : list Z).
Context (HC : forall nid, nid ∈ C -> NodeID.isUnicast nid = true /\ 0 <= nid <= NodeID.Max).
Context (Hown : bytes own_unique_id /\ length own_unique_id = UniqueID_MaxSize).
Context {W : Type} `{RaftEnv W} {St : Type} `{StorageLaws St} `{!ReadableStorage St}.
#[local] Existing Instance server_env.
#[local] Instance the_env : RaftEnv (W * list Allocation) := server_env UniqueID_MaxSize self own_unique_id.
Abbreviation Core := (RaftCore (W * list Allocation) St).
Abbreviation raft_inv := (raft_inv UniqueID_MaxSize C self).
Abbreviation raft_log r := (log_ (persistent_state_ r)).
Implicit Types r : Core.

(** The node IDs of the log, the empty entry at its start included. *)
Definition log_nodes r : list Z := node_id <$> log_view (raft_log r).

Lemma log_view_elem r e : raft_inv r ->
  e ∈ log_view (raft_log r) <-> exists i, 0 <= i <= last_index_ (raft_log r) /\ entry_at UniqueID_MaxSize (raft_log r) i = e.
Proof.
  intros Hr. pose proof (li_wf _ _ _ (pi_log _ _ _ (ri_ps _ _ _ _ Hr))) as [L1 L2 _]. change Capacity with 128 in *.
  unfold log_view, entry_at. rewrite list_elem_of_lookup. split.
  - intros (i & Hi). apply lookup_take_Some in Hi as [Hi Hlt]. exists (Z.of_nat i). split; [lia|]. by rewrite Nat2Z.id, nth_lookup, Hi.
  - intros (i & Hi & E). exists (Z.to_nat i). rewrite lookup_take_lt by lia.
    destruct (entries_ (raft_log r) !! Z.to_nat i) as [x|] eqn:Ex; [rewrite nth_lookup, Ex in E; cbn in E; by subst|].
    apply lookup_ge_None in Ex. lia.
Qed.

Lemma traverse_n_spec r predicate n :
  match traverseLogFromEndUntil UniqueID_MaxSize r predicate n with
  | Some (e, c) => exists i, (i < n)%nat /\ e = entry_at UniqueID_MaxSize (raft_log r) (Z.of_nat i) /\ c = (Z.of_nat i <=? commit_index_ r) /\ predicate e c = true
  | None => forall i, (i < n)%nat -> predicate (entry_at UniqueID_MaxSize (raft_log r) (Z.of_nat i)) (Z.of_nat i <=? commit_index_ r) = false
  end.
Proof.
  induction n as [|n IH]; cbn [traverseLogFromEndUntil]; [lia|].
  destruct (predicate (entry_at UniqueID_MaxSize (raft_log r) (Z.of_nat n)) (Z.of_nat n <=? commit_index_ r)) eqn:E.
  - exists n. split_and!; [lia|done|done|done].
  - destruct (traverseLogFromEndUntil UniqueID_MaxSize r predicate n) as [[e c]|].
    + destruct IH as (i & Hi & Hrest). exists i. split; [lia|done].
    + intros i Hi. destruct (decide (i = n)) as [->|]; [done|]. apply IH. lia.
Qed.

(** Searching the log for a unique ID or a node ID. *)
Lemma traverse_none r (P : Entry -> bool) : raft_inv r -> traverse UniqueID_MaxSize r (fun e _ => P e) = None -> forall e, e ∈ log_view (raft_log r) -> P e = false.
Proof.
  intros Hr E e He. apply (log_view_elem r e Hr) in He as (i & Hi & <-). unfold traverse in E.
  pose proof (traverse_n_spec r (fun e _ => P e) (Z.to_nat (last_index_ (raft_log r) + 1))) as Hs. rewrite E in Hs.
  specialize (Hs (Z.to_nat i) ltac:(lia)). by rewrite Z2Nat.id in Hs by lia.
Qed.

Lemma traverse_some r (P : Entry -> bool) e c : traverse UniqueID_MaxSize r (fun e _ => P e) = Some (e, c) ->
  exists i, 0 <= i <= last_index_ (raft_log r) /\ e = entry_at UniqueID_MaxSize (raft_log r) i /\ c = (i <=? commit_index_ r) /\ P e = true.
Proof.
  intros E. unfold traverse in E. pose proof (traverse_n_spec r (fun e _ => P e) (Z.to_nat (last_index_ (raft_log r) + 1))) as Hs. rewrite E in Hs.
  destruct Hs as (i & Hi & Hrest). exists (Z.of_nat i). split; [lia|done].
Qed.

(** A node ID that the search does not find is not in the log. *)
Lemma node_not_found r nid : raft_inv r -> traverse UniqueID_MaxSize r (NodeIDLogPredicate nid) = None -> nid ∉ log_nodes r.
Proof.
  intros Hr E (e & -> & He)%list_elem_of_fmap. pose proof (traverse_none r (fun e' => node_id e' =? node_id e) Hr E e He) as Hx. cbn beta in Hx. by rewrite Z.eqb_refl in Hx.
Qed.

Lemma log_has_node_spec r nid : raft_inv r -> log_has_node UniqueID_MaxSize (raft_log r) nid = false -> nid ∉ log_nodes r.
Proof.
  intros Hr E (e & -> & He)%list_elem_of_fmap. apply (log_view_elem r e Hr) in He as (i & Hi & <-). unfold log_has_node in E.
  apply Bool.not_true_iff_false in E. apply E. apply existsb_exists. exists i. split; [apply list_elem_of_In, elem_of_seqZ; lia|apply Z.eqb_refl].
Qed.

(** Appending a node ID that is not in the log, or failing to. *)
Definition log_grows r r' : Prop :=
  raft_inv r' /\ (log_view (raft_log r') = log_view (raft_log r) \/
    exists uid nid, nid ∉ log_nodes r /\ log_view (raft_log r') = log_view (raft_log r) ++ [mkEntry (current_term_ (persistent_state_ r)) uid nid]).

Lemma log_grows_nodup r r' : log_grows r r' -> NoDup (log_nodes r) -> NoDup (log_nodes r').
Proof.
  intros [_ [E|(uid & nid & Hn & E)]] Hnd; unfold log_nodes in *; rewrite E; [done|]. rewrite fmap_app. apply NoDup_app.
  split_and!; [done| |apply NoDup_singleton]. intros x Hx ->%list_elem_of_singleton. done.
Qed.

Lemma appendLog_log r uid nid :
  raft_inv r -> bytes uid -> length uid = UniqueID_MaxSize -> 0 <= nid <= NodeID.Max ->
  let r' := appendLog UniqueID_MaxSize MIN_TIMEOUT MAX_TIMEOUT r uid nid in
  raft_inv r' /\ (log_view (raft_log r') = log_view (raft_log r) \/
    server_state_ r = ServerStateLeader /\ log_view (raft_log r') = log_view (raft_log r) ++ [mkEntry (current_term_ (persistent_state_ r)) uid nid]).
Proof.
  intros Hr Hb Hl Hn. split; [by apply appendLog_ok|]. unfold appendLog. case_decide; [|by left].
  pose proof (PS_append_ok UniqueID_MaxSize (storage_ r) (persistent_state_ r) (mkEntry (current_term_ (persistent_state_ r)) uid nid) (ri_ps _ _ _ _ Hr)) as Ha.
  destruct (PS_append UniqueID_MaxSize (storage_ r) (persistent_state_ r) (mkEntry (current_term_ (persistent_state_ r)) uid nid)) as [[res p] s].
  destruct Ha as (P1 & _ & _ & P4); [split; cbn; try done; apply (pi_term_u32 _ _ _ (ri_ps _ _ _ _ Hr))|cbn; lia|].
  destruct (Z.ltb_spec res 0).
  - destruct (update_error_ok UniqueID_MaxSize MIN_TIMEOUT MAX_TIMEOUT C self (set_persist r p s)) as (_ & _ & ->); [by apply set_persist_inv|].
    left. destruct P4 as [[? _]|[_ ->]]; [lia|done].
  - right. destruct P4 as [(_ & E & _)|[? _]]; [done|lia].
Qed.

Lemma appendLog_grows r uid nid :
  raft_inv r -> bytes uid -> length uid = UniqueID_MaxSize -> 0 <= nid <= NodeID.Max -> nid ∉ log_nodes r ->
  log_grows r (appendLog UniqueID_MaxSize MIN_TIMEOUT MAX_TIMEOUT r uid nid).
Proof.
  intros Hr Hb Hl Hn Hno. destruct (appendLog_log r uid nid Hr Hb Hl Hn) as [I [E|[_ E]]]; split; eauto.
Qed.

(** ** The actions of a server *)

#[local] Instance the_monitor : MonitorEntries UniqueID_MaxSize (W * list Allocation).
Proof.
  intros w b p. cbn. unfold handleLocalLeadershipChange. destruct (_ && _); [|apply Forall_nil_2]. apply Forall_singleton.
  destruct Hown as [Hb Hl]. destruct (HC self Hself) as [_ Hr]. exact (conj Hb (conj Hl Hr)).
Qed.

(** Becoming leader appends the server itself, unless the log has it. *)
Lemma switchState_grows r st : raft_inv r -> server_state_ r = ServerStateCandidate ->
  log_grows r (switchState UniqueID_MaxSize MIN_TIMEOUT MAX_TIMEOUT r st).
Proof.
  intros Hr Hc. assert (Haway : st <> ServerStateLeader -> log_grows r (switch_away r st)).
  { intros Hst. destruct (switch_away_ok UniqueID_MaxSize C self r st Hr Hst) as ([[I _] _] & _ & E). split; [done|]. left. by rewrite E. }
  destruct st; cbn [switchState]; [by apply Haway|by apply Haway|]. rewrite decide_False by congruence.
  pose proof (reset_for_inv UniqueID_MaxSize C self r ServerStateLeader Hr) as I0.
  unfold notify_leadership. cbn [env_leadership the_env server_env world_ reset_for set_calls set_role set_cluster persistent_state_].
  set (r1 := set_world _ _). assert (I1 : raft_inv r1) by (eapply core_view_inv; [|exact I0]; done).
  unfold handleLocalLeadershipChange. cbn [andb]. destruct (log_has_node UniqueID_MaxSize (raft_log r) self) eqn:E; cbn [negb foldl]; [split; [done|by left]|].
  destruct Hown as [Hb Hl]. destruct (HC self Hself) as [_ Hrange]. exact (appendLog_grows r1 own_unique_id self I1 Hb Hl Hrange (log_has_node_spec r self Hr E)).
Qed.

Lemma same_log_grows r r' : raft_inv r' -> raft_log r' = raft_log r -> log_grows r r'.
Proof. intros I E. split; [done|]. left. by rewrite E. Qed.

Lemma switch_away_persist r st : persistent_state_ (switch_away r st) = persistent_state_ r.
Proof. unfold switch_away, notify_leadership. case_decide; [done|]. case_decide; [|done]. by destruct (env_leadership _ _ _). Qed.

Lemma registerActivity_persist r : persistent_state_ (registerActivity MIN_TIMEOUT MAX_TIMEOUT r) = persistent_state_ r.
Proof. unfold registerActivity. destruct (env_now _) as [t w]. by destruct (env_rand w). Qed.

Lemma update_error_persist r : persistent_state_ (handlePersistentStateUpdateError MIN_TIMEOUT MAX_TIMEOUT r) = persistent_state_ r.
Proof. unfold handlePersistentStateUpdateError. by rewrite registerActivity_persist, switch_away_persist. Qed.

Lemma propagate_persist r : persistent_state_ (propagateCommitIndex UniqueID_MaxSize r) = persistent_state_ r.
Proof. pose proof (propagate_view UniqueID_MaxSize r) as E. unfold core_view in E. congruence. Qed.

Lemma updateFollower_persist r : persistent_state_ (updateFollower UniqueID_MaxSize MIN_TIMEOUT MAX_TIMEOUT r) = persistent_state_ r.
Proof.
  unfold updateFollower, isActivityTimedOut. destruct (env_now _) as [t w]. destruct (_ <? _); [|done].
  cbn [switchState]. by rewrite registerActivity_persist, switch_away_persist.
Qed.

Lemma updateLeader_persist r : persistent_state_ (updateLeader UniqueID_MaxSize MIN_TIMEOUT MAX_TIMEOUT entries_capacity r) = persistent_state_ r.
Proof.
  unfold updateLeader. destruct (_ <? _); [|by rewrite propagate_persist]. destruct (getEntryAtIndex _ _ _); [|by rewrite update_error_persist].
  destruct (env_call_append _ _ _) as [res w]. rewrite propagate_persist. by destruct (res <? 0).
Qed.

Lemma start_campaign_log r : num_votes_received_in_this_campaign_ r = 0 ->
  raft_log (updateCandidate UniqueID_MaxSize MIN_TIMEOUT MAX_TIMEOUT MaxClusterSize self r) = raft_log r.
Proof.
  intros Hv. unfold updateCandidate. rewrite Hv. cbn [Z.ltb Z.compare].
  pose proof (set_vote_log (storage_ r) (persistent_state_ r) self) as E1. destruct (setVotedFor _ _ _) as [[res p] s].
  destruct (res <? 0); [by rewrite update_error_persist|]. cbn [storage_ persistent_state_ set_persist].
  pose proof (set_term_log s p (u32 (current_term_ p + 1))) as E2. destruct (setCurrentTerm _ _ _) as [[res2 p2] s2].
  destruct (res2 <? 0); [rewrite update_error_persist; cbn; congruence|].
  match goal with |- context [request_votes ?x ?n ?i ?q] => destruct (request_votes_ok n i q x ltac:(lia)) as (_ & -> & _) end. cbn. congruence.
Qed.

Lemma handleTimerEvent_grows r :
  raft_inv r -> log_grows r (handleTimerEvent UniqueID_MaxSize MIN_TIMEOUT MAX_TIMEOUT entries_capacity MaxClusterSize self r).
Proof.
  intros Hr. assert (I : raft_inv (handleTimerEvent UniqueID_MaxSize MIN_TIMEOUT MAX_TIMEOUT entries_capacity MaxClusterSize self r)).
  { destruct (handleTimerEvent_ok UniqueID_MaxSize MIN_TIMEOUT MAX_TIMEOUT entries_capacity MaxClusterSize C self Hself HC r Hr) as [[[Q _] _]|[[Q _]|[Q _]]]; exact Q. }
  unfold handleTimerEvent in *. destruct (server_state_ r) eqn:E.
  - apply same_log_grows; [done|]. by rewrite updateFollower_persist.
  - destruct (decide (num_votes_received_in_this_campaign_ r = 0)) as [Hv|Hv]; [apply same_log_grows; [done|by apply start_campaign_log]|].
    pose proof (ri_votes _ _ _ _ Hr). unfold updateCandidate. rewrite (proj2 (Z.ltb_lt _ _)) by lia. by apply switchState_grows.
  - apply same_log_grows; [done|]. by rewrite updateLeader_persist.
Qed.

(** What a server does on its own: it answers requests, hears of nodes, and its timer fires. *)
Inductive ServerAction :=
  | ActRequest (uid : list Z) (preferred : Z)
  | ActNodeInfo (node : Z) (result : option (list Z))
  | ActTimer.

Definition uid_ok (uid : list Z) : Prop := bytes uid /\ length uid = UniqueID_MaxSize.

Definition action_ok (a : ServerAction) : Prop :=
  match a with
  | ActRequest uid preferred => uid_ok uid /\ 0 <= preferred < 256
  | ActNodeInfo node result => 0 <= node <= NodeID.Max /\ (forall uid, result = Some uid -> uid_ok uid)
  | ActTimer => True
  end.

Definition server_step (s : Server W St) (a : ServerAction) : list Allocation * Server W St :=
  match a with
  | ActRequest uid preferred => Server_handleAllocationRequest UniqueID_MaxSize MIN_TIMEOUT MAX_TIMEOUT self own_unique_id s uid preferred
  | ActNodeInfo node result =>
    let '(r, d) := handleGetNodeInfoResponse (H0 := server_discovery UniqueID_MaxSize MIN_TIMEOUT MAX_TIMEOUT self own_unique_id) (raft_core_ s) (node_discoverer_ s) node result in
    ([], mkServer r d)
  | ActTimer => ([], set_core s (handleTimerEvent UniqueID_MaxSize MIN_TIMEOUT MAX_TIMEOUT entries_capacity MaxClusterSize self (raft_core_ s)))
  end.

(** The answer to a request comes from a committed entry of the log. *)
Definition answers_committed (r : Core) (uid : list Z) (out : list Allocation) : Prop :=
  out = [] \/ exists i, 0 <= i <= last_index_ (raft_log r) /\ i <= commit_index_ r /\
    let e := entry_at UniqueID_MaxSize (raft_log r) i in unique_id e = uid /\ out = [broadcastAllocationResponse uid (node_id e)].

Lemma log_grows_refl r : raft_inv r -> log_grows r r.
Proof. intros Hr. by apply same_log_grows. Qed.

Lemma Distributed_request_ok s uid preferred :
  raft_inv (raft_core_ s) -> uid_ok uid -> 0 <= preferred < 256 ->
  let '(out, s') := Server_handleAllocationRequest UniqueID_MaxSize MIN_TIMEOUT MAX_TIMEOUT self own_unique_id s uid preferred in
  answers_committed (raft_core_ s) uid out /\ log_grows (raft_core_ s) (raft_core_ s').
Proof.
  intros Hr [Hb Hl] Hp. unfold Server_handleAllocationRequest.
  destruct (traverse UniqueID_MaxSize (raft_core_ s) (UniqueIDLogPredicate uid)) as [[e c]|] eqn:E.
  - split; [|by apply log_grows_refl]. apply (traverse_some (raft_core_ s) (fun e => bool_decide (unique_id e = uid))) in E as (i & Hi & -> & -> & Hu).
    apply bool_decide_eq_true in Hu. destruct (Z.leb_spec i (commit_index_ (raft_core_ s))); [right|by left]. exists i. split; [done|]. split; [done|]. cbn zeta. split; [exact Hu|].
    unfold tryPublishAllocationResult. by rewrite Hu.
  - destruct (_ && _); [|split; [by left|by apply log_grows_refl]]. split; [by left|]. cbn [raft_core_ set_core]. unfold allocateNewNode.
    destruct (findFreeNodeID_ok (isNodeIDTaken UniqueID_MaxSize (raft_core_ s)) preferred Hp) as [[Hn Hfree]|[-> _]]; [|by apply log_grows_refl].
    set (nid := findFreeNodeID _ preferred) in *. clearbody nid. destruct (negb _); [by apply log_grows_refl|].
    apply appendLog_grows; [done|done|done|lia|]. apply node_not_found; [done|]. unfold isNodeIDTaken in Hfree.
    apply bool_decide_eq_false in Hfree. by apply eq_None_not_Some.
Qed.

Lemma Distributed_discovery_ok r uid nid :
  raft_inv r -> (forall u, uid = Some u -> uid_ok u) -> 0 <= nid <= NodeID.Max ->
  log_grows r (Server_handleNewNodeDiscovery UniqueID_MaxSize MIN_TIMEOUT MAX_TIMEOUT self own_unique_id r uid nid).
Proof.
  intros Hr Hu Hn. unfold Server_handleNewNodeDiscovery. destruct (traverse UniqueID_MaxSize r (NodeIDLogPredicate nid)) eqn:E; [by apply log_grows_refl|].
  destruct (isLeader r); [|by apply log_grows_refl]. assert (Hd : uid_ok (default (replicate UniqueID_MaxSize 0) uid)).
  { destruct uid as [u|]; [by apply Hu|]. split; [apply Forall_replicate; split; lia|apply length_replicate]. }
  destruct Hd. apply appendLog_grows; try done. by apply node_not_found.
Qed.

(** C19: whatever a server of the cluster does on its own, the node IDs in its log stay different: an
    allocation, a discovered node, or its own entry when it becomes leader is appended only with
    a node ID the log does not have. It answers a request only with the node ID of an entry of
    the requesting unique ID that is committed. The reads of its storage do not fail. *)
Theorem distributed_server_keeps_node_ids_unique s a :
  raft_inv (raft_core_ s) -> NoDup (log_nodes (raft_core_ s)) -> action_ok a ->
  let '(out, s') := server_step s a in
  raft_inv (raft_core_ s') /\ NoDup (log_nodes (raft_core_ s')) /\
  log_view (raft_log (raft_core_ s)) `prefix_of` log_view (raft_log (raft_core_ s')) /\
  match a with ActRequest uid _ => answers_committed (raft_core_ s) uid out | _ => out = [] end.
Proof.
  intros Hr Hnd Ha.
  assert (Hend : forall r', log_grows (raft_core_ s) r' -> raft_inv r' /\ NoDup (log_nodes r') /\ log_view (raft_log (raft_core_ s)) `prefix_of` log_view (raft_log r')).
  { intros r' Hg. split_and!; [apply Hg|by eapply log_grows_nodup|]. destruct Hg as [_ [->|(uid & nid & _ & ->)]]; [done|by apply prefix_app_r]. }
  destruct a as [uid preferred|node result|]; cbn [server_step].
  - destruct Ha as [Hu Hp]. pose proof (Distributed_request_ok s uid preferred Hr Hu Hp) as Hs.
    destruct (Server_handleAllocationRequest _ _ _ _ _ _ _ _) as [out s']. destruct Hs as [Hans Hg]. destruct (Hend _ Hg) as (? & ? & ?). done.
  - destruct Ha as [Hn Hu].
    assert (Hf : forall d u, (forall x, u = Some x -> uid_ok x) ->
      log_grows (raft_core_ s) (finalizeNodeDiscovery (H0 := server_discovery UniqueID_MaxSize MIN_TIMEOUT MAX_TIMEOUT self own_unique_id) (raft_core_ s) d u node).1).
    { intros d u Hx. unfold finalizeNodeDiscovery. destruct (needToQuery _ _ _) as [[|] d']; [by apply Distributed_discovery_ok|by apply log_grows_refl]. }
    assert (Hg : log_grows (raft_core_ s) (handleGetNodeInfoResponse (H0 := server_discovery UniqueID_MaxSize MIN_TIMEOUT MAX_TIMEOUT self own_unique_id)
      (raft_core_ s) (node_discoverer_ s) node result).1).
    { unfold handleGetNodeInfoResponse. destruct result as [u|]; [by apply Hf|]. destruct (_ !! _); [|by apply log_grows_refl].
      destruct (_ <=? _); [by apply Hf|by apply log_grows_refl]. }
    destruct (handleGetNodeInfoResponse _ _ _ _) as [r d]. destruct (Hend _ Hg) as (? & ? & ?). done.
  - destruct (Hend _ (handleTimerEvent_grows (raft_core_ s) Hr)) as (? & ? & ?). done.
Qed.

End uniqueness.

(** ** An example: a cluster of one server *)

Definition example_cluster : gset Z := {[1]}.
Definition example_own_uid : list Z := replicate 16 1.
Abbreviation ExampleServer := (Server ExampleWorld (gmap string string)).
#[local] Instance example_server_env : RaftEnv (ExampleWorld * list Allocation) := server_env 16 1 example_own_uid.

Definition example_server_start : ExampleServer :=
  mkServer (RaftCore_init 16 2000 4000 5 (RaftCore_make 16 4000 (1000000, []) (∅ : gmap string string)) 1 0 0 []).2 NodeDiscoverer_make.
Abbreviation example_step s a := (server_step 16 2000 4000 1 5 1 example_own_uid s a).2.

(** The timer makes it the leader; then it allocates a node ID. *)
Definition example_leader : ExampleServer := example_step (example_step (example_step example_server_start ActTimer) ActTimer) ActTimer.
Definition example_request : ServerAction := ActRequest (replicate 16 2) 20.

Lemma example_cluster_unicast nid : nid ∈ example_cluster -> NodeID.isUnicast nid = true /\ 0 <= nid <= NodeID.Max.
Proof. unfold example_cluster. rewrite elem_of_singleton. intros ->. vm_compute. split; [reflexivity|split; discriminate]. Qed.
Lemma example_cluster_self : 1 ∈ example_cluster.
Proof. unfold example_cluster. set_solver. Qed.
Lemma example_own_uid_ok : bytes example_own_uid /\ length example_own_uid = 16%nat.
Proof. split; [apply Forall_replicate; split; lia|reflexivity]. Qed.

Lemma example_server_start_inv : raft_inv 16 example_cluster 1 (raft_core_ example_server_start).
Proof.
  pose proof (RaftCore_init_ok (St := gmap string string) 16 2000 4000 5 example_cluster 1 ∅ ((1000000, []) : ExampleWorld * list Allocation) 1 0 0 [] ltac:(lia)) as Hi.
  pose proof (PersistentState_init_blank 16 (∅ : gmap string string) eq_refl) as Hb.
  assert (E : (RaftCore_init 16 2000 4000 5 (RaftCore_make 16 4000 ((1000000, []) : ExampleWorld * list Allocation) (∅ : gmap string string)) 1 0 0 []).1 = 0) by (vm_compute; reflexivity).
  assert (Ec : cluster_size_ (cluster_ (raft_core_ example_server_start)) = 1) by (vm_compute; reflexivity).
  unfold example_server_start in *. cbn [raft_core_] in *.
  destruct (RaftCore_init _ _ _ _ _ _ _ _ _) as [res r]. cbn [fst snd] in *. subst res. apply Hi; [|lia|rewrite Ec; reflexivity].
  destruct (PersistentState_init 16 (∅ : gmap string string) (PersistentState_make 16)) as [[r1 p1] s1]. destruct Hb as [?|(_ & ? & _)]; auto.
Qed.

Lemma distributed_server_keeps_node_ids_unique_witness :
  log_nodes (raft_core_ example_leader) = [0; 1] /\ log_nodes (raft_core_ (example_step example_leader example_request)) = [0; 1; 20] /\
  NoDup (log_nodes (raft_core_ (example_step example_leader example_request))).
Proof.
  assert (E1 : log_nodes (raft_core_ example_leader) = [0; 1]) by (vm_compute; reflexivity).
  assert (E2 : log_nodes (raft_core_ (example_step example_leader example_request)) = [0; 1; 20]) by (vm_compute; reflexivity).
  split; [exact E1|]. split; [exact E2|].
  pose proof (distributed_server_keeps_node_ids_unique (W := ExampleWorld) (St := gmap string string) 16 2000 4000 1 5 example_cluster 1 example_cluster_self example_own_uid example_cluster_unicast
    example_own_uid_ok) as T.
  assert (Hstep : forall (s : ExampleServer) a, raft_inv 16 example_cluster 1 (raft_core_ s) /\ NoDup (log_nodes (raft_core_ s)) -> action_ok 16 a ->
    raft_inv 16 example_cluster 1 (raft_core_ (example_step s a)) /\ NoDup (log_nodes (raft_core_ (example_step s a)))).
  { intros s a [I N] Ha. specialize (T s a I N Ha). destruct (server_step 16 2000 4000 1 5 1 example_own_uid s a) as [out s'].
    destruct T as (I' & N' & _). split; [exact I'|exact N']. }
  assert (H0 : raft_inv 16 example_cluster 1 (raft_core_ example_server_start) /\ NoDup (log_nodes (raft_core_ example_server_start))).
  { split; [exact example_server_start_inv|]. assert (E : log_nodes (raft_core_ example_server_start) = [0]) by (vm_compute; reflexivity). rewrite E. apply NoDup_singleton. }
  refine (proj2 (Hstep example_leader example_request (Hstep _ ActTimer (Hstep _ ActTimer (Hstep _ ActTimer H0 I) I) I) _)).
  split; [split; [apply Forall_replicate; split; lia|reflexivity]|lia].
Defined.
