(* ===== verification/Stm32Timings.v ===== *)
(** * Stm32Timings: bit timing of the STM32 CAN controller

    Models [CanIface::computeTimings] of
    [libuavcan_drivers/stm32/driver/src/uc_stm32_can.cpp]. The clock of the
    peripheral bus, a constant of the board, is the argument [pclk]. The
    specification is the hardware's equation
    [bitrate = pclk / (prescaler * (1 + bs1 + bs2))] with the ranges of the
    three register fields. *)

From S2P Require Import Prelude.
Local Open Scope Z_scope.

(** Error codes of [uavcan_stm32/can.hpp]; functions return them negated. *)
Module StmErr.
Definition ErrNotImplemented : Z := 1001.
Definition ErrInvalidBitRate : Z := 1002.
Definition ErrLogic : Z := 1003.
Definition ErrUnsupportedFrame : Z := 1004.
Definition ErrMsrInakNotSet : Z := 1005.
Definition ErrMsrInakNotCleared : Z := 1006.
Definition ErrBitRateNotDetected : Z := 1007.
End StmErr.

(** [CanIface::Timings]: the fields as the register holds them, that is one
    less than the values they stand for. *)
Record Timings := mkTimings { tm_prescaler : Z; tm_sjw : Z; tm_bs1 : Z; tm_bs2 : Z }.
Definition Timings_default : Timings := mkTimings 0 0 0 0.

Definition MaxBS1 : Z := 16.
Definition MaxBS2 : Z := 8.
Definition MaxSamplePointLocation : Z := 900.
Definition max_quanta_per_bit (target_bitrate : Z) : Z :=
  if 1000000 <=? target_bitrate then 10 else 17.

(** [BsPair]. *)
Record BsPair := mkBsPair { bp_bs1 : Z; bp_bs2 : Z; bp_sample_point_permill : Z }.

(** [BsPair::BsPair(uint8_t, uint8_t)]. *)
Definition BsPair_make (bs1_bs2_sum arg_bs1 : Z) : BsPair :=
  let bs1 := u8 arg_bs1 in
  let bs2 := u8 (bs1_bs2_sum - bs1) in
  mkBsPair bs1 bs2 (u16 (1000 * (1 + bs1) / (1 + bs1 + bs2))).

(** [BsPair::isValid]. *)
Definition BsPair_isValid (p : BsPair) : bool :=
  (1 <=? bp_bs1 p) && (bp_bs1 p <=? MaxBS1) && (1 <=? bp_bs2 p) && (bp_bs2 p <=? MaxBS2).

(** The [while] loop over the number of quanta: [None] is its [return]. *)
Fixpoint search_quanta (fuel : nat) (prescaler_bs bs1_bs2_sum : Z) : option Z :=
  if prescaler_bs mod (1 + bs1_bs2_sum) =? 0 then Some bs1_bs2_sum
  else if bs1_bs2_sum <=? 2 then None
  else match fuel with
       | O => None
       | S fuel => search_quanta fuel prescaler_bs (u8 (bs1_bs2_sum - 1))
       end.

(** The two attempts: rounding to nearest, then rounding to zero. *)
Definition solve_bs (bs1_bs2_sum : Z) : BsPair :=
  let solution := BsPair_make bs1_bs2_sum (((7 * bs1_bs2_sum - 1) + 4) / 8) in
  if MaxSamplePointLocation <? bp_sample_point_permill solution then
    BsPair_make bs1_bs2_sum ((7 * bs1_bs2_sum - 1) / 8)
  else solution.

(** [CanIface::computeTimings]; [out] is the output argument. *)
Definition computeTimings (pclk target_bitrate : Z) (out : Timings) : Z * Timings :=
  if target_bitrate <? 1 then (- StmErr.ErrInvalidBitRate, out)
  else
    let prescaler_bs := pclk / target_bitrate in
    let start := max_quanta_per_bit target_bitrate - 1 in
    match search_quanta (Z.to_nat start) prescaler_bs start with
    | None => (- StmErr.ErrInvalidBitRate, out)
    | Some bs1_bs2_sum =>
        let prescaler := prescaler_bs / (1 + bs1_bs2_sum) in
        if (prescaler <? 1) || (1024 <? prescaler) then (- StmErr.ErrInvalidBitRate, out)
        else
          let solution := solve_bs bs1_bs2_sum in
          if negb (target_bitrate =?
                   pclk / u32 (prescaler * (1 + bp_bs1 solution + bp_bs2 solution)))
             || negb (BsPair_isValid solution)
          then (- StmErr.ErrLogic, out)
          else (0, mkTimings (u16 (prescaler - 1)) 0 (u8 (bp_bs1 solution - 1)) (u8 (bp_bs2 solution - 1)))
    end.

(** ** The specification *)

(** [q] quanta per bit can be had: the prescaler they need is in range. *)
Definition quanta_possible (pclk bitrate q : Z) : Prop :=
  3 <= q <= max_quanta_per_bit bitrate /\ (pclk / bitrate) mod q = 0 /\
  1 <= pclk / bitrate / q <= 1024.

(** The distance of a sample point from 7/8 of the bit, in units of [1/(8 q)]. *)
Definition sample_error (bs1 bs2 : Z) : Z := Z.abs (8 * (1 + bs1) - 7 * (1 + bs1 + bs2)).

(** ** Lemmas *)

Lemma search_quanta_spec fuel n s :
  2 <= s <= 255 -> (Z.to_nat s <= fuel)%nat ->
  match search_quanta fuel n s with
  | Some r => 2 <= r <= s /\ n mod (1 + r) = 0 /\ forall q, r < q <= s -> n mod (1 + q) <> 0
  | None => forall q, 2 <= q <= s -> n mod (1 + q) <> 0
  end.
Proof.
  revert s. induction fuel as [|fuel IH]; intros s Hs Hf; [lia|]. simpl.
  destruct (Z.eqb_spec (n mod (1 + s)) 0) as [E|E]; [repeat split; lia|].
  destruct (Z.leb_spec s 2).
  - intros q Hq. by replace q with s by lia.
  - rewrite wrap_small by (unfold in_width; lia).
    specialize (IH (s - 1) ltac:(lia) ltac:(lia)).
    destruct (search_quanta fuel n (s - 1)) as [r|].
    + destruct IH as (Hr & Hn & Hmax). split; [lia|split; [done|]].
      intros q Hq. destruct (decide (q = s)) as [->|]; [done|apply Hmax; lia].
    + intros q Hq. destruct (decide (q = s)) as [->|]; [done|apply IH; lia].
Qed.

(** What [solve_bs] finds for each of the possible sums: the segments are in
    range, the sample point is not past the limit and no other such split of
    the bit comes closer to 7/8. *)
Definition solve_bs_good (s : Z) : bool :=
  let p := solve_bs s in
  BsPair_isValid p && (bp_bs1 p + bp_bs2 p =? s) &&
  (1000 * (1 + bp_bs1 p) / (1 + s) <=? MaxSamplePointLocation) &&
  forallb (fun b => implb (1000 * (1 + b) / (1 + s) <=? MaxSamplePointLocation)
                          (sample_error (bp_bs1 p) (bp_bs2 p) <=? sample_error b (s - b)))
          (seqZ 1 (s - 1)).

Lemma solve_bs_all : forallb solve_bs_good (seqZ 2 15) = true.
Proof. vm_compute. reflexivity. Qed.

Lemma solve_bs_spec s :
  2 <= s <= 16 ->
  let p := solve_bs s in
  1 <= bp_bs1 p <= MaxBS1 /\ 1 <= bp_bs2 p <= MaxBS2 /\ bp_bs1 p + bp_bs2 p = s /\
  1000 * (1 + bp_bs1 p) / (1 + s) <= MaxSamplePointLocation /\
  (forall b, 1 <= b < s -> 1000 * (1 + b) / (1 + s) <= MaxSamplePointLocation ->
     sample_error (bp_bs1 p) (bp_bs2 p) <= sample_error b (s - b)).
Proof.
  intros Hs p. pose proof solve_bs_all as Hall. rewrite forallb_forall in Hall.
  specialize (Hall s). rewrite <-list_elem_of_In, elem_of_seqZ in Hall.
  specialize (Hall ltac:(lia)). unfold solve_bs_good in Hall. fold p in Hall.
  unfold BsPair_isValid in Hall. rewrite !andb_true_iff, forallb_forall in Hall.
  destruct Hall as [[[[[[? ?] ?] ?] ?] ?] Hbest].
  repeat split; try lia. intros b Hb Hlim.
  specialize (Hbest b). rewrite <-list_elem_of_In, elem_of_seqZ in Hbest.
  specialize (Hbest ltac:(lia)). apply Z.leb_le in Hlim. rewrite Hlim in Hbest. simpl in Hbest. lia.
Qed.

Lemma quanta_of_sum pclk bitrate s :
  0 <= pclk -> 1 <= bitrate ->
  2 <= s <= max_quanta_per_bit bitrate - 1 -> (pclk / bitrate) mod (1 + s) = 0 ->
  (forall q, s < q <= max_quanta_per_bit bitrate - 1 -> (pclk / bitrate) mod (1 + q) <> 0) ->
  pclk / bitrate / (1 + s) < 1 \/ 1024 < pclk / bitrate / (1 + s) ->
  forall q, ~ quanta_possible pclk bitrate q.
Proof.
  intros Hp Hb Hs Hm Hmax Hout q (Hq & Hqm & Hqr).
  assert (q <= 1 + s) as Hle.
  { destruct (decide (q <= 1 + s)); [done|]. destruct (Hmax (q - 1)); [lia|].
    by replace (1 + (q - 1)) with q by lia. }
  pose proof (Z.div_pos pclk bitrate Hp ltac:(lia)).
  pose proof (Z.div_mod (pclk / bitrate) (1 + s) ltac:(lia)).
  pose proof (Z.div_mod (pclk / bitrate) q ltac:(lia)).
  destruct Hout; nia.
Qed.

Lemma max_quanta_range bitrate : 10 <= max_quanta_per_bit bitrate <= 17.
Proof. unfold max_quanta_per_bit. case_match; lia. Qed.

(** [prescaler * (1 + bs1 + bs2)] gives the quotient back. *)
Lemma timings_product n s p :
  0 <= s <= 16 -> n mod (1 + s) = 0 -> 1 <= n / (1 + s) <= 1024 -> p = s ->
  u32 (n / (1 + s) * (1 + p)) = n.
Proof.
  intros Hs Hm Hr ->. pose proof (Z.div_mod n (1 + s) ltac:(lia)).
  rewrite wrap_small; [lia|]. unfold in_width. nia.
Qed.

(** C22: [computeTimings] solves the bit timing equation whenever it has a
    solution the code may use. It returns 0 exactly when some number of quanta
    per bit between 3 and the recommended maximum divides [pclk / bitrate] with a prescaler
    of 1 to 1024 and the bit rate that results is the requested one; then the
    register fields are in range, the number of quanta is the largest possible
    one, and of all sample points that are not past 90% theirs is the one
    closest to 87.5%. It answers [ErrInvalidBitRate] exactly when no number of
    quanta is possible, [ErrLogic] otherwise, and leaves [out] alone then. *)
Theorem bit_timing_solved pclk bitrate out :
  is_u32 pclk -> is_u32 bitrate ->
  let '(res, t) := computeTimings pclk bitrate out in
  (res = 0 /\
   exists prescaler bs1 bs2,
     t = mkTimings (prescaler - 1) 0 (bs1 - 1) (bs2 - 1) /\
     1 <= prescaler <= 1024 /\ 1 <= bs1 <= MaxBS1 /\ 1 <= bs2 <= MaxBS2 /\
     bitrate = pclk / (prescaler * (1 + bs1 + bs2)) /\
     quanta_possible pclk bitrate (1 + bs1 + bs2) /\
     (forall q, quanta_possible pclk bitrate q -> q <= 1 + bs1 + bs2) /\
     1000 * (1 + bs1) / (1 + bs1 + bs2) <= MaxSamplePointLocation /\
     (forall b, 1 <= b < bs1 + bs2 ->
        1000 * (1 + b) / (1 + bs1 + bs2) <= MaxSamplePointLocation ->
        sample_error bs1 bs2 <= sample_error b (bs1 + bs2 - b))) \/
  (res = - StmErr.ErrInvalidBitRate /\ t = out /\
   (bitrate = 0 \/ forall q, ~ quanta_possible pclk bitrate q)) \/
  (res = - StmErr.ErrLogic /\ t = out /\ 0 < bitrate /\
   (exists q, quanta_possible pclk bitrate q) /\ bitrate <> pclk / (pclk / bitrate)).
Proof.
  intros [Hp _] [Hb _]. unfold computeTimings.
  destruct (Z.ltb_spec bitrate 1); [right; left; split; [done|split; [done|left; lia]]|].
  pose proof (max_quanta_range bitrate) as Hmq.
  set (start := max_quanta_per_bit bitrate - 1) in *.
  pose proof (search_quanta_spec (Z.to_nat start) (pclk / bitrate) start ltac:(lia) ltac:(lia)) as HS.
  destruct (search_quanta _ _ _) as [s|].
  2:{ right; left. split; [done|split; [done|right]]. intros q (Hq & Hm & _).
      apply (HS (q - 1)); [lia|]. by replace (1 + (q - 1)) with q by lia. }
  destruct HS as (Hs & Hm & Hmax).
  destruct (orb _ _) eqn:Er.
  { right; left. split; [done|split; [done|right]].
    apply (quanta_of_sum pclk bitrate s); try done; lia. }
  destruct (solve_bs_spec s ltac:(lia)) as (H1 & H2 & Hsum & Hsp & Hbest).
  assert (quanta_possible pclk bitrate (1 + s)) as Hposs by (unfold quanta_possible; lia).
  assert (BsPair_isValid (solve_bs s) = true) as Hv by (unfold BsPair_isValid; lia).
  rewrite Hv, orb_false_r, <-Z.add_assoc, Hsum.
  rewrite timings_product by (done || lia).
  destruct (Z.eqb_spec bitrate (pclk / (pclk / bitrate))) as [Ebr|Ebr]; simpl negb; cbv iota.
  - left. split; [done|]. exists (pclk / bitrate / (1 + s)), (bp_bs1 (solve_bs s)), (bp_bs2 (solve_bs s)).
    rewrite <-Z.add_assoc, Hsum. unfold MaxBS1, MaxBS2 in *.
    assert (pclk / bitrate / (1 + s) * (1 + s) = pclk / bitrate) as Ep
      by (pose proof (Z.div_mod (pclk / bitrate) (1 + s)); lia).
    rewrite Ep, !wrap_small by (unfold in_width; lia).
    repeat split; try done; try lia; try apply Hposs.
    intros q (Hq & Hqm & _). destruct (decide (q <= 1 + s)); [done|].
    destruct (Hmax (q - 1)); [lia|]. by replace (1 + (q - 1)) with q by lia.
  - right; right. repeat split; try done; [lia|by exists (1 + s)].
Qed.

Lemma bit_timing_solved_witness :
  let '(res, t) := computeTimings 36000000 1000000 Timings_default in
  res = 0 /\ t = mkTimings 3 0 6 0 /\
  forall q, quanta_possible 36000000 1000000 q -> q <= 9.
Proof.
  pose proof (bit_timing_solved 36000000 1000000 Timings_default) as H.
  assert (computeTimings 36000000 1000000 Timings_default = (0, mkTimings 3 0 6 0)) as E
    by (vm_compute; reflexivity).
  rewrite E in H |- *.
  destruct H as [(_ & p & b1 & b2 & Et & _ & _ & _ & _ & _ & Hmax & _)|[(? & _)|(? & _)]];
    [split; vm_compute; congruence|split; vm_compute; congruence| |discriminate|discriminate].
  injection Et as E1 E2 E3. split; [reflexivity|split; [reflexivity|]].
  intros q Hq. specialize (Hmax q Hq). lia.
Defined.

(** With three or four quanta per bit the first attempt leaves no room for the
    second segment, which the constructor asserts against. *)
Example first_attempt_without_bs2 :
  bp_bs2 (BsPair_make 3 (((7 * 3 - 1) + 4) / 8)) = 0 /\
  computeTimings 4000000 1000000 Timings_default = (0, mkTimings 0 0 1 0).
Proof. vm_compute. split; reflexivity. Qed.
