(* ===== verification/Stm32RxQueue.v ===== *)
(** * Stm32RxQueue: the reception ring buffer of the STM32 driver

    Models [CanRxItem] and [CanIface::RxQueue] of
    [libuavcan_drivers/stm32/driver/include/uavcan_stm32/can.hpp] and
    [src/uc_stm32_can.cpp]. The specification is a bounded queue that drops its
    oldest element when a new one does not fit, with a saturating count of the
    elements dropped. *)

From S2P Require Import Prelude CanFrame.
Local Open Scope Z_scope.

Record CanRxItem := mkRxItem { rxi_utc_usec : Z; rxi_frame : CanFrame; rxi_flags : Z }.
Definition CanRxItem_default : CanRxItem := mkRxItem 0 CanFrame_default 0.

Definition MaxRxQueueCapacity : Z := 254.

Record RxQueue := mkRxQueue {
  buf_ : list CanRxItem;
  capacity_ : Z;
  in_ : Z;
  out_ : Z;
  len_ : Z;
  overflow_cnt_ : Z
}.

(** [RxQueue::RxQueue(CanRxItem*, uint8_t)]; the buffer is [CanRxItem[capacity]]. *)
Definition RxQueue_make (capacity : Z) : RxQueue :=
  mkRxQueue (replicate (Z.to_nat capacity) CanRxItem_default) capacity 0 0 0 0.

(** [RxQueue::registerOverflow] on the counter. *)
Definition registerOverflow (overflow_cnt : Z) : Z :=
  if overflow_cnt <? 0xFFFFFFFF then u32 (overflow_cnt + 1) else overflow_cnt.

(** [index++; if (index >= capacity_) index = 0]. *)
Definition advance (capacity index : Z) : Z :=
  let index := u8 (index + 1) in if capacity <=? index then 0 else index.

(** [RxQueue::push]. *)
Definition RxQueue_push (q : RxQueue) (frame : CanFrame) (utc_usec flags : Z) : RxQueue :=
  let buf := <[Z.to_nat (in_ q) := mkRxItem utc_usec frame flags]> (buf_ q) in
  let inn := advance (capacity_ q) (in_ q) in
  let len := u8 (len_ q + 1) in
  if capacity_ q <? len then
    mkRxQueue buf (capacity_ q) inn (advance (capacity_ q) (out_ q)) (capacity_ q)
              (registerOverflow (overflow_cnt_ q))
  else mkRxQueue buf (capacity_ q) inn (out_ q) len (overflow_cnt_ q).

(** [RxQueue::pop]; [out] holds the output arguments. *)
Definition RxQueue_pop (q : RxQueue) (out : CanRxItem) : CanRxItem * RxQueue :=
  if 0 <? len_ q then
    (nth (Z.to_nat (out_ q)) (buf_ q) CanRxItem_default,
     mkRxQueue (buf_ q) (capacity_ q) (in_ q) (advance (capacity_ q) (out_ q)) (u8 (len_ q - 1))
               (overflow_cnt_ q))
  else (out, q).

(** [RxQueue::reset]. *)
Definition RxQueue_reset (q : RxQueue) : RxQueue := mkRxQueue (buf_ q) (capacity_ q) 0 0 0 0.

Definition RxQueue_getLength (q : RxQueue) : Z := len_ q.
Definition RxQueue_getOverflowCount (q : RxQueue) : Z := overflow_cnt_ q.

(** ** The invariant and the abstraction *)

Record RxQueue_inv (q : RxQueue) : Prop := {
  rq_capacity : 1 <= capacity_ q <= MaxRxQueueCapacity;
  rq_buf : Z.of_nat (length (buf_ q)) = capacity_ q;
  rq_out : 0 <= out_ q < capacity_ q;
  rq_len : 0 <= len_ q <= capacity_ q;
  rq_in : in_ q = (out_ q + len_ q) mod capacity_ q;
  rq_overflow : is_u32 (overflow_cnt_ q)
}.

(** The item at distance [i] from the next one to be read. *)
Definition rx_at (q : RxQueue) (i : Z) : CanRxItem :=
  nth (Z.to_nat ((out_ q + i) mod capacity_ q)) (buf_ q) CanRxItem_default.

Definition rx_contents (q : RxQueue) : list CanRxItem := rx_at q <$> seqZ 0 (len_ q).

(** The bounded queue: its items and the count of those dropped. *)
Definition spec_push (capacity : Z) (s : list CanRxItem * Z) (x : CanRxItem) : list CanRxItem * Z :=
  if Z.of_nat (length s.1) <? capacity then (s.1 ++ [x], s.2)
  else (drop 1 s.1 ++ [x], Z.min 0xFFFFFFFF (s.2 + 1)).

Definition spec_pop (s : list CanRxItem * Z) (out : CanRxItem) : CanRxItem * (list CanRxItem * Z) :=
  match s.1 with [] => (out, s) | x :: l => (x, (l, s.2)) end.

Definition rx_view (q : RxQueue) : list CanRxItem * Z := (rx_contents q, overflow_cnt_ q).

(** ** Lemmas *)

Lemma advance_mod c i : 1 <= c <= MaxRxQueueCapacity -> 0 <= i < c -> advance c i = (i + 1) mod c.
Proof.
  unfold MaxRxQueueCapacity. intros Hc Hi. unfold advance. rewrite wrap_small by (unfold in_width; lia).
  destruct (Z.leb_spec c (i + 1)).
  - replace (i + 1) with c by lia. by rewrite Z.mod_same by lia.
  - by rewrite Z.mod_small by lia.
Qed.

Lemma advance_range c i : 1 <= c <= MaxRxQueueCapacity -> 0 <= i < c -> 0 <= advance c i < c.
Proof. intros Hc Hi. rewrite advance_mod by done. apply Z.mod_pos_bound. lia. Qed.

Lemma mod_shift c a i : 0 < c -> (a mod c + i) mod c = (a + i) mod c.
Proof. intros. by rewrite Zplus_mod_idemp_l. Qed.

Lemma mod_distinct c a i j :
  0 < c -> 0 <= i < j -> j - i < c -> (a + i) mod c <> (a + j) mod c.
Proof.
  intros Hc Hij Hd E.
  assert (((a + j) - (a + i)) mod c = 0) as E' by (rewrite Zminus_mod, E, Z.sub_diag; by apply Z.mod_0_l; lia).
  replace (a + j - (a + i)) with (j - i) in E' by lia. rewrite Z.mod_small in E'; lia.
Qed.

Lemma rx_length q : RxQueue_inv q -> Z.of_nat (length (rx_contents q)) = len_ q.
Proof. intros []. unfold rx_contents. rewrite length_fmap, length_seqZ. lia. Qed.

Lemma nth_write (l : list CanRxItem) i j x d :
  (j < length l)%nat -> nth i (<[j := x]> l) d = if decide (i = j) then x else nth i l d.
Proof.
  intros Hj. rewrite !nth_lookup. case_decide as E.
  - subst i. by rewrite list_lookup_insert_eq.
  - by rewrite list_lookup_insert_ne.
Qed.

(** The item just written is at distance [len_], the others stay. *)
Lemma rx_at_write q x c o n :
  RxQueue_inv q ->
  let q' := mkRxQueue (<[Z.to_nat (in_ q) := x]> (buf_ q)) (capacity_ q) n (out_ q) o c in
  (forall i, 0 <= i < len_ q -> len_ q < capacity_ q \/ 0 < i -> rx_at q' i = rx_at q i) /\
  rx_at q' (len_ q) = x.
Proof.
  intros [Hc Hb Ho Hl Hi _] q'. subst q'. unfold rx_at. cbn [out_ capacity_ buf_].
  pose proof (Z.mod_pos_bound (out_ q + len_ q) (capacity_ q) ltac:(lia)).
  split.
  - intros i Hr Hd. pose proof (Z.mod_pos_bound (out_ q + i) (capacity_ q) ltac:(lia)).
    rewrite nth_write by lia. rewrite decide_False; [done|].
    pose proof (mod_distinct (capacity_ q) (out_ q) i (len_ q) ltac:(lia) ltac:(lia) ltac:(lia)). lia.
  - rewrite nth_write by lia. rewrite decide_True; [done|lia].
Qed.

(** A queue read one place further on. *)
Lemma rx_at_advance q n l ov i :
  1 <= capacity_ q <= MaxRxQueueCapacity -> 0 <= out_ q < capacity_ q ->
  rx_at (mkRxQueue (buf_ q) (capacity_ q) n (advance (capacity_ q) (out_ q)) l ov) i = rx_at q (1 + i).
Proof.
  intros Hc Ho. unfold rx_at. cbn [out_ capacity_ buf_].
  rewrite advance_mod, mod_shift by lia. do 3 f_equal. lia.
Qed.

Lemma push_ok_fits q f u fl :
  RxQueue_inv q -> len_ q < capacity_ q ->
  RxQueue_inv (RxQueue_push q f u fl) /\
  rx_view (RxQueue_push q f u fl) = (rx_contents q ++ [mkRxItem u f fl], overflow_cnt_ q).
Proof.
  intros Hq Hfit. destruct (rx_at_write q (mkRxItem u f fl) (overflow_cnt_ q) (len_ q + 1)
    (advance (capacity_ q) (in_ q)) Hq) as [Hold Hnew].
  pose proof Hq as [Hc Hb Ho Hl Hi Hov]. unfold MaxRxQueueCapacity in *.
  unfold RxQueue_push. rewrite (wrap_small 8) by (unfold in_width; lia).
  destruct (Z.ltb_spec (capacity_ q) (len_ q + 1)); [lia|].
  pose proof (Z.mod_pos_bound (out_ q + len_ q) (capacity_ q) ltac:(lia)).
  split.
  - split; cbn [buf_ capacity_ in_ out_ len_ overflow_cnt_]; try lia; try done.
    + by rewrite length_insert.
    + rewrite advance_mod by (unfold MaxRxQueueCapacity; lia).
      rewrite Hi, mod_shift by lia. f_equal. lia.
  - unfold rx_view, rx_contents. cbn [len_ overflow_cnt_]. f_equal.
    rewrite (seqZ_app 0 (len_ q) 1) by lia. rewrite fmap_app.
    change (seqZ (0 + len_ q) 1) with [0 + len_ q]. cbn [fmap list_fmap].
    rewrite Z.add_0_l, Hnew. f_equal. apply list_fmap_ext. intros k i [-> Hk]%lookup_seqZ.
    apply Hold; lia.
Qed.

Lemma push_ok_full q f u fl :
  RxQueue_inv q -> len_ q = capacity_ q ->
  RxQueue_inv (RxQueue_push q f u fl) /\
  rx_view (RxQueue_push q f u fl) =
    (drop 1 (rx_contents q) ++ [mkRxItem u f fl], Z.min 0xFFFFFFFF (overflow_cnt_ q + 1)).
Proof.
  intros Hq Hfull.
  set (q1 := mkRxQueue (<[Z.to_nat (in_ q) := mkRxItem u f fl]> (buf_ q)) (capacity_ q)
               (advance (capacity_ q) (in_ q)) (out_ q) (len_ q) (overflow_cnt_ q)).
  destruct (rx_at_write q (mkRxItem u f fl) (overflow_cnt_ q) (len_ q)
    (advance (capacity_ q) (in_ q)) Hq) as [Hold Hnew]. fold q1 in Hold, Hnew.
  pose proof Hq as [Hc Hb Ho Hl Hi Hov]. unfold MaxRxQueueCapacity in *.
  assert (registerOverflow (overflow_cnt_ q) = Z.min 0xFFFFFFFF (overflow_cnt_ q + 1)) as Ereg.
  { unfold registerOverflow, in_width in *. case_match; [rewrite wrap_small by (unfold in_width; lia)|]; lia. }
  unfold RxQueue_push. rewrite (wrap_small 8) by (unfold in_width; lia).
  destruct (Z.ltb_spec (capacity_ q) (len_ q + 1)); [|lia].
  pose proof (Z.mod_pos_bound (out_ q + len_ q) (capacity_ q) ltac:(lia)).
  split.
  - split; cbn [buf_ capacity_ in_ out_ len_ overflow_cnt_]; unfold MaxRxQueueCapacity; try lia.
    + by rewrite length_insert.
    + apply advance_range; unfold MaxRxQueueCapacity; lia.
    + rewrite !advance_mod by (unfold MaxRxQueueCapacity; lia).
      rewrite Hi, Hfull, !mod_shift by lia. f_equal. lia.
    + rewrite Ereg. unfold in_width in *. lia.
  - unfold rx_view, rx_contents. cbn [len_ overflow_cnt_]. rewrite Ereg. f_equal. rewrite Hfull.
    replace (capacity_ q) with ((capacity_ q - 1) + 1) at 5 by lia.
    replace (capacity_ q) with (1 + (capacity_ q - 1)) at 6 by lia.
    rewrite !seqZ_app, !fmap_app by lia.
    change (seqZ (0 + (capacity_ q - 1)) 1) with [0 + (capacity_ q - 1)].
    change (seqZ 0 1) with [0]. cbn [fmap list_fmap app drop]. f_equal.
    + rewrite <-(Z.add_0_r (0 + 1)), <-fmap_add_seqZ, <-list_fmap_compose.
      apply list_fmap_ext. intros k i [-> Hk]%lookup_seqZ. unfold compose.
      etransitivity; [apply (rx_at_advance q1); [exact Hc|exact Ho]|].
      rewrite Hold by lia. reflexivity.
    + f_equal. etransitivity; [apply (rx_at_advance q1); [exact Hc|exact Ho]|].
      rewrite <-Hnew. f_equal. lia.
Qed.

Lemma rx_push_ok q f u fl :
  RxQueue_inv q ->
  RxQueue_inv (RxQueue_push q f u fl) /\
  rx_view (RxQueue_push q f u fl) = spec_push (capacity_ q) (rx_view q) (mkRxItem u f fl).
Proof.
  intros Hq. unfold spec_push. cbn [rx_view fst snd]. rewrite rx_length by done.
  destruct (Z.ltb_spec (len_ q) (capacity_ q)).
  - by apply push_ok_fits.
  - apply push_ok_full; [done|]. pose proof (rq_len q Hq). lia.
Qed.

Lemma rx_pop_ok q out :
  RxQueue_inv q ->
  RxQueue_inv (RxQueue_pop q out).2 /\
  ((RxQueue_pop q out).1, rx_view (RxQueue_pop q out).2) = spec_pop (rx_view q) out.
Proof.
  intros Hq. pose proof Hq as [Hc Hb Ho Hl Hi Hov].
  unfold RxQueue_pop, spec_pop, rx_view, rx_contents. cbn [fst snd].
  destruct (Z.ltb_spec 0 (len_ q)); cbn [fst snd].
  2:{ replace (len_ q) with 0 by lia. done. }
  rewrite (wrap_small 8) by (unfold in_width, MaxRxQueueCapacity in *; lia).
  cbn [len_ overflow_cnt_]. split.
  - split; cbn [buf_ capacity_ in_ out_ len_ overflow_cnt_]; try done; [by apply advance_range|lia|].
    rewrite advance_mod, mod_shift by lia. rewrite Hi. f_equal. lia.
  - assert (seqZ 0 (len_ q) = 0 :: (Z.add 1 <$> seqZ 0 (len_ q - 1))) as ->.
    { rewrite fmap_add_seqZ. replace (len_ q) with (1 + (len_ q - 1)) at 1 by lia.
      by rewrite seqZ_app by lia. }
    rewrite fmap_cons, <-list_fmap_compose. f_equal.
    + unfold rx_at. by rewrite Z.add_0_r, Z.mod_small.
    + f_equal. apply list_fmap_ext. intros k i _. by apply rx_at_advance.
Qed.

Lemma rx_reset_ok q : RxQueue_inv q -> RxQueue_inv (RxQueue_reset q) /\ rx_view (RxQueue_reset q) = ([], 0).
Proof.
  intros [Hc Hb Ho Hl Hi Hov]. split; [|done].
  split; cbn [RxQueue_reset buf_ capacity_ in_ out_ len_ overflow_cnt_]; try done; try lia.
Qed.

Lemma RxQueue_make_ok c : 1 <= c <= MaxRxQueueCapacity -> RxQueue_inv (RxQueue_make c).
Proof.
  intros Hc. split; cbn [RxQueue_make buf_ capacity_ in_ out_ len_ overflow_cnt_]; try done; try lia.
  rewrite length_replicate. lia.
Qed.

(** ** Runs *)

Inductive RxOp := RxPush (f : CanFrame) (utc flags : Z) | RxPop | RxReset.

(** The items a run of operations reads. *)
Fixpoint rx_run (q : RxQueue) (ops : list RxOp) : list CanRxItem * RxQueue :=
  match ops with
  | [] => ([], q)
  | RxPush f u fl :: ops => rx_run (RxQueue_push q f u fl) ops
  | RxPop :: ops =>
      let '(x, q') := RxQueue_pop q CanRxItem_default in
      let '(l, q'') := rx_run q' ops in (x :: l, q'')
  | RxReset :: ops => rx_run (RxQueue_reset q) ops
  end.

Fixpoint spec_run (capacity : Z) (s : list CanRxItem * Z) (ops : list RxOp) :
    list CanRxItem * (list CanRxItem * Z) :=
  match ops with
  | [] => ([], s)
  | RxPush f u fl :: ops => spec_run capacity (spec_push capacity s (mkRxItem u f fl)) ops
  | RxPop :: ops =>
      let '(x, s') := spec_pop s CanRxItem_default in
      let '(l, s'') := spec_run capacity s' ops in (x :: l, s'')
  | RxReset :: ops => spec_run capacity ([], 0) ops
  end.

Lemma push_capacity q f u fl : capacity_ (RxQueue_push q f u fl) = capacity_ q.
Proof. unfold RxQueue_push. by case_match. Qed.

Lemma pop_capacity q out : capacity_ (RxQueue_pop q out).2 = capacity_ q.
Proof. unfold RxQueue_pop. by case_match. Qed.

Lemma rx_run_ok ops q :
  RxQueue_inv q ->
  RxQueue_inv (rx_run q ops).2 /\
  ((rx_run q ops).1, rx_view (rx_run q ops).2) = spec_run (capacity_ q) (rx_view q) ops.
Proof.
  revert q. induction ops as [|[f u fl| |] ops IH]; intros q Hq; cbn [rx_run spec_run]; [done|..].
  - destruct (rx_push_ok q f u fl Hq) as [Hq' <-]. rewrite <-(push_capacity q f u fl). by apply IH.
  - destruct (rx_pop_ok q CanRxItem_default Hq) as [Hq' Hv]. rewrite <-Hv.
    rewrite <-(pop_capacity q CanRxItem_default).
    destruct (RxQueue_pop q CanRxItem_default) as [x q']. cbn [fst snd] in *.
    destruct (IH q' Hq') as [Hr <-]. by destruct (rx_run q' ops).
  - destruct (rx_reset_ok q Hq) as [Hq' <-]. by apply (IH (RxQueue_reset q)).
Qed.

(** The ring buffer of received frames is a bounded queue: for every
    sequence of [push], [pop] and [reset] on a new buffer of 1 to 254 places,
    the items read are those a queue gives that drops its oldest item when a new
    one does not fit, the count of dropped items saturates at 32 bits, and the
    8-bit positions stay inside of the buffer. *)
Theorem rx_queue_refines_bounded_fifo capacity ops :
  1 <= capacity <= MaxRxQueueCapacity ->
  let '(items, q) := rx_run (RxQueue_make capacity) ops in
  let '(items', s) := spec_run capacity ([], 0) ops in
  items = items' /\ rx_contents q = s.1 /\ RxQueue_getOverflowCount q = s.2 /\
  RxQueue_getLength q = Z.of_nat (length s.1) /\
  0 <= in_ q < Z.of_nat (length (buf_ q)) /\ 0 <= out_ q < Z.of_nat (length (buf_ q)).
Proof.
  intros Hc. destruct (rx_run_ok ops _ (RxQueue_make_ok capacity Hc)) as [Hq E].
  change (rx_view (RxQueue_make capacity)) with (@nil CanRxItem, 0) in E.
  cbn [RxQueue_make capacity_] in E. rewrite <-E.
  destruct (rx_run _ ops) as [items q]. cbn [fst snd rx_view] in *.
  pose proof Hq as []. rewrite rx_length, rq_buf0, rq_in0 by done.
  pose proof (Z.mod_pos_bound (out_ q + len_ q) (capacity_ q) ltac:(lia)). done.
Qed.

Lemma rx_queue_refines_bounded_fifo_witness :
  let push n := RxPush (mkCanFrame n (replicate 8 0) 0) n 0 in
  let '(items, q) := rx_run (RxQueue_make 2) [push 1; push 2; RxPop; push 3; push 4; RxPop; RxPop] in
  (rxi_utc_usec <$> items) = [1; 3; 4] /\ RxQueue_getOverflowCount q = 1 /\ rx_contents q = [].
Proof.
  intros push.
  pose proof (rx_queue_refines_bounded_fifo 2
    [push 1; push 2; RxPop; push 3; push 4; RxPop; RxPop] ltac:(unfold MaxRxQueueCapacity; lia)) as H.
  destruct (rx_run _ _) as [items q]. destruct (spec_run _ _ _) as [items' s] eqn:E.
  vm_compute in E. injection E as <- <-.
  destruct H as (-> & Hc & Ho & _). split; [reflexivity|]. split; [exact Ho|exact Hc].
Defined.
