(* ===== verification/Stm32Can.v ===== *)
(** * Stm32Can: one CAN interface of the STM32 driver

    Models [bxcan::CanType] and the register constants of
    [libuavcan_drivers/stm32/driver/include/uavcan_stm32/bxcan.hpp] and
    [CanIface] of [uavcan_stm32/can.hpp] and [src/uc_stm32_can.cpp]. The
    controller is outside of the code: it is a device [D] whose registers are
    read and written; both may change its state, since the hardware goes on
    between two accesses and some bits are set to clear something. What the
    theorems need of it is stated in [BxCanLaws] in terms of the reference manual.
    Critical sections make the operations atomic with respect to the interrupt
    handlers; the event object that wakes up a waiting thread is left out. *)

From S2P Require Import Prelude CanFrame Frame CanIO Stm32Timings Stm32RxQueue.
Local Open Scope Z_scope.

(** ** Registers *)

(** [bxcan::CanType], with the index of the mailbox, FIFO or filter bank. *)
Inductive Reg :=
  | MCR | MSR | TSR | RF0R | RF1R | IER | ESR | BTR
  | TIR (m : nat) | TDTR (m : nat) | TDLR (m : nat) | TDHR (m : nat)
  | RIR (f : nat) | RDTR (f : nat) | RDLR (f : nat) | RDHR (f : nat)
  | FMR | FM1R | FS1R | FFA1R | FA1R | FR1 (i : nat) | FR2 (i : nat).

#[global] Instance Reg_eq_dec : EqDecision Reg.
Proof. solve_decision. Defined.

Definition bit (n : Z) : Z := Z.shiftl 1 n.

Definition MCR_INRQ : Z := bit 0.
Definition MCR_SLEEP : Z := bit 1.
Definition MCR_AWUM : Z := bit 5.
Definition MCR_ABOM : Z := bit 6.
Definition MSR_INAK : Z := bit 0.
Definition MSR_ERRI : Z := bit 2.

(** [TSR_RQCP0], [TSR_RQCP1], [TSR_RQCP2] and so on. *)
Definition TSR_RQCP (m : nat) : Z := bit (8 * Z.of_nat m).
Definition TSR_TXOK (m : nat) : Z := bit (8 * Z.of_nat m + 1).
Definition TSR_ABRQ (m : nat) : Z := bit (8 * Z.of_nat m + 7).
Definition TSR_TME (m : nat) : Z := bit (26 + Z.of_nat m).

Definition RFR_FMP_MASK : Z := Z.shiftl 3 0.
Definition RFR_FULL : Z := bit 3.
Definition RFR_FOVR : Z := bit 4.
Definition RFR_RFOM : Z := bit 5.
Definition IER_TMEIE : Z := bit 0.
Definition IER_FMPIE0 : Z := bit 1.
Definition IER_FMPIE1 : Z := bit 4.
Definition IER_LECIE : Z := bit 11.
Definition IER_ERRIE : Z := bit 15.
Definition ESR_LEC_SHIFT : Z := 4.
Definition ESR_LEC_MASK : Z := Z.shiftl 7 ESR_LEC_SHIFT.
Definition BTR_SILM : Z := bit 31.
Definition TIR_TXRQ : Z := bit 0.
Definition TIR_RTR : Z := bit 1.
Definition TIR_IDE : Z := bit 2.
Definition RIR_RTR : Z := bit 1.
Definition RIR_IDE : Z := bit 2.
Definition FMR_FINIT : Z := bit 0.

Definition NumTxMailboxes : nat := 3.
Definition NumFilters : nat := 14.

(** The controller. [rcc_reset] is its reset by the clock controller. *)
Class BxCan (D : Type) := {
  reg_read : D -> Reg -> Z * D;
  reg_write : D -> Reg -> Z -> D;
  rcc_reset : D -> D
}.

(** [CanIface::TxItem]. *)
Record TxItem := mkTxItem {
  ti_deadline : Z;
  ti_frame : CanFrame;
  ti_pending : bool;
  ti_loopback : bool;
  ti_abort_on_error : bool
}.
Definition TxItem_default : TxItem := mkTxItem 0 CanFrame_default false false false.

Definition TxItem_done (t : TxItem) : TxItem :=
  mkTxItem (ti_deadline t) (ti_frame t) false (ti_loopback t) (ti_abort_on_error t).

Record CanIface (D : Type) := mkIface {
  rx_queue_ : RxQueue;
  can_ : D;
  error_cnt_ : Z;
  served_aborts_cnt_ : Z;
  pending_tx_ : list TxItem;
  last_hw_error_code_ : Z;
  peak_tx_mailbox_index_ : Z;
  self_index_ : Z;
  had_activity_ : bool
}.
Arguments mkIface {D}.
Arguments rx_queue_ {D}.
Arguments can_ {D}.
Arguments error_cnt_ {D}.
Arguments served_aborts_cnt_ {D}.
Arguments pending_tx_ {D}.
Arguments last_hw_error_code_ {D}.
Arguments peak_tx_mailbox_index_ {D}.
Arguments self_index_ {D}.
Arguments had_activity_ {D}.

(** [CanIface::CanIface]. *)
Definition CanIface_make {D} (can : D) (self_index capacity : Z) : CanIface D :=
  mkIface (RxQueue_make capacity) can 0 0 (replicate NumTxMailboxes TxItem_default) 0 0 self_index false.

Inductive OperatingMode := NormalMode | SilentMode.

#[global] Instance OperatingMode_eq_dec : EqDecision OperatingMode.
Proof. solve_decision. Defined.

Definition CanIOFlagAbortOnError : Z := 2.

(** ** Frames in the registers *)

(** The identifier register of a transmission mailbox, without [TXRQ]. *)
Definition frame_tir (frame : CanFrame) : Z :=
  if isExtended frame
  then Z.lor (u32 (Z.shiftl (Z.land (can_id frame) MaskExtID) 3)) TIR_IDE
  else u32 (Z.shiftl (Z.land (can_id frame) MaskStdID) 21).

(** Four bytes of data in a register, the first one lowest. *)
Definition data_word (d0 d1 d2 d3 : Z) : Z :=
  Z.lor (Z.lor (Z.lor (u32 (Z.shiftl d3 24)) (u32 (Z.shiftl d2 16))) (u32 (Z.shiftl d1 8))) (Z.shiftl d0 0).

Definition frame_tdlr (frame : CanFrame) : Z :=
  let d i := nth i (can_data frame) 0 in data_word (d 0%nat) (d 1%nat) (d 2%nat) (d 3%nat).
Definition frame_tdhr (frame : CanFrame) : Z :=
  let d i := nth i (can_data frame) 0 in data_word (d 4%nat) (d 5%nat) (d 6%nat) (d 7%nat).

(** [uint8_t(0xFF & (reg >> n))]. *)
Definition reg_byte (v n : Z) : Z := u8 (Z.land 0xFF (Z.shiftr v n)).

(** The frame in the registers of a reception FIFO. The code reads the
    registers again for each part of the frame: [ide], [id] and [rtr] are values
    of RIR, [dtr] of RDTR, [l] and [h] of RDLR and RDHR. *)
Definition frame_of_regs (ide id rtr dtr l0 l1 l2 l3 h0 h1 h2 h3 : Z) : CanFrame :=
  let id := if Z.land ide RIR_IDE =? 0 then Z.land MaskStdID (Z.shiftr id 21)
            else Z.lor (Z.land MaskExtID (Z.shiftr id 3)) FlagEFF in
  let id := if negb (Z.land rtr RIR_RTR =? 0) then Z.lor id FlagRTR else id in
  mkCanFrame id
    [reg_byte l0 0; reg_byte l1 8; reg_byte l2 16; reg_byte l3 24;
     reg_byte h0 0; reg_byte h1 8; reg_byte h2 16; reg_byte h3 24]
    (Z.land dtr 15).

Section iface.
Context {D : Type} `{BxCan D}.
Abbreviation Iface := (CanIface D).

Definition set_can (s : Iface) (d : D) : Iface :=
  mkIface (rx_queue_ s) d (error_cnt_ s) (served_aborts_cnt_ s) (pending_tx_ s)
    (last_hw_error_code_ s) (peak_tx_mailbox_index_ s) (self_index_ s) (had_activity_ s).
Definition set_rx (s : Iface) (q : RxQueue) : Iface :=
  mkIface q (can_ s) (error_cnt_ s) (served_aborts_cnt_ s) (pending_tx_ s)
    (last_hw_error_code_ s) (peak_tx_mailbox_index_ s) (self_index_ s) (had_activity_ s).
Definition set_pending (s : Iface) (m : nat) (t : TxItem) : Iface :=
  mkIface (rx_queue_ s) (can_ s) (error_cnt_ s) (served_aborts_cnt_ s) (<[m := t]> (pending_tx_ s))
    (last_hw_error_code_ s) (peak_tx_mailbox_index_ s) (self_index_ s) (had_activity_ s).
Definition set_activity (s : Iface) (b : bool) : Iface :=
  mkIface (rx_queue_ s) (can_ s) (error_cnt_ s) (served_aborts_cnt_ s) (pending_tx_ s)
    (last_hw_error_code_ s) (peak_tx_mailbox_index_ s) (self_index_ s) b.
Definition set_peak (s : Iface) (p : Z) : Iface :=
  mkIface (rx_queue_ s) (can_ s) (error_cnt_ s) (served_aborts_cnt_ s) (pending_tx_ s)
    (last_hw_error_code_ s) p (self_index_ s) (had_activity_ s).
Definition set_lec (s : Iface) (lec : Z) : Iface :=
  mkIface (rx_queue_ s) (can_ s) (error_cnt_ s) (served_aborts_cnt_ s) (pending_tx_ s)
    lec (peak_tx_mailbox_index_ s) (self_index_ s) (had_activity_ s).
(** [error_cnt_++], [served_aborts_cnt_++]. *)
Definition count_error (s : Iface) : Iface :=
  mkIface (rx_queue_ s) (can_ s) (u64 (error_cnt_ s + 1)) (served_aborts_cnt_ s) (pending_tx_ s)
    (last_hw_error_code_ s) (peak_tx_mailbox_index_ s) (self_index_ s) (had_activity_ s).
Definition count_abort (s : Iface) : Iface :=
  mkIface (rx_queue_ s) (can_ s) (error_cnt_ s) (u32 (served_aborts_cnt_ s + 1)) (pending_tx_ s)
    (last_hw_error_code_ s) (peak_tx_mailbox_index_ s) (self_index_ s) (had_activity_ s).

Definition rd (s : Iface) (r : Reg) : Z * Iface :=
  let '(v, d) := reg_read (can_ s) r in (v, set_can s d).
Definition wr (s : Iface) (r : Reg) (v : Z) : Iface := set_can s (reg_write (can_ s) r v).

(** [reg |= v], [reg &= v]. *)
Definition reg_or (s : Iface) (r : Reg) (v : Z) : Iface := let '(x, s) := rd s r in wr s r (Z.lor x v).
Definition reg_and (s : Iface) (r : Reg) (v : Z) : Iface := let '(x, s) := rd s r in wr s r (Z.land x v).
Definition not32 (v : Z) : Z := u32 (Z.lnot v).

(** [pending_tx_[m]]. *)
Definition item_at (s : Iface) (m : nat) : TxItem := nth m (pending_tx_ s) TxItem_default.

(** ** Transmission *)

(** The search for an empty mailbox in [CanIface::send]. *)
Fixpoint find_mailbox (s : Iface) (ms : list nat) : option nat * Iface :=
  match ms with
  | [] => (None, s)
  | m :: ms =>
      let '(tsr, s) := rd s TSR in
      if Z.land tsr (TSR_TME m) =? TSR_TME m then (Some m, s) else find_mailbox s ms
  end.

(** Setting up mailbox [m], up to [mb.TIR |= TIR_TXRQ]. *)
Definition fill_mailbox (s : Iface) (m : nat) (frame : CanFrame) : Iface :=
  let s := wr s (TIR m) (frame_tir frame) in
  let s := if isRemoteTransmissionRequest frame then reg_or s (TIR m) TIR_RTR else s in
  let s := wr s (TDTR m) (can_dlc frame) in
  let s := wr s (TDHR m) (frame_tdhr frame) in
  let s := wr s (TDLR m) (frame_tdlr frame) in
  reg_or s (TIR m) TIR_TXRQ.

(** [CanIface::send]. *)
Definition Iface_send (s : Iface) (frame : CanFrame) (tx_deadline flags : Z) : Z * Iface :=
  if isErrorFrame frame || (8 <? can_dlc frame) then (- StmErr.ErrUnsupportedFrame, s)
  else
    let '(r, s) := find_mailbox s (seq 0 NumTxMailboxes) in
    match r with
    | None => (0, s)
    | Some m =>
        let s := set_peak s (Z.max (peak_tx_mailbox_index_ s) (Z.of_nat m)) in
        let s := fill_mailbox s m frame in
        let item := mkTxItem tx_deadline frame true
                      (negb (Z.land flags CanIOFlagLoopback =? 0))
                      (negb (Z.land flags CanIOFlagAbortOnError =? 0)) in
        (1, set_pending s m item)
    end.

(** [CanIface::receive] after its reading of the clock; [out] holds the
    output arguments [out_frame], [out_ts_utc] and [out_flags]. *)
Definition Iface_receive (s : Iface) (out : CanRxItem) : Z * CanRxItem * Iface :=
  if RxQueue_getLength (rx_queue_ s) =? 0 then (0, out, s)
  else
    let '(item, q) := RxQueue_pop (rx_queue_ s) out in (1, item, set_rx s q).

(** [CanIface::configureFilters]. *)
Definition Iface_configureFilters (s : Iface) (filter_configs : list CanFilterConfig) : Z * Iface :=
  (- StmErr.ErrNotImplemented, s).

Definition Iface_getNumFilters : Z := Z.of_nat NumFilters.

(** ** Initialisation *)

(** [CanIface::waitMsrINakBitStateChange]; [timeout] is the number of attempts,
    500 or 2000000 depending on the operating system. *)
Fixpoint waitMsrINakBitStateChange (timeout : nat) (s : Iface) (target_state : bool) : bool * Iface :=
  match timeout with
  | O => (false, s)
  | S timeout =>
      let '(msr, s) := rd s MSR in
      if eqb (negb (Z.land msr MSR_INAK =? 0)) target_state then (true, s)
      else waitMsrINakBitStateChange timeout s target_state
  end.

(** The state of the object is reset once interrupts are disabled. *)
Definition reset_object (s : Iface) : Iface :=
  mkIface (RxQueue_reset (rx_queue_ s)) (can_ s) 0 0 (replicate NumTxMailboxes TxItem_default) 0 0
    (self_index_ s) false.

(** The value of the bit timing register. *)
Definition btr_value (t : Timings) (mode : OperatingMode) : Z :=
  Z.lor (Z.lor (Z.lor (Z.lor (Z.shiftl (Z.land (tm_sjw t) 3) 24)
    (Z.shiftl (Z.land (tm_bs1 t) 15) 16)) (Z.shiftl (Z.land (tm_bs2 t) 7) 20))
    (Z.land (tm_prescaler t) 1023)) (if bool_decide (mode = SilentMode) then BTR_SILM else 0).

(** The default filter configuration for [num_ifaces] interfaces. *)
Definition default_filters (num_ifaces : nat) (s : Iface) : Iface :=
  let s := reg_or s FMR FMR_FINIT in
  let s := reg_and s FMR 0xFFFFC0F1 in
  let s := reg_or s FMR (Z.shiftl (Z.of_nat NumFilters) 8) in
  let s := wr s FFA1R 0 in
  let s := wr s FM1R 0 in
  let s :=
    if (1 <? num_ifaces)%nat then
      let s := wr s FS1R 0x7ffffff in
      let s := wr s (FR1 0) 0 in
      let s := wr s (FR2 0) 0 in
      let s := wr s (FR1 NumFilters) 0 in
      let s := wr s (FR2 NumFilters) 0 in
      wr s FA1R (Z.lor 1 (Z.shiftl 1 (Z.of_nat NumFilters)))
    else
      let s := wr s FS1R 0x1fff in
      let s := wr s (FR1 0) 0 in
      let s := wr s (FR2 0) 0 in
      wr s FA1R 1 in
  reg_and s FMR (not32 FMR_FINIT).

(** [CanIface::init]. *)
Definition Iface_init (timeout num_ifaces : nat) (pclk : Z) (s : Iface) (bitrate : Z) (mode : OperatingMode) :
    Z * Iface :=
  let s := reg_and s MCR (not32 MCR_SLEEP) in
  let s := reg_or s MCR MCR_INRQ in
  let s := wr s IER 0 in
  let '(ok, s) := waitMsrINakBitStateChange timeout s true in
  if negb ok then (- StmErr.ErrMsrInakNotSet, s)
  else
    let s := reset_object s in
    let '(timings_res, timings) := computeTimings pclk bitrate Timings_default in
    if timings_res <? 0 then (timings_res, s)
    else
      let s := wr s MCR (Z.lor (Z.lor MCR_ABOM MCR_AWUM) MCR_INRQ) in
      let s := wr s BTR (btr_value timings mode) in
      let s := wr s IER (Z.lor (Z.lor (Z.lor (Z.lor IER_TMEIE IER_FMPIE0) IER_FMPIE1) IER_ERRIE) IER_LECIE) in
      let s := reg_and s MCR (not32 MCR_INRQ) in
      let '(ok, s) := waitMsrINakBitStateChange timeout s false in
      if negb ok then (- StmErr.ErrMsrInakNotCleared, s)
      else
        let s := if self_index_ s =? 0 then default_filters num_ifaces s else s in
        (0, s).

(** ** Interrupts *)

(** [CanIface::handleTxMailboxInterrupt]. *)
Definition handleTxMailboxInterrupt (s : Iface) (m : nat) (txok : bool) (utc_usec : Z) : Iface :=
  let s := set_activity s (had_activity_ s || txok) in
  let txi := item_at s m in
  let s := if ti_loopback txi && txok && ti_pending txi
           then set_rx s (RxQueue_push (rx_queue_ s) (ti_frame txi) utc_usec CanIOFlagLoopback) else s in
  set_pending s m (TxItem_done txi).

(** One of the three blocks of [CanIface::handleTxInterrupt]. *)
Definition serve_mailbox (utc_usec : Z) (s : Iface) (m : nat) : Iface :=
  let '(tsr, s) := rd s TSR in
  if negb (Z.land tsr (TSR_RQCP m) =? 0) then
    let '(tsr, s) := rd s TSR in
    let txok := negb (Z.land tsr (TSR_TXOK m) =? 0) in
    let s := wr s TSR (TSR_RQCP m) in
    handleTxMailboxInterrupt s m txok utc_usec
  else s.

(** [CanIface::handleTxInterrupt]. *)
Definition Iface_handleTxInterrupt (s : Iface) (utc_usec : Z) : Iface :=
  foldl (serve_mailbox utc_usec) s (seq 0 NumTxMailboxes).

(** Reading the frame at the output of a FIFO. *)
Definition read_frame (s : Iface) (f : nat) : CanFrame * Iface :=
  let '(ide, s) := rd s (RIR f) in
  let '(id, s) := rd s (RIR f) in
  let '(rtr, s) := rd s (RIR f) in
  let '(dtr, s) := rd s (RDTR f) in
  let '(l0, s) := rd s (RDLR f) in
  let '(l1, s) := rd s (RDLR f) in
  let '(l2, s) := rd s (RDLR f) in
  let '(l3, s) := rd s (RDLR f) in
  let '(h0, s) := rd s (RDHR f) in
  let '(h1, s) := rd s (RDHR f) in
  let '(h2, s) := rd s (RDHR f) in
  let '(h3, s) := rd s (RDHR f) in
  (frame_of_regs ide id rtr dtr l0 l1 l2 l3 h0 h1 h2 h3, s).

Definition rfr_reg (fifo_index : nat) : Reg := if (fifo_index =? 0)%nat then RF0R else RF1R.

(** [CanIface::handleRxInterrupt]. *)
Definition Iface_handleRxInterrupt (s : Iface) (fifo_index : nat) (utc_usec : Z) : Iface :=
  let '(rfr, s) := rd s (rfr_reg fifo_index) in
  if Z.land rfr RFR_FMP_MASK =? 0 then s
  else
    let '(rfr, s) := rd s (rfr_reg fifo_index) in
    let s := if negb (Z.land rfr RFR_FOVR =? 0) then count_error s else s in
    let '(frame, s) := read_frame s fifo_index in
    let s := wr s (rfr_reg fifo_index) (Z.lor (Z.lor RFR_RFOM RFR_FOVR) RFR_FULL) in
    let s := set_rx s (RxQueue_push (rx_queue_ s) frame utc_usec 0) in
    set_activity s true.

(** One pass of the loop of [CanIface::handleStatusChangeInterrupt]. *)
Definition serve_abort (s : Iface) (m : nat) : Iface :=
  let txi := item_at s m in
  if ti_pending txi && ti_abort_on_error txi then
    let s := wr s TSR (TSR_ABRQ m) in
    count_abort (set_pending s m (TxItem_done txi))
  else s.

(** [CanIface::handleStatusChangeInterrupt]. *)
Definition Iface_handleStatusChangeInterrupt (s : Iface) : Iface :=
  let s := wr s MSR MSR_ERRI in
  let '(esr, s) := rd s ESR in
  let lec := u8 (Z.shiftr (Z.land esr ESR_LEC_MASK) ESR_LEC_SHIFT) in
  if negb (lec =? 0) then
    let s := set_lec s lec in
    let s := wr s ESR 0 in
    let s := count_error s in
    foldl serve_abort s (seq 0 NumTxMailboxes)
  else s.

(** One pass of the loop of [CanIface::discardTimedOutTxMailboxes]. *)
Definition discard_timed_out (current_time : Z) (s : Iface) (m : nat) : Iface :=
  let txi := item_at s m in
  if ti_pending txi && (ti_deadline txi <? current_time) then
    let s := wr s TSR (TSR_ABRQ m) in
    count_error (set_pending s m (TxItem_done txi))
  else s.

(** [CanIface::discardTimedOutTxMailboxes]. *)
Definition discardTimedOutTxMailboxes (s : Iface) (current_time : Z) : Iface :=
  foldl (discard_timed_out current_time) s (seq 0 NumTxMailboxes).

(** ** Queries *)

Definition TME : Z := Z.lor (Z.lor (TSR_TME 0) (TSR_TME 1)) (TSR_TME 2).

(** [CanIface::canAcceptNewTxFrame]. *)
Definition canAcceptNewTxFrame (s : Iface) (frame : CanFrame) : bool * Iface :=
  let '(tsr, s) := rd s TSR in
  let tme := Z.land tsr TME in
  if tme =? TME then (true, s)
  else if tme =? 0 then (false, s)
  else (negb (existsb (fun m => ti_pending (item_at s m) &&
                                negb (priorityHigherThan frame (ti_frame (item_at s m))))
                      (seq 0 NumTxMailboxes)), s).

Definition isRxBufferEmpty (s : Iface) : bool := RxQueue_getLength (rx_queue_ s) =? 0.
Definition Iface_getErrorCount (s : Iface) : Z :=
  u64 (error_cnt_ s + RxQueue_getOverflowCount (rx_queue_ s)).
Definition getVoluntaryTxAbortCount (s : Iface) : Z := served_aborts_cnt_ s.
Definition getRxQueueLength (s : Iface) : Z := RxQueue_getLength (rx_queue_ s).
Definition yieldLastHardwareErrorCode (s : Iface) : Z * Iface := (last_hw_error_code_ s, set_lec s 0).
Definition Iface_hadActivity (s : Iface) : bool * Iface := (had_activity_ s, set_activity s false).
Definition getPeakNumTxMailboxesUsed (s : Iface) : Z := u8 (peak_tx_mailbox_index_ s + 1).

End iface.

(** ** What the reference manual says of the controller *)

Record TxMailboxType := mkTxMailbox { mb_TIR : Z; mb_TDTR : Z; mb_TDLR : Z; mb_TDHR : Z }.
Record RxMailboxType := mkRxMailbox { mb_RIR : Z; mb_RDTR : Z; mb_RDLR : Z; mb_RDHR : Z }.

(** Writing a register of mailbox [m]. *)
Definition mailbox_write (m : nat) (r : Reg) (v : Z) (b : TxMailboxType) : option TxMailboxType :=
  match r with
  | TIR k => if decide (k = m) then Some (mkTxMailbox v (mb_TDTR b) (mb_TDLR b) (mb_TDHR b)) else None
  | TDTR k => if decide (k = m) then Some (mkTxMailbox (mb_TIR b) v (mb_TDLR b) (mb_TDHR b)) else None
  | TDLR k => if decide (k = m) then Some (mkTxMailbox (mb_TIR b) (mb_TDTR b) v (mb_TDHR b)) else None
  | TDHR k => if decide (k = m) then Some (mkTxMailbox (mb_TIR b) (mb_TDTR b) (mb_TDLR b) v) else None
  | _ => None
  end.

(** [tx_regs d m] are the registers of mailbox [m] as the software wrote them,
    [tx_free d m] says that it is empty. [rx_regs d f] are the registers at the output
    of FIFO [f], if it holds a frame. *)
Class BxCanLaws (D : Type) `{BxCan D} := {
  tx_regs : D -> nat -> TxMailboxType;
  tx_free : D -> nat -> bool;
  rx_regs : D -> nat -> option RxMailboxType;
  (** registers have 32 bits; the data length code is 0 to 8 *)
  read_u32 d r : is_u32 (reg_read d r).1;
  read_dlc d f : Z.land (reg_read d (RDTR f)).1 15 <= 8;
  (** TMEx: transmit mailbox x is empty *)
  read_tme d m : (m < NumTxMailboxes)%nat ->
    Z.land (reg_read d TSR).1 (TSR_TME m) = TSR_TME m -> tx_free (reg_read d TSR).2 m = true;
  (** an empty mailbox keeps what the software writes to it until TXRQ is set *)
  read_tir d m : tx_free d m = true -> (reg_read d (TIR m)).1 = mb_TIR (tx_regs d m);
  read_tx_keeps d r m : tx_free d m = true ->
    tx_free (reg_read d r).2 m = true /\ tx_regs (reg_read d r).2 m = tx_regs d m;
  write_tx d r v m b : is_u32 v -> tx_free d m = true -> mailbox_write m r v (tx_regs d m) = Some b ->
    tx_regs (reg_write d r v) m = b /\
    (Z.testbit (mb_TIR b) 0 = false -> tx_free (reg_write d r v) m = true);
  (** FMP: frames pending in the FIFO; the output registers hold the first one
      until it is released *)
  read_fmp d f b : rx_regs d f = Some b -> Z.land (reg_read d (rfr_reg f)).1 RFR_FMP_MASK <> 0;
  read_rx_keeps d r f b : rx_regs d f = Some b -> rx_regs (reg_read d r).2 f = Some b;
  read_rx d f b : rx_regs d f = Some b ->
    (reg_read d (RIR f)).1 = mb_RIR b /\ (reg_read d (RDTR f)).1 = mb_RDTR b /\
    (reg_read d (RDLR f)).1 = mb_RDLR b /\ (reg_read d (RDHR f)).1 = mb_RDHR b
}.

(** ** Well-formed interfaces *)

Record RxItem_wf (x : CanRxItem) : Prop := {
  rxi_wf_frame : CanFrame_wf (rxi_frame x);
  rxi_wf_utc : is_u64 (rxi_utc_usec x);
  rxi_wf_flags : rxi_flags x = 0 \/ rxi_flags x = CanIOFlagLoopback
}.

Record TxItem_wf (t : TxItem) : Prop := {
  ti_wf_frame : CanFrame_wf (ti_frame t);
  ti_wf_deadline : is_u64 (ti_deadline t)
}.

Record Iface_wf {D} (s : CanIface D) : Prop := {
  if_rx : RxQueue_inv (rx_queue_ s);
  if_rx_items : Forall RxItem_wf (buf_ (rx_queue_ s));
  if_errors : is_u64 (error_cnt_ s);
  if_aborts : is_u32 (served_aborts_cnt_ s);
  if_mailboxes : length (pending_tx_ s) = NumTxMailboxes;
  if_tx_items : Forall TxItem_wf (pending_tx_ s);
  if_lec : 0 <= last_hw_error_code_ s < 8;
  if_peak : 0 <= peak_tx_mailbox_index_ s < Z.of_nat NumTxMailboxes
}.

Create HintDb stm32 discriminated.

Lemma CanFrame_default_wf : CanFrame_wf CanFrame_default.
Proof. split; try (vm_compute; done). apply Forall_replicate. vm_compute. done. Qed.

Lemma TxItem_default_wf : TxItem_wf TxItem_default.
Proof. split; [apply CanFrame_default_wf|vm_compute; done]. Qed.

Lemma RxItem_default_wf : RxItem_wf CanRxItem_default.
Proof. split; [apply CanFrame_default_wf|vm_compute; done|by left]. Qed.

Lemma TxItem_done_wf t : TxItem_wf t -> TxItem_wf (TxItem_done t).
Proof. intros []. by split. Qed.

Section wf.
Context {D : Type} `{BxCanLaws D}.
Abbreviation Iface := (CanIface D).
Implicit Types s : Iface.

Lemma item_at_wf s m : Iface_wf s -> TxItem_wf (item_at s m).
Proof.
  intros []. unfold item_at. rewrite nth_lookup.
  destruct (pending_tx_ s !! m) eqn:E; cbn [from_option id]; [|apply TxItem_default_wf].
  by eapply Forall_lookup_1.
Qed.

Lemma wf_set_can s d : Iface_wf s -> Iface_wf (set_can s d).
Proof. intros []. by split. Qed.
Lemma wf_set_activity s b : Iface_wf s -> Iface_wf (set_activity s b).
Proof. intros []. by split. Qed.
Lemma wf_set_pending s m t : TxItem_wf t -> Iface_wf s -> Iface_wf (set_pending s m t).
Proof. intros ? []. split; try done; cbn [set_pending pending_tx_]; [by rewrite length_insert|by apply Forall_insert]. Qed.
Lemma wf_set_peak s p : 0 <= p < Z.of_nat NumTxMailboxes -> Iface_wf s -> Iface_wf (set_peak s p).
Proof. intros ? []. by split. Qed.
Lemma wf_set_lec s p : 0 <= p < 8 -> Iface_wf s -> Iface_wf (set_lec s p).
Proof. intros ? []. by split. Qed.
Lemma wf_count_error s : Iface_wf s -> Iface_wf (count_error s).
Proof. intros []. split; try done. by apply wrap_range. Qed.
Lemma wf_count_abort s : Iface_wf s -> Iface_wf (count_abort s).
Proof. intros []. split; try done. by apply wrap_range. Qed.
Lemma wf_push s f u fl :
  RxItem_wf (mkRxItem u f fl) -> Iface_wf s -> Iface_wf (set_rx s (RxQueue_push (rx_queue_ s) f u fl)).
Proof.
  intros Hi []. split; try done; cbn [set_rx rx_queue_].
  - by apply rx_push_ok.
  - unfold RxQueue_push. case_match; by apply Forall_insert.
Qed.
Lemma wf_rd s r : Iface_wf s -> Iface_wf (rd s r).2.
Proof. intros. unfold rd. destruct (reg_read _ _). by apply wf_set_can. Qed.
Lemma wf_wr s r v : Iface_wf s -> Iface_wf (wr s r v).
Proof. apply wf_set_can. Qed.
#[local] Hint Resolve wf_set_can wf_set_activity wf_set_pending wf_set_peak wf_set_lec wf_count_error
  wf_count_abort wf_push wf_rd wf_wr item_at_wf TxItem_done_wf TxItem_default_wf : stm32.

Lemma wf_reg_or s r v : Iface_wf s -> Iface_wf (reg_or s r v).
Proof. intros. unfold reg_or. rewrite (surjective_pairing (rd s r)). auto with stm32. Qed.
Lemma wf_reg_and s r v : Iface_wf s -> Iface_wf (reg_and s r v).
Proof. intros. unfold reg_and. rewrite (surjective_pairing (rd s r)). auto with stm32. Qed.
#[local] Hint Resolve wf_reg_or wf_reg_and : stm32.

Lemma wf_foldl (f : Iface -> nat -> Iface) ms s :
  (forall s m, Iface_wf s -> Iface_wf (f s m)) -> Iface_wf s -> Iface_wf (foldl f s ms).
Proof. intros Hf. revert s. induction ms; simpl; auto. Qed.

Lemma wf_find_mailbox s ms :
  Iface_wf s -> let '(r, s') := find_mailbox s ms in
  Iface_wf s' /\ (forall m, r = Some m -> m ∈ ms).
Proof.
  revert s. induction ms as [|m ms IH]; intros s Hs; cbn [find_mailbox]; [by split|].
  pose proof (wf_rd s TSR Hs). destruct (rd s TSR) as [v s1]. cbn [snd] in *.
  destruct (Z.eqb _ _); [split; [done|]; intros ? [= ->]; by left|].
  specialize (IH s1 ltac:(done)). destruct (find_mailbox s1 ms) as [r s2]. destruct IH as [? Hin].
  split; [done|]. intros k Hk. right. by apply Hin.
Qed.

Lemma wf_fill_mailbox s m f : Iface_wf s -> Iface_wf (fill_mailbox s m f).
Proof. intros. unfold fill_mailbox. destruct (isRemoteTransmissionRequest f); auto 10 with stm32. Qed.

Lemma wf_send s f dl fl :
  CanFrame_wf f -> is_u64 dl -> Iface_wf s -> Iface_wf (Iface_send s f dl fl).2.
Proof.
  intros Hf Hdl Hs. unfold Iface_send. case_match; [done|].
  pose proof (wf_find_mailbox s (seq 0 NumTxMailboxes) Hs) as Hfm.
  destruct (find_mailbox s _) as [[m|] s1]; [|by apply Hfm]. destruct Hfm as [Hs1 Hm].
  specialize (Hm m eq_refl). apply elem_of_seq in Hm. cbn [snd].
  apply wf_set_pending; [by split|]. apply wf_fill_mailbox, wf_set_peak; [|done].
  pose proof (if_peak s1 Hs1). unfold NumTxMailboxes in *. lia.
Qed.

Lemma wf_receive s out :
  Iface_wf s ->
  let '(r, out', s') := Iface_receive s out in Iface_wf s' /\ (0 < r -> RxItem_wf out').
Proof.
  intros Hs. unfold Iface_receive, RxQueue_getLength, RxQueue_pop. pose proof Hs as [Hq Hi].
  destruct (Z.eqb_spec (len_ (rx_queue_ s)) 0); [split; [done|lia]|].
  destruct (rx_pop_ok (rx_queue_ s) out Hq) as [Hq' _]. unfold RxQueue_pop in Hq'.
  pose proof (rq_len _ Hq). destruct (Z.ltb_spec 0 (len_ (rx_queue_ s))); [|lia]. cbn [snd] in Hq'.
  split.
  - by split.
  - intros _. rewrite nth_lookup. destruct (_ !! _) eqn:E; cbn [from_option id]; [|apply RxItem_default_wf].
    by eapply Forall_lookup_1.
Qed.

Lemma wf_wait n s b : Iface_wf s -> Iface_wf (waitMsrINakBitStateChange n s b).2.
Proof.
  revert s. induction n as [|n IH]; intros s Hs; [done|]. cbn [waitMsrINakBitStateChange].
  pose proof (wf_rd s MSR Hs). destruct (rd s MSR). destruct (eqb _ _); auto.
Qed.

Lemma wf_reset_object s : Iface_wf s -> Iface_wf (reset_object s).
Proof.
  intros []. destruct (rx_reset_ok _ if_rx0) as [? _].
  split; try done. cbn [reset_object pending_tx_]. apply Forall_replicate, TxItem_default_wf.
Qed.

Lemma wf_default_filters n s : Iface_wf s -> Iface_wf (default_filters n s).
Proof. intros. unfold default_filters. destruct (1 <? n)%nat; auto 20 with stm32. Qed.

Lemma wf_init timeout n pclk s br mode : Iface_wf s -> Iface_wf (Iface_init timeout n pclk s br mode).2.
Proof.
  intros Hs. unfold Iface_init.
  match goal with |- context [waitMsrINakBitStateChange timeout ?x true] =>
    assert (Iface_wf x) as Hx by auto with stm32; pose proof (wf_wait timeout x true Hx) as Hw end.
  destruct (waitMsrINakBitStateChange timeout _ true) as [[] s1]; [|done]. cbn [snd negb] in *.
  apply wf_reset_object in Hw. destruct (computeTimings pclk br Timings_default) as [res t].
  destruct (Z.ltb _ _); [done|].
  match goal with |- context [waitMsrINakBitStateChange timeout ?x false] =>
    assert (Iface_wf x) as Hx' by auto with stm32; pose proof (wf_wait timeout x false Hx') as Hw' end.
  destruct (waitMsrINakBitStateChange timeout _ false) as [[] s2]; [|done]. cbn [snd negb] in *.
  destruct (Z.eqb _ _); [by apply wf_default_filters|done].
Qed.

Lemma wf_serve_mailbox u s m : is_u64 u -> Iface_wf s -> Iface_wf (serve_mailbox u s m).
Proof.
  intros Hu Hs. unfold serve_mailbox.
  pose proof (wf_rd s TSR Hs) as H1. destruct (rd s TSR) as [v1 s1]. cbn [snd] in H1.
  destruct (negb _); [|done].
  pose proof (wf_rd s1 TSR H1) as H2. destruct (rd s1 TSR) as [v2 s2]. cbn [snd] in H2.
  unfold handleTxMailboxInterrupt.
  match goal with |- context [set_activity ?x ?b] => assert (Iface_wf (set_activity x b)) as H3 by auto with stm32;
    generalize dependent (set_activity x b) end.
  intros s3 H3. destruct (_ && _ && _); [|by auto with stm32].
  apply wf_set_pending; [by auto with stm32|]. apply wf_push; [|done].
  split; [exact (ti_wf_frame _ (item_at_wf s3 m H3))|exact Hu|by right].
Qed.

Lemma wf_tx_interrupt s u : is_u64 u -> Iface_wf s -> Iface_wf (Iface_handleTxInterrupt s u).
Proof. intros Hu Hs. apply wf_foldl; [|done]. intros. by apply wf_serve_mailbox. Qed.

Lemma wf_status_interrupt s : Iface_wf s -> Iface_wf (Iface_handleStatusChangeInterrupt s).
Proof.
  intros Hs. unfold Iface_handleStatusChangeInterrupt.
  pose proof (wf_rd (wr s MSR MSR_ERRI) ESR (wf_wr _ _ _ Hs)) as H1.
  destruct (rd _ ESR) as [v s1]. cbn [snd] in H1. destruct (negb _); [|done].
  apply wf_foldl.
  - intros s' m Hs'. unfold serve_abort. destruct (_ && _); [|done]. auto 10 with stm32.
  - apply wf_count_error, wf_wr, wf_set_lec; [|done].
    change ESR_LEC_MASK with (Z.shiftl (Z.ones 3) 4). unfold ESR_LEC_SHIFT.
    assert (Z.shiftr (Z.land v (Z.shiftl (Z.ones 3) 4)) 4 = Z.shiftr v 4 mod 2 ^ 3) as ->.
    { rewrite Z.shiftr_land, Z.shiftr_shiftl_l by lia. change (4 - 4) with 0.
      rewrite Z.shiftl_0_r. by apply Z.land_ones. }
    pose proof (Z.mod_pos_bound (Z.shiftr v 4) (2 ^ 3) ltac:(lia)).
    rewrite wrap_small; unfold in_width; lia.
Qed.

Lemma wf_discard s t : Iface_wf s -> Iface_wf (discardTimedOutTxMailboxes s t).
Proof.
  intros. apply wf_foldl; [|done].
  intros s' m Hs'. unfold discard_timed_out. destruct (_ && _); [|done]. auto 10 with stm32.
Qed.

Lemma wf_canAccept s f : Iface_wf s -> Iface_wf (canAcceptNewTxFrame s f).2.
Proof.
  intros Hs. unfold canAcceptNewTxFrame. pose proof (wf_rd s TSR Hs) as H1.
  destruct (rd s TSR) as [v s1]. by repeat destruct (Z.eqb _ _).
Qed.

(** ** Received frames *)

Lemma rd_u32 s r : is_u32 (rd s r).1.
Proof. unfold rd. pose proof (read_u32 (can_ s) r). by destruct (reg_read _ _). Qed.

Lemma rd_dlc s f : Z.land (rd s (RDTR f)).1 15 <= 8.
Proof. unfold rd. pose proof (read_dlc (can_ s) f). by destruct (reg_read _ _). Qed.

Lemma reg_byte_u8 v n : is_u8 (reg_byte v n).
Proof. by apply wrap_range. Qed.

Lemma land_mask_range n v : 0 <= n -> 0 <= Z.land (Z.ones n) v < 2 ^ n.
Proof. intros. rewrite Z.land_comm, Z.land_ones by done. apply Z.mod_pos_bound. lia. Qed.

Lemma land_lor_flag x y n k : 0 <= x < 2 ^ n -> 0 <= n <= k -> y = Z.shiftl 1 k -> Z.land (Z.lor x y) (Z.ones n) = x.
Proof.
  intros Hx Hn ->. rewrite Z.land_lor_distr_l, !Z.land_ones, Z.mod_small, Z.shiftl_1_l by lia.
  replace (2 ^ k) with (2 ^ (k - n) * 2 ^ n) by (rewrite <-Z.pow_add_r by lia; f_equal; lia).
  by rewrite Z.mod_mul, Z.lor_0_r by lia.
Qed.

Lemma frame_of_regs_wf ide id rtr dtr l0 l1 l2 l3 h0 h1 h2 h3 :
  Z.land dtr 15 <= 8 -> is_u32 dtr ->
  CanFrame_wf (frame_of_regs ide id rtr dtr l0 l1 l2 l3 h0 h1 h2 h3).
Proof.
  intros Hd Hu. pose proof (land_mask_range 11 (Z.shiftr id 21) ltac:(lia)) as Hstd.
  pose proof (land_mask_range 29 (Z.shiftr id 3) ltac:(lia)) as Hext.
  set (sid := Z.land (Z.ones 11) _) in *. set (eid := Z.land (Z.ones 29) _) in *.
  split; cbn [frame_of_regs can_id can_data can_dlc].
  - assert (is_u32 sid) by (unfold in_width; lia). assert (is_u32 eid) by (unfold in_width; lia).
    change (Z.land MaskStdID (Z.shiftr id 21)) with sid. change (Z.land MaskExtID (Z.shiftr id 3)) with eid.
    destruct (Z.land ide RIR_IDE =? 0), (negb _); repeat apply in_width_lor; try done.
  - done.
  - repeat constructor; apply wrap_range; lia.
  - split; [|done]. apply Z.land_nonneg. left. apply Hu.
  - unfold isExtended. cbn [frame_of_regs can_id].
    change (Z.land MaskStdID (Z.shiftr id 21)) with sid. change (Z.land MaskExtID (Z.shiftr id 3)) with eid.
    change MaskExtID with (Z.ones 29). change MaskStdID with 2047.
    destruct (Z.land ide RIR_IDE =? 0).
    + intros _. destruct (negb _).
      * rewrite (land_lor_flag sid FlagRTR 29 30) by (done || lia). lia.
      * rewrite Z.land_ones, Z.mod_small by lia. lia.
    + unfold FlagEFF. rewrite flag_testbit by lia.
      destruct (negb (Z.land rtr RIR_RTR =? 0)); rewrite !Z.lor_spec;
        change (Z.testbit (Z.shiftl 1 31) 31) with true; by rewrite ?orb_true_r.
Qed.

Lemma read_frame_wf s f : Iface_wf s -> CanFrame_wf (read_frame s f).1 /\ Iface_wf (read_frame s f).2.
Proof.
  intros Hs. unfold read_frame.
  do 3 (let x := fresh "v" in let Hx := fresh "Hs" in
    match goal with |- context [rd ?s0 ?r] => assert (Iface_wf (rd s0 r).2) as Hx by auto with stm32;
      destruct (rd s0 r) as [x ?]; cbn [snd] in Hx end).
  match goal with |- context [rd ?s0 (RDTR f)] => pose proof (rd_u32 s0 (RDTR f)) as Hu; pose proof (rd_dlc s0 f) as Hd;
    assert (Iface_wf (rd s0 (RDTR f)).2) as Hs4 by auto with stm32; destruct (rd s0 (RDTR f)) as [dtr ?] end.
  cbn [fst snd] in *.
  do 8 (let x := fresh "v" in let Hx := fresh "Hs" in
    match goal with |- context [rd ?s0 ?r] => assert (Iface_wf (rd s0 r).2) as Hx by auto with stm32;
      destruct (rd s0 r) as [x ?]; cbn [snd] in Hx end).
  split; [|done]. by apply frame_of_regs_wf.
Qed.

Lemma wf_rx_interrupt s f u : is_u64 u -> Iface_wf s -> Iface_wf (Iface_handleRxInterrupt s f u).
Proof.
  intros Hu Hs. unfold Iface_handleRxInterrupt.
  pose proof (wf_rd s (rfr_reg f) Hs) as H1. destruct (rd s _) as [v1 s1]. cbn [snd] in H1.
  destruct (Z.eqb _ _); [done|].
  pose proof (wf_rd s1 (rfr_reg f) H1) as H2. destruct (rd s1 _) as [v2 s2]. cbn [snd] in H2.
  assert (Iface_wf (if negb (Z.land v2 RFR_FOVR =? 0) then count_error s2 else s2)) as H3
    by (destruct (negb _); auto with stm32).
  destruct (read_frame_wf _ f H3) as [Hf H4]. destruct (read_frame _ f) as [fr s4]. cbn [fst snd] in *.
  apply wf_set_activity, wf_push; [|by auto with stm32]. split; [done|done|by left].
Qed.

End wf.

(** ** From the mailbox of one node to the FIFO of another *)

(** The registers [send] leaves in the mailbox it takes. *)
Definition tx_mailbox_of (f : CanFrame) : TxMailboxType :=
  mkTxMailbox
    (Z.lor (if isRemoteTransmissionRequest f then Z.lor (frame_tir f) TIR_RTR else frame_tir f) TIR_TXRQ)
    (can_dlc f) (frame_tdlr f) (frame_tdhr f).

(** Byte [i] of the data registers. *)
Definition data_byte (lo hi : Z) (i : nat) : Z :=
  if (i <? 4)%nat then reg_byte lo (8 * Z.of_nat i) else reg_byte hi (8 * Z.of_nat i - 32).

(** What the bus carries from a transmission mailbox to a reception FIFO: the
    identifier with its IDE and RTR bits, the data length code, and that many
    bytes. Of a standard frame 11 identifier bits are sent. *)
Record carried (tx : TxMailboxType) (rx : RxMailboxType) : Prop := {
  carried_flags i : 1 <= i <= 2 -> Z.testbit (mb_RIR rx) i = Z.testbit (mb_TIR tx) i;
  carried_base i : 21 <= i < 32 -> Z.testbit (mb_RIR rx) i = Z.testbit (mb_TIR tx) i;
  carried_ext i : Z.testbit (mb_TIR tx) 2 = true -> 3 <= i < 21 ->
    Z.testbit (mb_RIR rx) i = Z.testbit (mb_TIR tx) i;
  carried_dlc : Z.land (mb_RDTR rx) 15 = Z.land (mb_TDTR tx) 15;
  carried_data i : Z.of_nat i < Z.land (mb_TDTR tx) 15 -> (i < 8)%nat ->
    data_byte (mb_RDLR rx) (mb_RDHR rx) i = data_byte (mb_TDLR tx) (mb_TDHR tx) i
}.

(** The frame a FIFO holds. *)
Definition frame_in (rx : RxMailboxType) : CanFrame :=
  let i := mb_RIR rx in let l := mb_RDLR rx in let h := mb_RDHR rx in
  frame_of_regs i i i (mb_RDTR rx) l l l l h h h h.

Lemma land_bit x n : 0 <= n -> (Z.land x (bit n) =? 0) = negb (Z.testbit x n).
Proof.
  intros Hn. unfold bit. pose proof (flag_testbit x n Hn) as E. unfold flag_set in E.
  rewrite <-E. by rewrite negb_involutive.
Qed.

Lemma testbit_u32 x i : Z.testbit (u32 x) i = (i <? 32) && Z.testbit x i.
Proof. apply in_width_wrap_testbit. lia. Qed.

Lemma testbit_land_mask n x i : 0 <= i -> 0 <= n -> Z.testbit (Z.land (Z.ones n) x) i = (i <? n) && Z.testbit x i.
Proof. intros. by rewrite Z.land_spec, Z.testbit_ones_nonneg. Qed.

Lemma testbit_bit n i : 0 <= n -> 0 <= i -> Z.testbit (bit n) i = (n =? i).
Proof. intros. unfold bit. by rewrite Z.shiftl_1_l, Z.pow2_bits_eqb. Qed.

Lemma byte_bit_out d i : is_u8 d -> i < 0 \/ 8 <= i -> Z.testbit d i = false.
Proof. intros Hd [Hi|Hi]; [by apply Z.testbit_neg_r|by apply (in_width_testbit 8)]. Qed.

Lemma reg_byte_bit v n i : 0 <= n -> 0 <= i -> Z.testbit (reg_byte v n) i = (i <? 8) && Z.testbit v (i + n).
Proof.
  intros Hn Hi. unfold reg_byte. rewrite in_width_wrap_testbit, Z.land_spec, Z.shiftr_spec by lia.
  change 255 with (Z.ones 8). rewrite Z.testbit_ones_nonneg by lia. by destruct (Z.ltb_spec i 8).
Qed.

Lemma data_word_bit d0 d1 d2 d3 i :
  is_u8 d0 -> is_u8 d1 -> is_u8 d2 -> is_u8 d3 -> 0 <= i < 32 ->
  Z.testbit (data_word d0 d1 d2 d3) i =
  Z.testbit (if i <? 8 then d0 else if i <? 16 then d1 else if i <? 24 then d2 else d3) (i mod 8).
Proof.
  intros H0 H1 H2 H3 Hi. unfold data_word.
  rewrite !Z.lor_spec, !testbit_u32, !Z.shiftl_spec by lia. rewrite (proj2 (Z.ltb_lt i 32)) by lia.
  cbn [andb]. rewrite Z.sub_0_r.
  pose proof (Z.div_mod i 8 ltac:(lia)). pose proof (Z.mod_pos_bound i 8 ltac:(lia)).
  destruct (Z.ltb_spec i 8); [|destruct (Z.ltb_spec i 16); [|destruct (Z.ltb_spec i 24)]].
  - rewrite (byte_bit_out d3), (byte_bit_out d2), (byte_bit_out d1) by (done || lia). cbn [orb]. f_equal. lia.
  - rewrite (byte_bit_out d3), (byte_bit_out d2), (byte_bit_out d0), orb_false_r by (done || lia). cbn [orb]. f_equal. lia.
  - rewrite (byte_bit_out d3), (byte_bit_out d1), (byte_bit_out d0), !orb_false_r by (done || lia). cbn [orb]. f_equal. lia.
  - rewrite (byte_bit_out d2), (byte_bit_out d1), (byte_bit_out d0), !orb_false_r by (done || lia). f_equal. lia.
Qed.

Lemma data_word_byte d0 d1 d2 d3 k :
  is_u8 d0 -> is_u8 d1 -> is_u8 d2 -> is_u8 d3 -> (k < 4)%nat ->
  reg_byte (data_word d0 d1 d2 d3) (8 * Z.of_nat k) = nth k [d0; d1; d2; d3] 0.
Proof.
  intros H0 H1 H2 H3 Hk. apply Z.bits_inj'. intros i Hi. rewrite reg_byte_bit by lia.
  assert (is_u8 (nth k [d0; d1; d2; d3] 0)) as Hu by (do 4 (destruct k as [|k]; [done|]); lia).
  destruct (Z.ltb_spec i 8); [|by rewrite (byte_bit_out _ _ Hu) by lia]. cbn [andb].
  rewrite data_word_bit by (done || lia).
  replace ((i + 8 * Z.of_nat k) mod 8) with i
    by (rewrite (Z.mul_comm 8), Z.mod_add by lia; symmetry; apply Z.mod_small; lia).
  f_equal. do 4 (destruct k as [|k]; [repeat match goal with |- context [?a <? ?b] => destruct (Z.ltb_spec a b); [|] end; try lia; reflexivity|]). lia.
Qed.

(** The data registers hold the eight bytes. *)
Lemma frame_data_byte f i :
  CanFrame_wf f -> (i < 8)%nat -> data_byte (frame_tdlr f) (frame_tdhr f) i = nth i (can_data f) 0.
Proof.
  intros [_ Hl Hb _ _] Hi. unfold MaxDataLen in Hl.
  assert (forall k, is_u8 (nth k (can_data f) 0)) as Hu.
  { intros k. rewrite nth_lookup. destruct (can_data f !! k) eqn:E; cbn [from_option id]; [|done].
    by eapply Forall_lookup_1. }
  unfold data_byte, frame_tdlr, frame_tdhr. destruct (Nat.ltb_spec i 4).
  - rewrite data_word_byte by (done || apply Hu). do 4 (destruct i as [|i]; [done|]). lia.
  - replace (8 * Z.of_nat i - 32) with (8 * Z.of_nat (i - 4)) by lia.
    rewrite data_word_byte by (done || apply Hu || lia).
    do 4 (destruct i as [|i]; [lia|]). replace (S (S (S (S i))) - 4)%nat with i by lia.
    do 4 (destruct i as [|i]; [done|]). lia.
Qed.

(** The bits of the identifier register. *)
Lemma tx_tir_bit f i :
  0 < i < 32 ->
  Z.testbit (mb_TIR (tx_mailbox_of f)) i =
  if i =? 1 then isRemoteTransmissionRequest f
  else if i =? 2 then isExtended f
  else if isExtended f then Z.testbit (can_id f) (i - 3)
  else (21 <=? i) && Z.testbit (can_id f) (i - 21).
Proof.
  intros Hi. cbn [tx_mailbox_of mb_TIR]. rewrite Z.lor_spec. unfold TIR_TXRQ. rewrite testbit_bit by lia.
  destruct (Z.eqb_spec 0 i); [lia|]. rewrite orb_false_r.
  assert (Z.testbit (frame_tir f) i =
    if i =? 1 then false else if i =? 2 then isExtended f
    else if isExtended f then Z.testbit (can_id f) (i - 3)
    else (21 <=? i) && Z.testbit (can_id f) (i - 21)) as Et.
  { unfold frame_tir, TIR_IDE. destruct (isExtended f).
    - rewrite Z.lor_spec, testbit_u32, Z.shiftl_spec, testbit_bit, Z.land_comm by lia.
      rewrite (proj2 (Z.ltb_lt i 32)) by lia. cbn [andb]. change MaskExtID with (Z.ones 29).
      destruct (Z.eqb_spec i 1) as [->|]; [reflexivity|]. destruct (Z.eqb_spec i 2) as [->|]; [reflexivity|].
      rewrite testbit_land_mask by lia. rewrite (proj2 (Z.ltb_lt (i - 3) 29)) by lia.
      destruct (Z.eqb_spec 2 i); [lia|]. apply orb_false_r.
    - rewrite testbit_u32, Z.shiftl_spec, Z.land_comm by lia.
      rewrite (proj2 (Z.ltb_lt i 32)) by lia. cbn [andb]. change MaskStdID with (Z.ones 11).
      destruct (Z.leb_spec 21 i).
      + destruct (Z.eqb_spec i 1); [lia|]. destruct (Z.eqb_spec i 2); [lia|].
        rewrite testbit_land_mask by lia. by rewrite (proj2 (Z.ltb_lt (i - 21) 11)) by lia.
      + rewrite Z.testbit_neg_r by lia. by destruct (i =? 1), (i =? 2). }
  destruct (isRemoteTransmissionRequest f).
  - rewrite Z.lor_spec, Et. unfold TIR_RTR. rewrite testbit_bit by lia. rewrite (Z.eqb_sym 1 i).
    destruct (Z.eqb_spec i 1) as [->|]; [done|apply orb_false_r].
  - rewrite Et. by destruct (Z.eqb_spec i 1).
Qed.

Lemma isExtended_bit f : isExtended f = Z.testbit (can_id f) 31.
Proof. apply flag_testbit. lia. Qed.
Lemma isRTR_bit f : isRemoteTransmissionRequest f = Z.testbit (can_id f) 30.
Proof. apply flag_testbit. lia. Qed.
Lemma isError_bit f : isErrorFrame f = Z.testbit (can_id f) 29.
Proof. apply flag_testbit. lia. Qed.

(** Of a standard frame the identifier has 11 bits. *)
Lemma std_id_bit f i :
  CanFrame_wf f -> isExtended f = false -> 11 <= i < 29 -> Z.testbit (can_id f) i = false.
Proof.
  intros Hf Ex Hr. pose proof (cwf_std f Hf Ex) as Hstd. rewrite <-(andb_true_r (Z.testbit _ i)).
  rewrite <-(Z.ones_spec_low 29 i) by lia. rewrite <-Z.land_spec.
  apply (in_width_testbit 11); [|lia]. split; [apply clean_id_range|].
  change (Z.ones 29) with MaskExtID. unfold MaskStdID in Hstd. lia.
Qed.

(** The identifier without the RTR flag. *)
Lemma received_base f rx i :
  CanFrame_wf f -> carried (tx_mailbox_of f) rx -> 0 <= i ->
  Z.testbit (if negb (isExtended f) then Z.land MaskStdID (Z.shiftr (mb_RIR rx) 21)
             else Z.lor (Z.land MaskExtID (Z.shiftr (mb_RIR rx) 3)) FlagEFF) i =
  if i <? 29 then Z.testbit (can_id f) i else (i =? 31) && isExtended f.
Proof.
  intros Hf Hc Hi. change MaskExtID with (Z.ones 29). change MaskStdID with (Z.ones 11).
  destruct (isExtended f) eqn:Ex; cbn [negb].
  - rewrite Z.lor_spec, testbit_land_mask, Z.shiftr_spec by lia.
    change FlagEFF with (bit 31). rewrite testbit_bit, (Z.eqb_sym 31 i) by lia.
    destruct (Z.ltb_spec i 29); cbn [andb orb]; [|by rewrite andb_true_r].
    destruct (Z.eqb_spec i 31); [lia|]. rewrite orb_false_r.
    assert (Z.testbit (mb_TIR (tx_mailbox_of f)) 2 = true) as E2 by (rewrite tx_tir_bit by lia; exact Ex).
    assert (Z.testbit (mb_RIR rx) (i + 3) = Z.testbit (mb_TIR (tx_mailbox_of f)) (i + 3)) as ->.
    { destruct (decide (i + 3 < 21)); [apply (carried_ext _ _ Hc); [exact E2|lia]|apply (carried_base _ _ Hc); lia]. }
    rewrite tx_tir_bit, Ex by lia. destruct (Z.eqb_spec (i + 3) 1); [lia|].
    destruct (Z.eqb_spec (i + 3) 2); [lia|]. f_equal. lia.
  - rewrite testbit_land_mask, Z.shiftr_spec, andb_false_r by lia.
    destruct (Z.ltb_spec i 11); cbn [andb].
    + rewrite (proj2 (Z.ltb_lt i 29)) by lia. rewrite (carried_base _ _ Hc), tx_tir_bit, Ex by lia.
      destruct (Z.eqb_spec (i + 21) 1); [lia|]. destruct (Z.eqb_spec (i + 21) 2); [lia|].
      destruct (Z.leb_spec 21 (i + 21)); [|lia]. cbn [andb]. f_equal. lia.
    + destruct (Z.ltb_spec i 29); [|done]. symmetry. by apply std_id_bit; [done..|].
Qed.

(** The identifier arrives with its flags. *)
Lemma received_id f rx :
  CanFrame_wf f -> isErrorFrame f = false -> carried (tx_mailbox_of f) rx ->
  can_id (frame_in rx) = can_id f.
Proof.
  intros Hf He Hc. pose proof (cwf_id f Hf) as Hu. rewrite isError_bit in He.
  assert (Z.testbit (mb_RIR rx) 1 = isRemoteTransmissionRequest f) as E1.
  { rewrite (carried_flags _ _ Hc), tx_tir_bit by lia. reflexivity. }
  assert (Z.testbit (mb_RIR rx) 2 = isExtended f) as E2.
  { rewrite (carried_flags _ _ Hc), tx_tir_bit by lia. reflexivity. }
  cbn [frame_in frame_of_regs can_id]. unfold RIR_IDE, RIR_RTR.
  rewrite !land_bit, negb_involutive, E1, E2 by lia. clear E1 E2.
  apply Z.bits_inj'. intros i Hi. pose proof (received_base f rx i Hf Hc Hi) as Eb.
  generalize dependent (if negb (isExtended f) then Z.land MaskStdID (Z.shiftr (mb_RIR rx) 21)
             else Z.lor (Z.land MaskExtID (Z.shiftr (mb_RIR rx) 3)) FlagEFF). intros base Eb.
  assert (Z.testbit (if isRemoteTransmissionRequest f then Z.lor base FlagRTR else base) i =
          Z.testbit base i || (isRemoteTransmissionRequest f && (i =? 30))) as ->.
  { destruct (isRemoteTransmissionRequest f); [|by rewrite orb_false_r].
    rewrite Z.lor_spec. change FlagRTR with (bit 30). by rewrite testbit_bit, (Z.eqb_sym 30 i) by lia. }
  rewrite Eb, isRTR_bit, isExtended_bit.
  destruct (Z.ltb_spec i 29); [destruct (Z.eqb_spec i 30); [lia|]; by rewrite andb_false_r, orb_false_r|].
  destruct (decide (i = 29)) as [->|]; [rewrite He; by rewrite andb_false_r|].
  destruct (decide (i = 30)) as [->|]; [by rewrite andb_true_r|].
  destruct (decide (i = 31)) as [->|]; [by rewrite andb_false_r, orb_false_r|].
  rewrite (in_width_testbit 32 (can_id f) i) by (exact Hu || lia).
  destruct (Z.eqb_spec i 31), (Z.eqb_spec i 30); lia.
Qed.

(** The whole frame arrives, but for the bytes past its length. *)
Lemma received_frame f rx :
  CanFrame_wf f -> isErrorFrame f = false -> carried (tx_mailbox_of f) rx ->
  can_id (frame_in rx) = can_id f /\ can_dlc (frame_in rx) = can_dlc f /\
  can_payload (frame_in rx) = can_payload f.
Proof.
  intros Hf He Hc. split; [by apply received_id|].
  pose proof (cwf_dlc f Hf) as Hd.
  assert (Z.land (can_dlc f) 15 = can_dlc f) as El.
  { change 15 with (Z.ones 4). rewrite Z.land_ones by lia. apply Z.mod_small. lia. }
  assert (can_dlc (frame_in rx) = can_dlc f) as Ed by (rewrite <-El; exact (carried_dlc _ _ Hc)).
  split; [done|]. unfold can_payload. rewrite Ed. apply list_eq. intros i.
  destruct (decide (i < Z.to_nat (can_dlc f))%nat) as [Hi|Hi].
  2:{ rewrite !lookup_take_ge by lia. done. }
  rewrite !lookup_take_lt by lia.
  assert (nth i (can_data (frame_in rx)) 0 = nth i (can_data f) 0) as En.
  { rewrite <-(frame_data_byte f i) by (done || lia).
    etransitivity; [|apply (carried_data _ _ Hc); [cbn [tx_mailbox_of mb_TDTR]; lia|lia]].
    do 8 (destruct i as [|i]; [reflexivity|]). lia. }
  pose proof (cwf_data f Hf) as Hl. unfold MaxDataLen in Hl.
  rewrite !nth_lookup in En.
  destruct (lookup_lt_is_Some_2 (can_data f) i ltac:(lia)) as [x Ex].
  destruct (lookup_lt_is_Some_2 (can_data (frame_in rx)) i ltac:(cbn; lia)) as [y Ey].
  rewrite Ex, Ey in En |- *. cbn [from_option id] in En. by subst.
Qed.

Section device.
Context {D : Type} `{BxCanLaws D}.
Abbreviation Iface := (CanIface D).
Implicit Types s : Iface.

Lemma rd_can s r : can_ (rd s r).2 = (reg_read (can_ s) r).2 /\ (rd s r).1 = (reg_read (can_ s) r).1.
Proof. unfold rd. by destruct (reg_read _ _). Qed.

Lemma rd_pending s r : pending_tx_ (rd s r).2 = pending_tx_ s.
Proof. unfold rd. by destruct (reg_read _ _). Qed.

(** The controller after [n] readings of TSR, and whether the reading number [m] says that mailbox [m] is empty. *)
Fixpoint after_reads (d : D) (n : nat) : D := match n with O => d | S n => (reg_read (after_reads d n) TSR).2 end.
Definition reports_empty (d : D) (m : nat) : Prop := Z.land (reg_read (after_reads d m) TSR).1 (TSR_TME m) = TSR_TME m.

Lemma find_mailbox_ok s0 n : forall k s, s = set_can s0 (after_reads (can_ s0) k) -> (k + n <= NumTxMailboxes)%nat ->
  match find_mailbox s (seq k n) with
  | (None, s') => s' = set_can s0 (after_reads (can_ s0) (k + n)) /\ forall m, (k <= m < k + n)%nat -> ~ reports_empty (can_ s0) m
  | (Some m, s') => s' = set_can s0 (after_reads (can_ s0) (S m)) /\ (k <= m < k + n)%nat /\ reports_empty (can_ s0) m /\
      (forall j, (k <= j < m)%nat -> ~ reports_empty (can_ s0) j) /\ tx_free (can_ s') m = true
  end.
Proof.
  induction n as [|n IH]; intros k s Hs Hk; cbn [seq find_mailbox].
  - split; [by rewrite Nat.add_0_r|]. intros m Hm. lia.
  - assert (Er : rd s TSR = ((reg_read (after_reads (can_ s0) k) TSR).1, set_can s0 (after_reads (can_ s0) (S k)))).
    { subst s. unfold rd. cbn [set_can can_ after_reads]. by destruct (reg_read (after_reads (can_ s0) k) TSR). }
    rewrite Er. clear Er. destruct (Z.eqb_spec (Z.land (reg_read (after_reads (can_ s0) k) TSR).1 (TSR_TME k)) (TSR_TME k)) as [E|E].
    + split_and!; [done|lia|lia|exact E|intros j Hj; lia|]. cbn [set_can can_ after_reads]. apply read_tme; [lia|exact E].
    + specialize (IH (S k) (set_can s0 (after_reads (can_ s0) (S k))) eq_refl ltac:(lia)).
      destruct (find_mailbox (set_can s0 (after_reads (can_ s0) (S k))) (seq (S k) n)) as [[m|] s'].
      * destruct IH as (H1 & H2 & H3 & H4 & H5). split_and!; [done|lia|lia|done| |done]. intros j Hj. destruct (decide (j = k)) as [->|]; [exact E|apply H4; lia].
      * destruct IH as [H1 H2]. rewrite <-plus_n_Sm. split; [done|]. intros m Hm. destruct (decide (m = k)) as [->|]; [exact E|apply H2; lia].
Qed.

(** Writing a register of the mailbox that is being set up. *)
Lemma wr_mailbox s m r v b b' :
  is_u32 v -> tx_free (can_ s) m = true -> tx_regs (can_ s) m = b -> mailbox_write m r v b = Some b' ->
  tx_regs (can_ (wr s r v)) m = b' /\
  (Z.testbit (mb_TIR b') 0 = false -> tx_free (can_ (wr s r v)) m = true).
Proof. intros Hv Hfree <- Hw. exact (write_tx (can_ s) r v m b' Hv Hfree Hw). Qed.

Lemma or_mailbox s m v b :
  is_u32 v -> tx_free (can_ s) m = true -> tx_regs (can_ s) m = b ->
  let b' := mkTxMailbox (Z.lor (mb_TIR b) v) (mb_TDTR b) (mb_TDLR b) (mb_TDHR b) in
  tx_regs (can_ (reg_or s (TIR m) v)) m = b' /\
  (Z.testbit (mb_TIR b') 0 = false -> tx_free (can_ (reg_or s (TIR m) v)) m = true).
Proof.
  intros Hv Hfree <-. unfold reg_or. destruct (rd_can s (TIR m)) as [Ec Ev].
  pose proof (read_u32 (can_ s) (TIR m)) as Hu. rewrite <-Ev in Hu.
  destruct (read_tx_keeps (can_ s) (TIR m) m Hfree) as [Hfree' Hregs].
  rewrite (read_tir (can_ s) m Hfree) in Ev. destruct (rd s (TIR m)) as [x s1]. cbn [fst snd] in *. subst x.
  apply (wr_mailbox s1 m (TIR m) _ (tx_regs (can_ s) m)); rewrite ?Ec; try done; [by apply in_width_lor|].
  cbn [mailbox_write]. by rewrite decide_True.
Qed.

Lemma frame_tir_no_txrq f : Z.testbit (frame_tir f) 0 = false.
Proof.
  unfold frame_tir. case_match; rewrite ?Z.lor_spec, ?testbit_u32, Z.shiftl_spec, Z.testbit_neg_r by lia; done.
Qed.

Lemma data_word_u32 d0 d1 d2 d3 : is_u8 d0 -> is_u32 (data_word d0 d1 d2 d3).
Proof.
  intros Hd. unfold data_word. rewrite Z.shiftl_0_r.
  repeat apply in_width_lor; try lia; try (apply wrap_range; lia). apply (in_width_mono 8); [lia|done].
Qed.

Lemma can_data_u8 f k : CanFrame_wf f -> is_u8 (nth k (can_data f) 0).
Proof.
  intros [_ _ Hb _ _]. rewrite nth_lookup. destruct (can_data f !! k) eqn:E; cbn [from_option id]; [|done].
  by eapply Forall_lookup_1.
Qed.

Lemma frame_tir_u32 f : is_u32 (frame_tir f).
Proof. unfold frame_tir. case_match; [apply in_width_lor; [lia| |done]|]; apply wrap_range; lia. Qed.

Lemma fill_mailbox_ok s m f :
  CanFrame_wf f -> tx_free (can_ s) m = true ->
  tx_regs (can_ (fill_mailbox s m f)) m = tx_mailbox_of f.
Proof.
  intros Hf Hfree. unfold fill_mailbox. destruct (tx_regs (can_ s) m) as [t0 t1 t2 t3] eqn:E0.
  set (tir := if isRemoteTransmissionRequest f then Z.lor (frame_tir f) TIR_RTR else frame_tir f).
  pose proof (frame_tir_no_txrq f) as Hno.
  assert (is_u32 (can_dlc f)) as Hdlc by (pose proof (cwf_dlc f Hf); unfold in_width; lia).
  assert (is_u32 (frame_tdhr f)) as Hhi by (apply data_word_u32, can_data_u8, Hf).
  assert (is_u32 (frame_tdlr f)) as Hlo by (apply data_word_u32, can_data_u8, Hf).
  assert (Z.testbit tir 0 = false) as Htir
    by (unfold tir; case_match; [rewrite Z.lor_spec, Hno; reflexivity|done]).
  destruct (wr_mailbox s m (TIR m) (frame_tir f) _ (mkTxMailbox (frame_tir f) t1 t2 t3) (frame_tir_u32 f) Hfree E0
    ltac:(cbn; by rewrite decide_True)) as [E1 F1]. specialize (F1 Hno).
  assert (exists s1, (if isRemoteTransmissionRequest f then reg_or (wr s (TIR m) (frame_tir f)) (TIR m) TIR_RTR
            else wr s (TIR m) (frame_tir f)) = s1 /\ tx_regs (can_ s1) m = mkTxMailbox tir t1 t2 t3 /\
            tx_free (can_ s1) m = true) as (s1 & -> & E2 & F2).
  { eexists. split; [reflexivity|]. unfold tir in *. destruct (isRemoteTransmissionRequest f); [|done].
    destruct (or_mailbox _ m TIR_RTR _ ltac:(done) F1 E1) as [E2 F2]. split; [exact E2|exact (F2 Htir)]. }
  destruct (wr_mailbox s1 m (TDTR m) (can_dlc f) _ (mkTxMailbox tir (can_dlc f) t2 t3) Hdlc F2 E2
    ltac:(cbn; by rewrite decide_True)) as [E3 F3]. specialize (F3 Htir).
  destruct (wr_mailbox _ m (TDHR m) (frame_tdhr f) _ (mkTxMailbox tir (can_dlc f) t2 (frame_tdhr f)) Hhi F3 E3
    ltac:(cbn; by rewrite decide_True)) as [E4 F4]. specialize (F4 Htir).
  destruct (wr_mailbox _ m (TDLR m) (frame_tdlr f) _ (mkTxMailbox tir (can_dlc f) (frame_tdlr f) (frame_tdhr f)) Hlo F4 E4
    ltac:(cbn; by rewrite decide_True)) as [E5 F5]. specialize (F5 Htir).
  destruct (or_mailbox _ m TIR_TXRQ _ ltac:(done) F5 E5) as [E6 _]. exact E6.
Qed.

Lemma reg_or_pending s r v : pending_tx_ (reg_or s r v) = pending_tx_ s.
Proof. unfold reg_or. pose proof (rd_pending s r). by destruct (rd s r). Qed.

Lemma fill_mailbox_pending s m f : pending_tx_ (fill_mailbox s m f) = pending_tx_ s.
Proof.
  unfold fill_mailbox. rewrite reg_or_pending. cbn [wr set_can pending_tx_].
  case_match; [by rewrite reg_or_pending|done].
Qed.

Lemma send_ok s f dl fl :
  (can_dlc f <= 8 -> CanFrame_wf f) -> length (pending_tx_ s) = NumTxMailboxes ->
  let '(r, s') := Iface_send s f dl fl in
  (r = - StmErr.ErrUnsupportedFrame /\ s' = s /\ (isErrorFrame f = true \/ 8 < can_dlc f)) \/
  isErrorFrame f = false /\ CanFrame_wf f /\
  ((r = 0 /\ s' = set_can s (after_reads (can_ s) NumTxMailboxes) /\ forall m, (m < NumTxMailboxes)%nat -> ~ reports_empty (can_ s) m) \/
   (r = 1 /\ exists m, (m < NumTxMailboxes)%nat /\ reports_empty (can_ s) m /\ (forall k, (k < m)%nat -> ~ reports_empty (can_ s) k) /\
     tx_regs (can_ s') m = tx_mailbox_of f /\
     item_at s' m = mkTxItem dl f true (negb (Z.land fl CanIOFlagLoopback =? 0))
                                       (negb (Z.land fl CanIOFlagAbortOnError =? 0)) /\
     forall k, k <> m -> item_at s' k = item_at s k)).
Proof.
  intros Hwf Hl. unfold Iface_send. destruct (isErrorFrame f) eqn:Ee; [left; split; [done|split; [done|by left]]|]. cbn [orb].
  destruct (Z.ltb_spec 8 (can_dlc f)) as [|Hd]; [left; split; [done|split; [done|by right]]|]. pose proof (Hwf Hd) as Hf.
  assert (Hs0 : s = set_can s (after_reads (can_ s) 0)) by (by destruct s). pose proof (find_mailbox_ok s NumTxMailboxes 0 s Hs0 ltac:(lia)) as Hfm.
  destruct (find_mailbox s _) as [[m|] s1]; right; (split; [done|split; [done|]]); [right|left; destruct Hfm as [-> Hfm]; split; [done|split; [done|intros m Hm; apply Hfm; lia]]].
  destruct Hfm as (E1 & Hm & Hrep & Hbefore & Hfree). split; [done|]. exists m. split_and!; [lia|done|intros k Hk; apply Hbefore; lia|by apply fill_mailbox_ok| |].
  all: unfold item_at; cbn [set_pending pending_tx_]; rewrite fill_mailbox_pending; cbn [set_peak pending_tx_]; rewrite E1; cbn [set_can pending_tx_].
  - rewrite nth_lookup, list_lookup_insert_eq by (rewrite Hl; lia). reflexivity.
  - intros k Hk. by rewrite !nth_lookup, list_lookup_insert_ne by done.
Qed.

(** Reading a register of a FIFO that holds a frame. *)
Lemma rd_fifo s f b r :
  rx_regs (can_ s) f = Some b -> rx_regs (can_ (rd s r).2) f = Some b /\ rx_queue_ (rd s r).2 = rx_queue_ s.
Proof.
  intros E. destruct (rd_can s r) as [-> _]. split; [by apply read_rx_keeps|].
  unfold rd. by destruct (reg_read _ _).
Qed.

Lemma read_frame_ok s f b :
  rx_regs (can_ s) f = Some b ->
  (read_frame s f).1 = frame_in b /\ rx_queue_ (read_frame s f).2 = rx_queue_ s.
Proof.
  intros E. unfold read_frame.
  do 12 match goal with E : rx_regs (can_ ?s0) f = Some b |- context [rd ?s0 ?r] =>
    let E' := fresh "E" in let Q := fresh "Q" in let V := fresh "V" in
    destruct (rd_fifo s0 f b r E) as [E' Q]; destruct (rd_can s0 r) as [_ V];
    rewrite ?(proj1 (read_rx (can_ s0) f b E)), ?(proj1 (proj2 (read_rx (can_ s0) f b E))),
      ?(proj1 (proj2 (proj2 (read_rx (can_ s0) f b E)))), ?(proj2 (proj2 (proj2 (read_rx (can_ s0) f b E)))) in V;
    destruct (rd s0 r) as [? ?]; cbn [fst snd] in E', Q, V; subst; clear E end.
  cbn [fst snd]. split; [reflexivity|congruence].
Qed.

Lemma rx_interrupt_ok s f b u :
  rx_regs (can_ s) f = Some b ->
  rx_queue_ (Iface_handleRxInterrupt s f u) = RxQueue_push (rx_queue_ s) (frame_in b) u 0.
Proof.
  intros E. unfold Iface_handleRxInterrupt.
  destruct (rd_fifo s f b (rfr_reg f) E) as [E1 Q1]. destruct (rd_can s (rfr_reg f)) as [_ V1].
  pose proof (read_fmp (can_ s) f b E) as Hfmp. rewrite <-V1 in Hfmp.
  destruct (rd s (rfr_reg f)) as [v1 s1]. cbn [fst snd] in *.
  destruct (Z.eqb_spec (Z.land v1 RFR_FMP_MASK) 0); [done|].
  destruct (rd_fifo s1 f b (rfr_reg f) E1) as [E2 Q2]. destruct (rd s1 (rfr_reg f)) as [v2 s2]. cbn [snd] in *.
  set (s3 := if negb (Z.land v2 RFR_FOVR =? 0) then count_error s2 else s2).
  assert (rx_regs (can_ s3) f = Some b /\ rx_queue_ s3 = rx_queue_ s2) as [E3 Q3]
    by (unfold s3; by case_match).
  destruct (read_frame_ok s3 f b E3) as [Ef Q4]. destruct (read_frame s3 f) as [fr s4]. cbn [fst snd] in *.
  cbn [set_activity set_rx wr set_can rx_queue_]. rewrite Ef, Q4, Q3, Q2, Q1. reflexivity.
Qed.

End device.

Section bus.
Context {D1 : Type} `{L1 : BxCanLaws D1} {D2 : Type} `{L2 : BxCanLaws D2}.

(** C21: a frame crosses the bus. [send] refuses error frames and frames of more
    than eight bytes and then does nothing; for other frames it answers 0, having done nothing but read the status register, when each of its readings says that the
    mailbox it asks for is not empty, and otherwise puts the
    frame in the first mailbox reported empty and remembers it there, with its deadline and
    flags, without touching what it remembers of the other mailboxes. When the bus carries that mailbox to a
    reception FIFO of another node, the interrupt there appends to its reception
    queue a frame that is equal to the one sent, as [CanFrame::operator==] has it. *)
Theorem stm32_frame_crosses_the_bus (a : CanIface D1) (b : CanIface D2) f dl fl fifo utc :
  Iface_wf a -> Iface_wf b -> (can_dlc f <= 8 -> CanFrame_wf f) ->
  let '(r, a') := Iface_send a f dl fl in
  (r = - StmErr.ErrUnsupportedFrame /\ a' = a /\ (isErrorFrame f = true \/ 8 < can_dlc f)) \/
  isErrorFrame f = false /\ can_dlc f <= 8 /\
  ((r = 0 /\ a' = set_can a (after_reads (can_ a) NumTxMailboxes) /\ forall m, (m < NumTxMailboxes)%nat -> ~ reports_empty (can_ a) m) \/
   (r = 1 /\ exists m, (m < NumTxMailboxes)%nat /\ reports_empty (can_ a) m /\ (forall k, (k < m)%nat -> ~ reports_empty (can_ a) k) /\
     item_at a' m = mkTxItem dl f true (negb (Z.land fl CanIOFlagLoopback =? 0))
                                       (negb (Z.land fl CanIOFlagAbortOnError =? 0)) /\
     (forall k, k <> m -> item_at a' k = item_at a k) /\
     forall rx, carried (tx_regs (can_ a') m) rx -> rx_regs (can_ b) fifo = Some rx ->
       exists g, rx_view (rx_queue_ (Iface_handleRxInterrupt b fifo utc)) =
                   spec_push (capacity_ (rx_queue_ b)) (rx_view (rx_queue_ b)) (mkRxItem utc g 0) /\
                 CanFrame_eqb g f = true)).
Proof.
  intros Ha Hb Hf. pose proof (send_ok a f dl fl Hf (if_mailboxes a Ha)) as Hs.
  destruct (Iface_send a f dl fl) as [r a'].
  destruct Hs as [Hs|(He & Hw & [Hs|(-> & m & Hm & Hr & Hbe & Er & Ei & Eo)])]; [by left| |]; right; pose proof (cwf_dlc f Hw); (split; [done|split; [lia|]]); [by left|right].
  split; [done|]. exists m. do 5 (split; [done|]). intros rx Hc Hrx. rewrite Er in Hc.
  exists (frame_in rx). rewrite (rx_interrupt_ok b fifo rx utc Hrx).
  split; [by apply rx_push_ok; destruct Hb|].
  destruct (received_frame f rx Hw He Hc) as (Ei' & Ed & Ep).
  unfold CanFrame_eqb. rewrite Ei', Ed, Ep, !Z.eqb_refl. by apply bool_decide_eq_true.
Qed.
End bus.

(** ** When a new frame is accepted *)

(** [canAcceptNewTxFrame] answers yes exactly when all mailboxes are empty, or
    one of them is and the frame wins the arbitration against every frame that
    is still pending in a mailbox. *)
Lemma canAccept_ok {D} `{BxCan D} (s : CanIface D) f :
  Iface_wf s -> CanFrame_wf f ->
  let tme := Z.land (rd s TSR).1 TME in
  (canAcceptNewTxFrame s f).1 = true <->
  tme = TME \/
  (tme <> 0 /\ forall m, (m < NumTxMailboxes)%nat -> ti_pending (item_at s m) = true ->
     arbitration_field f < arbitration_field (ti_frame (item_at s m))).
Proof.
  intros Hs Hf tme. unfold canAcceptNewTxFrame. subst tme. pose proof (rd_pending s TSR) as Ep.
  destruct (rd s TSR) as [v s1]. cbn [fst snd] in *.
  destruct (Z.eqb_spec (Z.land v TME) TME) as [E|E]; [split; [by left|done]|].
  destruct (Z.eqb_spec (Z.land v TME) 0) as [E0|E0]; cbn [fst].
  { split; [done|]. intros [?|[? _]]; done. }
  assert (forall m, item_at s1 m = item_at s m) as Ei by (intros m; unfold item_at; by rewrite Ep).
  rewrite negb_true_iff, <-not_true_iff_false, existsb_exists. split.
  - intros Hn. right. split; [done|]. intros m Hm Hp.
    destruct (Z.ltb_spec (arbitration_field f) (arbitration_field (ti_frame (item_at s m)))) as [|Hge]; [done|].
    destruct Hn. exists m. split; [apply in_seq; lia|]. rewrite Ei, Hp.
    rewrite priority_arbitration by (done || exact (ti_wf_frame _ (item_at_wf s m Hs))).
    by rewrite (proj2 (Z.ltb_ge _ _) Hge).
  - intros [?|[_ Hall]] (m & Hm & Hx); [done|]. apply in_seq in Hm. rewrite Ei in Hx.
    apply andb_true_iff in Hx as [Hp Hn]. specialize (Hall m ltac:(lia) Hp).
    rewrite priority_arbitration in Hn by (done || exact (ti_wf_frame _ (item_at_wf s m Hs))). lia.
Qed.

(** ** A controller on an idle bus

    An instance of the laws: a request is completed at once unless the mailbox
    is stuck, a FIFO holds at most one frame. *)
Module SimCan.

Record SimDev := mkSim {
  sim_tx : nat -> TxMailboxType;
  sim_busy : nat -> bool;
  sim_done : nat -> bool;
  sim_rx : nat -> option RxMailboxType;
  sim_init_ack : bool
}.

Definition sim_reset : SimDev :=
  mkSim (fun _ => mkTxMailbox 0 0 0 0) (fun _ => false) (fun _ => false) (fun _ => None) false.

Definition wrap_tx (b : TxMailboxType) : TxMailboxType :=
  mkTxMailbox (u32 (mb_TIR b)) (mb_TDTR b) (mb_TDLR b) (mb_TDHR b).

Definition flag (b : bool) (v : Z) : Z := if b then v else 0.

Definition sim_tsr (d : SimDev) : Z :=
  flag (negb (sim_busy d 0)) (TSR_TME 0) + flag (negb (sim_busy d 1)) (TSR_TME 1) +
  flag (negb (sim_busy d 2)) (TSR_TME 2) +
  flag (sim_done d 0) (TSR_RQCP 0 + TSR_TXOK 0) + flag (sim_done d 1) (TSR_RQCP 1 + TSR_TXOK 1) +
  flag (sim_done d 2) (TSR_RQCP 2 + TSR_TXOK 2).

Definition fifo_reg (d : SimDev) (f : nat) (g : RxMailboxType -> Z) : Z :=
  match sim_rx d f with Some b => g b | None => 0 end.

Definition sim_value (d : SimDev) (r : Reg) : Z :=
  match r with
  | TSR => sim_tsr d
  | MSR => flag (sim_init_ack d) MSR_INAK
  | RF0R => fifo_reg d 0 (fun _ => 1)
  | RF1R => fifo_reg d 1 (fun _ => 1)
  | TIR m => mb_TIR (sim_tx d m)
  | RIR f => fifo_reg d f (fun b => u32 (mb_RIR b))
  | RDTR f => fifo_reg d f (fun b => Z.min 8 (Z.land (mb_RDTR b) 15))
  | RDLR f => fifo_reg d f (fun b => u32 (mb_RDLR b))
  | RDHR f => fifo_reg d f (fun b => u32 (mb_RDHR b))
  | _ => 0
  end.

Definition wrap_rx (b : RxMailboxType) : RxMailboxType :=
  mkRxMailbox (u32 (mb_RIR b)) (Z.min 8 (Z.land (mb_RDTR b) 15)) (u32 (mb_RDLR b)) (u32 (mb_RDHR b)).

Definition fset {A} (g : nat -> A) (n : nat) (x : A) (k : nat) : A := if (k =? n)%nat then x else g k.

Definition mailbox_of_reg (r : Reg) : option nat :=
  match r with TIR m | TDTR m | TDLR m | TDHR m => Some m | _ => None end.

Definition sim_write (d : SimDev) (r : Reg) (v : Z) : SimDev :=
  match mailbox_of_reg r with
  | Some m =>
      match mailbox_write m r v (sim_tx d m) with
      | Some b => mkSim (fset (sim_tx d) m b) (sim_busy d)
                        (fset (sim_done d) m (sim_done d m || Z.testbit (mb_TIR b) 0)) (sim_rx d) (sim_init_ack d)
      | None => d
      end
  | None =>
      match r with
      | TSR => mkSim (sim_tx d) (sim_busy d)
                 (fun m => sim_done d m && (Z.land v (TSR_RQCP m) =? 0)) (sim_rx d) (sim_init_ack d)
      | RF0R => mkSim (sim_tx d) (sim_busy d) (sim_done d) (fset (sim_rx d) 0 None) (sim_init_ack d)
      | RF1R => mkSim (sim_tx d) (sim_busy d) (sim_done d) (fset (sim_rx d) 1 None) (sim_init_ack d)
      | MCR => mkSim (sim_tx d) (sim_busy d) (sim_done d) (sim_rx d) (Z.testbit v 0)
      | _ => d
      end
  end.

#[export] Instance device : BxCan SimDev := {
  reg_read d r := (u32 (sim_value d r), d);
  reg_write := sim_write;
  rcc_reset d := mkSim (sim_tx sim_reset) (sim_busy sim_reset) (sim_done sim_reset) (sim_rx d) false
}.

(** A frame arrives. *)
Definition sim_arrive (d : SimDev) (f : nat) (b : RxMailboxType) : SimDev :=
  mkSim (sim_tx d) (sim_busy d) (sim_done d) (fset (sim_rx d) f (Some b)) (sim_init_ack d).

Lemma sim_tme d m :
  (m < NumTxMailboxes)%nat -> Z.land (u32 (sim_tsr d)) (TSR_TME m) = TSR_TME m -> sim_busy d m = false.
Proof.
  intros Hm. unfold sim_tsr.
  destruct (sim_busy d 0) eqn:E0, (sim_busy d 1) eqn:E1, (sim_busy d 2) eqn:E2,
    (sim_done d 0), (sim_done d 1), (sim_done d 2);
    (destruct m as [|[|[|m]]]; [..|unfold NumTxMailboxes in Hm; lia]); vm_compute; try done.
Qed.

#[export] Program Instance laws : BxCanLaws SimDev := {
  tx_regs d m := wrap_tx (sim_tx d m);
  tx_free d m := negb (sim_busy d m);
  rx_regs d f := if (f <? 2)%nat then wrap_rx <$> sim_rx d f else None
}.
Next Obligation. intros d r. by apply wrap_range. Qed.
Next Obligation.
  intros d f. cbn. unfold fifo_reg. destruct (sim_rx d f) as [b|]; [|vm_compute; done].
  change 15 with (Z.ones 4). rewrite !Z.land_ones by lia.
  pose proof (Z.mod_pos_bound (mb_RDTR b) (2 ^ 4) ltac:(lia)).
  rewrite wrap_small by (unfold in_width; lia). rewrite Z.mod_small; lia.
Qed.
Next Obligation. intros d m Hm Hv. cbn in *. by rewrite (sim_tme d m). Qed.
Next Obligation. done. Qed.
Next Obligation. done. Qed.
Next Obligation.
  intros d r v m b Hv Hf Hw. cbn in *. apply negb_true_iff in Hf. unfold sim_write, wrap_tx, fset in *.
  destruct r as [| | | | | | | |k|k|k|k| | | | | | | | | | |]; cbn in *; try done;
    destruct (decide (k = m)) as [->|]; try done; injection Hw as <-; cbn;
    rewrite decide_True by done; cbn; rewrite Nat.eqb_refl, Hf; cbn.
  all: split; [|reflexivity]; rewrite ?(wrap_small 32 v Hv); reflexivity.
Qed.
Next Obligation.
  intros d f b. destruct f as [|[|f]]; cbn; unfold fifo_reg; [..|done]; by destruct (sim_rx d _).
Qed.
Next Obligation. done. Qed.
Next Obligation.
  intros d f b. unfold reg_read. cbn [device sim_value fst]. unfold fifo_reg. destruct (f <? 2)%nat; [|done].
  destruct (sim_rx d f) as [b'|]; [|done]. intros [= <-]. cbn [wrap_rx mb_RIR mb_RDTR mb_RDLR mb_RDHR].
  change 15 with (Z.ones 4). rewrite Z.land_ones by lia.
  pose proof (Z.mod_pos_bound (mb_RDTR b') (2 ^ 4) ltac:(lia)).
  rewrite !(wrap_small 32 (u32 _)) by (apply wrap_range; lia). rewrite (wrap_small 32 (Z.min _ _)) by (unfold in_width; lia).
  done.
Qed.

End SimCan.
Import SimCan.

Lemma CanIface_make_wf {D} (d : D) i c : 1 <= c <= MaxRxQueueCapacity -> Iface_wf (CanIface_make d i c).
Proof.
  intros Hc. split; cbn [CanIface_make rx_queue_ error_cnt_ served_aborts_cnt_ pending_tx_ last_hw_error_code_
    peak_tx_mailbox_index_]; try done.
  - by apply RxQueue_make_ok.
  - apply Forall_replicate, RxItem_default_wf.
  - apply Forall_replicate, TxItem_default_wf.
Qed.

(** An extended frame of three bytes from the first mailbox to the first FIFO. *)
Definition example_stm_frame : CanFrame := mkCanFrame (0x80000000 + 0x12345) [1; 2; 3; 0; 0; 0; 0; 0] 3.

Lemma example_stm_frame_wf : CanFrame_wf example_stm_frame.
Proof. split; try (vm_compute; done). repeat constructor; vm_compute; done. Qed.

Definition example_rx : RxMailboxType :=
  let b := tx_mailbox_of example_stm_frame in
  mkRxMailbox (mb_TIR b - 1) (mb_TDTR b + 0x1200) (mb_TDLR b + Z.shiftl 7 24) 0x55.

Lemma example_carried : carried (tx_mailbox_of example_stm_frame) (SimCan.wrap_rx example_rx).
Proof.
  split.
  - intros i Hi. assert (i = 1 \/ i = 2) as [-> | ->] by lia; reflexivity.
  - intros i Hi. assert (exists n, (n < 11)%nat /\ i = 21 + Z.of_nat n) as (n & Hn & ->)
      by (exists (Z.to_nat (i - 21)); lia).
    do 11 (destruct n as [|n]; [reflexivity|]). lia.
  - intros i _ Hi. assert (exists n, (n < 18)%nat /\ i = 3 + Z.of_nat n) as (n & Hn & ->)
      by (exists (Z.to_nat (i - 3)); lia).
    do 18 (destruct n as [|n]; [reflexivity|]). lia.
  - reflexivity.
  - intros i Hi _. change (Z.of_nat i < 3) in Hi.
    do 3 (destruct i as [|i]; [vm_compute; reflexivity|]). lia.
Qed.

Definition example_a : CanIface SimDev := CanIface_make sim_reset 0 4.
Definition example_b : CanIface SimDev := CanIface_make (sim_arrive sim_reset 0 example_rx) 0 4.

Lemma example_sent :
  (Iface_send example_a example_stm_frame 100 0).1 = 1 /\
  ti_pending (item_at (Iface_send example_a example_stm_frame 100 0).2 1) = false /\
  ti_pending (item_at (Iface_send example_a example_stm_frame 100 0).2 2) = false /\
  tx_regs (can_ (Iface_send example_a example_stm_frame 100 0).2) 0 = tx_mailbox_of example_stm_frame.
Proof. split_and!; vm_compute; reflexivity. Qed.

Lemma example_arrived :
  rx_regs (can_ example_b) 0 = Some (wrap_rx example_rx) /\
  forall x, spec_push (capacity_ (rx_queue_ example_b)) (rx_view (rx_queue_ example_b)) x = ([x], 0).
Proof. split; [vm_compute; reflexivity|intros x; vm_compute; reflexivity]. Qed.

Lemma stm32_frame_crosses_the_bus_witness :
  (Iface_send example_a example_stm_frame 100 0).1 = 1 /\
  exists g, rx_view (rx_queue_ (Iface_handleRxInterrupt example_b 0 77)) = ([mkRxItem 77 g 0], 0) /\
    CanFrame_eqb g example_stm_frame = true.
Proof.
  assert (1 <= 4 <= MaxRxQueueCapacity) as Hc by (unfold MaxRxQueueCapacity; lia).
  pose proof (stm32_frame_crosses_the_bus example_a example_b example_stm_frame 100 0 0 77
    (CanIface_make_wf _ _ _ Hc) (CanIface_make_wf _ _ _ Hc) (fun _ => example_stm_frame_wf)) as Ht.
  pose proof example_sent as (E1 & Ep1 & Ep2 & Er). pose proof example_arrived as [Ea Epush].
  destruct (Iface_send example_a example_stm_frame 100 0) as [r a']. cbn [fst snd] in *. subst r.
  split; [reflexivity|].
  destruct Ht as [(E & _)|(_ & _ & [(E & _)|(_ & m & Hm & _ & _ & Ei & _ & Hg)])]; [discriminate E|discriminate E|].
  assert (m = 0%nat) as ->.
  { unfold NumTxMailboxes in Hm. apply (f_equal ti_pending) in Ei. cbn [ti_pending] in Ei.
    destruct m as [|[|[|m]]]; [reflexivity|congruence|congruence|lia]. }
  rewrite Er in Hg. destruct (Hg (wrap_rx example_rx) example_carried Ea) as (g & Ev & Eg).
  exists g. rewrite Epush in Ev. split; [exact Ev|exact Eg].
Defined.
