(* ===== verification/Stm32Driver.v ===== *)
(** * Stm32Driver: the STM32 CAN driver

    Models [CanDriver], the interrupt handlers and [CanInitHelper] of
    [libuavcan_drivers/stm32/driver/include/uavcan_stm32/can.hpp] and
    [src/uc_stm32_can.cpp] for one or two interfaces. The clock and the moments at
    which interrupts are served are the environment [E]: between two calls, and
    while the driver waits for an event, any list of interrupts may be served.
    The last part makes the driver an instance of the interface [CanPlatform]
    that the input/output manager is proved against. *)

From S2P Require Import Prelude MonoTime CanFrame Frame CanIO Stm32Timings Stm32RxQueue Stm32Can.
Local Open Scope Z_scope.

(** An interrupt request of interface [i]. *)
Inductive Irq := IrqTx (i : nat) | IrqRx (i fifo : nat) | IrqSce (i : nat).

Class StmEnv (E : Type) := {
  env_getMonotonic : E -> Z * E;
  env_getUtcUSecFromCanInterrupt : E -> Z * E;
  env_irqs : E -> list Irq * E
}.

(** [CanDriver] with the file's static data: [ifaces] holds the pointers the
    interrupt handlers use, here whether each is set, and [initialized_once]. *)
Record CanDriver (D : Type) := mkDriver {
  drv_if : list (CanIface D);
  drv_ifaces : list bool;
  initialized_once : bool
}.
Arguments mkDriver {D}.
Arguments drv_if {D}.
Arguments drv_ifaces {D}.
Arguments initialized_once {D}.

(** [CanDriver::CanDriver]: one register set per interface. *)
Definition CanDriver_make {D} (devices : list D) (capacity : Z) : CanDriver D :=
  mkDriver (imap (fun i d => CanIface_make d (Z.of_nat i) capacity) devices)
           (replicate (length devices) false) false.

Definition StandardBitRates : list Z := [1000000; 500000; 250000; 125000].

Section driver.
Context {D E : Type} `{BxCan D} `{StmEnv E}.
Abbreviation Iface := (CanIface D).
Abbreviation Driver := (CanDriver D).

Record Stm32 := mkStm { st_driver : Driver; st_env : E }.

Definition set_env (w : Stm32) (e : E) : Stm32 := mkStm (st_driver w) e.

(** [clock::getMonotonic()]. *)
Definition now (w : Stm32) : Z * Stm32 :=
  let '(t, e) := env_getMonotonic (st_env w) in (t, set_env w e).

(** An operation of interface [i]. *)
Definition map_iface (w : Stm32) (i : nat) (f : Iface -> Iface) : Stm32 :=
  let d := st_driver w in
  mkStm (mkDriver (alter f i (drv_if d)) (drv_ifaces d) (initialized_once d)) (st_env w).

(** [ifaces[i] != NULL]. *)
Definition registered (d : Driver) (i : nat) : bool := nth i (drv_ifaces d) false.

(** [CanDriver::getNumIfaces], [CanDriver::getIface]. *)
Definition getNumIfaces (d : Driver) : nat := length (drv_if d).
Definition getIface (d : Driver) (i : nat) : option Iface :=
  if (i <? getNumIfaces d)%nat && registered d i then drv_if d !! i else None.

(** ** Interrupts *)

(** The timestamp of [handleTxInterrupt] and [handleRxInterrupt]. *)
Definition irq_utc (w : Stm32) : Z * Stm32 :=
  let '(utc_usec, e) := env_getUtcUSecFromCanInterrupt (st_env w) in
  (if 0 <? utc_usec then utc_usec - 1 else utc_usec, set_env w e).

(** [uavcan_stm32::handleTxInterrupt]. *)
Definition handleTxInterrupt (w : Stm32) (i : nat) : Stm32 :=
  let '(utc_usec, w) := irq_utc w in
  if registered (st_driver w) i then map_iface w i (fun s => Iface_handleTxInterrupt s utc_usec) else w.

(** [uavcan_stm32::handleRxInterrupt]. *)
Definition handleRxInterrupt (w : Stm32) (i fifo_index : nat) : Stm32 :=
  let '(utc_usec, w) := irq_utc w in
  if registered (st_driver w) i
  then map_iface w i (fun s => Iface_handleRxInterrupt s fifo_index utc_usec) else w.

(** [uavcan_stm32::handleStatusChangeInterrupt]. *)
Definition handleStatusChangeInterrupt (w : Stm32) (i : nat) : Stm32 :=
  if registered (st_driver w) i then map_iface w i Iface_handleStatusChangeInterrupt else w.

(** [can1_irq], [can2_irq] and the vectors of the other operating systems. *)
Definition can_irq (w : Stm32) (irq : Irq) : Stm32 :=
  match irq with
  | IrqTx i => handleTxInterrupt w i
  | IrqRx i fifo => handleRxInterrupt w i fifo
  | IrqSce i => handleStatusChangeInterrupt w i
  end.

(** Time passes: the interrupts of the environment are served. *)
Definition serve_irqs (w : Stm32) : Stm32 :=
  let '(irqs, e) := env_irqs (st_env w) in foldl can_irq (set_env w e) irqs.

(** ** CanDriver *)

(** [CanDriver::makeSelectMasks], for the interfaces from [i] on. *)
Fixpoint make_masks (i : nat) (ifs : list Iface) (pending_tx : list (option CanFrame)) (msk : CanSelectMasks) :
    CanSelectMasks * list Iface :=
  match ifs with
  | [] => (msk, [])
  | s :: ifs =>
      let b := Z.shiftl 1 (Z.of_nat i) in
      let msk := if isRxBufferEmpty s then msk else mkMasks (Z.lor (mask_read msk) b) (mask_write msk) in
      let '(ok, s) := match nth i pending_tx None with
                      | Some frame => canAcceptNewTxFrame s frame
                      | None => (false, s)
                      end in
      let msk := if ok then mkMasks (mask_read msk) (Z.lor (mask_write msk) b) else msk in
      let '(msk, ifs) := make_masks (S i) ifs pending_tx msk in
      (msk, s :: ifs)
  end.

Definition makeSelectMasks (w : Stm32) (pending_tx : list (option CanFrame)) : CanSelectMasks * Stm32 :=
  let d := st_driver w in
  let '(msk, ifs) := make_masks 0 (drv_if d) pending_tx (mkMasks 0 0) in
  (msk, mkStm (mkDriver ifs (drv_ifaces d) (initialized_once d)) (st_env w)).

(** [CanDriver::hasReadableInterfaces]. *)
Definition hasReadableInterfaces (d : Driver) : bool := existsb (fun s => negb (isRxBufferEmpty s)) (drv_if d).

(** [CanDriver::select]; the wait serves interrupts. *)
Definition Driver_select (w : Stm32) (in_masks : CanSelectMasks) (pending_tx : list (option CanFrame))
    (blocking_deadline : Z) : Z * CanSelectMasks * Stm32 :=
  let '(time, w) := now w in
  let d := st_driver w in
  let w := mkStm (mkDriver ((fun s => discardTimedOutTxMailboxes s time) <$> drv_if d) (drv_ifaces d)
                   (initialized_once d)) (st_env w) in
  let '(masks, w) := makeSelectMasks w pending_tx in
  if negb (Z.land (mask_read masks) (mask_read in_masks) =? 0) ||
     negb (Z.land (mask_write masks) (mask_write in_masks) =? 0)
  then (1, masks, w)
  else
    let w := serve_irqs w in
    let '(masks, w) := makeSelectMasks w pending_tx in
    (1, masks, w).

(** [CanDriver::initOnce]: both controllers get their clock and are reset. *)
Definition initOnce (d : Driver) : Driver :=
  mkDriver ((fun s => set_can s (rcc_reset (can_ s))) <$> drv_if d) (drv_ifaces d) (initialized_once d).

(** The interfaces from [i] on in [CanDriver::init]. *)
Fixpoint init_ifaces (timeout : nat) (pclk : Z) (bitrate : Z) (mode : OperatingMode) (is_ : list nat) (d : Driver) :
    Z * Driver :=
  match is_ with
  | [] => (0, d)
  | i :: is_ =>
      match drv_if d !! i with
      | None => (0, d)
      | Some s =>
          let '(res, s) := Iface_init timeout (getNumIfaces d) pclk s bitrate mode in
          let d := mkDriver (<[i := s]> (drv_if d)) (drv_ifaces d) (initialized_once d) in
          if res <? 0 then (res, d)
          else init_ifaces timeout pclk bitrate mode is_
                 (mkDriver (drv_if d) (<[i := true]> (drv_ifaces d)) (initialized_once d))
      end
  end.

(** [CanDriver::init]. *)
Definition Driver_init (timeout : nat) (pclk : Z) (d : Driver) (bitrate : Z) (mode : OperatingMode) : Z * Driver :=
  let d := if initialized_once d then d
           else initOnce (mkDriver (drv_if d) (drv_ifaces d) true) in
  init_ifaces timeout pclk bitrate mode (seq 0 (getNumIfaces d)) d.

(** [CanDriver::hadActivity]. *)
Definition Driver_hadActivity (d : Driver) : bool * Driver :=
  (existsb had_activity_ (drv_if d),
   mkDriver ((fun s => (Iface_hadActivity s).2) <$> drv_if d) (drv_ifaces d) (initialized_once d)).

(** ** CanInitHelper *)

Definition set_driver (w : Stm32) (d : Driver) : Stm32 := mkStm d (st_env w).

(** The loop over the standard bit rates; [delay_callable()] serves interrupts. *)
Fixpoint detect_bit_rate (timeout : nat) (pclk : Z) (rates : list Z) (inout_bitrate : Z) (w : Stm32) : Z * Z * Stm32 :=
  match rates with
  | [] => (- StmErr.ErrBitRateNotDetected, inout_bitrate, w)
  | rate :: rates =>
      let '(res, d) := Driver_init timeout pclk (st_driver w) rate SilentMode in
      let w := serve_irqs (set_driver w d) in
      if (0 <=? res) &&
         existsb (fun i => match getIface (st_driver w) i with
                           | Some s => negb (isRxBufferEmpty s)
                           | None => false
                           end) (seq 0 (getNumIfaces (st_driver w)))
      then
        let '(res, d) := Driver_init timeout pclk (st_driver w) rate NormalMode in
        (res, rate, set_driver w d)
      else detect_bit_rate timeout pclk rates rate w
  end.

(** [CanInitHelper::init(DelayCallable, uint32_t&)]. *)
Definition CanInitHelper_init (timeout : nat) (pclk : Z) (w : Stm32) (inout_bitrate : Z) : Z * Z * Stm32 :=
  if 0 <? inout_bitrate then
    let '(res, d) := Driver_init timeout pclk (st_driver w) inout_bitrate NormalMode in
    (res, inout_bitrate, set_driver w d)
  else detect_bit_rate timeout pclk StandardBitRates inout_bitrate w.

Definition getRecommendedListeningDelay : Z := Duration.fromMSec 1050.

(** ** The interface operations of the driver *)

Definition Stm_send (w : Stm32) (i : nat) (frame : CanFrame) (tx_deadline flags : Z) : Z * Stm32 :=
  match drv_if (st_driver w) !! i with
  | None => (0, w)
  | Some s => let '(r, s) := Iface_send s frame tx_deadline flags in (r, map_iface w i (fun _ => s))
  end.

(** [CanIface::receive] with its reading of the clock. *)
Definition Stm_receive (w : Stm32) (i : nat) (out : CanRxItem) : Z * Z * CanRxItem * Stm32 :=
  let '(t, w) := now w in
  match drv_if (st_driver w) !! i with
  | None => (0, t, out, w)
  | Some s => let '(r, item, s) := Iface_receive s out in (r, t, item, map_iface w i (fun _ => s))
  end.

End driver.
Arguments Stm32 : clear implicits.

(** ** Well-formed drivers *)

(** The clock of the board fits its types. *)
Class StmEnvLaws (E : Type) `{StmEnv E} := {
  env_time e : 0 <= (env_getMonotonic e).1 < 2 ^ 63;
  env_utc e : is_u64 (env_getUtcUSecFromCanInterrupt e).1
}.

Definition Driver_wf {D} (d : CanDriver D) : Prop :=
  Forall Iface_wf (drv_if d) /\ length (drv_ifaces d) = length (drv_if d).

Section wf.
Context {D E : Type} `{BxCanLaws D} `{StmEnvLaws E}.
Abbreviation W := (Stm32 D E).
Implicit Types w : W.
Abbreviation wf w := (Driver_wf (st_driver w)).

Lemma map_iface_wf w i f : (forall s, Iface_wf s -> Iface_wf (f s)) -> wf w -> wf (map_iface w i f).
Proof.
  intros Hf [Hi Hl]. split; cbn; [|by rewrite length_alter]. apply Forall_alter; [done|]. auto.
Qed.

Lemma irq_utc_ok w : is_u64 (irq_utc w).1 /\ st_driver (irq_utc w).2 = st_driver w.
Proof.
  unfold irq_utc. pose proof (env_utc (st_env w)) as Hu. destruct (env_getUtcUSecFromCanInterrupt _) as [u e].
  cbn [fst snd] in *. split; [|done]. unfold in_width in *. case_match; lia.
Qed.

Lemma can_irq_wf w irq : wf w -> wf (can_irq w irq).
Proof.
  intros Hw. destruct irq as [i|i fifo|i]; cbn [can_irq];
    unfold handleTxInterrupt, handleRxInterrupt, handleStatusChangeInterrupt.
  - destruct (irq_utc_ok w) as [Hu Ed]. destruct (irq_utc w) as [u w1]. cbn [fst snd] in *.
    rewrite <-Ed in Hw. case_match; [|done]. apply map_iface_wf; [|done]. intros. by apply wf_tx_interrupt.
  - destruct (irq_utc_ok w) as [Hu Ed]. destruct (irq_utc w) as [u w1]. cbn [fst snd] in *.
    rewrite <-Ed in Hw. case_match; [|done]. apply map_iface_wf; [|done]. intros. by apply wf_rx_interrupt.
  - case_match; [|done]. apply map_iface_wf; [|done]. apply wf_status_interrupt.
Qed.

Lemma can_irqs_wf irqs w : wf w -> wf (foldl can_irq w irqs).
Proof. revert w. induction irqs as [|irq irqs IH]; intros w Hw; [done|]. by apply IH, can_irq_wf. Qed.

Lemma serve_irqs_wf w : wf w -> wf (serve_irqs w).
Proof. intros Hw. unfold serve_irqs. destruct (env_irqs _) as [irqs e]. by apply can_irqs_wf. Qed.

Lemma make_masks_wf i (ifs : list (CanIface D)) p msk :
  Forall Iface_wf ifs -> Forall Iface_wf (make_masks i ifs p msk).2 /\ length (make_masks i ifs p msk).2 = length ifs.
Proof.
  revert i msk. induction ifs as [|s ifs IH]; intros i msk Hf; [done|].
  apply Forall_cons in Hf as [Hs Hf]. cbn [make_masks]. cbv zeta.
  assert (Iface_wf (match nth i p None with Some frame => canAcceptNewTxFrame s frame | None => (false, s) end).2)
    as Hs' by (case_match; [by apply wf_canAccept|done]).
  destruct (match nth i p None with Some frame => canAcceptNewTxFrame s frame | None => (false, s) end) as [ok s'].
  match goal with |- context [make_masks (S i) ifs p ?m] => specialize (IH (S i) m Hf) end.
  destruct (make_masks (S i) ifs p _) as [msk' ifs']. cbn [snd] in *. destruct IH as [? IH].
  split; [by constructor|]. cbn. by rewrite IH.
Qed.

Lemma makeSelectMasks_wf w p : wf w -> wf (makeSelectMasks w p).2.
Proof.
  intros [Hf Hl]. unfold makeSelectMasks.
  pose proof (make_masks_wf 0 (drv_if (st_driver w)) p (mkMasks 0 0) Hf) as Hm.
  destruct (make_masks 0 _ p _) as [msk ifs]. cbn [snd] in *. destruct Hm. split; cbn; [done|congruence].
Qed.

Lemma now_ok w : 0 <= (now w).1 < 2 ^ 63 /\ st_driver (now w).2 = st_driver w.
Proof.
  unfold now. pose proof (env_time (st_env w)). destruct (env_getMonotonic _). done.
Qed.

Lemma Driver_select_wf w m p dl : wf w -> wf (Driver_select w m p dl).2.
Proof.
  intros Hw. unfold Driver_select. cbv zeta. destruct (now_ok w) as [_ Ed]. destruct (now w) as [t w1]. cbn [snd] in Ed.
  rewrite <-Ed in Hw. destruct Hw as [Hf Hl].
  set (w2 := mkStm _ _ : W). assert (wf w2) as Hx.
  { split; cbn; [|by rewrite length_fmap]. apply Forall_fmap. eapply Forall_impl; [exact Hf|].
    intros s Hs. by apply wf_discard. }
  clearbody w2.
  apply (makeSelectMasks_wf _ p) in Hx. destruct (makeSelectMasks w2 p) as [msk w3]. cbn [snd] in Hx.
  destruct (orb _ _); [done|].
  pose proof (makeSelectMasks_wf _ p (serve_irqs_wf w3 Hx)) as Hx'. by destruct (makeSelectMasks (serve_irqs w3) p).
Qed.

Lemma init_ifaces_wf timeout pclk br mode is_ (d : CanDriver D) :
  Driver_wf d -> Driver_wf (init_ifaces timeout pclk br mode is_ d).2.
Proof.
  revert d. induction is_ as [|i is_ IH]; intros d Hd; cbn [init_ifaces]; [done|].
  destruct (drv_if d !! i) as [s|] eqn:Es; [|done]. destruct Hd as [Hf Hl].
  assert (Iface_wf s) as Hs by (by eapply Forall_lookup_1).
  pose proof (wf_init timeout (getNumIfaces d) pclk s br mode Hs) as Hs'.
  destruct (Iface_init _ _ _ _ _ _) as [res s']. cbn [snd] in Hs'.
  destruct (res <? 0).
  - split; cbn; [by apply Forall_insert|by rewrite length_insert].
  - apply IH. split; cbn; [by apply Forall_insert|by rewrite !length_insert].
Qed.

Lemma Driver_init_wf timeout pclk (d : CanDriver D) br mode :
  Driver_wf d -> Driver_wf (Driver_init timeout pclk d br mode).2.
Proof.
  intros [Hf Hl]. unfold Driver_init. apply init_ifaces_wf. case_match; [done|].
  split; cbn; [|by rewrite length_fmap]. apply Forall_fmap. eapply Forall_impl; [exact Hf|].
  intros s Hs. by apply wf_set_can.
Qed.

Lemma detect_wf timeout pclk rates br w : wf w -> wf (detect_bit_rate timeout pclk rates br w).2.
Proof.
  revert br w. induction rates as [|rate rates IH]; intros br w Hw; cbn [detect_bit_rate]; [done|].
  pose proof (Driver_init_wf timeout pclk (st_driver w) rate SilentMode Hw) as Hd.
  destruct (Driver_init timeout pclk (st_driver w) rate SilentMode) as [res d]. cbn [snd] in Hd.
  assert (wf (serve_irqs (set_driver w d))) as Hw' by (by apply serve_irqs_wf).
  destruct (andb _ _); [|by apply IH].
  pose proof (Driver_init_wf timeout pclk _ rate NormalMode Hw') as Hd'. by destruct (Driver_init _ _ _ _ NormalMode).
Qed.

Lemma helper_init_wf timeout pclk w br : wf w -> wf (CanInitHelper_init timeout pclk w br).2.
Proof.
  intros Hw. unfold CanInitHelper_init. case_match; [|by apply detect_wf].
  pose proof (Driver_init_wf timeout pclk _ br NormalMode Hw) as Hd. by destruct (Driver_init _ _ _ _ NormalMode).
Qed.

Lemma hadActivity_wf (d : CanDriver D) : Driver_wf d -> Driver_wf (Driver_hadActivity d).2.
Proof.
  intros [Hf Hl]. split; cbn; [|by rewrite length_fmap]. apply Forall_fmap. eapply Forall_impl; [exact Hf|].
  intros s Hs. by apply wf_set_activity.
Qed.

Lemma Stm_send_wf w i f dl fl : CanFrame_wf f -> is_u64 dl -> wf w -> wf (Stm_send w i f dl fl).2.
Proof.
  intros Hf Hdl Hw. unfold Stm_send. destruct (drv_if (st_driver w) !! i) as [s|] eqn:Es; [|done].
  assert (Iface_wf s) as Hs by (eapply Forall_lookup_1; [apply Hw|done]).
  pose proof (wf_send s f dl fl Hf Hdl Hs). destruct (Iface_send s f dl fl). by apply map_iface_wf.
Qed.

Lemma Stm_receive_wf w i out :
  wf w -> let '(r, t, item, w') := Stm_receive w i out in
  wf w' /\ 0 <= t < 2 ^ 63 /\ (0 < r -> RxItem_wf item).
Proof.
  intros Hw. unfold Stm_receive. destruct (now_ok w) as [Ht Ed]. destruct (now w) as [t w1]. cbn [fst snd] in *.
  rewrite <-Ed in Hw. destruct (drv_if (st_driver w1) !! i) as [s|] eqn:Es; [|split; [done|split; [done|lia]]].
  assert (Iface_wf s) as Hs by (eapply Forall_lookup_1; [apply Hw|done]).
  pose proof (wf_receive s out Hs) as Hr. destruct (Iface_receive s out) as [[r item] s'].
  destruct Hr. split; [by apply map_iface_wf|done].
Qed.

(** ** Runs of the driver *)

Inductive StmCall :=
  | CallSend (i : nat) (f : CanFrame) (deadline flags : Z)
  | CallReceive (i : nat)
  | CallSelect (masks : CanSelectMasks) (pending : list (option CanFrame)) (deadline : Z)
  | CallInit (bitrate : Z) (mode : OperatingMode)
  | CallDetect (bitrate : Z)
  | CallHadActivity
  | CallYieldLastHardwareErrorCode (i : nat)
  | Interrupts (irqs : list Irq).

(** One call, and the frame it received. *)
Definition stm_call (timeout : nat) (pclk : Z) (w : W) (c : StmCall) : option CanRxItem * W :=
  match c with
  | CallSend i f dl fl => (None, (Stm_send w i f dl fl).2)
  | CallReceive i =>
      let '(r, _, item, w) := Stm_receive w i CanRxItem_default in
      (if 0 <? r then Some item else None, w)
  | CallSelect m p dl => (None, (Driver_select w m p dl).2)
  | CallInit br mode => (None, set_driver w (Driver_init timeout pclk (st_driver w) br mode).2)
  | CallDetect br => (None, (CanInitHelper_init timeout pclk w br).2)
  | CallHadActivity => (None, set_driver w (Driver_hadActivity (st_driver w)).2)
  | CallYieldLastHardwareErrorCode i => (None, map_iface w i (fun s => (yieldLastHardwareErrorCode s).2))
  | Interrupts irqs => (None, foldl can_irq w irqs)
  end.

Fixpoint stm_run (timeout : nat) (pclk : Z) (w : W) (cs : list StmCall) : list CanRxItem * W :=
  match cs with
  | [] => ([], w)
  | c :: cs =>
      let '(x, w) := stm_call timeout pclk w c in
      let '(l, w) := stm_run timeout pclk w cs in (option_list x ++ l, w)
  end.

(** The frames the application sends. *)
Definition call_ok (c : StmCall) : Prop :=
  match c with CallSend _ f dl _ => CanFrame_wf f /\ is_u64 dl | _ => True end.

Lemma stm_call_wf timeout pclk w c :
  call_ok c -> wf w ->
  wf (stm_call timeout pclk w c).2 /\ (forall x, (stm_call timeout pclk w c).1 = Some x -> RxItem_wf x).
Proof.
  intros Hc Hw. destruct c; cbn [stm_call call_ok fst snd] in *.
  - destruct Hc. split; [by apply Stm_send_wf|done].
  - pose proof (Stm_receive_wf w i CanRxItem_default Hw) as Hr.
    destruct (Stm_receive w i CanRxItem_default) as [[[r t] item] w']. destruct Hr as (? & _ & Hr).
    cbn [fst snd]. split; [done|]. intros x. destruct (Z.ltb_spec 0 r); [intros [= <-]; auto|done].
  - split; [by apply Driver_select_wf|done].
  - split; [by apply Driver_init_wf|done].
  - split; [by apply helper_init_wf|done].
  - split; [by apply hadActivity_wf|done].
  - split; [|done]. apply map_iface_wf; [|done]. intros s Hs. by apply wf_set_lec.
  - split; [by apply can_irqs_wf|done].
Qed.

Lemma stm_run_wf timeout pclk cs w :
  Forall call_ok cs -> wf w ->
  wf (stm_run timeout pclk w cs).2 /\ Forall RxItem_wf (stm_run timeout pclk w cs).1.
Proof.
  revert w. induction cs as [|c cs IH]; intros w Hc Hw; [done|].
  apply Forall_cons in Hc as [Hc Hcs]. cbn [stm_run].
  destruct (stm_call_wf timeout pclk w c Hc Hw) as [Hw' Hx].
  destruct (stm_call timeout pclk w c) as [x w']. cbn [fst snd] in *.
  destruct (IH w' Hcs Hw') as [Hw'' Hl]. destruct (stm_run timeout pclk w' cs) as [l w'']. cbn [fst snd] in *.
  split; [done|]. apply Forall_app. split; [|done]. destruct x as [x|]; cbn; [|done].
  constructor; [by apply Hx|done].
Qed.

Lemma CanDriver_make_wf (devices : list D) c :
  1 <= c <= MaxRxQueueCapacity -> Driver_wf (CanDriver_make devices c).
Proof.
  intros Hc. split; cbn; [|by rewrite length_imap, length_replicate].
  apply Forall_lookup_2. intros i s Hs. apply list_lookup_imap_Some in Hs as (d & _ & ->).
  by apply CanIface_make_wf.
Qed.

(** C20: the driver keeps its types whatever happens. Starting from a new driver,
    any sequence of calls of its interface and of interrupts, on any controller
    that keeps to the reference manual, leaves every interface well-formed: ring positions inside
    of the buffer, three mailbox records, well-formed frames in them, the
    counters in their widths, the error code below 8. Every frame handed to the application is a
    well-formed CAN frame with at most eight bytes and a 64-bit timestamp, although [receive]
    itself checks nothing. *)
Theorem stm32_driver_is_type_safe timeout pclk devices capacity e cs :
  1 <= capacity <= MaxRxQueueCapacity -> Forall call_ok cs ->
  let '(received, w) := stm_run timeout pclk (mkStm (CanDriver_make devices capacity) e) cs in
  Forall Iface_wf (drv_if (st_driver w)) /\ Forall RxItem_wf received.
Proof.
  intros Hc Hcs.
  destruct (stm_run_wf timeout pclk cs (mkStm (CanDriver_make devices capacity) e) Hcs
    (CanDriver_make_wf devices capacity Hc)) as [[Hw _] Hl].
  by destruct (stm_run _ _ _ _).
Qed.

End wf.

(** ** The driver as the platform of the library *)

Lemma CanFrame_wf_alt f :
  CanFrame_wf f <->
  is_u32 (can_id f) /\ length (can_data f) = MaxDataLen /\ bytes (can_data f) /\
  0 <= can_dlc f <= 8 /\ (isExtended f = false -> Z.land (can_id f) MaskExtID <= MaskStdID).
Proof. split; [intros []; done|intros (?&?&?&?&?); by split]. Qed.

#[global] Instance CanFrame_wf_dec f : Decision (CanFrame_wf f).
Proof.
  exact (match decide _ with
         | left h => left (proj2 (CanFrame_wf_alt f) h)
         | right h => right (fun w => h (proj1 (CanFrame_wf_alt f) w))
         end).
Defined.

(** The clock of the board reaches [deadline]. *)
Class StmClockAdvances (E : Type) `{StmEnv E} (deadline : Z) := {
  env_ticks : E -> nat;
  env_time_ticks e : let '(t, e') := env_getMonotonic e in
    (env_ticks e' <= env_ticks e)%nat /\ (t < deadline -> (env_ticks e' < env_ticks e)%nat);
  env_utc_ticks e : (env_ticks (env_getUtcUSecFromCanInterrupt e).2 <= env_ticks e)%nat;
  env_irqs_ticks e : (env_ticks (env_irqs e).2 <= env_ticks e)%nat
}.

Section platform.
Context {D E : Type} `{BxCanLaws D} `{StmEnvLaws E}.

(** A board whose driver is well-formed. *)
Record World := mkWorld { world_stm : Stm32 D E; world_ok : Driver_wf (st_driver world_stm) }.

Definition world_now (w : World) : Z * World :=
  ((now (world_stm w)).1, mkWorld (now (world_stm w)).2
     (eq_ind_r Driver_wf (world_ok w) (proj2 (now_ok (world_stm w))))).

Definition world_irqs (w : World) : World :=
  mkWorld (serve_irqs (world_stm w)) (serve_irqs_wf (world_stm w) (world_ok w)).

Definition world_select (w : World) (m : CanSelectMasks) (p : list (option CanFrame)) (dl : Z) :
    Z * CanSelectMasks * World :=
  let w := world_irqs w in
  ((Driver_select (world_stm w) m p dl).1,
   mkWorld _ (Driver_select_wf (world_stm w) m p dl (world_ok w))).

(** The library only sends well-formed frames; the rest of the type is not
    given to the driver. *)
Definition world_send (w : World) (i : nat) (f : CanFrame) (dl fl : Z) : Z * World :=
  let w := world_irqs w in
  match decide (CanFrame_wf f), decide (is_u64 dl) with
  | left Hf, left Hdl =>
      ((Stm_send (world_stm w) i f dl fl).1, mkWorld _ (Stm_send_wf (world_stm w) i f dl fl Hf Hdl (world_ok w)))
  | _, _ => (- StmErr.ErrUnsupportedFrame, w)
  end.

Definition to_rx_item (out : CanRxFrame * Z) : CanRxItem :=
  mkRxItem (crx_ts_utc out.1) (crx_frame out.1) out.2.

Lemma Stm_receive_keeps (w : Stm32 D E) i out :
  Driver_wf (st_driver w) -> Driver_wf (st_driver (Stm_receive w i out).2).
Proof.
  intros Hw. pose proof (Stm_receive_wf w i out Hw) as Hr. by destruct (Stm_receive w i out) as [[[r t] item] w'], Hr.
Qed.

Definition world_receive (w : World) (i : nat) (out : CanRxFrame * Z) : Z * (CanRxFrame * Z) * World :=
  let w := world_irqs w in
  let r := Stm_receive (world_stm w) i (to_rx_item out) in
  (r.1.1.1,
   (mkCanRxFrame (rxi_frame r.1.2) r.1.1.2 (rxi_utc_usec r.1.2) (crx_iface_index out.1), rxi_flags r.1.2),
   mkWorld r.2 (Stm_receive_keeps (world_stm w) i (to_rx_item out) (world_ok w))).

#[export] Instance stm32_platform : CanPlatform World := {
  getMonotonic := world_now;
  hasIface w i := match getIface (st_driver (world_stm w)) i with Some _ => true | None => false end;
  drv_select := world_select;
  iface_send := world_send;
  iface_receive := world_receive;
  iface_getErrorCount w i :=
    match getIface (st_driver (world_stm w)) i with Some s => Iface_getErrorCount s | None => 0 end
}.

(** On the frames the library sends, the platform is the driver. *)
Lemma world_send_is_send w i f dl fl :
  CanFrame_wf f -> is_u64 dl ->
  (iface_send w i f dl fl).1 = (Stm_send (serve_irqs (world_stm w)) i f dl fl).1 /\
  world_stm (iface_send w i f dl fl).2 = (Stm_send (serve_irqs (world_stm w)) i f dl fl).2.
Proof.
  intros Hf Hdl. cbn. unfold world_send. destruct (decide (CanFrame_wf f)); [|done].
  by destruct (decide (is_u64 dl)).
Qed.

(** The driver hands over well-formed frames only. *)
#[export] Instance stm32_frames : DriverFrames World.
Proof.
  intros w i out. cbn. intros Hr.
  pose proof (Stm_receive_wf (serve_irqs (world_stm w)) i (to_rx_item out)
    (serve_irqs_wf (world_stm w) (world_ok w))) as Hw.
  destruct (Stm_receive (serve_irqs (world_stm w)) i (to_rx_item out)) as [[[r t] item] w']. cbn in *.
  destruct Hw as (_ & Ht & Hi). split; [by apply Hi|done].
Qed.

Section clock.
Context (deadline : Z) `{!StmClockAdvances E deadline}.
Abbreviation ticks_of w := (env_ticks (st_env w)).

Lemma irq_ticks (w : Stm32 D E) irq : (ticks_of (can_irq w irq) <= ticks_of w)%nat.
Proof.
  pose proof (env_utc_ticks (st_env w)).
  destruct irq; cbn; unfold handleTxInterrupt, handleRxInterrupt, handleStatusChangeInterrupt, irq_utc;
    try destruct (env_getUtcUSecFromCanInterrupt _); case_match; cbn in *; lia.
Qed.

Lemma irqs_ticks (w : Stm32 D E) irqs : (ticks_of (foldl can_irq w irqs) <= ticks_of w)%nat.
Proof.
  revert w. induction irqs as [|irq irqs IH]; intros w; [done|]. cbn.
  specialize (IH (can_irq w irq)). pose proof (irq_ticks w irq). lia.
Qed.

Lemma serve_irqs_ticks (w : Stm32 D E) : (ticks_of (serve_irqs w) <= ticks_of w)%nat.
Proof.
  unfold serve_irqs. pose proof (env_irqs_ticks (st_env w)). destruct (env_irqs _) as [irqs e]. cbn in *.
  pose proof (irqs_ticks (set_env w e) irqs) as Hi. cbn in Hi. lia.
Qed.

Lemma now_ticks (w : Stm32 D E) :
  (ticks_of (now w).2 <= ticks_of w)%nat /\ ((now w).1 < deadline -> (ticks_of (now w).2 < ticks_of w)%nat).
Proof. unfold now. pose proof (env_time_ticks (st_env w)). by destruct (env_getMonotonic _). Qed.

Lemma masks_env (w : Stm32 D E) p : st_env (makeSelectMasks w p).2 = st_env w.
Proof. unfold makeSelectMasks. by destruct (make_masks _ _ _ _). Qed.

Lemma select_env_ticks (w : Stm32 D E) m p dl : (ticks_of (Driver_select w m p dl).2 <= ticks_of w)%nat.
Proof.
  unfold Driver_select. pose proof (proj1 (now_ticks w)) as Hn. destruct (now w) as [t w1]. cbn [snd] in Hn.
  set (w2 := mkStm _ _ : Stm32 D E). assert (st_env w2 = st_env w1) as E2 by done. clearbody w2.
  pose proof (masks_env w2 p) as E3. destruct (makeSelectMasks w2 p) as [msk w3]. cbn [snd] in E3.
  destruct (orb _ _); cbn [snd]; [rewrite E3, E2; lia|].
  pose proof (serve_irqs_ticks w3). pose proof (masks_env (serve_irqs w3) p) as E4.
  destruct (makeSelectMasks (serve_irqs w3) p) as [msk' w4]. cbn [snd] in *. rewrite E4. rewrite E3, E2 in *. lia.
Qed.

Lemma send_env (w : Stm32 D E) i f dl fl : st_env (Stm_send w i f dl fl).2 = st_env w.
Proof. unfold Stm_send. case_match; [|done]. by destruct (Iface_send _ _ _ _). Qed.

Lemma receive_env_ticks (w : Stm32 D E) i out : (ticks_of (Stm_receive w i out).2 <= ticks_of w)%nat.
Proof.
  unfold Stm_receive. pose proof (proj1 (now_ticks w)) as Hn. destruct (now w) as [t w1]. cbn [snd] in Hn.
  case_match; [|done]. destruct (Iface_receive _ _) as [[r item] s]. done.
Qed.

(** Time passes on the platform as it does on the board. *)
#[export] Instance stm32_clock : ClockAdvances World deadline.
Proof.
  refine {| ticks := fun w : World => ticks_of (world_stm w) |}.
  - intros w. exact (now_ticks (world_stm w)).
  - intros w m p d. cbn. unfold world_select. pose proof (serve_irqs_ticks (world_stm w)).
    pose proof (select_env_ticks (serve_irqs (world_stm w)) m p d) as Hs.
    destruct (Driver_select (serve_irqs (world_stm w)) m p d).1. exact (Nat.le_trans _ _ _ Hs H3).
  - intros w i f d fl. cbn. unfold world_send. pose proof (serve_irqs_ticks (world_stm w)).
    destruct (decide (CanFrame_wf f)), (decide (is_u64 d)); cbn; rewrite ?send_env; lia.
  - intros w i o. cbn. pose proof (serve_irqs_ticks (world_stm w)).
    pose proof (receive_env_ticks (serve_irqs (world_stm w)) i (to_rx_item o)). lia.
Defined.
End clock.
End platform.

(** ** A board to run the driver on *)

Module SimBoard.
Import SimCan.

(** The clock ticks at every reading; interrupts come only as calls. *)
#[export] Instance board : StmEnv Z := {
  env_getMonotonic e := (e mod 2 ^ 63, e + 1);
  env_getUtcUSecFromCanInterrupt e := (e mod 2 ^ 63, e);
  env_irqs e := ([], e)
}.

#[export] Instance board_laws : StmEnvLaws Z.
Proof.
  split; intros e; cbn; [by apply Z.mod_pos_bound|].
  pose proof (Z.mod_pos_bound e (2 ^ 63)). unfold in_width. lia.
Defined.

(** Two interfaces, the second with a frame waiting in its FIFO. *)
Definition two_devices : list SimDev := [sim_reset; sim_arrive sim_reset 0 example_rx].
Definition example_stm : Stm32 SimDev Z := mkStm (CanDriver_make two_devices 4) 1000.

(** Initialisation, a frame sent with loopback and completed, and a reception. *)
Definition example_calls : list StmCall :=
  [CallInit 1000000 NormalMode; CallSend 0 example_stm_frame 5000 CanIOFlagLoopback;
   CallSelect (mkMasks 3 3) [None; None] 2000; Interrupts [IrqTx 0; IrqRx 1 0; IrqSce 1];
   CallReceive 0; CallReceive 1; CallHadActivity].

Lemma example_calls_ok : Forall call_ok example_calls.
Proof. repeat constructor; try (vm_compute; done); apply example_stm_frame_wf. Qed.

(** Both the frame that was looped back and the one that arrived are read. *)
Lemma example_received :
  (rxi_flags <$> (stm_run 10 36000000 example_stm example_calls).1) = [CanIOFlagLoopback; 0].
Proof. vm_compute. reflexivity. Qed.

End SimBoard.
Import SimCan SimBoard.

Lemma stm32_driver_is_type_safe_witness :
  let '(received, w) := stm_run 10 36000000 example_stm example_calls in
  length received = 2%nat /\ Forall Iface_wf (drv_if (st_driver w)) /\ Forall RxItem_wf received.
Proof.
  pose proof (stm32_driver_is_type_safe 10 36000000 two_devices 4 1000 example_calls
    ltac:(unfold MaxRxQueueCapacity; lia) example_calls_ok) as Hs.
  pose proof (f_equal length example_received) as Hl. rewrite length_fmap in Hl.
  unfold example_stm in *. destruct (stm_run _ _ _ _) as [received w].
  cbn [fst] in Hl. split; [exact Hl|exact Hs].
Defined.

(** A transmission that completes after [send] has entered its critical section
    frees its mailbox for the next frame; the interrupt then finds only that
    one, and the first frame is never looped back. *)
Example loopback_lost :
  let f n := mkCanFrame (0x80000000 + n) (replicate 8 0) 0 in
  (can_id ∘ rxi_frame <$>
   (stm_run 10 36000000 example_stm
     [CallInit 1000000 NormalMode; CallSend 0 (f 1) 5000 CanIOFlagLoopback;
      CallSend 0 (f 2) 5000 CanIOFlagLoopback; Interrupts [IrqTx 0]; CallReceive 0; CallReceive 0]).1)
  = [0x80000002].
Proof. vm_compute. reflexivity. Qed.
