(* ===== verification/Array.v ===== *)
(** * Array: the array types of messages

    Models [libuavcan/include/uavcan/marshal/array.hpp]: [StaticArrayBase],
    [DynamicArrayBase], [ArrayImpl] and [Array], in the build without exceptions,
    where an index out of range is moved to the closest valid one. The element
    type is a template argument: [RawType] is what the code uses of it, and both
    integers and arrays are such types, so arrays nest. The square matrix
    functions are in [SquareMatrix]. The contents of uninitialised storage are an
    argument ([mem]); the byte behind the elements that [c_str] sets is left out. *)

From stdpp Require Import list.
From S2P Require Import Prelude TransferBuffer BitStream ScalarCodec.
Local Open Scope Z_scope.

(** ** Types *)

Inductive TailArrayOptimizationMode := TailArrayOptDisabled | TailArrayOptEnabled.
Inductive ArrayMode := ArrayModeStatic | ArrayModeDynamic.

#[global] Instance Tao_eq_dec : EqDecision TailArrayOptimizationMode.
Proof. solve_decision. Defined.

(** [IntegerBitLen<Num>::Result]. *)
Fixpoint bit_len_pos (p : positive) : Z :=
  match p with xH => 1 | xO p | xI p => 1 + bit_len_pos p end.
Definition IntegerBitLen (num : Z) : Z := match num with Zpos p => bit_len_pos p | _ => 0 end.

(** [RawEncodedSizeType]. *)
Definition RawEncodedSizeType (MaxSize : Z) : IntegerSpec :=
  mkSpec (IntegerBitLen MaxSize) SignednessUnsigned CastModeSaturate.

(** What the templates use of an element type [T]: its bit lengths, the value
    [ValueType()], and its functions [encode] and [decode]. Messages are encoded
    into buffers of type [B] and decoded from buffers of type [B']. *)
Record RawType (V B B' : Type) := mkRawType {
  MinBitLen : Z;
  MaxBitLen : Z;
  raw_value : V;
  raw_encode : V -> BitStream B -> TailArrayOptimizationMode -> option (Z * BitStream B);
  raw_decode : V -> BitStream B' -> TailArrayOptimizationMode -> option (Z * V * BitStream B')
}.
Arguments mkRawType {V B B'}.
Arguments MinBitLen {V B B'}.
Arguments MaxBitLen {V B B'}.
Arguments raw_value {V B B'}.
Arguments raw_encode {V B B'}.
Arguments raw_decode {V B B'}.

(** The storage of an array and, for a dynamic one, its [size_]. *)
Record Array (V : Type) := mkArray { data_ : list V; size_ : Z }.
Arguments mkArray {V}.
Arguments data_ {V}.
Arguments size_ {V}.

(** ** Operations *)

Section ops.
Context (mode : ArrayMode) (MaxSize : Z) {V : Type} (dflt : V).
Abbreviation Arr := (Array V).

Definition size (a : Arr) : Z := match mode with ArrayModeStatic => MaxSize | ArrayModeDynamic => size_ a end.
Definition capacity : Z := MaxSize.

(** [validateRange]. *)
Definition validateRange (a : Arr) (pos : Z) : Z :=
  match mode with
  | ArrayModeStatic => if pos <? MaxSize then pos else MaxSize - 1
  | ArrayModeDynamic => if pos <? size_ a then pos else if size_ a =? 0 then 0 else size_ a - 1
  end.

(** [grow], [shrink], [clear] of [DynamicArrayBase]. *)
Definition grow (a : Arr) : Arr := if MaxSize <=? size_ a then a else mkArray (data_ a) (size_ a + 1).
Definition shrink (a : Arr) : Arr := if 0 <? size_ a then mkArray (data_ a) (size_ a - 1) else a.
Definition clear (a : Arr) : Arr := mkArray (data_ a) 0.

(** An assignment to the element [i] of the storage. C++ gives no meaning to one outside of the storage; here it leaves a cell behind the
    storage, which is never removed again, so that an array all of whose writes were inside is known by the length of its storage. *)
Definition store (l : list V) (i : Z) (v : V) : list V :=
  if (0 <=? i) && (i <? Z.of_nat (length l)) then <[Z.to_nat i := v]> l else l ++ [v].

(** [at], as a value and as the target of an assignment. *)
Definition at_ (a : Arr) (pos : Z) : V := nth (Z.to_nat (validateRange a pos)) (data_ a) dflt.
Definition set_at (a : Arr) (pos : Z) (v : V) : Arr :=
  mkArray (store (data_ a) (validateRange a pos) v) (size_ a).

Definition front (a : Arr) : V := at_ a 0.
Definition back (a : Arr) : V := at_ a (if size a =? 0 then 0 else size a - 1).
Definition empty (a : Arr) : bool := size a =? 0.

(** [Array::Array()]: only static arrays are filled. *)
Definition Array_make (mem : list V) : Arr :=
  match mode with
  | ArrayModeStatic => mkArray (replicate (Z.to_nat MaxSize) dflt) 0
  | ArrayModeDynamic => mkArray mem 0
  end.

Definition pop_back (a : Arr) : Arr := shrink a.
Definition push_back (a : Arr) (value : V) : Arr :=
  let a := grow a in set_at a (size a - 1) value.

(** [resize(SizeType, const ValueType&)]: the two [while] loops. *)
Definition resize (a : Arr) (new_size : Z) (filler : V) : Arr :=
  if size a <? new_size then Nat.iter (Z.to_nat (new_size - size a)) (fun a => push_back a filler) a
  else if new_size <? size a then Nat.iter (Z.to_nat (size a - new_size)) pop_back a
  else a.

(** The elements in use. *)
Definition items (a : Arr) : list V := take (Z.to_nat (size a)) (data_ a).

(** [operator==] with any container of elements [rhs]. *)
Definition array_eqb (eqb : V -> V -> bool) (a : Arr) (rhs : list V) : bool :=
  (size a =? Z.of_nat (length rhs)) &&
  forallb (fun i => match rhs !! Z.to_nat i with Some x => eqb (at_ a i) x | None => false end) (seqZ 0 (size a)).

(** [isClose] is [operator==] with another comparison. *)
Definition isClose (areClose : V -> V -> bool) (a : Arr) (rhs : list V) : bool := array_eqb areClose a rhs.

(** [operator+=] with the elements of another array, its overload
    with the characters of a string. *)
Definition append (a : Arr) (rhs : list V) : Arr := foldl push_back a rhs.

(** [operator=] with the characters of a string. *)
Definition assign (a : Arr) (ch : list V) : Arr := append (clear a) ch.

End ops.

(** [convertToUpperCaseASCII] and [convertToLowerCaseASCII] on arrays of characters. *)
Definition to_upper (x : Z) : Z := if (x <=? 122) && (97 <=? x) then x + (90 - 122) else x.
Definition to_lower (x : Z) : Z := if (x <=? 90) && (65 <=? x) then x - (90 - 122) else x.

Definition convert_case (mode : ArrayMode) (MaxSize : Z) (f : Z -> Z) (a : Array Z) : Array Z :=
  foldl (fun a i => set_at mode MaxSize a i (f (at_ mode MaxSize 0 a i))) a (seqZ 0 (size mode MaxSize a)).

(** ** Encoding and decoding *)

Section codec.
Context {B B' : Type} `{ITransferBuffer B} `{ITransferBuffer B'}.
Context (mode : ArrayMode) (MaxSize : Z) {V : Type} (T : RawType V B B').
Context (big_endian big_endian' : bool) (tmp tmp' : list Z).
Abbreviation Arr := (Array V).
Abbreviation len := (size mode MaxSize).

Definition isOptimizedTailArray (tao_mode : TailArrayOptimizationMode) : bool :=
  (8 <=? MinBitLen T) && bool_decide (tao_mode = TailArrayOptEnabled).

(** The loop of the static [encodeImpl] from index [i] on. *)
Fixpoint encode_items (n : nat) (i : Z) (a : Arr) (s : BitStream B) (tao_mode : TailArrayOptimizationMode) :
    option (Z * BitStream B) :=
  match n with
  | O => Some (1, s)
  | S n =>
      let last_item := i =? len a - 1 in
      '(res, s) ← raw_encode T (at_ mode MaxSize (raw_value T) a i) s
                    (if last_item then tao_mode else TailArrayOptDisabled);
      if res <=? 0 then Some (res, s) else encode_items n (i + 1) a s tao_mode
  end.

Definition encode_static (a : Arr) (s : BitStream B) (tao_mode : TailArrayOptimizationMode) :=
  encode_items (Z.to_nat (len a)) 0 a s tao_mode.

(** [encodeImpl], dynamic. *)
Definition encode_dynamic (a : Arr) (s : BitStream B) (tao_mode : TailArrayOptimizationMode) :
    option (Z * BitStream B) :=
  let self_tao_enabled := isOptimizedTailArray tao_mode in
  '(res_sz, s) ← (if self_tao_enabled then Some (1, s)
                   else Spec_encode big_endian tmp (RawEncodedSizeType MaxSize) s (len a));
  if res_sz <=? 0 then Some (res_sz, s)
  else if len a =? 0 then Some (1, s)
  else encode_static a s (if self_tao_enabled then TailArrayOptDisabled else tao_mode).

(** [Array::encode]. *)
Definition Array_encode (a : Arr) (s : BitStream B) (tao_mode : TailArrayOptimizationMode) : option (Z * BitStream B) :=
  match mode with
  | ArrayModeStatic => encode_static a s tao_mode
  | ArrayModeDynamic => encode_dynamic a s tao_mode
  end.

(** The loop of the static [decodeImpl] from index [i] on. *)
Fixpoint decode_items (n : nat) (i : Z) (a : Arr) (s : BitStream B') (tao_mode : TailArrayOptimizationMode) :
    option (Z * Arr * BitStream B') :=
  match n with
  | O => Some (1, a, s)
  | S n =>
      let last_item := i =? len a - 1 in
      '(res, value, s) ← raw_decode T (raw_value T) s (if last_item then tao_mode else TailArrayOptDisabled);
      if res <=? 0 then Some (res, a, s)
      else decode_items n (i + 1) (set_at mode MaxSize a i value) s tao_mode
  end.

Definition decode_static (a : Arr) (s : BitStream B') (tao_mode : TailArrayOptimizationMode) :=
  decode_items (Z.to_nat (len a)) 0 a s tao_mode.

(** The [while (true)] loop of the dynamic [decodeImpl]: every pass reads one
    element, and one more than [MaxSize] is an error. *)
Fixpoint decode_tail (fuel : nat) (a : Arr) (s : BitStream B') : option (Z * Arr * BitStream B') :=
  match fuel with
  | O => None
  | S fuel =>
      '(res, value, s) ← raw_decode T (raw_value T) s TailArrayOptDisabled;
      if res <? 0 then Some (res, a, s)
      else if res =? 0 then Some (1, a, s)
      else if len a =? MaxSize then Some (- ErrInvalidMarshalData, a, s)
      else decode_tail fuel (push_back mode MaxSize a value) s
  end.

(** [decodeImpl], dynamic. *)
Definition decode_dynamic (a : Arr) (s : BitStream B') (tao_mode : TailArrayOptimizationMode) :
    option (Z * Arr * BitStream B') :=
  let a := clear a in
  if isOptimizedTailArray tao_mode then decode_tail (S (Z.to_nat MaxSize)) a s
  else
    '(res_sz, sz, s) ← Spec_decode big_endian' tmp' (RawEncodedSizeType MaxSize) s 0;
    if res_sz <=? 0 then Some (res_sz, a, s)
    else if MaxSize <? sz then Some (- ErrInvalidMarshalData, a, s)
    else
      let a := resize mode MaxSize a sz (raw_value T) in
      if sz =? 0 then Some (1, a, s) else decode_static a s tao_mode.

(** [Array::decode]. *)
Definition Array_decode (a : Arr) (s : BitStream B') (tao_mode : TailArrayOptimizationMode) :
    option (Z * Arr * BitStream B') :=
  match mode with
  | ArrayModeStatic => decode_static a s tao_mode
  | ArrayModeDynamic => decode_dynamic a s tao_mode
  end.

(** [Array] as an element type. *)
Definition array_type (mem : list V) : RawType (Array V) B B' :=
  mkRawType
    (match mode with ArrayModeStatic => MinBitLen T * MaxSize | ArrayModeDynamic => 0 end)
    ((match mode with ArrayModeStatic => 0 | ArrayModeDynamic => is_BitLen (RawEncodedSizeType MaxSize) end)
     + MaxBitLen T * MaxSize)
    (Array_make mode MaxSize (raw_value T) mem) Array_encode Array_decode.

End codec.

(** [IntegerSpec] as an element type. *)
Definition integer_type {B B'} `{ITransferBuffer B} `{ITransferBuffer B'} (big_endian big_endian' : bool)
    (tmp tmp' : list Z) (t : IntegerSpec) : RawType Z B B' :=
  mkRawType (is_BitLen t) (is_BitLen t) 0 (fun v s _ => Spec_encode big_endian tmp t s v)
    (fun v s _ => Spec_decode big_endian' tmp' t s v).

(** ** Arrays as lists *)

Record Array_wf (mode : ArrayMode) (MaxSize : Z) {V} (P : V -> Prop) (a : Array V) : Prop := {
  aw_max : 1 <= MaxSize;
  aw_data : Z.of_nat (length (data_ a)) = MaxSize;
  aw_size : 0 <= size mode MaxSize a <= MaxSize;
  aw_items : Forall P (data_ a)
}.

Section lists.
Context (mode : ArrayMode) (MaxSize : Z) {V : Type} (dflt : V) (P : V -> Prop).
Abbreviation wf := (Array_wf mode MaxSize P).
Abbreviation its := (items mode MaxSize).

Lemma length_items a : wf a -> Z.of_nat (length (its a)) = size mode MaxSize a.
Proof. intros []. unfold items. rewrite length_take. lia. Qed.

Lemma validateRange_in a pos :
  wf a -> 0 <= pos < size mode MaxSize a -> validateRange mode MaxSize a pos = pos.
Proof.
  intros [] Hp. unfold validateRange, size in *. destruct mode; by rewrite (proj2 (Z.ltb_lt _ _)) by lia.
Qed.

(** Whatever the index, it is moved inside of the storage. *)
Lemma validateRange_range a pos : wf a -> 0 <= pos -> 0 <= validateRange mode MaxSize a pos < MaxSize.
Proof.
  intros [] Hp. unfold validateRange, size in *.
  destruct mode; [destruct (Z.ltb_spec pos MaxSize); lia|].
  destruct (Z.ltb_spec pos (size_ a)); [lia|]. destruct (Z.eqb_spec (size_ a) 0); lia.
Qed.

Lemma at_item a pos :
  wf a -> 0 <= pos < size mode MaxSize a -> its a !! Z.to_nat pos = Some (at_ mode MaxSize dflt a pos).
Proof.
  intros Hw Hp. unfold at_, items. rewrite validateRange_in by done. pose proof Hw as [].
  rewrite lookup_take_lt by lia. rewrite nth_lookup.
  destruct (lookup_lt_is_Some_2 (data_ a) (Z.to_nat pos) ltac:(lia)) as [x Ex]. by rewrite Ex.
Qed.

Lemma at_wf a pos : P dflt -> wf a -> P (at_ mode MaxSize dflt a pos).
Proof.
  intros Hd Hw. unfold at_. rewrite nth_lookup.
  destruct (data_ a !! _) eqn:E; cbn [from_option id]; [|done]. eapply Forall_lookup_1; [apply Hw|done].
Qed.

Lemma store_in (l : list V) i v : 0 <= i < Z.of_nat (length l) -> store l i v = <[Z.to_nat i := v]> l.
Proof. intros Hi. unfold store. destruct (Z.leb_spec 0 i), (Z.ltb_spec i (Z.of_nat (length l))); (done || lia). Qed.

(** Whatever the index, the write is inside of the storage. *)
Lemma set_at_wf a pos v : 0 <= pos -> P v -> wf a -> wf (set_at mode MaxSize a pos v).
Proof.
  intros Hpos Hv Hw. pose proof (validateRange_range a pos Hw Hpos). destruct Hw. unfold set_at. rewrite store_in by lia.
  split; cbn; try done; [by rewrite length_insert|by apply Forall_insert].
Qed.

Lemma set_at_items a pos v :
  wf a -> 0 <= pos < size mode MaxSize a ->
  size mode MaxSize (set_at mode MaxSize a pos v) = size mode MaxSize a /\
  its (set_at mode MaxSize a pos v) = <[Z.to_nat pos := v]> (its a).
Proof.
  intros Hw Hp. unfold items, set_at. rewrite validateRange_in by done. pose proof (aw_data _ _ _ a Hw). pose proof (aw_size _ _ _ a Hw). rewrite store_in by lia.
  assert (size mode MaxSize (mkArray (<[Z.to_nat pos:=v]> (data_ a)) (size_ a)) = size mode MaxSize a) as -> by (by destruct mode).
  split; [done|]. cbn [data_]. rewrite take_insert_lt by lia. done.
Qed.
End lists.

Section dynamic.
Context (MaxSize : Z) {V : Type} (dflt : V) (P : V -> Prop).
Abbreviation dyn := ArrayModeDynamic.
Abbreviation wf := (Array_wf dyn MaxSize P).
Abbreviation its := (items dyn MaxSize).

Lemma clear_ok a : wf a -> wf (clear a) /\ its (clear a) = [].
Proof. intros []. split; [|done]. split; cbn in *; try done. lia. Qed.

(** [push_back] appends; on a full array it replaces the last element. *)
Lemma push_back_ok a v :
  P v -> wf a ->
  wf (push_back dyn MaxSize a v) /\
  its (push_back dyn MaxSize a v) =
    (if size_ a <? MaxSize then its a else take (Z.to_nat (MaxSize - 1)) (its a)) ++ [v].
Proof.
  intros Hv Hw. pose proof Hw as [Hm Hd Hs Hi]. cbn [size] in Hs. unfold push_back, grow.
  destruct (Z.leb_spec MaxSize (size_ a)), (Z.ltb_spec (size_ a) MaxSize); try lia.
  - split; [apply set_at_wf; cbn; (done || lia)|]. cbn [size].
    destruct (set_at_items dyn MaxSize P a (size_ a - 1) v Hw) as [_ ->]; [cbn; lia|].
    assert (length (its a) = Z.to_nat MaxSize) as Hl by (pose proof (length_items dyn MaxSize P a Hw); cbn in *; lia).
    rewrite insert_take_drop by lia. rewrite drop_ge by lia. do 2 f_equal. lia.
  - set (b := mkArray (data_ a) (size_ a + 1)). assert (wf b) as Hb by (split; cbn; try done; lia).
    split; [apply set_at_wf; cbn; (done || lia)|]. change (size dyn MaxSize b - 1) with (size_ a + 1 - 1).
    destruct (set_at_items dyn MaxSize P b (size_ a + 1 - 1) v Hb) as [_ ->]; [cbn; lia|].
    unfold items. cbn [size b size_ data_]. replace (Z.to_nat (size_ a + 1 - 1)) with (Z.to_nat (size_ a)) by lia.
    replace (Z.to_nat (size_ a + 1)) with (S (Z.to_nat (size_ a))) by lia.
    destruct (lookup_lt_is_Some_2 (data_ a) (Z.to_nat (size_ a)) ltac:(lia)) as [x Ex].
    rewrite (take_S_r _ _ x Ex). rewrite insert_app_r_alt by (rewrite length_take; lia).
    rewrite length_take. replace (Z.to_nat (size_ a) - _)%nat with O by lia. done.
Qed.

Lemma pop_back_ok a :
  wf a -> wf (pop_back a) /\ its (pop_back a) = take (Z.to_nat (size_ a - 1)) (its a).
Proof.
  intros Hw. pose proof Hw as [Hm Hd Hs Hi]. cbn [size] in Hs. unfold pop_back, shrink.
  destruct (Z.ltb_spec 0 (size_ a)).
  - split; [split; cbn; try done; lia|]. unfold items. cbn. rewrite take_take. f_equal. lia.
  - split; [done|]. unfold items. cbn. rewrite take_take. f_equal. lia.
Qed.

Lemma size_push a v : wf a -> size_ a < MaxSize -> size_ (push_back dyn MaxSize a v) = size_ a + 1.
Proof. intros [] Hs. unfold push_back, grow. destruct (Z.leb_spec MaxSize (size_ a)); [lia|done]. Qed.

Lemma size_pop (a : Array V) : 0 < size_ a -> size_ (pop_back a) = size_ a - 1.
Proof. intros Hs. unfold pop_back, shrink. by rewrite (proj2 (Z.ltb_lt _ _)). Qed.

Lemma iter_push n a v :
  P v -> wf a -> size_ a + Z.of_nat n <= MaxSize ->
  wf (Nat.iter n (fun a => push_back dyn MaxSize a v) a) /\
  its (Nat.iter n (fun a => push_back dyn MaxSize a v) a) = its a ++ replicate n v /\
  size_ (Nat.iter n (fun a => push_back dyn MaxSize a v) a) = size_ a + Z.of_nat n.
Proof.
  intros Hv Hw. induction n as [|n IH]; intros Hn; cbn [replicate].
  { rewrite app_nil_r, Z.add_0_r. done. }
  destruct IH as (Hw' & Hi & Hs); [lia|].
  change (Nat.iter (S n) (fun a => push_back dyn MaxSize a v) a) with
    (push_back dyn MaxSize (Nat.iter n (fun a => push_back dyn MaxSize a v) a) v).
  destruct (push_back_ok _ v Hv Hw') as [Hw'' Hi''].
  split; [done|]. rewrite size_push by (done || lia). split; [|lia]. rewrite Hi'', Hi.
  rewrite (proj2 (Z.ltb_lt _ _)) by lia. rewrite <-app_assoc. f_equal.
  change (v :: replicate n v) with (replicate (S n) v). by rewrite replicate_S_end.
Qed.

Lemma iter_pop n a :
  wf a -> Z.of_nat n <= size_ a ->
  wf (Nat.iter n pop_back a) /\ its (Nat.iter n pop_back a) = take (Z.to_nat (size_ a - Z.of_nat n)) (its a) /\
  size_ (Nat.iter n pop_back a) = size_ a - Z.of_nat n.
Proof.
  intros Hw. induction n as [|n IH]; intros Hn.
  { change (Nat.iter 0 pop_back a) with a. rewrite Z.sub_0_r. split; [done|]. split; [|done].
    unfold items. cbn [size]. rewrite take_take. f_equal. lia. }
  destruct IH as (Hw' & Hi & Hs); [lia|]. change (Nat.iter (S n) pop_back a) with (pop_back (Nat.iter n pop_back a)).
  destruct (pop_back_ok _ Hw') as [Hw'' Hi'']. split; [done|]. rewrite Hi'', Hi, Hs, take_take.
  split; [f_equal; lia|]. rewrite size_pop by lia. lia.
Qed.

(** [resize] keeps the common part and fills the rest. *)
Lemma resize_ok a n v :
  P v -> wf a -> 0 <= n <= MaxSize ->
  wf (resize dyn MaxSize a n v) /\ size_ (resize dyn MaxSize a n v) = n /\
  its (resize dyn MaxSize a n v) = take (Z.to_nat n) (its a) ++ replicate (Z.to_nat (n - size_ a)) v.
Proof.
  intros Hv Hw Hn. pose proof Hw as [Hm Hd Hs Hi]. cbn [size] in Hs.
  pose proof (length_items dyn MaxSize P a Hw) as Hl. cbn [size] in Hl. unfold resize. cbn [size].
  destruct (Z.ltb_spec (size_ a) n).
  - destruct (iter_push (Z.to_nat (n - size_ a)) a v Hv Hw) as (? & -> & ->); [lia|].
    split; [done|]. split; [lia|]. rewrite (take_ge (its a)) by lia. done.
  - replace (Z.to_nat (n - size_ a)) with O by lia. cbn [replicate]. rewrite app_nil_r.
    destruct (Z.ltb_spec n (size_ a)).
    + destruct (iter_pop (Z.to_nat (size_ a - n)) a Hw) as (? & -> & ->); [lia|].
      split; [done|]. split; [lia|]. f_equal. lia.
    + split; [done|]. split; [lia|]. rewrite take_ge by lia. done.
Qed.

(** Appending fills the array up; what does not fit ends up in the last place. *)
Lemma append_ok l a :
  Forall P l -> wf a -> size_ a + Z.of_nat (length l) <= MaxSize ->
  wf (append dyn MaxSize a l) /\ its (append dyn MaxSize a l) = its a ++ l.
Proof.
  revert a. induction l as [|x l IH]; intros a Hl Hw Hn; cbn [append foldl length] in *; [by rewrite app_nil_r|].
  apply Forall_cons in Hl as [Hx Hl]. destruct (push_back_ok a x Hx Hw) as [Hw' Hi].
  rewrite (proj2 (Z.ltb_lt _ _)) in Hi by lia.
  destruct (IH (push_back dyn MaxSize a x) Hl Hw') as [Hw'' Hi'']; [rewrite size_push by (done || lia); lia|].
  split; [done|]. unfold append in Hi''. rewrite Hi'', Hi, <-app_assoc. done.
Qed.
End dynamic.

(** ** Comparison and conversion *)

Section comparison.
Context (mode : ArrayMode) (MaxSize : Z) {V : Type} (dflt : V) (P : V -> Prop).
Abbreviation wf := (Array_wf mode MaxSize P).
Abbreviation its := (items mode MaxSize).

(** [operator==] compares the elements in use. *)
Lemma array_eqb_ok (eqb : V -> V -> bool) a rhs :
  (forall x y, eqb x y = true <-> x = y) -> wf a -> array_eqb mode MaxSize dflt eqb a rhs = true <-> its a = rhs.
Proof.
  intros Heq Hw. pose proof (length_items mode MaxSize P a Hw) as Hl. unfold array_eqb.
  rewrite andb_true_iff, Z.eqb_eq, forallb_forall. split.
  - intros [Hlen Hall]. apply list_eq_same_length with (length rhs); [done|lia|].
    intros i x y Hi Hx Hy. specialize (Hall (Z.of_nat i)).
    rewrite Nat2Z.id, Hy in Hall. apply Heq.
    rewrite <-(Nat2Z.id i), (at_item mode MaxSize dflt P a) in Hx by (done || lia). injection Hx as <-.
    apply Hall. rewrite <-list_elem_of_In, elem_of_seqZ. lia.
  - intros <-. split; [lia|]. intros i. rewrite <-list_elem_of_In, elem_of_seqZ. intros Hi.
    rewrite (at_item mode MaxSize dflt P a) by (done || lia). by apply Heq.
Qed.
End comparison.

Lemma convert_loop mode MaxSize f n a :
  Array_wf mode MaxSize (fun _ => True) a -> Z.of_nat n <= size mode MaxSize a ->
  let a' := foldl (fun a i => set_at mode MaxSize a i (f (at_ mode MaxSize 0 a i))) a (seqZ 0 (Z.of_nat n)) in
  Array_wf mode MaxSize (fun _ => True) a' /\ size mode MaxSize a' = size mode MaxSize a /\
  items mode MaxSize a' = (f <$> take n (items mode MaxSize a)) ++ drop n (items mode MaxSize a).
Proof.
  intros Hw. induction n as [|n IH]; intros Hn; [done|]. cbv zeta in *. rewrite seqZ_S, foldl_app. cbn [foldl].
  destruct IH as (Hw' & Hs & Hi); [lia|]. set (b := foldl _ a _) in *. rewrite Z.add_0_l.
  destruct (set_at_items mode MaxSize _ b (Z.of_nat n) (f (at_ mode MaxSize 0 b (Z.of_nat n))) Hw') as [Hs2 Hi2]; [lia|].
  pose proof (length_items mode MaxSize _ a Hw) as Hl.
  split; [apply set_at_wf; (done || lia)|]. split; [lia|]. rewrite Hi2, Nat2Z.id.
  pose proof (at_item mode MaxSize 0 _ b (Z.of_nat n) Hw' ltac:(lia)) as Hat. rewrite Nat2Z.id in Hat.
  destruct (lookup_lt_is_Some_2 (items mode MaxSize a) n ltac:(lia)) as [x Hx].
  assert (length (f <$> take n (items mode MaxSize a)) = n) as Hlt by (rewrite length_fmap, length_take; lia).
  rewrite Hi, lookup_app_r, Hlt, Nat.sub_diag, lookup_drop, Nat.add_0_r, Hx in Hat by lia. injection Hat as Hat.
  rewrite <-Hat, Hi, insert_app_r_alt, Hlt, Nat.sub_diag by lia. rewrite (drop_S _ x n Hx), (take_S_r _ n x Hx), fmap_app.
  cbn. by rewrite <-app_assoc.
Qed.

(** The case conversions map every character. *)
Lemma convert_case_ok mode MaxSize f a :
  Array_wf mode MaxSize (fun _ => True) a ->
  items mode MaxSize (convert_case mode MaxSize f a) = f <$> items mode MaxSize a.
Proof.
  intros Hw. pose proof (length_items mode MaxSize _ a Hw) as Hl. pose proof (aw_size _ _ _ a Hw).
  destruct (convert_loop mode MaxSize f (Z.to_nat (size mode MaxSize a)) a Hw) as (_ & _ & Hi); [lia|].
  unfold convert_case. rewrite Z2Nat.id in Hi by lia. rewrite Hi, take_ge, drop_ge, app_nil_r by lia. done.
Qed.

(** Without exceptions, [push_back] on a full array replaces the last element. *)
Example full_array_replaces_last :
  items ArrayModeDynamic 2 (append ArrayModeDynamic 2 (mkArray [0; 0] 0) [1; 2; 3]) = [1; 3].
Proof. reflexivity. Qed.
