(* ===== verification/ArrayCodec.v ===== *)
(** * ArrayCodec: arrays survive encoding and decoding

    The interface [RawLaws] says what an element type of [Array] promises: what
    it writes, that reading it back gives the value cast to its type, and that
    reading arbitrary data ends with an answer. Integers keep it, and [Array]
    keeps it whenever its elements do, so the theorems hold for arrays of arrays
    of any depth. *)

From stdpp Require Import list.
From S2P Require Import Prelude TransferBuffer BitStream ScalarCodec Array.
Local Open Scope Z_scope.

(** What the values of a type are: the object in memory, the object that can be
    sent, what is received for what is sent, the length of the encoding, and the data that encodes a value. *)
Record RawSpec (V : Type) := mkRawSpec {
  rs_wf : V -> Prop;
  rs_ok : V -> Prop;
  rs_same : V -> V -> Prop;
  rs_bits : V -> TailArrayOptimizationMode -> Z;
  rs_at : list Z -> Z -> V -> TailArrayOptimizationMode -> Prop
}.
Arguments mkRawSpec {V}.
Arguments rs_wf {V}.
Arguments rs_ok {V}.
Arguments rs_same {V}.
Arguments rs_bits {V}.
Arguments rs_at {V}.

Section laws.
Context {B B' : Type} `{WritableBuffer B} `{ITransferBuffer B'}.

Abbreviation tao := TailArrayOptimizationMode.

(** From this bit on there are only zeros. *)
Definition clear_from (content : list Z) (offset : Z) : Prop := forall i, offset <= i -> bit_at content i = false.

(** The data ends less than a byte after the value, and the rest of the last byte
    is clear: what tail array optimisation needs. *)
Definition at_end (t : tao) (content : list Z) (offset bits : Z) : Prop :=
  t = TailArrayOptEnabled -> 8 * Z.of_nat (length content) < offset + bits + 8 /\ clear_from content (offset + bits).

Lemma at_end_after t c o x y : at_end t c o (x + y) -> at_end t c (o + x) y.
Proof. unfold at_end. by rewrite Z.add_assoc. Qed.

Record RawLaws {V} (T : RawType V B B') (Sp : RawSpec V) : Prop := {
  rl_value : rs_wf Sp (raw_value T);
  rl_min : 0 <= MinBitLen T;
  rl_bits_nonneg v t : rs_ok Sp v -> 0 <= rs_bits Sp v t;
  rl_at_ext c c' o v t : rs_ok Sp v ->
    (forall i, o <= i < o + rs_bits Sp v t -> bit_at c' i = bit_at c i) -> rs_at Sp c o v t -> rs_at Sp c' o v t;
  rl_encode v t (s : BitStream B) :
    rs_ok Sp v -> Writer s -> bit_offset_ s + rs_bits Sp v t <= 8 * wb_capacity (buf_ s) ->
    exists s', raw_encode T v s t = Some (ResultOk, s') /\ Writer s' /\
      bit_offset_ s' = bit_offset_ s + rs_bits Sp v t /\ wb_capacity (buf_ s') = wb_capacity (buf_ s) /\
      (forall i, 0 <= i < bit_offset_ s -> bit_at (wb_content (buf_ s')) i = bit_at (wb_content (buf_ s)) i) /\
      rs_at Sp (wb_content (buf_ s')) (bit_offset_ s) v t;
  rl_decode v t v0 (s : BitStream B') content :
    rs_ok Sp v -> rs_wf Sp v0 -> Readable (buf_ s) content -> 8 * Z.of_nat (length content) < 2 ^ 31 ->
    0 <= bit_offset_ s -> bit_offset_ s + rs_bits Sp v t <= 8 * Z.of_nat (length content) ->
    at_end t content (bit_offset_ s) (rs_bits Sp v t) -> rs_at Sp content (bit_offset_ s) v t ->
    exists v' s', raw_decode T v0 s t = Some (ResultOk, v', s') /\ rs_wf Sp v' /\ rs_same Sp v v' /\
      (t = TailArrayOptDisabled -> buf_ s' = buf_ s /\ bit_offset_ s' = bit_offset_ s + rs_bits Sp v t);
  rl_any t v0 (s : BitStream B') content :
    rs_wf Sp v0 -> Readable (buf_ s) content -> 8 * Z.of_nat (length content) < 2 ^ 31 ->
    0 <= bit_offset_ s <= 8 * Z.of_nat (length content) ->
    exists r v' s', raw_decode T v0 s t = Some (r, v', s') /\ rs_wf Sp v' /\ buf_ s' = buf_ s /\
      bit_offset_ s <= bit_offset_ s' <= 8 * Z.of_nat (length content) /\
      (0 < r -> bit_offset_ s + MinBitLen T <= bit_offset_ s') /\
      (t = TailArrayOptDisabled -> clear_from content (bit_offset_ s) -> 0 <= r <= 1)
}.

(** ** Integers *)

Lemma bits_exist (f : Z -> bool) (n : nat) : exists v, forall m, 0 <= m < Z.of_nat n -> Z.testbit v m = f m.
Proof.
  induction n as [|n [v IH]]; [exists 0; lia|].
  exists (if f (Z.of_nat n) then Z.setbit v (Z.of_nat n) else Z.clearbit v (Z.of_nat n)).
  intros m Hm. destruct (decide (m = Z.of_nat n)) as [->|Hne].
  - destruct (f (Z.of_nat n)) eqn:E; [rewrite Z.setbit_eqb by lia; by rewrite Z.eqb_refl|].
    rewrite Z.clearbit_eqb, Z.eqb_refl. apply andb_false_r.
  - rewrite <-(IH m) by lia. destruct (f (Z.of_nat n)).
    + rewrite Z.setbit_eqb by lia. destruct (Z.eqb_spec (Z.of_nat n) m); [lia|done].
    + rewrite Z.clearbit_eqb. destruct (Z.eqb_spec (Z.of_nat n) m); [lia|apply andb_true_r].
Qed.

(** Any data is some integer. *)
Lemma encodes_exist content o L : exists v, encodes content o L v.
Proof.
  destruct (bits_exist (fun m => bit_at content (o + pos L m)) (Z.to_nat L)) as [v Hv].
  exists v. intros m Hm. rewrite Hv by lia. done.
Qed.

Section integers_out.
Context (big_endian : bool) (tmp : list Z) (Ht : length tmp = 17%nat) (Htb : bytes tmp).

Lemma Spec_encode_ok t v (s : BitStream B) :
  spec_ok t -> Writer s -> bit_offset_ s + is_BitLen t <= 8 * wb_capacity (buf_ s) ->
  exists s', Spec_encode big_endian tmp t s v = Some (ResultOk, s') /\ Writer s' /\
    bit_offset_ s' = bit_offset_ s + is_BitLen t /\ wb_capacity (buf_ s') = wb_capacity (buf_ s) /\
    (forall i, 0 <= i < bit_offset_ s -> bit_at (wb_content (buf_ s')) i = bit_at (wb_content (buf_ s)) i) /\
    encodes (wb_content (buf_ s')) (bit_offset_ s) (is_BitLen t) (cast t v).
Proof. intros Hok Hw Hfit. apply encode_ok; try done. by apply spec_args. Qed.

End integers_out.

Section integers_in.
Context (big_endian' : bool) (tmp' : list Z) (Ht' : length tmp' = 17%nat).

Lemma Spec_decode_ok t v old (s : BitStream B') content :
  spec_ok t -> Readable (buf_ s) content -> 8 * Z.of_nat (length content) < 2 ^ 31 ->
  0 <= bit_offset_ s -> bit_offset_ s + is_BitLen t <= 8 * Z.of_nat (length content) ->
  encodes content (bit_offset_ s) (is_BitLen t) v ->
  Spec_decode big_endian' tmp' t s old =
    Some (ResultOk, reduced (IsSigned t) (is_BitLen t) v,
          mkStream (buf_ s) (bit_offset_ s + is_BitLen t) (byte_cache_ s)).
Proof.
  intros Hok Hr Hmax Ho Hfit He. unfold Spec_decode. apply decode_ok with content; try done; try lia.
  - by apply spec_args.
  - apply (so_signed t Hok).
Qed.

(** Reading an integer from any data. *)
Lemma Spec_decode_any t old (s : BitStream B') content :
  spec_ok t -> Readable (buf_ s) content -> 8 * Z.of_nat (length content) < 2 ^ 31 ->
  0 <= bit_offset_ s <= 8 * Z.of_nat (length content) ->
  (Spec_decode big_endian' tmp' t s old = Some (ResultOutOfBuffer, old, s) /\
   8 * Z.of_nat (length content) < bit_offset_ s + is_BitLen t) \/
  exists v, Spec_decode big_endian' tmp' t s old =
    Some (ResultOk, reduced (IsSigned t) (is_BitLen t) v,
          mkStream (buf_ s) (bit_offset_ s + is_BitLen t) (byte_cache_ s)) /\
    bit_offset_ s + is_BitLen t <= 8 * Z.of_nat (length content).
Proof.
  intros Hok Hr Hmax Ho.
  destruct (Z.ltb_spec (8 * Z.of_nat (length content)) (bit_offset_ s + is_BitLen t)).
  - left. split; [|done]. apply decode_end with content; try done. lia.
  - right. destruct (encodes_exist content (bit_offset_ s) (is_BitLen t)) as [v Hv]. exists v.
    split; [|done]. apply Spec_decode_ok with content; try done; lia.
Qed.

(** Zeros are read as zero. *)
Lemma Spec_decode_zero t old (s : BitStream B') content :
  spec_ok t -> Readable (buf_ s) content -> 8 * Z.of_nat (length content) < 2 ^ 31 ->
  0 <= bit_offset_ s -> bit_offset_ s + is_BitLen t <= 8 * Z.of_nat (length content) ->
  clear_from content (bit_offset_ s) ->
  Spec_decode big_endian' tmp' t s old =
    Some (ResultOk, 0, mkStream (buf_ s) (bit_offset_ s + is_BitLen t) (byte_cache_ s)).
Proof.
  intros Hok Hr Hmax Ho Hfit Hz. rewrite (Spec_decode_ok t 0 old s content) by
    (done || (intros m Hm; pose proof (pos_range (is_BitLen t) m Hm); rewrite Z.testbit_0_l, Hz by lia; done)).
  rewrite reduced_range; [done|done|]. pose proof (so_len t Hok). unfold in_range.
  pose proof (Z.pow_pos_nonneg 2 (is_BitLen t - 1)). pose proof (Z.pow_pos_nonneg 2 (is_BitLen t)).
  destruct (IsSigned t); lia.
Qed.

End integers_in.

Section integers.
Context (big_endian big_endian' : bool) (tmp tmp' : list Z).
Context (Ht : length tmp = 17%nat) (Htb : bytes tmp) (Ht' : length tmp' = 17%nat).

Definition integer_spec (t : IntegerSpec) : RawSpec Z :=
  mkRawSpec (fun _ => True) (fun _ => True) (fun v v' => v' = delivered t v) (fun _ _ => is_BitLen t)
    (fun c o v _ => encodes c o (is_BitLen t) (cast t v)).

Lemma integer_laws t :
  spec_ok t -> RawLaws (integer_type (B := B) (B' := B') big_endian big_endian' tmp tmp' t) (integer_spec t).
Proof.
  intros Hok. split; cbn [integer_spec integer_type MinBitLen raw_encode raw_decode raw_value rs_wf rs_ok rs_same rs_bits rs_at].
  - done.
  - pose proof (so_len t Hok). lia.
  - intros. pose proof (so_len t Hok). lia.
  - intros c c' o v _ _ Hext He m Hm. pose proof (pos_range (is_BitLen t) m Hm).
    rewrite Hext by lia. by apply He.
  - intros v _ s _ Hw Hfit. by apply Spec_encode_ok.
  - intros v tm v0 s content _ _ Hr Hmax Ho Hfit _ Hat.
    exists (delivered t v), (mkStream (buf_ s) (bit_offset_ s + is_BitLen t) (byte_cache_ s)).
    rewrite (Spec_decode_ok big_endian' tmp' Ht' t (cast t v) v0 s content) by done.
    rewrite cast_delivered by done. done.
  - intros tm v0 s content _ Hr Hmax Ho. pose proof (so_len t Hok).
    destruct (Spec_decode_any big_endian' tmp' Ht' t v0 s content Hok Hr Hmax Ho) as [[E Hend]|(v & E & Hfit)]; rewrite E.
    + exists ResultOutOfBuffer, v0, s. unfold ResultOutOfBuffer. repeat split; lia.
    + exists ResultOk. eexists _, _. split; [reflexivity|]. cbn [buf_ bit_offset_].
      unfold ResultOk. repeat split; lia.
Qed.
End integers.

(** ** Arrays *)

Lemma bit_len_pos_spec p : 1 <= bit_len_pos p /\ 2 ^ (bit_len_pos p - 1) <= Zpos p < 2 ^ bit_len_pos p.
Proof.
  induction p as [p IH|p IH|]; cbn [bit_len_pos].
  - destruct IH as [Hp1 Hp2]. replace (1 + bit_len_pos p - 1) with (Z.succ (bit_len_pos p - 1)) by lia.
    replace (1 + bit_len_pos p) with (Z.succ (bit_len_pos p)) by lia. rewrite !Z.pow_succ_r by lia. lia.
  - destruct IH as [Hp1 Hp2]. replace (1 + bit_len_pos p - 1) with (Z.succ (bit_len_pos p - 1)) by lia.
    replace (1 + bit_len_pos p) with (Z.succ (bit_len_pos p)) by lia. rewrite !Z.pow_succ_r by lia. lia.
  - done.
Qed.

(** The size field has room for every size. *)
Lemma IntegerBitLen_spec n : 1 <= n -> 1 <= IntegerBitLen n /\ 2 ^ (IntegerBitLen n - 1) <= n < 2 ^ IntegerBitLen n.
Proof. destruct n; [lia| |lia]. intros _. apply bit_len_pos_spec. Qed.

Lemma size_spec_ok n : 1 <= n < 2 ^ 32 -> spec_ok (RawEncodedSizeType n).
Proof.
  intros Hn. destruct (IntegerBitLen_spec n) as [Hp1 Hp2]; [lia|]. split; [|done]. cbn [RawEncodedSizeType is_BitLen].
  split; [done|]. destruct (decide (IntegerBitLen n <= 64)); [done|].
  pose proof (Z.pow_le_mono_r 2 32 (IntegerBitLen n - 1) ltac:(lia) ltac:(lia)). lia.
Qed.

Lemma size_bits_pos n : 1 <= n < 2 ^ 32 -> 1 <= is_BitLen (RawEncodedSizeType n).
Proof. intros Hn. destruct (IntegerBitLen_spec n); [lia|done]. Qed.

(** The size field of an array in memory arrives as it is. *)
Lemma size_delivered M n : 1 <= M < 2 ^ 32 -> 0 <= n <= M -> delivered (RawEncodedSizeType M) n = n.
Proof.
  intros HM Hn. apply delivered_in_range; [by apply size_spec_ok|]. unfold in_range. cbn [IsSigned RawEncodedSizeType is_Signedness is_BitLen].
  destruct (IntegerBitLen_spec M); lia.
Qed.

Section arrays.
Context {V : Type} (T : RawType V B B') (Sp : RawSpec V) (L : RawLaws T Sp).
Context (mode : ArrayMode) (MaxSize : Z).

Abbreviation wf := (Array_wf mode MaxSize (rs_wf Sp)).
Abbreviation its := (items mode MaxSize).
Abbreviation len a := (size mode MaxSize a).
Abbreviation bits := (rs_bits Sp).
Abbreviation Off := TailArrayOptDisabled.

(** The elements one after the other; the last one gets the mode of the array. *)
Fixpoint items_bits (l : list V) (t : tao) : Z :=
  match l with
  | [] => 0
  | x :: l' => match l' with [] => bits x t | _ => bits x Off + items_bits l' t end
  end.

Fixpoint items_at (c : list Z) (o : Z) (l : list V) (t : tao) : Prop :=
  match l with
  | [] => True
  | x :: l' =>
      match l' with
      | [] => rs_at Sp c o x t
      | _ => rs_at Sp c o x Off /\ items_at c (o + bits x Off) l' t
      end
  end.

(** The mode of the first element of a list. *)
Definition head_mode (l : list V) (t : tao) : tao := match l with [_] => t | _ => Off end.

Lemma items_bits_cons x l t : items_bits (x :: l) t = bits x (head_mode (x :: l) t) + items_bits l t.
Proof. destruct l; cbn; lia. Qed.

Lemma items_at_cons c o x l t :
  items_at c o (x :: l) t <->
  rs_at Sp c o x (head_mode (x :: l) t) /\ items_at c (o + bits x (head_mode (x :: l) t)) l t.
Proof. destruct l; cbn; [|done]. split; [done|]. by intros [? _]. Qed.

Lemma items_bits_nonneg l t : Forall (rs_ok Sp) l -> 0 <= items_bits l t.
Proof.
  induction 1 as [|x l Hx Hl IH]; [done|]. rewrite items_bits_cons.
  pose proof (rl_bits_nonneg T Sp L x (head_mode (x :: l) t) Hx). lia.
Qed.

Lemma items_at_ext c c' o l t :
  Forall (rs_ok Sp) l -> (forall i, o <= i < o + items_bits l t -> bit_at c' i = bit_at c i) ->
  items_at c o l t -> items_at c' o l t.
Proof.
  intros Hl. revert o. induction Hl as [|x l Hx Hl IH]; intros o He; [done|].
  rewrite !items_at_cons. rewrite items_bits_cons in He. intros [Hx1 Hx2].
  pose proof (rl_bits_nonneg T Sp L x (head_mode (x :: l) t) Hx). pose proof (items_bits_nonneg l t Hl). split.
  - apply (rl_at_ext T Sp L c); try done. intros i Hi. apply He. lia.
  - apply (IH (o + bits x (head_mode (x :: l) t))); [|done]. intros i Hi. apply He. lia.
Qed.

(** The elements from index [i] on. *)
Lemma drop_items a i :
  wf a -> 0 <= i < len a ->
  drop (Z.to_nat i) (its a) = at_ mode MaxSize (raw_value T) a i :: drop (Z.to_nat (i + 1)) (its a).
Proof.
  intros Hw Hi. replace (Z.to_nat (i + 1)) with (S (Z.to_nat i)) by lia.
  apply drop_S. by apply at_item with (rs_wf Sp).
Qed.

Lemma head_mode_last a i t :
  wf a -> 0 <= i < len a ->
  head_mode (drop (Z.to_nat i) (its a)) t = if i =? len a - 1 then t else Off.
Proof.
  intros Hw Hi. pose proof (length_items mode MaxSize _ a Hw) as Hl. rewrite drop_items by done.
  destruct (Z.eqb_spec i (len a - 1)).
  - rewrite drop_ge by lia. done.
  - destruct (drop (Z.to_nat (i + 1)) (its a)) as [|y l] eqn:E; [|done].
    apply (f_equal length) in E. rewrite length_drop in E. cbn in E. lia.
Qed.

Lemma encode_items_ok n i a (s : BitStream B) t :
  wf a -> Forall (rs_ok Sp) (its a) -> 0 <= i -> i + Z.of_nat n = len a -> Writer s ->
  bit_offset_ s + items_bits (drop (Z.to_nat i) (its a)) t <= 8 * wb_capacity (buf_ s) ->
  exists s', encode_items mode MaxSize T n i a s t = Some (ResultOk, s') /\ Writer s' /\
    bit_offset_ s' = bit_offset_ s + items_bits (drop (Z.to_nat i) (its a)) t /\
    wb_capacity (buf_ s') = wb_capacity (buf_ s) /\
    (forall k, 0 <= k < bit_offset_ s -> bit_at (wb_content (buf_ s')) k = bit_at (wb_content (buf_ s)) k) /\
    items_at (wb_content (buf_ s')) (bit_offset_ s) (drop (Z.to_nat i) (its a)) t.
Proof.
  intros Hw Hok. revert i s. induction n as [|n IH]; intros i s Hi Hn Hs Hfit; cbn [encode_items].
  { pose proof (length_items mode MaxSize _ a Hw). rewrite drop_ge in Hfit |- * by lia. cbn in *.
    exists s. split_and!; try done. lia. }
  assert (0 <= i < len a) as Hil by lia.
  pose proof (head_mode_last a i t Hw Hil) as Hmode. rewrite drop_items in Hfit, Hmode |- * by done.
  rewrite items_bits_cons, Hmode in Hfit.
  pose proof (Forall_lookup_1 _ _ _ _ Hok (at_item mode MaxSize (raw_value T) (rs_wf Sp) a i Hw Hil)) as Hx.
  set (x := at_ mode MaxSize (raw_value T) a i) in *.
  assert (Forall (rs_ok Sp) (drop (Z.to_nat (i + 1)) (its a))) as Hrest by (by apply Forall_drop).
  pose proof (items_bits_nonneg _ t Hrest) as Hpos.
  destruct (rl_encode T Sp L x (if i =? len a - 1 then t else Off) s Hx Hs) as (s1 & E1 & Hs1 & Ho1 & Hc1 & Hk1 & Ha1); [lia|].
  rewrite E1. cbn [mbind option_bind]. change (ResultOk <=? 0) with false. cbn iota.
  pose proof (rl_bits_nonneg T Sp L x (if i =? len a - 1 then t else Off) Hx) as Hbx.
  pose proof (wr_offset s Hs) as Hos.
  destruct (IH (i + 1) s1) as (s2 & E2 & Hs2 & Ho2 & Hc2 & Hk2 & Ha2); [lia|lia|done|rewrite Ho1, Hc1; lia|].
  exists s2. rewrite E2, items_bits_cons, items_at_cons, Hmode.
  split_and!; [done|done|rewrite Ho2, Ho1; lia|by rewrite Hc2| | |].
  - intros k Hk. rewrite Hk2 by lia. by apply Hk1.
  - apply (rl_at_ext T Sp L (wb_content (buf_ s1))); try done. intros k Hk. apply Hk2. lia.
  - by rewrite Ho1 in Ha2.
Qed.

(** The static loop writes all elements. *)
Lemma encode_static_ok a (s : BitStream B) t :
  wf a -> Forall (rs_ok Sp) (its a) -> Writer s -> bit_offset_ s + items_bits (its a) t <= 8 * wb_capacity (buf_ s) ->
  exists s', encode_static mode MaxSize T a s t = Some (ResultOk, s') /\ Writer s' /\
    bit_offset_ s' = bit_offset_ s + items_bits (its a) t /\ wb_capacity (buf_ s') = wb_capacity (buf_ s) /\
    (forall k, 0 <= k < bit_offset_ s -> bit_at (wb_content (buf_ s')) k = bit_at (wb_content (buf_ s)) k) /\
    items_at (wb_content (buf_ s')) (bit_offset_ s) (its a) t.
Proof.
  intros Hw Hok Hs Hfit. pose proof (aw_size mode MaxSize _ a Hw).
  destruct (encode_items_ok (Z.to_nat (len a)) 0 a s t Hw Hok) as (s' & E & R);
    [lia|lia|done|by rewrite drop_0|]. rewrite drop_0 in R. exists s'. split; [exact E|exact R].
Qed.

(** Reading elements into the places from [i] on. *)
Lemma decode_items_ok n i l a (s : BitStream B') t content :
  wf a -> Forall (rs_ok Sp) l -> 0 <= i -> i + Z.of_nat n = len a -> length l = n ->
  Readable (buf_ s) content -> 8 * Z.of_nat (length content) < 2 ^ 31 -> 0 <= bit_offset_ s ->
  bit_offset_ s + items_bits l t <= 8 * Z.of_nat (length content) ->
  at_end t content (bit_offset_ s) (items_bits l t) -> items_at content (bit_offset_ s) l t ->
  exists a' s', decode_items mode MaxSize T n i a s t = Some (ResultOk, a', s') /\ wf a' /\ len a' = len a /\
    (exists l', Forall2 (rs_same Sp) l l' /\ its a' = take (Z.to_nat i) (its a) ++ l') /\
    (t = Off -> buf_ s' = buf_ s /\ bit_offset_ s' = bit_offset_ s + items_bits l t).
Proof.
  intros Hw Hl. revert i a s Hw n. induction Hl as [|x l Hx Hl IH]; intros i a s Hw n Hi Hn Hln Hr Hmax Ho Hfit Hend Hat.
  { cbn in Hln. subst n. cbn [decode_items]. exists a, s. split_and!; try done.
    - exists []. split; [constructor|]. rewrite app_nil_r, take_ge; [done|].
      pose proof (length_items mode MaxSize _ a Hw). lia.
    - intros _. cbn. split; [done|lia]. }
  destruct n as [|n]; [done|]. cbn in Hln. injection Hln as Hln. cbn [decode_items].
  assert (0 <= i < len a) as Hil by lia.
  assert ((if i =? len a - 1 then t else Off) = head_mode (x :: l) t) as ->.
  { destruct (Z.eqb_spec i (len a - 1)); destruct l; cbn in *; try done; lia. }
  rewrite items_at_cons in Hat. destruct Hat as [Hax Hal].
  rewrite items_bits_cons in Hfit. rewrite items_bits_cons in Hend.
  set (m := head_mode (x :: l) t) in *.
  pose proof (rl_bits_nonneg T Sp L x m Hx) as Hbx. pose proof (items_bits_nonneg l t Hl) as Hbl.
  destruct (rl_decode T Sp L x m (raw_value T) s content Hx (rl_value T Sp L) Hr Hmax Ho)
    as (x' & s1 & E1 & Hx' & Hsame & Hs1); [lia| |done|].
  { intros Hm. unfold m in Hm. destruct l as [|y l]; [|done]. cbn in Hm, Hend. unfold m. cbn [head_mode].
    rewrite Z.add_0_r in Hend. by apply Hend. }
  rewrite E1. cbn [mbind option_bind]. change (ResultOk <=? 0) with false. cbn iota.
  destruct (set_at_items mode MaxSize _ a i x' Hw Hil) as [Hlen Hits].
  pose proof (set_at_wf mode MaxSize _ a i x' ltac:(lia) Hx' Hw) as Hw1. set (a1 := set_at mode MaxSize a i x') in *.
  assert (take (Z.to_nat (i + 1)) (its a1) = take (Z.to_nat i) (its a) ++ [x']) as Htake.
  { rewrite Hits. replace (Z.to_nat (i + 1)) with (S (Z.to_nat i)) by lia.
    pose proof (length_items mode MaxSize _ a Hw). rewrite (take_S_r _ _ x') by (apply list_lookup_insert_eq; lia).
    by rewrite take_insert_ge. }
  destruct l as [|y l].
  - cbn in Hln. subst n. cbn [decode_items]. exists a1, s1. split_and!; try done.
    exists [x']. split; [by constructor|]. rewrite <-Htake. rewrite take_ge; [done|].
    pose proof (length_items mode MaxSize _ a1 Hw1). lia.
  - destruct (Hs1 eq_refl) as [Hbuf Hoff]. change m with Off in *.
    destruct (IH (i + 1) a1 s1 Hw1 n) as (a2 & s2 & E2 & Hw2 & Hlen2 & (l' & Hl' & Hits2) & Hs2);
      [lia|lia|done|by rewrite Hbuf|done|lia|rewrite Hoff; lia| |by rewrite Hoff|].
    { rewrite Hoff. by apply at_end_after. }
    exists a2, s2. split_and!; [done|done|lia| |].
    + exists (x' :: l'). split; [by constructor|]. rewrite Hits2, Htake, <-app_assoc. done.
    + intros Htao. destruct (Hs2 Htao) as [-> ->]. rewrite Hbuf, Hoff, (items_bits_cons x). split; [done|]. cbn [head_mode]. lia.
Qed.

(** The same for any data. *)
Lemma decode_items_any n i a (s : BitStream B') t content :
  wf a -> 0 <= i -> i + Z.of_nat n = len a ->
  Readable (buf_ s) content -> 8 * Z.of_nat (length content) < 2 ^ 31 ->
  0 <= bit_offset_ s <= 8 * Z.of_nat (length content) ->
  exists r a' s', decode_items mode MaxSize T n i a s t = Some (r, a', s') /\ wf a' /\ buf_ s' = buf_ s /\
    bit_offset_ s <= bit_offset_ s' <= 8 * Z.of_nat (length content) /\
    (0 < r -> bit_offset_ s + MinBitLen T * Z.of_nat n <= bit_offset_ s') /\
    (t = Off -> clear_from content (bit_offset_ s) -> 0 <= r <= 1).
Proof.
  revert i a s. induction n as [|n IH]; intros i a s Hw Hi Hn Hr Hmax Ho; cbn [decode_items].
  { exists 1, a, s. split_and!; try done; try lia. }
  destruct (rl_any T Sp L (if i =? len a - 1 then t else Off) (raw_value T) s content (rl_value T Sp L) Hr Hmax Ho)
    as (r & x' & s1 & E1 & Hx' & Hb1 & Ho1 & Hmin & Hsign).
  rewrite E1. cbn [mbind option_bind]. destruct (Z.leb_spec r 0).
  { exists r, a, s1. split_and!; try done; try lia. intros -> Hz. apply Hsign; [by destruct (i =? len a - 1)|done]. }
  assert (0 <= i < len a) as Hil by lia.
  destruct (set_at_items mode MaxSize _ a i x' Hw Hil) as [Hlen _].
  destruct (IH (i + 1) (set_at mode MaxSize a i x') s1) as (r2 & a2 & s2 & E2 & Hw2 & Hb2 & Ho2 & Hmin2 & Hsign2);
    [apply set_at_wf; (done || lia)|lia|lia|by rewrite Hb1|done|lia|].
  pose proof (rl_min T Sp L).
  exists r2, a2, s2. split_and!; [done|done|congruence|lia|lia| |].
  - intros Hr2. specialize (Hmin2 Hr2). specialize (Hmin ltac:(lia)). lia.
  - intros Ht Hz. apply Hsign2; [done|]. intros k Hk. apply Hz. lia.
Qed.
Lemma tao_enabled t : isOptimizedTailArray T t = true -> t = TailArrayOptEnabled /\ 8 <= MinBitLen T.
Proof.
  unfold isOptimizedTailArray. intros [Hm Ht0%bool_decide_eq_true]%andb_true_iff. split; [done|lia].
Qed.

(** The static loop into an array of the right size. *)
Lemma decode_static_ok (a0 : Array V) l (s : BitStream B') t content :
  wf a0 -> Forall (rs_ok Sp) l -> Z.of_nat (length l) = len a0 ->
  Readable (buf_ s) content -> 8 * Z.of_nat (length content) < 2 ^ 31 -> 0 <= bit_offset_ s ->
  bit_offset_ s + items_bits l t <= 8 * Z.of_nat (length content) ->
  at_end t content (bit_offset_ s) (items_bits l t) -> items_at content (bit_offset_ s) l t ->
  exists a' s', decode_static mode MaxSize T a0 s t = Some (ResultOk, a', s') /\ wf a' /\
    Forall2 (rs_same Sp) l (its a') /\
    (t = Off -> buf_ s' = buf_ s /\ bit_offset_ s' = bit_offset_ s + items_bits l t).
Proof.
  intros Hw Hl Hlen Hr Hmax Ho Hfit Hend Hat.
  destruct (decode_items_ok (Z.to_nat (len a0)) 0 l a0 s t content)
    as (a' & s' & E & Hw' & _ & (l' & Hl' & Hi') & Hs'); try done; try lia.
  exists a', s'. split; [done|]. split; [done|]. cbn [take app Z.to_nat] in Hi'. rewrite take_0 in Hi'. cbn in Hi'.
  rewrite Hi'. done.
Qed.
End arrays.

Section dynamic_arrays.
Context {V : Type} (T : RawType V B B') (Sp : RawSpec V) (L : RawLaws T Sp) (MaxSize : Z).
Abbreviation dyn := ArrayModeDynamic.
Abbreviation wf := (Array_wf dyn MaxSize (rs_wf Sp)).
Abbreviation its := (items dyn MaxSize).
Abbreviation Off := TailArrayOptDisabled.

(** Reading elements up to the end of the data. *)
Lemma decode_tail_ok fuel l a (s : BitStream B') content :
  8 <= MinBitLen T -> wf a -> Forall (rs_ok Sp) l -> (length l < fuel)%nat -> size_ a + Z.of_nat (length l) <= MaxSize ->
  Readable (buf_ s) content -> 8 * Z.of_nat (length content) < 2 ^ 31 -> 0 <= bit_offset_ s ->
  bit_offset_ s + items_bits Sp l Off <= 8 * Z.of_nat (length content) ->
  8 * Z.of_nat (length content) < bit_offset_ s + items_bits Sp l Off + 8 ->
  clear_from content (bit_offset_ s + items_bits Sp l Off) -> items_at Sp content (bit_offset_ s) l Off ->
  exists a' s', decode_tail dyn MaxSize T fuel a s = Some (1, a', s') /\ wf a' /\
    exists l', Forall2 (rs_same Sp) l l' /\ its a' = its a ++ l'.
Proof.
  intros Hmin8 Hw Hl. revert fuel a s Hw. induction Hl as [|x l Hx Hl IH];
    intros fuel a s Hw Hf Hsz Hr Hmax Ho Hfit Hend Hz Hat; (destruct fuel as [|fuel]; [cbn in Hf; lia|]); cbn [decode_tail].
  - cbn in Hfit, Hend, Hz. rewrite Z.add_0_r in Hz.
    destruct (rl_any T Sp L Off (raw_value T) s content (rl_value T Sp L) Hr Hmax ltac:(lia))
      as (r & x' & s1 & E1 & _ & _ & Ho1 & Hmin & Hsign).
    rewrite E1. cbn [mbind option_bind]. specialize (Hsign eq_refl Hz).
    assert (r = 0) as -> by (destruct (decide (0 < r)) as [Hp|]; [specialize (Hmin Hp); lia|lia]).
    change (0 <? 0) with false. change (0 =? 0) with true. cbn iota. exists a, s1.
    split; [done|]. split; [done|]. exists []. split; [constructor|by rewrite app_nil_r].
  - rewrite items_at_cons in Hat. rewrite items_bits_cons in Hfit, Hend. destruct Hat as [Hax Hal].
    assert (head_mode (x :: l) Off = Off) as Hm by (by destruct l). rewrite items_bits_cons, Hm in Hz. rewrite Hm in *.
    pose proof (rl_bits_nonneg T Sp L x Off Hx) as Hbx. pose proof (items_bits_nonneg T Sp L l Off Hl) as Hbl.
    destruct (rl_decode T Sp L x Off (raw_value T) s content Hx (rl_value T Sp L) Hr Hmax Ho)
      as (x' & s1 & E1 & Hx' & Hsame & Hs1); [lia|done|done|].
    destruct (Hs1 eq_refl) as [Hbuf Hoff]. rewrite E1. cbn [mbind option_bind].
    change (ResultOk <? 0) with false. change (ResultOk =? 0) with false. cbn iota. cbn [length] in *.
    pose proof Hw as [_ _ Hs _]. cbn [size] in Hs |- *.
    destruct (Z.eqb_spec (size_ a) MaxSize); [lia|].
    destruct (push_back_ok MaxSize (rs_wf Sp) a x' Hx' Hw) as [Hw' Hi'].
    rewrite (proj2 (Z.ltb_lt (size_ a) MaxSize)) in Hi' by lia.
    destruct (IH fuel (push_back dyn MaxSize a x') s1 Hw') as (a2 & s2 & E2 & Hw2 & l' & Hl' & Hi2);
      [lia|rewrite (size_push MaxSize (rs_wf Sp)) by (done || lia); lia|by rewrite Hbuf|done|lia|rewrite Hoff; lia|rewrite Hoff; lia|by rewrite Hoff, <-Z.add_assoc|by rewrite Hoff|].
    exists a2, s2. split; [done|]. split; [done|]. exists (x' :: l'). split; [by constructor|].
    rewrite Hi2, Hi', <-app_assoc. done.
Qed.

Lemma decode_tail_any fuel a (s : BitStream B') content :
  8 <= MinBitLen T -> wf a -> MaxSize - size_ a < Z.of_nat fuel ->
  Readable (buf_ s) content -> 8 * Z.of_nat (length content) < 2 ^ 31 ->
  0 <= bit_offset_ s <= 8 * Z.of_nat (length content) ->
  exists r a' s', decode_tail dyn MaxSize T fuel a s = Some (r, a', s') /\ wf a' /\ buf_ s' = buf_ s /\
    bit_offset_ s <= bit_offset_ s' <= 8 * Z.of_nat (length content).
Proof.
  intros Hmin8. revert a s. induction fuel as [|fuel IH]; intros a s Hw Hf Hr Hmax Ho; pose proof Hw as [_ _ Hs _];
    cbn [size] in Hs; [lia|]. cbn [decode_tail].
  destruct (rl_any T Sp L Off (raw_value T) s content (rl_value T Sp L) Hr Hmax Ho)
    as (r & x' & s1 & E1 & Hx' & Hb1 & Ho1 & _ & Hsign).
  rewrite E1. cbn [mbind option_bind].
  destruct (Z.ltb_spec r 0); [exists r, a, s1; split_and!; try done; lia|]. destruct (Z.eqb_spec r 0).
  { exists 1, a, s1. split_and!; try done; lia. }
  cbn [size]. destruct (Z.eqb_spec (size_ a) MaxSize).
  { exists (- ErrInvalidMarshalData), a, s1. split_and!; try done; lia. }
  destruct (push_back_ok MaxSize (rs_wf Sp) a x' Hx' Hw) as [Hw' _].
  destruct (IH (push_back dyn MaxSize a x') s1 Hw') as (r2 & a2 & s2 & E2 & Hw2 & Hb2 & Ho2);
    [rewrite (size_push MaxSize (rs_wf Sp)) by (done || lia); lia|by rewrite Hb1|done|lia|].
  exists r2, a2, s2. split_and!; try done; try lia. congruence.
Qed.
End dynamic_arrays.

(** ** Array types *)

Section array_types.
Context {V : Type} (T : RawType V B B') (Sp : RawSpec V) (L : RawLaws T Sp).
Context (mode : ArrayMode) (MaxSize : Z) (HM : 1 <= MaxSize < 2 ^ 32).
Context (big_endian big_endian' : bool) (tmp tmp' : list Z).
Context (Ht : length tmp = 17%nat) (Htb : bytes tmp) (Ht' : length tmp' = 17%nat).
Context (mem : list V) (Hmem : Z.of_nat (length mem) = MaxSize) (Hmw : Forall (rs_wf Sp) mem).

Abbreviation wf := (Array_wf mode MaxSize (rs_wf Sp)).
Abbreviation its := (items mode MaxSize).
Abbreviation len a := (size mode MaxSize a).
Abbreviation Off := TailArrayOptDisabled.
Abbreviation size_bits := (is_BitLen (RawEncodedSizeType MaxSize)).
Abbreviation arr := (array_type mode MaxSize T big_endian big_endian' tmp tmp' mem).

Definition array_bits (a : Array V) (t : tao) : Z :=
  match mode with
  | ArrayModeStatic => items_bits Sp (its a) t
  | ArrayModeDynamic =>
      if isOptimizedTailArray T t then items_bits Sp (its a) Off else size_bits + items_bits Sp (its a) t
  end.

Definition array_at (c : list Z) (o : Z) (a : Array V) (t : tao) : Prop :=
  match mode with
  | ArrayModeStatic => items_at Sp c o (its a) t
  | ArrayModeDynamic =>
      if isOptimizedTailArray T t then items_at Sp c o (its a) Off
      else encodes c o size_bits (cast (RawEncodedSizeType MaxSize) (len a)) /\
           items_at Sp c (o + size_bits) (its a) t
  end.

(** An array that can be sent: its elements can. *)
Definition array_ok (a : Array V) : Prop := wf a /\ Forall (rs_ok Sp) (its a).

Definition array_same (a a' : Array V) : Prop := Forall2 (rs_same Sp) (its a) (its a').

Lemma Array_make_wf : wf (Array_make mode MaxSize (raw_value T) mem).
Proof.
  unfold Array_make. split; destruct mode; cbn; try done; try lia.
  - rewrite length_replicate. lia.
  - apply Forall_replicate, (rl_value T Sp L).
Qed.

Lemma array_bits_nonneg a t : array_ok a -> 0 <= array_bits a t.
Proof.
  intros [Hw Hi]. unfold array_bits. pose proof (size_bits_pos MaxSize HM).
  pose proof (items_bits_nonneg T Sp L (its a) t Hi). pose proof (items_bits_nonneg T Sp L (its a) Off Hi).
  destruct mode; [done|]. case_match; lia.
Qed.

Lemma array_at_ext c c' o a t :
  array_ok a -> (forall i, o <= i < o + array_bits a t -> bit_at c' i = bit_at c i) ->
  array_at c o a t -> array_at c' o a t.
Proof.
  intros [Hw Hi] He. unfold array_at, array_bits in *.
  pose proof (size_bits_pos MaxSize HM). pose proof (items_bits_nonneg T Sp L (its a) t Hi).
  destruct mode; [by apply (items_at_ext T Sp L c)|]. case_match; [by apply (items_at_ext T Sp L c)|].
  intros [Hsz Hit]. split.
  - intros m Hm. pose proof (pos_range size_bits m Hm). rewrite He by lia. by apply Hsz.
  - apply (items_at_ext T Sp L c); try done. intros i Hir. apply He. lia.
Qed.

Lemma array_encode_ok a t (s : BitStream B) :
  array_ok a -> Writer s -> bit_offset_ s + array_bits a t <= 8 * wb_capacity (buf_ s) ->
  exists s', raw_encode arr a s t = Some (ResultOk, s') /\ Writer s' /\
    bit_offset_ s' = bit_offset_ s + array_bits a t /\ wb_capacity (buf_ s') = wb_capacity (buf_ s) /\
    (forall k, 0 <= k < bit_offset_ s -> bit_at (wb_content (buf_ s')) k = bit_at (wb_content (buf_ s)) k) /\
    array_at (wb_content (buf_ s')) (bit_offset_ s) a t.
Proof.
  intros [Hw Hi] Hs Hfit. cbn [array_type raw_encode]. unfold Array_encode, array_bits, array_at in *.
  destruct mode; [by apply encode_static_ok|].
  pose proof (size_bits_pos MaxSize HM) as Hsb.
  pose proof (aw_size _ MaxSize _ a Hw) as Hsz. cbn [size] in Hsz.
  pose proof (length_items _ MaxSize _ a Hw) as Hlen. cbn [size] in Hlen.
  unfold encode_dynamic. cbn [size]. destruct (isOptimizedTailArray T t) eqn:Etao.
  - cbn [mbind option_bind]. change (1 <=? 0) with false. cbn iota.
    destruct (Z.eqb_spec (size_ a) 0) as [E0|E0]; [|by apply encode_static_ok].
    assert (items ArrayModeDynamic MaxSize a = []) as Enil by (apply nil_length_inv; lia). rewrite Enil in *. cbn in *.
    exists s. split_and!; try done. lia.
  - pose proof (items_bits_nonneg T Sp L _ t Hi) as Hbits. unfold size in Hi.
    destruct (Spec_encode_ok big_endian tmp Ht Htb (RawEncodedSizeType MaxSize) (size_ a) s
      (size_spec_ok MaxSize HM) Hs) as (s1 & E1 & Hs1 & Ho1 & Hc1 & Hk1 & He1); [lia|].
    rewrite E1. cbn [mbind option_bind]. change (ResultOk <=? 0) with false. cbn iota.
    pose proof (wr_offset s Hs) as Hos.
    destruct (Z.eqb_spec (size_ a) 0) as [E0|E0].
    + assert (items ArrayModeDynamic MaxSize a = []) as Enil by (apply nil_length_inv; lia). rewrite Enil in *. cbn [items_bits items_at] in *.
      exists s1. split_and!; try done. lia.
    + destruct (encode_static_ok T Sp L _ MaxSize a s1 t Hw Hi Hs1) as (s2 & E2 & Hs2 & Ho2 & Hc2 & Hk2 & Ha2); [rewrite Ho1, Hc1; lia|].
      exists s2. split_and!; [done|done|lia|congruence| | |].
      * intros k Hk. rewrite Hk2 by lia. by apply Hk1.
      * intros m Hm. pose proof (pos_range size_bits m Hm). rewrite Hk2 by lia. by apply He1.
      * by rewrite Ho1 in Ha2.
Qed.

Lemma array_decode_ok a t a0 (s : BitStream B') content :
  array_ok a -> wf a0 -> Readable (buf_ s) content -> 8 * Z.of_nat (length content) < 2 ^ 31 ->
  0 <= bit_offset_ s -> bit_offset_ s + array_bits a t <= 8 * Z.of_nat (length content) ->
  at_end t content (bit_offset_ s) (array_bits a t) ->
  array_at content (bit_offset_ s) a t ->
  exists a' s', raw_decode arr a0 s t = Some (ResultOk, a', s') /\ wf a' /\ array_same a a' /\
    (t = Off -> buf_ s' = buf_ s /\ bit_offset_ s' = bit_offset_ s + array_bits a t).
Proof.
  intros [Hw Hi] Hw0 Hr Hmax Ho Hfit Hend Hat. cbn [array_type raw_decode].
  pose proof (length_items _ MaxSize _ a Hw) as Hlen.
  unfold Array_decode, array_bits, array_at, array_same in *. destruct mode.
  { apply decode_static_ok with (content := content); try done. }
  pose proof (aw_size _ MaxSize _ a Hw) as Hsz. cbn [size] in Hsz, Hlen.
  destruct (clear_ok MaxSize (rs_wf Sp) a0 Hw0) as [Hwc Hic].
  unfold decode_dynamic. destruct (isOptimizedTailArray T t) eqn:Etao.
  - destruct (tao_enabled T t Etao) as [Htao Hmin]. destruct (Hend Htao) as [Hend1 Hend2].
    destruct (decode_tail_ok T Sp L MaxSize (S (Z.to_nat MaxSize)) (items ArrayModeDynamic MaxSize a) (clear a0) s content)
      as (a' & s' & E & Hw' & l' & Hl' & Hi'); try done; [lia|cbn; lia|].
    exists a', s'. rewrite Hic in Hi'. cbn [app] in Hi'. rewrite Hi'. split_and!; try done. by rewrite Htao.
  - destruct Hat as [Hat1 Hat2]. pose proof (size_bits_pos MaxSize HM) as Hsb.
    pose proof (items_bits_nonneg T Sp L _ t Hi) as Hb0.
    rewrite (Spec_decode_ok big_endian' tmp' Ht' (RawEncodedSizeType MaxSize) (cast (RawEncodedSizeType MaxSize) (size_ a)) 0 s content)
      by (done || lia || by apply size_spec_ok).
    rewrite cast_delivered by (by apply size_spec_ok). rewrite (size_delivered MaxSize (size_ a) HM Hsz).
    cbn [mbind option_bind]. change (ResultOk <=? 0) with false. cbn iota.
    destruct (Z.ltb_spec MaxSize (size_ a)); [lia|].
    destruct (resize_ok MaxSize (rs_wf Sp) (clear a0) (size_ a) (raw_value T) (rl_value T Sp L) Hwc Hsz) as (Hwr & Hsr & Hir).
    destruct (Z.eqb_spec (size_ a) 0) as [E0|E0].
    + eexists _, _. split; [reflexivity|]. cbn [buf_ bit_offset_].
      assert (items ArrayModeDynamic MaxSize a = []) as Enil by (apply nil_length_inv; lia).
      rewrite Enil, Hir, E0, Hic. cbn [clear size_ items_bits]. split_and!; try done. intros _. split; [done|lia].
    + destruct (decode_static_ok T Sp L ArrayModeDynamic MaxSize (resize ArrayModeDynamic MaxSize (clear a0) (size_ a) (raw_value T))
        (items ArrayModeDynamic MaxSize a)
        (mkStream (buf_ s) (bit_offset_ s + is_BitLen (RawEncodedSizeType MaxSize)) (byte_cache_ s)) t content)
        as (a' & s' & E & Hw' & Hsame & Hs'); cbn [buf_ bit_offset_ size] in *; try done; try lia.
      { by apply at_end_after. }
      exists a', s'. split_and!; try done. intros Htao. destruct (Hs' Htao) as [? ->]. split; [done|lia].
Qed.

Lemma array_decode_any t a0 (s : BitStream B') content :
  wf a0 -> Readable (buf_ s) content -> 8 * Z.of_nat (length content) < 2 ^ 31 ->
  0 <= bit_offset_ s <= 8 * Z.of_nat (length content) ->
  exists r a' s', raw_decode arr a0 s t = Some (r, a', s') /\ wf a' /\ buf_ s' = buf_ s /\
    bit_offset_ s <= bit_offset_ s' <= 8 * Z.of_nat (length content) /\
    (0 < r -> bit_offset_ s + MinBitLen arr <= bit_offset_ s') /\
    (t = Off -> clear_from content (bit_offset_ s) -> 0 <= r <= 1).
Proof.
  intros Hw0 Hr Hmax Ho. cbn [array_type raw_decode MinBitLen]. unfold Array_decode. destruct mode.
  { destruct (decode_items_any T Sp L ArrayModeStatic MaxSize (Z.to_nat MaxSize) 0 a0 s t content)
      as (r & a' & s' & E & Hw' & Hb & Ho' & Hmin & Hsign); try done; [cbn; lia|].
    exists r, a', s'. split_and!; try done; try lia. }
  destruct (clear_ok MaxSize (rs_wf Sp) a0 Hw0) as [Hwc Hic]. unfold decode_dynamic.
  destruct (isOptimizedTailArray T t) eqn:Etao.
  - destruct (tao_enabled T t Etao) as [Htao Hmin].
    destruct (decode_tail_any T Sp L MaxSize (S (Z.to_nat MaxSize)) (clear a0) s content)
      as (r & a' & s' & E & Hw' & Hb & Ho'); try done; [cbn; lia|].
    exists r, a', s'. split_and!; try done; try lia. by rewrite Htao.
  - pose proof (size_bits_pos MaxSize HM) as Hsb.
    destruct (Spec_decode_any big_endian' tmp' Ht' (RawEncodedSizeType MaxSize) 0 s content (size_spec_ok MaxSize HM) Hr Hmax Ho)
      as [[E _]|(v & E & Hfit)]; rewrite E; cbn [mbind option_bind].
    { change (ResultOutOfBuffer <=? 0) with true. cbn iota. exists ResultOutOfBuffer, (clear a0), s.
      unfold ResultOutOfBuffer. split_and!; try done; try lia. }
    assert (clear_from content (bit_offset_ s) -> reduced false (is_BitLen (RawEncodedSizeType MaxSize)) v = 0) as Hzero.
    { intros Hz. pose proof (Spec_decode_zero big_endian' tmp' Ht' (RawEncodedSizeType MaxSize) 0 s content
        (size_spec_ok MaxSize HM) Hr Hmax ltac:(lia) Hfit Hz) as E0. rewrite E in E0. by injection E0. }
    change (ResultOk <=? 0) with false. cbn iota. change (IsSigned (RawEncodedSizeType MaxSize)) with false.
    assert (0 <= reduced false (is_BitLen (RawEncodedSizeType MaxSize)) v) as Hv0 by (apply wrap_range; lia).
    set (sz := reduced false (is_BitLen (RawEncodedSizeType MaxSize)) v) in *.
    set (s1 := mkStream _ _ _).
    assert (buf_ s1 = buf_ s /\ bit_offset_ s <= bit_offset_ s1 <= 8 * Z.of_nat (length content)) as [Hb1 Ho1]
      by (unfold s1; cbn [buf_ bit_offset_]; split; [done|lia]).
    destruct (Z.ltb_spec MaxSize sz).
    { exists (- ErrInvalidMarshalData), (clear a0), s1. unfold ErrInvalidMarshalData.
      split_and!; try done; try lia. intros _ Hz. specialize (Hzero Hz). lia. }
    destruct (resize_ok MaxSize (rs_wf Sp) (clear a0) sz (raw_value T) (rl_value T Sp L) Hwc ltac:(lia)) as (Hwr & Hsr & _).
    destruct (Z.eqb_spec sz 0).
    { eexists _, _, s1. split; [reflexivity|]. split_and!; try done; try lia. }
    destruct (decode_items_any T Sp L ArrayModeDynamic MaxSize (Z.to_nat sz) 0
      (resize ArrayModeDynamic MaxSize (clear a0) sz (raw_value T)) s1 t content)
      as (r & a' & s' & E' & Hw' & Hb & Ho' & Hmin & Hsign); try done; [cbn [size]; lia|lia|].
    exists r, a', s'. unfold decode_static. cbn [size]. rewrite Hsr. split_and!; try done; try lia.
    intros _ Hz. by specialize (Hzero Hz).
Qed.

(** An array of a type that keeps the laws keeps them. *)
Definition array_spec : RawSpec (Array V) :=
  mkRawSpec wf array_ok array_same array_bits array_at.

Lemma array_laws : RawLaws arr array_spec.
Proof.
  split; cbn [array_spec rs_wf rs_ok rs_same rs_bits rs_at].
  - exact Array_make_wf.
  - cbn. pose proof (rl_min T Sp L). destruct mode; nia.
  - apply array_bits_nonneg.
  - apply array_at_ext.
  - apply array_encode_ok.
  - apply array_decode_ok.
  - apply array_decode_any.
Qed.
End array_types.
End laws.
