(* ===== verification/SquareMatrix.v ===== *)
(** * SquareMatrix: packing of square matrices

    Models the matrix functions of [libuavcan/include/uavcan/marshal/array.hpp]:
    [SquareMatrixTraits], [SquareMatrixAnalyzer], [packSquareMatrix] and
    [unpackSquareMatrix]. A covariance matrix is sent in one of five forms, and its
    receiver knows the form from the number of elements alone. The matrix to pack, the
    array and the matrix that is unpacked into may have different types of elements;
    the conversions between them ([ValueType], [ScalarType]) and the comparisons the
    code uses ([isNaN], [isCloseToZero], [areClose]) are arguments. *)

From stdpp Require Import list.
From S2P Require Import Prelude TransferBuffer BitStream ScalarCodec Array.
Local Open Scope Z_scope.

(** ** The functions *)

Section matrices.
Context {Src V Dst : Type} (sdflt : Src) (dflt : V) (ddflt zero : Dst).
Context (isNaN isCloseToZero : Src -> bool) (areClose : Src -> Src -> bool) (ValueType : Src -> V) (ScalarType : V -> Dst).
Context (NumRowsCols : Z).
Abbreviation N := NumRowsCols.

(** [SquareMatrixTraits]; the number of rows and columns is the argument. *)
Definition NumElements : Z := N * N.
Definition NumElementsInTriangle : Z := ((1 + N) * N) / 2.
Definition isIndexOnDiagonal (index : Z) : bool := index / N =? index mod N.
Definition computeElementIndexAtRowCol (row col : Z) : Z := row * N + col.

(** [SquareMatrixAnalyzer] of the [NumElements] elements [src]. *)
Inductive PackingMode := PackingModeEmpty | PackingModeScalar | PackingModeDiagonal | PackingModeSymmetric | PackingModeFull.

Definition element (src : list Src) (index : Z) : Src := nth (Z.to_nat index) src sdflt.
Definition accessElementAtRowCol (src : list Src) (row col : Z) : Src := element src (computeElementIndexAtRowCol row col).

Definition areAllElementsNan (src : list Src) : bool :=
  forallb (fun index => isNaN (element src index)) (seqZ 0 NumElements).

Definition isScalar (src : list Src) : bool :=
  forallb (fun index =>
    negb (negb (isIndexOnDiagonal index) && negb (isCloseToZero (element src index))) &&
    negb (isIndexOnDiagonal index && negb (areClose (element src index) (element src 0)))) (seqZ 0 NumElements).

Definition isDiagonal (src : list Src) : bool :=
  forallb (fun index => negb (negb (isIndexOnDiagonal index) && negb (isCloseToZero (element src index)))) (seqZ 0 NumElements).

Definition isSymmetric (src : list Src) : bool :=
  forallb (fun i => forallb (fun k =>
    negb (negb (i =? k) && negb (areClose (accessElementAtRowCol src i k) (accessElementAtRowCol src k i))))
    (seqZ 0 N)) (seqZ 0 N).

Definition detectOptimalPackingMode (src : list Src) : PackingMode :=
  if areAllElementsNan src then PackingModeEmpty
  else if isScalar src then PackingModeScalar
  else if isDiagonal src then PackingModeDiagonal
  else if isSymmetric src then PackingModeSymmetric
  else PackingModeFull.

(** [packSquareMatrixImpl]: the elements pushed, in the order of the loops. *)
Definition packed (src : list Src) : list V :=
  match detectOptimalPackingMode src with
  | PackingModeEmpty => []
  | PackingModeScalar => [ValueType (element src 0)]
  | PackingModeDiagonal => (fun i => ValueType (accessElementAtRowCol src i i)) <$> seqZ 0 N
  | PackingModeSymmetric => row ← seqZ 0 N; (fun col => ValueType (accessElementAtRowCol src row col)) <$> seqZ row (N - row)
  | PackingModeFull => (fun index => ValueType (element src index)) <$> seqZ 0 NumElements
  end.

Definition packSquareMatrixImpl (a : Array V) (src : list Src) : Array V :=
  append ArrayModeDynamic NumElements (clear a) (packed src).

(** [packSquareMatrix] from a container. *)
Definition packSquareMatrix (a : Array V) (src : list Src) : Array V :=
  if Z.of_nat (length src) =? NumElements then packSquareMatrixImpl a src else clear a.

(** [unpackSquareMatrixImpl] into [dst]: [*it++ = x] with the position [it]. *)
Abbreviation aat a i := (at_ ArrayModeDynamic NumElements dflt a i).

Definition unpack_diagonal (a : Array V) (dst : list Dst) : list Dst :=
  foldl (fun dst index =>
    <[Z.to_nat index :=
      if isIndexOnDiagonal index then ScalarType (aat a (if size_ a =? 1 then 0 else index / N)) else zero]> dst)
    dst (seqZ 0 NumElements).

Definition unpack_cell (a : Array V) (row : Z) (st : list Dst * Z) (col : Z) : list Dst * Z :=
  let '(dst, source_index) := st in
  let it := Z.to_nat (computeElementIndexAtRowCol row col) in
  if row <=? col then (<[it := ScalarType (aat a source_index)]> dst, source_index + 1)
  else (<[it := nth (Z.to_nat (computeElementIndexAtRowCol col row)) dst ddflt]> dst, source_index).

Definition unpack_symmetric (a : Array V) (dst : list Dst) : list Dst :=
  (foldl (fun st row => foldl (unpack_cell a row) st (seqZ 0 N)) (dst, 0) (seqZ 0 N)).1.

Definition unpack_full (a : Array V) (dst : list Dst) : list Dst :=
  foldl (fun dst index => <[Z.to_nat index := ScalarType (aat a index)]> dst) dst (seqZ 0 NumElements).

Definition unpackSquareMatrixImpl (a : Array V) (dst : list Dst) : list Dst :=
  if (size_ a =? N) || (size_ a =? 1) then unpack_diagonal a dst
  else if size_ a =? NumElementsInTriangle then unpack_symmetric a dst
  else if size_ a =? NumElements then unpack_full a dst
  else foldl (fun dst index => <[Z.to_nat index := zero]> dst) dst (seqZ 0 NumElements).

(** [unpackSquareMatrix] into a container. *)
Definition unpackSquareMatrix (a : Array V) (dst : list Dst) : list Dst :=
  if Z.of_nat (length dst) =? NumElements then unpackSquareMatrixImpl a dst else dst.

(** ** Unpacking what was packed *)

Context (HN : 1 <= N).
Abbreviation wf := (Array_wf ArrayModeDynamic NumElements (fun _ : V => True)).
Abbreviation its := (items ArrayModeDynamic NumElements).

Lemma index_div row col : 0 <= col < N -> (row * N + col) / N = row /\ (row * N + col) mod N = col.
Proof.
  intros Hc. rewrite Z.div_add_l, Z.div_small by lia. split; [lia|].
  rewrite Z.add_comm, Z_mod_plus_full, Z.mod_small; lia.
Qed.

Lemma index_split index : 0 <= index < NumElements ->
  index = (index / N) * N + index mod N /\ 0 <= index / N < N /\ 0 <= index mod N < N.
Proof.
  intros Hi. pose proof (Z.div_mod index N ltac:(lia)). pose proof (Z.mod_pos_bound index N ltac:(lia)).
  unfold NumElements in Hi. split; [lia|]. split; [|done].
  split; [apply Z.div_pos; lia|apply Z.div_lt_upper_bound; lia].
Qed.

Lemma fill_loop (f : Z -> Dst) n dst :
  (n <= length dst)%nat ->
  foldl (fun dst index => <[Z.to_nat index := f index]> dst) dst (seqZ 0 (Z.of_nat n)) = (f <$> seqZ 0 (Z.of_nat n)) ++ drop n dst.
Proof.
  induction n as [|n IH]; intros Hn; [done|].
  rewrite seqZ_S, foldl_app, IH by lia. cbn [foldl]. rewrite fmap_app. cbn [fmap list_fmap].
  rewrite insert_app_r_alt by (rewrite length_fmap, length_seqZ; lia). rewrite length_fmap, length_seqZ.
  replace (Z.to_nat (0 + Z.of_nat n) - _)%nat with O by lia.
  destruct (drop n dst) as [|x l] eqn:E; [apply (f_equal length) in E; rewrite length_drop in E; cbn in E; lia|].
  replace (drop (S n) dst) with l by (replace (S n) with (n + 1)%nat by lia; rewrite <-drop_drop, E; done).
  by rewrite <-app_assoc.
Qed.

Lemma fill_ok (f : Z -> Dst) dst :
  Z.of_nat (length dst) = NumElements ->
  foldl (fun dst index => <[Z.to_nat index := f index]> dst) dst (seqZ 0 NumElements) = f <$> seqZ 0 NumElements.
Proof. intros Hl. rewrite <-Hl, fill_loop by lia. rewrite drop_ge, app_nil_r by lia. done. Qed.

Section symmetric.
Context (src : list Src) (a : Array V) (Ha : wf a).
Abbreviation el := (fun row col => ValueType (accessElementAtRowCol src row col)).

(** The upper triangle from row [r] on. *)
Definition triangle (r : Z) : list V := row ← seqZ r (N - r); (fun col => el row col) <$> seqZ row (N - row).

Lemma triangle_row r : 0 <= r < N -> triangle r = ((fun col => el r col) <$> seqZ r (N - r)) ++ triangle (r + 1).
Proof.
  intros Hr. assert (seqZ r (N - r) = r :: seqZ (r + 1) (N - (r + 1))) as E.
  { rewrite seqZ_cons by lia. f_equal. f_equal; lia. }
  unfold triangle at 1. rewrite E at 1. done.
Qed.

Lemma triangle_length n r : r + Z.of_nat n = N -> 0 <= r -> 2 * Z.of_nat (length (triangle r)) = (N - r) * (N - r + 1).
Proof.
  revert r. induction n as [|n IH]; intros r Hn Hr.
  - unfold triangle. replace (N - r) with 0 by lia. done.
  - rewrite triangle_row by lia. rewrite length_app, length_fmap, length_seqZ.
    specialize (IH (r + 1) ltac:(lia) ltac:(lia)). nia.
Qed.

(** The cells before position [p] are those of the symmetric matrix. *)
Definition mirrored (row col : Z) : Dst := ScalarType (el (Z.min row col) (Z.max row col)).

Definition unpacked_to (p : Z) (dst : list Dst) : Prop :=
  Z.of_nat (length dst) = NumElements /\
  forall row col, 0 <= row -> 0 <= col < N -> row * N + col < p -> dst !! Z.to_nat (row * N + col) = Some (mirrored row col).

Lemma unpacked_write r c dst x :
  0 <= r < N -> 0 <= c < N -> unpacked_to (r * N + c) dst -> x = mirrored r c ->
  unpacked_to (r * N + (c + 1)) (<[Z.to_nat (r * N + c) := x]> dst).
Proof.
  intros Hr Hc [Hl Hd] ->. unfold NumElements in Hl. split; [by rewrite length_insert|]. intros row col H1 H2 H3.
  assert (0 <= r * N + c < N * N) as Hin by nia.
  destruct (decide (row * N + col = r * N + c)) as [E|Hne].
  - destruct (index_div row col H2) as [E1 E2], (index_div r c Hc) as [E3 E4].
    rewrite E, list_lookup_insert_eq by lia. f_equal. f_equal; congruence.
  - rewrite list_lookup_insert_ne by nia. apply Hd; [done|done|lia].
Qed.

Lemma unpack_row_ok n r c dst si :
  0 <= r < N -> 0 <= c -> c + Z.of_nat n = N -> 0 <= si -> unpacked_to (r * N + c) dst ->
  drop (Z.to_nat si) (its a) = ((fun col => el r col) <$> seqZ (Z.max r c) (N - Z.max r c)) ++ triangle (r + 1) ->
  exists dst' si', foldl (unpack_cell a r) (dst, si) (seqZ c (Z.of_nat n)) = (dst', si') /\ 0 <= si' /\
    unpacked_to (r * N + N) dst' /\ drop (Z.to_nat si') (its a) = triangle (r + 1).
Proof.
  intros Hr. revert c dst si. induction n as [|n IH]; intros c dst si Hc Hn Hsi Hd Hrest.
  { exists dst, si. split; [done|]. split; [done|]. replace c with N in * by lia. split; [done|].
    rewrite Hrest. replace (N - Z.max r N) with 0 by lia. done. }
  rewrite seqZ_cons by lia. replace (Z.pred (Z.of_nat (S n))) with (Z.of_nat n) by lia.
  replace (Z.succ c) with (c + 1) by lia. cbn [foldl unpack_cell]. unfold computeElementIndexAtRowCol.
  destruct (Z.leb_spec r c) as [Hle|Hlt].
  - rewrite seqZ_cons in Hrest by lia. cbn [fmap list_fmap app] in Hrest. rewrite (Z.max_r r c) in Hrest by lia.
    assert (its a !! Z.to_nat si = Some (el r c)) as Hsome.
    { rewrite <-(Nat.add_0_r (Z.to_nat si)), <-lookup_drop, Hrest. done. }
    assert (0 <= si < size ArrayModeDynamic NumElements a) as Hsi2.
    { pose proof (length_items _ _ _ a Ha) as Hl. apply lookup_lt_Some in Hsome. lia. }
    rewrite (at_item _ _ dflt _ a si Ha Hsi2) in Hsome. injection Hsome as ->.
    apply IH; try lia.
    + apply unpacked_write; try done; try lia. unfold mirrored. by rewrite Z.min_l, Z.max_r by lia.
    + replace (Z.to_nat (si + 1)) with (Z.to_nat si + 1)%nat by lia. rewrite <-drop_drop, Hrest. cbn [drop].
      rewrite (Z.max_r r (c + 1)) by lia. replace (Z.succ c) with (c + 1) by lia. by replace (Z.pred (N - c)) with (N - (c + 1)) by lia.
  - apply IH; try lia.
    + destruct Hd as [Hl Hd]. pose proof (Hd c r ltac:(lia) ltac:(lia) ltac:(nia)) as Hcell.
      rewrite nth_lookup, Hcell. cbn [from_option id]. apply unpacked_write; try done; try lia.
      unfold mirrored. by rewrite (Z.min_comm c r), (Z.max_comm c r).
    + rewrite Z.max_l in Hrest |- * by lia. done.
Qed.

Lemma unpack_rows_ok n r dst si :
  0 <= r -> r + Z.of_nat n = N -> 0 <= si -> unpacked_to (r * N) dst -> drop (Z.to_nat si) (its a) = triangle r ->
  exists dst' si', foldl (fun st row => foldl (unpack_cell a row) st (seqZ 0 N)) (dst, si) (seqZ r (Z.of_nat n)) = (dst', si') /\
    unpacked_to (N * N) dst'.
Proof.
  revert r dst si. induction n as [|n IH]; intros r dst si Hr Hn Hsi Hd Hrest.
  { exists dst, si. split; [done|]. by replace N with r at 1 by lia. }
  rewrite (seqZ_cons r (Z.of_nat (S n))) by lia. replace (Z.pred (Z.of_nat (S n))) with (Z.of_nat n) by lia. cbn [foldl].
  destruct (unpack_row_ok (Z.to_nat N) r 0 dst si) as (d1 & s1 & E & Hs1 & Hd1 & Hrest1); try lia.
  { by rewrite Z.add_0_r. }
  { rewrite Hrest, triangle_row by lia. rewrite Z.max_l by lia. done. }
  rewrite Z2Nat.id in E by lia. rewrite E. replace (Z.succ r) with (r + 1) by lia.
  apply IH; try lia; [|done]. by replace ((r + 1) * N) with (r * N + N) by lia.
Qed.
End symmetric.

Lemma forallb_seqZ (f : Z -> bool) m : forallb f (seqZ 0 m) = true <-> forall i, 0 <= i < m -> f i = true.
Proof.
  rewrite forallb_forall. setoid_rewrite <-list_elem_of_In. setoid_rewrite elem_of_seqZ.
  split; intros Hf i Hi; apply Hf; lia.
Qed.

Lemma triangle_size : 2 * NumElementsInTriangle = N * (N + 1).
Proof.
  unfold NumElementsInTriangle. pose proof (triangle_length [] (Z.to_nat N) 0 ltac:(lia) ltac:(lia)) as Hl.
  rewrite Z.sub_0_r in Hl. replace ((1 + N) * N) with (Z.of_nat (length (triangle [] 0)) * 2) by lia.
  rewrite Z.div_mul by lia. lia.
Qed.

(** The number of elements of each form. *)
Definition packed_size (m : PackingMode) : Z :=
  match m with
  | PackingModeEmpty => 0
  | PackingModeScalar => 1
  | PackingModeDiagonal => N
  | PackingModeSymmetric => NumElementsInTriangle
  | PackingModeFull => NumElements
  end.

Lemma packed_length src : Z.of_nat (length (packed src)) = packed_size (detectOptimalPackingMode src).
Proof.
  unfold packed. destruct (detectOptimalPackingMode src); cbn [packed_size].
  - done.
  - done.
  - rewrite length_fmap, length_seqZ. lia.
  - pose proof (triangle_length src (Z.to_nat N) 0 ltac:(lia) ltac:(lia)) as Hl. unfold triangle in Hl.
    rewrite Z.sub_0_r in Hl. pose proof triangle_size. lia.
  - rewrite length_fmap, length_seqZ. unfold NumElements. nia.
Qed.

Lemma packed_size_max m : 0 <= packed_size m <= NumElements.
Proof. pose proof triangle_size. unfold NumElements in *. destruct m; cbn [packed_size]; unfold NumElements; nia. Qed.

Lemma pack_ok a src :
  wf a -> Z.of_nat (length src) = NumElements ->
  wf (packSquareMatrix a src) /\ its (packSquareMatrix a src) = packed src /\
  size_ (packSquareMatrix a src) = packed_size (detectOptimalPackingMode src).
Proof.
  intros Hw Hl. unfold packSquareMatrix, packSquareMatrixImpl. rewrite Hl, Z.eqb_refl.
  destruct (clear_ok NumElements _ a Hw) as [Hwc Hic].
  destruct (append_ok NumElements (fun _ => True) (packed src) (clear a)) as [Hw' Hi']; try done.
  { by apply Forall_true. }
  { rewrite packed_length. pose proof (packed_size_max (detectOptimalPackingMode src)). cbn. lia. }
  rewrite Hic in Hi'. cbn [app] in Hi'. split; [done|]. split; [done|].
  pose proof (length_items _ _ _ _ Hw') as Hlen. rewrite Hi', packed_length in Hlen. cbn [size] in Hlen. done.
Qed.

Lemma diagonal_cell index : 0 <= index < NumElements -> isIndexOnDiagonal index = true ->
  index = index / N * N + index / N /\ 0 <= index / N < N.
Proof. intros Hi Hd%Z.eqb_eq. destruct (index_split index Hi) as (E & Hr & _). rewrite <-Hd in E. done. Qed.

(** With one row there is only the diagonal. *)
Lemma not_diagonal_size src : isDiagonal src = false -> 2 <= N.
Proof.
  intros Hd. destruct (decide (N = 1)) as [E|]; [|lia]. exfalso. revert Hd. apply not_false_iff_true, forallb_seqZ.
  intros i Hi. unfold NumElements in Hi. assert (i = 0) as -> by nia. unfold isIndexOnDiagonal.
  by rewrite Z.div_0_l, Z.mod_0_l by lia.
Qed.

(** What may arrive for the element [x] of [src]: a zero if it was close to zero, or else, converted twice, the element itself or one it compares as close to. *)
Definition near (src : list Src) (x : Src) (y : Dst) : Prop :=
  (isCloseToZero x = true /\ y = zero) \/ exists x', x' ∈ src /\ (x' = x \/ areClose x x' = true) /\ y = ScalarType (ValueType x').

Lemma element_in src index : Z.of_nat (length src) = NumElements -> 0 <= index < NumElements -> element src index ∈ src.
Proof. intros Hl Hi. apply list_elem_of_In, nth_In. lia. Qed.
Lemma access_in src r c : Z.of_nat (length src) = NumElements -> 0 <= r < N -> 0 <= c < N -> accessElementAtRowCol src r c ∈ src.
Proof. intros Hl Hr Hc. apply element_in; [done|]. unfold computeElementIndexAtRowCol, NumElements. nia. Qed.

Abbreviation arrives src m := (forall index, 0 <= index < NumElements ->
  exists y, m !! Z.to_nat index = Some y /\ near src (element src index) y).

Lemma filled_lookup {X} (f : Z -> X) index : 0 <= index < NumElements -> (f <$> seqZ 0 NumElements) !! Z.to_nat index = Some (f index).
Proof. intros Hi. rewrite list_lookup_fmap, lookup_seqZ_lt by lia. cbn. f_equal. f_equal. lia. Qed.

Lemma unpack_diagonal_ok src a dst :
  wf a -> Z.of_nat (length dst) = NumElements ->
  (forall index, 0 <= index < NumElements -> isIndexOnDiagonal index = false -> isCloseToZero (element src index) = true) ->
  (forall r, 0 <= r < N -> near src (accessElementAtRowCol src r r) (ScalarType (aat a (if size_ a =? 1 then 0 else r)))) ->
  arrives src (unpack_diagonal a dst).
Proof.
  intros Ha Hl Hzero Hdiag index Hi. unfold unpack_diagonal. rewrite (fill_ok (fun index => _)) by done.
  eexists. split; [by apply filled_lookup|]. destruct (isIndexOnDiagonal index) eqn:Ed.
  - destruct (diagonal_cell index Hi Ed) as [E Hr]. specialize (Hdiag (index / N) Hr).
    unfold accessElementAtRowCol, computeElementIndexAtRowCol in Hdiag. rewrite <-E in Hdiag. done.
  - left. split; [|done]. by apply Hzero.
Qed.

Lemma unpack_symmetric_ok src a dst :
  wf a -> Z.of_nat (length src) = NumElements -> Z.of_nat (length dst) = NumElements -> its a = triangle src 0 -> isSymmetric src = true ->
  arrives src (unpack_symmetric a dst).
Proof.
  intros Ha Hlsrc Hl Hi Hsym index Hin. unfold unpack_symmetric.
  destruct (unpack_rows_ok src a Ha (Z.to_nat N) 0 dst 0) as (d & si & E & Hlen & Hd); try lia; try done.
  { split; [done|]. intros. lia. }
  rewrite Z2Nat.id in E by lia. rewrite E. cbn [fst].
  destruct (index_split index Hin) as (Ei & Hr & Hc). set (r := index / N) in *. set (c := index mod N) in *.
  exists (mirrored src r c). split; [rewrite Ei; apply Hd; nia|].
  unfold isSymmetric in Hsym. rewrite forallb_seqZ in Hsym. specialize (Hsym r Hr). rewrite forallb_seqZ in Hsym.
  specialize (Hsym c Hc). rewrite Ei. unfold near, mirrored.
  change (element src (r * N + c)) with (accessElementAtRowCol src r c).
  right. destruct (Z.le_gt_cases r c).
  - exists (accessElementAtRowCol src r c). rewrite Z.min_l, Z.max_r by lia. split; [by apply access_in|auto].
  - exists (accessElementAtRowCol src c r). rewrite Z.min_r, Z.max_l by lia. split; [by apply access_in|]. destruct (Z.eqb_spec r c); [lia|]. cbn in Hsym.
    split; [|done]. right. by destruct (areClose _ _).
Qed.

(** Unpacking by the number of elements undoes each form. *)
Lemma unpack_full_ok src a dst :
  wf a -> Z.of_nat (length src) = NumElements -> Z.of_nat (length dst) = NumElements -> its a = ((fun index => ValueType (element src index)) <$> seqZ 0 NumElements) ->
  arrives src (unpack_full a dst).
Proof.
  intros Ha Hlsrc Hl Hi index Hin. unfold unpack_full. rewrite (fill_ok (fun index => _)) by done.
  eexists. split; [by apply filled_lookup|]. right. exists (element src index). split; [by apply element_in|]. split; [by left|]. f_equal.
  pose proof (length_items _ _ _ a Ha) as Hlen. rewrite Hi, length_fmap, length_seqZ in Hlen.
  pose proof (at_item _ _ dflt _ a index Ha ltac:(lia)) as E. rewrite Hi, filled_lookup in E by done. by injection E.
Qed.

Lemma packed_item a src i x :
  wf a -> its a = packed src -> 0 <= i -> packed src !! Z.to_nat i = Some x -> aat a i = x.
Proof.
  intros Ha Hi H0 Hx. rewrite <-Hi in Hx. pose proof (length_items _ _ _ a Ha). pose proof (lookup_lt_Some _ _ _ Hx).
  rewrite (at_item _ _ dflt _ a i Ha) in Hx by lia. by injection Hx.
Qed.

Lemma unpack_packed a src dst :
  wf a -> Z.of_nat (length src) = NumElements -> Z.of_nat (length dst) = NumElements -> its a = packed src ->
  size_ a = packed_size (detectOptimalPackingMode src) -> areAllElementsNan src = false ->
  arrives src (unpackSquareMatrixImpl a dst).
Proof.
  intros Ha Hlsrc Hl Hi Hs Hnan. unfold unpackSquareMatrixImpl.
  pose proof triangle_size as Htri. assert (packed_item := fun i x => packed_item a src i x Ha Hi).
  unfold packed in Hi, packed_item. unfold detectOptimalPackingMode in *. rewrite Hnan in *.
  destruct (isScalar src) eqn:Es; [|destruct (isDiagonal src) eqn:Ed; [|destruct (isSymmetric src) eqn:Ey]]; cbn [packed_size] in Hs.
  - rewrite Hs, orb_true_r. unfold isScalar in Es. rewrite forallb_seqZ in Es. apply unpack_diagonal_ok; try done.
    + intros index Hin Hd. specialize (Es index Hin). rewrite Hd in Es. by destruct (isCloseToZero _).
    + intros r Hr. rewrite Hs. cbn. rewrite (packed_item 0 (ValueType (element src 0))) by done.
      assert (0 <= r * N + r < NumElements) as Hin by (unfold NumElements; nia). specialize (Es _ Hin).
      destruct (index_div r r Hr) as [E1 E2]. unfold isIndexOnDiagonal in Es. rewrite E1, E2, Z.eqb_refl in Es.
      right. exists (element src 0). split; [apply element_in; [done|unfold NumElements; nia]|]. split; [|done]. right.
      unfold accessElementAtRowCol, computeElementIndexAtRowCol. by destruct (areClose _ _).
  - rewrite Hs, Z.eqb_refl. cbn [orb]. unfold isDiagonal in Ed. rewrite forallb_seqZ in Ed. apply unpack_diagonal_ok; try done.
    + intros index Hin Hd. specialize (Ed index Hin). rewrite Hd in Ed. by destruct (isCloseToZero _).
    + intros r Hr. right. exists (accessElementAtRowCol src r r). split; [by apply access_in|]. split; [by left|]. f_equal. apply packed_item; [destruct (size_ a =? 1); lia|]. rewrite list_lookup_fmap.
      destruct (Z.eqb_spec (size_ a) 1); [rewrite lookup_seqZ_lt by lia|rewrite lookup_seqZ_lt by lia]; cbn; repeat f_equal; lia.
  - pose proof (not_diagonal_size src Ed). rewrite Hs.
    destruct (Z.eqb_spec NumElementsInTriangle N); [nia|]. destruct (Z.eqb_spec NumElementsInTriangle 1); [nia|].
    cbn [orb]. rewrite Z.eqb_refl. apply unpack_symmetric_ok; try done. unfold triangle. by rewrite Z.sub_0_r.
  - pose proof (not_diagonal_size src Ed). rewrite Hs.
    destruct (Z.eqb_spec NumElements N); [unfold NumElements in *; nia|].
    destruct (Z.eqb_spec NumElements 1); [unfold NumElements in *; nia|]. cbn [orb].
    destruct (Z.eqb_spec NumElements NumElementsInTriangle); [unfold NumElements in *; nia|].
    rewrite Z.eqb_refl. by apply unpack_full_ok.
Qed.

(** *** Which form it is *)

(** The forms of a matrix, by its cells. *)
Definition cell (src : list Src) (row col : Z) : Src := nth (Z.to_nat (row * N + col)) src sdflt.
Definition all_nan (src : list Src) : Prop := forall row col, 0 <= row < N -> 0 <= col < N -> isNaN (cell src row col) = true.
Definition diagonal_matrix (src : list Src) : Prop := forall row col, 0 <= row < N -> 0 <= col < N -> row <> col -> isCloseToZero (cell src row col) = true.
Definition scalar_matrix (src : list Src) : Prop := diagonal_matrix src /\ forall row, 0 <= row < N -> areClose (cell src row row) (cell src 0 0) = true.
Definition symmetric_matrix (src : list Src) : Prop :=
  forall row col, 0 <= row < N -> 0 <= col < N -> row <> col -> areClose (cell src row col) (cell src col row) = true.

(** The number of elements of the most compact form that applies. *)
Inductive compact_size (src : list Src) : Z -> Prop :=
| size_empty : all_nan src -> compact_size src 0
| size_scalar : ~ all_nan src -> scalar_matrix src -> compact_size src 1
| size_diagonal : ~ all_nan src -> ~ scalar_matrix src -> diagonal_matrix src -> compact_size src N
| size_symmetric : ~ all_nan src -> ~ scalar_matrix src -> ~ diagonal_matrix src -> symmetric_matrix src -> compact_size src (N * (N + 1) / 2)
| size_full : ~ all_nan src -> ~ scalar_matrix src -> ~ diagonal_matrix src -> ~ symmetric_matrix src -> compact_size src (N * N).

(** What holds at every index holds at every row and column. *)
Lemma by_cells (P : Z -> Z -> Prop) : (forall index, 0 <= index < NumElements -> P (index / N) (index mod N)) <-> forall row col, 0 <= row < N -> 0 <= col < N -> P row col.
Proof.
  split.
  - intros H row col Hr Hc. specialize (H (row * N + col) ltac:(unfold NumElements; nia)). destruct (index_div row col Hc) as [E1 E2]. by rewrite E1, E2 in H.
  - intros H index Hi. destruct (index_split index Hi) as (_ & Hr & Hc). by apply H.
Qed.
Lemma element_cell src index : 0 <= index < NumElements -> element src index = cell src (index / N) (index mod N).
Proof. intros Hi. destruct (index_split index Hi) as (E & _ & _). unfold cell. by rewrite <-E. Qed.

Lemma areAllElementsNan_ok src : areAllElementsNan src = true <-> all_nan src.
Proof.
  unfold areAllElementsNan, all_nan. rewrite forallb_seqZ, <-(by_cells (fun row col => isNaN (cell src row col) = true)).
  split; intros H i Hi; specialize (H i Hi); by rewrite element_cell in *.
Qed.
Lemma isDiagonal_ok src : isDiagonal src = true <-> diagonal_matrix src.
Proof.
  unfold isDiagonal, diagonal_matrix. rewrite forallb_seqZ. rewrite <-(by_cells (fun row col => row <> col -> isCloseToZero (cell src row col) = true)).
  unfold isIndexOnDiagonal. split; intros H i Hi; specialize (H i Hi); rewrite element_cell in * by done;
    destruct (Z.eqb_spec (i / N) (i mod N)), (isCloseToZero (cell src (i / N) (i mod N))); cbn in *; auto; by specialize (H ltac:(done)).
Qed.
Lemma isScalar_ok src : isScalar src = true <-> scalar_matrix src.
Proof.
  unfold scalar_matrix. rewrite <-isDiagonal_ok. unfold isScalar, isDiagonal. rewrite !forallb_seqZ. setoid_rewrite andb_true_iff. split.
  - intros H. split; [intros i Hi; apply (H i Hi)|]. intros row Hr. destruct (H (row * N + row) ltac:(unfold NumElements; nia)) as [_ Hd].
    destruct (index_div row row Hr) as [E1 E2]. unfold isIndexOnDiagonal in Hd. rewrite E1, E2, Z.eqb_refl in Hd. unfold cell, element in *. cbn [andb] in Hd. by destruct (areClose _ _).
  - intros [H1 H2] i Hi. split; [by apply H1|]. destruct (isIndexOnDiagonal i) eqn:Ed; [|done]. destruct (diagonal_cell i Hi Ed) as [E Hr]. specialize (H2 (i / N) Hr).
    unfold cell in H2. rewrite <-E in H2. unfold element. cbn [andb]. change (0 * N + 0) with 0 in H2. by rewrite H2.
Qed.
Lemma isSymmetric_ok src : isSymmetric src = true <-> symmetric_matrix src.
Proof.
  unfold isSymmetric, symmetric_matrix. rewrite forallb_seqZ. setoid_rewrite forallb_seqZ. unfold accessElementAtRowCol, computeElementIndexAtRowCol, element, cell.
  split; intros H row; [intros col Hr Hc Hne; specialize (H row Hr col Hc)|intros Hr col Hc; specialize (H row col Hr Hc)];
    destruct (Z.eqb_spec row col), (areClose _ _); cbn in *; auto; try done; by specialize (H ltac:(done)).
Qed.

Lemma detected_size src : compact_size src (packed_size (detectOptimalPackingMode src)).
Proof.
  pose proof (areAllElementsNan_ok src) as H1. pose proof (isScalar_ok src) as H2. pose proof (isDiagonal_ok src) as H3. pose proof (isSymmetric_ok src) as H4.
  unfold detectOptimalPackingMode. destruct (areAllElementsNan src); [apply size_empty; by apply H1|]. assert (~ all_nan src) by (rewrite <-H1; done).
  destruct (isScalar src); [apply size_scalar; [done|by apply H2]|]. assert (~ scalar_matrix src) by (rewrite <-H2; done).
  destruct (isDiagonal src); [apply size_diagonal; [done|done|by apply H3]|]. assert (~ diagonal_matrix src) by (rewrite <-H3; done).
  destruct (isSymmetric src); cbn [packed_size].
  - unfold NumElementsInTriangle. replace ((1 + N) * N) with (N * (N + 1)) by lia. apply size_symmetric; try done. by apply H4.
  - apply size_full; try done. rewrite <-H4. done.
Qed.

(** C27: A square matrix packed into an array and unpacked again comes back with
    every element converted to the type of the array and then to that of the
    result, or as zero where it was close to zero, or as an element of the matrix
    it compares as close to, converted: the receiver tells the five forms apart by the number of
    elements only, for every number of rows. The array has the number of elements
    of the most compact form that applies to the matrix (nothing for NaNs, one
    for a multiple of the unit matrix, a diagonal, a triangle, or all), and a
    matrix of NaNs comes back as zeros. The conversions are arguments, so nothing is said about what they lose. *)
Theorem square_matrix_survives_packing a src dst :
  wf a -> Z.of_nat (length src) = NumElements -> Z.of_nat (length dst) = NumElements ->
  let a' := packSquareMatrix a src in
  wf a' /\ compact_size src (size_ a') /\
  (~ all_nan src -> forall row col, 0 <= row < N -> 0 <= col < N ->
     exists y, unpackSquareMatrix a' dst !! Z.to_nat (row * N + col) = Some y /\ near src (cell src row col) y) /\
  (all_nan src -> unpackSquareMatrix a' dst = (fun _ => zero) <$> seqZ 0 NumElements).
Proof.
  intros Ha Hsrc Hdst a'. destruct (pack_ok a src Ha Hsrc) as (Ha' & Hi & Hs). fold a' in Ha', Hi, Hs. rewrite <-areAllElementsNan_ok.
  unfold unpackSquareMatrix. rewrite Hdst, Z.eqb_refl. split; [done|]. split; [rewrite Hs; apply detected_size|]. split.
  - intros Hnan%not_true_is_false row col Hr Hc. assert (Hin : 0 <= row * N + col < NumElements) by (unfold NumElements; nia).
    by apply (unpack_packed a' src dst Ha' Hsrc Hdst Hi Hs Hnan (row * N + col)).
  - intros Hnan. unfold detectOptimalPackingMode in Hs. rewrite Hnan in Hs. cbn [packed_size] in Hs.
    unfold unpackSquareMatrixImpl. pose proof triangle_size. rewrite Hs.
    destruct (Z.eqb_spec 0 N); [lia|]. destruct (Z.eqb_spec 0 NumElementsInTriangle); [nia|].
    destruct (Z.eqb_spec 0 NumElements); [unfold NumElements in *; nia|]. cbn. by apply fill_ok.
Qed.
End matrices.

(** ** In place *)

(** [packSquareMatrix()] and [unpackSquareMatrix()]: the elements of the array are copied out of it and back; no element changes its type. *)
Section in_place.
Context {V : Type} (dflt zero : V) (isNaN isCloseToZero : V -> bool) (areClose : V -> V -> bool) (NumRowsCols : Z).

Definition packSquareMatrix_in_place (a : Array V) : Array V :=
  let MaxSize := NumElements NumRowsCols in
  if size_ a =? MaxSize
  then packSquareMatrixImpl dflt isNaN isCloseToZero areClose id NumRowsCols a (at_ ArrayModeDynamic MaxSize dflt a <$> seqZ 0 MaxSize)
  else if size_ a =? 0 then a else clear a.

Definition unpackSquareMatrix_in_place (a : Array V) (matrix : list V) : Array V :=
  append ArrayModeDynamic (NumElements NumRowsCols) (clear a) (unpackSquareMatrixImpl dflt dflt zero id NumRowsCols a matrix).
End in_place.

(** ** Examples *)

(** Integers modulo 256 in the array: [areClose] is equality, nothing is NaN, and the conversion to the array cuts the higher bits off. *)
Abbreviation pack_Z := (packSquareMatrix (Src := Z) (V := Z) 0 (fun _ => false) (Z.eqb 0) Z.eqb u8 3).
Abbreviation unpack_Z := (unpackSquareMatrix (V := Z) (Dst := Z) 0 0 0 id 3).

Definition example_matrix : list Z := [1; 2; 3; 2; 4; 5; 3; 5; 6].
Definition example_packed : Array Z := mkArray (replicate 9 7) 0.

Lemma square_matrix_survives_packing_witness :
  compact_size 0 (fun _ => false) (Z.eqb 0) Z.eqb 3 example_matrix (size_ (pack_Z example_packed example_matrix)) /\
  exists y, unpack_Z (pack_Z example_packed example_matrix) (replicate 9 8) !! 7%nat = Some y /\
    near 0 (Z.eqb 0) Z.eqb u8 id example_matrix 5 y.
Proof.
  destruct (square_matrix_survives_packing (Src := Z) (V := Z) (Dst := Z) 0 0 0 0 (fun _ => false) (Z.eqb 0) Z.eqb u8 id 3 ltac:(lia)
    example_packed example_matrix (replicate 9 8)) as (_ & Hs & Hm & _).
  - split; [vm_compute; discriminate|reflexivity|cbn; unfold NumElements; lia|repeat constructor].
  - reflexivity.
  - reflexivity.
  - split; [exact Hs|]. refine (Hm _ 2 1 _ _); [|lia|lia]. intros Hn. discriminate (Hn 0 0 ltac:(lia) ltac:(lia)).
Defined.

(** A symmetric and a diagonal matrix and their packed forms. *)
Example example_forms :
  items ArrayModeDynamic 9 (pack_Z example_packed example_matrix) = [1; 2; 3; 4; 5; 6] /\
  items ArrayModeDynamic 9 (pack_Z example_packed [1; 0; 0; 0; 2; 0; 0; 0; 3]) = [1; 2; 3] /\
  unpack_Z (pack_Z example_packed example_matrix) (replicate 9 8) = example_matrix /\
  unpack_Z (pack_Z example_packed [257; 0; 0; 0; 257; 0; 0; 0; 257]) (replicate 9 8) = [1; 0; 0; 0; 1; 0; 0; 0; 1].
Proof. vm_compute. done. Qed.
