(* ===== verification/DataTypes.v ===== *)
(** * DataTypes: the data types the DSDL compiler generates

    Models the template of the generated code,
    [libuavcan/dsdl_compiler/libuavcan_dsdl_compiler/data_type_template.tmpl]: the
    functions [encode] and [decode] of structures, of unions and of their void
    fields, on top of the types the library has itself, integers and arrays.
    [MType] is a data type, [mvalue] its objects and [raw] its functions. The
    theorems hold for every data type, whatever the nesting: what is encoded on
    one machine is decoded on another one, and arbitrary data is decoded into a
    well-formed object or refused. *)

From stdpp Require Import list.
From S2P Require Import Prelude TransferBuffer BitStream ScalarCodec Array ArrayCodec.
Local Open Scope Z_scope.

(** ** Types and their objects *)

Inductive MType :=
| MInteger (t : IntegerSpec)
| MVoid (BitLen : Z)
| MArray (mode : ArrayMode) (MaxSize : Z) (elem : MType)
| MStruct (fields : MFields)
| MUnion (fields : MFields)
with MFields :=
| FNil
| FCons (field : MType) (fields : MFields).

Scheme MType_mut := Induction for MType Sort Prop
with MFields_mut := Induction for MFields Sort Prop.
Combined Scheme MType_MFields_ind from MType_mut, MFields_mut.

Fixpoint num_fields (fs : MFields) : Z := match fs with FNil => 0 | FCons _ fs => 1 + num_fields fs end.

(** The members of the generated [struct]: a union has a tag and all its fields. *)
Fixpoint mvalue (m : MType) : Type :=
  match m with
  | MInteger _ => Z
  | MVoid _ => unit
  | MArray _ _ elem => Array (mvalue elem)
  | MStruct fs => mvalues fs
  | MUnion fs => Z * mvalues fs
  end
with mvalues (fs : MFields) : Type :=
  match fs with FNil => unit | FCons m fs => mvalue m * mvalues fs end.

(** [TagType] and the type of void fields. *)
Definition TagType (n : Z) : IntegerSpec := mkSpec (IntegerBitLen n) SignednessUnsigned CastModeTruncate.
Definition VoidType (BitLen : Z) : IntegerSpec := mkSpec BitLen SignednessUnsigned CastModeSaturate.

(** ** The generated functions *)

Section codec.
Context {B B' : Type} `{ITransferBuffer B} `{ITransferBuffer B'}.
Context (big_endian big_endian' : bool) (tmp tmp' : list Z).
Abbreviation tao := TailArrayOptimizationMode.
Abbreviation Off := TailArrayOptDisabled.

(** A void field is encoded from, and decoded into, a variable of the function. *)
Definition void_type (BitLen : Z) : RawType unit B B' :=
  mkRawType BitLen BitLen tt
    (fun _ s _ => Spec_encode big_endian tmp (VoidType BitLen) s 0)
    (fun _ s _ => '(res, _, s) ← Spec_decode big_endian' tmp' (VoidType BitLen) s 0; Some (res, tt, s)).

(** No fields: [int res = 1; return res;]. *)
Definition empty_type : RawType unit B B' :=
  mkRawType 0 0 tt (fun _ s _ => Some (1, s)) (fun _ s _ => Some (1, tt, s)).

(** The last field of a structure gets the mode of the structure. *)
Definition last_type {V} (T : RawType V B B') : RawType (V * unit) B B' :=
  mkRawType (MinBitLen T) (MaxBitLen T) (raw_value T, tt)
    (fun v s t => raw_encode T (fst v) s t)
    (fun v s t => '(res, x, s) ← raw_decode T (fst v) s t; Some (res, (x, tt), s)).

(** Any other field, then the rest of the structure. *)
Definition field_type {V W} (T : RawType V B B') (R : RawType W B B') : RawType (V * W) B B' :=
  mkRawType (MinBitLen T + MinBitLen R) (MaxBitLen T + MaxBitLen R) (raw_value T, raw_value R)
    (fun v s t =>
       '(res, s) ← raw_encode T (fst v) s Off;
       if res <=? 0 then Some (res, s) else raw_encode R (snd v) s t)
    (fun v s t =>
       '(res, x, s) ← raw_decode T (fst v) s Off;
       if res <=? 0 then Some (res, (x, snd v), s)
       else '(res, y, s) ← raw_decode R (snd v) s t; Some (res, (x, y), s)).

(** A union with the tag [tag], from field [idx] on: [if (self._tag_ == idx)]. *)
Definition choice_end : RawType unit B B' :=
  mkRawType 0 0 tt (fun _ s _ => Some (-1, s)) (fun _ s _ => Some (-1, tt, s)).

Definition choice_type {V W} (idx tag : Z) (T : RawType V B B') (R : RawType W B B') : RawType (V * W) B B' :=
  mkRawType (if tag =? idx then MinBitLen T else MinBitLen R) (if tag =? idx then MaxBitLen T else MaxBitLen R)
    (raw_value T, raw_value R)
    (fun v s t => if tag =? idx then raw_encode T (fst v) s t else raw_encode R (snd v) s t)
    (fun v s t =>
       if tag =? idx then '(res, x, s) ← raw_decode T (fst v) s t; Some (res, (x, snd v), s)
       else '(res, y, s) ← raw_decode R (snd v) s t; Some (res, (fst v, y), s)).

(** The tag, then the field it names. *)
Definition union_type {W} (n MinLen MaxLen : Z) (value : W) (choice : Z -> RawType W B B') : RawType (Z * W) B B' :=
  mkRawType (is_BitLen (TagType n) + MinLen) (is_BitLen (TagType n) + MaxLen) (0, value)
    (fun v s t =>
       '(res, s) ← Spec_encode big_endian tmp (TagType n) s (fst v);
       if res <=? 0 then Some (res, s) else raw_encode (choice (fst v)) (snd v) s t)
    (fun v s t =>
       '(res, tag, s) ← Spec_decode big_endian' tmp' (TagType n) s (fst v);
       if res <=? 0 then Some (res, (tag, snd v), s)
       else '(res, w, s) ← raw_decode (choice tag) (snd v) s t; Some (res, (tag, w), s)).

(** The functions of a data type. The storage of a dynamic array beyond its size
    is never read; here it holds default values. *)
Fixpoint raw (m : MType) : RawType (mvalue m) B B' :=
  match m return RawType (mvalue m) B B' with
  | MInteger t => integer_type big_endian big_endian' tmp tmp' t
  | MVoid BitLen => void_type BitLen
  | MArray mode MaxSize elem =>
      array_type mode MaxSize (raw elem) big_endian big_endian' tmp tmp'
        (replicate (Z.to_nat MaxSize) (raw_value (raw elem)))
  | MStruct fs => raw_struct fs
  | MUnion fs => union_type (num_fields fs) (fields_min fs) (fields_max fs) (fields_value fs) (raw_choice fs 0)
  end
with raw_struct (fs : MFields) : RawType (mvalues fs) B B' :=
  match fs return RawType (mvalues fs) B B' with
  | FNil => empty_type
  | FCons m fs =>
      match fs return RawType (mvalues fs) B B' -> RawType (mvalue m * mvalues fs) B B' with
      | FNil => fun _ => last_type (raw m)
      | FCons _ _ => fun R => field_type (raw m) R
      end (raw_struct fs)
  end
with raw_choice (fs : MFields) (idx tag : Z) : RawType (mvalues fs) B B' :=
  match fs return RawType (mvalues fs) B B' with
  | FNil => choice_end
  | FCons m fs => choice_type idx tag (raw m) (raw_choice fs (idx + 1) tag)
  end
with fields_value (fs : MFields) : mvalues fs :=
  match fs return mvalues fs with FNil => tt | FCons m fs => (raw_value (raw m), fields_value fs) end
with fields_min (fs : MFields) : Z :=
  match fs with
  | FNil => 0
  | FCons m fs => match fs with FNil => MinBitLen (raw m) | _ => Z.min (MinBitLen (raw m)) (fields_min fs) end
  end
with fields_max (fs : MFields) : Z :=
  match fs with
  | FNil => 0
  | FCons m fs => match fs with FNil => MaxBitLen (raw m) | _ => Z.max (MaxBitLen (raw m)) (fields_max fs) end
  end.
End codec.

(** ** What the functions do *)

Definition void_spec (BitLen : Z) : RawSpec unit :=
  mkRawSpec (fun _ => True) (fun _ => True) (fun _ _ => True) (fun _ _ => BitLen) (fun _ _ _ _ => True).

Definition unit_spec (ok : Prop) : RawSpec unit :=
  mkRawSpec (fun _ => True) (fun _ => ok) (fun _ _ => True) (fun _ _ => 0) (fun _ _ _ _ => True).

Definition last_spec {V} (Sp : RawSpec V) : RawSpec (V * unit) :=
  mkRawSpec (fun v => rs_wf Sp v.1) (fun v => rs_ok Sp v.1) (fun v v' => rs_same Sp v.1 v'.1)
    (fun v t => rs_bits Sp v.1 t) (fun c o v t => rs_at Sp c o v.1 t).

Definition field_spec {V W} (Sp : RawSpec V) (Rp : RawSpec W) : RawSpec (V * W) :=
  mkRawSpec (fun v => rs_wf Sp v.1 /\ rs_wf Rp v.2) (fun v => rs_ok Sp v.1 /\ rs_ok Rp v.2)
    (fun v v' => rs_same Sp v.1 v'.1 /\ rs_same Rp v.2 v'.2)
    (fun v t => rs_bits Sp v.1 TailArrayOptDisabled + rs_bits Rp v.2 t)
    (fun c o v t => rs_at Sp c o v.1 TailArrayOptDisabled /\ rs_at Rp c (o + rs_bits Sp v.1 TailArrayOptDisabled) v.2 t).

Definition choice_spec {V W} (idx tag : Z) (Sp : RawSpec V) (Rp : RawSpec W) : RawSpec (V * W) :=
  mkRawSpec (fun v => rs_wf Sp v.1 /\ rs_wf Rp v.2)
    (fun v => if tag =? idx then rs_ok Sp v.1 else rs_ok Rp v.2)
    (fun v v' => if tag =? idx then rs_same Sp v.1 v'.1 else rs_same Rp v.2 v'.2)
    (fun v t => if tag =? idx then rs_bits Sp v.1 t else rs_bits Rp v.2 t)
    (fun c o v t => if tag =? idx then rs_at Sp c o v.1 t else rs_at Rp c o v.2 t).

(** A union that can be sent has a valid tag; the field it names arrives. *)
Definition union_spec {W} (n : Z) (wf : W -> Prop) (choice : Z -> RawSpec W) : RawSpec (Z * W) :=
  mkRawSpec (fun v => wf v.2) (fun v => 0 <= v.1 < n /\ rs_ok (choice v.1) v.2)
    (fun v v' => v'.1 = v.1 /\ rs_same (choice v.1) v.2 v'.2)
    (fun v t => is_BitLen (TagType n) + rs_bits (choice v.1) v.2 t)
    (fun c o v t => encodes c o (is_BitLen (TagType n)) (cast (TagType n) v.1) /\
                    rs_at (choice v.1) c (o + is_BitLen (TagType n)) v.2 t).

Section laws.
Context {B B' : Type} `{WritableBuffer B} `{ITransferBuffer B'}.
Context (big_endian big_endian' : bool) (tmp tmp' : list Z).
Abbreviation Off := TailArrayOptDisabled.

Lemma empty_laws : RawLaws (empty_type (B := B) (B' := B')) (unit_spec True).
Proof.
  split; cbn; try done; try lia.
  - intros [] t s _ Hs _. exists s. split_and!; try done. lia.
  - intros [] t [] s content _ _ _ _ Ho Hfit _ _. exists tt, s. split_and!; try done. intros _. split; [done|lia].
  - intros t [] s content _ _ _ Ho. exists 1, tt, s. split_and!; try done; lia.
Qed.

Section sequence.
Context {V W : Type} (T : RawType V B B') (Sp : RawSpec V) (L : RawLaws T Sp).

Lemma last_laws : RawLaws (last_type T) (last_spec Sp).
Proof.
  split; cbn.
  - apply (rl_value T Sp L).
  - apply (rl_min T Sp L).
  - intros [v []] t. apply (rl_bits_nonneg T Sp L).
  - intros c c' o [v []] t. apply (rl_at_ext T Sp L).
  - intros [v []] t s. apply (rl_encode T Sp L).
  - intros [v []] t [v0 []] s content Hv Hv0 Hr Hmax Ho Hfit Hend Hat. cbn in *.
    destruct (rl_decode T Sp L v t v0 s content) as (v' & s' & E & R); try done.
    rewrite E. exists (v', tt), s'. done.
  - intros t [v0 []] s content Hv0 Hr Hmax Ho. cbn in *.
    destruct (rl_any T Sp L t v0 s content) as (r & v' & s' & E & R); try done.
    rewrite E. exists r, (v', tt), s'. done.
Qed.

Context (R : RawType W B B') (Rp : RawSpec W) (M : RawLaws R Rp).

Lemma field_encode_ok v t (s : BitStream B) :
  rs_ok (field_spec Sp Rp) v -> Writer s -> bit_offset_ s + rs_bits (field_spec Sp Rp) v t <= 8 * wb_capacity (buf_ s) ->
  exists s', raw_encode (field_type T R) v s t = Some (ResultOk, s') /\ Writer s' /\
    bit_offset_ s' = bit_offset_ s + rs_bits (field_spec Sp Rp) v t /\ wb_capacity (buf_ s') = wb_capacity (buf_ s) /\
    (forall i, 0 <= i < bit_offset_ s -> bit_at (wb_content (buf_ s')) i = bit_at (wb_content (buf_ s)) i) /\
    rs_at (field_spec Sp Rp) (wb_content (buf_ s')) (bit_offset_ s) v t.
Proof.
  destruct v as [v w]. cbn. intros [Hv Hw] Hs Hfit. pose proof (rl_bits_nonneg T Sp L v Off Hv).
  pose proof (rl_bits_nonneg R Rp M w t Hw). pose proof (wr_offset s Hs).
  destruct (rl_encode T Sp L v Off s Hv Hs) as (s1 & E1 & Hs1 & Ho1 & Hc1 & Hk1 & Ha1); [lia|].
  rewrite E1. cbn.
  destruct (rl_encode R Rp M w t s1 Hw Hs1) as (s2 & E2 & Hs2 & Ho2 & Hc2 & Hk2 & Ha2); [lia|].
  exists s2. split_and!; [done|done|lia|congruence| | |].
  - intros i Hi. rewrite Hk2 by lia. by apply Hk1.
  - apply (rl_at_ext T Sp L (wb_content (buf_ s1))); try done. intros i Hi. apply Hk2. lia.
  - by rewrite <-Ho1.
Qed.

Lemma field_decode_ok v t v0 (s : BitStream B') content :
  rs_ok (field_spec Sp Rp) v -> rs_wf (field_spec Sp Rp) v0 -> Readable (buf_ s) content ->
  8 * Z.of_nat (length content) < 2 ^ 31 -> 0 <= bit_offset_ s ->
  bit_offset_ s + rs_bits (field_spec Sp Rp) v t <= 8 * Z.of_nat (length content) ->
  at_end t content (bit_offset_ s) (rs_bits (field_spec Sp Rp) v t) ->
  rs_at (field_spec Sp Rp) content (bit_offset_ s) v t ->
  exists v' s', raw_decode (field_type T R) v0 s t = Some (ResultOk, v', s') /\ rs_wf (field_spec Sp Rp) v' /\
    rs_same (field_spec Sp Rp) v v' /\
    (t = Off -> buf_ s' = buf_ s /\ bit_offset_ s' = bit_offset_ s + rs_bits (field_spec Sp Rp) v t).
Proof.
  destruct v as [v w], v0 as [v0 w0]. cbn. intros [Hv Hw] [Hv0 Hw0] Hr Hmax Ho Hfit Hend [Hat1 Hat2].
  pose proof (rl_bits_nonneg T Sp L v Off Hv). pose proof (rl_bits_nonneg R Rp M w t Hw).
  destruct (rl_decode T Sp L v Off v0 s content Hv Hv0 Hr Hmax Ho) as (v' & s1 & E1 & Hv' & Hsame & Hs1); [lia|done|done|].
  destruct (Hs1 eq_refl) as [Hb1 Ho1]. rewrite E1. cbn.
  destruct (rl_decode R Rp M w t w0 s1 content Hw Hw0) as (w' & s2 & E2 & Hw' & Hsame2 & Hs2);
    rewrite ?Hb1, ?Ho1; try done; try lia; [by apply at_end_after|].
  rewrite E2. cbn. exists (v', w'), s2. split_and!; try done.
  intros Ht. destruct (Hs2 Ht) as [-> ->]. rewrite Hb1, Ho1. split; [done|lia].
Qed.

Lemma field_any t v0 (s : BitStream B') content :
  rs_wf (field_spec Sp Rp) v0 -> Readable (buf_ s) content -> 8 * Z.of_nat (length content) < 2 ^ 31 ->
  0 <= bit_offset_ s <= 8 * Z.of_nat (length content) ->
  exists r v' s', raw_decode (field_type T R) v0 s t = Some (r, v', s') /\ rs_wf (field_spec Sp Rp) v' /\
    buf_ s' = buf_ s /\ bit_offset_ s <= bit_offset_ s' <= 8 * Z.of_nat (length content) /\
    (0 < r -> bit_offset_ s + MinBitLen (field_type T R) <= bit_offset_ s') /\
    (t = Off -> clear_from content (bit_offset_ s) -> 0 <= r <= 1).
Proof.
  destruct v0 as [v0 w0]. cbn. intros [Hv0 Hw0] Hr Hmax Ho.
  destruct (rl_any T Sp L Off v0 s content Hv0 Hr Hmax Ho) as (r & v' & s1 & E1 & Hv' & Hb1 & Ho1 & Hmin1 & Hz1).
  rewrite E1. cbn. destruct (Z.leb_spec r 0).
  { exists r, (v', w0), s1. split_and!; try done; try lia. intros _. by apply Hz1. }
  destruct (rl_any R Rp M t w0 s1 content Hw0) as (r2 & w' & s2 & E2 & Hw' & Hb2 & Ho2 & Hmin2 & Hz2);
    [by rewrite Hb1|done|lia|].
  rewrite E2. cbn. exists r2, (v', w'), s2. split_and!; try done; try lia; [by rewrite Hb2|].
  intros Ht Hz. apply Hz2; [done|]. intros i Hi. apply Hz. lia.
Qed.

Lemma field_laws : RawLaws (field_type T R) (field_spec Sp Rp).
Proof.
  split.
  - split; [apply (rl_value T Sp L)|apply (rl_value R Rp M)].
  - cbn. pose proof (rl_min T Sp L). pose proof (rl_min R Rp M). lia.
  - intros [v w] t [Hv Hw]. cbn. pose proof (rl_bits_nonneg T Sp L v Off Hv). pose proof (rl_bits_nonneg R Rp M w t Hw). lia.
  - intros c c' o [v w] t [Hv Hw]. cbn in *. pose proof (rl_bits_nonneg T Sp L v Off Hv).
    pose proof (rl_bits_nonneg R Rp M w t Hw). intros Hext [Ha1 Ha2]. split.
    + apply (rl_at_ext T Sp L c); try done. intros i Hi. apply Hext. lia.
    + apply (rl_at_ext R Rp M c); try done. intros i Hi. apply Hext. lia.
  - apply field_encode_ok.
  - apply field_decode_ok.
  - apply field_any.
Qed.
End sequence.

Section choices.
Context {V W : Type} (idx tag : Z) (T : RawType V B B') (Sp : RawSpec V) (R : RawType W B B') (Rp : RawSpec W).

(** A union with this tag is the field the tag names; the other fields stay. *)
Lemma choice_laws :
  rs_wf Sp (raw_value T) -> rs_wf Rp (raw_value R) -> (if tag =? idx then RawLaws T Sp else RawLaws R Rp) ->
  RawLaws (choice_type idx tag T R) (choice_spec idx tag Sp Rp).
Proof.
  intros HwT HwR L. unfold choice_type, choice_spec. destruct (tag =? idx).
  - split; cbn.
    + done.
    + apply (rl_min T Sp L).
    + intros [v w] t. apply (rl_bits_nonneg T Sp L).
    + intros c c' o [v w] t. apply (rl_at_ext T Sp L).
    + intros [v w] t s. apply (rl_encode T Sp L).
    + intros [v w] t [v0 w0] s content Hv [Hv0 Hw0] Hr Hmax Ho Hfit Hend Hat. cbn in *.
      destruct (rl_decode T Sp L v t v0 s content) as (v' & s' & E & Hv' & Q); try done.
      rewrite E. exists (v', w0), s'. done.
    + intros t [v0 w0] s content [Hv0 Hw0] Hr Hmax Ho. cbn in *.
      destruct (rl_any T Sp L t v0 s content) as (r & v' & s' & E & Hv' & Q); try done.
      rewrite E. exists r, (v', w0), s'. done.
  - split; cbn.
    + done.
    + apply (rl_min R Rp L).
    + intros [v w] t. apply (rl_bits_nonneg R Rp L).
    + intros c c' o [v w] t. apply (rl_at_ext R Rp L).
    + intros [v w] t s. apply (rl_encode R Rp L).
    + intros [v w] t [v0 w0] s content Hw [Hv0 Hw0] Hr Hmax Ho Hfit Hend Hat. cbn in *.
      destruct (rl_decode R Rp L w t w0 s content) as (w' & s' & E & Hw' & Q); try done.
      rewrite E. exists (v0, w'), s'. done.
    + intros t [v0 w0] s content [Hv0 Hw0] Hr Hmax Ho. cbn in *.
      destruct (rl_any R Rp L t w0 s content) as (r & w' & s' & E & Hw' & Q); try done.
      rewrite E. exists r, (v0, w'), s'. done.
Qed.
End choices.

Context (Ht : length tmp = 17%nat) (Htb : bytes tmp) (Ht' : length tmp' = 17%nat).

Lemma void_laws BitLen :
  spec_ok (VoidType BitLen) -> RawLaws (void_type (B := B) (B' := B') big_endian big_endian' tmp tmp' BitLen) (void_spec BitLen).
Proof.
  intros Hok. pose proof (so_len _ Hok) as Hl. cbn in Hl. split; cbn; try done; try lia.
  - intros [] t s _ Hs Hfit. destruct (Spec_encode_ok big_endian tmp Ht Htb (VoidType BitLen) 0 s Hok Hs Hfit)
      as (s' & E & Hs' & Ho & Hc & Hk & _). exists s'. done.
  - intros [] t [] s content _ _ Hr Hmax Ho Hfit _ _.
    destruct (Spec_decode_any big_endian' tmp' Ht' (VoidType BitLen) 0 s content Hok Hr Hmax) as [[_ ?]|(v & E & _)];
      [lia|cbn in *; lia|].
    rewrite E. cbn. eexists tt, _. split; [reflexivity|]. done.
  - intros t [] s content _ Hr Hmax Ho.
    destruct (Spec_decode_any big_endian' tmp' Ht' (VoidType BitLen) 0 s content Hok Hr Hmax Ho) as [[E _]|(v & E & Hfit)]; rewrite E.
    + exists ResultOutOfBuffer, tt, s. unfold ResultOutOfBuffer. split_and!; try done; lia.
    + exists ResultOk, tt. eexists. split; [reflexivity|]. cbn in *. unfold ResultOk. split_and!; try done; lia.
Qed.

Lemma tag_spec_ok n : 1 <= n < 2 ^ 32 -> spec_ok (TagType n).
Proof. intros Hn. destruct (size_spec_ok n Hn) as [Hl Hs]. by split. Qed.

Lemma tag_delivered n tag : 1 <= n < 2 ^ 32 -> 0 <= tag < n -> delivered (TagType n) tag = tag.
Proof.
  intros Hn Htag. apply delivered_in_range; [by apply tag_spec_ok|]. unfold in_range.
  change (0 <= tag < 2 ^ IntegerBitLen n). destruct (IntegerBitLen_spec n); lia.
Qed.

Section unions.
Context {W : Type} (n MinLen MaxLen : Z) (value : W) (choice : Z -> RawType W B B') (wf : W -> Prop) (cs : Z -> RawSpec W).
Context (Hn : 1 <= n < 2 ^ 32) (Hvalue : wf value) (Hmin0 : 0 <= MinLen).
Context (Hwf : forall tag w, rs_wf (cs tag) w <-> wf w).
Context (Hlaws : forall tag, 0 <= tag < n -> RawLaws (choice tag) (cs tag) /\ MinLen <= MinBitLen (choice tag)).
Context (Hinvalid : forall tag w s t, ~ 0 <= tag < n -> raw_decode (choice tag) w s t = Some (-1, w, s)).
Abbreviation U := (union_type big_endian big_endian' tmp tmp' n MinLen MaxLen value choice).
Abbreviation Us := (union_spec n wf cs).

Lemma tag_bits_pos : 1 <= is_BitLen (TagType n).
Proof. apply (so_len _ (tag_spec_ok n Hn)). Qed.

Lemma union_encode_ok v t (s : BitStream B) :
  rs_ok Us v -> Writer s -> bit_offset_ s + rs_bits Us v t <= 8 * wb_capacity (buf_ s) ->
  exists s', raw_encode U v s t = Some (ResultOk, s') /\ Writer s' /\
    bit_offset_ s' = bit_offset_ s + rs_bits Us v t /\ wb_capacity (buf_ s') = wb_capacity (buf_ s) /\
    (forall i, 0 <= i < bit_offset_ s -> bit_at (wb_content (buf_ s')) i = bit_at (wb_content (buf_ s)) i) /\
    rs_at Us (wb_content (buf_ s')) (bit_offset_ s) v t.
Proof.
  destruct v as [tag w]. cbn [rs_ok rs_bits rs_at union_spec fst snd raw_encode union_type].
  intros [Htag Hw] Hs Hfit. destruct (Hlaws tag Htag) as [L _]. pose proof tag_bits_pos.
  pose proof (rl_bits_nonneg _ _ L w t Hw). pose proof (wr_offset s Hs).
  destruct (Spec_encode_ok big_endian tmp Ht Htb (TagType n) tag s (tag_spec_ok n Hn) Hs)
    as (s1 & E1 & Hs1 & Ho1 & Hc1 & Hk1 & Ha1); [lia|].
  rewrite E1. cbn [mbind option_bind]. change (ResultOk <=? 0) with false. cbn iota.
  destruct (rl_encode _ _ L w t s1 Hw Hs1) as (s2 & E2 & Hs2 & Ho2 & Hc2 & Hk2 & Ha2); [rewrite Ho1, Hc1; lia|].
  exists s2. split_and!; [done|done|lia|congruence| | |].
  - intros i Hi. rewrite Hk2 by lia. by apply Hk1.
  - intros m Hm. pose proof (pos_range _ m Hm). rewrite Hk2 by lia. by apply Ha1.
  - by rewrite <-Ho1.
Qed.

Lemma union_decode_ok v t v0 (s : BitStream B') content :
  rs_ok Us v -> rs_wf Us v0 -> Readable (buf_ s) content -> 8 * Z.of_nat (length content) < 2 ^ 31 ->
  0 <= bit_offset_ s -> bit_offset_ s + rs_bits Us v t <= 8 * Z.of_nat (length content) ->
  at_end t content (bit_offset_ s) (rs_bits Us v t) -> rs_at Us content (bit_offset_ s) v t ->
  exists v' s', raw_decode U v0 s t = Some (ResultOk, v', s') /\ rs_wf Us v' /\ rs_same Us v v' /\
    (t = Off -> buf_ s' = buf_ s /\ bit_offset_ s' = bit_offset_ s + rs_bits Us v t).
Proof.
  destruct v as [tag w], v0 as [tag0 w0].
  cbn [rs_ok rs_bits rs_at rs_wf rs_same union_spec fst snd raw_decode union_type].
  intros [Htag Hw] Hw0 Hr Hmax Ho Hfit Hend [Ha1 Ha2]. destruct (Hlaws tag Htag) as [L _].
  pose proof tag_bits_pos. pose proof (rl_bits_nonneg _ _ L w t Hw).
  rewrite (Spec_decode_ok big_endian' tmp' Ht' (TagType n) (cast (TagType n) tag) tag0 s content)
    by (done || lia || by apply tag_spec_ok).
  rewrite cast_delivered by (by apply tag_spec_ok). rewrite tag_delivered by done.
  cbn [mbind option_bind]. change (ResultOk <=? 0) with false. cbn iota. set (s1 := mkStream _ _ _).
  destruct (rl_decode _ _ L w t w0 s1 content Hw) as (w' & s2 & E2 & Hw' & Hsame & Hs2);
    try (unfold s1; cbn [buf_ bit_offset_]; (done || lia)).
  { by apply Hwf. }
  { unfold s1. cbn [bit_offset_]. by apply at_end_after. }
  rewrite E2. cbn [mbind option_bind]. exists (tag, w'), s2. split_and!; try done.
  - by apply (Hwf tag).
  - intros Hoff. destruct (Hs2 Hoff) as [-> ->]. unfold s1. cbn [buf_ bit_offset_]. split; [done|lia].
Qed.

Lemma union_any t v0 (s : BitStream B') content :
  rs_wf Us v0 -> Readable (buf_ s) content -> 8 * Z.of_nat (length content) < 2 ^ 31 ->
  0 <= bit_offset_ s <= 8 * Z.of_nat (length content) ->
  exists r v' s', raw_decode U v0 s t = Some (r, v', s') /\ rs_wf Us v' /\ buf_ s' = buf_ s /\
    bit_offset_ s <= bit_offset_ s' <= 8 * Z.of_nat (length content) /\
    (0 < r -> bit_offset_ s + MinBitLen U <= bit_offset_ s') /\
    (t = Off -> clear_from content (bit_offset_ s) -> 0 <= r <= 1).
Proof.
  destruct v0 as [tag0 w0]. cbn [rs_wf union_spec fst snd raw_decode union_type MinBitLen]. intros Hw0 Hr Hmax Ho.
  pose proof tag_bits_pos as Hpos. pose proof (tag_spec_ok n Hn) as Hok.
  destruct (Spec_decode_any big_endian' tmp' Ht' (TagType n) tag0 s content Hok Hr Hmax Ho) as [[E _]|(v & E & Hfit)].
  { rewrite E. cbn [mbind option_bind]. change (ResultOutOfBuffer <=? 0) with true. cbn iota.
    exists ResultOutOfBuffer, (tag0, w0), s. unfold ResultOutOfBuffer. split_and!; try done; lia. }
  set (tag := reduced _ _ v) in *.
  assert (clear_from content (bit_offset_ s) -> tag = 0) as Hzero.
  { intros Hz. pose proof (Spec_decode_zero big_endian' tmp' Ht' (TagType n) tag0 s content
      Hok Hr Hmax ltac:(lia) Hfit Hz) as E0. rewrite E in E0. by injection E0. }
  rewrite E. cbn [mbind option_bind]. change (ResultOk <=? 0) with false. cbn iota. set (s1 := mkStream _ _ _).
  assert (buf_ s1 = buf_ s /\ bit_offset_ s1 = bit_offset_ s + is_BitLen (TagType n)) as [Hb1 Ho1] by done.
  destruct (decide (0 <= tag < n)) as [Htag|Htag].
  - destruct (Hlaws tag Htag) as [L Hmin].
    destruct (rl_any _ _ L t w0 s1 content) as (r & w' & s2 & E2 & Hw' & Hb2 & Ho2 & Hmin2 & Hz2);
      [by apply Hwf|by rewrite Hb1|done|lia|].
    rewrite E2. cbn [mbind option_bind]. exists r, (tag, w'), s2. split_and!; try done; try lia.
    + by apply (Hwf tag).
    + intros Hoff Hz. apply Hz2; [done|]. intros i Hi. apply Hz. lia.
  - rewrite Hinvalid by done. cbn [mbind option_bind]. exists (-1), (tag, w0), s1. split_and!; try done; try lia.
    intros _ Hz. specialize (Hzero Hz). lia.
Qed.

Lemma union_laws : RawLaws U Us.
Proof.
  pose proof tag_bits_pos. split.
  - exact Hvalue.
  - cbn [MinBitLen union_type]. lia.
  - intros [tag w] t [Htag Hw]. destruct (Hlaws tag Htag) as [L _]. cbn [rs_bits union_spec fst snd] in *.
    pose proof (rl_bits_nonneg _ _ L w t Hw). lia.
  - intros c c' o [tag w] t [Htag Hw]. destruct (Hlaws tag Htag) as [L _]. cbn [rs_bits rs_at union_spec fst snd] in *.
    pose proof (rl_bits_nonneg _ _ L w t Hw). intros Hext [Ha1 Ha2]. split.
    + intros m Hm. pose proof (pos_range _ m Hm). rewrite Hext by lia. by apply Ha1.
    + apply (rl_at_ext _ _ L c); try done. intros i Hi. apply Hext. lia.
  - apply union_encode_ok.
  - apply union_decode_ok.
  - apply union_any.
Qed.
End unions.

(** ** Every data type *)

Fixpoint mtype_ok (m : MType) : Prop :=
  match m with
  | MInteger t => spec_ok t
  | MVoid BitLen => spec_ok (VoidType BitLen)
  | MArray _ MaxSize elem => 1 <= MaxSize < 2 ^ 32 /\ mtype_ok elem
  | MStruct fs => mfields_ok fs
  | MUnion fs => 1 <= num_fields fs < 2 ^ 32 /\ mfields_ok fs
  end
with mfields_ok (fs : MFields) : Prop :=
  match fs with FNil => True | FCons m fs => mtype_ok m /\ mfields_ok fs end.

Abbreviation traw := (raw (B := B) (B' := B') big_endian big_endian' tmp tmp').
Abbreviation tstruct := (raw_struct (B := B) (B' := B') big_endian big_endian' tmp tmp').
Abbreviation tmin := (fields_min (B := B) (B' := B') big_endian big_endian' tmp tmp').
Abbreviation tchoice := (raw_choice (B := B) (B' := B') big_endian big_endian' tmp tmp').

Fixpoint mspec (m : MType) : RawSpec (mvalue m) :=
  match m return RawSpec (mvalue m) with
  | MInteger t => integer_spec t
  | MVoid BitLen => void_spec BitLen
  | MArray mode MaxSize elem => array_spec (traw elem) (mspec elem) mode MaxSize
  | MStruct fs => struct_spec fs
  | MUnion fs => union_spec (num_fields fs) (fields_wf fs) (mchoice_spec fs 0)
  end
with struct_spec (fs : MFields) : RawSpec (mvalues fs) :=
  match fs return RawSpec (mvalues fs) with
  | FNil => unit_spec True
  | FCons m fs =>
      match fs return RawSpec (mvalues fs) -> RawSpec (mvalue m * mvalues fs) with
      | FNil => fun _ => last_spec (mspec m)
      | FCons _ _ => fun R => field_spec (mspec m) R
      end (struct_spec fs)
  end
with mchoice_spec (fs : MFields) (idx tag : Z) : RawSpec (mvalues fs) :=
  match fs return RawSpec (mvalues fs) with
  | FNil => unit_spec False
  | FCons m fs => choice_spec idx tag (mspec m) (mchoice_spec fs (idx + 1) tag)
  end
with fields_wf (fs : MFields) : mvalues fs -> Prop :=
  match fs return mvalues fs -> Prop with
  | FNil => fun _ => True
  | FCons m fs => fun v => rs_wf (mspec m) v.1 /\ fields_wf fs v.2
  end.

Lemma num_fields_nonneg fs : 0 <= num_fields fs.
Proof. induction fs; cbn; lia. Qed.

Lemma mchoice_wf fs idx tag w : rs_wf (mchoice_spec fs idx tag) w <-> fields_wf fs w.
Proof.
  revert idx w. induction fs as [|m fs IH]; intros idx w; [done|]. cbn. by rewrite IH.
Qed.

Lemma mchoice_value fs idx tag : raw_value (tchoice fs idx tag) = fields_value (B := B) (B' := B') big_endian big_endian' tmp tmp' fs.
Proof. revert idx. induction fs as [|m fs IH]; intros idx; [done|]. cbn. by rewrite IH. Qed.

Lemma fields_min_cons m fs :
  tmin (FCons m fs) = match fs with FNil => MinBitLen (traw m) | _ => Z.min (MinBitLen (traw m)) (tmin fs) end.
Proof. done. Qed.

(** A tag that names no field is refused. *)
Lemma mchoice_invalid fs idx tag w s t :
  ~ idx <= tag < idx + num_fields fs -> raw_decode (tchoice fs idx tag) w s t = Some (-1, w, s).
Proof.
  revert idx w. induction fs as [|m fs IH]; intros idx w Htag; [by destruct w|]. cbn in Htag |- *.
  pose proof (num_fields_nonneg fs). destruct (Z.eqb_spec tag idx); [lia|]. rewrite IH by lia. cbn in w. by destruct w.
Qed.

(** The laws of all fields give those of a structure and of a union with any tag. *)
Definition fields_lawful (fs : MFields) : Prop :=
  mfields_ok fs ->
  RawLaws (tstruct fs) (struct_spec fs) /\
  fields_wf fs (fields_value (B := B) (B' := B') big_endian big_endian' tmp tmp' fs) /\
  0 <= tmin fs /\
  forall idx tag, idx <= tag < idx + num_fields fs ->
    RawLaws (tchoice fs idx tag) (mchoice_spec fs idx tag) /\
    tmin fs <= MinBitLen (tchoice fs idx tag).

Lemma fields_lawful_cons m fs :
  (mtype_ok m -> RawLaws (traw m) (mspec m)) -> fields_lawful fs -> fields_lawful (FCons m fs).
Proof.
  intros Lm Lfs [Hm Hfs]. specialize (Lm Hm). destruct (Lfs Hfs) as (Ls & Hwf & Hmin & Hc).
  pose proof (rl_min _ _ Lm) as Hmm. split_and!.
  - cbn. destruct fs; [by apply last_laws|by apply field_laws].
  - cbn. split; [apply (rl_value _ _ Lm)|done].
  - rewrite fields_min_cons. destruct fs; [done|]. lia.
  - intros idx tag Htag. cbn in Htag. split.
    + cbn. apply choice_laws; [apply (rl_value _ _ Lm)|rewrite mchoice_value; by apply mchoice_wf|].
      destruct (Z.eqb_spec tag idx); [done|]. apply Hc. lia.
    + rewrite fields_min_cons.
      change (MinBitLen (tchoice (FCons m fs) idx tag)) with
        (if tag =? idx then MinBitLen (traw m) else MinBitLen (tchoice fs (idx + 1) tag)).
      destruct (Z.eqb_spec tag idx); [destruct fs; lia|]. destruct (Hc (idx + 1) tag) as [_ Hmin']; [lia|].
      destruct fs; [cbn in Htag|]; lia.
Qed.

Theorem data_type_laws : (forall m, mtype_ok m -> RawLaws (traw m) (mspec m)) /\ (forall fs, fields_lawful fs).
Proof.
  apply MType_MFields_ind.
  - intros t Hok. by apply integer_laws.
  - intros n Hok. by apply void_laws.
  - intros mode M e IH [HM He]. specialize (IH He).
    apply array_laws; try done; [rewrite length_replicate; lia|]. apply Forall_replicate, (rl_value _ _ IH).
  - intros fs IH Hfs. by destruct (IH Hfs).
  - intros fs IH [Hn Hfs]. destruct (IH Hfs) as (_ & Hwf & Hmin & Hc).
    apply union_laws; try done.
    + intros tag w. apply mchoice_wf.
    + intros tag Htag. apply (Hc 0 tag). lia.
    + intros tag w s t Htag. apply mchoice_invalid. lia.
  - intros _. split_and!; try done; [apply empty_laws|]. intros idx tag Htag. cbn in Htag. lia.
  - intros m Lm fs Lfs. by apply fields_lawful_cons.
Qed.
End laws.

(** ** Messages *)

Section messages.
Context {B B' : Type} `{WritableBuffer B} `{ITransferBuffer B'}.
Context (big_endian big_endian' : bool) (tmp tmp' : list Z).
Abbreviation On := TailArrayOptEnabled.
Abbreviation type_of m := (raw (B := B) (B' := B') big_endian big_endian' tmp tmp' m).
Abbreviation spec_of m := (mspec (B := B) (B' := B') big_endian big_endian' tmp tmp' m).

(** C3: Whatever the data type, structures, unions and static and dynamic arrays
    nested to any depth, an object encoded into an empty buffer with enough room
    succeeds, takes exactly the bytes its bits need, and decoding these bytes on a
    machine of any byte order, into any object, succeeds and gives the same object:
    every integer cast to its type, every array with its size, every union with its
    tag. That includes the last array of a message, whose size is not transmitted. *)
Theorem data_types_roundtrip m (v : mvalue m) (b : B) :
  length tmp = 17%nat -> bytes tmp -> length tmp' = 17%nat -> mtype_ok m ->
  rs_ok (spec_of m) v -> wb_wf b -> wb_content b = [] -> rs_bits (spec_of m) v On <= 8 * wb_capacity b ->
  exists s, raw_encode (type_of m) v (BitStream_init b) On = Some (ResultOk, s) /\
    Z.of_nat (length (wb_content (buf_ s))) = (rs_bits (spec_of m) v On + 7) / 8 /\
    forall v0 (b' : B'), rs_wf (spec_of m) v0 -> Readable b' (wb_content (buf_ s)) ->
      exists v' s', raw_decode (type_of m) v0 (BitStream_init b') On = Some (ResultOk, v', s') /\
        rs_same (spec_of m) v v'.
Proof.
  intros Ht Htb Ht' Hm Hv Hb Hnil Hfit.
  destruct (data_type_laws (B := B) (B' := B') big_endian big_endian' tmp tmp' Ht Htb Ht') as [L _]. specialize (L m Hm).
  destruct (rl_encode _ _ L v On (BitStream_init b) Hv) as (s & E & Hs & Ho & Hc & _ & Hat);
    [by apply BitStream_init_writer|done|].
  pose proof (rl_bits_nonneg _ _ L v On Hv) as Hpos. pose proof (wr_length s Hs) as Hlen. pose proof (wr_offset s Hs).
  pose proof (wb_size _ Hb) as Hsz. cbn [BitStream_init bit_offset_ buf_] in *. rewrite Z.add_0_l in Ho. rewrite Ho in Hlen.
  exists s. split; [done|]. split; [done|]. intros v0 b' Hv0 Hr.
  pose proof (Z_div_mod_eq_full (rs_bits (spec_of m) v On + 7) 8) as Hdiv.
  pose proof (Z.mod_pos_bound (rs_bits (spec_of m) v On + 7) 8 ltac:(lia)) as Hmod.
  destruct (rl_decode _ _ L v On v0 (BitStream_init b') (wb_content (buf_ s)) Hv Hv0 Hr) as (v' & s' & E' & _ & Hsame & _);
    cbn [BitStream_init bit_offset_]; try done; try lia; [|by exists v', s'].
  intros _. split; [lia|]. intros i Hi. apply (wr_tail s Hs). lia.
Qed.

(** C4: Decoding ends with an answer for any received bytes, whatever the data
    type: the object keeps its form (no array grows past its capacity, and its
    storage, where a write outside would leave a trace, keeps its length), reading never goes past the last byte, and
    a success has used at least the shortest encoding of the type. *)
Theorem decoding_is_safe m (v0 : mvalue m) (b' : B') content :
  length tmp = 17%nat -> bytes tmp -> length tmp' = 17%nat -> mtype_ok m ->
  rs_wf (spec_of m) v0 -> Readable b' content -> 8 * Z.of_nat (length content) < 2 ^ 31 ->
  exists r v' s', raw_decode (type_of m) v0 (BitStream_init b') On = Some (r, v', s') /\
    rs_wf (spec_of m) v' /\ buf_ s' = b' /\ 0 <= bit_offset_ s' <= 8 * Z.of_nat (length content) /\
    (0 < r -> MinBitLen (type_of m) <= bit_offset_ s').
Proof.
  intros Ht Htb Ht' Hm Hv0 Hr Hmax.
  destruct (data_type_laws (B := B) (B' := B') big_endian big_endian' tmp tmp' Ht Htb Ht') as [L _]. specialize (L m Hm).
  destruct (rl_any _ _ L On v0 (BitStream_init b') content Hv0 Hr Hmax) as (r & v' & s' & E & Hv' & Hb & Ho & Hmin & _);
    [cbn; lia|].
  exists r, v', s'. done.
Qed.
End messages.

(** ** Examples *)

Definition uint8_t : IntegerSpec := mkSpec 8 SignednessUnsigned CastModeSaturate.
Definition int5_t : IntegerSpec := mkSpec 5 SignednessSigned CastModeSaturate.

(** [int5 a; void3; union { int5 x; uint8[2] y } u; uint8[<=3] tail]. *)
Definition example_type : MType :=
  MStruct (FCons (MInteger int5_t) (FCons (MVoid 3)
    (FCons (MUnion (FCons (MInteger int5_t) (FCons (MArray ArrayModeStatic 2 (MInteger uint8_t)) FNil)))
    (FCons (MArray ArrayModeDynamic 3 (MInteger uint8_t)) FNil)))).

Definition example_value : mvalue example_type :=
  (-3, (tt, ((1, (0, (mkArray [1; 2] 0, tt))), (mkArray [7; 8; 9] 3, tt)))).
Definition example_blank : mvalue example_type :=
  (0, (tt, ((0, (0, (mkArray [0; 0] 0, tt))), (mkArray [5; 5; 5] 0, tt)))).

Abbreviation SB := StaticTransferBufferImpl.
Abbreviation example_raw := (raw (B := SB) (B' := SB) false true (replicate 17 0) (replicate 17 1) example_type).
Abbreviation example_spec := (mspec (B := SB) (B' := SB) false true (replicate 17 0) (replicate 17 1) example_type).

(** What arrives: the bytes of the message and no more. *)
Definition example_bytes : SB := mkStatic [232; 64; 64; 129; 194; 2; 64] 7 7.

Lemma example_type_ok : mtype_ok example_type.
Proof. cbn. repeat split; try done; cbn; try lia. all: vm_compute; try done. Qed.

Lemma example_value_ok : rs_ok example_spec example_value.
Proof. cbn. repeat split; cbn; try lia; repeat constructor. Qed.

Lemma example_blank_wf : rs_wf example_spec example_blank.
Proof. cbn. repeat split; cbn; try lia; repeat constructor. Qed.

Lemma example_encoded :
  raw_encode example_raw example_value (BitStream_init (Static_init (replicate 8 0) 8)) TailArrayOptEnabled =
  Some (ResultOk, mkStream (mkStatic [232; 64; 64; 129; 194; 2; 64; 0] 8 7) 50 64).
Proof. vm_compute. reflexivity. Qed.

Lemma example_readable : Readable example_bytes [232; 64; 64; 129; 194; 2; 64].
Proof. assert (Hwf : wb_wf example_bytes) by (split; cbn; lia). exact (wb_readable example_bytes Hwf). Qed.

Lemma example_empty_wf : wb_wf (Static_init (replicate 8 0) 8).
Proof. split; cbn; lia. Qed.

Lemma data_types_roundtrip_witness :
  exists s, raw_encode example_raw example_value (BitStream_init (Static_init (replicate 8 0) 8)) TailArrayOptEnabled = Some (ResultOk, s) /\
    exists v' s', raw_decode example_raw example_blank (BitStream_init example_bytes) TailArrayOptEnabled = Some (ResultOk, v', s') /\
      rs_same example_spec example_value v'.
Proof.
  destruct (data_types_roundtrip (B := SB) (B' := SB) false true (replicate 17 0) (replicate 17 1) example_type example_value
    (Static_init (replicate 8 0) 8)) as (s & E & _ & Hd).
  - reflexivity.
  - apply Forall_replicate. split; lia.
  - reflexivity.
  - exact example_type_ok.
  - exact example_value_ok.
  - exact example_empty_wf.
  - reflexivity.
  - vm_compute. discriminate.
  - exists s. split; [exact E|]. apply Hd; [exact example_blank_wf|].
    rewrite example_encoded in E. injection E as <-. exact example_readable.
Defined.

(** A message that is cut off is refused, and the object stays well formed. *)
Definition example_cut : SB := mkStatic [232; 64] 2 2.

Lemma decoding_is_safe_witness :
  exists r v' s', raw_decode example_raw example_blank (BitStream_init example_cut) TailArrayOptEnabled = Some (r, v', s') /\
    rs_wf example_spec v' /\ 0 <= bit_offset_ s' <= 16.
Proof.
  assert (Hwf : wb_wf example_cut) by (split; cbn; lia).
  destruct (decoding_is_safe (B := SB) (B' := SB) false true (replicate 17 0) (replicate 17 1) example_type example_blank
    example_cut [232; 64]) as (r & v' & s' & E & Hv' & _ & Ho & _).
  - reflexivity.
  - apply Forall_replicate. split; lia.
  - reflexivity.
  - exact example_type_ok.
  - exact example_blank_wf.
  - exact (wb_readable example_cut Hwf).
  - reflexivity.
  - exists r, v', s'. split; [exact E|]. split; [exact Hv'|exact Ho].
Defined.

(** The object that arrives, and what the cut message gives. *)
Example example_decoded :
  raw_decode example_raw example_blank (BitStream_init example_bytes) TailArrayOptEnabled =
  Some (ResultOk, (-3, (tt, ((1, (0, (mkArray [1; 2] 0, tt))), (mkArray [7; 8; 9] 3, tt)))),
        mkStream example_bytes 50 0).
Proof. vm_compute. reflexivity. Qed.
