(* ===== verification/Timers.v ===== *)
(** * Timers: deadline handlers and timers

    Models [DeadlineHandler] and [DeadlineScheduler] of
    [libuavcan/include/uavcan/node/scheduler.hpp] and [libuavcan/src/node/uc_scheduler.cpp]
    and [TimerBase] of [node/timer.hpp] and [uc_timer.cpp]. Timers are identified
    by their addresses; the list of running ones is kept in the order of their
    deadlines. What the application does in a callback is an argument: it changes
    its own state and starts and stops timers. *)

From stdpp Require Import gmap sorting.
From S2P Require Import Prelude MonoTime CanFrame LinkedList CanIO.
Local Open Scope Z_scope.

(** ** Deadline handlers *)

(** A [TimerBase] with the members of its base class. *)
Record TimerBase := mkTimer { deadline_ : Z; period_ : Z }.
Definition TimerBase_make : TimerBase := mkTimer 0 Duration.getInfinite.

Record TimerEvent := mkTimerEvent { scheduled_time : Z; real_time : Z }.

(** The [DeadlineScheduler] and the timers that refer to it. *)
Record DeadlineScheduler := mkScheduler { handlers_ : list Z; timers : gmap Z TimerBase }.

Definition timer_at (d : DeadlineScheduler) (id : Z) : TimerBase := default TimerBase_make (timers d !! id).
Definition getDeadline (d : DeadlineScheduler) (id : Z) : Z := deadline_ (timer_at d id).
Definition set_deadline (d : DeadlineScheduler) (id deadline : Z) : DeadlineScheduler :=
  mkScheduler (handlers_ d) (<[id := mkTimer deadline (period_ (timer_at d id))]> (timers d)).
Definition set_period (d : DeadlineScheduler) (id period : Z) : DeadlineScheduler :=
  mkScheduler (handlers_ d) (<[id := mkTimer (deadline_ (timer_at d id)) period]> (timers d)).

(** [MonotonicDeadlineHandlerInsertionComparator]. *)
Definition InsertionComparator (d : DeadlineScheduler) (ts t : Z) : bool := ts <? getDeadline d t.

(** [DeadlineScheduler::add], [remove], [doesExist] and [getEarliestDeadline]. *)
Definition DS_add (d : DeadlineScheduler) (mdh : Z) : DeadlineScheduler :=
  mkScheduler (insert_before (InsertionComparator d (getDeadline d mdh)) mdh (remove_first (Z.eqb mdh) (handlers_ d))) (timers d).
Definition DS_remove (d : DeadlineScheduler) (mdh : Z) : DeadlineScheduler :=
  mkScheduler (remove_first (Z.eqb mdh) (handlers_ d)) (timers d).
Definition doesExist (d : DeadlineScheduler) (mdh : Z) : bool := existsb (Z.eqb mdh) (handlers_ d).
Definition getNumHandlers (d : DeadlineScheduler) : nat := length (handlers_ d).
Definition getEarliestDeadline (d : DeadlineScheduler) : Z :=
  match handlers_ d with mdh :: _ => getDeadline d mdh | [] => MTime.getMax end.

(** [DeadlineHandler::stop] and [startWithDeadline]. *)
Definition stop (d : DeadlineScheduler) (id : Z) : DeadlineScheduler := DS_remove d id.
Definition isRunning (d : DeadlineScheduler) (id : Z) : bool := doesExist d id.
Definition startWithDeadline (d : DeadlineScheduler) (id deadline : Z) : DeadlineScheduler :=
  DS_add (set_deadline (stop d id) id deadline) id.
Definition generateDeadlineImmediately (d : DeadlineScheduler) (id : Z) : DeadlineScheduler :=
  startWithDeadline d id (MTime.fromUSec 1).

(** [TimerBase::startOneShotWithDeadline]. *)
Definition startOneShotWithDeadline (d : DeadlineScheduler) (id deadline : Z) : DeadlineScheduler :=
  startWithDeadline (set_period (stop d id) id Duration.getInfinite) id deadline.

(** What the application can do with timers. *)
Inductive TimerOp :=
| OpStop (id : Z)
| OpStartWithDeadline (id deadline : Z)
| OpStartWithDelay (id delay : Z)
| OpStartPeriodic (id period : Z).

(** ** Operations that read the clock, and polling *)

Section polling.
Context {W App : Type} `{CanPlatform W}.
Context (handleTimerEvent : App -> Z -> TimerEvent -> App * list TimerOp).
Abbreviation DS := DeadlineScheduler.

Definition startWithDelay (w : W) (d : DS) (id delay : Z) : W * DS :=
  let '(now, w) := getMonotonic w in (w, startWithDeadline d id (MTime.plus now delay)).

(** [TimerBase::startOneShotWithDelay] and [startPeriodic]. *)
Definition startOneShotWithDelay (w : W) (d : DS) (id delay : Z) : W * DS :=
  startWithDelay w (set_period (stop d id) id Duration.getInfinite) id delay.
Definition startPeriodic (w : W) (d : DS) (id period : Z) : W * DS :=
  startWithDelay w (set_period (stop d id) id period) id period.

Definition timer_op (st : W * DS) (op : TimerOp) : W * DS :=
  let '(w, d) := st in
  match op with
  | OpStop id => (w, stop d id)
  | OpStartWithDeadline id deadline => (w, startOneShotWithDeadline d id deadline)
  | OpStartWithDelay id delay => startOneShotWithDelay w d id delay
  | OpStartPeriodic id period => startPeriodic w d id period
  end.

(** [TimerBase::handleDeadline]. *)
Definition handleDeadline (w : W) (d : DS) (app : App) (id current : Z) : TimerEvent * W * DS * App :=
  let scheduled_time := getDeadline d id in
  let period := period_ (timer_at d id) in
  let d := if period <? Duration.getInfinite then startWithDeadline d id (MTime.plus scheduled_time period) else d in
  let ev := mkTimerEvent scheduled_time current in
  let '(app, ops) := handleTimerEvent app id ev in
  let '(w, d) := foldl timer_op (w, d) ops in
  (ev, w, d, app).

(** [DeadlineScheduler::pollAndGetMonotonicTime]; [None] is out of fuel, one unit
    for each pass. The events are listed with their timers. *)
Fixpoint pollAndGetMonotonicTime (fuel : nat) (w : W) (d : DS) (app : App) : option (list (Z * TimerEvent) * Z * W * DS * App) :=
  match fuel with
  | O => None
  | S fuel =>
      match handlers_ d with
      | [] => let '(ts, w) := getMonotonic w in Some ([], ts, w, d, app)
      | mdh :: _ =>
          let '(ts, w) := getMonotonic w in
          if ts <? getDeadline d mdh then Some ([], ts, w, d, app)
          else
            let '(ev, w, d, app) := handleDeadline w (DS_remove d mdh) app mdh ts in
            '(evs, ts, w, d, app) ← pollAndGetMonotonicTime fuel w d app;
            Some ((mdh, ev) :: evs, ts, w, d, app)
      end
  end.
End polling.

(** ** The order of the list *)

Lemma insert_before_sorted {A} (key : A -> Z) x l :
  StronglySorted (fun a b => key a <= key b) l ->
  StronglySorted (fun a b => key a <= key b) (insert_before (fun y => key x <? key y) x l).
Proof.
  induction 1 as [|y l Hs IH Hy]; cbn; [repeat constructor|].
  destruct (Z.ltb_spec (key x) (key y)).
  - repeat constructor; try done; [lia|]. eapply Forall_impl; [exact Hy|]. cbn. lia.
  - constructor; [done|]. rewrite insert_before_perm. constructor; [lia|done].
Qed.

Lemma StronglySorted_sub {A} (R : A -> A -> Prop) l l' : l `sublist_of` l' -> StronglySorted R l' -> StronglySorted R l.
Proof.
  induction 1 as [|x l l' Hsub IH|x l l' Hsub IH]; intros Hs; [done| |]; apply StronglySorted_inv in Hs as [Hs Hx].
  - constructor; [by apply IH|]. apply Forall_forall. intros y Hy. rewrite Forall_forall in Hx. apply Hx.
    by eapply elem_of_sublist.
  - by apply IH.
Qed.

Lemma StronglySorted_ext {A} (R R' : A -> A -> Prop) l :
  (forall a b, a ∈ l -> b ∈ l -> R a b -> R' a b) -> StronglySorted R l -> StronglySorted R' l.
Proof.
  intros Hext. induction 1 as [|x l Hs IH Hx]; constructor.
  - apply IH. intros a b Ha Hb. apply Hext; by right.
  - rewrite Forall_forall in Hx |- *. intros y Hy. apply Hext; [by left|by right|by apply Hx].
Qed.

Definition by_deadline (d : DeadlineScheduler) (a b : Z) : Prop := getDeadline d a <= getDeadline d b.

(** The running timers are all different and in the order of their deadlines. *)
Record DS_inv (d : DeadlineScheduler) : Prop := {
  di_nodup : NoDup (handlers_ d);
  di_sorted : StronglySorted (by_deadline d) (handlers_ d)
}.

Lemma DS_remove_inv d id : DS_inv d -> DS_inv (DS_remove d id).
Proof.
  intros [Hn Hs]. split; cbn; [by apply NoDup_remove_first|].
  eapply StronglySorted_sub; [apply remove_first_sub|done].
Qed.

Lemma timer_at_set_deadline d id dl t :
  timer_at (set_deadline d id dl) t = if decide (t = id) then mkTimer dl (period_ (timer_at d id)) else timer_at d t.
Proof. unfold timer_at at 1. cbn. case_decide; subst; [by rewrite lookup_insert_eq|by rewrite lookup_insert_ne]. Qed.

Lemma timer_at_set_period d id p t :
  timer_at (set_period d id p) t = if decide (t = id) then mkTimer (deadline_ (timer_at d id)) p else timer_at d t.
Proof. unfold timer_at at 1. cbn. case_decide; subst; [by rewrite lookup_insert_eq|by rewrite lookup_insert_ne]. Qed.

Lemma set_period_inv d id p : DS_inv d -> DS_inv (set_period d id p).
Proof.
  intros [Hn Hs]. split; [done|]. eapply StronglySorted_ext; [|exact Hs]. intros a b _ _.
  unfold by_deadline, getDeadline. rewrite !timer_at_set_period. by repeat case_decide; subst.
Qed.

(** [startWithDeadline]: only this timer changes. *)
Lemma startWithDeadline_ok d id dl :
  DS_inv d ->
  DS_inv (startWithDeadline d id dl) /\
  (forall t, t ∈ handlers_ (startWithDeadline d id dl) <-> t = id \/ t ∈ handlers_ d) /\
  (forall t, timer_at (startWithDeadline d id dl) t = if decide (t = id) then mkTimer dl (period_ (timer_at d id)) else timer_at d t).
Proof.
  intros Hd. pose proof (DS_remove_inv d id Hd) as [Hn Hs]. destruct Hd as [Hn0 Hs0].
  unfold startWithDeadline, stop. set (d1 := set_deadline (DS_remove d id) id dl).
  assert (id ∉ remove_first (Z.eqb id) (handlers_ d)) as Hout by (by apply remove_first_gone).
  assert (handlers_ d1 = remove_first (Z.eqb id) (handlers_ d)) as E1 by done.
  assert (DS_inv d1) as [Hn1 Hs1].
  { split; [done|]. eapply StronglySorted_ext; [|exact Hs]. intros a b Ha Hb. cbn in Ha, Hb.
    unfold by_deadline, getDeadline, d1. rewrite !timer_at_set_deadline.
    rewrite !decide_False by (intros ->; contradiction). done. }
  assert (handlers_ (DS_add d1 id) = insert_before (InsertionComparator d1 (getDeadline d1 id)) id (handlers_ d1)) as E2.
  { cbn [DS_add handlers_]. f_equal. apply remove_first_notin. by rewrite E1. }
  split; [split|split].
  - rewrite E2, insert_before_perm. constructor; [by rewrite E1|done].
  - rewrite E2. apply (insert_before_sorted (getDeadline d1)). done.
  - intros t. rewrite E2, insert_before_perm, elem_of_cons, E1, elem_of_remove_first by done.
    destruct (decide (t = id)); naive_solver.
  - intros t. change (timer_at (DS_add d1 id) t) with (timer_at d1 t). unfold d1. by rewrite timer_at_set_deadline.
Qed.

Section operations.
Context {W : Type} `{CanPlatform W}.

Lemma timer_op_inv (w : W) d op : DS_inv d -> DS_inv (timer_op (w, d) op).2.
Proof.
  intros Hd. destruct op as [id|id dl|id dl|id p]; cbn.
  - by apply DS_remove_inv.
  - apply startWithDeadline_ok, set_period_inv. by apply DS_remove_inv.
  - unfold startOneShotWithDelay, startWithDelay. destruct (getMonotonic w) as [now w']. cbn.
    apply startWithDeadline_ok, set_period_inv. by apply DS_remove_inv.
  - unfold startPeriodic, startWithDelay. destruct (getMonotonic w) as [now w']. cbn.
    apply startWithDeadline_ok, set_period_inv. by apply DS_remove_inv.
Qed.

Lemma timer_ops_inv (w : W) d ops : DS_inv d -> DS_inv (foldl timer_op (w, d) ops).2.
Proof.
  revert w d. induction ops as [|op ops IH]; intros w d Hd; [done|]. cbn [foldl].
  pose proof (timer_op_inv w d op Hd) as Hop. destruct (timer_op (w, d) op) as [w' d']. by apply IH.
Qed.

(** Whatever callbacks do, the order is kept, no timer fires early, and when
    polling returns no timer is due. *)
Lemma poll_ok {App} (callback : App -> Z -> TimerEvent -> App * list TimerOp) fuel (w : W) d app evs ts w' d' app' :
  DS_inv d -> pollAndGetMonotonicTime callback fuel w d app = Some (evs, ts, w', d', app') ->
  DS_inv d' /\ (forall id, id ∈ handlers_ d' -> ts < getDeadline d' id) /\
  Forall (fun e => scheduled_time e.2 <= real_time e.2) evs.
Proof.
  revert w d app evs. induction fuel as [|fuel IH]; intros w d app evs Hd E; [done|]. cbn in E.
  destruct (handlers_ d) as [|mdh l] eqn:El.
  { destruct (getMonotonic w) as [t w1]. injection E as <- <- <- <- <-. rewrite El. split_and!; [done| |done].
    intros id Hid. by apply elem_of_nil in Hid. }
  destruct (getMonotonic w) as [t w1]. destruct (Z.ltb_spec t (getDeadline d mdh)) as [Hlt|Hge].
  { injection E as <- <- <- <- <-. split_and!; [done| |done]. intros id Hid. pose proof (di_sorted d Hd) as Hs. rewrite El in Hs, Hid.
    apply StronglySorted_inv in Hs as [_ Hall]. rewrite Forall_forall in Hall.
    apply elem_of_cons in Hid as [->|Hid]; [done|]. specialize (Hall id Hid). unfold by_deadline in Hall. lia. }
  pose proof (DS_remove_inv d mdh Hd) as Hr. unfold handleDeadline in E.
  change (getDeadline (DS_remove d mdh) mdh) with (getDeadline d mdh) in E.
  destruct (callback app mdh _) as [app1 ops]. set (d1 := if _ <? _ then _ else _) in E.
  assert (DS_inv d1) as Hd1 by (unfold d1; destruct (_ <? _); [by apply startWithDeadline_ok|done]).
  pose proof (timer_ops_inv w1 d1 ops Hd1) as Hops. destruct (foldl timer_op (w1, d1) ops) as [w2 d2].
  destruct (pollAndGetMonotonicTime callback fuel w2 d2 app1) as [[[[[evs2 ts2] w3] d3] app3]|] eqn:Ep; [|done].
  cbn in E. injection E as <- <- <- <- <-. destruct (IH w2 d2 app1 evs2 Hops Ep) as (I1 & I2 & I3).
  split_and!; [done|done|]. constructor; [done|done].
Qed.

(** Polling reads the clock until it has not reached [deadline]. *)
Section ticking.
Context (deadline : Z) `{!ClockAdvances W deadline}.
Abbreviation tk w := (ticks (deadline := deadline) (w : W)).

Lemma startWithDelay_ticks (w : W) d id delay : (tk (startWithDelay w d id delay).1 <= tk w)%nat.
Proof.
  unfold startWithDelay. pose proof (clock_ticks (deadline := deadline) w) as Ht.
  destruct (getMonotonic w) as [t w']. apply Ht.
Qed.

Lemma timer_ops_ticks (w : W) d ops : (tk (foldl timer_op (w, d) ops).1 <= tk w)%nat.
Proof.
  revert w d. induction ops as [|op ops IH]; intros w d; [done|]. cbn [foldl].
  assert ((tk (timer_op (w, d) op).1 <= tk w)%nat) as Ho by (destruct op; [done|done|apply startWithDelay_ticks|apply startWithDelay_ticks]).
  destruct (timer_op (w, d) op) as [w' d']. specialize (IH w' d'). cbn [fst] in Ho. lia.
Qed.

Lemma poll_ticks {App} (callback : App -> Z -> TimerEvent -> App * list TimerOp) fuel (w : W) d app evs ts w' d' app' :
  pollAndGetMonotonicTime callback fuel w d app = Some (evs, ts, w', d', app') ->
  (tk w' <= tk w)%nat /\ (ts < deadline -> (tk w' < tk w)%nat).
Proof.
  revert w d app evs. induction fuel as [|fuel IH]; intros w d app evs E; [done|]. cbn in E.
  pose proof (clock_ticks (deadline := deadline) w) as Ht.
  destruct (getMonotonic w) as [t w1]. destruct (handlers_ d) as [|mdh l]; [injection E as <- <- <- <- <-; exact Ht|].
  destruct (t <? getDeadline d mdh); [injection E as <- <- <- <- <-; exact Ht|].
  unfold handleDeadline in E. destruct (callback app mdh _) as [app1 ops]. set (d1 := if _ <? _ then _ else _) in E.
  pose proof (timer_ops_ticks w1 d1 ops) as Hops. destruct (foldl timer_op (w1, d1) ops) as [w2 d2]. cbn [fst] in Hops.
  destruct (pollAndGetMonotonicTime callback fuel w2 d2 app1) as [[[[[evs2 ts2] w3] d3] app3]|] eqn:Ep; [|done].
  cbn in E. injection E as <- <- <- <- <-. destruct (IH w2 d2 app1 evs2 Ep). split; [lia|]. intros. destruct Ht. lia.
Qed.
End ticking.

(** The times of the events are readings of the clock, and so is the time that polling returns: it is the last thing it reads. *)
Definition is_reading (t : Z) : Prop := exists w : W, (getMonotonic w).1 = t.

Lemma poll_readings {App} (callback : App -> Z -> TimerEvent -> App * list TimerOp) fuel (w : W) d app evs ts w' d' app' :
  pollAndGetMonotonicTime callback fuel w d app = Some (evs, ts, w', d', app') ->
  Forall (fun e => is_reading (real_time e.2)) evs /\ exists w0, getMonotonic w0 = (ts, w').
Proof.
  revert w d app evs. induction fuel as [|fuel IH]; intros w d app evs E; [done|]. cbn in E.
  destruct (getMonotonic w) as [t w1] eqn:Ew. assert (Hend : Forall (fun e : Z * TimerEvent => is_reading (real_time e.2)) [] /\ exists w0, getMonotonic w0 = (t, w1))
    by (split; [done|by exists w]).
  destruct (handlers_ d) as [|mdh l]; [by injection E as <- <- <- <- <-|].
  destruct (t <? getDeadline d mdh); [by injection E as <- <- <- <- <-|].
  unfold handleDeadline in E. destruct (callback app mdh _) as [app1 ops]. set (d1 := if _ <? _ then _ else _) in E.
  destruct (foldl timer_op (w1, d1) ops) as [w2 d2].
  destruct (pollAndGetMonotonicTime callback fuel w2 d2 app1) as [[[[[evs2 ts2] w3] d3] app3]|] eqn:Ep; [|done].
  cbn in E. injection E as <- <- <- <- <-. destruct (IH w2 d2 app1 evs2 Ep) as [H1 H2]. split; [|done].
  apply Forall_cons_2; [|done]. exists w. by rewrite Ew.
Qed.
End operations.

(** ** Schedules *)

(** The events of one timer, and the times [deadline], [deadline + period], ... *)
Definition events_of (id : Z) (evs : list (Z * TimerEvent)) : list Z :=
  (fun e => scheduled_time e.2) <$> filter (fun e => e.1 = id) evs.
Definition schedule (deadline period : Z) (n : nat) : list Z := (fun k => deadline + Z.of_nat k * period) <$> seq 0 n.

Lemma schedule_S deadline period n : schedule deadline period (S n) = deadline :: schedule (deadline + period) period n.
Proof.
  unfold schedule. cbn [seq fmap list_fmap]. f_equal; [lia|]. rewrite <-seq_shift, <-list_fmap_compose.
  apply list_fmap_ext. intros i k _. cbn. lia.
Qed.

Lemma events_of_cons id t e evs :
  events_of id ((t, e) :: evs) = if decide (t = id) then scheduled_time e :: events_of id evs else events_of id evs.
Proof. unfold events_of. rewrite filter_cons. cbn. by case_decide. Qed.

(** A timer whose deadlines stay in the range of the clock up to [horizon]. *)
Record timer_fits (horizon : Z) (t : TimerBase) : Prop := {
  tf_deadline : 0 <= deadline_ t < 2 ^ 64;
  tf_period : 1 <= period_ t <= Duration.getInfinite;
  tf_range : period_ t < Duration.getInfinite -> horizon + period_ t < 2 ^ 64
}.

(** How many passes are left at most when the clock stays below [horizon]. *)
Definition passes_left (horizon : Z) (d : DeadlineScheduler) : nat :=
  sum_list_with (fun id => Z.to_nat (horizon + 1 - getDeadline d id)) (handlers_ d).

Lemma sum_insert_before {A} (f : A -> nat) (p : A -> bool) x l :
  sum_list_with f (insert_before p x l) = (f x + sum_list_with f l)%nat.
Proof. by rewrite insert_before_perm. Qed.

Lemma sum_list_with_ext {A} (f g : A -> nat) l : (forall x, x ∈ l -> f x = g x) -> sum_list_with f l = sum_list_with g l.
Proof.
  induction l as [|x l IH]; intros Hfg; [done|]. cbn. rewrite Hfg by left. f_equal. apply IH. intros y Hy. apply Hfg. by right.
Qed.

Lemma remove_head h l : remove_first (Z.eqb h) (h :: l) = l.
Proof. cbn. by rewrite Z.eqb_refl. Qed.

(** A pass of the loop: the first timer is taken from the list and, when it is
    periodic, comes back one period later. *)
Lemma pass_ok horizon d h l :
  DS_inv d -> handlers_ d = h :: l -> timer_fits horizon (timer_at d h) -> getDeadline d h <= horizon ->
  let p := period_ (timer_at d h) in
  let d1 := if p <? Duration.getInfinite then startWithDeadline (DS_remove d h) h (MTime.plus (getDeadline d h) p) else DS_remove d h in
  DS_inv d1 /\ (passes_left horizon d1 < passes_left horizon d)%nat /\
  (forall t, t ∈ handlers_ d1 <-> (t = h /\ p < Duration.getInfinite) \/ t ∈ l) /\
  (forall t, timer_at d1 t = if decide (t = h) then mkTimer (if p <? Duration.getInfinite then getDeadline d h + p else getDeadline d h) p else timer_at d t).
Proof.
  intros Hd El Hfit Hdl p d1. pose proof (DS_remove_inv d h Hd) as Hr.
  destruct Hd as [Hn _]. rewrite El in Hn. apply NoDup_cons in Hn as [Hout _].
  assert (handlers_ (DS_remove d h) = l) as E0 by (cbn; rewrite El; apply remove_head).
  destruct Hfit as [Hf1 Hf2 Hf3]. fold p in Hf2, Hf3. unfold getDeadline in Hdl. unfold d1.
  assert (passes_left horizon d = (Z.to_nat (horizon + 1 - getDeadline d h) +
    sum_list_with (fun id => Z.to_nat (horizon + 1 - getDeadline d id)) l)%nat) as Ew by (unfold passes_left; by rewrite El).
  destruct (Z.ltb_spec p Duration.getInfinite) as [Hp|Hp].
  - assert (MTime.plus (getDeadline d h) p = getDeadline d h + p) as ->.
    { apply time_plus_exact; unfold getDeadline, Duration.wf, Duration.getInfinite in *; [done|lia|]. specialize (Hf3 Hp). lia. }
    destruct (startWithDeadline_ok (DS_remove d h) h (getDeadline d h + p) Hr) as (I1 & I2 & I3).
    split_and!; [done| | |].
    + rewrite Ew. unfold passes_left at 1. cbn [startWithDeadline DS_add handlers_ stop set_deadline DS_remove].
      rewrite sum_insert_before, El, remove_head, !(remove_first_notin l) by done.
      assert (getDeadline (startWithDeadline (DS_remove d h) h (getDeadline d h + p)) h = getDeadline d h + p) as E1
        by (unfold getDeadline at 1; rewrite I3, decide_True by done; done).
      rewrite (sum_list_with_ext _ (fun id => Z.to_nat (horizon + 1 - getDeadline d id)) l).
      2: { intros x Hx. f_equal. f_equal. unfold getDeadline at 1. rewrite I3, decide_False by (intros ->; contradiction). done. }
      unfold getDeadline in *. lia.
    + intros t. rewrite I2, E0. split; [intros [->|]; auto|intros [[-> _]|]; auto].
    + intros t. rewrite I3. done.
  - split_and!; [done| | |].
    + rewrite Ew. unfold passes_left at 1. rewrite E0.
      change (getDeadline (DS_remove d h)) with (getDeadline d). unfold getDeadline in *. lia.
    + intros t. rewrite E0. split; [auto|intros [[_ ?]|]; [lia|done]].
    + intros t. case_decide; [subst t|done]. change (timer_at (DS_remove d h) h) with (timer_at d h).
      unfold getDeadline, p. by destruct (timer_at d h).
Qed.

Section schedules.
Context {W App : Type} `{CanPlatform W} (callback : App -> Z -> TimerEvent -> App * list TimerOp) (horizon : Z).
Context (Hquiet : forall app id ev, (callback app id ev).2 = []).
Context (Hclock : forall w : W, (getMonotonic w).1 <= horizon).

(** What polling does to timer [id]: it was invoked [n] times on schedule. *)
Definition on_schedule (d d' : DeadlineScheduler) (evs : list (Z * TimerEvent)) (id : Z) (n : nat) : Prop :=
  let t := timer_at d id in
  events_of id evs = schedule (deadline_ t) (period_ t) n /\
  (period_ t < Duration.getInfinite ->
     id ∈ handlers_ d' /\ timer_at d' id = mkTimer (deadline_ t + Z.of_nat n * period_ t) (period_ t)) /\
  (Duration.getInfinite <= period_ t ->
     (n = 0%nat /\ id ∈ handlers_ d' /\ timer_at d' id = t) \/ (n = 1%nat /\ id ∉ handlers_ d')).

Lemma on_schedule_0 d id : id ∈ handlers_ d -> on_schedule d d [] id 0.
Proof.
  intros Hid. split; [done|]. split; [|auto]. intros _. split; [done|].
  rewrite Z.mul_0_l, Z.add_0_r. by destruct (timer_at d id).
Qed.

Lemma poll_schedule fuel (w : W) d app :
  DS_inv d -> (forall id, id ∈ handlers_ d -> timer_fits horizon (timer_at d id)) -> (passes_left horizon d < fuel)%nat ->
  exists evs ts w' d' app', pollAndGetMonotonicTime callback fuel w d app = Some (evs, ts, w', d', app') /\
    (forall id, id ∈ handlers_ d -> exists n, on_schedule d d' evs id n) /\
    (forall id, id ∉ handlers_ d -> events_of id evs = [] /\ id ∉ handlers_ d') /\
    (forall b, (forall id, id ∈ handlers_ d -> b <= getDeadline d id) -> Forall (fun e => b <= scheduled_time e.2) evs) /\
    StronglySorted (fun e e' => scheduled_time e.2 <= scheduled_time e'.2) evs /\
    (forall id, id ∈ handlers_ d' -> timer_fits horizon (timer_at d' id)) /\
    (passes_left horizon d' <= passes_left horizon d)%nat.
Proof.
  revert w d app. induction fuel as [|fuel IH]; intros w d app Hd Hfit Hfuel; [lia|]. cbn [pollAndGetMonotonicTime].
  destruct (handlers_ d) as [|h l] eqn:El.
  { destruct (getMonotonic w) as [t w1]. eexists [], t, w1, d, app. split; [done|]. rewrite El.
    split_and!; [intros id Hid; by apply elem_of_nil in Hid|done|by constructor|constructor|done|done]. }
  pose proof (Hclock w) as Hts. destruct (getMonotonic w) as [t w1]. cbn [fst] in Hts.
  destruct (Z.ltb_spec t (getDeadline d h)) as [Hlt|Hge].
  { exists [], t, w1, d, app. split; [done|]. rewrite El. split_and!; [|done|by constructor|constructor|done|done].
    intros id Hid. exists 0%nat. apply on_schedule_0. by rewrite El. }
  assert (timer_fits horizon (timer_at d h)) as Hh by (apply Hfit; left).
  destruct (pass_ok horizon d h l Hd El Hh ltac:(lia)) as (I1 & I2 & I3 & I4). unfold handleDeadline.
  change (getDeadline (DS_remove d h) h) with (getDeadline d h). change (timer_at (DS_remove d h) h) with (timer_at d h).
  set (p := period_ (timer_at d h)) in *. set (d1 := if p <? Duration.getInfinite then _ else _) in *.
  pose proof (Hquiet app h (mkTimerEvent (getDeadline d h) t)) as Hq.
  destruct (callback app h (mkTimerEvent (getDeadline d h) t)) as [app1 ops]. cbn in Hq. subst ops. cbn [foldl].
  pose proof (di_nodup d Hd) as Hn. rewrite El in Hn. apply NoDup_cons in Hn as [Hout _].
  pose proof (di_sorted d Hd) as Hs. rewrite El in Hs. apply StronglySorted_inv in Hs as [_ Hs]. rewrite Forall_forall in Hs.
  assert (forall id, id ∈ handlers_ d1 -> timer_fits horizon (timer_at d1 id)) as Hfit1.
  { intros id Hid. rewrite I4. apply I3 in Hid. case_decide as Eid.
    - subst id. destruct Hid as [[_ Hp]|]; [|contradiction]. rewrite (proj2 (Z.ltb_lt _ _) Hp).
      destruct Hh as [F1 F2 F3]. fold p in F2, F3. split; cbn; [|done|done]. unfold getDeadline in *. specialize (F3 Hp). lia.
    - destruct Hid as [[-> _]|Hid]; [done|]. apply Hfit. by right. }
  destruct (IH w1 d1 app1 I1 Hfit1 ltac:(lia)) as (evs & ts & w2 & d2 & app2 & E & J1 & J2 & J3 & J4 & J5 & J6).
  rewrite E. cbn [mbind option_bind]. eexists _, ts, w2, d2, app2. split; [reflexivity|].
  assert (p < Duration.getInfinite \/ Duration.getInfinite <= p) as Hper by lia.
  assert (0 <= p) as Hp0 by (destruct Hh as [_ F2 _]; fold p in F2; lia).
  split_and!.
  - intros id Hid. destruct (decide (id = h)) as [->|Hne].
    + destruct Hper as [Hp|Hp].
      * destruct (J1 h) as (n & K1 & K2 & _); [apply I3; auto|]. exists (S n). unfold on_schedule. cbv zeta.
        rewrite events_of_cons, decide_True by done. rewrite I4, decide_True in K1, K2 by done.
        rewrite (proj2 (Z.ltb_lt _ _) Hp) in K1, K2. cbn [deadline_ period_] in K1, K2. fold p.
        split; [rewrite schedule_S, K1; done|]. split; [|lia]. intros _. destruct (K2 Hp) as [K3 K4]. split; [done|].
        rewrite K4. f_equal. unfold getDeadline. lia.
      * exists 1%nat. unfold on_schedule. cbv zeta. rewrite events_of_cons, decide_True by done. fold p.
        destruct (J2 h) as [K1 K2]; [rewrite I3; intros [[_ ?]|]; [lia|contradiction]|].
        rewrite K1. split; [rewrite schedule_S; done|]. split; [lia|]. auto.
    + apply elem_of_cons in Hid as [->|Hid]; [done|]. destruct (J1 id) as (n & K); [apply I3; auto|]. exists n.
      unfold on_schedule in *. rewrite events_of_cons, decide_False by done. rewrite I4, decide_False in K by done. exact K.
  - intros id Hid. apply not_elem_of_cons in Hid as [Hne Hnl].
    rewrite events_of_cons, decide_False by done. apply J2. rewrite I3. naive_solver.
  - intros b Hb. constructor; [apply Hb; left|]. apply J3. intros id Hid. unfold getDeadline. rewrite I4. apply I3 in Hid.
    case_decide as Eid; [cbn|apply Hb; destruct Hid as [[-> _]|]; [done|by right]].
    specialize (Hb h ltac:(left)). destruct (p <? Duration.getInfinite); lia.
  - constructor; [done|]. apply J3. intros id Hid. cbn. unfold getDeadline at 2. rewrite I4. apply I3 in Hid.
    case_decide as Eid; [cbn; destruct (p <? Duration.getInfinite); lia|].
    destruct Hid as [[-> _]|Hid]; [done|]. apply (Hs id Hid).
  - done.
  - lia.
Qed.

(** C12: Polling runs every timer that is due and returns. With a clock that does
    not pass [horizon], timers whose period is positive and whose next deadlines from
    [horizon] on are still representable ([timer_fits]), and callbacks that leave the
    timers alone, a number of passes computed from the deadlines is enough; when it
    returns no running timer is due at the time it read last and returns;
    no event comes before its time by the clock and the events come in the order of their times.
    A periodic timer is invoked at its deadline, one period later, two periods
    later, ... however late the calls are (no error accumulates), and a one-shot
    timer is invoked once or stays as it is; no other timer is touched. *)
Theorem timers_keep_their_schedule fuel (w : W) d app :
  DS_inv d -> (forall id, id ∈ handlers_ d -> timer_fits horizon (timer_at d id)) -> (passes_left horizon d < fuel)%nat ->
  exists evs ts w' d' app', pollAndGetMonotonicTime callback fuel w d app = Some (evs, ts, w', d', app') /\
    DS_inv d' /\ (exists w0, getMonotonic w0 = (ts, w')) /\ (forall id, id ∈ handlers_ d' -> ts < getDeadline d' id) /\
    Forall (fun e => scheduled_time e.2 <= real_time e.2 /\ is_reading (W := W) (real_time e.2)) evs /\
    StronglySorted (fun e e' => scheduled_time e.2 <= scheduled_time e'.2) evs /\
    (forall id, id ∈ handlers_ d -> exists n, on_schedule d d' evs id n) /\
    (forall id, id ∉ handlers_ d -> events_of id evs = [] /\ id ∉ handlers_ d').
Proof.
  intros Hd Hfit Hfuel. destruct (poll_schedule fuel w d app Hd Hfit Hfuel) as (evs & ts & w' & d' & app' & E & J1 & J2 & _ & J4 & _).
  destruct (poll_ok callback fuel w d app evs ts w' d' app' Hd E) as (I1 & I2 & I3).
  destruct (poll_readings callback fuel w d app evs ts w' d' app' E) as [K1 K2]. exists evs, ts, w', d', app'. split_and!; try done.
  by apply Forall_and.
Qed.
End schedules.

(** ** Examples *)

(** A platform with a clock that goes up to 100 and no interfaces. *)
Module StoppingClock.

Definition World : Type := Z.

#[export] Instance stopping_clock : CanPlatform World := {
  getMonotonic w := (Z.max 0 (Z.min w 100), w + 1);
  hasIface _ _ := false;
  drv_select w m _ _ := (0, m, w);
  iface_send w _ _ _ _ := (0, w);
  iface_receive w _ o := (0, o, w);
  iface_getErrorCount _ _ := 0
}.

Lemma stops w : 0 <= (getMonotonic w).1 <= 100.
Proof. cbn. lia. Qed.

(** Timer 1 every 20 from 7 on, timer 2 once at 30. *)
Definition example_timers : DeadlineScheduler := mkScheduler [1; 2] {[1 := mkTimer 7 20; 2 := mkTimer 30 Duration.getInfinite]}.
Definition quiet (app : unit) (id : Z) (ev : TimerEvent) : unit * list TimerOp := (app, []).

Lemma example_timers_inv : DS_inv example_timers.
Proof. split; [by apply (bool_decide_unpack _)|]. repeat constructor. by vm_compute. Qed.

Lemma example_timers_fit id : id ∈ handlers_ example_timers -> timer_fits 100 (timer_at example_timers id).
Proof.
  intros Hid. assert (id = 1 \/ id = 2) as [->| ->].
  { cbn in Hid. rewrite !elem_of_cons, elem_of_nil in Hid. tauto. }
  - change (timer_at example_timers 1) with (mkTimer 7 20). split; cbn; unfold Duration.getInfinite; lia.
  - change (timer_at example_timers 2) with (mkTimer 30 Duration.getInfinite). split; cbn; unfold Duration.getInfinite; lia.
Qed.

(** The clock is late: it says 50 at the first call. *)
Lemma timers_keep_their_schedule_witness :
  exists evs ts w' d' app', pollAndGetMonotonicTime quiet 200 50 example_timers tt = Some (evs, ts, w', d', app') /\
    exists n, on_schedule example_timers d' evs 1 n.
Proof.
  destruct (timers_keep_their_schedule quiet 100 (fun _ _ _ => eq_refl) (fun w => proj2 (stops w)) 200 50 example_timers tt
    example_timers_inv example_timers_fit) as (evs & ts & w' & d' & app' & E & _ & _ & _ & _ & _ & J & _).
  - vm_compute. repeat constructor.
  - exists evs, ts, w', d', app'. split; [exact E|]. apply J. left.
Defined.

Example example_events :
  exists w' d', pollAndGetMonotonicTime quiet 200 50 example_timers tt =
    Some ([(1, mkTimerEvent 7 50); (1, mkTimerEvent 27 51); (2, mkTimerEvent 30 52); (1, mkTimerEvent 47 53)], 54, w', d', tt).
Proof. eexists _, _. vm_compute. reflexivity. Qed.

(** With a period of zero polling never returns: the deadline stays where it is. *)
Definition zero_period : DeadlineScheduler := mkScheduler [1] {[1 := mkTimer 5 0]}.

Lemma zero_period_never_returns fuel w : 5 <= w -> pollAndGetMonotonicTime quiet fuel w zero_period tt = None.
Proof.
  revert w. induction fuel as [|fuel IH]; intros w Hw; [done|]. cbn [pollAndGetMonotonicTime handlers_ zero_period].
  cbn [getMonotonic stopping_clock]. change (getDeadline zero_period 1) with 5.
  rewrite (proj2 (Z.ltb_ge _ _)) by lia. change (handleDeadline quiet (w + 1) (DS_remove zero_period 1) tt 1 (Z.max 0 (Z.min w 100)))
    with (mkTimerEvent 5 (Z.max 0 (Z.min w 100)), w + 1, zero_period, tt). cbv iota beta. rewrite IH by lia. done.
Qed.
End StoppingClock.
