(* ===== verification/Scheduler.v ===== *)
(** * Scheduler: the main loop of a node

    Models [Scheduler] of [libuavcan/include/uavcan/node/scheduler.hpp] and
    [libuavcan/src/node/uc_scheduler.cpp], which divides the time between the
    dispatcher, the timers and the periodic cleanup. The callbacks of timers are an
    argument, as in [Timers]; what the dispatcher delivers is returned as events. *)

From stdpp Require Import gmap sorting.
From S2P Require Import Prelude MonoTime Transfer CanFrame Frame LinkedList PoolAllocator PoolClient TransferListener OutgoingTransferRegistry CanTxQueue CanIO Dispatcher Timers.
Local Open Scope Z_scope.

Record Scheduler (W A : Type) := mkNodeScheduler {
  deadline_scheduler_ : DeadlineScheduler;
  dispatcher_ : Dispatcher W A;
  prev_cleanup_ts_ : Z;
  deadline_resolution_ : Z;
  cleanup_period_ : Z;
  inside_spin_ : bool
}.
Arguments mkNodeScheduler {W A}.
Arguments deadline_scheduler_ {W A}.
Arguments dispatcher_ {W A}.
Arguments prev_cleanup_ts_ {W A}.
Arguments deadline_resolution_ {W A}.
Arguments cleanup_period_ {W A}.
Arguments inside_spin_ {W A}.

Definition DefaultDeadlineResolutionMs : Z := 5.
Definition MinDeadlineResolutionMs : Z := 1.
Definition MaxDeadlineResolutionMs : Z := 100.
Definition DefaultCleanupPeriodMs : Z := 1000.
Definition MinCleanupPeriodMs : Z := 10.
Definition MaxCleanupPeriodMs : Z := 10000.

Section scheduler.
Context {W A App : Type} `{CanPlatform W} `{IPoolAllocator A}.
Context (sizeof_Block sizeof_BufEntry sizeof_RxGroup : Z) (NumRxKV : nat).
Context (handleTimerEvent : App -> Z -> TimerEvent -> App * list TimerOp).
Abbreviation NS := (Scheduler W A).

Definition with_dispatcher (s : NS) (d : Dispatcher W A) : NS :=
  mkNodeScheduler (deadline_scheduler_ s) d (prev_cleanup_ts_ s) (deadline_resolution_ s) (cleanup_period_ s) (inside_spin_ s).
Definition with_timers (s : NS) (ds : DeadlineScheduler) : NS :=
  mkNodeScheduler ds (dispatcher_ s) (prev_cleanup_ts_ s) (deadline_resolution_ s) (cleanup_period_ s) (inside_spin_ s).
Definition with_world (s : NS) (w : W) : NS :=
  with_dispatcher s (set_io (dispatcher_ s) (set_world (canio_ (dispatcher_ s)) w)).
Definition node_world (s : NS) : W := io_world (canio_ (dispatcher_ s)).

(** [InsideSpinSetter]. *)
Definition set_inside_spin (s : NS) (b : bool) : NS :=
  mkNodeScheduler (deadline_scheduler_ s) (dispatcher_ s) (prev_cleanup_ts_ s) (deadline_resolution_ s) (cleanup_period_ s) b.

(** [Scheduler::getMonotonicTime]. *)
Definition getMonotonicTime (s : NS) : Z * NS :=
  let '(ts, w) := getMonotonic (node_world s) in (ts, with_world s w).

Definition Scheduler_init (d : Dispatcher W A) : NS :=
  let '(ts, w) := getMonotonic (io_world (canio_ d)) in
  mkNodeScheduler (mkScheduler [] ∅) (set_io d (set_world (canio_ d) w)) ts
    (Duration.fromMSec DefaultDeadlineResolutionMs) (Duration.fromMSec DefaultCleanupPeriodMs) false.

Definition setDeadlineResolution (s : NS) (res : Z) : NS :=
  let res := Z.min res (Duration.fromMSec MaxDeadlineResolutionMs) in
  let res := Z.max res (Duration.fromMSec MinDeadlineResolutionMs) in
  mkNodeScheduler (deadline_scheduler_ s) (dispatcher_ s) (prev_cleanup_ts_ s) res (cleanup_period_ s) (inside_spin_ s).

Definition setCleanupPeriod (s : NS) (period : Z) : NS :=
  let period := Z.min period (Duration.fromMSec MaxCleanupPeriodMs) in
  let period := Z.max period (Duration.fromMSec MinCleanupPeriodMs) in
  mkNodeScheduler (deadline_scheduler_ s) (dispatcher_ s) (prev_cleanup_ts_ s) (deadline_resolution_ s) period (inside_spin_ s).

Definition computeDispatcherSpinDeadline (s : NS) (spin_deadline : Z) : Z * NS :=
  let earliest := Z.min (getEarliestDeadline (deadline_scheduler_ s)) spin_deadline in
  let '(ts, s) := getMonotonicTime s in
  (if (ts <? earliest) && (deadline_resolution_ s <? MTime.minus earliest ts)
   then MTime.plus ts (deadline_resolution_ s) else earliest, s).

Definition pollCleanup (s : NS) (mono_ts num_frames_processed_with_last_spin : Z) : NS :=
  let deadline := MTime.plus (prev_cleanup_ts_ s)
                    (Duration.scale (cleanup_period_ s) (u32 (num_frames_processed_with_last_spin + 1))) in
  if deadline <? mono_ts then
    mkNodeScheduler (deadline_scheduler_ s) (Dispatcher_cleanup (dispatcher_ s) mono_ts) mono_ts
      (deadline_resolution_ s) (cleanup_period_ s) (inside_spin_ s)
  else s.

(** [deadline_scheduler_.pollAndGetMonotonicTime(getSystemClock())], then [pollCleanup]. *)
Definition poll_timers (fuel : nat) (s : NS) (app : App) (retval : Z) : option (list (Z * TimerEvent) * Z * NS * App) :=
  '(tevs, ts, w, ds, app) ← pollAndGetMonotonicTime handleTimerEvent fuel (node_world s) (deadline_scheduler_ s) app;
  Some (tevs, ts, pollCleanup (with_timers (with_world s w) ds) ts (u32 retval), app).

(** The loop of [spin]; one unit of fuel for each pass, and all of the fuel for
    the loops inside of it. *)
Fixpoint spin_loop (fuel : nat) (mem : list Z) (junk : Z -> list Z) (s : NS) (app : App) (deadline : Z)
    : option (list DispatcherEvent * list (Z * TimerEvent) * Z * NS * App) :=
  match fuel with
  | O => None
  | S fuel' =>
      let '(dl, s) := computeDispatcherSpinDeadline s deadline in
      '(evs, retval, d) ← spin sizeof_Block sizeof_BufEntry sizeof_RxGroup NumRxKV fuel mem junk (dispatcher_ s) dl 0;
      let s := with_dispatcher s d in
      if retval <? 0 then Some (evs, [], retval, s, app)
      else
        '(tevs, ts, s, app) ← poll_timers fuel s app retval;
        if deadline <=? ts then Some (evs, tevs, retval, s, app)
        else
          '(evs', tevs', r, s, app) ← spin_loop fuel' mem junk s app deadline;
          Some (evs ++ evs', tevs ++ tevs', r, s, app)
  end.

(** [Scheduler::spin]. *)
Definition Scheduler_spin (fuel : nat) (mem : list Z) (junk : Z -> list Z) (s : NS) (app : App) (deadline : Z)
    : option (list DispatcherEvent * list (Z * TimerEvent) * Z * NS * App) :=
  if inside_spin_ s then Some ([], [], - ErrRecursiveCall, s, app)
  else
    '(evs, tevs, r, s, app) ← spin_loop fuel mem junk (set_inside_spin s true) app deadline;
    Some (evs, tevs, r, set_inside_spin s false, app).

(** [Scheduler::spinOnce]. *)
Definition Scheduler_spinOnce (fuel : nat) (mem : list Z) (junk : Z -> list Z) (s : NS) (app : App)
    : option (list DispatcherEvent * list (Z * TimerEvent) * Z * NS * App) :=
  if inside_spin_ s then Some ([], [], - ErrRecursiveCall, s, app)
  else
    let s := set_inside_spin s true in
    '(evs, retval, d) ← spinOnce sizeof_Block sizeof_BufEntry sizeof_RxGroup NumRxKV fuel mem junk (dispatcher_ s) 0;
    let s := with_dispatcher s d in
    if retval <? 0 then Some (evs, [], retval, set_inside_spin s false, app)
    else
      '(tevs, ts, s, app) ← poll_timers fuel s app retval;
      Some (evs, tevs, retval, set_inside_spin s false, app).
End scheduler.

(** ** Spinning ends *)

(** A clock that reaches a deadline reaches every earlier one. *)
Definition clock_before {W} `{CanPlatform W} (deadline : Z) `{!ClockAdvances W deadline} (dl : Z) (Hle : dl <= deadline) :
    ClockAdvances W dl.
Proof.
  refine {| ticks := ticks (deadline := deadline) |}.
  - intros w. pose proof (clock_ticks (deadline := deadline) w) as Ht. destruct (getMonotonic w) as [t w'].
    destruct Ht as [H1 H2]. split; [done|]. intros Hlt. apply H2. lia.
  - apply select_ticks.
  - apply send_ticks.
  - apply receive_ticks.
Defined.

Section spinning.
Context {W A App : Type} `{CanPlatform W} `{PoolLaws A}.
Context (sizeof_Block sizeof_BufEntry sizeof_RxGroup : Z) (NumRxKV NumOtrKV B : nat).
Context (HB : 8 < Z.of_nat B <= 255) (HNumRx : (0 < NumRxKV)%nat) (HNumOtr : (0 < NumOtrKV)%nat).
Context (callback : App -> Z -> TimerEvent -> App * list TimerOp) (horizon : Z).
Context (Hquiet : forall app id ev, (callback app id ev).2 = []).
Context (Hclock : forall w : W, 0 <= (getMonotonic w).1 <= horizon).
Abbreviation NS := (Scheduler W A).
Abbreviation inv := (D_inv NumRxKV NumOtrKV B).
Abbreviation step := (D_step NumRxKV NumOtrKV B).

Record Sched_inv (s : NS) : Prop := {
  sc_dispatcher : inv (dispatcher_ s);
  sc_timers : DS_inv (deadline_scheduler_ s);
  sc_fit : forall id, id ∈ handlers_ (deadline_scheduler_ s) -> timer_fits horizon (timer_at (deadline_scheduler_ s) id);
  sc_resolution : 0 <= deadline_resolution_ s < 2 ^ 63
}.

Lemma world_step (d : Dispatcher W A) w : inv d -> step d (set_io d (set_world (canio_ d) w)).
Proof.
  intros Hd. pose proof (set_world_evolves (canio_ d) w (D_inv_io _ _ _ d Hd)) as He.
  apply D_step_io; [done|done|apply He|apply He].
Qed.

Lemma earliest_range s : Sched_inv s -> 0 <= getEarliestDeadline (deadline_scheduler_ s) < 2 ^ 64.
Proof.
  intros [_ _ Hf _]. unfold getEarliestDeadline. destruct (handlers_ _) as [|h l] eqn:E; [unfold MTime.getMax; lia|].
  apply (tf_deadline horizon), Hf. left.
Qed.

(** The dispatcher never gets a deadline after that of the scheduler. *)
Lemma spin_deadline_ok s deadline :
  Sched_inv s -> MTime.wf deadline ->
  let '(dl, s') := computeDispatcherSpinDeadline s deadline in
  dl <= deadline /\ Sched_inv s' /\ step (dispatcher_ s) (dispatcher_ s') /\
  deadline_scheduler_ s' = deadline_scheduler_ s /\ node_world s' = (getMonotonic (node_world s)).2.
Proof.
  intros Hs Hdl. pose proof (earliest_range s Hs) as Her. unfold computeDispatcherSpinDeadline, getMonotonicTime.
  pose proof (Hclock (node_world s)) as Hts. destruct (getMonotonic (node_world s)) as [ts w] eqn:Ew. cbn [fst] in Hts.
  pose proof Hs as [I1 I2 I3 I4]. pose proof (world_step (dispatcher_ s) w I1) as Hstep.
  split; [|split; [split; try done; apply Hstep|split; [done|split; [done|]]]; by cbn].
  set (e := Z.min _ deadline). assert (e <= deadline /\ 0 <= e < 2 ^ 64) as [He1 He2] by (unfold in_width in Hdl; lia).
  cbn [deadline_resolution_ with_world with_dispatcher]. destruct ((ts <? e) && _) eqn:Ec; [|done].
  apply andb_true_iff in Ec as [Ec1%Z.ltb_lt Ec2%Z.ltb_lt].
  assert (MTime.minus e ts = e - ts) as Em.
  { unfold MTime.minus, Duration.fromUSec in *. rewrite (proj2 (Z.ltb_lt _ _) Ec1) in *.
    unfold i64, u64, swrap, wrap in *. rewrite (Z.mod_small (e - ts)) in * by lia.
    destruct (Z.le_gt_cases (2 ^ 63) (e - ts)); [|rewrite Z.mod_small by lia; lia].
    assert ((e - ts + 2 ^ (64 - 1)) mod 2 ^ 64 = e - ts - 2 ^ 63) as E2.
    { symmetry. apply (Z.mod_unique_pos _ _ 1); lia. }
    rewrite E2 in Ec2. lia. }
  rewrite time_plus_exact; [lia|split; lia|unfold Duration.wf; lia|lia].
Qed.

Lemma cleanup_world (d : Dispatcher W A) ts : io_world (canio_ (Dispatcher_cleanup d ts)) = io_world (canio_ d).
Proof.
  unfold Dispatcher_cleanup. destruct (Otr_cleanup _ _ _) as [a otr]. destruct (Registry_cleanup a _ _) as [a1 m].
  destruct (Registry_cleanup a1 _ _) as [a2 q]. by destruct (Registry_cleanup a2 _ _) as [a3 r].
Qed.

Lemma pollCleanup_ok s ts num :
  Sched_inv s -> Sched_inv (pollCleanup s ts num) /\ step (dispatcher_ s) (dispatcher_ (pollCleanup s ts num)) /\
  deadline_scheduler_ (pollCleanup s ts num) = deadline_scheduler_ s /\ node_world (pollCleanup s ts num) = node_world s /\
  inside_spin_ (pollCleanup s ts num) = inside_spin_ s.
Proof.
  intros Hs. pose proof Hs as [I1 I2 I3 I4]. unfold pollCleanup. destruct (_ <? ts).
  - pose proof (Dispatcher_cleanup_step NumRxKV NumOtrKV B HB HNumRx HNumOtr (dispatcher_ s) ts I1) as Hstep. cbn.
    split; [split; try done; apply Hstep|]. split; [done|]. split; [done|]. split; [apply cleanup_world|done].
  - split; [done|]. split; [by apply client_step_refl|]. done.
Qed.

Section deadline.
Context (deadline : Z) `{!ClockAdvances W deadline} `{!DriverFrames W} (Hdl : MTime.wf deadline).
Context (mem : list Z) (Hmem : mem_wf mem) (junk : Z -> list Z) (Hjunk : forall p, length (junk p) = B).
Abbreviation stk s := (ticks (deadline := deadline) (node_world (s : NS))).
Abbreviation left_ s := (passes_left horizon (deadline_scheduler_ (s : NS))).

Lemma poll_timers_ok fuel s app r :
  Sched_inv s -> (left_ s < fuel)%nat ->
  exists tevs ts s' app', poll_timers callback fuel s app r = Some (tevs, ts, s', app') /\
    Sched_inv s' /\ step (dispatcher_ s) (dispatcher_ s') /\ inside_spin_ s' = inside_spin_ s /\
    (left_ s' <= left_ s)%nat /\ (stk s' <= stk s)%nat /\ (ts < deadline -> (stk s' < stk s)%nat) /\
    (exists w, getMonotonic w = (ts, node_world s')) /\
    (forall id, id ∈ handlers_ (deadline_scheduler_ s') -> ts < getDeadline (deadline_scheduler_ s') id) /\
    Forall (fun e => scheduled_time e.2 <= real_time e.2 /\ is_reading (W := W) (real_time e.2)) tevs.
Proof.
  intros Hs Hfuel. pose proof Hs as [I1 I2 I3 I4]. unfold poll_timers.
  destruct (poll_schedule callback horizon Hquiet (fun w => proj2 (Hclock w)) fuel (node_world s) (deadline_scheduler_ s) app I2 I3 Hfuel)
    as (tevs & ts & w & ds & app' & E & _ & _ & _ & _ & Hfit & Hleft).
  destruct (poll_ok callback fuel _ _ _ _ _ _ _ _ I2 E) as (J1 & J2 & J3).
  destruct (poll_ticks deadline callback fuel _ _ _ _ _ _ _ _ E) as [T1 T2].
  destruct (poll_readings callback fuel _ _ _ _ _ _ _ _ E) as [R1 R2].
  rewrite E. cbn [mbind option_bind]. set (s1 := with_timers (with_world s w) ds).
  pose proof (world_step (dispatcher_ s) w I1) as Hstep.
  assert (Sched_inv s1) as Hs1 by (split; try done; apply Hstep).
  destruct (pollCleanup_ok s1 ts (u32 r) Hs1) as (K1 & K2 & K3 & K4 & K5).
  exists tevs, ts, (pollCleanup s1 ts (u32 r)), app'. rewrite K3, K4, K5.
  split_and!; try done. by apply Forall_and.
Qed.

Lemma spin_loop_ok fuel s app :
  Sched_inv s -> (stk s + left_ s < fuel)%nat ->
  exists evs tevs r s' app', spin_loop sizeof_Block sizeof_BufEntry sizeof_RxGroup NumRxKV callback fuel mem junk s app deadline
      = Some (evs, tevs, r, s', app') /\
    Sched_inv s' /\ step (dispatcher_ s) (dispatcher_ s') /\
    (0 <= r -> exists w ts, getMonotonic w = (ts, node_world s') /\ deadline <= ts /\
       forall id, id ∈ handlers_ (deadline_scheduler_ s') -> ts < getDeadline (deadline_scheduler_ s') id) /\
    Forall (fun e => scheduled_time e.2 <= real_time e.2 /\ is_reading (W := W) (real_time e.2)) tevs.
Proof.
  revert s app. induction fuel as [|fuel IH]; intros s app Hs Hfuel; [lia|]. cbn [spin_loop].
  pose proof (spin_deadline_ok s deadline Hs Hdl) as Hc. destruct (computeDispatcherSpinDeadline s deadline) as [dl s1].
  destruct Hc as (Hle & Hs1 & Hstep1 & Et1 & Ew1).
  pose proof (clock_ticks (deadline := deadline) (node_world s)) as Hct.
  assert ((stk s1 <= stk s)%nat) as Ht1 by (rewrite Ew1; destruct (getMonotonic (node_world s)); apply Hct).
  pose (C := clock_before deadline dl Hle).
  destruct (spin_ok sizeof_Block sizeof_BufEntry sizeof_RxGroup NumRxKV NumOtrKV B HB HNumRx HNumOtr dl mem Hmem junk Hjunk
    (S fuel) (dispatcher_ s1) 0 (sc_dispatcher s1 Hs1)) as (evs & r & d & E & Hstep2 & Ht2).
  { unfold node_world in Ht1, Hfuel. change (ticks (deadline := dl)) with (ticks (deadline := deadline)). lia. }
  change (ticks (deadline := dl)) with (ticks (deadline := deadline)) in Ht2.
  rewrite E. cbn [mbind option_bind]. set (s2 := with_dispatcher s1 d).
  assert (Sched_inv s2) as Hs2 by (destruct Hs1; split; try done; apply Hstep2).
  assert (step (dispatcher_ s) (dispatcher_ s2)) as Hstep by (by eapply D_step_trans).
  destruct (Z.ltb_spec r 0); [exists evs, [], r, s2, app; split_and!; try done; lia|].
  assert ((stk s2 <= stk s)%nat) as Ht by (unfold node_world in *; cbn; lia).
  destruct (poll_timers_ok (S fuel) s2 app r Hs2) as (tevs & ts & s3 & app' & E3 & Hs3 & Hstep3 & _ & Hl3 & Ht3 & Ht3' & [w3 Hw3] & Hdue & Hev).
  { change (left_ s2) with (left_ s1). rewrite Et1. lia. }
  rewrite E3. cbn [mbind option_bind].
  assert (step (dispatcher_ s) (dispatcher_ s3)) as Hstep4 by (by eapply D_step_trans).
  destruct (Z.leb_spec deadline ts); [exists evs, tevs, r, s3, app'; split_and!; try done; intros _; by exists w3, ts|].
  destruct (IH s3 app' Hs3) as (evs' & tevs' & r' & s4 & app4 & E4 & Hs4 & Hstep5 & Hr & Hev').
  { specialize (Ht3' ltac:(lia)). change (left_ s2) with (left_ s1) in Hl3. rewrite Et1 in Hl3. lia. }
  rewrite E4. cbn [mbind option_bind]. eexists _, _, _, _, _. split; [reflexivity|].
  split_and!; [done|by eapply D_step_trans|done|by apply Forall_app].
Qed.

(** C5: [spin] runs the node until its deadline and returns. With a clock that
    passes every time up to the deadline in finitely many readings (and stays below
    [horizon]), timers whose period is positive and whose next deadlines from [horizon]
    on are still representable ([timer_fits]), and callbacks that leave the timers
    alone, it ends; unless the dispatcher reported an error, the last thing it did
    was to read the clock: the time was not before the deadline, and no running timer
    is due at it; no timer was run early by the clock; the dispatcher and everything that shares its
    memory pool stay consistent. A call from inside of itself is refused and
    changes nothing. *)
Theorem spin_reaches_its_deadline fuel s app :
  Sched_inv s -> (stk s + left_ s < fuel)%nat ->
  if inside_spin_ s
  then Scheduler_spin sizeof_Block sizeof_BufEntry sizeof_RxGroup NumRxKV callback fuel mem junk s app deadline
         = Some ([], [], - ErrRecursiveCall, s, app)
  else exists evs tevs r s' app',
    Scheduler_spin sizeof_Block sizeof_BufEntry sizeof_RxGroup NumRxKV callback fuel mem junk s app deadline
      = Some (evs, tevs, r, s', app') /\
    inside_spin_ s' = false /\ Sched_inv s' /\ step (dispatcher_ s) (dispatcher_ s') /\
    (0 <= r -> exists w ts, getMonotonic w = (ts, node_world s') /\ deadline <= ts /\
       forall id, id ∈ handlers_ (deadline_scheduler_ s') -> ts < getDeadline (deadline_scheduler_ s') id) /\
    Forall (fun e => scheduled_time e.2 <= real_time e.2 /\ is_reading (W := W) (real_time e.2)) tevs.
Proof.
  intros Hs Hfuel. unfold Scheduler_spin. destruct (inside_spin_ s) eqn:Ei; [done|].
  destruct (spin_loop_ok fuel (set_inside_spin s true) app) as (evs & tevs & r & s' & app' & E & Hs' & Hstep & Hr & Hev).
  { destruct Hs. by split. }
  { exact Hfuel. }
  rewrite E. cbn [mbind option_bind]. exists evs, tevs, r, (set_inside_spin s' false), app'.
  split_and!; try done. destruct Hs'. by split.
Qed.
End deadline.
End spinning.

(** ** Examples *)

Import StoppingClock.

#[export] Instance stopping_clock_advances : ClockAdvances World 50.
Proof. refine {| ticks := fun w => Z.to_nat (50 - w) |}; cbn; intros; lia. Defined.

#[export] Instance stopping_clock_frames : DriverFrames World.
Proof. intros w i out. cbn. intros Hr. lia. Defined.

(** A node with the timers of [example_timers], started at time 6. *)
Definition example_scheduler (d : Dispatcher World PoolAllocator) : Scheduler World PoolAllocator :=
  mkNodeScheduler example_timers d 0 (Duration.fromMSec 5) (Duration.fromMSec 1000) false.


Lemma spin_reaches_its_deadline_witness :
  exists d, Dispatcher_init (6 : World) (PoolAllocator_init 4096 128 64) 2 = Some d /\
  exists evs tevs r s' app', Scheduler_spin 64 64 64 2 quiet 400 (replicate 7 0) (fun _ => replicate 60 0) (example_scheduler d) tt 50
    = Some (evs, tevs, r, s', app') /\ inside_spin_ s' = false /\
    (0 <= r -> exists w ts, getMonotonic w = (ts, node_world s') /\ 50 <= ts).
Proof.
  destruct (Dispatcher_init (6 : World) (PoolAllocator_init 4096 128 64) 2) as [d|] eqn:E; [|by vm_compute in E].
  exists d. split; [done|]. pose (laws := Pool_laws_at 4096 128 64).
  assert (Hp : pool_inv (PoolLaws := laws) (PoolAllocator_init 4096 128 64)).
  { split; [exact (proj1 (PoolAllocator_init_ok 4096 128 64 eq_refl eq_refl
      ltac:(vm_compute; split; done)))|split_and!; reflexivity]. }
  destruct (Dispatcher_init_ok (H1 := laws) 2 2 60 ltac:(lia) ltac:(lia) ltac:(lia) (6 : World) _ 2 d Hp sim_capacity E) as [Hd Hw].
  assert (Hm : mem_wf (replicate 7 0)) by (split; [done|by apply Forall_replicate]).
  assert (Hs : Sched_inv (H1 := laws) 2 2 60 100 (example_scheduler d)).
  { split; [exact Hd|exact example_timers_inv|exact example_timers_fit|vm_compute; split; done]. }
  assert (Hdl : MTime.wf 50) by (split; lia).
  destruct (spin_reaches_its_deadline (H1 := laws) 64 64 64 2 2 60 ltac:(lia) ltac:(lia) ltac:(lia) quiet 100 (fun _ _ _ => eq_refl)
    stops 50 Hdl (replicate 7 0) Hm (fun _ => replicate 60 0) (fun _ => eq_refl) 400 (example_scheduler d) tt Hs)
    as (evs & tevs & r & s' & app' & E' & Hi & _ & _ & Hr & _).
  - assert (passes_left 100 example_timers = 165%nat) as Hl by (vm_compute; reflexivity).
    unfold node_world, example_scheduler. cbn [dispatcher_ deadline_scheduler_]. rewrite Hw, Hl. cbn. lia.
  - exists evs, tevs, r, s', app'. split; [exact E'|]. split; [exact Hi|]. intros H0. destruct (Hr H0) as (w & ts & Hw' & Hts & _). by exists w, ts.
Defined.
