(* ===== verification/SocketCan.v ===== *)
(** * SocketCan: the driver for Linux

    Models [libuavcan_drivers/linux/include/uavcan_linux/socketcan.hpp]:
    [SocketCanIface], which keeps the frames to send in user space and gives the
    socket only as many as it can confirm, and [SocketCanDriver], which multiplexes
    several of them. The system calls and the clock are the class [SocketOps],
    of which [SocketLaws] assumes that the socket has finitely much to read and
    gives well-formed frames, and the clock is in range; what they answer is
    otherwise free. The socket of an interface is known by the index of the
    interface. Besides its result an operation returns
    the list of what became of frames taken from the queue; the theorem compares that list
    with a record of the system calls ([SysCall]) that any socket can be given. *)

From stdpp Require Import list sorting.
From S2P Require Import Prelude MonoTime CanFrame Frame LinkedList CanTxQueue CanIO.
Local Open Scope Z_scope.

(** ** Frames of the socket *)

(** [struct can_frame] and the flags of [linux/can.h]. *)
Record can_frame := mkSockFrame { sock_id : Z; sock_dlc : Z; sock_data : list Z }.
Definition CAN_EFF_FLAG : Z := 0x80000000.
Definition CAN_RTR_FLAG : Z := 0x40000000.
Definition CAN_ERR_FLAG : Z := 0x20000000.
Definition CAN_EFF_MASK : Z := 0x1FFFFFFF.
Definition sizeof_can_frame : Z := 16.

Definition lor_if (b : bool) (flag id : Z) : Z := if b then Z.lor id flag else id.

Definition makeSocketCanFrame (f : CanFrame) : can_frame :=
  let id := Z.land (can_id f) MaskExtID in
  let id := lor_if (isExtended f) CAN_EFF_FLAG id in
  let id := lor_if (isErrorFrame f) CAN_ERR_FLAG id in
  let id := lor_if (isRemoteTransmissionRequest f) CAN_RTR_FLAG id in
  mkSockFrame id (can_dlc f) (copy_onto (take (Z.to_nat (can_dlc f)) (can_data f)) (replicate MaxDataLen 0)).

(** The bytes past the length come from [mem]. *)
Definition makeUavcanFrame (mem : list Z) (c : can_frame) : CanFrame :=
  let f := CanFrame_make (Z.land (sock_id c) CAN_EFF_MASK) (sock_data c) (sock_dlc c) mem in
  let id := can_id f in
  let id := lor_if (flag_set (sock_id c) CAN_EFF_FLAG) FlagEFF id in
  let id := lor_if (flag_set (sock_id c) CAN_ERR_FLAG) FlagERR id in
  let id := lor_if (flag_set (sock_id c) CAN_RTR_FLAG) FlagRTR id in
  mkCanFrame id (can_data f) (can_dlc f).

(** ** The interface *)

(** What [recvmsg] gives: nothing to read, a failure, or a frame, whether it is
    one of our own, and its time stamp. *)
Inductive RecvResult :=
| RecvWouldBlock
| RecvFailed (res : Z)
| Received (frame : can_frame) (confirm : bool) (timestamp : option Z).

Class SocketOps (W : Type) := {
  sock_getMonotonic : W -> Z * W;
  sock_getPrivateAdjustment : W -> Z;
  sock_write : W -> nat -> can_frame -> Z * W;
  sock_recvmsg : W -> nat -> RecvResult * W;
  sock_ppoll : W -> list bool -> Z -> Z * list (bool * bool) * W
}.

Record TxItem := mkTxItem { tx_frame : CanFrame; tx_deadline : Z; tx_flags : Z; tx_order : Z }.
Record RxItem := mkRxItem { rxi_frame : CanFrame; rxi_ts_mono : Z; rxi_ts_utc : Z; rxi_flags : Z }.

(** [TxItem::operator<]. *)
Definition TxItem_ltb (a b : TxItem) : bool :=
  if priorityLowerThan (tx_frame a) (tx_frame b) then true
  else if priorityHigherThan (tx_frame a) (tx_frame b) then false
  else tx_order b <? tx_order a.

(** [errors_]: the numbers of errors of each kind. *)
Record Errors := mkErrors { SocketReadFailure : Z; SocketWriteFailure : Z; TxTimeout : Z }.

Record can_filter := mkFilter { cf_id : Z; cf_mask : Z }.

(** [tx_queue_] is listed from its top on. *)
Record SocketCanIface := mkSockIface {
  max_frames_in_socket_tx_queue_ : Z;
  frames_in_socket_tx_queue_ : Z;
  tx_frame_counter_ : Z;
  errors_ : Errors;
  tx_queue_ : list TxItem;
  rx_queue_ : list RxItem;
  pending_loopback_ids_ : list Z;
  hw_filters_container_ : list can_filter
}.

Definition SocketCanIface_make (max_frames : Z) : SocketCanIface := mkSockIface max_frames 0 0 (mkErrors 0 0 0) [] [] [] [].

Definition set_tx_queue (s : SocketCanIface) (q : list TxItem) : SocketCanIface :=
  mkSockIface (max_frames_in_socket_tx_queue_ s) (frames_in_socket_tx_queue_ s) (tx_frame_counter_ s) (errors_ s) q
    (rx_queue_ s) (pending_loopback_ids_ s) (hw_filters_container_ s).
Definition set_in_socket (s : SocketCanIface) (n : Z) : SocketCanIface :=
  mkSockIface (max_frames_in_socket_tx_queue_ s) n (tx_frame_counter_ s) (errors_ s) (tx_queue_ s)
    (rx_queue_ s) (pending_loopback_ids_ s) (hw_filters_container_ s).
Definition set_errors (s : SocketCanIface) (e : Errors) : SocketCanIface :=
  mkSockIface (max_frames_in_socket_tx_queue_ s) (frames_in_socket_tx_queue_ s) (tx_frame_counter_ s) e (tx_queue_ s)
    (rx_queue_ s) (pending_loopback_ids_ s) (hw_filters_container_ s).
Definition set_rx_queue (s : SocketCanIface) (q : list RxItem) : SocketCanIface :=
  mkSockIface (max_frames_in_socket_tx_queue_ s) (frames_in_socket_tx_queue_ s) (tx_frame_counter_ s) (errors_ s) (tx_queue_ s)
    q (pending_loopback_ids_ s) (hw_filters_container_ s).
Definition set_pending_ids (s : SocketCanIface) (l : list Z) : SocketCanIface :=
  mkSockIface (max_frames_in_socket_tx_queue_ s) (frames_in_socket_tx_queue_ s) (tx_frame_counter_ s) (errors_ s) (tx_queue_ s)
    (rx_queue_ s) l (hw_filters_container_ s).

Inductive SocketCanError := ErrSocketReadFailure | ErrSocketWriteFailure | ErrTxTimeout.

Definition registerError (s : SocketCanIface) (e : SocketCanError) : SocketCanIface :=
  let x := errors_ s in
  set_errors s match e with
    | ErrSocketReadFailure => mkErrors (u64 (SocketReadFailure x + 1)) (SocketWriteFailure x) (TxTimeout x)
    | ErrSocketWriteFailure => mkErrors (SocketReadFailure x) (u64 (SocketWriteFailure x + 1)) (TxTimeout x)
    | ErrTxTimeout => mkErrors (SocketReadFailure x) (SocketWriteFailure x) (u64 (TxTimeout x + 1))
    end.

Definition incrementNumFramesInSocketTxQueue (s : SocketCanIface) : SocketCanIface :=
  set_in_socket s (u32 (frames_in_socket_tx_queue_ s + 1)).
Definition confirmSentFrame (s : SocketCanIface) : SocketCanIface :=
  if 0 <? frames_in_socket_tx_queue_ s then set_in_socket s (frames_in_socket_tx_queue_ s - 1) else s.

(** [erase] with a key removes all elements with it. *)
Definition wasInPendingLoopbackSet (s : SocketCanIface) (frame : CanFrame) : bool * SocketCanIface :=
  if bool_decide (can_id frame ∈ pending_loopback_ids_ s)
  then (true, set_pending_ids s (filter (fun id => id <> can_id frame) (pending_loopback_ids_ s)))
  else (false, s).

Definition checkHWFilters (s : SocketCanIface) (frame : can_frame) : bool :=
  match hw_filters_container_ s with
  | [] => true
  | fs => existsb (fun f => Z.lxor (Z.land (sock_id frame) (cf_mask f)) (cf_id f) =? 0) fs
  end.

(** [priority_queue::emplace]. *)
Definition tx_emplace (x : TxItem) (q : list TxItem) : list TxItem := insert_before (fun y => TxItem_ltb y x) x q.

(** What became of a frame taken from the queue, and when. *)
Inductive TxOutcome := TxWritten (now : Z) | TxWriteFailed (now : Z) | TxTimedOut (now : Z).

Section iface.
Context {W : Type} `{SocketOps W} (mem : list Z) (fd : nat).
Abbreviation S_ := SocketCanIface.

(** [SocketCanIface::write]. *)
Definition write (w : W) (frame : CanFrame) : Z * W :=
  let '(res, w) := sock_write w fd (makeSocketCanFrame frame) in
  (if res <=? 0 then res else if negb (res =? sizeof_can_frame) then -1 else 1, w).

(** [SocketCanIface::read]: the result, the frame, its time stamp and [loopback]. *)
Definition read (w : W) (s : S_) : Z * option (CanFrame * Z * bool) * W :=
  match sock_recvmsg w fd with
  | (RecvWouldBlock, w) => (0, None, w)
  | (RecvFailed res, w) => (res, None, w)
  | (Received frame confirm timestamp, w) =>
      if negb confirm && negb (checkHWFilters s frame) then (0, None, w)
      else match timestamp with
           | Some ts => (1, Some (makeUavcanFrame mem frame, ts, confirm), w)
           | None => (-1, None, w)
           end
  end.

(** [SocketCanIface::pollWrite]: the loop over the queue [q]. *)
Fixpoint pollWrite_loop (w : W) (s : S_) (q : list TxItem) : list (TxItem * TxOutcome) * W * S_ :=
  match q with
  | [] => ([], w, set_tx_queue s [])
  | tx :: q' =>
      if frames_in_socket_tx_queue_ s <? max_frames_in_socket_tx_queue_ s then
        let '(now, w) := sock_getMonotonic w in
        if now <=? tx_deadline tx then
          let '(res, w) := write w (tx_frame tx) in
          if res =? 1 then
            let s := incrementNumFramesInSocketTxQueue s in
            let s := if negb (Z.land (tx_flags tx) CanIOFlagLoopback =? 0)
                     then set_pending_ids s (can_id (tx_frame tx) :: pending_loopback_ids_ s) else s in
            let '(out, w, s) := pollWrite_loop w s q' in ((tx, TxWritten now) :: out, w, s)
          else
            let '(out, w, s) := pollWrite_loop w (registerError s ErrSocketWriteFailure) q' in
            ((tx, TxWriteFailed now) :: out, w, s)
        else
          let '(out, w, s) := pollWrite_loop w (registerError s ErrTxTimeout) q' in
          ((tx, TxTimedOut now) :: out, w, s)
      else ([], w, set_tx_queue s q)
  end.

Definition pollWrite (w : W) (s : S_) : list (TxItem * TxOutcome) * W * S_ := pollWrite_loop w s (tx_queue_ s).

(** [SocketCanIface::pollRead]; [None] is out of fuel, one unit for each pass. *)
Definition accept_frame (s : S_) (loopback : bool) (frame : CanFrame) : bool * S_ :=
  if loopback then wasInPendingLoopbackSet (confirmSentFrame s) frame else (true, s).

Fixpoint pollRead (fuel : nat) (w : W) (s : S_) : option (W * S_) :=
  match fuel with
  | O => None
  | S fuel =>
      let '(ts_mono, w) := sock_getMonotonic w in
      let '(res, out, w) := read w s in
      match out with
      | Some (frame, ts_utc, loopback) =>
          let '(accept, s) := accept_frame s loopback frame in
          let item := mkRxItem frame ts_mono (MTime.plus ts_utc (sock_getPrivateAdjustment w))
                        (if loopback then CanIOFlagLoopback else 0) in
          pollRead fuel w (if accept then set_rx_queue s (rx_queue_ s ++ [item]) else s)
      | None => if res =? 0 then Some (w, s) else pollRead fuel w (registerError s ErrSocketReadFailure)
      end
  end.

(** [ICanIface::send] and [receive]. *)
Definition Sock_send (fuel : nat) (w : W) (s : S_) (frame : CanFrame) (deadline flags : Z) :
    option (Z * list (TxItem * TxOutcome) * W * S_) :=
  let s := set_tx_queue s (tx_emplace (mkTxItem frame deadline flags (tx_frame_counter_ s)) (tx_queue_ s)) in
  let s := mkSockIface (max_frames_in_socket_tx_queue_ s) (frames_in_socket_tx_queue_ s) (u64 (tx_frame_counter_ s + 1))
             (errors_ s) (tx_queue_ s) (rx_queue_ s) (pending_loopback_ids_ s) (hw_filters_container_ s) in
  '(w, s) ← pollRead fuel w s;
  let '(out, w, s) := pollWrite w s in
  Some (1, out, w, s).

Definition Sock_receive (fuel : nat) (w : W) (s : S_) : option (option RxItem * W * S_) :=
  '(w, s) ← (match rx_queue_ s with [] => pollRead fuel w s | _ => Some (w, s) end);
  match rx_queue_ s with
  | [] => Some (None, w, s)
  | rx :: q => Some (Some rx, w, set_rx_queue s q)
  end.

Definition Sock_poll (fuel : nat) (w : W) (s : S_) (read write : bool) : option (list (TxItem * TxOutcome) * W * S_) :=
  '(w, s) ← (if read then pollRead fuel w s else Some (w, s));
  if write then Some (pollWrite w s) else Some ([], w, s).
End iface.

Definition hasPendingTx (s : SocketCanIface) : bool := match tx_queue_ s with [] => false | _ => true end.
Definition hasReadyRx (s : SocketCanIface) : bool := match rx_queue_ s with [] => false | _ => true end.

Definition make_filter (fc : CanFilterConfig) : can_filter :=
  let id := Z.land (filter_id fc) MaskExtID in
  let mask := Z.land (filter_mask fc) MaskExtID in
  let id := lor_if (flag_set (filter_id fc) FlagEFF) CAN_EFF_FLAG id in
  let id := lor_if (flag_set (filter_id fc) FlagRTR) CAN_RTR_FLAG id in
  let mask := lor_if (flag_set (filter_mask fc) FlagEFF) CAN_EFF_FLAG mask in
  let mask := lor_if (flag_set (filter_mask fc) FlagRTR) CAN_RTR_FLAG mask in
  mkFilter id mask.

Definition Sock_configureFilters (s : SocketCanIface) (filter_configs : list CanFilterConfig) : Z * SocketCanIface :=
  (0, mkSockIface (max_frames_in_socket_tx_queue_ s) (frames_in_socket_tx_queue_ s) (tx_frame_counter_ s) (errors_ s) (tx_queue_ s)
        (rx_queue_ s) (pending_loopback_ids_ s) (make_filter <$> filter_configs)).

Definition NumFilters : Z := 8.
Definition Sock_getErrorCount (s : SocketCanIface) : Z :=
  u64 (SocketReadFailure (errors_ s) + SocketWriteFailure (errors_ s) + TxTimeout (errors_ s)).

(** ** Several interfaces *)

Section driver.
Context {W : Type} `{SocketOps W} (mem : list Z).
Abbreviation D := (list SocketCanIface).
Abbreviation Outs := (list (TxItem * TxOutcome)).

Definition getIface (d : D) (iface_index : nat) : option SocketCanIface := d !! iface_index.
Definition getNumIfaces (d : D) : Z := Z.of_nat (length d).

(** [SocketCanDriver::addIface] with the answer of [openSocket]. *)
Definition addIface (d : D) (fd : Z) : Z * D :=
  if MaxCanIfaces <=? Z.of_nat (length d) then (-1, d)
  else if fd <? 0 then (fd, d)
  else (0, d ++ [SocketCanIface_make 2]).

(** The time [ppoll] waits at most, in microseconds. *)
Definition poll_timeout (blocking_deadline now : Z) : Z :=
  let timeout_usec := MTime.minus blocking_deadline now in
  if 0 <? timeout_usec then timeout_usec else 0.

(** The loop over the answer of [ppoll]. *)
Fixpoint poll_ifaces (fuel : nat) (i : nat) (w : W) (d : D) (revents : list (bool * bool)) : option (Outs * W * D) :=
  match d, revents with
  | s :: d, (poll_read, poll_write) :: revents =>
      '(out, w, s) ← Sock_poll mem i fuel w s poll_read poll_write;
      '(out', w, d) ← poll_ifaces fuel (S i) w d revents;
      Some (out ++ out', w, s :: d)
  | d, _ => Some ([], w, d)
  end.

Definition need_block (d : D) (masks : CanSelectMasks) : bool :=
  (mask_write masks =? 0) &&
  forallb (fun p => negb (negb (Z.land (mask_read masks) (Z.shiftl 1 (Z.of_nat p.1)) =? 0) && hasReadyRx p.2)) (zip (seq 0 (length d)) d).

Definition out_masks (d : D) : CanSelectMasks :=
  foldl (fun m p =>
    let iface_mask := u8 (Z.shiftl 1 (Z.of_nat p.1)) in
    mkMasks (if hasReadyRx p.2 then Z.lor (mask_read m) iface_mask else mask_read m) (Z.lor (mask_write m) iface_mask))
    (mkMasks 0 0) (zip (seq 0 (length d)) d).

Definition Sock_select (fuel : nat) (w : W) (d : D) (masks : CanSelectMasks) (blocking_deadline : Z) :
    option (Z * CanSelectMasks * Outs * W * D) :=
  if need_block d masks then
    let events := (fun p => hasPendingTx p.2 || negb (Z.land (mask_write masks) (Z.shiftl 1 (Z.of_nat p.1)) =? 0))
                    <$> zip (seq 0 (length d)) d in
    let '(now, w) := sock_getMonotonic w in
    let '(res, revents, w) := sock_ppoll w events (poll_timeout blocking_deadline now) in
    if res <? 0 then Some (res, masks, [], w, d)
    else
      '(out, w, d) ← poll_ifaces fuel 0 w d revents;
      Some (getNumIfaces d, out_masks d, out, w, d)
  else Some (getNumIfaces d, out_masks d, [], w, d).
End driver.

(** ** Frames cross the socket unchanged *)

Lemma rejoin id : is_u32 id ->
  lor_if (flag_set id FlagRTR) FlagRTR (lor_if (flag_set id FlagERR) FlagERR (lor_if (flag_set id FlagEFF) FlagEFF (Z.land id MaskExtID))) = id.
Proof.
  intros Hid. assert (forall b f x i, Z.testbit (lor_if b f x) i = (b && Z.testbit f i) || Z.testbit x i) as Hb.
  { intros [] f x i; cbn; [|done]. by rewrite Z.lor_spec, orb_comm. }
  unfold FlagRTR, FlagERR, FlagEFF. rewrite !flag_testbit by lia. apply Z.bits_inj'. intros i Hi.
  rewrite !Hb, Z.land_spec. change MaskExtID with (Z.ones 29). rewrite Z.testbit_ones_nonneg by lia.
  rewrite !Z.shiftl_1_l, !Z.pow2_bits_eqb by lia.
  destruct (Z.eqb_spec 30 i) as [<-|]; [by destruct (Z.testbit id 30), (Z.testbit id 29), (Z.testbit id 31)|].
  destruct (Z.eqb_spec 29 i) as [<-|]; [by destruct (Z.testbit id 30), (Z.testbit id 29), (Z.testbit id 31)|].
  destruct (Z.eqb_spec 31 i) as [<-|]; [by destruct (Z.testbit id 30), (Z.testbit id 29), (Z.testbit id 31)|].
  rewrite !andb_false_r. cbn [orb]. destruct (Z.ltb_spec i 29); [by rewrite andb_true_r|].
  rewrite andb_false_r. symmetry. apply (in_width_testbit 32); [done|lia].
Qed.

(** What the socket gives. *)
Record sock_frame_wf (c : can_frame) : Prop := {
  sw_id : is_u32 (sock_id c);
  sw_dlc : 0 <= sock_dlc c <= 8;
  sw_data : length (sock_data c) = MaxDataLen /\ bytes (sock_data c);
  sw_std : flag_set (sock_id c) CAN_EFF_FLAG = false -> Z.land (sock_id c) MaskExtID <= MaskStdID
}.

Lemma makeUavcanFrame_id mem c : is_u32 (sock_id c) -> can_id (makeUavcanFrame mem c) = sock_id c.
Proof. intros Hid. cbn. exact (rejoin (sock_id c) Hid). Qed.

Lemma length_copy_data n data mem : (n <= 8)%nat -> length data = 8%nat -> length mem = 8%nat ->
  length (copy_onto (take n data) mem) = 8%nat.
Proof. intros. unfold copy_onto. rewrite length_app, length_drop, length_take. lia. Qed.

Lemma makeUavcanFrame_wf mem c :
  length mem = MaxDataLen -> bytes mem -> sock_frame_wf c -> CanFrame_wf (makeUavcanFrame mem c).
Proof.
  intros Hl Hm [H1 H2 [H3 H4] H5]. pose proof (makeUavcanFrame_id mem c H1) as Hid. unfold MaxDataLen in *.
  assert ((if Z.of_nat 8 <? sock_dlc c then Z.of_nat 8 else sock_dlc c) = sock_dlc c) as Hd.
  { by rewrite (proj2 (Z.ltb_ge _ _)) by lia. }
  split.
  - by rewrite Hid.
  - cbn -[Z.of_nat]. unfold MaxDataLen. rewrite Hd. apply length_copy_data; lia.
  - cbn -[Z.of_nat]. unfold MaxDataLen. rewrite Hd. unfold copy_onto.
    apply Forall_app. split; [by apply Forall_take|by apply Forall_drop].
  - cbn -[Z.of_nat]. unfold MaxDataLen. by rewrite Hd.
  - unfold isExtended. rewrite Hid. apply H5.
Qed.

(** A frame given to the socket and read from it again is the same frame. *)
Lemma sock_frame_roundtrip mem f :
  CanFrame_wf f ->
  let g := makeUavcanFrame mem (makeSocketCanFrame f) in
  can_id g = can_id f /\ can_dlc g = can_dlc f /\ can_payload g = can_payload f /\ CanFrame_eqb f g = true.
Proof.
  intros [H1 H2 H3 H4 H5] g. unfold MaxDataLen in *.
  assert (sock_id (makeSocketCanFrame f) = can_id f) as Es by exact (rejoin (can_id f) H1).
  assert (can_id g = can_id f) as E1 by (unfold g; rewrite makeUavcanFrame_id; rewrite Es; done).
  assert (can_dlc g = can_dlc f) as E2.
  { cbn -[Z.of_nat]. unfold MaxDataLen. by rewrite (proj2 (Z.ltb_ge _ _)) by lia. }
  assert (take (Z.to_nat (can_dlc f)) (can_data g) = can_payload f) as E3.
  { cbn -[Z.of_nat copy_onto]. unfold MaxDataLen. rewrite (proj2 (Z.ltb_ge _ _)) by lia. unfold copy_onto, can_payload.
    assert (length (take (Z.to_nat (can_dlc f)) (can_data f)) = Z.to_nat (can_dlc f)) as Hlen by (rewrite length_take; lia).
    rewrite take_app_le by (rewrite length_take, length_app, Hlen; lia). rewrite take_take, Nat.min_id.
    rewrite take_app_le by lia. by rewrite take_ge by lia. }
  split_and!; [done|done|unfold can_payload; by rewrite E2|].
  unfold CanFrame_eqb. rewrite E1, E2, E3, !Z.eqb_refl. by apply bool_decide_eq_true.
Qed.

(** ** Every frame is accounted for *)

(** A finite backlog of the socket, frames and times in range. *)
Class SocketLaws (W : Type) `{SocketOps W} := {
  backlog : W -> nat;
  clock_backlog w : (backlog (sock_getMonotonic w).2 <= backlog w)%nat;
  clock_range w : 0 <= (sock_getMonotonic w).1 < 2 ^ 63;
  recv_backlog w fd : let '(r, w') := sock_recvmsg w fd in
    (backlog w' <= backlog w)%nat /\ (r = RecvWouldBlock \/ r = RecvFailed 0 \/ (backlog w' < backlog w)%nat);
  recv_frames w fd : match (sock_recvmsg w fd).1 with Received c _ _ => sock_frame_wf c | _ => True end
}.

(** The order of the queue: bus priority, then age. *)
Definition tx_before (a b : TxItem) : Prop :=
  arbitration_field (tx_frame a) < arbitration_field (tx_frame b) \/
  (arbitration_field (tx_frame a) = arbitration_field (tx_frame b) /\ tx_order a < tx_order b).

Definition rx_ok (r : RxItem) : Prop := CanFrame_wf (rxi_frame r) /\ 0 <= rxi_ts_mono r < 2 ^ 63.

Record Sock_inv (s : SocketCanIface) : Prop := {
  sk_max : 0 <= max_frames_in_socket_tx_queue_ s < 2 ^ 32;
  sk_frames : 0 <= frames_in_socket_tx_queue_ s <= max_frames_in_socket_tx_queue_ s;
  sk_sorted : StronglySorted tx_before (tx_queue_ s);
  sk_items : Forall (fun t => CanFrame_wf (tx_frame t) /\ tx_order t < tx_frame_counter_ s) (tx_queue_ s);
  sk_rx : Forall rx_ok (rx_queue_ s)
}.

Lemma TxItem_ltb_spec a b :
  CanFrame_wf (tx_frame a) -> CanFrame_wf (tx_frame b) -> TxItem_ltb a b = true <-> tx_before b a.
Proof.
  intros Ha Hb. unfold TxItem_ltb, priorityLowerThan, tx_before. rewrite !priority_arbitration by done.
  destruct (Z.ltb_spec (arbitration_field (tx_frame b)) (arbitration_field (tx_frame a))); [split; [auto|done]|].
  destruct (Z.ltb_spec (arbitration_field (tx_frame a)) (arbitration_field (tx_frame b))); [split; [done|lia]|].
  rewrite Z.ltb_lt. lia.
Qed.

Lemma tx_before_trans a b c : tx_before a b -> tx_before b c -> tx_before a c.
Proof. unfold tx_before. lia. Qed.

Lemma tx_emplace_sorted x q :
  CanFrame_wf (tx_frame x) -> Forall (fun t => CanFrame_wf (tx_frame t) /\ tx_order t < tx_order x) q ->
  StronglySorted tx_before q -> StronglySorted tx_before (tx_emplace x q).
Proof.
  intros Hx Hq. induction 1 as [|y q Hs IH Hy]; [repeat constructor|]. apply Forall_cons in Hq as [[Hyw Hyo] Hq].
  unfold tx_emplace. cbn [insert_before]. destruct (TxItem_ltb y x) eqn:E.
  - apply TxItem_ltb_spec in E; [|done|done]. constructor; [by constructor|]. constructor; [done|].
    eapply Forall_impl; [exact Hy|]. intros z Hz. by eapply tx_before_trans.
  - constructor; [by apply IH|]. rewrite insert_before_perm. constructor; [|done].
    assert (~ tx_before x y) as Hn by (rewrite <-TxItem_ltb_spec, E by done; done). unfold tx_before in *. lia.
Qed.

Definition is_timeout (o : TxItem * TxOutcome) : bool := match o.2 with TxTimedOut _ => true | _ => false end.
Definition is_failure (o : TxItem * TxOutcome) : bool := match o.2 with TxWriteFailed _ => true | _ => false end.
Definition count_if (p : TxItem * TxOutcome -> bool) (l : list (TxItem * TxOutcome)) : Z := Z.of_nat (length (filter (fun o => p o = true) l)).

(** A frame is written by its deadline, and dropped only after it. *)
Definition in_time (o : TxItem * TxOutcome) : Prop :=
  match o.2 with
  | TxWritten now | TxWriteFailed now => now <= tx_deadline o.1
  | TxTimedOut now => tx_deadline o.1 < now
  end.

Lemma count_if_cons p o l : count_if p (o :: l) = (if p o then 1 else 0) + count_if p l.
Proof. unfold count_if. rewrite filter_cons. destruct (p o); cbn; [rewrite decide_True by done; cbn; lia|done]. Qed.

Section accounting.
Context {W : Type} `{SocketLaws W} (mem : list Z) (Hmem : length mem = MaxDataLen) (Hbytes : bytes mem) (fd : nat).

(** What an operation leaves as it is, and what it counts. *)
Record tx_accounts (s s' : SocketCanIface) (out : list (TxItem * TxOutcome)) : Prop := {
  ta_queue : out.*1 ++ tx_queue_ s' = tx_queue_ s;
  ta_time : Forall in_time out;
  ta_timeouts : TxTimeout (errors_ s') = u64 (TxTimeout (errors_ s) + count_if is_timeout out);
  ta_failures : SocketWriteFailure (errors_ s') = u64 (SocketWriteFailure (errors_ s) + count_if is_failure out);
  ta_counter : tx_frame_counter_ s' = tx_frame_counter_ s;
  ta_max : max_frames_in_socket_tx_queue_ s' = max_frames_in_socket_tx_queue_ s;
  ta_frames : 0 <= frames_in_socket_tx_queue_ s' <= max_frames_in_socket_tx_queue_ s
}.

Definition counters_ok (s : SocketCanIface) : Prop := is_u64 (TxTimeout (errors_ s)) /\ is_u64 (SocketWriteFailure (errors_ s)).

Lemma u64_step x n : u64 (u64 (x + 1) + n) = u64 (x + (1 + n)).
Proof. unfold u64, wrap. rewrite Zplus_mod_idemp_l. f_equal. lia. Qed.

Lemma u64_range x : is_u64 (u64 x).
Proof. apply wrap_range. lia. Qed.

#[local] Ltac account :=
  split; cbn; rewrite ?count_if_cons; cbn; rewrite ?Z.add_0_l, <-?u64_step; try congruence; try done; try (by constructor); try lia.

Lemma pollWrite_loop_ok w s q :
  0 <= max_frames_in_socket_tx_queue_ s < 2 ^ 32 -> 0 <= frames_in_socket_tx_queue_ s <= max_frames_in_socket_tx_queue_ s ->
  counters_ok s ->
  let '(out, w', s') := pollWrite_loop fd w s q in
  tx_accounts (set_tx_queue s q) s' out /\ rx_queue_ s' = rx_queue_ s.
Proof.
  revert w s. induction q as [|tx q IH]; intros w s Hmax Hfr [Hc1 Hc2]; cbn [pollWrite_loop].
  { split; [|done]. split; try done; cbn; by rewrite Z.add_0_r, wrap_small. }
  destruct (Z.ltb_spec (frames_in_socket_tx_queue_ s) (max_frames_in_socket_tx_queue_ s)).
  2: { split; [|done]. split; try done; cbn; by rewrite Z.add_0_r, wrap_small. }
  destruct (sock_getMonotonic w) as [now w1]. destruct (Z.leb_spec now (tx_deadline tx)).
  - destruct (write fd w1 (tx_frame tx)) as [res w2]. destruct (res =? 1).
    + set (s1 := if negb _ then _ else _).
      assert (0 <= frames_in_socket_tx_queue_ s1 <= max_frames_in_socket_tx_queue_ s1 /\ errors_ s1 = errors_ s /\
        max_frames_in_socket_tx_queue_ s1 = max_frames_in_socket_tx_queue_ s /\
        tx_frame_counter_ s1 = tx_frame_counter_ s /\ rx_queue_ s1 = rx_queue_ s) as (S1 & S2 & S3 & S4 & S5).
      { unfold s1. destruct (negb _); cbn; rewrite wrap_small by (unfold in_width; lia); split_and!; done || lia. }
      clearbody s1. specialize (IH w2 s1 ltac:(lia) S1). unfold counters_ok in IH. rewrite S2 in IH. specialize (IH (conj Hc1 Hc2)).
      destruct (pollWrite_loop fd w2 s1 q) as [[out w3] s3]. destruct IH as [[] E]. cbn in *.
      rewrite S2 in *. split; [account|congruence].
    + specialize (IH w2 (registerError s ErrSocketWriteFailure) Hmax Hfr (conj Hc1 (u64_range _))).
      destruct (pollWrite_loop fd w2 _ q) as [[out w3] s3]. destruct IH as [[] E]. cbn in *. split; [|done].
      account.
  - specialize (IH w1 (registerError s ErrTxTimeout) Hmax Hfr (conj (u64_range _) Hc2)).
    destruct (pollWrite_loop fd w1 _ q) as [[out w3] s3]. destruct IH as [[] E]. cbn in *. split; [|done].
    account.
Qed.

(** Reading only adds received frames and confirms sent ones. *)
Lemma pollRead_ok fuel w s :
  (backlog w < fuel)%nat -> Sock_inv s -> counters_ok s ->
  exists w' s', pollRead mem fd fuel w s = Some (w', s') /\ tx_accounts s s' [] /\ Sock_inv s' /\ counters_ok s'.
Proof.
  revert w s. induction fuel as [|fuel IH]; intros w s Hf Hs Hc; [lia|]. cbn [pollRead].
  pose proof (clock_backlog w) as Hb. pose proof (clock_range w) as Ht. destruct (sock_getMonotonic w) as [ts w1]. cbn in Hb, Ht.
  assert (tx_accounts s s []) as Hrefl.
  { destruct Hs, Hc. split; try done; cbn; rewrite Z.add_0_r; symmetry; by apply wrap_small. }
  assert (forall s1 w2, (backlog w2 < fuel)%nat -> Sock_inv s1 -> counters_ok s1 -> tx_accounts s s1 [] ->
    exists w' s', pollRead mem fd fuel w2 s1 = Some (w', s') /\ tx_accounts s s' [] /\ Sock_inv s' /\ counters_ok s') as Hgo.
  { intros s1 w2 Hb2 Hs1 Hc1 [A1 A2 A3 A4 A5 A6 A7]. destruct (IH w2 s1 Hb2 Hs1 Hc1) as (w3 & s3 & E & [B1 B2 B3 B4 B5 B6 B7] & Hs3 & Hc3).
    exists w3, s3. split; [done|]. split; [|done]. cbn in *. split; cbn; try done; [congruence|rewrite B3, A3|rewrite B4, A4|congruence|congruence|lia].
    - change (count_if is_timeout []) with 0. by rewrite !Z.add_0_r, !(wrap_small _ (u64 _)) by apply u64_range.
    - change (count_if is_failure []) with 0. by rewrite !Z.add_0_r, !(wrap_small _ (u64 _)) by apply u64_range. }
  unfold read. pose proof (recv_backlog w1 fd) as Hrb. pose proof (recv_frames w1 fd) as Hrf.
  destruct (sock_recvmsg w1 fd) as [r w2]. cbn in Hrf. destruct Hrb as [Hle Hrb]. destruct r as [|res|c confirm tv].
  - exists w2, s. done.
  - destruct (Z.eqb_spec res 0); [by exists w2, s|]. destruct Hrb as [?|[[= ?]|Hlt]]; [done|done|].
    apply Hgo; [lia| | |]; destruct Hs, Hc, Hrefl; split; done.
  - destruct Hrb as [?|[?|Hlt]]; [done|done|]. destruct (negb confirm && _); [by exists w2, s|]. destruct tv as [tv|].
    2: { apply Hgo; [lia| | |]; destruct Hs, Hc, Hrefl; split; done. }
    assert (rx_ok (mkRxItem (makeUavcanFrame mem c) ts (MTime.plus tv (sock_getPrivateAdjustment w2)) (if confirm then CanIOFlagLoopback else 0))) as Hrx.
    { split; [by apply makeUavcanFrame_wf|done]. }
    set (item := mkRxItem _ _ _ _) in *. set (f := makeUavcanFrame mem c) in *.
    assert (let '(accept, s1) := accept_frame s confirm f in
      Sock_inv s1 /\ counters_ok s1 /\ tx_accounts s s1 []) as Hacc.
    { destruct Hs, Hc, Hrefl. unfold accept_frame, confirmSentFrame, wasInPendingLoopbackSet. destruct confirm; [|done].
      destruct (Z.ltb_spec 0 (frames_in_socket_tx_queue_ s)); case_bool_decide; (split_and!; split; cbn; try done; lia). }
    destruct (accept_frame s confirm f) as [accept s1]. destruct Hacc as (Hs1 & Hc1 & Ha1).
    destruct accept; [|by apply Hgo; [lia| | |]].
    apply Hgo; [lia| | |]; destruct Hs1, Hc1, Ha1; split; try done. cbn. apply Forall_app. split; [done|by constructor].
Qed.

Inductive SockCall :=
| CallSend (frame : CanFrame) (deadline flags : Z)
| CallReceive
| CallPoll (read write : bool)
| CallFilters (filter_configs : list CanFilterConfig).

Definition call_ok (c : SockCall) : Prop := match c with CallSend frame _ _ => CanFrame_wf frame | _ => True end.

(** One call, with fuel for what the socket holds. *)
Definition sock_call (w : W) (s : SocketCanIface) (c : SockCall) : option (list (TxItem * TxOutcome) * W * SocketCanIface) :=
  let fuel := S (backlog w) in
  match c with
  | CallSend frame deadline flags => '(_, out, w, s) ← Sock_send mem fd fuel w s frame deadline flags; Some (out, w, s)
  | CallReceive => '(_, w, s) ← Sock_receive mem fd fuel w s; Some ([], w, s)
  | CallPoll read write => Sock_poll mem fd fuel w s read write
  | CallFilters cs => Some ([], w, (Sock_configureFilters s cs).2)
  end.

Fixpoint sock_run (w : W) (s : SocketCanIface) (cs : list SockCall) : option (list (TxItem * TxOutcome) * W * SocketCanIface) :=
  match cs with
  | [] => Some ([], w, s)
  | c :: cs => '(out, w, s) ← sock_call w s c; '(out', w, s) ← sock_run w s cs; Some (out ++ out', w, s)
  end.

(** The frames given to [send], numbered from [n] on. *)
Fixpoint sent_from (n : Z) (cs : list SockCall) : list TxItem :=
  match cs with
  | [] => []
  | CallSend frame deadline flags :: cs => mkTxItem frame deadline flags n :: sent_from (n + 1) cs
  | _ :: cs => sent_from n cs
  end.

Definition next_number (n : Z) (c : SockCall) : Z := match c with CallSend _ _ _ => n + 1 | _ => n end.

Lemma pollWrite_ok w s :
  Sock_inv s -> counters_ok s ->
  let '(out, w', s') := pollWrite fd w s in tx_accounts s s' out /\ Sock_inv s' /\ counters_ok s'.
Proof.
  intros Hs Hc. pose proof (pollWrite_loop_ok w s (tx_queue_ s) (sk_max s Hs) (sk_frames s Hs) Hc) as Hw. unfold pollWrite.
  destruct (pollWrite_loop fd w s (tx_queue_ s)) as [[out w'] s']. destruct Hw as [[A1 A2 A3 A4 A5 A6 A7] Hrx]. cbn in *.
  destruct Hs as [S1 S2 S3 S4 S5]. rewrite <-A1 in S3, S4. split; [by split|]. split.
  - split; rewrite ?A6, ?A5, ?Hrx; try done; [|by apply Forall_app in S4 as [_ ?]].
    eapply (StronglySorted_app_1_r). exact S3.
  - split; [rewrite A3|rewrite A4]; apply u64_range.
Qed.

(** What a call gives: the frames taken from the queue are the first ones of it,
    and each is counted. *)
Record call_accounts (s s' : SocketCanIface) (c : SockCall) (out : list (TxItem * TxOutcome)) : Prop := {
  ca_sorted : StronglySorted tx_before (out.*1 ++ tx_queue_ s');
  ca_all : out.*1 ++ tx_queue_ s' ≡ₚ tx_queue_ s ++ sent_from (tx_frame_counter_ s) [c];
  ca_time : Forall in_time out;
  ca_timeouts : TxTimeout (errors_ s') = u64 (TxTimeout (errors_ s) + count_if is_timeout out);
  ca_failures : SocketWriteFailure (errors_ s') = u64 (SocketWriteFailure (errors_ s) + count_if is_failure out);
  ca_counter : tx_frame_counter_ s' = next_number (tx_frame_counter_ s) c;
  ca_max : max_frames_in_socket_tx_queue_ s' = max_frames_in_socket_tx_queue_ s
}.

Lemma accounts_quiet s s' c out :
  sent_from (tx_frame_counter_ s) [c] = [] -> next_number (tx_frame_counter_ s) c = tx_frame_counter_ s ->
  Sock_inv s -> tx_accounts s s' out -> call_accounts s s' c out.
Proof.
  intros Hc Hn [_ _ Hs _ _] [A1 A2 A3 A4 A5 A6 A7]. split; try done; [by rewrite A1|by rewrite Hc, app_nil_r, A1|congruence].
Qed.

Lemma tx_accounts_trans s1 s2 s3 out :
  tx_accounts s1 s2 [] -> tx_accounts s2 s3 out -> counters_ok s1 -> tx_accounts s1 s3 out.
Proof.
  intros [A1 A2 A3 A4 A5 A6 A7] [B1 B2 B3 B4 B5 B6 B7] [C1 C2]. cbn in A1, A3, A4.
  change (count_if is_timeout []) with 0 in A3. change (count_if is_failure []) with 0 in A4.
  rewrite Z.add_0_r, wrap_small in A3, A4 by done. split; try congruence; try done; lia.
Qed.

Lemma pollRead_if_ok (b : bool) w s :
  Sock_inv s -> counters_ok s ->
  exists w' s', (if b then pollRead mem fd (S (backlog w)) w s else Some (w, s)) = Some (w', s') /\
    tx_accounts s s' [] /\ Sock_inv s' /\ counters_ok s'.
Proof.
  intros Hs Hc. destruct b; [by apply pollRead_ok; [lia| |]|]. exists w, s. split; [done|]. split; [|done].
  destruct Hs, Hc. split; try done; cbn; rewrite Z.add_0_r; symmetry; by apply wrap_small.
Qed.

Lemma sock_call_ok w s c :
  Sock_inv s -> counters_ok s -> 0 <= tx_frame_counter_ s < 2 ^ 64 - 1 -> call_ok c ->
  exists out w' s', sock_call w s c = Some (out, w', s') /\ Sock_inv s' /\ counters_ok s' /\ call_accounts s s' c out.
Proof.
  intros Hs Hc Hn Hok. destruct c as [frame dl fl| |rd wr|cs]; cbn [sock_call].
  - unfold Sock_send. set (x := mkTxItem frame dl fl (tx_frame_counter_ s)).
    set (s1 := mkSockIface _ _ _ _ _ _ _ _). pose proof Hs as [S1 S2 S3 S4 S5].
    assert (tx_queue_ s1 ≡ₚ x :: tx_queue_ s) as Hperm by apply insert_before_perm.
    assert (tx_frame_counter_ s1 = tx_frame_counter_ s + 1) as Hcnt by (cbn; apply wrap_small; unfold in_width; lia).
    assert (StronglySorted tx_before (tx_queue_ s1)) as Hsort by (by apply tx_emplace_sorted).
    assert (Sock_inv s1) as Hs1.
    { split; try done. rewrite Hperm, Hcnt. constructor; [split; [done|cbn; lia]|].
      eapply Forall_impl; [exact S4|]. intros t [? ?]. split; [done|lia]. }
    assert (counters_ok s1 /\ errors_ s1 = errors_ s /\ max_frames_in_socket_tx_queue_ s1 = max_frames_in_socket_tx_queue_ s)
      as (Hc1 & He1 & Hm1) by done.
    clearbody s1. destruct (pollRead_ok (S (backlog w)) w s1) as (w2 & s2 & E & A & Hs2 & Hc2); [lia|done|done|].
    rewrite E. cbn [mbind option_bind]. pose proof (pollWrite_ok w2 s2 Hs2 Hc2) as Hp.
    destruct (pollWrite fd w2 s2) as [[out w3] s3]. destruct Hp as (A3 & Hs3 & Hc3).
    exists out, w3, s3. split; [done|]. split; [done|]. split; [done|].
    destruct (tx_accounts_trans s1 s2 s3 out A A3 Hc1) as [B1 B2 B3 B4 B5 B6 B7]. rewrite He1 in B3, B4.
    split; try done; try congruence.
    + rewrite B1, Hperm. cbn. by rewrite Permutation_app_comm.
    + cbn. by rewrite B5.
  - unfold Sock_receive.
    assert (exists w' s', (match rx_queue_ s with [] => pollRead mem fd (S (backlog w)) w s | _ => Some (w, s) end) = Some (w', s') /\
      tx_accounts s s' [] /\ Sock_inv s' /\ counters_ok s') as (w2 & s2 & E & A & Hs2 & Hc2).
    { destruct (rx_queue_ s); [apply (pollRead_if_ok true)|apply (pollRead_if_ok false)]; done. }
    rewrite E. cbn [mbind option_bind]. destruct (rx_queue_ s2) as [|rx q] eqn:Eq.
    + exists [], w2, s2. split; [done|]. split_and!; [done|done|]. by apply accounts_quiet.
    + exists [], w2, (set_rx_queue s2 q). split; [done|]. split_and!.
      * destruct Hs2 as [S1 S2 S3 S4 S5]. rewrite Eq in S5. apply Forall_cons in S5 as [_ S5]. by split.
      * done.
      * apply accounts_quiet; try done. destruct A. by split.
  - unfold Sock_poll. destruct (pollRead_if_ok rd w s Hs Hc) as (w2 & s2 & E & A & Hs2 & Hc2).
    rewrite E. cbn [mbind option_bind]. destruct wr.
    + pose proof (pollWrite_ok w2 s2 Hs2 Hc2) as Hp. destruct (pollWrite fd w2 s2) as [[out w3] s3].
      destruct Hp as (A3 & Hs3 & Hc3). exists out, w3, s3. split; [done|]. split_and!; [done|done|].
      apply accounts_quiet; try done. by eapply tx_accounts_trans.
    + exists [], w2, s2. split; [done|]. split_and!; [done|done|]. by apply accounts_quiet.
  - eexists [], w, _. split; [done|]. pose proof Hs as [S1 S2 S3 S4 S5]. split; [by split|]. split; [done|].
    apply accounts_quiet; try done. destruct Hc. split; try done; cbn; rewrite Z.add_0_r; symmetry; by apply wrap_small.
Qed.

Lemma sent_from_cons n c cs : sent_from n (c :: cs) = sent_from n [c] ++ sent_from (next_number n c) cs.
Proof. by destruct c. Qed.

Lemma count_if_app p l k : count_if p (l ++ k) = count_if p l + count_if p k.
Proof. unfold count_if. rewrite filter_app, length_app. lia. Qed.

Lemma u64_add x a b : u64 (u64 (x + a) + b) = u64 (x + (a + b)).
Proof. unfold u64, wrap. rewrite Zplus_mod_idemp_l. f_equal. lia. Qed.

Lemma sock_run_ok cs w s :
  Sock_inv s -> counters_ok s -> 0 <= tx_frame_counter_ s -> tx_frame_counter_ s + Z.of_nat (length cs) < 2 ^ 64 - 1 ->
  Forall call_ok cs ->
  exists out w' s', sock_run w s cs = Some (out, w', s') /\ Sock_inv s' /\ counters_ok s' /\
    0 <= tx_frame_counter_ s' <= tx_frame_counter_ s + Z.of_nat (length cs) /\
    out.*1 ++ tx_queue_ s' ≡ₚ tx_queue_ s ++ sent_from (tx_frame_counter_ s) cs /\ Forall in_time out /\
    TxTimeout (errors_ s') = u64 (TxTimeout (errors_ s) + count_if is_timeout out) /\
    SocketWriteFailure (errors_ s') = u64 (SocketWriteFailure (errors_ s) + count_if is_failure out) /\
    max_frames_in_socket_tx_queue_ s' = max_frames_in_socket_tx_queue_ s.
Proof.
  revert w s. induction cs as [|c cs IH]; intros w s Hs Hc Hn Hlen Hok.
  { exists [], w, s. split; [done|]. split_and!; try done; try (cbn; lia).
    - cbn. by rewrite app_nil_r.
    - destruct Hc. cbn. rewrite Z.add_0_r. symmetry. by apply wrap_small.
    - destruct Hc. cbn. rewrite Z.add_0_r. symmetry. by apply wrap_small. }
  apply Forall_cons in Hok as [Hok1 Hok]. cbn [length] in Hlen. cbn [sock_run].
  destruct (sock_call_ok w s c Hs Hc ltac:(lia) Hok1) as (o1 & w1 & s1 & E1 & Hs1 & Hc1 & [A1 A2 A3 A4 A5 A6 A7]).
  assert (tx_frame_counter_ s <= next_number (tx_frame_counter_ s) c <= tx_frame_counter_ s + 1) as Hnext by (destruct c; cbn; lia).
  destruct (IH w1 s1 Hs1 Hc1 ltac:(lia) ltac:(lia) Hok) as (o2 & w2 & s2 & E2 & Hs2 & Hc2 & B0 & B1 & B2 & B3 & B4 & B5).
  rewrite E1. cbn [mbind option_bind]. rewrite E2. cbn [mbind option_bind]. exists (o1 ++ o2), w2, s2.
  split; [done|]. split; [done|]. split; [done|]. split; [cbn [length]; lia|]. rewrite !count_if_app.
  split_and!.
  - rewrite fmap_app, <-app_assoc, B1, sent_from_cons, A6, !(app_assoc). by rewrite A2.
  - by apply Forall_app.
  - rewrite B3, A4. apply u64_add.
  - rewrite B4, A5. apply u64_add.
  - congruence.
Qed.

End accounting.

(** ** A record of the system calls *)

(** The readings of the clock and the calls of [write] with their results, in order. *)
Inductive SysCall := ClockRead (t : Z) | FrameWritten (fd : nat) (frame : can_frame) (res : Z).

(** A socket whose calls are recorded. *)
#[export] Instance recorded_ops {W} `{SocketOps W} : SocketOps (W * list SysCall) := {
  sock_getMonotonic w := let '(t, w1) := sock_getMonotonic w.1 in (t, (w1, w.2 ++ [ClockRead t]));
  sock_getPrivateAdjustment w := sock_getPrivateAdjustment w.1;
  sock_write w fd frame := let '(res, w1) := sock_write w.1 fd frame in (res, (w1, w.2 ++ [FrameWritten fd frame res]));
  sock_recvmsg w fd := let '(r, w1) := sock_recvmsg w.1 fd in (r, (w1, w.2));
  sock_ppoll w events timeout := let '(res, revents, w1) := sock_ppoll w.1 events timeout in (res, revents, (w1, w.2))
}.
#[export] Instance recorded_laws {W} `{SocketLaws W} : SocketLaws (W * list SysCall).
Proof.
  refine {| backlog := fun w => backlog w.1 |}.
  - intros [w l]. cbn. pose proof (clock_backlog w). by destruct (sock_getMonotonic w).
  - intros [w l]. cbn. pose proof (clock_range w). by destruct (sock_getMonotonic w).
  - intros [w l] fd. cbn. pose proof (recv_backlog w fd). by destruct (sock_recvmsg w fd).
  - intros [w l] fd. cbn. pose proof (recv_frames w fd). by destruct (sock_recvmsg w fd).
Defined.

(** The outcomes are what the system calls say: a frame counted as written was given to the socket of the interface once, right after a reading
    of the clock, and taken as a whole; a refused one was given to it and not taken as a whole; a dropped one was not given to it. Nothing else was written. *)
Inductive accounted (fd : nat) : list (TxItem * TxOutcome) -> list SysCall -> Prop :=
| acc_nil : accounted fd [] []
| acc_clock t out l : accounted fd out l -> accounted fd out (ClockRead t :: l)
| acc_written tx t out l : accounted fd out l ->
    accounted fd ((tx, TxWritten t) :: out) (ClockRead t :: FrameWritten fd (makeSocketCanFrame (tx_frame tx)) sizeof_can_frame :: l)
| acc_refused tx t res out l : res <> sizeof_can_frame -> accounted fd out l ->
    accounted fd ((tx, TxWriteFailed t) :: out) (ClockRead t :: FrameWritten fd (makeSocketCanFrame (tx_frame tx)) res :: l)
| acc_dropped tx t out l : accounted fd out l -> accounted fd ((tx, TxTimedOut t) :: out) (ClockRead t :: l).

Lemma accounted_app fd o1 l1 o2 l2 : accounted fd o1 l1 -> accounted fd o2 l2 -> accounted fd (o1 ++ o2) (l1 ++ l2).
Proof. intros H1 H2. induction H1; cbn; [done|..]; by constructor. Qed.

Section recording.
Context {W : Type} `{SocketLaws W} (mem : list Z) (Hmem : length mem = MaxDataLen) (Hbytes : bytes mem) (fd : nat).
Abbreviation RW := (W * list SysCall)%type.

(** An operation with these outcomes added to the record what accounts for them. *)
Definition records (w w' : RW) (out : list (TxItem * TxOutcome)) : Prop := exists l, w'.2 = w.2 ++ l /\ accounted fd out l.

Lemma records_nil w : records w w [].
Proof. exists []. split; [by rewrite app_nil_r|constructor]. Qed.
Lemma records_trans w w1 w' out out' : records w w1 out -> records w1 w' out' -> records w w' (out ++ out').
Proof. intros (l & E & Ha) (l' & E' & Ha'). exists (l ++ l'). split; [by rewrite E', E, app_assoc|by apply accounted_app]. Qed.

Lemma pollWrite_records (w : RW) s q : let '(out, w', _) := pollWrite_loop fd w s q in records w w' out.
Proof.
  revert w s. induction q as [|tx q IH]; intros [w l] s; cbn [pollWrite_loop]; [apply records_nil|]. destruct (_ <? _); [|apply records_nil].
  cbn [sock_getMonotonic recorded_ops fst snd]. destruct (sock_getMonotonic w) as [now w1]. destruct (now <=? tx_deadline tx).
  - unfold write. cbn [sock_write recorded_ops fst snd]. destruct (sock_write w1 fd (makeSocketCanFrame (tx_frame tx))) as [raw w2].
    destruct (Z.eqb_spec (if raw <=? 0 then raw else if negb (raw =? sizeof_can_frame) then -1 else 1) 1) as [E|E].
    + assert (raw = sizeof_can_frame) as -> by (destruct (Z.leb_spec raw 0); [lia|]; by destruct (Z.eqb_spec raw sizeof_can_frame)).
      match goal with |- context [pollWrite_loop fd ?x ?y q] => specialize (IH x y); destruct (pollWrite_loop fd x y q) as [[out w3] s3] end.
      destruct IH as (l' & E' & Ha). eexists. split; [cbn in *; rewrite E', <- !app_assoc; reflexivity|]. by constructor.
    + assert (raw <> sizeof_can_frame) by (intros ->; done).
      match goal with |- context [pollWrite_loop fd ?x ?y q] => specialize (IH x y); destruct (pollWrite_loop fd x y q) as [[out w3] s3] end.
      destruct IH as (l' & E' & Ha). eexists. split; [cbn in *; rewrite E', <- !app_assoc; reflexivity|]. by constructor.
  - match goal with |- context [pollWrite_loop fd ?x ?y q] => specialize (IH x y); destruct (pollWrite_loop fd x y q) as [[out w3] s3] end.
    destruct IH as (l' & E' & Ha). eexists. split; [cbn in *; rewrite E', <- !app_assoc; reflexivity|]. by constructor.
Qed.

Lemma pollRead_records fuel (w : RW) s w' s' : pollRead mem fd fuel w s = Some (w', s') -> records w w' [].
Proof.
  revert w s. induction fuel as [|fuel IH]; intros [w l] s; cbn [pollRead]; [done|].
  cbn [sock_getMonotonic recorded_ops fst snd]. destruct (sock_getMonotonic w) as [ts w1]. unfold read. cbn [sock_recvmsg recorded_ops fst snd].
  destruct (sock_recvmsg w1 fd) as [rr w2].
  assert (Hstep : records (w, l) (w2, l ++ [ClockRead ts]) []) by (exists [ClockRead ts]; split; [done|repeat constructor]).
  assert (Hgo : forall s1, pollRead mem fd fuel (w2, l ++ [ClockRead ts]) s1 = Some (w', s') -> records (w, l) w' []).
  { intros s1 E. by apply (records_trans _ _ _ [] [] Hstep), (IH _ s1). }
  destruct rr as [|res|c confirm [tv|]].
  - intros [= <- <-]. done.
  - destruct (res =? 0); [intros [= <- <-]; done|apply Hgo].
  - destruct (negb confirm && _); [intros [= <- <-]; done|]. destruct (accept_frame _ _ _). apply Hgo.
  - destruct (negb confirm && _); [intros [= <- <-]; done|apply Hgo].
Qed.

Lemma sock_call_records (w : RW) s c out w' s' : sock_call mem fd w s c = Some (out, w', s') -> records w w' out.
Proof.
  destruct c as [frame dl fl| |rd wr|cs]; cbn [sock_call].
  - unfold Sock_send. set (s1 := mkSockIface _ _ _ _ _ _ _ _). destruct (pollRead _ _ _ _ s1) as [[w2 s2]|] eqn:E; [|done]. cbn [mbind option_bind].
    unfold pollWrite. pose proof (pollWrite_records w2 s2 (tx_queue_ s2)) as Hp. destruct (pollWrite_loop fd w2 s2 _) as [[o w3] s3].
    intros [= <- <- <-]. eapply (records_trans _ _ _ []); [by eapply pollRead_records|done].
  - unfold Sock_receive. destruct (match rx_queue_ s with [] => _ | _ => _ end) as [[w2 s2]|] eqn:E; [|done]. cbn [mbind option_bind].
    assert (records w w2 []) by (destruct (rx_queue_ s); [by eapply pollRead_records|injection E as <- <-; apply records_nil]).
    destruct (rx_queue_ s2); by intros [= <- <- <-].
  - unfold Sock_poll. destruct (if rd then _ else _) as [[w2 s2]|] eqn:E; [|done]. cbn [mbind option_bind].
    assert (Hr : records w w2 []) by (destruct rd; [by eapply pollRead_records|injection E as <- <-; apply records_nil]).
    destruct wr; [|by intros [= <- <- <-]]. unfold pollWrite. pose proof (pollWrite_records w2 s2 (tx_queue_ s2)) as Hp.
    destruct (pollWrite_loop fd w2 s2 _) as [[o w3] s3]. intros [= <- <- <-]. by eapply (records_trans _ _ _ []).
  - intros [= <- <- <-]. apply records_nil.
Qed.

Lemma sock_run_records cs (w : RW) s out w' s' : sock_run mem fd w s cs = Some (out, w', s') -> records w w' out.
Proof.
  revert w s out. induction cs as [|c cs IH]; intros w s out; cbn [sock_run]; [intros [= <- <- <-]; apply records_nil|].
  destruct (sock_call mem fd w s c) as [[[o1 w1] s1]|] eqn:E1; [|done]. cbn [mbind option_bind].
  destruct (sock_run mem fd w1 s1 cs) as [[[o2 w2] s2]|] eqn:E2; [|done]. cbn [mbind option_bind]. intros [= <- <- <-].
  eapply records_trans; [by eapply sock_call_records|by eapply IH].
Qed.

(** C23: The Linux driver accounts for every frame. Whatever a socket with
    finitely much to read answers and whatever sequence of calls is made, each call returns; each frame given to
    [send] was taken from the queue once, or it still waits. By the record of the system calls, the frames
    taken from the queue were, in this order, given to the socket by their deadline and written, given to
    it by their deadline and refused (any other result than the size of a frame), or dropped after it,
    and nothing else was written; the error counters are the numbers of refused and dropped frames; the
    driver never counts more unconfirmed frames in the socket than allowed; every call takes frames in the order of bus priority, the oldest
    first among equals; received frames are well formed. *)
Theorem socketcan_accounts_for_every_frame max_frames cs w c :
  0 <= max_frames < 2 ^ 32 -> Z.of_nat (length cs) < 2 ^ 64 - 1 -> Forall call_ok cs -> call_ok c ->
  exists out w' s', sock_run mem fd (w, []) (SocketCanIface_make max_frames) cs = Some (out, w', s') /\ accounted fd out w'.2 /\
    out.*1 ++ tx_queue_ s' ≡ₚ sent_from 0 cs /\ Forall in_time out /\
    TxTimeout (errors_ s') = u64 (count_if is_timeout out) /\ SocketWriteFailure (errors_ s') = u64 (count_if is_failure out) /\
    0 <= frames_in_socket_tx_queue_ s' <= max_frames /\ Forall rx_ok (rx_queue_ s') /\
    exists out1 w1 s1, sock_call mem fd w' s' c = Some (out1, w1, s1) /\ StronglySorted tx_before (out1.*1 ++ tx_queue_ s1).
Proof.
  intros Hmax Hlen Hok Hc. assert (Sock_inv (SocketCanIface_make max_frames)) as Hs by (split; cbn; try done; [lia|apply SSorted_nil]).
  destruct (sock_run_ok mem Hmem Hbytes fd cs (w, []) (SocketCanIface_make max_frames) Hs) as (out & w' & s' & E & Hs' & Hc' & B0 & B1 & B2 & B3 & B4 & B5);
    [done|done|cbn; lia|done|]. cbn in B0.
  destruct (sock_call_ok mem Hmem Hbytes fd w' s' c Hs' Hc' ltac:(lia) Hc) as (o1 & w1 & s1 & E1 & _ & _ & A).
  destruct (sock_run_records cs (w, []) _ _ _ _ E) as (l & El & Hl). cbn in El. subst l.
  exists out, w', s'. split_and!; try done; try apply Hs'.
  - cbn in B5. pose proof (sk_frames s' Hs'). lia.
  - exists o1, w1, s1. split; [done|apply A].
Qed.
End recording.

(** ** A socket to run the driver on *)

Module SimSocket.

(** The time and the messages waiting: own frames that come back, and others,
    all extended and empty. *)
Inductive Msg := Own (id : Z) | Other (id : Z).
Definition World : Type := Z * list Msg.

Definition ext_frame (id : Z) : can_frame := mkSockFrame (CAN_EFF_FLAG + id mod 2 ^ 29) 0 (replicate 8 0).

#[export] Instance sim_socket : SocketOps World := {
  sock_getMonotonic w := (w.1 mod 2 ^ 63, (w.1 + 1, w.2));
  sock_getPrivateAdjustment _ := 0;
  sock_write w _ frame := (16, (w.1, w.2 ++ [Own (sock_id frame)]));
  sock_recvmsg w _ :=
    match w.2 with
    | [] => (RecvWouldBlock, w)
    | Own id :: l => (Received (ext_frame id) true (Some w.1), (w.1, l))
    | Other id :: l => (Received (ext_frame id) false (Some w.1), (w.1, l))
    end;
  sock_ppoll w events _ := (0, (fun _ => (true, true)) <$> events, w)
}.

Lemma ext_frame_wf id : sock_frame_wf (ext_frame id).
Proof.
  pose proof (Z.mod_pos_bound id (2 ^ 29) ltac:(lia)) as Hr. split; cbn -[Z.add].
  - unfold in_width, CAN_EFF_FLAG. lia.
  - lia.
  - split; [done|]. apply (Forall_replicate _ 8 0). split; lia.
  - intros Hf. exfalso. revert Hf. unfold CAN_EFF_FLAG. change 0x80000000 with (Z.shiftl 1 31) at 2.
    rewrite flag_testbit by lia. apply not_false_iff_true.
    replace (2147483648 + id mod 2 ^ 29) with (id mod 2 ^ 29 + 1 * 2 ^ 31) by lia.
    rewrite Z.testbit_true by lia. rewrite Z.div_add by lia. rewrite Z.div_small by lia. done.
Qed.

#[export] Instance sim_laws : SocketLaws World.
Proof.
  refine {| backlog := fun w : World => length w.2 |}.
  - intros [t l]. done.
  - intros [t l]. cbn. by apply Z.mod_pos_bound.
  - intros [t [|[id|id] l]] fd; cbn; split; auto.
  - intros [t [|[id|id] l]] fd; cbn; [done|apply ext_frame_wf|apply ext_frame_wf].
Defined.

Definition sim_frame (id : Z) : CanFrame := mkCanFrame (Z.lor id FlagEFF) (replicate 8 0) 0.
Definition example_sock_calls : list SockCall :=
  [CallSend (sim_frame 9) 100 0; CallSend (sim_frame 7) 100 1; CallPoll true true; CallSend (sim_frame 5) 0 0; CallReceive].

Lemma sim_frame_wf id : is_u32 (Z.lor id FlagEFF) -> isExtended (sim_frame id) = true -> CanFrame_wf (sim_frame id).
Proof.
  intros Hid He. split; cbn -[Z.lor]; try done; [|congruence]. apply (Forall_replicate _ 8 0). split; lia.
Qed.

Lemma example_sock_calls_ok : Forall call_ok example_sock_calls.
Proof.
  unfold example_sock_calls. rewrite !Forall_cons, Forall_nil. cbn [call_ok].
  split_and!; try done; apply sim_frame_wf; vm_compute; done.
Qed.

Lemma socketcan_accounts_for_every_frame_witness :
  exists out w' s', sock_run (replicate 8 0) 0 ((1, []) : World, []) (SocketCanIface_make 1) example_sock_calls = Some (out, w', s') /\
    accounted 0 out w'.2 /\ out.*1 ++ tx_queue_ s' ≡ₚ sent_from 0 example_sock_calls.
Proof.
  assert (Hb : bytes (replicate 8 0)) by (apply Forall_replicate; split; lia).
  destruct (socketcan_accounts_for_every_frame (replicate 8 0) eq_refl Hb 0 1 example_sock_calls (1, []) CallReceive)
    as (out & w' & s' & E & Ha & Hp & _).
  - lia.
  - reflexivity.
  - exact example_sock_calls_ok.
  - exact I.
  - exists out, w', s'. split; [exact E|]. split; [exact Ha|exact Hp].
Defined.

(** Two frames of the same identifier, sent with the loopback flag, go to the
    socket before either comes back: one of the two loopbacks is handed over. *)
Definition two_in_queue : SocketCanIface :=
  set_tx_queue (SocketCanIface_make 2) [mkTxItem (sim_frame 9) 100 1 0; mkTxItem (sim_frame 9) 100 1 1].

Example second_loopback_lost :
  let '(out, w, s) := pollWrite 0 (1, []) two_in_queue in
  length out = 2%nat /\ w.2 = [Own (Z.lor 9 CAN_EFF_FLAG); Own (Z.lor 9 CAN_EFF_FLAG)] /\
  ((fun r : World * SocketCanIface => (r.1.2, length (rx_queue_ r.2))) <$> pollRead (replicate 8 0) 0 5 w s) = Some ([], 1%nat).
Proof. vm_compute. done. Qed.

(** A frame the filters refuse hides the accepted one behind it: [receive] reports
    that there is nothing. *)
Example refused_frame_hides_next :
  exists w s, Sock_receive (replicate 8 0) 0 5 (1, [Other 3; Other 4])
    (Sock_configureFilters (SocketCanIface_make 2) [mkCanFilterConfig (Z.lor 4 FlagEFF) (Z.lor MaskExtID FlagEFF)]).2
    = Some (None, w, s) /\ w.2 = [Other 4].
Proof. eexists _, _. vm_compute. done. Qed.
End SimSocket.
