(* ===== verification/LinuxClock.v ===== *)
(** * LinuxClock: the system clock driver for Linux

    Models [SystemClock] of
    [libuavcan_drivers/linux/include/uavcan_linux/clock.hpp]. The system calls are
    the class [HostOps]; [HostLaws] says what their manual pages promise of the wall
    clock. A thrown [Exception] is a failed result. *)

From S2P Require Import Prelude MonoTime.
Local Open Scope Z_scope.

Inductive ClockAdjustmentMode := SystemWide | PerDriverPrivate.
#[export] Instance ClockAdjustmentMode_eq_dec : EqDecision ClockAdjustmentMode.
Proof. solve_decision. Defined.

Record SystemClock := mkClock {
  private_adj_ : Z;
  gradual_adj_limit_ : Z;
  adj_mode_ : ClockAdjustmentMode;
  step_adj_cnt_ : Z;
  gradual_adj_cnt_ : Z
}.

(** Times are pairs of seconds and microseconds or nanoseconds; [None] and [false]
    are failed calls. *)
Class HostOps (W : Type) := {
  host_clock_gettime : W -> option (Z * Z);
  host_gettimeofday : W -> option (Z * Z);
  host_settimeofday : W -> Z * Z -> bool * W;
  host_adjtime : W -> Z * Z -> bool * W;
  host_geteuid : W -> Z
}.

Definition Int1e6 : Z := 1000000.

Section clock.
Context {W : Type} `{HostOps W}.

(** [static ClockAdjustmentMode detectPreferredClockAdjustmentMode()]. *)
Definition detectPreferredClockAdjustmentMode (w : W) : ClockAdjustmentMode :=
  if host_geteuid w =? 0 then SystemWide else PerDriverPrivate.

Definition SystemClock_make (adj_mode : ClockAdjustmentMode) : SystemClock :=
  mkClock 0 (Duration.fromMSec 4000) adj_mode 0 0.

(** [bool performStepAdjustment(const UtcDuration adjustment)]. *)
Definition performStepAdjustment (w : W) (c : SystemClock) (adjustment : Z) : bool * W * SystemClock :=
  let c := mkClock (private_adj_ c) (gradual_adj_limit_ c) (adj_mode_ c) (u64 (step_adj_cnt_ c + 1)) (gradual_adj_cnt_ c) in
  let usec := Duration.toUSec adjustment in
  match host_gettimeofday w with
  | None => (false, w, c)
  | Some (tv_sec, tv_usec) =>
      let '(ok, w) := host_settimeofday w (i64 (tv_sec + Z.quot usec Int1e6), i64 (tv_usec + Z.rem usec Int1e6)) in
      (ok, w, c)
  end.

(** [bool performGradualAdjustment(const UtcDuration adjustment)]. *)
Definition performGradualAdjustment (w : W) (c : SystemClock) (adjustment : Z) : bool * W * SystemClock :=
  let c := mkClock (private_adj_ c) (gradual_adj_limit_ c) (adj_mode_ c) (step_adj_cnt_ c) (u64 (gradual_adj_cnt_ c + 1)) in
  let usec := Duration.toUSec adjustment in
  let '(ok, w) := host_adjtime w (Z.quot usec Int1e6, Z.rem usec Int1e6) in
  (ok, w, c).

(** [MonotonicTime getMonotonic() const] and [UtcTime getUtc() const]; [None] is an exception. *)
Definition Clock_getMonotonic (w : W) (c : SystemClock) : option Z :=
  match host_clock_gettime w with
  | None => None
  | Some (tv_sec, tv_nsec) => Some (MTime.fromUSec (u64 (u64 tv_sec * Int1e6 + Z.quot tv_nsec 1000)))
  end.

Definition Clock_getUtc (w : W) (c : SystemClock) : option Z :=
  match host_gettimeofday w with
  | None => None
  | Some (tv_sec, tv_usec) =>
      let utc := MTime.fromUSec (u64 (u64 tv_sec * Int1e6 + tv_usec)) in
      Some (if decide (adj_mode_ c = PerDriverPrivate) then MTime.plus utc (private_adj_ c) else utc)
  end.

(** [void adjustUtc(const UtcDuration adjustment)]; [false] is an exception. *)
Definition Clock_adjustUtc (w : W) (c : SystemClock) (adjustment : Z) : bool * W * SystemClock :=
  if decide (adj_mode_ c = PerDriverPrivate) then
    (true, w, mkClock (Duration.plus (private_adj_ c) adjustment) (gradual_adj_limit_ c) (adj_mode_ c)
                (step_adj_cnt_ c) (gradual_adj_cnt_ c))
  else if Duration.getAbs adjustment <? gradual_adj_limit_ c then performGradualAdjustment w c adjustment
  else performStepAdjustment w c adjustment.

(** [void setGradualAdjustmentLimit(UtcDuration limit)]. *)
Definition setGradualAdjustmentLimit (c : SystemClock) (limit : Z) : SystemClock :=
  mkClock (private_adj_ c) (if Duration.isNegative limit then 0 else limit) (adj_mode_ c) (step_adj_cnt_ c) (gradual_adj_cnt_ c).

Definition getPrivateAdjustment (c : SystemClock) : Z := private_adj_ c.
Definition getAdjustmentCount (c : SystemClock) : Z := u64 (step_adj_cnt_ c + gradual_adj_cnt_ c).
End clock.

(** ** Adjusting the clock *)

(** The wall clock of the system as [gettimeofday(2)] and [settimeofday(2)] describe
    it, in microseconds: microseconds out of range are refused. [adjtime] leaves the
    correction to be slewed. *)
Class HostLaws (W : Type) `{HostOps W} := {
  host_now : W -> Z;
  host_slew : W -> Z;
  now_range w : 0 <= host_now w < 2 ^ 62;
  gettimeofday_law w : host_gettimeofday w = Some (host_now w / Int1e6, host_now w mod Int1e6);
  settimeofday_law w sec usec :
    let '(ok, w') := host_settimeofday w (sec, usec) in
    ok = ((0 <=? sec) && (sec * Int1e6 + usec <? 2 ^ 62) && (0 <=? usec) && (usec <? Int1e6)) /\ host_slew w' = host_slew w /\
    host_now w' = if ok then sec * Int1e6 + usec else host_now w;
  adjtime_law w sec usec :
    let '(ok, w') := host_adjtime w (sec, usec) in
    ok = true /\ host_now w' = host_now w /\ host_slew w' = sec * Int1e6 + usec
}.

Section adjusting.
Context {W : Type} `{HostLaws W}.

(** In private mode the time shown moves by the adjustment and the system is left alone. *)
Lemma private_adjustment_ok w c d :
  adj_mode_ c = PerDriverPrivate -> -2 ^ 62 <= private_adj_ c <= 2 ^ 62 -> -2 ^ 62 <= private_adj_ c + d <= 2 ^ 62 ->
  0 <= host_now w + private_adj_ c -> 0 <= host_now w + private_adj_ c + d ->
  exists c', Clock_adjustUtc w c d = (true, w, c') /\ adj_mode_ c' = PerDriverPrivate /\
    private_adj_ c' = private_adj_ c + d /\
    Clock_getUtc w c = Some (host_now w + private_adj_ c) /\ Clock_getUtc w c' = Some (host_now w + private_adj_ c + d).
Proof.
  intros Hm Hr Hr' Hp Hp'. pose proof (now_range w) as Hn.
  assert (Hp2 : Duration.plus (private_adj_ c) d = private_adj_ c + d).
  { unfold Duration.plus, Duration.fromUSec. apply swrap_small; lia. }
  assert (Hutc : u64 (u64 (host_now w / Int1e6) * Int1e6 + host_now w mod Int1e6) = host_now w).
  { pose proof (Z.div_mod (host_now w) Int1e6 ltac:(done)) as E. pose proof (Z.div_pos (host_now w) Int1e6 (proj1 Hn) ltac:(done)).
    pose proof (Z.mod_pos_bound (host_now w) Int1e6 ltac:(done)).
    set (q := host_now w / Int1e6) in *. set (r := host_now w mod Int1e6) in *. clearbody q r. unfold Int1e6 in *.
    rewrite (wrap_small 64 q) by (split; lia). rewrite wrap_small by (split; lia). lia. }
  unfold Clock_adjustUtc. rewrite decide_True by done. eexists. split; [done|]. cbn [adj_mode_ private_adj_].
  unfold Clock_getUtc. rewrite gettimeofday_law. cbn [adj_mode_ private_adj_]. rewrite !decide_True by done.
  unfold MTime.fromUSec. rewrite Hutc, Hp2, !time_plus_exact by (unfold in_width, Duration.wf; lia).
  split_and!; try done. f_equal. lia.
Qed.

(** In system wide mode an adjustment below the limit is left to be slewed, in full;
    a larger one moves the wall clock by exactly the adjustment if the microseconds
    of the sum, computed field by field, do not leave their range, and throws with the
    clock unchanged otherwise. The counters tell which of the two was tried. *)
Theorem system_wide_adjustment w c d :
  adj_mode_ c = SystemWide -> -2 ^ 61 <= d <= 2 ^ 61 -> 0 <= host_now w + d < 2 ^ 61 ->
  let '(ok, w', c') := Clock_adjustUtc w c d in
  if Z.abs d <? gradual_adj_limit_ c then
    ok = true /\ host_now w' = host_now w /\ host_slew w' = d /\ gradual_adj_cnt_ c' = u64 (gradual_adj_cnt_ c + 1)
  else
    ok = (0 <=? host_now w mod Int1e6 + Z.rem d Int1e6) && (host_now w mod Int1e6 + Z.rem d Int1e6 <? Int1e6) /\
    host_now w' = (if ok then host_now w + d else host_now w) /\ host_slew w' = host_slew w /\
    step_adj_cnt_ c' = u64 (step_adj_cnt_ c + 1).
Proof.
  intros Hm Hd Hs. pose proof (now_range w) as Hn. unfold Clock_adjustUtc. rewrite decide_False by congruence.
  assert (Duration.getAbs d = Z.abs d) as ->.
  { unfold Duration.getAbs, Duration.fromUSec. destruct (Z.ltb_spec d 0); [rewrite swrap_small; lia|lia]. }
  pose proof (Z.quot_rem' d Int1e6) as Eq. pose proof (Z.rem_bound_abs d Int1e6 ltac:(done)) as Hrem.
  assert (Z.abs (Z.rem d Int1e6) < Int1e6) as Hrem' by (unfold Int1e6 in *; lia).
  destruct (_ <? _) eqn:E.
  - unfold performGradualAdjustment, Duration.toUSec. pose proof (adjtime_law w (Z.quot d Int1e6) (Z.rem d Int1e6)) as A.
    destruct (host_adjtime _ _) as [ok w']. destruct A as (-> & ? & ?). cbn. split_and!; try done. lia.
  - unfold performStepAdjustment, Duration.toUSec. rewrite gettimeofday_law.
    pose proof (Z.div_mod (host_now w) Int1e6 ltac:(done)) as Edm. pose proof (Z.div_pos (host_now w) Int1e6 (proj1 Hn) ltac:(done)).
    pose proof (Z.mod_pos_bound (host_now w) Int1e6 ltac:(done)) as Hmod.
    set (q := host_now w / Int1e6) in *. set (r := host_now w mod Int1e6) in *. clearbody q r.
    unfold Int1e6 in *. rewrite !swrap_small by lia.
    pose proof (settimeofday_law w (q + Z.quot d 1000000) (r + Z.rem d 1000000)) as A.
    destruct (host_settimeofday _ _) as [ok w']. destruct A as (Hok & Hsl & Hnow). cbn [step_adj_cnt_]. unfold Int1e6 in *.
    assert (Hok' : ok = (0 <=? r + Z.rem d 1000000) && (r + Z.rem d 1000000 <? 1000000)).
    { rewrite Hok. apply eq_true_iff_eq. rewrite !andb_true_iff, !Z.leb_le, !Z.ltb_lt. lia. }
    split_and!; try done. rewrite Hnow. destruct ok; lia.
Qed.
End adjusting.

(** ** A clock to run the driver on *)

Module SimHost.
(** The wall clock and what is left to be slewed. *)
Record Host := mkHost { sim_now : Z; sim_slew : Z }.

#[export] Instance sim_host : HostOps Host := {
  host_clock_gettime w := Some (sim_now w / Int1e6, sim_now w mod Int1e6 * 1000);
  host_gettimeofday w := Some (sim_now w mod 2 ^ 62 / Int1e6, sim_now w mod 2 ^ 62 mod Int1e6);
  host_settimeofday w tv :=
    if (0 <=? tv.1) && (tv.1 * Int1e6 + tv.2 <? 2 ^ 62) && (0 <=? tv.2) && (tv.2 <? Int1e6)
    then (true, mkHost (tv.1 * Int1e6 + tv.2) (sim_slew w)) else (false, w);
  host_adjtime w tv := (true, mkHost (sim_now w) (tv.1 * Int1e6 + tv.2));
  host_geteuid _ := 0
}.

#[export] Instance sim_host_laws : HostLaws Host.
Proof.
  refine {| host_now := fun w => sim_now w mod 2 ^ 62; host_slew := sim_slew |}.
  - intros w. by apply Z.mod_pos_bound.
  - done.
  - intros w sec usec. cbn -[Z.mul Z.modulo Z.pow]. destruct (_ && _) eqn:E; [|done]. cbn -[Z.mul Z.modulo Z.pow].
    split_and!; try done. rewrite !andb_true_iff, !Z.leb_le, !Z.ltb_lt in E. apply Z.mod_small. unfold Int1e6 in *. lia.
  - done.
Defined.

Lemma system_wide_adjustment_witness :
  let '(ok, w', _) := Clock_adjustUtc (mkHost 5000000 0) (SystemClock_make SystemWide) 7000000 in
  ok = true /\ host_now w' = 12000000.
Proof.
  pose proof (system_wide_adjustment (mkHost 5000000 0) (SystemClock_make SystemWide) 7000000 eq_refl) as A.
  assert (0 <= host_now (mkHost 5000000 0) + 7000000 < 2 ^ 61) as Hs by (split; [by vm_compute|reflexivity]).
  specialize (A ltac:(lia) Hs). destruct (Clock_adjustUtc _ _ _) as [[ok w'] c'] eqn:E.
  change (Z.abs 7000000 <? gradual_adj_limit_ (SystemClock_make SystemWide)) with false in A. cbv iota in A.
  destruct A as (-> & -> & _). split; reflexivity.
Defined.

(** A step of 5.2 seconds at 1.9 seconds past midnight is refused. *)
Example step_adjustment_throws :
  let '(ok, w', _) := Clock_adjustUtc (mkHost 1900000 0) (SystemClock_make SystemWide) 5200000 in
  ok = false /\ host_now w' = 1900000.
Proof. vm_compute. done. Qed.
End SimHost.
