(* ===== verification/TimeSync.v ===== *)
(** * TimeSync: network-wide synchronisation of clocks

    Models [GlobalTimeSyncMaster] and [GlobalTimeSyncSlave]
    ([libuavcan/include/uavcan/protocol/global_time_sync_master.hpp],
    [libuavcan/include/uavcan/protocol/global_time_sync_slave.hpp]). A master broadcasts messages, each with
    the exact time the previous one left, which it has from the loopback; a slave
    notes when a message came and adjusts its clock by the difference when the next
    one tells when that was. The constants of the data type [GlobalTimeSync] are the
    class [SyncConstants]; the node of the master is the class [SyncNode], the clock
    of the slave the class [UtcClock], which the Linux clock implements. *)

From stdpp Require Import list.
From S2P Require Import Prelude MonoTime CanFrame Transfer Frame OutgoingTransferRegistry CanIO TransferSender LinuxClock.
Local Open Scope Z_scope.

(** Constants of [uavcan.protocol.GlobalTimeSync], in milliseconds. *)
Class SyncConstants := {
  MAX_BROADCASTING_PERIOD_MS : Z;
  MIN_BROADCASTING_PERIOD_MS : Z;
  RECOMMENDED_BROADCASTER_TIMEOUT_MS : Z
}.

(** What the master uses of its node: the clock, the search of the data type by
    name, the publisher of an interface ([init] and [broadcast]), the registry of
    outgoing transfers (see [Otr_next]), the number of interfaces. *)
Class SyncNode (W : Type) := {
  sn_getMonotonicTime : W -> Z;
  sn_find_data_type : W -> option Z;
  sn_pub_init : W -> Z -> Z -> Z * W;
  sn_broadcast : W -> Z -> Z -> Z -> Z -> Z * W;
  sn_next_tid : W -> OutgoingTransferRegistryKey -> Z -> option Z * W;
  sn_getNumIfaces : W -> Z;
  sn_getNodeID : W -> Z;
  sn_registerInternalFailure : W -> W;
  sn_startListening : W -> W
}.

(** ** The master *)

(** [IfaceMaster]; the settings of the transfer sender of [pub_] are its
    interface mask and its flags. *)
Record IfaceMaster := mkIfaceMaster {
  pub_iface_mask : Z;
  pub_io_flags : Z;
  iface_prev_pub_mono_ : Z;
  prev_tx_utc_ : Z;
  im_iface_index_ : Z
}.

Definition IfaceMaster_make (iface_index : Z) : IfaceMaster := mkIfaceMaster AllIfacesMask 0 0 0 iface_index.
Definition set_prev_tx_utc (m : IfaceMaster) (ts : Z) : IfaceMaster :=
  mkIfaceMaster (pub_iface_mask m) (pub_io_flags m) (iface_prev_pub_mono_ m) ts (im_iface_index_ m).

Record GlobalTimeSyncMaster := mkMaster {
  iface_masters_ : list (option IfaceMaster);
  prev_pub_mono_ : Z;
  dtid_ : Z;
  initialized_ : bool
}.
Definition GlobalTimeSyncMaster_make : GlobalTimeSyncMaster :=
  mkMaster (replicate (Z.to_nat MaxCanIfaces) None) 0 DataTypeID.default false.

Section master.
Context `{SyncConstants} {W : Type} `{SyncNode W}.

(** [int IfaceMaster::init(TransferPriority priority)]. *)
Definition IfaceMaster_init (w : W) (m : IfaceMaster) (priority : Z) : Z * W * IfaceMaster :=
  let '(res, w) := sn_pub_init w (im_iface_index_ m) priority in
  (res, w, if 0 <=? res
           then mkIfaceMaster (u8 (Z.shiftl 1 (im_iface_index_ m))) CanIOFlagLoopback (iface_prev_pub_mono_ m) (prev_tx_utc_ m) (im_iface_index_ m)
           else m).

(** [void IfaceMaster::setTxTimestamp(UtcTime ts)]. *)
Definition setTxTimestamp (w : W) (m : IfaceMaster) (ts : Z) : W * IfaceMaster :=
  if MTime.isZero ts then (sn_registerInternalFailure w, m)
  else if negb (MTime.isZero (prev_tx_utc_ m)) then (sn_registerInternalFailure w, set_prev_tx_utc m 0)
  else (w, set_prev_tx_utc m ts).

(** [int IfaceMaster::publish(TransferID tid, MonotonicTime current_time)]. *)
Definition IfaceMaster_publish (w : W) (m : IfaceMaster) (tid current_time : Z) : Z * W * IfaceMaster :=
  let since_prev_pub := MTime.minus current_time (iface_prev_pub_mono_ m) in
  let long_period := MAX_BROADCASTING_PERIOD_MS <=? Duration.toMSec since_prev_pub in
  let msg := if long_period then 0 else prev_tx_utc_ m in
  let m := mkIfaceMaster (pub_iface_mask m) (pub_io_flags m) current_time 0 (im_iface_index_ m) in
  let '(res, w) := sn_broadcast w (pub_iface_mask m) (pub_io_flags m) msg tid in
  (res, w, m).

(** [virtual void handleLoopbackFrame(const RxFrame& frame)]. [None] is an access to
    an interface master that was not constructed, as below. *)
Definition handleLoopbackFrame (w : W) (s : GlobalTimeSyncMaster) (frame : RxFrame) : option (W * GlobalTimeSyncMaster) :=
  let iface := iface_index_ frame in
  if initialized_ s && (iface <? MaxCanIfaces) then
    let f := rx_frame frame in
    if (data_type_id_ f =? dtid_ s) && bool_decide (transfer_type_ f = TransferTypeMessageBroadcast) &&
       start_of_transfer_ f && end_of_transfer_ f && (src_node_id_ f =? sn_getNodeID w) then
      m ← mjoin (iface_masters_ s !! Z.to_nat iface);
      let '(w, m) := setTxTimestamp w m (ts_utc_ frame) in
      Some (w, mkMaster (<[Z.to_nat iface := Some m]> (iface_masters_ s)) (prev_pub_mono_ s) (dtid_ s) (initialized_ s))
    else Some (w, s)
  else Some (w, s).

(** [int getNextTransferID(TransferID& tid)]. *)
Definition getNextTransferID (w : W) (s : GlobalTimeSyncMaster) : Z * Z * W :=
  let max_transfer_interval := Duration.fromMSec MAX_BROADCASTING_PERIOD_MS in
  let otr_key := OtrKey_make (dtid_ s) TransferTypeMessageBroadcast NodeID.Broadcast in
  let otr_deadline := MTime.plus (sn_getMonotonicTime w) max_transfer_interval in
  match sn_next_tid w otr_key otr_deadline with
  | (None, w) => (- ErrMemory, TransferID.default, w)
  | (Some tid, w) => (0, tid, w)
  end.

(** The loop of [init] over the interfaces, [n] of them from [i] on. *)
Fixpoint init_ifaces (n i : nat) (w : W) (ms : list (option IfaceMaster)) (priority res : Z) : Z * W * list (option IfaceMaster) :=
  match n with
  | O => (res, w, ms)
  | S n =>
      let m := match ms !! i with Some (Some m) => m | _ => IfaceMaster_make (Z.of_nat i) end in
      let '(res, w, m) := IfaceMaster_init w m priority in
      let ms := <[i := Some m]> ms in
      if res <? 0 then (res, w, ms) else init_ifaces n (S i) w ms priority res
  end.

(** [int init(const TransferPriority priority)]. *)
Definition Master_init (w : W) (s : GlobalTimeSyncMaster) (priority : Z) : Z * W * GlobalTimeSyncMaster :=
  if initialized_ s then (0, w, s)
  else
    match sn_find_data_type w with
    | None => (- ErrUnknownDataType, w, s)
    | Some dtid =>
        let '(res, w, ms) := init_ifaces (Z.to_nat MaxCanIfaces) 0 w (iface_masters_ s) priority (- ErrLogic) in
        let s := mkMaster ms (prev_pub_mono_ s) dtid (0 <=? res) in
        (res, if 0 <=? res then sn_startListening w else w, s)
    end.

(** The loop of [publish] over the interfaces. *)
Fixpoint publish_ifaces (n i : nat) (w : W) (ms : list (option IfaceMaster)) (tid current_time : Z) :
    option (Z * W * list (option IfaceMaster)) :=
  match n with
  | O => Some (0, w, ms)
  | S n =>
      m ← mjoin (ms !! i);
      let '(res, w, m) := IfaceMaster_publish w m tid current_time in
      let ms := <[i := Some m]> ms in
      if res <? 0 then Some (res, w, ms) else publish_ifaces n (S i) w ms tid current_time
  end.

(** [int publish()]. *)
Definition Master_publish (w : W) (s : GlobalTimeSyncMaster) : option (Z * W * GlobalTimeSyncMaster) :=
  let '(res, w, s) := if initialized_ s then (0, w, s) else Master_init w s TransferPriority.OneLowerThanHighest in
  if res <? 0 then Some (res, w, s)
  else
    let current_time := sn_getMonotonicTime w in
    let since_prev_pub := MTime.minus current_time (prev_pub_mono_ s) in
    if Duration.toMSec since_prev_pub <? MIN_BROADCASTING_PERIOD_MS then Some (0, w, s)
    else
      let s := mkMaster (iface_masters_ s) current_time (dtid_ s) (initialized_ s) in
      let '(tid_res, tid, w) := getNextTransferID w s in
      if tid_res <? 0 then Some (tid_res, w, s)
      else
        '(res, w, ms) ← publish_ifaces (Z.to_nat (sn_getNumIfaces w)) 0 w (iface_masters_ s) tid current_time;
        Some (res, w, mkMaster ms (prev_pub_mono_ s) (dtid_ s) (initialized_ s)).
End master.

(** ** The slave *)

(** The clock of the slave: the UTC time it shows when the host clock is at [t],
    and [ISystemClock::adjustUtc]. *)
Class UtcClock (C : Type) := {
  clk_utc : C -> Z -> Z;
  clk_adjustUtc : C -> Z -> C
}.

Inductive SyncState := StUpdate | StAdjust.
#[export] Instance SyncState_eq_dec : EqDecision SyncState.
Proof. solve_decision. Defined.

(** [ReceivedDataStructure<GlobalTimeSync>]. *)
Record ReceivedSync := mkSync {
  previous_transmission_timestamp_usec : Z;
  sm_src : Z;
  sm_iface : Z;
  sm_tid : Z;
  sm_type : TransferType;
  sm_ts_mono : Z;
  sm_ts_utc : Z
}.

Record GlobalTimeSyncSlave := mkSlave {
  prev_ts_utc_ : Z;
  prev_ts_mono_ : Z;
  last_adjustment_ts_ : Z;
  state_ : SyncState;
  master_nid_ : Z;
  sl_prev_tid_ : Z;
  prev_iface_index_ : Z;
  suppressed_ : bool
}.
Definition GlobalTimeSyncSlave_make : GlobalTimeSyncSlave :=
  mkSlave 0 0 0 StUpdate NodeID.default TransferID.default 0xFF false.

Section slave.
Context `{SyncConstants} {C : Type} `{UtcClock C}.

(** [void adjustFromMsg(const ReceivedDataStructure<GlobalTimeSync>& msg)]. *)
Definition adjustFromMsg (c : C) (s : GlobalTimeSyncSlave) (msg : ReceivedSync) : C * GlobalTimeSyncSlave :=
  let adjustment := MTime.minus (MTime.fromUSec (previous_transmission_timestamp_usec msg)) (prev_ts_utc_ s) in
  (if suppressed_ s then c else clk_adjustUtc c adjustment,
   mkSlave (prev_ts_utc_ s) (prev_ts_mono_ s) (sm_ts_mono msg) StUpdate (master_nid_ s) (sl_prev_tid_ s) (prev_iface_index_ s) (suppressed_ s)).

(** [void updateFromMsg(const ReceivedDataStructure<GlobalTimeSync>& msg)]. *)
Definition updateFromMsg (s : GlobalTimeSyncSlave) (msg : ReceivedSync) : GlobalTimeSyncSlave :=
  mkSlave (sm_ts_utc msg) (sm_ts_mono msg) (last_adjustment_ts_ s) StAdjust (sm_src msg) (sm_tid msg) (sm_iface msg) (suppressed_ s).

(** [void processMsg(const ReceivedDataStructure<GlobalTimeSync>& msg)]. *)
Definition processMsg (c : C) (s : GlobalTimeSyncSlave) (msg : ReceivedSync) : C * GlobalTimeSyncSlave :=
  let since_prev_msg := MTime.minus (sm_ts_mono msg) (prev_ts_mono_ s) in
  let needs_init := negb (NodeID.isValid (master_nid_ s)) || MTime.isZero (prev_ts_mono_ s) in
  let switch_master := sm_src msg <? master_nid_ s in
  let pub_timeout := RECOMMENDED_BROADCASTER_TIMEOUT_MS <? Duration.toMSec since_prev_msg in
  if switch_master || pub_timeout || needs_init then (c, updateFromMsg s msg)
  else if (sm_iface msg =? prev_iface_index_ s) && (sm_src msg =? master_nid_ s) then
    let msg_invalid := previous_transmission_timestamp_usec msg =? 0 in
    let wrong_tid := negb (TransferID.computeForwardDistance (sl_prev_tid_ s) (sm_tid msg) =? 1) in
    let wrong_timing := MAX_BROADCASTING_PERIOD_MS <? Duration.toMSec since_prev_msg in
    let state := if bool_decide (state_ s = StAdjust) && (msg_invalid || wrong_tid || wrong_timing) then StUpdate else state_ s in
    match state with
    | StAdjust => adjustFromMsg c s msg
    | StUpdate => (c, updateFromMsg s msg)
    end
  else (c, s).

(** [void handleGlobalTimeSync(const ReceivedDataStructure<GlobalTimeSync>& msg)]. *)
Definition handleGlobalTimeSync (c : C) (s : GlobalTimeSyncSlave) (msg : ReceivedSync) : C * GlobalTimeSyncSlave :=
  if bool_decide (sm_type msg = TransferTypeMessageBroadcast) then processMsg c s msg else (c, s).

(** [void suppress(bool)], [bool isActive() const], [NodeID getMasterNodeID() const]; [now] is the monotonic time. *)
Definition suppress (s : GlobalTimeSyncSlave) (suppressed : bool) : GlobalTimeSyncSlave :=
  mkSlave (prev_ts_utc_ s) (prev_ts_mono_ s) (last_adjustment_ts_ s) (state_ s) (master_nid_ s) (sl_prev_tid_ s) (prev_iface_index_ s) suppressed.
Definition isActive (now : Z) (s : GlobalTimeSyncSlave) : bool :=
  let since_prev_adj := MTime.minus now (last_adjustment_ts_ s) in
  negb (MTime.isZero (last_adjustment_ts_ s)) && (Duration.toMSec since_prev_adj <=? RECOMMENDED_BROADCASTER_TIMEOUT_MS).
Definition getMasterNodeID (now : Z) (s : GlobalTimeSyncSlave) : Z := if isActive now s then master_nid_ s else NodeID.default.
End slave.

(** ** A network with a master, a slave and other masters *)

(** The node of the master: its clock, the entry of the registry of outgoing
    transfers (deadline and next transfer ID), and what was broadcast: interface
    mask, time stamp and transfer ID. *)
Record MasterWorld := mkWorld {
  mw_mono : Z;
  mw_otr : option (Z * Z);
  mw_out : list (Z * Z * Z);
  mw_node_id : Z;
  mw_dtid : Z;
  mw_num_ifaces : Z;
  mw_failures : Z
}.
Definition mw_set_otr (w : MasterWorld) (o : option (Z * Z)) : MasterWorld :=
  mkWorld (mw_mono w) o (mw_out w) (mw_node_id w) (mw_dtid w) (mw_num_ifaces w) (mw_failures w).

#[export] Instance master_world : SyncNode MasterWorld := {
  sn_getMonotonicTime := mw_mono;
  sn_find_data_type w := Some (mw_dtid w);
  sn_pub_init w _ _ := (0, w);
  sn_broadcast w mask _ msg tid :=
    (1, mkWorld (mw_mono w) (mw_otr w) (mw_out w ++ [(mask, msg, tid)]) (mw_node_id w) (mw_dtid w) (mw_num_ifaces w) (mw_failures w));
  sn_next_tid w _ deadline :=
    let tid := match mw_otr w with Some (_, tid) => tid | None => TransferID.default end in
    (Some tid, mw_set_otr w (Some (deadline, TransferID.increment tid)));
  sn_getNumIfaces := mw_num_ifaces;
  sn_getNodeID := mw_node_id;
  sn_registerInternalFailure w :=
    mkWorld (mw_mono w) (mw_otr w) (mw_out w) (mw_node_id w) (mw_dtid w) (mw_num_ifaces w) (mw_failures w + 1);
  sn_startListening w := w
}.

(** The next event begins: the clock advances, the registry may be cleaned up. *)
Definition mw_begin (w : MasterWorld) (now : Z) (cleanup : bool) : MasterWorld :=
  let otr := match mw_otr w with
             | Some (deadline, _) => if cleanup && (deadline <=? now) then None else mw_otr w
             | None => None
             end in
  mkWorld now otr [] (mw_node_id w) (mw_dtid w) (mw_num_ifaces w) (mw_failures w).

(** The master publishes at [t_pub], and its frame is on the bus of the slave at [t_bus],
    where the slave receives it or not; another master is heard. *)
Inductive NetEvent :=
| EvSync (t_pub t_bus : Z) (cleanup received : bool)
| EvOther (t prev src iface tid : Z).

Record Net (C : Type) := mkNet { n_world : MasterWorld; n_master : GlobalTimeSyncMaster; n_clock : C; n_slave : GlobalTimeSyncSlave }.
Arguments mkNet {_}.
Arguments n_world {_}.
Arguments n_master {_}.
Arguments n_clock {_}.
Arguments n_slave {_}.

Section net.
Context `{SyncConstants} {C : Type} `{UtcClock C}.
(** The bus the slave is on; the UTC and monotonic clocks of the master and the
    monotonic clock of the slave, relative to the host clock of the slave. *)
Context (bus : nat) (utc_m mono_m mono_s : Z).

Definition loopback_frame (w : MasterWorld) (ts_utc : Z) : RxFrame :=
  mkRxFrame (mkFrame [] 0 TransferTypeMessageBroadcast (mw_dtid w) 0 (mw_node_id w) NodeID.Broadcast 0 true true false) 0 ts_utc (Z.of_nat bus).

Definition net_step (n : Net C) (e : NetEvent) : option (Net C) :=
  match e with
  | EvSync t_pub t_bus cleanup received =>
      '(_, w, m) ← Master_publish (mw_begin (n_world n) (t_pub + mono_m) cleanup) (n_master n);
      match List.find (fun x => Z.testbit x.1.1 (Z.of_nat bus)) (mw_out w) with
      | None => Some (mkNet w m (n_clock n) (n_slave n))
      | Some (_, prev, tid) =>
          '(w, m) ← handleLoopbackFrame w m (loopback_frame w (t_bus + utc_m));
          let msg := mkSync prev (mw_node_id w) (Z.of_nat bus) tid TransferTypeMessageBroadcast (t_bus + mono_s) (clk_utc (n_clock n) t_bus) in
          let '(c, s) := if received then handleGlobalTimeSync (n_clock n) (n_slave n) msg else (n_clock n, n_slave n) in
          Some (mkNet w m c s)
      end
  | EvOther t prev src iface tid =>
      let msg := mkSync prev src iface tid TransferTypeMessageBroadcast (t + mono_s) (clk_utc (n_clock n) t) in
      let '(c, s) := handleGlobalTimeSync (n_clock n) (n_slave n) msg in
      Some (mkNet (n_world n) (n_master n) c s)
  end.

Fixpoint net_run (n : Net C) (evs : list NetEvent) : option (Net C) :=
  match evs with
  | [] => Some n
  | e :: evs => n ← net_step n e; net_run n evs
  end.
End net.

(** *** The master, seen from one bus *)

(** The publication times and the time stamp kept for the bus. *)
Record MasterView := mkView { v_pub : Z; v_tx : Z; v_otr : option (Z * Z) }.

Section master_ok.
Context `{SyncConstants} (bus : nat) (Hbus : (bus < Z.to_nat MaxCanIfaces)%nat).

(** All interface masters are initialized at their places, and those in use
    published together. *)
Record masters_ok (w : MasterWorld) (s : GlobalTimeSyncMaster) : Prop := {
  mo_len : length (iface_masters_ s) = Z.to_nat MaxCanIfaces;
  mo_num : 0 <= mw_num_ifaces w <= MaxCanIfaces;
  mo_bus : Z.of_nat bus < mw_num_ifaces w;
  mo_init : initialized_ s = true -> dtid_ s = mw_dtid w /\
    forall j, (j < Z.to_nat MaxCanIfaces)%nat -> exists m, iface_masters_ s !! j = Some (Some m) /\
      pub_iface_mask m = u8 (Z.shiftl 1 (Z.of_nat j)) /\
      (Z.of_nat j < mw_num_ifaces w -> iface_prev_pub_mono_ m = prev_pub_mono_ s);
  mo_fresh : initialized_ s = false -> s = GlobalTimeSyncMaster_make
}.

Definition view (w : MasterWorld) (s : GlobalTimeSyncMaster) : MasterView :=
  mkView (prev_pub_mono_ s) match mjoin (iface_masters_ s !! bus) with Some m => prev_tx_utc_ m | None => 0 end (mw_otr w).

Abbreviation find_out w := (List.find (fun x : Z * Z * Z => Z.testbit x.1.1 (Z.of_nat bus)) (mw_out w)).

(** Publication, as the bus sees it: the message, if any, and the new state. *)
Definition view_publish (v : MasterView) (now : Z) : option (Z * Z) * MasterView :=
  if Duration.toMSec (MTime.minus now (v_pub v)) <? MIN_BROADCASTING_PERIOD_MS then (None, v)
  else
    let tid := match v_otr v with Some (_, tid) => tid | None => TransferID.default end in
    (Some (if MAX_BROADCASTING_PERIOD_MS <=? Duration.toMSec (MTime.minus now (v_pub v)) then 0 else v_tx v, tid),
     mkView now 0 (Some (MTime.plus now (Duration.fromMSec MAX_BROADCASTING_PERIOD_MS), TransferID.increment tid))).

Lemma Master_init_fresh w :
  Master_init w GlobalTimeSyncMaster_make TransferPriority.OneLowerThanHighest =
  (0, w, mkMaster [Some (mkIfaceMaster 1 1 0 0 0); Some (mkIfaceMaster 2 1 0 0 1); Some (mkIfaceMaster 4 1 0 0 2)] 0 (mw_dtid w) true).
Proof. reflexivity. Qed.

Lemma publish_ready w s :
  masters_ok w s -> initialized_ s = true -> mw_out w = [] ->
  exists w' s', Master_publish w s = Some (0, w', s') /\ masters_ok w' s' /\ mw_node_id w' = mw_node_id w /\ mw_dtid w' = mw_dtid w /\
    initialized_ s' = true /\
    match view_publish (view w s) (mw_mono w) with
    | (msg, v') => view w' s' = v' /\ (fun x => (x.1.2, x.2)) <$> find_out w' = msg
    end.
Proof using Hbus.
  intros Hok Hinit Hout. pose proof Hok as [Hl Hn Hb Hi _]. specialize (Hi Hinit) as [Hd Hms]. unfold view_publish, view, Master_publish.
  rewrite Hinit. cbn [v_pub v_otr v_tx]. cbn [Z.ltb Z.compare]. cbn [sn_getMonotonicTime master_world].
  destruct (_ <? MIN_BROADCASTING_PERIOD_MS) eqn:Et.
  { exists w, s. rewrite Hout. split_and!; done. }
  clear Hok. change (Z.to_nat MaxCanIfaces) with 3%nat in *.
  destruct (Hms 0%nat ltac:(lia)) as (m0 & E0 & K0 & P0). destruct (Hms 1%nat ltac:(lia)) as (m1 & E1 & K1 & P1).
  destruct (Hms 2%nat ltac:(lia)) as (m2 & E2 & K2 & P2).
  destruct s as [ms pub dtid ini]. cbn [iface_masters_ prev_pub_mono_ dtid_ initialized_] in *.
  destruct ms as [|? [|? [|? [|]]]]; try discriminate Hl. cbn in E0, E1, E2. simplify_eq.
  destruct w as [mono otr out nid dt num fl]. cbn [mw_mono mw_otr mw_out mw_node_id mw_dtid mw_num_ifaces mw_failures] in *. subst.
  unfold getNextTransferID. cbn [sn_next_tid sn_getMonotonicTime sn_getNumIfaces master_world mw_mono mw_otr mw_set_otr
    mw_out mw_node_id mw_dtid mw_num_ifaces mw_failures].
  set (tid := match otr with Some (_, tid) => tid | None => _ end). clearbody tid. set (dl := MTime.plus _ _). clearbody dl.
  change (0 <? 0) with false. cbv iota.
  assert (num = 1 \/ num = 2 \/ num = 3) as Hnum by (unfold MaxCanIfaces in *; lia).
  destruct m0 as [mk0 fl0 pp0 tx0 ix0], m1 as [mk1 fl1 pp1 tx1 ix1], m2 as [mk2 fl2 pp2 tx2 ix2].
  cbn [pub_iface_mask iface_prev_pub_mono_] in *.
  change (mk0 = 1) in K0. change (mk1 = 2) in K1. change (mk2 = 4) in K2. subst mk0 mk1 mk2.
  destruct Hnum as [-> | [-> | ->]]; try rewrite P0 in * by done; try rewrite P1 in * by done; try rewrite P2 in * by done;
    [change (Z.to_nat 1) with 1%nat|change (Z.to_nat 2) with 2%nat|change (Z.to_nat 3) with 3%nat];
    unfold publish_ifaces, IfaceMaster_publish;
    cbn [lookup list_lookup mbind option_bind mjoin option_join insert list_insert mw_set_otr sn_broadcast master_world
         mw_mono mw_otr mw_out mw_node_id mw_dtid mw_num_ifaces mw_failures iface_prev_pub_mono_ prev_tx_utc_ pub_iface_mask pub_io_flags
         im_iface_index_ Z.ltb Z.compare app];
    (eexists _, _; split_and!;
      [reflexivity
      |split; try done; intros _; cbn [dtid_ mw_dtid iface_masters_ prev_pub_mono_ mw_num_ifaces]; (split; [done|]);
       intros [|[|[|j]]] Hj; [..|exfalso; change (Z.to_nat MaxCanIfaces) with 3%nat in Hj; lia];
       eexists; (split; [reflexivity|]); cbn; split; try done; lia
      |reflexivity|reflexivity|reflexivity
      |unfold view; cbn; destruct bus as [|[|[|]]]; try lia; reflexivity
      |cbn; destruct bus as [|[|[|]]]; try lia; reflexivity]).
Qed.

Lemma publish_ok w s :
  masters_ok w s -> mw_out w = [] ->
  exists w' s', Master_publish w s = Some (0, w', s') /\ masters_ok w' s' /\ mw_node_id w' = mw_node_id w /\ mw_dtid w' = mw_dtid w /\
    initialized_ s' = true /\
    match view_publish (view w s) (mw_mono w) with
    | (msg, v') => view w' s' = v' /\ (fun x => (x.1.2, x.2)) <$> find_out w' = msg
    end.
Proof using Hbus.
  intros Hok Hout. destruct (initialized_ s) eqn:Hi; [by apply publish_ready|].
  pose proof (mo_fresh _ _ Hok Hi) as ->. pose proof (Master_init_fresh w) as Ei.
  set (s1 := mkMaster _ 0 (mw_dtid w) true) in Ei.
  assert (Hok1 : masters_ok w s1).
  { destruct Hok. split; try done. intros _. split; [done|]. intros [|[|[|j]]] Hj; [..|change (Z.to_nat MaxCanIfaces) with 3%nat in Hj; lia];
      eexists; split; try reflexivity; split; reflexivity. }
  assert (view w GlobalTimeSyncMaster_make = view w s1) as ->.
  { unfold view, s1. change (Z.to_nat MaxCanIfaces) with 3%nat in Hbus. destruct bus as [|[|[|]]]; try lia; reflexivity. }
  destruct (publish_ready w s1 Hok1 eq_refl Hout) as (w' & s' & E & A). exists w', s'. split; [|exact A]. rewrite <-E.
  unfold Master_publish. cbn [initialized_ GlobalTimeSyncMaster_make s1]. by rewrite Ei.
Qed.

Lemma loopback_ok w s ts :
  masters_ok w s -> initialized_ s = true -> ts <> 0 -> v_tx (view w s) = 0 ->
  exists s', handleLoopbackFrame w s (loopback_frame bus w ts) = Some (w, s') /\ masters_ok w s' /\ initialized_ s' = true /\
    view w s' = mkView (v_pub (view w s)) ts (v_otr (view w s)).
Proof using Hbus.
  intros Hok Hi Hts Htx. pose proof Hok as [Hl Hn Hb Hin Hf]. destruct (Hin Hi) as [Hd Hms].
  destruct (Hms bus Hbus) as (m & Em & Hm & Hp).
  unfold handleLoopbackFrame, loopback_frame. cbn [iface_index_ rx_frame data_type_id_ transfer_type_ start_of_transfer_ end_of_transfer_ src_node_id_ ts_utc_].
  rewrite Hi, Hd, Z.eqb_refl. replace (Z.of_nat bus <? MaxCanIfaces) with true by (unfold MaxCanIfaces in *; lia).
  cbn [sn_getNodeID master_world]. rewrite Z.eqb_refl, bool_decide_true by done. cbn [andb].
  rewrite Nat2Z.id, Em. cbn [mjoin option_join mbind option_bind]. unfold view in *. rewrite Em in *. cbn [mjoin option_join v_tx v_pub v_otr] in *.
  unfold setTxTimestamp, MTime.isZero. rewrite (proj2 (Z.eqb_neq ts 0) Hts), Htx. cbn [negb Z.eqb].
  eexists. split; [reflexivity|]. cbn [initialized_]. split_and!; [|done|].
  - split; cbn [iface_masters_ initialized_ dtid_ prev_pub_mono_]; try done; [by rewrite length_insert|]. intros _. split; [done|].
    intros j Hj. destruct (decide (j = bus)) as [->|Hne].
    + rewrite list_lookup_insert_eq by lia. eexists. split; [done|]. cbn. by split.
    + rewrite list_lookup_insert_ne by done. by apply Hms.
  - cbn [prev_pub_mono_ iface_masters_]. rewrite list_lookup_insert_eq by lia. done.
Qed.
End master_ok.

(** *** The slave follows the master *)

(** What the constants of the data type satisfy. *)
Class SyncConstantsLaws `{SyncConstants} := {
  min_positive : 1 <= MIN_BROADCASTING_PERIOD_MS;
  max_bound : MIN_BROADCASTING_PERIOD_MS <= MAX_BROADCASTING_PERIOD_MS < 2 ^ 31;
  max_no_alias : MAX_BROADCASTING_PERIOD_MS < 32 * MIN_BROADCASTING_PERIOD_MS;
  timeout_bound : 2 * MAX_BROADCASTING_PERIOD_MS <= RECOMMENDED_BROADCASTER_TIMEOUT_MS < 2 ^ 32
}.

(** The clock of the slave shows the host time plus an offset, which [adjustUtc] changes. *)
Class UtcClockLaws (C : Type) `{UtcClock C} := {
  clk_ok : C -> Prop;
  clk_offset : C -> Z;
  utc_shown c t : clk_ok c -> - 2 ^ 61 <= clk_offset c <= 2 ^ 61 -> 0 <= t < 2 ^ 60 -> 0 <= t + clk_offset c ->
    clk_utc c t = t + clk_offset c;
  utc_adjusted c d : clk_ok c -> - 2 ^ 61 <= clk_offset c <= 2 ^ 61 -> - 2 ^ 61 <= clk_offset c + d <= 2 ^ 61 ->
    clk_ok (clk_adjustUtc c d) /\ clk_offset (clk_adjustUtc c d) = clk_offset c + d
}.

Lemma toMSec_lt x k : 0 <= x -> (Duration.toMSec x <? k) = (x <? k * 1000).
Proof. intros Hx. unfold Duration.toMSec. rewrite Z.quot_div_nonneg by lia. apply eq_true_iff_eq. rewrite !Z.ltb_lt. Z.to_euclidean_division_equations. lia. Qed.
Lemma toMSec_le x k : 0 <= x -> (k <=? Duration.toMSec x) = (k * 1000 <=? x).
Proof. intros Hx. by rewrite !Z.leb_antisym, toMSec_lt. Qed.
Lemma toMSec_gt x k : 0 <= x -> (k <? Duration.toMSec x) = ((k + 1) * 1000 <=? x).
Proof. intros Hx. rewrite <-toMSec_le by done. apply eq_true_iff_eq. rewrite Z.ltb_lt, Z.leb_le. lia. Qed.

Section follow.
Context `{SyncConstantsLaws} {C : Type} `{UtcClockLaws C}.
Context (bus : nat) (Hbus : (bus < Z.to_nat MaxCanIfaces)%nat) (nid : Z) (Hnid : 1 <= nid <= NodeID.Max).
Context (utc_m mono_m mono_s : Z) (Hutc : 1 <= utc_m <= 2 ^ 60) (Hmm : 1 <= mono_m <= 2 ^ 60) (Hms : 1 <= mono_s <= 2 ^ 60).

Abbreviation MAX_ := (MAX_BROADCASTING_PERIOD_MS * 1000).
Abbreviation MIN_ := (MIN_BROADCASTING_PERIOD_MS * 1000).

(** An event at or after [now]; a frame leaves a millisecond or more before the
    next may be published. Other masters have higher node IDs. *)
Definition event_ok (now : Z) (e : NetEvent) : Prop :=
  match e with
  | EvSync t_pub t_bus _ _ => now <= t_pub <= t_bus /\ t_bus <= t_pub + MIN_ - 1000 /\ t_bus < 2 ^ 60
  | EvOther t prev src iface tid => now <= t < 2 ^ 60 /\ 0 <= prev <= 2 ^ 60 /\ nid < src <= NodeID.Max /\ TransferID.wf tid
  end.
Definition event_time (e : NetEvent) : Z := match e with EvSync _ t_bus _ _ => t_bus | EvOther t _ _ _ _ => t end.
Fixpoint events_ok (now : Z) (evs : list NetEvent) : Prop :=
  match evs with
  | [] => True
  | e :: evs => event_ok now e /\ events_ok (event_time e) evs
  end.
Definition end_time (now : Z) (evs : list NetEvent) : Z := foldl (fun _ e => event_time e) now evs.

Abbreviation view_ n := (view bus (n_world n) (n_master n)).
Abbreviation off n := (clk_offset (n_clock n)).

(** The last publication: when, when on the bus, with which transfer ID. *)
Record published (v : MasterView) (P B T : Z) : Prop := {
  pb_pub : v_pub v = P + mono_m;
  pb_tx : v_tx v = B + utc_m;
  pb_otr : v_otr v = Some (P + mono_m + MAX_, TransferID.increment T);
  pb_bus : 0 <= P <= B /\ B <= P + MIN_ - 1000;
  pb_tid : TransferID.wf T
}.

(** What the slave noted of a message at [R] is of the last publication, or one of the
    transfer ID and the time will tell that it is not. *)
Inductive noted (s : GlobalTimeSyncSlave) (P B T R : Z) : Prop :=
| noted_last : R = B -> sl_prev_tid_ s = T -> noted s P B T R
| noted_before d : 1 <= d <= 31 -> (T - sl_prev_tid_ s) mod 32 = d -> R + (d - 1) * MIN_ <= P -> noted s P B T R
| noted_late : R + MAX_ + 1000 <= P + MIN_ -> noted s P B T R.

Definition slave_ok (now : Z) (n : Net C) (R : Z) : Prop :=
  let s := n_slave n in
  nid <= master_nid_ s <= NodeID.Max /\ prev_ts_mono_ s = R + mono_s /\ 0 <= R <= now /\ TransferID.wf (sl_prev_tid_ s) /\
  (state_ s = StAdjust -> prev_ts_utc_ s = R + off n /\ 0 <= R + off n).

(** Locked on the master, the slave knows of its publications only. *)
Definition locked (s : GlobalTimeSyncSlave) (P B T R : Z) : Prop :=
  prev_iface_index_ s = Z.of_nat bus /\ R <= B /\ (state_ s = StAdjust -> noted s P B T R).

Record net_inv (now : Z) (n : Net C) : Prop := {
  nv_now : 0 <= now < 2 ^ 60;
  nv_master : masters_ok bus (n_world n) (n_master n);
  nv_nid : mw_node_id (n_world n) = nid;
  nv_clock : clk_ok (n_clock n) /\ - 2 ^ 60 <= off n <= 2 ^ 60 /\ 0 <= now + off n;
  nv_active : suppressed_ (n_slave n) = false;
  nv_slave : master_nid_ (n_slave n) = NodeID.default \/ exists R, slave_ok now n R;
  nv_pub : (view_ n = mkView 0 0 None /\ master_nid_ (n_slave n) <> nid) \/
    exists P B T, published (view_ n) P B T /\ B <= now /\
      (master_nid_ (n_slave n) = nid -> forall R, prev_ts_mono_ (n_slave n) = R + mono_s -> locked (n_slave n) P B T R)
}.

Lemma nid_not_default : nid <> NodeID.default.
Proof. change NodeID.default with 255. change NodeID.Max with 127 in Hnid. lia. Qed.

(** One message, with the times of the slave: forced update, adjustment, update, ignored. *)
Lemma process_cases c s msg t R :
  nid <= master_nid_ s <= NodeID.Max -> prev_ts_mono_ s = R + mono_s -> 0 <= R <= t -> t < 2 ^ 60 ->
  sm_ts_mono msg = t + mono_s -> TransferID.wf (sl_prev_tid_ s) -> TransferID.wf (sm_tid msg) ->
  processMsg c s msg =
    if (sm_src msg <? master_nid_ s) || ((RECOMMENDED_BROADCASTER_TIMEOUT_MS + 1) * 1000 <=? t - R) then (c, updateFromMsg s msg)
    else if (sm_iface msg =? prev_iface_index_ s) && (sm_src msg =? master_nid_ s) then
      if bool_decide (state_ s = StAdjust) && negb (previous_transmission_timestamp_usec msg =? 0) &&
         ((sm_tid msg - sl_prev_tid_ s) mod 32 =? 1) && (t - R <? MAX_ + 1000)
      then adjustFromMsg c s msg else (c, updateFromMsg s msg)
    else (c, s).
Proof.
  intros Hm Hp HR Ht Hmono Hw1 Hw2. unfold processMsg. rewrite Hp, Hmono, time_minus_exact by (unfold in_width, Duration.wf; lia).
  replace (t + mono_s - (R + mono_s)) with (t - R) by lia. rewrite !toMSec_gt by lia.
  replace (NodeID.isValid (master_nid_ s)) with true by (unfold NodeID.isValid; lia).
  replace (MTime.isZero (R + mono_s)) with false by (unfold MTime.isZero; lia). cbn [negb orb]. rewrite orb_false_r.
  destruct (_ || _); [done|]. destruct (_ && _); [|done]. rewrite forward_distance_mod by done.
  replace (t - R <? MAX_ + 1000) with (negb (MAX_ + 1000 <=? t - R)) by lia. replace ((MAX_BROADCASTING_PERIOD_MS + 1) * 1000) with (MAX_ + 1000) by lia.
  destruct (state_ s); [by rewrite bool_decide_false by done|]. rewrite bool_decide_true by done. cbn [andb].
  destruct (_ =? 0), (_ =? 1), (_ <=? _); reflexivity.
Qed.

Lemma process_init c s msg : master_nid_ s = NodeID.default -> processMsg c s msg = (c, updateFromMsg s msg).
Proof.
  intros Hm. unfold processMsg. rewrite Hm. change (NodeID.isValid NodeID.default) with false. cbn [negb]. by rewrite !orb_true_r.
Qed.

(** ** One publication *)

Lemma masters_ok_begin w s now cl : masters_ok bus w s -> masters_ok bus (mw_begin w now cl) s.
Proof. intros []. by split. Qed.

(** Publication on a network in order: skipped, or put on the bus with the next transfer ID, unless the
    registry forgot it after a long pause, and with the time of the previous one, unless that is too old. *)
Lemma sync_step_eq now n tp tb cl rx :
  net_inv now n -> event_ok now (EvSync tp tb cl rx) ->
  let since := tp + mono_m - v_pub (view_ n) in
  exists w' m', masters_ok bus w' m' /\ mw_node_id w' = nid /\
  if since <? MIN_ then
    net_step bus utc_m mono_m mono_s n (EvSync tp tb cl rx) = Some (mkNet w' m' (n_clock n) (n_slave n)) /\ view bus w' m' = view_ n
  else
    exists T', published (view bus w' m') tp tb T' /\
    (forall P B T, published (view_ n) P B T -> P + MIN_ <= tp /\ (T' = (T + 1) mod 32 \/ P + MAX_ <= tp)) /\
    let msg := mkSync (if MAX_ <=? since then 0 else v_tx (view_ n)) nid (Z.of_nat bus) T' TransferTypeMessageBroadcast
                 (tb + mono_s) (clk_utc (n_clock n) tb) in
    let '(c, s) := if rx then processMsg (n_clock n) (n_slave n) msg else (n_clock n, n_slave n) in
    net_step bus utc_m mono_m mono_s n (EvSync tp tb cl rx) = Some (mkNet w' m' c s).
Proof.
  intros Hn He since. pose proof Hn as [Hnow Hmok Hid _ _ _ Hpub]. destruct He as ((Ht1 & Ht2) & Ht3 & Ht4).
  pose proof min_positive as Hmin. pose proof max_bound as Hmax.
  destruct (publish_ok bus Hbus (mw_begin (n_world n) (tp + mono_m) cl) (n_master n)) as (w1 & m1 & E & Hok1 & Hid1 & Hd1 & Hi1 & Hv);
    [by apply masters_ok_begin|done|]. cbn [mw_begin mw_mono mw_node_id] in Hv, Hid1.
  set (v0 := view bus (mw_begin (n_world n) (tp + mono_m) cl) (n_master n)) in *.
  assert (Hv0 : v_pub v0 = v_pub (view_ n) /\ v_tx v0 = v_tx (view_ n)) by done. destruct Hv0 as [Hp0 Htx0].
  assert (Hr : 0 <= v_pub (view_ n) <= tp + mono_m).
  { destruct Hpub as [[-> _]|(P & B & T & Hp & HB & _)]; [cbn; lia|]. rewrite (pb_pub _ _ _ _ Hp). pose proof (pb_bus _ _ _ _ Hp). lia. }
  unfold view_publish in Hv. rewrite Hp0, Htx0, time_minus_exact in Hv by (unfold in_width, Duration.wf; lia).
  change (tp + mono_m - v_pub (view_ n)) with since in Hv. rewrite toMSec_lt, toMSec_le in Hv by lia.
  assert (Hotr : v_otr v0 = v_otr (view_ n) \/ v_otr v0 = None /\ exists dl tid, v_otr (view_ n) = Some (dl, tid) /\ dl <= tp + mono_m).
  { assert (v_otr v0 = match v_otr (view_ n) with Some (dl, _) => if cl && (dl <=? tp + mono_m) then None else v_otr (view_ n) | None => None end)
      as -> by reflexivity.
    destruct (v_otr (view_ n)) as [[dl tid]|]; [|by left]. destruct (cl && (dl <=? tp + mono_m)) eqn:Ec; [right|by left].
    split; [done|]. exists dl, tid. split; [done|]. lia. }
  assert (Hlong : v_otr v0 = v_otr (view_ n) \/ v_otr v0 = None /\ MAX_ <= since).
  { destruct Hotr as [Ho|(Ho & dl & tid & Hv' & Hdl)]; [by left|right]. split; [done|].
    destruct Hpub as [[Ev _]|(P & B & T & Hp & HB & _)]; [by rewrite Ev in Hv'|]. rewrite (pb_otr _ _ _ _ Hp) in Hv'. injection Hv' as <- _.
    unfold since. rewrite (pb_pub _ _ _ _ Hp). lia. }
  clear Hotr. cbn [net_step]. rewrite E. cbn [mbind option_bind].
  destruct (since <? MIN_) eqn:Es.
  - destruct Hv as [Hv Hf]. exists w1, m1. split_and!; [done|congruence| |].
    + destruct (List.find _ _) as [[[? ?] ?]|]; [discriminate Hf|done].
    + rewrite Hv. destruct Hlong as [Ho|[_ Hl]]; [|lia]. destruct v0, (view_ n). cbn in *. congruence.
  - set (T' := match v_otr v0 with Some (_, tid) => tid | None => TransferID.default end) in Hv. destruct Hv as [Hv Hf].
    assert (HT' : T' = TransferID.default /\ (MAX_ <= since \/ v_otr (view_ n) = None) \/ exists dl, v_otr (view_ n) = Some (dl, T')).
    { unfold T'. destruct Hlong as [->|[-> Hl]]; [destruct (v_otr (view_ n)) as [[dl t]|]; [right; by exists dl|left; auto]|left; auto]. }
    assert (HwT : TransferID.wf T').
    { destruct HT' as [[-> _]|[dl Ho]]; [split; [done|by vm_compute]|].
      destruct Hpub as [[Ev _]|(P & B & T & Hp & _)]; [by rewrite Ev in Ho|]. rewrite (pb_otr _ _ _ _ Hp) in Ho. injection Ho as _ <-.
      apply tid_wf_iff. rewrite increment_mod. by apply Z.mod_pos_bound. }
    clearbody T'. destruct (List.find _ _) as [[[mask prev] tid]|] eqn:Efind; [|discriminate Hf]. cbn in Hf. injection Hf as -> ->.
    assert (Hts : tb + utc_m <> 0) by lia.
    destruct (loopback_ok bus Hbus w1 m1 (tb + utc_m) Hok1 Hi1 Hts) as (m2 & E2 & Hok2 & _ & Hv2); [by rewrite Hv|].
    rewrite E2. cbn [mbind option_bind]. exists w1, m2. split_and!; [done|congruence|]. exists T'. split_and!.
    + rewrite Hv2, Hv. cbn [v_pub v_otr]. split; cbn [v_pub v_tx v_otr]; try done; [|lia].
      do 2 f_equal. unfold Duration.fromMSec, Duration.fromUSec. rewrite swrap_small, time_plus_exact by (unfold in_width, Duration.wf; lia). done.
    + intros P B T Hp. pose proof (pb_pub _ _ _ _ Hp) as Ep. split; [lia|].
      destruct HT' as [[_ [Hl|Ho]]|[dl Ho]]; [right; lia|by rewrite (pb_otr _ _ _ _ Hp) in Ho|].
      rewrite (pb_otr _ _ _ _ Hp) in Ho. injection Ho as _ <-. left. apply increment_mod.
    + cbv zeta. rewrite Hid1, Hid. unfold handleGlobalTimeSync. cbn [sm_type]. rewrite bool_decide_true by done.
      destruct rx; [destruct (processMsg _ _ _); done|done].
Qed.

(** ** The invariant *)

(** A publication the slave does not hear of. *)
Lemma locked_lost s v P B T R tp tb T' :
  published v P B T -> TransferID.wf (sl_prev_tid_ s) -> B <= tp <= tb -> P + MIN_ <= tp -> T' = (T + 1) mod 32 \/ P + MAX_ <= tp ->
  locked s P B T R -> locked s tp tb T' R.
Proof.
  intros [_ _ _ HB Hw] Hw' Ht HP HT (Hi & HR & Hn). pose proof max_no_alias as Hal. pose proof min_positive as Hmin.
  apply tid_wf_iff in Hw, Hw'. split_and!; [done|lia|]. intros Hs. specialize (Hn Hs).
  destruct HT as [->|Hlong]; [|apply noted_late; lia].
  destruct Hn as [-> E|d Hd E HdP|Hl].
  - apply (noted_before _ _ _ _ _ 1); [lia| |lia]. rewrite E, Zminus_mod_idemp_l. by replace (T + 1 - T) with 1 by lia.
  - destruct (decide (d = 31)) as [->|Hne]; [apply noted_late; lia|]. apply (noted_before _ _ _ _ _ (d + 1)); [lia| |lia].
    rewrite Zminus_mod_idemp_l. replace (T + 1 - sl_prev_tid_ s) with ((T - sl_prev_tid_ s) + 1) by lia.
    rewrite <-Zplus_mod_idemp_l, E. apply Z.mod_small. lia.
  - apply noted_late. lia.
Qed.

Lemma noted_adjust s v P B T R tp tb T' :
  published v P B T -> TransferID.wf (sl_prev_tid_ s) -> tp <= tb -> P + MIN_ <= tp -> T' = (T + 1) mod 32 -> noted s P B T R ->
  (T' - sl_prev_tid_ s) mod 32 = 1 -> tb - R < MAX_ + 1000 -> R = B.
Proof.
  intros [_ _ _ HB Hw] Hw' Ht HP -> Hn Hd1 Ht1. destruct Hn as [-> E|d Hd E HdP|Hl]; [done| |lia].
  exfalso. rewrite Zminus_mod_idemp_l in Hd1. replace (T + 1 - sl_prev_tid_ s) with ((T - sl_prev_tid_ s) + 1) in Hd1 by lia.
  rewrite <-Zplus_mod_idemp_l, E in Hd1. destruct (decide (d = 31)) as [->|Hne]; [done|]. rewrite Z.mod_small in Hd1 by lia. lia.
Qed.

(** An adjustment to the time of the message noted at [R]. *)
Lemma adjust_ok now n msg x R t :
  net_inv now n -> slave_ok now n R -> state_ (n_slave n) = StAdjust -> now <= t < 2 ^ 60 -> 0 <= x <= 2 ^ 61 -> - 2 ^ 60 <= x - R <= 2 ^ 60 ->
  previous_transmission_timestamp_usec msg = x -> sm_ts_mono msg = t + mono_s ->
  exists c', adjustFromMsg (n_clock n) (n_slave n) msg = (c',
      mkSlave (prev_ts_utc_ (n_slave n)) (prev_ts_mono_ (n_slave n)) (t + mono_s) StUpdate (master_nid_ (n_slave n))
        (sl_prev_tid_ (n_slave n)) (prev_iface_index_ (n_slave n)) false) /\
    clk_ok c' /\ clk_offset c' = x - R /\ 0 <= t + (x - R).
Proof.
  intros [Hnow _ _ (Hc & Ho & Hp) Ha _ _] (_ & _ & HR & _ & Hs) Hst Ht Hx Hd Ex Em. destruct (Hs Hst) as [Hu Hu0].
  unfold adjustFromMsg. rewrite Ha, Ex, Em, Hu. unfold MTime.fromUSec. rewrite time_minus_exact by (unfold in_width, Duration.wf; lia).
  destruct (utc_adjusted (n_clock n) (x - (R + off n))) as [Hc' Ho']; [done|lia|lia|].
  eexists. split; [done|]. split_and!; [done|rewrite Ho'; lia|lia].
Qed.

(** The slave takes a message of [src] as its record. *)
Lemma slave_update_ok now n t msg :
  net_inv now n -> now <= t < 2 ^ 60 -> sm_ts_mono msg = t + mono_s -> sm_ts_utc msg = clk_utc (n_clock n) t ->
  nid <= sm_src msg <= NodeID.Max -> TransferID.wf (sm_tid msg) ->
  forall w' m', slave_ok t (mkNet w' m' (n_clock n) (updateFromMsg (n_slave n) msg)) t.
Proof.
  intros [Hnow _ _ (Hc & Ho & Hp) _ _ _] Ht Em Eu Hs Hw w' m'. unfold slave_ok, updateFromMsg. cbn. rewrite Em, Eu.
  split_and!; try done; try lia. intros _. rewrite utc_shown by (done || lia). lia.
Qed.

Lemma slave_ok_later now t n R : slave_ok now n R -> now <= t -> slave_ok t n R.
Proof. unfold slave_ok. intuition lia. Qed.

Lemma other_step_ok now n t prev src iface tid :
  net_inv now n -> event_ok now (EvOther t prev src iface tid) ->
  exists n', net_step bus utc_m mono_m mono_s n (EvOther t prev src iface tid) = Some n' /\ net_inv t n' /\ view_ n' = view_ n.
Proof.
  intros Hn ((Ht & Ht') & Hprev & Hsrc & Htid). pose proof Hn as [Hnow Hmok Hid (Hc & Ho & Hp) Ha Hsl Hpub].
  cbn [net_step]. unfold handleGlobalTimeSync. cbn [sm_type]. rewrite bool_decide_true by done.
  set (msg := mkSync _ _ _ _ _ _ _).
  assert (Hupd : net_inv t (mkNet (n_world n) (n_master n) (n_clock n) (updateFromMsg (n_slave n) msg))).
  { split; cbn [n_world n_master n_clock n_slave]; try done; try lia; [split_and!; [done|lia|lia|lia]| |].
    - right. exists t. apply (slave_update_ok now); try done; cbn; lia.
    - destruct Hpub as [[? ?]|(P & B & T & ? & ? & ?)]; [left; split; [done|cbn; lia]|].
      right. exists P, B, T. split_and!; [done|lia|]. cbn. lia. }
  destruct Hsl as [Hd|[R HR]]; [rewrite process_init by done; by eexists|].
  pose proof HR as (Hm & HRm & HRt & Hw & Hst).
  rewrite (process_cases _ _ _ t R) by (done || lia).
  destruct (_ || _); [by eexists|].
  assert (Hign : net_inv t (mkNet (n_world n) (n_master n) (n_clock n) (n_slave n))).
  { split; cbn [n_world n_master n_clock n_slave]; try done; try lia; [split_and!; [done|lia|lia|lia]| |].
    - right. exists R. by apply (slave_ok_later now).
    - destruct Hpub as [?|(P & B & T & ? & ? & ?)]; [by left|right]. exists P, B, T. split_and!; [done|lia|done]. }
  destruct (_ && _) eqn:Elock; [|by eexists]. apply andb_true_iff in Elock as [_ Esrc]. cbn [msg sm_src] in Esrc.
  destruct (bool_decide _ && _ && _ && _) eqn:Eadj; [|by eexists].
  rewrite !andb_true_iff, bool_decide_eq_true in Eadj. destruct Eadj as [[[Est _] _] _].
  destruct (adjust_ok now n msg prev R t Hn HR Est) as (c' & -> & Hc' & Ho' & Hp'); try done; try lia.
  eexists. split; [done|]. split; [|done]. split; cbn [n_world n_master n_clock n_slave]; try done; try lia; [split_and!; [done|lia|lia|lia]| |].
  - right. exists R. split_and!; try done; cbn; try lia.
  - destruct Hpub as [[? ?]|(P & B & T & ? & ? & ?)]; [left; split; [done|cbn; lia]|].
    right. exists P, B, T. split_and!; [done|lia|]. cbn. lia.
Qed.

(** A publication with a slave that does not hear it, takes it as its record, or adjusts by it. *)
Lemma inv_lost now n w' m' tp tb T' :
  net_inv now n -> now <= tp <= tb -> tb < 2 ^ 60 -> masters_ok bus w' m' -> mw_node_id w' = nid -> published (view bus w' m') tp tb T' ->
  (forall P B T, published (view_ n) P B T -> P + MIN_ <= tp /\ (T' = (T + 1) mod 32 \/ P + MAX_ <= tp)) ->
  net_inv tb (mkNet w' m' (n_clock n) (n_slave n)).
Proof.
  intros [Hnow Hmok Hid (Hc & Ho & Hp) Ha Hsl Hpub] Ht Ht' Hmok' Hid' Hpb Hprev.
  split; cbn [n_world n_master n_clock n_slave]; try done; try lia; [split_and!; [done|lia|lia|lia]| |].
  - destruct Hsl as [Hd|[R HR]]; [by left|right]. exists R. apply (slave_ok_later now tb) in HR; [|lia]. exact HR.
  - right. exists tp, tb, T'. split_and!; [done|lia|]. intros Hm R HR.
    destruct Hpub as [[_ ?]|(P & B & T & Hpb0 & HB & Hl)]; [done|]. destruct (Hprev P B T Hpb0) as [HP HT].
    destruct Hsl as [Hd|[R' (_ & _ & _ & Hw & _)]]; [by destruct nid_not_default; rewrite <-Hm|].
    apply (locked_lost _ (view_ n) P B T); try done; [lia|]. by apply Hl.
Qed.

Lemma inv_updated now n w' m' tp tb T' prev :
  net_inv now n -> now <= tp <= tb -> tb < 2 ^ 60 -> masters_ok bus w' m' -> mw_node_id w' = nid -> published (view bus w' m') tp tb T' ->
  net_inv tb (mkNet w' m' (n_clock n) (updateFromMsg (n_slave n)
    (mkSync prev nid (Z.of_nat bus) T' TransferTypeMessageBroadcast (tb + mono_s) (clk_utc (n_clock n) tb)))).
Proof.
  intros Hn Ht Ht' Hmok' Hid' Hpb. pose proof Hn as [Hnow Hmok Hid (Hc & Ho & Hp) Ha Hsl Hpub].
  split; cbn [n_world n_master n_clock n_slave]; try done; try lia; [split_and!; [done|lia|lia|lia]| |].
  - right. exists tb. apply (slave_update_ok now); try done; cbn [sm_src sm_tid]; try lia. apply Hpb.
  - right. exists tp, tb, T'. split_and!; [done|lia|]. intros _ R HR. cbn in HR. replace R with tb by lia.
    split_and!; [done|lia|]. intros _. by apply noted_last.
Qed.

Lemma inv_adjusted now n w' m' tp tb T' R c' :
  net_inv now n -> slave_ok now n R -> master_nid_ (n_slave n) = nid -> prev_iface_index_ (n_slave n) = Z.of_nat bus ->
  now <= tp <= tb -> tb < 2 ^ 60 -> masters_ok bus w' m' -> mw_node_id w' = nid -> published (view bus w' m') tp tb T' ->
  clk_ok c' -> clk_offset c' = utc_m ->
  net_inv tb (mkNet w' m' c' (mkSlave (prev_ts_utc_ (n_slave n)) (prev_ts_mono_ (n_slave n)) (tb + mono_s) StUpdate (master_nid_ (n_slave n))
        (sl_prev_tid_ (n_slave n)) (prev_iface_index_ (n_slave n)) false)).
Proof.
  intros Hn (Hm & HRm & HR & Hw & Hst) Hnm Hif Ht Ht' Hmok' Hid' Hpb Hc' Ho'. pose proof Hn as [Hnow Hmok Hid (Hc & Ho & Hp) Ha Hsl Hpub].
  split; cbn [n_world n_master n_clock n_slave]; try done; try lia; [split_and!; [done|lia|lia|lia]| |].
  - right. exists R. split_and!; try done; cbn; try lia.
  - right. exists tp, tb, T'. split_and!; [done|lia|]. intros _ R' HR'. cbn in HR'. split_and!; [done|lia|done].
Qed.

(** What a slave that hears a publication does is an update or an adjustment to the clock of the master. *)
Lemma heard_cases now n v' tp tb T' prev :
  net_inv now n -> now <= tp <= tb -> tb < 2 ^ 60 -> published v' tp tb T' ->
  (forall P B T, published (view_ n) P B T -> P + MIN_ <= tp /\ (T' = (T + 1) mod 32 \/ P + MAX_ <= tp)) ->
  prev = (if MAX_ <=? tp + mono_m - v_pub (view_ n) then 0 else v_tx (view_ n)) ->
  let msg := mkSync prev nid (Z.of_nat bus) T' TransferTypeMessageBroadcast (tb + mono_s) (clk_utc (n_clock n) tb) in
  processMsg (n_clock n) (n_slave n) msg = (n_clock n, updateFromMsg (n_slave n) msg) \/
  exists R c', slave_ok now n R /\ master_nid_ (n_slave n) = nid /\ prev_iface_index_ (n_slave n) = Z.of_nat bus /\
    tb - R < MAX_ + 1000 /\ clk_ok c' /\ clk_offset c' = utc_m /\
    processMsg (n_clock n) (n_slave n) msg = (c',
      mkSlave (prev_ts_utc_ (n_slave n)) (prev_ts_mono_ (n_slave n)) (tb + mono_s) StUpdate (master_nid_ (n_slave n))
        (sl_prev_tid_ (n_slave n)) (prev_iface_index_ (n_slave n)) false).
Proof.
  intros Hn Ht Ht' Hpb Hprev Eprev msg. pose proof Hn as [Hnow Hmok Hid (Hc & Ho & Hp) Ha Hsl Hpub].
  destruct Hsl as [Hd|[R HR]]; [left; by apply process_init|].
  pose proof HR as (Hm & HRm & HRt & Hw & Hst).
  rewrite (process_cases _ _ _ tb R) by (done || lia || apply Hpb). cbn [msg sm_src].
  destruct (_ || _) eqn:Eforce; [by left|]. assert (Hnm : master_nid_ (n_slave n) = nid) by lia.
  destruct Hpub as [[_ ?]|(P & B & T & Hpb0 & HB & Hl)]; [done|]. specialize (Hl Hnm R HRm) as (Hif & HRB & Hno).
  cbn [sm_iface sm_tid previous_transmission_timestamp_usec]. rewrite Hif, Hnm, !Z.eqb_refl. cbn [andb].
  destruct (bool_decide _ && _ && _ && _) eqn:Eadj; [right|by left].
  rewrite !andb_true_iff, bool_decide_eq_true, negb_true_iff, Z.eqb_neq, Z.eqb_eq, Z.ltb_lt in Eadj. destruct Eadj as [[[Est Epr] Etid] Etime].
  destruct (Hprev P B T Hpb0) as [HP HT]. rewrite (pb_pub _ _ _ _ Hpb0), (pb_tx _ _ _ _ Hpb0) in Eprev.
  destruct (_ <=? _) eqn:El in Eprev; [subst prev; done|]. destruct HT as [HT|HT]; [|lia].
  assert (R = B) as -> by (apply (noted_adjust (n_slave n) (view_ n) P B T R tp tb T'); try done; try lia; by apply Hno).
  destruct (adjust_ok now n msg prev B tb Hn HR Est) as (c' & -> & Hc' & Ho' & Hp'); try done; try lia.
  exists B, c'. rewrite Hnm, Hif. split_and!; try done. lia.
Qed.

Lemma heard_ok now n w' m' tp tb T' prev :
  net_inv now n -> now <= tp <= tb -> tb < 2 ^ 60 -> masters_ok bus w' m' -> mw_node_id w' = nid -> published (view bus w' m') tp tb T' ->
  (forall P B T, published (view_ n) P B T -> P + MIN_ <= tp /\ (T' = (T + 1) mod 32 \/ P + MAX_ <= tp)) ->
  prev = (if MAX_ <=? tp + mono_m - v_pub (view_ n) then 0 else v_tx (view_ n)) ->
  let msg := mkSync prev nid (Z.of_nat bus) T' TransferTypeMessageBroadcast (tb + mono_s) (clk_utc (n_clock n) tb) in
  let '(c, s) := processMsg (n_clock n) (n_slave n) msg in net_inv tb (mkNet w' m' c s).
Proof.
  intros Hn Ht Ht' Hmok' Hid' Hpb Hprev Eprev msg. subst msg.
  destruct (heard_cases now n _ tp tb T' prev Hn Ht Ht' Hpb Hprev Eprev) as [->|(R & c' & HR & Hnm & Hif & Hd & Hc' & Ho' & ->)].
  - by apply (inv_updated now n w' m' tp tb T' prev).
  - by apply (inv_adjusted now n w' m' tp tb T' R).
Qed.

Lemma sync_step_ok now n tp tb cl rx :
  net_inv now n -> event_ok now (EvSync tp tb cl rx) ->
  exists n', net_step bus utc_m mono_m mono_s n (EvSync tp tb cl rx) = Some n' /\ net_inv tb n'.
Proof.
  intros Hn He. pose proof He as ((Ht1 & Ht2) & Ht3 & Ht4).
  destruct (sync_step_eq now n tp tb cl rx Hn He) as (w' & m' & Hok & Hid & A). destruct (_ <? MIN_) eqn:Es.
  - destruct A as [-> Hv]. eexists. split; [done|]. destruct Hn as [Hnow Hmok Hid0 (Hc & Ho & Hp) Ha Hsl Hpub].
    split; cbn [n_world n_master n_clock n_slave]; try done; try lia; [split_and!; [done|lia|lia|lia]| |].
    + destruct Hsl as [Hd|[R HR]]; [by left|right]. exists R. apply (slave_ok_later now tb) in HR; [|lia]. exact HR.
    + rewrite Hv. destruct Hpub as [?|(P & B & T & ? & ? & ?)]; [by left|right]. exists P, B, T. split_and!; [done|lia|done].
  - destruct A as (T' & Hpb & Hprev & A). destruct rx.
    + pose proof (heard_ok now n w' m' tp tb T' _ Hn (conj Ht1 Ht2) Ht4 Hok Hid Hpb Hprev eq_refl) as B. cbv zeta in A, B.
      destruct (processMsg _ _ _) as [c s]. rewrite A. by eexists.
    + rewrite A. eexists. split; [done|]. by apply (inv_lost now n w' m' tp tb T').
Qed.

Lemma net_run_ok evs now n :
  net_inv now n -> events_ok now evs ->
  exists n', net_run bus utc_m mono_m mono_s n evs = Some n' /\ net_inv (end_time now evs) n'.
Proof.
  revert now n. induction evs as [|e evs IH]; intros now n Hn He; [by exists n|]. destruct He as [He Hes].
  assert (exists n1, net_step bus utc_m mono_m mono_s n e = Some n1 /\ net_inv (event_time e) n1) as (n1 & E1 & Hn1).
  { destruct e; [by apply (sync_step_ok now)|]. destruct (other_step_ok now n t prev src iface tid Hn He) as (n1 & E1 & Hn1 & _). by exists n1. }
  cbn [net_run]. rewrite E1. cbn [mbind option_bind]. by apply IH.
Qed.

(** ** Convergence *)

(** The slave has the last publication as its record, or has just adjusted by it. *)
Definition heard_last (n : Net C) (P B : Z) : Prop :=
  master_nid_ (n_slave n) = nid /\ prev_iface_index_ (n_slave n) = Z.of_nat bus /\ exists T, published (view_ n) P B T /\
  ((state_ (n_slave n) = StAdjust /\ prev_ts_mono_ (n_slave n) = B + mono_s /\ sl_prev_tid_ (n_slave n) = T) \/
   (state_ (n_slave n) = StUpdate /\ off n = utc_m /\ last_adjustment_ts_ (n_slave n) = B + mono_s /\
    exists R, prev_ts_mono_ (n_slave n) = R + mono_s /\ B - R < MAX_ + 1000)).

Definition synced (n : Net C) (B : Z) : Prop :=
  off n = utc_m /\ exists L, last_adjustment_ts_ (n_slave n) = L + mono_s /\ 0 <= L <= B /\ B - L <= MAX_.

(** Events of a master that publishes at a proper interval, all heard. *)
Fixpoint steady (P B : Z) (evs : list NetEvent) : Prop :=
  match evs with
  | [] => True
  | EvSync tp tb _ rx :: evs => rx = true /\ MIN_ <= tp - P < MAX_ /\ tb - B <= MAX_ /\ steady tp tb evs
  | EvOther t _ _ _ _ :: evs => t - B <= MAX_ /\ steady P B evs
  end.

Definition is_sync (e : NetEvent) : bool := match e with EvSync _ _ _ _ => true | EvOther _ _ _ _ _ => false end.
Definition last_sync (B : Z) (evs : list NetEvent) : Z := foldl (fun B e => if is_sync e then event_time e else B) B evs.

(** A publication that is heard. *)
Lemma hears_sync now n tp tb cl :
  net_inv now n -> event_ok now (EvSync tp tb cl true) -> v_pub (view_ n) + MIN_ <= tp + mono_m ->
  exists n', net_step bus utc_m mono_m mono_s n (EvSync tp tb cl true) = Some n' /\ net_inv tb n' /\ heard_last n' tp tb /\
    ((state_ (n_slave n') = StUpdate /\ synced n' tb) \/
     (state_ (n_slave n') = StAdjust /\ off n' = off n /\ last_adjustment_ts_ (n_slave n') = last_adjustment_ts_ (n_slave n))) /\
    (forall P B, heard_last n P B -> tp - P < MAX_ -> tb - B <= MAX_ -> B <= now -> state_ (n_slave n) = StAdjust -> state_ (n_slave n') = StUpdate).
Proof.
  intros Hn He Hpub. pose proof He as ((Ht1 & Ht2) & Ht3 & Ht4). pose proof min_positive. pose proof max_bound. pose proof timeout_bound.
  destruct (sync_step_eq now n tp tb cl true Hn He) as (w' & m' & Hok & Hid & A).
  replace (tp + mono_m - v_pub (view_ n) <? MIN_) with false in A by lia. destruct A as (T' & Hpb & Hprev & A).
  pose proof (heard_ok now n w' m' tp tb T' _ Hn (conj Ht1 Ht2) Ht4 Hok Hid Hpb Hprev eq_refl) as Hn'.
  pose proof (heard_cases now n _ tp tb T' _ Hn (conj Ht1 Ht2) Ht4 Hpb Hprev eq_refl) as Hcs. cbv zeta in A, Hn', Hcs.
  set (prev := if MAX_ <=? _ then 0 else _) in *. set (msg := mkSync _ _ _ _ _ _ _) in *.
  destruct Hcs as [E|(R & c' & HR & Hnm & Hif & Hd & Hc' & Ho' & E)]; rewrite E in A, Hn'; rewrite A; eexists; (split; [done|]); split_and!; try done.
  - split_and!; try done. exists T'. split; [done|]. left. done.
  - by right.
  - intros P B (Hnm & Hif & T & Hpb0 & Hc) HP HB HBn Est. exfalso. destruct Hc as [(_ & Hmono & Htid)|(? & _)]; [|congruence].
    assert (Hx : slave_ok now n B).
    { destruct (nv_slave _ _ Hn) as [Hd|[R HR]]; [destruct nid_not_default; congruence|]. pose proof HR as (_ & HRm & _).
      replace B with R by lia. done. }
    pose proof Hx as (Hm & HRm & HRt & Hw & Hst). destruct (Hprev P B T Hpb0) as [HP' [HT|HT]]; [|lia].
    rewrite (process_cases _ _ _ tb B) in E by (done || lia || apply Hpb). cbn [msg sm_src sm_iface sm_tid previous_transmission_timestamp_usec] in E.
    rewrite Hnm, Hif, Est, Z.ltb_irrefl, !Z.eqb_refl, bool_decide_true in E by done. cbn [orb andb] in E.
    replace (_ <=? tb - B) with false in E by lia. replace (tb - B <? MAX_ + 1000) with true in E by lia.
    unfold prev in E. rewrite (pb_pub _ _ _ _ Hpb0), (pb_tx _ _ _ _ Hpb0) in E.
    replace (MAX_ <=? tp + mono_m - (P + mono_m)) with false in E by lia.
    replace (B + utc_m =? 0) with false in E by lia. rewrite HT, Htid, Zminus_mod_idemp_l in E. replace (T + 1 - T) with 1 in E by lia.
    change (1 mod 32 =? 1) with true in E. cbn [negb andb] in E. apply (f_equal (fun x => state_ x.2)) in E. discriminate E.
  - split_and!; try done. exists T'. split; [done|]. right. split_and!; try done. exists R. split; [apply HR|lia].
  - left. split; [done|]. split; [done|]. exists tb. destruct Hn. split_and!; try done; lia.
Qed.

(** While the master is heard, the others are ignored. *)
Lemma other_ignored now n t prev src iface tid P B :
  net_inv now n -> event_ok now (EvOther t prev src iface tid) -> heard_last n P B -> B <= now -> t - B <= MAX_ ->
  net_step bus utc_m mono_m mono_s n (EvOther t prev src iface tid) = Some n.
Proof.
  intros Hn ((Ht & Ht') & Hprev & Hsrc & Htid) (Hnm & Hif & T & Hpb & Hc) HB Hgap. pose proof timeout_bound.
  destruct (nv_slave _ _ Hn) as [Hd|[R HR]]; [destruct nid_not_default; congruence|]. pose proof HR as (Hm & HRm & HRt & Hw & _).
  assert (HtR : t - R < 2 * MAX_ + 1000) by (destruct Hc as [(_ & E & _)|(_ & _ & _ & R' & E & ?)]; lia).
  cbn [net_step]. unfold handleGlobalTimeSync. cbn [sm_type]. rewrite bool_decide_true by done.
  rewrite (process_cases _ _ _ t R) by (done || lia). cbn [sm_src]. rewrite Hnm.
  replace (_ || _) with false by lia. replace (src =? nid) with false by lia. rewrite andb_false_r. by destruct n.
Qed.

Lemma steady_run evs now n P B :
  net_inv now n -> events_ok now evs -> heard_last n P B -> B <= now -> steady P B evs ->
  exists n', net_run bus utc_m mono_m mono_s n evs = Some n' /\ net_inv (end_time now evs) n' /\
    (exists P', heard_last n' P' (last_sync B evs)) /\ last_sync B evs <= end_time now evs /\
    (synced n B \/ existsb is_sync evs = true -> synced n' (last_sync B evs)).
Proof.
  revert now n P B. induction evs as [|e evs IH]; intros now n P B Hn He Hh HB Hst.
  { exists n. split_and!; [done|done|by exists P|done|]. intros [?|?]; done. }
  destruct He as [He Hes]. destruct e as [tp tb cl rx|t prev src iface tid]; cbn [net_run].
  - destruct Hst as (-> & HP & HtB & Hst). pose proof Hh as (_ & _ & T & Hpb & Hc).
    destruct (hears_sync now n tp tb cl Hn He) as (n1 & E1 & Hn1 & Hh1 & Hs1 & Hadj); [rewrite (pb_pub _ _ _ _ Hpb); lia|].
    rewrite E1. cbn [mbind option_bind event_time] in *.
    destruct (IH tb n1 tp tb Hn1 Hes Hh1 ltac:(lia) Hst) as (n2 & E2 & Hn2 & Hh2 & Hl2 & Hs2). exists n2. split_and!; [done|done|done|done|].
    intros _. apply Hs2. left. destruct Hs1 as [[_ ?]|(Est & Ho & Hl)]; [done|].
    destruct Hc as [(Hst0 & _)|(_ & Hou & Hlu & _)]; [rewrite (Hadj P B) in Est by (done || lia); done|].
    split; [congruence|]. exists B. destruct He as ((? & ?) & _). pose proof (pb_bus _ _ _ _ Hpb). split_and!; [congruence|lia|lia|lia].
  - destruct Hst as [HtB Hst]. rewrite (other_ignored now n t prev src iface tid P B) by done. cbn [mbind option_bind event_time] in *.
    destruct (other_step_ok now n t prev src iface tid Hn He) as (n1 & E1 & Hn1 & _).
    rewrite (other_ignored now n t prev src iface tid P B) in E1 by done. injection E1 as <-.
    destruct He as ((? & ?) & _). apply (IH t n P B); try done; lia.
Qed.

(** C6: A slave follows the master. In a network with one master of the lowest node ID and
    any other masters, whatever happened before, messages lost, time stamps too old, transfer
    IDs forgotten or wrapped around, the slave locked on another master: as soon as
    the slave hears two messages of the master at a proper interval it has the clock of
    the master, and keeps it as long as it hears the master, and names that master. *)
Theorem slave_follows_master now w c evs tp tb cl tail :
  clk_ok c -> 0 <= clk_offset c <= 2 ^ 60 -> 0 <= now < 2 ^ 60 ->
  mw_otr w = None -> mw_node_id w = nid -> Z.of_nat bus < mw_num_ifaces w <= MaxCanIfaces ->
  events_ok now (evs ++ EvSync tp tb cl true :: tail) ->
  exists n1, net_run bus utc_m mono_m mono_s (mkNet w GlobalTimeSyncMaster_make c GlobalTimeSyncSlave_make) evs = Some n1 /\
  (prev_pub_mono_ (n_master n1) + MIN_ <= tp + mono_m -> steady tp tb tail -> existsb is_sync tail = true ->
   exists n2, net_run bus utc_m mono_m mono_s n1 (EvSync tp tb cl true :: tail) = Some n2 /\
     forall t, end_time tb tail <= t < 2 ^ 60 -> clk_utc (n_clock n2) t = t + utc_m /\
       (t <= last_sync tb tail + MAX_ -> getMasterNodeID (t + mono_s) (n_slave n2) = nid)).
Proof.
  intros Hc Ho Hnow Hotr Hid Hnum Hev.
  set (n0 := mkNet w GlobalTimeSyncMaster_make c GlobalTimeSyncSlave_make).
  assert (Hn0 : net_inv now n0).
  { split; cbn [n0 n_world n_master n_clock n_slave]; try done; [|split_and!; [done|lia|lia|lia]|by left|].
    - split; try done; lia.
    - left. split; [|by apply not_eq_sym, nid_not_default]. unfold view. rewrite Hotr. change (Z.to_nat MaxCanIfaces) with 3%nat in Hbus.
      destruct bus as [|[|[|]]]; [done..|lia]. }
  assert (He : events_ok now evs /\ event_ok (end_time now evs) (EvSync tp tb cl true) /\ events_ok tb tail).
  { clear - Hev. revert now Hev. induction evs as [|e evs IH]; intros now Hev; [done|]. destruct Hev as [? Hev].
    destruct (IH _ Hev) as (? & ? & ?). done. }
  destruct He as (He1 & He2 & He3). destruct (net_run_ok evs now n0 Hn0 He1) as (n1 & E1 & Hn1). exists n1. split; [done|].
  intros Hpub Hst Hsync. destruct (hears_sync _ n1 tp tb cl Hn1 He2 Hpub) as (n2 & E2 & Hn2 & Hh2 & _).
  destruct (steady_run tail tb n2 tp tb Hn2 He3 Hh2 ltac:(lia) Hst) as (n3 & E3 & Hn3 & (P' & Hnm & _) & Hle & Hs3).
  destruct (Hs3 (or_intror Hsync)) as (Hoff & L & HL & HLB & Hgap). exists n3. cbn [net_run]. rewrite E2. split; [done|].
  intros t Ht. pose proof (nv_clock _ _ Hn3) as (Hc3 & _). pose proof (nv_now _ _ Hn3). pose proof timeout_bound. pose proof min_positive. pose proof max_bound.
  split; [rewrite utc_shown, Hoff by (done || lia); done|]. intros Htt. unfold getMasterNodeID, isActive. rewrite HL.
  rewrite time_minus_exact by (unfold in_width, Duration.wf; lia). replace (t + mono_s - (L + mono_s)) with (t - L) by lia.
  replace (MTime.isZero (L + mono_s)) with false by (unfold MTime.isZero; lia).
  rewrite Z.leb_antisym, toMSec_gt by lia. by replace (_ <=? t - L) with false by lia.
Qed.
End follow.

(** ** The Linux clock and a network to run *)

Module SimSync.
Import SimHost.

#[export] Instance uavcan_sync_constants : SyncConstants :=
  { MAX_BROADCASTING_PERIOD_MS := 1100; MIN_BROADCASTING_PERIOD_MS := 40; RECOMMENDED_BROADCASTER_TIMEOUT_MS := 2200 }.
#[export] Instance uavcan_sync_constants_laws : SyncConstantsLaws.
Proof. split; cbn; lia. Qed.

(** The Linux clock in private mode, on a host whose wall clock is at [t]. *)
#[export] Instance linux_utc_clock : UtcClock SystemClock := {
  clk_utc c t := default 0 (Clock_getUtc (mkHost t 0) c);
  clk_adjustUtc c d := (Clock_adjustUtc (mkHost 0 0) c d).2
}.

#[export] Instance linux_utc_clock_laws : UtcClockLaws SystemClock.
Proof.
  refine {| clk_ok := fun c => adj_mode_ c = PerDriverPrivate; clk_offset := private_adj_ |}.
  - intros c t Hc Ho Ht Hp. cbn [clk_utc linux_utc_clock].
    assert (En : host_now (mkHost t 0) = t) by (cbn; apply Z.mod_small; lia).
    destruct (private_adjustment_ok (mkHost t 0) c 0) as (c' & _ & _ & _ & E & _); try done; try lia; rewrite ?En; try lia.
    rewrite E, En. done.
  - intros c d Hc Ho Hd. cbn [clk_adjustUtc linux_utc_clock]. unfold Clock_adjustUtc. rewrite decide_True by done. cbn.
    split; [done|]. unfold Duration.plus, Duration.fromUSec. apply swrap_small; lia.
Defined.

Definition example_world : MasterWorld := mkWorld 0 None [] 10 4 2 0.
Definition example_net : Net SystemClock :=
  mkNet example_world GlobalTimeSyncMaster_make (SystemClock_make PerDriverPrivate) GlobalTimeSyncSlave_make.
Definition example_history : list NetEvent := [EvOther 1000000 77 20 0 3; EvSync 2000000 2000500 true false; EvOther 2500000 1000099 20 0 4].
Definition example_tail : list NetEvent := [EvOther 3500000 5 20 0 9; EvSync 4000000 4000300 true true; EvOther 4500000 6 30 1 9].

Lemma example_history_pub : (fun n => prev_pub_mono_ (n_master n)) <$> net_run 0 5000 1 7 example_net example_history = Some 2000001.
Proof. vm_compute. done. Qed.

Lemma example_events_ok : events_ok 10 0 (example_history ++ EvSync 3000000 3000400 true true :: example_tail).
Proof.
  assert (forall t, 0 <= t <= 31 -> TransferID.wf t) as Hw by (intros t; unfold TransferID.wf; by change TransferID.Max with 31).
  change NodeID.Max with 127. cbn -[Z.pow TransferID.wf]. change NodeID.Max with 127. split_and!; try lia; try (apply Hw; lia); done.
Qed.

Lemma slave_follows_master_witness :
  exists n2, net_run 0 5000 1 7 example_net (example_history ++ EvSync 3000000 3000400 true true :: example_tail) = Some n2 /\
    clk_utc (n_clock n2) 5000000 = 5005000 /\ getMasterNodeID (5000000 + 7) (n_slave n2) = 10.
Proof.
  destruct (slave_follows_master 0 ltac:(change (Z.to_nat MaxCanIfaces) with 3%nat; lia) 10 ltac:(change NodeID.Max with 127; lia) 5000 1 7 ltac:(lia) ltac:(lia) ltac:(lia)
    0 example_world (SystemClock_make PerDriverPrivate) example_history 3000000 3000400 true example_tail)
    as (n1 & E1 & A).
  - reflexivity.
  - cbn. lia.
  - lia.
  - reflexivity.
  - reflexivity.
  - cbn. unfold MaxCanIfaces. lia.
  - exact example_events_ok.
  - pose proof example_history_pub as Hp. unfold example_net in *. rewrite E1 in Hp. cbn [fmap option_fmap option_map] in Hp.
    injection Hp as Hp.
    destruct A as (n2 & E2 & A).
    + rewrite Hp. cbn. lia.
    + cbn. lia.
    + reflexivity.
    + exists n2. destruct (A 5000000) as [A1 A2]; [cbn; lia|].
      split; [|split; [exact A1|apply A2; cbn; lia]].
      assert (Happ : forall l1 l2 n, net_run 0 5000 1 7 n (l1 ++ l2) = (n ← net_run (C := SystemClock) 0 5000 1 7 n l1; net_run 0 5000 1 7 n l2)).
      { clear. induction l1 as [|e l1 IH]; intros l2 n; [done|]. cbn [net_run app]. destruct (net_step _ _ _ _ n e); [apply IH|done]. }
      rewrite Happ, E1. exact E2.
Defined.
End SimSync.
