(* ===== verification/Services.v ===== *)
(** * Services: publishers, subscribers, service clients and servers

    Models [GenericPublisher] and [Publisher] ([libuavcan/include/uavcan/node/generic_publisher.hpp],
    [libuavcan/src/node/uc_generic_publisher.cpp], [libuavcan/include/uavcan/node/publisher.hpp]), [GenericSubscriber] and [Subscriber]
    ([libuavcan/include/uavcan/node/generic_subscriber.hpp], [libuavcan/src/node/uc_generic_subscriber.cpp],
    [libuavcan/include/uavcan/node/subscriber.hpp]), [ServiceClient] ([libuavcan/include/uavcan/node/service_client.hpp],
    [libuavcan/src/node/uc_service_client.cpp]) and [ServiceServer] ([libuavcan/include/uavcan/node/service_server.hpp]).
    The node they belong to is the class [INode]. The registry of pending calls is a list: in which
    of its slots a call is kept does not matter (see [PoolMultiset]). A call state and the
    client are deadline handlers; which of those that are due the scheduler
    runs first is left open. *)

From stdpp Require Import list.
From S2P Require Import Prelude MonoTime Transfer Crc Frame LinkedList CanTxQueue OutgoingTransferRegistry TransferListener TransferSender.
Local Open Scope Z_scope.

(** The lists of listeners of the dispatcher. *)
Inductive ListenerKind := MessageListener | ServiceRequestListener | ServiceResponseListener.

(** What publishers, subscribers and clients use of their node: the clock, the
    registry of data types (frozen, then searched for the data type of the object), [TransferSender::send] with or without a
    transfer ID, the registration of the listener of this object, the registry of outgoing transfers
    (see [Otr_next]), memory for a call state, and the transfer error counter. *)
Class INode (W : Type) := {
  node_getMonotonicTime : W -> Z;
  node_getNodeID : W -> Z;
  node_find : W -> option DataTypeDescriptor;
  node_send : W -> TransferSender -> list Z -> Z -> Z -> TransferType -> Z -> option Z -> Z * W;
  node_register : W -> ListenerKind -> bool * W;
  node_unregister : W -> W;
  node_next_tid : W -> OutgoingTransferRegistryKey -> Z -> option Z * W;
  node_emplace : W -> bool * W;
  node_addError : W -> W
}.

(** ** Publishers *)

Record GenericPublisher := mkPublisher { sender_ : TransferSender; tx_timeout_ : Z }.

Definition getMinTxTimeout : Z := Duration.fromUSec 200.
Definition getMaxTxTimeout : Z := Duration.fromMSec 60000.

(** [void GenericPublisherBase::setTxTimeout(MonotonicDuration tx_timeout)]. *)
Definition setTxTimeout (p : GenericPublisher) (tx_timeout : Z) : GenericPublisher :=
  let tx_timeout := Z.max tx_timeout getMinTxTimeout in
  let tx_timeout := Z.min tx_timeout getMaxTxTimeout in
  mkPublisher (sender_ p) tx_timeout.

Definition GenericPublisher_make (tx_timeout max_transfer_interval : Z) : GenericPublisher :=
  setTxTimeout (mkPublisher (TransferSender_make max_transfer_interval) tx_timeout) tx_timeout.

Definition Publisher_setPriority (p : GenericPublisher) (prio : Z) : GenericPublisher :=
  let s := sender_ p in
  mkPublisher (mkSender (ts_max_transfer_interval_ s) prio (ts_qos_ s) (ts_crc_base_ s) (ts_data_type_id_ s) (ts_flags_ s)
                 (ts_iface_mask_ s) (ts_allow_anonymous_transfers_ s)) (tx_timeout_ p).

Definition isInited (p : GenericPublisher) : bool := Sender_isInitialized (sender_ p).

Section publisher.
Context {W : Type} `{INode W}.
(** The kind of the data type, and the generated encoder: its result and what it wrote. *)
Context (kind : DataTypeKind) {M : Type} (encode : M -> Z * list Z).

Definition Publisher_qos : Qos := match kind with DataTypeKindMessage => Volatile | _ => Persistent end.

(** [int GenericPublisherBase::doInit(DataTypeKind dtkind, const char* dtname, CanTxQueue::Qos qos)]. *)
Definition doInit (w : W) (p : GenericPublisher) (qos : Qos) : Z * GenericPublisher :=
  if isInited p then (0, p)
  else match node_find w with
       | None => (- ErrUnknownDataType, p)
       | Some descr => (0, mkPublisher (Sender_init (sender_ p) descr qos) (tx_timeout_ p))
       end.

(** [int GenericPublisher::checkInit()] and [init(TransferPriority priority)]. *)
Definition Publisher_checkInit (w : W) (p : GenericPublisher) : Z * GenericPublisher :=
  if isInited p then (0, p) else doInit w p Publisher_qos.
Definition Publisher_init (w : W) (p : GenericPublisher) (priority : Z) : Z * GenericPublisher :=
  Publisher_checkInit w (Publisher_setPriority p priority).

(** [MonotonicTime GenericPublisherBase::getTxDeadline() const]. *)
Definition getTxDeadline (w : W) (p : GenericPublisher) : Z := MTime.plus (node_getMonotonicTime w) (tx_timeout_ p).

(** [int GenericPublisher::doEncode(const DataStruct& message, ITransferBuffer& buffer) const]. *)
Definition doEncode (message : M) : Z * list Z :=
  let '(encode_res, buffer) := encode message in
  (if encode_res <=? 0 then - ErrInvalidMarshalData else encode_res, buffer).

(** [int GenericPublisher::genericPublish(const DataStruct& message, TransferType transfer_type, NodeID dst_node_id,
    TransferID* tid, MonotonicTime blocking_deadline)]. *)
Definition genericPublish (w : W) (p : GenericPublisher) (message : M) (transfer_type : TransferType) (dst_node_id : Z)
    (tid : option Z) (blocking_deadline : Z) : Z * W * GenericPublisher :=
  let '(res, p) := Publisher_checkInit w p in
  if res <? 0 then (res, w, p)
  else
    let '(encode_res, buffer) := doEncode message in
    if encode_res <? 0 then (encode_res, w, p)
    else
      let '(res, w) := node_send w (sender_ p) buffer (getTxDeadline w p) blocking_deadline transfer_type dst_node_id tid in
      (res, w, p).

(** [int Publisher::broadcast(const DataType& message)] and the overload with a transfer ID. *)
Definition broadcast (w : W) (p : GenericPublisher) (message : M) (tid : option Z) : Z * W * GenericPublisher :=
  genericPublish w p message TransferTypeMessageBroadcast NodeID.Broadcast tid 0.
End publisher.

(** ** Subscribers *)

(** [GenericSubscriber]: whether [forwarder_] is constructed, and in which list of
    the dispatcher it is. *)
Record GenericSubscriber := mkSubscriber { forwarder_ : bool; registered_ : option ListenerKind; failure_count_ : Z }.
Definition GenericSubscriber_make : GenericSubscriber := mkSubscriber false None 0.

Section subscriber.
Context {W : Type} `{INode W}.

(** [void GenericSubscriber::stop()]. *)
Definition Subscriber_stop (w : W) (s : GenericSubscriber) : W * GenericSubscriber :=
  if forwarder_ s then (node_unregister w, mkSubscriber true None (failure_count_ s)) else (w, s).

(** [int GenericSubscriber::checkInit()]. *)
Definition Subscriber_checkInit (w : W) (s : GenericSubscriber) : Z * GenericSubscriber :=
  if forwarder_ s then (0, s)
  else match node_find w with
       | None => (- ErrUnknownDataType, s)
       | Some _ => (0, mkSubscriber true (registered_ s) (failure_count_ s))
       end.

(** [int GenericSubscriber::genericStart(bool (Dispatcher::*registration_method)(TransferListener* ))]. *)
Definition genericStart (w : W) (s : GenericSubscriber) (kind : ListenerKind) : Z * W * GenericSubscriber :=
  let '(res, s) := Subscriber_checkInit w s in
  if res <? 0 then (res, w, s)
  else
    let '(w, s) := Subscriber_stop w s in
    let '(ok, w) := node_register w kind in
    if ok then (0, w, mkSubscriber (forwarder_ s) (Some kind) (failure_count_ s)) else (- ErrInvalidTransferListener, w, s).

(** [int Subscriber::start(const Callback& callback)], with the member [callback_]; [None] is an empty callback. *)
Definition Subscriber_start {Callback : Type} (w : W) (s : GenericSubscriber) (callback_ callback : option Callback)
    : Z * W * GenericSubscriber * option Callback :=
  let '(w, s) := Subscriber_stop w s in
  match callback with
  | None => (- ErrInvalidParam, w, s, callback_)
  | Some cb => let '(res, w, s) := genericStart w s MessageListener in (res, w, s, Some cb)
  end.
End subscriber.

(** ** Service clients *)

Record ServiceCallID := mkCallID { server_node_id : Z; transfer_id : Z }.
#[export] Instance ServiceCallID_eq_dec : EqDecision ServiceCallID.
Proof. solve_decision. Defined.
Definition ServiceCallID_default : ServiceCallID := mkCallID NodeID.default TransferID.default.
Definition CallID_isValid (id : ServiceCallID) : bool := NodeID.isUnicast (server_node_id id).

Inductive CallStatus := Success | ErrorTimeout.
(** [ServiceCallResult]: a response comes with a successful one. *)
Record ServiceCallResult (R : Type) := mkResult { status_ : CallStatus; call_id_ : ServiceCallID; response_ : option R }.
Arguments mkResult {_}.
Arguments status_ {_}.
Arguments call_id_ {_}.
Arguments response_ {_}.

(** [CallState]; the deadline while its handler is running. *)
Record CallState := mkCallState { id_ : ServiceCallID; timed_out_ : bool; cs_deadline_ : option Z }.

(** [CallStateMatchingPredicate] and [ServerSearchPredicate]. *)
Definition CallStateMatchingPredicate (id : ServiceCallID) (state : CallState) : bool :=
  bool_decide (id_ state = id) && negb (timed_out_ state).
Definition ServerSearchPredicate (nid : Z) (state : CallState) : bool := server_node_id (id_ state) =? nid.

Definition getDefaultRequestTimeout : Z := Duration.fromMSec 500.
Definition getMinRequestTimeout : Z := Duration.fromMSec 10.
Definition getMaxRequestTimeout : Z := Duration.fromMSec 60000.

(** [shared_deadline_] is whether the deadline handler of the client itself is running. *)
Record ServiceClient := mkServiceClient {
  sc_subscriber : GenericSubscriber;
  sc_publisher : GenericPublisher;
  data_type_descriptor_ : option DataTypeDescriptor;
  request_timeout_ : Z;
  call_registry_ : list CallState;
  shared_deadline_ : bool;
  sc_has_callback : bool;
  sc_has_filter : bool
}.

Definition set_registry (c : ServiceClient) (l : list CallState) : ServiceClient :=
  mkServiceClient (sc_subscriber c) (sc_publisher c) (data_type_descriptor_ c) (request_timeout_ c) l (shared_deadline_ c)
    (sc_has_callback c) (sc_has_filter c).
Definition set_subscriber (c : ServiceClient) (s : GenericSubscriber) : ServiceClient :=
  mkServiceClient s (sc_publisher c) (data_type_descriptor_ c) (request_timeout_ c) (call_registry_ c) (shared_deadline_ c)
    (sc_has_callback c) (sc_has_filter c).
Definition set_publisher (c : ServiceClient) (p : GenericPublisher) : ServiceClient :=
  mkServiceClient (sc_subscriber c) p (data_type_descriptor_ c) (request_timeout_ c) (call_registry_ c) (shared_deadline_ c)
    (sc_has_callback c) (sc_has_filter c).
Definition set_shared (c : ServiceClient) (b : bool) : ServiceClient :=
  mkServiceClient (sc_subscriber c) (sc_publisher c) (data_type_descriptor_ c) (request_timeout_ c) (call_registry_ c) b
    (sc_has_callback c) (sc_has_filter c).

(** [void ServiceClient::setRequestTimeout(MonotonicDuration timeout)]. *)
Definition setRequestTimeout (c : ServiceClient) (timeout : Z) : ServiceClient :=
  let timeout := Z.max timeout getMinRequestTimeout in
  let timeout := Z.min timeout getMaxRequestTimeout in
  let p := setTxTimeout (sc_publisher c) timeout in
  mkServiceClient (sc_subscriber c) p (data_type_descriptor_ c) (Z.max timeout (tx_timeout_ p)) (call_registry_ c) (shared_deadline_ c)
    (sc_has_callback c) (sc_has_filter c).

(** [explicit ServiceClient(INode& node, const Callback& callback)]. *)
Definition ServiceClient_make (has_callback : bool) : ServiceClient :=
  let p := Publisher_setPriority (GenericPublisher_make getDefaultRequestTimeout getDefaultMaxTransferInterval) TransferPriority.MiddleLower in
  setRequestTimeout
    (mkServiceClient GenericSubscriber_make p None getDefaultRequestTimeout [] false has_callback false) getDefaultRequestTimeout.

Definition hasPendingCalls (c : ServiceClient) : bool := match call_registry_ c with [] => false | _ => true end.
Definition getNumPendingCalls (c : ServiceClient) : nat := length (call_registry_ c).

(** [bool ServiceClient::hasPendingCallToServer(NodeID server_node_id) const]. *)
Definition hasPendingCallToServer (c : ServiceClient) (nid : Z) : bool := existsb (ServerSearchPredicate nid) (call_registry_ c).

(** [ServiceCallID ServiceClient::getCallIDByIndex(unsigned index) const]. *)
Definition getCallIDByIndex (c : ServiceClient) (index : nat) : ServiceCallID :=
  match call_registry_ c !! index with None => ServiceCallID_default | Some cs => id_ cs end.

(** [bool ServiceClient::shouldAcceptFrame(const RxFrame& frame) const]: its source and transfer ID. *)
Definition shouldAcceptFrame (c : ServiceClient) (frame : RxFrame) : bool :=
  existsb (CallStateMatchingPredicate (mkCallID (src_node_id_ (rx_frame frame)) (transfer_id_ (rx_frame frame)))) (call_registry_ c).

Section client.
Context {W : Type} `{INode W} {Q R : Type} (encode : Q -> Z * list Z).
Abbreviation C := ServiceClient.

Definition stop_if_empty (w : W) (c : C) : W * C :=
  if hasPendingCalls c then (w, c) else let '(w, s) := Subscriber_stop w (sc_subscriber c) in (w, set_subscriber c s).

(** [void ServiceClient::cancelCall(ServiceCallID call_id)]; [call_registry_.removeFirstWhere] destroys
    the call state, which stops its handler. *)
Definition cancelCall (w : W) (c : C) (call_id : ServiceCallID) : W * C :=
  stop_if_empty w (set_registry c (remove_first (CallStateMatchingPredicate call_id) (call_registry_ c))).

(** [void ServiceClient::cancelAllCalls()]. *)
Definition cancelAllCalls (w : W) (c : C) : W * C :=
  let '(w, s) := Subscriber_stop w (sc_subscriber c) in (w, set_subscriber (set_registry c []) s).

(** [int ServiceClientBase::prepareToCall(INode& node, const char* dtname, NodeID server_node_id, ServiceCallID& out_call_id)]:
    the result and the call ID. *)
Definition prepareToCall (w : W) (c : C) (nid : Z) : Z * ServiceCallID * W * C :=
  if negb (NodeID.isUnicast nid) || (nid =? node_getNodeID w) then (- ErrInvalidParam, ServiceCallID_default, w, c)
  else
    let out := mkCallID nid TransferID.default in
    match (match data_type_descriptor_ c with Some d => Some d | None => node_find w end) with
    | None => (- ErrUnknownDataType, out, w, c)
    | Some d =>
        let c := mkServiceClient (sc_subscriber c) (sc_publisher c) (Some d) (request_timeout_ c) (call_registry_ c)
                   (shared_deadline_ c) (sc_has_callback c) (sc_has_filter c) in
        let otr_key := OtrKey_make (dt_id d) TransferTypeServiceRequest nid in
        let otr_deadline := MTime.plus (node_getMonotonicTime w) getDefaultMaxTransferInterval in
        match node_next_tid w otr_key otr_deadline with
        | (None, w) => (- ErrMemory, out, w, c)
        | (Some tid, w) => (0, mkCallID nid tid, w, c)
        end
    end.

(** [int ServiceClient::addCallState(ServiceCallID call_id)]; the constructor of the call state starts its handler. *)
Definition addCallState (w : W) (c : C) (call_id : ServiceCallID) : Z * W * C :=
  let '(subscriber_res, w, c) :=
    if hasPendingCalls c then (0, w, c)
    else let '(res, w, s) := genericStart w (sc_subscriber c) ServiceResponseListener in (res, w, set_subscriber c s) in
  if subscriber_res <? 0 then (subscriber_res, w, c)
  else
    let '(ok, w) := node_emplace w in
    if ok then
      let deadline := MTime.plus (node_getMonotonicTime w) (request_timeout_ c) in
      (0, w, set_registry c (call_registry_ c ++ [mkCallState call_id false (Some deadline)]))
    else
      let '(w, s) := Subscriber_stop w (sc_subscriber c) in
      (- ErrMemory, w, set_subscriber c s).

(** [int ServiceClient::call(NodeID server_node_id, const RequestType& request, ServiceCallID& out_call_id)]. *)
Definition call (w : W) (c : C) (nid : Z) (request : Q) : Z * ServiceCallID * W * C :=
  if negb (sc_has_callback c) then (- ErrInvalidConfiguration, ServiceCallID_default, w, c)
  else
    let '(prep_res, id, w, c) := prepareToCall w c nid in
    if prep_res <? 0 then (prep_res, id, w, c)
    else
      let '(call_state_res, w, c) := addCallState w c id in
      if call_state_res <? 0 then (call_state_res, id, w, c)
      else if negb (forwarder_ (sc_subscriber c)) then
        let '(w, c) := cancelCall w c id in (- ErrLogic, id, w, c)
      else
        let c := mkServiceClient (sc_subscriber c) (sc_publisher c) (data_type_descriptor_ c) (request_timeout_ c) (call_registry_ c)
                   (shared_deadline_ c) (sc_has_callback c) true in
        let '(publisher_res, w, p) :=
          genericPublish DataTypeKindService encode w (sc_publisher c) request TransferTypeServiceRequest nid (Some (transfer_id id)) 0 in
        let c := set_publisher c p in
        if publisher_res <? 0 then let '(w, c) := cancelCall w c id in (publisher_res, id, w, c)
        else (publisher_res, id, w, c).

(** *** What the application makes of results *)

(** In the callback the application may make and cancel calls. *)
Inductive ClientOp := OpCall (nid : Z) (request : Q) | OpCancel (id : ServiceCallID).
Context (callback : ServiceCallResult R -> list ClientOp).

(** What happens to calls: accepted by [call], answered, cancelled. *)
Inductive CallEvent := EvAccepted (id : ServiceCallID) | EvResult (status : CallStatus) (id : ServiceCallID) | EvCancelled (id : ServiceCallID).

Definition user_call (w : W) (c : C) (nid : Z) (request : Q) : list CallEvent * W * C :=
  let '(res, id, w, c) := call w c nid request in ((if res <? 0 then [] else [EvAccepted id]), w, c).
Definition user_cancel (w : W) (c : C) (id : ServiceCallID) : list CallEvent * W * C :=
  let found := existsb (CallStateMatchingPredicate id) (call_registry_ c) in
  let '(w, c) := cancelCall w c id in ((if found then [EvCancelled id] else []), w, c).

Definition client_op (st : list CallEvent * W * C) (op : ClientOp) : list CallEvent * W * C :=
  let '(log, w, c) := st in
  let '(log', w, c) := match op with OpCall nid request => user_call w c nid request | OpCancel id => user_cancel w c id end in
  (log ++ log', w, c).

(** [void ServiceClient::invokeCallback(ServiceCallResultType& result)]. *)
Definition invokeCallback (st : list CallEvent * W * C) (result : ServiceCallResult R) : list CallEvent * W * C :=
  let '(log, w, c) := st in
  foldl client_op (log ++ [EvResult (status_ result) (call_id_ result)], w, c) (callback result).

(** [void ServiceClient::handleReceivedDataStruct(ReceivedDataStructure<ResponseType>& response)]. *)
Definition Client_handleReceivedDataStruct (w : W) (c : C) (src tid : Z) (response : R) : list CallEvent * W * C :=
  let call_id := mkCallID src tid in
  let '(w, c) := cancelCall w c call_id in
  invokeCallback ([], w, c) (mkResult Success call_id (Some response)).

(** The last frame of a response, which the filter of the listener lets through or not. *)
Definition Client_handleResponse (w : W) (c : C) (frame : RxFrame) (response : R) : list CallEvent * W * C :=
  if shouldAcceptFrame c frame
  then Client_handleReceivedDataStruct w c (src_node_id_ (rx_frame frame)) (transfer_id_ (rx_frame frame)) response
  else ([], w, c).

(** [void ServiceClientBase::CallState::handleDeadline(MonotonicTime)] of the call state at [i]; the
    scheduler has stopped its handler. *)
Definition CallState_handleDeadline (c : C) (i : nat) : C :=
  match call_registry_ c !! i with
  | None => c
  | Some cs => set_shared (set_registry c (<[i := mkCallState (id_ cs) true None]> (call_registry_ c))) true
  end.

(** [void ServiceClient::handleDeadline(MonotonicTime)]; the scheduler has stopped its handler. *)
Definition Client_handleDeadline (w : W) (c : C) : list CallEvent * W * C :=
  let c := set_shared c false in
  let timed_out := filter (fun cs => timed_out_ cs = true) (call_registry_ c) in
  let '(log, w, c) := foldl (fun st cs => invokeCallback st (mkResult ErrorTimeout (id_ cs) None)) ([], w, c) timed_out in
  let c := set_registry c (filter (fun cs => timed_out_ cs = false) (call_registry_ c)) in
  let '(w, c) := stop_if_empty w c in
  (log, w, c).
End client.
Arguments EvAccepted _ : clear implicits.

(** ** Every call gets one result *)

(** What a node promises: its clock does not go back. *)
Class INodeLaws (W : Type) `{INode W} := {
  node_time_range w : 1 <= node_getMonotonicTime w < 2 ^ 62;
  node_send_time w s b d1 d2 t n i : node_getMonotonicTime w <= node_getMonotonicTime (node_send w s b d1 d2 t n i).2;
  node_register_time w k : node_getMonotonicTime w <= node_getMonotonicTime (node_register w k).2;
  node_unregister_time w : node_getMonotonicTime w <= node_getMonotonicTime (node_unregister w);
  node_next_tid_time w k d : node_getMonotonicTime w <= node_getMonotonicTime (node_next_tid w k d).2;
  node_emplace_time w : node_getMonotonicTime w <= node_getMonotonicTime (node_emplace w).2
}.

Definition accepted (log : list CallEvent) : list ServiceCallID := omap (fun e => match e with EvAccepted id => Some id | _ => None end) log.
Definition answered (log : list CallEvent) : list ServiceCallID := omap (fun e => match e with EvResult _ id => Some id | _ => None end) log.
Definition cancelled (log : list CallEvent) : list ServiceCallID := omap (fun e => match e with EvCancelled id => Some id | _ => None end) log.
Definition pending (c : ServiceClient) : list ServiceCallID := id_ <$> call_registry_ c.

(** A call is running with a deadline, or has timed out. *)
Definition call_state_ok (cs : CallState) : Prop :=
  if timed_out_ cs then cs_deadline_ cs = None else exists d, cs_deadline_ cs = Some d.

Definition timed_out (c : ServiceClient) : list CallState := filter (fun cs => timed_out_ cs = true) (call_registry_ c).
Definition due (now : Z) (cs : CallState) : bool := match cs_deadline_ cs with Some d => d <=? now | None => false end.

Section answers.
Context {W : Type} `{INodeLaws W} {Q R : Type} (encode : Q -> Z * list Z) (callback : ServiceCallResult R -> list (@ClientOp Q)).
Abbreviation C := ServiceClient.
Abbreviation count l x := (count_occ ServiceCallID_eq_dec l x).

(** Every call is accounted for: the calls before, the accepted ones and those of [debt] are those answered, cancelled and pending. *)
Definition balanced (debt : list ServiceCallID) (c : C) (log : list CallEvent) (c' : C) : Prop :=
  forall x, (count (accepted log) x + count (pending c) x + count debt x = count (answered log) x + count (cancelled log) x + count (pending c') x)%nat.

Lemma accepted_app l l' : accepted (l ++ l') = accepted l ++ accepted l'. Proof. apply omap_app. Qed.
Lemma answered_app l l' : answered (l ++ l') = answered l ++ answered l'. Proof. apply omap_app. Qed.
Lemma cancelled_app l l' : cancelled (l ++ l') = cancelled l ++ cancelled l'. Proof. apply omap_app. Qed.

Lemma balanced_trans d d' c log c1 log' c' : balanced d c log c1 -> balanced d' c1 log' c' -> balanced (d ++ d') c (log ++ log') c'.
Proof. intros H1 H2 x. specialize (H1 x). specialize (H2 x). rewrite accepted_app, answered_app, cancelled_app, !count_occ_app. lia. Qed.

Lemma count_cons a l x : count (a :: l) x = ((if ServiceCallID_eq_dec a x then 1 else 0) + count l x)%nat.
Proof. cbn. destruct (ServiceCallID_eq_dec a x); lia. Qed.

(** Removing the first match removes one pending call of that ID, which has not timed out. *)
Lemma remove_match id l :
  (if existsb (CallStateMatchingPredicate id) l
   then forall x, count (id_ <$> l) x = (count [id] x + count (id_ <$> remove_first (CallStateMatchingPredicate id) l) x)%nat
   else remove_first (CallStateMatchingPredicate id) l = l) /\
  filter (fun cs => timed_out_ cs = true) (remove_first (CallStateMatchingPredicate id) l) = filter (fun cs => timed_out_ cs = true) l.
Proof.
  induction l as [|cs l [IH1 IH2]]; [done|]. cbn [existsb remove_first]. destruct (CallStateMatchingPredicate id cs) eqn:E; cbn [orb].
  - split.
    + intros x. rewrite fmap_cons. unfold CallStateMatchingPredicate in E. apply andb_true_iff in E as [->%bool_decide_eq_true _].
      rewrite !count_cons. cbn. lia.
    + rewrite filter_cons. unfold CallStateMatchingPredicate in E. rewrite decide_False; [done|]. intros Ht. rewrite Ht, andb_false_r in E. done.
  - split.
    + destruct (existsb _ l); [|by rewrite IH1]. intros x. rewrite !fmap_cons, !count_cons, (IH1 x), count_cons. lia.
    + rewrite !filter_cons, IH2. done.
Qed.

(** What an operation that leaves the timed out calls alone does. *)
Record op_ok (debt : list ServiceCallID) (now : Z) (w : W) (c : C) (log : list CallEvent) (w' : W) (c' : C) : Prop := {
  oo_balanced : balanced debt c log c';
  oo_time : node_getMonotonicTime w <= node_getMonotonicTime w';
  oo_timeout : request_timeout_ c' = request_timeout_ c;
  oo_shared : shared_deadline_ c' = shared_deadline_ c;
  oo_timed_out : timed_out c' = timed_out c;
  oo_states : Forall call_state_ok (call_registry_ c) -> Forall call_state_ok (call_registry_ c');
  oo_due : (length (filter (fun cs => due now cs = true) (call_registry_ c')) <= length (filter (fun cs => due now cs = true) (call_registry_ c)))%nat
}.

Lemma op_ok_trans_debt d d' now w c log w1 c1 log' w' c' :
  op_ok d now w c log w1 c1 -> op_ok d' now w1 c1 log' w' c' -> op_ok (d ++ d') now w c (log ++ log') w' c'.
Proof.
  intros [A1 A2 A3 A4 A5 A6 A7] [B1 B2 B3 B4 B5 B6 B7]. split; [by eapply balanced_trans|lia|congruence|congruence|congruence|auto|lia].
Qed.
Lemma op_ok_trans now w c log w1 c1 log' w' c' : op_ok [] now w c log w1 c1 -> op_ok [] now w1 c1 log' w' c' -> op_ok [] now w c (log ++ log') w' c'.
Proof. apply (op_ok_trans_debt [] []). Qed.

(** Only the subscriber, the publisher and the like change. *)
Lemma op_ok_same now w c w' c' :
  call_registry_ c' = call_registry_ c -> shared_deadline_ c' = shared_deadline_ c -> request_timeout_ c' = request_timeout_ c ->
  node_getMonotonicTime w <= node_getMonotonicTime w' -> op_ok [] now w c [] w' c'.
Proof.
  intros E1 E2 E3 Ht. split; try done.
  - intros x. unfold pending. rewrite E1. done.
  - unfold timed_out. by rewrite E1.
  - by rewrite E1.
  - by rewrite E1.
Qed.

Lemma stop_if_empty_ok now w c : op_ok [] now w c [] (stop_if_empty w c).1 (stop_if_empty w c).2.
Proof.
  unfold stop_if_empty, Subscriber_stop. destruct (hasPendingCalls c); [apply op_ok_same; done|]. destruct (forwarder_ _); apply op_ok_same; try done.
  cbn. apply node_unregister_time.
Qed.

Lemma filter_remove_first {X} (P : X -> Prop) `{forall x, Decision (P x)} f (l : list X) :
  (length (filter P (remove_first f l)) <= length (filter P l))%nat.
Proof.
  induction l as [|y l IH]; [done|]. cbn [remove_first]. destruct (f y); rewrite !filter_cons; repeat case_decide; cbn; lia.
Qed.

Lemma Forall_remove_first {X} (P : X -> Prop) f (l : list X) : Forall P l -> Forall P (remove_first f l).
Proof. induction 1 as [|y l Hy Hl IH]; [done|]. cbn. destruct (f y); [done|by constructor]. Qed.

(** [cancelCall]. *)
Lemma cancelCall_ok now w c id :
  op_ok [] now w c (if existsb (CallStateMatchingPredicate id) (call_registry_ c) then [EvCancelled id] else []) (cancelCall w c id).1 (cancelCall w c id).2.
Proof.
  unfold cancelCall. set (c1 := set_registry c _). set (log := if existsb _ _ then _ else _).
  rewrite <-(app_nil_r log). apply (op_ok_trans now w c log w c1); [|apply stop_if_empty_ok]. unfold log. clear log. destruct (remove_match id (call_registry_ c)) as [Hm Hf].
  split; try done.
  - intros x. unfold pending. cbn [c1 set_registry call_registry_]. destruct (existsb _ _); [rewrite (Hm x); cbn [cancelled omap]; cbn; lia|by rewrite Hm].
  - intros Hs. by apply Forall_remove_first.
  - cbn [c1 set_registry call_registry_]. apply filter_remove_first.
Qed.

Lemma genericStart_time w s k : node_getMonotonicTime w <= node_getMonotonicTime (genericStart w s k).1.2.
Proof.
  unfold genericStart. destruct (Subscriber_checkInit w s) as [res s1]. destruct (res <? 0); [done|].
  unfold Subscriber_stop. destruct (forwarder_ s1).
  - pose proof (node_unregister_time w). pose proof (node_register_time (node_unregister w) k). destruct (node_register _ k) as [[] w1]; cbn in *; lia.
  - pose proof (node_register_time w k). destruct (node_register _ k) as [[] w1]; cbn in *; lia.
Qed.

Lemma Subscriber_stop_time w s : node_getMonotonicTime w <= node_getMonotonicTime (Subscriber_stop w s).1.
Proof. unfold Subscriber_stop. destruct (forwarder_ s); [apply node_unregister_time|done]. Qed.

Lemma genericPublish_time w p q t n i b : node_getMonotonicTime w <= node_getMonotonicTime (genericPublish DataTypeKindService encode w p q t n i b).1.2.
Proof.
  unfold genericPublish. destruct (Publisher_checkInit _ w p) as [res p1]. destruct (res <? 0); [done|]. destruct (doEncode encode q) as [res1 buf].
  destruct (res1 <? 0); [done|]. pose proof (node_send_time w (sender_ p1) buf (getTxDeadline w p1) b t n i). by destruct (node_send _ _ _ _ _ _ _ _).
Qed.

(** A new call state. *)
Lemma new_call_ok now w c id dl : now < dl -> op_ok [] now w c [EvAccepted id] w (set_registry c (call_registry_ c ++ [mkCallState id false (Some dl)])).
Proof.
  intros Hdl. split; try done.
  - intros x. unfold pending. cbn [set_registry call_registry_]. rewrite fmap_app, count_occ_app. cbn [accepted answered cancelled omap list_omap fmap list_fmap id_].
    rewrite !count_cons. cbn. lia.
  - unfold timed_out. cbn [set_registry call_registry_]. rewrite filter_app. cbn. by rewrite app_nil_r.
  - intros Hs. apply Forall_app. split; [exact Hs|]. apply Forall_singleton. by exists dl.
  - cbn [set_registry call_registry_]. rewrite filter_app, filter_cons. unfold due at 2. cbn [cs_deadline_].
    rewrite decide_False by (intros Hd; apply Z.leb_le in Hd; lia). cbn. rewrite app_nil_r. done.
Qed.

(** A call that was taken back. *)
Lemma taken_back now w c id w' c' : op_ok [] now w c [EvAccepted id; EvCancelled id] w' c' -> op_ok [] now w c [] w' c'.
Proof.
  intros [A1 A2 A3 A4 A5 A6 A7]. split; try done. intros x. specialize (A1 x). cbn [accepted answered cancelled omap list_omap] in *.
  rewrite !count_cons in A1. cbn [count_occ] in *. lia.
Qed.

(** [prepareToCall] and [addCallState]. *)
Lemma prepareToCall_ok now w c nid :
  let '(res, id, w', c') := prepareToCall w c nid in
  op_ok [] now w c [] w' c' /\ sc_subscriber c' = sc_subscriber c /\ (0 <= res -> server_node_id id = nid /\ CallID_isValid id = true).
Proof.
  unfold prepareToCall. destruct (negb _ || _) eqn:E; [split; [by apply op_ok_same|done]|].
  assert (NodeID.isUnicast nid = true) as Hu by (destruct (NodeID.isUnicast nid); done).
  destruct (match data_type_descriptor_ c with Some _ => _ | None => _ end) as [d|]; [|split; [by apply op_ok_same|done]].
  match goal with |- context [node_next_tid w ?k ?d] => pose proof (node_next_tid_time w k d) as Ht; destruct (node_next_tid w k d) as [[tid|] w'] end;
    (split; [by apply op_ok_same|split; [done|]]); [by split|]. unfold ErrMemory. lia.
Qed.

Lemma addCallState_ok now w c id :
  now <= node_getMonotonicTime w -> 1 <= request_timeout_ c < 2 ^ 62 ->
  let '(res, w', c') := addCallState w c id in
  if res <? 0 then op_ok [] now w c [] w' c' else op_ok [] now w c [EvAccepted id] w' c' /\ exists cs, cs ∈ call_registry_ c' /\ CallStateMatchingPredicate id cs = true.
Proof.
  intros Hnow Hto. unfold addCallState.
  destruct (if hasPendingCalls c then _ else _) as [[res w1] c1] eqn:E1.
  assert (A1 : op_ok [] now w c [] w1 c1).
  { destruct (hasPendingCalls c); [injection E1 as <- <- <-; by apply op_ok_same|].
    pose proof (genericStart_time w (sc_subscriber c) ServiceResponseListener) as Ht. destruct (genericStart _ _ _) as [[r w2] s2].
    injection E1 as <- <- <-. by apply op_ok_same. }
  clear E1. destruct (res <? 0) eqn:Er; [by rewrite Er|]. pose proof (node_emplace_time w1) as Ht. pose proof (oo_time _ _ _ _ _ _ _ A1) as Ht1.
  destruct (node_emplace w1) as [[] w2]; cbn [snd] in Ht.
  - change (0 <? 0) with false. cbv iota. split.
    + change [EvAccepted id] with ([] ++ [EvAccepted id]). apply (op_ok_trans now w c [] w1 c1); [done|].
      rewrite <-(oo_timeout _ _ _ _ _ _ _ A1) in Hto. pose proof (node_time_range w2).
      change [EvAccepted id] with ([] ++ [EvAccepted id]). apply (op_ok_trans now w1 c1 [] w2 c1); [by apply op_ok_same|]. apply new_call_ok.
      rewrite time_plus_exact by (unfold in_width, Duration.wf; lia). lia.
    + eexists. cbn [set_registry call_registry_]. split; [apply elem_of_app; right; by left|]. unfold CallStateMatchingPredicate. cbn. by rewrite bool_decide_true.
  - change (- ErrMemory <? 0) with true. cbv iota. pose proof (Subscriber_stop_time w2 (sc_subscriber c1)) as Ht2.
    destruct (Subscriber_stop _ _) as [w3 s3]. cbn [fst] in Ht2.
    apply (op_ok_trans now w c [] w1 c1 []); [done|]. apply op_ok_same; try done. lia.
Qed.

Lemma existsb_elem {X} (f : X -> bool) l x : x ∈ l -> f x = true -> existsb f l = true.
Proof. intros Hx Hf. apply existsb_exists. exists x. by rewrite <-list_elem_of_In. Qed.

Lemma call_ok now w c nid q :
  now <= node_getMonotonicTime w -> 1 <= request_timeout_ c < 2 ^ 62 ->
  let '(res, id, w', c') := call encode w c nid q in op_ok [] now w c (if res <? 0 then [] else [EvAccepted id]) w' c'.
Proof.
  intros Hnow Hto. unfold call. destruct (negb (sc_has_callback c)); [by apply op_ok_same|].
  pose proof (prepareToCall_ok now w c nid) as A. destruct (prepareToCall w c nid) as [[[res id] w1] c1]. destruct A as (A1 & _ & _).
  destruct (res <? 0) eqn:Er; [by rewrite Er|]. pose proof (oo_time _ _ _ _ _ _ _ A1) as Ht1.
  pose proof (addCallState_ok now w1 c1 id ltac:(lia)) as B. rewrite (oo_timeout _ _ _ _ _ _ _ A1) in B. specialize (B Hto).
  destruct (addCallState w1 c1 id) as [[res2 w2] c2]. destruct (res2 <? 0) eqn:Er2.
  { rewrite Er2. by apply (op_ok_trans now w c [] w1 c1 []). }
  destruct B as [B (cs & Hcs & Hm)]. assert (A2 : op_ok [] now w c [EvAccepted id] w2 c2).
  { change [EvAccepted id] with ([] ++ [EvAccepted id]). by apply (op_ok_trans now w c [] w1 c1). }
  assert (Hcancel : forall w3 c3, op_ok [] now w2 c2 [] w3 c3 -> call_registry_ c3 = call_registry_ c2 ->
    op_ok [] now w c [] (cancelCall w3 c3 id).1 (cancelCall w3 c3 id).2).
  { intros w3 c3 A3 E3. apply (taken_back now w c id). change [EvAccepted id; EvCancelled id] with ([EvAccepted id] ++ ([] ++ [EvCancelled id])).
    apply (op_ok_trans now w c _ w2 c2); [done|]. apply (op_ok_trans now w2 c2 _ w3 c3); [done|].
    pose proof (cancelCall_ok now w3 c3 id) as D. rewrite E3 in D. rewrite (existsb_elem _ _ cs Hcs Hm) in D. exact D. }
  destruct (negb (forwarder_ _)).
  { pose proof (Hcancel w2 c2 ltac:(by apply op_ok_same) eq_refl) as D. destruct (cancelCall w2 c2 id) as [w3 c3]. exact D. }
  match goal with |- context [genericPublish _ _ ?a ?b ?m ?t ?n ?i ?d] => pose proof (genericPublish_time a b m t n i d) as Ht3;
    destruct (genericPublish _ _ a b m t n i d) as [[res3 w3] p3] end. cbn [fst snd] in Ht3.
  match goal with |- context [set_publisher ?x p3] => set (c3 := set_publisher x p3) end.
  assert (A3 : op_ok [] now w2 c2 [] w3 c3) by (by apply op_ok_same).
  destruct (res3 <? 0) eqn:Er3.
  - pose proof (Hcancel w3 c3 A3 eq_refl) as D. destruct (cancelCall w3 c3 id) as [w4 c4]. by rewrite Er3.
  - rewrite Er3. rewrite <-(app_nil_r [EvAccepted id]). by apply (op_ok_trans now w c _ w2 c2).
Qed.

(** *** The callback *)

Lemma client_op_ok now log w c op :
  now <= node_getMonotonicTime w -> 1 <= request_timeout_ c < 2 ^ 62 ->
  exists log' w' c', client_op encode (log, w, c) op = (log ++ log', w', c') /\ op_ok [] now w c log' w' c'.
Proof.
  intros Hnow Hto. destruct op as [nid q|id]; cbn [client_op].
  - unfold user_call. pose proof (call_ok now w c nid q Hnow Hto) as A. destruct (call encode w c nid q) as [[[res id] w'] c'].
    by eexists _, _, _.
  - unfold user_cancel. pose proof (cancelCall_ok now w c id) as A. destruct (cancelCall w c id) as [w' c']. by eexists _, _, _.
Qed.

Lemma client_ops_ok now ops log w c :
  now <= node_getMonotonicTime w -> 1 <= request_timeout_ c < 2 ^ 62 ->
  exists log' w' c', foldl (client_op encode) (log, w, c) ops = (log ++ log', w', c') /\ op_ok [] now w c log' w' c'.
Proof.
  revert log w c. induction ops as [|op ops IH]; intros log w c Hnow Hto.
  { exists [], w, c. rewrite app_nil_r. split; [done|by apply op_ok_same]. }
  cbn [foldl]. destruct (client_op_ok now log w c op Hnow Hto) as (l1 & w1 & c1 & -> & A). pose proof (oo_time _ _ _ _ _ _ _ A).
  destruct (IH (log ++ l1) w1 c1) as (l2 & w2 & c2 & -> & B); [lia|by rewrite (oo_timeout _ _ _ _ _ _ _ A)|].
  exists (l1 ++ l2), w2, c2. split; [by rewrite app_assoc|]. by apply (op_ok_trans now w c _ w1 c1).
Qed.

(** A result with the debt of its call. *)
Lemma invokeCallback_ok now log w c result :
  now <= node_getMonotonicTime w -> 1 <= request_timeout_ c < 2 ^ 62 ->
  exists log' w' c', invokeCallback encode callback (log, w, c) result = (log ++ log', w', c') /\ op_ok [call_id_ result] now w c log' w' c'.
Proof.
  intros Hnow Hto. unfold invokeCallback.
  destruct (client_ops_ok now (callback result) (log ++ [EvResult (status_ result) (call_id_ result)]) w c Hnow Hto) as (l & w' & c' & -> & A).
  exists (EvResult (status_ result) (call_id_ result) :: l), w', c'. split; [by rewrite <-app_assoc|].
  apply (op_ok_trans_debt [call_id_ result] [] now w c [EvResult (status_ result) (call_id_ result)] w c l w' c'); [|done].
  split; try done. intros x. cbn [accepted answered cancelled omap list_omap count_occ]. lia.
Qed.

Lemma timeouts_ok now l log w c :
  now <= node_getMonotonicTime w -> 1 <= request_timeout_ c < 2 ^ 62 ->
  exists log' w' c', foldl (fun st cs => invokeCallback encode callback st (mkResult ErrorTimeout (id_ cs) None)) (log, w, c) l = (log ++ log', w', c') /\
    op_ok (id_ <$> l) now w c log' w' c'.
Proof.
  revert log w c. induction l as [|cs l IH]; intros log w c Hnow Hto.
  { exists [], w, c. rewrite app_nil_r. split; [done|by apply op_ok_same]. }
  cbn [foldl]. destruct (invokeCallback_ok now log w c (mkResult ErrorTimeout (id_ cs) None) Hnow Hto) as (l1 & w1 & c1 & -> & A).
  pose proof (oo_time _ _ _ _ _ _ _ A).
  destruct (IH (log ++ l1) w1 c1) as (l2 & w2 & c2 & -> & B); [lia|by rewrite (oo_timeout _ _ _ _ _ _ _ A)|].
  exists (l1 ++ l2), w2, c2. split; [by rewrite app_assoc|]. exact (op_ok_trans_debt [id_ cs] (id_ <$> l) now w c _ w1 c1 _ w2 c2 A B).
Qed.

(** *** Events *)

(** Calls that have timed out wait for the handler of the client, which is running. *)
Record client_inv (c : C) : Prop := {
  ci_states : Forall call_state_ok (call_registry_ c);
  ci_shared : timed_out c <> [] -> shared_deadline_ c = true;
  ci_timeout : 1 <= request_timeout_ c < 2 ^ 62
}.

Lemma op_ok_inv d now w c log w' c' : op_ok d now w c log w' c' -> client_inv c -> client_inv c'.
Proof. intros [A1 A2 A3 A4 A5 A6 A7] [B1 B2 B3]. split; [auto|by rewrite A5, A4|by rewrite A3]. Qed.

Abbreviation num_due now c := (length (filter (fun cs => due now cs = true) (call_registry_ c))).

Lemma handleReceived_ok now w c frame r :
  now <= node_getMonotonicTime w -> client_inv c ->
  let '(log, w', c') := Client_handleResponse encode callback w c frame r in
  op_ok [] now w c log w' c' /\ (shouldAcceptFrame c frame = true ->
    exists l, log = EvResult Success (mkCallID (src_node_id_ (rx_frame frame)) (transfer_id_ (rx_frame frame))) :: l).
Proof.
  intros Hnow Hc. unfold Client_handleResponse. destruct (shouldAcceptFrame c frame) eqn:Ea; [|split; [by apply op_ok_same|done]].
  unfold Client_handleReceivedDataStruct. unfold shouldAcceptFrame in Ea. set (id := mkCallID _ _) in *.
  pose proof (cancelCall_ok now w c id) as A. rewrite Ea in A. destruct (cancelCall w c id) as [w1 c1]. cbn [fst snd] in A.
  pose proof (oo_time _ _ _ _ _ _ _ A). pose proof (ci_timeout c Hc) as Hto. rewrite <-(oo_timeout _ _ _ _ _ _ _ A) in Hto.
  unfold invokeCallback. cbn [status_ call_id_ app].
  destruct (client_ops_ok now (callback (mkResult Success id (Some r))) [EvResult Success id] w1 c1) as (l & w2 & c2 & -> & B); [lia|done|].
  split; [|intros _; by exists l]. apply (op_ok_trans now w c _ w1 c1); [|done]. destruct A as [A1 A2 A3 A4 A5 A6 A7]. split; try done.
  intros x. specialize (A1 x). cbn [accepted answered cancelled omap list_omap] in *. lia.
Qed.

Lemma filter_split (l : list CallState) x :
  count (id_ <$> l) x = (count (id_ <$> filter (fun cs => timed_out_ cs = true) l) x + count (id_ <$> filter (fun cs => timed_out_ cs = false) l) x)%nat.
Proof.
  induction l as [|cs l IH]; [done|]. rewrite !filter_cons, fmap_cons, count_cons, IH.
  destruct (timed_out_ cs); repeat case_decide; try congruence; rewrite ?fmap_cons, ?count_cons; lia.
Qed.

Lemma filter_timed_out (l : list CallState) :
  filter (fun cs => timed_out_ cs = true) (filter (fun cs => timed_out_ cs = false) l) = [].
Proof. induction l as [|cs l IH]; [done|]. rewrite filter_cons. case_decide as E; [|exact IH]. rewrite filter_cons, decide_False by (by rewrite E). exact IH. Qed.

Lemma filter_filter_length {X} (P P' : X -> Prop) `{forall x, Decision (P x), forall x, Decision (P' x)} (l : list X) :
  (length (filter P (filter P' l)) <= length (filter P l))%nat.
Proof. induction l as [|x l IH]; [done|]. rewrite !filter_cons. repeat case_decide; rewrite ?filter_cons; repeat case_decide; cbn [length]; try done; lia. Qed.

Lemma handleDeadline_ok now w c :
  now <= node_getMonotonicTime w -> client_inv c ->
  let '(log, w', c') := Client_handleDeadline encode callback w c in
  balanced [] c log c' /\ node_getMonotonicTime w <= node_getMonotonicTime w' /\ client_inv c' /\ timed_out c' = [] /\ shared_deadline_ c' = false /\
  (num_due now c' <= num_due now c)%nat /\ request_timeout_ c' = request_timeout_ c.
Proof.
  intros Hnow [Hs _ Hto]. unfold Client_handleDeadline. set (c0 := set_shared c false). fold (timed_out c0).
  destruct (timeouts_ok now (timed_out c0) [] w c0 Hnow Hto) as (l & w1 & c1 & -> & [A1 A2 A3 A4 A5 A6 A7]). cbn [app].
  set (c2 := set_registry c1 _).
  assert (Ht2 : timed_out c2 = []).
  { apply filter_timed_out. }
  pose proof (stop_if_empty_ok now w1 c2) as B. destruct (stop_if_empty w1 c2) as [w3 c3]. cbn [fst snd] in B.
  destruct B as [B1 B2 B3 B4 B5 B6 B7].
  assert (Hb : balanced [] c l c2).
  { intros x. specialize (A1 x). unfold pending in *. cbn [c2 set_registry call_registry_]. rewrite (filter_split (call_registry_ c1)) in A1.
    fold (timed_out c1) in A1. rewrite A5 in A1. change (call_registry_ c0) with (call_registry_ c) in A1. cbn [count_occ]. lia. }
  split_and!.
  - pose proof (balanced_trans [] [] c l c2 [] c3 Hb B1) as D. rewrite (app_nil_r l) in D. exact D.
  - lia.
  - split.
    + apply B6. cbn [c2 set_registry call_registry_]. specialize (A6 Hs). rewrite Forall_forall in A6 |- *. intros cs [_ Hin]%list_elem_of_filter. auto.
    + by rewrite B5, Ht2.
    + rewrite B3. cbn. by rewrite A3.
  - by rewrite B5.
  - rewrite B4. cbn. by rewrite A4.
  - etrans; [exact B7|]. cbn [c2 set_registry call_registry_]. etrans; [apply filter_filter_length|]. exact A7.
  - rewrite B3. cbn. by rewrite A3.
Qed.

(** What can happen: the application calls and cancels, a response arrives, a handler that is due is run, and
    anything else on the node. *)
Inductive client_step : W * C -> list CallEvent -> W * C -> Prop :=
| step_call w c nid q log w' c' : user_call encode w c nid q = (log, w', c') -> client_step (w, c) log (w', c')
| step_cancel w c id log w' c' : user_cancel w c id = (log, w', c') -> client_step (w, c) log (w', c')
| step_cancel_all w c w' c' : cancelAllCalls w c = (w', c') -> client_step (w, c) (EvCancelled <$> pending c) (w', c')
| step_response w c frame r log w' c' : Client_handleResponse encode callback w c frame r = (log, w', c') -> client_step (w, c) log (w', c')
| step_timeout w c i cs d : call_registry_ c !! i = Some cs -> cs_deadline_ cs = Some d -> d <= node_getMonotonicTime w ->
    client_step (w, c) [] (w, CallState_handleDeadline c i)
| step_shared w c log w' c' : shared_deadline_ c = true -> Client_handleDeadline encode callback w c = (log, w', c') -> client_step (w, c) log (w', c')
| step_node w w' c : client_step (w, c) [] (w', c).

Inductive client_run : W * C -> list CallEvent -> W * C -> Prop :=
| run_nil st : client_run st [] st
| run_step st log st1 log' st' : client_step st log st1 -> client_run st1 log' st' -> client_run st (log ++ log') st'.

(** The handlers that are due are run until none is left, in some order. *)
Fixpoint poll_client (fuel : nat) (now : Z) (w : W) (c : C) : option (list CallEvent * W * C) :=
  match fuel with
  | O => None
  | S fuel =>
      if shared_deadline_ c then
        let '(log, w, c) := Client_handleDeadline encode callback w c in
        '(log', w, c) ← poll_client fuel now w c;
        Some (log ++ log', w, c)
      else
        match list_find (fun cs => due now cs = true) (call_registry_ c) with
        | Some (i, _) => poll_client fuel now w (CallState_handleDeadline c i)
        | None => Some ([], w, c)
        end
  end.

Lemma CallState_handleDeadline_ok now c i cs d :
  client_inv c -> call_registry_ c !! i = Some cs -> cs_deadline_ cs = Some d ->
  let c' := CallState_handleDeadline c i in
  balanced [] c [] c' /\ client_inv c' /\ shared_deadline_ c' = true /\
  (d <= now -> (num_due now c' < num_due now c)%nat).
Proof.
  intros [Hs Hsh Hto] Hi Hd. unfold CallState_handleDeadline. rewrite Hi. cbn zeta.
  assert (Hpend : id_ <$> <[i := mkCallState (id_ cs) true None]> (call_registry_ c) = id_ <$> call_registry_ c).
  { rewrite list_fmap_insert. apply list_insert_id. by rewrite list_lookup_fmap, Hi. }
  split_and!.
  - intros x. unfold pending. cbn [set_shared set_registry call_registry_]. rewrite Hpend. cbn [accepted answered cancelled omap list_omap count_occ]. lia.
  - split; cbn [set_shared set_registry call_registry_ shared_deadline_ request_timeout_]; [|done|done]. by apply Forall_insert.
  - done.
  - intros Hle. cbn [set_shared set_registry call_registry_]. apply list_elem_of_split_length in Hi as (l1 & l2 & -> & ->).
    rewrite insert_app_r_alt, Nat.sub_diag by lia. cbn [insert list_insert]. rewrite !filter_app, !filter_cons, !length_app.
    rewrite decide_False by done. rewrite decide_True by (unfold due; rewrite Hd; lia). cbn [length]. lia.
Qed.

Lemma client_step_ok st log st' :
  client_step st log st' -> client_inv st.2 -> balanced [] st.2 log st'.2 /\ client_inv st'.2.
Proof.
  intros Hst Hc. destruct Hst as [w c nid q log w' c' E|w c id log w' c' E|w c w' c' E|w c fr r log w' c' E|w c i cs d Hi Hd Ht|w c log w' c' Hsh E|w w' c];
    cbn [snd] in *.
  - unfold user_call in E. pose proof (call_ok (node_getMonotonicTime w) w c nid q (Z.le_refl _) (ci_timeout c Hc)) as A.
    destruct (call encode w c nid q) as [[[res id] w1] c1]. injection E as <- <- <-. split; [apply A|by eapply op_ok_inv].
  - unfold user_cancel in E. pose proof (cancelCall_ok (node_getMonotonicTime w) w c id) as A. destruct (cancelCall w c id) as [w1 c1].
    injection E as <- <- <-. split; [apply A|by eapply op_ok_inv].
  - unfold cancelAllCalls in E. destruct (Subscriber_stop w _) as [w1 s1]. injection E as <- <-. split.
    + intros x. assert (accepted (EvCancelled <$> pending c) = [] /\ answered (EvCancelled <$> pending c) = [] /\ cancelled (EvCancelled <$> pending c) = pending c) as (-> & -> & ->).
      { induction (pending c) as [|y l (IH1 & IH2 & IH3)]; [done|]. rewrite fmap_cons. cbn [accepted answered cancelled omap list_omap].
        split_and!; [exact IH1|exact IH2|f_equal; exact IH3]. }
      cbn. lia.
    + destruct Hc. split; [apply Forall_nil; done|done|done].
  - pose proof (handleReceived_ok (node_getMonotonicTime w) w c fr r (Z.le_refl _) Hc) as A. rewrite E in A. destruct A as [A _].
    split; [apply A|by eapply op_ok_inv].
  - destruct (CallState_handleDeadline_ok 0 c i cs d Hc Hi Hd) as (A & B & _). by split.
  - pose proof (handleDeadline_ok (node_getMonotonicTime w) w c (Z.le_refl _) Hc) as A. rewrite E in A. tauto.
  - split; [|done]. intros x. cbn. lia.
Qed.

Lemma client_run_ok st log st' : client_run st log st' -> client_inv st.2 -> balanced [] st.2 log st'.2 /\ client_inv st'.2.
Proof.
  induction 1 as [st|st log st1 log' st' Hs Hr IH]; intros Hc; [split; [|done]; intros x; cbn; lia|].
  destruct (client_step_ok _ _ _ Hs Hc) as [A Hc1]. destruct (IH Hc1) as [B Hc2]. split; [|done]. exact (balanced_trans [] [] _ _ _ _ _ A B).
Qed.

Lemma poll_client_ok fuel now w c :
  client_inv c -> now <= node_getMonotonicTime w -> (2 * num_due now c + (if shared_deadline_ c then 1 else 0) < fuel)%nat ->
  exists log w' c', poll_client fuel now w c = Some (log, w', c') /\ balanced [] c log c' /\ client_inv c' /\
    Forall (fun cs => timed_out_ cs = false /\ exists d, cs_deadline_ cs = Some d /\ now < d) (call_registry_ c').
Proof.
  revert w c. induction fuel as [|fuel IH]; intros w c Hc Hnow Hf; [lia|]. cbn [poll_client]. destruct (shared_deadline_ c) eqn:Esh.
  - pose proof (handleDeadline_ok now w c Hnow Hc) as A. destruct (Client_handleDeadline encode callback w c) as [[log w1] c1].
    destruct A as (A1 & A2 & A3 & A4 & A5 & A6 & A7).
    destruct (IH w1 c1) as (log' & w2 & c2 & -> & B1 & B2 & B3); [done|lia|rewrite A5; lia|].
    cbn [mbind option_bind]. exists (log ++ log'), w2, c2. split_and!; [done| |done|done]. exact (balanced_trans [] [] _ _ _ _ _ A1 B1).
  - destruct (list_find _ _) as [[i cs]|] eqn:Ef.
    + apply list_find_Some in Ef as (Hi & Hdue & _). unfold due in Hdue. destruct (cs_deadline_ cs) as [d|] eqn:Ed; [|done].
      destruct (CallState_handleDeadline_ok now c i cs d Hc Hi Ed) as (A1 & A2 & A3 & A4).
      destruct (IH w (CallState_handleDeadline c i)) as (log & w2 & c2 & -> & B1 & B2 & B3); [done|done|rewrite A3; lia|].
      exists log, w2, c2. split_and!; [done| |done|done]. exact (balanced_trans [] [] _ _ _ _ _ A1 B1).
    + apply list_find_None in Ef. exists [], w, c. split_and!; [done|intros x; cbn; lia|done|].
      destruct Hc as [Hs Hsh _]. rewrite Forall_forall in Hs, Ef |- *. intros cs Hin. specialize (Hs cs Hin). specialize (Ef cs Hin).
      unfold call_state_ok, due in *. destruct (timed_out_ cs) eqn:Et.
      * rewrite Hsh in Esh; [done|]. intros E. assert (cs ∈ timed_out c) as Hx by (apply list_elem_of_filter; done). rewrite E in Hx. by apply elem_of_nil in Hx.
      * destruct Hs as [d Hd]. rewrite Hd in Ef. split; [done|]. exists d. split; [done|]. lia.
Qed.

(** *** The listener *)

(** While calls are pending the listener is registered. *)
Definition listening (c : C) : Prop :=
  call_registry_ c <> [] -> forwarder_ (sc_subscriber c) = true /\ registered_ (sc_subscriber c) = Some ServiceResponseListener.

Lemma stop_if_empty_listening w c c0 :
  listening c0 -> sc_subscriber c = sc_subscriber c0 -> (call_registry_ c0 = [] -> call_registry_ c = []) -> listening (stop_if_empty w c).2.
Proof.
  intros Hl Es Er. unfold stop_if_empty, hasPendingCalls. destruct (call_registry_ c) as [|x l] eqn:Ec.
  - destruct (Subscriber_stop w _) as [w1 s1]. unfold listening. cbn. by rewrite Ec.
  - intros _. cbn [snd]. rewrite Es. apply Hl. intros E. by specialize (Er E).
Qed.

Lemma cancelCall_listening w c id : listening c -> listening (cancelCall w c id).2.
Proof. intros Hl. apply (stop_if_empty_listening _ _ c); try done. cbn. by intros ->. Qed.

Lemma genericStart_ok w s k : let '(res, _, s') := genericStart w s k in 0 <= res -> forwarder_ s' = true /\ registered_ s' = Some k.
Proof.
  unfold genericStart, Subscriber_checkInit. destruct (forwarder_ s) eqn:Ef.
  - change (0 <? 0) with false. cbv iota. unfold Subscriber_stop. rewrite Ef. destruct (node_register _ k) as [[] w1]; [by cbn|]. unfold ErrInvalidTransferListener. lia.
  - destruct (node_find w); [|change (- ErrUnknownDataType <? 0) with true; cbv iota; unfold ErrUnknownDataType; lia].
    change (0 <? 0) with false. cbv iota. unfold Subscriber_stop. cbn [forwarder_]. destruct (node_register _ k) as [[] w1]; [by cbn|]. unfold ErrInvalidTransferListener. lia.
Qed.

Context (Hmem : forall w, (node_emplace w).1 = true).

Lemma addCallState_listening w c id : listening c -> let '(_, _, c') := addCallState w c id in listening c'.
Proof.
  intros Hl. unfold addCallState, hasPendingCalls. destruct (call_registry_ c) as [|x l] eqn:Ec.
  - pose proof (genericStart_ok w (sc_subscriber c) ServiceResponseListener) as A. destruct (genericStart _ _ _) as [[res w1] s1].
    destruct (Z.ltb_spec res 0); [unfold listening; cbn; by rewrite Ec|]. pose proof (Hmem w1) as Hm. destruct (node_emplace w1) as [[] w2]; [|done].
    intros _. cbn. by apply A.
  - change (0 <? 0) with false. cbv iota. pose proof (Hmem w) as Hm. destruct (node_emplace w) as [[] w2]; [|done].
    intros _. cbn. apply Hl. by rewrite Ec.
Qed.

Lemma call_listening w c nid q : listening c -> let '(_, _, _, c') := call encode w c nid q in listening c'.
Proof.
  intros Hl. unfold call. destruct (negb (sc_has_callback c)); [done|].
  assert (A : let '(_, _, _, c1) := prepareToCall w c nid in listening c1).
  { unfold prepareToCall. destruct (_ || _); [done|]. destruct (match data_type_descriptor_ c with Some _ => _ | None => _ end); [|done].
    by destruct (node_next_tid _ _ _) as [[] ?]. }
  destruct (prepareToCall w c nid) as [[[res id] w1] c1]. destruct (res <? 0); [done|].
  pose proof (addCallState_listening w1 c1 id A) as B. destruct (addCallState w1 c1 id) as [[res2 w2] c2]. destruct (res2 <? 0); [done|].
  destruct (negb (forwarder_ _)).
  { pose proof (cancelCall_listening w2 c2 id B) as D. by destruct (cancelCall w2 c2 id). }
  destruct (genericPublish _ _ _ _ _ _ _ _ _) as [[res3 w3] p3]. destruct (res3 <? 0); [|exact B].
  match goal with |- context [cancelCall w3 ?c3 id] => pose proof (cancelCall_listening w3 c3 id B) as D; by destruct (cancelCall w3 c3 id) end.
Qed.

Lemma client_op_listening st op : listening st.2 -> listening (client_op encode st op).2.
Proof.
  destruct st as [[log w] c]. cbn [snd]. intros Hl. destruct op as [nid q|id]; cbn [client_op].
  - unfold user_call. pose proof (call_listening w c nid q Hl) as A. by destruct (call encode w c nid q) as [[[? ?] ?] ?].
  - unfold user_cancel. pose proof (cancelCall_listening w c id Hl) as A. by destruct (cancelCall w c id).
Qed.

Lemma invokeCallback_listening st result : listening st.2 -> listening (invokeCallback encode callback st result).2.
Proof.
  destruct st as [[log w] c]. cbn [snd invokeCallback]. intros Hl. generalize (log ++ [EvResult (status_ result) (call_id_ result)]). intros l.
  assert (listening ((l, w, c).2)) as Hl' by done. revert Hl'. generalize (l, w, c). induction (callback result) as [|op ops IH]; [done|].
  intros st Hst. cbn [foldl]. apply IH. by apply client_op_listening.
Qed.

Lemma client_step_listening st log st' : client_step st log st' -> client_inv st.2 -> listening st.2 -> listening st'.2.
Proof.
  intros Hst Hc Hl. destruct Hst as [w c nid q log w' c' E|w c id log w' c' E|w c w' c' E|w c fr r log w' c' E|w c i cs d Hi Hd Ht|w c log w' c' Hsh E|w w' c];
    cbn [snd] in *.
  - pose proof (client_op_listening ([], w, c) (OpCall nid q) Hl) as A. cbn [client_op] in A. rewrite E in A. exact A.
  - pose proof (client_op_listening ([], w, c) (OpCancel id) Hl) as A. cbn [client_op] in A. rewrite E in A. exact A.
  - unfold cancelAllCalls in E. destruct (Subscriber_stop w _) as [w1 s1]. injection E as <- <-. done.
  - unfold Client_handleResponse in E. destruct (shouldAcceptFrame c fr); [|by injection E as <- <- <-].
    unfold Client_handleReceivedDataStruct in E. set (id := mkCallID _ _) in E. pose proof (cancelCall_listening w c id Hl) as A. destruct (cancelCall w c id) as [w1 c1].
    pose proof (invokeCallback_listening ([], w1, c1) (mkResult Success id (Some r)) A) as B. rewrite E in B. exact B.
  - unfold CallState_handleDeadline. rewrite Hi. intros _. apply Hl. intros E. by rewrite E in Hi.
  - unfold Client_handleDeadline in E. set (l := filter _ _) in E.
    assert (A : listening (foldl (fun st cs => invokeCallback encode callback st (mkResult ErrorTimeout (id_ cs) None)) ([], w, set_shared c false) l).2).
    { assert (listening ([] : list CallEvent, w, set_shared c false).2) as Hx by done. revert Hx. generalize ([] : list CallEvent, w, set_shared c false).
      clear E. induction l as [|x l IH]; intros st Hst; [done|]. cbn [foldl]. apply IH. by apply invokeCallback_listening. }
    destruct (foldl _ _ _) as [[log1 w1] c1]. cbn [snd] in A.
    set (c2 := set_registry c1 _) in E. pose proof (stop_if_empty_listening w1 c2 c1 A eq_refl) as B.
    destruct (stop_if_empty w1 c2) as [w3 c3]. injection E as <- <- <-. apply B. cbn. by intros ->.
  - done.
Qed.

Lemma client_run_listening st log st' : client_run st log st' -> client_inv st.2 -> listening st.2 -> listening st'.2.
Proof.
  induction 1 as [st|st log st1 log' st' Hs Hr IH]; intros Hc Hl; [done|]. apply IH.
  - eapply client_step_ok; done.
  - by eapply client_step_listening.
Qed.
End answers.

Section answered.
Context {W : Type} `{INodeLaws W} {Q R : Type} (encode : Q -> Z * list Z) (callback : ServiceCallResult R -> list (@ClientOp Q)).

(** C7: Every service call gets exactly one result. Whatever the order of calls, responses, timeouts and
    cancellations, and whatever calls the application makes and cancels from its callback: each call that was
    accepted was answered once, with a response or a timeout, or cancelled, or is pending. Running
    the handlers that are due ends, and leaves no call whose deadline has
    passed. While calls are pending the client listens for responses, provided that the pool never runs out of memory. *)
Theorem service_calls_get_one_result w0 has_callback log w c now :
  client_run encode callback (w0, ServiceClient_make has_callback) log (w, c) -> now <= node_getMonotonicTime w ->
  accepted log ≡ₚ answered log ++ cancelled log ++ pending c /\
  (exists log' w' c', poll_client encode callback (2 * getNumPendingCalls c + 2) now w c = Some (log', w', c') /\
    accepted (log ++ log') ≡ₚ answered (log ++ log') ++ cancelled (log ++ log') ++ pending c' /\
    Forall (fun cs => timed_out_ cs = false /\ exists d, cs_deadline_ cs = Some d /\ now < d) (call_registry_ c')) /\
  ((forall w, (node_emplace w).1 = true) -> pending c <> [] -> registered_ (sc_subscriber c) = Some ServiceResponseListener).
Proof.
  intros Hrun Hnow. assert (Hc0 : client_inv (ServiceClient_make has_callback)) by (split; [apply Forall_nil; done|done|by vm_compute]).
  destruct (client_run_ok encode callback _ _ _ Hrun Hc0) as [Hb Hc]. cbn [snd] in Hb, Hc.
  assert (Hperm : forall l c', balanced [] (ServiceClient_make has_callback) l c' -> accepted l ≡ₚ answered l ++ cancelled l ++ pending c').
  { intros l c' Hx. rewrite (Permutation_count_occ ServiceCallID_eq_dec). intros x. specialize (Hx x). rewrite !count_occ_app.
    cbn [pending ServiceClient_make] in Hx. cbn in Hx. lia. }
  split_and!; [by apply Hperm| |].
  - assert (Hlen : (length (filter (fun cs => due now cs = true) (call_registry_ c)) <= getNumPendingCalls c)%nat) by apply length_filter.
    destruct (poll_client_ok encode callback (2 * getNumPendingCalls c + 2) now w c Hc Hnow) as (log' & w' & c' & E & B1 & B2 & B3);
      [destruct (shared_deadline_ c); lia|].
    exists log', w', c'. split_and!; [done| |done]. apply Hperm. exact (balanced_trans [] [] _ _ _ _ _ Hb B1).
  - intros Hmem Hp. apply (client_run_listening encode callback Hmem _ _ _ Hrun Hc0); [done|]. intros E. apply Hp. unfold pending. cbn [snd] in E. by rewrite E.
Qed.
End answered.

(** ** Service servers *)

Record ServiceServer := mkServer { ss_subscriber : GenericSubscriber; ss_publisher : GenericPublisher; ss_callback_set : bool; response_failure_count_ : Z }.
Definition getDefaultTxTimeout : Z := Duration.fromMSec 1000.
Definition ServiceServer_make : ServiceServer :=
  mkServer GenericSubscriber_make (GenericPublisher_make getDefaultTxTimeout getDefaultMaxTransferInterval) false 0.

Section server.
Context {W : Type} `{INode W} {Q R : Type} (encode : R -> Z * list Z).
(** The callback of the application: the response and whether it is to be sent. *)
Context (callback : Q -> R * bool).

(** [virtual void ServiceServer::handleReceivedDataStruct(ReceivedDataStructure<RequestType>& request)]; [None] is the
    fatal error of a request without a callback. *)
Definition Server_handleReceivedDataStruct (w : W) (s : ServiceServer) (src tid priority : Z) (request : Q) : option (W * ServiceServer) :=
  if negb (ss_callback_set s) then None
  else
    let '(response, enabled) := callback request in
    if enabled then
      let p := Publisher_setPriority (ss_publisher s) priority in
      let '(res, w, p) := genericPublish DataTypeKindService encode w p response TransferTypeServiceResponse src (Some tid) 0 in
      Some (if res <? 0 then (node_addError w, mkServer (ss_subscriber s) p true (u32 (response_failure_count_ s + 1)))
            else (w, mkServer (ss_subscriber s) p true (response_failure_count_ s)))
    else Some (w, s).

(** [int ServiceServer::start(const Callback& callback)]. *)
Definition Server_start (w : W) (s : ServiceServer) (valid : bool) : Z * W * ServiceServer :=
  let '(w, sub) := Subscriber_stop w (ss_subscriber s) in
  if negb valid then (- ErrInvalidParam, w, mkServer sub (ss_publisher s) (ss_callback_set s) (response_failure_count_ s))
  else
    let '(publisher_res, p) := Publisher_checkInit DataTypeKindService w (ss_publisher s) in
    if publisher_res <? 0 then (publisher_res, w, mkServer sub p true (response_failure_count_ s))
    else
      let '(res, w, sub) := genericStart w sub ServiceRequestListener in
      (res, w, mkServer sub p true (response_failure_count_ s)).
End server.

(** ** A node to run clients on *)

Module SimNode.
(** The time, the answers of the pool, the next transfer ID, and what was sent. *)
Record World := mkSimWorld { sw_time : Z; sw_mem : list bool; sw_tid : Z; sw_sent : list (Z * option Z) }.

#[export] Instance sim_node : INode World := {
  node_getMonotonicTime w := 1 + sw_time w mod 2 ^ 61;
  node_getNodeID _ := 1;
  node_find _ := Some (mkDescriptor DataTypeKindService 55 0);
  node_send w _ _ _ _ _ dst tid := (1, mkSimWorld (sw_time w) (sw_mem w) (sw_tid w) ((dst, tid) :: sw_sent w));
  node_register w _ := (true, w);
  node_unregister w := w;
  node_next_tid w _ _ := (Some (sw_tid w), mkSimWorld (sw_time w) (sw_mem w) (TransferID.increment (sw_tid w)) (sw_sent w));
  node_emplace w := match sw_mem w with
                    | [] => (true, w)
                    | b :: l => (b, mkSimWorld (sw_time w) l (sw_tid w) (sw_sent w))
                    end;
  node_addError w := w
}.

#[export] Instance sim_node_laws : INodeLaws World.
Proof.
  split; try done.
  - intros w. cbn -[Z.modulo Z.pow Z.add]. pose proof (Z.mod_pos_bound (sw_time w) (2 ^ 61) ltac:(lia)). lia.
  - intros w. cbn. by destruct (sw_mem w).
Qed.

(** A request of two bytes, and an application that asks again once it gets a timeout of node 9. *)
Definition encode_byte (x : Z) : Z * list Z := (1, [x]).
Definition ask_again (r : ServiceCallResult Z) : list (@ClientOp Z) :=
  match status_ r with ErrorTimeout => if server_node_id (call_id_ r) =? 9 then [OpCall 8 1] else [] | Success => [] end.

Definition sim_start : World := mkSimWorld 1000 [] 0 [].
Definition after_call (w : World) (c : ServiceClient) (nid : Z) : list CallEvent * World * ServiceClient := user_call encode_byte w c nid 7.
Definition two_calls : list CallEvent * World * ServiceClient :=
  let '(l1, w, c) := after_call sim_start (ServiceClient_make true) 9 in
  let '(l2, w, c) := after_call w c 10 in (l1 ++ l2, w, c).

Lemma two_calls_run : client_run encode_byte ask_again (sim_start, ServiceClient_make true) two_calls.1.1 (two_calls.1.2, two_calls.2).
Proof.
  destruct (after_call sim_start (ServiceClient_make true) 9) as [[l1 w1] c1] eqn:E1. destruct (after_call w1 c1 10) as [[l2 w2] c2] eqn:E2.
  unfold two_calls. rewrite E1, E2. cbn [fst snd]. apply (run_step _ _ _ l1 (w1, c1)); [by eapply step_call|].
  rewrite <-(app_nil_r l2). apply (run_step _ _ _ l2 (w2, c2)); [by eapply step_call|]. apply run_nil.
Qed.

Lemma service_calls_get_one_result_witness :
  accepted two_calls.1.1 = [mkCallID 9 0; mkCallID 10 1] /\
  exists log' w' c', poll_client encode_byte ask_again (2 * getNumPendingCalls two_calls.2 + 2) 1001 two_calls.1.2 two_calls.2 = Some (log', w', c') /\
    accepted (two_calls.1.1 ++ log') ≡ₚ answered (two_calls.1.1 ++ log') ++ cancelled (two_calls.1.1 ++ log') ++ pending c'.
Proof.
  split; [reflexivity|].
  destruct (service_calls_get_one_result encode_byte ask_again sim_start true two_calls.1.1 two_calls.1.2 two_calls.2 1001 two_calls_run)
    as (_ & (log' & w' & c' & E & Hp & _) & _).
  - vm_compute. discriminate.
  - exists log', w', c'. split; [exact E|exact Hp].
Defined.

(** Both calls time out, in one go; the first makes a new call. *)
Example both_time_out :
  let '(_, w, c) := two_calls in
  (fun r => (r.1.1, pending r.2)) <$> poll_client encode_byte ask_again 6 600000 (mkSimWorld 600000 [] 2 []) c =
  Some ([EvResult ErrorTimeout (mkCallID 9 0); EvAccepted (mkCallID 8 2); EvResult ErrorTimeout (mkCallID 10 1)], [mkCallID 8 2]).
Proof. vm_compute. done. Qed.

(** A call for which there is no memory stops the listener, although another call is pending: its response
    can no longer arrive. *)
Example refused_call_deafens_client :
  let '(_, w, c) := after_call (mkSimWorld 1000 [true; false] 0 []) (ServiceClient_make true) 9 in
  let '(l, w, c') := after_call w c 10 in
  l = [] /\ pending c' = [mkCallID 9 0] /\ registered_ (sc_subscriber c) = Some ServiceResponseListener /\ registered_ (sc_subscriber c') = None.
Proof. vm_compute. done. Qed.
End SimNode.
