(* ===== verification/DataTypeRegistry.v ===== *)
(** * DataTypeRegistry: the data types an application knows

    Models [GlobalDataTypeRegistry] ([libuavcan/include/uavcan/node/global_data_type_registry.hpp],
    [libuavcan/src/node/uc_global_data_type_registry.cpp]) and [DataTypeDescriptor]
    ([libuavcan/include/uavcan/data_type.hpp], [libuavcan/src/uc_data_type.cpp]). Each data type has
    a static entry, known here by the address [type] of its class; the lists
    are in the order of the intrusive list. *)

From stdpp Require Import gmap strings sorting.
From S2P Require Import Prelude Transfer Crc LinkedList TransferListener Timers.
Local Open Scope Z_scope.

(** ** Descriptors *)

Definition MaxFullNameLen : nat := 80.

(** [strncmp(a, b, n) == 0] for strings that end at their first zero byte. *)
Definition strneq (n : nat) (a b : string) : bool := bool_decide (String.substring 0 n a = String.substring 0 n b).

(** [DataTypeDescriptor] with its name. *)
Record NamedDescriptor := mkNamed { nd_descriptor : DataTypeDescriptor; full_name_ : string }.

Definition Descriptor_isValid (d : NamedDescriptor) : bool :=
  DataTypeID.isValidForDataTypeKind (dt_id (nd_descriptor d)) (dt_kind (nd_descriptor d)) && negb (bool_decide (full_name_ d = EmptyString)).
Definition match_name (d : NamedDescriptor) (kind : DataTypeKind) (name : string) : bool :=
  bool_decide (dt_kind (nd_descriptor d) = kind) && strneq MaxFullNameLen (full_name_ d) name.
Definition match_id (d : NamedDescriptor) (kind : DataTypeKind) (id : Z) : bool :=
  bool_decide (dt_kind (nd_descriptor d) = kind) && (dt_id (nd_descriptor d) =? id).

(** [DataTypeDescriptor()]. *)
Definition NamedDescriptor_default : NamedDescriptor := mkNamed (mkDescriptor DataTypeKindService DataTypeID.default 0) "".

(** ** The registry *)

Inductive RegistrationResult := RegistrationResultOk | RegistrationResultCollision | RegistrationResultInvalidParams | RegistrationResultFrozen.

Record Registry := mkRegistry { entries : gmap Z NamedDescriptor; msgs_ : list Z; srvs_ : list Z; frozen_ : bool }.
Definition Registry_make : Registry := mkRegistry ∅ [] [] false.

Definition entry_at (r : Registry) (p : Z) : NamedDescriptor := default NamedDescriptor_default (entries r !! p).
Definition entry_kind (r : Registry) (p : Z) : DataTypeKind := dt_kind (nd_descriptor (entry_at r p)).
Definition entry_id (r : Registry) (p : Z) : Z := dt_id (nd_descriptor (entry_at r p)).
Definition entry_name (r : Registry) (p : Z) : string := full_name_ (entry_at r p).

(** [List* selectList(DataTypeKind kind) const], and the registry with that list changed. *)
Definition selectList (r : Registry) (kind : DataTypeKind) : option (list Z) :=
  match kind with DataTypeKindMessage => Some (msgs_ r) | DataTypeKindService => Some (srvs_ r) | NumDataTypeKinds => None end.
Definition set_list (r : Registry) (kind : DataTypeKind) (l : list Z) : Registry :=
  match kind with
  | DataTypeKindMessage => mkRegistry (entries r) l (srvs_ r) (frozen_ r)
  | DataTypeKindService => mkRegistry (entries r) (msgs_ r) l (frozen_ r)
  | NumDataTypeKinds => r
  end.

(** [RegistrationResult remove(Entry* dtd)]. *)
Definition reg_remove (r : Registry) (dtd : Z) : RegistrationResult * Registry :=
  if frozen_ r then (RegistrationResultFrozen, r)
  else match selectList r (entry_kind r dtd) with
       | None => (RegistrationResultInvalidParams, r)
       | Some list =>
           let list := remove_first (Z.eqb dtd) list in
           let list := filter (fun p => match_name (entry_at r p) (entry_kind r dtd) (entry_name r dtd) = false) list in
           (RegistrationResultOk, set_list r (entry_kind r dtd) list)
       end.

(** [EntryInsertionComparator]. *)
Definition EntryInsertionComparator (r : Registry) (dtd p : Z) : bool := entry_id r dtd <? entry_id r p.

(** [RegistrationResult registImpl(Entry* dtd)]. *)
Definition registImpl (r : Registry) (dtd : Z) : RegistrationResult * Registry :=
  if negb (Descriptor_isValid (entry_at r dtd)) then (RegistrationResultInvalidParams, r)
  else if frozen_ r then (RegistrationResultFrozen, r)
  else match selectList r (entry_kind r dtd) with
       | None => (RegistrationResultInvalidParams, r)
       | Some list =>
           if existsb (fun p => (entry_id r p =? entry_id r dtd) || strneq MaxFullNameLen (entry_name r p) (entry_name r dtd)) list
           then (RegistrationResultCollision, r)
           else (RegistrationResultOk, set_list r (entry_kind r dtd) (insert_before (EntryInsertionComparator r dtd) dtd list))
       end.

Definition freeze (r : Registry) : Registry := if frozen_ r then r else mkRegistry (entries r) (msgs_ r) (srvs_ r) true.

(** [find(DataTypeKind kind, const char* name)], [find(const char* name)] and [find(DataTypeKind kind, DataTypeID dtid)]. *)
Definition find_name (r : Registry) (kind : DataTypeKind) (name : string) : option NamedDescriptor :=
  match selectList r kind with
  | None => None
  | Some list => entry_at r <$> List.find (fun p => match_name (entry_at r p) kind name) list
  end.
Definition find_any (r : Registry) (name : string) : option NamedDescriptor :=
  match find_name r DataTypeKindMessage name with Some d => Some d | None => find_name r DataTypeKindService name end.
Definition find_id (r : Registry) (kind : DataTypeKind) (dtid : Z) : option NamedDescriptor :=
  match selectList r kind with
  | None => None
  | Some list => entry_at r <$> List.find (fun p => match_id (entry_at r p) kind dtid) list
  end.
Definition getNumMessageTypes (r : Registry) : nat := length (msgs_ r).
Definition getNumServiceTypes (r : Registry) : nat := length (srvs_ r).

(** What a generated class says of its type: kind, signature and full name. *)
Record TypeInfo := mkTypeInfo { ty_kind : DataTypeKind; ty_signature : Z; ty_name : string }.

Section registration.
Context (type_info : Z -> TypeInfo).

(** [template <typename Type> RegistrationResult registerDataType(DataTypeID id)]. *)
Definition registerDataType (r : Registry) (type id : Z) : RegistrationResult * Registry :=
  if frozen_ r then (RegistrationResultFrozen, r)
  else
    match reg_remove r type with
    | (RegistrationResultOk, r) =>
        let t := type_info type in
        let r := mkRegistry (<[type := mkNamed (mkDescriptor (ty_kind t) id (ty_signature t)) (ty_name t)]> (entries r)) (msgs_ r) (srvs_ r) (frozen_ r) in
        match reg_remove r type with
        | (RegistrationResultOk, r) => registImpl r type
        | other => other
        end
    | other => other
    end.
End registration.

(** ** The specification: for each kind a finite map from names to descriptors *)

Abbreviation Names := (gmap string NamedDescriptor).
Definition key (name : string) : string := String.substring 0 MaxFullNameLen name.

Definition spec_register (m : Names) (t : TypeInfo) (id : Z) : RegistrationResult * Names :=
  let m := delete (key (ty_name t)) m in
  let d := mkNamed (mkDescriptor (ty_kind t) id (ty_signature t)) (ty_name t) in
  if negb (Descriptor_isValid d) then (RegistrationResultInvalidParams, m)
  else if bool_decide (map_Exists (fun _ d' => dt_id (nd_descriptor d') = id) m) then (RegistrationResultCollision, m)
  else (RegistrationResultOk, <[key (ty_name t) := d]> m).

Section registry_ok.
Context (type_info : Z -> TypeInfo) (Hkinds : forall p, ty_kind (type_info p) <> NumDataTypeKinds).
Abbreviation tkind p := (ty_kind (type_info p)).
Abbreviation tname p := (ty_name (type_info p)).

(** The entry of a type is as its class says, up to its ID. *)
Definition entry_of (r : Registry) (p : Z) : Prop :=
  entry_at r p = mkNamed (mkDescriptor (tkind p) (entry_id r p) (ty_signature (type_info p))) (tname p).

(** One of the lists: types of that kind, in the order of their IDs, no ID and no name twice. *)
Record list_ok (r : Registry) (kind : DataTypeKind) (l : list Z) : Prop := {
  lo_entries : forall p, p ∈ l -> entry_of r p /\ tkind p = kind /\ Descriptor_isValid (entry_at r p) = true;
  lo_sorted : StronglySorted (fun a b => entry_id r a <= entry_id r b) l;
  lo_ids : NoDup (entry_id r <$> l);
  lo_names : NoDup ((fun p => key (tname p)) <$> l)
}.

(** The list holds the map. *)
Definition holds (r : Registry) (l : list Z) (m : Names) : Prop :=
  forall n d, m !! n = Some d <-> exists p, p ∈ l /\ entry_at r p = d /\ key (tname p) = n.

Record reg_inv (r : Registry) (m : DataTypeKind -> Names) : Prop := {
  rv_msgs : list_ok r DataTypeKindMessage (msgs_ r) /\ holds r (msgs_ r) (m DataTypeKindMessage);
  rv_srvs : list_ok r DataTypeKindService (srvs_ r) /\ holds r (srvs_ r) (m DataTypeKindService);
  rv_entries : forall p, entry_of r p \/ entry_at r p = NamedDescriptor_default
}.

Lemma strneq_spec a b : strneq MaxFullNameLen a b = bool_decide (key a = key b).
Proof. done. Qed.

Lemma key_empty n : key n = "" -> n = "".
Proof. destruct n; [done|]. cbn. discriminate. Qed.

Lemma rv_list r m kind l : reg_inv r m -> selectList r kind = Some l -> list_ok r kind l /\ holds r l (m kind).
Proof. intros [Hm Hs _] E. destruct kind; try discriminate E; injection E as <-; done. Qed.

Lemma list_ok_sub r kind l l' : list_ok r kind l -> l' `sublist_of` l -> list_ok r kind l'.
Proof.
  intros [H1 H2 H3 H4] Hs. split.
  - intros p Hp. apply H1. by eapply elem_of_sublist.
  - by eapply StronglySorted_sub.
  - eapply sublist_NoDup; [done|by apply fmap_sublist].
  - eapply sublist_NoDup; [done|by apply fmap_sublist].
Qed.

Lemma filter_remove (P : Z -> Prop) `{forall x, Decision (P x)} p l : ~ P p -> filter P (remove_first (Z.eqb p) l) = filter P l.
Proof.
  intros Hp. induction l as [|x l IH]; [done|]. cbn [remove_first]. destruct (Z.eqb_spec p x) as [->|Hne].
  - by rewrite filter_cons_False.
  - by rewrite !filter_cons, IH.
Qed.

Lemma filter_ext_elem {X} (P P' : X -> Prop) `{forall x, Decision (P x), forall x, Decision (P' x)} (l : list X) :
  (forall x, x ∈ l -> P x <-> P' x) -> filter P l = filter P' l.
Proof.
  induction l as [|x l IH]; intros Hx; [done|]. rewrite !filter_cons, IH by (intros y Hy; apply Hx; by right).
  destruct (decide (P x)) as [Hp|Hp], (decide (P' x)) as [Hp'|Hp']; try done; rewrite (Hx x) in * by left; tauto.
Qed.

Lemma filter_all {X} (P : X -> Prop) `{forall x, Decision (P x)} (l : list X) : (forall x, x ∈ l -> P x) -> filter P l = l.
Proof. induction l as [|x l IH]; intros Hx; [done|]. rewrite filter_cons_True, IH; [done| |by apply Hx; left]. intros y Hy. apply Hx. by right. Qed.

Lemma set_list_id r kind l : selectList r kind = Some l -> set_list r kind l = r.
Proof. destruct r, kind; intros E; try discriminate E; cbn in *; by injection E as ->. Qed.

Lemma valid_name r p : entry_of r p -> Descriptor_isValid (entry_at r p) = true -> key (tname p) <> "".
Proof.
  intros He Hv E. apply key_empty in E. unfold Descriptor_isValid in Hv. rewrite He in Hv. cbn in Hv. rewrite E, andb_comm in Hv. done.
Qed.

Lemma entry_of_kind r p : entry_of r p -> entry_kind r p = tkind p.
Proof. intros He. unfold entry_kind. by rewrite He. Qed.
Lemma entry_of_name r p : entry_of r p -> entry_name r p = tname p.
Proof. intros He. unfold entry_name. by rewrite He. Qed.

(** Removal of the entry of a type that was registered before: all entries of its name go. *)
Lemma remove_assigned r m p l :
  reg_inv r m -> frozen_ r = false -> entry_of r p -> selectList r (tkind p) = Some l ->
  reg_remove r p = (RegistrationResultOk, set_list r (tkind p) (filter (fun q => key (tname q) <> key (tname p)) l)).
Proof.
  intros Hr Hf He Hl. unfold reg_remove. rewrite Hf, (entry_of_kind r p He), (entry_of_name r p He), Hl.
  destruct (rv_list r m _ l Hr Hl) as [[Hent _ _ _] _]. f_equal. f_equal.
  assert (Hme : forall q, entry_of r q -> tkind q = tkind p -> match_name (entry_at r q) (tkind p) (tname p) = false <-> key (tname q) <> key (tname p)).
  { intros q Hq Hk. unfold match_name. rewrite Hq. cbn [nd_descriptor dt_kind full_name_]. rewrite bool_decide_true by done. cbn [andb].
    rewrite strneq_spec. apply bool_decide_eq_false. }
  rewrite filter_remove.
  - apply filter_ext_elem. intros q Hq. destruct (Hent q Hq) as (? & ? & _). by apply Hme.
  - rewrite Hme by done. tauto.
Qed.

(** Removal of an entry that never was. *)
Lemma remove_default r m p :
  reg_inv r m -> frozen_ r = false -> entry_at r p = NamedDescriptor_default -> reg_remove r p = (RegistrationResultOk, r).
Proof.
  intros Hr Hf He. unfold reg_remove, entry_kind, entry_name. rewrite Hf, He. cbn [nd_descriptor dt_kind full_name_ NamedDescriptor_default selectList].
  f_equal. destruct (rv_srvs _ _ Hr) as [[Hent _ _ _] _].
  rewrite remove_first_notin.
  - assert (filter (fun q => match_name (entry_at r q) DataTypeKindService "" = false) (srvs_ r) = srvs_ r) as ->; [|by apply set_list_id].
    apply filter_all. intros q Hq. destruct (Hent q Hq) as (Hq1 & Hq2 & Hq3).
    unfold match_name. rewrite strneq_spec. apply andb_false_iff. right. apply bool_decide_eq_false. rewrite Hq1. cbn. by eapply valid_name.
  - intros Hin. destruct (Hent p Hin) as (Hq1 & _ & Hq3). apply (valid_name r p Hq1 Hq3). unfold entry_of in Hq1. rewrite He in Hq1.
    by injection Hq1 as _ _ _ <-.
Qed.

Definition upd (m : DataTypeKind -> Names) (k : DataTypeKind) (x : Names) : DataTypeKind -> Names := fun k' => if decide (k' = k) then x else m k'.

(** Only the entries matter to a list. *)
Lemma list_ok_same r k l a b f x : list_ok r k l /\ holds r l x -> list_ok (mkRegistry (entries r) a b f) k l /\ holds (mkRegistry (entries r) a b f) l x.
Proof. intros [[H1 H2 H3 H4] Hh]. split; [split; [exact H1|exact H2|exact H3|exact H4]|exact Hh]. Qed.

(** Another list with the same entries. *)
Lemma set_list_inv r m k l x :
  reg_inv r m -> k <> NumDataTypeKinds -> list_ok r k l -> holds r l x -> reg_inv (set_list r k l) (upd m k x).
Proof.
  intros [Hm Hs He] Hk Hl Hx. destruct k; [| |done]; split; unfold upd; cbn [set_list msgs_ srvs_]; repeat case_decide; try congruence; try exact He; by apply list_ok_same.
Qed.

Lemma names_inj {X} (l : list Z) (f : Z -> X) p q : NoDup (f <$> l) -> p ∈ l -> q ∈ l -> f p = f q -> p = q.
Proof.
  induction l as [|x l IH]; intros Hn Hp Hq E; [by apply elem_of_nil in Hp|]. rewrite fmap_cons in Hn. apply NoDup_cons in Hn as [Hx Hn].
  apply elem_of_cons in Hp as [->|Hp], Hq as [->|Hq]; try done; [| |by apply IH].
  - destruct Hx. rewrite E. apply list_elem_of_fmap. by exists q.
  - destruct Hx. rewrite <-E. apply list_elem_of_fmap. by exists p.
Qed.

Lemma remove_inv r m k l n :
  reg_inv r m -> selectList r k = Some l ->
  reg_inv (set_list r k (filter (fun q => key (tname q) <> n) l)) (upd m k (delete n (m k))).
Proof.
  intros Hr Hl. destruct (rv_list r m k l Hr Hl) as [Hlo Hh]. apply set_list_inv; [done|by destruct k| |].
  - eapply list_ok_sub; [done|apply sublist_filter].
  - unfold holds in *. intros n' d. rewrite lookup_delete_Some, Hh. setoid_rewrite list_elem_of_filter. naive_solver.
Qed.

(** Assigning the entry of a type that is in no list. *)
Definition assign (r : Registry) (p id : Z) : Registry :=
  mkRegistry (<[p := mkNamed (mkDescriptor (tkind p) id (ty_signature (type_info p))) (tname p)]> (entries r)) (msgs_ r) (srvs_ r) (frozen_ r).

Lemma assign_at r p id q : entry_at (assign r p id) q = if decide (q = p) then mkNamed (mkDescriptor (tkind p) id (ty_signature (type_info p))) (tname p) else entry_at r q.
Proof. unfold entry_at, assign. cbn [entries]. case_decide; subst; [by rewrite lookup_insert_eq|by rewrite lookup_insert_ne]. Qed.

Lemma assign_list r p id k l x : p ∉ l -> list_ok r k l /\ holds r l x -> list_ok (assign r p id) k l /\ holds (assign r p id) l x.
Proof.
  intros Hp [[H1 H2 H3 H4] Hh]. assert (He : forall q, q ∈ l -> entry_at (assign r p id) q = entry_at r q).
  { intros q Hq. rewrite assign_at, decide_False by (by intros ->). done. }
  assert (Hid : forall q, q ∈ l -> entry_id (assign r p id) q = entry_id r q) by (intros q Hq; unfold entry_id; by rewrite He).
  split; [split|].
  - intros q Hq. unfold entry_of. rewrite He, Hid by done. by apply H1.
  - eapply StronglySorted_ext; [|exact H2]. intros a c Ha Hc. by rewrite !Hid.
  - rewrite (list_fmap_ext _ (entry_id r)); [done|]. intros i q Hq. apply Hid. by eapply list_elem_of_lookup_2.
  - done.
  - unfold holds in *. intros n d. rewrite (Hh n d). split; intros (q & Hq & E & Hn); exists q; rewrite He in * by done; done.
Qed.

Lemma assign_inv r m p id : reg_inv r m -> p ∉ msgs_ r -> p ∉ srvs_ r -> reg_inv (assign r p id) m /\ entry_of (assign r p id) p.
Proof.
  intros [Hm Hs He] Hp1 Hp2. assert (Hof : entry_of (assign r p id) p) by (unfold entry_of, entry_id; by rewrite assign_at, decide_True).
  split; [|done]. split.
  - by apply assign_list.
  - by apply assign_list.
  - intros q. destruct (decide (q = p)) as [->|Hne]; [by left|]. unfold entry_of, entry_id. rewrite assign_at, decide_False by done. apply He.
Qed.

(** Both removals and the assignment: the types of that name go, and the entry is set. *)
Lemma prepare_ok r m p id l :
  reg_inv r m -> frozen_ r = false -> selectList r (tkind p) = Some l ->
  exists r3, (match reg_remove r p with
    | (RegistrationResultOk, r1) => reg_remove (assign r1 p id) p
    | other => other end) = (RegistrationResultOk, r3) /\
    reg_inv r3 (upd m (tkind p) (delete (key (tname p)) (m (tkind p)))) /\ frozen_ r3 = false /\ entry_of r3 p /\ entry_id r3 p = id /\
    selectList r3 (tkind p) = Some (filter (fun q => key (tname q) <> key (tname p)) l).
Proof.
  intros Hr Hf Hl. set (k := tkind p) in *. set (n := key (tname p)) in *.
  assert (Hfz : forall r' l', frozen_ (set_list r' k l') = frozen_ r') by (intros r' l'; by destruct k).
  assert (Hsel : forall r' l', selectList (set_list r' k l') k = Some l') by (intros r' l'; subst k; pose proof (Hkinds p); by destruct (tkind p)).
  assert (Hat : forall r' l' q, entry_at (set_list r' k l') q = entry_at r' q) by (intros r' l' q; by destruct k).
  destruct (rv_entries _ _ Hr p) as [He|He].
  - pose proof (remove_assigned r m p l Hr Hf He Hl) as E1. rewrite E1. clear E1. fold k n.
    set (l1 := filter _ l). set (r1 := set_list r k l1). pose proof (remove_inv r m k l n Hr Hl) as Hr1. fold l1 r1 in Hr1.
    assert (Hp : p ∉ l1) by (intros Hin; apply list_elem_of_filter in Hin as [Hne _]; by destruct Hne).
    assert (Hp1 : p ∉ msgs_ r1 /\ p ∉ srvs_ r1).
    { destruct (rv_msgs _ _ Hr1) as [[Hm _ _ _] _]. destruct (rv_srvs _ _ Hr1) as [[Hs _ _ _] _].
      subst r1 k. pose proof (Hkinds p) as Hk. destruct (tkind p) eqn:Ek; [| |done]; cbn [set_list msgs_ srvs_] in *; split; try done;
        intros Hin; first [apply Hm in Hin|apply Hs in Hin]; destruct Hin as (_ & Hin & _); congruence. }
    destruct Hp1 as [Hp1 Hp2]. destruct (assign_inv r1 _ p id Hr1 Hp1 Hp2) as [Hr2 He2].
    assert (Hl2 : selectList (assign r1 p id) k = Some l1) by (pose proof (Hsel r l1) as X; fold r1 in X; rewrite <-X; by destruct k).
    assert (Hf2 : frozen_ (assign r1 p id) = false) by (rewrite <-Hf, <-(Hfz r l1); done).
    rewrite (remove_assigned (assign r1 p id) _ p l1 Hr2) by done. eexists. split; [done|]. fold k n.
    assert (Hll : filter (fun q => key (tname q) <> n) l1 = l1) by (apply filter_all; intros q Hq; by apply list_elem_of_filter in Hq as [? _]).
    rewrite Hll, set_list_id by done. split_and!; [done|done|done| |done].
    unfold entry_id. by rewrite assign_at, decide_True.
  - rewrite (remove_default r m p Hr Hf He).
    assert (Hp1 : p ∉ msgs_ r /\ p ∉ srvs_ r).
    { destruct (rv_msgs _ _ Hr) as [[Hm _ _ _] _]. destruct (rv_srvs _ _ Hr) as [[Hs _ _ _] _].
      split; intros Hin; [apply Hm in Hin|apply Hs in Hin]; destruct Hin as (Hq & _ & Hv); apply (valid_name r p Hq Hv);
        unfold entry_of in Hq; rewrite He in Hq; by injection Hq as _ _ _ <-. }
    destruct Hp1 as [Hp1 Hp2]. destruct (assign_inv r _ p id Hr Hp1 Hp2) as [Hr2 He2].
    assert (Hl2 : selectList (assign r p id) k = Some l) by (rewrite <-Hl; by destruct k).
    rewrite (remove_assigned (assign r p id) _ p l Hr2) by done. fold k n.
    eexists. split; [done|]. split_and!.
    + by apply remove_inv.
    + by rewrite Hfz.
    + unfold entry_of, entry_id. rewrite Hat. apply He2.
    + unfold entry_id. rewrite Hat. by rewrite assign_at, decide_True.
    + by rewrite Hsel.
Qed.

Lemma reg_inv_ext r m m' : reg_inv r m -> (forall k, m k = m' k) -> reg_inv r m'.
Proof. intros [Hm Hs He] E. split; rewrite <-?E; done. Qed.

Lemma upd_same m k k' : m k' = upd m k (m k) k'.
Proof. unfold upd. by case_decide; subst. Qed.

(** The collision test: the names being gone, it is a test of the IDs. *)
Lemma collision_ok r k l x p :
  list_ok r k l -> holds r l x -> entry_of r p -> (forall q, q ∈ l -> key (tname q) <> key (tname p)) ->
  existsb (fun q => (entry_id r q =? entry_id r p) || strneq MaxFullNameLen (entry_name r q) (entry_name r p)) l =
  bool_decide (map_Exists (fun _ d => dt_id (nd_descriptor d) = entry_id r p) x).
Proof.
  intros Hl Hh He Hn. apply eq_bool_prop_intro. rewrite bool_decide_spec, Is_true_true, existsb_exists. unfold holds in Hh. split.
  - intros (q & Hq%list_elem_of_In & E). destruct (lo_entries _ _ _ Hl q Hq) as (Heq & _ & _).
    rewrite strneq_spec, (entry_of_name r q Heq), (entry_of_name r p He), bool_decide_false, orb_false_r in E by (by apply Hn).
    exists (key (tname q)), (entry_at r q). split; [apply Hh; by exists q|by apply Z.eqb_eq in E].
  - intros (n & d & E & Hid). apply Hh in E as (q & Hq & <- & _). exists q. split; [by apply list_elem_of_In|].
    apply orb_true_iff. left. apply Z.eqb_eq. exact Hid.
Qed.

(** The new entry in its list. *)
Lemma entry_insert_ok r k l x p :
  list_ok r k l -> holds r l x -> entry_of r p -> tkind p = k -> Descriptor_isValid (entry_at r p) = true ->
  (forall q, q ∈ l -> key (tname q) <> key (tname p)) -> ~ map_Exists (fun _ d => dt_id (nd_descriptor d) = entry_id r p) x ->
  let l' := insert_before (EntryInsertionComparator r p) p l in
  list_ok r k l' /\ holds r l' (<[key (tname p) := entry_at r p]> x).
Proof.
  intros [H1 H2 H3 H4] Hh He Hk Hv Hn Hid l'. assert (Hp : l' ≡ₚ p :: l) by apply insert_before_perm. unfold holds in Hh. split; [split|].
  - intros q. rewrite Hp, elem_of_cons. intros [->|Hq]; [done|by apply H1].
  - apply (insert_before_sorted (entry_id r)). done.
  - rewrite Hp, fmap_cons. constructor; [|done]. intros (q & E & Hq)%list_elem_of_fmap. apply Hid.
    exists (key (tname q)), (entry_at r q). split; [apply Hh; by exists q|]. by rewrite E.
  - rewrite Hp, fmap_cons. constructor; [|done]. intros (q & E & Hq)%list_elem_of_fmap. by apply (Hn q).
  - unfold holds. intros n d. setoid_rewrite Hp. setoid_rewrite elem_of_cons. rewrite lookup_insert_Some, Hh. split.
    + intros [[<- <-]|[Hne (q & Hq & E)]]; [exists p; naive_solver|exists q; naive_solver].
    + intros (q & [->|Hq] & <- & <-); [by left|right]. split; [by apply not_eq_sym, Hn|naive_solver].
Qed.

Lemma registImpl_ok r m p l :
  reg_inv r m -> frozen_ r = false -> entry_of r p -> selectList r (tkind p) = Some l ->
  (forall q, q ∈ l -> key (tname q) <> key (tname p)) ->
  let d := entry_at r p in let x := m (tkind p) in
  let '(res, r') := registImpl r p in
  let '(res', x') :=
    if negb (Descriptor_isValid d) then (RegistrationResultInvalidParams, x)
    else if bool_decide (map_Exists (fun _ d' => dt_id (nd_descriptor d') = entry_id r p) x) then (RegistrationResultCollision, x)
    else (RegistrationResultOk, <[key (tname p) := d]> x) in
  res = res' /\ reg_inv r' (upd m (tkind p) x') /\ frozen_ r' = false.
Proof.
  intros Hr Hf He Hl Hn d x. unfold registImpl. fold d. rewrite Hf, (entry_of_kind r p He), Hl.
  destruct (rv_list r m _ l Hr Hl) as [Hlo Hh]. rewrite (collision_ok r (tkind p) l x p Hlo Hh He Hn).
  destruct (Descriptor_isValid d) eqn:Hv; cbn [negb].
  - case_bool_decide as Hid.
    + split_and!; [done| |done]. eapply reg_inv_ext; [done|]. intros k. apply upd_same.
    + destruct (entry_insert_ok r (tkind p) l x p Hlo Hh He (eq_refl _) Hv Hn Hid) as [Hl' Hh'].
      split_and!; [done| |by destruct (tkind p)]. by apply set_list_inv.
  - split_and!; [done| |done]. eapply reg_inv_ext; [done|]. intros k. apply upd_same.
Qed.

Lemma registration_ok r m p id :
  reg_inv r m -> frozen_ r = false ->
  let '(res, r') := registerDataType type_info r p id in
  let '(res', x) := spec_register (m (tkind p)) (type_info p) id in
  res = res' /\ reg_inv r' (upd m (tkind p) x) /\ frozen_ r' = false.
Proof.
  intros Hr Hf. assert (exists l, selectList r (tkind p) = Some l) as [l Hl] by (pose proof (Hkinds p); destruct (tkind p); eauto; done).
  destruct (prepare_ok r m p id l Hr Hf Hl) as (r3 & E & Hr3 & Hf3 & He3 & Hid3 & Hl3).
  assert (E' : registerDataType type_info r p id = registImpl r3 p).
  { unfold registerDataType. rewrite Hf. destruct (reg_remove r p) as [[] r1]; try discriminate E. unfold assign in E. by rewrite E. }
  rewrite E'. unfold spec_register.
  pose proof (registImpl_ok r3 _ p _ Hr3 Hf3 He3 Hl3) as H. cbn zeta in H.
  assert (Eu : forall y, upd m (tkind p) y (tkind p) = y) by (intros y; unfold upd; by rewrite decide_True). rewrite !Eu in H.
  replace (entry_at r3 p) with (mkNamed (mkDescriptor (tkind p) id (ty_signature (type_info p))) (tname p)) in H by (rewrite He3, Hid3; done).
  rewrite Hid3 in H. destruct (registImpl r3 p) as [res r']. destruct (if negb _ then _ else _) as [res' x'].
  destruct H as (-> & Hr' & Hf').
  - intros q Hq. by apply list_elem_of_filter in Hq as [? _].
  - split_and!; [done| |done]. eapply reg_inv_ext; [done|]. intros k. unfold upd. repeat case_decide; done.
Qed.

(** The searches. *)
Lemma find_first {X} (f : X -> bool) (l : list X) x : List.find f l = Some x -> x ∈ l /\ f x = true.
Proof. intros E. apply find_some in E as [Hin Hf]. split; [by apply list_elem_of_In|done]. Qed.

Lemma match_name_ok r k l p name : list_ok r k l -> p ∈ l -> match_name (entry_at r p) k name = true <-> key (tname p) = key name.
Proof.
  intros Hl Hp. destruct (lo_entries _ _ _ Hl p Hp) as (He & Hk & _). unfold match_name. rewrite strneq_spec, He. cbn [nd_descriptor dt_kind full_name_].
  rewrite andb_true_iff, !bool_decide_eq_true. tauto.
Qed.

Lemma find_name_ok r m k name : reg_inv r m -> k <> NumDataTypeKinds -> find_name r k name = m k !! key name.
Proof.
  intros Hr Hk. unfold find_name. destruct (selectList r k) as [l|] eqn:Hl; [|by destruct k]. destruct (rv_list r m k l Hr Hl) as [Hlo Hh]. unfold holds in Hh.
  symmetry. destruct (List.find _ l) as [p|] eqn:E; cbn.
  - apply find_first in E as [Hp E]. apply (match_name_ok r k l) in E; [|done|done]. apply Hh. exists p. done.
  - apply eq_None_not_Some. intros [d Hd]. apply Hh in Hd as (p & Hp & _ & Hn).
    pose proof Hp as Hp'. apply list_elem_of_In, (find_none _ _ E) in Hp'. apply (match_name_ok r k l p name) in Hn; [|done|done]. congruence.
Qed.

Lemma match_id_ok r k l p id : list_ok r k l -> p ∈ l -> match_id (entry_at r p) k id = true <-> dt_id (nd_descriptor (entry_at r p)) = id.
Proof.
  intros Hl Hp. destruct (lo_entries _ _ _ Hl p Hp) as (He & Hk & _). unfold match_id. rewrite He. cbn [nd_descriptor dt_kind dt_id].
  rewrite andb_true_iff, bool_decide_eq_true, Z.eqb_eq. tauto.
Qed.

Lemma ids_inj r k l x n n' d d' :
  list_ok r k l -> holds r l x -> x !! n = Some d -> x !! n' = Some d' -> dt_id (nd_descriptor d) = dt_id (nd_descriptor d') -> n = n' /\ d = d'.
Proof.
  intros Hl Hh H1 H2 E. unfold holds in Hh. apply Hh in H1 as (p & Hp & <- & <-), H2 as (q & Hq & <- & <-).
  assert (p = q) as ->; [|done]. eapply (names_inj l (entry_id r)); [apply Hl|done|done|done].
Qed.

Lemma find_id_ok r m k id d : reg_inv r m -> k <> NumDataTypeKinds -> find_id r k id = Some d <-> exists n, m k !! n = Some d /\ dt_id (nd_descriptor d) = id.
Proof.
  intros Hr Hk. unfold find_id. destruct (selectList r k) as [l|] eqn:Hl; [|by destruct k]. destruct (rv_list r m k l Hr Hl) as [Hlo Hh].
  pose proof Hh as Hh'. unfold holds in Hh'. destruct (List.find _ l) as [p|] eqn:E; cbn.
  - apply find_first in E as [Hp E]. apply (match_id_ok r k l) in E; [|done|done].
    assert (Hm : m k !! key (tname p) = Some (entry_at r p)) by (apply Hh'; by exists p). split; [intros [= <-]; eauto|].
    intros (n & Hn & Hid). f_equal. eapply (ids_inj r k l (m k) _ n); [done|done|done|done|congruence].
  - split; [done|]. intros (n & Hn & Hid). apply Hh' in Hn as (p & Hp & <- & _).
    pose proof Hp as Hp'. apply list_elem_of_In, (find_none _ _ E) in Hp'. apply (match_id_ok r k l) in Hid; [|done|done]. congruence.
Qed.

Lemma count_ok r k l x : list_ok r k l -> holds r l x -> length l = size x.
Proof.
  intros Hl Hh. unfold holds in Hh.
  assert (E : dom x = list_to_set ((fun p => key (tname p)) <$> l)).
  { apply set_eq. intros n. rewrite elem_of_dom, elem_of_list_to_set, list_elem_of_fmap. split.
    - intros [d Hd]. apply Hh in Hd as (p & Hp & _ & <-). by exists p.
    - intros (p & -> & Hp). exists (entry_at r p). apply Hh. by exists p. }
  rewrite <-size_dom, E, size_list_to_set by apply Hl. by rewrite length_fmap.
Qed.
End registry_ok.

(** ** Histories *)

Inductive RegOp := OpRegister (type id : Z) | OpFreeze.

Section history.
Context (type_info : Z -> TypeInfo).

Definition apply_op (r : Registry) (op : RegOp) : RegistrationResult * Registry :=
  match op with OpRegister type id => registerDataType type_info r type id | OpFreeze => (RegistrationResultOk, freeze r) end.

(** The same on maps: after the freeze nothing changes. *)
Record SpecState := mkSpec { spec_names : DataTypeKind -> Names; spec_frozen : bool }.
Definition spec_op (s : SpecState) (op : RegOp) : RegistrationResult * SpecState :=
  match op with
  | OpFreeze => (RegistrationResultOk, mkSpec (spec_names s) true)
  | OpRegister type id =>
      if spec_frozen s then (RegistrationResultFrozen, s)
      else let k := ty_kind (type_info type) in
           let '(res, x) := spec_register (spec_names s k) (type_info type) id in
           (res, mkSpec (upd (spec_names s) k x) false)
  end.

Fixpoint run {S} (f : S -> RegOp -> RegistrationResult * S) (s : S) (ops : list RegOp) : list RegistrationResult * S :=
  match ops with
  | [] => ([], s)
  | op :: ops => let '(res, s) := f s op in let '(l, s) := run f s ops in (res :: l, s)
  end.

Context (Hkinds : forall p, ty_kind (type_info p) <> NumDataTypeKinds).
Definition sim (r : Registry) (s : SpecState) : Prop := reg_inv type_info r (spec_names s) /\ frozen_ r = spec_frozen s.

Lemma sim_init : sim Registry_make (mkSpec (fun _ => ∅) false).
Proof.
  split; [|done]. split; [| |by right]; cbn [msgs_ srvs_ Registry_make];
    (split; [split; [intros p Hp; by apply elem_of_nil in Hp|apply SSorted_nil|apply NoDup_nil_2|apply NoDup_nil_2]|]); unfold holds; intros n d; cbn [spec_names]; (split; [by rewrite lookup_empty|]); intros (p & Hp & _); by apply elem_of_nil in Hp.
Qed.

Lemma sim_op r s op : sim r s -> (apply_op r op).1 = (spec_op s op).1 /\ sim (apply_op r op).2 (spec_op s op).2.
Proof.
  intros [Hr Hf]. destruct op as [type id|]; cbn [apply_op spec_op].
  - rewrite <-Hf. destruct (frozen_ r) eqn:Ef.
    + unfold registerDataType. rewrite Ef. split; [done|]. split; [done|cbn [snd]; by rewrite Ef, <-Hf].
    + pose proof (registration_ok type_info Hkinds r _ type id Hr Ef) as H.
      destruct (registerDataType _ _ _ _) as [res r'], (spec_register _ _ _) as [res' x]. destruct H as (-> & Hr' & Hf'). done.
  - split; [done|]. unfold freeze. destruct (frozen_ r) eqn:Ef; (split; [|done]); [done|].
    destruct Hr as [Hm Hs He]. split; [by apply list_ok_same|by apply list_ok_same|exact He].
Qed.

Lemma sim_run ops r s : sim r s -> (run apply_op r ops).1 = (run spec_op s ops).1 /\ sim (run apply_op r ops).2 (run spec_op s ops).2.
Proof.
  revert r s. induction ops as [|op ops IH]; intros r s Hs; [done|]. cbn [run]. destruct (sim_op r s op Hs) as [E Hs'].
  destruct (apply_op r op) as [res r'], (spec_op s op) as [res' s']. cbn [fst snd] in E, Hs'. destruct (IH r' s' Hs') as [E' Hs''].
  destruct (run apply_op r' ops), (run spec_op s' ops). cbn in *. split; [congruence|done].
Qed.

(** C8: whatever data types are registered, in whatever order, with whatever IDs and however often, before and after the freeze,
    the global data type registry is, for messages and for services, a finite map from full names (their first 80
    characters) to descriptors: each registration answers what the map says (a type registered again replaces its former
    entry, a foreign type's ID in use is a collision, an invalid ID or an empty name is refused, after the freeze nothing changes),
    the search by name is the lookup in that map, the search by ID finds exactly the one entry of that ID, and the counters are the sizes. *)
Theorem data_type_registry_refines (ops : list RegOp) :
  let '(results, r) := run apply_op Registry_make ops in
  let '(results', s) := run spec_op (mkSpec (fun _ => ∅) false) ops in
  results = results' /\ frozen_ r = spec_frozen s /\
  (forall kind name, kind <> NumDataTypeKinds -> find_name r kind name = spec_names s kind !! key name) /\
  (forall kind id d, kind <> NumDataTypeKinds ->
     find_id r kind id = Some d <-> exists n, spec_names s kind !! n = Some d /\ dt_id (nd_descriptor d) = id) /\
  (forall kind n n' d d', kind <> NumDataTypeKinds -> spec_names s kind !! n = Some d -> spec_names s kind !! n' = Some d' ->
     dt_id (nd_descriptor d) = dt_id (nd_descriptor d') -> n = n') /\
  getNumMessageTypes r = size (spec_names s DataTypeKindMessage) /\ getNumServiceTypes r = size (spec_names s DataTypeKindService).
Proof.
  pose proof (sim_run ops _ _ sim_init) as [E [Hr Hf]].
  destruct (run apply_op Registry_make ops) as [results r], (run spec_op _ ops) as [results' s]. cbn [fst snd] in E, Hr, Hf.
  split_and!; [done|done| | | | |].
  - intros kind name Hk. by apply (find_name_ok type_info).
  - intros kind id d Hk. by apply (find_id_ok type_info).
  - intros kind n n' d d' Hk H1 H2 Hid. destruct (selectList r kind) as [l|] eqn:Hl; [|by destruct kind].
    destruct (rv_list type_info r _ kind l Hr Hl) as [Hlo Hh]. by eapply (ids_inj type_info r kind l).
  - destruct (rv_msgs _ _ _ Hr) as [Hlo Hh]. by eapply (count_ok type_info).
  - destruct (rv_srvs _ _ _ Hr) as [Hlo Hh]. by eapply (count_ok type_info).
Qed.
End history.

Module ExampleTypes.
Definition type_info (p : Z) : TypeInfo :=
  if p =? 1 then mkTypeInfo DataTypeKindMessage 11 "uavcan.protocol.NodeStatus"
  else if p =? 2 then mkTypeInfo DataTypeKindMessage 22 "uavcan.protocol.Panic"
  else mkTypeInfo DataTypeKindService 33 "uavcan.protocol.RestartNode".
Definition ops : list RegOp := [OpRegister 1 5; OpRegister 2 5; OpRegister 2 4; OpRegister 3 5; OpRegister 1 70000; OpRegister 1 9; OpFreeze; OpRegister 2 6].
Lemma kinds p : ty_kind (type_info p) <> NumDataTypeKinds.
Proof. unfold type_info. destruct (p =? 1); [done|]. by destruct (p =? 2). Qed.
Lemma results :
  let '(l, r) := run (apply_op type_info) Registry_make ops in
  l = [RegistrationResultOk; RegistrationResultCollision; RegistrationResultOk; RegistrationResultOk; RegistrationResultInvalidParams; RegistrationResultOk;
       RegistrationResultOk; RegistrationResultFrozen] /\ msgs_ r = [2; 1] /\ srvs_ r = [3] /\
  (dt_id ∘ nd_descriptor <$> find_any r "uavcan.protocol.NodeStatus") = Some 9.
Proof. by vm_compute. Qed.
End ExampleTypes.

Lemma data_type_registry_refines_witness :
  (forall p, ty_kind (ExampleTypes.type_info p) <> NumDataTypeKinds) /\
  (run (apply_op ExampleTypes.type_info) Registry_make ExampleTypes.ops).1 =
  (run (spec_op ExampleTypes.type_info) (mkSpec (fun _ => ∅) false) ExampleTypes.ops).1.
Proof.
  split; [exact ExampleTypes.kinds|].
  pose proof (data_type_registry_refines ExampleTypes.type_info ExampleTypes.kinds ExampleTypes.ops) as H.
  destruct (run (apply_op _) _ _), (run (spec_op _) _ _). exact (proj1 H).
Defined.
