(* ===== verification/NodeStatusMonitor.v ===== *)
(** * NodeStatusMonitor: which nodes are there and how they are

    Models [NodeStatusMonitor] ([libuavcan/include/uavcan/protocol/node_status_monitor.hpp]). The
    constants of [uavcan.protocol.NodeStatus], which is not part of the sources, are variables; the virtual methods of
    the class are the class [MonitorHandlers]. [None] is a fatal error. *)

From stdpp Require Import list strings.
From S2P Require Import Prelude MonoTime Transfer Services.
Local Open Scope Z_scope.

(** A loop whose body may end the program. *)
Fixpoint foldM {S X} (f : S -> X -> option S) (s : S) (l : list X) : option S :=
  match l with [] => Some s | x :: l => s ← f s x; foldM f s l end.

(** The message [uavcan.protocol.NodeStatus]. *)
Record NodeStatusMessage := mkStatusMessage { uptime_sec : Z; msg_health : Z; msg_mode : Z; msg_sub_mode : Z }.

Record NodeStatus := mkStatus { health : Z; mode : Z; sub_mode : Z }.
#[export] Instance NodeStatus_eq_dec : EqDecision NodeStatus.
Proof. solve_decision. Defined.

Record NodeStatusChangeEvent := mkChange { ev_node_id : Z; ev_status : NodeStatus; ev_old_status : NodeStatus; was_known : bool }.

(** The virtual methods, on the state of the object that is derived from the monitor. *)
Class MonitorHandlers (W : Type) := {
  handleNodeStatusChange : W -> NodeStatusChangeEvent -> option W;
  handleNodeStatusMessage : W -> Z -> NodeStatusMessage -> option W
}.

Record MonitorEntry := mkMonitorEntry { me_status : NodeStatus; time_since_last_update_ms100 : Z }.

(** The last field is the period of the timer while it runs. *)
Record Monitor := mkMonitor { mon_entries : list MonitorEntry; mon_sub : GenericSubscriber; mon_callback : option unit; mon_timer : option Z }.

Definition TimerPeriodMs100 : Z := 2.

(** [Entry& getEntry(NodeID node_id) const], and an assignment to what it returns. *)
Definition getEntry (m : Monitor) (nid : Z) : option MonitorEntry :=
  if (nid <? 1) || (NodeID.Max <? nid) then None else mon_entries m !! Z.to_nat (nid - 1).
Definition setEntry (m : Monitor) (nid : Z) (e : MonitorEntry) : Monitor :=
  mkMonitor (<[Z.to_nat (nid - 1) := e]> (mon_entries m)) (mon_sub m) (mon_callback m) (mon_timer m).

Definition node_ids : list Z := seqZ 1 NodeID.Max.

Section monitor.
Context (HEALTH_OK HEALTH_CRITICAL MODE_OFFLINE OFFLINE_TIMEOUT_MS : Z).

(** [NodeStatus()], whose fields have 2, 3 and 3 bits, and [Entry()]. *)
Definition NodeStatus_default : NodeStatus := mkStatus (wrap 2 HEALTH_CRITICAL) (wrap 3 MODE_OFFLINE) 0.
Definition Entry_default : MonitorEntry := mkMonitorEntry NodeStatus_default (-1).
Definition Monitor_make : Monitor := mkMonitor (replicate (Z.to_nat NodeID.Max) Entry_default) GenericSubscriber_make None None.

Section handlers.
Context {W : Type} `{MonitorHandlers W}.

(** [void changeNodeStatus(const NodeID node_id, const Entry new_entry_value)]. *)
Definition changeNodeStatus (w : W) (m : Monitor) (node_id : Z) (new_entry_value : MonitorEntry) : option (W * Monitor) :=
  entry ← getEntry m node_id;
  w ← (if decide (me_status entry = me_status new_entry_value) then Some w
       else handleNodeStatusChange w
              (mkChange node_id (me_status new_entry_value) (me_status entry) (0 <=? time_since_last_update_ms100 entry)));
  Some (w, setEntry m node_id new_entry_value).

Definition status_of (msg : NodeStatusMessage) : NodeStatus :=
  mkStatus (Z.land (msg_health msg) (Z.shiftl 1 2 - 1)) (Z.land (msg_mode msg) (Z.shiftl 1 3 - 1)) (Z.land (msg_sub_mode msg) (Z.shiftl 1 3 - 1)).

(** [void handleNodeStatus(const ReceivedDataStructure<protocol::NodeStatus>& msg)]. *)
Definition handleNodeStatus (w : W) (m : Monitor) (src : Z) (msg : NodeStatusMessage) : option (W * Monitor) :=
  '(w, m) ← changeNodeStatus w m src (mkMonitorEntry (status_of msg) 0);
  w ← handleNodeStatusMessage w src msg;
  Some (w, m).

(** [void handleTimerEvent(const TimerEvent&)] and the body of its loop. *)
Definition OfflineTimeoutMs100 : Z := Z.quot OFFLINE_TIMEOUT_MS 100.
Definition monitor_tick (wm : W * Monitor) (i : Z) : option (W * Monitor) :=
  let '(w, m) := wm in
  entry ← getEntry m i;
  if (0 <=? time_since_last_update_ms100 entry) && negb (mode (me_status entry) =? MODE_OFFLINE) then
    let entry := mkMonitorEntry (me_status entry) (swrap 8 (time_since_last_update_ms100 entry + swrap 8 TimerPeriodMs100)) in
    let m := setEntry m i entry in
    if OfflineTimeoutMs100 <? time_since_last_update_ms100 entry then
      changeNodeStatus w m i
        (mkMonitorEntry (mkStatus (health (me_status entry)) (wrap 3 MODE_OFFLINE) (sub_mode (me_status entry))) (swrap 8 OfflineTimeoutMs100))
    else Some (w, m)
  else Some (w, m).
Definition Monitor_handleTimerEvent (w : W) (m : Monitor) : option (W * Monitor) := foldM monitor_tick (w, m) node_ids.
End handlers.

(** [int start()]. *)
Definition Monitor_start {W} `{INode W} (w : W) (m : Monitor) : Z * W * Monitor :=
  let '(res, w, s, cb) := Subscriber_start w (mon_sub m) (mon_callback m) (Some tt) in
  (res, w, mkMonitor (mon_entries m) s cb (if 0 <=? res then Some (Duration.fromMSec (TimerPeriodMs100 * 100)) else mon_timer m)).

(** [void forgetNode(NodeID node_id)] and [void forgetAllNodes()]. *)
Definition forgetNode (m : Monitor) (node_id : Z) : option Monitor :=
  if NodeID.isValid node_id then _ ← getEntry m node_id; Some (setEntry m node_id Entry_default) else Some m.
Definition forgetAllNodes (m : Monitor) : Monitor :=
  mkMonitor (const Entry_default <$> mon_entries m) (mon_sub m) (mon_callback m) (mon_timer m).

(** [NodeStatus getNodeStatus(NodeID node_id) const] and [bool isNodeKnown(NodeID node_id) const]. *)
Definition getNodeStatus (m : Monitor) (node_id : Z) : option NodeStatus :=
  if negb (NodeID.isValid node_id) then Some NodeStatus_default
  else entry ← getEntry m node_id;
       Some (if 0 <=? time_since_last_update_ms100 entry then me_status entry else NodeStatus_default).
Definition isNodeKnown (m : Monitor) (node_id : Z) : option bool :=
  if negb (NodeID.isValid node_id) then Some false
  else entry ← getEntry m node_id; Some (0 <=? time_since_last_update_ms100 entry).

(** [NodeID findNodeWithWorstHealth() const]. *)
Definition worst_step (m : Monitor) (st : Z * Z) (nid : Z) : option (Z * Z) :=
  let '(nid_with_worst_health, worst_health) := st in
  entry ← getEntry m nid;
  Some (if (0 <=? time_since_last_update_ms100 entry) && ((worst_health <? health (me_status entry)) || negb (NodeID.isValid nid_with_worst_health))
        then (nid, health (me_status entry)) else st).
Definition findNodeWithWorstHealth (m : Monitor) : option Z := fst <$> foldM (worst_step m) (NodeID.default, HEALTH_OK) node_ids.

(** [template <typename Operator> void forEachNode(Operator op) const]. *)
Definition forEachNode {S} (op : S -> Z -> NodeStatus -> S) (s : S) (m : Monitor) : option S :=
  foldM (fun s nid => entry ← getEntry m nid; Some (if 0 <=? time_since_last_update_ms100 entry then op s nid (me_status entry) else s)) s node_ids.
End monitor.

(** ** What the monitor knows, from the history *)

Inductive MonitorEvent := MMessage (src : Z) (msg : NodeStatusMessage) | MTick | MForget (node_id : Z) | MForgetAll.
Inductive Callback := CbChange (event : NodeStatusChangeEvent) | CbMessage (src : Z) (msg : NodeStatusMessage).

(** The status in the last message of a node, and how often the timer of the monitor has expired since;
    histories have their newest event first. *)
Fixpoint last_message (n : Z) (h : list MonitorEvent) : option (NodeStatus * nat) :=
  match h with
  | [] => None
  | MMessage src msg :: h => if src =? n then Some (status_of msg, O) else last_message n h
  | MTick :: h => prod_map id S <$> last_message n h
  | MForget n' :: h => if n' =? n then None else last_message n h
  | MForgetAll :: _ => None
  end.

Section tracks.
Context (HEALTH_OK HEALTH_CRITICAL MODE_OFFLINE OFFLINE_TIMEOUT_MS : Z).
Context (Hhealth : 0 <= HEALTH_CRITICAL < 4) (Hmode : 0 <= MODE_OFFLINE < 8) (Htimeout : 0 <= OFFLINE_TIMEOUT_MS / 100 <= 125).
Abbreviation K := (OFFLINE_TIMEOUT_MS / 100).
Abbreviation Entry_default := (Entry_default HEALTH_CRITICAL MODE_OFFLINE).
Abbreviation NodeStatus_default := (NodeStatus_default HEALTH_CRITICAL MODE_OFFLINE).

Definition timed_out (s : NodeStatus) (ticks : nat) : bool := negb (mode s =? MODE_OFFLINE) && (K <? 2 * Z.of_nat ticks).

(** A node whose last message is too old is offline, all else is as the message said. *)
Definition seen (s : NodeStatus) (ticks : nat) : NodeStatus :=
  if timed_out s ticks then mkStatus (health s) MODE_OFFLINE (sub_mode s) else s.

(** The entry that stands for it. *)
Definition spec_entry (h : list MonitorEvent) (n : Z) : MonitorEntry :=
  match last_message n h with
  | None => Entry_default
  | Some (s, t) => mkMonitorEntry (seen s t) (if mode s =? MODE_OFFLINE then 0 else Z.min K (2 * Z.of_nat t))
  end.
Definition spec_status (h : list MonitorEvent) (n : Z) : NodeStatus := me_status (spec_entry h n).

(** The virtual methods that are called when an event comes after a history. *)
Definition change_of (h : list MonitorEvent) (e : MonitorEvent) (n : Z) : list Callback :=
  if decide (spec_status h n = spec_status (e :: h) n) then []
  else [CbChange (mkChange n (spec_status (e :: h) n) (spec_status h n) (bool_decide (is_Some (last_message n h))))].
Definition callbacks (h : list MonitorEvent) (e : MonitorEvent) : list Callback :=
  match e with
  | MMessage src msg => change_of h e src ++ [CbMessage src msg]
  | MTick => mjoin (change_of h e <$> node_ids)
  | _ => []
  end.

Definition valid_event (e : MonitorEvent) : Prop :=
  match e with MMessage src _ => 1 <= src <= NodeID.Max | MForget n => 1 <= n <= NodeID.Max | _ => True end.

Section run.
Context {W : Type} `{MonitorHandlers W}.

Definition callback (w : W) (cb : Callback) : option W :=
  match cb with CbChange e => handleNodeStatusChange w e | CbMessage src msg => handleNodeStatusMessage w src msg end.

Definition monitor_event (wm : W * Monitor) (e : MonitorEvent) : option (W * Monitor) :=
  let '(w, m) := wm in
  match e with
  | MMessage src msg => handleNodeStatus w m src msg
  | MTick => Monitor_handleTimerEvent MODE_OFFLINE OFFLINE_TIMEOUT_MS w m
  | MForget n => (pair w) <$> forgetNode HEALTH_CRITICAL MODE_OFFLINE m n
  | MForgetAll => Some (w, forgetAllNodes HEALTH_CRITICAL MODE_OFFLINE m)
  end.

Lemma foldM_app {S X} (f : S -> X -> option S) s l l' : foldM f s (l ++ l') = s ← foldM f s l; foldM f s l'.
Proof. revert s. induction l as [|x l IH]; intros s; cbn; [done|]. destruct (f s x); cbn; [apply IH|done]. Qed.

Lemma Kquot : OfflineTimeoutMs100 OFFLINE_TIMEOUT_MS = K.
Proof. unfold OfflineTimeoutMs100. apply Z.quot_div_nonneg; [|lia]. pose proof (Z.div_mod OFFLINE_TIMEOUT_MS 100). pose proof (Z.mod_pos_bound OFFLINE_TIMEOUT_MS 100). lia. Qed.
Lemma wmode : wrap 3 MODE_OFFLINE = MODE_OFFLINE.
Proof. unfold wrap. apply Z.mod_small. lia. Qed.

(** The timer on one entry. *)
Definition tick_entry (e : MonitorEntry) : MonitorEntry :=
  if (0 <=? time_since_last_update_ms100 e) && negb (mode (me_status e) =? MODE_OFFLINE) then
    if K <? time_since_last_update_ms100 e + 2 then mkMonitorEntry (mkStatus (health (me_status e)) MODE_OFFLINE (sub_mode (me_status e))) K
    else mkMonitorEntry (me_status e) (time_since_last_update_ms100 e + 2)
  else e.

Lemma spec_tick h n : spec_entry (MTick :: h) n = tick_entry (spec_entry h n).
Proof.
  unfold spec_entry, tick_entry. cbn [last_message]. destruct (last_message n h) as [[s t]|]; cbn [fmap option_fmap option_map prod_map].
  2:{ done. }
  cbn [me_status time_since_last_update_ms100 fst snd]. unfold seen, timed_out, id.
  destruct (Z.eqb_spec (mode s) MODE_OFFLINE) as [E|E]; cbn [negb andb orb].
  - by rewrite !E, Z.eqb_refl.
  - rewrite Nat2Z.inj_succ. destruct (Z.ltb_spec K (2 * Z.of_nat t)) as [Ht|Ht].
    + cbn [mode]. rewrite Z.eqb_refl, andb_false_r. destruct (Z.ltb_spec K (2 * Z.succ (Z.of_nat t))); [|lia].
      apply (f_equal2 mkMonitorEntry); [done|lia].
    + destruct (Z.eqb_spec (mode s) MODE_OFFLINE); [done|]. rewrite (proj2 (Z.leb_le 0 _)) by lia. cbn [negb andb].
      destruct (Z.ltb_spec K (Z.min K (2 * Z.of_nat t) + 2)).
      * destruct (Z.ltb_spec K (2 * Z.succ (Z.of_nat t))); [|lia]. apply (f_equal2 mkMonitorEntry); [done|lia].
      * destruct (Z.ltb_spec K (2 * Z.succ (Z.of_nat t))); [lia|]. apply (f_equal2 mkMonitorEntry); [done|lia].
Qed.

Lemma spec_known h n : (0 <=? time_since_last_update_ms100 (spec_entry h n)) = bool_decide (is_Some (last_message n h)).
Proof.
  unfold spec_entry. destruct (last_message n h) as [[s t]|]; cbn [time_since_last_update_ms100].
  - rewrite bool_decide_true by eauto. apply Z.leb_le. destruct (mode s =? MODE_OFFLINE); lia.
  - done.
Qed.

Lemma spec_time h n : -1 <= time_since_last_update_ms100 (spec_entry h n) <= K.
Proof. unfold spec_entry. destruct (last_message n h) as [[s t]|]; cbn; [|lia]. destruct (mode s =? MODE_OFFLINE); lia. Qed.

(** The monitor after a history. *)
Definition tracks (h : list MonitorEvent) (m : Monitor) : Prop := mon_entries m = spec_entry h <$> node_ids.

Lemma node_ids_lookup n : 1 <= n <= NodeID.Max -> node_ids !! Z.to_nat (n - 1) = Some n.
Proof. intros Hn. unfold node_ids. rewrite lookup_seqZ_lt by lia. f_equal. lia. Qed.

Lemma node_ids_split l n l' : node_ids = l ++ n :: l' -> Z.to_nat (n - 1) = length l /\ 1 <= n <= NodeID.Max /\ forall k, k ∈ l -> k < n.
Proof.
  intros Hl. assert (E : node_ids !! length l = Some n) by (rewrite Hl; by apply list_lookup_middle). unfold node_ids in *. apply lookup_seqZ in E.
  split_and!; [lia|lia|lia|]. intros k Hk. apply list_elem_of_lookup in Hk as [i Hi]. pose proof (lookup_lt_Some _ _ _ Hi) as Hlt.
  assert (Ek : seqZ 1 NodeID.Max !! i = Some k) by (rewrite Hl, lookup_app_l by done; done). apply lookup_seqZ in Ek. lia.
Qed.

Lemma getEntry_in m n : 1 <= n <= NodeID.Max -> getEntry m n = mon_entries m !! Z.to_nat (n - 1).
Proof. intros Hn. unfold getEntry. destruct (Z.ltb_spec n 1); [lia|]. destruct (Z.ltb_spec NodeID.Max n); [lia|done]. Qed.

Lemma getEntry_set m n e e' : getEntry m n = Some e -> getEntry (setEntry m n e') n = Some e'.
Proof.
  unfold getEntry. destruct (_ || _); [done|]. intros E. unfold setEntry. cbn [mon_entries]. apply list_lookup_insert_eq. by eapply lookup_lt_Some.
Qed.

Lemma tracks_entry h m n : tracks h m -> 1 <= n <= NodeID.Max -> getEntry m n = Some (spec_entry h n).
Proof. intros Ht Hn. rewrite getEntry_in, Ht, list_lookup_fmap, node_ids_lookup by done. done. Qed.

Lemma tracks_set h e m n :
  tracks h m -> 1 <= n <= NodeID.Max -> (forall k, k <> n -> spec_entry (e :: h) k = spec_entry h k) -> tracks (e :: h) (setEntry m n (spec_entry (e :: h) n)).
Proof.
  intros Ht Hn He. unfold tracks, setEntry. cbn [mon_entries]. apply list_eq. intros i. rewrite Ht.
  rewrite list_lookup_fmap. destruct (decide (i = Z.to_nat (n - 1))) as [->|Hi].
  - rewrite node_ids_lookup by done. rewrite list_lookup_insert_eq; [done|]. rewrite length_fmap. apply lookup_lt_is_Some. by rewrite node_ids_lookup.
  - rewrite list_lookup_insert_ne, list_lookup_fmap by done. destruct (node_ids !! i) as [k|] eqn:Ek; [|done]. cbn. f_equal. symmetry. apply He.
    intros ->. apply Hi. unfold node_ids in Ek. apply lookup_seqZ in Ek as [Ek Hlt]. lia.
Qed.

Lemma changeNodeStatus_ok w m n h e :
  (getEntry m n : option MonitorEntry) = Some (mkMonitorEntry (spec_status h n) (time_since_last_update_ms100 (spec_entry h n))) ->
  changeNodeStatus w m n (spec_entry (e :: h) n) = w ← foldM callback w (change_of h e n); Some (w, setEntry m n (spec_entry (e :: h) n)).
Proof.
  intros E. unfold changeNodeStatus. rewrite E. cbn [mbind option_bind]. unfold change_of. cbn [me_status time_since_last_update_ms100].
  fold (spec_status (e :: h) n). rewrite spec_known. case_decide; [done|]. cbn [foldM callback]. by destruct (handleNodeStatusChange _ _).
Qed.

Lemma message_ok w m h src msg :
  tracks h m -> 1 <= src <= NodeID.Max ->
  handleNodeStatus w m src msg = w ← foldM callback w (callbacks h (MMessage src msg)); Some (w, setEntry m src (spec_entry (MMessage src msg :: h) src)).
Proof.
  intros Ht Hs. unfold handleNodeStatus, callbacks.
  assert (E : mkMonitorEntry (status_of msg) 0 = spec_entry (MMessage src msg :: h) src).
  { unfold spec_entry. cbn [last_message]. rewrite Z.eqb_refl. unfold seen, timed_out. replace (K <? 2 * Z.of_nat 0) with false by (symmetry; apply Z.ltb_ge; lia).
    rewrite andb_false_r. apply (f_equal2 mkMonitorEntry); [done|]. destruct (_ =? _); lia. }
  rewrite E, (changeNodeStatus_ok w m src h) by (rewrite (tracks_entry h) by done; unfold spec_status; by destruct (spec_entry h src)).
  rewrite foldM_app. destruct (foldM callback w _) as [w'|]; cbn; [|done]. by destruct (handleNodeStatusMessage _ _ _).
Qed.

Lemma tick_step w l n l' h m :
  node_ids = l ++ n :: l' -> mon_entries m = (spec_entry (MTick :: h) <$> l) ++ (spec_entry h <$> n :: l') ->
  monitor_tick MODE_OFFLINE OFFLINE_TIMEOUT_MS (w, m) n =
  w ← foldM callback w (change_of h MTick n); Some (w, setEntry m n (spec_entry (MTick :: h) n)).
Proof.
  intros Hl Hm. destruct (node_ids_split l n l' Hl) as (Hi & Hn & _).
  assert (Hg : getEntry m n = Some (spec_entry h n)).
  { rewrite getEntry_in by done. rewrite Hm, Hi, fmap_cons. apply list_lookup_middle. by rewrite length_fmap. }
  assert (Hset : forall e e', setEntry (setEntry m n e) n e' = setEntry m n e') by (intros e e'; unfold setEntry; cbn; by rewrite list_insert_insert_eq).
  assert (Hid : setEntry m n (spec_entry h n) = m).
  { destruct m as [es s c t]. unfold setEntry. cbn [mon_entries mon_sub mon_callback mon_timer] in *. f_equal. apply list_insert_id.
    rewrite getEntry_in in Hg by done. exact Hg. }
  pose proof (spec_tick h n) as Et. pose proof (spec_time h n) as Htime. unfold monitor_tick. rewrite Hg, Kquot, wmode. cbn [mbind option_bind]. cbv zeta. cbn [me_status time_since_last_update_ms100].
  change (swrap 8 TimerPeriodMs100) with 2.
  unfold tick_entry in Et. destruct (_ && _) eqn:Eb.
  - assert (Esw : swrap 8 (time_since_last_update_ms100 (spec_entry h n) + 2) = time_since_last_update_ms100 (spec_entry h n) + 2).
    { unfold swrap. rewrite Z.mod_small; lia. }
    rewrite Esw. destruct (Z.ltb_spec K (time_since_last_update_ms100 (spec_entry h n) + 2)).
    + assert (Ek : swrap 8 K = K) by (unfold swrap; rewrite Z.mod_small; lia). rewrite Ek, <-Et.
      unfold changeNodeStatus. rewrite (getEntry_set m n _ _ Hg). cbn [mbind option_bind me_status time_since_last_update_ms100].
      unfold change_of. rewrite <-spec_known. unfold spec_status. apply andb_true_iff in Eb as [Eb _]. rewrite Eb.
      rewrite (proj2 (Z.leb_le 0 _)) by (apply Z.leb_le in Eb; lia). case_decide; [cbn; by rewrite Hset|].
      cbn [foldM callback]. destruct (handleNodeStatusChange _ _); cbn; [by rewrite Hset|done].
    + rewrite <-Et. unfold change_of, spec_status. rewrite Et. cbn [me_status]. rewrite decide_True by done. done.
  - unfold change_of, spec_status. rewrite Et, decide_True by done. cbn. by rewrite Hid.
Qed.

Lemma tick_loop l l' h m :
  node_ids = l ++ l' -> mon_entries m = (spec_entry (MTick :: h) <$> l) ++ (spec_entry h <$> l') ->
  exists m', (forall w, foldM (monitor_tick MODE_OFFLINE OFFLINE_TIMEOUT_MS) (w, m) l' = w ← foldM callback w (mjoin (change_of h MTick <$> l')); Some (w, m')) /\
    tracks (MTick :: h) m'.
Proof.
  revert l m. induction l' as [|n l' IH]; intros l m Hl Hm.
  - exists m. split; [done|]. unfold tracks. rewrite Hm, Hl. by rewrite !app_nil_r.
  - assert (Hm' : mon_entries (setEntry m n (spec_entry (MTick :: h) n)) = (spec_entry (MTick :: h) <$> l ++ [n]) ++ (spec_entry h <$> l')).
    { unfold setEntry. cbn [mon_entries]. destruct (node_ids_split l n l' Hl) as (Hi & _ & _).
      rewrite Hm, Hi. replace (length l) with (length (spec_entry (MTick :: h) <$> l) + 0)%nat by (rewrite length_fmap; lia).
      rewrite insert_app_r. rewrite fmap_app. cbn. by rewrite <-app_assoc. }
    destruct (IH (l ++ [n]) _ ltac:(by rewrite <-app_assoc) Hm') as (m' & E & Hm''). exists m'. split; [|done]. intros w.
    cbn [foldM]. rewrite (tick_step w l n l' h m Hl Hm), fmap_cons. cbn [mjoin list_join]. rewrite foldM_app.
    destruct (foldM callback w (change_of h MTick n)) as [w'|]; cbn [mbind option_bind]; [|done]. apply E.
Qed.

(** One event. *)
Lemma monitor_event_ok h e m :
  tracks h m -> valid_event e ->
  exists m', (forall w, monitor_event (w, m) e = w ← foldM callback w (callbacks h e); Some (w, m')) /\ tracks (e :: h) m'.
Proof.
  intros Ht Hv. destruct e as [src msg| |n|]; cbn [monitor_event valid_event] in *.
  - eexists. split; [intros w; by apply message_ok|]. apply tracks_set; [done|done|]. intros k Hk. unfold spec_entry. cbn [last_message].
    by rewrite (proj2 (Z.eqb_neq src k)).
  - apply (tick_loop [] node_ids); [done|]. exact Ht.
  - exists (setEntry m n Entry_default). unfold forgetNode, NodeID.isValid. rewrite (proj2 (Z.leb_le _ _)) by lia. rewrite (tracks_entry h) by done.
    split; [done|]. assert (E : Entry_default = spec_entry (MForget n :: h) n) by (unfold spec_entry; cbn [last_message]; by rewrite Z.eqb_refl).
    rewrite E. apply tracks_set; [done|done|]. intros k Hk. unfold spec_entry. cbn [last_message]. by rewrite (proj2 (Z.eqb_neq n k)).
  - eexists. split; [done|]. unfold tracks, forgetAllNodes. cbn [mon_entries]. rewrite Ht, <-list_fmap_compose. by apply list_fmap_ext.
Qed.

Fixpoint all_callbacks (h es : list MonitorEvent) : list Callback :=
  match es with [] => [] | e :: es => callbacks h e ++ all_callbacks (e :: h) es end.

Lemma monitor_run_ok es h m :
  tracks h m -> Forall valid_event es ->
  exists m', (forall w, foldM monitor_event (w, m) es = w ← foldM callback w (all_callbacks h es); Some (w, m')) /\ tracks (rev es ++ h) m'.
Proof.
  revert h m. induction es as [|e es IH]; intros h m Ht Hv; [by exists m|]. apply Forall_cons in Hv as [He Hv].
  destruct (monitor_event_ok h e m Ht He) as (m1 & E1 & Ht1). destruct (IH (e :: h) m1 Ht1 Hv) as (m2 & E2 & Ht2).
  exists m2. split; [|cbn; by rewrite <-app_assoc]. intros w. cbn [foldM all_callbacks]. rewrite E1, foldM_app.
  destruct (foldM callback w (callbacks h e)); cbn; [apply E2|done].
Qed.

(** *** The searches *)

Definition known (h : list MonitorEvent) (n : Z) : Prop := is_Some (last_message n h).

Lemma foldM_total {S X} (f : S -> X -> option S) (g : S -> X -> S) s l : (forall s x, x ∈ l -> f s x = Some (g s x)) -> foldM f s l = Some (foldl g s l).
Proof.
  revert s. induction l as [|x l IH]; intros s Hf; [done|]. cbn. rewrite Hf by left. cbn. apply IH. intros s' y Hy. apply Hf. by right.
Qed.

Lemma in_node_ids n : n ∈ node_ids <-> 1 <= n <= NodeID.Max.
Proof. unfold node_ids. rewrite elem_of_seqZ. lia. Qed.

Lemma forEachNode_ok {S} (op : S -> Z -> NodeStatus -> S) s h m :
  tracks h m -> forEachNode op s m = Some (foldl (fun s n => op s n (spec_status h n)) s (filter (known h) node_ids)).
Proof.
  intros Ht. unfold forEachNode. rewrite (foldM_total _ (fun s n => if bool_decide (known h n) then op s n (spec_status h n) else s)).
  - f_equal. generalize node_ids. intros l. revert s. induction l as [|n l IH]; intros s; [done|]. cbn [foldl]. rewrite IH, filter_cons.
    case_bool_decide; case_decide; done.
  - intros s' n Hn. apply in_node_ids in Hn. rewrite (tracks_entry h) by done. cbn [mbind option_bind]. rewrite spec_known. done.
Qed.

(** The first of the known nodes with the greatest health value. *)
Definition worst (h : list MonitorEvent) (l : list Z) (n : Z) : Prop :=
  n ∈ l /\ known h n /\
  (forall k, k ∈ l -> known h k -> health (spec_status h k) <= health (spec_status h n)) /\
  (forall k, k ∈ l -> known h k -> k < n -> health (spec_status h k) < health (spec_status h n)).

Definition worst_so_far (h : list MonitorEvent) (l : list Z) (st : Z * Z) : Prop :=
  if NodeID.isValid st.1 then worst h l st.1 /\ st.2 = health (spec_status h st.1) else st.1 = NodeID.default /\ forall k, k ∈ l -> ~ known h k.
Definition worst_spec (h : list MonitorEvent) (st : Z * Z) (n : Z) : Z * Z :=
  if bool_decide (known h n) && ((st.2 <? health (spec_status h n)) || negb (NodeID.isValid st.1)) then (n, health (spec_status h n)) else st.

Lemma worst_spec_ok h l n st : (forall k, k ∈ l -> k < n) -> NodeID.isValid n = true -> worst_so_far h l st -> worst_so_far h (l ++ [n]) (worst_spec h st n).
Proof.
  intros Hl Hv Hst. unfold worst_so_far, worst_spec in *. destruct st as [w x]; cbn [fst snd] in *.
  assert (Hin : forall k, k ∈ l ++ [n] <-> k ∈ l \/ k = n) by (intros k; rewrite elem_of_app, list_elem_of_singleton; done).
  unfold worst in *. case_bool_decide as Hk; cbn [andb].
  - destruct (NodeID.isValid w) eqn:Ew; cbn [negb orb].
    + destruct Hst as [(H1 & H2 & H3 & H4) ->]. destruct (Z.ltb_spec (health (spec_status h w)) (health (spec_status h n))) as [Hlt|Hge]; cbn [orb fst snd].
      * rewrite Hv. split; [|done]. split_and!; [apply Hin; by right|done| |].
        -- intros k Hkn%Hin Hkk; destruct Hkn as [Hkl| ->]; [|lia]. specialize (H3 k Hkl Hkk). lia.
        -- intros k Hkn%Hin Hkk Hlt'; destruct Hkn as [Hkl| ->]; [|lia]. specialize (H3 k Hkl Hkk). lia.
      * rewrite Ew. split; [|done]. split_and!; [apply Hin; by left|done| |].
        -- intros k Hkn%Hin Hkk; destruct Hkn as [Hkl| ->]; [by apply H3|lia].
        -- intros k Hkn%Hin Hkk Hlt'; destruct Hkn as [Hkl| ->]; [by apply H4|]. specialize (Hl w H1). lia.
    + rewrite orb_true_r. cbn [fst snd]. rewrite Hv. destruct Hst as [_ Hno]. split; [|done]. split_and!; [apply Hin; by right|done| |].
      * intros k Hkn%Hin Hkk; destruct Hkn as [Hkl| ->]; [by destruct (Hno k Hkl)|lia].
      * intros k Hkn%Hin Hkk Hlt'; destruct Hkn as [Hkl| ->]; [by destruct (Hno k Hkl)|lia].
  - cbn [fst snd]. destruct (NodeID.isValid w) eqn:Ew.
    + destruct Hst as [(H1 & H2 & H3 & H4) ->]. split; [|done]. split_and!; [apply Hin; by left|done| |].
      * intros k Hkn%Hin Hkk; destruct Hkn as [Hkl| ->]; [by apply H3|done].
      * intros k Hkn%Hin Hkk; destruct Hkn as [Hkl| ->]; [by apply H4|done].
    + destruct Hst as [-> Hno]. split; [done|]. intros k Hkn%Hin; destruct Hkn as [Hkl| ->]; [by apply Hno|done].
Qed.

Lemma worst_loop_ok h l l' st : node_ids = l ++ l' -> worst_so_far h l st -> worst_so_far h node_ids (foldl (worst_spec h) st l').
Proof.
  revert l st. induction l' as [|n l' IH]; intros l st Hl Hst; [by rewrite Hl, app_nil_r|]. cbn [foldl].
  destruct (node_ids_split l n l' Hl) as (_ & Hn & Hlt). apply (IH (l ++ [n])); [by rewrite <-app_assoc|].
  apply worst_spec_ok; [done| |done]. apply Z.leb_le. lia.
Qed.

Lemma worst_init h : worst_so_far h [] (NodeID.default, HEALTH_OK).
Proof. split; [done|]. intros k Hk. by apply elem_of_nil in Hk. Qed.

Lemma findNodeWithWorstHealth_ok h m :
  tracks h m -> exists n, findNodeWithWorstHealth HEALTH_OK m = Some n /\
    (if NodeID.isValid n then worst h node_ids n else forall k, k ∈ node_ids -> ~ known h k).
Proof.
  intros Ht. unfold findNodeWithWorstHealth. rewrite (foldM_total _ (worst_spec h)).
  - pose proof (worst_loop_ok h [] node_ids (NodeID.default, HEALTH_OK) eq_refl (worst_init h)) as Hw. revert Hw.
    generalize (foldl (worst_spec h) (NodeID.default, HEALTH_OK) node_ids). intros st Hw. exists st.1. split; [done|].
    unfold worst_so_far in Hw. destruct (NodeID.isValid st.1); apply Hw.
  - intros [a b] n Hn. unfold worst_step, worst_spec. apply in_node_ids in Hn. rewrite (tracks_entry h) by done. cbn [mbind option_bind]. rewrite spec_known. done.
Qed.

Lemma tracks_queries h m n :
  tracks h m -> 1 <= n <= NodeID.Max ->
  isNodeKnown m n = Some (bool_decide (known h n)) /\
  getNodeStatus HEALTH_CRITICAL MODE_OFFLINE m n = Some (match last_message n h with None => NodeStatus_default | Some (s, t) => seen s t end).
Proof.
  intros Ht Hn. assert (Hv : NodeID.isValid n = true) by (apply Z.leb_le; lia). unfold isNodeKnown, getNodeStatus. rewrite Hv, (tracks_entry h) by done.
  cbn [negb mbind option_bind]. rewrite spec_known. split; [done|]. unfold spec_entry. destruct (last_message n h) as [[s t]|]; [|done].
  by rewrite bool_decide_true.
Qed.

Lemma tracks_make : tracks [] (Monitor_make HEALTH_CRITICAL MODE_OFFLINE).
Proof. unfold tracks, Monitor_make. cbn [mon_entries]. vm_compute. reflexivity. Qed.
End run.

(** C9: after any sequence of node status messages from the nodes 1 to 127, timer expirations and calls of [forgetNode] for
    these nodes (for the node ID 0 the call is fatal) and of [forgetAllNodes], the monitor has not failed, a node is known if it has sent a message since it was last forgotten, its status is the one of its last message, with the mode
    replaced by offline once that message is older than the timeout; [handleNodeStatusChange] was called exactly once for each change of a
    status and [handleNodeStatusMessage] once per message, in order; [forEachNode] visits the known nodes in the order of
    their IDs, and [findNodeWithWorstHealth] finds the first known node of the worst health. *)
Theorem node_status_monitor_tracks_the_network {W} `{MonitorHandlers W} (w : W) (es : list MonitorEvent) :
  Forall valid_event es ->
  exists m, foldM monitor_event (w, Monitor_make HEALTH_CRITICAL MODE_OFFLINE) es = (w' ← foldM callback w (all_callbacks [] es); Some (w', m)) /\
  let h := rev es in
  (forall n, 1 <= n <= NodeID.Max ->
     isNodeKnown m n = Some (bool_decide (is_Some (last_message n h))) /\
     getNodeStatus HEALTH_CRITICAL MODE_OFFLINE m n =
       Some (match last_message n h with None => NodeStatus_default | Some (s, t) => seen s t end)) /\
  (forall S (op : S -> Z -> NodeStatus -> S) s,
     forEachNode op s m = Some (foldl (fun s n => op s n (spec_status h n)) s (filter (known h) node_ids))) /\
  (exists n, findNodeWithWorstHealth HEALTH_OK m = Some n /\
     (if NodeID.isValid n then worst h node_ids n else forall k, k ∈ node_ids -> ~ known h k)).
Proof.
  intros Hv. destruct (monitor_run_ok es [] _ tracks_make Hv) as (m & E & Ht). rewrite app_nil_r in Ht. exists m. split; [apply E|]. cbn zeta.
  split_and!; [intros n Hn; by apply tracks_queries|intros S op s; by apply forEachNode_ok|by apply findNodeWithWorstHealth_ok].
Qed.
End tracks.

(** The node ID of broadcasts is valid, so the guards let it through to the fatal error. *)
Lemma broadcast_node_id_is_fatal HEALTH_CRITICAL MODE_OFFLINE m :
  forgetNode HEALTH_CRITICAL MODE_OFFLINE m NodeID.Broadcast = None /\ isNodeKnown m NodeID.Broadcast = None /\
  getNodeStatus HEALTH_CRITICAL MODE_OFFLINE m NodeID.Broadcast = None.
Proof. done. Qed.

(** ** An example: a derived class that records what it is told *)

Module LogHandlers.
#[export] Instance log_handlers : MonitorHandlers (list Callback) := {
  handleNodeStatusChange l e := Some (CbChange e :: l);
  handleNodeStatusMessage l src msg := Some (CbMessage src msg :: l)
}.

Definition events : list MonitorEvent :=
  [MMessage 5 (mkStatusMessage 1 0 0 0); MMessage 9 (mkStatusMessage 7 2 0 0); MTick; MMessage 5 (mkStatusMessage 2 1 0 0)] ++ replicate 15 MTick ++ [MForget 9].
Lemma monitor_events_valid : Forall valid_event events.
Proof. apply Forall_forall. intros e He. unfold events in He. cbn in He. rewrite !elem_of_cons in He. destruct_or? He; subst; cbn; try done; try lia. by apply elem_of_nil in He. Qed.

Lemma changes :
  (fun wm : list Callback * Monitor => omap (fun cb => match cb with CbChange e => Some (ev_node_id e, mode (ev_status e), was_known e) | _ => None end) wm.1) <$>
    foldM (monitor_event 3 7 3000) ([], Monitor_make 3 7) events =
  Some [(9, 7, true); (5, 0, true); (9, 0, false); (5, 0, false)].
Proof. by vm_compute. Qed.

Lemma node_status_monitor_tracks_the_network_witness :
  Forall valid_event events /\
  exists m, foldM (monitor_event 3 7 3000) ([], Monitor_make 3 7) events =
    (w' ← foldM callback [] (all_callbacks 3 7 3000 [] events); Some (w', m)).
Proof.
  split; [exact monitor_events_valid|].
  assert (H1 : 0 <= 3 < 4) by (split; discriminate || reflexivity).
  assert (H2 : 0 <= 7 < 8) by (split; discriminate || reflexivity).
  assert (H3 : 0 <= 3000 / 100 <= 125) by (split; discriminate).
  destruct (node_status_monitor_tracks_the_network 0 3 7 3000 H2 H3 [] events monitor_events_valid) as (m & E & _).
  exists m. exact E.
Defined.
End LogHandlers.
