(* ===== verification/NodeInfoRetriever.v ===== *)
(** * NodeInfoRetriever: asks every new node who it is

    Models [NodeInfoRetriever] ([libuavcan/include/uavcan/protocol/node_info_retriever.hpp]), which derives from
    the monitor of [NodeStatusMonitor] (its virtual methods are the instance [retriever_handlers]) and uses a
    service client of [Services]. [None] is a fatal error. *)

From stdpp Require Import list strings.
From S2P Require Import Prelude MonoTime Transfer Frame LinkedList Services NodeStatusMonitor.
Local Open Scope Z_scope.

Record InfoEntry := mkInfoEntry { ie_uptime_sec : Z; num_attempts_made : Z; request_needed : bool; updated_since_last_attempt : bool }.
Definition InfoEntry_default : InfoEntry := mkInfoEntry 0 0 false false.

(** The calls of the methods of [INodeInfoListener]. *)
Inductive ListenerCall (R : Type) :=
| HandleNodeInfoRetrieved (node_id : Z) (node_info : R)
| HandleNodeInfoUnavailable (node_id : Z)
| HandleStatusChange (event : NodeStatusChangeEvent)
| HandleStatusMessage (src : Z) (msg : NodeStatusMessage).
Arguments HandleNodeInfoRetrieved {_} _ _.
Arguments HandleNodeInfoUnavailable {_} _.
Arguments HandleStatusChange {_} _.
Arguments HandleStatusMessage {_} _ _.

(** The retriever but for the monitor it derives from. The listeners are known by their addresses; [rt_timer] is the period of its
    timer while that runs. [rt_world] is the node, [rt_failures] its count of internal failures, [rt_log] the
    calls of listeners so far. *)
Record Retriever (W R : Type) := mkRetriever {
  rt_world : W;
  rt_entries : list InfoEntry;
  listeners_ : list Z;
  get_node_info_client_ : ServiceClient;
  request_interval_ : Z;
  last_picked_node_ : Z;
  num_attempts_ : Z;
  rt_timer : option Z;
  rt_failures : Z;
  rt_log : list (Z * ListenerCall R)
}.
Arguments mkRetriever {_ _}.
Arguments rt_world {_ _}.
Arguments rt_entries {_ _}.
Arguments listeners_ {_ _}.
Arguments get_node_info_client_ {_ _}.
Arguments request_interval_ {_ _}.
Arguments last_picked_node_ {_ _}.
Arguments num_attempts_ {_ _}.
Arguments rt_timer {_ _}.
Arguments rt_failures {_ _}.
Arguments rt_log {_ _}.

Definition MaxNumRequestAttempts : Z := 254.
Definition UnlimitedRequestAttempts : Z := 0.
Definition DefaultNumRequestAttempts : Z := 16.
Definition DefaultTimerIntervalMSec : Z := 40.

Section fields.
Context {W R : Type}.
Abbreviation T := (Retriever W R).
Definition set_world (r : T) (w : W) (c : ServiceClient) : T :=
  mkRetriever w (rt_entries r) (listeners_ r) c (request_interval_ r) (last_picked_node_ r) (num_attempts_ r) (rt_timer r) (rt_failures r) (rt_log r).
Definition set_entries (r : T) (l : list InfoEntry) : T :=
  mkRetriever (rt_world r) l (listeners_ r) (get_node_info_client_ r) (request_interval_ r) (last_picked_node_ r) (num_attempts_ r) (rt_timer r) (rt_failures r) (rt_log r).
Definition set_listeners (r : T) (w : W) (l : list Z) : T :=
  mkRetriever w (rt_entries r) l (get_node_info_client_ r) (request_interval_ r) (last_picked_node_ r) (num_attempts_ r) (rt_timer r) (rt_failures r) (rt_log r).
Definition set_last (r : T) (n : Z) : T :=
  mkRetriever (rt_world r) (rt_entries r) (listeners_ r) (get_node_info_client_ r) (request_interval_ r) n (num_attempts_ r) (rt_timer r) (rt_failures r) (rt_log r).
Definition set_timer (r : T) (interval : Z) (t : option Z) : T :=
  mkRetriever (rt_world r) (rt_entries r) (listeners_ r) (get_node_info_client_ r) interval (last_picked_node_ r) (num_attempts_ r) t (rt_failures r) (rt_log r).
Definition set_num_attempts (r : T) (n : Z) : T :=
  mkRetriever (rt_world r) (rt_entries r) (listeners_ r) (get_node_info_client_ r) (request_interval_ r) (last_picked_node_ r) n (rt_timer r) (rt_failures r) (rt_log r).
Definition registerInternalFailure (r : T) : T :=
  mkRetriever (rt_world r) (rt_entries r) (listeners_ r) (get_node_info_client_ r) (request_interval_ r) (last_picked_node_ r) (num_attempts_ r) (rt_timer r)
    (rt_failures r + 1) (rt_log r).

(** [listeners_.forEach(...)] with a caller of that method. *)
Definition call_listeners (r : T) (call : ListenerCall R) : T :=
  mkRetriever (rt_world r) (rt_entries r) (listeners_ r) (get_node_info_client_ r) (request_interval_ r) (last_picked_node_ r) (num_attempts_ r) (rt_timer r)
    (rt_failures r) (rt_log r ++ ((fun l => (l, call)) <$> listeners_ r)).

(** [Entry& getEntry(NodeID node_id)], and an assignment to what it returns. *)
Definition getInfoEntry (r : T) (nid : Z) : option InfoEntry :=
  if (nid <? 1) || (NodeID.Max <? nid) then None else rt_entries r !! Z.to_nat (nid - 1).
Definition setInfoEntry (r : T) (nid : Z) (e : InfoEntry) : T := set_entries r (<[Z.to_nat (nid - 1) := e]> (rt_entries r)).

(** [void startTimerIfNotRunning()]. *)
Definition startTimerIfNotRunning (r : T) : T :=
  match rt_timer r with Some _ => r | None => set_timer r (request_interval_ r) (Some (request_interval_ r)) end.

(** [NodeID pickNextNodeToQuery(bool& out_at_least_one_request_needed) const]: the flag and the node ID. *)
Fixpoint pick_loop (iterations : nat) (needed : bool) (r : T) : option (bool * Z * T) :=
  match iterations with
  | O => Some (needed, NodeID.default, r)
  | S iterations =>
      let last := u8 (last_picked_node_ r + 1) in
      let last := if NodeID.Max <? last then 1 else last in
      let r := set_last r last in
      entry ← getInfoEntry r last;
      if request_needed entry then
        if updated_since_last_attempt entry && negb (hasPendingCallToServer (get_node_info_client_ r) last) then Some (true, last, r)
        else pick_loop iterations true r
      else pick_loop iterations needed r
  end.
Definition pickNextNodeToQuery (r : T) : option (bool * Z * T) := pick_loop (Z.to_nat NodeID.Max) false r.

(** *** The setters *)

Definition removeListener (r : T) (listener : Z) : T :=
  if listener =? 0 then r else set_listeners r (rt_world r) (filter (fun l => l <> listener) (listeners_ r)).
Definition getNumListeners (r : T) : nat := length (listeners_ r).
Definition setNumRequestAttempts (r : T) (num : Z) : T := set_num_attempts r (Z.min MaxNumRequestAttempts num).
Definition setRequestInterval (r : T) (interval : Z) : T :=
  if 0 <? interval then set_timer r interval (match rt_timer r with Some _ => Some interval | None => None end) else r.
Definition isRetrievingInProgress (r : T) : bool := match rt_timer r with Some _ => true | None => false end.
Definition getNumPendingRequests (r : T) : Z := u8 (Z.of_nat (getNumPendingCalls (get_node_info_client_ r))).
End fields.

Section retriever.
Context {W : Type} {node : INode W} {Q R : Type} (encode : Q -> Z * list Z) (GetNodeInfo_Request : Q) (response_uptime_sec : R -> Z) (MODE_OFFLINE : Z).
Abbreviation T := (Retriever W R).

(** [NodeInfoRetriever(INode& node)]. *)
Definition Retriever_make (w : W) : T :=
  mkRetriever w (replicate (Z.to_nat NodeID.Max) InfoEntry_default) [] (ServiceClient_make false) (Duration.fromMSec DefaultTimerIntervalMSec) 1
    DefaultNumRequestAttempts None 0 [].

(** [void handleTimerEvent(const TimerEvent&)]. *)
Definition Retriever_handleTimerEvent (r : T) : option T :=
  '(at_least_one_request_needed, next, r) ← pickNextNodeToQuery r;
  if NodeID.isUnicast next then
    entry ← getInfoEntry r next;
    let r := setInfoEntry r next (mkInfoEntry (ie_uptime_sec entry) (num_attempts_made entry) (request_needed entry) false) in
    let '(res, _, w, c) := call encode (rt_world r) (get_node_info_client_ r) next GetNodeInfo_Request in
    let r := set_world r w c in
    Some (if res <? 0 then registerInternalFailure r else r)
  else if negb at_least_one_request_needed then Some (set_timer r (request_interval_ r) None)
  else Some r.

(** [void handleNodeStatusChange(const NodeStatusChangeEvent& event)]. *)
Definition Retriever_handleNodeStatusChange (r : T) (event : NodeStatusChangeEvent) : option T :=
  let was_offline := negb (was_known event) || (mode (ev_old_status event) =? MODE_OFFLINE) in
  let offline_now := mode (ev_status event) =? MODE_OFFLINE in
  r ← (if was_offline || offline_now then
         entry ← getInfoEntry r (ev_node_id event);
         let r := setInfoEntry r (ev_node_id event) (mkInfoEntry (ie_uptime_sec entry) 0 (negb offline_now) (updated_since_last_attempt entry)) in
         Some (if negb offline_now then startTimerIfNotRunning r else r)
       else Some r);
  Some (call_listeners r (HandleStatusChange event)).

(** [void handleNodeStatusMessage(const ReceivedDataStructure<protocol::NodeStatus>& msg)]. *)
Definition Retriever_handleNodeStatusMessage (r : T) (src : Z) (msg : NodeStatusMessage) : option T :=
  entry ← getInfoEntry r src;
  let restarted := uptime_sec msg <? ie_uptime_sec entry in
  let entry := if restarted then mkInfoEntry (ie_uptime_sec entry) 0 true (updated_since_last_attempt entry) else entry in
  let r := if restarted then startTimerIfNotRunning r else r in
  let r := setInfoEntry r src (mkInfoEntry (uptime_sec msg) (num_attempts_made entry) (request_needed entry) true) in
  Some (call_listeners r (HandleStatusMessage src msg)).

#[export] Instance retriever_handlers : MonitorHandlers T := {
  handleNodeStatusChange := Retriever_handleNodeStatusChange;
  handleNodeStatusMessage := Retriever_handleNodeStatusMessage
}.

(** [void handleGetNodeInfoResponse(const ServiceCallResult<protocol::GetNodeInfo>& result)]. *)
Definition handleGetNodeInfoResponse (r : T) (result : ServiceCallResult R) : option T :=
  let node_id := server_node_id (call_id_ result) in
  entry ← getInfoEntry r node_id;
  match status_ result with
  | Success =>
      response ← response_ result;
      let r := setInfoEntry r node_id (mkInfoEntry (response_uptime_sec response) (num_attempts_made entry) false (updated_since_last_attempt entry)) in
      Some (call_listeners r (HandleNodeInfoRetrieved node_id response))
  | ErrorTimeout =>
      if num_attempts_ r =? UnlimitedRequestAttempts then Some r
      else
        let made := u8 (num_attempts_made entry + 1) in
        let exhausted := num_attempts_ r <=? made in
        let r := setInfoEntry r node_id
                   (mkInfoEntry (ie_uptime_sec entry) made (if exhausted then false else request_needed entry) (updated_since_last_attempt entry)) in
        Some (if exhausted then call_listeners r (HandleNodeInfoUnavailable node_id) else r)
  end.

(** [int start(const TransferPriority priority)], on the monitor as well, whose data type is another one. *)
Definition Retriever_start (monitor_node : INode W) (r : T) (m : Monitor) (priority : Z) : Z * T * Monitor :=
  let '(res, w, m) := @Monitor_start W monitor_node (rt_world r) m in
  let c := get_node_info_client_ r in
  let r := set_world r w c in
  if res <? 0 then (res, r, m)
  else
    let '(res, p) := @Publisher_init W node DataTypeKindService w (sc_publisher c) priority in
    let c := set_publisher c p in
    if res <? 0 then (res, set_world r w c, m)
    else
      let c := mkServiceClient (sc_subscriber c) (sc_publisher c) (data_type_descriptor_ c) (request_timeout_ c) (call_registry_ c)
                 (shared_deadline_ c) true (sc_has_filter c) in
      (0, set_world r w c, m).

(** [void invalidateAll()]. *)
Definition invalidateAll (HEALTH_CRITICAL : Z) (r : T) (m : Monitor) : T * Monitor :=
  let m := forgetAllNodes HEALTH_CRITICAL MODE_OFFLINE m in
  let '(w, c) := cancelAllCalls (rt_world r) (get_node_info_client_ r) in
  (set_entries (set_world r w c) (const InfoEntry_default <$> rt_entries r), m).

(** [int addListener(INodeInfoListener* listener)]. *)
Definition addListener (r : T) (listener : Z) : Z * T :=
  if listener =? 0 then (- ErrInvalidParam, r)
  else
    let r := removeListener r listener in
    let '(ok, w) := node_emplace (rt_world r) in
    if ok then (0, set_listeners r w (listeners_ r ++ [listener])) else (- ErrMemory, set_listeners r w (listeners_ r)).
End retriever.

(** ** The retriever at work *)

Inductive SysEvent (W R : Type) :=
| SMonitor (e : MonitorEvent)
| STimer
| SResponse (frame : RxFrame) (response : R)
| STimeout (i : nat)
| SDeadline
| SInvalidate
| SAddListener (listener : Z)
| SRemoveListener (listener : Z)
| SAttempts (num : Z)
| SInterval (interval : Z)
| SNode (w : W).
Arguments SMonitor {_ _} _.
Arguments STimer {_ _}.
Arguments SResponse {_ _} _ _.
Arguments STimeout {_ _} _.
Arguments SDeadline {_ _}.
Arguments SInvalidate {_ _}.
Arguments SAddListener {_ _} _.
Arguments SRemoveListener {_ _} _.
Arguments SAttempts {_ _} _.
Arguments SInterval {_ _} _.
Arguments SNode {_ _} _.

Section system.
Context {W : Type} {node : INode W} {Q R : Type} (encode : Q -> Z * list Z) (GetNodeInfo_Request : Q) (response_uptime_sec : R -> Z).
Context (HEALTH_CRITICAL MODE_OFFLINE OFFLINE_TIMEOUT_MS : Z).
Abbreviation T := (Retriever W R).
#[local] Existing Instance retriever_handlers.
#[local] Instance handlers : MonitorHandlers T := retriever_handlers MODE_OFFLINE.

(** The callback of the client makes no calls itself. *)
Definition no_ops (_ : ServiceCallResult R) : list (@ClientOp Q) := [].
Definition deliver (response : option R) (r : T) (e : CallEvent) : option T :=
  match e with EvResult st id => handleGetNodeInfoResponse response_uptime_sec r (mkResult st id response) | _ => Some r end.

Definition sys_step (s : T * Monitor) (e : SysEvent W R) : option (T * Monitor) :=
  let '(r, m) := s in
  let w := rt_world r in let c := get_node_info_client_ r in
  match e with
  | SMonitor e => monitor_event HEALTH_CRITICAL MODE_OFFLINE OFFLINE_TIMEOUT_MS (r, m) e
  | STimer => if isRetrievingInProgress r then r ← Retriever_handleTimerEvent encode GetNodeInfo_Request r; Some (r, m) else Some (r, m)
  | SResponse frame response =>
      let '(log, w, c) := Client_handleResponse encode no_ops w c frame response in
      r ← foldM (deliver (Some response)) (set_world r w c) log; Some (r, m)
  | STimeout i =>
      match call_registry_ c !! i ≫= cs_deadline_ with
      | Some d => Some (if d <=? node_getMonotonicTime w then set_world r w (CallState_handleDeadline c i) else r, m)
      | None => Some (r, m)
      end
  | SDeadline =>
      if shared_deadline_ c then
        let '(log, w, c) := Client_handleDeadline encode no_ops w c in
        r ← foldM (deliver None) (set_world r w c) log; Some (r, m)
      else Some (r, m)
  | SInvalidate => Some (invalidateAll MODE_OFFLINE HEALTH_CRITICAL r m)
  | SAddListener l => Some ((addListener r l).2, m)
  | SRemoveListener l => Some (removeListener r l, m)
  | SAttempts num => Some (setNumRequestAttempts r num, m)
  | SInterval interval => Some (setRequestInterval r interval, m)
  | SNode w => Some (set_world r w c, m)
  end.

Definition valid_sys (e : SysEvent W R) : Prop := match e with SMonitor e => valid_event e | _ => True end.

(** A node that can be queried now. *)
Definition eligible (r : T) (n : Z) : bool :=
  match getInfoEntry r n with
  | Some e => request_needed e && updated_since_last_attempt e && negb (hasPendingCallToServer (get_node_info_client_ r) n)
  | None => false
  end.
Definition picked (r : T) : option Z := '(_, n, _) ← pickNextNodeToQuery r; Some n.

Record ret_inv (r : T) : Prop := {
  ri_length : length (rt_entries r) = Z.to_nat NodeID.Max;
  ri_last : 1 <= last_picked_node_ r <= NodeID.Max;
  ri_timer : forall n e, getInfoEntry r n = Some e -> request_needed e = true -> is_Some (rt_timer r);
  ri_calls : Forall (fun cs => 1 <= server_node_id (id_ cs) <= NodeID.Max) (call_registry_ (get_node_info_client_ r))
}.

(** *** Entries *)

Lemma getInfoEntry_in (r : T) n : 1 <= n <= NodeID.Max -> getInfoEntry r n = rt_entries r !! Z.to_nat (n - 1).
Proof. intros Hn. unfold getInfoEntry. destruct (Z.ltb_spec n 1); [lia|]. destruct (Z.ltb_spec NodeID.Max n); [lia|done]. Qed.

Lemma getInfoEntry_Some (r : T) n e : getInfoEntry r n = Some e -> 1 <= n <= NodeID.Max.
Proof. unfold getInfoEntry. destruct (Z.ltb_spec n 1); [done|]. destruct (Z.ltb_spec NodeID.Max n); [done|]. lia. Qed.

Lemma entry_exists r n : ret_inv r -> 1 <= n <= NodeID.Max -> exists e, getInfoEntry r n = Some e.
Proof. intros Hr Hn. rewrite getInfoEntry_in by done. apply lookup_lt_is_Some. rewrite (ri_length r Hr). lia. Qed.

Lemma getInfoEntry_set (r : T) n e k :
  1 <= n <= NodeID.Max -> getInfoEntry (setInfoEntry r n e) k = if decide (k = n) then (const e) <$> getInfoEntry r k else getInfoEntry r k.
Proof.
  intros Hn. unfold getInfoEntry, setInfoEntry, set_entries. cbn [rt_entries]. destruct (_ || _) eqn:E; [by case_decide|].
  apply orb_false_iff in E as [E1%Z.ltb_ge E2%Z.ltb_ge]. case_decide as Hk.
  - subst. destruct (rt_entries r !! Z.to_nat (n - 1)) eqn:El; cbn.
    + rewrite list_lookup_insert_eq; [done|]. by eapply lookup_lt_Some.
    + rewrite list_insert_ge; [done|]. by apply lookup_ge_None.
  - rewrite list_lookup_insert_ne by lia. done.
Qed.

(** Entries, timer and calls are all the invariant is about. *)
Lemma ret_inv_same r r' :
  ret_inv r -> rt_entries r' = rt_entries r -> last_picked_node_ r' = last_picked_node_ r -> (is_Some (rt_timer r) -> is_Some (rt_timer r')) ->
  call_registry_ (get_node_info_client_ r') = call_registry_ (get_node_info_client_ r) -> ret_inv r'.
Proof.
  intros [H1 H2 H3 H4] E1 E2 E3 E4. split; [by rewrite E1|by rewrite E2| |by rewrite E4].
  intros n e. unfold getInfoEntry in *. rewrite E1. intros Hg Hn. apply E3. by eapply H3.
Qed.

(** An entry is written; if a request is needed then the timer runs. *)
Lemma ret_inv_set r n e : ret_inv r -> 1 <= n <= NodeID.Max -> (request_needed e = true -> is_Some (rt_timer r)) -> ret_inv (setInfoEntry r n e).
Proof.
  intros [H1 H2 H3 H4] Hn He. split; [|done| |done].
  - unfold setInfoEntry, set_entries. cbn [rt_entries]. by rewrite length_insert.
  - intros k e'. rewrite getInfoEntry_set by done. case_decide as Hk; [|by apply H3]. destruct (getInfoEntry r k); [|done]. cbn. intros [= <-]. exact He.
Qed.

Lemma start_timer_inv r : ret_inv r -> ret_inv (startTimerIfNotRunning r) /\ is_Some (rt_timer (startTimerIfNotRunning r)).
Proof.
  intros Hr. unfold startTimerIfNotRunning. destruct (rt_timer r) eqn:E; [rewrite E; eauto|]. split; [|by eexists]. by eapply ret_inv_same; eauto.
Qed.

Lemma call_listeners_inv r (call : ListenerCall R) : ret_inv r -> ret_inv (call_listeners r call).
Proof. intros Hr. by eapply ret_inv_same. Qed.

(** *** Steps that keep the place of the round robin *)

Definition keeps (r : T) (x : option T) : Prop := exists r', x = Some r' /\ ret_inv r' /\ last_picked_node_ r' = last_picked_node_ r.

Lemma start_timer_last (r : T) : last_picked_node_ (startTimerIfNotRunning r) = last_picked_node_ r.
Proof. unfold startTimerIfNotRunning. by destruct (rt_timer r). Qed.

Lemma change_ok r ev : ret_inv r -> 1 <= ev_node_id ev <= NodeID.Max -> keeps r (Retriever_handleNodeStatusChange MODE_OFFLINE r ev).
Proof.
  intros Hr Hn. unfold Retriever_handleNodeStatusChange. destruct (_ || _); cbn [mbind option_bind].
  2:{ eexists. split_and!; [done|by apply call_listeners_inv|done]. }
  destruct (entry_exists r _ Hr Hn) as [e E]. rewrite E. cbn [mbind option_bind]. eexists. split; [done|].
  destruct (negb _) eqn:Eo; cbn [mbind option_bind].
  - split; [|cbn; by rewrite start_timer_last]. apply call_listeners_inv.
    destruct (start_timer_inv r Hr) as [Hr' Ht]. eapply (ret_inv_same (setInfoEntry (startTimerIfNotRunning r) (ev_node_id ev) _)).
    + apply ret_inv_set; [exact Hr'|done|]. intros _. exact Ht.
    + unfold startTimerIfNotRunning. cbn. destruct (rt_timer r); done.
    + unfold startTimerIfNotRunning. cbn. destruct (rt_timer r); done.
    + unfold startTimerIfNotRunning. cbn. destruct (rt_timer r) eqn:Et; cbn; [by rewrite Et|done].
    + unfold startTimerIfNotRunning. cbn. destruct (rt_timer r); done.
  - split; [|done]. apply call_listeners_inv, ret_inv_set; [done|done|]. done.
Qed.

Lemma message_ok' r src msg : ret_inv r -> 1 <= src <= NodeID.Max -> keeps r (Retriever_handleNodeStatusMessage r src msg).
Proof.
  intros Hr Hn. unfold Retriever_handleNodeStatusMessage. destruct (entry_exists r _ Hr Hn) as [e E]. rewrite E. cbn [mbind option_bind].
  eexists. split; [done|]. destruct (uptime_sec msg <? ie_uptime_sec e); cbn [num_attempts_made request_needed].
  - destruct (start_timer_inv r Hr) as [Hr' Ht]. split; [|cbn; by apply start_timer_last]. by apply call_listeners_inv, ret_inv_set.
  - split; [|done]. apply call_listeners_inv, ret_inv_set; [done|done|]. intros Hq. by eapply (ri_timer r Hr).
Qed.

Lemma result_ok r st id resp :
  ret_inv r -> 1 <= server_node_id id <= NodeID.Max -> (st = Success -> is_Some resp) ->
  keeps r (handleGetNodeInfoResponse response_uptime_sec r (mkResult st id resp)).
Proof.
  intros Hr Hn Hs. unfold handleGetNodeInfoResponse. cbn [call_id_ status_ response_]. destruct (entry_exists r _ Hr Hn) as [e E]. rewrite E. cbn [mbind option_bind].
  destruct st.
  - destruct (Hs eq_refl) as [x ->]. cbn [mbind option_bind]. eexists. split_and!; [done| |done]. by apply call_listeners_inv, ret_inv_set.
  - destruct (_ =? _); [by exists r|]. eexists. split; [done|]. destruct (_ <=? _).
    + split; [|done]. by apply call_listeners_inv, ret_inv_set.
    + split; [|done]. apply ret_inv_set; [done|done|]. intros Hq. by eapply (ri_timer r Hr).
Qed.

Lemma keeps_fold {X} (f : T -> X -> option T) (P : X -> Prop) r l :
  (forall r x, ret_inv r -> P x -> keeps r (f r x)) -> ret_inv r -> Forall P l -> keeps r (foldM f r l).
Proof.
  intros Hf. revert r. induction l as [|x l IH]; intros r Hr Hl; [by exists r|]. apply Forall_cons in Hl as [Hx Hl].
  destruct (Hf r x Hr Hx) as (r1 & E1 & Hr1 & El1). destruct (IH r1 Hr1 Hl) as (r2 & E2 & Hr2 & El2).
  exists r2. cbn. rewrite E1. cbn. split_and!; [done|done|congruence].
Qed.

Definition cb_ok (cb : Callback) : Prop :=
  match cb with CbChange ev => 1 <= ev_node_id ev <= NodeID.Max | CbMessage src _ => 1 <= src <= NodeID.Max end.

Lemma callback_ok r cb : ret_inv r -> cb_ok cb -> keeps r (callback r cb).
Proof. intros Hr Hc. destruct cb; [by apply change_ok|by apply message_ok']. Qed.

Lemma callbacks_ok h e : valid_event e -> Forall cb_ok (callbacks HEALTH_CRITICAL MODE_OFFLINE OFFLINE_TIMEOUT_MS h e).
Proof.
  intros Hv. assert (Hc : forall n, 1 <= n <= NodeID.Max -> Forall cb_ok (change_of HEALTH_CRITICAL MODE_OFFLINE OFFLINE_TIMEOUT_MS h e n)).
  { intros n Hn. unfold change_of. case_decide; [done|]. by constructor. }
  destruct e; cbn [callbacks]; try done.
  - apply Forall_app. split; [by apply Hc|by constructor].
  - apply Forall_join, Forall_fmap, Forall_forall. intros n Hn. apply Hc. by apply in_node_ids.
Qed.

(** *** The client *)

Lemma registry_sub r w c : ret_inv r -> call_registry_ c ⊆ call_registry_ (get_node_info_client_ r) -> ret_inv (set_world r w c).
Proof. intros [H1 H2 H3 H4] Hs. split; [done|done|done|]. cbn. rewrite Forall_forall in *. intros cs Hc. by apply H4, Hs. Qed.

Lemma stop_registry (w : W) c : call_registry_ (stop_if_empty w c).2 = call_registry_ c.
Proof. unfold stop_if_empty. destruct (hasPendingCalls c); [done|]. by destruct (Subscriber_stop _ _). Qed.

Lemma cancel_registry (w : W) c id : call_registry_ (cancelCall w c id).2 ⊆ call_registry_ c.
Proof. unfold cancelCall. rewrite stop_registry. intros cs Hcs. eapply elem_of_sublist; [exact Hcs|apply remove_first_sub]. Qed.

Lemma prepare_registry (w : W) c n : let '(res, id, _, c') := prepareToCall w c n in call_registry_ c' = call_registry_ c /\ (0 <= res -> server_node_id id = n).
Proof.
  unfold prepareToCall. destruct (_ || _); [split; [done|unfold ErrInvalidParam; lia]|]. destruct (match data_type_descriptor_ c with Some d => Some d | None => _ end); [|done].
  destruct (node_next_tid _ _ _) as [[tid|] w']; cbn; auto.
Qed.

Lemma add_registry (w : W) c id : let '(res, _, c') := addCallState w c id in
  forall cs, cs ∈ call_registry_ c' -> cs ∈ call_registry_ c \/ (0 <= res /\ id_ cs = id).
Proof.
  unfold addCallState. destruct (if hasPendingCalls c then _ else _) as [[res w1] c1] eqn:E1.
  assert (Er : call_registry_ c1 = call_registry_ c).
  { destruct (hasPendingCalls c); [by injection E1 as _ _ <-|]. destruct (genericStart _ _ _) as [[? ?] ?]. by injection E1 as _ _ <-. }
  destruct (res <? 0); [rewrite Er; auto|]. destruct (node_emplace w1) as [[] w2].
  - cbn. intros cs. rewrite elem_of_app, list_elem_of_singleton, Er. intros [?| ->]; [by left|right; done].
  - destruct (Subscriber_stop _ _). cbn. rewrite Er. auto.
Qed.

Lemma call_registry_ok (w : W) c n q : let '(_, _, _, c') := call encode w c n q in
  forall cs, cs ∈ call_registry_ c' -> cs ∈ call_registry_ c \/ server_node_id (id_ cs) = n.
Proof.
  unfold call. destruct (negb (sc_has_callback c)); [auto|]. pose proof (prepare_registry w c n) as Hp.
  destruct (prepareToCall w c n) as [[[res id] w1] c1] eqn:Ep. destruct Hp as [Ec Hid]. destruct (Z.ltb_spec res 0); [rewrite Ec; auto|].
  specialize (Hid ltac:(lia)) as Hn.
  pose proof (add_registry w1 c1 id) as Ha. destruct (addCallState w1 c1 id) as [[res2 w2] c2]. rewrite Ec in Ha.
  assert (Hc : forall cs, cs ∈ call_registry_ c2 -> cs ∈ call_registry_ c \/ server_node_id (id_ cs) = n).
  { intros cs Hcs. destruct (Ha cs Hcs) as [?|[_ E]]; [by left|right; by rewrite E]. }
  destruct (res2 <? 0); [done|]. destruct (negb (forwarder_ _)).
  - pose proof (cancel_registry w2 c2 id) as Hs. destruct (cancelCall w2 c2 id) as [w3 c3]. cbn in Hs. auto.
  - destruct (genericPublish _ _ _ _ _ _ _ _ _) as [[res3 w3] p]. destruct (res3 <? 0); [|done].
    match goal with |- context [cancelCall ?w ?c ?i] => pose proof (cancel_registry w c i) as Hs; destruct (cancelCall w c i) as [w4 c4] end. cbn in Hs. auto.
Qed.

Lemma no_ops_invoke (log : list CallEvent) (w : W) c result :
  invokeCallback encode no_ops (log, w, c) result = (log ++ [EvResult (status_ result) (call_id_ result)], w, c).
Proof. done. Qed.

Lemma response_client r frame resp :
  ret_inv r -> let '(log, w, c) := Client_handleResponse encode no_ops (rt_world r) (get_node_info_client_ r) frame resp in
  ret_inv (set_world r w c) /\ Forall (fun e => exists id, e = EvResult Success id /\ 1 <= server_node_id id <= NodeID.Max) log.
Proof.
  intros Hr. unfold Client_handleResponse. destruct (shouldAcceptFrame _ _) eqn:Ea; [|split; [by eapply ret_inv_same|done]].
  unfold Client_handleReceivedDataStruct. set (id := mkCallID _ _). pose proof (cancel_registry (rt_world r) (get_node_info_client_ r) id) as Hs.
  destruct (cancelCall _ _ _) as [w c]. rewrite no_ops_invoke. cbn [status_ call_id_ app]. split; [by apply registry_sub|].
  constructor; [|done]. exists id. split; [done|]. unfold shouldAcceptFrame in Ea. apply existsb_exists in Ea as (cs & Hin & Hm).
  apply list_elem_of_In in Hin. unfold CallStateMatchingPredicate in Hm. apply andb_true_iff in Hm as [Hm%bool_decide_eq_true _].
  pose proof (ri_calls r Hr) as Hc. rewrite Forall_forall in Hc. specialize (Hc cs Hin). by rewrite Hm in Hc.
Qed.

Lemma deadline_client r :
  ret_inv r -> let '(log, w, c) := Client_handleDeadline encode no_ops (rt_world r) (get_node_info_client_ r) in
  ret_inv (set_world r w c) /\ Forall (fun e => exists id, e = EvResult ErrorTimeout id /\ 1 <= server_node_id id <= NodeID.Max) log.
Proof.
  intros Hr. unfold Client_handleDeadline. set (c0 := set_shared _ _). cbv zeta.
  assert (Hf : forall l log, foldl (fun st cs => invokeCallback encode no_ops st (mkResult ErrorTimeout (id_ cs) None)) (log, rt_world r, c0) l =
    (log ++ ((fun cs => EvResult ErrorTimeout (id_ cs)) <$> l), rt_world r, c0)).
  { induction l as [|cs l IH]; intros log; cbn [foldl]; [by rewrite app_nil_r|]. rewrite no_ops_invoke, IH. cbn. by rewrite <-app_assoc. }
  rewrite Hf. destruct (stop_if_empty (rt_world r) _) as [w c] eqn:Es. apply (f_equal (fun x => call_registry_ x.2)) in Es. rewrite stop_registry in Es. cbn in Es. split.
  - apply registry_sub; [done|]. rewrite <-Es. intros cs Hcs. by apply list_elem_of_filter in Hcs as [_ ?].
  - apply Forall_fmap, Forall_forall. intros cs Hcs. apply list_elem_of_filter in Hcs as [_ Hcs]. eexists. split; [done|].
    pose proof (ri_calls r Hr) as Hc. rewrite Forall_forall in Hc. by apply Hc.
Qed.

(** *** The round robin *)

(** The node that is looked at [i] iterations after the node [p], and how many are looked at before [n]. *)
Definition pos (p i : Z) : Z := (p - 1 + i) mod NodeID.Max + 1.
Definition dist (p n : Z) : Z := (n - p - 1) mod NodeID.Max.

Lemma pos_next p : 1 <= p <= NodeID.Max -> (let last := u8 (p + 1) in if NodeID.Max <? last then 1 else last) = pos p 1.
Proof.
  unfold pos, wrap. change NodeID.Max with 127. intros Hp. cbv zeta. change (2 ^ 8) with 256. rewrite (Z.mod_small (p + 1) 256) by lia.
  destruct (Z.ltb_spec 127 (p + 1)); Z.to_euclidean_division_equations; lia.
Qed.

Lemma pos_bounds p i : 1 <= pos p i <= NodeID.Max.
Proof. unfold pos. change NodeID.Max with 127. pose proof (Z.mod_pos_bound (p - 1 + i) 127). lia. Qed.

Lemma pos_pos p i j : pos (pos p i) j = pos p (i + j).
Proof. unfold pos. change NodeID.Max with 127. Z.to_euclidean_division_equations; lia. Qed.

Lemma pos_dist p n : 1 <= p <= NodeID.Max -> 1 <= n <= NodeID.Max -> pos p (dist p n + 1) = n /\ 0 <= dist p n < NodeID.Max.
Proof. unfold pos, dist. change NodeID.Max with 127. intros Hp Hn. Z.to_euclidean_division_equations; lia. Qed.

Lemma dist_pos p n j : 1 <= p <= NodeID.Max -> 1 <= n <= NodeID.Max -> 0 <= j < dist p n -> dist (pos p (j + 1)) n = dist p n - j - 1.
Proof. unfold pos, dist. change NodeID.Max with 127. intros Hp Hn Hj. Z.to_euclidean_division_equations; lia. Qed.

Lemma set_last_inv r n : ret_inv r -> 1 <= n <= NodeID.Max -> ret_inv (set_last r n).
Proof. intros [H1 H2 H3 H4] Hn. split; done. Qed.

Definition needs (r : T) (n : Z) : bool := match getInfoEntry r n with Some e => request_needed e | None => false end.

(** The search over [k] nodes stops at the first node that can be queried, or there is none. *)
Definition first_found (r : T) (k : nat) (needed' : bool) (n : Z) (r' : T) : Prop :=
  exists j, 0 <= j < Z.of_nat k /\ n = pos (last_picked_node_ r) (j + 1) /\ r' = set_last r n /\ eligible r n = true /\ needed' = true /\
    forall i, 0 <= i < j -> eligible r (pos (last_picked_node_ r) (i + 1)) = false.
Definition none_found (r : T) (k : nat) (needed needed' : bool) (n : Z) (r' : T) : Prop :=
  n = NodeID.default /\ (exists q, r' = set_last r q /\ 1 <= q <= NodeID.Max) /\ (needed = true -> needed' = true) /\
  forall i, 0 <= i < Z.of_nat k ->
    eligible r (pos (last_picked_node_ r) (i + 1)) = false /\ (needs r (pos (last_picked_node_ r) (i + 1)) = true -> needed' = true).

(** One iteration that goes on. *)
Lemma pick_shift r k nd nd1 nd' n r' :
  let q := pos (last_picked_node_ r) 1 in
  eligible r q = false -> (needs r q = true -> nd1 = true) -> (nd = true -> nd1 = true) ->
  first_found (set_last r q) k nd' n r' \/ none_found (set_last r q) k nd1 nd' n r' ->
  first_found r (S k) nd' n r' \/ none_found r (S k) nd nd' n r'.
Proof.
  intros q Hel Hnd Hnd'. assert (Hshift : forall i, pos (last_picked_node_ (set_last r q)) i = pos (last_picked_node_ r) (1 + i)) by (intros i; apply pos_pos).
  unfold first_found, none_found. intros [(j & Hj & Hn & Hr' & Hel' & Hnd2 & Hno)|(Hn & Hq' & Hnd2 & Hno)].
  - left. exists (j + 1). split_and!; [lia|lia| |done|done|done|].
    + rewrite Hn, Hshift. f_equal. lia.
    + intros i Hi. destruct (decide (i = 0)) as [->|Hi0]; [done|]. specialize (Hno (i - 1)). rewrite Hshift in Hno.
      replace (1 + (i - 1 + 1)) with (i + 1) in Hno by lia. apply Hno. lia.
  - right. split_and!; [done|done|auto|]. intros i Hi. destruct (decide (i = 0)) as [->|Hi0].
    + split; [done|]. intros Hx. apply Hnd2, Hnd. exact Hx.
    + specialize (Hno (i - 1)). rewrite Hshift in Hno. replace (1 + (i - 1 + 1)) with (i + 1) in Hno by lia. apply Hno. lia.
Qed.

Lemma pick_loop_ok k needed r :
  ret_inv r -> exists needed' n r', pick_loop k needed r = Some (needed', n, r') /\ (first_found r k needed' n r' \/ none_found r k needed needed' n r').
Proof.
  revert needed r. induction k as [|k IH]; intros needed r Hr.
  - eexists _, _, _. split; [done|]. right. split_and!; [done| |done|lia]. exists (last_picked_node_ r). split; [by destruct r|apply Hr].
  - cbn [pick_loop]. rewrite pos_next by apply Hr. set (q := pos (last_picked_node_ r) 1).
    assert (Hq : 1 <= q <= NodeID.Max) by apply pos_bounds. pose proof (set_last_inv r q Hr Hq) as Hr1.
    destruct (entry_exists _ q Hr1 Hq) as [e E]. rewrite E. cbn [mbind option_bind].
    assert (Ee : eligible r q = request_needed e && updated_since_last_attempt e && negb (hasPendingCallToServer (get_node_info_client_ r) q)).
    { unfold eligible. change (getInfoEntry r q) with (getInfoEntry (set_last r q) q). by rewrite E. }
    assert (En : needs r q = request_needed e) by (unfold needs; change (getInfoEntry r q) with (getInfoEntry (set_last r q) q); by rewrite E).
    change (get_node_info_client_ (set_last r q)) with (get_node_info_client_ r). destruct (request_needed e) eqn:Er.
    + destruct (updated_since_last_attempt e && _) eqn:Eu.
      * eexists _, _, _. split; [done|]. left. exists 0. split_and!; [lia|lia|done|done| |done|lia]. by rewrite Ee.
      * destruct (IH true _ Hr1) as (nd' & n & r' & Ep & Hc). exists nd', n, r'. split; [done|]. apply (pick_shift r k needed true); cbv zeta; fold q; [by rewrite Ee|done|done|done].
    + destruct (IH needed _ Hr1) as (nd' & n & r' & Ep & Hc). exists nd', n, r'. split; [done|]. apply (pick_shift r k needed needed); cbv zeta; fold q; [by rewrite Ee|by rewrite En|done|done].
Qed.

(** The whole search. *)
Lemma next_pick_ok r : ret_inv r -> exists needed n r', pickNextNodeToQuery r = Some (needed, n, r') /\
  ((1 <= n <= NodeID.Max /\ r' = set_last r n /\ eligible r n = true /\ needed = true /\
    forall k, eligible r k = true -> k <> n -> dist n k < dist (last_picked_node_ r) k) \/
   (n = NodeID.default /\ (exists q, r' = set_last r q /\ 1 <= q <= NodeID.Max) /\ forall k, eligible r k = false /\ (needs r k = true -> needed = true))).
Proof.
  intros Hr. pose proof (ri_last r Hr) as Hl. destruct (pick_loop_ok (Z.to_nat NodeID.Max) false r Hr) as (nd & n & r' & E & Hc). exists nd, n, r'. split; [exact E|].
  change (Z.of_nat (Z.to_nat NodeID.Max)) with NodeID.Max in Hc. unfold first_found, none_found in Hc. destruct Hc as [(j & Hj & Hn & Hr' & Hel & Hnd & Hno)|(Hn & Hq & Hnd & Hno)].
  - left. split_and!; try done; [rewrite Hn; apply pos_bounds|rewrite Hn; apply pos_bounds|]. intros k Hk Hkn.
    assert (Hkr : 1 <= k <= NodeID.Max) by (unfold eligible in Hk; destruct (getInfoEntry r k) eqn:Eg; [by eapply getInfoEntry_Some|done]).
    destruct (pos_dist (last_picked_node_ r) k Hl Hkr) as [Hpd Hd].
    assert (j < dist (last_picked_node_ r) k).
    { destruct (Z.lt_total j (dist (last_picked_node_ r) k)) as [?|[Heq|Hgt]]; [done| |].
      - destruct Hkn. rewrite Hn, <-Hpd. f_equal. lia.
      - specialize (Hno (dist (last_picked_node_ r) k)). rewrite Hpd, Hk in Hno. discriminate Hno. lia. }
    rewrite Hn, dist_pos by lia. lia.
  - right. split_and!; [done|done|]. intros k. destruct (decide (1 <= k <= NodeID.Max)) as [Hk|Hk].
    + destruct (pos_dist (last_picked_node_ r) k Hl Hk) as [Hpd Hd]. specialize (Hno _ Hd). by rewrite Hpd in Hno.
    + assert (En : getInfoEntry r k = None) by (destruct (getInfoEntry r k) eqn:Eg; [|done]; by apply getInfoEntry_Some in Eg).
      unfold eligible, needs. by rewrite En.
Qed.

(** A timer event: somebody is queried if anybody can be, and all others are closer to their turn. *)
Lemma timer_ok r : ret_inv r -> exists r' n, Retriever_handleTimerEvent encode GetNodeInfo_Request r = Some r' /\ ret_inv r' /\ picked r = Some n /\
  ((forall k, eligible r k = false) \/
   (eligible r n = true /\ last_picked_node_ r' = n /\ forall k, eligible r k = true -> k <> n -> dist n k < dist (last_picked_node_ r) k)).
Proof.
  intros Hr. unfold picked, Retriever_handleTimerEvent. destruct (next_pick_ok r Hr) as (nd & n & r1 & E & Hc). rewrite E. cbn [mbind option_bind].
  destruct Hc as [(Hn & Hr1 & Hel & Hnd & Hd)|(Hn & [q [Hr1 Hq]] & Hno)].
  - assert (Hu : NodeID.isUnicast n = true) by (unfold NodeID.isUnicast, NodeID.ValueBroadcast; destruct (Z.leb_spec n NodeID.Max), (Z.eqb_spec n 0); lia || done).
    rewrite Hu. subst r1. pose proof (set_last_inv r n Hr Hn) as Hr1. destruct (entry_exists _ n Hr1 Hn) as [e Ee]. rewrite Ee. cbn [mbind option_bind].
    set (r2 := setInfoEntry _ _ _). assert (Hr2 : ret_inv r2) by (apply ret_inv_set; [done|done|]; intros Hx; by eapply (ri_timer _ Hr1)).
    pose proof (call_registry_ok (rt_world r2) (get_node_info_client_ r2) n GetNodeInfo_Request) as Hreg.
    destruct (call encode _ _ _ _) as [[[res id] w] c]. 
    assert (Hr3 : ret_inv (set_world r2 w c)).
    { destruct Hr2 as [H1 H2 H3 H4]. split; [done|done|done|]. cbn. rewrite Forall_forall in *. intros cs Hcs. destruct (Hreg cs Hcs) as [?| ->]; [by apply H4|done]. }
    eexists _, n. split; [done|]. split; [destruct (res <? 0); [by eapply ret_inv_same|done]|]. split; [done|]. right. split; [done|].
    split; [by destruct (res <? 0)|]. exact Hd.
  - subst n. change (NodeID.isUnicast NodeID.default) with false. cbn match. pose proof (set_last_inv r q Hr Hq) as Hr'. rewrite <-Hr1 in Hr'.
    eexists (if negb nd then _ else _), _. split; [by destruct (negb nd)|]. split; [|split; [done|left; intros k; apply Hno]].
    destruct nd; cbn [negb]; [done|]. destruct Hr' as [H1 H2 H3 H4]. split; [done|done| |done].
    intros k e Hk He. destruct (Hno k) as [_ Hno']. discriminate Hno'. unfold needs. change (getInfoEntry r1 k) with (getInfoEntry r1 k) in Hk. subst r1.
    change (getInfoEntry r k) with (getInfoEntry (set_last r q) k). unfold getInfoEntry in *. cbn in *. by rewrite Hk.
Qed.

(** *** Any event *)

Context (Hmode : 0 <= MODE_OFFLINE < 8) (Htimeout : 0 <= OFFLINE_TIMEOUT_MS / 100 <= 125).
Abbreviation tracks := (tracks HEALTH_CRITICAL MODE_OFFLINE OFFLINE_TIMEOUT_MS).

Definition sys_inv (s : T * Monitor) : Prop := ret_inv s.1 /\ exists h, tracks h s.2.

Lemma keeps_world r w c x : keeps (set_world r w c) x -> keeps r x.
Proof. intros (r' & E & Hr & Hl). by exists r'. Qed.

Lemma timeout_registry r w i : ret_inv r -> ret_inv (set_world r w (CallState_handleDeadline (get_node_info_client_ r) i)).
Proof.
  intros Hr. unfold CallState_handleDeadline. destruct (call_registry_ _ !! i) as [cs|] eqn:E; [|by eapply ret_inv_same].
  destruct Hr as [H1 H2 H3 H4]. split; [done|done|done|]. cbn. apply Forall_insert; [done|]. cbn. rewrite Forall_lookup in H4. by eapply H4.
Qed.

Lemma invalidate_ok r m h : ret_inv r -> tracks h m -> let '(r', m') := invalidateAll MODE_OFFLINE HEALTH_CRITICAL r m in
  ret_inv r' /\ (exists h', tracks h' m') /\ last_picked_node_ r' = last_picked_node_ r.
Proof.
  intros [H1 H2 H3 H4] Ht. unfold invalidateAll, cancelAllCalls. destruct (Subscriber_stop _ _) as [w' s']. split_and!; [|exists [MForgetAll]|done].
  - split; [cbn; by rewrite length_fmap|done| |constructor]. intros n e. unfold getInfoEntry. destruct (_ || _); [done|]. cbn.
    rewrite list_lookup_fmap. destruct (rt_entries r !! _); [|done]. cbn. by intros [= <-].
  - unfold NodeStatusMonitor.tracks, forgetAllNodes. cbn [mon_entries]. rewrite Ht, <-list_fmap_compose. by apply list_fmap_ext.
Qed.

Lemma sys_step_ok s e : sys_inv s -> valid_sys e -> exists s', sys_step s e = Some s' /\ sys_inv s' /\
  (e <> STimer -> last_picked_node_ s'.1 = last_picked_node_ s.1).
Proof.
  destruct s as [r m]. intros [Hr [h Ht]] Hv. cbn [fst snd] in *.
  assert (Hk : forall x, keeps r x -> exists s', (r' ← x; Some (r', m)) = Some s' /\ sys_inv s' /\ (e <> STimer -> last_picked_node_ s'.1 = last_picked_node_ r)).
  { intros x (r' & -> & Hr' & El). exists (r', m). split; [done|]. split; [|done]. split; [done|by exists h]. }
  assert (Hs : forall r', ret_inv r' -> last_picked_node_ r' = last_picked_node_ r -> exists s', Some (r', m) = Some s' /\ sys_inv s' /\ (e <> STimer -> last_picked_node_ s'.1 = last_picked_node_ r)).
  { intros r' Hr' El. exists (r', m). split; [done|]. split; [|done]. split; [done|by exists h]. }
  destruct e as [e| |frame resp|i| | |l|l|num|interval|w]; cbn [sys_step valid_sys] in *.
  - destruct (monitor_event_ok HEALTH_CRITICAL MODE_OFFLINE OFFLINE_TIMEOUT_MS Hmode Htimeout h e m Ht Hv) as (m' & E & Ht'). rewrite E.
    destruct (keeps_fold callback cb_ok r (callbacks HEALTH_CRITICAL MODE_OFFLINE OFFLINE_TIMEOUT_MS h e) callback_ok Hr (callbacks_ok h e Hv)) as (r' & -> & Hr' & El).
    exists (r', m'). split; [done|]. split; [|done]. split; [done|by eexists].
  - destruct (isRetrievingInProgress r); [|by apply Hs]. destruct (timer_ok r Hr) as (r' & n & -> & Hr' & _). exists (r', m). split; [done|].
    split; [|done]. split; [done|by exists h].
  - pose proof (response_client r frame resp Hr) as Hc. destruct (Client_handleResponse _ _ _ _ _ _) as [[log w'] c]. destruct Hc as [Hr' Hlog].
    apply Hk. eapply keeps_world, keeps_fold; [|exact Hr'|exact Hlog]. intros r1 ev Hr1 (id & -> & Hid). apply result_ok; [done|done|]. by eexists.
  - destruct (_ ≫= _); [|by apply Hs]. destruct (_ <=? _); [|by apply Hs]. apply Hs; [|done]. by apply timeout_registry.
  - destruct (shared_deadline_ _); [|by apply Hs]. pose proof (deadline_client r Hr) as Hc.
    destruct (Client_handleDeadline _ _ _ _) as [[log w'] c]. destruct Hc as [Hr' Hlog].
    apply Hk. eapply keeps_world, keeps_fold; [|exact Hr'|exact Hlog]. intros r1 ev Hr1 (id & -> & Hid). by apply result_ok.
  - pose proof (invalidate_ok r m h Hr Ht) as Hi. destruct (invalidateAll _ _ r m) as [r' m']. destruct Hi as (Hr' & Ht' & El). by exists (r', m').
  - unfold addListener, removeListener. destruct (l =? 0); [by apply Hs|].
    destruct (node_emplace _) as [[] w']; apply Hs; try done; by eapply ret_inv_same.
  - unfold removeListener. destruct (l =? 0); apply Hs; try done; by eapply ret_inv_same.
  - apply Hs; [|done]. by eapply ret_inv_same.
  - unfold setRequestInterval. destruct (0 <? interval); [|by apply Hs]. apply Hs; [|done]. eapply ret_inv_same; try done. cbn. by destruct (rt_timer r).
  - apply Hs; [|done]. by eapply ret_inv_same.
Qed.

Lemma sys_run_ok es s : sys_inv s -> Forall valid_sys es -> exists s', foldM sys_step s es = Some s' /\ sys_inv s'.
Proof.
  revert s. induction es as [|e es IH]; intros s Hs Hv; [by exists s|]. apply Forall_cons in Hv as [He Hv].
  destruct (sys_step_ok s e Hs He) as (s1 & E & Hs1 & _). destruct (IH s1 Hs1 Hv) as (s2 & E2 & Hs2). exists s2. cbn. by rewrite E.
Qed.

(** A node that could be queried at every timer event, and never was. *)
Fixpoint starved (n : Z) (s : T * Monitor) (es : list (SysEvent W R)) : Prop :=
  match es with
  | [] => True
  | e :: es =>
      match e with STimer => eligible s.1 n = true /\ picked s.1 <> Some n | _ => True end /\
      match sys_step s e with Some s' => starved n s' es | None => True end
  end.
Definition is_timer (e : SysEvent W R) : bool := match e with STimer => true | _ => false end.
Definition num_timers (es : list (SysEvent W R)) : Z := Z.of_nat (length (List.filter is_timer es)).

Lemma eligible_needs r n : eligible r n = true -> needs r n = true /\ 1 <= n <= NodeID.Max.
Proof.
  unfold eligible, needs. destruct (getInfoEntry r n) as [e|] eqn:E; [|done]. intros Hx. split; [|by eapply getInfoEntry_Some].
  by apply andb_true_iff in Hx as [[? _]%andb_true_iff _].
Qed.

Lemma needs_timer r n : ret_inv r -> needs r n = true -> isRetrievingInProgress r = true.
Proof.
  intros Hr. unfold needs, isRetrievingInProgress. destruct (getInfoEntry r n) as [e|] eqn:E; [|done]. intros He.
  destruct (ri_timer r Hr n e E He) as [x ->]. done.
Qed.

Lemma starved_bound n es s : sys_inv s -> Forall valid_sys es -> starved n s es -> num_timers es <= dist (last_picked_node_ s.1) n.
Proof.
  revert s. induction es as [|e es IH]; intros s Hs Hv Hst.
  - unfold num_timers, dist. cbn. apply Z.mod_pos_bound. done.
  - apply Forall_cons in Hv as [He Hv]. destruct Hst as [Hst Hrest]. destruct (sys_step_ok s e Hs He) as (s1 & E & Hs1 & El). rewrite E in Hrest.
    specialize (IH s1 Hs1 Hv Hrest). destruct (decide (is_timer e = true)) as [Hte|Hte].
    + destruct e; try discriminate Hte. clear Hte. destruct Hst as [Hel Hp]. destruct s as [r m]. destruct Hs as [Hr _]. cbn [fst snd sys_step] in *.
      rewrite (needs_timer r n Hr) in E by (by apply eligible_needs). destruct (timer_ok r Hr) as (r' & q & Eq & Hr' & Hpq & Hc). rewrite Eq in E. injection E as <-.
      destruct Hc as [Hno|(Hq & Hl & Hd)]; [by rewrite Hno in Hel|]. specialize (Hd n Hel ltac:(congruence)). cbn [fst] in IH. rewrite Hl in IH.
      unfold num_timers in *. cbn [List.filter is_timer length]. lia.
    + rewrite El in IH by (by intros ->). unfold num_timers in *. cbn [List.filter]. destruct (is_timer e); [done|]. exact IH.
Qed.

(** *** The query *)

Lemma call_pending (w : W) c n q : let '(res, _, _, c') := call encode w c n q in 0 <= res -> hasPendingCallToServer c' n = true.
Proof.
  unfold call. destruct (negb (sc_has_callback c)); [unfold ErrInvalidConfiguration; lia|]. pose proof (prepare_registry w c n) as Hp.
  destruct (prepareToCall w c n) as [[[res id] w1] c1]. destruct Hp as [Ec Hid]. destruct (Z.ltb_spec res 0); [lia|]. specialize (Hid ltac:(lia)).
  unfold addCallState. destruct (if hasPendingCalls c1 then _ else _) as [[res1 w2] c2]. destruct (Z.ltb_spec res1 0).
  { destruct (Z.ltb_spec res1 0); lia. }
  destruct (node_emplace w2) as [[] w3]; [|destruct (Subscriber_stop _ _); intros Hx; exfalso; revert Hx; unfold ErrMemory; cbn; lia].
  change (0 <? 0) with false. cbn match. destruct (negb (forwarder_ _)); [destruct (cancelCall _ _ _); unfold ErrLogic; lia|].
  destruct (genericPublish _ _ _ _ _ _ _ _ _) as [[res3 w4] p]. destruct (Z.ltb_spec res3 0); [destruct (cancelCall _ _ _); lia|]. intros _.
  unfold hasPendingCallToServer, set_publisher, set_registry. cbn. rewrite existsb_app. apply orb_true_iff. right. cbn. unfold ServerSearchPredicate. cbn. rewrite Hid, Z.eqb_refl. done.
Qed.

Lemma query_made r : ret_inv r -> forall k, eligible r k = true -> exists n r', picked r = Some n /\ eligible r n = true /\
  Retriever_handleTimerEvent encode GetNodeInfo_Request r = Some r' /\ (hasPendingCallToServer (get_node_info_client_ r') n = true \/ rt_failures r' = rt_failures r + 1).
Proof.
  intros Hr k Hk. unfold picked, Retriever_handleTimerEvent. destruct (next_pick_ok r Hr) as (nd & n & r1 & E & Hc). rewrite E. cbn [mbind option_bind].
  destruct Hc as [(Hn & Hr1 & Hel & Hnd & _)|(_ & _ & Hno)]; [|destruct (Hno k) as [Hx _]; congruence].
  assert (Hu : NodeID.isUnicast n = true) by (unfold NodeID.isUnicast, NodeID.ValueBroadcast; destruct (Z.leb_spec n NodeID.Max), (Z.eqb_spec n 0); lia || done).
  rewrite Hu. subst r1. destruct (entry_exists _ n (set_last_inv r n Hr Hn) Hn) as [e Ee]. rewrite Ee. cbn [mbind option_bind]. set (r2 := setInfoEntry _ _ _).
  pose proof (call_pending (rt_world r2) (get_node_info_client_ r2) n GetNodeInfo_Request) as Hp.
  destruct (call encode _ _ _ _) as [[[res id] w] c]. eexists n, _. split; [done|]. split; [done|]. split; [done|].
  destruct (Z.ltb_spec res 0); [by right|left]. apply Hp. lia.
Qed.

Definition on_timer (r : T) : option T := Retriever_handleTimerEvent encode GetNodeInfo_Request r.
Definition start_on (monitor_node : INode W) : T -> Monitor -> Z -> Z * T * Monitor := @Retriever_start W node R monitor_node.

Lemma start_inv monitor_node w priority :
  let '(_, r, m) := start_on monitor_node (Retriever_make w : T) (Monitor_make HEALTH_CRITICAL MODE_OFFLINE) priority in sys_inv (r, m).
Proof.
  assert (Hi : forall w' c, call_registry_ c = [] -> ret_inv (set_world (Retriever_make w : T) w' c)).
  { intros w' c Ec. split; [done|by split; vm_compute| |cbn; by rewrite Ec]. intros n e Hg. cbn in Hg. unfold getInfoEntry in Hg. destruct (_ || _); [done|].
    cbn [rt_entries set_world] in Hg. apply lookup_replicate in Hg as [-> _]. done. }
  unfold start_on, Retriever_start, Monitor_start. destruct (Subscriber_start _ _ _ _) as [[[res w'] s'] cb].
  assert (Ht : exists h, tracks h (mkMonitor (mon_entries (Monitor_make HEALTH_CRITICAL MODE_OFFLINE)) s' cb
    (if 0 <=? res then Some (Duration.fromMSec (TimerPeriodMs100 * 100)) else mon_timer (Monitor_make HEALTH_CRITICAL MODE_OFFLINE)))).
  { exists []. apply (tracks_make HEALTH_CRITICAL MODE_OFFLINE OFFLINE_TIMEOUT_MS). }
  destruct (res <? 0); [split; [by apply Hi|done]|]. destruct (Publisher_init _ _ _ _) as [res2 p]. destruct (res2 <? 0); (split; [by apply Hi|done]).
Qed.

(** C10: the retriever, started and then driven by any sequence of status messages, timers, responses, timeouts and calls of its
    methods, all for nodes 1 to 127 ([forgetNode] of the node ID 0 is fatal), never runs into a fatal error and keeps its timer running as long as some node is still to be asked; whenever the timer expires while
    somebody can be asked, some such node is called (or the failure of the call is reported); and the round robin is fair: a node that can be asked at
    every expiry is asked within 127 of them, whatever else happens meanwhile. *)
Theorem node_info_retriever_is_fair monitor_node w priority (es : list (SysEvent W R)) :
  Forall valid_sys es ->
  let '(_, r0, m0) := start_on monitor_node (Retriever_make w : T) (Monitor_make HEALTH_CRITICAL MODE_OFFLINE) priority in
  exists r m, foldM sys_step (r0, m0) es = Some (r, m) /\
  (forall n, needs r n = true -> isRetrievingInProgress r = true) /\
  (forall k, eligible r k = true -> exists n r', picked r = Some n /\ eligible r n = true /\
     on_timer r = Some r' /\
     (hasPendingCallToServer (get_node_info_client_ r') n = true \/ rt_failures r' = rt_failures r + 1)) /\
  (forall n es', Forall valid_sys es' -> 1 <= n <= NodeID.Max -> starved n (r, m) es' -> num_timers es' <= 126).
Proof.
  intros Hv. pose proof (start_inv monitor_node w priority) as Hs. destruct (start_on _ _ _ _) as [[res r0] m0].
  destruct (sys_run_ok es (r0, m0) Hs Hv) as ([r m] & E & Hs'). exists r, m. split; [done|]. pose proof (proj1 Hs') as Hr. cbn [fst] in Hr. split_and!.
  - intros n. by apply needs_timer.
  - exact (query_made r Hr).
  - intros n es' Hv' Hn Hst. pose proof (starved_bound n es' _ Hs' Hv' Hst) as Hb. cbn [fst] in Hb.
    destruct (pos_dist (last_picked_node_ r) n (ri_last r Hr) Hn) as [_ Hd]. change NodeID.Max with 127 in Hd. lia.
Qed.

(** *** Giving up *)

(** A node that does not answer is reported as unavailable after the last of the attempts, once to every listener, and is not asked any more. *)
Lemma unavailable_after_attempts r n e (k : nat) id :
  1 <= n <= NodeID.Max -> server_node_id id = n -> getInfoEntry r n = Some e -> num_attempts_made e = 0 -> request_needed e = true ->
  1 <= num_attempts_ r <= MaxNumRequestAttempts -> Z.of_nat k <= num_attempts_ r ->
  exists r' e', foldM (deliver None) r (replicate k (EvResult ErrorTimeout id)) = Some r' /\ getInfoEntry r' n = Some e' /\
    num_attempts_made e' = Z.of_nat k /\ request_needed e' = negb (Z.of_nat k =? num_attempts_ r) /\ num_attempts_ r' = num_attempts_ r /\ listeners_ r' = listeners_ r /\
    rt_log r' = rt_log r ++ (if Z.of_nat k =? num_attempts_ r then (fun l => (l, HandleNodeInfoUnavailable n)) <$> listeners_ r else []).
Proof.
  intros Hn Hid He Hm Hq Ha. induction k as [|k IH]; intros Hk.
  - exists r, e. split_and!; try done; destruct (Z.eqb_spec (Z.of_nat 0) (num_attempts_ r)); try lia; [done|by rewrite app_nil_r].
  - destruct IH as (r1 & e1 & E1 & He1 & Hm1 & Hq1 & Ha1 & Hl1 & Hlog1); [lia|]. rewrite replicate_S_end, foldM_app, E1. cbn [mbind option_bind foldM deliver].
    unfold handleGetNodeInfoResponse. cbn [call_id_ status_]. rewrite Hid, He1. cbn [mbind option_bind]. rewrite Ha1, Hm1.
    destruct (Z.eqb_spec (num_attempts_ r) UnlimitedRequestAttempts) as [Ex|_]; [unfold UnlimitedRequestAttempts in Ex; lia|].
    assert (Eu : u8 (Z.of_nat k + 1) = Z.of_nat (S k)) by (unfold wrap; rewrite Z.mod_small; [lia|]; unfold MaxNumRequestAttempts in Ha; lia). rewrite Eu.
    destruct (Z.eqb_spec (Z.of_nat k) (num_attempts_ r)); [lia|]. rewrite app_nil_r in Hlog1. set (r2 := setInfoEntry _ _ _).
    assert (Hg : forall x, getInfoEntry r2 x = if decide (x = n) then _ else getInfoEntry r1 x) by (intros x; apply getInfoEntry_set; done). specialize (Hg n). rewrite decide_True, He1 in Hg by done. cbn in Hg.
    destruct (Z.leb_spec (num_attempts_ r) (Z.of_nat (S k))), (Z.eqb_spec (Z.of_nat (S k)) (num_attempts_ r)); try lia; eexists _, _; (split; [done|]); cbn [negb] in *.
    + split_and!; [exact Hg|done|done|done|done|]. cbn. by rewrite Hlog1, Hl1.
    + split_and!; [exact Hg|done|done|done|done|]. by rewrite app_nil_r.
Qed.
End system.

(** ** An example *)

Module SimRetriever.
Import SimNode.
Definition encode_request (_ : unit) : Z * list Z := (1, []).
Definition events : list (SysEvent World Z) :=
  [SMonitor (MMessage 5 (mkStatusMessage 1 0 0 0)); SMonitor (MMessage 9 (mkStatusMessage 7 0 0 0)); SAddListener 100; STimer; SMonitor MTick; STimer; SMonitor (MMessage 5 (mkStatusMessage 2 0 0 0))].
Lemma sys_events_valid : Forall valid_sys events.
Proof. unfold events. repeat (apply Forall_cons_2; [cbn; unfold NodeID.Max; cbn; (lia || done)|]). by apply Forall_nil_2. Qed.

(** Node 5 and then node 9 are asked. *)
Lemma both_asked :
  let '(_, r0, m0) := start_on sim_node (Retriever_make sim_start : Retriever World Z) (Monitor_make 3 7) 0 in
  (fun s => (server_node_id ∘ id_ <$> call_registry_ (get_node_info_client_ s.1), last_picked_node_ s.1, rt_timer s.1, length (rt_log s.1))) <$>
    foldM (sys_step encode_request tt id 3 7 3000) (r0, m0) events = Some ([5; 9], 9, Some 40000, 1%nat).
Proof. by vm_compute. Qed.

Lemma node_info_retriever_is_fair_witness :
  Forall valid_sys events /\
  let '(_, r0, m0) := start_on sim_node (Retriever_make sim_start : Retriever World Z) (Monitor_make 3 7) 0 in
  exists r m, foldM (sys_step encode_request tt id 3 7 3000) (r0, m0) events = Some (r, m) /\
    (forall n es', Forall valid_sys es' -> 1 <= n <= NodeID.Max -> starved encode_request tt id 3 7 3000 n (r, m) es' -> num_timers es' <= 126).
Proof.
  split; [exact sys_events_valid|].
  assert (H2 : 0 <= 7 < 8) by (split; discriminate || reflexivity).
  assert (H3 : 0 <= 3000 / 100 <= 125) by (split; discriminate).
  pose proof (node_info_retriever_is_fair encode_request tt id 3 7 3000 H2 H3 sim_node sim_start 0 events sys_events_valid) as H.
  destruct (start_on _ _ _ _) as [[res r0] m0]. destruct H as (r & m & E & _ & _ & H). exists r, m. split; [exact E|exact H].
Defined.
End SimRetriever.
