(* ===== verification/FirmwareUpdateTrigger.v ===== *)
(** * FirmwareUpdateTrigger: tells nodes with old firmware to update it

    Models [FirmwareUpdateTrigger] ([libuavcan/include/uavcan/protocol/firmware_update_trigger.hpp]), a listener of
    the [NodeInfoRetriever] with a service client of [Services]. The application is the class
    [IFirmwareVersionChecker]; the error codes and the path separator, which are not part of the sources, are variables. The
    map of pending nodes is a finite map, which [PoolMap] justifies; an insertion may find no memory. *)

From stdpp Require Import gmap list.
From S2P Require Import Prelude MonoTime Transfer Frame Services NodeStatusMonitor NodeInfoRetriever.
Local Open Scope Z_scope.

(** Paths are strings of at most [MaxFirmwareFilePathLength] characters. *)
Definition MaxFirmwareFilePathLength : nat := 40.
Abbreviation FirmwareFilePath := (list Z).

(** What [c_str()] points at: the string up to its first zero. *)
Fixpoint c_str (p : FirmwareFilePath) : FirmwareFilePath := match p with [] => [] | c :: p => if c =? 0 then [] else c :: c_str p end.

(** [R] is the type of node descriptions, [E] the one of responses to requests. *)
Class IFirmwareVersionChecker (H R E : Type) := {
  shouldRequestFirmwareUpdate : H -> Z -> R -> bool * FirmwareFilePath * H;
  shouldRetryFirmwareUpdate : H -> Z -> E -> FirmwareFilePath -> bool * FirmwareFilePath * H;
  handleFirmwareUpdateConfirmation : H -> Z -> E -> H
}.

(** [BeginFirmwareUpdate::Request]. *)
Record UpdateRequest := mkUpdateRequest { source_node_id : Z; image_file_remote_path : list Z }.

Definition DefaultRequestIntervalMs : Z := 1000.

(** [ft_timer] is the period of the timer while it runs, [ft_world] the node and [ft_failures] its count of internal failures. *)
Record Trigger (W H : Type) := mkTrigger {
  ft_world : W;
  checker_ : H;
  begin_fw_update_client_ : ServiceClient;
  pending_nodes_ : gmap Z FirmwareFilePath;
  ft_interval : Z;
  common_path_prefix_ : FirmwareFilePath;
  last_queried_node_id_ : Z;
  ft_timer : option Z;
  ft_failures : Z
}.
Arguments mkTrigger {_ _}.
Arguments ft_world {_ _}.
Arguments checker_ {_ _}.
Arguments begin_fw_update_client_ {_ _}.
Arguments pending_nodes_ {_ _}.
Arguments ft_interval {_ _}.
Arguments common_path_prefix_ {_ _}.
Arguments last_queried_node_id_ {_ _}.
Arguments ft_timer {_ _}.
Arguments ft_failures {_ _}.

Section fields.
Context {W H : Type}.
Abbreviation T := (Trigger W H).
Definition ft_set_world (t : T) (w : W) (c : ServiceClient) : T :=
  mkTrigger w (checker_ t) c (pending_nodes_ t) (ft_interval t) (common_path_prefix_ t) (last_queried_node_id_ t) (ft_timer t) (ft_failures t).
Definition ft_set_checker (t : T) (h : H) : T :=
  mkTrigger (ft_world t) h (begin_fw_update_client_ t) (pending_nodes_ t) (ft_interval t) (common_path_prefix_ t) (last_queried_node_id_ t) (ft_timer t) (ft_failures t).
Definition ft_set_pending (t : T) (m : gmap Z FirmwareFilePath) : T :=
  mkTrigger (ft_world t) (checker_ t) (begin_fw_update_client_ t) m (ft_interval t) (common_path_prefix_ t) (last_queried_node_id_ t) (ft_timer t) (ft_failures t).
Definition ft_set_timer (t : T) (interval : Z) (x : option Z) : T :=
  mkTrigger (ft_world t) (checker_ t) (begin_fw_update_client_ t) (pending_nodes_ t) interval (common_path_prefix_ t) (last_queried_node_id_ t) x (ft_failures t).
Definition ft_set_prefix (t : T) (p : FirmwareFilePath) : T :=
  mkTrigger (ft_world t) (checker_ t) (begin_fw_update_client_ t) (pending_nodes_ t) (ft_interval t) p (last_queried_node_id_ t) (ft_timer t) (ft_failures t).
Definition ft_set_last (t : T) (n : Z) : T :=
  mkTrigger (ft_world t) (checker_ t) (begin_fw_update_client_ t) (pending_nodes_ t) (ft_interval t) (common_path_prefix_ t) n (ft_timer t) (ft_failures t).
Definition ft_failure (t : T) : T :=
  mkTrigger (ft_world t) (checker_ t) (begin_fw_update_client_ t) (pending_nodes_ t) (ft_interval t) (common_path_prefix_ t) (last_queried_node_id_ t) (ft_timer t) (ft_failures t + 1).

(** [NextNodeIDSearchPredicate], applied to the nodes of the map one after another. *)
Definition DefaultOutput : Z := 0xFF.
Definition search_step (t : T) (output : Z) (node_id : Z) : Z :=
  if (last_queried_node_id_ t <? node_id) && negb (hasPendingCallToServer (begin_fw_update_client_ t) node_id) then Z.min output node_id else output.
Definition search (t : T) : Z := foldl (search_step t) DefaultOutput (map_to_list (pending_nodes_ t)).*1.

(** [NodeID pickNextNodeID() const]; the field [last_queried_node_id_] is mutable. *)
Definition pickNextNodeID (t : T) : Z * T :=
  let s1 := search t in
  let t :=
    if negb (s1 =? DefaultOutput) then ft_set_last t s1
    else if negb (last_queried_node_id_ t =? 0) then
      let t := ft_set_last t 0 in
      let s2 := search t in
      if negb (s2 =? DefaultOutput) then ft_set_last t s2 else t
    else t in
  (last_queried_node_id_ t, t).

Definition ft_setRequestInterval (t : T) (interval : Z) : T :=
  if 0 <? interval then ft_set_timer t interval (match ft_timer t with Some _ => Some interval | None => None end) else t.
Definition isTimerRunning (t : T) : bool := match ft_timer t with Some _ => true | None => false end.
Definition getNumPendingNodes (t : T) : nat := size (pending_nodes_ t).
End fields.

Section trigger.
Context {W : Type} {node : INode W} {H R E : Type} {checker : IFirmwareVersionChecker H R E}.
Context (encode : UpdateRequest -> Z * list Z) (response_error : E -> Z) (ERROR_OK ERROR_IN_PROGRESS SEPARATOR MODE_OFFLINE : Z).
Abbreviation T := (Trigger W H).

(** [FirmwareUpdateTrigger(INode& node, IFirmwareVersionChecker& checker)]. *)
Definition Trigger_make (w : W) (h : H) : T := mkTrigger w h (ServiceClient_make false) ∅ (Duration.fromMSec DefaultRequestIntervalMs) [] 0 None 0.

(** [void trySetPendingNode(const NodeID node_id, const FirmwareFilePath& path)]; [Map::insert] removes the key first. *)
Definition trySetPendingNode (t : T) (node_id : Z) (path : FirmwareFilePath) : T :=
  let t := ft_set_pending t (delete node_id (pending_nodes_ t)) in
  let '(ok, w) := node_emplace (ft_world t) in
  let t := ft_set_world t w (begin_fw_update_client_ t) in
  if ok then
    let t := ft_set_pending t (<[node_id := path]> (pending_nodes_ t)) in
    match ft_timer t with Some _ => t | None => ft_set_timer t (ft_interval t) (Some (ft_interval t)) end
  else ft_failure t.

(** The methods of [INodeInfoListener]. *)
Definition handleNodeInfoUnavailable (t : T) (node_id : Z) : T := ft_set_pending t (delete node_id (pending_nodes_ t)).
Definition handleNodeInfoRetrieved (t : T) (node_id : Z) (node_info : R) : T :=
  let '(update_needed, path, h) := shouldRequestFirmwareUpdate (checker_ t) node_id node_info in
  let t := ft_set_checker t h in
  if update_needed then trySetPendingNode t node_id path else ft_set_pending t (delete node_id (pending_nodes_ t)).
Definition Trigger_handleNodeStatusChange (t : T) (event : NodeStatusChangeEvent) : T :=
  if mode (ev_status event) =? MODE_OFFLINE then ft_set_pending t (delete (ev_node_id event) (pending_nodes_ t)) else t.
Definition listener_call (t : T) (call : ListenerCall R) : T :=
  match call with
  | HandleNodeInfoRetrieved n info => handleNodeInfoRetrieved t n info
  | HandleNodeInfoUnavailable n => handleNodeInfoUnavailable t n
  | HandleStatusChange event => Trigger_handleNodeStatusChange t event
  | HandleStatusMessage _ _ => t
  end.

(** [void handleBeginFirmwareUpdateResponse(const ServiceCallResult<protocol::file::BeginFirmwareUpdate>& result)]. *)
Definition handleBeginFirmwareUpdateResponse (t : T) (result : ServiceCallResult E) : T :=
  match status_ result, response_ result with
  | Success, Some response =>
      let n := server_node_id (call_id_ result) in
      match pending_nodes_ t !! n with
      | None => t
      | Some old_path =>
          if (response_error response =? ERROR_OK) || (response_error response =? ERROR_IN_PROGRESS) then
            let t := ft_set_pending t (delete n (pending_nodes_ t)) in
            ft_set_checker t (handleFirmwareUpdateConfirmation (checker_ t) n response)
          else
            let '(update_needed, path, h) := shouldRetryFirmwareUpdate (checker_ t) n response old_path in
            let t := ft_set_pending (ft_set_checker t h) (<[n := path]> (pending_nodes_ t)) in
            if negb update_needed then ft_set_pending t (delete n (pending_nodes_ t)) else t
      end
  | _, _ => t
  end.

(** The path in a request. *)
Definition remote_path (t : T) (path : FirmwareFilePath) : list Z :=
  (match common_path_prefix_ t with [] => [] | _ => c_str (common_path_prefix_ t) ++ [SEPARATOR] end) ++ c_str path.

(** [void handleTimerEvent(const TimerEvent&)]. *)
Definition Trigger_handleTimerEvent (t : T) : T :=
  if bool_decide (pending_nodes_ t = ∅) then ft_set_timer t (ft_interval t) None
  else
    let '(node_id, t) := pickNextNodeID t in
    if negb (NodeID.isUnicast node_id) then t
    else
      match pending_nodes_ t !! node_id with
      | None => t
      | Some path =>
          let req := mkUpdateRequest (node_getNodeID (ft_world t)) (remote_path t path) in
          let '(call_res, _, w, c) := call encode (ft_world t) (begin_fw_update_client_ t) node_id req in
          let t := ft_set_world t w c in
          if call_res <? 0 then ft_failure t else t
      end.

(** [int start(NodeInfoRetriever& node_info_retriever, const FirmwareFilePath& arg_common_path_prefix, const TransferPriority priority)];
    [this] is the address of the trigger. *)
Definition Trigger_start {R' : Type} (t : T) (retriever : Retriever W R') (this : Z) (arg_common_path_prefix : FirmwareFilePath) (priority : Z) : Z * T * Retriever W R' :=
  let '(res, retriever) := addListener retriever this in
  if res <? 0 then (res, t, retriever)
  else
    let prefix := match last arg_common_path_prefix with
                  | Some c => if c =? SEPARATOR then take (length arg_common_path_prefix - 1) arg_common_path_prefix else arg_common_path_prefix
                  | None => arg_common_path_prefix
                  end in
    let t := ft_set_prefix t prefix in
    let c := begin_fw_update_client_ t in
    let '(res, p) := Publisher_init DataTypeKindService (ft_world t) (sc_publisher c) priority in
    let c := set_publisher c p in
    if res <? 0 then (res, ft_set_world t (ft_world t) c, retriever)
    else
      let c := mkServiceClient (sc_subscriber c) (sc_publisher c) (data_type_descriptor_ c) (request_timeout_ c) (call_registry_ c)
                 (shared_deadline_ c) true (sc_has_filter c) in
      (0, ft_set_world t (ft_world t) c, retriever).
End trigger.

(** ** The trigger at work *)

Inductive TrigEvent (W R E : Type) :=
| TListener (call : ListenerCall R)
| TTimer
| TResponse (frame : RxFrame) (response : E)
| TTimeout (i : nat)
| TDeadline
| TInterval (interval : Z)
| TNode (w : W).
Arguments TListener {_ _ _} _.
Arguments TTimer {_ _ _}.
Arguments TResponse {_ _ _} _ _.
Arguments TTimeout {_ _ _} _.
Arguments TDeadline {_ _ _}.
Arguments TInterval {_ _ _} _.
Arguments TNode {_ _ _} _.

Section trigger_ok.
Context {W : Type} {node : INode W} {H R E : Type} {checker : IFirmwareVersionChecker H R E}.
Context (encode : UpdateRequest -> Z * list Z) (response_error : E -> Z) (ERROR_OK ERROR_IN_PROGRESS SEPARATOR MODE_OFFLINE : Z).
Abbreviation T := (Trigger W H).
Abbreviation on_response := (handleBeginFirmwareUpdateResponse response_error ERROR_OK ERROR_IN_PROGRESS).
Abbreviation on_timer := (Trigger_handleTimerEvent encode SEPARATOR).

Definition ft_deliver (response : option E) (t : T) (e : CallEvent) : T :=
  match e with EvResult st id => on_response t (mkResult st id response) | _ => t end.

Definition trig_step (t : T) (e : TrigEvent W R E) : T :=
  let w := ft_world t in let c := begin_fw_update_client_ t in
  match e with
  | TListener call => listener_call MODE_OFFLINE t call
  | TTimer => if isTimerRunning t then on_timer t else t
  | TResponse frame response =>
      let '(log, w, c) := Client_handleResponse encode no_ops w c frame response in foldl (ft_deliver (Some response)) (ft_set_world t w c) log
  | TTimeout i =>
      match call_registry_ c !! i ≫= cs_deadline_ with
      | Some d => if d <=? node_getMonotonicTime w then ft_set_world t w (CallState_handleDeadline c i) else t
      | None => t
      end
  | TDeadline =>
      if shared_deadline_ c then
        let '(log, w, c) := Client_handleDeadline encode (@no_ops UpdateRequest E) w c in foldl (ft_deliver None) (ft_set_world t w c) log
      else t
  | TInterval interval => ft_setRequestInterval t interval
  | TNode w => ft_set_world t w c
  end.

Definition valid_call (call : ListenerCall R) : Prop :=
  match call with
  | HandleNodeInfoRetrieved n _ => 1 <= n <= NodeID.Max
  | _ => True
  end.
Definition valid_trig (e : TrigEvent W R E) : Prop := match e with TListener call => valid_call call | _ => True end.

(** A node that waits for a request. *)
Definition waiting (t : T) (n : Z) : Prop := is_Some (pending_nodes_ t !! n) /\ hasPendingCallToServer (begin_fw_update_client_ t) n = false.

Record trig_inv (t : T) : Prop := {
  ti_nodes : forall n, is_Some (pending_nodes_ t !! n) -> 1 <= n <= NodeID.Max;
  ti_last : 0 <= last_queried_node_id_ t <= NodeID.Max;
  ti_timer : pending_nodes_ t <> ∅ -> isTimerRunning t = true
}.

(** *** The search *)

Definition above (t : T) (n : Z) : bool := (last_queried_node_id_ t <? n) && negb (hasPendingCallToServer (begin_fw_update_client_ t) n).

Lemma search_fold t l out :
  let r := foldl (search_step t) out l in
  r <= out /\ (forall n, n ∈ l -> above t n = true -> r <= n) /\ (r = out \/ (r ∈ l /\ above t r = true)).
Proof.
  revert out. induction l as [|n l IH]; intros out; cbn [foldl].
  - split_and!; [lia| |by left]. intros n Hn. by apply elem_of_nil in Hn.
  - destruct (IH (search_step t out n)) as (H1 & H2 & H3). unfold search_step in *. fold (above t n) in *. destruct (above t n) eqn:Ea.
    + split_and!; [lia| |].
      * intros k Hk Ha. apply elem_of_cons in Hk as [->|Hk]; [lia|by apply H2].
      * destruct H3 as [H3|[H3 H4]]; [|right; split; [by right|done]]. rewrite H3. destruct (Z.min_spec out n) as [[_ ->]|[_ ->]]; [by left|right; split; [by left|done]].
    + split_and!; [lia| |].
      * intros k Hk Ha. apply elem_of_cons in Hk as [->|Hk]; [congruence|by apply H2].
      * destruct H3 as [H3|[H3 H4]]; [by left|right; split; [by right|done]].
Qed.

Lemma pending_keys (t : T) n : n ∈ (map_to_list (pending_nodes_ t)).*1 <-> is_Some (pending_nodes_ t !! n).
Proof. rewrite list_elem_of_fmap. split; [intros ([k v] & -> & Hk%elem_of_map_to_list); eauto|]. intros [v Hv]. exists (n, v). split; [done|by apply elem_of_map_to_list]. Qed.

(** The least waiting node above the last one, if there is any. *)
Lemma search_ok t : trig_inv t ->
  (search t = DefaultOutput /\ forall n, waiting t n -> n <= last_queried_node_id_ t) \/
  (1 <= search t <= NodeID.Max /\ waiting t (search t) /\ last_queried_node_id_ t < search t /\ forall n, waiting t n -> last_queried_node_id_ t < n -> search t <= n).
Proof.
  intros Ht. destruct (search_fold t (map_to_list (pending_nodes_ t)).*1 DefaultOutput) as (H1 & H2 & H3). fold (search t) in *.
  assert (Hw : forall n, waiting t n -> last_queried_node_id_ t < n -> search t <= n).
  { intros n [Hp Hc] Hl. apply H2; [by apply pending_keys|]. unfold above. rewrite Hc, (proj2 (Z.ltb_lt _ _)) by done. done. }
  destruct H3 as [H3|[H3 H4]].
  - left. split; [done|]. intros n Hn. destruct (Z.le_gt_cases n (last_queried_node_id_ t)) as [?|Hgt]; [done|]. specialize (Hw n Hn Hgt).
    pose proof (ti_nodes t Ht n (proj1 Hn)) as Hr. rewrite H3 in Hw. change NodeID.Max with 127 in Hr. unfold DefaultOutput in Hw. lia.
  - right. apply pending_keys in H3. unfold above in H4. apply andb_true_iff in H4 as [H4%Z.ltb_lt H5%negb_true_iff]. split; [by apply (ti_nodes t Ht)|]. done.
Qed.

Lemma dist_above p q k : 0 <= p <= NodeID.Max -> 1 <= k <= NodeID.Max -> p < q <= NodeID.Max -> k <> q -> (p < k -> q <= k) -> dist q k < dist p k.
Proof. unfold dist. change NodeID.Max with 127. intros Hp Hk Hq Hne Hle. Z.to_euclidean_division_equations; lia. Qed.
Lemma dist_wrap p q k : 0 <= p <= NodeID.Max -> 1 <= q <= NodeID.Max -> q < k <= p -> dist q k < dist p k.
Proof. unfold dist. change NodeID.Max with 127. intros Hp Hk Hq. Z.to_euclidean_division_equations; lia. Qed.

(** The node that is picked is waiting, and every other waiting node is closer to its turn. *)
Lemma picked_ok t : trig_inv t -> let n := (pickNextNodeID t).1 in (pickNextNodeID t).2 = ft_set_last t n /\
  ((n = 0 /\ forall k, ~ waiting t k) \/
   (1 <= n <= NodeID.Max /\ waiting t n /\ forall k, waiting t k -> k <> n -> dist n k < dist (last_queried_node_id_ t) k)).
Proof.
  intros Ht. unfold pickNextNodeID. pose proof (ti_last t Ht) as Hl. assert (Hrange : forall k, waiting t k -> 1 <= k <= NodeID.Max) by (intros k [Hk _]; by apply (ti_nodes t Ht)).
  destruct (search_ok t Ht) as [[E1 Hn1]|(Hr & Hw & Hgt & Hmin)].
  - rewrite E1, Z.eqb_refl. cbn [negb]. destruct (Z.eqb_spec (last_queried_node_id_ t) 0) as [E0|E0]; cbn [negb fst snd].
    + split; [by destruct t|]. left. split; [done|]. intros k Hk. specialize (Hn1 k Hk). specialize (Hrange k Hk). lia.
    + assert (Ht0 : trig_inv (ft_set_last t 0)) by (destruct Ht as [H1 H2 H3]; split; [done|cbn; change NodeID.Max with 127; lia|done]).
      destruct (search_ok _ Ht0) as [[E2 Hn2]|(Hr & Hw & Hgt & Hmin)]; cbn [last_queried_node_id_ ft_set_last] in *.
      * rewrite E2, Z.eqb_refl. cbn [negb fst snd last_queried_node_id_ ft_set_last]. split; [done|]. left. split; [done|]. intros k Hk. specialize (Hn2 k Hk). specialize (Hrange k Hk). lia.
      * destruct (Z.eqb_spec (search (ft_set_last t 0)) DefaultOutput) as [Ex|_]; [rewrite Ex in Hr; change NodeID.Max with 127 in Hr; unfold DefaultOutput in Hr; lia|].
        cbn [negb fst snd last_queried_node_id_ ft_set_last]. split; [done|]. right. split_and!; [lia|lia|exact Hw|]. intros k Hk Hne. apply dist_wrap; [done|done|].
        specialize (Hn1 k Hk). specialize (Hmin k Hk). specialize (Hrange k Hk). lia.
  - destruct (Z.eqb_spec (search t) DefaultOutput) as [Ex|_]; [rewrite Ex in Hr; change NodeID.Max with 127 in Hr; unfold DefaultOutput in Hr; lia|].
    cbn [negb fst snd last_queried_node_id_ ft_set_last]. split; [done|]. right. split_and!; [lia|lia|exact Hw|].
    intros k Hk Hne. apply dist_above; [done|by apply Hrange|lia|done|]. intros Hlt. by apply Hmin.
Qed.

(** *** Events *)

(** What an event keeps: the invariant, the place in the round robin, and a pending node unless the event ends its update. *)
Record ft_keeps (ends : Z -> Prop) (t t' : T) : Prop := {
  fk_inv : trig_inv t -> trig_inv t';
  fk_last : last_queried_node_id_ t' = last_queried_node_id_ t;
  fk_prefix : common_path_prefix_ t' = common_path_prefix_ t;
  fk_pending : forall n, is_Some (pending_nodes_ t !! n) -> pending_nodes_ t' !! n = None -> ends n
}.

Lemma keeps_same ends t t' : pending_nodes_ t' = pending_nodes_ t -> last_queried_node_id_ t' = last_queried_node_id_ t ->
  common_path_prefix_ t' = common_path_prefix_ t -> (isTimerRunning t = true -> isTimerRunning t' = true) -> ft_keeps ends t t'.
Proof.
  intros E1 E2 E4 E3. split; [|done|done|].
  - intros [H1 H2 H3]. split; [by rewrite E1|by rewrite E2|]. rewrite E1. auto.
  - rewrite E1. intros n [x Hx]. congruence.
Qed.

Lemma ft_keeps_trans ends t t1 t' : ft_keeps ends t t1 -> ft_keeps ends t1 t' -> ft_keeps ends t t'.
Proof.
  intros [H1 H2 H4 H3] [K1 K2 K4 K3]. split; [auto|congruence|congruence|]. intros n Hs Hn. destruct (pending_nodes_ t1 !! n) as [x|] eqn:Ex; [|by apply H3].
  apply K3; [by rewrite Ex|done].
Qed.

Lemma keeps_delete (ends : Z -> Prop) t n : ends n -> ft_keeps ends t (ft_set_pending t (delete n (pending_nodes_ t))).
Proof.
  intros He. split; [|done|done|].
  - intros [H1 H2 H3]. split; [|done|].
    + intros k [x Hx]. cbn in Hx. apply lookup_delete_Some in Hx as [_ Hx]. apply H1. by eexists.
    + intros Hne. apply H3. intros Ex. apply Hne. cbn. by rewrite Ex, delete_empty.
  - cbn. intros k [x Hx] Hn. apply lookup_delete_None in Hn as [<-|Hn]; [done|congruence].
Qed.

Lemma keeps_overwrite ends t n p : is_Some (pending_nodes_ t !! n) -> ft_keeps ends t (ft_set_pending t (<[n := p]> (pending_nodes_ t))).
Proof.
  intros Hp. split; [|done|done|].
  - intros [H1 H2 H3]. split; [|done|].
    + intros k [x Hx]. cbn in Hx. apply lookup_insert_Some in Hx as [[<- _]|[_ Hx]]; [by apply H1|]. apply H1. by eexists.
    + intros _. apply H3. intros Ex. rewrite Ex in Hp. destruct Hp as [x Hx]. by rewrite lookup_empty in Hx.
  - cbn. intros k [x Hx] Hn. apply lookup_insert_None in Hn as [Hn _]. congruence.
Qed.

Lemma trySet_keeps (ends : Z -> Prop) t n p : 1 <= n <= NodeID.Max -> ends n -> ft_keeps ends t (trySetPendingNode t n p).
Proof.
  intros Hn He. unfold trySetPendingNode. cbv zeta. set (t1 := ft_set_pending t _). apply (ft_keeps_trans _ t t1); [by apply keeps_delete|].
  destruct (node_emplace (ft_world t1)) as [[] w]; [|by apply keeps_same]. set (t2 := ft_set_pending (ft_set_world t1 _ _) _).
  assert (Hk : forall t3, pending_nodes_ t3 = <[n := p]> (pending_nodes_ t1) -> last_queried_node_id_ t3 = last_queried_node_id_ t1 -> common_path_prefix_ t3 = common_path_prefix_ t1 -> isTimerRunning t3 = true -> ft_keeps ends t1 t3).
  { intros t3 E1 E2 E4 E3. split; [|done|done|].
    - intros [H1 H2 H3]. split; [|by rewrite E2|done]. rewrite E1. intros k [x Hx]. apply lookup_insert_Some in Hx as [[<- _]|[_ Hx]]; [done|]. apply H1. by eexists.
    - rewrite E1. intros k [x Hx] Hno. apply lookup_insert_None in Hno as [Hno _]. congruence. }
  destruct (ft_timer t2) eqn:Et; apply Hk; try done. unfold isTimerRunning. by rewrite Et.
Qed.

Definition ends (e : TrigEvent W R E) (n : Z) : Prop :=
  match e with
  | TListener (HandleNodeInfoRetrieved m _) => m = n
  | TListener (HandleNodeInfoUnavailable m) => m = n
  | TListener (HandleStatusChange ev) => ev_node_id ev = n /\ mode (ev_status ev) = MODE_OFFLINE
  | TResponse frame response => src_node_id_ (rx_frame frame) = n
  | _ => False
  end.

Lemma on_response_keeps (P : Z -> Prop) t st id resp : (st = Success -> P (server_node_id id)) -> ft_keeps P t (on_response t (mkResult st id resp)).
Proof.
  intros HP. unfold handleBeginFirmwareUpdateResponse. cbn [status_ response_ call_id_]. destruct st; [|by apply keeps_same]. specialize (HP eq_refl).
  destruct resp as [resp|]; [|by apply keeps_same]. destruct (pending_nodes_ t !! server_node_id id) as [old|] eqn:Eo; [|by apply keeps_same]. destruct (_ || _).
  - eapply ft_keeps_trans; [by apply keeps_delete|]. by apply keeps_same.
  - destruct (shouldRetryFirmwareUpdate _ _ _ _) as [[b path] h]. 
    assert (Hk : ft_keeps P t (ft_set_pending (ft_set_checker t h) (<[server_node_id id := path]> (pending_nodes_ t)))).
    { eapply (ft_keeps_trans _ t (ft_set_checker t h)); [by apply keeps_same|]. apply (keeps_overwrite P (ft_set_checker t h)). by eexists. }
    destruct b; cbn [negb]; [done|]. eapply ft_keeps_trans; [exact Hk|]. by apply keeps_delete.
Qed.

Lemma deliver_keeps (P : Z -> Prop) resp log t :
  Forall (fun e => match e with EvResult Success id => P (server_node_id id) | _ => True end) log -> ft_keeps P t (foldl (ft_deliver resp) t log).
Proof.
  revert t. induction log as [|e log IH]; intros t Hl; [by apply keeps_same|]. apply Forall_cons in Hl as [He Hl]. cbn [foldl].
  eapply ft_keeps_trans; [|by apply IH]. destruct e as [id|st id|id]; try by apply keeps_same. apply on_response_keeps. by intros ->.
Qed.

Lemma response_log (w : W) c frame (resp : E) : let '(log, _, _) := Client_handleResponse encode no_ops w c frame resp in
  Forall (fun e => match e with EvResult Success id => src_node_id_ (rx_frame frame) = server_node_id id | _ => True end) log.
Proof.
  unfold Client_handleResponse. destruct (shouldAcceptFrame c frame); [|done]. unfold Client_handleReceivedDataStruct. destruct (cancelCall _ _ _) as [w' c'].
  rewrite no_ops_invoke. cbn. by constructor.
Qed.

Lemma deadline_log (w : W) c : let '(log, _, _) := Client_handleDeadline encode (@no_ops UpdateRequest E) w c in
  Forall (fun e => match e with EvResult Success id => False | _ => True end) log.
Proof.
  unfold Client_handleDeadline. set (c0 := set_shared _ _). cbv zeta.
  assert (Hf : forall l log, Forall (fun e => match e with EvResult Success id => False | _ => True end) log ->
    exists log', foldl (fun st cs => invokeCallback encode (@no_ops UpdateRequest E) st (mkResult ErrorTimeout (id_ cs) None)) (log, w, c0) l = (log', w, c0) /\
      Forall (fun e => match e with EvResult Success id => False | _ => True end) log').
  { induction l as [|cs l IH]; intros log Hlog; [by exists log|]. cbn [foldl]. rewrite no_ops_invoke. apply IH. apply Forall_app. split; [done|]. by constructor. }
  destruct (Hf (filter (fun cs => timed_out_ cs = true) (call_registry_ c0)) [] (Forall_nil_2 _)) as (log & -> & Hlog). by destruct (stop_if_empty _ _).
Qed.

Lemma trig_step_keeps t e : valid_trig e -> e <> TTimer -> ft_keeps (ends e) t (trig_step t e).
Proof.
  intros Hv He. destruct e as [[n info|n|ev|src msg]| |frame resp|i| |interval|w]; cbn [trig_step listener_call valid_trig valid_call] in *.
  - unfold handleNodeInfoRetrieved. destruct (shouldRequestFirmwareUpdate _ _ _) as [[b p] h]. apply (ft_keeps_trans _ t (ft_set_checker t h)); [by apply keeps_same|].
    destruct b; [by apply trySet_keeps|by apply keeps_delete].
  - by apply keeps_delete.
  - unfold Trigger_handleNodeStatusChange. destruct (Z.eqb_spec (mode (ev_status ev)) MODE_OFFLINE); [by apply keeps_delete|by apply keeps_same].
  - by apply keeps_same.
  - done.
  - pose proof (response_log (ft_world t) (begin_fw_update_client_ t) frame resp) as Hl. destruct (Client_handleResponse _ _ _ _ _ _) as [[log w] c].
    apply (ft_keeps_trans _ t (ft_set_world t w c)); [by apply keeps_same|]. apply deliver_keeps. exact Hl.
  - destruct (_ ≫= _); [|by apply keeps_same]. destruct (_ <=? _); by apply keeps_same.
  - destruct (shared_deadline_ _); [|by apply keeps_same]. pose proof (deadline_log (ft_world t) (begin_fw_update_client_ t)) as Hl.
    destruct (Client_handleDeadline _ _ _ _) as [[log w] c]. apply (ft_keeps_trans _ t (ft_set_world t w c)); [by apply keeps_same|]. apply deliver_keeps. exact Hl.
  - unfold ft_setRequestInterval. destruct (0 <? interval); apply keeps_same; try done. unfold isTimerRunning. cbn. by destruct (ft_timer t).
  - by apply keeps_same.
Qed.

(** *** The timer *)

(** The path that a node is to be told when the trigger was started with the prefix [arg]: the firmware's own path if there is no prefix,
    else the prefix without its last separator, one separator and the firmware's path, each as a C string. *)
Inductive path_behind (arg path : FirmwareFilePath) : list Z -> Prop :=
| no_prefix : arg = [] \/ arg = [SEPARATOR] -> path_behind arg path (c_str path)
| some_prefix p : p <> [] -> arg = p ++ [SEPARATOR] \/ (arg = p /\ last p <> Some SEPARATOR) -> path_behind arg path (c_str p ++ SEPARATOR :: c_str path).

(** A request to the node that was picked, with the path [q]. *)
Definition requested (t : T) (n : Z) (q : list Z) : T :=
  let '(res, _, w, c) := call encode (ft_world t) (begin_fw_update_client_ t) n (mkUpdateRequest (node_getNodeID (ft_world t)) q) in
  let t' := ft_set_world (ft_set_last t n) w c in if res <? 0 then ft_failure t' else t'.

Lemma requested_keeps t n path : pending_nodes_ (requested t n path) = pending_nodes_ t /\ last_queried_node_id_ (requested t n path) = n /\
  ft_timer (requested t n path) = ft_timer t /\ common_path_prefix_ (requested t n path) = common_path_prefix_ t /\
  (hasPendingCallToServer (begin_fw_update_client_ (requested t n path)) n = true \/ ft_failures (requested t n path) = ft_failures t + 1).
Proof.
  unfold requested. pose proof (call_pending encode (ft_world t) (begin_fw_update_client_ t) n (mkUpdateRequest (node_getNodeID (ft_world t)) path)) as Hp.
  destruct (call _ _ _ _ _) as [[[res id] w] c]. cbv zeta. destruct (Z.ltb_spec res 0); cbn; split_and!; try done; [by right|left; apply Hp; lia].
Qed.

Lemma timer_cases t : trig_inv t ->
  ((exists k, waiting t k) -> let n := (pickNextNodeID t).1 in
     waiting t n /\ (exists path, pending_nodes_ t !! n = Some path /\ on_timer t = requested t n (remote_path SEPARATOR t path)) /\
     forall k, waiting t k -> k <> n -> dist n k < dist (last_queried_node_id_ t) k) /\
  trig_inv (on_timer t) /\ pending_nodes_ (on_timer t) = pending_nodes_ t /\ common_path_prefix_ (on_timer t) = common_path_prefix_ t.
Proof.
  intros Ht. unfold Trigger_handleTimerEvent. case_bool_decide as Hempty.
  - split; [|split; [|by split]].
    + intros (k & [x Hx] & _). rewrite Hempty in Hx. by rewrite lookup_empty in Hx.
    + destruct Ht as [H1 H2 H3]. split; [done|done|]. by intros [].
  - destruct (picked_ok t Ht) as [E2 Hc]. destruct (pickNextNodeID t) as [n t1]. cbn [fst snd] in *. subst t1. destruct Hc as [[-> Hno]|(Hn & Hw & Hd)].
    + cbn. split; [|split; [|by split]]; [intros [k Hk]; by destruct (Hno k)|]. destruct Ht as [H1 H2 H3]. split; [done|cbn; by split|done].
    + assert (Hu : NodeID.isUnicast n = true) by (unfold NodeID.isUnicast, NodeID.ValueBroadcast; destruct (Z.leb_spec n NodeID.Max), (Z.eqb_spec n 0); lia || done).
      rewrite Hu. cbn [negb]. destruct Hw as [[path Hp] Hpc]. change (pending_nodes_ (ft_set_last t n)) with (pending_nodes_ t). rewrite Hp.
      change (let '(res, _, w, c) := call encode _ _ n _ in _) with (requested t n (remote_path SEPARATOR t path)). destruct (requested_keeps t n (remote_path SEPARATOR t path)) as (Ep & El & Et & Ec & _). split_and!.
      * intros _. split; [by split; [eexists|]|]. split; [by exists path|done].
      * destruct Ht as [H1 H2 H3]. split; [by rewrite Ep|rewrite El; lia|]. rewrite Ep. intros Hne. specialize (H3 Hne). unfold isTimerRunning in *. by rewrite Et.
      * done.
      * done.
Qed.

Lemma trig_step_inv t e : trig_inv t -> valid_trig e -> trig_inv (trig_step t e).
Proof.
  intros Ht Hv. assert (Hd : e = TTimer \/ e <> TTimer) by (destruct e; auto; by right). destruct Hd as [->|Hne].
  - cbn [trig_step]. destruct (isTimerRunning t); [by apply timer_cases|done].
  - by apply (fk_inv _ _ _ (trig_step_keeps t e Hv Hne)).
Qed.

Lemma trig_run_inv es t : trig_inv t -> Forall valid_trig es -> trig_inv (foldl trig_step t es).
Proof. revert t. induction es as [|e es IH]; intros t Ht Hv; [done|]. apply Forall_cons in Hv as [He Hv]. cbn. apply IH; [by apply trig_step_inv|done]. Qed.

(** A node that was waiting at every expiry of the timer and was never picked. *)
Fixpoint neglected (n : Z) (t : T) (es : list (TrigEvent W R E)) : Prop :=
  match es with
  | [] => True
  | e :: es => match e with TTimer => waiting t n /\ (pickNextNodeID t).1 <> n | _ => True end /\ neglected n (trig_step t e) es
  end.
Definition is_tick (e : TrigEvent W R E) : bool := match e with TTimer => true | _ => false end.
Definition num_ticks (es : list (TrigEvent W R E)) : Z := Z.of_nat (length (List.filter is_tick es)).

Lemma waiting_runs t n : trig_inv t -> waiting t n -> isTimerRunning t = true.
Proof. intros Ht [[x Hx] _]. apply (ti_timer t Ht). intros Ex. rewrite Ex, lookup_empty in Hx. done. Qed.

Lemma neglected_bound n es t : trig_inv t -> Forall valid_trig es -> neglected n t es -> num_ticks es <= dist (last_queried_node_id_ t) n.
Proof.
  revert t. induction es as [|e es IH]; intros t Ht Hv Hst.
  - unfold num_ticks, dist. cbn. apply Z.mod_pos_bound. done.
  - apply Forall_cons in Hv as [He Hv]. destruct Hst as [Hst Hrest]. specialize (IH _ (trig_step_inv t e Ht He) Hv Hrest).
    destruct (is_tick e) eqn:Ee.
    + destruct e; try discriminate Ee. destruct Hst as [Hw Hp]. cbn [trig_step] in IH. rewrite (waiting_runs t n Ht Hw) in IH.
      destruct (timer_cases t Ht) as [Hc _]. destruct (Hc (ex_intro _ n Hw)) as (_ & (path & _ & Eq) & Hd). rewrite Eq in IH.
      destruct (requested_keeps t (pickNextNodeID t).1 (remote_path SEPARATOR t path)) as (_ & El & _). rewrite El in IH. specialize (Hd n Hw ltac:(congruence)).
      unfold num_ticks in *. cbn [List.filter is_tick length]. lia.
    + rewrite (fk_last _ _ _ (trig_step_keeps t e He ltac:(by intros ->))) in IH. unfold num_ticks in *. cbn [List.filter]. by rewrite Ee.
Qed.

Lemma trig_run_prefix es t : trig_inv t -> Forall valid_trig es -> common_path_prefix_ (foldl trig_step t es) = common_path_prefix_ t.
Proof.
  revert t. induction es as [|e es IH]; intros t Ht Hv; [done|]. apply Forall_cons in Hv as [He Hv]. cbn [foldl]. rewrite (IH _ (trig_step_inv t e Ht He) Hv).
  destruct (is_tick e) eqn:Ee; [|by apply (fk_prefix _ _ _ (trig_step_keeps t e He ltac:(by intros ->)))].
  destruct e; try discriminate Ee. cbn [trig_step]. destruct (isTimerRunning t); [by apply timer_cases|done].
Qed.

(** What a successful start leaves as the prefix puts every path behind the prefix it was given. *)
Lemma start_prefix {R'} w h (r : Retriever W R') this prefix priority path :
  let '(res, t, _) := Trigger_start SEPARATOR (Trigger_make w h : T) r this prefix priority in
  0 <= res -> forall t' : T, common_path_prefix_ t' = common_path_prefix_ t -> path_behind prefix path (remote_path SEPARATOR t' path).
Proof.
  unfold Trigger_start. destruct (addListener _ _) as [res r']. destruct (Z.ltb_spec res 0); [lia|]. cbv zeta. destruct (Publisher_init _ _ _ _) as [res2 p].
  assert (Hp : forall t' : T, common_path_prefix_ t' = match last prefix with
      | Some c => if c =? SEPARATOR then take (length prefix - 1) prefix else prefix | None => prefix end -> path_behind prefix path (remote_path SEPARATOR t' path)).
  { intros t' Et. unfold remote_path. rewrite Et. destruct prefix as [|x pre _] using rev_ind; [by apply no_prefix; left|].
    rewrite last_snoc. destruct (Z.eqb_spec x SEPARATOR) as [->|Hx].
    - rewrite length_app, Nat.add_sub, take_app_length. destruct pre as [|y pre]; [by apply no_prefix; right|].
      rewrite <- app_assoc. apply some_prefix; [done|by left].
    - assert (Hne : pre ++ [x] <> []) by (by destruct pre). destruct (pre ++ [x]) as [|y l] eqn:El; [done|]. rewrite <- El, <- app_assoc. apply some_prefix; [by rewrite El|].
      right. split; [done|]. rewrite last_snoc. congruence. }
  destruct (Z.ltb_spec res2 0); [lia|]. intros _ t' Et. by apply Hp.
Qed.

Lemma trigger_start_inv {R'} w h (r : Retriever W R') this prefix priority :
  let '(_, t, _) := Trigger_start SEPARATOR (Trigger_make w h : T) r this prefix priority in trig_inv t.
Proof.
  assert (Hi : forall t : T, pending_nodes_ t = ∅ -> last_queried_node_id_ t = 0 -> trig_inv t).
  { intros t E1 E2. split; [|rewrite E2; by split|by rewrite E1]. rewrite E1. intros n [x Hx]. by rewrite lookup_empty in Hx. }
  unfold Trigger_start. destruct (addListener _ _) as [res r']. destruct (res <? 0); [by apply Hi|]. cbv zeta. destruct (Publisher_init _ _ _ _) as [res2 p].
  destruct (res2 <? 0); by apply Hi.
Qed.

(** C11: the firmware update trigger, started and then driven by any calls of the node info retriever (on nodes 1 to 127), timers,
    responses and timeouts, has its timer running as long as some node is pending; when the timer expires while a node waits for a
    request, a waiting node is picked and gets the request (or the failure is reported) with the path [q], which, if the start succeeded, is
    the path of its firmware behind the prefix given to the start and one separator, or the bare path without a prefix; a node that
    waits at every expiry is asked within 127 of them; and a pending node is only forgotten when it goes offline, when its
    description arrives anew or cannot be had, or when it has answered. *)
Theorem firmware_update_trigger_is_fair {R'} w h (r : Retriever W R') this prefix priority (es : list (TrigEvent W R E)) :
  Forall valid_trig es ->
  let '(res, t0, _) := Trigger_start SEPARATOR (Trigger_make w h : T) r this prefix priority in
  let t := foldl trig_step t0 es in
  (pending_nodes_ t <> ∅ -> isTimerRunning t = true) /\
  ((exists k, waiting t k) -> let n := (pickNextNodeID t).1 in
     waiting t n /\ exists path q, pending_nodes_ t !! n = Some path /\ (0 <= res -> path_behind prefix path q) /\ trig_step t TTimer = requested t n q /\
     (hasPendingCallToServer (begin_fw_update_client_ (requested t n q)) n = true \/ ft_failures (requested t n q) = ft_failures t + 1)) /\
  (forall n es', Forall valid_trig es' -> neglected n t es' -> num_ticks es' <= 126) /\
  (forall n e, valid_trig e -> is_Some (pending_nodes_ t !! n) -> pending_nodes_ (trig_step t e) !! n = None -> ends e n).
Proof.
  intros Hv. pose proof (trigger_start_inv w h r this prefix priority) as Hs. pose proof (fun path => start_prefix w h r this prefix priority path) as Hq.
  destruct (Trigger_start _ _ _ _ _ _) as [[res t0] r']. cbv zeta. pose proof (trig_run_prefix es t0 Hs Hv) as Hc0.
  pose proof (trig_run_inv es t0 Hs Hv) as Ht. set (t := foldl trig_step t0 es) in *. split_and!.
  - apply (ti_timer t Ht).
  - intros Hw. destruct (timer_cases t Ht) as [Hc _]. destruct (Hc Hw) as (Hn & (path & Hp & Eq) & _). split; [done|]. exists path, (remote_path SEPARATOR t path). split; [done|].
    split; [intros Hr; by apply Hq|]. cbn [trig_step]. rewrite (waiting_runs t _ Ht Hn). split; [done|]. apply requested_keeps.
  - intros n es' Hv' Hst. pose proof (neglected_bound n es' t Ht Hv' Hst) as Hb. unfold dist in Hb. change NodeID.Max with 127 in Hb.
    pose proof (Z.mod_pos_bound (n - last_queried_node_id_ t - 1) 127 ltac:(done)). lia.
  - intros n e He Hs' Hn. assert (Hd : e = TTimer \/ e <> TTimer) by (destruct e; auto; by right). destruct Hd as [->|Hne].
    + cbn [trig_step] in Hn. destruct (isTimerRunning t); [|destruct Hs' as [x Hx]; congruence].
      destruct (timer_cases t Ht) as (_ & _ & Ep & _). rewrite Ep in Hn. destruct Hs' as [x Hx]. congruence.
    + by apply (fk_pending _ _ _ (trig_step_keeps t e He Hne)).
Qed.
End trigger_ok.

(** ** An example *)

Module SimTrigger.
Import SimNode.
(** Nodes below 50 get the image 1; a node that refuses it is tried again with image 2, once. *)
#[export] Instance sim_checker : IFirmwareVersionChecker (list Z) Z Z := {
  shouldRequestFirmwareUpdate h n info := (n <? 50, [1], h);
  shouldRetryFirmwareUpdate h n e path := (bool_decide (path = [1]), [2], h);
  handleFirmwareUpdateConfirmation h n e := n :: h
}.
Definition encode_update (r : UpdateRequest) : Z * list Z := (1, image_file_remote_path r).
Definition trig_events : list (TrigEvent World Z Z) :=
  [TListener (HandleNodeInfoRetrieved 7 0); TListener (HandleNodeInfoRetrieved 3 0); TListener (HandleNodeInfoRetrieved 80 0); TTimer; TTimer; TTimer].
Lemma trig_events_valid : Forall valid_trig trig_events.
Proof. unfold trig_events. repeat (apply Forall_cons_2; [cbn; unfold NodeID.Max; cbn; (lia || done)|]). by apply Forall_nil_2. Qed.

Lemma nodes_asked :
  let '(_, t0, _) := Trigger_start 47 (Trigger_make sim_start ([] : list Z)) (Retriever_make sim_start : Retriever World Z) 100 [5; 47] 0 in
  let t := foldl (trig_step encode_update id 0 1 47 7) t0 trig_events in
  (server_node_id ∘ id_ <$> call_registry_ (begin_fw_update_client_ t), elements (dom (pending_nodes_ t)), remote_path 47 t [1]) = ([3; 7], [7; 3], [5; 47; 1]).
Proof. by vm_compute. Qed.

Lemma firmware_update_trigger_is_fair_witness :
  Forall valid_trig trig_events /\
  let '(_, t0, _) := Trigger_start 47 (Trigger_make sim_start ([] : list Z)) (Retriever_make sim_start : Retriever World Z) 100 [5; 47] 0 in
  let t := foldl (trig_step encode_update id 0 1 47 7) t0 trig_events in
  forall n es', Forall valid_trig es' -> neglected encode_update id 0 1 47 7 n t es' -> num_ticks es' <= 126.
Proof.
  split; [exact trig_events_valid|].
  pose proof (firmware_update_trigger_is_fair encode_update id 0 1 47 7 sim_start ([] : list Z) (Retriever_make sim_start : Retriever World Z) 100 [5; 47] 0 trig_events trig_events_valid) as Hw.
  destruct (Trigger_start _ _ _ _ _ _) as [[res t0] r']. destruct Hw as (_ & _ & Hw & _). exact Hw.
Defined.
End SimTrigger.
