(* ===== verification/NodeServices.v ===== *)
(** * NodeServices: what a node tells the network about itself

    Models [NodeStatusProvider] ([libuavcan/include/uavcan/protocol/node_status_provider.hpp],
    [libuavcan/src/protocol/uc_node_status_provider.cpp]), [PanicBroadcaster] and [PanicListener]
    ([panic_broadcaster.hpp], [panic_listener.hpp]), [RestartRequestServer] ([restart_request_server.hpp]) and [Logger]
    ([logger.hpp]). Constants of the data types, which are not part of the sources, are variables. *)

From stdpp Require Import list sorting.
From S2P Require Import Prelude MonoTime Transfer TransferSender Services.
Local Open Scope Z_scope.

(** [Publisher::getDefaultTxTimeout()]. *)
Definition Publisher_getDefaultTxTimeout : Z := Duration.fromMSec 100.

(** ** Node status *)

Module NodeStatusProvider.

Record Status := mkPStatus { p_uptime_sec : Z; p_health : Z; p_mode : Z; vendor_specific_status_code : Z }.

(** [GetNodeInfo::Response]; [SW] and [HW] are the types of the version descriptions. *)
Record NodeInfo (SW HW : Type) := mkNodeInfo { ni_status : Status; ni_name : list Z; software_version : SW; hardware_version : HW }.
Arguments mkNodeInfo {_ _}.
Arguments ni_status {_ _}.
Arguments ni_name {_ _}.
Arguments software_version {_ _}.
Arguments hardware_version {_ _}.

(** [sp_timer] is the period of the timer while it runs. *)
Record Provider (SW HW : Type) := mkProvider {
  creation_timestamp_ : Z;
  node_status_pub_ : GenericPublisher;
  gni_srv_ : ServiceServer;
  node_info_ : NodeInfo SW HW;
  sp_timer : option Z;
  sp_failures : Z
}.
Arguments mkProvider {_ _}.
Arguments creation_timestamp_ {_ _}.
Arguments node_status_pub_ {_ _}.
Arguments gni_srv_ {_ _}.
Arguments node_info_ {_ _}.
Arguments sp_timer {_ _}.
Arguments sp_failures {_ _}.

Section provider.
Context {W : Type} {status_node info_node : INode W} (isPassiveMode : W -> bool) (encode : Status -> Z * list Z).
Context {SW HW : Type} `{EqDecision SW, EqDecision HW} (sw_default : SW) (hw_default : HW).
Context (HEALTH_OK MODE_INITIALIZATION MIN_BROADCASTING_PERIOD_MS MAX_BROADCASTING_PERIOD_MS : Z).
Abbreviation P := (Provider SW HW).

Definition set_info (p : P) (i : NodeInfo SW HW) : P := mkProvider (creation_timestamp_ p) (node_status_pub_ p) (gni_srv_ p) i (sp_timer p) (sp_failures p).
Definition set_status (p : P) (s : Status) : P :=
  let i := node_info_ p in set_info p (mkNodeInfo s (ni_name i) (software_version i) (hardware_version i)).
Definition set_pub (p : P) (pub : GenericPublisher) : P := mkProvider (creation_timestamp_ p) pub (gni_srv_ p) (node_info_ p) (sp_timer p) (sp_failures p).
Definition set_srv (p : P) (s : ServiceServer) (t : option Z) : P := mkProvider (creation_timestamp_ p) (node_status_pub_ p) s (node_info_ p) t (sp_failures p).

(** [explicit NodeStatusProvider(INode& node)]. *)
Definition Provider_make (w : W) : P :=
  mkProvider (@node_getMonotonicTime W status_node w) (GenericPublisher_make Publisher_getDefaultTxTimeout getDefaultMaxTransferInterval) ServiceServer_make
    (mkNodeInfo (mkPStatus 0 HEALTH_OK MODE_INITIALIZATION 0) [] sw_default hw_default) None 0.

Definition isNodeInfoInitialized (p : P) : bool := match ni_name (node_info_ p) with [] => false | _ => true end.

(** [int publish()]. *)
Definition publish (w : W) (p : P) : Z * W * P :=
  let uptime := MTime.minus (@node_getMonotonicTime W status_node w) (creation_timestamp_ p) in
  let s := ni_status (node_info_ p) in
  let p := set_status p (mkPStatus (u32 (Z.quot (Duration.toMSec uptime) 1000)) (p_health s) (p_mode s) (vendor_specific_status_code s)) in
  let '(res, w, pub) := @broadcast W status_node DataTypeKindMessage Status encode w (node_status_pub_ p) (ni_status (node_info_ p)) None in
  (res, w, set_pub p pub).

(** [void handleTimerEvent(const TimerEvent&)]. *)
Definition Provider_handleTimerEvent (w : W) (p : P) : W * P :=
  if isPassiveMode w then (w, p)
  else
    let '(res, w, p) := publish w p in
    (w, if res <? 0 then mkProvider (creation_timestamp_ p) (node_status_pub_ p) (gni_srv_ p) (node_info_ p) (sp_timer p) (sp_failures p + 1) else p).

(** [void handleGetNodeInfoRequest(const protocol::GetNodeInfo::Request&, protocol::GetNodeInfo::Response& rsp)]. *)
Definition handleGetNodeInfoRequest (p : P) : NodeInfo SW HW := node_info_ p.

(** [void setStatusPublicationPeriod(uavcan::MonotonicDuration period)]. *)
Definition setStatusPublicationPeriod (p : P) (period : Z) : P :=
  let maximum := Duration.fromMSec MAX_BROADCASTING_PERIOD_MS in
  let minimum := Duration.fromMSec MIN_BROADCASTING_PERIOD_MS in
  let period := Z.min period maximum in
  let period := Z.max period minimum in
  let tx_timeout := Duration.minus period (Duration.fromUSec (Z.quot (Duration.toUSec period) 20)) in
  mkProvider (creation_timestamp_ p) (setTxTimeout (node_status_pub_ p) tx_timeout) (gni_srv_ p) (node_info_ p) (Some period) (sp_failures p).

(** [int startAndPublish(const TransferPriority priority)]. *)
Definition startAndPublish (w : W) (p : P) (priority : Z) : Z * W * P :=
  let fail res w p :=
    let '(w, s) := @Subscriber_stop W info_node w (ss_subscriber (gni_srv_ p)) in
    (res, w, set_srv p (mkServer s (ss_publisher (gni_srv_ p)) (ss_callback_set (gni_srv_ p)) (response_failure_count_ (gni_srv_ p))) None) in
  if negb (isNodeInfoInitialized p) then (- ErrNotInited, w, p)
  else
    let p := set_pub p (Publisher_setPriority (node_status_pub_ p) priority) in
    let '(res, w, p) := if isPassiveMode w then (0, w, p) else publish w p in
    if res <? 0 then fail res w p
    else
      let '(res, w, s) := @Server_start W info_node w (gni_srv_ p) true in
      let p := set_srv p s (sp_timer p) in
      if res <? 0 then fail res w p
      else (res, w, setStatusPublicationPeriod p (Duration.fromMSec MAX_BROADCASTING_PERIOD_MS)).

(** The setters. *)
Definition setHealth (p : P) (code : Z) : P :=
  let s := ni_status (node_info_ p) in set_status p (mkPStatus (p_uptime_sec s) code (p_mode s) (vendor_specific_status_code s)).
Definition setMode (p : P) (code : Z) : P :=
  let s := ni_status (node_info_ p) in set_status p (mkPStatus (p_uptime_sec s) (p_health s) code (vendor_specific_status_code s)).
Definition setVendorSpecificStatusCode (p : P) (code : Z) : P :=
  let s := ni_status (node_info_ p) in set_status p (mkPStatus (p_uptime_sec s) (p_health s) (p_mode s) code).
Definition setName (p : P) (name : list Z) : P :=
  let i := node_info_ p in
  match ni_name i with [] => set_info p (mkNodeInfo (ni_status i) name (software_version i) (hardware_version i)) | _ => p end.
Definition setSoftwareVersion (p : P) (version : SW) : P :=
  let i := node_info_ p in
  if decide (software_version i = sw_default) then set_info p (mkNodeInfo (ni_status i) (ni_name i) version (hardware_version i)) else p.
Definition setHardwareVersion (p : P) (version : HW) : P :=
  let i := node_info_ p in
  if decide (hardware_version i = hw_default) then set_info p (mkNodeInfo (ni_status i) (ni_name i) (software_version i) version) else p.

(** *** Histories *)

Inductive Op := OStart (priority : Z) | OTimer | OPublish | OPeriod (period : Z) | OHealth (code : Z) | OMode (code : Z) | OVendor (code : Z)
  | OName (name : list Z) | OSoftware (v : SW) | OHardware (v : HW) | ONode (w : W).
Definition op (wp : W * P) (o : Op) : W * P :=
  let '(w, p) := wp in
  match o with
  | OStart priority => let '(_, w, p) := startAndPublish w p priority in (w, p)
  | OTimer => match sp_timer p with Some _ => Provider_handleTimerEvent w p | None => (w, p) end
  | OPublish => let '(_, w, p) := publish w p in (w, p)
  | OPeriod period => (w, setStatusPublicationPeriod p period)
  | OHealth code => (w, setHealth p code)
  | OMode code => (w, setMode p code)
  | OVendor code => (w, setVendorSpecificStatusCode p code)
  | OName name => (w, setName p name)
  | OSoftware v => (w, setSoftwareVersion p v)
  | OHardware v => (w, setHardwareVersion p v)
  | ONode w => (w, p)
  end.

(** What the setters said: the last health and mode, the first name that is not empty, the first version that is not the default one. *)
Record Told := mkTold { told_health : Z; told_mode : Z; told_vendor : Z; told_name : list Z; told_sw : SW; told_hw : HW }.
Definition tell (t : Told) (o : Op) : Told :=
  match o with
  | OHealth c => mkTold c (told_mode t) (told_vendor t) (told_name t) (told_sw t) (told_hw t)
  | OMode c => mkTold (told_health t) c (told_vendor t) (told_name t) (told_sw t) (told_hw t)
  | OVendor c => mkTold (told_health t) (told_mode t) c (told_name t) (told_sw t) (told_hw t)
  | OName n => mkTold (told_health t) (told_mode t) (told_vendor t) (match told_name t with [] => n | _ => told_name t end) (told_sw t) (told_hw t)
  | OSoftware v => mkTold (told_health t) (told_mode t) (told_vendor t) (told_name t) (if decide (told_sw t = sw_default) then v else told_sw t) (told_hw t)
  | OHardware v => mkTold (told_health t) (told_mode t) (told_vendor t) (told_name t) (told_sw t) (if decide (told_hw t = hw_default) then v else told_hw t)
  | _ => t
  end.

Definition told_of (p : P) : Told :=
  let i := node_info_ p in let s := ni_status i in
  mkTold (p_health s) (p_mode s) (vendor_specific_status_code s) (ni_name i) (software_version i) (hardware_version i).

Abbreviation min_period := (Duration.fromMSec MIN_BROADCASTING_PERIOD_MS).
Abbreviation max_period := (Z.max min_period (Duration.fromMSec MAX_BROADCASTING_PERIOD_MS)).
Record prov_ok (p p' : P) (t : Told) : Prop := {
  pk_creation : creation_timestamp_ p' = creation_timestamp_ p;
  pk_told : told_of p' = t;
  pk_period : forall d, sp_timer p' = Some d -> sp_timer p = Some d \/ min_period <= d <= max_period
}.

Lemma status_publish_ok w p : let '(_, _, p') := publish w p in prov_ok p p' (told_of p).
Proof. unfold publish. destruct (@broadcast _ _ _ _ _ _ _ _) as [[res w'] pub]. split; [done|done|by left]. Qed.

Lemma start_ok w p priority : let '(_, _, p') := startAndPublish w p priority in prov_ok p p' (told_of p).
Proof.
  unfold startAndPublish. destruct (negb _); [split; [done|done|by left]|]. cbv zeta. set (p1 := set_pub p _).
  assert (Hp : let '(_, _, p2) := (if isPassiveMode w then (0, w, p1) else publish w p1) in prov_ok p p2 (told_of p)).
  { destruct (isPassiveMode w); [split; [done|done|by left]|]. pose proof (status_publish_ok w p1) as Hq. destruct (publish w p1) as [[? ?] ?]. destruct Hq as [H1 H2 H3]. by split. }
  destruct (if isPassiveMode w then _ else _) as [[res w1] p2]. destruct Hp as [Hc Ht Hd]. destruct (res <? 0).
  - destruct (@Subscriber_stop _ _ _ _). by split.
  - destruct (@Server_start _ _ _ _ _) as [[res2 w2] s]. destruct (res2 <? 0).
    + destruct (@Subscriber_stop _ _ _ _). by split.
    + split; [done|done|]. cbn. intros x [= <-]. right. lia.
Qed.

Lemma op_ok w p o : let '(_, p') := op (w, p) o in prov_ok p p' (tell (told_of p) o).
Proof.
  destruct o; cbn [op tell]; try (split; [done|done|by left]).
  - pose proof (start_ok w p priority) as H. destruct (startAndPublish w p priority) as [[? ?] ?]. exact H.
  - destruct (sp_timer p) eqn:Et; [|split; [done|done|by left]]. unfold Provider_handleTimerEvent. destruct (isPassiveMode w); [split; [done|done|by left]|].
    pose proof (status_publish_ok w p) as H. destruct (publish w p) as [[res w'] p']. destruct H as [H1 H2 H3]. destruct (res <? 0); by split.
  - pose proof (status_publish_ok w p) as H. destruct (publish w p) as [[? ?] ?]. exact H.
  - split; [done|done|]. cbn. intros x [= <-]. right. lia.
  - unfold setName. destruct (ni_name (node_info_ p)) eqn:En; (split; [done| |by left]); unfold told_of; cbn; by rewrite ?En.
  - unfold setSoftwareVersion. cbv zeta. split; unfold told_of; cbn; case_decide; try done; by left.
  - unfold setHardwareVersion. cbv zeta. split; unfold told_of; cbn; case_decide; try done; by left.
Qed.

Lemma ops_ok os w p : let '(_, p') := foldl op (w, p) os in prov_ok p p' (foldl tell (told_of p) os).
Proof.
  revert w p. induction os as [|o os IH]; intros w p; [split; [done|done|by left]|]. cbn [foldl]. pose proof (op_ok w p o) as H. destruct (op (w, p) o) as [w1 p1].
  specialize (IH w1 p1). destruct (foldl op (w1, p1) os) as [w2 p2]. destruct H as [H1 H2 H3], IH as [K1 K2 K3]. split; [congruence|by rewrite K2, H2|].
  intros d Hd. destruct (K3 d Hd) as [Hd1|]; [by apply H3|by right].
Qed.

(** Whatever is set, published and started, and however often, a GetNodeInfo response has the health, the mode and the vendor code that were
    set last, the first non-empty name and the first versions other than the default ones, the status is published with a period between the bounds
    of the protocol, and each published status has the seconds since the creation of the provider as its uptime. *)
Theorem node_status_is_as_told w0 os :
  let '(w, p) := foldl op (w0, Provider_make w0) os in
  told_of p = foldl tell (mkTold HEALTH_OK MODE_INITIALIZATION 0 [] sw_default hw_default) os /\
  (forall d, sp_timer p = Some d -> min_period <= d <= max_period) /\
  (forall w, let now := @node_getMonotonicTime W status_node w in let t0 := @node_getMonotonicTime W status_node w0 in
     0 <= t0 <= now -> now < 2 ^ 62 -> (now - t0) / 1000000 < 2 ^ 32 ->
     let '(_, _, p') := publish w p in p_uptime_sec (ni_status (handleGetNodeInfoRequest p')) = (now - t0) / 1000000).
Proof.
  pose proof (ops_ok os w0 (Provider_make w0)) as H. destruct (foldl op _ os) as [w p]. destruct H as [H1 H2 H3]. split_and!; [exact H2| |].
  - intros d Hd. destruct (H3 d Hd) as [Hx|]; [discriminate Hx|done].
  - intros w' now t0 Ht Hn Hu. unfold publish. cbv zeta. rewrite H1. cbn [creation_timestamp_ Provider_make]. fold now t0.
    assert (E : MTime.minus now t0 = now - t0).
    { unfold MTime.minus, Duration.fromUSec. destruct (Z.ltb_spec t0 now).
      - rewrite wrap_small by (unfold in_width; lia). apply swrap_small; lia.
      - replace t0 with now by lia. rewrite Z.sub_diag. done. }
    rewrite E. destruct (@broadcast _ _ _ _ _ _ _ _) as [[res w''] pub]. cbn [p_uptime_sec ni_status node_info_ set_pub set_status set_info handleGetNodeInfoRequest].
    unfold Duration.toMSec. rewrite !Z.quot_div_nonneg, Zdiv_Zdiv by (try apply Z.quot_pos; lia). apply wrap_small. split; [apply Z.div_pos; lia|exact Hu].
Qed.
End provider.
End NodeStatusProvider.

(** ** Panic *)

Module Panic.

(** [PanicBroadcaster]; [pb_timer] is the period of the timer while it runs. *)
Record Broadcaster := mkBroadcaster { pb_pub : GenericPublisher; reason_text : list Z; pb_timer : option Z; pb_failures : Z }.
Definition Broadcaster_make : Broadcaster :=
  mkBroadcaster (GenericPublisher_make Publisher_getDefaultTxTimeout getDefaultMaxTransferInterval) [] None 0.

(** The loop of [panic()] over the characters of a C string; [capacity] is the one of the field. *)
Fixpoint copy_reason (capacity : nat) (text p : list Z) : list Z :=
  match p with
  | [] => text
  | c :: p => if c =? 0 then text else if bool_decide (length text = capacity) then text else copy_reason capacity (text ++ [c]) p
  end.

(** [PanicListener]. *)
Record Listener := mkListener { pl_sub : GenericSubscriber; prev_msg_timestamp_ : Z; pl_callback : option unit; num_subsequent_msgs_ : Z }.
Definition Listener_make : Listener := mkListener GenericSubscriber_make 0 None 0.

Section panic.
Context {W : Type} {node : INode W} (capacity : nat) (encode : list Z -> Z * list Z) (MAX_INTERVAL_MS MIN_MESSAGES : Z).

Definition publishOnce (w : W) (b : Broadcaster) : W * Broadcaster :=
  let '(res, w, pub) := broadcast DataTypeKindMessage encode w (pb_pub b) (reason_text b) None in
  (w, mkBroadcaster pub (reason_text b) (pb_timer b) (if res <? 0 then pb_failures b + 1 else pb_failures b)).

(** [void panic(const char* short_reason_description, MonotonicDuration broadcasting_period, const TransferPriority priority)]. *)
Definition panic (w : W) (b : Broadcaster) (short_reason_description : list Z) (broadcasting_period priority : Z) : W * Broadcaster :=
  let pub := Publisher_setPriority (setTxTimeout (pb_pub b) broadcasting_period) priority in
  let '(w, b) := publishOnce w (mkBroadcaster pub (copy_reason capacity [] short_reason_description) (pb_timer b) (pb_failures b)) in
  (w, mkBroadcaster (pb_pub b) (reason_text b) (Some broadcasting_period) (pb_failures b)).
Definition Broadcaster_handleTimerEvent (w : W) (b : Broadcaster) : W * Broadcaster := publishOnce w b.
Definition dontPanic (b : Broadcaster) : Broadcaster := mkBroadcaster (pb_pub b) [] None (pb_failures b).
Definition isPanicking (b : Broadcaster) : bool := match pb_timer b with Some _ => true | None => false end.

(** [void handleMsg(const ReceivedDataStructure<protocol::Panic>& msg)] of a message received at [ts]: whether the callback is invoked. *)
Definition handleMsg (l : Listener) (ts : Z) : bool * Listener :=
  if MTime.isZero (prev_msg_timestamp_ l) then (false, mkListener (pl_sub l) ts (pl_callback l) 1)
  else
    let diff := MTime.minus ts (prev_msg_timestamp_ l) in
    let num := if MAX_INTERVAL_MS <? Duration.toMSec diff then 1 else u8 (num_subsequent_msgs_ l + 1) in
    if MIN_MESSAGES <=? num then (true, mkListener (pl_sub l) ts (pl_callback l) (u8 MIN_MESSAGES))
    else (false, mkListener (pl_sub l) ts (pl_callback l) num).

(** [void stop()] and [int start(const Callback& callback)]; [valid] is whether the callback can be called. *)
Definition Listener_stop (w : W) (l : Listener) : W * Listener :=
  let '(w, s) := Subscriber_stop w (pl_sub l) in (w, mkListener s 0 (pl_callback l) 0).
Definition Listener_start (w : W) (l : Listener) (valid : bool) : Z * W * Listener :=
  let '(w, l) := Listener_stop w l in
  if negb valid then (- ErrInvalidParam, w, l)
  else
    let '(res, w, s, cb) := Subscriber_start w (pl_sub l) (Some tt) (Some tt) in
    (res, w, mkListener s (prev_msg_timestamp_ l) (Some tt) (num_subsequent_msgs_ l)).

(** *** When the application is told *)

(** The messages received, oldest first. *)
Fixpoint receive (l : Listener) (ts : list Z) : list bool :=
  match ts with [] => [] | t :: ts => let '(b, l) := handleMsg l t in b :: receive l ts end.

(** How many messages, up to the last one, came each within the interval after the one before; newest first. *)
Fixpoint streak (h : list Z) : Z :=
  match h with
  | [] => 0
  | t :: h => match h with t' :: _ => if MAX_INTERVAL_MS <? (t - t') / 1000 then 1 else 1 + streak h | [] => 1 end
  end.

Fixpoint expected (h ts : list Z) : list bool :=
  match ts with [] => [] | t :: ts => (MIN_MESSAGES <=? streak (t :: h)) :: expected (t :: h) ts end.

Context (Hmin : 2 <= MIN_MESSAGES <= 254).

(** The listener after the messages [h]. *)
Definition heard (h : list Z) (l : Listener) : Prop :=
  prev_msg_timestamp_ l = default 0 (head h) /\ num_subsequent_msgs_ l = Z.min MIN_MESSAGES (streak h).

Lemma streak_pos t h : 1 <= streak (t :: h).
Proof. revert t. induction h as [|t' h IH]; intros t; cbn; [lia|]. destruct (_ <? _); [lia|]. specialize (IH t'). cbn in IH. lia. Qed.

Lemma minus_diff t t' : 0 <= t' <= t -> t < 2 ^ 62 -> Duration.toMSec (MTime.minus t t') = (t - t') / 1000.
Proof.
  intros Ht Hb. assert (E : MTime.minus t t' = t - t').
  { unfold MTime.minus, Duration.fromUSec. destruct (Z.ltb_spec t' t).
    - rewrite wrap_small by (unfold in_width; lia). apply swrap_small; lia.
    - replace t' with t by lia. by rewrite Z.sub_diag. }
  rewrite E. unfold Duration.toMSec. apply Z.quot_div_nonneg; lia.
Qed.

Lemma handleMsg_ok h l t : heard h l -> 0 < t < 2 ^ 62 -> (forall t', head h = Some t' -> 0 < t' <= t) ->
  let '(b, l') := handleMsg l t in b = (MIN_MESSAGES <=? streak (t :: h)) /\ heard (t :: h) l'.
Proof.
  intros [Hp Hn] Ht Hh. unfold handleMsg, heard, MTime.isZero. rewrite Hp, Hn. destruct h as [|t' h].
  - cbn. destruct (Z.leb_spec MIN_MESSAGES 1); [lia|]. split; [done|]. split; [done|]. cbn. lia.
  - specialize (Hh t' eq_refl). change (default 0 (head (t' :: h))) with t'. rewrite (proj2 (Z.eqb_neq t' 0)) by lia.
    cbv zeta. rewrite minus_diff by lia. change (streak (t :: t' :: h)) with (if MAX_INTERVAL_MS <? (t - t') / 1000 then 1 else 1 + streak (t' :: h)).
    pose proof (streak_pos t' h) as Hs. set (k := streak (t' :: h)) in *. destruct (MAX_INTERVAL_MS <? (t - t') / 1000).
    + destruct (Z.leb_spec MIN_MESSAGES 1); [lia|]. split; [done|]. split; [done|]. cbn. lia.
    + rewrite (wrap_small 8 (Z.min MIN_MESSAGES k + 1)) by (unfold in_width; lia).
      destruct (Z.leb_spec MIN_MESSAGES (Z.min MIN_MESSAGES k + 1)), (Z.leb_spec MIN_MESSAGES (1 + k)); try lia; (split; [done|]); (split; [done|]); cbn [num_subsequent_msgs_].
      * rewrite wrap_small by (unfold in_width; lia). lia.
      * lia.
Qed.

(** C26: after [start], whatever the listener heard before, and until it is stopped, the listener calls the application for exactly those messages that end a streak of at least as many messages as the
    protocol asks for (between 2 and 254), each received within the maximum interval, counted in whole milliseconds, after the one before, and goes on to call it as long as the streak does. (The time stamps
    are not zero and do not decrease.) *)
Theorem panic_is_detected (l : Listener) (w : W) (ts : list Z) :
  StronglySorted Z.le ts -> Forall (fun t => 0 < t < 2 ^ 62) ts -> receive (Listener_start w l true).2 ts = expected [] ts.
Proof.
  intros Hs Hr. assert (Hl : heard [] (Listener_start w l true).2).
  { unfold Listener_start, Listener_stop, heard. destruct (Subscriber_stop w (pl_sub l)) as [w1 sub]. cbn [negb pl_sub]. destruct (Subscriber_start w1 sub _ _) as [[[res w2] sub'] cb]. cbn. lia. }
  assert (Hh : forall t', head (@nil Z) = Some t' -> Forall (fun t => 0 < t' <= t) ts) by (intros t' Hx; discriminate Hx).
  revert Hl Hh. generalize ((Listener_start w l true).2). generalize (@nil Z). induction Hs as [|t ts Hs IH Ht]; intros h l' Hl Hh; [done|].
  apply Forall_cons in Hr as [Hrt Hr]. cbn [receive expected]. pose proof (handleMsg_ok h l' t Hl Hrt) as Hm.
  destruct (handleMsg l' t) as [b l1]. destruct Hm as [-> Hl1]; [intros t' Ex; specialize (Hh t' Ex); by apply Forall_cons in Hh as [? _]|].
  f_equal. apply IH; [done|done|]. cbn. intros t' [= <-]. eapply Forall_impl; [exact Ht|]. cbn. lia.
Qed.

(** Messages at a steady rate that is fast enough are heard from the [MIN_MESSAGES]-th on. *)
Lemma steady_panic (n : nat) (t0 period : Z) :
  0 <= period -> period / 1000 <= MAX_INTERVAL_MS -> streak (rev ((fun i => t0 + period * Z.of_nat i) <$> seq 0 (S n))) = Z.of_nat (S n).
Proof.
  intros Hp Hm. induction n as [|n IH]; [done|]. rewrite seq_S, fmap_app, rev_app_distr. cbn [plus app fmap list_fmap rev].
  rewrite seq_S, fmap_app, rev_app_distr in *. cbn [plus app fmap list_fmap rev] in *.
  set (h := rev ((fun i => t0 + period * Z.of_nat i) <$> seq 0 n)) in *. change (streak (?a :: ?b :: h)) with (if MAX_INTERVAL_MS <? (a - b) / 1000 then 1 else 1 + streak (b :: h)).
  replace (t0 + period * Z.of_nat (S n) - (t0 + period * Z.of_nat n)) with period by lia. destruct (Z.ltb_spec MAX_INTERVAL_MS (period / 1000)); [lia|]. rewrite IH. lia.
Qed.
End panic.

Lemma copy_reason_ok capacity text p : (length text <= capacity)%nat -> exists q, copy_reason capacity text p = text ++ q /\ q `prefix_of` p /\ (length (text ++ q) <= capacity)%nat.
Proof.
  revert text. induction p as [|c p IH]; intros text Hl; cbn [copy_reason].
  - exists []. rewrite app_nil_r. split_and!; [done|done|done].
  - destruct (c =? 0); [exists []; rewrite app_nil_r; split_and!; [done|apply prefix_nil|done]|].
    case_bool_decide as Hc; [exists []; rewrite app_nil_r; split_and!; [done|apply prefix_nil|done]|].
    destruct (IH (text ++ [c])) as (q & E & Hq & Hlen); [rewrite length_app; cbn; lia|]. exists (c :: q). rewrite E, <-app_assoc. split_and!; [done|by apply prefix_cons|].
    by rewrite <-app_assoc in Hlen.
Qed.

End Panic.

Module SimPanic.
Import SimNode Panic.

Lemma panic_is_detected_witness :
  StronglySorted Z.le [1000; 101000; 202000; 990000; 991000] /\
  receive 500 3 (Listener_start sim_start (mkListener GenericSubscriber_make 900 None 2) true).2 [1000; 101000; 202000; 990000; 991000] = [false; false; true; false; false].
Proof.
  assert (Hs : StronglySorted Z.le [1000; 101000; 202000; 990000; 991000]) by (repeat constructor; discriminate).
  assert (Hr : Forall (fun t => 0 < t < 2 ^ 62) [1000; 101000; 202000; 990000; 991000]) by (repeat constructor).
  assert (Hm : 2 <= 3 <= 254) by (split; discriminate).
  split; [exact Hs|]. rewrite (panic_is_detected 500 3 Hm (mkListener GenericSubscriber_make 900 None 2) sim_start _ Hs Hr).
  reflexivity.
Defined.
End SimPanic.

(** ** Restart requests *)

Module Restart.
Section restart.
(** [handler_] is the handler of the application, which takes the requester and decides. *)
Context (MAGIC_NUMBER : Z).

(** [void handleRestartNode(const ReceivedDataStructure<protocol::RestartNode::Request>& request, protocol::RestartNode::Response& response) const]:
    [response.ok], and the nodes the handler was called for. *)
Definition handleRestartNode (handler_ : option (Z -> bool)) (src magic_number : Z) : bool * list Z :=
  if magic_number =? MAGIC_NUMBER then
    match handler_ with Some handleRestartRequest => (handleRestartRequest src, [src]) | None => (false, []) end
  else (false, []).

(** A restart is confirmed only if it was asked for with the magic number and the handler agreed. *)
Lemma restart_needs_consent handler src magic calls : handleRestartNode handler src magic = (true, calls) -> magic = MAGIC_NUMBER /\ calls = [src] /\ exists f, handler = Some f /\ f src = true.
Proof. unfold handleRestartNode. destruct (Z.eqb_spec magic MAGIC_NUMBER); [|done]. destruct handler as [f|]; [|done]. intros [= E <-]. eauto. Qed.
End restart.

Definition RestartRequestServer_start {W} {node : INode W} (w : W) (srv_ : ServiceServer) : Z * W * ServiceServer := Server_start w srv_ true.
End Restart.

(** ** Logging *)

Module Logging.
Record LogMessage := mkLog { lm_level : Z; lm_source : list Z; lm_text : list Z }.

(** The sink of the application: its level and what it has got. *)
Record Logger := mkLogger { logmsg_pub_ : GenericPublisher; msg_buf_ : LogMessage; level_ : Z; external_sink_ : option (Z * list LogMessage) }.
Definition DefaultTxTimeoutMs : Z := 2000.

Section logger.
Context {W : Type} {node : INode W} (encode : LogMessage -> Z * list Z) (BitLen LEVEL_ERROR : Z).

Definition getLogLevelAboveAll : Z := Z.shiftl 1 BitLen - 1.
Definition getExternalSinkLevel (l : Logger) : Z := match external_sink_ l with None => getLogLevelAboveAll | Some (level, _) => level end.

Definition Logger_make : Logger :=
  mkLogger (setTxTimeout (GenericPublisher_make Publisher_getDefaultTxTimeout getDefaultMaxTransferInterval) (Duration.fromMSec DefaultTxTimeoutMs))
    (mkLog 0 [] []) LEVEL_ERROR None.
Definition Logger_init (w : W) (l : Logger) (priority : Z) : Z * Logger :=
  let '(res, p) := Publisher_init DataTypeKindMessage w (logmsg_pub_ l) priority in
  ((if res <? 0 then res else 0), mkLogger p (msg_buf_ l) (level_ l) (external_sink_ l)).

(** [int log(const protocol::debug::LogMessage& message)]; [None] is a call through the null pointer. *)
Definition log (w : W) (l : Logger) (message : LogMessage) : option (Z * W * Logger) :=
  l ← (if getExternalSinkLevel l <=? lm_level message then
         '(level, got) ← external_sink_ l;
         Some (mkLogger (logmsg_pub_ l) (msg_buf_ l) (level_ l) (Some (level, got ++ [message])))
       else Some l);
  if level_ l <=? lm_level message then
    let '(res, w, p) := broadcast DataTypeKindMessage encode w (logmsg_pub_ l) message None in
    Some (res, w, mkLogger p (msg_buf_ l) (level_ l) (external_sink_ l))
  else Some (0, w, l).

(** [int log(LogLevel level, const char* source, const char* text)], in its version without formatting. *)
Definition log_text (w : W) (l : Logger) (level : Z) (source text : list Z) : option (Z * W * Logger) :=
  if (level_ l <=? level) || (getExternalSinkLevel l <=? level) then
    let m := mkLog level source text in
    log w (mkLogger (logmsg_pub_ l) m (level_ l) (external_sink_ l)) m
  else Some (0, w, l).

Definition setLevel (l : Logger) (level : Z) : Logger := mkLogger (logmsg_pub_ l) (msg_buf_ l) level (external_sink_ l).
Definition setExternalSink (l : Logger) (sink : option (Z * list LogMessage)) : Logger := mkLogger (logmsg_pub_ l) (msg_buf_ l) (level_ l) sink.

(** Below the highest level, or with a sink, every message goes to the sinks whose level it has, and nothing else happens. *)
Lemma log_goes_to_its_sinks w l m :
  lm_level m < getLogLevelAboveAll \/ is_Some (external_sink_ l) ->
  exists res w' l', log w l m = Some (res, w', l') /\ level_ l' = level_ l /\ (lm_level m < level_ l -> res = 0 /\ w' = w) /\
    external_sink_ l' = (fun '(level, got) => (level, if level <=? lm_level m then got ++ [m] else got)) <$> external_sink_ l.
Proof.
  intros Hs. unfold log, getExternalSinkLevel. destruct (external_sink_ l) as [[level got]|] eqn:Es.
  - destruct (level <=? lm_level m) eqn:El; cbn [mbind option_bind level_ logmsg_pub_];
      (destruct (Z.leb_spec (level_ l) (lm_level m)); [destruct (broadcast _ _ _ _ _ _) as [[res w'] p]|]; eexists _, _, _; (split; [done|]); split_and!; try done; try lia; cbn; by rewrite ?Es, ?El).
  - destruct Hs as [Hs|[x Hx]]; [|done]. destruct (Z.leb_spec getLogLevelAboveAll (lm_level m)); [lia|]. cbn [mbind option_bind].
    destruct (Z.leb_spec (level_ l) (lm_level m)); [destruct (broadcast _ _ _ _ _ _) as [[res w'] p]|]; eexists _, _, _; (split; [done|]); split_and!; try done; try lia.
Qed.

(** The level that is meant to be above all others is itself a value of the field. *)
Lemma highest_level_without_sink w l m : external_sink_ l = None -> lm_level m = getLogLevelAboveAll -> log w l m = None.
Proof. intros Es Em. unfold log, getExternalSinkLevel. rewrite Es, Em, Z.leb_refl. done. Qed.
End logger.
End Logging.
