(* ===== verification/DeviceServices.v ===== *)
(** * DeviceServices: parameters, files, data types and statistics of a node

    Models [ParamServer] ([libuavcan/include/uavcan/protocol/param_server.hpp]), [BasicFileServer] and [FileServer]
    ([file_server.hpp]), [DataTypeInfoProvider] ([data_type_info_provider.hpp]) and [TransportStatsProvider]
    ([transport_stats_provider.hpp]). What the application provides is a class; its documented behaviour is stated as laws. *)

From stdpp Require Import gmap list strings.
From S2P Require Import Prelude Transfer TransferListener CanIO Services DataTypeRegistry.
Local Open Scope Z_scope.

(** ** Parameters *)

Module Params.
Abbreviation Name := (list Z).

(** [IParamManager]; [V] and [N] are the types of values and of numeric values. A method that does nothing leaves its output
    arguments as they are. *)
Class IParamManager (P V N : Type) := {
  getParamNameByIndex : P -> Z -> option Name;
  assignParamValue : P -> Name -> V -> P;
  readParamValue : P -> Name -> option V;
  readParamDefaultMaxMin : P -> Name -> V * N * N -> V * N * N;
  saveAllParams : P -> Z * P;
  eraseAllParams : P -> Z * P
}.

Record GetSetRequest (V : Type) := mkGetSet { gs_index : Z; gs_value : V; gs_name : Name }.
Record GetSetResponse (V N : Type) := mkGetSetResponse { rs_value : V; rs_default : V; rs_max : N; rs_min : N; rs_name : Name }.
Arguments mkGetSet {_}.
Arguments gs_index {_}.
Arguments gs_value {_}.
Arguments gs_name {_}.
Arguments mkGetSetResponse {_ _}.
Arguments rs_value {_ _}.
Arguments rs_default {_ _}.
Arguments rs_max {_ _}.
Arguments rs_min {_ _}.
Arguments rs_name {_ _}.

Section server.
Context {P V N : Type} {manager : IParamManager P V N} (empty_value : V) (is_empty : V -> bool) (empty_number : N) (OPCODE_SAVE OPCODE_ERASE : Z).

Definition Response_default : GetSetResponse V N := mkGetSetResponse empty_value empty_value empty_number empty_number [].

(** [void handleGetSet(const protocol::param::GetSet::Request& in, protocol::param::GetSet::Response& out)]. *)
Definition handleGetSet (p : P) (inn : GetSetRequest V) : P * GetSetResponse V N :=
  let name := match gs_name inn with [] => default [] (getParamNameByIndex p (gs_index inn)) | _ => gs_name inn end in
  match name with
  | [] => (p, Response_default)
  | _ =>
      let p := if is_empty (gs_value inn) then p else assignParamValue p name (gs_value inn) in
      let value := default empty_value (readParamValue p name) in
      if negb (is_empty value) then
        let '(d, mx, mn) := readParamDefaultMaxMin p name (empty_value, empty_number, empty_number) in (p, mkGetSetResponse value d mx mn name)
      else (p, mkGetSetResponse value empty_value empty_number empty_number [])
  end.

(** [void handleExecuteOpcode(const protocol::param::ExecuteOpcode::Request& in, protocol::param::ExecuteOpcode::Response& out)]: [out.ok]. *)
Definition handleExecuteOpcode (p : P) (opcode : Z) : P * bool :=
  if opcode =? OPCODE_SAVE then let '(res, p) := saveAllParams p in (p, 0 <=? res)
  else if opcode =? OPCODE_ERASE then let '(res, p) := eraseAllParams p in (p, 0 <=? res)
  else (p, false).

(** What the interface asks of the application: parameters with a name, kept apart; unknown names are ignored; values are not empty. *)
Class ParamLaws : Prop := {
  pl_unknown p n v : readParamValue p n = None -> assignParamValue p n v = p;
  pl_known p n v : is_Some (readParamValue p n) -> is_Some (readParamValue (assignParamValue p n v) n);
  pl_frame p n n' v : n <> n' -> readParamValue (assignParamValue p n v) n' = readParamValue p n';
  pl_value p n v : readParamValue p n = Some v -> is_empty v = false;
  pl_empty : is_empty empty_value = true
}.

(** A GetSet request that names a parameter of the node is answered with its name and its value after the assignment, if there was one, and leaves
    all other parameters alone; a request for something else is answered with an empty name and changes nothing; a request without a
    value changes nothing in any case. *)
Theorem param_get_set {laws : ParamLaws} p req :
  let name := match gs_name req with [] => default [] (getParamNameByIndex p (gs_index req)) | _ => gs_name req end in
  let '(p', out) := handleGetSet p req in
  (is_empty (gs_value req) = true -> p' = p) /\
  (forall n, n <> name -> readParamValue p' n = readParamValue p n) /\
  (if bool_decide (name <> [] /\ is_Some (readParamValue p name))
   then rs_name out = name /\ readParamValue p' name = Some (rs_value out) /\
        (is_empty (gs_value req) = false -> p' = assignParamValue p name (gs_value req))
   else rs_name out = [] /\ p' = p).
Proof.
  cbv zeta. unfold handleGetSet. set (name := match gs_name req with [] => _ | _ => _ end). destruct name as [|c n] eqn:En.
  { split_and!; done. }
  cbv beta iota zeta. clear En name. set (name := c :: n). assert (Hne : name <> []) by done. set (p1 := if is_empty (gs_value req) then p else _).
  assert (Hf : forall n', n' <> name -> readParamValue p1 n' = readParamValue p n') by (intros n' Hn; unfold p1; destruct (is_empty _); [done|by apply pl_frame]).
  assert (Hs : is_empty (gs_value req) = true -> p1 = p) by (unfold p1; by intros ->).
  case_bool_decide as Hk.
  - destruct Hk as [_ Hk]. assert (Hk1 : is_Some (readParamValue p1 name)) by (unfold p1; destruct (is_empty _); [done|by apply pl_known]).
    destruct Hk1 as [v Hv]. rewrite Hv. cbn [from_option]. unfold id. rewrite (pl_value p1 name v Hv). cbn [negb].
    destruct (readParamDefaultMaxMin _ _ _) as [[d mx] mn]. split_and!; [done|done|done|done|]. intros Hx. unfold p1. by rewrite Hx.
  - assert (Hu : readParamValue p name = None) by (apply eq_None_not_Some; tauto).
    assert (E1 : p1 = p) by (unfold p1; destruct (is_empty _); [done|by apply pl_unknown]). rewrite E1, Hu. cbn [from_option]. rewrite pl_empty. done.
Qed.
End server.

(** [int start(IParamManager* manager)]; the two services have data types of their own. *)
Definition ParamServer_start {W} (get_set_node save_erase_node : INode W) (w : W) (get_set_srv_ save_erase_srv_ : ServiceServer) (manager : bool)
    : Z * W * ServiceServer * ServiceServer :=
  if negb manager then (- ErrInvalidParam, w, get_set_srv_, save_erase_srv_)
  else
    let '(res, w, s1) := @Server_start W get_set_node w get_set_srv_ true in
    if res <? 0 then (res, w, s1, save_erase_srv_)
    else
      let '(res, w, s2) := @Server_start W save_erase_node w save_erase_srv_ true in
      if res <? 0 then
        let '(w, sub) := @Subscriber_stop W get_set_node w (ss_subscriber s1) in
        (res, w, mkServer sub (ss_publisher s1) (ss_callback_set s1) (response_failure_count_ s1), s2)
      else (res, w, s1, s2).
End Params.

(** A node with integer parameters, clipped to a range, in a list. *)
Module SimParams.
Import Params.
#[export] Instance sim_manager : IParamManager (list (list Z * Z)) (option Z) (option Z) := {
  getParamNameByIndex p i := fst <$> p !! Z.to_nat i;
  assignParamValue p n v := match v with None => p | Some v => (fun '(n', v') => if decide (n' = n) then (n', Z.max 0 (Z.min 100 v)) else (n', v')) <$> p end;
  readParamValue p n := Some ∘ snd <$> List.find (fun e => bool_decide (e.1 = n)) p;
  readParamDefaultMaxMin p n x := (Some 0, Some 100, Some 0);
  saveAllParams p := (0, p);
  eraseAllParams p := (0, p)
}.
Definition no_value (v : option Z) : bool := match v with None => true | Some _ => false end.

Lemma find_map (p : list (list Z * Z)) n g n' :
  List.find (fun e => bool_decide (e.1 = n')) ((fun '(m, v) => if decide (m = n) then (m, g v) else (m, v)) <$> p) =
  (fun e => if decide (n' = n) then (e.1, g e.2) else e) <$> List.find (fun e => bool_decide (e.1 = n')) p.
Proof.
  induction p as [|[m v] p IH]; [done|]. cbn [fmap list_fmap List.find]. destruct (decide (m = n)) as [->|Hm]; cbn [fst].
  - case_bool_decide as Hn; [subst n'; cbn; by rewrite decide_True|apply IH].
  - case_bool_decide as Hn; [subst n'; cbn; by rewrite decide_False|apply IH].
Qed.

#[export] Instance sim_laws : ParamLaws None no_value.
Proof.
  split.
  - intros p n [v|] Hn; [|done]. cbn in *. rewrite <-(list_fmap_id p) at 2. apply list_fmap_ext. intros i [m x] Hi. case_decide as Hm; [subst m|done].
    destruct (List.find (fun e => bool_decide (e.1 = n)) p) eqn:Ef; [done|]. pose proof (find_none _ _ Ef (n, x)) as Hx. cbn in Hx. rewrite bool_decide_true in Hx by done.
    discriminate Hx. apply list_elem_of_In. by eapply list_elem_of_lookup_2.
  - intros p n [v|] Hn; [|done]. cbn in *. rewrite (find_map p n (fun _ => Z.max 0 (Z.min 100 v)) n). by destruct (List.find _ p).
  - intros p n n' [v|] Hn; [|done]. cbn. rewrite (find_map p n (fun _ => Z.max 0 (Z.min 100 v)) n'). destruct (List.find _ p); cbn; [by rewrite decide_False by congruence|done].
  - intros p n v. cbn. destruct (List.find _ p); [|done]. cbn. by intros [= <-].
  - done.
Qed.

Lemma param_get_set_witness :
  no_value (Some 500) = false /\
  (handleGetSet None no_value None [([7], 3)] (mkGetSet 0 (Some 500) [7])).1 = [([7], 100)] /\
  (forall n, n <> [7] -> readParamValue (handleGetSet None no_value None [([7], 3)] (mkGetSet 0 (Some 500) [7])).1 n = readParamValue [([7], 3)] n).
Proof.
  pose proof (param_get_set None no_value None [([7], 3)] (mkGetSet 0 (Some 500) [7])) as H. cbv zeta in H.
  split; [reflexivity|]. split; [reflexivity|]. destruct (handleGetSet _ _ _ _ _) as [p' out]. exact (proj1 (proj2 H)).
Defined.
End SimParams.

(** ** Files *)

Module Files.
Abbreviation Path := (list Z).

(** [IFileServerBackend]: error codes with results; [read] is given the buffer and the size. *)
Class IFileServerBackend (B : Type) := {
  getInfo : B -> Path -> Z * Z * Z;
  read : B -> Path -> Z -> list Z -> Z -> Z * list Z * Z;
  write : B -> Path -> Z -> list Z -> Z * B;
  remove : B -> Path -> Z * B;
  getDirectoryEntryInfo : B -> Path -> Z -> Z * Z * Path
}.

Section server.
Context {B : Type} {backend : IFileServerBackend B} (capacity : nat) (ERROR_OK UNKNOWN_ERROR : Z).

(** The handlers of [BasicFileServer] and [FileServer]. *)
Definition handleGetInfo (b : B) (path : Path) : Z * Z * Z := getInfo b path.
Definition handleRead (b : B) (path : Path) (offset : Z) : Z * list Z :=
  let '(error, data, inout_size) := read b path offset (replicate capacity 0) (Z.of_nat capacity) in
  let inout_size := if error =? ERROR_OK then inout_size else 0 in
  if Z.of_nat capacity <? inout_size then (UNKNOWN_ERROR, data) else (error, take (Z.to_nat inout_size) data).
Definition handleWrite (b : B) (path : Path) (offset : Z) (data : list Z) : Z * B := write b path offset data.
Definition handleDelete (b : B) (path : Path) : Z * B := remove b path.
Definition handleGetDirectoryEntryInfo (b : B) (directory_path : Path) (entry_index : Z) : Z * Z * Path := getDirectoryEntryInfo b directory_path entry_index.

(** What the interface asks of [read]: the given amount of bytes, unless the end of the file is reached. *)
Class FileLaws (file : B -> Path -> option (list Z)) : Prop := {
  fl_read b path offset f buffer : file b path = Some f -> 0 <= offset -> length buffer = capacity ->
    exists data, read b path offset buffer (Z.of_nat capacity) = (ERROR_OK, data, Z.of_nat (length (take capacity (drop (Z.to_nat offset) f)))) /\
      take (length (take capacity (drop (Z.to_nat offset) f))) data = take capacity (drop (Z.to_nat offset) f)
}.

(** A client that reads until a response is not full. *)
Fixpoint read_all (fuel : nat) (b : B) (path : Path) (offset : Z) : option (list Z) :=
  match fuel with
  | O => None
  | S fuel =>
      let '(error, data) := handleRead b path offset in
      if negb (error =? ERROR_OK) then None
      else if bool_decide (length data < capacity)%nat then Some data
      else rest ← read_all fuel b path (offset + Z.of_nat (length data)); Some (data ++ rest)
  end.

Lemma handleRead_ok file {laws : FileLaws file} b path offset f :
  file b path = Some f -> 0 <= offset -> handleRead b path offset = (ERROR_OK, take capacity (drop (Z.to_nat offset) f)).
Proof.
  intros Hf Ho. unfold handleRead. destruct (fl_read b path offset f (replicate capacity 0) Hf Ho) as (data & E & Hd); [by rewrite length_replicate|].
  rewrite E, Z.eqb_refl. destruct (Z.ltb_spec (Z.of_nat capacity) (Z.of_nat (length (take capacity (drop (Z.to_nat offset) f))))) as [Hlt|_].
  - rewrite length_take in Hlt. lia.
  - by rewrite Nat2Z.id, Hd.
Qed.

Lemma read_all_from file {laws : FileLaws file} b path f fuel (k : nat) :
  (0 < capacity)%nat -> file b path = Some f -> (length (drop k f) < fuel * capacity)%nat -> read_all fuel b path (Z.of_nat k) = Some (drop k f).
Proof.
  intros Hc Hf. revert k. induction fuel as [|fuel IH]; intros k Hl; [lia|]. cbn [read_all]. rewrite (handleRead_ok file b path (Z.of_nat k) f Hf) by lia.
  rewrite Z.eqb_refl, Nat2Z.id. cbn [negb]. set (g := drop k f) in *. case_bool_decide as Hlt.
  - rewrite take_ge; [done|]. rewrite length_take in Hlt. lia.
  - rewrite length_take in *. replace (Z.of_nat k + Z.of_nat (capacity `min` length g)) with (Z.of_nat (k + capacity)) by lia. rewrite IH.
    + cbn. f_equal. rewrite <-drop_drop. fold g. apply take_drop.
    + rewrite <-drop_drop. fold g. rewrite length_drop. lia.
Qed.

(** If the application reads its files as the interface asks, a client that asks for one block after another until a block is not full
    gets the whole file, for every length of the file, with no more requests than blocks and one. *)
Theorem file_is_read_whole file {laws : FileLaws file} b path f :
  (0 < capacity)%nat -> file b path = Some f -> read_all (S (length f / capacity)) b path 0 = Some f.
Proof.
  intros Hc Hf. apply (read_all_from file b path f _ 0 Hc Hf). rewrite drop_0. pose proof (Nat.div_mod (length f) capacity). pose proof (Nat.mod_upper_bound (length f) capacity). lia.
Qed.

(** Whatever the application does, a response has no more bytes than fit. *)
Lemma read_fits b path offset : length (read b path offset (replicate capacity 0) (Z.of_nat capacity)).1.2 = capacity ->
  (length (handleRead b path offset).2 <= capacity)%nat.
Proof.
  intros Hl. unfold handleRead. destruct (read _ _ _ _ _) as [[error data] size]. cbn in Hl. cbv zeta. destruct (_ <? _); cbn; [lia|]. rewrite length_take. lia.
Qed.
End server.

(** [int BasicFileServer::start()] and [int FileServer::start()]: the services one after another, until one fails. *)
Fixpoint start_all {W} (w : W) (servers : list (INode W * ServiceServer)) : Z * W * list ServiceServer :=
  match servers with
  | [] => (0, w, [])
  | (node, s) :: servers =>
      let '(res, w, s) := @Server_start W node w s true in
      if res <? 0 then (res, w, s :: (snd <$> servers))
      else let '(res, w, l) := start_all w servers in (res, w, s :: l)
  end.
End Files.

Module SimFiles.
Import Files.
(** One file in memory. *)
#[export] Instance sim_backend : IFileServerBackend (list Z) := {
  getInfo b p := (0, Z.of_nat (length b), 1);
  read b p o buffer size := let d := take (Z.to_nat size) (drop (Z.to_nat o) b) in (0, d ++ drop (length d) buffer, Z.of_nat (length d));
  write b p o d := (1, b);
  remove b p := (1, b);
  getDirectoryEntryInfo b p i := (1, 0, [])
}.
#[export] Instance sim_file_laws capacity : FileLaws capacity 0 (fun b _ => Some b).
Proof.
  split. intros b p o f buffer [= ->] Ho Hl. cbn. rewrite Nat2Z.id. eexists. split; [done|]. rewrite take_app_le by done. by rewrite take_ge.
Qed.

Lemma file_is_read_whole_witness : (0 < 3)%nat /\ read_all 3 0 9 3 [1; 2; 3; 4; 5; 6; 7] [47] 0 = Some [1; 2; 3; 4; 5; 6; 7].
Proof.
  split; [repeat constructor|].
  apply (file_is_read_whole 3 0 9 (fun b _ => Some b) [1; 2; 3; 4; 5; 6; 7] [47] [1; 2; 3; 4; 5; 6; 7]); [repeat constructor|reflexivity].
Defined.
End SimFiles.

(** ** Data types *)

Module TypeInfo.
Record InfoRequest := mkInfoRequest { ir_id : Z; ir_kind : Z; ir_name : string }.
Record InfoResponse := mkInfoResponse { is_signature : Z; is_id : Z; is_kind : Z; is_flags : Z; is_name : string }.

(** The values of [DataTypeKind]. *)
Definition kind_value (k : DataTypeKind) : Z := match k with DataTypeKindService => 0 | DataTypeKindMessage => 1 | NumDataTypeKinds => 2 end.
Definition kind_of_value (v : Z) : DataTypeKind := if v =? 0 then DataTypeKindService else if v =? 1 then DataTypeKindMessage else NumDataTypeKinds.

Section provider.
(** What the dispatcher says of a data type ID. *)
Context (hasServer hasSubscriber hasPublisher : Z -> bool) (FLAG_KNOWN FLAG_SUBSCRIBED FLAG_PUBLISHING FLAG_SERVING : Z).

Definition isValidDataTypeKind (k : DataTypeKind) : bool := match k with NumDataTypeKinds => false | _ => true end.

Definition flags_of (kind : DataTypeKind) (id : Z) : Z :=
  match kind with
  | DataTypeKindService => if hasServer id then Z.lor FLAG_KNOWN FLAG_SERVING else FLAG_KNOWN
  | DataTypeKindMessage =>
      let flags := if hasSubscriber id then Z.lor FLAG_KNOWN FLAG_SUBSCRIBED else FLAG_KNOWN in
      if hasPublisher id then Z.lor flags FLAG_PUBLISHING else flags
  | NumDataTypeKinds => FLAG_KNOWN
  end.

(** [void handleGetDataTypeInfoRequest(const protocol::GetDataTypeInfo::Request& request, protocol::GetDataTypeInfo::Response& response)]. *)
Definition handleGetDataTypeInfoRequest (r : Registry) (request : InfoRequest) : InfoResponse :=
  let by_id := bool_decide (ir_name request = EmptyString) in
  let response := if by_id then mkInfoResponse 0 (ir_id request) (ir_kind request) 0 "" else mkInfoResponse 0 0 0 0 (ir_name request) in
  let desc :=
    if by_id then
      let kind := kind_of_value (ir_kind request) in
      if isValidDataTypeKind kind then find_id r kind (ir_id request) else None
    else find_any r (ir_name request) in
  match desc with
  | None => response
  | Some d =>
      let n := nd_descriptor d in
      mkInfoResponse (dt_signature n) (dt_id n) (kind_value (dt_kind n)) (flags_of (dt_kind n) (dt_id n)) (full_name_ d)
  end.

(** A request by name: the response describes the registered type of that name, messages before services, or says nothing. *)
Lemma info_by_name type_info (Hkinds : forall p, ty_kind (type_info p) <> NumDataTypeKinds) r s id kind name :
  sim type_info r s -> name <> EmptyString ->
  handleGetDataTypeInfoRequest r (mkInfoRequest id kind name) =
  match (match spec_names s DataTypeKindMessage !! key name with Some d => Some d | None => spec_names s DataTypeKindService !! key name end) with
  | None => mkInfoResponse 0 0 0 0 name
  | Some d => let n := nd_descriptor d in mkInfoResponse (dt_signature n) (dt_id n) (kind_value (dt_kind n)) (flags_of (dt_kind n) (dt_id n)) (full_name_ d)
  end.
Proof.
  intros [Hr _] Hn. unfold handleGetDataTypeInfoRequest. cbn [ir_name ir_id ir_kind]. rewrite bool_decide_false by done. unfold find_any.
  rewrite !(find_name_ok type_info r (spec_names s)) by done. by destruct (spec_names s DataTypeKindMessage !! key name).
Qed.

(** A request by ID: only a registered type of that kind and ID is reported as known. *)
Lemma info_by_id type_info (Hkinds : forall p, ty_kind (type_info p) <> NumDataTypeKinds) r s id kind :
  sim type_info r s -> kind <> NumDataTypeKinds ->
  let out := handleGetDataTypeInfoRequest r (mkInfoRequest id (kind_value kind) "") in
  (exists n d, spec_names s kind !! n = Some d /\ dt_id (nd_descriptor d) = id /\ is_name out = full_name_ d /\ is_signature out = dt_signature (nd_descriptor d)) \/
  ((forall n d, spec_names s kind !! n = Some d -> dt_id (nd_descriptor d) <> id) /\ is_flags out = 0).
Proof.
  intros [Hr _] Hk. cbv zeta. unfold handleGetDataTypeInfoRequest. cbn [ir_name ir_id ir_kind]. rewrite bool_decide_true by done. cbv zeta.
  assert (Ek : kind_of_value (kind_value kind) = kind) by (by destruct kind). rewrite Ek. replace (isValidDataTypeKind kind) with true by (by destruct kind).
  destruct (find_id r kind id) as [d|] eqn:E.
  - left. apply (find_id_ok type_info r (spec_names s)) in E as (n & Hn & Hid); [|done|done]. by exists n, d.
  - right. split; [|done]. intros n d Hn Hid. assert (Hx : find_id r kind id = Some d) by (apply (find_id_ok type_info r (spec_names s)); eauto). congruence.
Qed.
End provider.
End TypeInfo.

(** ** Statistics *)

Module TransportStats.
Record IfaceStats := mkIfaceStats { st_frames_tx : Z; st_frames_rx : Z; st_errors : Z }.
Record Stats := mkStats { st_transfers_tx : Z; st_transfers_rx : Z; st_transfer_errors : Z; can_iface_stats : list IfaceStats }.

(** [void handleGetTransportStats(const protocol::GetTransportStats::Request&, protocol::GetTransportStats::Response& resp) const]. *)
Definition handleGetTransportStats (perf : TransferPerfCounter) (num_ifaces : nat) (counters : nat -> CanIfacePerfCounters) : Stats :=
  mkStats (transfers_tx_ perf) (transfers_rx_ perf) (errors_ perf)
    ((fun i => mkIfaceStats (perf_frames_tx (counters i)) (perf_frames_rx (counters i)) (perf_errors (counters i))) <$> seq 0 num_ifaces).
End TransportStats.
