(* ===== verification/LpcDriver.v ===== *)
(** * LpcDriver: the CAN driver and the clock for the LPC11C24

    Models [libuavcan_drivers/lpc11c24/driver/src/can.cpp] and [clock.cpp]. The driver works through
    the functions of the on-chip ROM ([LPC_CCAN_API]), which are not part of the sources, and through registers of the CAN controller: what the driver
    gives to them is recorded as a list of commands, and nothing is assumed of their effect. The controller calls back when it likes,
    also late or without reason, with any message object, and may change its control register. The clock reads the registers of the system timer, which are arguments as well; that
    it is monotonic is shown for the readings of a counter that counts down at the core's frequency.
    Critical sections make every function a single step. *)

From S2P Require Import Prelude MonoTime CanFrame Frame CanIO Stm32RxQueue Stm32Can.
Local Open Scope Z_scope.

(** ** The driver *)

Definition NumberOfMessageObjects : Z := 32.
Definition NumberOfTxMessageObjects : Z := 1.
Definition NumberOfRxMessageObjects : Z := NumberOfMessageObjects - NumberOfTxMessageObjects.
Definition TxMessageObjectNumber : Z := 1.
Definition RX_QUEUE_LEN : Z := 8.

(** [CCAN_MSG_OBJ_T] and its mode bits. *)
Record MsgObj := mkMsgObj { mode_id : Z; mo_mask : Z; mo_data : list Z; mo_dlc : Z; msgobj : Z }.
Definition MsgObj_default : MsgObj := mkMsgObj 0 0 (replicate 8 0) 0 0.
Definition CAN_MSGOBJ_EXT : Z := 0x20000000.
Definition CAN_MSGOBJ_RTR : Z := 0x40000000.

Definition CNTL_INIT : Z := 1.
Definition CNTL_SIE : Z := 4.
Definition STAT_BOFF : Z := 128.

Definition IF_CMDMSK_W_WR_RD : Z := Z.shiftl 1 7.
Definition IF_MCTRL_TXRQST : Z := Z.shiftl 1 8.

(** [BitTimingSettings] and [computeBitTimings]. *)
Record BitTimingSettings := mkBitTimings { canclkdiv : Z; canbtr : Z }.
Definition BitTimings_isValid (b : BitTimingSettings) : bool := negb (canbtr b =? 0).
Definition computeBitTimings (clock_rate bitrate : Z) : BitTimingSettings :=
  if clock_rate =? 48000000 then
    if bitrate =? 1000000 then mkBitTimings 0 0x0505
    else if bitrate =? 500000 then mkBitTimings 0 0x1c05
    else if bitrate =? 250000 then mkBitTimings 0 0x1c0b
    else if bitrate =? 125000 then mkBitTimings 0 0x1c17
    else if bitrate =? 100000 then mkBitTimings 0 0x1c1d
    else mkBitTimings 0 0
  else mkBitTimings 0 0.

(** What the driver tells the controller: calls of the ROM functions and writes to the registers of the first interface. *)
Inductive HwCommand :=
| InitCan (timings : BitTimingSettings) (isr_ena : bool)
| ConfigCallbacks
| ConfigRxMsgObj (o : MsgObj)
| CanTransmit (o : MsgObj)
| WriteCMDREQ (value : Z)
| WriteCMDMSK (value : Z)
| ClearMCTRL (bits : Z).

(** The variables of the driver; then what it told the controller, and the control register. *)
Record Lpc := mkLpc {
  error_cnt : Z;
  tx_pending : bool;
  tx_abort_on_error : bool;
  last_irq_utc_timestamp : Z;
  had_activity : bool;
  rx_queue : RxQueue;
  commands : list HwCommand;
  CNTL : Z
}.

Definition set_tx (l : Lpc) (pending abort : bool) (cs : list HwCommand) : Lpc :=
  mkLpc (error_cnt l) pending abort (last_irq_utc_timestamp l) (had_activity l) (rx_queue l) (commands l ++ cs) (CNTL l).
Definition set_activity (l : Lpc) (b : bool) : Lpc :=
  mkLpc (error_cnt l) (tx_pending l) (tx_abort_on_error l) (last_irq_utc_timestamp l) b (rx_queue l) (commands l) (CNTL l).
Definition set_queue (l : Lpc) (q : RxQueue) : Lpc :=
  mkLpc (error_cnt l) (tx_pending l) (tx_abort_on_error l) (last_irq_utc_timestamp l) (had_activity l) q (commands l) (CNTL l).
Definition set_filters (l : Lpc) (cs : list HwCommand) (cntl : Z) : Lpc :=
  mkLpc (error_cnt l) (tx_pending l) (tx_abort_on_error l) (last_irq_utc_timestamp l) (had_activity l) (rx_queue l) (commands l ++ cs) cntl.

(** [RxQueue::push] and [pop]: the ring buffer is the one of the STM32 driver, with a fixed length and without flags. *)
Definition Lpc_push (q : RxQueue) (frame : CanFrame) (utc_usec : Z) : RxQueue := RxQueue_push q frame utc_usec 0.
Definition Lpc_pop (q : RxQueue) (out : CanFrame * Z) : CanFrame * Z * RxQueue :=
  let '(item, q) := RxQueue_pop q (mkRxItem out.2 out.1 0) in (rxi_frame item, rxi_utc_usec item, q).

(** The loop of [CanDriver::detectBitRate]: the first of the bit rates at which the controller sees no error; [hears] is
    whether it reports so while it listens with given timings. *)
Definition BitRatesToTry : list Z := [1000000; 500000; 250000; 125000; 100000].
Fixpoint detect_loop (clock_rate : Z) (hears : BitTimingSettings -> bool) (rates : list Z) : Z :=
  match rates with
  | [] => 0
  | bitrate :: rates =>
      let bit_timings := computeBitTimings clock_rate bitrate in
      if negb (BitTimings_isValid bit_timings) then 0
      else if hears bit_timings then bitrate
      else detect_loop clock_rate hears rates
  end.
Definition detectBitRate (clock_rate : Z) (hears : BitTimingSettings -> bool) : Z := detect_loop clock_rate hears BitRatesToTry.

(** [int16_t configureFilters(const CanFilterConfig* filter_configs, uint16_t num_configs)]. *)
Definition filter_object (configs : list CanFilterConfig) (i : Z) : MsgObj :=
  match configs !! Z.to_nat i with
  | Some f => mkMsgObj (Z.lor (Z.land (filter_id f) MaskExtID) CAN_MSGOBJ_EXT) (Z.land (filter_mask f) MaskExtID) (replicate 8 0) 0 (i + 1 + NumberOfTxMessageObjects)
  | None => mkMsgObj CAN_MSGOBJ_RTR MaskStdID (replicate 8 0) 0 (i + 1 + NumberOfTxMessageObjects)
  end.
Definition configureFilters (l : Lpc) (configs : list CanFilterConfig) : Z * Lpc :=
  let cntl := Z.lor (CNTL l) CNTL_INIT in
  let leave := Z.ldiff cntl CNTL_INIT in
  match configs with
  | [] =>
      let o1 := mkMsgObj 0 0 (replicate 8 0) 0 (NumberOfTxMessageObjects + 1) in
      let o2 := mkMsgObj CAN_MSGOBJ_EXT 0 (replicate 8 0) 0 (NumberOfTxMessageObjects + 2) in
      (0, set_filters l [ConfigRxMsgObj o1; ConfigRxMsgObj o2] leave)
  | _ =>
      if Z.of_nat (length configs) <=? NumberOfRxMessageObjects then
        if existsb (fun f => Z.land (Z.land (filter_id f) (filter_mask f)) FlagEFF =? 0) configs then (-1, set_filters l [] leave)
        else (0, set_filters l ((fun i => ConfigRxMsgObj (filter_object configs i)) <$> seqZ 0 NumberOfRxMessageObjects) leave)
      else (-1, set_filters l [] leave)
  end.

(** [int CanDriver::init(uint32_t bitrate)]; [cntl] is what the ROM function leaves in the control register. The reception queue is not reset. *)
Definition Lpc_init (clock_rate : Z) (l : Lpc) (bitrate cntl : Z) : Z * Lpc :=
  let bit_timings := computeBitTimings clock_rate bitrate in
  if negb (BitTimings_isValid bit_timings) then (-1, l)
  else
    let l := mkLpc 0 false false 0 false (rx_queue l) (commands l ++ [InitCan bit_timings true; ConfigCallbacks]) (Z.lor cntl CNTL_SIE) in
    let '(res, l) := configureFilters l [] in
    ((if res <? 0 then -1 else 0), l).

Definition hasReadyRx (l : Lpc) : bool := 0 <? RxQueue_getLength (rx_queue l).
Definition hasEmptyTx (l : Lpc) : bool := negb (tx_pending l).
Definition hadActivity (l : Lpc) : bool * Lpc := (had_activity l, set_activity l false).
Definition isInBusOffState (stat : Z) : bool := negb (Z.land stat STAT_BOFF =? 0).
Definition getRxQueueOverflowCount (l : Lpc) : Z := RxQueue_getOverflowCount (rx_queue l).
Definition getNumFilters : Z := NumberOfRxMessageObjects.
Definition getIface {A} (driver : A) (iface_index : Z) : option A := if iface_index =? 0 then Some driver else None.
Definition getNumIfaces : Z := 1.
Definition getErrorCount (l : Lpc) : Z := error_cnt l + RxQueue_getOverflowCount (rx_queue l).

(** The conversion of a frame in [send]. *)
Definition obj_of_frame (frame : CanFrame) : MsgObj :=
  let mode := Z.land (can_id frame) MaskExtID in
  let mode := if isExtended frame then Z.lor mode CAN_MSGOBJ_EXT else mode in
  let mode := if isRemoteTransmissionRequest frame then Z.lor mode CAN_MSGOBJ_RTR else mode in
  mkMsgObj mode 0 (copy_onto (can_payload frame) (replicate 8 0)) (can_dlc frame) TxMessageObjectNumber.

(** [int16_t send(const CanFrame& frame, MonotonicTime tx_deadline, CanIOFlags flags)]. *)
Definition Lpc_send (l : Lpc) (frame : CanFrame) (flags : Z) : Z * Lpc :=
  if isErrorFrame frame || (8 <? can_dlc frame) || negb (Z.land flags CanIOFlagLoopback =? 0) then (-1, l)
  else if negb (tx_pending l) then (1, set_tx l true (negb (Z.land flags CanIOFlagAbortOnError =? 0)) [CanTransmit (obj_of_frame frame)])
  else (0, l).

(** [int16_t receive(CanFrame& out_frame, MonotonicTime& out_ts_monotonic, UtcTime& out_ts_utc, CanIOFlags& out_flags)]: the frame and its time. *)
Definition Lpc_receive (l : Lpc) (out_frame : CanFrame) : Z * option (CanFrame * Z) * Lpc :=
  if RxQueue_getLength (rx_queue l) =? 0 then (0, None, l)
  else let '(frame, ts_utc, q) := Lpc_pop (rx_queue l) (out_frame, 0) in (1, Some (frame, ts_utc), set_queue l q).

(** [int16_t select(CanSelectMasks& inout_masks, const CanFrame* (&)[MaxCanIfaces], MonotonicTime blocking_deadline)]: whether the core waits for an
    event, and the masks; [stat] is the status register, [now] the time and [later] the driver after the wait. *)
Definition Lpc_select (l : Lpc) (stat read write now blocking_deadline : Z) (later : Lpc -> Lpc) : bool * (Z * Z) * Lpc :=
  let bus_off := isInBusOffState stat in
  let l := if bus_off && negb (Z.land (CNTL l) CNTL_INIT =? 0) then set_filters l [] (Z.ldiff (CNTL l) CNTL_INIT) else l in
  let noblock := ((read =? 1) && hasReadyRx l) || ((write =? 1) && hasEmptyTx l) in
  let wfe := negb noblock && (blocking_deadline <? now) in
  let l := later l in
  (wfe, ((if hasReadyRx l then 1 else 0), (if hasEmptyTx l && negb bus_off then 1 else 0)), l).

(** [canRxCallback]: the frame in a message object; [mem] is what the frame held before. The object's arrays and the frame's have eight bytes: with a
    greater length the copy leaves them, which is none here. *)
Definition frame_of_obj (mem : list Z) (o : MsgObj) : option CanFrame :=
  let id := if flag_set (mode_id o) CAN_MSGOBJ_EXT then Z.lor (Z.land (mode_id o) MaskExtID) FlagEFF else Z.land (mode_id o) MaskStdID in
  let id := if flag_set (mode_id o) CAN_MSGOBJ_RTR then Z.lor id FlagRTR else id in
  if 8 <? mo_dlc o then None
  else Some (mkCanFrame id (copy_onto (take (Z.to_nat (mo_dlc o)) (mo_data o)) mem) (mo_dlc o)).
Definition canRxCallback (l : Lpc) (o : MsgObj) : option Lpc :=
  frame ← frame_of_obj (replicate 8 0) o;
  Some (set_activity (set_queue l (Lpc_push (rx_queue l) frame (last_irq_utc_timestamp l))) true).

(** [canTxCallback]. *)
Definition canTxCallback (l : Lpc) : Lpc := set_activity (set_tx l false (tx_abort_on_error l) []) true.

(** [canErrorCallback]. *)
Definition abort_commands : list HwCommand := [WriteCMDREQ TxMessageObjectNumber; WriteCMDMSK IF_CMDMSK_W_WR_RD; ClearMCTRL IF_MCTRL_TXRQST].
Definition canErrorCallback (l : Lpc) (error_info : Z) : Lpc :=
  let l := if negb (error_info =? 0) && (error_cnt l <? 0xFFFFFFFF)
           then mkLpc (u32 (error_cnt l + 1)) (tx_pending l) (tx_abort_on_error l) (last_irq_utc_timestamp l) (had_activity l) (rx_queue l) (commands l) (CNTL l)
           else l in
  if tx_pending l && tx_abort_on_error l then set_tx l false false abort_commands else l.

(** [CAN_IRQHandler], before the ROM function calls one of the callbacks. *)
Definition CAN_IRQHandler (l : Lpc) (utc_usec : Z) : Lpc :=
  mkLpc (error_cnt l) (tx_pending l) (tx_abort_on_error l) utc_usec (had_activity l) (rx_queue l) (commands l) (CNTL l).

(** ** The clock *)

Module LpcClock.
Definition USecPerOverflow : Z := 65536 * 2.
Definition MaxUtcSpeedCorrectionX16 : Z := 100 * 16.

(** The variables of the clock. *)
Record Clock := mkClock { initialized : bool; utc_set : bool; utc_correction_usec_per_overflow_x16 : Z; prev_adjustment : Z; time_mono : Z; time_utc : Z }.
Definition Clock_default : Clock := mkClock false false 0 0 0 0.

(** [SysTick_Config] of the header for the core: the value it puts in the reload register, or none when it fails. *)
Definition SysTick_LOAD_RELOAD_Msk : Z := 0xFFFFFF.
Definition SysTick_Config (ticks : Z) : option Z :=
  if SysTick_LOAD_RELOAD_Msk <? ticks then None else Some (u32 (Z.land ticks SysTick_LOAD_RELOAD_Msk - 1)).

(** [init]: the reload register, if the clock was not initialised before; none when the core halts in [fail]. *)
Definition init (SystemCoreClock : Z) (c : Clock) (load : Z) : option (Z * Clock) :=
  if initialized c then Some (load, c)
  else
    let c := mkClock true (utc_set c) (utc_correction_usec_per_overflow_x16 c) (prev_adjustment c) (time_mono c) (time_utc c) in
    if negb (SystemCoreClock mod 1000000 =? 0) then None
    else match SysTick_Config (u32 (SystemCoreClock / 1000000 * USecPerOverflow)) with
         | None => None
         | Some load => Some (load, c)
         end.

(** What the timer gives during a sample: the register [LOAD], the two readings of [VAL], and whether the interrupt is pending. *)
Record SysTick := mkSysTick { LOAD : Z; VAL : Z; VAL' : Z; PENDSTSET : bool }.

(** [sampleFromCriticalSection]. *)
Definition sampleFromCriticalSection (SystemCoreClock : Z) (t : SysTick) (value : Z) : Z :=
  let reload := u32 (LOAD t + 1) in
  let '(time, cycles) :=
    if PENDSTSET t then (u64 (value + USecPerOverflow), u32 (reload - VAL' t)) else (value, u32 (reload - VAL t)) in
  let cycles_per_usec := SystemCoreClock / 1000000 in
  u64 (time + cycles / cycles_per_usec).

Definition getUtcUSecFromCanInterrupt (SystemCoreClock : Z) (t : SysTick) (c : Clock) : Z :=
  if utc_set c then sampleFromCriticalSection SystemCoreClock t (time_utc c) else 0.
Definition getMonotonic (SystemCoreClock : Z) (t : SysTick) (c : Clock) : option Z :=
  if initialized c then Some (sampleFromCriticalSection SystemCoreClock t (time_mono c)) else None.
Definition getUtc (SystemCoreClock : Z) (t : SysTick) (c : Clock) : option Z :=
  if initialized c then Some (if utc_set c then sampleFromCriticalSection SystemCoreClock t (time_utc c) else 0) else None.
Definition getPrevUtcAdjustment (c : Clock) : Z := prev_adjustment c.

(** [adjustUtc]. *)
Definition adjustUtc (c : Clock) (adjustment : Z) : Clock :=
  let adj_delta := i64 (adjustment - prev_adjustment c) in
  let corr := utc_correction_usec_per_overflow_x16 c in
  let corr := swrap 32 (corr + (if 0 <? adjustment then 1 else -1)) in
  let corr := swrap 32 (corr + (if 0 <? adj_delta then 1 else -1)) in
  let corr := Z.max corr (- MaxUtcSpeedCorrectionX16) in
  let corr := Z.min corr MaxUtcSpeedCorrectionX16 in
  if (9 <? Duration.toMSec (Duration.getAbs adjustment)) || negb (utc_set c) then
    let utc := if (adjustment <? 0) && (time_utc c <? u64 (- adjustment)) then 1 else u64 (i64 (i64 (time_utc c) + adjustment)) in
    mkClock (initialized c) true (if utc_set c then corr else 0) adjustment (time_mono c) utc
  else mkClock (initialized c) (utc_set c) corr adjustment (time_mono c) (time_utc c).

(** [SysTick_Handler]. *)
Definition SysTick_Handler (c : Clock) : option Clock :=
  if initialized c then
    Some (mkClock (initialized c) (utc_set c) (utc_correction_usec_per_overflow_x16 c) (prev_adjustment c) (u64 (time_mono c + USecPerOverflow))
      (if utc_set c then u64 (time_utc c + (USecPerOverflow + Z.quot (utc_correction_usec_per_overflow_x16 c) 16)) else time_utc c))
  else None.

(** *** The timer *)

(** The counter [n] cycles after it was zero first: it counts down, and is reloaded on the cycle after zero. *)
Definition counter (load n : Z) : Z := (- n) mod (load + 1).
(** The overflows up to then; each makes the interrupt pending. *)
Definition overflows (load n : Z) : Z := n / (load + 1).

(** What a sample reads that takes place when [k] overflows have been served: the counter, the pending interrupt and the
    counter again, at the cycles [n1], [n2] and [n3]. *)
Definition readings (load k n1 n2 n3 : Z) : SysTick := mkSysTick load (counter load n1) (counter load n3) (k <? overflows load n2).

(** A sample that starts after the handler served the last overflow, its interrupt being delayed for less than a period. *)
Record timely (load k n1 n2 n3 : Z) : Prop := {
  tm_served : k * (load + 1) < n1;
  tm_order : n1 < n2 < n3;
  tm_end : n3 < (k + 2) * (load + 1)
}.

Lemma wrap_add_l w x y : 0 < w -> wrap w (wrap w x + y) = wrap w (x + y).
Proof. intros Hw. apply Z.add_mod_idemp_l. pose proof (Z.pow_pos_nonneg 2 w). lia. Qed.

Lemma counter_of load k n : 0 < load -> 0 < n - k * (load + 1) < load + 1 -> load + 1 - counter load n = n - k * (load + 1).
Proof.
  intros Hl Hn. unfold counter. replace (- n) with ((load + 1 - (n - k * (load + 1))) + (- k - 1) * (load + 1)) by lia.
  rewrite Z.mod_add by lia. rewrite Z.mod_small by lia. lia.
Qed.

Lemma init_reload SystemCoreClock c load0 load c' :
  initialized c = false -> 0 < SystemCoreClock < 2 ^ 32 -> init SystemCoreClock c load0 = Some (load, c') ->
  load + 1 = SystemCoreClock / 1000000 * USecPerOverflow /\ 0 < load < SysTick_LOAD_RELOAD_Msk /\ SystemCoreClock mod 1000000 = 0 /\ initialized c' = true /\ time_mono c' = time_mono c.
Proof.
  intros Hi Hs. unfold init. rewrite Hi. destruct (Z.eqb_spec (SystemCoreClock mod 1000000) 0) as [Hm|]; [|done]. cbn [negb].
  set (ticks := SystemCoreClock / 1000000 * USecPerOverflow).
  assert (Hd : 1 <= SystemCoreClock / 1000000 <= 4294) by (pose proof (Z.div_mod SystemCoreClock 1000000 ltac:(lia)); lia).
  assert (Ht : USecPerOverflow <= ticks < 2 ^ 32) by (unfold ticks, USecPerOverflow in *; lia). unfold USecPerOverflow in Ht.
  rewrite (wrap_small 32 ticks) by (unfold in_width; lia). unfold SysTick_Config. destruct (Z.ltb_spec SysTick_LOAD_RELOAD_Msk ticks) as [|Hle]; [done|].
  unfold SysTick_LOAD_RELOAD_Msk in *. change 0xFFFFFF with (Z.ones 24) at 1. rewrite Z.land_ones, Z.mod_small by lia. intros [= <- <-].
  rewrite wrap_small by (unfold in_width; lia). cbn [initialized time_mono]. split_and!; try done; lia.
Qed.

(** A sample is the time of one of its readings of the counter. *)
Lemma sample_is_time SystemCoreClock load k n1 n2 n3 :
  load + 1 = SystemCoreClock / 1000000 * USecPerOverflow -> 0 < load < SysTick_LOAD_RELOAD_Msk -> 0 <= k -> timely load k n1 n2 n3 ->
  exists n, (n = n1 \/ n = n3) /\
  sampleFromCriticalSection SystemCoreClock (readings load k n1 n2 n3) (u64 (k * USecPerOverflow)) = u64 (n / (SystemCoreClock / 1000000)).
Proof.
  intros Hl Hm Hk [H1 [H2 H2'] H3]. unfold SysTick_LOAD_RELOAD_Msk in Hm. set (mhz := SystemCoreClock / 1000000) in *.
  assert (Hmhz : 0 < mhz) by (unfold USecPerOverflow in Hl; lia).
  assert (Hs : forall j n, 0 < n - j * (load + 1) < load + 1 -> u64 (u64 (j * USecPerOverflow) + u32 (u32 (load + 1) - counter load n) / mhz) = u64 (n / mhz)).
  { intros j n Hn. rewrite (wrap_small 32 (load + 1)) by (unfold in_width; lia). rewrite (counter_of load j n) by lia. rewrite (wrap_small 32) by (unfold in_width; lia).
    rewrite wrap_add_l by lia. f_equal. rewrite Hl. replace n with (n - j * (mhz * USecPerOverflow) + j * USecPerOverflow * mhz) at 2 by lia. rewrite Z.div_add by lia. lia. }
  unfold sampleFromCriticalSection, readings. cbn [LOAD VAL VAL' PENDSTSET]. fold mhz.
  destruct (Z.ltb_spec k (overflows load n2)) as [Hp|Hp]; unfold overflows in Hp.
  - assert (Hn2 : (k + 1) * (load + 1) <= n2) by (pose proof (Z.mul_div_le n2 (load + 1) ltac:(lia)); nia).
    exists n3. split; [by right|]. rewrite (wrap_add_l 64 (k * USecPerOverflow) USecPerOverflow) by lia. replace (k * USecPerOverflow + USecPerOverflow) with ((k + 1) * USecPerOverflow) by lia. apply Hs. lia.
  - assert (Hn2 : n2 < (k + 1) * (load + 1)) by (pose proof (Z.mul_succ_div_gt n2 (load + 1) ltac:(lia)); nia).
    exists n1. split; [by left|]. apply Hs. lia.
Qed.

Lemma adjust_correction_bounded c adjustment : - MaxUtcSpeedCorrectionX16 <= utc_correction_usec_per_overflow_x16 (adjustUtc c adjustment) <= MaxUtcSpeedCorrectionX16.
Proof. unfold adjustUtc, MaxUtcSpeedCorrectionX16. destruct (_ || _); cbn [utc_correction_usec_per_overflow_x16]; [destruct (utc_set c)|]; lia. Qed.

(** [k] overflows served. *)
Fixpoint ticked (k : nat) (c : Clock) : option Clock := match k with O => Some c | S k => SysTick_Handler c ≫= ticked k end.

Lemma ticked_mono k c : initialized c = true -> in_width 64 (time_mono c) ->
  exists c', ticked k c = Some c' /\ initialized c' = true /\ time_mono c' = u64 (time_mono c + Z.of_nat k * USecPerOverflow).
Proof.
  revert c. induction k as [|k IH]; intros c Hc Hw; [exists c; rewrite Z.add_0_r, wrap_small; done|]. cbn [ticked]. unfold SysTick_Handler. rewrite Hc. cbn [option_bind mbind].
  match goal with |- context [ticked k ?x] => destruct (IH x eq_refl) as (c' & E & Hi & Hm); [by apply wrap_range|exists c'; split_and!; [exact E|exact Hi|]] end.
  cbn [time_mono] in Hm. rewrite Hm, wrap_add_l by lia. f_equal. lia.
Qed.

(** The clock, set up when it was not, then read by two samples one after the other, when [k] and [k'] overflows were served: each is the time since the start at one of the
    instants of the sample, and the clock does not go back. *)
Theorem lpc_clock_is_monotonic SystemCoreClock c load0 load c0 k n1 n2 n3 k' n1' n2' n3' :
  initialized c = false -> time_mono c = 0 -> 0 < SystemCoreClock < 2 ^ 32 -> init SystemCoreClock c load0 = Some (load, c0) ->
  timely load (Z.of_nat k) n1 n2 n3 -> timely load (Z.of_nat k') n1' n2' n3' -> n3 <= n1' -> n3' / (SystemCoreClock / 1000000) < 2 ^ 64 ->
  exists c1 c1' m m', ticked k c0 = Some c1 /\ ticked k' c0 = Some c1' /\
    getMonotonic SystemCoreClock (readings load (Z.of_nat k) n1 n2 n3) c1 = Some m /\
    getMonotonic SystemCoreClock (readings load (Z.of_nat k') n1' n2' n3') c1' = Some m' /\
    n1 <= m * (SystemCoreClock / 1000000) + SystemCoreClock / 1000000 /\ m * (SystemCoreClock / 1000000) <= n3 /\ m <= m'.
Proof.
  intros Hi H0 Hs Hinit Ht Ht' Hn Hw. destruct (init_reload _ _ _ _ _ Hi Hs Hinit) as (Hl & Hm & _ & Hi0 & H00).
  assert (Hw0 : in_width 64 (time_mono c0)) by (rewrite H00, H0; unfold in_width; lia).
  destruct (ticked_mono k c0 Hi0 Hw0) as (c1 & E1 & Hi1 & T1). destruct (ticked_mono k' c0 Hi0 Hw0) as (c1' & E1' & Hi1' & T1').
  destruct (sample_is_time SystemCoreClock load (Z.of_nat k) n1 n2 n3 Hl Hm ltac:(lia) Ht) as (n & Hor & Es).
  destruct (sample_is_time SystemCoreClock load (Z.of_nat k') n1' n2' n3' Hl Hm ltac:(lia) Ht') as (n' & Hor' & Es').
  assert (Hmhz : 0 < SystemCoreClock / 1000000) by (unfold USecPerOverflow in Hl; lia). destruct Ht as [Hb1 [Hb2 Hb3] Hb4], Ht' as [Hc1 [Hc2 Hc3] Hc4].
  assert (Hpos : 0 <= n) by nia. assert (Hnn : n <= n' <= n3') by lia.
  pose proof (Z.div_le_mono n n' _ Hmhz ltac:(lia)) as D1. pose proof (Z.div_le_mono n' n3' _ Hmhz ltac:(lia)) as D2. pose proof (Z.div_pos n _ Hpos Hmhz) as D3.
  rewrite (wrap_small 64 (n / _)) in Es by (unfold in_width; lia). rewrite (wrap_small 64 (n' / _)) in Es' by (unfold in_width; lia).
  exists c1, c1', (n / (SystemCoreClock / 1000000)), (n' / (SystemCoreClock / 1000000)). unfold getMonotonic. rewrite Hi1, Hi1', T1, T1', H00, H0, !Z.add_0_l, Es, Es'.
  pose proof (Z.mul_div_le n _ Hmhz). pose proof (Z.mul_succ_div_gt n _ Hmhz). split_and!; try done; lia.
Qed.
End LpcClock.

(** ** Bit timings *)

(** The fields of the bit timing register: prescaler, time before and after the sample point. *)
Definition brp (btr : Z) : Z := Z.land btr 63 + 1.
Definition tseg1 (btr : Z) : Z := Z.land (Z.shiftr btr 8) 15 + 1.
Definition tseg2 (btr : Z) : Z := Z.land (Z.shiftr btr 12) 7 + 1.

(** Timings that are found make exactly the bit rate, with the sample point at seven eighths of the bit. *)
Lemma lpc_bit_timings clock_rate bitrate :
  let b := canbtr (computeBitTimings clock_rate bitrate) in
  b <> 0 -> clock_rate = bitrate * (brp b * (1 + tseg1 b + tseg2 b)) /\ 8 * (1 + tseg1 b) = 7 * (1 + tseg1 b + tseg2 b).
Proof.
  cbv zeta. unfold computeBitTimings. destruct (Z.eqb_spec clock_rate 48000000) as [->|]; [|by intros []].
  repeat match goal with |- context [bitrate =? ?x] => destruct (Z.eqb_spec bitrate x) as [->|]; [by vm_compute|] end. by intros [].
Qed.

Lemma detected_rate_is_heard clock_rate hears :
  let b := detectBitRate clock_rate hears in b <> 0 -> hears (computeBitTimings clock_rate b) = true /\ b ∈ BitRatesToTry.
Proof.
  cbv zeta. unfold detectBitRate. generalize BitRatesToTry. intros l. induction l as [|x l IH]; cbn [detect_loop]; [done|].
  destruct (negb _); [done|]. destruct (hears (computeBitTimings clock_rate x)) eqn:Eh; [intros _; split; [done|left]|]. intros Hb. destruct (IH Hb). split; [done|by right].
Qed.

(** ** Frames *)

Lemma obj_mode_bit f i : 0 <= i -> Z.testbit (mode_id (obj_of_frame f)) i =
  ((i <? 29) && Z.testbit (can_id f) i) || ((i =? 29) && isExtended f) || ((i =? 30) && isRemoteTransmissionRequest f).
Proof.
  intros Hi. cbn [obj_of_frame mode_id]. change MaskExtID with (Z.ones 29). change CAN_MSGOBJ_EXT with (2 ^ 29). change CAN_MSGOBJ_RTR with (2 ^ 30).
  assert (Hb : Z.testbit (Z.land (can_id f) (Z.ones 29)) i = (i <? 29) && Z.testbit (can_id f) i) by (rewrite Z.land_spec, Z.testbit_ones_nonneg by lia; apply andb_comm).
  destruct (isExtended f), (isRemoteTransmissionRequest f); rewrite ?Z.lor_spec, ?Z.pow2_bits_eqb, Hb, ?(Z.eqb_sym 29 i), ?(Z.eqb_sym 30 i) by lia;
    destruct (i <? 29), (Z.testbit (can_id f) i), (i =? 29), (i =? 30); done.
Qed.

Lemma obj_id_roundtrip f mem g : CanFrame_wf f -> isErrorFrame f = false -> frame_of_obj mem (obj_of_frame f) = Some g -> can_id g = can_id f.
Proof.
  intros Hf He Hg. rewrite isError_bit in He. pose proof (isExtended_bit f) as Ex. pose proof (isRTR_bit f) as Er.
  assert (Hx : flag_set (mode_id (obj_of_frame f)) CAN_MSGOBJ_EXT = isExtended f).
  { change CAN_MSGOBJ_EXT with (Z.shiftl 1 29). rewrite flag_testbit, obj_mode_bit by lia. cbn. by rewrite orb_false_r. }
  assert (Hr : flag_set (mode_id (obj_of_frame f)) CAN_MSGOBJ_RTR = isRemoteTransmissionRequest f).
  { change CAN_MSGOBJ_RTR with (Z.shiftl 1 30). rewrite flag_testbit, obj_mode_bit by lia. done. }
  unfold frame_of_obj in Hg. destruct (8 <? _); [done|]. apply (inj Some) in Hg. subst g. cbn [can_id]. rewrite Hx, Hr. apply Z.bits_inj'. intros i Hi.
  set (m := mode_id (obj_of_frame f)) in *.
  assert (Hbase : Z.testbit (if isExtended f then Z.lor (Z.land m MaskExtID) FlagEFF else Z.land m MaskStdID) i =
    ((i <? 29) && Z.testbit (can_id f) i) || ((i =? 31) && isExtended f)).
  { destruct (isExtended f) eqn:Ee.
    - change MaskExtID with (Z.ones 29). unfold FlagEFF. rewrite Z.lor_spec, Z.land_spec, Z.testbit_ones_nonneg, Z.shiftl_1_l, Z.pow2_bits_eqb by lia. unfold m. rewrite obj_mode_bit by lia.
      rewrite (Z.eqb_sym 31 i), andb_true_r. destruct (Z.ltb_spec i 29); cbn [andb]; [|by rewrite andb_false_r].
      destruct (Z.eqb_spec i 29); [lia|]. destruct (Z.eqb_spec i 30); [lia|]. cbn. by rewrite !orb_false_r, andb_true_r.
    - change MaskStdID with (Z.ones 11). rewrite Z.land_spec, Z.testbit_ones_nonneg by lia. unfold m. rewrite obj_mode_bit by lia. rewrite andb_false_r, orb_false_r.
      destruct (Z.ltb_spec i 11).
      + rewrite (proj2 (Z.ltb_lt i 29)) by lia. destruct (Z.eqb_spec i 29); [lia|]. destruct (Z.eqb_spec i 30); [lia|]. cbn. by rewrite !orb_false_r, andb_true_r.
      + rewrite andb_false_r. destruct (Z.ltb_spec i 29); [|done]. cbn. symmetry. by apply std_id_bit. }
  assert (Htop : Z.testbit (if isRemoteTransmissionRequest f then Z.lor (if isExtended f then Z.lor (Z.land m MaskExtID) FlagEFF else Z.land m MaskStdID) FlagRTR
      else (if isExtended f then Z.lor (Z.land m MaskExtID) FlagEFF else Z.land m MaskStdID)) i =
    ((i <? 29) && Z.testbit (can_id f) i) || ((i =? 31) && isExtended f) || ((i =? 30) && isRemoteTransmissionRequest f)).
  { destruct (isRemoteTransmissionRequest f); [|by rewrite andb_false_r, orb_false_r].
    unfold FlagRTR. rewrite Z.lor_spec, Hbase, Z.shiftl_1_l, Z.pow2_bits_eqb, (Z.eqb_sym 30 i), andb_true_r by lia. done. }
  rewrite Htop, Ex, Er. destruct (Z.eqb_spec i 31) as [->|]; [cbn; by rewrite orb_false_r|]. destruct (Z.eqb_spec i 30) as [->|]; [done|].
  cbn [andb]. rewrite !orb_false_r. destruct (Z.ltb_spec i 29); [done|]. cbn. symmetry. destruct (Z.eqb_spec i 29) as [->|]; [done|].
  apply (in_width_testbit 32); [apply Hf|lia].
Qed.

(** What arrives is what was sent. *)
Lemma obj_roundtrip f mem : CanFrame_wf f -> isErrorFrame f = false -> exists g, frame_of_obj mem (obj_of_frame f) = Some g /\ CanFrame_eqb f g = true.
Proof.
  intros Hf He. pose proof (cwf_dlc f Hf) as Hd. pose proof (cwf_data f Hf) as Hl. unfold MaxDataLen in Hl.
  destruct (frame_of_obj mem (obj_of_frame f)) as [g|] eqn:Eg; [|by unfold frame_of_obj in Eg; cbn [mo_dlc obj_of_frame] in Eg; rewrite (proj2 (Z.ltb_ge _ _)) in Eg by lia].
  exists g. split; [done|]. unfold CanFrame_eqb. rewrite (obj_id_roundtrip f mem g Hf He Eg). unfold frame_of_obj in Eg. cbn [mo_dlc obj_of_frame mo_data] in Eg.
  rewrite (proj2 (Z.ltb_ge _ _)) in Eg by lia. apply (inj Some) in Eg. subst g. cbn [can_dlc can_data]. rewrite !Z.eqb_refl. cbn [andb].
  apply bool_decide_eq_true. set (n := Z.to_nat (can_dlc f)).
  assert (Hp : length (can_payload f) = n) by (unfold can_payload; rewrite length_take; lia). unfold copy_onto.
  assert (Ht : take n (can_payload f ++ drop (length (can_payload f)) (replicate 8 0)) = can_payload f) by (rewrite take_app_le by lia; by rewrite take_ge by lia).
  rewrite Ht. rewrite take_app_le by lia. by rewrite take_ge by lia.
Qed.

(** ** Every frame is accounted for *)

(** Calls of the driver's functions, calls it gets from the controller, and changes the controller makes to its control register. *)
Inductive LpcEvent :=
| LInit (bitrate cntl : Z) | LSend (f : CanFrame) (flags : Z) | LReceive (out : CanFrame)
| LTxCallback (utc : Z) | LRxCallback (utc : Z) (o : MsgObj) | LErrorCallback (utc error_info : Z)
| LSelect (stat read write now deadline : Z) | LFilters (configs : list CanFilterConfig) | LActivity | LControl (cntl : Z).
Inductive Outcome := SendResult (res : Z) | Arrived (f : CanFrame) (utc : Z) | Delivered (f : CanFrame) (utc : Z).

Section runs.
Context (clock_rate : Z).

Definition lpc_step (l : Lpc) (e : LpcEvent) : option (list Outcome * Lpc) :=
  match e with
  | LInit bitrate cntl => Some ([], (Lpc_init clock_rate l bitrate cntl).2)
  | LSend f flags => let '(res, l') := Lpc_send l f flags in Some ([SendResult res], l')
  | LReceive out => let '(_, got, l') := Lpc_receive l out in Some ((match got with Some (f, utc) => [Delivered f utc] | None => [] end), l')
  | LTxCallback utc => Some ([], canTxCallback (CAN_IRQHandler l utc))
  | LRxCallback utc o => l' ← canRxCallback (CAN_IRQHandler l utc) o; f ← frame_of_obj (replicate 8 0) o; Some ([Arrived f utc], l')
  | LErrorCallback utc info => Some ([], canErrorCallback (CAN_IRQHandler l utc) info)
  | LSelect stat read write now deadline => Some ([], (Lpc_select l stat read write now deadline id).2)
  | LFilters configs => Some ([], (configureFilters l configs).2)
  | LActivity => Some ([], (hadActivity l).2)
  | LControl cntl => Some ([], set_filters l [] cntl)
  end.
Fixpoint lpc_run (l : Lpc) (es : list LpcEvent) : option (list Outcome * Lpc) :=
  match es with
  | [] => Some ([], l)
  | e :: es => '(log, l) ← lpc_step l e; '(log', l) ← lpc_run l es; Some (log ++ log', l)
  end.

(** Received frames have at most eight bytes. *)
Definition lpc_event_ok (e : LpcEvent) : Prop := match e with LRxCallback _ o => mo_dlc o <= 8 | _ => True end.

(** *** What the driver promises about transmission *)

(** The frame being transmitted, if there is one, by whether it is to be aborted on an error. *)
Definition tx_spec (t : option bool) (e : LpcEvent) : list Z * list HwCommand * option bool :=
  match e with
  | LInit bitrate _ => ([], [], if BitTimings_isValid (computeBitTimings clock_rate bitrate) then None else t)
  | LSend f flags =>
      if isErrorFrame f || (8 <? can_dlc f) || negb (Z.land flags CanIOFlagLoopback =? 0) then ([-1], [], t)
      else match t with
           | Some _ => ([0], [], t)
           | None => ([1], [CanTransmit (obj_of_frame f)], Some (negb (Z.land flags CanIOFlagAbortOnError =? 0)))
           end
  | LTxCallback _ => ([], [], None)
  | LErrorCallback _ _ => match t with Some true => ([], abort_commands, None) | _ => ([], [], t) end
  | _ => ([], [], t)
  end.
Fixpoint tx_spec_run (t : option bool) (es : list LpcEvent) : list Z * list HwCommand * option bool :=
  match es with
  | [] => ([], [], t)
  | e :: es => let '(rs, cs, t) := tx_spec t e in let '(rs', cs', t) := tx_spec_run t es in (rs ++ rs', cs ++ cs', t)
  end.

(** The errors reported since the last successful initialisation. *)
Definition errors_after (n : Z) (e : LpcEvent) : Z :=
  match e with
  | LInit bitrate _ => if BitTimings_isValid (computeBitTimings clock_rate bitrate) then 0 else n
  | LErrorCallback _ info => if info =? 0 then n else n + 1
  | _ => n
  end.
End runs.

Definition about_tx (c : HwCommand) : Prop := match c with CanTransmit _ | WriteCMDREQ _ | WriteCMDMSK _ | ClearMCTRL _ => True | _ => False end.
#[export] Instance about_tx_dec c : Decision (about_tx c).
Proof. destruct c; cbn; apply _. Defined.
Definition tx_commands (l : Lpc) : list HwCommand := filter about_tx (commands l).

Definition send_results (log : list Outcome) : list Z := omap (fun x => match x with SendResult res => Some res | _ => None end) log.
Definition arrived (log : list Outcome) : list CanRxItem := omap (fun x => match x with Arrived f utc => Some (mkRxItem utc f 0) | _ => None end) log.
Definition delivered (log : list Outcome) : list (CanFrame * Z) := omap (fun x => match x with Delivered f utc => Some (f, utc) | _ => None end) log.
Definition item_view (x : CanRxItem) : CanFrame * Z := (rxi_frame x, rxi_utc_usec x).

Lemma lpc_arrived_app log log' : arrived (log ++ log') = arrived log ++ arrived log'.
Proof. apply omap_app. Qed.
Lemma lpc_delivered_app log log' : delivered (log ++ log') = delivered log ++ delivered log'.
Proof. apply omap_app. Qed.

Definition saturated (n : Z) : Z := Z.min 0xFFFFFFFF n.

(** *** Transmission *)

Record tx_agrees (t : option bool) (l : Lpc) : Prop := {
  ta_pending : tx_pending l = bool_decide (is_Some t);
  ta_abort : forall b, t = Some b -> tx_abort_on_error l = b
}.

Lemma tx_agrees_same t l l' : tx_agrees t l -> tx_pending l' = tx_pending l -> tx_abort_on_error l' = tx_abort_on_error l -> tx_agrees t l'.
Proof. intros [H1 H2] E1 E2. split; [by rewrite E1|by rewrite E2]. Qed.

(** What setting up the filters leaves alone. *)
Lemma configure_same l configs : let l' := (configureFilters l configs).2 in
  tx_pending l' = tx_pending l /\ tx_abort_on_error l' = tx_abort_on_error l /\ tx_commands l' = tx_commands l /\ rx_queue l' = rx_queue l /\ error_cnt l' = error_cnt l.
Proof.
  assert (Hf : forall os cntl, filter about_tx os = [] -> tx_commands (set_filters l os cntl) = tx_commands l).
  { intros os cntl E. unfold tx_commands. cbn [commands set_filters]. by rewrite filter_app, E, app_nil_r. }
  cbv zeta. unfold configureFilters. destruct configs as [|c configs]; [cbn [snd]; by rewrite Hf|]. destruct (_ <=? _); [|cbn [snd]; by rewrite Hf]. destruct (existsb _ _); [cbn [snd]; by rewrite Hf|].
  cbn [snd]. rewrite Hf; [done|]. generalize (seqZ 0 NumberOfRxMessageObjects). intros ixs. induction ixs as [|i ixs IH]; [done|]. rewrite fmap_cons, filter_cons_False by (by intros []). exact IH.
Qed.

Lemma lpc_step_tx clock_rate t l e log l' : tx_agrees t l -> lpc_step clock_rate l e = Some (log, l') ->
  let '(rs, cs, t') := tx_spec clock_rate t e in tx_agrees t' l' /\ send_results log = rs /\ tx_commands l' = tx_commands l ++ cs.
Proof.
  intros Ha. assert (Hs : forall l1, tx_pending l1 = tx_pending l -> tx_abort_on_error l1 = tx_abort_on_error l -> tx_commands l1 = tx_commands l -> forall log1, send_results log1 = [] ->
    tx_agrees t l1 /\ send_results log1 = [] /\ tx_commands l1 = tx_commands l ++ []).
  { intros l1 E1 E2 E3 log1 E4. rewrite app_nil_r. split_and!; try done. by eapply tx_agrees_same. }
  destruct e as [bitrate cntl|f flags|out|utc|utc o|utc info|stat rd wr now deadline|configs| |cntl]; cbn [lpc_step tx_spec].
  - intros [= <- <-]. unfold Lpc_init. destruct (BitTimings_isValid _); cbn [negb]; [|by apply Hs]. set (l1 := mkLpc _ _ _ _ _ _ _ _).
    destruct (configure_same l1 []) as (E1 & E2 & E3 & _). destruct (configureFilters l1 []) as [res l2]. cbn [snd] in *. split_and!; [|done|].
    + by split; [rewrite E1|].
    + rewrite E3. unfold tx_commands, l1. cbn [commands]. by rewrite filter_app, !app_nil_r.
  - unfold Lpc_send. destruct (_ || _); [intros [= <- <-]; split_and!; [done|done|by rewrite app_nil_r]|]. destruct Ha as [Hp Hb]. rewrite Hp. destruct t as [b|]; cbn.
    + intros [= <- <-]. split_and!; [by split|done|by rewrite app_nil_r].
    + intros [= <- <-]. split_and!; [|done|unfold tx_commands; cbn [commands set_tx]; by rewrite filter_app]. split; [done|]. intros b [= <-]. done.
  - unfold Lpc_receive. destruct (_ =? 0); [intros [= <- <-]; by apply Hs|]. destruct (Lpc_pop _ _) as [[f utc] q]. intros [= <- <-]. by apply Hs.
  - intros [= <- <-]. split_and!; [by split|done|]. unfold tx_commands. cbn. by rewrite !app_nil_r.
  - unfold canRxCallback. destruct (frame_of_obj _ o) as [f|]; [|done]. cbn [mbind option_bind]. intros [= <- <-]. by apply Hs.
  - intros [= <- <-]. unfold canErrorCallback. pose proof Ha as [Hp Hb]. set (l1 := if negb _ && _ then _ else _).
    assert (E : tx_pending l1 = tx_pending l /\ tx_abort_on_error l1 = tx_abort_on_error l /\ tx_commands l1 = tx_commands l) by (unfold l1; by destruct (_ && _)).
    clearbody l1. destruct E as (E1 & E2 & E3). assert (Hsame : forall t', t' = t -> tx_agrees t' l1) by (intros ? ->; by apply (tx_agrees_same t l)).
    rewrite E1, E2, Hp. destruct t as [[|]|]; cbn [is_Some bool_decide andb]; rewrite ?(Hb _ eq_refl); cbn.
    + split_and!; [by split|done|]. unfold tx_commands. cbn [commands set_tx]. rewrite filter_app. unfold tx_commands in E3. by rewrite E3.
    + split_and!; [by apply Hsame|done|by rewrite app_nil_r].
    + split_and!; [by apply Hsame|done|by rewrite app_nil_r].
  - intros [= <- <-]. unfold Lpc_select. cbn [snd]. unfold id. destruct (_ && _); [|by apply Hs]. apply Hs; try done. unfold tx_commands. cbn [commands set_filters]. by rewrite app_nil_r.
  - intros [= <- <-]. destruct (configure_same l configs) as (E1 & E2 & E3 & _). by apply Hs.
  - intros [= <- <-]. by apply Hs.
  - intros [= <- <-]. apply Hs; try done. unfold tx_commands. cbn [commands set_filters]. by rewrite app_nil_r.
Qed.

Lemma lpc_run_tx clock_rate es t l log l' : tx_agrees t l -> lpc_run clock_rate l es = Some (log, l') ->
  let '(rs, cs, t') := tx_spec_run clock_rate t es in tx_agrees t' l' /\ send_results log = rs /\ tx_commands l' = tx_commands l ++ cs.
Proof.
  revert t l log. induction es as [|e es IH]; intros t l log Ha; cbn [lpc_run tx_spec_run]; [intros [= <- <-]; split_and!; [done|done|by rewrite app_nil_r]|].
  destruct (lpc_step clock_rate l e) as [[log1 l1]|] eqn:E1; [|done]. cbn [mbind option_bind]. pose proof (lpc_step_tx clock_rate t l e log1 l1 Ha E1) as Hs.
  destruct (tx_spec clock_rate t e) as [[rs cs] t1]. destruct Hs as (Ha1 & Er & Ec). destruct (lpc_run clock_rate l1 es) as [[log2 l2]|] eqn:E2; [|done]. cbn [mbind option_bind].
  intros [= <- <-]. specialize (IH t1 l1 log2 Ha1 E2). destruct (tx_spec_run clock_rate t1 es) as [[rs' cs'] t2]. destruct IH as (Ha2 & Er2 & Ec2).
  split_and!; [done| |by rewrite Ec2, Ec, app_assoc]. unfold send_results in *. by rewrite omap_app, Er, Er2.
Qed.

(** *** Reception and errors *)

(** What holds after the outcomes [log] and [n] errors. *)
Record accounts (log : list Outcome) (n : Z) (l : Lpc) : Prop := {
  ac_queue : RxQueue_inv (rx_queue l);
  ac_rx : delivered log ++ (item_view <$> (rx_view (rx_queue l)).1) `sublist_of` (item_view <$> arrived log);
  ac_lost : (rx_view (rx_queue l)).2 =
    saturated (Z.of_nat (length (arrived log)) - Z.of_nat (length (delivered log)) - Z.of_nat (length (rx_view (rx_queue l)).1));
  ac_pos : 0 <= n;
  ac_errors : error_cnt l = saturated n
}.

(** Steps that do not touch the queue. *)
Lemma accounts_same log n n' l l' : accounts log n l -> rx_queue l' = rx_queue l -> 0 <= n' -> error_cnt l' = saturated n' -> accounts log n' l'.
Proof. intros [H1 H2 H3 H4 H5] E1 E2 E3. split; rewrite ?E1; done. Qed.

Lemma accounts_push log n l f utc l' :
  accounts log n l -> error_cnt l' = error_cnt l -> rx_queue l' = Lpc_push (rx_queue l) f utc -> accounts (log ++ [Arrived f utc]) n l'.
Proof.
  intros [H1 H2 H3 H4 H5] E1 E3. destruct (rx_push_ok (rx_queue l) f utc 0 H1) as [Hi Hv]. unfold Lpc_push in E3.
  split; rewrite ?E1, ?E3; [done| | |done|done].
  - rewrite Hv. rewrite lpc_arrived_app, lpc_delivered_app, fmap_app. cbn. rewrite app_nil_r. unfold spec_push.
    destruct (_ <? _); cbn [fst]; rewrite fmap_app, app_assoc; (apply sublist_app; [|done]); [done|].
    etransitivity; [|exact H2]. apply sublist_app; [done|]. apply fmap_sublist, sublist_drop.
  - rewrite Hv. unfold saturated in *. rewrite lpc_arrived_app, lpc_delivered_app, !length_app. cbn -[Z.of_nat Z.min]. unfold spec_push. pose proof (rq_capacity _ H1) as Hc.
    destruct (Z.ltb_spec (Z.of_nat (length (rx_view (rx_queue l)).1)) (capacity_ (rx_queue l))); cbn [fst snd]; rewrite H3, length_app; [|rewrite length_drop]; cbn [length]; lia.
Qed.

(** Taking a frame from a queue that is not empty gives its oldest one. *)
Lemma lpc_pop_head q out : RxQueue_inv q -> 0 < len_ q ->
  exists x items, rx_view q = (x :: items, (rx_view q).2) /\ (Lpc_pop q (out, 0)).1 = item_view x /\ RxQueue_inv (Lpc_pop q (out, 0)).2 /\ rx_view (Lpc_pop q (out, 0)).2 = (items, (rx_view q).2).
Proof.
  intros Hq Hlen. destruct (rx_pop_ok q (mkRxItem 0 out 0) Hq) as [Hi Hv]. unfold Lpc_pop. cbn [fst snd] in *.
  destruct (RxQueue_pop q (mkRxItem 0 out 0)) as [x q']. cbn [fst snd] in *. unfold spec_pop in Hv.
  pose proof (rx_length q Hq) as Hl. change (rx_contents q) with (rx_view q).1 in Hl.
  destruct (rx_view q) as [items ov]. cbn [fst snd] in *. destruct items as [|y items]; [cbn in Hl; lia|]. injection Hv as <- Hv1 Hv2.
  exists x, items. split_and!; [done|done|done|]. by apply injective_projections.
Qed.

Lemma accounts_pop log n l out l' :
  accounts log n l -> 0 < len_ (rx_queue l) -> error_cnt l' = error_cnt l -> rx_queue l' = (Lpc_pop (rx_queue l) (out, 0)).2 ->
  accounts (log ++ [Delivered (Lpc_pop (rx_queue l) (out, 0)).1.1 (Lpc_pop (rx_queue l) (out, 0)).1.2]) n l'.
Proof.
  intros [H1 H2 H3 H4 H5] Hlen E1 E3. destruct (lpc_pop_head (rx_queue l) out H1 Hlen) as (x & items & Ev & Eh & Hi & Hv).
  rewrite Ev in H2, H3. cbn [fst snd] in H2, H3. split; rewrite ?E1, ?E3, ?Hv, ?Eh; [done| | |done|done]; cbn [fst snd].
  - rewrite lpc_arrived_app, lpc_delivered_app. cbn. rewrite app_nil_r, <-app_assoc. exact H2.
  - rewrite H3. unfold saturated. rewrite lpc_arrived_app, lpc_delivered_app, !length_app. cbn -[Z.of_nat Z.min]. cbn [length]. lia.
Qed.

Lemma lpc_step_accounts clock_rate log n l e : accounts log n l -> lpc_event_ok e ->
  exists log' l', lpc_step clock_rate l e = Some (log', l') /\ accounts (log ++ log') (errors_after clock_rate n e) l'.
Proof.
  intros Ha Hok. pose proof Ha as [Hq _ _ Hn He].
  assert (Hs : forall l', rx_queue l' = rx_queue l -> error_cnt l' = error_cnt l -> accounts (log ++ []) n l').
  { intros l' E1 E2. rewrite app_nil_r. eapply accounts_same; try done. congruence. }
  destruct e as [bitrate cntl|f flags|out|utc|utc o|utc info|stat rd wr now deadline|configs| |cntl]; cbn [lpc_step errors_after lpc_event_ok] in *.
  - eexists _, _. split; [done|]. unfold Lpc_init. destruct (BitTimings_isValid _); cbn [negb]; [|by apply Hs]. set (l1 := mkLpc _ _ _ _ _ _ _ _).
    destruct (configure_same l1 []) as (_ & _ & _ & E4 & E5). destruct (configureFilters l1 []) as [res l2]. cbn [snd] in *. rewrite app_nil_r.
    eapply accounts_same; [exact Ha|by rewrite E4|done|by rewrite E5].
  - destruct (Lpc_send l f flags) as [res l'] eqn:Es. eexists _, _. split; [done|]. unfold Lpc_send in Es.
    assert (E : rx_queue l' = rx_queue l /\ error_cnt l' = error_cnt l) by (destruct (_ || _); [by injection Es as <- <-|]; destruct (negb _); by injection Es as <- <-).
    destruct E as [E1 E2]. destruct Ha as [H1 H2 H3 H4 H5].
    split; rewrite ?E1, ?E2, ?lpc_arrived_app, ?lpc_delivered_app; cbn; rewrite ?app_nil_r; done.
  - unfold Lpc_receive, RxQueue_getLength. destruct (Z.eqb_spec (len_ (rx_queue l)) 0) as [_|Hne]; [eexists _, _; split; [done|by apply Hs]|].
    pose proof (rq_len _ Hq) as Hl. pose proof (accounts_pop log n l out (set_queue l (Lpc_pop (rx_queue l) (out, 0)).2) Ha ltac:(lia) eq_refl eq_refl) as Hp.
    destruct (Lpc_pop (rx_queue l) (out, 0)) as [[f utc] q]. eexists _, _. split; [done|exact Hp].
  - eexists _, _. split; [done|by apply Hs].
  - unfold canRxCallback. assert (Hf : exists f, frame_of_obj (replicate 8 0) o = Some f) by (unfold frame_of_obj; rewrite (proj2 (Z.ltb_ge _ _)) by lia; by eexists).
    destruct Hf as [f Hf]. rewrite Hf. cbn [mbind option_bind]. eexists _, _. split; [done|]. by eapply accounts_push.
  - eexists _, _. split; [done|]. rewrite app_nil_r. unfold canErrorCallback. set (l1 := if negb _ && _ then _ else _).
    assert (E : rx_queue l1 = rx_queue l /\ error_cnt l1 = saturated (if info =? 0 then n else n + 1)).
    { unfold l1. cbn [error_cnt CAN_IRQHandler]. rewrite He. destruct (Z.eqb_spec info 0); cbn [negb andb]; [done|]. unfold saturated.
      destruct (Z.ltb_spec (Z.min 0xFFFFFFFF n) 0xFFFFFFFF); cbn [rx_queue error_cnt CAN_IRQHandler]; (split; [done|]); [|rewrite He; unfold saturated; lia].
      rewrite wrap_small by (unfold in_width; lia). lia. }
    clearbody l1. destruct E as [E1 E2]. eapply accounts_same; [exact Ha| | |]; destruct (tx_pending l1 && tx_abort_on_error l1); cbn [rx_queue error_cnt set_tx]; try done; destruct (info =? 0); lia.
  - eexists _, _. split; [done|]. unfold Lpc_select. cbn [snd]. unfold id. destruct (_ && _); by apply Hs.
  - eexists _, _. split; [done|]. destruct (configure_same l configs) as (_ & _ & _ & E4 & E5). by apply Hs.
  - eexists _, _. split; [done|by apply Hs].
  - eexists _, _. split; [done|by apply Hs].
Qed.

Lemma lpc_run_accounts clock_rate es log n l : accounts log n l -> Forall lpc_event_ok es ->
  exists log' l', lpc_run clock_rate l es = Some (log', l') /\ accounts (log ++ log') (foldl (errors_after clock_rate) n es) l'.
Proof.
  revert log n l. induction es as [|e es IH]; intros log n l Ha Hok; cbn [lpc_run foldl]; [exists [], l; by rewrite app_nil_r|]. apply Forall_cons in Hok as [He Hok].
  destruct (lpc_step_accounts clock_rate log n l e Ha He) as (log1 & l1 & E1 & H1). rewrite E1. cbn [mbind option_bind].
  destruct (IH (log ++ log1) _ l1 H1 Hok) as (log2 & l2 & E2 & H2). rewrite E2. cbn [mbind option_bind]. eexists _, _. split; [done|]. by rewrite app_assoc.
Qed.

(** The driver before the first call of [init]. *)
Definition Lpc_make : Lpc := mkLpc 0 false false 0 false (RxQueue_make RX_QUEUE_LEN) [] 0.

(** C24: the LPC11C24 driver, through any sequence of its calls (initialisations among them) and of callbacks from the controller, whether
    expected, late or spurious, as long as received frames have at most 8 bytes, comes to no invalid access, and: [send] refuses error
    frames, frames of more than 8 bytes and loopback requests, answers 0 while an accepted frame is neither reported as transmitted, aborted
    nor dropped by an initialisation, and else gives the frame to the controller; an abort is asked for at an error if it was requested for the pending
    frame, and nothing else is told to the controller about transmission; the frames the application got, then those queued, are frames that arrived, in order with
    their times, the others are counted as lost; [receive] gives the oldest queued frame if there is one; the errors since the last initialisation are
    counted (up to the width of the counter). A frame given to the controller reads back as an equal one. *)
Theorem lpc_driver_accounts_for_every_frame clock_rate es :
  Forall lpc_event_ok es ->
  exists log l, lpc_run clock_rate Lpc_make es = Some (log, l) /\
  (let '(results, told, t) := tx_spec_run clock_rate None es in
   send_results log = results /\ tx_commands l = told /\ hasEmptyTx l = bool_decide (t = None)) /\
  delivered log ++ (item_view <$> rx_contents (rx_queue l)) `sublist_of` (item_view <$> arrived log) /\
  RxQueue_getOverflowCount (rx_queue l) =
    saturated (Z.of_nat (length (arrived log)) - Z.of_nat (length (delivered log)) - RxQueue_getLength (rx_queue l)) /\
  (forall out, (Lpc_receive l out).1 = match rx_contents (rx_queue l) with [] => (0, None) | x :: _ => (1, Some (item_view x)) end) /\
  getErrorCount l = saturated (foldl (errors_after clock_rate) 0 es) + RxQueue_getOverflowCount (rx_queue l) /\
  (forall f mem, CanFrame_wf f -> isErrorFrame f = false -> exists g, frame_of_obj mem (obj_of_frame f) = Some g /\ CanFrame_eqb f g = true).
Proof.
  intros Hok. assert (H0 : accounts [] 0 Lpc_make).
  { assert (Hq : RxQueue_inv (RxQueue_make RX_QUEUE_LEN)) by (apply RxQueue_make_ok; unfold RX_QUEUE_LEN, MaxRxQueueCapacity; lia).
    split; [exact Hq|apply sublist_nil_l|done|done|done]. }
  destruct (lpc_run_accounts clock_rate es [] 0 Lpc_make H0 Hok) as (log & l & E & [H1 H2 H3 H4 H5]). exists log, l. split; [exact E|]. cbn [app] in H2, H3.
  assert (T0 : tx_agrees None Lpc_make) by (by split). pose proof (lpc_run_tx clock_rate es None Lpc_make log l T0 E) as Ht.
  destruct (tx_spec_run clock_rate None es) as [[results told] t]. destruct Ht as ([Tp _] & Tr & Tc). split_and!.
  - done.
  - exact Tc.
  - unfold hasEmptyTx. rewrite Tp. destruct t; done.
  - exact H2.
  - unfold RxQueue_getOverflowCount, RxQueue_getLength. rewrite <-(rx_length _ H1). exact H3.
  - intros out. unfold Lpc_receive, RxQueue_getLength. pose proof (rx_length _ H1) as Hl. destruct (Z.eqb_spec (len_ (rx_queue l)) 0) as [Hz|Hne].
    + destruct (rx_contents (rx_queue l)); [done|cbn in Hl; lia].
    + pose proof (rq_len _ H1). destruct (lpc_pop_head (rx_queue l) out H1 ltac:(lia)) as (x & items & Ev & Eh & _). change (rx_contents (rx_queue l)) with (rx_view (rx_queue l)).1.
      rewrite Ev. cbn [fst]. destruct (Lpc_pop (rx_queue l) (out, 0)) as [[f utc] q]. cbn in *. by rewrite Eh.
  - unfold getErrorCount. by rewrite H5.
  - intros f mem Hf He. by apply obj_roundtrip.
Qed.

Definition lpc_example_frame : CanFrame := mkCanFrame (Z.lor 0x12345 FlagEFF) [1; 2; 3; 0; 0; 0; 0; 0] 3.
Definition lpc_example_events : list LpcEvent :=
  [LInit 500000 0; LSend lpc_example_frame CanIOFlagAbortOnError; LSend lpc_example_frame 0; LErrorCallback 5 8; LSend lpc_example_frame 0; LTxCallback 9] ++
  ((fun i => LRxCallback (10 + Z.of_nat i) (obj_of_frame lpc_example_frame)) <$> seq 0 10) ++ [LReceive CanFrame_default; LReceive CanFrame_default].

(** Ten frames arrive, two of them are lost, two are read. *)
Lemma lpc_example :
  (fun r => (send_results r.1, map snd (delivered r.1), getErrorCount r.2)) <$> lpc_run 48000000 Lpc_make lpc_example_events = Some ([1; 0; 1], [12; 13], 3).
Proof. by vm_compute. Qed.

(** If the frame of an aborted transmission was sent nevertheless, the callback that says so releases the frame accepted after it. *)
Lemma late_callback_releases_next_frame :
  (fun r => (send_results r.1, hasEmptyTx r.2)) <$> lpc_run 48000000 Lpc_make
    [LInit 500000 0; LSend lpc_example_frame CanIOFlagAbortOnError; LErrorCallback 5 8; LSend lpc_example_frame 0; LTxCallback 9] = Some ([1; 1], true).
Proof. by vm_compute. Qed.

(** A frame whose length code is above 8, which the protocol allows for, is copied past the end of the arrays. *)
Lemma long_frame_overruns : canRxCallback Lpc_make (mkMsgObj 0 0 (replicate 8 0) 9 2) = None.
Proof. done. Qed.

Lemma lpc_driver_accounts_for_every_frame_witness :
  Forall lpc_event_ok lpc_example_events /\
  exists log l, lpc_run 48000000 Lpc_make lpc_example_events = Some (log, l) /\ send_results log = (tx_spec_run 48000000 None lpc_example_events).1.1.
Proof.
  assert (H0 : Forall lpc_event_ok lpc_example_events) by (apply Forall_forall; intros e He; repeat (apply elem_of_cons in He as [->|He]; [cbn; lia || done|]); by apply elem_of_nil in He).
  split; [exact H0|]. destruct (lpc_driver_accounts_for_every_frame 48000000 lpc_example_events H0) as (log & l & E & H & _). exists log, l. split; [exact E|].
  destruct (tx_spec_run 48000000 None lpc_example_events) as [[results told] t]. exact (proj1 H).
Defined.
