(* ===== verification/HeapPool.v ===== *)
(** * HeapPool: the pool that grows in the heap

    Models [HeapBasedPoolAllocator] of [libuavcan/include/uavcan/helpers/heap_based_pool_allocator.hpp], an alternative to [PoolAllocator]: it takes
    its blocks from [malloc] and keeps those that are given back in a list of reserve. The heap of the host is a class; what is relied on of it are the guarantees
    of [malloc] and [free]. The allocator is shown to be an instance of [PoolLaws], so all that is proved of the library against
    that interface holds with it. The optional lock is not modelled (one thread). *)

From stdpp Require Import gmap.
From S2P Require Import Prelude LinkedList PoolAllocator.
Local Open Scope Z_scope.

(** [std::malloc] and [std::free]. *)
Class IHeap (H : Type) := {
  malloc : H -> Z -> option Z * H;
  free : H -> Z -> H
}.

(** The blocks that are taken and not yet freed. *)
Class HeapLaws (H : Type) `{IHeap H} := {
  heap_blocks : H -> gset Z;
  heap_inv : H -> Prop;
  malloc_some h size p h' : heap_inv h -> malloc h size = (Some p, h') -> p <> 0 /\ p ∉ heap_blocks h /\ heap_blocks h' = {[p]} ∪ heap_blocks h /\ heap_inv h';
  malloc_none h size h' : heap_inv h -> malloc h size = (None, h') -> heap_blocks h' = heap_blocks h /\ heap_inv h';
  free_block h p : heap_inv h -> p ∈ heap_blocks h -> heap_blocks (free h p) = heap_blocks h ∖ {[p]} /\ heap_inv (free h p)
}.

(** The allocator; [hp_NodeSize] is the size of the union that a block is, [hp_next] the member [next] of every block, [hp_heap] the heap. *)
Record HeapPool (H : Type) := mkHeapPool {
  hp_BlockSize : Z;
  hp_NodeSize : Z;
  capacity_soft_limit_ : Z;
  capacity_hard_limit_ : Z;
  num_reserved_blocks_ : Z;
  num_allocated_blocks_ : Z;
  reserve_ : Z;
  hp_next : NextHeap;
  hp_heap : H
}.
Arguments mkHeapPool {H}.
Arguments hp_BlockSize {H}.
Arguments hp_NodeSize {H}.
Arguments capacity_soft_limit_ {H}.
Arguments capacity_hard_limit_ {H}.
Arguments num_reserved_blocks_ {H}.
Arguments num_allocated_blocks_ {H}.
Arguments reserve_ {H}.
Arguments hp_next {H}.
Arguments hp_heap {H}.

Section heap_pool.
Context {H : Type} `{IHeap H}.

Definition hp_set (a : HeapPool H) (reserved allocated reserve : Z) (next : NextHeap) (heap : H) : HeapPool H :=
  mkHeapPool (hp_BlockSize a) (hp_NodeSize a) (capacity_soft_limit_ a) (capacity_hard_limit_ a) reserved allocated reserve next heap.

(** [HeapBasedPoolAllocator(uint16_t block_capacity_soft_limit, uint16_t block_capacity_hard_limit = 0)]. *)
Definition HeapPool_make (block_size node_size soft hard : Z) (heap : H) : HeapPool H :=
  mkHeapPool block_size node_size soft (if 0 <? hard then hard else u16 (Z.min (u32 (soft * 2)) 0xFFFF)) 0 0 0 ∅ heap.

(** [void* allocate(std::size_t size)]. *)
Definition HeapPool_allocate (a : HeapPool H) (size : Z) : option Z * HeapPool H :=
  if hp_BlockSize a <? size then (None, a)
  else
    let p := reserve_ a in
    if negb (p =? 0) then
      (Some p, hp_set a (num_reserved_blocks_ a) (u16 (num_allocated_blocks_ a + 1)) (default 0 (hp_next a !! p)) (hp_next a) (hp_heap a))
    else if capacity_hard_limit_ a <=? num_reserved_blocks_ a then (None, a)
    else
      let '(m, heap) := malloc (hp_heap a) (hp_NodeSize a) in
      (m, match m with
          | Some _ => hp_set a (u16 (num_reserved_blocks_ a + 1)) (u16 (num_allocated_blocks_ a + 1)) (reserve_ a) (hp_next a) heap
          | None => hp_set a (num_reserved_blocks_ a) (num_allocated_blocks_ a) (reserve_ a) (hp_next a) heap
          end).

(** [void deallocate(const void* ptr)]. *)
Definition HeapPool_deallocate (a : HeapPool H) (ptr : Z) : HeapPool H :=
  if negb (ptr =? 0) then
    hp_set a (num_reserved_blocks_ a) (u16 (num_allocated_blocks_ a - 1)) ptr (<[ptr := reserve_ a]> (hp_next a)) (hp_heap a)
  else a.

Definition HeapPool_getBlockCapacity (a : HeapPool H) : Z := capacity_soft_limit_ a.
Definition getBlockCapacityHardLimit (a : HeapPool H) : Z := capacity_hard_limit_ a.
Definition getNumAllocatedBlocks (a : HeapPool H) : Z := num_allocated_blocks_ a.
Definition getNumReservedBlocks (a : HeapPool H) : Z := num_reserved_blocks_ a.

(** The loop of [void shrink()]; none if it does not end within [fuel] rounds. *)
Fixpoint shrink_loop (fuel : nat) (a : HeapPool H) : option (HeapPool H) :=
  match fuel with
  | O => None
  | S fuel =>
      let p := reserve_ a in
      if negb (p =? 0) then
        let a := hp_set a (u16 (num_reserved_blocks_ a - 1)) (num_allocated_blocks_ a) (default 0 (hp_next a !! p)) (hp_next a) (hp_heap a) in
        shrink_loop fuel (hp_set a (num_reserved_blocks_ a) (num_allocated_blocks_ a) (reserve_ a) (hp_next a) (free (hp_heap a) p))
      else Some a
  end.
(** There are no more rounds than reserved blocks, and one. *)
Definition shrink (a : HeapPool H) : option (HeapPool H) := shrink_loop (S (Z.to_nat (num_reserved_blocks_ a))) a.

#[export] Instance HeapPool_ops : IPoolAllocator (HeapPool H) := {
  allocate := HeapPool_allocate;
  deallocate := HeapPool_deallocate;
  getBlockCapacity := HeapPool_getBlockCapacity
}.

(** The application may write what it likes to a block it has, over the member [next]. *)
Definition overwrite (a : HeapPool H) (p v : Z) : HeapPool H :=
  hp_set a (num_reserved_blocks_ a) (num_allocated_blocks_ a) (reserve_ a) (<[p := v]> (hp_next a)) (hp_heap a).

Context `{!HeapLaws H}.

(** ** The invariant *)

(** The blocks of the reserve, and those the application has. *)
Definition reserve_blocks (a : HeapPool H) : list Z := walk (Z.to_nat (num_reserved_blocks_ a)) (hp_next a) (reserve_ a).
Definition HeapPool_live (a : HeapPool H) : gset Z := heap_blocks (hp_heap a) ∖ list_to_set (reserve_blocks a).

(** The reserve is the chain [l]. *)
Record reserve_is (a : HeapPool H) (l : list Z) : Prop := {
  hi_heap : heap_inv (hp_heap a);
  hi_chain : chain (hp_next a) (reserve_ a) l;
  hi_nodup : NoDup l;
  hi_sub : forall p, p ∈ l -> p ∈ heap_blocks (hp_heap a);
  hi_zero : 0 ∉ heap_blocks (hp_heap a);
  hi_reserved : num_reserved_blocks_ a = Z.of_nat (size (heap_blocks (hp_heap a)));
  hi_allocated : num_allocated_blocks_ a = num_reserved_blocks_ a - Z.of_nat (length l);
  hi_hard : num_reserved_blocks_ a <= capacity_hard_limit_ a <= 0xFFFF
}.
Definition HeapPool_inv (a : HeapPool H) : Prop := exists l, reserve_is a l.

Lemma reserve_length a l : reserve_is a l -> (length l <= Z.to_nat (num_reserved_blocks_ a))%nat.
Proof.
  intros Ha. rewrite (hi_reserved _ _ Ha), Nat2Z.id, <-(size_list_to_set (C := gset Z)) by apply Ha.
  apply subseteq_size. intros p Hp%elem_of_list_to_set. by apply (hi_sub _ _ Ha).
Qed.

Lemma reserve_blocks_is a l : reserve_is a l -> reserve_blocks a = l.
Proof. intros Ha. apply walk_chain; [apply Ha|by apply reserve_length]. Qed.

Lemma live_is a l : reserve_is a l -> HeapPool_live a = heap_blocks (hp_heap a) ∖ list_to_set l.
Proof. intros Ha. unfold HeapPool_live. by rewrite (reserve_blocks_is a l Ha). Qed.

Lemma allocated_is_live a : HeapPool_inv a -> num_allocated_blocks_ a = Z.of_nat (size (HeapPool_live a)).
Proof.
  intros [l Ha]. rewrite (live_is a l Ha), size_difference by (intros p Hp%elem_of_list_to_set; by apply (hi_sub _ _ Ha)).
  rewrite size_list_to_set by apply Ha. rewrite (hi_allocated _ _ Ha). pose proof (reserve_length _ _ Ha) as Hl. rewrite (hi_reserved _ _ Ha) in *. lia.
Qed.

(** ** The operations *)

Lemma make_reserve block_size node_size soft hard heap :
  heap_inv heap -> heap_blocks heap = ∅ -> is_u16 soft -> is_u16 hard -> reserve_is (HeapPool_make block_size node_size soft hard heap) [].
Proof.
  intros Hh He Hs Hr. unfold in_width in *. split; cbn -[wrap]; rewrite ?He; try done; [constructor|set_solver|].
  destruct (Z.ltb_spec 0 hard); [lia|]. pose proof (wrap_range 16 (Z.min (u32 (soft * 2)) 0xFFFF) ltac:(lia)) as Hw. unfold in_width in Hw. lia.
Qed.

(** A block from the reserve, or from the heap; or none, for a reason. *)
Lemma allocate_reserve a l size p a' : reserve_is a l -> HeapPool_allocate a size = (Some p, a') ->
  p <> 0 /\ p ∉ HeapPool_live a /\ HeapPool_live a' = {[p]} ∪ HeapPool_live a /\ reserve_is a' (tail l).
Proof.
  intros Ha. unfold HeapPool_allocate. destruct (_ <? _); [done|]. pose proof (live_is a l Ha) as Hl. pose proof (reserve_length a l Ha) as Hlen.
  destruct Ha as [H1 H2 H3 H4 H5 H6 H7 H8]. destruct (Z.eqb_spec (reserve_ a) 0) as [E|E]; cbn [negb].
  - destruct l as [|x l]; [|destruct H2 as (? & ? & _); congruence]. destruct (Z.leb_spec (capacity_hard_limit_ a) (num_reserved_blocks_ a)); [done|].
    destruct (malloc (hp_heap a) (hp_NodeSize a)) as [[m|] heap] eqn:Em; [|done]. intros [= -> <-].
    destruct (malloc_some _ _ _ _ H1 Em) as (Hm0 & Hm & Hb & Hi). set (a' := hp_set _ _ _ _ _ _).
    assert (Ha' : reserve_is a' []).
    { split; cbn -[wrap]; rewrite ?Hb; try done; [set_solver|set_solver| | |].
      - rewrite size_union, size_singleton by set_solver. rewrite wrap_small by (unfold in_width; lia). lia.
      - rewrite !wrap_small by (unfold in_width; cbn in H7; lia). cbn in H7. lia.
      - rewrite wrap_small by (unfold in_width; lia). lia. }
    split_and!; [done|rewrite Hl; set_solver| |exact Ha']. rewrite (live_is a' [] Ha'), Hl. cbn [a' hp_set hp_heap]. rewrite Hb. set_solver.
  - destruct l as [|x l]; [done|]. destruct H2 as (Hx & Hx0 & q & Hq & Hc). intros [= <- <-]. rewrite Hx in *. rewrite Hq. cbn [default]. apply NoDup_cons in H3 as [Hn Hd].
    cbn [length] in *. set (a' := hp_set _ _ _ _ _ _). assert (Ha' : reserve_is a' l).
    { split; cbn -[wrap]; try done; [intros p Hp; apply H4; by right|]. rewrite wrap_small by (unfold in_width; lia). lia. }
    assert (Hxb : x ∈ heap_blocks (hp_heap a)) by (apply H4; by left). split_and!; [done|rewrite Hl; set_solver| |exact Ha'].
    rewrite (live_is a' l Ha'), Hl. cbn [a' hp_set hp_heap list_to_set]. apply set_eq. intros y. rewrite elem_of_union, !elem_of_difference, elem_of_union, elem_of_singleton, elem_of_list_to_set.
    destruct (decide (y = x)) as [->|]; tauto.
Qed.

Lemma allocate_refuses a l size a' : reserve_is a l -> HeapPool_allocate a size = (None, a') ->
  HeapPool_live a' = HeapPool_live a /\ reserve_is a' l /\
  (hp_BlockSize a < size \/ l = [] /\ (num_reserved_blocks_ a = capacity_hard_limit_ a \/ (malloc (hp_heap a) (hp_NodeSize a)).1 = None)).
Proof.
  intros Ha. unfold HeapPool_allocate. destruct (Z.ltb_spec (hp_BlockSize a) size) as [|_]; [intros [= <-]; auto|]. pose proof (live_is a l Ha) as Hl.
  pose proof Ha as [H1 H2 H3 H4 H5 H6 H7 H8]. destruct (Z.eqb_spec (reserve_ a) 0) as [E|E]; cbn [negb]; [|done].
  assert (El : l = []) by (destruct l as [|x l]; [done|destruct H2 as (? & ? & _); congruence]).
  destruct (Z.leb_spec (capacity_hard_limit_ a) (num_reserved_blocks_ a)); [intros [= <-]; split_and!; auto; right; split; [done|left; lia]|].
  destruct (malloc (hp_heap a) (hp_NodeSize a)) as [[m|] heap] eqn:Em; [done|]. intros [= <-]. destruct (malloc_none _ _ _ H1 Em) as (Hb & Hi). set (a' := hp_set _ _ _ _ _ _).
  assert (Ha' : reserve_is a' l) by (split; cbn; rewrite ?Hb; done). split_and!; [|exact Ha'|by auto].
  rewrite (live_is a' l Ha'), Hl. cbn [a' hp_set hp_heap]. by rewrite Hb.
Qed.

Lemma deallocate_reserve a l p : reserve_is a l -> p ∈ HeapPool_live a ->
  HeapPool_live (HeapPool_deallocate a p) = HeapPool_live a ∖ {[p]} /\ reserve_is (HeapPool_deallocate a p) (p :: l).
Proof.
  intros Ha Hp. pose proof (live_is a l Ha) as Hl. rewrite Hl in *. pose proof (allocated_is_live a (ex_intro _ l Ha)) as Hn. rewrite Hl in Hn.
  assert (Hpos : (1 <= size (heap_blocks (hp_heap a) ∖ list_to_set l))%nat).
  { rewrite <-(size_singleton (C := gset Z) p). apply subseteq_size. set_solver. }
  apply elem_of_difference in Hp as [Hp Hpl]. rewrite elem_of_list_to_set in Hpl. destruct Ha as [H1 H2 H3 H4 H5 H6 H7 H8].
  unfold HeapPool_deallocate. destruct (Z.eqb_spec p 0) as [->|Hp0]; [done|]. cbn [negb]. set (a' := hp_set _ _ _ _ _ _).
  assert (Ha' : reserve_is a' (p :: l)).
  { split; cbn -[wrap]; try done.
    - split_and!; [done..|]. exists (reserve_ a). rewrite lookup_insert_eq. split; [done|]. by apply chain_frame.
    - by constructor.
    - intros y [->|Hy]%elem_of_cons; auto.
    - rewrite wrap_small by (unfold in_width; lia). lia. }
  split; [|exact Ha']. rewrite (live_is a' _ Ha'). cbn [a' hp_set hp_heap list_to_set]. set_solver.
Qed.

Lemma overwrite_reserve a l p v : reserve_is a l -> p ∈ HeapPool_live a -> HeapPool_live (overwrite a p v) = HeapPool_live a /\ reserve_is (overwrite a p v) l.
Proof.
  intros Ha Hp. pose proof (live_is a l Ha) as Hl. rewrite Hl in *. apply elem_of_difference in Hp as [Hp Hpl]. rewrite elem_of_list_to_set in Hpl. destruct Ha as [H1 H2 H3 H4 H5 H6 H7 H8].
  assert (Ha' : reserve_is (overwrite a p v) l) by (split; try done; by apply chain_frame). split; [|exact Ha']. by rewrite (live_is _ l Ha').
Qed.

(** All of the reserve is given back to the heap. *)
Lemma shrink_loop_reserve l : forall fuel a, reserve_is a l -> (length l < fuel)%nat ->
  exists a', shrink_loop fuel a = Some a' /\ HeapPool_live a' = HeapPool_live a /\ reserve_is a' [] /\ num_allocated_blocks_ a' = num_allocated_blocks_ a.
Proof.
  induction l as [|x l IH]; intros fuel a Ha Hf; (destruct fuel as [|fuel]; [lia|]); cbn [shrink_loop].
  - rewrite (hi_chain _ _ Ha). cbn. eauto.
  - pose proof (live_is a _ Ha) as Hl. pose proof (reserve_length a _ Ha) as Hlen. destruct Ha as [H1 (Hx & Hx0 & q & Hq & Hc) H3 H4 H5 H6 H7 H8]. rewrite Hx. rewrite (proj2 (Z.eqb_neq x 0) Hx0). cbn [negb].
    cbn [hp_set num_reserved_blocks_ num_allocated_blocks_ reserve_ hp_next hp_heap]. rewrite Hq. cbn [default].
    apply NoDup_cons in H3 as [Hn Hd]. assert (Hxb : x ∈ heap_blocks (hp_heap a)) by (apply H4; by left). destruct (free_block _ _ H1 Hxb) as [Hb Hi].
    cbn [length] in *. match goal with |- context [shrink_loop fuel ?x] => set (a' := x) end. assert (Ha' : reserve_is a' l).
    { split; cbn -[wrap]; rewrite ?Hb; try done.
      - intros p Hp. assert (p <> x) by congruence. assert (p ∈ heap_blocks (hp_heap a)) by (apply H4; by right). set_solver.
      - set_solver.
      - rewrite size_difference, size_singleton by set_solver. rewrite wrap_small by (unfold in_width; lia). lia.
      - rewrite wrap_small by (unfold in_width; lia). lia.
      - rewrite wrap_small by (unfold in_width; lia). lia. }
    destruct (IH fuel a' Ha' ltac:(lia)) as (a'' & E & HL & Hr & Hal). exists a''. split_and!; [done| |done|done]. rewrite HL, (live_is a' l Ha'), Hl.
    cbn [a' hp_set hp_heap list_to_set]. rewrite Hb. set_solver.
Qed.

(** [shrink] ends, leaves the blocks of the application alone, and its documented condition holds afterwards. *)
Theorem shrink_frees_the_reserve a : HeapPool_inv a ->
  exists a', shrink a = Some a' /\ HeapPool_inv a' /\ HeapPool_live a' = HeapPool_live a /\ heap_blocks (hp_heap a') = HeapPool_live a /\
  getNumAllocatedBlocks a' = getNumReservedBlocks a' /\ getNumAllocatedBlocks a' = getNumAllocatedBlocks a.
Proof.
  intros [l Ha]. pose proof (reserve_length a l Ha) as Hl. destruct (shrink_loop_reserve l (S (Z.to_nat (num_reserved_blocks_ a))) a Ha ltac:(lia)) as (a' & E & HL & Hr & Hal).
  exists a'. split_and!; [exact E|by exists []|done| | |exact Hal].
  - rewrite <-HL, (live_is a' [] Hr). cbn [list_to_set]. set_solver.
  - unfold getNumAllocatedBlocks, getNumReservedBlocks. rewrite (hi_allocated _ _ Hr). cbn. lia.
Qed.

(** ** The interface *)

#[export] Instance HeapPool_laws : PoolLaws (HeapPool H).
Proof.
  refine {| live := HeapPool_live; pool_inv := HeapPool_inv |}.
  - intros a size p a' [l Ha] E. destruct (allocate_reserve a l size p a' Ha E) as (? & ? & ? & Ha'). split_and!; try done. by exists (tail l).
  - intros a size a' [l Ha] E. destruct (allocate_refuses a l size a' Ha E) as (? & ? & _). split; [done|by exists l].
  - intros a p [l Ha] Hp. destruct (deallocate_reserve a l p Ha Hp). split; [done|by exists (p :: l)].
Defined.

(** A pool whose heap is not exhausted refuses a request that fits a block only when as many blocks as the hard limit are in use. *)
Lemma heap_pool_refuses a size a' : HeapPool_inv a -> size <= hp_BlockSize a -> (malloc (hp_heap a) (hp_NodeSize a)).1 <> None ->
  HeapPool_allocate a size = (None, a') -> getNumAllocatedBlocks a = getBlockCapacityHardLimit a.
Proof.
  intros [l Ha] Hs Hm E. destruct (allocate_refuses a l size a' Ha E) as (_ & _ & [?|[-> [E2|?]]]); [lia| |done].
  unfold getNumAllocatedBlocks, getBlockCapacityHardLimit. rewrite (hi_allocated _ _ Ha), E2. cbn. lia.
Qed.

(** ** Every use of the pool *)

Inductive HeapPoolOp := OpAllocate (size : Z) | OpDeallocate (p : Z) | OpOverwrite (p v : Z) | OpShrink.

(** The application gives back and writes to the blocks it has. *)
Inductive heap_pool_step (a : HeapPool H) : HeapPoolOp -> HeapPool H -> Prop :=
| step_allocate size : heap_pool_step a (OpAllocate size) (HeapPool_allocate a size).2
| step_deallocate p : p ∈ HeapPool_live a -> heap_pool_step a (OpDeallocate p) (HeapPool_deallocate a p)
| step_overwrite p v : p ∈ HeapPool_live a -> heap_pool_step a (OpOverwrite p v) (overwrite a p v)
| step_shrink a' : shrink a = Some a' -> heap_pool_step a OpShrink a'.

Inductive heap_pool_reachable (a0 : HeapPool H) : HeapPool H -> Prop :=
| reachable_start : heap_pool_reachable a0 a0
| reachable_step a op a' : heap_pool_reachable a0 a -> heap_pool_step a op a' -> heap_pool_reachable a0 a'.

Lemma heap_pool_step_inv a op a' : HeapPool_inv a -> heap_pool_step a op a' -> HeapPool_inv a' /\ capacity_hard_limit_ a' = capacity_hard_limit_ a.
Proof.
  intros Ha [size|p Hp|p v Hp|a'' E].
  - split.
    + destruct (HeapPool_allocate a size) as [[p|] a1] eqn:E; [apply (allocate_some (PoolLaws := HeapPool_laws) a size p a1 Ha E)|apply (allocate_none (PoolLaws := HeapPool_laws) a size a1 Ha E)].
    + unfold HeapPool_allocate. destruct (_ <? _); [done|]. destruct (negb _); [done|]. destruct (_ <=? _); [done|]. by destruct (malloc _ _) as [[?|] ?].
  - split; [by apply (deallocate_live (PoolLaws := HeapPool_laws) a p)|]. unfold HeapPool_deallocate. by destruct (negb _).
  - destruct Ha as [l Ha]. split; [exists l; by apply overwrite_reserve|done].
  - destruct (shrink_frees_the_reserve a Ha) as (a1 & E1 & Hi & _). rewrite E in E1. injection E1 as <-. split; [done|]. clear Ha Hi. unfold shrink in E. revert E.
    generalize (S (Z.to_nat (num_reserved_blocks_ a))). intros fuel. revert a. induction fuel as [|fuel IH]; intros a; cbn [shrink_loop]; [done|].
    destruct (negb _); [|congruence]. intros E. apply IH in E. exact E.
Qed.

(** However the pool is used: the counters are the numbers of blocks taken from the heap and in use, the hard limit is kept, and no block is lost: those of the
    reserve and those in use are all that were taken. *)
Theorem heap_pool_is_sound block_size node_size soft hard heap a :
  heap_inv heap -> heap_blocks heap = ∅ -> is_u16 soft -> is_u16 hard ->
  heap_pool_reachable (HeapPool_make block_size node_size soft hard heap) a ->
  getNumReservedBlocks a = Z.of_nat (size (heap_blocks (hp_heap a))) /\ getNumAllocatedBlocks a = Z.of_nat (size (HeapPool_live a)) /\
  getNumReservedBlocks a <= (if 0 <? hard then hard else Z.min (2 * soft) 0xFFFF) /\
  heap_blocks (hp_heap a) = HeapPool_live a ∪ list_to_set (reserve_blocks a) /\ HeapPool_live a ## list_to_set (reserve_blocks a).
Proof.
  intros Hh He Hs Hr Hreach. set (limit := if 0 <? hard then hard else Z.min (2 * soft) 0xFFFF).
  assert (HI : HeapPool_inv a /\ capacity_hard_limit_ a = limit).
  { induction Hreach as [|a op a' _ [IH1 IH2] Hstep].
    - split; [exists []; by apply make_reserve|]. cbn -[wrap]. unfold limit, in_width in *. destruct (0 <? hard); [done|]. rewrite (wrap_small 32), wrap_small by (unfold in_width; lia). lia.
    - destruct (heap_pool_step_inv a op a' IH1 Hstep) as [? ->]. done. }
  destruct HI as [Hi Hlim]. split_and!; [|by apply allocated_is_live| | |set_solver]; destruct Hi as [l Ha].
  - apply Ha.
  - pose proof (hi_hard _ _ Ha). unfold getNumReservedBlocks. lia.
  - rewrite (live_is a l Ha), (reserve_blocks_is a l Ha). apply set_eq. intros x. rewrite elem_of_union, elem_of_difference, elem_of_list_to_set.
    pose proof (hi_sub _ _ Ha x). destruct (decide (x ∈ l)); tauto.
Qed.
End heap_pool.

(** ** A heap *)

Module SimHeap.
(** Addresses are given out once, up to a limit. *)
Record Heap := mkHeap { top : Z; limit : Z; taken : gset Z }.
#[export] Instance Heap_ops : IHeap Heap := {
  malloc h size := if top h + Z.max 1 size <=? limit h then (Some (top h), mkHeap (top h + Z.max 1 size) (limit h) ({[top h]} ∪ taken h)) else (None, h);
  free h p := mkHeap (top h) (limit h) (taken h ∖ {[p]})
}.
#[export] Instance Heap_laws : HeapLaws Heap.
Proof.
  refine {| heap_blocks := taken; heap_inv h := 0 < top h /\ forall p, p ∈ taken h -> p < top h |}.
  - intros h size p h' [H0 H1]. cbn [malloc Heap_ops]. destruct (_ <=? _); [|done]. intros [= <- <-]. cbn [taken top]. split_and!; [lia| |done|lia|].
    + intros Hp%H1. lia.
    + intros p [->%elem_of_singleton|Hp%H1]%elem_of_union; lia.
  - intros h size h' Hi. cbn [malloc Heap_ops]. destruct (_ <=? _); [done|]. by intros [= <-].
  - intros h p [H0 H1] Hp. cbn [free Heap_ops taken top]. split_and!; [done|done|]. intros q [Hq%H1 _]%elem_of_difference. lia.
Defined.

(** Three blocks are taken, the fourth is refused by the hard limit; one that is given back is reused, another one freed. *)
Lemma heap_pool_example :
  let a := HeapPool_make 64 64 1 3 (mkHeap 0x1000 0x2000 ∅) in
  let '(p1, a) := HeapPool_allocate a 64 in let '(p2, a) := HeapPool_allocate a 64 in let '(p3, a) := HeapPool_allocate a 64 in
  let '(p4, a) := HeapPool_allocate a 64 in let '(p5, a) := HeapPool_allocate (HeapPool_deallocate a 0x1040) 10 in
  (p1, p2, p3, p4, p5) = (Some 0x1000, Some 0x1040, Some 0x1080, None, Some 0x1040) /\
  (getNumReservedBlocks <$> shrink (HeapPool_deallocate a 0x1000)) = Some 2.
Proof. by vm_compute. Qed.
End SimHeap.
