(* ===== verification/FileBackend.v ===== *)
(** * FileBackend: files on a POSIX system

    Models [BasicFileServerBackend] of [libuavcan_drivers/posix/include/uavcan_posix/basic_file_server_backend.hpp], the backend that
    the file server ([DeviceServices.Files]) uses on Linux and similar systems, with its cache of open descriptors. The system calls are a class; [PosixLaws]
    states what their documentation promises for files that do not change while they are read: any call may fail with an error number, and what
    can be opened need not be a regular file. Paths are without zero bytes. *)

From stdpp Require Import gmap.
From S2P Require Import Prelude.
Local Open Scope Z_scope.

Abbreviation Path := (list Z).

(** ** The host *)

(** [open], [close], [lseek] with [SEEK_SET], [read] (count and bytes), [stat] (result, size, whether a directory, whether a regular file), [errno], [time],
    [strndup], and whether [new] gives memory. *)
Class IPosix (W : Type) := {
  posix_open : W -> Path -> Z -> Z * W;
  posix_close : W -> Z -> Z * W;
  posix_lseek : W -> Z -> Z -> Z * W;
  posix_read : W -> Z -> Z -> Z * list Z * W;
  posix_stat : W -> Path -> Z * Z * bool * bool;
  posix_errno : W -> Z;
  posix_time : W -> Z * W;
  posix_strndup : W -> Path -> Z -> option Path;
  posix_new : W -> bool
}.

Section backend.
Context {W : Type} `{IPosix W}.

(** Constants of the host and of the data types of [uavcan.protocol.file]. *)
Context (O_RDONLY INVALID_VALUE FLAG_READABLE FLAG_DIRECTORY FLAG_FILE PathMaxSize : Z).

(** ** The cache *)

Definition MaxAgeSeconds : Z := 7.
Definition GarbageCollectionSeconds : Z := 60.

(** [FDCacheItem]; the items of the cache are a list that it owns. *)
Record FDCacheItem := mkItem { last_access_ : Z; fd_ : Z; oflags_ : Z; path_ : option Path }.
Definition InvalidFD : Z := -1.
Definition FDCacheItem_make (w : W) (fd : Z) (path : Path) (oflags : Z) : FDCacheItem := mkItem 0 fd oflags (posix_strndup w path PathMaxSize).
Definition valid (it : FDCacheItem) : bool := match path_ it with Some _ => true | None => false end.
Definition acessed (it : FDCacheItem) (w : W) : FDCacheItem * W :=
  let '(now, w) := posix_time w in (mkItem now (fd_ it) (oflags_ it) (path_ it), w).
Definition expire (it : FDCacheItem) : FDCacheItem := mkItem 0 (fd_ it) (oflags_ it) (path_ it).
Definition expired (it : FDCacheItem) (w : W) : bool * W :=
  if 0 =? last_access_ it then (true, w) else let '(now, w) := posix_time w in (MaxAgeSeconds <? now - last_access_ it, w).
Definition equals_path (path : Path) (oflags : Z) (it : FDCacheItem) : bool := (oflags_ it =? oflags) && bool_decide (path_ it = Some path).
Definition equals_fd (fd : Z) (it : FDCacheItem) : bool := fd_ it =? fd.

(** The base class, which is also the fallback. *)
Definition Base_open (w : W) (path : Path) (oflags : Z) : Z * W := posix_open w path oflags.
Definition Base_close (w : W) (fd : Z) : Z * W := posix_close w fd.

(** [find]: the items before the one found, that one, and those after it. *)
Fixpoint find_item (p : FDCacheItem -> bool) (l : list FDCacheItem) : option (list FDCacheItem * FDCacheItem * list FDCacheItem) :=
  match l with
  | [] => None
  | it :: l => if p it then Some ([], it, l) else '(l1, x, l2) ← find_item p l; Some (it :: l1, x, l2)
  end.

Definition add (head : list FDCacheItem) (it : FDCacheItem) (w : W) : list FDCacheItem * W := let '(it, w) := acessed it w in (it :: head, w).

(** [void removeExpired(FDCacheItem** pi)]. *)
Fixpoint removeExpired (l : list FDCacheItem) (w : W) : list FDCacheItem * W :=
  match l with
  | [] => ([], w)
  | it :: l =>
      let '(e, w) := expired it w in
      if e then removeExpired l (Base_close w (fd_ it)).2
      else let '(l, w) := removeExpired l w in (it :: l, w)
  end.

(** [void remove(FDCacheItem* pi, bool done)], for the item between [l1] and [l2]. *)
Definition FDCache_remove (l1 : list FDCacheItem) (it : FDCacheItem) (l2 : list FDCacheItem) (done : bool) (w : W) : list FDCacheItem * W :=
  removeExpired (l1 ++ (if done then expire it else it) :: l2) w.

(** [void clear()]. *)
Fixpoint clear (l : list FDCacheItem) (w : W) : W := match l with [] => w | it :: l => clear l (Base_close w (fd_ it)).2 end.

Definition FDCache_handleTimerEvent (head : list FDCacheItem) (w : W) : list FDCacheItem * W := removeExpired head w.

(** [virtual int open(const char* path, int oflags)]. *)
Definition FDCache_open (head : list FDCacheItem) (w : W) (path : Path) (oflags : Z) : Z * list FDCacheItem * W :=
  match find_item (equals_path path oflags) head with
  | Some (l1, it, l2) => let '(it, w) := acessed it w in (fd_ it, l1 ++ it :: l2, w)
  | None =>
      let '(fd, w) := Base_open w path oflags in
      if fd <? 0 then (fd, head, w)
      else
        let it := FDCacheItem_make w fd path oflags in
        if negb (posix_new w) || negb (valid it) then (fd, head, w)
        else let '(head, w) := add head it w in (fd, head, w)
  end.

(** [virtual int close(int fd, bool done)]. *)
Definition FDCache_close (head : list FDCacheItem) (w : W) (fd : Z) (done : bool) : Z * list FDCacheItem * W :=
  match find_item (equals_fd fd) head with
  | None => let '(res, w) := Base_close w fd in (res, head, w)
  | Some (l1, it, l2) =>
      let '(head, w) := FDCache_remove l1 it l2 done w in (0, head, w)
  end.

(** ** The backend *)

(** [fdcache_]: none yet, the fallback, or a cache with its items and the period of its timer. *)
Inductive Backend := NoCache | Fallback | Cached (head : list FDCacheItem) (period : Z).

(** [FDCacheBase& getFDCache()]. *)
Definition getFDCache (b : Backend) (w : W) : Backend :=
  match b with
  | NoCache => if posix_new w then Cached [] (GarbageCollectionSeconds * 1000 * 1000) else Fallback
  | _ => b
  end.

Definition cache_open (b : Backend) (w : W) (path : Path) (oflags : Z) : Z * Backend * W :=
  match b with
  | Cached head period => let '(fd, head, w) := FDCache_open head w path oflags in (fd, Cached head period, w)
  | _ => let '(fd, w) := Base_open w path oflags in (fd, b, w)
  end.
Definition cache_close (b : Backend) (w : W) (fd : Z) (done : bool) : Z * Backend * W :=
  match b with
  | Cached head period => let '(res, head, w) := FDCache_close head w fd done in (res, Cached head period, w)
  | _ => let '(res, w) := Base_close w fd in (res, b, w)
  end.

(** [virtual int16_t getInfo(const Path& path, uint64_t& out_size, EntryType& out_type)]: the code, the size and the flags. *)
Definition Backend_getInfo (w : W) (path : Path) (out_size out_flags : Z) : Z * Z * Z :=
  match path with
  | [] => (swrap 16 INVALID_VALUE, out_size, out_flags)
  | _ =>
      let '(rv, st_size, is_dir, is_reg) := posix_stat w path in
      if rv <? 0 then (swrap 16 (posix_errno w), out_size, out_flags)
      else (0, u64 st_size, if is_dir then Z.lor FLAG_READABLE FLAG_DIRECTORY else if is_reg then Z.lor FLAG_READABLE FLAG_FILE else FLAG_READABLE)
  end.

(** Storing bytes at a position of the buffer. *)
Definition store (buffer : list Z) (pos : Z) (bytes : list Z) : list Z :=
  take (Z.to_nat pos) buffer ++ bytes ++ drop (Z.to_nat pos + length bytes) buffer.

(** The loop of [read]: the code, the buffer and the number of bytes; none if it does not end within [fuel] rounds. *)
Fixpoint read_loop (fuel : nat) (w : W) (fd : Z) (buffer : list Z) (remaining total_read : Z) : option (Z * list Z * Z * W) :=
  match fuel with
  | O => None
  | S fuel =>
      let '(nread, bytes, w) := posix_read w fd remaining in
      if nread <? 0 then Some (posix_errno w, buffer, total_read, w)
      else
        let buffer := store buffer total_read bytes in
        let remaining := remaining - nread in
        let total_read := total_read + nread in
        if (0 <? nread) && (0 <? remaining) then read_loop fuel w fd buffer remaining total_read
        else Some (0, buffer, total_read, w)
  end.

(** [virtual int16_t read(const Path& path, const uint64_t offset, uint8_t* out_buffer, uint16_t& inout_size)]: the code, the buffer and the size. *)
Definition Backend_read (b : Backend) (w : W) (path : Path) (offset : Z) (buffer : list Z) (inout_size : Z) : option (Z * list Z * Z * Backend * W) :=
  if bool_decide (path = []) || (inout_size =? 0) then Some (swrap 16 INVALID_VALUE, buffer, inout_size, b, w)
  else
    let b := getFDCache b w in
    let '(fd, b, w) := cache_open b w path O_RDONLY in
    if fd <? 0 then Some (swrap 16 (posix_errno w), buffer, inout_size, b, w)
    else
      let '(pos, w) := posix_lseek w fd (i64 offset) in
      let rv := swrap 32 pos in
      '(rv, buffer, total_read, w) ←
        (if rv <? 0 then Some (posix_errno w, buffer, 0, w) else read_loop (S (Z.to_nat inout_size)) w fd buffer inout_size 0);
      let '(_, b, w) := cache_close b w fd (negb (rv =? 0) || negb (total_read =? inout_size)) in
      Some (swrap 16 rv, buffer, u16 total_read, b, w).

(** The timer of the cache. *)
Definition Backend_timer (b : Backend) (w : W) : Backend * W :=
  match b with Cached head period => let '(head, w) := FDCache_handleTimerEvent head w in (Cached head period, w) | _ => (b, w) end.

(** [~BasicFileServerBackend()]. *)
Definition Backend_destroy (b : Backend) (w : W) : W := match b with Cached head _ => clear head w | _ => w end.

(** ** What the host promises *)

(** What a path names: a regular file with its bytes, nothing that can be opened for reading, or something else, such as a directory. *)
Inductive Entry := RegularFile (content : list Z) | NoFile | OtherEntry.

(** The entries do not change; [fds] are the descriptors that were opened here and not yet closed, with their path and position; [failed] is how many of the calls
    failed so far. A call of [open], [lseek] or [read] does its work or fails, which is counted, and sets [errno]. A read of a regular file gives at least a byte, unless
    it is at the end. Other entries may be opened, and what reading them gives is open. *)
Class PosixLaws := {
  entry : W -> Path -> Entry;
  fds : W -> gmap Z (Path * Z);
  failed : W -> nat;
  open_law w path : let '(fd, w') := posix_open w path O_RDONLY in entry w' = entry w /\
    (0 <= fd /\ entry w path <> NoFile /\ fds w !! fd = None /\ fds w' = <[fd := (path, 0)]> (fds w) /\ failed w' = failed w \/
     fd < 0 /\ 0 < posix_errno w' < 2 ^ 15 /\ fds w' = fds w /\ failed w' = S (failed w));
  close_law w fd : let w' := (posix_close w fd).2 in fds w' = delete fd (fds w) /\ entry w' = entry w /\ (failed w <= failed w')%nat;
  lseek_law w fd path pos offset : fds w !! fd = Some (path, pos) -> 0 <= offset ->
    let '(res, w') := posix_lseek w fd offset in entry w' = entry w /\
    (res = offset /\ fds w' = <[fd := (path, offset)]> (fds w) /\ failed w' = failed w \/
     res = -1 /\ 0 < posix_errno w' < 2 ^ 15 /\ fds w' = fds w /\ failed w' = S (failed w));
  read_law w fd path pos n : fds w !! fd = Some (path, pos) -> 0 <= pos -> 0 < n ->
    let '(nread, bytes, w') := posix_read w fd n in entry w' = entry w /\
    (nread = Z.of_nat (length bytes) /\ nread <= n /\ fds w' = <[fd := (path, pos + nread)]> (fds w) /\ failed w' = failed w /\
       (forall f, entry w path = RegularFile f -> bytes = take (length bytes) (drop (Z.to_nat pos) f) /\ ((Z.to_nat pos < length f)%nat -> bytes <> [])) \/
     nread = -1 /\ 0 < posix_errno w' < 2 ^ 15 /\ (exists pos', fds w' = <[fd := (path, pos')]> (fds w)) /\ failed w' = S (failed w));
  fd_entry w fd path pos : fds w !! fd = Some (path, pos) -> entry w path <> NoFile;
  time_law w : fds (posix_time w).2 = fds w /\ entry (posix_time w).2 = entry w /\ failed (posix_time w).2 = failed w;
  strndup_copies w path n path' : Z.of_nat (length path) <= n -> posix_strndup w path n = Some path' -> path' = path
}.

Context `{laws : !PosixLaws}.

(** The entries stay, and calls may have failed. *)
Definition calm (w w' : W) : Prop := entry w' = entry w /\ (failed w <= failed w')%nat.
Lemma host_calm_refl w : calm w w.
Proof. by split. Qed.
Lemma host_calm_trans w w1 w' : calm w w1 -> calm w1 w' -> calm w w'.
Proof. intros [H1 H2] [H3 H4]. split; [congruence|lia]. Qed.

(** ** The cache owns what is open *)

(** The descriptors [extra] are open beside those of the items. *)
Record owns (l : list FDCacheItem) (extra : gset Z) (w : W) : Prop := {
  ow_nodup : NoDup (fd_ <$> l);
  ow_fds : dom (fds w) = list_to_set (fd_ <$> l) ∪ extra;
  ow_extra : forall it, it ∈ l -> fd_ it ∉ extra;
  ow_item : forall it, it ∈ l -> exists path pos, path_ it = Some path /\ oflags_ it = O_RDONLY /\ 0 <= fd_ it /\ fds w !! fd_ it = Some (path, pos)
}.

(** Changes of the times of access only. *)
Definition similar (it it' : FDCacheItem) : Prop := fd_ it = fd_ it' /\ oflags_ it = oflags_ it' /\ path_ it = path_ it'.

Lemma owns_similar l1 it it' l2 extra w : owns (l1 ++ it :: l2) extra w -> similar it it' -> owns (l1 ++ it' :: l2) extra w.
Proof.
  intros [H1 H2 H3 H4] (E1 & E2 & E3). rewrite !fmap_app, !fmap_cons, E1 in *. split; rewrite ?fmap_app, ?fmap_cons; try done.
  - intros x [Hx|[->|Hx]%elem_of_cons]%elem_of_app; [apply H3; set_solver|rewrite <-E1; apply H3; set_solver|apply H3; set_solver].
  - intros x [Hx|[->|Hx]%elem_of_cons]%elem_of_app; [apply H4; set_solver|rewrite <-E1, <-E2, <-E3; apply H4; set_solver|apply H4; set_solver].
Qed.

(** Positions may move. *)
Lemma owns_moved l extra w w' fd path pos pos' :
  owns l extra w -> fds w !! fd = Some (path, pos) -> fds w' = <[fd := (path, pos')]> (fds w) -> owns l extra w'.
Proof.
  intros [H1 H2 H3 H4] Hf E. split; [done| |done|].
  - rewrite E, dom_insert_L, H2. assert (fd ∈ dom (fds w)) by (apply elem_of_dom; eauto). set_solver.
  - intros it Hit. destruct (H4 it Hit) as (p & q & Ep & Eo & Eg & Ef). rewrite E. destruct (decide (fd_ it = fd)) as [Eq|Hne].
    + rewrite Eq in *. rewrite lookup_insert_eq. rewrite Hf in Ef. injection Ef as <- <-. eauto 8.
    + rewrite lookup_insert_ne by done. eauto 8.
Qed.

Lemma owns_same l extra w w' : owns l extra w -> fds w' = fds w -> owns l extra w'.
Proof. intros [H1 H2 H3 H4] E. split; rewrite ?E; try done. Qed.

(** Closing a descriptor of the cache, or another one. *)
Lemma owns_close_head it l extra w : owns (it :: l) extra w -> owns l extra (posix_close w (fd_ it)).2.
Proof.
  intros [H1 H2 H3 H4]. destruct (close_law w (fd_ it)) as [E _]. rewrite fmap_cons in *. apply NoDup_cons in H1 as [Hn Hd].
  pose proof (H3 it ltac:(by left)) as Hx. split; [done| | |].
  - rewrite E, dom_delete_L, H2. cbn [list_to_set]. set_solver.
  - intros x Hi. apply H3. by right.
  - intros x Hi. rewrite E, lookup_delete_ne; [apply H4; by right|]. intros Eq. apply Hn. rewrite Eq. apply list_elem_of_fmap. eauto.
Qed.

Lemma owns_close_extra l fd w : owns l {[fd]} w -> owns l ∅ (posix_close w fd).2.
Proof.
  intros [H1 H2 H3 H4]. destruct (close_law w fd) as [E _]. split; [done| |set_solver|].
  - rewrite E, dom_delete_L, H2. apply set_eq. intros x. rewrite elem_of_difference, !elem_of_union, elem_of_singleton, elem_of_list_to_set, list_elem_of_fmap.
    split; [tauto|]. intros [(it & -> & Hi)|?]; [|set_solver]. specialize (H3 it Hi). set_solver.
  - intros x Hi. rewrite E, lookup_delete_ne; [by apply H4|]. intros ->. specialize (H3 x Hi). set_solver.
Qed.

Lemma time_calm w : fds (posix_time w).2 = fds w /\ calm w (posix_time w).2.
Proof. destruct (time_law w) as (E1 & E2 & E3). split; [done|]. split; [done|lia]. Qed.
Lemma expired_only it w : fds (expired it w).2 = fds w /\ calm w (expired it w).2.
Proof. unfold expired. destruct (0 =? _); [split; [done|apply host_calm_refl]|]. pose proof (time_calm w). by destruct (posix_time w). Qed.

Lemma owns_perm l l' extra w : l ≡ₚ l' -> owns l extra w -> owns l' extra w.
Proof.
  intros Hp [H1 H2 H3 H4]. assert (Hf : fd_ <$> l ≡ₚ fd_ <$> l') by (by rewrite Hp). split; [by rewrite <-Hf| | |]; [|intros it; rewrite <-Hp; auto..].
  rewrite H2. f_equal. apply set_eq. intros x. rewrite !elem_of_list_to_set. by rewrite Hf.
Qed.

Lemma removeExpired_owns l : forall kept extra w, owns (kept ++ l) extra w ->
  let '(l', w') := removeExpired l w in owns (kept ++ l') extra w' /\ calm w w'.
Proof.
  induction l as [|it l IH]; intros kept extra w Ho; cbn [removeExpired]; [split; [done|apply host_calm_refl]|]. pose proof (expired_only it w) as [E1 E2]. destruct (expired it w) as [e w1]. cbn [snd] in *. destruct e.
  - unfold Base_close. assert (Ec : calm w1 (posix_close w1 (fd_ it)).2) by apply (close_law w1 (fd_ it)).
    assert (Ho' : owns (kept ++ l) extra (posix_close w1 (fd_ it)).2).
    { apply owns_close_head, (owns_perm (kept ++ it :: l)); [by rewrite Permutation_middle|]. by eapply owns_same. }
    specialize (IH kept extra _ Ho'). destruct (removeExpired l _) as [l' w']. destruct IH as [IH1 IH2]. split; [done|]. by eapply host_calm_trans, host_calm_trans.
  - assert (Ho' : owns ((kept ++ [it]) ++ l) extra w1) by (rewrite <-app_assoc; by eapply owns_same).
    specialize (IH _ extra _ Ho'). destruct (removeExpired l w1) as [l' w']. destruct IH as [IH1 IH2]. rewrite <-app_assoc in IH1. split; [done|]. by eapply host_calm_trans.
Qed.

Lemma clear_owns l w : owns l ∅ w -> fds (clear l w) = ∅.
Proof.
  revert w. induction l as [|it l IH]; intros w Ho; cbn [clear].
  - apply dom_empty_inv_L. rewrite (ow_fds _ _ _ Ho). set_solver.
  - apply IH. by apply owns_close_head.
Qed.

Lemma find_item_some p l l1 it l2 : find_item p l = Some (l1, it, l2) -> l = l1 ++ it :: l2 /\ p it = true.
Proof.
  revert l1. induction l as [|x l IH]; intros l1; cbn [find_item]; [done|]. destruct (p x) eqn:Ex; [by intros [= <- <- <-]|].
  destruct (find_item p l) as [[[a b] c]|]; [|done]. intros [= <- <- <-]. destruct (IH a eq_refl) as [-> ?]. done.
Qed.

Lemma find_item_none p l it : find_item p l = None -> it ∈ l -> p it = false.
Proof.
  induction l as [|x l IH]; cbn [find_item]; [set_solver|]. destruct (p x) eqn:Ex; [done|]. destruct (find_item p l) as [[[a b] c]|]; [done|].
  intros _ [->|?]%elem_of_cons; auto.
Qed.

(** What a backend has open, beside [extra]. *)
Definition Backend_owns (b : Backend) (extra : gset Z) (w : W) : Prop :=
  match b with Cached head _ => owns head extra w | _ => dom (fds w) = extra end.

(** After a file was opened its descriptor is in the cache, or else to be closed. *)
Definition opened (b : Backend) (fd : Z) (path : Path) (w : W) : Prop :=
  0 <= fd /\ (exists pos, fds w !! fd = Some (path, pos)) /\
  match b with Cached head _ => owns head ∅ w /\ fd ∈ fd_ <$> head \/ owns head {[fd]} w | _ => dom (fds w) = {[fd]} end.

Lemma owns_fresh l w w' fd path : owns l ∅ w -> fds w !! fd = None -> fds w' = <[fd := (path, 0)]> (fds w) -> owns l {[fd]} w'.
Proof.
  intros [H1 H2 H3 H4] Hf E. assert (Hn : forall it, it ∈ l -> fd_ it <> fd) by (intros it Hi; destruct (H4 it Hi) as (? & ? & _ & _ & _ & Ef); congruence). split; [done| | |].
  - rewrite E, dom_insert_L, H2. set_solver.
  - intros it Hi. specialize (Hn it Hi). set_solver.
  - intros it Hi. rewrite E, lookup_insert_ne by (specialize (Hn it Hi); congruence). auto.
Qed.

Lemma owns_adopt l w it path pos : owns l {[fd_ it]} w -> path_ it = Some path -> oflags_ it = O_RDONLY -> 0 <= fd_ it -> fds w !! fd_ it = Some (path, pos) -> owns (it :: l) ∅ w.
Proof.
  intros [H1 H2 H3 H4] Ep Eo Eg Ef. split; [| |set_solver|intros x [->|Hx]%elem_of_cons; eauto 8].
  - rewrite fmap_cons. apply NoDup_cons. split; [|done]. intros (x & Eq & Hx)%list_elem_of_fmap. specialize (H3 x Hx). rewrite Eq in H3. set_solver.
  - rewrite H2, fmap_cons. cbn [list_to_set]. set_solver.
Qed.

Lemma cache_open_ok b w path : Backend_owns b ∅ w -> Z.of_nat (length path) <= PathMaxSize ->
  let '(fd, b', w') := cache_open b w path O_RDONLY in calm w w' /\
  (opened b' fd path w' /\ entry w path <> NoFile \/ fd < 0 /\ 0 < posix_errno w' < 2 ^ 15 /\ Backend_owns b' ∅ w' /\ (failed w < failed w')%nat).
Proof.
  intros Ho Hlen. pose proof (open_law w path) as Hop. destruct (posix_open w path O_RDONLY) as [fd w1] eqn:Eo. destruct Hop as [Een Hop].
  assert (Hcalm : calm w w1) by (split; [done|destruct Hop as [(_ & _ & _ & _ & ->)|(_ & _ & _ & ->)]; lia]).
  destruct b as [| |head period]; cbn [cache_open Backend_owns] in *; unfold Base_open.
  1,2: rewrite Eo; split; [done|]; destruct Hop as [(Hfd & Hne & Hnone & Efds & _)|(Hfd & Herr & Efds & Ef)]; [left|right; split_and!; try lia; cbn [Backend_owns]; by rewrite Efds];
    split; [|done]; split_and!; [done|exists 0; rewrite Efds; apply lookup_insert_eq|rewrite Efds, dom_insert_L, Ho; set_solver].
  unfold FDCache_open. destruct (find_item (equals_path path O_RDONLY) head) as [[[l1 it] l2]|] eqn:Ei.
  - apply find_item_some in Ei as [-> Eq]. unfold equals_path in Eq. apply andb_true_iff in Eq as [_ Eq%bool_decide_eq_true]. unfold acessed. pose proof (time_calm w) as [T1 T2].
    destruct (posix_time w) as [now wt]. cbn [snd fd_] in *. split; [done|]. left.
    destruct (ow_item _ _ _ Ho it ltac:(set_solver)) as (p & pos & Ep & Eof & Hpos & Elk). rewrite Eq in Ep. injection Ep as <-.
    split; [|by eapply fd_entry]. split_and!; [done|rewrite T1; eauto|]. left. split; [|rewrite fmap_app, fmap_cons; set_solver].
    apply (owns_same _ _ w); [|done]. by eapply owns_similar.
  - unfold Base_open. rewrite Eo. destruct Hop as [(Hfd & Hne & Hnone & Efds & _)|(Hfd & Herr & Efds & Ef)].
    2:{ rewrite (proj2 (Z.ltb_lt fd 0) Hfd). split; [done|]. right. split_and!; try lia. by eapply owns_same. }
    assert (Hlk : fds w1 !! fd = Some (path, 0)) by (rewrite Efds; apply lookup_insert_eq).
    rewrite (proj2 (Z.ltb_ge fd 0) Hfd). pose proof (owns_fresh head w w1 fd path Ho Hnone Efds) as Hx.
    destruct (negb (posix_new w1) || negb (valid _)) eqn:Ev; [split; [done|]; left; split; [|done]; split_and!; eauto|].
    apply orb_false_iff in Ev as [_ Ev]. unfold valid in Ev. cbn [FDCacheItem_make path_] in Ev. destruct (posix_strndup w1 path PathMaxSize) as [path'|] eqn:Es; [|done].
    pose proof (strndup_copies _ _ _ _ Hlen Es) as ->. unfold add, acessed. pose proof (time_calm w1) as [T1 T2]. destruct (posix_time w1) as [now wt]. cbn [snd] in *.
    split; [by eapply host_calm_trans|]. left. split; [|done]. split_and!; [done|rewrite T1; eauto|]. left. split; [|cbn; set_solver]. apply (owns_same _ _ w1); [|done].
    eapply (owns_adopt head w1 _ path 0); cbn; [exact Hx|exact Es|done|done|exact Hlk].
Qed.

Lemma cache_close_ok b w fd path finished : opened b fd path w ->
  let '(_, b', w') := cache_close b w fd finished in Backend_owns b' ∅ w' /\ calm w w'.
Proof.
  intros (Hfd & (pos & Hlk) & Ho). destruct (close_law w fd) as [Ec Ef].
  destruct b as [| |head period]; cbn [cache_close]; unfold Base_close; [destruct (posix_close w fd); cbn in *; split; [rewrite Ec, dom_delete_L, Ho; set_solver|done]..|].
  unfold FDCache_close, FDCache_remove. destruct (find_item (equals_fd fd) head) as [[[l1 it] l2]|] eqn:Ei.
  - apply find_item_some in Ei as [-> Eq%Z.eqb_eq]. assert (Ho' : owns (l1 ++ it :: l2) ∅ w).
    { destruct Ho as [[Ho _]|Ho]; [done|]. exfalso. apply (ow_extra _ _ _ Ho it); set_solver. }
    assert (Ho2 : owns (l1 ++ (if finished then expire it else it) :: l2) ∅ w) by (destruct finished; [by eapply owns_similar|done]).
    pose proof (removeExpired_owns _ [] ∅ w Ho2) as Hr. destruct (removeExpired _ w) as [head' w']. exact Hr.
  - destruct Ho as [[_ (it & Eq & Hit)%list_elem_of_fmap]|Ho].
    + pose proof (find_item_none _ _ it Ei Hit) as Hn. unfold equals_fd in Hn. apply Z.eqb_neq in Hn. congruence.
    + unfold Base_close. apply owns_close_extra in Ho. destruct (posix_close w fd). done.
Qed.

Lemma opened_moved b fd path w w' pos : opened b fd path w -> fds w' = <[fd := (path, pos)]> (fds w) -> opened b fd path w'.
Proof.
  intros (Hfd & (pos0 & Hlk) & Ho) E. split_and!; [done|exists pos; rewrite E; apply lookup_insert_eq|].
  destruct b as [| |head period]; [rewrite E, dom_insert_L, Ho; set_solver..|].
  destruct Ho as [[Ho Hi]|Ho]; [left; split; [|done]|right]; by eapply owns_moved.
Qed.

(** ** Reading *)

Lemma store_store buffer t b1 b2 : 0 <= t -> (Z.to_nat t + length b1 <= length buffer)%nat -> store (store buffer t b1) (t + Z.of_nat (length b1)) b2 = store buffer t (b1 ++ b2).
Proof.
  intros Ht Hl. unfold store. replace (Z.to_nat (t + Z.of_nat (length b1))) with (Z.to_nat t + length b1)%nat by lia.
  assert (Hlen : length (take (Z.to_nat t) buffer ++ b1) = (Z.to_nat t + length b1)%nat) by (rewrite length_app, length_take; lia).
  rewrite (app_assoc (take _ _) b1), take_app_le, take_ge by lia. rewrite drop_app_ge by lia. rewrite drop_drop, Hlen, length_app, <-!app_assoc. do 3 f_equal. f_equal. lia.
Qed.

Lemma read_loop_ok fuel : forall w fd path pos buffer remaining total,
  fds w !! fd = Some (path, pos) -> 0 <= pos -> 0 < remaining < Z.of_nat fuel -> 0 <= total -> total + remaining <= Z.of_nat (length buffer) ->
  exists rv buffer' total' w' pos', read_loop fuel w fd buffer remaining total = Some (rv, buffer', total', w') /\
    fds w' = <[fd := (path, pos')]> (fds w) /\ calm w w' /\
    (rv = 0 /\ (forall f, entry w path = RegularFile f -> let data := take (Z.to_nat remaining) (drop (Z.to_nat pos) f) in
       buffer' = store buffer total data /\ total' = total + Z.of_nat (length data)) \/
     0 < rv < 2 ^ 15 /\ (failed w < failed w')%nat).
Proof.
  induction fuel as [|fuel IH]; intros w fd path pos buffer remaining total Hfd Hpos Hr Ht Hb; [lia|].
  pose proof (read_law w fd path pos remaining Hfd Hpos ltac:(lia)) as Hl. cbn [read_loop]. destruct (posix_read w fd remaining) as [[nread bytes] w1].
  destruct Hl as [Een [(-> & Hle & Efds & Ef & Hfile)|(-> & Herr & (pos' & Efds) & Ef)]].
  2:{ cbn [Z.ltb Z.compare]. eexists _, _, _, w1, pos'. split_and!; [done|done|split; [done|lia]|]. right. split; [done|lia]. }
  rewrite (proj2 (Z.ltb_ge (Z.of_nat (length bytes)) 0)) by lia. assert (Hcalm : calm w w1) by (split; [done|lia]).
  destruct (Z.ltb_spec 0 (Z.of_nat (length bytes))) as [H0|H0]; cbn [andb].
  - destruct (Z.ltb_spec 0 (remaining - Z.of_nat (length bytes))) as [H1|H1].
    + edestruct (IH w1 fd path (pos + Z.of_nat (length bytes)) (store buffer total bytes) (remaining - Z.of_nat (length bytes)) (total + Z.of_nat (length bytes))) as (rv & buf & tot & w' & pos' & E & Efds' & Hcalm' & Hres);
        [rewrite Efds; apply lookup_insert_eq|lia|lia|lia|unfold store; rewrite !length_app, length_take, length_drop; lia|].
      exists rv, buf, tot, w', pos'. rewrite E. split_and!; [done|by rewrite Efds', Efds, insert_insert_eq|by eapply host_calm_trans|].
      destruct Hres as [[-> Hres]|[Hres1 Hres2]]; [left; split; [done|]|right; split; [done|destruct Hcalm; lia]]. intros f Hf. cbv zeta. destruct (Hfile f Hf) as [Ebytes _].
      destruct (Hres f ltac:(by rewrite Een)) as [-> ->]. rewrite store_store by lia. set (data2 := take _ (drop (Z.to_nat (pos + _)) f)) in *.
      assert (Ed : take (Z.to_nat remaining) (drop (Z.to_nat pos) f) = bytes ++ data2).
      { replace (Z.to_nat remaining) with (length bytes + Z.to_nat (remaining - Z.of_nat (length bytes)))%nat by lia. rewrite <-take_take_drop, <-Ebytes.
        unfold data2. rewrite drop_drop. do 3 f_equal. lia. }
      rewrite Ed, length_app. split; [done|lia].
    + eexists _, _, _, w1, _. split_and!; [done|exact Efds|done|]. left. split; [done|]. intros f Hf. destruct (Hfile f Hf) as [Ebytes _].
      assert (Eq : length bytes = Z.to_nat remaining) by lia. cbv zeta. rewrite <-Eq, <-Ebytes. done.
  - assert (Eb : bytes = []) by (destruct bytes; [done|cbn in H0; lia]). subst bytes. eexists _, _, _, w1, _. split_and!; [done|exact Efds|done|]. left. split; [done|].
    intros f Hf. destruct (Hfile f Hf) as [_ Hsome]. cbv zeta.
    assert (En : drop (Z.to_nat pos) f = []) by (apply drop_ge; destruct (decide (Z.to_nat pos < length f)%nat) as [Hlt|]; [by destruct (Hsome Hlt)|lia]).
    rewrite En, take_nil. done.
Qed.

(** A request for a regular file gets exactly its bytes, whatever the cache holds, or an error because a call failed; one for nothing gets an error; descriptors are
    neither lost nor used after they were closed. *)
Lemma Backend_read_ok b w path offset size :
  Backend_owns b ∅ w -> (0 < length path)%nat -> Z.of_nat (length path) <= PathMaxSize -> 0 <= offset < 2 ^ 31 -> 0 < size < 2 ^ 16 ->
  exists rv buffer n b' w', Backend_read b w path offset (replicate (Z.to_nat size) 0) size = Some (rv, buffer, n, b', w') /\
    Backend_owns b' ∅ w' /\ calm w w' /\ 0 <= rv /\ (entry w path = NoFile -> rv <> 0) /\
    (forall f, entry w path = RegularFile f ->
       rv = 0 /\ take (Z.to_nat n) buffer = take (Z.to_nat size) (drop (Z.to_nat offset) f) \/ 0 < rv /\ (failed w < failed w')%nat).
Proof.
  intros Ho Hp0 Hp Hoff Hsize. unfold Backend_read. rewrite bool_decide_eq_false_2 by (destruct path; cbn in Hp0; [lia|done]). rewrite (proj2 (Z.eqb_neq size 0)) by lia. cbn [orb].
  assert (Hg : Backend_owns (getFDCache b w) ∅ w).
  { destruct b; cbn in *; [|done..]. destruct (posix_new w); cbn; [|done]. split; [constructor|rewrite Ho; set_solver|set_solver|set_solver]. }
  pose proof (cache_open_ok _ w path Hg Hp) as Hc. destruct (cache_open _ w path O_RDONLY) as [[fd b1] w1]. destruct Hc as [Hcalm1 [[Hop Hne]|(Hfd & Herr & Ho1 & Ef1)]].
  2:{ rewrite (proj2 (Z.ltb_lt fd 0) Hfd). eexists _, _, _, _, _. split; [reflexivity|]. rewrite swrap_small by lia. split_and!; try done; try lia. }
  pose proof Hop as (Hfd & (pos & Hlk) & Hrest). rewrite (proj2 (Z.ltb_ge fd 0) Hfd). rewrite (swrap_small 64) by lia.
  pose proof (lseek_law w1 fd path pos offset Hlk ltac:(lia)) as Hl. destruct (posix_lseek w1 fd offset) as [res w2]. destruct Hl as [Een2 [(-> & Efds2 & Ef2)|(-> & Herr & Efds2 & Ef2)]].
  - rewrite (swrap_small 32) by lia. rewrite (proj2 (Z.ltb_ge offset 0)) by lia. pose proof (opened_moved b1 fd path w1 w2 offset Hop Efds2) as Hop2.
    assert (Hcalm2 : calm w w2) by (eapply host_calm_trans; [done|]; split; [done|lia]).
    destruct (read_loop_ok (S (Z.to_nat size)) w2 fd path offset (replicate (Z.to_nat size) 0) size 0) as (rv & buf & tot & w3 & pos3 & Er & Efds3 & Hcalm3 & Hres);
      [rewrite Efds2; apply lookup_insert_eq|lia|lia|lia|rewrite length_replicate; lia|]. rewrite Er. cbn [mbind option_bind].
    match goal with |- context [cache_close b1 w3 fd ?d] => pose proof (cache_close_ok b1 w3 fd path d (opened_moved _ _ _ _ _ _ Hop2 Efds3)) as Hcl;
      destruct (cache_close b1 w3 fd d) as [[r b4] w4] end. destruct Hcl as [Hcl1 Hcl2].
    pose proof (host_calm_trans _ _ _ Hcalm2 (host_calm_trans _ _ _ Hcalm3 Hcl2)) as Hcalm4. eexists _, _, _, _, _. split; [reflexivity|].
    assert (Hrv : 0 <= rv < 2 ^ 15) by (destruct Hres as [[-> _]|[? _]]; lia). rewrite (swrap_small 16 rv) by lia. split_and!; try done; try lia. intros f Hf.
    assert (Hf2 : entry w2 path = RegularFile f) by (destruct Hcalm2 as [-> _]; done). destruct Hres as [[-> Hres]|[Hres1 Hres2]].
    + left. split; [done|]. destruct (Hres f Hf2) as [-> ->]. cbv zeta. set (data := take (Z.to_nat size) (drop (Z.to_nat offset) f)).
      assert (Hlen : Z.of_nat (length data) <= size) by (unfold data; rewrite length_take; lia).
      rewrite Z.add_0_l, wrap_small, Nat2Z.id by (unfold in_width; lia). unfold store. rewrite take_0. cbn [app]. by rewrite take_app_length.
    + right. split; [lia|]. destruct Hcalm2, Hcl2. lia.
  - rewrite (swrap_small 32 (-1)) by lia. cbn [Z.ltb Z.compare mbind option_bind].
    assert (Hop2 : opened b1 fd path w2) by (apply (opened_moved b1 fd path w1 w2 pos Hop); rewrite Efds2; by rewrite insert_id).
    match goal with |- context [cache_close b1 w2 fd ?d] => pose proof (cache_close_ok b1 w2 fd path d Hop2) as Hcl; destruct (cache_close b1 w2 fd d) as [[r b4] w4] end.
    destruct Hcl as [Hcl1 Hcl2]. assert (Hcalm2 : calm w1 w2) by (split; [done|lia]).
    eexists _, _, _, _, _. split; [reflexivity|]. rewrite swrap_small by lia. split_and!; try done; try lia.
    + by eapply host_calm_trans, host_calm_trans.
    + intros f _. right. split; [lia|]. destruct Hcalm1, Hcl2. lia.
Qed.

(** ** Every use of the backend *)

(** Requests, and the timer of the cache. *)
Inductive FileOp := FileRead (path : Path) (offset size : Z) | FileTimer.

(** The answers: the code, and the bytes that were read. *)
Definition file_step (b : Backend) (w : W) (op : FileOp) : option (list (Z * list Z) * Backend * W) :=
  match op with
  | FileRead path offset size =>
      '(rv, buffer, n, b, w) ← Backend_read b w path offset (replicate (Z.to_nat size) 0) size;
      Some ([(rv, if rv =? 0 then take (Z.to_nat n) buffer else [])], b, w)
  | FileTimer => let '(b, w) := Backend_timer b w in Some ([], b, w)
  end.
Fixpoint file_run (b : Backend) (w : W) (ops : list FileOp) : option (list (Z * list Z) * Backend * W) :=
  match ops with
  | [] => Some ([], b, w)
  | op :: ops => '(r, b, w) ← file_step b w op; '(rs, b, w) ← file_run b w ops; Some (r ++ rs, b, w)
  end.

(** Requests the message can carry, below the position from which [lseek] does not fit an [int]. *)
Definition request_ok (op : FileOp) : Prop :=
  match op with
  | FileRead path offset size => (0 < length path)%nat /\ Z.of_nat (length path) <= PathMaxSize /\ 0 <= offset < 2 ^ 31 /\ 0 < size < 2 ^ 16
  | FileTimer => True
  end.

(** What the answers are to be, and how many requests for regular files were refused. *)
Fixpoint answers (content : Path -> Entry) (ops : list FileOp) (rs : list (Z * list Z)) (refused : nat) : Prop :=
  match ops, rs with
  | [], [] => refused = O
  | FileTimer :: ops, rs => answers content ops rs refused
  | FileRead path offset size :: ops, (rv, data) :: rs =>
      match content path with
      | RegularFile f =>
          rv = 0 /\ data = take (Z.to_nat size) (drop (Z.to_nat offset) f) /\ answers content ops rs refused \/
          0 < rv /\ exists n, refused = S n /\ answers content ops rs n
      | NoFile => 0 < rv /\ answers content ops rs refused
      | OtherEntry => 0 <= rv /\ answers content ops rs refused
      end
  | _, _ => False
  end.

Lemma Backend_timer_ok b w : Backend_owns b ∅ w -> Backend_owns (Backend_timer b w).1 ∅ (Backend_timer b w).2 /\ calm w (Backend_timer b w).2.
Proof.
  intros Ho. destruct b as [| |head period]; [split; [done|apply host_calm_refl]..|]. cbn [Backend_timer]. unfold FDCache_handleTimerEvent.
  pose proof (removeExpired_owns head [] ∅ w Ho) as Hr. by destruct (removeExpired head w).
Qed.

Lemma Backend_destroy_ok b w : Backend_owns b ∅ w -> fds (Backend_destroy b w) = ∅.
Proof. intros Ho. destruct b; cbn in *; [by apply dom_empty_inv_L..|by apply clear_owns]. Qed.

Lemma file_run_ok ops : forall b w, Backend_owns b ∅ w -> Forall request_ok ops ->
  exists rs b' w' refused, file_run b w ops = Some (rs, b', w') /\ answers (entry w) ops rs refused /\ (failed w + refused <= failed w')%nat /\ Backend_owns b' ∅ w'.
Proof.
  induction ops as [|op ops IH]; intros b w Ho Hops; cbn [file_run]; [exists [], b, w, O; split_and!; [done|done|lia|done]|]. apply Forall_cons in Hops as [Hop Hops].
  destruct op as [path offset size|]; cbn [file_step].
  - destruct Hop as (Hp0 & Hp & Hoff & Hs). destruct (Backend_read_ok b w path offset size Ho Hp0 Hp Hoff Hs) as (rv & buffer & n & b1 & w1 & E & Ho1 & [Een Hf] & Hrv & Hno & Hfile). rewrite E. cbn [mbind option_bind].
    destruct (IH b1 w1 Ho1 Hops) as (rs & b' & w' & k & E' & Ha & Hk & Ho'). rewrite E'. cbn [mbind option_bind]. rewrite Een in Ha.
    set (r := (rv, if rv =? 0 then take (Z.to_nat n) buffer else [])). cbn [answers app]. fold r. destruct (entry w path) as [f| |] eqn:Ee.
    + destruct (Hfile f eq_refl) as [[-> Hdata]|[Hpos Hlt]].
      * exists (r :: rs), b', w', k. split_and!; [done| |lia|done]. subst r. left. by split_and!.
      * exists (r :: rs), b', w', (S k). split_and!; [done| |lia|done]. subst r. right. split; [done|]. by exists k.
    + exists (r :: rs), b', w', k. specialize (Hno eq_refl). split_and!; [done| |lia|done]. subst r. split; [lia|done].
    + exists (r :: rs), b', w', k. split_and!; [done| |lia|done]. subst r. by split.
  - destruct (Backend_timer_ok b w Ho) as [Ho1 [Een Hf]]. destruct (Backend_timer b w) as [b1 w1]. cbn [fst snd mbind option_bind] in *.
    destruct (IH b1 w1 Ho1 Hops) as (rs & b' & w' & k & E' & Ha & Hk & Ho'). rewrite E'. cbn [mbind option_bind]. exists rs, b', w', k. rewrite Een in Ha. split_and!; [done|done|lia|done].
Qed.

(** C25: for every sequence of requests (nonempty paths, offsets below 2 gigabytes, sizes from 1 to 65535) and timer events, at whatever times and whether there is memory for the
    cache or not: every request is answered; one for a regular file with exactly the bytes asked for, fewer only at the end of the file, or else with an error, and then a system
    call had failed (there are no more such answers than failed calls); one for a path that cannot be opened with an error; when the backend is
    destroyed every descriptor it opened has been closed. *)
Theorem posix_files_are_served w ops :
  fds w = ∅ -> Forall request_ok ops ->
  exists rs b w' refused, file_run NoCache w ops = Some (rs, b, w') /\ answers (entry w) ops rs refused /\ (failed w + refused <= failed w')%nat /\ fds (Backend_destroy b w') = ∅.
Proof.
  intros Hw Hops. destruct (file_run_ok ops NoCache w) as (rs & b & w' & k & E & Ha & Hk & Ho); [cbn; by rewrite Hw|done|].
  exists rs, b, w', k. split_and!; [done|done|done|by apply Backend_destroy_ok].
Qed.

(** The information on a regular file is its size. *)
Lemma getInfo_of_file w path (f : list Z) out_size out_flags : path <> [] -> posix_stat w path = (0, Z.of_nat (length f), false, true) -> Z.of_nat (length f) < 2 ^ 64 ->
  Backend_getInfo w path out_size out_flags = (0, Z.of_nat (length f), Z.lor FLAG_READABLE FLAG_FILE).
Proof. intros Hp Es Hl. unfold Backend_getInfo. destruct path; [done|]. rewrite Es. cbn [Z.ltb Z.compare]. rewrite wrap_small by (unfold in_width; lia). done. Qed.
End backend.

(** ** A host *)

Module SimPosix.
(** Descriptors are numbered from zero; [chunk] bounds what one [read] gives, every call of [time] takes [tick] seconds, [memory] is whether there is any; [glitches] says
    for the next calls of [open] and [read] whether they fail, and [fails] counts the calls that did. *)
Record Host := mkHost { content : gmap Path Entry; table : gmap Z (Path * Z); next_fd : Z; chunk : nat; clock : Z; tick : Z; memory : bool; glitches : list bool; fails : nat }.
Definition set_table (h : Host) (t : gmap Z (Path * Z)) (n : Z) : Host := mkHost (content h) t n (chunk h) (clock h) (tick h) (memory h) (glitches h) (fails h).
Definition fail (h : Host) : Host := mkHost (content h) (table h) (next_fd h) (chunk h) (clock h) (tick h) (memory h) (glitches h) (S (fails h)).
Definition glitch (h : Host) : bool * Host :=
  (hd false (glitches h), mkHost (content h) (table h) (next_fd h) (chunk h) (clock h) (tick h) (memory h) (tl (glitches h)) (fails h)).
Definition entry_at (h : Host) (path : Path) : Entry := default NoFile (content h !! path).
Definition is_none (e : Entry) : bool := match e with NoFile => true | _ => false end.
Definition EIO : Z := 5.

#[export] Instance Host_ops : IPosix Host := {
  posix_open h path oflags :=
    let '(g, h) := glitch h in
    if g || is_none (entry_at h path) then (-1, fail h)
    else let fd := Z.max 0 (next_fd h) in (fd, set_table h (<[fd := (path, 0)]> (table h)) (fd + 1));
  posix_close h fd := (0, set_table h (delete fd (table h)) (next_fd h));
  posix_lseek h fd offset :=
    match table h !! fd with Some (path, _) => (offset, set_table h (<[fd := (path, offset)]> (table h)) (next_fd h)) | None => (-1, fail h) end;
  posix_read h fd n :=
    let '(g, h) := glitch h in
    match table h !! fd with
    | Some (path, pos) =>
        match entry_at h path with
        | RegularFile f =>
            if g then (-1, [], set_table (fail h) (<[fd := (path, pos)]> (table h)) (next_fd h))
            else
              let bytes := take (Nat.min (Z.to_nat n) (S (chunk h))) (drop (Z.to_nat pos) f) in
              (Z.of_nat (length bytes), bytes, set_table h (<[fd := (path, pos + Z.of_nat (length bytes))]> (table h)) (next_fd h))
        | _ => (-1, [], set_table (fail h) (<[fd := (path, pos)]> (table h)) (next_fd h))
        end
    | None => (-1, [], fail h)
    end;
  posix_stat h path := match entry_at h path with RegularFile f => (0, Z.of_nat (length f), false, true) | OtherEntry => (0, 0, true, false) | NoFile => (-1, 0, false, false) end;
  posix_errno h := EIO;
  posix_time h := (clock h, mkHost (content h) (table h) (next_fd h) (chunk h) (clock h + tick h) (tick h) (memory h) (glitches h) (fails h));
  posix_strndup h path n := Some (take (Z.to_nat n) path);
  posix_new h := memory h
}.

(** The descriptors in use. *)
Definition in_use (h : Host) (x : Z * (Path * Z)) : Prop := x.1 < Z.max 0 (next_fd h) /\ is_none (entry_at h x.2.1) = false.
#[export] Instance in_use_dec h x : Decision (in_use h x).
Proof. unfold in_use. apply _. Defined.
Definition used (h : Host) : gmap Z (Path * Z) := filter (in_use h) (table h).

Lemma used_lookup h fd path pos : used h !! fd = Some (path, pos) -> table h !! fd = Some (path, pos) /\ in_use h (fd, (path, pos)).
Proof. unfold used. by rewrite map_lookup_filter_Some. Qed.

(** Moving the position of a descriptor. *)
Lemma used_insert h h' fd path pos pos' : used h !! fd = Some (path, pos) -> content h' = content h -> next_fd h' = next_fd h ->
  table h' = <[fd := (path, pos')]> (table h) -> used h' = <[fd := (path, pos')]> (used h).
Proof.
  intros [_ [Hu1 Hu2]]%used_lookup E1 E2 E3. apply map_eq. intros k. apply option_eq. intros x.
  assert (Hi : in_use h' (k, x) <-> in_use h (k, x)) by (unfold in_use, entry_at; by rewrite E1, E2).
  unfold used at 1. rewrite map_lookup_filter_Some, E3, Hi. destruct (decide (k = fd)) as [->|Hne].
  - rewrite !lookup_insert_eq. split; [by intros [? _]|]. intros [= <-]. done.
  - rewrite !lookup_insert_ne by done. unfold used. by rewrite map_lookup_filter_Some.
Qed.

#[export] Instance Host_laws O_RDONLY : PosixLaws O_RDONLY.
Proof.
  refine {| entry := entry_at; fds := used; failed := fails |}; cbn [posix_open posix_close posix_lseek posix_read posix_errno posix_time posix_strndup Host_ops glitch].
  - intros h path. set (h1 := mkHost _ _ _ _ _ _ _ _ _). change (entry_at h1) with (entry_at h). destruct (hd false (glitches h) || is_none (entry_at h path)) eqn:Eg.
    { split; [done|]. right. cbn. unfold EIO. split_and!; try done; lia. }
    apply orb_false_iff in Eg as [_ En]. split; [done|]. left. split_and!; [lia|intros E; by rewrite E in En| | |done].
    + apply map_lookup_filter_None. right. intros x _ [Hlt _]. cbn in Hlt. lia.
    + apply map_eq. intros k. unfold used, in_use. cbn [set_table table next_fd h1]. change (entry_at (set_table _ _ _)) with (entry_at h). destruct (decide (k = Z.max 0 (next_fd h))) as [->|Hne].
      * rewrite lookup_insert_eq. apply map_lookup_filter_Some. rewrite lookup_insert_eq. split; [done|]. cbn. split; [lia|done].
      * rewrite lookup_insert_ne by done. apply option_eq. intros x. rewrite !map_lookup_filter_Some, lookup_insert_ne by done. cbn.
        split; intros (E & Hlt & Hc); split_and!; try done; lia.
  - intros h fd. split_and!; [|done|done]. unfold used. cbn [set_table table snd]. apply map_filter_delete.
  - intros h fd path pos offset Hu Ho. pose proof (used_lookup _ _ _ _ Hu) as [E _]. rewrite E. split; [done|]. left. split_and!; [done|by eapply used_insert|done].
  - intros h fd path pos n Hu Hpos Hn. set (h1 := mkHost _ _ _ _ _ _ _ _ _). change (table h1) with (table h). change (entry_at h1) with (entry_at h).
    pose proof (used_lookup _ _ _ _ Hu) as [E _]. rewrite E.
    assert (Hbad : entry_at (set_table (fail h1) (<[fd := (path, pos)]> (table h)) (next_fd h1)) = entry_at h /\
      (exists pos', used (set_table (fail h1) (<[fd := (path, pos)]> (table h)) (next_fd h1)) = <[fd := (path, pos')]> (used h)))
      by (split; [done|exists pos; by eapply used_insert]).
    destruct (entry_at h path) as [f| |] eqn:Ee; [|by (split; [done|right; unfold EIO; split_and!; try done; try lia; apply Hbad])..].
    destruct (hd false (glitches h)); [by (split; [done|right; unfold EIO; split_and!; try done; try lia; apply Hbad])|].
    split; [done|]. left. split_and!; [done|rewrite length_take; lia|by eapply used_insert|done|]. intros f' Ef. injection Ef as <-. split.
    + set (g := drop (Z.to_nat pos) f). set (m := (_ `min` _)%nat). rewrite length_take. destruct (Nat.le_gt_cases m (length g)); [by rewrite Nat.min_l by lia|]. by rewrite Nat.min_r, !take_ge by lia.
    + intros Hlt He%(f_equal length). rewrite length_take, length_drop in He. cbn in He. lia.
  - intros h fd path pos [_ [_ Hc]]%used_lookup E. cbn in Hc. by rewrite E in Hc.
  - intros h. done.
  - intros h path n path' Hl [= <-]. apply take_ge. lia.
Defined.

(** A file of ten bytes, read four bytes at a time by a host that gives three, the entry of the cache being dropped between the second and the third request; there is a directory, too. *)
Definition sim_path : Path := [97].
Definition sim_dir : Path := [99].
Definition sim_file : list Z := seqZ 1 10.
Definition sim_host (memory : bool) (glitches : list bool) : Host := mkHost {[sim_path := RegularFile sim_file; sim_dir := OtherEntry]} ∅ 0 2 100 6 memory glitches 0.
Definition sim_ops : list FileOp := [FileRead sim_path 0 4; FileRead sim_path 4 4; FileTimer; FileTimer; FileRead [98] 0 4; FileRead sim_dir 0 4; FileRead sim_path 8 4].

Lemma sim_answers : forall memory, (fun x => x.1.1) <$> file_run 0 22 200 NoCache (sim_host memory []) sim_ops = Some [(0, [1; 2; 3; 4]); (0, [5; 6; 7; 8]); (5, []); (5, []); (0, [9; 10])].
Proof. intros []; by vm_compute. Qed.

(** The second [read] fails: the first request is refused, with three of its bytes read. *)
Lemma sim_read_error : (fun x => (x.1.1, fails x.2)) <$> file_run 0 22 200 NoCache (sim_host true [false; false; true]) [FileRead sim_path 0 4; FileRead sim_path 0 4] = Some ([(5, []); (0, [1; 2; 3; 4])], 1%nat).
Proof. by vm_compute. Qed.

(** The position does not fit the variable its error is looked for in: reading a file behind two gigabytes fails. *)
Lemma large_offset_is_an_error : (fun x => (x.1.1, fails x.2)) <$> file_run 0 22 200 NoCache (sim_host true []) [FileRead sim_path (2 ^ 31) 4] = Some ([(5, [])], 0%nat).
Proof. by vm_compute. Qed.

Lemma posix_files_are_served_witness :
  exists rs b w' refused, file_run 0 22 200 NoCache (sim_host true [false; false; true]) sim_ops = Some (rs, b, w') /\
    answers (entry 0 (sim_host true [false; false; true])) sim_ops rs refused /\ (failed 0 (sim_host true [false; false; true]) + refused <= failed 0 w')%nat /\ fds 0 (Backend_destroy b w') = ∅.
Proof.
  apply (posix_files_are_served 0 22 200 (sim_host true [false; false; true]) sim_ops); [reflexivity|]. unfold sim_ops, sim_path, sim_dir. repeat constructor; cbn; lia.
Defined.
End SimPosix.
