(* ===== verification/Stm32Clock.v ===== *)
(** * Stm32Clock: the clock for STM32 microcontrollers

    Models [libuavcan_drivers/stm32/driver/src/uc_stm32_clock.cpp]: the monotonic time and UTC counted with a 16 bit timer of one microsecond per
    tick, the correction of the rate of UTC, and the rate controller. The arithmetic of [float] is a class, so what is shown does not depend on rounding; the readings of
    the registers of the timer are arguments. Setting up the timer is left out. Critical sections and the mutex make every function a single step. *)

From S2P Require Import Prelude MonoTime.
Local Open Scope Z_scope.

(** [float]: conversions from and to integers, arithmetic, absolute value, comparison. *)
Class IFloat (F : Type) := {
  f_of_Z : Z -> F;
  f_to_i32 : F -> Z;
  fadd : F -> F -> F;
  fsub : F -> F -> F;
  fmul : F -> F -> F;
  fdiv : F -> F -> F;
  fopp : F -> F;
  fabs : F -> F;
  flt : F -> F -> bool
}.

Section clock.
Context {F : Type} `{IFloat F}.

(** [min] and [max] of [util/templates.hpp]. *)
Definition fmin (a b : F) : F := if flt b a then b else a.
Definition fmax (a b : F) : F := if flt a b then b else a.

Definition USecPerOverflow : Z := 65536.

(** [UtcSyncParams]. *)
Record UtcSyncParams := mkParams {
  offset_p : F;
  rate_i : F;
  rate_error_corner_freq : F;
  max_rate_correction_ppm : F;
  lock_thres_rate_ppm : F;
  lock_thres_offset : Z;
  min_jump : Z
}.

(** The variables of the clock. *)
Record Clock := mkClock {
  utc_set : bool;
  utc_locked : bool;
  utc_jump_cnt : Z;
  utc_sync_params : UtcSyncParams;
  utc_prev_adj : F;
  utc_rel_rate_ppm : F;
  utc_rel_rate_error_integral : F;
  utc_accumulated_correction_nsec : Z;
  utc_correction_nsec_per_overflow : Z;
  prev_utc_adj_at : Z;
  time_mono : Z;
  time_utc : Z
}.
Definition Clock_make (params : UtcSyncParams) : Clock := mkClock false false 0 params (f_of_Z 0) (f_of_Z 0) (f_of_Z 0) 0 0 0 0 0.

(** What a sample reads: [CNT], whether [UIF] is set, and [CNT] again. *)
Record Timer := mkTimer { CNT : Z; UIF : bool; CNT' : Z }.

(** [setUtc]. *)
Definition setUtc (c : Clock) (time : Z) : Clock :=
  mkClock true false (u32 (utc_jump_cnt c + 1)) (utc_sync_params c) (f_of_Z 0) (f_of_Z 0) (utc_rel_rate_error_integral c)
    (utc_accumulated_correction_nsec c) (utc_correction_nsec_per_overflow c) (prev_utc_adj_at c) (time_mono c) time.

(** [sampleUtcFromCriticalSection]. *)
Definition sampleUtcFromCriticalSection (c : Clock) (t : Timer) : Z :=
  let time := time_utc c in
  if UIF t then
    let add := swrap 32 (USecPerOverflow + Z.quot (swrap 32 (utc_accumulated_correction_nsec c + utc_correction_nsec_per_overflow c)) 1000) in
    u64 (u64 (i64 (i64 time + add)) + CNT' t)
  else u64 (time + CNT t).

Definition getUtcUSecFromCanInterrupt (c : Clock) (t : Timer) : Z := if utc_set c then sampleUtcFromCriticalSection c t else 0.

(** [getMonotonic] and [getUtc]. *)
Definition getMonotonic (c : Clock) (t : Timer) : Z :=
  let time := time_mono c in
  if UIF t then u64 (u64 (time + USecPerOverflow) + CNT' t) else u64 (time + CNT t).
Definition getUtc (c : Clock) (t : Timer) : Z := if utc_set c then sampleUtcFromCriticalSection c t else 0.

(** [lowpass] and [updateRatePID]; [t] is what [getMonotonic] reads. *)
Definition lowpass (xold xnew corner dt : F) : F :=
  let tau := fdiv (f_of_Z 1) corner in
  fdiv (fadd (fmul dt xnew) (fmul tau xold)) (fadd dt tau).

Definition updateRatePID (c : Clock) (adjustment : Z) (t : Timer) : Clock :=
  let params := utc_sync_params c in
  let ts := getMonotonic c t in
  let dt := fdiv (f_of_Z (Duration.toUSec (MTime.minus ts (prev_utc_adj_at c)))) (f_of_Z 1000000) in
  let adj_usec := f_of_Z (Duration.toUSec adjustment) in
  let target_rel_rate_ppm := fmul adj_usec (offset_p params) in
  let new_rel_rate_ppm := fdiv (fsub (utc_prev_adj c) adj_usec) dt in
  let rel_rate_ppm := lowpass (utc_rel_rate_ppm c) new_rel_rate_ppm (rate_error_corner_freq params) dt in
  let rel_rate_error := fsub target_rel_rate_ppm rel_rate_ppm in
  let limit := max_rate_correction_ppm params in
  let integral :=
    if flt (f_of_Z 10) dt then f_of_Z 0
    else fmin (fmax (fadd (utc_rel_rate_error_integral c) (fmul (fmul rel_rate_error dt) (rate_i params))) (fopp limit)) limit in
  let total_rate_correction_ppm := fadd rel_rate_error integral in
  let total_rate_correction_ppm := fmax total_rate_correction_ppm (fopp limit) in
  let total_rate_correction_ppm := fmin total_rate_correction_ppm limit in
  mkClock (utc_set c) (utc_locked c) (utc_jump_cnt c) params adj_usec rel_rate_ppm integral (utc_accumulated_correction_nsec c)
    (f_to_i32 (fmul (f_of_Z (USecPerOverflow * 1000)) (fdiv total_rate_correction_ppm (f_of_Z 1000000))))
    ts (time_mono c) (time_utc c).

(** [adjustUtc]. *)
Definition adjustUtc (c : Clock) (adjustment : Z) (t : Timer) : Clock :=
  if (min_jump (utc_sync_params c) <? Duration.getAbs adjustment) || negb (utc_set c) then
    let adj_usec := Duration.toUSec adjustment in
    let utc := if (adj_usec <? 0) && (time_utc c <? u64 (- adj_usec)) then 1 else u64 (i64 (i64 (time_utc c) + adj_usec)) in
    mkClock true false (u32 (utc_jump_cnt c + 1)) (utc_sync_params c) (f_of_Z 0) (f_of_Z 0) (utc_rel_rate_error_integral c)
      (utc_accumulated_correction_nsec c) (utc_correction_nsec_per_overflow c) (prev_utc_adj_at c) (time_mono c) utc
  else
    let c := updateRatePID c adjustment t in
    let params := utc_sync_params c in
    let locked :=
      if negb (utc_locked c) then
        flt (fabs (utc_rel_rate_ppm c)) (lock_thres_rate_ppm params) && flt (fabs (utc_prev_adj c)) (f_of_Z (Duration.toUSec (lock_thres_offset params)))
      else utc_locked c in
    mkClock (utc_set c) locked (utc_jump_cnt c) params (utc_prev_adj c) (utc_rel_rate_ppm c) (utc_rel_rate_error_integral c)
      (utc_accumulated_correction_nsec c) (utc_correction_nsec_per_overflow c) (prev_utc_adj_at c) (time_mono c) (time_utc c).

Definition getUtcRateCorrectionPPM (c : Clock) : F :=
  let rate_correction_mult := fdiv (f_of_Z (utc_correction_nsec_per_overflow c)) (f_of_Z (USecPerOverflow * 1000)) in
  fmul (f_of_Z 1000000) rate_correction_mult.
Definition getUtcJumpCount (c : Clock) : Z := utc_jump_cnt c.
Definition isUtcLocked (c : Clock) : bool := utc_locked c.
Definition getUtcSyncParams (c : Clock) : UtcSyncParams := utc_sync_params c.
Definition setUtcSyncParams (c : Clock) (params : UtcSyncParams) : Clock :=
  mkClock (utc_set c) (utc_locked c) (utc_jump_cnt c) params (utc_prev_adj c) (utc_rel_rate_ppm c) (utc_rel_rate_error_integral c)
    (utc_accumulated_correction_nsec c) (utc_correction_nsec_per_overflow c) (prev_utc_adj_at c) (time_mono c) (time_utc c).

(** [TIMX_IRQHandler]. *)
Definition correct (time acc : Z) : Z * Z :=
  if 1000 <=? Z.abs acc then (u64 (i64 (i64 time + Z.quot acc 1000)), Z.rem acc 1000) else (time, acc).
Definition decay (correction : Z) : Z := if 0 <? correction then correction - 1 else if correction <? 0 then correction + 1 else correction.
Definition TIMX_IRQHandler (c : Clock) : Clock :=
  let mono := u64 (time_mono c + USecPerOverflow) in
  if utc_set c then
    let '(utc, acc) := correct (u64 (time_utc c + USecPerOverflow)) (swrap 32 (utc_accumulated_correction_nsec c + utc_correction_nsec_per_overflow c)) in
    mkClock (utc_set c) (utc_locked c) (utc_jump_cnt c) (utc_sync_params c) (utc_prev_adj c) (utc_rel_rate_ppm c) (utc_rel_rate_error_integral c)
      acc (decay (utc_correction_nsec_per_overflow c)) (prev_utc_adj_at c) mono utc
  else
    mkClock (utc_set c) (utc_locked c) (utc_jump_cnt c) (utc_sync_params c) (utc_prev_adj c) (utc_rel_rate_ppm c) (utc_rel_rate_error_integral c)
      (utc_accumulated_correction_nsec c) (utc_correction_nsec_per_overflow c) (prev_utc_adj_at c) mono (time_utc c).

(** ** UTC *)

(** UTC in nanoseconds, with the part not yet counted. *)
Definition utc_nsec (c : Clock) : Z := time_utc c * 1000 + utc_accumulated_correction_nsec c.

(** The correction is smaller than the period, what is not yet counted below a microsecond; [bound] is where the time is. *)
Record clock_ok (bound : Z) (c : Clock) : Prop := {
  ck_acc : Z.abs (utc_accumulated_correction_nsec c) < 1000;
  ck_corr : Z.abs (utc_correction_nsec_per_overflow c) <= 65000000;
  ck_utc : 10 ^ 6 <= time_utc c <= bound
}.

(** The effect of a correction on a time in range. *)
Lemma correct_ok time acc : 10 ^ 6 <= time < 2 ^ 62 -> Z.abs acc <= 10 ^ 8 ->
  let '(utc, acc') := correct time acc in utc * 1000 + acc' = time * 1000 + acc /\ Z.abs acc' < 1000 /\ utc = time + Z.quot acc 1000.
Proof.
  intros Ht Ha. unfold correct. pose proof (Z.quot_rem' acc 1000) as Hq. pose proof (Z.rem_bound_abs acc 1000 ltac:(lia)) as Hr. destruct (Z.leb_spec 1000 (Z.abs acc)).
  - assert (Hqb : Z.abs (Z.quot acc 1000) <= 10 ^ 5) by lia. rewrite (swrap_small 64 time), (swrap_small 64), wrap_small by (unfold in_width; lia). lia.
  - assert (Hz : Z.quot acc 1000 = 0) by (destruct (Z.le_gt_cases 0 acc); [apply Z.quot_small; lia|rewrite <-(Z.opp_involutive acc), Z.quot_opp_l, Z.quot_small; lia]). rewrite Hz. lia.
Qed.

Lemma decay_abs correction : Z.abs (decay correction) = Z.max 0 (Z.abs correction - 1).
Proof. unfold decay. destruct (Z.ltb_spec 0 correction); [lia|]. destruct (Z.ltb_spec correction 0); lia. Qed.

(** The time after an interrupt, whether corrected or not. *)
Lemma irq_utc bound c : clock_ok bound c -> bound < 2 ^ 61 -> utc_set c = true ->
  let c' := TIMX_IRQHandler c in
  utc_nsec c' = utc_nsec c + 65536000 + utc_correction_nsec_per_overflow c /\
  utc_correction_nsec_per_overflow c' = decay (utc_correction_nsec_per_overflow c) /\
  time_utc c' = time_utc c + 65536 + Z.quot (utc_accumulated_correction_nsec c + utc_correction_nsec_per_overflow c) 1000 /\
  utc_set c' = true /\ clock_ok (bound + 131072) c'.
Proof.
  intros [H1 H2 H3] Hb Hs. cbv zeta. unfold TIMX_IRQHandler, USecPerOverflow. rewrite Hs. rewrite (swrap_small 32), (wrap_small 64 (time_utc c + 65536)) by (unfold in_width; lia).
  set (acc := utc_accumulated_correction_nsec c + utc_correction_nsec_per_overflow c). pose proof (correct_ok (time_utc c + 65536) acc ltac:(lia) ltac:(lia)) as Hc.
  destruct (correct _ acc) as [utc acc']. destruct Hc as (E1 & E2 & E3). unfold utc_nsec. cbn [time_utc utc_accumulated_correction_nsec utc_correction_nsec_per_overflow utc_set].
  split_and!; [lia|done|done|done|]. split; cbn [time_utc utc_accumulated_correction_nsec utc_correction_nsec_per_overflow]; [done|rewrite decay_abs; lia|lia].
Qed.

(** [n] interrupts, and the sum of the corrections they make. *)
Fixpoint irqs (n : nat) (c : Clock) : Clock := match n with O => c | S n => irqs n (TIMX_IRQHandler c) end.
Fixpoint corrections (n : nat) (correction : Z) : Z := match n with O => 0 | S n => correction + corrections n (decay correction) end.

(** A correction fades out after as many overflows as it has nanoseconds. *)
Lemma corrections_fade n correction : Z.abs correction <= Z.of_nat n -> 2 * corrections n correction = correction * (Z.abs correction + 1).
Proof.
  revert correction. induction n as [|n IH]; intros x Hx; [cbn; lia|]. cbn [corrections]. pose proof (decay_abs x) as Hd. specialize (IH (decay x) ltac:(lia)). rewrite Hd in IH.
  replace (2 * (x + corrections n (decay x))) with (2 * x + 2 * corrections n (decay x)) by lia. rewrite IH. unfold decay. destruct (Z.ltb_spec 0 x); [nia|]. destruct (Z.ltb_spec x 0); nia.
Qed.

Lemma irqs_utc n : forall bound c, clock_ok bound c -> bound + Z.of_nat n * 131072 < 2 ^ 61 -> utc_set c = true ->
  utc_nsec (irqs n c) = utc_nsec c + Z.of_nat n * 65536000 + corrections n (utc_correction_nsec_per_overflow c) /\ clock_ok (bound + Z.of_nat n * 131072) (irqs n c) /\ utc_set (irqs n c) = true.
Proof.
  induction n as [|n IH]; intros bound c Hc Hb Hs; cbn [irqs corrections]; [rewrite Z.mul_0_l, !Z.add_0_r; done|].
  destruct (irq_utc bound c Hc ltac:(lia) Hs) as (E1 & E2 & _ & Hs' & Hc'). destruct (IH _ _ Hc' ltac:(lia) Hs') as (E3 & Hc2 & Hs2). rewrite E1, E2 in E3. split_and!; [lia| |done].
  replace (bound + Z.of_nat (S n) * 131072) with (bound + 131072 + Z.of_nat n * 131072) by lia. done.
Qed.

(** While the rate is corrected UTC loses nothing to rounding: after [n] overflows it has advanced by exactly their time and the corrections asked for, to the nanosecond; and it does
    not matter to a reader whether the interrupt of an overflow has been served or is still pending. *)
Theorem stm32_utc_is_exact bound c n cnt cnt' :
  clock_ok bound c -> bound + Z.of_nat n * 131072 < 2 ^ 60 -> utc_set c = true -> 0 <= cnt' < 65536 ->
  utc_nsec (irqs n c) = utc_nsec c + Z.of_nat n * 65536000 + corrections n (utc_correction_nsec_per_overflow c) /\
  getUtc (irqs n c) (mkTimer cnt true cnt') = getUtc (irqs (S n) c) (mkTimer cnt' false cnt').
Proof.
  intros Hc Hb Hs Hcnt. destruct (irqs_utc n bound c Hc ltac:(lia) Hs) as (E & Hn & Hsn). split; [exact E|].
  assert (Esucc : forall m x, irqs (S m) x = TIMX_IRQHandler (irqs m x)) by (intros m; induction m as [|m IH]; intros x; [done|apply (IH (TIMX_IRQHandler x))]). rewrite Esucc.
  destruct (irq_utc _ _ Hn ltac:(lia) Hsn) as (_ & _ & Et & Hs' & _). unfold getUtc. rewrite Hsn, Hs'. unfold sampleUtcFromCriticalSection. cbn [UIF CNT CNT']. rewrite Et. destruct Hn as [H1 H2 H3].
  rewrite (swrap_small 32 (_ + utc_correction_nsec_per_overflow _)) by lia. set (q := Z.quot _ 1000).
  assert (Hq : Z.abs q <= 10 ^ 5) by (unfold q; pose proof (Z.quot_rem' (utc_accumulated_correction_nsec (irqs n c) + utc_correction_nsec_per_overflow (irqs n c)) 1000); pose proof (Z.rem_bound_abs (utc_accumulated_correction_nsec (irqs n c) + utc_correction_nsec_per_overflow (irqs n c)) 1000 ltac:(lia)); lia).
  unfold USecPerOverflow. rewrite (swrap_small 32 (65536 + q)), (swrap_small 64 (time_utc _)), (swrap_small 64) by lia. rewrite (wrap_small 64 (time_utc (irqs n c) + (65536 + q))) by (unfold in_width; lia). f_equal. lia.
Qed.

(** ** The monotonic clock *)

(** The counter [n] microseconds after the start, and what a sample reads at [n1], [n2] and [n3] when [k] overflows were served. *)
Definition timer_at (k n1 n2 n3 : Z) : Timer := mkTimer (n1 mod USecPerOverflow) (k <? n2 / USecPerOverflow) (n3 mod USecPerOverflow).

(** A sample in which at most one overflow is not served. *)
Record sampled (k n1 n2 n3 : Z) : Prop := { sp_served : k * USecPerOverflow <= n1; sp_order : n1 <= n2 <= n3; sp_end : n3 < (k + 2) * USecPerOverflow }.

Lemma irqs_mono n c : is_u64 (time_mono c) -> time_mono (irqs n c) = u64 (time_mono c + Z.of_nat n * USecPerOverflow).
Proof.
  revert c. induction n as [|n IH]; intros c Hc; cbn [irqs]; [by rewrite Z.mul_0_l, Z.add_0_r, wrap_small|].
  assert (E : time_mono (TIMX_IRQHandler c) = u64 (time_mono c + USecPerOverflow)) by (unfold TIMX_IRQHandler; destruct (utc_set c); [|done]; by destruct (correct _ _)).
  rewrite IH by (rewrite E; by apply wrap_range). rewrite E. unfold wrap. rewrite Z.add_mod_idemp_l by lia. f_equal. lia.
Qed.

Lemma monotonic_is_time c k n1 n2 n3 : 0 <= k -> time_mono c = u64 (k * USecPerOverflow) -> sampled k n1 n2 n3 ->
  exists n, n1 <= n <= n3 /\ getMonotonic c (timer_at k n1 n2 n3) = u64 n.
Proof.
  intros Hk Hm [H1 [H2 H2'] H3]. unfold getMonotonic, timer_at. cbn [UIF CNT CNT']. rewrite Hm. unfold USecPerOverflow in *.
  pose proof (Z.div_mod n1 65536 ltac:(lia)) as D1. pose proof (Z.div_mod n2 65536 ltac:(lia)) as D2. pose proof (Z.div_mod n3 65536 ltac:(lia)) as D3.
  pose proof (Z.mod_pos_bound n1 65536 ltac:(lia)). pose proof (Z.mod_pos_bound n2 65536 ltac:(lia)). pose proof (Z.mod_pos_bound n3 65536 ltac:(lia)).
  destruct (Z.ltb_spec k (n2 / 65536)) as [Hp|Hp]; [exists n3|exists n1]; (split; [lia|]); unfold wrap; [rewrite (Z.add_mod_idemp_l (k * 65536) 65536) by lia|]; rewrite Z.add_mod_idemp_l by lia; f_equal; lia.
Qed.

(** Two samples of the clock one after the other, each at some instant between its readings: the time read is the time since the start at an instant of the sample, and does not go back. *)
Theorem stm32_clock_is_monotonic params k n1 n2 n3 k' n1' n2' n3' :
  sampled (Z.of_nat k) n1 n2 n3 -> sampled (Z.of_nat k') n1' n2' n3' -> n3 <= n1' -> n3' < 2 ^ 64 ->
  let m := getMonotonic (irqs k (Clock_make params)) (timer_at (Z.of_nat k) n1 n2 n3) in
  let m' := getMonotonic (irqs k' (Clock_make params)) (timer_at (Z.of_nat k') n1' n2' n3') in
  n1 <= m <= n3 /\ m <= m'.
Proof.
  intros Hs Hs' Hn Hw. cbv zeta.
  assert (Hm : forall j, time_mono (irqs j (Clock_make params)) = u64 (Z.of_nat j * USecPerOverflow)) by (intros j; rewrite irqs_mono; [done|unfold in_width; cbn; lia]).
  destruct (monotonic_is_time (irqs k (Clock_make params)) _ _ _ _ (Zle_0_nat k) (Hm k) Hs) as (n & Hr & ->).
  destruct (monotonic_is_time (irqs k' (Clock_make params)) _ _ _ _ (Zle_0_nat k') (Hm k') Hs') as (n' & Hr' & ->).
  destruct Hs as [Ha _ _]. assert (0 <= n1) by (unfold USecPerOverflow in Ha; lia). rewrite !wrap_small by (unfold in_width; lia). lia.
Qed.

(** ** The controller *)

(** Whatever it computes, the rate is within the limit when the order is irreflexive and the limit is not negative; what is not a number passes. *)
Lemma rate_within_limit x limit : (forall y, flt y y = false) -> flt limit (fopp limit) = false ->
  let rate := fmin (fmax x (fopp limit)) limit in flt rate (fopp limit) = false /\ flt limit rate = false.
Proof.
  intros Hirr Hl. cbv zeta. unfold fmin, fmax. destruct (flt x (fopp limit)) eqn:E1.
  - rewrite Hl. auto.
  - destruct (flt limit x) eqn:E2; auto.
Qed.

(** So the correction is bounded if the conversion keeps the limit. *)
Lemma correction_bounded c adjustment t bound :
  (forall y, flt y y = false) -> flt (max_rate_correction_ppm (utc_sync_params c)) (fopp (max_rate_correction_ppm (utc_sync_params c))) = false ->
  (forall rate, flt rate (fopp (max_rate_correction_ppm (utc_sync_params c))) = false -> flt (max_rate_correction_ppm (utc_sync_params c)) rate = false ->
     Z.abs (f_to_i32 (fmul (f_of_Z (USecPerOverflow * 1000)) (fdiv rate (f_of_Z 1000000)))) <= bound) ->
  Z.abs (utc_correction_nsec_per_overflow (updateRatePID c adjustment t)) <= bound.
Proof. intros Hirr Hl Hb. cbn [updateRatePID utc_correction_nsec_per_overflow]. apply Hb; by apply rate_within_limit. Qed.

(** An adjustment that is not gradual takes effect at once, and never makes the time zero or negative. *)
Lemma utc_jump c adjustment t : (min_jump (utc_sync_params c) <? Duration.getAbs adjustment) || negb (utc_set c) = true -> 0 <= time_utc c < 2 ^ 62 -> Z.abs adjustment < 2 ^ 62 ->
  let c' := adjustUtc c adjustment t in
  time_utc c' = (if time_utc c + adjustment <? 0 then 1 else time_utc c + adjustment) /\ utc_set c' = true /\ isUtcLocked c' = false /\ getUtcJumpCount c' = u32 (getUtcJumpCount c + 1).
Proof.
  intros Hj Ht Ha. cbv zeta. unfold adjustUtc. rewrite Hj. cbn [time_utc utc_set isUtcLocked utc_locked getUtcJumpCount utc_jump_cnt]. split_and!; try done.
  unfold Duration.toUSec. destruct (Z.ltb_spec adjustment 0); cbn [andb].
  - rewrite (wrap_small 64 (- adjustment)) by (unfold in_width; lia). destruct (Z.ltb_spec (time_utc c) (- adjustment)), (Z.ltb_spec (time_utc c + adjustment) 0); try lia.
    rewrite (swrap_small 64 (time_utc c)), (swrap_small 64), wrap_small by (unfold in_width; lia). done.
  - destruct (Z.ltb_spec (time_utc c + adjustment) 0); [lia|]. rewrite (swrap_small 64 (time_utc c)), (swrap_small 64), wrap_small by (unfold in_width; lia). done.
Qed.
End clock.

Module SimFloat.
(** Fixed point numbers with six decimals. *)
#[export] Instance Fixed_ops : IFloat Z := {
  f_of_Z z := z * 1000000; f_to_i32 x := swrap 32 (Z.quot x 1000000); fadd := Z.add; fsub := Z.sub;
  fmul x y := Z.quot (x * y) 1000000; fdiv x y := Z.quot (x * 1000000) y; fopp := Z.opp; fabs := Z.abs; flt := Z.ltb
}.
(** The default parameters. *)
Definition default_params : UtcSyncParams (F := Z) := mkParams 10000 20000 10000 300000000 2000000 4000 10000.

(** The first adjustment sets the time, the second one changes the rate, which 20000 overflows later has faded. *)
Definition sim_clock : Clock (F := Z) := adjustUtc (adjustUtc (Clock_make default_params) 5000000 (mkTimer 0 false 0)) 2000 (mkTimer 0 false 0).
Lemma stm32_utc_is_exact_example : utc_nsec (irqs (Z.to_nat 20000) sim_clock) = 5000000000 + 20000 * 65536000 + utc_correction_nsec_per_overflow sim_clock * (utc_correction_nsec_per_overflow sim_clock + 1) / 2 /\
  0 < utc_correction_nsec_per_overflow sim_clock.
Proof. by vm_compute. Qed.
End SimFloat.
